(* ===== verification/_CoqProject ===== *)
-Q . S2P
Prelude.v
RustStr.v
ChildEnv.v
Sandboxing.v
PolicyFile.v
PolicyEngine.v
AuditLog.v
Time.v
Replay.v
CanonicalJson.v
Schema.v
SeccompProfile.v
Signing.v
Room.v
Invocation.v
TaskLifecycle.v
NonceGuard.v
EventRouter.v
Frame.v
Trust.v
Approval.v
LiveAuth.v
ResultPlane.v
Presence.v
Runner.v
LiveHandlers.v
LiveCorrect.v
Orchestrator.v
ToolDispatch.v
OrchestratorCorrect.v
TaskGraph.v
Diagnostics.v
Scheduler.v
SchedulerLoop.v
Streams.v
Reassembly.v
Sharing.v
DataDir.v
SyncLoop.v
Workspace.v
Watch.v
PolicyLoad.v
ExecIpc.v
IpcServer.v
Supervisor.v
Orphans.v
Ids.v
Telemetry.v
Terminal.v
MatrixDispatch.v
Devices.v
Lifecycle.v
Console.v
CommandLine.v
Commands.v
SchedulerPass.v
Agents.v
