(* ===== verification/Prelude.v ===== *)
(** * mx-agent: a verification library

    mx-agent lets software agents in a Matrix room run commands and tools for one
    another.  A daemon on each host watches its rooms, decides what it may run, runs
    it in a sandbox and reports back; a command line talks to the daemon over a local
    socket.  The library models the daemon's decision logic: who may run what, under
    which policy, with whose signature and approval, how often, and what the task
    records say afterwards.  Paths below are relative to [src/crates].

    ** Parts of the program and the files that model them

    - Values and text.  [RustStr]: the [str], [Path] and integer-parsing operations
      the source uses.  [Time]: [parse_rfc3339_to_unix], [days_from_civil] of
      [mx-agent-daemon/src/replay.rs] and [unix_to_rfc3339] of [task.rs].
    - Policy.  [PolicyFile]: [mx-agent-policy/src/file.rs], the data model, validation
      and loading (the TOML parser and the regex compiler are arguments).
      [PolicyEngine]: [engine.rs], the decision functions [evaluate_exec] and
      [evaluate_call] and the allowance they grant.
    - Replay protection.  [Replay]: [mx-agent-daemon/src/replay.rs], the cache of
      single-use nonces with pruning, eviction, persistence, quarantine of a corrupt
      file and [forget].  [NonceGuard]: what its clients rely on, as a type class with
      laws, and the proof that the cache satisfies them.
    - Events.  [EventRouter]: [event_router.rs], the gates an event of a sync passes
      before a handler sees it.  [Frame]: [mx-agent-ipc/src/frame.rs], message framing
      on the local socket.
    - Signed content.  [CanonicalJson]: [mx-agent-protocol/src/canonical_json.rs].
      [Schema]: the structs of [schema.rs] and the JSON derived for those that are
      signed or stored.  [Signing]: [signing.rs] of the protocol, the key ids of the
      daemon's [signing.rs] and the task-action signatures of [task_orchestrator.rs];
      Ed25519, SHA-256 and base64 are the class [Crypto], their documented behaviour
      is [CryptoLaws], and [Toy] is an instance.
    - Trust.  [Trust]: the local store of [trust.rs] and the room trust state of
      [trust_state.rs].
    - Tasks.  [Room]: the room's state events and the homeserver's answers, as a state
      and error monad.  [Invocation]: [invocation.rs].  [TaskLifecycle]: [task.rs].
      [TaskGraph]: [task_graph.rs].  [Scheduler]: [scheduler.rs].
    - Approvals.  [Approval]: [approval.rs], the queue of held requests, the
      verification of decisions and the release of live holds.
    - Orchestration.  [Orchestrator]: [task_orchestrator.rs], the pass over one task
      ([process_one]), restart recovery and the queue-backed approval gate; the traits
      [TaskStore], [TaskDispatcher] and [TaskApprovalGate] are classes.
      [OrchestratorCorrect]: its theorems.
    - Live requests.  [ChildEnv]: the environment rules of [runner.rs].  [AuditLog]:
      [audit.rs].  [LiveAuth]: the receive-side gates of [exec.rs] and [call.rs] and the
      functions that build and sign requests.  [LiveHandlers]: the handlers of
      [exec.rs], [call.rs], [sync.rs] and the expiry sweep of [scheduler_loop.rs], over
      the state they share.  [LiveCorrect]: their theorems.
    - Processes.  [Sandboxing]: the backends of [mx-agent-sandbox/src/lib.rs] and the
      trampoline of [launcher.rs].  [SeccompProfile]: [seccomp.rs].  [Runner]:
      [runner.rs], the spawn of [pty.rs] and the run specifications of [exec.rs],
      [exec_ipc.rs] and [pty_ipc.rs].
    - Dispatch.  [ToolDispatch]: [tool_exec.rs], [tools.rs] and [task_dispatch.rs].
      [MatrixDispatch]: [task_dispatch_matrix.rs], over [ExecIpc].
      [SchedulerLoop]: [scheduler_loop.rs], the store and one tick of the loop.
      [SchedulerPass]: the rest of it, the pass over rooms and agents and the loop.
    - Agents.  [Agents]: [agent.rs], registration and queries, and the file of [trust.rs].
    - Output.  [Streams]: [stream.rs], the two readers of a child's output and their
      shared byte budget.  [Reassembly]: [mx-agent-cli/src/stream.rs], reordering and
      rendering.  [Sharing]: [artifact.rs] and [context.rs], large output and shared
      context as uploaded media.
    - Results.  [ResultPlane]: [result_verify.rs], [exec_subscribers.rs] and the
      forwarding of [sync.rs] and [call.rs].  [Presence]: [heartbeat.rs], [inflight.rs]
      and the listings of [agent.rs].  [Diagnostics]: [task_diagnostics.rs].
    - The daemon's ends.  [DataDir]: [session.rs] and the key file of the daemon's
      [signing.rs], over a file system whose calls may be cut off.  [SyncLoop]: the loop
      of [sync.rs].  [Workspace]: [workspace.rs], over the class [MatrixServer].
      [Watch]: [watch.rs].  [PolicyLoad]: [policy.rs] and the gate of [lifecycle.rs].
      [ExecIpc]: [exec_ipc.rs], [call_ipc.rs] and the requesting side of [call.rs].
      [IpcServer]: the messages, server, client, peer check and socket of [mx-agent-ipc]
      and the request dispatch of [lifecycle.rs].  [Supervisor]: the generations of
      background workers of [lifecycle.rs].  [Orphans]: the registry of live process groups
      of [exec.rs] and the janitor of a restart.
    - Terminals.  [Terminal]: [pty_ipc.rs], the PTY run of [exec.rs] and the terminal client
      of [mx-agent-cli/src/cli.rs].
    - Devices.  [Devices]: [verification.rs], [device_ipc.rs], [recovery_ipc.rs], the
      dispatcher of [device.verify.start] in [lifecycle.rs] and its client in [cli.rs], over the
      class [CryptoSdk].
    - The process.  [Lifecycle]: the paths, status file, start and stop of [lifecycle.rs].
    - The command line, [mx-agent-cli/src/cli.rs].  [Console]: printing, the call to the
      daemon and the parameters of its methods ([ipc.rs]); the methods are a family indexed
      by the types of their parameters and results, the operating system is the class
      [System], serialization the class [Wire].  [CommandLine]: the parsers of arguments and
      the commands [exec], [call], [task create] and [task update].  [Commands]: the other
      command groups and the dispatch [run]; what works on the data directory and the
      daemon's process is the class [Services].
    - [Ids]: [id.rs] of the protocol.  [Telemetry]: [mx-agent-telemetry/src/lib.rs].
    - This file: [Result] and its [let?], the state-error monad and its [let!],
      stable sorting, ordered maps, the shared list lemmas and tactics.

    A pass of the orchestrator ties the parts together: the scheduler picks ready tasks;
    the pass checks the signature over the canonical bytes against the trust store,
    asks the policy engine, asks the approval gate, burns the authorization's nonce in
    the replay cache, claims the task by a revision-guarded update, and only then
    dispatches; the outcome is written back as task state.  A live request takes the
    same gates without a task: the router hands an event to a handler, the handler
    authorizes it and runs it, holds it for approval or answers with a rejection.  Both
    paths end in a run specification, which the runner turns into a sandboxed command.
    On the requesting host [ExecIpc] builds what [LiveAuth] checks, [ResultPlane] delivers
    what the executor's [Streams] sent, and [Reassembly] renders it.

    ** What the theorems show

    - Orchestration: nothing reaches the dispatcher without passing every gate; over
      passes that share one replay cache no authorization is dispatched twice; a lost
      claim gives its nonces back and nothing else; recovery after a restart runs
      nothing and updates only orphaned tasks; an undecided hold expires at the
      deadline it was first queued with.
    - Policy: [evaluate_exec] and [evaluate_call] allow exactly what the documented
      gates permit; under a validated policy a permitted working directory resolves
      inside an allowed one; restricting a policy never allows more; validation
      accepts exactly the well-formed policies and locates its errors.
    - Replay: a nonce is admitted at most once while its window is open and the cache
      has room, across restarts too; a corrupt cache stays closed.
    - Events: a handler sees an event only past every gate, and no request twice while
      the cache has room and the clock does not run backwards; without room it can (a
      finding).
      Frames read back exactly whatever the read sizes, and a cut stream is noticed.
    - Signing: canonical bytes determine a value up to key order; the signed bytes
      determine every field they should; what is signed verifies.
    - Trust and approvals: the last local decision wins and room state never overrides
      it; only verified decisions count; a hold is decided at most once, as long as its
      release is saved and no pass writes an older queue.
    - Tasks: over any history every write is an allowed change of the version its writer
      read; where reads do not lag, states follow the lifecycle, terminal states are final
      and revisions advance; of two updates guarded by one revision at most one
      succeeds; cancelling reconciles a task with its invocation; the scheduler is
      bounded by capacity and leaves none of it unused; cycle detection is sound and
      says acyclic exactly when the graph is.
    - Live requests: a request runs only if it was addressed to an agent of this account
      and authorized, directly or by a verified decision, and an exec request is run, held
      or refused exactly as its gates say; everything sent is signed; a session receives exactly the controls of an
      abstract log that admits each signed frame once; audit records keep no secret
      value.
    - Processes: every command is spawned with the confinement its restrictions ask for,
      with no inherited secret; the trampoline executes nothing when a cap or the filter
      cannot be applied; the two seccomp profiles agree; a run with a deadline ends, and
      the two ways in which it does not are recorded.
    - Dispatch: a tool takes the arguments it advertises, empty strings and nulls apart;
      the live, local and task paths confine a command alike, their time limits apart; a
      tick settles each task once.
    - Output: for every interleaving of the readers the capture carries all of the output
      or exactly its cap; what was captured is rendered byte for byte under any delivery
      within the reorder window, and an unreported loss is the tail of a stream; a large
      output, uploaded, is retrieved byte for byte.
    - Results: a subscription is the log of its executor's signed events; a result is
      accepted exactly with the executor's published and trusted key.
    - The daemon's ends: no sequence of data-directory operations, wherever cut off,
      leaves a secret readable or touches anything outside, whatever a device id says;
      concurrent creators of the signing key agree; the sync token never stands beyond
      an event that the homeserver sent and no handler was given; the power levels of
      a room stand for the granted roles, while nobody else changes them; the policy
      that judges remote requests is the valid file or denies everything, and a broken
      file is never silent; a remote command is asked for once and reported as its
      room reported it, and a local one byte for byte; every request on the local
      socket but the streaming ones is answered, in order; of any number of starting
      daemons one gets the socket; reloads that do not overlap keep one generation of
      workers; and after a crash the children last recorded are killed and nothing
      else.
    - Terminals: under every interleaving of its threads a session shows the program's output
      up to the cap and ends with its status, what is typed is what the program gets, and a
      session on another agent whose events all arrive shows and does the same.  A task sent over the signed
      transport is asked for once and its result is the finish event's.
    - Devices: an interactive verification ends and follows its protocol whatever the peer and
      the client do; with the command line client, a device is confirmed exactly if its
      operator said so to the string that this exchange reported; the verified-device gate is
      exact and fails safe.
    - The process: while daemons start and stop in an orderly way the status file names the
      one that listens; it is replaced whole; a stop
      ends and signals at most the process named.
    - The command line: what the shell sees of a command run through the daemon on this host
      is its output and its exit code; a command that needs the daemon sends one request, for
      a method the daemon dispatches, and succeeds only when the daemon accepts it, and one
      that does not need it sends none; bad arguments never reach the daemon; a watch shows
      each update as the daemon's watch reports it.
    - The scheduler: whatever its loop hands to a dispatcher is authorized, by what the rooms
      and the files said in that pass; its sleep ends at most one step after it is told to.
    - Agents: a registration publishes what it returns under the key the daemon signs with,
      and, if the trust store can be read, never changes a record of that key; queries with and without liveness agree.
    - Identifiers are classified exactly; log lines are a function of what is not secret.
    - Time: formatting and parsing are inverse up to the year 9999; the date formulas
      follow the calendar; no intermediate value overflows.
    Some theorems record behaviour that differs from a comment or is a defect; they are
    listed as findings in the manifest.

    ** Conventions, bounds and fuel

    Machine integers are [Z] or [N] with their wrap-around, saturation or checks written
    out.  Clock readings, generated ids, file outcomes, homeserver answers and text
    rendering by [Debug] are arguments.  A [BTreeMap] or [HashMap] is a [gmap]; where
    the order of a [HashMap] can be observed it is an argument known only to be a
    permutation.  Panics are [None].  Fuel appears in these places: the cycle search,
    with two steps per node and one per edge, rendering, with two levels more than
    there are nodes, reading a frame, with one read per byte wanted and per listed
    event, reading a slice, with one read per byte, and the wait for a remote result,
    with one receive per five-second window and per event; these bounds are proved to be
    enough.  The loops that wait for a deadline (a device verification, [stop]) have any
    fuel, and are proved to end for every clock that passes the deadline; a watch on the
    command line, which lasts until the daemon closes, has one step per update.  Eviction in the
    replay cache recurses on the number of entries.

    The build is the one for Linux.  What a program outside the repository makes of its
    arguments is a class of documented arities ([BwrapCli], [ContainerCli]) with an
    instance; what a child process does in time is a record ([Child]), and what the
    operating system answers to the runner another ([RunEnv]).  Durations of the runner
    are milliseconds.

    ** Not modelled

    The Matrix SDK with its crypto machine, sockets, the parser that clap derives from the
    argument types, the [generate] command (completions and man pages, made by clap) and the
    guards that set and restore the modes of the local terminal: effects outside the program's
    own logic. *)
From stdpp Require Import gmap strings list fin_maps sorting pretty.

#[export] Set Warnings "-clear-no-such-hyp".

(** ** Rust's [Result] *)

Inductive result (T E : Type) : Type :=
| Ok (t : T)
| Err (e : E).
Arguments Ok {_ _} _.
Arguments Err {_ _} _.

#[export] Instance result_eq_dec {T E} `{EqDecision T, EqDecision E} : EqDecision (result T E).
Proof. solve_decision. Defined.

Declare Scope rust_scope.
Delimit Scope rust_scope with rust.

(** [let? x := e in k] is Rust's [let x = e?; k]. *)
Notation "'let?' p ':=' e 'in' k" :=
  (match e with Ok p => k | Err err => Err err end)
  (at level 10, p pattern, e at level 200, k at level 200, only parsing) : rust_scope.
Open Scope rust_scope.

Definition is_ok {T E} (r : result T E) : bool := match r with Ok _ => true | Err _ => false end.
Definition is_err {T E} (r : result T E) : bool := negb (is_ok r).

(** [ok_or]: an [Option] turned into a [Result]. *)
Definition ok_or {T E} (o : option T) (e : E) : result T E :=
  match o with Some t => Ok t | None => Err e end.

Definition is_some {A} (o : option A) : bool := match o with Some _ => true | None => false end.

(** [Option::or] and [Option::unwrap_or]. *)
Definition opt_or {A} (x y : option A) : option A := match x with Some _ => x | None => y end.
Definition unwrap_or {A} (x : option A) (d : A) : A := match x with Some a => a | None => d end.

(** ** Tactics *)

(** Case on every scrutinee of a [match] or [if] that the hypotheses or the
    goal are stuck on, remembering the equation. *)
Ltac step_match :=
  match goal with
  | H : context [match ?x with _ => _ end] |- _ =>
      lazymatch x with context [match _ with _ => _ end] => fail | _ => destruct x eqn:? end
  | |- context [match ?x with _ => _ end] =>
      lazymatch x with context [match _ with _ => _ end] => fail | _ => destruct x eqn:? end
  | H : match ?x with _ => _ end = _ |- _ => destruct x eqn:?
  end.
Ltac crush_match := repeat (simplify_eq/=; try step_match); simplify_eq/=.

(** Turn boolean facts of the code into propositions. *)
Create HintDb mx discriminated.
Ltac bool_prop :=
  repeat match goal with
  | H : andb _ _ = true |- _ => apply andb_true_iff in H as [? ?]
  | H : orb _ _ = false |- _ => apply orb_false_iff in H as [? ?]
  | H : negb _ = true |- _ => apply negb_true_iff in H
  | H : negb _ = false |- _ => apply negb_false_iff in H
  | H : bool_decide _ = true |- _ => apply bool_decide_eq_true in H
  | H : bool_decide _ = false |- _ => apply bool_decide_eq_false in H
  | H : Z.ltb _ _ = true |- _ => apply Z.ltb_lt in H
  | H : Z.ltb _ _ = false |- _ => apply Z.ltb_ge in H
  | H : Z.leb _ _ = true |- _ => apply Z.leb_le in H
  | H : Z.leb _ _ = false |- _ => apply Z.leb_gt in H
  | H : Z.eqb _ _ = true |- _ => apply Z.eqb_eq in H
  | H : Z.eqb _ _ = false |- _ => apply Z.eqb_neq in H
  end.

(** String equality as the code uses it ([==] on [str]). *)
Definition str_eqb (a b : string) : bool := bool_decide (a = b).
Infix "=s" := str_eqb (at level 70) : rust_scope.

Lemma str_eqb_eq a b : (a =s b) = true ↔ a = b.
Proof. apply bool_decide_eq_true. Qed.
Lemma str_eqb_neq a b : (a =s b) = false ↔ a ≠ b.
Proof. apply bool_decide_eq_false. Qed.
Lemma str_eqb_refl a : (a =s a) = true.
Proof. by apply str_eqb_eq. Qed.

(** ** Iterator combinators *)

(** [iter().any(f)] and [iter().find(f)] are [existsb] and [List.find];
    [enumerate().find] returns the index too. *)
Fixpoint find_idx_from {A} (f : A → bool) (i : nat) (l : list A) : option (nat * A) :=
  match l with
  | [] => None
  | x :: l => if f x then Some (i, x) else find_idx_from f (S i) l
  end.
Definition find_idx {A} (f : A → bool) (l : list A) : option (nat * A) := find_idx_from f 0 l.

(** [iter().position(f)]. *)
Definition position {A} (f : A → bool) (l : list A) : option nat := fst <$> find_idx f l.

Lemma find_idx_from_Some {A} (f : A → bool) l : ∀ i j x,
  find_idx_from f i l = Some (j, x) ↔
  ∃ k, j = i + k ∧ l !! k = Some x ∧ f x = true ∧
    ∀ k' y, k' < k → l !! k' = Some y → f y = false.
Proof.
  induction l as [|a l IH]; intros i j x; simpl.
  { split; [done|]. intros (k & _ & Hk & _). by rewrite lookup_nil in Hk. }
  destruct (f a) eqn:Ha.
  - split.
    + intros [= <- <-]. exists 0. repeat split; [lia|done|lia].
    + intros (k & -> & Hk & Hfx & Hlt). destruct k as [|k]; simplify_eq/=.
      * f_equal. f_equal. lia.
      * specialize (Hlt 0 a). simpl in Hlt. rewrite Hlt in Ha by (lia || done). done.
  - rewrite IH. split.
    + intros (k & -> & Hk & Hfx & Hlt). exists (S k). split_and!; [lia|done|done|].
      intros [|k'] y Hk' Hy; simplify_eq/=; [done|]. eapply Hlt; [|done]. lia.
    + intros (k & -> & Hk & Hfx & Hlt). destruct k as [|k]; simplify_eq/=; [congruence|].
      exists k. split_and!; [lia|done|done|]. intros k' y Hk' Hy.
      apply (Hlt (S k')); [lia|done].
Qed.

Lemma find_idx_Some {A} (f : A → bool) l i x :
  find_idx f l = Some (i, x) ↔
  l !! i = Some x ∧ f x = true ∧ ∀ k y, k < i → l !! k = Some y → f y = false.
Proof.
  unfold find_idx. rewrite find_idx_from_Some. split.
  - intros (k & -> & ?). done.
  - intros ?. by exists i.
Qed.

Lemma find_idx_from_None {A} (f : A → bool) l i :
  find_idx_from f i l = None ↔ Forall (λ x, f x = false) l.
Proof.
  revert i. induction l as [|a l IH]; intros i; simpl; [by split|].
  rewrite Forall_cons. destruct (f a); [naive_solver|]. rewrite IH. naive_solver.
Qed.

Lemma find_idx_None {A} (f : A → bool) l :
  find_idx f l = None ↔ Forall (λ x, f x = false) l.
Proof. apply find_idx_from_None. Qed.

Lemma existsb_elem {A} (f : A → bool) l :
  existsb f l = true ↔ ∃ x, x ∈ l ∧ f x = true.
Proof. rewrite existsb_exists. by setoid_rewrite <- list_elem_of_In. Qed.

Lemma existsb_false {A} (f : A → bool) l :
  existsb f l = false ↔ ∀ x, x ∈ l → f x = false.
Proof.
  rewrite <- not_true_iff_false, existsb_elem. split.
  - intros H x Hx. destruct (f x) eqn:?; naive_solver.
  - naive_solver congruence.
Qed.

(** ** Stable sorting, as [slice::sort_by] *)

Section sort_by.
Context {A : Type} (R : relation A) `{!RelDecision R}.

Fixpoint insert_sorted (x : A) (l : list A) : list A :=
  match l with
  | [] => [x]
  | y :: l' => if decide (R x y) then x :: l else y :: insert_sorted x l'
  end.
Definition sort_by (l : list A) : list A := foldr insert_sorted [] l.

Lemma insert_sorted_perm x l : insert_sorted x l ≡ₚ x :: l.
Proof.
  induction l as [|y l IH]; simpl; [done|].
  case_decide; [done|]. rewrite IH. apply Permutation_swap.
Qed.
Lemma sort_by_perm l : sort_by l ≡ₚ l.
Proof. induction l as [|x l IH]; simpl; [done|]. by rewrite insert_sorted_perm, IH. Qed.

Lemma elem_of_sort_by x l : x ∈ sort_by l ↔ x ∈ l.
Proof. by rewrite sort_by_perm. Qed.
Lemma length_sort_by l : length (sort_by l) = length l.
Proof. by rewrite sort_by_perm. Qed.

Context `{!Total R, !Transitive R}.

Lemma insert_sorted_sorted x l :
  StronglySorted R l → StronglySorted R (insert_sorted x l).
Proof.
  induction 1 as [|y l Hl IH Hy]; simpl.
  { by repeat constructor. }
  case_decide as Hxy.
  - apply StronglySorted_cons. split; [|by constructor].
    constructor; [done|]. eapply Forall_impl; [done|]. intros z ?. by trans y.
  - apply StronglySorted_cons. split; [|done].
    rewrite insert_sorted_perm. constructor; [|done].
    destruct (total R x y); done.
Qed.
Lemma sort_by_sorted l : StronglySorted R (sort_by l).
Proof.
  induction l as [|x l IH]; simpl; [constructor|]. by apply insert_sorted_sorted.
Qed.
End sort_by.

Lemma filter_perm {A} (f : A → bool) l l' : l ≡ₚ l' → List.filter f l ≡ₚ List.filter f l'.
Proof.
  induction 1 as [|x l l' _ IH|x y l|l l' l'' _ IH _ IH']; simpl; [done|by destruct (f x); rewrite IH| |by rewrite IH].
  destruct (f x), (f y); auto using Permutation_swap.
Qed.
Lemma filter_sorted {A} (R : relation A) (f : A → bool) l :
  StronglySorted R l → StronglySorted R (List.filter f l).
Proof.
  induction 1 as [|x l Hl IH Hx]; simpl; [constructor|]. destruct (f x); [|done].
  constructor; [done|]. rewrite Forall_forall in Hx |- *. intros y Hy. apply Hx.
  by apply list_elem_of_In, List.filter_In in Hy as [?%list_elem_of_In _].
Qed.
Lemma elem_of_take_incl {A} n (l : list A) x : x ∈ take n l → x ∈ l.
Proof. intros Hx. rewrite <- (take_drop n l). apply elem_of_app. by left. Qed.

(** ** Ordered maps and sets

    A [BTreeMap<String, V>] is a [gmap string V] whose iteration visits the
    keys in (bytewise) string order; a [BTreeSet<String>] is a [gset string]
    likewise. *)

Definition key_le {V} (x y : string * V) : Prop := String.le x.1 y.1.
#[export] Instance key_le_dec {V} : RelDecision (@key_le V).
Proof. intros x y. unfold key_le. apply _. Defined.
#[export] Instance key_le_total {V} : Total (@key_le V).
Proof. intros x y. unfold key_le. apply (total String.le). Qed.
#[export] Instance key_le_trans {V} : Transitive (@key_le V).
Proof. intros x y z. unfold key_le. apply transitivity. Qed.

Definition btree_iter {V} (m : gmap string V) : list (string * V) :=
  sort_by key_le (map_to_list m).
Definition btree_keys {V} (m : gmap string V) : list string := (btree_iter m).*1.
Definition bset_iter (X : gset string) : list string := sort_by String.le (elements X).

Lemma elem_of_btree_iter {V} (m : gmap string V) k v :
  (k, v) ∈ btree_iter m ↔ m !! k = Some v.
Proof. unfold btree_iter. by rewrite elem_of_sort_by, elem_of_map_to_list. Qed.
Lemma elem_of_btree_keys {V} (m : gmap string V) k :
  k ∈ btree_keys m ↔ is_Some (m !! k).
Proof.
  unfold btree_keys. rewrite list_elem_of_fmap. split.
  - intros ([k' v] & -> & H). apply elem_of_btree_iter in H. by exists v.
  - intros [v Hv]. exists (k, v). by rewrite elem_of_btree_iter.
Qed.
Lemma btree_iter_sorted {V} (m : gmap string V) : StronglySorted key_le (btree_iter m).
Proof. apply sort_by_sorted; apply _. Qed.
Lemma NoDup_btree_keys {V} (m : gmap string V) : NoDup (btree_keys m).
Proof.
  unfold btree_keys, btree_iter. rewrite sort_by_perm. apply NoDup_fst_map_to_list.
Qed.
Lemma elem_of_bset_iter (X : gset string) k : k ∈ bset_iter X ↔ k ∈ X.
Proof. unfold bset_iter. by rewrite elem_of_sort_by, elem_of_elements. Qed.
Lemma NoDup_bset_iter (X : gset string) : NoDup (bset_iter X).
Proof. unfold bset_iter. rewrite sort_by_perm. apply NoDup_elements. Qed.
Lemma bset_iter_sorted (X : gset string) : StronglySorted String.le (bset_iter X).
Proof. apply sort_by_sorted; apply _. Qed.

(** Collecting the entries of a map gives the map back. *)
Lemma list_to_map_btree_iter {V} (m : gmap string V) : list_to_map (btree_iter m) = m.
Proof.
  transitivity (list_to_map (map_to_list m) : gmap string V); [|apply list_to_map_to_list].
  apply list_to_map_proper; [apply NoDup_btree_keys|apply sort_by_perm].
Qed.
#[export] Hint Resolve btree_iter_sorted NoDup_btree_keys NoDup_bset_iter bset_iter_sorted : mx.

(** ** Loops with early return

    [for (idx, x) in l.iter().enumerate() { f(idx, x)?; }]. *)
Fixpoint try_for_from {A E} (f : nat → A → result unit E) (i : nat) (l : list A) : result unit E :=
  match l with
  | [] => Ok tt
  | x :: l => let? _ := f i x in try_for_from f (S i) l
  end.
Definition try_for {A E} (f : nat → A → result unit E) (l : list A) : result unit E :=
  try_for_from f 0 l.

Lemma try_for_from_Ok {A E} (f : nat → A → result unit E) l i :
  try_for_from f i l = Ok tt ↔ ∀ k x, l !! k = Some x → f (i + k) x = Ok tt.
Proof.
  revert i. induction l as [|a l IH]; intros i; simpl.
  { split; [|done]. intros _ k x Hk. by rewrite lookup_nil in Hk. }
  destruct (f i a) as [[]|e] eqn:Hf.
  - rewrite IH. split.
    + intros H [|k] x Hk; simplify_eq/=; [by rewrite Nat.add_0_r|].
      rewrite Nat.add_succ_r. by apply H.
    + intros H k x Hk. rewrite <- (H (S k) x Hk). f_equal. lia.
  - split; [done|]. intros H. specialize (H 0 a eq_refl). rewrite Nat.add_0_r in H. congruence.
Qed.

Lemma try_for_Ok {A E} (f : nat → A → result unit E) l :
  try_for f l = Ok tt ↔ ∀ k x, l !! k = Some x → f k x = Ok tt.
Proof. apply try_for_from_Ok. Qed.

Lemma try_for_from_Err {A E} (f : nat → A → result unit E) l i e :
  try_for_from f i l = Err e →
  ∃ k x, l !! k = Some x ∧ f (i + k) x = Err e ∧
    ∀ k' y, k' < k → l !! k' = Some y → f (i + k') y = Ok tt.
Proof.
  revert i. induction l as [|a l IH]; intros i; simpl; [done|].
  destruct (f i a) as [[]|e'] eqn:Hf.
  - intros (k & x & Hk & He & Hlt)%IH. exists (S k), x. split_and!; [done| |].
    + rewrite <- He. f_equal. lia.
    + intros [|k'] y Hk' Hy; simplify_eq/=; [by rewrite Nat.add_0_r|].
      rewrite <- (Hlt k' y) by (done || lia). f_equal. lia.
  - intros [= ->]. exists 0, a. rewrite Nat.add_0_r. split_and!; [done|done|lia].
Qed.

Lemma try_for_Err {A E} (f : nat → A → result unit E) l e :
  try_for f l = Err e →
  ∃ k x, l !! k = Some x ∧ f k x = Err e ∧
    ∀ k' y, k' < k → l !! k' = Some y → f k' y = Ok tt.
Proof. apply try_for_from_Err. Qed.

(** Distinctness of concrete keys, by computation. *)
Fixpoint nodupb (l : list string) : bool :=
  match l with [] => true | x :: l => negb (existsb (str_eqb x) l) && nodupb l end.
Lemma nodupb_NoDup l : nodupb l = true → NoDup l.
Proof.
  induction l as [|x l IH]; simpl; [intros _; constructor|]. intros H. bool_prop.
  apply NoDup_cons. split; [|auto]. intros Hx. rewrite existsb_false in H.
  apply H in Hx. by rewrite str_eqb_refl in Hx.
Qed.

(** ** State and errors

    [st S E A]: a computation on a state that ends in a value or an early return. *)
Definition st (S E A : Type) : Type := S → result A E * S.
Definition ret {S E A} (x : A) : st S E A := λ s, (Ok x, s).
Definition fail {S E A} (e : E) : st S E A := λ s, (Err e, s).
Definition bind {S E A B} (m : st S E A) (f : A → st S E B) : st S E B :=
  λ s, match m s with (Ok x, s') => f x s' | (Err e, s') => (Err e, s') end.
Definition lift {S E A} (x : result A E) : st S E A := λ s, (x, s).
Notation "'let!' p ':=' m 'in' k" := (bind m (λ p, k))
  (at level 10, p strict pattern, m at level 200, k at level 200, only parsing) : rust_scope.
