(* ===== verification/RustStr.v ===== *)
(** * The parts of Rust's [str] and Unix [Path] the modelled code calls

    A Rust [&str] is a UTF-8 byte sequence; here it is a [string], one [ascii]
    per byte, so lengths and indices are byte lengths and byte indices as in
    Rust, and the derived order is the bytewise order of Rust's [str]. *)
From Stdlib Require Import Ascii.
From stdpp Require Import gmap strings list sorting pretty.
From S2P Require Import Prelude.

(** ** Bytes and slices *)

Definition byte_of (c : ascii) : N := N_of_ascii c.
Definition chr (n : N) : ascii := ascii_of_N n.

(** [s.as_bytes().get(i)]. *)
Fixpoint byte_at (s : string) (i : nat) : option ascii :=
  match s, i with
  | "", _ => None
  | String c _, O => Some c
  | String _ s, S i => byte_at s i
  end.

(** [str::is_char_boundary]: the end of the string, or a byte that is not a
    UTF-8 continuation byte [10xxxxxx]. *)
Definition is_continuation (c : ascii) : bool := N.eqb (N.land (byte_of c) 192) 128.
Definition is_char_boundary (s : string) (i : nat) : bool :=
  if Nat.eqb i 0 then true
  else match byte_at s i with
       | Some c => negb (is_continuation c)
       | None => Nat.eqb i (String.length s)
       end.

(** [s.get(a..b)]: [None] when out of range or not on character boundaries. *)
Definition str_get (s : string) (a b : nat) : option string :=
  if (Nat.leb a b && Nat.leb b (String.length s)
      && is_char_boundary s a && is_char_boundary s b)%bool
  then Some (String.substring a (b - a) s) else None.

(** [&s[n..]] when it does not panic. *)
Fixpoint str_drop (n : nat) (s : string) : string :=
  match n, s with
  | O, _ => s
  | S n, String _ s => str_drop n s
  | S _, "" => ""
  end.

(** ** Prefixes *)

(** [s.strip_prefix(p)]. *)
Fixpoint strip_prefix (p s : string) : option string :=
  match p, s with
  | "", _ => Some s
  | String a p, String b s => if decide (a = b) then strip_prefix p s else None
  | String _ _, "" => None
  end.
Definition starts_with (p s : string) : bool :=
  match strip_prefix p s with Some _ => true | None => false end.

Lemma strip_prefix_Some p s r : strip_prefix p s = Some r ↔ s = p +:+ r.
Proof.
  revert s. induction p as [|a p IH]; intros s; simpl.
  { split; [by intros [= ->]|]. intros ->. done. }
  destruct s as [|b s]; [by split|]. case_decide as Hab.
  - rewrite IH, Hab. unfold String.append; fold String.append. split; [by intros ->|].
    by intros [= ->].
  - split; [done|]. unfold String.append; fold String.append. by intros [= <- _].
Qed.
Lemma strip_prefix_app p s : strip_prefix p (p +:+ s) = Some s.
Proof. by apply strip_prefix_Some. Qed.

(** ** Splitting and joining *)

(** [s.split(sep)] for a one-character separator: never the empty list. *)
Fixpoint split_on (sep : ascii) (s : string) : list string :=
  match s with
  | "" => [""]
  | String c s' =>
      if decide (c = sep) then "" :: split_on sep s'
      else match split_on sep s' with
           | [] => [String c ""]
           | w :: ws => String c w :: ws
           end
  end.

(** [v.join(sep)]. *)
Fixpoint str_join (sep : string) (l : list string) : string :=
  match l with
  | [] => ""
  | [x] => x
  | x :: l => x +:+ sep +:+ str_join sep l
  end.

Fixpoint str_contains_char (c : ascii) (s : string) : bool :=
  match s with
  | "" => false
  | String d s => if decide (c = d) then true else str_contains_char c s
  end.

Lemma split_on_nonempty sep s : split_on sep s ≠ [].
Proof. destruct s as [|c s]; simpl; [done|]. case_decide; [done|]. by destruct (split_on sep s). Qed.

Lemma split_join sep s : str_join (String sep "") (split_on sep s) = s.
Proof.
  induction s as [|c s IH]; simpl; [done|].
  destruct (split_on sep s) as [|w ws] eqn:Hs; [by destruct (split_on_nonempty sep s)|].
  case_decide as Hc; subst; simpl.
  - unfold String.append; fold String.append. by f_equal.
  - destruct ws as [|w' ws]; simpl in *; [by f_equal|].
    unfold String.append; fold String.append. by f_equal.
Qed.

Lemma split_no_sep sep s w : w ∈ split_on sep s → str_contains_char sep w = false.
Proof.
  revert w. induction s as [|c s IH]; intros w; simpl.
  { intros ->%list_elem_of_singleton. done. }
  case_decide as Hc.
  - intros [->|?]%elem_of_cons; [done|]. by apply IH.
  - destruct (split_on sep s) as [|w' ws] eqn:Hs; [by destruct (split_on_nonempty sep s)|].
    intros [->|?]%elem_of_cons; simpl.
    + rewrite decide_False by congruence. apply IH. left.
    + apply IH. by right.
Qed.

(** ** Trimming

    [str::trim] removes characters with the Unicode White_Space property.
    [strip_ws] removes one such character, given by its UTF-8 encoding:
    U+0009..U+000D, U+0020, U+0085, U+00A0, U+1680, U+2000..U+200A, U+2028,
    U+2029, U+202F, U+205F, U+3000. *)
Definition strip_ws (s : string) : option string :=
  match s with
  | "" => None
  | String c s1 =>
      let b := byte_of c in
      if (((9 <=? b) && (b <=? 13)) || (b =? 32))%N%bool then Some s1
      else if (b =? 194)%N then
        match s1 with
        | String d s2 => if ((byte_of d =? 133) || (byte_of d =? 160))%N%bool then Some s2 else None
        | "" => None
        end
      else match s1 with
        | String d (String e s3) =>
            let x := byte_of d in let y := byte_of e in
            if (((b =? 225) && (x =? 154) && (y =? 128))
                || ((b =? 226) && (x =? 128) &&
                    ((128 <=? y) && (y <=? 138) || (y =? 168) || (y =? 169) || (y =? 175)))
                || ((b =? 226) && (x =? 129) && (y =? 159))
                || ((b =? 227) && (x =? 128) && (y =? 128)))%N%bool
            then Some s3 else None
        | _ => None
        end
  end.

Fixpoint trim_start_fuel (n : nat) (s : string) : string :=
  match n with
  | O => s
  | S n => match strip_ws s with Some s' => trim_start_fuel n s' | None => s end
  end.
Definition trim_start (s : string) : string := trim_start_fuel (String.length s) s.

(** [s.trim().is_empty()]: trimming the end of what [trim_start] leaves cannot
    empty it, since it begins with a character that is not white space. *)
Definition trim_is_empty (s : string) : bool := trim_start s =s "".

Lemma strip_ws_length s s' : strip_ws s = Some s' → String.length s' < String.length s.
Proof. unfold strip_ws. intros H. crush_match; lia. Qed.

Lemma trim_start_fuel_done n s :
  String.length s ≤ n → strip_ws (trim_start_fuel n s) = None.
Proof.
  revert s. induction n as [|n IH]; intros s Hn; simpl.
  { by destruct s; simpl in Hn; [|lia]. }
  destruct (strip_ws s) as [s'|] eqn:Hs; [|done].
  apply IH. apply strip_ws_length in Hs. lia.
Qed.

(** [trim_start] runs out of fuel never: what it returns starts with no white space. *)
Lemma trim_start_done s : strip_ws (trim_start s) = None.
Proof. by apply trim_start_fuel_done. Qed.

(** [str::trim_end], one byte at a time: a continuation byte starts no white space. *)
Fixpoint trim_end (s : string) : string :=
  match s with
  | EmptyString => ""
  | String c r => if trim_is_empty s then "" else String c (trim_end r)
  end.
Definition trim (s : string) : string := trim_end (trim_start s).

(** ** Integers *)

Definition is_ascii_digit (c : ascii) : bool := ((48 <=? byte_of c) && (byte_of c <=? 57))%N%bool.

Fixpoint parse_digits (acc : Z) (s : string) : option Z :=
  match s with
  | "" => Some acc
  | String c s =>
      if is_ascii_digit c then parse_digits (acc * 10 + (Z.of_N (byte_of c) - 48)) s else None
  end.

(** [s.parse::<T>()] for a signed type with bounds [lo..hi]: an optional sign,
    then at least one digit, and a value in range. *)
Definition parse_signed (lo hi : Z) (s : string) : option Z :=
  let in_range z := if ((lo <=? z) && (z <=? hi))%Z%bool then Some z else None in
  match s with
  | "" => None
  | String c r =>
      if decide (c = "+"%char) then
        match r with "" => None | _ => parse_digits 0 r ≫= in_range end
      else if decide (c = "-"%char) then
        match r with "" => None | _ => parse_digits 0 r ≫= (λ z, in_range (- z)%Z) end
      else parse_digits 0 s ≫= in_range
  end.
(** For an unsigned type only a leading [+] is accepted. *)
Definition parse_unsigned (hi : Z) (s : string) : option Z :=
  let in_range z := if (z <=? hi)%Z then Some z else None in
  match s with
  | "" => None
  | String c r =>
      if decide (c = "+"%char) then
        match r with "" => None | _ => parse_digits 0 r ≫= in_range end
      else parse_digits 0 s ≫= in_range
  end.
Definition i64_max : Z := 9223372036854775807.
Definition i64_min : Z := -9223372036854775808.
Definition u32_max : Z := 4294967295.
Definition u64_max : Z := 18446744073709551615.
Definition parse_i64 : string → option Z := parse_signed i64_min i64_max.
Definition parse_u32 : string → option Z := parse_unsigned u32_max.
Definition parse_u64 : string → option Z := parse_unsigned u64_max.
Arguments parse_i64 : simpl never.
Arguments parse_u32 : simpl never.
Arguments parse_u64 : simpl never.

Lemma pretty_N_char_digit (d : N) :
  (d < 10)%N →
  is_ascii_digit (pretty_N_char d) = true ∧ (Z.of_N (byte_of (pretty_N_char d)) - 48 = Z.of_N d)%Z.
Proof.
  intros Hd.
  assert (d = 0 ∨ d = 1 ∨ d = 2 ∨ d = 3 ∨ d = 4 ∨ d = 5 ∨ d = 6 ∨ d = 7 ∨ d = 8 ∨ d = 9)%N as H by lia.
  by repeat destruct H as [->|H]; subst.
Qed.

Lemma digit_not_sign c : is_ascii_digit c = true → c ≠ "+"%char ∧ c ≠ "-"%char.
Proof. by destruct c as [[] [] [] [] [] [] [] []]. Qed.

(** Reading back a printed number. *)
Lemma parse_digits_pretty_go (n : N) : ∀ s, parse_digits 0 (pretty_N_go n s) = parse_digits (Z.of_N n) s.
Proof.
  induction n as [n IH] using (well_founded_induction N.lt_wf_0). intros s.
  destruct (decide (n = 0)%N) as [->|Hn]; [by rewrite pretty_N_go_0|].
  rewrite pretty_N_go_step by lia. rewrite IH by (apply N.div_lt; lia). cbn [parse_digits].
  destruct (pretty_N_char_digit (n `mod` 10)%N) as [-> ->]; [apply N.mod_lt; lia|]. f_equal.
  pose proof (N.div_mod' n 10). lia.
Qed.
Lemma pretty_N_digits (n : N) : ∃ c s, pretty n = String c s ∧ is_ascii_digit c = true.
Proof.
  assert (∀ m s, (∃ c t, s = String c t ∧ is_ascii_digit c = true) →
    ∃ c t, pretty_N_go m s = String c t ∧ is_ascii_digit c = true) as Hgo.
  { induction m as [m IH] using (well_founded_induction N.lt_wf_0). intros s Hs.
    destruct (decide (m = 0)%N) as [->|Hm]; [by rewrite pretty_N_go_0|].
    rewrite pretty_N_go_step by lia. apply IH; [apply N.div_lt; lia|].
    eexists _, _. split; [done|]. apply pretty_N_char_digit, N.mod_lt. lia. }
  unfold pretty, pretty_N. destruct (decide (n = 0)%N) as [->|Hn]; [by eexists _, _|].
  rewrite pretty_N_go_step by lia. apply Hgo. eexists _, _. split; [done|]. apply pretty_N_char_digit, N.mod_lt. lia.
Qed.
Lemma parse_u64_pretty (n : N) : (Z.of_N n <= u64_max)%Z → parse_u64 (pretty n) = Some (Z.of_N n).
Proof.
  intros Hn. destruct (pretty_N_digits n) as (c & s & E & Hc).
  assert (parse_digits 0 (pretty n) = Some (Z.of_N n)) as Hp.
  { unfold pretty, pretty_N. destruct (decide (n = 0)%N) as [->|]; [done|]. by rewrite parse_digits_pretty_go. }
  unfold parse_u64, parse_unsigned. rewrite E in *. apply digit_not_sign in Hc as [Hc _].
  rewrite decide_False by done. rewrite Hp. simpl. by rewrite (proj2 (Z.leb_le _ _) Hn).
Qed.

(** [format!("{:0w$}", z)] for a non-negative [z]: decimal digits padded with
    zeros to width [w]; longer numbers are not cut. *)
Fixpoint zeros (n : nat) : string := match n with O => "" | S n => String "0" (zeros n) end.
Definition format_pad (w : nat) (z : Z) : string :=
  let d := pretty z in zeros (w - String.length d) +:+ d.

(** ** Unix paths *)

Inductive Component := RootDir | CurDir | ParentDir | Normal (s : string).
#[export] Instance Component_eq_dec : EqDecision Component.
Proof. solve_decision. Defined.

Definition path_has_root (p : string) : bool := starts_with "/" p.
(** [Path::is_absolute] on Unix. *)
Definition is_absolute (p : string) : bool := path_has_root p.

Definition segment_component (s : string) : option Component :=
  if (s =s "") || (s =s ".") then None
  else if s =s ".." then Some ParentDir else Some (Normal s).

(** [Path::components]: a leading [/] is [RootDir]; empty segments and [.]
    segments are dropped, except that a relative path beginning with [.] keeps
    [CurDir]. *)
Definition components (p : string) : list Component :=
  let segs := split_on "/" p in
  if path_has_root p then RootDir :: omap segment_component segs
  else match segs with
       | s :: rest => if s =s "." then CurDir :: omap segment_component rest
                      else omap segment_component segs
       | [] => []
       end.

(** [Path::starts_with]: componentwise prefix. *)
Fixpoint is_prefix {A} `{EqDecision A} (l1 l2 : list A) : bool :=
  match l1, l2 with
  | [], _ => true
  | x :: l1, y :: l2 => bool_decide (x = y) && is_prefix l1 l2
  | _ :: _, [] => false
  end.
Definition path_starts_with (p base : string) : bool :=
  is_prefix (components base) (components p).

(** [Path::file_name]. *)
Definition file_name (p : string) : option string :=
  match last (components p) with Some (Normal s) => Some s | _ => None end.

Lemma is_prefix_spec {A} `{EqDecision A} (l1 l2 : list A) :
  is_prefix l1 l2 = true ↔ l1 `prefix_of` l2.
Proof.
  revert l2. induction l1 as [|x l1 IH]; intros l2; simpl.
  { split; [intros _; apply prefix_nil|done]. }
  destruct l2 as [|y l2]; [split; [done|by intros ?%prefix_nil_not]|].
  rewrite andb_true_iff, bool_decide_eq_true, IH. split.
  - intros [-> ?]. by apply prefix_cons.
  - intros H. split; [by eapply prefix_cons_inv_1|by eapply prefix_cons_inv_2].
Qed.

Lemma path_starts_with_spec p base :
  path_starts_with p base = true ↔ components base `prefix_of` components p.
Proof. apply is_prefix_spec. Qed.

(** ** Concatenation *)

Lemma append_cons c (a b : string) : String c a +:+ b = String c (a +:+ b).
Proof. done. Qed.
Lemma append_assoc (a b c : string) : (a +:+ b) +:+ c = a +:+ b +:+ c.
Proof. induction a as [|x a IH]; [done|]. by rewrite !append_cons, IH. Qed.
Lemma append_nil_r (a : string) : a +:+ "" = a.
Proof. induction a as [|x a IH]; [done|]. by rewrite append_cons, IH. Qed.
