(* ===== verification/ChildEnv.v ===== *)
(** * The environment of a child process

    Models the environment rules of [crates/mx-agent-daemon/src/runner.rs] and the key
    test [is_sensitive_key] of [crates/mx-agent-telemetry/src/lib.rs]: which inherited
    variables reach a child, and which overrides a remote request may set. *)
From stdpp Require Import gmap strings list.
From S2P Require Import Prelude RustStr.

(** [to_ascii_lowercase], [contains] and [ends_with]. *)
Definition lower_char (c : Ascii.ascii) : Ascii.ascii :=
  let n := byte_of c in if ((65 <=? n) && (n <=? 90))%N then chr (n + 32) else c.
Fixpoint to_ascii_lowercase (s : string) : string :=
  match s with "" => "" | String c s => String (lower_char c) (to_ascii_lowercase s) end.
Fixpoint str_contains (needle s : string) : bool :=
  starts_with needle s || match s with "" => false | String _ s => str_contains needle s end.
Fixpoint ends_with (suffix s : string) : bool :=
  (suffix =s s) || match s with "" => false | String _ s => ends_with suffix s end.

Definition NEEDLES : list string :=
  ["token"; "secret"; "password"; "passwd"; "api_key"; "apikey"; "access_key"; "private_key"; "credential";
   "authorization"; "recovery"; "passphrase"].
Definition is_sensitive_key (key : string) : bool :=
  let lower := to_ascii_lowercase key in
  existsb (λ needle, str_contains needle lower) NEEDLES || (lower =s "key") || ends_with "_key" lower.

Definition SECRET_VARS : list string :=
  ["MATRIX_ACCESS_TOKEN"; "MX_AGENT_TOKEN"; "MX_AGENT_PASSWORD"; "MX_AGENT_RECOVERY_KEY"; "SSH_AUTH_SOCK";
   "GITHUB_TOKEN"; "OPENAI_API_KEY"; "ANTHROPIC_API_KEY"; "NPM_TOKEN"].
Definition SECRET_PREFIXES : list string := ["AWS_"; "GOOGLE_"; "AZURE_"].
Definition DEFAULT_ALLOWED_VARS : list string :=
  ["PATH"; "HOME"; "USER"; "LOGNAME"; "SHELL"; "LANG"; "LANGUAGE"; "LC_ALL"; "LC_CTYPE"; "TZ"; "TERM"; "TMPDIR"; "PWD"].

Definition is_secret_var (name : string) : bool :=
  existsb (str_eqb name) SECRET_VARS || existsb (λ p, starts_with p name) SECRET_PREFIXES || is_sensitive_key name.
Definition is_allowed_var (name : string) (extra_allowed : list string) : bool :=
  existsb (str_eqb name) DEFAULT_ALLOWED_VARS || existsb (str_eqb name) extra_allowed.
Definition is_loader_control_var (name : string) : bool :=
  (name =s "PATH") || starts_with "LD_" name || starts_with "DYLD_" name.

(** [collect] into a map, later entries overriding, then the overrides. *)
Definition sanitize_env (inherited : list (string * string)) (overrides : gmap string string)
    (extra_allowed : list string) : gmap string string :=
  let env := foldl (λ m kv, <[kv.1 := kv.2]> m) (∅ : gmap string string)
    (List.filter (λ kv, is_allowed_var kv.1 extra_allowed && negb (is_secret_var kv.1)) inherited) in
  overrides ∪ env.

Definition first_disallowed_remote_override (env : gmap string string) (extra_allowed : list string) : option string :=
  List.find (λ name, is_secret_var name || is_loader_control_var name || negb (is_allowed_var name extra_allowed))
    (btree_keys env).

(** ** What a child can see *)

Lemma existsb_str_In x l : existsb (str_eqb x) l = true ↔ x ∈ l.
Proof.
  rewrite existsb_exists. setoid_rewrite str_eqb_eq. rewrite list_elem_of_In. split; [by intros (y & ? & ->)|by exists x].
Qed.
Lemma is_allowed_var_spec name extra : is_allowed_var name extra = true ↔ name ∈ DEFAULT_ALLOWED_VARS ++ extra.
Proof. unfold is_allowed_var. by rewrite orb_true_iff, !existsb_str_In, elem_of_app. Qed.

Lemma collect_elem (l : list (string * string)) k v :
  foldl (λ m kv, <[kv.1 := kv.2]> m) (∅ : gmap string string) l !! k = Some v → (k, v) ∈ l.
Proof.
  induction l as [|[k' v'] l IH] using rev_ind; [simpl; by rewrite lookup_empty|]. rewrite foldl_app. simpl.
  rewrite elem_of_app, list_elem_of_singleton. intros [[-> ->]|[_ ?]]%lookup_insert_Some; auto.
Qed.
Lemma screen_spec env extra :
  first_disallowed_remote_override env extra = None ↔
  ∀ k v, env !! k = Some v →
    is_secret_var k = false ∧ is_loader_control_var k = false ∧ k ∈ DEFAULT_ALLOWED_VARS ++ extra.
Proof.
  unfold first_disallowed_remote_override. split.
  - intros Hf k v Hk. assert (In k (btree_keys env)) as Hin.
    { apply list_elem_of_In, elem_of_btree_keys. by eexists. }
    eapply List.find_none in Hf; [|done]. bool_prop. by rewrite <- is_allowed_var_spec.
  - intros Hall. destruct (List.find _ _) as [k|] eqn:E; [|done]. exfalso.
    apply List.find_some in E as [Hin Hk]. apply list_elem_of_In, elem_of_btree_keys in Hin as [v Hv].
    destruct (Hall k v Hv) as (H1 & H2 & H3). rewrite H1, H2 in Hk. apply is_allowed_var_spec in H3. by rewrite H3 in Hk.
Qed.

(** C38: the environment of a child started for a remote request that passed the override
    screen holds only allowlisted variables that are not secrets, and a variable that
    controls the loader or the search path has the daemon's own value: it was not set
    by the request.  The screen passes exactly the overrides for which this is so. *)
Theorem child_env_clean inherited overrides extra :
  (first_disallowed_remote_override overrides extra = None ↔
   ∀ k v, overrides !! k = Some v →
     is_secret_var k = false ∧ is_loader_control_var k = false ∧ k ∈ DEFAULT_ALLOWED_VARS ++ extra) ∧
  (first_disallowed_remote_override overrides extra = None →
   ∀ k v, sanitize_env inherited overrides extra !! k = Some v →
     is_secret_var k = false ∧ k ∈ DEFAULT_ALLOWED_VARS ++ extra ∧
     (is_loader_control_var k = true → (k, v) ∈ inherited ∧ overrides !! k = None)).
Proof.
  split; [apply screen_spec|]. intros Hs k v Hk. rewrite screen_spec in Hs. unfold sanitize_env in Hk.
  apply lookup_union_Some_raw in Hk as [Ho|[Hn Hi]].
  - destruct (Hs k v Ho) as (? & Hl & ?). split_and!; [done|done|]. intros Hl'. congruence.
  - apply collect_elem, list_elem_of_In, List.filter_In in Hi as [Hi Hb]. simpl in Hb. bool_prop.
    split_and!; [done|by apply is_allowed_var_spec|]. intros _. split; [by apply list_elem_of_In|done].
Qed.
(** The theorem applied to the daemon's own token and a request that sets a locale. *)
Lemma child_env_clean_witness :
  sanitize_env [("PATH", "/usr/bin"); ("GITHUB_TOKEN", "t")] {["LANG" := "C"]} [] !! "GITHUB_TOKEN" = None.
Proof.
  destruct (sanitize_env [("PATH", "/usr/bin"); ("GITHUB_TOKEN", "t")] {["LANG" := "C"]} [] !! "GITHUB_TOKEN") as [v|] eqn:E;
    [|reflexivity].
  assert (first_disallowed_remote_override {["LANG" := "C"]} [] = None) as Hs by (vm_compute; reflexivity).
  exfalso. destruct (proj2 (child_env_clean _ _ _) Hs _ _ E) as [Hf _].
  vm_compute in Hf. discriminate Hf.
Defined.
