(* ===== verification/Sandboxing.v ===== *)
(** * Sandbox backends

    Models [crates/mx-agent-sandbox/src/lib.rs]: the restrictions a command runs
    under, the three backends, the argument vectors they build for [bwrap] and for
    [docker run] / [podman run], the splice of the seccomp descriptor, and the search
    for a backend's launcher on [PATH]; and [launcher.rs], the trampoline that applies
    resource caps and the syscall filter before it executes the command.  Paths are
    their UTF-8 text, so [to_string_lossy] is the identity.  The build is for Linux.

    What [bwrap] and the container runtimes do with an option is theirs to say.  The
    theorems read an argument vector with the arity of each option as an argument:
    [BwrapCli] and [ContainerCli] list the arities that their manuals document. *)
From stdpp Require Import gmap strings list pretty.
From S2P Require Import Prelude RustStr.

(** ** Vocabulary *)

Inductive Backend := BackendNone | BackendBubblewrap | BackendContainer.
#[export] Instance Backend_eq_dec : EqDecision Backend.
Proof. solve_decision. Defined.
Definition Backend_name (b : Backend) : string :=
  match b with BackendNone => "none" | BackendBubblewrap => "bubblewrap" | BackendContainer => "container" end.

Record ResourceLimits := mkLimits {
  rl_max_processes : option N;
  rl_max_memory_bytes : option N;
  rl_max_cpu_seconds : option N;
}.
#[export] Instance ResourceLimits_eq_dec : EqDecision ResourceLimits.
Proof. solve_decision. Defined.
Definition ResourceLimits_default : ResourceLimits := mkLimits None None None.
Definition is_unset (r : ResourceLimits) : bool := bool_decide (r = ResourceLimits_default).

Inductive SeccompMode := ModeOff | ModeDefault.
#[export] Instance SeccompMode_eq_dec : EqDecision SeccompMode.
Proof. solve_decision. Defined.
Definition seccomp_is_on (m : SeccompMode) : bool := match m with ModeDefault => true | ModeOff => false end.
Definition seccomp_mode_name (m : SeccompMode) : string := match m with ModeOff => "off" | ModeDefault => "default" end.

Inductive Network := NetworkAllow | NetworkDeny.
#[export] Instance Network_eq_dec : EqDecision Network.
Proof. solve_decision. Defined.
Inductive Runtime := RtDocker | RtPodman.
Definition runtime_program (r : Runtime) : string := match r with RtDocker => "docker" | RtPodman => "podman" end.

Record Restrictions := mkRestrictions {
  rs_cwd : string;
  rs_env : gmap string string;
  rs_timeout : option N;
  rs_max_output_bytes : option N;
  rs_network : Network;
  rs_read_only_paths : list string;
  rs_writable_paths : list string;
  rs_interactive : bool;
  rs_resources : ResourceLimits;
  rs_seccomp : SeccompMode;
  rs_seccomp_profile_path : option string;
  rs_run_uid : option N;
  rs_run_gid : option N;
}.
Record Prepared := mkPrepared { pr_backend : Backend; pr_argv : list string; pr_restrictions : Restrictions }.
(** The trait [Sandbox], as a trait object. *)
Record DynSandbox := mkSandbox { sb_backend : Backend; sb_prepare : list string → Restrictions → Prepared }.

(** Pushes that happen only under a condition. *)
Definition push_if (b : bool) (args : list string) : list string := if b then args else [].
Definition push_opt {A} (o : option A) (args : A → list string) : list string :=
  match o with Some a => args a | None => [] end.
Definition path_arg (path : string) : string := path.

(** ** The backends *)

Definition NoneSandbox : DynSandbox :=
  mkSandbox BackendNone (λ argv restrictions, mkPrepared BackendNone argv restrictions).

Definition BWRAP : string := "bwrap".
Definition bubblewrap_prepare (argv : list string) (restrictions : Restrictions) : Prepared :=
  let wrapped :=
    [BWRAP; "--die-with-parent"; "--unshare-pid"; "--unshare-uts"; "--unshare-ipc"; "--unshare-user"; "--cap-drop"; "ALL"]
    ++ push_if (negb restrictions.(rs_interactive)) ["--new-session"]
    ++ push_if (bool_decide (restrictions.(rs_network) = NetworkDeny)) ["--unshare-net"]
    ++ ["--proc"; "/proc"; "--dev"; "/dev"; "--tmpfs"; "/tmp"]
    ++ concat (map (λ p, ["--ro-bind"; path_arg p; path_arg p]) restrictions.(rs_read_only_paths))
    ++ concat (map (λ p, ["--bind"; path_arg p; path_arg p]) restrictions.(rs_writable_paths))
    ++ ["--chdir"; path_arg restrictions.(rs_cwd); "--"]
    ++ argv in
  mkPrepared BackendBubblewrap wrapped restrictions.
Definition BubblewrapSandbox : DynSandbox := mkSandbox BackendBubblewrap bubblewrap_prepare.

(** [iter().position(|a| a == "--")]. *)
Fixpoint position_sep (argv : list string) : option nat :=
  match argv with
  | [] => None
  | a :: argv => if a =s "--" then Some 0 else S <$> position_sep argv
  end.
Definition bubblewrap_with_seccomp_fd (argv : list string) (fd : N) : list string :=
  let sep := unwrap_or (position_sep argv) (length argv) in
  take sep argv ++ ["--seccomp"; pretty fd] ++ drop sep argv.

Definition DEFAULT_IMAGE : string := "debian:stable-slim".
Record ContainerSandbox := mkContainer { ct_runtime : Runtime; ct_image : string }.
Definition ContainerSandbox_default : ContainerSandbox := mkContainer RtDocker DEFAULT_IMAGE.

Definition container_identity (runtime : Runtime) (restrictions : Restrictions) : list string :=
  push_opt restrictions.(rs_run_uid) (λ uid,
    match runtime with
    | RtDocker => ["--user"; pretty uid +:+ ":" +:+ pretty (unwrap_or restrictions.(rs_run_gid) uid)]
    | RtPodman => ["--userns=keep-id"]
    end ++ ["--cap-drop"; "ALL"]).
Definition container_caps (resources : ResourceLimits) : list string :=
  push_opt resources.(rl_max_processes) (λ n, ["--pids-limit"; pretty n])
  ++ push_opt resources.(rl_max_memory_bytes) (λ bytes, ["--memory"; pretty bytes])
  ++ push_opt resources.(rl_max_cpu_seconds) (λ secs, ["--ulimit"; "cpu=" +:+ pretty secs +:+ ":" +:+ pretty secs]).
Definition container_prepare (self : ContainerSandbox) (argv : list string) (restrictions : Restrictions) : Prepared :=
  let wrapped :=
    [runtime_program self.(ct_runtime); "run"; "--rm"; "--read-only"; "--security-opt"; "no-new-privileges"]
    ++ push_if (seccomp_is_on restrictions.(rs_seccomp))
         (push_opt restrictions.(rs_seccomp_profile_path) (λ path, ["--security-opt"; "seccomp=" +:+ path_arg path]))
    ++ container_identity self.(ct_runtime) restrictions
    ++ container_caps restrictions.(rs_resources)
    ++ push_if restrictions.(rs_interactive) ["-i"; "-t"]
    ++ push_if (bool_decide (restrictions.(rs_network) = NetworkDeny)) ["--network"; "none"]
    ++ concat (map (λ key, ["--env"; key]) (btree_keys restrictions.(rs_env)))
    ++ concat (map (λ p, ["--volume"; path_arg p +:+ ":" +:+ path_arg p +:+ ":ro"]) restrictions.(rs_read_only_paths))
    ++ concat (map (λ p, ["--volume"; path_arg p +:+ ":" +:+ path_arg p]) restrictions.(rs_writable_paths))
    ++ ["--workdir"; path_arg restrictions.(rs_cwd); self.(ct_image)]
    ++ argv in
  mkPrepared BackendContainer wrapped restrictions.
Definition container_sandbox (self : ContainerSandbox) : DynSandbox := mkSandbox BackendContainer (container_prepare self).

Definition sandbox_for (backend : Backend) : DynSandbox :=
  match backend with
  | BackendNone => NoneSandbox
  | BackendBubblewrap => BubblewrapSandbox
  | BackendContainer => container_sandbox ContainerSandbox_default
  end.
Definition sandbox_for_container (runtime : Runtime) (image : option string) : DynSandbox :=
  match image with
  | Some image => container_sandbox (mkContainer runtime image)
  | None => container_sandbox (mkContainer runtime DEFAULT_IMAGE)
  end.

(** ** Finding the launcher *)

Definition backend_program (backend : Backend) (runtime : Runtime) : option string :=
  match backend with
  | BackendNone => None
  | BackendBubblewrap => Some BWRAP
  | BackendContainer => Some (runtime_program runtime)
  end.
(** [Path::join] of a relative name. *)
Definition path_join (dir name : string) : string :=
  match String.get (String.length dir - 1) dir with
  | Some c => if decide (c = chr 47) then dir +:+ name else dir +:+ "/" +:+ name
  | None => name
  end.
Definition find_in_path (file_exists : string → bool) (program path : string) : option string :=
  List.find file_exists
    (map (λ dir, path_join dir program) (List.filter (λ dir, negb (dir =s "")) (split_on (chr 58) path))).
Definition quoted (s : string) : string := String (chr 34) (s +:+ String (chr 34) "").
Definition preflight_backend_in (file_exists : string → bool) (backend : Backend) (runtime : Runtime) (path : string) :
    result unit string :=
  match backend_program backend runtime with
  | None => Ok tt
  | Some program =>
      if is_some (find_in_path file_exists program path) then Ok tt
      else Err ("sandbox backend " +:+ quoted (Backend_name backend) +:+ " selected but its launcher `" +:+ program
        +:+ "` was not found on PATH")
  end.

(** ** The launcher trampoline *)

Definition LAUNCHER_SUBCOMMAND : string := "__sandbox-exec".
Definition FLAG_NPROC : string := "--nproc".
Definition FLAG_AS : string := "--as".
Definition FLAG_CPU : string := "--cpu".
Definition FLAG_SECCOMP : string := "--seccomp".
Record LauncherArgs := mkLauncher { la_resources : ResourceLimits; la_seccomp : SeccompMode; la_command : list string }.

Definition launcher_is_needed (resources : ResourceLimits) (seccomp : SeccompMode) (is_none_backend : bool) : bool :=
  negb (is_unset resources) || (is_none_backend && seccomp_is_on seccomp).
Definition to_args (self : LauncherArgs) : list string :=
  push_opt self.(la_resources).(rl_max_processes) (λ n, [FLAG_NPROC; pretty n])
  ++ push_opt self.(la_resources).(rl_max_memory_bytes) (λ bytes, [FLAG_AS; pretty bytes])
  ++ push_opt self.(la_resources).(rl_max_cpu_seconds) (λ secs, [FLAG_CPU; pretty secs])
  ++ push_if (seccomp_is_on self.(la_seccomp)) [FLAG_SECCOMP; seccomp_mode_name self.(la_seccomp)]
  ++ ["--"] ++ self.(la_command).

(** The error messages, by the value they name. *)
Inductive LauncherError :=
| MissingValue (flag : string)
| NotAnInteger (flag value : string)
| BadSeccompMode (got : option string)
| UnknownLauncherFlag (flag : string)
| MissingSeparator
| LauncherCommandEmpty.
Definition parse_u64_flag (flag : string) (value : option string) : result N LauncherError :=
  let? value := ok_or value (MissingValue flag) in
  match parse_u64 value with Some n => Ok (Z.to_N n) | None => Err (NotAnInteger flag value) end.
(** The rest of an iterator after [next]. *)
Definition advance {A} (l : list A) : list A := match l with [] => l | _ :: l => l end.
Fixpoint parse_loop (args : list string) (resources : ResourceLimits) (seccomp : SeccompMode) :
    result (ResourceLimits * SeccompMode * option (list string)) LauncherError :=
  match args with
  | [] => Ok (resources, seccomp, None)
  | arg :: args =>
      if arg =s "--" then Ok (resources, seccomp, Some args)
      else if arg =s FLAG_NPROC then
        let? n := parse_u64_flag FLAG_NPROC (head args) in
        parse_loop (advance args) (mkLimits (Some n) resources.(rl_max_memory_bytes) resources.(rl_max_cpu_seconds)) seccomp
      else if arg =s FLAG_AS then
        let? n := parse_u64_flag FLAG_AS (head args) in
        parse_loop (advance args) (mkLimits resources.(rl_max_processes) (Some n) resources.(rl_max_cpu_seconds)) seccomp
      else if arg =s FLAG_CPU then
        let? n := parse_u64_flag FLAG_CPU (head args) in
        parse_loop (advance args) (mkLimits resources.(rl_max_processes) resources.(rl_max_memory_bytes) (Some n)) seccomp
      else if arg =s FLAG_SECCOMP then
        match args with
        | [] => Err (BadSeccompMode None)
        | mode :: args =>
            if mode =s "off" then parse_loop args resources ModeOff
            else if mode =s "default" then parse_loop args resources ModeDefault
            else Err (BadSeccompMode (Some mode))
        end
      else Err (UnknownLauncherFlag arg)
  end.
Definition launcher_parse (args : list string) : result LauncherArgs LauncherError :=
  let? (resources, seccomp, command) := parse_loop args ResourceLimits_default ModeOff in
  let? command := ok_or command MissingSeparator in
  match command with
  | [] => Err LauncherCommandEmpty
  | _ => Ok (mkLauncher resources seccomp command)
  end.

(** Running it: what the operating system answers, and what was asked of it. *)
Inductive Rlimit := RLIMIT_NPROC | RLIMIT_AS | RLIMIT_CPU.
#[export] Instance Rlimit_eq_dec : EqDecision Rlimit.
Proof. solve_decision. Defined.
Inductive LauncherEffect :=
| SetRlimit (resource : Rlimit) (soft hard : N)
| InstallFilter
| ExecImage (program : string) (rest : list string).
Record LauncherOs (IoError : Type) := {
  os_setrlimit : Rlimit → N → option IoError;
  os_seccomp : option IoError;
  os_exec : string → list string → IoError;
  os_empty_argv : IoError;
}.
Arguments os_setrlimit {_} _ _ _.
Arguments os_seccomp {_} _.
Arguments os_exec {_} _ _ _.
Arguments os_empty_argv {_} _.

Section Launcher.
Context {IoError : Type} (os : LauncherOs IoError).
(** A successful call is recorded; the first failure ends the run with its error. *)
Definition set_cap (resource : Rlimit) (cap : option N) (done_ : list LauncherEffect) :
    result (list LauncherEffect) (list LauncherEffect * IoError) :=
  match cap with
  | None => Ok done_
  | Some n =>
      match os_setrlimit os resource n with
      | None => Ok (done_ ++ [SetRlimit resource n n])
      | Some e => Err (done_, e)
      end
  end.
Definition apply_resource_limits (resources : ResourceLimits) :
    result (list LauncherEffect) (list LauncherEffect * IoError) :=
  let? done_ := set_cap RLIMIT_NPROC resources.(rl_max_processes) [] in
  let? done_ := set_cap RLIMIT_AS resources.(rl_max_memory_bytes) done_ in
  set_cap RLIMIT_CPU resources.(rl_max_cpu_seconds) done_.
Definition run_launcher (args : LauncherArgs) : list LauncherEffect * IoError :=
  match apply_resource_limits args.(la_resources) with
  | Err (done_, e) => (done_, e)
  | Ok done_ =>
      let filtered :=
        if seccomp_is_on args.(la_seccomp) then
          match os_seccomp os with Some e => Err (done_, e) | None => Ok (done_ ++ [InstallFilter]) end
        else Ok done_ in
      match filtered with
      | Err (done_, e) => (done_, e)
      | Ok done_ =>
          match args.(la_command) with
          | [] => (done_, os_empty_argv os)
          | program :: rest => (done_ ++ [ExecImage program rest], os_exec os program rest)
          end
      end
  end.
End Launcher.

(** ** Reading an argument vector

    How an option-first command line is read, given how many values each option takes:
    options and their values, up to a [--] or the first operand; an unknown option is
    an error. *)
Definition Opt : Type := string * list string.
Definition opt_tokens (o : Opt) : list string := o.1 :: o.2.
Fixpoint read_args (arity : string → option nat) (args : list string) (pending : option (string * nat * list string)) :
    option (list Opt * list string) :=
  match args, pending with
  | [], None => Some ([], [])
  | [], Some _ => None
  | a :: args, Some (name, S (S k), vs) => read_args arity args (Some (name, S k, vs ++ [a]))
  | a :: args, Some (name, _, vs) => prod_map (cons (name, vs ++ [a])) id <$> read_args arity args None
  | a :: args, None =>
      if a =s "--" then Some ([], args)
      else match arity a with
      | Some 0 => prod_map (cons (a, [])) id <$> read_args arity args None
      | Some (S k) => read_args arity args (Some (a, S k, []))
      | None => if starts_with "-" a then None else Some ([], a :: args)
      end
  end.

(** The options of the two command lines, with the number of values they take. *)
Definition bwrap_manual : list (string * nat) :=
  [("--die-with-parent", 0); ("--unshare-pid", 0); ("--unshare-uts", 0); ("--unshare-ipc", 0); ("--unshare-user", 0);
   ("--cap-drop", 1); ("--new-session", 0); ("--unshare-net", 0); ("--proc", 1); ("--dev", 1); ("--tmpfs", 1);
   ("--ro-bind", 2); ("--bind", 2); ("--chdir", 1); ("--seccomp", 1)].
Definition container_manual : list (string * nat) :=
  [("--rm", 0); ("--read-only", 0); ("--security-opt", 1); ("--user", 1); ("--userns=keep-id", 0); ("--cap-drop", 1);
   ("--pids-limit", 1); ("--memory", 1); ("--ulimit", 1); ("-i", 0); ("-t", 0); ("--network", 1); ("--env", 1);
   ("--volume", 1); ("--workdir", 1)].
Class BwrapCli (arity : string → option nat) : Prop := bwrap_arity f k : (f, k) ∈ bwrap_manual → arity f = Some k.
(** An operand is not an option. *)
Class ContainerCli (arity : string → option nat) : Prop := {
  container_arity f k : (f, k) ∈ container_manual → arity f = Some k;
  container_operand f : starts_with "-" f = false → arity f = None;
}.
(** A reader that knows exactly these options. *)
Definition manual_arity (manual : list (string * nat)) (f : string) : option nat :=
  snd <$> List.find (λ e, e.1 =s f) manual.
#[export] Instance bwrap_manual_cli : BwrapCli (manual_arity bwrap_manual).
Proof. intros f k. unfold bwrap_manual. rewrite !elem_of_cons, elem_of_nil. intros H. by repeat destruct H as [[= -> ->]|H]. Qed.
#[export] Instance container_manual_cli : ContainerCli (manual_arity container_manual).
Proof.
  split.
  - intros f k. unfold container_manual. rewrite !elem_of_cons, elem_of_nil. intros H. by repeat destruct H as [[= -> ->]|H].
  - intros f Hf. unfold manual_arity. destruct (List.find _ _) as [[g k]|] eqn:E; [|done].
    apply List.find_some in E as [Hin Heq]. apply str_eqb_eq in Heq. simpl in Heq. subst g. exfalso.
    assert (Forall (λ e, starts_with "-" e.1 = true) container_manual) as Hall by (repeat constructor).
    rewrite Forall_forall in Hall. apply list_elem_of_In, Hall in Hin. simpl in Hin. congruence.
Qed.

Lemma read_values arity name vs : ∀ k acc args,
  length vs = S k → read_args arity (vs ++ args) (Some (name, S k, acc)) =
    prod_map (cons (name, acc ++ vs)) id <$> read_args arity args None.
Proof.
  induction vs as [|v vs IH]; intros k acc args Hl; [done|]. simpl in Hl. injection Hl as Hl.
  destruct k as [|k]; [by destruct vs|]. cbn [app read_args]. rewrite IH by done. by rewrite <- (assoc_L app).
Qed.
Lemma read_options arity opts rest :
  Forall (λ o : Opt, o.1 ≠ "--" ∧ arity o.1 = Some (length o.2)) opts →
  read_args arity (concat (map opt_tokens opts) ++ rest) None =
    prod_map (app opts) id <$> read_args arity rest None.
Proof.
  induction 1 as [|[f vs] opts [Hf Ha] _ IH]; simpl in *; [by destruct (read_args arity rest None) as [[]|]|].
  destruct (f =s "--") eqn:E; [by apply str_eqb_eq in E|]. rewrite Ha, <- (assoc_L app).
  assert (∀ o : option (list Opt * list string), prod_map (cons (f, vs)) id <$> (prod_map (app opts) id <$> o) = prod_map (app ((f, vs) :: opts)) id <$> o)
    as Hc by by intros [[]|].
  rewrite <- Hc, <- IH. destruct vs as [|v vs]; [done|].
  exact (read_values arity f (v :: vs) (length vs) [] _ eq_refl).
Qed.

(** ** What [bwrap] is told *)

Definition flag_if (b : bool) (f : string) : list Opt := if b then [(f, [])] else [].
Definition bwrap_options (r : Restrictions) : list Opt :=
  [("--die-with-parent", []); ("--unshare-pid", []); ("--unshare-uts", []); ("--unshare-ipc", []);
   ("--unshare-user", []); ("--cap-drop", ["ALL"])]
  ++ flag_if (negb r.(rs_interactive)) "--new-session"
  ++ flag_if (bool_decide (r.(rs_network) = NetworkDeny)) "--unshare-net"
  ++ [("--proc", ["/proc"]); ("--dev", ["/dev"]); ("--tmpfs", ["/tmp"])]
  ++ map (λ p, ("--ro-bind", [p; p])) r.(rs_read_only_paths)
  ++ map (λ p, ("--bind", [p; p])) r.(rs_writable_paths)
  ++ [("--chdir", [r.(rs_cwd)])].

(** Mounts are made in the order of the options and a later one covers an earlier one:
    what a path of the sandbox shows is decided by the last mount at or above it. *)
Inductive Access := HostReadOnly | HostWritable | PrivateMount.
Definition mount_of (o : Opt) : option (string * Access) :=
  match o with
  | (f, [target]) =>
      if existsb (str_eqb f) ["--proc"; "--dev"; "--tmpfs"] then Some (target, PrivateMount) else None
  | (f, [_; target]) =>
      if f =s "--ro-bind" then Some (target, HostReadOnly)
      else if f =s "--bind" then Some (target, HostWritable) else None
  | _ => None
  end.
Definition mount_step (path : string) (seen : option Access) (o : Opt) : option Access :=
  match mount_of o with
  | Some (target, a) => if path_starts_with path target then Some a else seen
  | None => seen
  end.
Definition access (opts : list Opt) (path : string) : option Access := foldl (mount_step path) None opts.

Lemma concat_tokens_map {A} (f : A → Opt) (l : list A) : concat (map opt_tokens (map f l)) = concat (map (λ a, opt_tokens (f a)) l).
Proof. by rewrite map_map. Qed.
Lemma bubblewrap_tokens argv r :
  pr_argv (bubblewrap_prepare argv r) = BWRAP :: concat (map opt_tokens (bwrap_options r)) ++ "--" :: argv.
Proof.
  unfold bubblewrap_prepare, bwrap_options, push_if, flag_if, path_arg. cbn [pr_argv].
  rewrite !map_app, !concat_app, !concat_tokens_map. rewrite <- !(assoc_L app).
  by destruct (rs_interactive r), (bool_decide _).
Qed.
Lemma flag_if_elem b f f' vs : (f', vs) ∈ flag_if b f ↔ b = true ∧ f' = f ∧ vs = [].
Proof. destruct b; simpl; rewrite ?list_elem_of_singleton, ?elem_of_nil; naive_solver. Qed.
(** Options the manual lists, with the right number of values. *)
Definition known (manual : list (string * nat)) (o : Opt) : bool :=
  negb (o.1 =s "--") && existsb (λ e, (e.1 =s o.1) && (e.2 =? length o.2)%nat) manual.
Lemma known_read (arity : string → option nat) manual opts :
  (∀ f k, (f, k) ∈ manual → arity f = Some k) → forallb (known manual) opts = true →
  Forall (λ o : Opt, o.1 ≠ "--" ∧ arity o.1 = Some (length o.2)) opts.
Proof.
  intros Ha Hk. apply Forall_forall. intros [f vs] Ho. rewrite forallb_forall in Hk.
  apply list_elem_of_In, Hk in Ho. unfold known in Ho. apply andb_true_iff in Ho as [Hf Hm]. simpl in *.
  split; [intros ->; by rewrite str_eqb_refl in Hf|].
  apply existsb_exists in Hm as ([g k] & Hin & Hg). apply andb_true_iff in Hg as [Hg Hl].
  apply str_eqb_eq in Hg. apply Nat.eqb_eq in Hl. simpl in *. subst. by apply Ha, list_elem_of_In.
Qed.
Lemma known_map {A} manual (f : A → Opt) l : (∀ a, known manual (f a) = true) → forallb (known manual) (map f l) = true.
Proof. intros H. rewrite forallb_forall. intros o (a & <- & _)%in_map_iff. apply H. Qed.
Lemma bwrap_options_known r : forallb (known bwrap_manual) (bwrap_options r) = true.
Proof.
  unfold bwrap_options, flag_if. rewrite !forallb_app, !known_map by done.
  by destruct (rs_interactive r), (bool_decide _).
Qed.
Lemma bubblewrap_read `{Hcli : !BwrapCli arity} argv r :
  ∃ args, pr_argv (bubblewrap_prepare argv r) = BWRAP :: args ∧ read_args arity args None = Some (bwrap_options r, argv).
Proof.
  rewrite bubblewrap_tokens. eexists. split; [done|].
  rewrite read_options by (eapply known_read; [apply bwrap_arity|apply bwrap_options_known]).
  simpl. by rewrite app_nil_r.
Qed.

Definition below (paths : list string) (path : string) : bool := existsb (path_starts_with path) paths.
Lemma access_binds path a (f : string) l : (∀ p, mount_of (f, [p; p]) = Some (p, a)) → ∀ seen,
  foldl (mount_step path) seen (map (λ p, (f, [p; p])) l) = if below l path then Some a else seen.
Proof.
  intros Hm. induction l as [|p l IH]; intros seen; [done|]. cbn [map foldl below existsb].
  rewrite IH. unfold mount_step. rewrite Hm. unfold below. by destruct (path_starts_with path p), (existsb _ _).
Qed.
Lemma bwrap_access r path :
  access (bwrap_options r) path =
    if below r.(rs_writable_paths) path then Some HostWritable
    else if below r.(rs_read_only_paths) path then Some HostReadOnly
    else if below ["/proc"; "/dev"; "/tmp"] path then Some PrivateMount else None.
Proof.
  unfold access, bwrap_options. rewrite !foldl_app, (access_binds _ HostReadOnly "--ro-bind") by (intros; reflexivity).
  rewrite (access_binds _ HostWritable "--bind") by (intros; reflexivity).
  assert (∀ seen, foldl (mount_step path) seen [("--chdir", [rs_cwd r])] = seen) as -> by (intros; reflexivity).
  destruct (below (rs_writable_paths r) path); [done|]. destruct (below (rs_read_only_paths r) path); [done|].
  assert (∀ seen b f, f = "--new-session" ∨ f = "--unshare-net" →
    foldl (mount_step path) seen (flag_if b f) = seen) as Hf by (intros seen [] f [-> | ->]; reflexivity).
  rewrite !Hf by auto. unfold mount_step. cbn [foldl].
  assert (∀ f t, f = "--proc" ∨ f = "--dev" ∨ f = "--tmpfs" → mount_of (f, [t]) = Some (t, PrivateMount)) as Hm
    by (intros f t [-> | [-> | ->]]; reflexivity).
  rewrite !Hm by auto. cbn [below existsb].
  by destruct (path_starts_with path "/proc"), (path_starts_with path "/dev"), (path_starts_with path "/tmp").
Qed.

Lemma bwrap_access_iff r path :
  (access (bwrap_options r) path = Some HostWritable ↔ below r.(rs_writable_paths) path = true) ∧
  (access (bwrap_options r) path = Some HostReadOnly ↔
     below r.(rs_writable_paths) path = false ∧ below r.(rs_read_only_paths) path = true).
Proof.
  rewrite bwrap_access. generalize (below ["/proc"; "/dev"; "/tmp"] path),
    (below (rs_writable_paths r) path), (below (rs_read_only_paths r) path). clear. intros [] [] []; naive_solver.
Qed.

(** The splice puts the descriptor among the options and leaves the command as it was. *)
Lemma position_sep_app pre rest : Forall (.≠ "--") pre → position_sep (pre ++ "--" :: rest) = Some (length pre).
Proof.
  induction 1 as [|a pre Ha _ IH]; [done|]. simpl. rewrite IH. by rewrite (proj2 (str_eqb_neq _ _) Ha).
Qed.
Lemma bwrap_tokens_no_sep r :
  Forall (.≠ "--") (rs_cwd r :: rs_read_only_paths r ++ rs_writable_paths r) →
  Forall (.≠ "--") (BWRAP :: concat (map opt_tokens (bwrap_options r))).
Proof.
  intros [Hc [Hro Hrw]%Forall_app]%Forall_cons. constructor; [done|].
  unfold bwrap_options, flag_if. rewrite !map_app, !concat_app, !concat_tokens_map, !Forall_app.
  assert (∀ f l, f ≠ "--" → Forall (.≠ "--") l → Forall (.≠ "--") (concat (map (λ p, opt_tokens (f, [p; p])) l))) as Hb.
  { intros f l Hf. induction 1; simpl; repeat constructor; done. }
  split_and!; try by repeat constructor.
  - by destruct (rs_interactive r); repeat constructor.
  - by destruct (bool_decide _); repeat constructor.
  - by apply Hb.
  - by apply Hb.
Qed.
Lemma bubblewrap_seccomp_read `{Hcli : !BwrapCli arity} argv r fd :
  Forall (.≠ "--") (rs_cwd r :: rs_read_only_paths r ++ rs_writable_paths r) →
  ∃ args, bubblewrap_with_seccomp_fd (pr_argv (bubblewrap_prepare argv r)) fd = BWRAP :: args ∧
    read_args arity args None = Some (bwrap_options r ++ [("--seccomp", [pretty fd])], argv).
Proof.
  intros Hsep. rewrite bubblewrap_tokens. unfold bubblewrap_with_seccomp_fd. rewrite app_comm_cons.
  rewrite position_sep_app by by apply bwrap_tokens_no_sep. cbn [unwrap_or].
  rewrite take_app_length, drop_app_length. eexists. split; [done|].
  replace (concat (map opt_tokens (bwrap_options r)) ++ ["--seccomp"; pretty fd] ++ "--" :: argv)
    with (concat (map opt_tokens (bwrap_options r ++ [("--seccomp", [pretty fd])])) ++ "--" :: argv)
    by by rewrite map_app, concat_app, <- (assoc_L app).
  rewrite read_options; [simpl; by rewrite app_nil_r|].
  apply Forall_app; split; [eapply known_read; [apply bwrap_arity|apply bwrap_options_known]|].
  apply (known_read _ bwrap_manual); [apply bwrap_arity|done].
Qed.

(** ** What a container runtime is told *)

Definition opts_if (b : bool) (l : list Opt) : list Opt := if b then l else [].
Definition opts_opt {A} (o : option A) (l : A → list Opt) : list Opt := match o with Some a => l a | None => [] end.
Definition identity_option (runtime : Runtime) (uid gid : N) : Opt :=
  match runtime with
  | RtDocker => ("--user", [pretty uid +:+ ":" +:+ pretty gid])
  | RtPodman => ("--userns=keep-id", [])
  end.
Definition container_options (self : ContainerSandbox) (r : Restrictions) : list Opt :=
  [("--rm", []); ("--read-only", []); ("--security-opt", ["no-new-privileges"])]
  ++ opts_if (seccomp_is_on r.(rs_seccomp))
       (opts_opt r.(rs_seccomp_profile_path) (λ path, [("--security-opt", ["seccomp=" +:+ path])]))
  ++ opts_opt r.(rs_run_uid) (λ uid,
       [identity_option self.(ct_runtime) uid (unwrap_or r.(rs_run_gid) uid); ("--cap-drop", ["ALL"])])
  ++ opts_opt r.(rs_resources).(rl_max_processes) (λ n, [("--pids-limit", [pretty n])])
  ++ opts_opt r.(rs_resources).(rl_max_memory_bytes) (λ n, [("--memory", [pretty n])])
  ++ opts_opt r.(rs_resources).(rl_max_cpu_seconds) (λ n, [("--ulimit", ["cpu=" +:+ pretty n +:+ ":" +:+ pretty n])])
  ++ opts_if r.(rs_interactive) [("-i", []); ("-t", [])]
  ++ opts_if (bool_decide (r.(rs_network) = NetworkDeny)) [("--network", ["none"])]
  ++ map (λ k, ("--env", [k])) (btree_keys r.(rs_env))
  ++ map (λ p, ("--volume", [p +:+ ":" +:+ p +:+ ":ro"])) r.(rs_read_only_paths)
  ++ map (λ p, ("--volume", [p +:+ ":" +:+ p])) r.(rs_writable_paths)
  ++ [("--workdir", [r.(rs_cwd)])].

Lemma tokens_opt {A} (o : option A) f g :
  (∀ a, concat (map opt_tokens (g a)) = f a) → concat (map opt_tokens (opts_opt o g)) = push_opt o f.
Proof. intros H. destruct o; [apply H|done]. Qed.
Lemma tokens_if b f g : concat (map opt_tokens g) = f → concat (map opt_tokens (opts_if b g)) = push_if b f.
Proof. by destruct b. Qed.
Lemma container_tokens self argv r :
  pr_argv (container_prepare self argv r) =
    runtime_program self.(ct_runtime) :: "run" :: concat (map opt_tokens (container_options self r)) ++ self.(ct_image) :: argv.
Proof.
  unfold container_prepare, container_options, container_identity, container_caps, path_arg. cbn [pr_argv].
  rewrite !map_app, !concat_app, !concat_tokens_map. rewrite <- !(assoc_L app). symmetry.
  rewrite (tokens_if _ _ _ (tokens_opt _ _ _ (λ _, eq_refl))).
  rewrite !(tokens_if _ _ _ eq_refl), !(tokens_opt _ _ _ (λ _, eq_refl)).
  by destruct (rs_run_uid r), (ct_runtime self).
Qed.
Lemma known_opt {A} manual (o : option A) l :
  (∀ a, forallb (known manual) (l a) = true) → forallb (known manual) (opts_opt o l) = true.
Proof. intros H. destruct o; [apply H|done]. Qed.
Lemma known_if manual b l : forallb (known manual) l = true → forallb (known manual) (opts_if b l) = true.
Proof. by destruct b. Qed.
Lemma container_options_known self r : forallb (known container_manual) (container_options self r) = true.
Proof.
  unfold container_options. rewrite !forallb_app, !known_map by (intros; reflexivity).
  rewrite !known_if, !known_opt by (try apply known_opt; intros; destruct (ct_runtime self); reflexivity). reflexivity.
Qed.
Lemma container_read `{Hcli : !ContainerCli arity} self argv r :
  starts_with "-" self.(ct_image) = false →
  ∃ args, pr_argv (container_prepare self argv r) = runtime_program self.(ct_runtime) :: "run" :: args ∧
    read_args arity args None = Some (container_options self r, self.(ct_image) :: argv).
Proof.
  intros Hi. rewrite container_tokens. eexists. split; [done|].
  rewrite read_options by (eapply known_read; [apply container_arity|apply container_options_known]).
  assert (read_args arity (ct_image self :: argv) None = Some ([], ct_image self :: argv)) as ->.
  { cbn [read_args]. destruct (ct_image self =s "--") eqn:E; [apply str_eqb_eq in E; rewrite E in Hi; discriminate Hi|].
    by rewrite (container_operand _ Hi), Hi. }
  simpl. by rewrite app_nil_r.
Qed.

(** ** The launcher *)

Definition cap_fits (cap : option N) : Prop := ∀ n, cap = Some n → (Z.of_N n <= u64_max)%Z.
Definition limits_fit (r : ResourceLimits) : Prop :=
  cap_fits r.(rl_max_processes) ∧ cap_fits r.(rl_max_memory_bytes) ∧ cap_fits r.(rl_max_cpu_seconds).

(** One flag of [to_args] read by one step of [parse]. *)
Lemma parse_u64_flag_pretty flag n : (Z.of_N n <= u64_max)%Z → parse_u64_flag flag (Some (pretty n)) = Ok n.
Proof. intros Hn. unfold parse_u64_flag. simpl. by rewrite parse_u64_pretty, N2Z.id. Qed.
Lemma parse_nproc cap rest p m c s : cap_fits cap →
  parse_loop (push_opt cap (λ n, [FLAG_NPROC; pretty n]) ++ rest) (mkLimits p m c) s = parse_loop rest (mkLimits (opt_or cap p) m c) s.
Proof.
  intros Hf. destruct cap as [n|]; [|done].
  transitivity (let? k := parse_u64_flag FLAG_NPROC (Some (pretty n)) in parse_loop rest (mkLimits (Some k) m c) s); [reflexivity|].
  by rewrite parse_u64_flag_pretty by auto.
Qed.
Lemma parse_as cap rest p m c s : cap_fits cap →
  parse_loop (push_opt cap (λ n, [FLAG_AS; pretty n]) ++ rest) (mkLimits p m c) s = parse_loop rest (mkLimits p (opt_or cap m) c) s.
Proof.
  intros Hf. destruct cap as [n|]; [|done].
  transitivity (let? k := parse_u64_flag FLAG_AS (Some (pretty n)) in parse_loop rest (mkLimits p (Some k) c) s); [reflexivity|].
  by rewrite parse_u64_flag_pretty by auto.
Qed.
Lemma parse_cpu cap rest p m c s : cap_fits cap →
  parse_loop (push_opt cap (λ n, [FLAG_CPU; pretty n]) ++ rest) (mkLimits p m c) s = parse_loop rest (mkLimits p m (opt_or cap c)) s.
Proof.
  intros Hf. destruct cap as [n|]; [|done].
  transitivity (let? k := parse_u64_flag FLAG_CPU (Some (pretty n)) in parse_loop rest (mkLimits p m (Some k)) s); [reflexivity|].
  by rewrite parse_u64_flag_pretty by auto.
Qed.
Lemma launcher_parse_to_args a : limits_fit a.(la_resources) → a.(la_command) ≠ [] → launcher_parse (to_args a) = Ok a.
Proof.
  destruct a as [[p m c] s cmd]. intros (Hp & Hm & Hc) Hcmd. unfold launcher_parse, to_args, ResourceLimits_default.
  cbn [la_resources la_seccomp la_command rl_max_processes rl_max_memory_bytes rl_max_cpu_seconds] in *.
  rewrite parse_nproc, parse_as, parse_cpu by done.
  assert (∀ o : option N, opt_or o None = o) as Ho by by intros [].
  rewrite !Ho. destruct s, cmd; first [done | reflexivity].
Qed.

(** What must be in force before the command runs. *)
Definition cap_effect (resource : Rlimit) (cap : option N) : list LauncherEffect :=
  match cap with Some n => [SetRlimit resource n n] | None => [] end.
Definition confinement (args : LauncherArgs) : list LauncherEffect :=
  cap_effect RLIMIT_NPROC args.(la_resources).(rl_max_processes)
  ++ cap_effect RLIMIT_AS args.(la_resources).(rl_max_memory_bytes)
  ++ cap_effect RLIMIT_CPU args.(la_resources).(rl_max_cpu_seconds)
  ++ (if seccomp_is_on args.(la_seccomp) then [InstallFilter] else []).
Definition os_grants {E} (os : LauncherOs E) (x : LauncherEffect) : Prop :=
  match x with
  | SetRlimit resource n _ => os_setrlimit os resource n = None
  | InstallFilter => os_seccomp os = None
  | ExecImage _ _ => True
  end.

#[export] Instance os_grants_dec {E} (os : LauncherOs E) x : Decision (os_grants os x).
Proof.
  destruct x as [resource n h| |]; simpl; [destruct (os_setrlimit os resource n)|destruct (os_seccomp os)|]; try (by left); by right.
Defined.
Lemma set_cap_spec {E} (os : LauncherOs E) resource cap done_ :
  match set_cap os resource cap done_ with
  | Ok done' => done' = done_ ++ cap_effect resource cap ∧ Forall (os_grants os) (cap_effect resource cap)
  | Err (done', _) => done' = done_ ∧ ¬ Forall (os_grants os) (cap_effect resource cap)
  end.
Proof.
  unfold set_cap, cap_effect. destruct cap as [n|]; [|by rewrite app_nil_r].
  destruct (os_setrlimit os resource n) eqn:E0; (split; [done|]).
  - intros [H _]%Forall_cons. simpl in H. congruence.
  - by repeat constructor.
Qed.
Lemma run_launcher_spec {E} (os : LauncherOs E) args :
  let '(effects, _) := run_launcher os args in
  (Forall (os_grants os) (confinement args) →
    effects = confinement args ++
      match args.(la_command) with [] => [] | program :: rest => [ExecImage program rest] end) ∧
  (¬ Forall (os_grants os) (confinement args) → ∃ n, effects = take n (confinement args)).
Proof.
  unfold run_launcher, apply_resource_limits, confinement.
  pose proof (set_cap_spec os RLIMIT_NPROC (rl_max_processes (la_resources args)) []) as H1.
  destruct (set_cap os RLIMIT_NPROC _ _) as [d1|[d1 e]].
  2: { destruct H1 as [-> H1]. rewrite !Forall_app. split; [naive_solver|]. by exists 0. }
  destruct H1 as [-> H1]. cbn [app].
  pose proof (set_cap_spec os RLIMIT_AS (rl_max_memory_bytes (la_resources args))
    (cap_effect RLIMIT_NPROC (rl_max_processes (la_resources args)))) as H2.
  destruct (set_cap os RLIMIT_AS _ _) as [d2|[d2 e]].
  2: { destruct H2 as [-> H2]. rewrite !Forall_app. split; [naive_solver|].
       eexists. symmetry. apply take_app_length. }
  destruct H2 as [-> H2].
  pose proof (set_cap_spec os RLIMIT_CPU (rl_max_cpu_seconds (la_resources args))
    (cap_effect RLIMIT_NPROC (rl_max_processes (la_resources args)) ++
     cap_effect RLIMIT_AS (rl_max_memory_bytes (la_resources args)))) as H3.
  destruct (set_cap os RLIMIT_CPU _ _) as [d3|[d3 e]]; destruct H3 as [-> H3].
  2: { rewrite !Forall_app. split; [naive_solver|]. rewrite (assoc_L app). eexists. symmetry. apply take_app_length. }
  rewrite !(assoc_L app). destruct (seccomp_is_on (la_seccomp args)).
  - destruct (os_seccomp os) eqn:Es; [|assert (Forall (os_grants os) [InstallFilter]) by by repeat constructor].
    + rewrite !Forall_app. split; [intros (_ & [Hs _]%Forall_cons); simpl in Hs; congruence|].
      intros _. eexists. symmetry. apply take_app_length.
    + destruct (la_command args); rewrite !Forall_app; (split; [|naive_solver]); intros _; by rewrite ?app_nil_r.
  - destruct (la_command args); rewrite !Forall_app; (split; [|naive_solver]); intros _; by rewrite ?app_nil_r.
Qed.

(** ** The values given to an option *)

Definition values (f : string) (opts : list Opt) : list (list string) := map snd (List.filter (λ o, o.1 =s f) opts).
Lemma values_app f a b : values f (a ++ b) = values f a ++ values f b.
Proof. unfold values. by rewrite List.filter_app, map_app. Qed.
Lemma values_elem f vs opts : vs ∈ values f opts ↔ (f, vs) ∈ opts.
Proof.
  unfold values. rewrite list_elem_of_fmap. split.
  - intros ([g ws] & -> & [Hin Hg]%list_elem_of_In%List.filter_In). apply str_eqb_eq in Hg. simpl in *. subst g.
    by apply list_elem_of_In.
  - intros Hin. exists (f, vs). split; [done|]. apply list_elem_of_In, List.filter_In.
    split; [by apply list_elem_of_In|]. apply str_eqb_refl.
Qed.
Lemma values_skip f a b : values f a = [] → values f (a ++ b) = values f b.
Proof. intros H. by rewrite values_app, H. Qed.
Lemma values_take f a b : values f b = [] → values f (a ++ b) = values f a.
Proof. intros H. by rewrite values_app, H, app_nil_r. Qed.
Lemma values_map_other {A} f g (h : A → list string) l : (g =s f) = false → values f (map (λ a, (g, h a)) l) = [].
Proof. intros H. unfold values. induction l as [|a l IH]; [done|]. simpl. by rewrite H. Qed.
Lemma values_map_same {A} f (h : A → list string) l : values f (map (λ a, (f, h a)) l) = map h l.
Proof. unfold values. induction l as [|a l IH]; [done|]. simpl. rewrite str_eqb_refl. simpl. by rewrite IH. Qed.
Lemma values_opt {A} f (o : option A) (l : A → list Opt) (h : A → list (list string)) :
  (∀ a, values f (l a) = h a) → values f (opts_opt o l) = match o with Some a => h a | None => [] end.
Proof. intros H. destruct o; [apply H|done]. Qed.
Lemma values_opt_other {A} f (o : option A) (l : A → list Opt) : (∀ a, values f (l a) = []) → values f (opts_opt o l) = [].
Proof. intros H. destruct o; [apply H|done]. Qed.
Lemma values_if f b l : values f (opts_if b l) = if b then values f l else [].
Proof. by destruct b. Qed.
Lemma values_if_other f b l : values f l = [] → values f (opts_if b l) = [].
Proof. intros H. destruct b; [exact H|done]. Qed.
(** A block that does not give the option. *)
Ltac no_values :=
  first
    [ reflexivity
    | apply values_map_other; reflexivity
    | apply values_if_other; no_values
    | apply values_opt_other; intros; no_values
    | match goal with |- context [identity_option ?r _ _] => destruct r; reflexivity end
    | match goal with |- context [flag_if ?b _] => destruct b; reflexivity end ].
(** Reduces a list of blocks to the one that does. *)
Ltac values_of := repeat (rewrite values_skip by no_values);
  try (rewrite values_take by (repeat (rewrite values_skip by no_values); no_values)).

Lemma container_values self r :
  let opts := container_options self r in
  values "--read-only" opts = [[]] ∧
  values "--network" opts = (if bool_decide (r.(rs_network) = NetworkDeny) then [["none"]] else []) ∧
  values "--cap-drop" opts = (if r.(rs_run_uid) is Some _ then [["ALL"]] else []) ∧
  values "--env" opts = map (λ k, [k]) (btree_keys r.(rs_env)) ∧
  values "--pids-limit" opts = (if r.(rs_resources).(rl_max_processes) is Some n then [[pretty n]] else []) ∧
  values "--memory" opts = (if r.(rs_resources).(rl_max_memory_bytes) is Some n then [[pretty n]] else []) ∧
  values "--ulimit" opts =
    (if r.(rs_resources).(rl_max_cpu_seconds) is Some n then [["cpu=" +:+ pretty n +:+ ":" +:+ pretty n]] else []) ∧
  values "--workdir" opts = [[r.(rs_cwd)]] ∧
  values "--security-opt" opts = [["no-new-privileges"]] ++
    (if seccomp_is_on r.(rs_seccomp) then if r.(rs_seccomp_profile_path) is Some p then [["seccomp=" +:+ p]] else [] else []) ∧
  values "--volume" opts = map (λ p, [p +:+ ":" +:+ p +:+ ":ro"]) r.(rs_read_only_paths) ++
    map (λ p, [p +:+ ":" +:+ p]) r.(rs_writable_paths).
Proof.
  unfold container_options. split_and!.
  - by values_of.
  - by values_of; rewrite values_if.
  - values_of. apply values_opt. intros uid. by destruct (ct_runtime self).
  - values_of. apply values_map_same.
  - values_of. by apply values_opt.
  - values_of. by apply values_opt.
  - values_of. by apply values_opt.
  - by values_of.
  - rewrite values_app. f_equal. values_of. rewrite values_if. destruct (seccomp_is_on _); [|done]. by apply values_opt.
  - values_of. rewrite values_app, values_map_same. f_equal. values_of. apply values_map_same.
Qed.
Lemma bwrap_values r :
  let opts := bwrap_options r in
  values "--unshare-net" opts = (if bool_decide (r.(rs_network) = NetworkDeny) then [[]] else []) ∧
  values "--new-session" opts = (if r.(rs_interactive) then [] else [[]]) ∧
  values "--cap-drop" opts = [["ALL"]] ∧
  Forall (λ f, values f opts = [[]])
    ["--die-with-parent"; "--unshare-pid"; "--unshare-uts"; "--unshare-ipc"; "--unshare-user"] ∧
  values "--chdir" opts = [[r.(rs_cwd)]].
Proof.
  unfold bwrap_options. split_and!.
  - values_of. by destruct (bool_decide _).
  - values_of. by destruct (rs_interactive r).
  - by values_of.
  - repeat constructor; by values_of.
  - by values_of.
Qed.

(** ** Theorems *)

(** What the runner hands to the launcher is what the launcher applies: the flags
    written for a set of caps, a filter mode and a command are read back as the same
    caps, mode and command, for every non-empty command, one with its own [--] or
    with arguments that look like launcher flags included, and all caps of 64 bits. *)
Theorem launcher_roundtrip a :
  limits_fit a.(la_resources) → a.(la_command) ≠ [] → launcher_parse (to_args a) = Ok a.
Proof. apply launcher_parse_to_args. Qed.
(** The theorem applied to a wrapped command and the largest cap. *)
Lemma launcher_roundtrip_witness :
  let a := mkLauncher (mkLimits (Some 256%N) (Some 18446744073709551615%N) None) ModeDefault ["bwrap"; "--"; "--nproc"; "7"] in
  to_args a = ["--nproc"; "256"; "--as"; "18446744073709551615"; "--seccomp"; "default"; "--"; "bwrap"; "--"; "--nproc"; "7"] ∧
  launcher_parse (to_args a) = Ok a.
Proof.
  intros a. split; [vm_compute; reflexivity|]. apply (launcher_roundtrip a).
  - unfold limits_fit, cap_fits, a; cbn. split_and!; intros n [= <-]; vm_compute; discriminate.
  - discriminate.
Defined.

(** The launcher fails closed.  The command is executed exactly when it is not
    empty and the operating system granted every configured cap and, where asked for,
    the syscall filter; and when it is executed, all of them are in force, with the
    soft and the hard limit equal to the cap, and it is the last thing done. *)
Theorem launcher_fail_closed {E} (os : LauncherOs E) args effects e :
  run_launcher os args = (effects, e) →
  (∀ program rest, ExecImage program rest ∈ effects ↔
     args.(la_command) = program :: rest ∧ Forall (os_grants os) (confinement args)) ∧
  (∀ program rest, ExecImage program rest ∈ effects → effects = confinement args ++ [ExecImage program rest]).
Proof.
  intros Hr. pose proof (run_launcher_spec os args) as Hs. rewrite Hr in Hs. destruct Hs as [Hok Hbad].
  assert (∀ program rest, ExecImage program rest ∉ confinement args) as Hno.
  { intros program rest. unfold confinement, cap_effect. rewrite !elem_of_app.
    destruct (rl_max_processes _), (rl_max_memory_bytes _), (rl_max_cpu_seconds _), (seccomp_is_on _);
      rewrite ?list_elem_of_singleton, ?elem_of_nil; naive_solver. }
  assert (∀ program rest, ExecImage program rest ∈ effects →
    args.(la_command) = program :: rest ∧ Forall (os_grants os) (confinement args)) as Hex.
  { intros program rest Hin. assert (Forall (os_grants os) (confinement args)) as Hg.
    { apply dec_stable. intros Hn. destruct (Hbad Hn) as [n ->].
      by apply (Hno program rest), (subseteq_take n). }
    split; [|done]. rewrite (Hok Hg), elem_of_app in Hin. destruct Hin as [?%Hno|Hin]; [done|].
    destruct (la_command args); [by apply not_elem_of_nil in Hin|]. apply list_elem_of_singleton in Hin. congruence. }
  split; [intros program rest; split; [apply Hex|]|].
  - intros [Hc Hg]. rewrite (Hok Hg), Hc, elem_of_app, list_elem_of_singleton. auto.
  - intros program rest Hin. destruct (Hex _ _ Hin) as [Hc Hg]. by rewrite (Hok Hg), Hc.
Qed.
(** The theorem applied to a host that refuses the memory cap, and to one that grants all. *)
Lemma launcher_fail_closed_witness :
  let args := mkLauncher (mkLimits (Some 64%N) (Some 1024%N) None) ModeDefault ["ls"; "-l"] in
  let os b := {| os_setrlimit r _ := if bool_decide (r = RLIMIT_AS) && b then Some tt else None;
                 os_seccomp := None; os_exec _ _ := tt; os_empty_argv := tt |} in
  (ExecImage "ls" ["-l"] ∉ fst (run_launcher (os true) args)) ∧
  fst (run_launcher (os false) args) =
    [SetRlimit RLIMIT_NPROC 64 64; SetRlimit RLIMIT_AS 1024 1024; InstallFilter; ExecImage "ls" ["-l"]].
Proof.
  intros args os. split.
  - intros Hin. apply (launcher_fail_closed (os true) args _ tt eq_refl) in Hin as [_ Hg].
    apply Forall_cons in Hg as [_ [Hg _]%Forall_cons]. vm_compute in Hg. discriminate Hg.
  - apply (launcher_fail_closed (os false) args _ tt eq_refl). apply list_elem_of_In. vm_compute. tauto.
Defined.

(** The command line built for [bwrap] says what the restrictions say and runs the
    command: read with the options' documented arities it gives the command unchanged
    as its operands, whatever the command and the paths look like; capabilities are
    dropped and the process, host, IPC and user namespaces are new; the network
    namespace is new exactly when the network is denied; and with mounts made in order,
    a host path is writable exactly when it lies below a writable path, read-only
    exactly when it lies below a read-only path and below no writable one, and is
    otherwise not there. *)
Theorem bubblewrap_confines `{Hcli : !BwrapCli arity} argv r :
  ∃ args opts,
    pr_argv (bubblewrap_prepare argv r) = BWRAP :: args ∧ read_args arity args None = Some (opts, argv) ∧
    values "--cap-drop" opts = [["ALL"]] ∧
    Forall (λ f, values f opts = [[]])
      ["--die-with-parent"; "--unshare-pid"; "--unshare-uts"; "--unshare-ipc"; "--unshare-user"] ∧
    (("--unshare-net", []) ∈ opts ↔ r.(rs_network) = NetworkDeny) ∧
    (("--new-session", []) ∈ opts ↔ r.(rs_interactive) = false) ∧
    (∀ path, access opts path = Some HostWritable ↔ below r.(rs_writable_paths) path = true) ∧
    (∀ path, access opts path = Some HostReadOnly ↔
       below r.(rs_writable_paths) path = false ∧ below r.(rs_read_only_paths) path = true).
Proof.
  destruct (bubblewrap_read (arity := arity) argv r) as (args & Ha & Hr). exists args, (bwrap_options r).
  destruct (bwrap_values r) as (Hn & Hs & Hc & Hf & _). split_and!; [done..| | | |].
  - rewrite <- values_elem, Hn. clear. destruct (rs_network r); simpl; rewrite ?list_elem_of_singleton, ?elem_of_nil; naive_solver.
  - rewrite <- values_elem, Hs. clear. destruct (rs_interactive r); simpl; rewrite ?list_elem_of_singleton, ?elem_of_nil; naive_solver.
  - intros path. apply bwrap_access_iff.
  - intros path. apply bwrap_access_iff.
Qed.
(** The theorem applied to a command that begins like an option, a read-only root and a
    workspace below it, without network. *)
Definition sample_restrictions (env : gmap string string) (uid : option N) : Restrictions :=
  mkRestrictions "/work" env (Some 1000%N) None NetworkDeny ["/"] ["/work"] false (mkLimits (Some 64%N) None None) ModeOff
    None uid None.
Lemma bubblewrap_confines_witness :
  ∃ args opts,
    pr_argv (bubblewrap_prepare ["--bind"; "/"; "--"] (sample_restrictions ∅ None)) = BWRAP :: args ∧
    read_args (manual_arity bwrap_manual) args None = Some (opts, ["--bind"; "/"; "--"]) ∧
    ("--unshare-net", []) ∈ opts ∧
    access opts "/work/a" = Some HostWritable ∧ access opts "/etc" = Some HostReadOnly.
Proof.
  destruct (bubblewrap_confines (arity := manual_arity bwrap_manual) ["--bind"; "/"; "--"] (sample_restrictions ∅ None))
    as (args & opts & Ha & Hr & _ & _ & Hn & _ & Hw & Hro).
  exists args, opts. split_and!; [exact Ha|exact Hr|by apply Hn|apply Hw; vm_compute; reflexivity|].
  apply Hro. vm_compute. split; reflexivity.
Defined.

(** The command line built for a container runtime says what the restrictions say:
    read with the options' documented arities its operands are the image and the
    command, unchanged; the root is read-only and privileges cannot be gained; the
    network is [none] exactly when it is denied; capabilities are dropped exactly when
    the container runs under the daemon's identity; the caps and the mounts are those
    configured, read-only ones first; the variables forwarded are those of the sanitized
    environment, by name, and no value of a variable is part of the command line. *)
Theorem container_confines `{Hcli : !ContainerCli arity} self argv r :
  starts_with "-" self.(ct_image) = false →
  ∃ args opts,
    pr_argv (container_prepare self argv r) = runtime_program self.(ct_runtime) :: "run" :: args ∧
    read_args arity args None = Some (opts, self.(ct_image) :: argv) ∧
    values "--read-only" opts = [[]] ∧ ("--security-opt", ["no-new-privileges"]) ∈ opts ∧
    (("--network", ["none"]) ∈ opts ↔ r.(rs_network) = NetworkDeny) ∧
    (("--cap-drop", ["ALL"]) ∈ opts ↔ is_Some r.(rs_run_uid)) ∧
    values "--pids-limit" opts = (if r.(rs_resources).(rl_max_processes) is Some n then [[pretty n]] else []) ∧
    values "--memory" opts = (if r.(rs_resources).(rl_max_memory_bytes) is Some n then [[pretty n]] else []) ∧
    values "--volume" opts = map (λ p, [p +:+ ":" +:+ p +:+ ":ro"]) r.(rs_read_only_paths) ++
      map (λ p, [p +:+ ":" +:+ p]) r.(rs_writable_paths) ∧
    (∀ k, ("--env", [k]) ∈ opts ↔ is_Some (r.(rs_env) !! k)) ∧
    (∀ r', r' = mkRestrictions r.(rs_cwd) r'.(rs_env) r.(rs_timeout) r.(rs_max_output_bytes) r.(rs_network)
         r.(rs_read_only_paths) r.(rs_writable_paths) r.(rs_interactive) r.(rs_resources) r.(rs_seccomp)
         r.(rs_seccomp_profile_path) r.(rs_run_uid) r.(rs_run_gid) →
       btree_keys r'.(rs_env) = btree_keys r.(rs_env) →
       pr_argv (container_prepare self argv r') = pr_argv (container_prepare self argv r)).
Proof.
  intros Hi. destruct (container_read (arity := arity) self argv r Hi) as (args & Ha & Hr).
  exists args, (container_options self r).
  destruct (container_values self r) as (Hro & Hn & Hc & He & Hp & Hm & _ & _ & Hs & Hv).
  split_and!; [done..| | | |done|done|done| |].
  - rewrite <- values_elem, Hs. apply elem_of_app. left. by apply list_elem_of_singleton.
  - rewrite <- values_elem, Hn. clear. destruct (rs_network r); simpl; rewrite ?list_elem_of_singleton, ?elem_of_nil; naive_solver.
  - rewrite <- values_elem, Hc. clear. destruct (rs_run_uid r); simpl; rewrite ?list_elem_of_singleton, ?elem_of_nil; naive_solver.
  - intros k. rewrite <- values_elem, He, <- elem_of_btree_keys, list_elem_of_fmap. clear. naive_solver.
  - intros r' -> Hk. unfold container_prepare. cbn [pr_argv rs_env] in *. simpl in Hk. by rewrite Hk.
Qed.
(** The theorem applied to a podman container with one variable. *)
Lemma container_confines_witness :
  ∃ args opts,
    pr_argv (container_prepare (mkContainer RtPodman "alpine") ["sh"; "-c"; "id"] (sample_restrictions {["LANG" := "C"]} (Some 1000%N)))
      = "podman" :: "run" :: args ∧
    read_args (manual_arity container_manual) args None = Some (opts, ["alpine"; "sh"; "-c"; "id"]) ∧
    ("--network", ["none"]) ∈ opts ∧ ("--cap-drop", ["ALL"]) ∈ opts ∧ ("--env", ["LANG"]) ∈ opts ∧ ("--env", ["HOME"]) ∉ opts.
Proof.
  destruct (container_confines (arity := manual_arity container_manual) (mkContainer RtPodman "alpine") ["sh"; "-c"; "id"]
    (sample_restrictions {["LANG" := "C"]} (Some 1000%N)) eq_refl)
    as (args & opts & Ha & Hr & _ & _ & Hn & Hc & _ & _ & _ & He & _).
  exists args, opts. split_and!; [exact Ha|exact Hr|by apply Hn|apply Hc; by eexists|apply He; by eexists|].
  rewrite He. intros [v Hv]. vm_compute in Hv. discriminate Hv.
Defined.
