(* ===== verification/PolicyFile.v ===== *)
(** * The policy file: data model and validation

    Models [crates/mx-agent-policy/src/file.rs].  The TOML parser and the regex
    compiler are third-party code and are arguments of the definitions that
    call them; error texts are not rendered, but every error carries the dotted
    path (as a list of segments) and the rule that failed. *)
From Stdlib Require Import Ascii.
From stdpp Require Import gmap strings list sorting.
From S2P Require Import Prelude RustStr.

(** ** Data *)

Inductive NetworkPolicy := NetAllow | NetDeny.
Inductive RawExecDefault := RawAllow | RawDeny.
Inductive Sandbox := SbNone | Bubblewrap | Firejail | Docker | Podman | Chroot.
Inductive Seccomp := SeccompOff | SeccompDefault.

#[export] Instance NetworkPolicy_eq_dec : EqDecision NetworkPolicy.
Proof. solve_decision. Defined.
#[export] Instance RawExecDefault_eq_dec : EqDecision RawExecDefault.
Proof. solve_decision. Defined.
#[export] Instance Sandbox_eq_dec : EqDecision Sandbox.
Proof. solve_decision. Defined.
#[export] Instance Seccomp_eq_dec : EqDecision Seccomp.
Proof. solve_decision. Defined.

Definition sandbox_name (s : Sandbox) : string :=
  match s with
  | SbNone => "none" | Bubblewrap => "bubblewrap" | Firejail => "firejail"
  | Docker => "docker" | Podman => "podman" | Chroot => "chroot"
  end.

Definition seccomp_name (s : Seccomp) : string :=
  match s with SeccompOff => "off" | SeccompDefault => "default" end.

Record ExecutionPolicy := mkExecutionPolicy {
  ex_default_sandbox : option Sandbox;
  ex_network : option NetworkPolicy;
  ex_read_only_paths : list string;
  ex_writable_paths : list string;
  ex_env_allowlist : list string;
  ex_container_image : option string;
  ex_max_processes : option N;
  ex_max_memory_bytes : option N;
  ex_max_cpu_seconds : option N;
  ex_seccomp : Seccomp;
  ex_require_sandbox : bool;
}.

Record AgentPolicy := mkAgentPolicy {
  ag_allow_exec : bool;
  ag_allow_tools : list string;
  ag_allow_commands : list string;
  ag_allow_cwd : list string;
  ag_deny_args_regex : list string;
  ag_max_runtime_ms : option N;
  ag_max_output_bytes : option N;
  ag_requires_approval : bool;
  ag_sandbox : option Sandbox;
  ag_network : option NetworkPolicy;
  ag_max_processes : option N;
  ag_max_memory_bytes : option N;
  ag_max_cpu_seconds : option N;
  ag_seccomp : option Seccomp;
  ag_require_verified_device : bool;
}.

Record RoomPolicy := mkRoomPolicy {
  rm_trusted : bool;
  rm_raw_exec_default : option RawExecDefault;
  rm_require_verified_device : bool;
  rm_approvers : list string;
  rm_agents : gmap string AgentPolicy;
}.

Record Policy := mkPolicy {
  execution : ExecutionPolicy;
  rooms : gmap string RoomPolicy;
}.

(** The [Default] implementations. *)
Definition ExecutionPolicy_default : ExecutionPolicy :=
  mkExecutionPolicy None None [] [] [] None None None None SeccompOff false.
Definition AgentPolicy_default : AgentPolicy :=
  mkAgentPolicy false [] [] [] [] None None false None None None None None None false.
Definition RoomPolicy_default : RoomPolicy := mkRoomPolicy false None false [] ∅.
Definition Policy_default : Policy := mkPolicy ExecutionPolicy_default ∅.

(** ** Errors *)

(** A dotted path: [a.b], a quoted map key, or [[i]]. *)
Inductive path_seg := Field (name : string) | Key (key : string) | Index (i : nat).

(** The rule a value broke, with the value the message quotes. *)
Inductive Violation :=
| EmptyEnvName
| BadRoomId (id : string)
| BadApproverId (id : string)
| BadAgentId (id : string)
| UnimplementedSandbox (name : string)
| InvalidRegex (pattern : string)
| EmptyToolName (name : string)
| EmptyCommand' (cmd : string)
| ZeroLimit (field : string)
| PathNotAbsolute (path : string)
| PathNotCanonical (path : string).

Inductive PolicyError :=
| PolicyIo (path source : string)
| PolicyParse (msg : string)
| PolicyValidation (path : list path_seg) (v : Violation).

(** ** Validation *)

(** [path.split('/').any(|seg| seg == ".." || seg == ".")]. *)
Definition has_dot_segment (p : string) : bool :=
  existsb (λ seg, (seg =s "..") || (seg =s ".")) (split_on "/"%char p).

Definition validate_paths (prefix : list path_seg) (paths : list string) : result unit PolicyError :=
  try_for (λ idx path,
    if negb (is_absolute path) then
      Err (PolicyValidation (prefix ++ [Index idx]) (PathNotAbsolute path))
    else if has_dot_segment path then
      Err (PolicyValidation (prefix ++ [Index idx]) (PathNotCanonical path))
    else Ok tt) paths.

Definition validate_sandbox (path : list path_seg) (sandbox : option Sandbox) : result unit PolicyError :=
  match sandbox with
  | Some ((Firejail | Chroot) as backend) =>
      Err (PolicyValidation path (UnimplementedSandbox (sandbox_name backend)))
  | _ => Ok tt
  end.

Definition validate_resource_caps (prefix : list path_seg)
    (max_processes max_memory_bytes max_cpu_seconds : option N) : result unit PolicyError :=
  try_for (λ _ '(value, field),
    if bool_decide (value = Some 0%N) then
      Err (PolicyValidation (prefix ++ [Field field]) (ZeroLimit field))
    else Ok tt)
    [(max_processes, "max_processes"); (max_memory_bytes, "max_memory_bytes");
     (max_cpu_seconds, "max_cpu_seconds")].

(** [Regex::new]: [None] when the pattern does not compile, otherwise the
    [is_match] of the compiled expression. *)
Abbreviation RegexNew := (string → option (string → bool)).

Section validation.
Context (regex_new : RegexNew).

Definition validate_agent (prefix : list path_seg) (agent : AgentPolicy) : result unit PolicyError :=
  let? _ := validate_paths (prefix ++ [Field "allow_cwd"]) (ag_allow_cwd agent) in
  let? _ := validate_sandbox (prefix ++ [Field "sandbox"]) (ag_sandbox agent) in
  let? _ := validate_resource_caps prefix (ag_max_processes agent)
              (ag_max_memory_bytes agent) (ag_max_cpu_seconds agent) in
  let? _ := try_for (λ idx pattern,
    match regex_new pattern with
    | None => Err (PolicyValidation (prefix ++ [Field "deny_args_regex"; Index idx])
                    (InvalidRegex pattern))
    | Some _ => Ok tt
    end) (ag_deny_args_regex agent) in
  match find trim_is_empty (ag_allow_tools agent) with
  | Some name => Err (PolicyValidation (prefix ++ [Field "allow_tools"]) (EmptyToolName name))
  | None =>
    match find trim_is_empty (ag_allow_commands agent) with
    | Some cmd => Err (PolicyValidation (prefix ++ [Field "allow_commands"]) (EmptyCommand' cmd))
    | None =>
      if bool_decide (ag_max_runtime_ms agent = Some 0%N) then
        Err (PolicyValidation (prefix ++ [Field "max_runtime_ms"]) (ZeroLimit "max_runtime_ms"))
      else if bool_decide (ag_max_output_bytes agent = Some 0%N) then
        Err (PolicyValidation (prefix ++ [Field "max_output_bytes"]) (ZeroLimit "max_output_bytes"))
      else Ok tt
    end
  end.

Definition validate_room (room_id : string) (room : RoomPolicy) : result unit PolicyError :=
  let room_path := [Field "rooms"; Key room_id] in
  if negb (starts_with "!" room_id) then Err (PolicyValidation room_path (BadRoomId room_id))
  else
    let? _ := try_for (λ idx approver,
      if negb (starts_with "@" approver) then
        Err (PolicyValidation (room_path ++ [Field "approvers"; Index idx]) (BadApproverId approver))
      else Ok tt) (rm_approvers room) in
    try_for (λ _ '(agent_id, agent),
      let agent_path := room_path ++ [Field "agents"; Key agent_id] in
      if negb (starts_with "@" agent_id) then
        Err (PolicyValidation agent_path (BadAgentId agent_id))
      else validate_agent agent_path agent) (btree_iter (rm_agents room)).

Definition validate (p : Policy) : result unit PolicyError :=
  let ex := execution p in
  let? _ := validate_paths [Field "execution"; Field "read_only_paths"] (ex_read_only_paths ex) in
  let? _ := validate_paths [Field "execution"; Field "writable_paths"] (ex_writable_paths ex) in
  let? _ := validate_sandbox [Field "execution"; Field "default_sandbox"] (ex_default_sandbox ex) in
  let? _ := validate_resource_caps [Field "execution"] (ex_max_processes ex)
              (ex_max_memory_bytes ex) (ex_max_cpu_seconds ex) in
  match find_idx trim_is_empty (ex_env_allowlist ex) with
  | Some (idx, _) =>
      Err (PolicyValidation [Field "execution"; Field "env_allowlist"; Index idx] EmptyEnvName)
  | None => try_for (λ _ '(room_id, room), validate_room room_id room) (btree_iter (rooms p))
  end.

(** [toml::from_str], its error already rendered. *)
Context (toml_from_str : string → result Policy string).

Definition parse (input : string) : result Policy PolicyError :=
  match toml_from_str input with
  | Err msg => Err (PolicyParse msg)
  | Ok policy => let? _ := validate policy in Ok policy
  end.

(** The result of [std::fs::read_to_string]. *)
Inductive FsRead := ReadOk (contents : string) | ReadNotFound (msg : string) | ReadError (msg : string).

Definition load (path : string) (fs : FsRead) : result Policy PolicyError :=
  match fs with
  | ReadOk input => parse input
  | ReadNotFound e | ReadError e => Err (PolicyIo path e)
  end.

Definition load_optional (path : string) (fs : FsRead) : result (option Policy) PolicyError :=
  match fs with
  | ReadOk input => match parse input with Ok p => Ok (Some p) | Err e => Err e end
  | ReadNotFound _ => Ok None
  | ReadError e => Err (PolicyIo path e)
  end.
End validation.

(** [Policy::default_path] over the process environment. *)
Definition path_join (dir file : string) : string :=
  if is_absolute file then file
  else if dir =s "" then file
  else if bool_decide (String.get (String.length dir - 1) dir = Some "/"%char)
       then dir +:+ file else dir +:+ "/" +:+ file.
Definition default_path (env : string → option string) : option string :=
  let config_dir :=
    match env "MX_AGENT_CONFIG_DIR" with
    | Some dir => Some dir
    | None => match env "XDG_CONFIG_HOME" with
              | Some xdg => Some (path_join xdg "mx-agent")
              | None => (λ home, path_join home ".config/mx-agent") <$> env "HOME"
              end
    end in
  (λ d, path_join d "policy.toml") <$> config_dir.

(** ** What validation promises *)

Definition path_ok (p : string) : Prop := is_absolute p = true ∧ has_dot_segment p = false.
Definition sandbox_implemented (s : option Sandbox) : Prop := s ≠ Some Firejail ∧ s ≠ Some Chroot.
Definition nonzero_cap (c : option N) : Prop := c ≠ Some 0%N.
Definition names_ok (l : list string) : Prop := Forall (λ n, trim_is_empty n = false) l.

Record agent_wf (regex_new : RegexNew) (a : AgentPolicy) : Prop := {
  awf_cwd : Forall path_ok (ag_allow_cwd a);
  awf_sandbox : sandbox_implemented (ag_sandbox a);
  awf_processes : nonzero_cap (ag_max_processes a);
  awf_memory : nonzero_cap (ag_max_memory_bytes a);
  awf_cpu : nonzero_cap (ag_max_cpu_seconds a);
  awf_regex : Forall (λ r, is_Some (regex_new r)) (ag_deny_args_regex a);
  awf_tools : names_ok (ag_allow_tools a);
  awf_commands : names_ok (ag_allow_commands a);
  awf_runtime : nonzero_cap (ag_max_runtime_ms a);
  awf_output : nonzero_cap (ag_max_output_bytes a);
}.

Record room_wf (regex_new : RegexNew) (id : string) (r : RoomPolicy) : Prop := {
  rwf_id : starts_with "!" id = true;
  rwf_approvers : Forall (λ a, starts_with "@" a = true) (rm_approvers r);
  rwf_agents : map_Forall (λ k a, starts_with "@" k = true ∧ agent_wf regex_new a) (rm_agents r);
}.

Record policy_wf (regex_new : RegexNew) (p : Policy) : Prop := {
  pwf_ro : Forall path_ok (ex_read_only_paths (execution p));
  pwf_rw : Forall path_ok (ex_writable_paths (execution p));
  pwf_sandbox : sandbox_implemented (ex_default_sandbox (execution p));
  pwf_processes : nonzero_cap (ex_max_processes (execution p));
  pwf_memory : nonzero_cap (ex_max_memory_bytes (execution p));
  pwf_cpu : nonzero_cap (ex_max_cpu_seconds (execution p));
  pwf_env : names_ok (ex_env_allowlist (execution p));
  pwf_rooms : map_Forall (room_wf regex_new) (rooms p);
}.

(** Which value breaks which rule, by its path relative to the record. *)
Definition paths_violation (l : list string) (rel : list path_seg) (v : Violation) : Prop :=
  ∃ i p, l !! i = Some p ∧ rel = [Index i] ∧
    ((v = PathNotAbsolute p ∧ is_absolute p = false)
     ∨ (v = PathNotCanonical p ∧ is_absolute p = true ∧ has_dot_segment p = true)).
Definition sandbox_violation (s : option Sandbox) (v : Violation) : Prop :=
  ∃ b, s = Some b ∧ (b = Firejail ∨ b = Chroot) ∧ v = UnimplementedSandbox (sandbox_name b).
Definition caps_violation (np mem cpu : option N) (rel : list path_seg) (v : Violation) : Prop :=
  ∃ f c, (f, c) ∈ [("max_processes", np); ("max_memory_bytes", mem); ("max_cpu_seconds", cpu)] ∧
    c = Some 0%N ∧ rel = [Field f] ∧ v = ZeroLimit f.

Inductive agent_violation (regex_new : RegexNew) (a : AgentPolicy) : list path_seg → Violation → Prop :=
| AvCwd rel v : paths_violation (ag_allow_cwd a) rel v →
    agent_violation regex_new a (Field "allow_cwd" :: rel) v
| AvSandbox v : sandbox_violation (ag_sandbox a) v → agent_violation regex_new a [Field "sandbox"] v
| AvCaps rel v :
    caps_violation (ag_max_processes a) (ag_max_memory_bytes a) (ag_max_cpu_seconds a) rel v →
    agent_violation regex_new a rel v
| AvRegex i r : ag_deny_args_regex a !! i = Some r → regex_new r = None →
    agent_violation regex_new a [Field "deny_args_regex"; Index i] (InvalidRegex r)
| AvTool n : n ∈ ag_allow_tools a → trim_is_empty n = true →
    agent_violation regex_new a [Field "allow_tools"] (EmptyToolName n)
| AvCommand n : n ∈ ag_allow_commands a → trim_is_empty n = true →
    agent_violation regex_new a [Field "allow_commands"] (EmptyCommand' n)
| AvRuntime : ag_max_runtime_ms a = Some 0%N →
    agent_violation regex_new a [Field "max_runtime_ms"] (ZeroLimit "max_runtime_ms")
| AvOutput : ag_max_output_bytes a = Some 0%N →
    agent_violation regex_new a [Field "max_output_bytes"] (ZeroLimit "max_output_bytes").

Inductive policy_violation (regex_new : RegexNew) (p : Policy) : list path_seg → Violation → Prop :=
| PvRo rel v : paths_violation (ex_read_only_paths (execution p)) rel v →
    policy_violation regex_new p (Field "execution" :: Field "read_only_paths" :: rel) v
| PvRw rel v : paths_violation (ex_writable_paths (execution p)) rel v →
    policy_violation regex_new p (Field "execution" :: Field "writable_paths" :: rel) v
| PvSandbox v : sandbox_violation (ex_default_sandbox (execution p)) v →
    policy_violation regex_new p [Field "execution"; Field "default_sandbox"] v
| PvCaps rel v :
    caps_violation (ex_max_processes (execution p)) (ex_max_memory_bytes (execution p))
      (ex_max_cpu_seconds (execution p)) rel v →
    policy_violation regex_new p (Field "execution" :: rel) v
| PvEnv i n : ex_env_allowlist (execution p) !! i = Some n → trim_is_empty n = true →
    policy_violation regex_new p [Field "execution"; Field "env_allowlist"; Index i] EmptyEnvName
| PvRoom id r : rooms p !! id = Some r → starts_with "!" id = false →
    policy_violation regex_new p [Field "rooms"; Key id] (BadRoomId id)
| PvApprover id r i a : rooms p !! id = Some r → rm_approvers r !! i = Some a →
    starts_with "@" a = false →
    policy_violation regex_new p [Field "rooms"; Key id; Field "approvers"; Index i] (BadApproverId a)
| PvAgentId id r k a : rooms p !! id = Some r → rm_agents r !! k = Some a →
    starts_with "@" k = false →
    policy_violation regex_new p [Field "rooms"; Key id; Field "agents"; Key k] (BadAgentId k)
| PvAgent id r k a rel v : rooms p !! id = Some r → rm_agents r !! k = Some a →
    agent_violation regex_new a rel v →
    policy_violation regex_new p ([Field "rooms"; Key id; Field "agents"; Key k] ++ rel) v.

#[export] Hint Constructors agent_violation policy_violation : mx.

(** ** Lemmas on the pieces *)

Lemma validate_paths_Ok prefix l : validate_paths prefix l = Ok tt ↔ Forall path_ok l.
Proof.
  unfold validate_paths. rewrite try_for_Ok, Forall_lookup. unfold path_ok.
  apply forall_proper; intros i. apply forall_proper; intros p.
  destruct (is_absolute p), (has_dot_segment p); naive_solver.
Qed.

Lemma validate_paths_Err prefix l e :
  validate_paths prefix l = Err e →
  ∃ rel v, e = PolicyValidation (prefix ++ rel) v ∧ paths_violation l rel v.
Proof.
  intros (i & p & Hp & He & _)%try_for_Err. unfold paths_violation.
  destruct (is_absolute p) eqn:?, (has_dot_segment p) eqn:?; simplify_eq/=; eauto 12.
Qed.

Lemma validate_sandbox_Ok path s : validate_sandbox path s = Ok tt ↔ sandbox_implemented s.
Proof. unfold sandbox_implemented. destruct s as [[]|]; simpl; naive_solver. Qed.

Lemma validate_sandbox_Err path s e :
  validate_sandbox path s = Err e → ∃ v, e = PolicyValidation path v ∧ sandbox_violation s v.
Proof. unfold sandbox_violation. destruct s as [[]|]; simpl; naive_solver. Qed.

Lemma validate_resource_caps_Ok prefix a b c :
  validate_resource_caps prefix a b c = Ok tt ↔ nonzero_cap a ∧ nonzero_cap b ∧ nonzero_cap c.
Proof.
  unfold validate_resource_caps, try_for, nonzero_cap; simpl.
  repeat case_bool_decide; naive_solver.
Qed.

Lemma validate_resource_caps_Err prefix a b c e :
  validate_resource_caps prefix a b c = Err e →
  ∃ rel v, e = PolicyValidation (prefix ++ rel) v ∧ caps_violation a b c rel v.
Proof.
  unfold validate_resource_caps, try_for, caps_violation; simpl. intros He.
  repeat (case_bool_decide; simplify_eq/=); eexists _, _; (split; [done|]);
    eexists _, _; (split; [|done]); set_solver.
Qed.

Lemma find_names_None l : find trim_is_empty l = None ↔ names_ok l.
Proof.
  unfold names_ok. induction l as [|x l IH]; simpl; [done|]. rewrite Forall_cons.
  destruct (trim_is_empty x); naive_solver.
Qed.

Section validation_correct.
Context (regex_new : RegexNew).

Lemma validate_agent_Ok prefix a :
  validate_agent regex_new prefix a = Ok tt ↔ agent_wf regex_new a.
Proof.
  unfold validate_agent. split.
  - intros H. crush_match; bool_prop.
    repeat match goal with x : unit |- _ => destruct x end.
    repeat match goal with
    | H : validate_paths _ _ = _ |- _ => apply validate_paths_Ok in H
    | H : validate_sandbox _ _ = _ |- _ => apply validate_sandbox_Ok in H
    | H : validate_resource_caps _ _ _ _ = _ |- _ => apply validate_resource_caps_Ok in H as (?&?&?)
    | H : try_for _ _ = _ |- _ => rewrite try_for_Ok in H
    | H : find _ _ = None |- _ => apply find_names_None in H
    end.
    split; try done. apply Forall_lookup. intros i r Hr.
    match goal with H : context [regex_new] |- _ => specialize (H i r Hr) end. by destruct (regex_new r).
  - intros [Hcwd Hsb Hp Hm Hc Hr Ht Hcmd Hrt Hout].
    rewrite (proj2 (validate_paths_Ok _ _) Hcwd), (proj2 (validate_sandbox_Ok _ _) Hsb).
    rewrite (proj2 (validate_resource_caps_Ok _ _ _ _)) by done.
    rewrite (proj2 (try_for_Ok _ _)).
    2:{ intros i r Hi. rewrite Forall_lookup in Hr. by destruct (Hr i r Hi) as [? ->]. }
    rewrite (proj2 (find_names_None _) Ht), (proj2 (find_names_None _) Hcmd).
    by rewrite !bool_decide_false by done.
Qed.

Lemma validate_agent_Err prefix a e :
  validate_agent regex_new prefix a = Err e →
  ∃ rel v, e = PolicyValidation (prefix ++ rel) v ∧ agent_violation regex_new a rel v.
Proof.
  unfold validate_agent. intros H.
  destruct (validate_paths _ _) as [[]|] eqn:H1; simplify_eq/=.
  2:{ apply validate_paths_Err in H1 as (rel & v & -> & ?).
      rewrite <- app_assoc. eauto with mx. }
  destruct (validate_sandbox _ _) as [[]|] eqn:H2; simplify_eq/=.
  2:{ apply validate_sandbox_Err in H2 as (v & -> & ?). eauto with mx. }
  destruct (validate_resource_caps _ _ _ _) as [[]|] eqn:H3; simplify_eq/=.
  2:{ apply validate_resource_caps_Err in H3 as (rel & v & -> & ?). eauto with mx. }
  destruct (try_for _ _) as [[]|] eqn:H4; simplify_eq/=.
  2:{ apply try_for_Err in H4 as (i & r & Hr & He & _).
      destruct (regex_new r) eqn:?; simplify_eq/=. eauto with mx. }
  destruct (find _ (ag_allow_tools a)) eqn:H5; simplify_eq/=.
  { apply find_some in H5 as [?%list_elem_of_In ?]. eauto with mx. }
  destruct (find _ (ag_allow_commands a)) eqn:H6; simplify_eq/=.
  { apply find_some in H6 as [?%list_elem_of_In ?]. eauto with mx. }
  repeat (case_bool_decide; simplify_eq/=); eauto with mx.
Qed.

Lemma validate_room_Ok id r : validate_room regex_new id r = Ok tt ↔ room_wf regex_new id r.
Proof.
  unfold validate_room. destruct (starts_with "!" id) eqn:Hid; simpl.
  2:{ split; [done|]. intros []. congruence. }
  split.
  - intros H. destruct (try_for _ (rm_approvers r)) as [[]|] eqn:Ha; [|done].
    rewrite try_for_Ok in Ha. rewrite try_for_Ok in H. split; [done| |].
    + apply Forall_lookup. intros i a Hi. specialize (Ha i a Hi). by destruct (starts_with "@" a).
    + intros k a Hk. apply elem_of_btree_iter, list_elem_of_lookup in Hk as [i Hi].
      specialize (H i (k, a) Hi); simpl in H. destruct (starts_with "@" k); [|done].
      by apply validate_agent_Ok in H.
  - intros [_ Happ Hag]. rewrite (proj2 (try_for_Ok _ _)).
    2:{ intros i a Hi. rewrite Forall_lookup in Happ. by rewrite (Happ i a Hi). }
    apply try_for_Ok. intros i [k a] Hi.
    apply list_elem_of_lookup_2, elem_of_btree_iter in Hi.
    destruct (Hag k a Hi) as [-> ?]. simpl. by apply validate_agent_Ok.
Qed.

Lemma validate_room_Err p id r e :
  rooms p !! id = Some r → validate_room regex_new id r = Err e →
  ∃ path v, e = PolicyValidation path v ∧ policy_violation regex_new p path v.
Proof.
  intros Hr. unfold validate_room. destruct (starts_with "!" id) eqn:Hid; simpl.
  2:{ intros [= <-]. eauto with mx. }
  destruct (try_for _ (rm_approvers r)) as [[]|] eqn:Ha; simpl.
  - intros (i & [k a] & Hi & He & _)%try_for_Err.
    apply list_elem_of_lookup_2, elem_of_btree_iter in Hi.
    destruct (starts_with "@" k) eqn:Hk; simplify_eq/=; [|eauto with mx].
    apply validate_agent_Err in He as (rel & v & -> & ?). eauto with mx.
  - intros [= <-]. apply try_for_Err in Ha as (i & a & Hi & He & _).
    destruct (starts_with "@" a) eqn:?; simplify_eq/=. eauto with mx.
Qed.

Lemma validate_rooms_Ok p :
  try_for (λ _ '(room_id, room), validate_room regex_new room_id room) (btree_iter (rooms p)) = Ok tt
  ↔ map_Forall (room_wf regex_new) (rooms p).
Proof.
  rewrite try_for_Ok. split.
  - intros H k r Hk. apply elem_of_btree_iter, list_elem_of_lookup in Hk as [i Hi].
    specialize (H i (k, r) Hi). by apply validate_room_Ok in H.
  - intros H i [k r] Hi. apply list_elem_of_lookup_2, elem_of_btree_iter in Hi.
    apply validate_room_Ok. by apply H.
Qed.

Lemma validate_Ok p : validate regex_new p = Ok tt ↔ policy_wf regex_new p.
Proof.
  unfold validate. split.
  - intros H. destruct (find_idx _ _) as [[i n]|] eqn:He; crush_match.
    repeat match goal with x : unit |- _ => destruct x end.
    repeat match goal with
    | H : validate_paths _ _ = _ |- _ => apply validate_paths_Ok in H
    | H : validate_sandbox _ _ = _ |- _ => apply validate_sandbox_Ok in H
    | H : validate_resource_caps _ _ _ _ = _ |- _ => apply validate_resource_caps_Ok in H as (?&?&?)
    end.
    apply find_idx_None in He. apply validate_rooms_Ok in H. by split.
  - intros [Hro Hrw Hsb Hp Hm Hc He Hrooms].
    rewrite (proj2 (validate_paths_Ok _ _) Hro), (proj2 (validate_paths_Ok _ _) Hrw).
    rewrite (proj2 (validate_sandbox_Ok _ _) Hsb).
    rewrite (proj2 (validate_resource_caps_Ok _ _ _ _)) by done.
    rewrite (proj2 (find_idx_None _ _) He). by apply validate_rooms_Ok.
Qed.

Lemma validate_Err p e :
  validate regex_new p = Err e →
  ∃ path v, e = PolicyValidation path v ∧ policy_violation regex_new p path v.
Proof.
  unfold validate. intros H.
  destruct (validate_paths [Field "execution"; Field "read_only_paths"] _) as [[]|] eqn:H1; simplify_eq/=.
  2:{ apply validate_paths_Err in H1 as (rel & v & -> & ?). simpl. eauto with mx. }
  destruct (validate_paths [Field "execution"; Field "writable_paths"] _) as [[]|] eqn:H2; simplify_eq/=.
  2:{ apply validate_paths_Err in H2 as (rel & v & -> & ?). simpl. eauto with mx. }
  destruct (validate_sandbox _ _) as [[]|] eqn:H3; simplify_eq/=.
  2:{ apply validate_sandbox_Err in H3 as (v & -> & ?). eauto with mx. }
  destruct (validate_resource_caps _ _ _ _) as [[]|] eqn:H4; simplify_eq/=.
  2:{ apply validate_resource_caps_Err in H4 as (rel & v & -> & ?). simpl. eauto with mx. }
  destruct (find_idx _ _) as [[i n]|] eqn:H5; simplify_eq/=.
  { apply find_idx_Some in H5 as (?&?&_). eauto with mx. }
  apply try_for_Err in H as (i & [id r] & Hi & He & _).
  apply list_elem_of_lookup_2, elem_of_btree_iter in Hi.
  by eapply validate_room_Err.
Qed.
End validation_correct.

(** ** Properties *)

(** Validation accepts exactly the well-formed policies: absolute dot-free
    paths, implemented sandboxes, non-zero limits, non-blank names, compilable
    deny patterns, room ids starting with [!] and user ids with [@]. *)
Theorem validate_accepts_wf (regex_new : RegexNew) (p : Policy) :
  validate regex_new p = Ok tt ↔ policy_wf regex_new p.
Proof. apply validate_Ok. Qed.

(** Every rejection is a validation error whose path leads to a value of
    the policy that really breaks the rule the error names. *)
Theorem validate_error_located (regex_new : RegexNew) (p : Policy) (e : PolicyError) :
  validate regex_new p = Err e →
  ∃ path v, e = PolicyValidation path v ∧ policy_violation regex_new p path v.
Proof. apply validate_Err. Qed.
Lemma validate_error_located_witness :
  ∃ path v, PolicyValidation [Field "execution"; Field "writable_paths"; Index 1]
              (PathNotCanonical "/srv/../etc") = PolicyValidation path v ∧
    policy_violation (λ _, None)
      (mkPolicy (mkExecutionPolicy None None [] ["/srv"; "/srv/../etc"] [] None None None None
                   SeccompOff false) ∅) path v.
Proof. apply (validate_error_located (λ _, None)). vm_compute. reflexivity. Defined.

(** Loading fails loudly: the deny-all default ([Ok None]) is returned
    only when the file is absent, a loaded policy is the parsed file and is
    well-formed, and a file that is present but unreadable, unparseable or
    invalid is an error. *)
Theorem load_optional_fails_loudly (regex_new : RegexNew) (toml : string → result Policy string)
    (path : string) (fs : FsRead) :
  match load_optional regex_new toml path fs with
  | Ok None => ∃ msg, fs = ReadNotFound msg
  | Ok (Some p) => ∃ input, fs = ReadOk input ∧ toml input = Ok p ∧ policy_wf regex_new p
  | Err (PolicyIo q msg) => q = path ∧ fs = ReadError msg
  | Err (PolicyParse msg) => ∃ input, fs = ReadOk input ∧ toml input = Err msg
  | Err (PolicyValidation q v) =>
      ∃ input p, fs = ReadOk input ∧ toml input = Ok p ∧ policy_violation regex_new p q v
  end.
Proof.
  destruct fs as [input|msg|msg]; simpl; [|by eauto|done].
  unfold parse. destruct (toml input) as [p|msg] eqn:Ht; [|by eauto].
  destruct (validate regex_new p) as [[]|e] eqn:Hv.
  - exists input. split_and!; [done..|]. by apply validate_Ok.
  - apply validate_Err in Hv as (q & v & -> & ?). eauto.
Qed.
