(* ===== verification/PolicyEngine.v ===== *)
(** * The policy decision engine

    Models [crates/mx-agent-policy/src/engine.rs]: the pure function from a
    policy and a request to an outcome, and the theorems that make it a
    deny-by-default gate. *)
From Stdlib Require Import Ascii.
From stdpp Require Import gmap strings list sorting.
From S2P Require Import Prelude RustStr PolicyFile.

(** ** Data *)

Record Allowance := mkAllowance {
  al_max_runtime_ms : option N;
  al_max_output_bytes : option N;
  al_sandbox : option Sandbox;
  al_network : option NetworkPolicy;
  al_requires_approval : bool;
  al_env_allowlist : list string;
  al_read_only_paths : list string;
  al_writable_paths : list string;
  al_require_verified_device : bool;
  al_container_image : option string;
  al_max_processes : option N;
  al_max_memory_bytes : option N;
  al_max_cpu_seconds : option N;
  al_seccomp : Seccomp;
  al_require_sandbox : bool;
}.

Definition Allowance_default : Allowance :=
  mkAllowance None None None None false [] [] [] false None None None None SeccompOff false.

Inductive DenyReason :=
| UnknownRoom
| UntrustedRoom
| UnknownAgent
| EmptyCommand
| ExecNotAllowed
| CommandNotAllowed (command : string)
| CwdNotAllowed (cwd : string)
| DeniedArguments (pattern : string)
| ToolNotAllowed (tool : string).

Inductive Outcome := Allow (a : Allowance) | Deny (r : DenyReason).

Definition is_allowed (o : Outcome) : bool := match o with Allow _ => true | Deny _ => false end.
Definition is_denied (o : Outcome) : bool := match o with Allow _ => false | Deny _ => true end.
Definition allowance (o : Outcome) : option Allowance :=
  match o with Allow a => Some a | Deny _ => None end.

Record ExecContext := mkExecContext {
  xc_room_id : string;
  xc_requesting_agent : string;
  xc_command : list string;
  xc_cwd : string;
}.
Record CallContext := mkCallContext {
  cc_room_id : string;
  cc_requesting_agent : string;
  cc_tool : string;
}.

(** ** Matching *)

Definition basename (s : string) : string := unwrap_or (file_name s) s.

Definition command_allowed (program : string) (allow_commands : list string) : bool :=
  let program_base := basename program in
  existsb (λ allowed, (allowed =s program) || (basename allowed =s program_base)) allow_commands.

Definition cwd_allowed (cwd : string) (allow_cwd : list string) : bool :=
  if negb (is_absolute cwd) then false
  else if has_dot_segment cwd then false
  else existsb (λ allowed, path_starts_with cwd allowed) allow_cwd.

Section engine.
Context (regex_new : RegexNew).

Fixpoint matched_deny_loop (joined : string) (command patterns : list string) : option string :=
  match patterns with
  | [] => None
  | pattern :: rest =>
      match regex_new pattern with
      | None => Some pattern
      | Some is_match =>
          if is_match joined || existsb is_match command then Some pattern
          else matched_deny_loop joined command rest
      end
  end.
Definition matched_deny_pattern (command deny_args_regex : list string) : option string :=
  match deny_args_regex with
  | [] => None
  | _ => matched_deny_loop (str_join " " command) command deny_args_regex
  end.

Definition lookup_rules (p : Policy) (room_id agent_id : string)
    : result (RoomPolicy * AgentPolicy) DenyReason :=
  let? room := ok_or (rooms p !! room_id) UnknownRoom in
  let? agent := ok_or (rm_agents room !! agent_id) UnknownAgent in
  Ok (room, agent).

Definition allowance_for (p : Policy) (room : RoomPolicy) (agent : AgentPolicy) : Allowance :=
  {| al_max_runtime_ms := ag_max_runtime_ms agent;
     al_max_output_bytes := ag_max_output_bytes agent;
     al_sandbox := opt_or (ag_sandbox agent) (ex_default_sandbox (execution p));
     al_network := opt_or (ag_network agent) (ex_network (execution p));
     al_requires_approval := ag_requires_approval agent;
     al_env_allowlist := ex_env_allowlist (execution p);
     al_read_only_paths := ex_read_only_paths (execution p);
     al_writable_paths := ex_writable_paths (execution p);
     al_container_image := ex_container_image (execution p);
     al_max_processes := opt_or (ag_max_processes agent) (ex_max_processes (execution p));
     al_max_memory_bytes := opt_or (ag_max_memory_bytes agent) (ex_max_memory_bytes (execution p));
     al_max_cpu_seconds := opt_or (ag_max_cpu_seconds agent) (ex_max_cpu_seconds (execution p));
     al_seccomp := unwrap_or (ag_seccomp agent) (ex_seccomp (execution p));
     al_require_sandbox := ex_require_sandbox (execution p);
     al_require_verified_device :=
       rm_require_verified_device room || ag_require_verified_device agent |}.

Definition evaluate_exec (p : Policy) (ctx : ExecContext) : Outcome :=
  match lookup_rules p (xc_room_id ctx) (xc_requesting_agent ctx) with
  | Err reason => Deny reason
  | Ok (room, agent) =>
      match xc_command ctx with
      | [] => Deny EmptyCommand
      | program :: _ =>
          let exec_allowed :=
            ag_allow_exec agent || bool_decide (rm_raw_exec_default room = Some RawAllow) in
          if negb exec_allowed then Deny ExecNotAllowed
          else if negb (rm_trusted room) then Deny UntrustedRoom
          else if negb (command_allowed program (ag_allow_commands agent)) then
            Deny (CommandNotAllowed program)
          else if negb (cwd_allowed (xc_cwd ctx) (ag_allow_cwd agent)) then
            Deny (CwdNotAllowed (xc_cwd ctx))
          else match matched_deny_pattern (xc_command ctx) (ag_deny_args_regex agent) with
               | Some pattern => Deny (DeniedArguments pattern)
               | None => Allow (allowance_for p room agent)
               end
      end
  end.

Definition evaluate_call (p : Policy) (ctx : CallContext) : Outcome :=
  match lookup_rules p (cc_room_id ctx) (cc_requesting_agent ctx) with
  | Err reason => Deny reason
  | Ok (room, agent) =>
      if negb (existsb (λ t, t =s cc_tool ctx) (ag_allow_tools agent)) then
        Deny (ToolNotAllowed (cc_tool ctx))
      else Allow (allowance_for p room agent)
  end.
End engine.

Definition execution_allowance (p : Policy) : Allowance :=
  let d := Allowance_default in
  {| al_max_runtime_ms := al_max_runtime_ms d;
     al_max_output_bytes := al_max_output_bytes d;
     al_sandbox := ex_default_sandbox (execution p);
     al_network := ex_network (execution p);
     al_requires_approval := al_requires_approval d;
     al_env_allowlist := ex_env_allowlist (execution p);
     al_read_only_paths := ex_read_only_paths (execution p);
     al_writable_paths := ex_writable_paths (execution p);
     al_require_verified_device := al_require_verified_device d;
     al_container_image := ex_container_image (execution p);
     al_max_processes := ex_max_processes (execution p);
     al_max_memory_bytes := ex_max_memory_bytes (execution p);
     al_max_cpu_seconds := ex_max_cpu_seconds (execution p);
     al_seccomp := ex_seccomp (execution p);
     al_require_sandbox := ex_require_sandbox (execution p) |}.

(** [lib.rs]: the decision before any policy is loaded. *)
Inductive Decision := DecisionAllow | DecisionDeny.
Definition default_decision : Decision := DecisionDeny.

(** ** Command matching *)

Lemma command_allowed_spec program l :
  command_allowed program l = true ↔ ∃ a, a ∈ l ∧ basename a = basename program.
Proof.
  unfold command_allowed. rewrite existsb_elem. split.
  - intros (a & Ha & H). exists a. split; [done|].
    apply orb_true_iff in H as [->%str_eqb_eq|?%str_eqb_eq]; done.
  - intros (a & Ha & H). exists a. split; [done|].
    apply orb_true_iff. right. by apply str_eqb_eq.
Qed.

(** ** Working directories

    What the kernel does with a path, symbolic links aside: walk the segments
    from the root, where [..] goes up. *)
Definition os_walk (stack : list string) (seg : string) : list string :=
  if (seg =s "") || (seg =s ".") then stack
  else if seg =s ".." then removelast stack
  else stack ++ [seg].
Definition os_resolve (p : string) : list string := foldl os_walk [] (split_on "/" p).

(** The plain segments of a path without [.] and [..]. *)
Definition plain_segments (segs : list string) : list string :=
  filter (λ s, s ≠ "") segs.

Lemma os_walk_plain segs stack :
  existsb (λ seg, (seg =s "..") || (seg =s ".")) segs = false →
  foldl os_walk stack segs = stack ++ plain_segments segs.
Proof.
  revert stack. induction segs as [|s segs IH]; intros stack H; simpl in *.
  { by rewrite app_nil_r. }
  apply orb_false_iff in H as [[Hdd Hd]%orb_false_iff Hs].
  rewrite IH by done. unfold os_walk, plain_segments. rewrite Hd, Hdd.
  destruct (s =s "") eqn:He; simpl.
  - apply str_eqb_eq in He as ->. by rewrite filter_cons_False by tauto.
  - apply str_eqb_neq in He. rewrite filter_cons_True by done. by rewrite <- app_assoc.
Qed.

Lemma os_resolve_plain p :
  has_dot_segment p = false → os_resolve p = plain_segments (split_on "/" p).
Proof. intros H. unfold os_resolve. by rewrite os_walk_plain. Qed.

Lemma components_plain p :
  is_absolute p = true → has_dot_segment p = false →
  components p = RootDir :: (Normal <$> plain_segments (split_on "/" p)).
Proof.
  intros Ha Hd. unfold components. unfold is_absolute in Ha. rewrite Ha. f_equal.
  unfold has_dot_segment in Hd. induction (split_on "/" p) as [|s segs IH]; [done|].
  csimpl in *. apply orb_false_iff in Hd as [[Hdd Hd]%orb_false_iff Hs].
  unfold segment_component at 1. unfold plain_segments at 1. rewrite Hd, Hdd.
  destruct (s =s "") eqn:He; simpl; rewrite IH by done.
  - apply str_eqb_eq in He as ->. by rewrite filter_cons_False by tauto.
  - apply str_eqb_neq in He. by rewrite filter_cons_True by done.
Qed.

#[export] Instance Normal_inj : Inj (=) (=) Normal.
Proof. by intros ?? [=]. Qed.

Lemma fmap_prefix_inv {A B} (f : A → B) `{!Inj (=) (=) f} l1 l2 :
  f <$> l1 `prefix_of` f <$> l2 → l1 `prefix_of` l2.
Proof.
  revert l2. induction l1 as [|x l1 IH]; intros [|y l2] H; simpl in *.
  - done.
  - apply prefix_nil.
  - by apply prefix_nil_not in H.
  - assert (x = y) as -> by (eapply (inj f), prefix_cons_inv_1, H).
    apply prefix_cons, IH. by eapply prefix_cons_inv_2.
Qed.

(** An accepted working directory resolves inside an allowed directory. *)
Lemma cwd_allowed_confined cwd dirs :
  Forall path_ok dirs → cwd_allowed cwd dirs = true →
  ∃ d, d ∈ dirs ∧ os_resolve d `prefix_of` os_resolve cwd.
Proof.
  intros Hdirs. unfold cwd_allowed.
  destruct (is_absolute cwd) eqn:Ha, (has_dot_segment cwd) eqn:Hd; try done; simpl.
  intros (d & Hin & Hp)%existsb_elem. exists d. split; [done|].
  rewrite Forall_forall in Hdirs. destruct (Hdirs d Hin) as [Hda Hdd].
  apply path_starts_with_spec in Hp. rewrite !components_plain in Hp by done.
  rewrite !os_resolve_plain by done.
  apply (fmap_prefix_inv Normal). by eapply prefix_cons_inv_2.
Qed.

(** ** The specification of a permitted request *)

Definition no_deny_match (regex_new : RegexNew) (command patterns : list string) : Prop :=
  Forall (λ r, ∃ m, regex_new r = Some m ∧ m (str_join " " command) = false
                    ∧ Forall (λ arg, m arg = false) command) patterns.

Record exec_permitted (regex_new : RegexNew) (p : Policy) (ctx : ExecContext)
    (room : RoomPolicy) (agent : AgentPolicy) : Prop := {
  xp_room : rooms p !! xc_room_id ctx = Some room;
  xp_agent : rm_agents room !! xc_requesting_agent ctx = Some agent;
  xp_enabled : ag_allow_exec agent = true ∨ rm_raw_exec_default room = Some RawAllow;
  xp_trusted : rm_trusted room = true;
  xp_command : ∃ prog args a, xc_command ctx = prog :: args ∧
                 a ∈ ag_allow_commands agent ∧ basename a = basename prog;
  xp_cwd : is_absolute (xc_cwd ctx) = true ∧ has_dot_segment (xc_cwd ctx) = false ∧
           ∃ d, d ∈ ag_allow_cwd agent ∧ components d `prefix_of` components (xc_cwd ctx);
  xp_args : no_deny_match regex_new (xc_command ctx) (ag_deny_args_regex agent);
}.

(** The reason of a denial, with what it says about the request. *)
Inductive exec_denied (regex_new : RegexNew) (p : Policy) (ctx : ExecContext) : DenyReason → Prop :=
| XdRoom : rooms p !! xc_room_id ctx = None → exec_denied regex_new p ctx UnknownRoom
| XdAgent room : rooms p !! xc_room_id ctx = Some room →
    rm_agents room !! xc_requesting_agent ctx = None → exec_denied regex_new p ctx UnknownAgent
| XdEmpty : xc_command ctx = [] → exec_denied regex_new p ctx EmptyCommand
| XdExec room agent : rooms p !! xc_room_id ctx = Some room →
    rm_agents room !! xc_requesting_agent ctx = Some agent →
    ag_allow_exec agent = false → rm_raw_exec_default room ≠ Some RawAllow →
    exec_denied regex_new p ctx ExecNotAllowed
| XdTrust room : rooms p !! xc_room_id ctx = Some room → rm_trusted room = false →
    exec_denied regex_new p ctx UntrustedRoom
| XdCommand room agent prog args : rooms p !! xc_room_id ctx = Some room →
    rm_agents room !! xc_requesting_agent ctx = Some agent → xc_command ctx = prog :: args →
    (∀ a, a ∈ ag_allow_commands agent → basename a ≠ basename prog) →
    exec_denied regex_new p ctx (CommandNotAllowed prog)
| XdCwd room agent : rooms p !! xc_room_id ctx = Some room →
    rm_agents room !! xc_requesting_agent ctx = Some agent →
    cwd_allowed (xc_cwd ctx) (ag_allow_cwd agent) = false →
    exec_denied regex_new p ctx (CwdNotAllowed (xc_cwd ctx))
| XdArgs room agent r : rooms p !! xc_room_id ctx = Some room →
    rm_agents room !! xc_requesting_agent ctx = Some agent → r ∈ ag_deny_args_regex agent →
    (regex_new r = None ∨
     ∃ m, regex_new r = Some m ∧
          (m (str_join " " (xc_command ctx)) = true ∨ ∃ arg, arg ∈ xc_command ctx ∧ m arg = true)) →
    exec_denied regex_new p ctx (DeniedArguments r).
#[export] Hint Constructors exec_denied : mx.

Lemma cwd_allowed_spec cwd dirs :
  cwd_allowed cwd dirs = true ↔
  is_absolute cwd = true ∧ has_dot_segment cwd = false ∧
  ∃ d, d ∈ dirs ∧ components d `prefix_of` components cwd.
Proof.
  unfold cwd_allowed. destruct (is_absolute cwd), (has_dot_segment cwd); simpl; try naive_solver.
  rewrite existsb_elem. setoid_rewrite path_starts_with_spec. naive_solver.
Qed.

Lemma lookup_rules_Ok p rid aid room agent :
  lookup_rules p rid aid = Ok (room, agent)
  ↔ rooms p !! rid = Some room ∧ rm_agents room !! aid = Some agent.
Proof.
  unfold lookup_rules. destruct (rooms p !! rid) as [r|]; simpl; [|naive_solver].
  destruct (rm_agents r !! aid) as [a|] eqn:Ha; simpl; naive_solver.
Qed.

Lemma evaluate_call_Allow p ctx a :
  evaluate_call p ctx = Allow a ↔
  ∃ room agent, rooms p !! cc_room_id ctx = Some room ∧
    rm_agents room !! cc_requesting_agent ctx = Some agent ∧
    cc_tool ctx ∈ ag_allow_tools agent ∧ a = allowance_for p room agent.
Proof.
  unfold evaluate_call. destruct (lookup_rules _ _ _) as [[room agent]|] eqn:Hl.
  - apply lookup_rules_Ok in Hl as [Hr Ha].
    destruct (existsb _ _) eqn:Ht; simpl.
    + apply existsb_elem in Ht as (t & Ht & ->%str_eqb_eq). naive_solver.
    + rewrite existsb_false in Ht. split; [done|].
      intros (? & ? & ? & ? & Hin & ?); simplify_eq. specialize (Ht _ Hin).
      by rewrite str_eqb_refl in Ht.
  - split; [done|]. intros (room & agent & Hr & Ha & _).
    by rewrite (proj2 (lookup_rules_Ok _ _ _ _ _) (conj Hr Ha)) in Hl.
Qed.

Section engine_correct.
Context (regex_new : RegexNew).

Lemma matched_deny_pattern_unfold command patterns :
  matched_deny_pattern regex_new command patterns
  = matched_deny_loop regex_new (str_join " " command) command patterns.
Proof. by destruct patterns. Qed.

Lemma matched_deny_None command patterns :
  matched_deny_pattern regex_new command patterns = None
  ↔ no_deny_match regex_new command patterns.
Proof.
  rewrite matched_deny_pattern_unfold. unfold no_deny_match.
  induction patterns as [|r patterns IH]; simpl; [done|]. rewrite Forall_cons.
  destruct (regex_new r) as [m|]; [|naive_solver].
  destruct (m _ || existsb m command) eqn:Hm.
  - split; [done|]. intros [(m' & [= <-] & Hj & Ha) _].
    apply orb_true_iff in Hm as [?|(arg & Harg & ?)%existsb_elem]; [congruence|].
    rewrite Forall_forall in Ha. specialize (Ha arg Harg). congruence.
  - rewrite IH. apply orb_false_iff in Hm as [Hj Ha].
    split; [|naive_solver]. intros ?. split; [|done]. exists m. split_and!; [done..|].
    apply Forall_forall. by apply existsb_false.
Qed.

Lemma matched_deny_Some command patterns r :
  matched_deny_pattern regex_new command patterns = Some r →
  r ∈ patterns ∧
  (regex_new r = None ∨ ∃ m, regex_new r = Some m ∧
     (m (str_join " " command) = true ∨ ∃ arg, arg ∈ command ∧ m arg = true)).
Proof.
  rewrite matched_deny_pattern_unfold.
  induction patterns as [|x patterns IH]; simpl; [done|].
  destruct (regex_new x) as [m|] eqn:Hx; [|intros [= ->]; split; [left|by left]].
  destruct (m _ || existsb m command) eqn:Hm.
  - intros [= ->]. split; [left|]. right. exists m. split; [done|].
    apply orb_true_iff in Hm as [?|?%existsb_elem]; eauto.
  - intros [? ?]%IH. split; [by right|done].
Qed.

Lemma evaluate_exec_Allow p ctx a :
  evaluate_exec regex_new p ctx = Allow a ↔
  ∃ room agent, exec_permitted regex_new p ctx room agent ∧ a = allowance_for p room agent.
Proof.
  unfold evaluate_exec. split.
  - destruct (lookup_rules _ _ _) as [[room agent]|] eqn:Hl; [|done].
    apply lookup_rules_Ok in Hl as [Hr Ha]. destruct (xc_command ctx) as [|prog args] eqn:Hc; [done|].
    intros H. crush_match. bool_prop. exists room, agent. split; [|done]. split; try done.
    + match goal with H : _ || _ = true |- _ => apply orb_true_iff in H as [?|?%bool_decide_eq_true] end; auto.
    + apply command_allowed_spec in Heqb1 as (x & ? & ?). by exists prog, args, x.
    + by apply cwd_allowed_spec.
    + rewrite Hc. by apply matched_deny_None.
  - intros (room & agent & [Hr Ha He Ht (prog & args & x & Hc & Hin & Hb) Hcwd Hargs] & ->).
    rewrite (proj2 (lookup_rules_Ok _ _ _ _ _) (conj Hr Ha)), Hc.
    replace (ag_allow_exec agent || _) with true
      by (symmetry; apply orb_true_iff; rewrite bool_decide_eq_true; tauto).
    rewrite Ht. simpl. rewrite (proj2 (command_allowed_spec _ _)) by eauto.
    rewrite (proj2 (cwd_allowed_spec _ _) Hcwd). simpl.
    rewrite Hc in Hargs. by rewrite (proj2 (matched_deny_None _ _) Hargs).
Qed.

Lemma evaluate_exec_Deny p ctx r :
  evaluate_exec regex_new p ctx = Deny r → exec_denied regex_new p ctx r.
Proof.
  unfold evaluate_exec, lookup_rules.
  destruct (rooms p !! xc_room_id ctx) as [room|] eqn:Hr; simpl; [|intros [= <-]; eauto with mx].
  destruct (rm_agents room !! _) as [agent|] eqn:Ha; simpl; [|intros [= <-]; eauto with mx].
  destruct (xc_command ctx) as [|prog args] eqn:Hc; [intros [= <-]; eauto with mx|].
  intros H. crush_match; bool_prop; eauto with mx.
  - eapply XdCommand; [done..|]. intros a Hin Hb.
    rewrite (proj2 (command_allowed_spec _ _)) in Heqb1 by eauto. done.
  - apply matched_deny_Some in Heqo as [? ?]. eapply XdArgs; [done..|]. by rewrite Hc.
Qed.

End engine_correct.

(** ** Order on policies: [tighter] grants no more *)

Record agent_tighter (a b : AgentPolicy) : Prop := {
  at_exec : ag_allow_exec a = true → ag_allow_exec b = true;
  at_tools : ag_allow_tools a ⊆ ag_allow_tools b;
  at_commands : ag_allow_commands a ⊆ ag_allow_commands b;
  at_cwd : ag_allow_cwd a ⊆ ag_allow_cwd b;
  at_deny : ag_deny_args_regex b ⊆ ag_deny_args_regex a;
}.
Record room_tighter (a b : RoomPolicy) : Prop := {
  rt_trusted : rm_trusted a = true → rm_trusted b = true;
  rt_raw : rm_raw_exec_default a = Some RawAllow → rm_raw_exec_default b = Some RawAllow;
  rt_agents : ∀ k x, rm_agents a !! k = Some x → ∃ y, rm_agents b !! k = Some y ∧ agent_tighter x y;
}.
Definition tighter (p q : Policy) : Prop :=
  ∀ k r, rooms p !! k = Some r → ∃ s, rooms q !! k = Some s ∧ room_tighter r s.

Lemma no_deny_match_subset regex_new command l1 l2 :
  l2 ⊆ l1 → no_deny_match regex_new command l1 → no_deny_match regex_new command l2.
Proof. unfold no_deny_match. rewrite !Forall_forall. set_solver. Qed.

Lemma exec_permitted_tighter regex_new p q ctx r a :
  tighter p q → exec_permitted regex_new p ctx r a →
  ∃ s b, exec_permitted regex_new q ctx s b.
Proof.
  intros Htight [Hr Ha He Ht Hc Hcwd Hargs].
  destruct (Htight _ _ Hr) as (s & Hs & [Htr Hraw Hag]).
  destruct (Hag _ _ Ha) as (b & Hb & [Hx _ Hcs Hds Hdeny]).
  exists s, b. split; [done|done|naive_solver|by apply Htr| | |by eapply no_deny_match_subset].
  - destruct Hc as (prog & args & x & -> & Hin & Hbase). exists prog, args, x.
    split_and!; [done|by apply Hcs|done].
  - destruct Hcwd as (? & ? & d & ? & ?). split_and!; [done|done|]. exists d.
    split; [by apply Hds|done].
Qed.

(** What the caller may rely on in an allowance of a validated policy. *)
Record allowance_wf (a : Allowance) : Prop := {
  alw_sandbox : sandbox_implemented (al_sandbox a);
  alw_runtime : nonzero_cap (al_max_runtime_ms a);
  alw_output : nonzero_cap (al_max_output_bytes a);
  alw_processes : nonzero_cap (al_max_processes a);
  alw_memory : nonzero_cap (al_max_memory_bytes a);
  alw_cpu : nonzero_cap (al_max_cpu_seconds a);
  alw_env : names_ok (al_env_allowlist a);
  alw_ro : Forall path_ok (al_read_only_paths a);
  alw_rw : Forall path_ok (al_writable_paths a);
}.

Lemma opt_or_cap c d : nonzero_cap c → nonzero_cap d → nonzero_cap (opt_or c d).
Proof. unfold nonzero_cap. by destruct c. Qed.
Lemma opt_or_sandbox s t :
  sandbox_implemented s → sandbox_implemented t → sandbox_implemented (opt_or s t).
Proof. unfold sandbox_implemented. by destruct s. Qed.
#[export] Hint Resolve opt_or_cap opt_or_sandbox : mx.

Lemma allowance_for_wf regex_new p k r j a :
  policy_wf regex_new p → rooms p !! k = Some r → rm_agents r !! j = Some a →
  allowance_wf (allowance_for p r a).
Proof.
  intros [] Hr Ha. destruct (pwf_rooms k r Hr) as [_ _ Hag].
  destruct (Hag j a Ha) as [_ []]. split; simpl; auto with mx.
Qed.

(** ** A sample: the policy of the engine's unit tests *)

Module Sample.
(** A regex compiler in which every pattern is a literal to be found. *)
Fixpoint has_substring (pat s : string) : bool :=
  starts_with pat s || match s with "" => false | String _ s' => has_substring pat s' end.
Definition literal_regex : RegexNew := λ pat, Some (has_substring pat).

Definition agent : AgentPolicy :=
  {| ag_allow_exec := true; ag_allow_tools := ["run_tests"; "lint"];
     ag_allow_commands := ["cargo"; "/usr/bin/git"]; ag_allow_cwd := ["/home/me/code/project"];
     ag_deny_args_regex := ["rm -rf /"; "ssh"];
     ag_max_runtime_ms := Some 900000%N; ag_max_output_bytes := Some 5000000%N;
     ag_requires_approval := false; ag_sandbox := None; ag_network := None;
     ag_max_processes := None; ag_max_memory_bytes := None; ag_max_cpu_seconds := None;
     ag_seccomp := None; ag_require_verified_device := false |}.
Definition room : RoomPolicy :=
  {| rm_trusted := true; rm_raw_exec_default := Some RawDeny;
     rm_require_verified_device := false; rm_approvers := [];
     rm_agents := {["@claude:matrix.org" := agent]} |}.
Definition execution_defaults : ExecutionPolicy :=
  {| ex_default_sandbox := Some Bubblewrap; ex_network := Some NetDeny;
     ex_read_only_paths := ["/usr"]; ex_writable_paths := []; ex_env_allowlist := [];
     ex_container_image := None; ex_max_processes := None; ex_max_memory_bytes := None;
     ex_max_cpu_seconds := None; ex_seccomp := SeccompOff; ex_require_sandbox := false |}.
Definition policy : Policy := mkPolicy execution_defaults {["!abc:matrix.org" := room]}.
Definition exec (command : list string) (cwd : string) : ExecContext :=
  mkExecContext "!abc:matrix.org" "@claude:matrix.org" command cwd.

Example allowed_in_subdirectory :
  is_allowed (evaluate_exec literal_regex policy
                (exec ["git"; "status"] "/home/me/code/project/crates/foo")) = true.
Proof. vm_compute. reflexivity. Qed.
Example traversal_denied :
  evaluate_exec literal_regex policy (exec ["cargo"] "/home/me/code/project/../../etc")
  = Deny (CwdNotAllowed "/home/me/code/project/../../etc").
Proof. vm_compute. reflexivity. Qed.
Example ssh_denied :
  evaluate_exec literal_regex policy (exec ["git"; "ssh://x"] "/home/me/code/project")
  = Deny (DeniedArguments "ssh").
Proof. vm_compute. reflexivity. Qed.

Lemma policy_ok : policy_wf literal_regex policy.
Proof.
  apply validate_Ok. vm_compute. reflexivity.
Qed.
Lemma policy_not_empty : rooms policy !! "!abc:matrix.org" = Some room.
Proof. reflexivity. Qed.
End Sample.

(** ** Properties *)

(** C5: [evaluate_exec] is exactly the documented gate.  It allows a request
    if and only if the room and agent have rules, raw exec is enabled, the room
    is trusted, the command basename is allowlisted, the working directory is
    absolute, free of dot segments and componentwise inside an allowed
    directory, and no deny pattern matches; the allowance is the resolved one.
    Every denial carries a reason that holds of the request. *)
Theorem exec_gate_correct (regex_new : RegexNew) (p : Policy) (ctx : ExecContext) :
  match evaluate_exec regex_new p ctx with
  | Allow a => ∃ room agent, exec_permitted regex_new p ctx room agent ∧ a = allowance_for p room agent
  | Deny r => exec_denied regex_new p ctx r ∧ ∀ room agent, ¬ exec_permitted regex_new p ctx room agent
  end.
Proof.
  destruct (evaluate_exec regex_new p ctx) as [a|r] eqn:He.
  - by apply evaluate_exec_Allow.
  - split; [by apply evaluate_exec_Deny|]. intros room agent Hp.
    rewrite (proj2 (evaluate_exec_Allow regex_new p ctx _)) in He by eauto. done.
Qed.

(** C27: [evaluate_call] allows a named tool exactly when the agent's rule in
    the requesting room lists it, and otherwise denies without an allowance;
    a room or agent without a rule is denied as unknown. *)
Theorem call_gate_correct (p : Policy) (ctx : CallContext) :
  (∀ a, evaluate_call p ctx = Allow a ↔
     ∃ room agent, rooms p !! cc_room_id ctx = Some room ∧
       rm_agents room !! cc_requesting_agent ctx = Some agent ∧
       cc_tool ctx ∈ ag_allow_tools agent ∧ a = allowance_for p room agent) ∧
  (evaluate_call p ctx = Deny UnknownRoom ↔ rooms p !! cc_room_id ctx = None) ∧
  (evaluate_call p ctx = Deny UnknownAgent ↔
     ∃ room, rooms p !! cc_room_id ctx = Some room ∧ rm_agents room !! cc_requesting_agent ctx = None).
Proof.
  split; [apply evaluate_call_Allow|]. unfold evaluate_call, lookup_rules.
  destruct (rooms p !! cc_room_id ctx) as [room|]; simpl.
  2:{ split; [done|]. split; [done|]. by intros (? & ? & ?). }
  destruct (rm_agents room !! _) as [agent|] eqn:Ha; simpl.
  2:{ split; [done|]. split; [eauto|done]. }
  destruct (existsb _ _); simpl;
    (split; [done|]; split; [done|]; intros (? & ? & ?); simplify_eq).
Qed.

(** Under a validated policy, an allowed raw exec runs in a directory that
    the kernel resolves (walking [..] and [.], symbolic links aside) to a place
    beneath one of the agent's allowed directories: the lexical check leaves no
    path traversal. *)
Theorem exec_cwd_confined (regex_new : RegexNew) (p : Policy) (ctx : ExecContext) (a : Allowance) :
  validate regex_new p = Ok tt → evaluate_exec regex_new p ctx = Allow a →
  ∃ room agent d, rooms p !! xc_room_id ctx = Some room ∧
    rm_agents room !! xc_requesting_agent ctx = Some agent ∧
    d ∈ ag_allow_cwd agent ∧ os_resolve d `prefix_of` os_resolve (xc_cwd ctx).
Proof.
  intros [_ _ _ _ _ _ _ Hrooms]%validate_Ok (room & agent & [Hr Ha _ _ _ Hcwd _] & _)%evaluate_exec_Allow.
  destruct (Hrooms _ _ Hr) as [_ _ Hag]. destruct (Hag _ _ Ha) as [_ [Hdirs _ _ _ _ _ _ _ _ _]].
  apply cwd_allowed_spec in Hcwd. destruct (cwd_allowed_confined _ _ Hdirs Hcwd) as (d & ? & ?).
  by exists room, agent, d.
Qed.
Lemma exec_cwd_confined_witness :
  ∃ room agent d, rooms Sample.policy !! "!abc:matrix.org" = Some room ∧
    rm_agents room !! "@claude:matrix.org" = Some agent ∧
    d ∈ ag_allow_cwd agent ∧ os_resolve d `prefix_of` os_resolve "/home/me/code/project/crates".
Proof.
  apply (exec_cwd_confined Sample.literal_regex Sample.policy
    (Sample.exec ["cargo"; "build"] "/home/me/code/project/crates")
    (allowance_for Sample.policy Sample.room Sample.agent)); vm_compute; reflexivity.
Defined.

(** Tightening a policy never widens what it permits: if every room and
    agent rule of [p] is a restriction of the rule [q] has for it (fewer
    allowlist entries, more deny patterns, no new permission), then every exec
    or call that [p] allows, [q] allows too. *)
Theorem tightening_monotone (regex_new : RegexNew) (p q : Policy) :
  tighter p q →
  (∀ ctx, is_allowed (evaluate_exec regex_new p ctx) = true →
          is_allowed (evaluate_exec regex_new q ctx) = true) ∧
  (∀ ctx, is_allowed (evaluate_call p ctx) = true → is_allowed (evaluate_call q ctx) = true).
Proof.
  intros Ht. split; intros ctx H.
  - destruct (evaluate_exec regex_new p ctx) as [a|] eqn:He; [|done].
    apply evaluate_exec_Allow in He as (r & x & Hp & _).
    destruct (exec_permitted_tighter _ _ _ _ _ _ Ht Hp) as (s & y & Hq).
    by rewrite (proj2 (evaluate_exec_Allow regex_new q ctx _)) by eauto.
  - destruct (evaluate_call p ctx) as [a|] eqn:He; [|done].
    apply evaluate_call_Allow in He as (r & x & Hr & Hx & Hin & _).
    destruct (Ht _ _ Hr) as (s & Hs & [_ _ Hag]).
    destruct (Hag _ _ Hx) as (y & Hy & [_ Htools _ _ _]).
    by rewrite (proj2 (evaluate_call_Allow q ctx _)) by eauto 10.
Qed.
Lemma tightening_monotone_witness :
  is_allowed (evaluate_exec Sample.literal_regex Sample.policy
                (Sample.exec ["cargo"] "/home/me/code/project")) = true.
Proof.
  refine (proj1 (tightening_monotone Sample.literal_regex Sample.policy Sample.policy _) _ _);
    [|vm_compute; reflexivity].
  intros k r Hk. exists r. split; [done|]. split; [done|done|].
  intros j x Hj. exists x. split; [done|]. by split.
Defined.

(** What a validated policy can resolve to: any exec or call it allows
    carries an implemented sandbox backend (never the unimplemented [firejail]
    or [chroot]), no zero limit, no blank environment name, and only absolute
    dot-free bind paths; the same holds of the agent-free execution floor. *)
Theorem validated_allowance_wf (regex_new : RegexNew) (p : Policy) :
  validate regex_new p = Ok tt →
  (∀ ctx a, evaluate_exec regex_new p ctx = Allow a → allowance_wf a) ∧
  (∀ ctx a, evaluate_call p ctx = Allow a → allowance_wf a) ∧
  allowance_wf (execution_allowance p).
Proof.
  intros Hwf%validate_Ok. split_and!.
  - intros ctx a (r & x & [Hr Hx _ _ _ _ _] & ->)%evaluate_exec_Allow. by eapply allowance_for_wf.
  - intros ctx a (r & x & Hr & Hx & _ & ->)%evaluate_call_Allow. by eapply allowance_for_wf.
  - destruct Hwf. by split.
Qed.
Lemma validated_allowance_wf_witness : allowance_wf (execution_allowance Sample.policy).
Proof.
  apply (validated_allowance_wf Sample.literal_regex Sample.policy). vm_compute. reflexivity.
Defined.

(** A command allowlist entry matches by file name alone: a program is
    allowed exactly when some entry has the same basename, so an entry that is
    a full path does not pin the directory the program is taken from. *)
Theorem command_allowed_by_basename (program : string) (l : list string) :
  command_allowed program l = true ↔ ∃ a, a ∈ l ∧ basename a = basename program.
Proof. apply command_allowed_spec. Qed.
