(* ===== verification/AuditLog.v ===== *)
(** * The audit log

    Models [crates/mx-agent-daemon/src/audit.rs]: the records of privileged decisions and
    the redaction of command lines.  The timestamp is an argument; appending to the file
    is an effect that never changes a decision. *)
From Stdlib Require Import Ascii.
From stdpp Require Import gmap strings list.
From S2P Require Import Prelude RustStr ChildEnv PolicyFile PolicyEngine.

Inductive AuditDecision := Allowed | Denied | Held | Released | Expired.
Definition from_outcome (o : Outcome) : AuditDecision := if is_allowed o then Allowed else Denied.

Record AuditRecord := {
  ar_ts : string;
  ar_room : string;
  ar_requester : string;
  ar_target : string;
  ar_invocation_id : option string;
  ar_request : string;
  ar_command : option (list string);
  ar_tool : option string;
  ar_decision : AuditDecision;
  ar_policy_rule : string;
  ar_sandbox : option string;
}.

(** ** Redaction *)

Definition REDACTED : string := "***redacted***".
(** [find('=')] with [split_at]: the text before the first [=], if there is one. *)
Fixpoint before_eq (s : string) : option string :=
  match s with
  | "" => None
  | String c s => if Ascii.eqb c "=" then Some "" else String c <$> before_eq s
  end.
Fixpoint trim_dashes (s : string) : string :=
  match s with String c s' => if Ascii.eqb c "-" then trim_dashes s' else s | "" => "" end.
Fixpoint dash_to_underscore (s : string) : string :=
  match s with "" => "" | String c s => String (if Ascii.eqb c "-" then "_"%char else c) (dash_to_underscore s) end.
Definition normalize_key (key : string) : string := dash_to_underscore (trim_dashes key).

Fixpoint redact_loop (redact_next : bool) (args : list string) : list string :=
  match args with
  | [] => []
  | arg :: args =>
      if redact_next then REDACTED :: redact_loop false args else
      match before_eq arg with
      | Some key =>
          if is_sensitive_key (normalize_key key) then (key +:+ "=" +:+ REDACTED) :: redact_loop false args
          else arg :: redact_loop false args
      | None =>
          if starts_with "-" arg && is_sensitive_key (normalize_key arg) then arg :: redact_loop true args
          else arg :: redact_loop false args
      end
  end.
Definition redact_command (args : list string) : list string := redact_loop false args.

(** ** Records *)

Definition deny_rule (r : DenyReason) : string :=
  match r with
  | UnknownRoom => "deny:unknown_room"
  | UntrustedRoom => "deny:untrusted_room"
  | UnknownAgent => "deny:unknown_agent"
  | EmptyCommand => "deny:empty_command"
  | ExecNotAllowed => "deny:exec_not_allowed"
  | CommandNotAllowed _ => "deny:command_not_allowed"
  | CwdNotAllowed _ => "deny:cwd_not_allowed"
  | DeniedArguments _ => "deny:denied_arguments"
  | ToolNotAllowed _ => "deny:tool_not_allowed"
  end.
Definition rule_for (o : Outcome) (allow_rule : string) : string :=
  match o with Allow _ => allow_rule | Deny r => deny_rule r end.
Definition sandbox_for_outcome (o : Outcome) : option string :=
  (λ a, default "none" (sandbox_name <$> a.(al_sandbox))) <$> allowance o.

(** The nine constructors share these two shapes. *)
Definition exec_record (ts room requester target : string) (inv : option string) (command : list string)
    (d : AuditDecision) (rule : string) (sandbox : option string) : AuditRecord :=
  {| ar_ts := ts; ar_room := room; ar_requester := requester; ar_target := target; ar_invocation_id := inv;
     ar_request := "exec"; ar_command := Some (redact_command command); ar_tool := None; ar_decision := d;
     ar_policy_rule := rule; ar_sandbox := sandbox |}.
Definition call_record (ts room requester target : string) (inv : option string) (tool : string)
    (d : AuditDecision) (rule : string) (sandbox : option string) : AuditRecord :=
  {| ar_ts := ts; ar_room := room; ar_requester := requester; ar_target := target; ar_invocation_id := inv;
     ar_request := "call"; ar_command := None; ar_tool := Some tool; ar_decision := d;
     ar_policy_rule := rule; ar_sandbox := sandbox |}.

Definition for_exec ts room requester target inv command (o : Outcome) : AuditRecord :=
  exec_record ts room requester target inv command (from_outcome o) (rule_for o "allow_commands") (sandbox_for_outcome o).
Definition for_call ts room requester target inv tool (o : Outcome) : AuditRecord :=
  call_record ts room requester target inv tool (from_outcome o) (rule_for o "allow_tools") (sandbox_for_outcome o).
Definition for_exec_denied ts room requester target inv command (reason : string) : AuditRecord :=
  exec_record ts room requester target inv command Denied ("deny:" +:+ reason) None.
Definition for_call_denied ts room requester target inv tool (reason : string) : AuditRecord :=
  call_record ts room requester target inv tool Denied ("deny:" +:+ reason) None.
Definition for_exec_held ts room requester target inv command (o : Outcome) : AuditRecord :=
  exec_record ts room requester target inv command Held (rule_for o "allow_commands") (sandbox_for_outcome o).
Definition for_exec_released ts room requester target inv command (o : Outcome) : AuditRecord :=
  exec_record ts room requester target inv command Released (rule_for o "allow_commands") (sandbox_for_outcome o).
Definition for_exec_expired ts room requester target inv command : AuditRecord :=
  exec_record ts room requester target inv command Expired "approval_expired" None.
Definition for_call_held ts room requester target inv tool (o : Outcome) : AuditRecord :=
  call_record ts room requester target inv tool Held (rule_for o "allow_tools") (sandbox_for_outcome o).
Definition for_call_released ts room requester target inv tool (o : Outcome) : AuditRecord :=
  call_record ts room requester target inv tool Released (rule_for o "allow_tools") (sandbox_for_outcome o).
Definition for_call_expired ts room requester target inv tool : AuditRecord :=
  call_record ts room requester target inv tool Expired "approval_expired" None.

(** ** Redaction hides the values of sensitive keys *)

(** Command lines that differ only in such values: [key=value] arguments with a sensitive
    key, and the argument after a sensitive flag. *)
Inductive same_public : list string → list string → Prop :=
| sp_nil : same_public [] []
| sp_inline arg arg' key l l' :
    before_eq arg = Some key → before_eq arg' = Some key → is_sensitive_key (normalize_key key) = true →
    same_public l l' → same_public (arg :: l) (arg' :: l')
| sp_flag flag v v' l l' :
    before_eq flag = None → starts_with "-" flag = true → is_sensitive_key (normalize_key flag) = true →
    same_public l l' → same_public (flag :: v :: l) (flag :: v' :: l')
| sp_flag_last flag :
    before_eq flag = None → starts_with "-" flag = true → is_sensitive_key (normalize_key flag) = true →
    same_public [flag] [flag]
| sp_public arg l l' :
    (∀ key, before_eq arg = Some key → is_sensitive_key (normalize_key key) = false) →
    (before_eq arg = None → starts_with "-" arg && is_sensitive_key (normalize_key arg) = false) →
    same_public l l' → same_public (arg :: l) (arg :: l').

(** The audit log does not depend on a secret: two commands that differ only in the values
    of sensitive keys, written as [key=value] or after a sensitive flag, are recorded
    identically; redaction keeps the number of arguments and is the identity on
    commands that name no sensitive key. *)
Theorem audit_hides_secrets :
  (∀ args args', same_public args args' → redact_command args = redact_command args') ∧
  (∀ args, length (redact_command args) = length args) ∧
  (∀ args, (∀ arg key, arg ∈ args → before_eq arg = Some key → is_sensitive_key (normalize_key key) = false) →
     (∀ arg, arg ∈ args → before_eq arg = None → starts_with "-" arg && is_sensitive_key (normalize_key arg) = false) →
     redact_command args = args).
Proof.
  unfold redact_command. split_and!.
  - induction 1 as [|arg arg' key l l' He He' Hs _ IH|flag v v' l l' He Hd Hs _ IH|flag He Hd Hs|arg l l' Hk Hf _ IH];
      cbn [redact_loop]; rewrite ?He, ?He', ?Hd, ?Hs; simpl; rewrite ?IH; try done.
    destruct (before_eq arg) as [key|]; [by rewrite Hk|by rewrite Hf].
  - intros args. generalize false. induction args as [|arg args IH]; [done|]. intros []; simpl; [by rewrite IH|].
    destruct (before_eq arg); [destruct (is_sensitive_key _)|destruct (_ && _)]; simpl; by rewrite IH.
  - induction args as [|arg args IH]; intros Hk Hf; [done|]. simpl.
    assert (redact_loop false args = args) as Hl.
    { apply IH; intros arg'; [intros key|]; intros ?; [apply Hk|apply Hf]; by right. }
    destruct (before_eq arg) as [key|] eqn:He.
    + rewrite (Hk arg key) by (done || left). by rewrite Hl.
    + rewrite (Hf arg) by (done || left). by rewrite Hl.
Qed.
(** A token in either form leaves no trace. *)
Lemma audit_hides_secrets_witness :
  redact_command ["curl"; "--token"; "s3cret"; "API_KEY=a1"] = redact_command ["curl"; "--token"; "other"; "API_KEY=b2"].
Proof.
  apply (proj1 audit_hides_secrets). apply sp_public; [intros ? Hk; vm_compute in Hk; discriminate Hk|vm_compute; reflexivity|].
  apply sp_flag; [vm_compute; reflexivity..|]. apply sp_inline with "API_KEY"; [vm_compute; reflexivity..|]. constructor.
Defined.
