(* ===== verification/Time.v ===== *)
(** * Timestamps: RFC 3339 parsing and formatting

    Models [parse_rfc3339_to_unix] and [days_from_civil] of
    [crates/mx-agent-daemon/src/replay.rs] and [unix_to_rfc3339] of
    [crates/mx-agent-daemon/src/task.rs] (the same function is repeated in
    [task_orchestrator.rs] and [invocation.rs]).  [i64] and [u32] are [Z]; every
    value the code computes from a string this short is far inside [i64], so no
    wrap-around can occur ([parse_rfc3339_bounds]).  Rust's [/] and [%]
    truncate: [Z.quot] and [Z.rem]. *)
From Stdlib Require Import Ascii ZArith.
From stdpp Require Import gmap strings list pretty.
From S2P Require Import Prelude RustStr.
Local Open Scope Z_scope.

(** ** Civil dates *)

Definition days_from_civil (year month day : Z) : Z :=
  let y := if month <=? 2 then year - 1 else year in
  let era := Z.quot (if 0 <=? y then y else y - 399) 400 in
  let yoe := y - era * 400 in
  let doy := Z.quot (153 * (if 2 <? month then month - 3 else month + 9) + 2) 5 + day - 1 in
  let doe := yoe * 365 + Z.quot yoe 4 - Z.quot yoe 100 + doy in
  era * 146097 + doe - 719468.

Arguments days_from_civil : simpl never.

(** The date part of [unix_to_rfc3339]: days since the epoch to a date. *)
Definition civil_from_days (days : Z) : Z * Z * Z :=
  let z := days + 719468 in
  let era := Z.quot (if 0 <=? z then z else z - 146096) 146097 in
  let doe := z - era * 146097 in
  let yoe := Z.quot (doe - Z.quot doe 1460 + Z.quot doe 36524 - Z.quot doe 146096) 365 in
  let y := yoe + era * 400 in
  let doy := doe - (365 * yoe + Z.quot yoe 4 - Z.quot yoe 100) in
  let mp := Z.quot (5 * doy + 2) 153 in
  let day := doy - Z.quot (153 * mp + 2) 5 + 1 in
  let month := if mp <? 10 then mp + 3 else mp - 9 in
  let year := if month <=? 2 then y + 1 else y in
  (year, month, day).

Definition unix_to_rfc3339 (secs : Z) : string :=
  let days := Z.quot secs 86400 in
  let tod := Z.rem secs 86400 in
  let hour := Z.quot tod 3600 in
  let minute := Z.quot (Z.rem tod 3600) 60 in
  let second := Z.rem tod 60 in
  let '(year, month, day) := civil_from_days days in
  format_pad 4 year +:+ "-" +:+ format_pad 2 month +:+ "-" +:+ format_pad 2 day +:+ "T"
  +:+ format_pad 2 hour +:+ ":" +:+ format_pad 2 minute +:+ ":" +:+ format_pad 2 second +:+ "Z".

(** ** Parsing *)

Definition byte_is (s : string) (i : nat) (c : ascii) : bool := bool_decide (byte_at s i = Some c).

Fixpoint take_while_digits (s : string) : nat :=
  match s with
  | "" => 0
  | String c s => if is_ascii_digit c then S (take_while_digits s) else 0
  end%nat.

(** The optional fraction of a second after byte 19. *)
Definition skip_fraction (rest : string) : option string :=
  match strip_prefix "." rest with
  | Some after_dot =>
      let digits := take_while_digits after_dot in
      if Nat.eqb digits 0 then None else Some (str_drop digits after_dot)
  | None => Some rest
  end.

(** The time-zone designator: [Z], or a signed offset with an optional colon. *)
Definition parse_offset (rest : string) : option Z :=
  match byte_at rest 0 with
  | Some c =>
      if bool_decide (c = "Z"%char) || bool_decide (c = "z"%char) then Some 0
      else if bool_decide (c = "+"%char) || bool_decide (c = "-"%char) then
        let sign := if bool_decide (c = "-"%char) then -1 else 1 in
        off_hour ← str_get rest 1 3 ≫= parse_i64;
        let mm_start := if byte_is rest 3 ":" then 4%nat else 3%nat in
        off_min ← str_get rest mm_start (mm_start + 2) ≫= parse_i64;
        Some (sign * (off_hour * 3600 + off_min * 60))
      else None
  | None => None
  end.

Definition parse_rfc3339_to_unix (s : string) : option Z :=
  if Nat.ltb (String.length s) 20 then None else
  year ← str_get s 0 4 ≫= parse_i64;
  if negb (byte_is s 4 "-") then None else
  month ← str_get s 5 7 ≫= parse_u32;
  if negb (byte_is s 7 "-") then None else
  day ← str_get s 8 10 ≫= parse_u32;
  if negb (byte_is s 10 "T") && negb (byte_is s 10 "t") then None else
  hour ← str_get s 11 13 ≫= parse_u32;
  if negb (byte_is s 13 ":") then None else
  minute ← str_get s 14 16 ≫= parse_u32;
  if negb (byte_is s 16 ":") then None else
  second ← str_get s 17 19 ≫= parse_u32;
  rest ← skip_fraction (str_drop 19 s);
  offset_secs ← parse_offset rest;
  if negb ((1 <=? month) && (month <=? 12)) || negb ((1 <=? day) && (day <=? 31))
     || (23 <? hour) || (59 <? minute) || (60 <? second)
  then None
  else Some (days_from_civil year month day * 86400 + hour * 3600 + minute * 60 + second
             - offset_secs).

Example parse_plain : parse_rfc3339_to_unix "2026-06-02T12:05:00Z" = Some 1780401900.
Proof. vm_compute. reflexivity. Qed.
Example parse_fraction : parse_rfc3339_to_unix "2026-06-02T12:05:00.123Z" = Some 1780401900.
Proof. vm_compute. reflexivity. Qed.
Example parse_with_offset : parse_rfc3339_to_unix "2026-06-02T14:05:00+02:00" = Some 1780401900.
Proof. vm_compute. reflexivity. Qed.
Example format_epoch : unix_to_rfc3339 1780401900 = "2026-06-02T12:05:00Z".
Proof. vm_compute. reflexivity. Qed.

(** ** The calendar

    Inside a 400-year era that begins on 1 March, year [y] starts on day
    [ystart y]; [yoe_of] is the code's closed formula for the year of a day. *)
Local Ltac Zify.zify_post_hook ::= Z.to_euclidean_division_equations.

Definition ystart (y : Z) : Z := 365 * y + Z.quot y 4 - Z.quot y 100.
Definition yoe_of (doe : Z) : Z :=
  Z.quot (doe - Z.quot doe 1460 + Z.quot doe 36524 - Z.quot doe 146096) 365.

Lemma yoe_of_step a : 0 ≤ a < 146096 → yoe_of a ≤ yoe_of (a + 1).
Proof. intros. unfold yoe_of. apply Z.quot_le_mono; [lia|]. lia. Qed.

Lemma yoe_of_mono a b : 0 ≤ a → a ≤ b ≤ 146096 → yoe_of a ≤ yoe_of b.
Proof.
  intros Ha Hb. replace b with (a + Z.of_nat (Z.to_nat (b - a))) in * by lia.
  induction (Z.to_nat (b - a)) as [|n IH]; [by rewrite Z.add_0_r|].
  etrans; [apply IH; lia|]. rewrite Nat2Z.inj_succ. unfold Z.succ. rewrite Z.add_assoc.
  apply yoe_of_step. lia.
Qed.

Lemma yoe_of_ends y : 0 ≤ y ≤ 398 → yoe_of (ystart y) = y ∧ yoe_of (ystart (y + 1) - 1) = y.
Proof.
  intros Hy.
  assert (forallb (λ y, (yoe_of (ystart y) =? y) && (yoe_of (ystart (y + 1) - 1) =? y))
            (seqZ 0 399) = true) as H by (vm_compute; reflexivity).
  rewrite forallb_forall in H. specialize (H y). rewrite <- list_elem_of_In, elem_of_seqZ in H.
  destruct (proj1 (andb_true_iff _ _) (H ltac:(lia))) as [?%Z.eqb_eq ?%Z.eqb_eq]. done.
Qed.

Lemma year_of_day (n : nat) doe :
  0 ≤ doe < ystart (Z.of_nat n + 1) →
  ∃ y, 0 ≤ y ≤ Z.of_nat n ∧ ystart y ≤ doe < ystart (y + 1).
Proof.
  induction n as [|n IH]; intros Hd.
  - exists 0. split; [lia|]. done.
  - destruct (decide (doe < ystart (Z.of_nat n + 1))).
    + destruct IH as (y & ? & ?); [lia|]. exists y. lia.
    + exists (Z.of_nat (S n)). split; [lia|]. split; [|lia].
      replace (Z.of_nat (S n)) with (Z.of_nat n + 1) by lia. lia.
Qed.

(** The year and the day of the year recovered from a day of the era. *)
Lemma yoe_of_spec doe :
  0 ≤ doe ≤ 146096 →
  0 ≤ yoe_of doe ≤ 399 ∧ ystart (yoe_of doe) ≤ doe ∧
  (doe < ystart (yoe_of doe + 1) ∨ (yoe_of doe = 399 ∧ doe = 146096)).
Proof.
  intros Hd. destruct (decide (doe < ystart 399)) as [Hlt|Hge].
  - destruct (year_of_day 398 doe) as (y & Hy & Hs); [by change (Z.of_nat 398 + 1) with 399; lia|].
    destruct (yoe_of_ends y) as [H1 H2]; [lia|].
    assert (yoe_of doe = y) as ->.
    { assert (ystart (y + 1) ≤ 146096) by (unfold ystart; lia).
      assert (0 ≤ ystart y) by (unfold ystart; lia).
      pose proof (yoe_of_mono (ystart y) doe). pose proof (yoe_of_mono doe (ystart (y + 1) - 1)). lia. }
    lia.
  - assert (yoe_of doe = 399) as ->.
    { change (ystart 399) with 145731 in Hge.
      assert (yoe_of 145731 = 399) by done. assert (yoe_of 146096 = 399) by done.
      pose proof (yoe_of_mono 145731 doe). pose proof (yoe_of_mono doe 146096). lia. }
    change (ystart 399) with 145731 in *. change (ystart (399 + 1)) with 146096. lia.
Qed.

Lemma ystart_len y : 0 ≤ y → ystart (y + 1) ≤ ystart y + 366.
Proof. intros. unfold ystart. lia. Qed.

(** Month and day from the day of a March-based year. *)
Definition month_of (doy : Z) : Z := Z.quot (5 * doy + 2) 153.
Definition mday_of (doy : Z) : Z := doy - Z.quot (153 * month_of doy + 2) 5 + 1.

Lemma month_of_bounds doy : 0 ≤ doy ≤ 365 → 0 ≤ month_of doy ≤ 11.
Proof. intros. unfold month_of. lia. Qed.
Lemma mday_of_bounds doy : 0 ≤ doy ≤ 365 → 1 ≤ mday_of doy ≤ 31.
Proof. intros. unfold mday_of, month_of. lia. Qed.

Definition date_of_parts (era y doy : Z) : Z * Z * Z :=
  let m := if month_of doy <? 10 then month_of doy + 3 else month_of doy - 9 in
  (if m <=? 2 then y + era * 400 + 1 else y + era * 400, m, mday_of doy).

(** The decomposition [civil_from_days] computes, for dates since year 0. *)
Lemma civil_from_days_decompose d :
  0 ≤ d + 719468 →
  ∃ era y doy, 0 ≤ era ∧ 0 ≤ y ≤ 399 ∧ 0 ≤ doy ≤ 365 ∧
    (y = 399 ∨ ystart y + doy < ystart (y + 1)) ∧
    d = era * 146097 + ystart y + doy - 719468 ∧
    civil_from_days d = date_of_parts era y doy.
Proof.
  intros Hd. set (z := d + 719468). set (era := Z.quot z 146097). set (doe := z - era * 146097).
  assert (0 ≤ doe ≤ 146096) as Hdoe by (subst doe era z; lia).
  destruct (yoe_of_spec doe Hdoe) as (Hy & Hlo & Hhi).
  exists era, (yoe_of doe), (doe - ystart (yoe_of doe)).
  pose proof (ystart_len (yoe_of doe)).
  split_and!; try (subst doe era z; lia).
  - destruct Hhi as [?|[Hy' Hd']]; [lia|]. rewrite Hy', Hd'. done.
  - unfold civil_from_days. fold z. replace (0 <=? z) with true by lia.
    fold era. fold doe. reflexivity.
Qed.

(** Formatting then reading a date gives the same day. *)
Lemma civil_roundtrip d year month day :
  0 ≤ d + 719468 → civil_from_days d = (year, month, day) →
  days_from_civil year month day = d ∧ 1 ≤ month ≤ 12 ∧ 1 ≤ day ≤ 31.
Proof.
  intros Hd Hc. destruct (civil_from_days_decompose d Hd) as (era & y & doy & He & Hy & Hdoy & _ & -> & Hc').
  rewrite Hc' in Hc. clear Hc' Hd. unfold date_of_parts in Hc.
  pose proof (month_of_bounds doy Hdoy). pose proof (mday_of_bounds doy Hdoy).
  set (mp := month_of doy) in *. injection Hc as <- <- <-.
  assert (Z.quot (y + era * 400) 400 = era) as Hq by lia.
  split; [|destruct (mp <? 10) eqn:?; lia].
  unfold days_from_civil.
  assert (mday_of doy = doy - Z.quot (153 * mp + 2) 5 + 1) as -> by done.
  destruct (mp <? 10) eqn:Hm.
  - replace (mp + 3 <=? 2) with false by lia. replace (2 <? mp + 3) with true by lia.
    replace (0 <=? y + era * 400) with true by lia. rewrite Hq.
    replace (mp + 3 - 3) with mp by lia. replace (y + era * 400 - era * 400) with y by lia.
    unfold ystart. lia.
  - replace (mp - 9 <=? 2) with true by lia. replace (2 <? mp - 9) with false by lia.
    replace (y + era * 400 + 1 - 1) with (y + era * 400) by lia.
    replace (0 <=? y + era * 400) with true by lia. rewrite Hq.
    replace (mp - 9 + 9) with mp by lia. replace (y + era * 400 - era * 400) with y by lia.
    unfold ystart. lia.
Qed.

(** The Gregorian calendar, independently of the closed formulas. *)
Definition is_leap (y : Z) : bool :=
  (y mod 4 =? 0) && (negb (y mod 100 =? 0) || (y mod 400 =? 0)).
Definition days_in_month (y m : Z) : Z :=
  if m =? 2 then (if is_leap y then 29 else 28)
  else if (m =? 4) || (m =? 6) || (m =? 9) || (m =? 11) then 30 else 31.
Definition next_date (c : Z * Z * Z) : Z * Z * Z :=
  let '(y, m, d) := c in
  if d <? days_in_month y m then (y, m, d + 1)
  else if m <? 12 then (y, m + 1, 1) else (y + 1, 1, 1).

Definition valid_doy (y doy : Z) : Prop :=
  0 ≤ y ≤ 399 ∧ 0 ≤ doy ≤ 365 ∧ (y = 399 ∨ ystart y + doy < ystart (y + 1)).

Lemma ystart_mono a b : 0 ≤ a ≤ b → ystart a ≤ ystart b.
Proof. unfold ystart. lia. Qed.

Lemma parts_unique era y doy era' y' doy' :
  valid_doy y doy → valid_doy y' doy' →
  era * 146097 + ystart y + doy = era' * 146097 + ystart y' + doy' →
  era = era' ∧ y = y' ∧ doy = doy'.
Proof.
  intros (Hy & Hd & Hv) (Hy' & Hd' & Hv') Heq.
  assert (∀ y doy, valid_doy y doy → 0 ≤ ystart y + doy ≤ 146096) as Hb.
  { intros v w (Hv1 & Hv2 & Hv3). change 146096 with (ystart 399 + 365).
    pose proof (ystart_mono 0 v). change (ystart 0) with 0 in *.
    destruct Hv3 as [->|Hv3]; [lia|]. destruct (decide (v = 399)) as [->|]; [lia|].
    pose proof (ystart_mono (v + 1) 399). lia. }
  pose proof (Hb y doy (conj Hy (conj Hd Hv))). pose proof (Hb y' doy' (conj Hy' (conj Hd' Hv'))).
  assert (era = era') as <- by lia.
  assert (y = y') as <-; [|lia].
  destruct (Z.lt_trichotomy y y') as [?|[?|?]]; [|done|].
  - pose proof (ystart_mono (y + 1) y'). lia.
  - pose proof (ystart_mono (y' + 1) y). lia.
Qed.

Lemma civil_of_parts era y doy :
  0 ≤ era → valid_doy y doy →
  civil_from_days (era * 146097 + ystart y + doy - 719468) = date_of_parts era y doy.
Proof.
  intros He Hv. pose proof (ystart_mono 0 y) as Hm. change (ystart 0) with 0 in Hm.
  destruct Hv as (Hy & Hdoy & Hv).
  destruct (civil_from_days_decompose (era * 146097 + ystart y + doy - 719468))
    as (era' & y' & doy' & ? & ? & ? & ? & Heq & ->); [lia|].
  destruct (parts_unique era y doy era' y' doy') as (<- & <- & <-); [done|done|lia|done].
Qed.

(** One step inside a March-based year: 365 cases, by computation. *)
Definition month_len (mp : Z) : Z :=
  if (mp =? 1) || (mp =? 3) || (mp =? 6) || (mp =? 8) then 30 else 31.
Lemma doy_step doy :
  0 ≤ doy ≤ 364 →
  (month_of (doy + 1) = month_of doy ∧ mday_of (doy + 1) = mday_of doy + 1 ∧
     (month_of doy = 11 → mday_of doy < 28 ∨ doy = 364) ∧
     (month_of doy ≠ 11 → mday_of doy < month_len (month_of doy)))
  ∨ (month_of (doy + 1) = month_of doy + 1 ∧ mday_of (doy + 1) = 1 ∧ month_of doy ≠ 11 ∧
     mday_of doy = month_len (month_of doy)).
Proof.
  intros Hd.
  assert (forallb (λ doy,
    ((month_of (doy + 1) =? month_of doy) && (mday_of (doy + 1) =? mday_of doy + 1) &&
       (negb (month_of doy =? 11) || (mday_of doy <? 28) || (doy =? 364)) &&
       ((month_of doy =? 11) || (mday_of doy <? month_len (month_of doy))))
    || ((month_of (doy + 1) =? month_of doy + 1) && (mday_of (doy + 1) =? 1) &&
        negb (month_of doy =? 11) && (mday_of doy =? month_len (month_of doy))))
    (seqZ 0 365) = true) as H by (vm_compute; reflexivity).
  rewrite forallb_forall in H. specialize (H doy). rewrite <- list_elem_of_In, elem_of_seqZ in H.
  specialize (H ltac:(lia)). clear Hd. lia.
Qed.

Lemma leap_valid era y : 0 ≤ y ≤ 399 → valid_doy y 365 ↔ is_leap (y + era * 400 + 1) = true.
Proof. intros Hy. unfold valid_doy, is_leap, ystart. lia. Qed.

Lemma days_in_march_month y mp :
  0 ≤ mp ≤ 10 → days_in_month y (if mp <? 10 then mp + 3 else mp - 9) = month_len mp.
Proof.
  intros Hm. unfold days_in_month, month_len.
  assert (mp = 0 ∨ mp = 1 ∨ mp = 2 ∨ mp = 3 ∨ mp = 4 ∨ mp = 5 ∨ mp = 6 ∨ mp = 7 ∨ mp = 8 ∨ mp = 9
          ∨ mp = 10) as Hcases by lia.
  by repeat destruct Hcases as [->|Hcases]; subst.
Qed.

Lemma date_step_within era y doy :
  valid_doy y (doy + 1) → 0 ≤ doy →
  date_of_parts era y (doy + 1) = next_date (date_of_parts era y doy).
Proof.
  intros Hv Hd. assert (0 ≤ doy ≤ 364) as Hd' by (destruct Hv; lia).
  pose proof (month_of_bounds doy ltac:(lia)) as Hmp.
  unfold date_of_parts. set (mp := month_of doy) in *.
  destruct (decide (mp = 11)) as [H11|H11].
  - destruct (doy_step doy Hd') as [(-> & -> & Hl & _)|(_ & _ & ? & _)]; [|done]. fold mp.
    specialize (Hl H11). rewrite H11. simpl. unfold days_in_month. simpl.
    destruct (is_leap (y + era * 400 + 1)) eqn:El.
    + replace (mday_of doy <? 29) with true; [done|]. symmetry. apply Z.ltb_lt.
      destruct Hl as [?| ->]; [lia|done].
    + destruct Hl as [?| ->]; [by replace (mday_of doy <? 28) with true by lia|].
      apply (leap_valid era) in Hv; [congruence|]. by destruct Hv.
  - unfold next_date. rewrite (days_in_march_month _ mp) by lia.
    destruct (doy_step doy Hd') as [(-> & -> & _ & Hl)|(-> & -> & _ & ->)]; fold mp.
    + specialize (Hl H11). fold mp in Hl. by replace (mday_of doy <? month_len mp) with true by lia.
    + fold mp. rewrite Z.ltb_irrefl.
      destruct (decide (mp < 9)); [|destruct (decide (mp = 9)) as [->|]; [|by replace mp with 10 by lia]].
      * replace (mp + 1 <? 10) with true by lia. replace (mp <? 10) with true by lia.
        replace (mp + 3 <? 12) with true by lia. replace (mp + 1 + 3 <=? 2) with false by lia.
        replace (mp + 3 <=? 2) with false by lia. f_equal. f_equal. lia.
      * done.
Qed.

Lemma date_step_year era y doy :
  valid_doy y doy → ¬ valid_doy y (doy + 1) →
  next_date (date_of_parts era y doy) = (y + era * 400 + 1, 3, 1) ∧
  ystart y + doy + 1 = (if y =? 399 then 146097 else ystart (y + 1)).
Proof.
  intros Hv Hn. assert (doy = 365 ∨ doy = 364 ∧ is_leap (y + era * 400 + 1) = false) as Hd.
  { destruct (decide (doy = 364)) as [->|].
    - right. split; [done|]. destruct (is_leap _) eqn:E; [|done]. destruct Hn.
      apply (leap_valid era); [by destruct Hv|done].
    - left. destruct Hv as (Hy & Hd & Hv). unfold valid_doy in Hn.
      destruct (decide (doy = 365)); [done|]. destruct Hn. split_and!; [lia..|].
      destruct Hv as [?|Hv]; [by left|right]. unfold ystart in *. lia. }
  destruct Hd as [Hd | [Hd Hl]]; subst doy.
  - pose proof Hv as Hv'. apply (leap_valid era) in Hv; [|by destruct Hv'].
    unfold date_of_parts. change (month_of 365) with 11. change (mday_of 365) with 29. simpl.
    unfold days_in_month. simpl. rewrite Hv. simpl. split; [done|].
    destruct Hv' as (Hy & _ & Hv'). destruct (Z.eqb_spec y 399) as [->|]; [done|].
    unfold ystart in *. lia.
  - unfold date_of_parts. change (month_of 364) with 11. change (mday_of 364) with 28. simpl.
    unfold days_in_month. simpl. rewrite Hl. simpl. split; [done|].
    destruct Hv as (Hy & _ & Hv'). unfold valid_doy in Hn.
    destruct (Z.eqb_spec y 399) as [->|].
    + destruct Hn. split_and!; [lia..|]. by left.
    + unfold ystart in *. lia.
Qed.

(** The date computed for a day number is the Gregorian date: day 0 is
    1 January 1970 and the date of day [d + 1] is the calendar successor of the
    date of day [d] (month lengths and leap years included), for every
    non-negative day number. *)
Theorem civil_from_days_calendar :
  civil_from_days 0 = (1970, 1, 1) ∧
  ∀ d, 0 ≤ d → civil_from_days (d + 1) = next_date (civil_from_days d).
Proof.
  split; [done|]. intros d Hd.
  destruct (civil_from_days_decompose d) as (era & y & doy & He & Hy & Hdoy & Hv & -> & ->); [lia|].
  assert (valid_doy y doy) as Hvd by done.
  assert (Decision (valid_doy y (doy + 1))) as [Hv1|Hv1] by (unfold valid_doy; apply _).
  - rewrite <- date_step_within by (done || lia).
    rewrite <- civil_of_parts by done. f_equal. lia.
  - destruct (date_step_year era y doy Hvd Hv1) as [-> Hs].
    destruct (Z.eqb_spec y 399) as [->|Hne].
    + transitivity (civil_from_days ((era + 1) * 146097 + ystart 0 + 0 - 719468)).
      { f_equal. change (ystart 0) with 0. lia. }
      rewrite civil_of_parts by (try lia; unfold valid_doy, ystart; lia).
      unfold date_of_parts. simpl. f_equal. f_equal. lia.
    + transitivity (civil_from_days (era * 146097 + ystart (y + 1) + 0 - 719468)).
      { f_equal. lia. }
      rewrite civil_of_parts by (try lia; unfold valid_doy, ystart in *; lia).
      unfold date_of_parts. simpl. f_equal. f_equal. lia.
Qed.

(** ** Formatting then parsing *)

Lemma digit_not_continuation c : is_ascii_digit c = true → is_continuation c = false.
Proof. by destruct c as [[] [] [] [] [] [] [] []]. Qed.

Lemma format_pad_2 z :
  0 ≤ z ≤ 99 →
  ∃ a b, format_pad 2 z = String a (String b "") ∧ is_ascii_digit a = true ∧
    is_ascii_digit b = true ∧ parse_u32 (String a (String b "")) = Some z.
Proof.
  intros Hz.
  assert (forallb (λ z,
    match format_pad 2 z with
    | String a (String b "") => is_ascii_digit a && is_ascii_digit b
        && bool_decide (parse_u32 (String a (String b "")) = Some z)
    | _ => false
    end) (seqZ 0 100) = true) as H by (vm_compute; reflexivity).
  rewrite forallb_forall in H. specialize (H z). rewrite <- list_elem_of_In, elem_of_seqZ in H.
  specialize (H ltac:(lia)). destruct (format_pad 2 z) as [|a [|b []]]; try done.
  bool_prop. eauto 10.
Qed.

Lemma format_pad_4 z :
  1000 ≤ z ≤ 9999 →
  ∃ a b c d, format_pad 4 z = String a (String b (String c (String d ""))) ∧
    is_ascii_digit a = true ∧ is_ascii_digit b = true ∧ is_ascii_digit c = true ∧
    is_ascii_digit d = true ∧ parse_i64 (String a (String b (String c (String d "")))) = Some z.
Proof.
  intros Hz. set (n := Z.to_N z).
  assert (pretty z = pretty_N_go n "") as Hp.
  { unfold pretty, pretty_Z. destruct z as [|p|p]; [lia| |lia]. done. }
  rewrite 4 pretty_N_go_step in Hp by lia.
  replace (n / 10 / 10 / 10 / 10)%N with 0%N in Hp by lia. rewrite pretty_N_go_0 in Hp.
  pose proof (pretty_N_char_digit (n `mod` 10)%N ltac:(lia)) as [D0 V0].
  pose proof (pretty_N_char_digit ((n / 10) `mod` 10)%N ltac:(lia)) as [D1 V1].
  pose proof (pretty_N_char_digit ((n / 10 / 10) `mod` 10)%N ltac:(lia)) as [D2 V2].
  pose proof (pretty_N_char_digit ((n / 10 / 10 / 10) `mod` 10)%N ltac:(lia)) as [D3 V3].
  eexists _, _, _, _. unfold format_pad. rewrite Hp. split; [reflexivity|].
  split_and!; [done..|]. unfold parse_i64, parse_signed.
  destruct (digit_not_sign _ D3) as [Hplus Hminus].
  rewrite !decide_False by done. simpl. rewrite D0, D1, D2, D3, V0, V1, V2, V3. simpl.
  rewrite (proj2 (andb_true_iff _ _)); [f_equal; lia|].
  rewrite !Z.leb_le. unfold i64_min, i64_max. lia.
Qed.

(** Reading the fields of a timestamp in the form the formatter writes. *)
Lemma parse_formatted y1 y2 y3 y4 mo1 mo2 d1 d2 h1 h2 mi1 mi2 s1 s2 Y Mo D H Mi S :
  forallb is_ascii_digit [y1; y2; y3; y4; mo1; mo2; d1; d2; h1; h2; mi1; mi2; s1; s2] = true →
  parse_i64 (String y1 (String y2 (String y3 (String y4 "")))) = Some Y →
  parse_u32 (String mo1 (String mo2 "")) = Some Mo → parse_u32 (String d1 (String d2 "")) = Some D →
  parse_u32 (String h1 (String h2 "")) = Some H → parse_u32 (String mi1 (String mi2 "")) = Some Mi →
  parse_u32 (String s1 (String s2 "")) = Some S →
  1 ≤ Mo ≤ 12 → 1 ≤ D ≤ 31 → 0 ≤ H ≤ 23 → 0 ≤ Mi ≤ 59 → 0 ≤ S ≤ 60 →
  parse_rfc3339_to_unix (String.string_of_list_ascii
    [y1; y2; y3; y4; "-"; mo1; mo2; "-"; d1; d2; "T"; h1; h2; ":"; mi1; mi2; ":"; s1; s2; "Z"]%char)
  = Some (days_from_civil Y Mo D * 86400 + H * 3600 + Mi * 60 + S).
Proof.
  intros Hdig HY HMo HD HH HMi HS ? ? ? ? ?. simpl in Hdig. bool_prop.
  repeat match goal with H : is_ascii_digit _ = true |- _ => apply digit_not_continuation in H end.
  unfold parse_rfc3339_to_unix. simpl String.string_of_list_ascii.
  unfold str_get, is_char_boundary, byte_is; simpl.
  repeat match goal with H : is_continuation _ = false |- _ => rewrite H end. simpl.
  rewrite HY; simpl. rewrite HMo; simpl. rewrite HD; simpl. rewrite HH; simpl.
  rewrite HMi; simpl. rewrite HS; simpl.
  replace (negb _ || negb _ || _ || _ || _) with false by lia. f_equal. lia.
Qed.

Lemma civil_year_bounds d year month day :
  0 ≤ d ≤ 2932896 → civil_from_days d = (year, month, day) → 1000 ≤ year ≤ 9999.
Proof.
  intros Hd Hc. destruct (civil_from_days_decompose d)
    as (era & y & doy & He & Hy & Hdoy & _ & -> & Hc'); [lia|].
  rewrite Hc' in Hc. unfold date_of_parts in Hc. injection Hc as <- _ _.
  pose proof (month_of_bounds doy Hdoy).
  assert (month_of doy < 10 ∨ 306 ≤ doy) as Hm by (unfold month_of; lia).
  pose proof (ystart_mono 0 y ltac:(lia)). pose proof (ystart_mono y 399 ltac:(lia)).
  change (ystart 0) with 0 in *. change (ystart 399) with 145731 in *.
  assert (4 ≤ era ≤ 24) by lia.
  destruct (month_of doy <? 10) eqn:E.
  - replace (month_of doy + 3 <=? 2) with false by lia. lia.
  - replace (month_of doy - 9 <=? 2) with true by lia.
    destruct (decide (y = 399 ∧ era = 24)) as [[-> ->]|]; [|lia].
    change (ystart 399) with 145731 in *. lia.
Qed.

(** Formatting a Unix time as RFC 3339 and parsing it back gives the same
    time, for every second from the epoch to the end of year 9999 (later years
    are written with five digits, which the parser does not read). *)
Theorem rfc3339_roundtrip (secs : Z) :
  0 ≤ secs ≤ 253402300799 → parse_rfc3339_to_unix (unix_to_rfc3339 secs) = Some secs.
Proof.
  intros Hs. unfold unix_to_rfc3339.
  destruct (civil_from_days (Z.quot secs 86400)) as [[year month] day] eqn:Hc.
  assert (0 ≤ Z.quot secs 86400 ≤ 2932896) as Hd by lia.
  pose proof (civil_year_bounds _ _ _ _ Hd Hc) as Hy.
  destruct (civil_roundtrip (Z.quot secs 86400) year month day ltac:(lia) Hc) as (Hdays & Hm & Hday).
  destruct (format_pad_4 year) as (y1 & y2 & y3 & y4 & -> & ? & ? & ? & ? & HY); [lia|].
  destruct (format_pad_2 month) as (mo1 & mo2 & -> & ? & ? & HMo); [lia|].
  destruct (format_pad_2 day) as (d1 & d2 & -> & ? & ? & HD); [lia|].
  destruct (format_pad_2 (Z.quot (Z.rem secs 86400) 3600)) as (h1 & h2 & -> & ? & ? & HH); [lia|].
  destruct (format_pad_2 (Z.quot (Z.rem (Z.rem secs 86400) 3600) 60)) as (mi1 & mi2 & -> & ? & ? & HMi); [lia|].
  destruct (format_pad_2 (Z.rem (Z.rem secs 86400) 60)) as (s1 & s2 & -> & ? & ? & HS); [lia|].
  etrans.
  { eapply (parse_formatted y1 y2 y3 y4 mo1 mo2 d1 d2 h1 h2 mi1 mi2 s1 s2); [|eassumption..| | | | |];
      try lia.
    simpl. by repeat match goal with H : is_ascii_digit _ = true |- _ => rewrite H; clear H end. }
  rewrite Hdays. f_equal. lia.
Qed.
Lemma rfc3339_roundtrip_witness :
  parse_rfc3339_to_unix (unix_to_rfc3339 1780401900) = Some 1780401900.
Proof. apply (rfc3339_roundtrip 1780401900). lia. Defined.

(** The parser reads a timestamp by its first characters only: after a [Z]
    designator any further text is ignored, so a string such as
    [2026-06-02T12:05:00Z] followed by arbitrary characters is accepted as that
    instant rather than rejected as malformed. *)
Theorem parse_ignores_trailing_text (t : string) :
  parse_rfc3339_to_unix ("2026-06-02T12:05:00Z" +:+ t) = Some 1780401900.
Proof. reflexivity. Qed.

(** ** No overflow *)

Lemma parse_digits_bound s acc z :
  0 ≤ acc → parse_digits acc s = Some z → acc ≤ z < (acc + 1) * 10 ^ Z.of_nat (String.length s).
Proof.
  revert acc. induction s as [|c s IH]; intros acc Ha H; simpl in H.
  { simplify_eq. simpl. lia. }
  destruct (is_ascii_digit c) eqn:Hc; [|done].
  assert (0 ≤ Z.of_N (byte_of c) - 48 ≤ 9) as Hb.
  { unfold is_ascii_digit in Hc. apply andb_true_iff in Hc as [?%N.leb_le ?%N.leb_le]. lia. }
  apply IH in H; [|lia]. simpl String.length. rewrite Nat2Z.inj_succ, Z.pow_succ_r by lia.
  pose proof (Z.pow_pos_nonneg 10 (Z.of_nat (String.length s))).
  split; [lia|]. destruct H as [_ H]. eapply Z.lt_le_trans; [exact H|].
  rewrite Z.mul_assoc. apply Z.mul_le_mono_nonneg_r; lia.
Qed.

Lemma substring_length a n s : (String.length (String.substring a n s) ≤ n)%nat.
Proof.
  revert a n. induction s as [|c s IH]; intros [|a] [|n]; simpl; try lia; auto using le_n_S.
Qed.

Lemma str_get_length s a b r : str_get s a b = Some r → (String.length r ≤ b - a)%nat.
Proof. unfold str_get. destruct (_ && _); [|done]. intros [= <-]. apply substring_length. Qed.

Lemma parse_i64_bound k s z :
  (String.length s ≤ k)%nat → parse_i64 s = Some z → Z.abs z < 10 ^ Z.of_nat k.
Proof.
  intros Hk. unfold parse_i64, parse_signed.
  assert (∀ s' z', (String.length s' ≤ k)%nat → parse_digits 0 s' = Some z' → Z.abs z' < 10 ^ Z.of_nat k) as Hd.
  { intros s' z' Hk' H. apply parse_digits_bound in H; [|lia].
    assert (10 ^ Z.of_nat (String.length s') ≤ 10 ^ Z.of_nat k) by (apply Z.pow_le_mono_r; lia). lia. }
  destruct s as [|c r]; [done|]. simpl in Hk. case_decide as E1; [|case_decide as E2].
  - destruct r as [|c' r]; [done|]. intros (z' & Hz & H)%bind_Some. apply Hd in Hz; [|lia]. by crush_match.
  - destruct r as [|c' r]; [done|]. intros (z' & Hz & H)%bind_Some. apply Hd in Hz; [|lia]. crush_match; lia.
  - intros (z' & Hz & H)%bind_Some. apply Hd in Hz; [|simpl; lia]. by crush_match.
Qed.

Lemma parse_u32_nonneg s z : parse_u32 s = Some z → 0 ≤ z.
Proof.
  unfold parse_u32, parse_unsigned. destruct s as [|c r]; [done|].
  case_decide as E1; [destruct r; [done|]|]; intros (z' & Hz%parse_digits_bound & H)%bind_Some;
    crush_match; lia.
Qed.

Lemma days_from_civil_bound y m d :
  Z.abs y < 10 ^ 4 → 1 ≤ m ≤ 12 → 1 ≤ d ≤ 31 → Z.abs (days_from_civil y m d) < 10 ^ 7.
Proof.
  intros Hy Hm Hd. unfold days_from_civil.
  destruct (m <=? 2) eqn:E1, (2 <? m) eqn:E2; try lia;
    match goal with |- context [0 <=? ?e] => destruct (0 <=? e) eqn:E3 end; lia.
Qed.

Lemma parse_offset_bound s z : parse_offset s = Some z → Z.abs z < 10 ^ 6.
Proof.
  unfold parse_offset. destruct (byte_at s 0) as [c|]; [|done].
  destruct (_ || _); [intros [= <-]; lia|]. destruct (_ || _); [|done].
  intros (oh & (r1 & Hr1%str_get_length & Ho)%bind_Some & H)%bind_Some.
  apply (parse_i64_bound 2) in Ho; [|lia].
  destruct (byte_is s 3 ":"); apply bind_Some in H as (om & (r2 & Hr2%str_get_length & Hm)%bind_Some & H);
    (apply (parse_i64_bound 2) in Hm; [|lia]); simplify_eq; case_bool_decide; lia.
Qed.

(** A [u32] field of the timestamp, then the rest of the parser. *)
Lemma u32_field_inv s a b (f : Z → option Z) t :
  (str_get s a b ≫= parse_u32) ≫= f = Some t → ∃ v, 0 ≤ v ∧ f v = Some t.
Proof. intros (v & (r & _ & Hv)%bind_Some & H)%bind_Some. apply parse_u32_nonneg in Hv. eauto. Qed.

(** The parser cannot overflow [i64]: whatever string it is given, the
    instant it returns is below 10^12 seconds in magnitude. *)
Theorem parse_rfc3339_bounds (s : string) (t : Z) :
  parse_rfc3339_to_unix s = Some t → Z.abs t < 10 ^ 12.
Proof.
  unfold parse_rfc3339_to_unix. intros H.
  destruct (Nat.ltb _ 20); [done|].
  apply bind_Some in H as (y & (r1 & Hr1%str_get_length & Hy)%bind_Some & H).
  apply (parse_i64_bound 4) in Hy; [|lia].
  destruct (negb _); [done|]. apply u32_field_inv in H as (mo & Hmo & H).
  destruct (negb _); [done|]. apply u32_field_inv in H as (d & Hd & H).
  destruct (_ && _); [done|]. apply u32_field_inv in H as (h & Hh & H).
  destruct (negb _); [done|]. apply u32_field_inv in H as (mi & Hmi & H).
  destruct (negb _); [done|]. apply u32_field_inv in H as (sec & Hsec & H).
  apply bind_Some in H as (rest & _ & H). apply bind_Some in H as (off & Hoff & H).
  apply parse_offset_bound in Hoff. destruct (_ || _) eqn:Hr; [done|].
  pose proof (days_from_civil_bound y mo d) as Hb. simplify_eq. lia.
Qed.
Lemma parse_rfc3339_bounds_witness : Z.abs 1780401900 < 10 ^ 12.
Proof. apply (parse_rfc3339_bounds "2026-06-02T12:05:00Z"). vm_compute. reflexivity. Defined.
