(* ===== verification/Replay.v ===== *)
(** * The nonce replay cache

    Models [crates/mx-agent-daemon/src/replay.rs].  A [HashMap] is a [gmap];
    its iteration order is unspecified, so the eviction scan takes the order as
    an argument ([hash_iter], any enumeration of the entries).  The cache file
    is modelled by its contents: the JSON codec is third-party code and is an
    argument too, and whether the operating system calls of [persist] and of
    the quarantine rename succeed is an input of each call. *)
From Stdlib Require Import Ascii ZArith.
From stdpp Require Import gmap strings list fin_maps.
From S2P Require Import Prelude RustStr Time.
Local Open Scope Z_scope.

(** ** Data *)

Definition DEFAULT_CAPACITY : nat := Z.to_nat 8192.

Inductive ReplayError :=
| Expired | Replayed | MalformedTimestamp | Corrupt | ReplayIo (kind : string).

#[export] Instance ReplayError_eq_dec : EqDecision ReplayError.
Proof. solve_decision. Defined.

Record StoredCache := mkStored { st_capacity : nat; st_nonces : gmap string Z }.

Record ReplayCache := mkCache { capacity : nat; nonces : gmap string Z }.

(** What [fs::read] finds at a path. *)
Inductive FileState := Absent | Present (bytes : string) | Unreadable (kind : string).

(** The cache file and its quarantine sibling [replay_cache.json.corrupt]. *)
Record CacheFs := mkFs { cache_file : FileState; quarantine_file : option string }.

Section replay.
(** An enumeration of a [HashMap]'s entries. *)
Context (hash_iter : gmap string Z → list (string * Z)).
(** [serde_json::to_vec] and [from_slice] on [StoredCache]. *)
Context (to_vec : StoredCache → string) (from_slice : string → option StoredCache).

Definition prune_expired (now : Z) (m : gmap string Z) : gmap string Z :=
  filter (λ kv, now < kv.2) m.

(** [iter().min_by_key(|(_, &exp)| exp)]: the first least element. *)
Definition min_by_key (l : list (string * Z)) : option (string * Z) :=
  match l with
  | [] => None
  | x :: l => Some (foldl (λ best y, if y.2 <? best.2 then y else best) x l)
  end.

(** The eviction loop: [while nonces.len() >= capacity]; each round removes an
    entry, so the number of entries is enough fuel ([evict_bound]). *)
Fixpoint evict (fuel : nat) (cap : nat) (m : gmap string Z) : gmap string Z :=
  match fuel with
  | O => m
  | S fuel =>
      if (cap <=? size m)%nat then
        match min_by_key (hash_iter m) with
        | Some (victim, _) => evict fuel cap (delete victim m)
        | None => m
        end
      else m
  end.

(** [persist]: the rename happens last, so a failed step leaves the old file. *)
Definition persist (io : option string) (fs : CacheFs) (c : ReplayCache)
    : CacheFs * result unit ReplayError :=
  match io with
  | Some kind => (fs, Err (ReplayIo kind))
  | None => (mkFs (Present (to_vec (mkStored (capacity c) (nonces c)))) (quarantine_file fs), Ok tt)
  end.

Definition admit_at (io : option string) (fs : CacheFs) (c : ReplayCache)
    (nonce expires_at : string) (now : Z) : CacheFs * ReplayCache * result unit ReplayError :=
  match parse_rfc3339_to_unix expires_at with
  | None => (fs, c, Err MalformedTimestamp)
  | Some expiry =>
      if expiry <=? now then (fs, c, Err Expired)
      else if bool_decide (is_Some (nonces c !! nonce)) then (fs, c, Err Replayed)
      else
        let pruned := prune_expired now (nonces c) in
        let kept := evict (size pruned) (capacity c) pruned in
        let c' := mkCache (capacity c) (<[nonce := expiry]> kept) in
        let '(fs', r) := persist io fs c' in (fs', c', r)
  end.

Definition forget (io : option string) (fs : CacheFs) (c : ReplayCache) (nonce : string)
    : CacheFs * ReplayCache * result unit ReplayError :=
  match nonces c !! nonce with
  | Some _ =>
      let c' := mkCache (capacity c) (delete nonce (nonces c)) in
      let '(fs', r) := persist io fs c' in (fs', c', r)
  | None => (fs, c, Ok tt)
  end.

(** [quarantine_corrupt]: move the file aside, best effort. *)
Definition quarantine_corrupt (rename_ok : bool) (fs : CacheFs) (bytes : string) : CacheFs :=
  if rename_ok then mkFs Absent (Some bytes) else fs.

Definition load_with_capacity (rename_ok : bool) (fs : CacheFs) (cap : nat) (now : Z)
    : CacheFs * result ReplayCache ReplayError :=
  match quarantine_file fs with
  | Some _ => (fs, Err Corrupt)
  | None =>
      match cache_file fs with
      | Present bytes =>
          match from_slice bytes with
          | Some stored =>
              (fs, Ok (mkCache (max (st_capacity stored) 1) (prune_expired now (st_nonces stored))))
          | None => (quarantine_corrupt rename_ok fs bytes, Err Corrupt)
          end
      | Absent => (fs, Ok (mkCache (max cap 1) (prune_expired now ∅)))
      | Unreadable kind => (fs, Err (ReplayIo kind))
      end
  end.
Definition load (rename_ok : bool) (fs : CacheFs) (now : Z) : CacheFs * result ReplayCache ReplayError :=
  load_with_capacity rename_ok fs DEFAULT_CAPACITY now.
End replay.

(** ** Pruning and eviction *)

Lemma prune_expired_lookup now m k e :
  prune_expired now m !! k = Some e ↔ m !! k = Some e ∧ now < e.
Proof. unfold prune_expired. by rewrite map_lookup_filter_Some. Qed.

Lemma prune_expired_size now m : (size (prune_expired now m) ≤ size m)%nat.
Proof. unfold prune_expired. apply map_subseteq_size, map_filter_subseteq. Qed.

Lemma min_fold_spec l x :
  let r := foldl (λ best y : string * Z, if y.2 <? best.2 then y else best) x l in
  r ∈ x :: l ∧ ∀ y, y ∈ x :: l → r.2 ≤ y.2.
Proof.
  revert x. induction l as [|a l IH]; intros x; simpl.
  { split; [left|]. by intros y ->%list_elem_of_singleton. }
  destruct (IH (if a.2 <? x.2 then a else x)) as [Hin Hle]. simpl in *. split.
  - destruct (a.2 <? x.2); set_solver.
  - intros y Hy. destruct (a.2 <? x.2) eqn:E; bool_prop;
      (assert (y = x ∨ y = a ∨ y ∈ l) as [->|[->|Hl]] by set_solver);
      try (apply Hle; set_solver);
      match goal with |- _ ≤ (?v).2 => pose proof (Hle a); pose proof (Hle x) end.
    + specialize (H (list_elem_of_here _ _)). lia.
    + specialize (H0 (list_elem_of_here _ _)). lia.
Qed.

Lemma min_by_key_Some l x : min_by_key l = Some x → x ∈ l ∧ ∀ y, y ∈ l → x.2 ≤ y.2.
Proof. destruct l as [|a l]; simpl; [done|]. intros [= <-]. apply min_fold_spec. Qed.

Lemma min_by_key_None l : min_by_key l = None ↔ l = [].
Proof. by destruct l. Qed.

Section eviction.
Context (hash_iter : gmap string Z → list (string * Z)).
Context (hash_iter_perm : ∀ m, hash_iter m ≡ₚ map_to_list m).

Lemma elem_of_hash_iter m k e : (k, e) ∈ hash_iter m ↔ m !! k = Some e.
Proof using hash_iter_perm. by rewrite hash_iter_perm, elem_of_map_to_list. Qed.

Lemma hash_iter_nil m : hash_iter m = [] → m = ∅.
Proof using hash_iter_perm.
  intros H. apply map_empty. intros k. destruct (m !! k) as [e|] eqn:Hk; [|done].
  apply elem_of_hash_iter in Hk. rewrite H in Hk. set_solver.
Qed.

(** The loop needs no more rounds than there are entries and ends below the bound. *)
Lemma evict_bound fuel cap m :
  (0 < cap)%nat → (size m ≤ fuel)%nat → (size (evict hash_iter fuel cap m) < cap)%nat.
Proof using hash_iter_perm.
  intros Hcap. revert m. induction fuel as [|fuel IH]; intros m Hf; simpl; [lia|].
  destruct (Nat.leb_spec cap (size m)); [|done].
  destruct (min_by_key _) as [[v e]|] eqn:Hv.
  - apply min_by_key_Some in Hv as [Hv _]. apply elem_of_hash_iter in Hv.
    apply IH. rewrite map_size_delete_Some by eauto. lia.
  - apply min_by_key_None, hash_iter_nil in Hv as ->. rewrite map_size_empty in *. lia.
Qed.

Lemma evict_noop fuel cap m : (size m < cap)%nat → evict hash_iter fuel cap m = m.
Proof. destruct fuel; simpl; [done|]. intros. by rewrite (proj2 (Nat.leb_gt _ _)). Qed.

Lemma evict_subset fuel cap m : evict hash_iter fuel cap m ⊆ m.
Proof.
  revert m. induction fuel as [|fuel IH]; intros m; simpl; [done|].
  destruct (_ <=? _)%nat; [|done]. destruct (min_by_key _) as [[v e]|]; [|done].
  etrans; [apply IH|]. apply delete_subseteq.
Qed.

(** What eviction drops expires no later than anything it keeps. *)
Lemma evict_soonest fuel cap m k e k' e' :
  m !! k = Some e → evict hash_iter fuel cap m !! k = None →
  evict hash_iter fuel cap m !! k' = Some e' → e ≤ e'.
Proof using hash_iter_perm.
  revert m. induction fuel as [|fuel IH]; intros m Hk Hn Hk'; simpl in *; [congruence|].
  destruct (_ <=? _)%nat; [|congruence].
  destruct (min_by_key _) as [[v ev]|] eqn:Hv; [|congruence].
  destruct (decide (v = k)) as [->|Hne].
  - apply min_by_key_Some in Hv as [Hv Hmin]. apply elem_of_hash_iter in Hv.
    assert (m !! k' = Some e') as Hk''.
    { apply (lookup_weaken _ _ _ _ Hk'). etrans; [apply evict_subset|apply delete_subseteq]. }
    apply elem_of_hash_iter in Hk''. specialize (Hmin _ Hk''). simpl in Hmin. congruence.
  - eapply IH; [|done|done]. by rewrite lookup_delete_ne.
Qed.
End eviction.

(** ** The cache as a whole *)

Definition cache_wf (c : ReplayCache) : Prop :=
  (0 < capacity c)%nat ∧ (size (nonces c) ≤ capacity c)%nat.

(** The specification of one admission: three denials that change nothing, and
    an admission that records exactly the nonce. *)
Inductive admit_spec (c : ReplayCache) (nonce expires_at : string) (now : Z)
    : ReplayCache → result unit ReplayError → Prop :=
| AdmitMalformed : parse_rfc3339_to_unix expires_at = None →
    admit_spec c nonce expires_at now c (Err MalformedTimestamp)
| AdmitExpired e : parse_rfc3339_to_unix expires_at = Some e → e ≤ now →
    admit_spec c nonce expires_at now c (Err Expired)
| AdmitReplayed e : parse_rfc3339_to_unix expires_at = Some e → now < e →
    is_Some (nonces c !! nonce) → admit_spec c nonce expires_at now c (Err Replayed)
| AdmitRecord e c' r : parse_rfc3339_to_unix expires_at = Some e → now < e →
    nonces c !! nonce = None →
    capacity c' = capacity c → nonces c' !! nonce = Some e →
    (** nothing is invented, and nothing kept has expired *)
    (∀ k x, k ≠ nonce → nonces c' !! k = Some x → nonces c !! k = Some x ∧ now < x) →
    (** an unexpired entry is dropped only for entries that outlive it *)
    (∀ k x k' x', nonces c !! k = Some x → now < x → nonces c' !! k = None →
       k' ≠ nonce → nonces c' !! k' = Some x' → x ≤ x') →
    (** and only when the cache is full *)
    ((size (nonces c) < capacity c)%nat → ∀ k x, nonces c !! k = Some x → now < x →
       nonces c' !! k = Some x) →
    (r = Ok tt ∨ ∃ kind, r = Err (ReplayIo kind)) →
    admit_spec c nonce expires_at now c' r.

Section replay_correct.
Context (hash_iter : gmap string Z → list (string * Z)).
Context (hash_iter_perm : ∀ m, hash_iter m ≡ₚ map_to_list m).
Context (to_vec : StoredCache → string).

Lemma admit_at_meets_spec io fs c nonce expires_at now fs' c' r :
  admit_at hash_iter to_vec io fs c nonce expires_at now = (fs', c', r) →
  admit_spec c nonce expires_at now c' r.
Proof using hash_iter_perm.
  unfold admit_at. destruct (parse_rfc3339_to_unix expires_at) as [e|] eqn:He.
  2:{ intros [= <- <- <-]. by constructor. }
  destruct (Z.leb_spec e now) as [Hle|Hgt].
  { intros [= <- <- <-]. by eapply AdmitExpired. }
  case_bool_decide as Hin.
  { intros [= <- <- <-]. by eapply AdmitReplayed. }
  set (m := prune_expired now (nonces c)). set (k0 := evict _ _ _ _). intros Hp.
  assert (c' = mkCache (capacity c) (<[nonce:=e]> k0) ∧ (r = Ok tt ∨ ∃ kind, r = Err (ReplayIo kind)))
    as [-> Hr] by (unfold persist in Hp; destruct io; simplify_eq; eauto).
  assert (k0 ⊆ m) as Hsub by apply evict_subset.
  eapply AdmitRecord; simpl; try done.
  - by apply eq_None_not_Some.
  - apply lookup_insert_eq.
  - intros k x Hne. rewrite lookup_insert_ne by done. intros Hk.
    eapply lookup_weaken in Hk; [|done]. by apply prune_expired_lookup.
  - intros k x k' x' Hk Hx Hn Hne Hk'. rewrite lookup_insert_ne in Hk' by done.
    apply lookup_insert_None in Hn as [Hn _].
    assert (m !! k = Some x) by by apply prune_expired_lookup.
    eapply (evict_soonest hash_iter hash_iter_perm); done.
  - intros Hsz k x Hk Hx. assert (m !! k = Some x) as Hm by by apply prune_expired_lookup.
    rewrite lookup_insert_ne.
    + unfold k0. rewrite evict_noop; [done|].
      pose proof (prune_expired_size now (nonces c)). unfold m. lia.
    + intros <-. apply Hin. by rewrite Hk.
Qed.

Lemma admit_at_wf io fs c nonce expires_at now fs' c' r :
  admit_at hash_iter to_vec io fs c nonce expires_at now = (fs', c', r) → cache_wf c → cache_wf c'.
Proof using hash_iter_perm.
  unfold admit_at. intros H [Hc Hs]. destruct (parse_rfc3339_to_unix expires_at); [|by simplify_eq].
  destruct (_ <=? now); [by simplify_eq|]. case_bool_decide; [by simplify_eq|].
  set (m := prune_expired now (nonces c)) in H. set (k0 := evict _ _ _ _) in H.
  assert (c' = mkCache (capacity c) (<[nonce:=z]> k0)) as ->
    by (unfold persist in H; by destruct io; simplify_eq).
  split; [done|]. simpl.
  pose proof (evict_bound hash_iter hash_iter_perm (size m) (capacity c) m Hc ltac:(lia)) as Hb.
  fold k0 in Hb. destruct (k0 !! nonce) eqn:E.
  - rewrite map_size_insert_Some by eauto. lia.
  - rewrite map_size_insert_None by done. lia.
Qed.

(** A run of admissions with their clock readings, persisting or not. *)
Record admit_op := mkAdmitOp { op_io : option string; op_nonce : string; op_expires : string; op_now : Z }.
Fixpoint run_admits (ops : list admit_op) (fs : CacheFs) (c : ReplayCache) : CacheFs * ReplayCache :=
  match ops with
  | [] => (fs, c)
  | o :: ops =>
      let '(fs', c', _) := admit_at hash_iter to_vec (op_io o) fs c (op_nonce o) (op_expires o) (op_now o) in
      run_admits ops fs' c'
  end.

(** While there is room, an unexpired nonce stays through any admissions. *)
Lemma run_admits_keeps ops fs c fs' c' n e limit :
  run_admits ops fs c = (fs', c') →
  nonces c !! n = Some e → limit < e → Forall (λ o, op_now o ≤ limit) ops →
  (size (nonces c) + length ops ≤ capacity c)%nat → nonces c' !! n = Some e.
Proof using hash_iter_perm.
  revert fs c. induction ops as [|o ops IH]; intros fs c Hrun Hn Hl Ht Hsz; simpl in *.
  { by simplify_eq. }
  apply Forall_cons in Ht as [Ho Ht].
  destruct (admit_at hash_iter to_vec _ _ _ _ _ _) as [[fs1 c1] r] eqn:Ha.
  assert (capacity c1 = capacity c ∧ nonces c1 !! n = Some e ∧
          (size (nonces c1) ≤ S (size (nonces c)))%nat) as (Hcap & Hn1 & Hs1).
  { pose proof Ha as Hsp. apply admit_at_meets_spec in Hsp.
    inversion Hsp as [| | |e' c'' r' He' Hlt Hfresh Hcap Hnew Hold _ Hkeep _]; subst;
      [split_and!; [done|done|lia]..|].
    split_and!; [done|apply Hkeep; [lia|done|lia]|].
    assert (nonces c1 ⊆ <[op_nonce o:=e']> (nonces c)) as Hsub.
    { apply map_subseteq_spec. intros k x Hk. destruct (decide (k = op_nonce o)) as [->|Hne].
      - rewrite lookup_insert_eq. congruence.
      - rewrite lookup_insert_ne by done. by apply Hold. }
    apply map_subseteq_size in Hsub. rewrite map_size_insert_None in Hsub by done. lia. }
  eapply IH; [done|done|done|done|]. lia.
Qed.
End replay_correct.

(** ** Properties *)

(** C13: [admit_at] meets its specification on every path.  A malformed, an
    expired and a replayed request leave the cache and its file untouched; an
    admitted request records exactly its nonce with its expiry, keeps only
    unexpired entries of the old cache, drops an unexpired entry only when the
    cache is full and only in favour of entries that expire no earlier, and
    reports either success or the failed persist. *)
Theorem admit_at_correct (hash_iter : gmap string Z → list (string * Z))
    (to_vec : StoredCache → string) (io : option string) (fs fs' : CacheFs) (c c' : ReplayCache)
    (nonce expires_at : string) (now : Z) (r : result unit ReplayError) :
  (∀ m, hash_iter m ≡ₚ map_to_list m) →
  admit_at hash_iter to_vec io fs c nonce expires_at now = (fs', c', r) →
  admit_spec c nonce expires_at now c' r ∧
  (cache_wf c → cache_wf c') ∧
  (r = Err MalformedTimestamp ∨ r = Err Expired ∨ r = Err Replayed → fs' = fs ∧ c' = c) ∧
  (r = Ok tt → cache_file fs' = Present (to_vec (mkStored (capacity c') (nonces c')))).
Proof.
  intros Hperm Ha. pose proof Ha as Hsp. apply admit_at_meets_spec in Hsp; [|done].
  split_and!; [done|by eapply admit_at_wf| |].
  - unfold admit_at, persist in Ha. crush_match; naive_solver.
  - unfold admit_at, persist in Ha. intros ->. crush_match; done.
Qed.
Definition sample_iter (m : gmap string Z) : list (string * Z) := map_to_list m.
Lemma admit_at_correct_witness :
  admit_spec (mkCache 2 ∅) "n1" "2026-06-02T12:05:00Z" 100
    (mkCache 2 {["n1" := 1780401900]}) (Ok tt).
Proof.
  apply (admit_at_correct sample_iter (λ _, "") None (mkFs Absent None)
    (mkFs (Present "") None) (mkCache 2 ∅) (mkCache 2 {["n1" := 1780401900]})
    "n1" "2026-06-02T12:05:00Z" 100 (Ok tt)); [done|vm_compute; reflexivity].
Defined.

(** C6: no replay inside the validity window.  After a nonce was admitted, and
    as long as the cache has room for the admissions in between, a second
    request with the same nonce is never admitted before the first one's expiry,
    whatever other requests (admitted or denied, persisted or not) were
    processed meanwhile and whatever expiry the second request claims. *)
Theorem no_double_admission (hash_iter : gmap string Z → list (string * Z))
    (to_vec : StoredCache → string) (io io2 : option string) (fs fs1 fs2 fs3 : CacheFs)
    (c c1 c2 c3 : ReplayCache) (nonce expires expires2 : string) (e now now2 : Z)
    (ops : list admit_op) (r r2 : result unit ReplayError) :
  (∀ m, hash_iter m ≡ₚ map_to_list m) →
  admit_at hash_iter to_vec io fs c nonce expires now = (fs1, c1, r) →
  nonces c1 !! nonce = Some e →
  run_admits hash_iter to_vec ops fs1 c1 = (fs2, c2) →
  Forall (λ o, op_now o ≤ now2) ops →
  (size (nonces c1) + length ops ≤ capacity c1)%nat →
  now2 < e →
  admit_at hash_iter to_vec io2 fs2 c2 nonce expires2 now2 = (fs3, c3, r2) →
  r2 ≠ Ok tt.
Proof.
  intros Hperm _ Hn Hrun Ht Hsz He Ha2 ->.
  assert (nonces c2 !! nonce = Some e) as Hn2 by by eapply run_admits_keeps.
  apply admit_at_meets_spec in Ha2; [|done].
  inversion Ha2 as [| | |? ? ? ? ? Hfresh]; congruence.
Qed.
Lemma no_double_admission_witness :
  (admit_at sample_iter (λ _, "") None (mkFs (Present "") None)
     (mkCache 2 {["n1" := 1780401900]}) "n1" "2026-06-02T12:06:00Z" 200).2 ≠ Ok tt.
Proof.
  apply (no_double_admission sample_iter (λ _, "") None None (mkFs Absent None)
    (mkFs (Present "") None) (mkFs (Present "") None) (mkFs (Present "") None)
    (mkCache 2 ∅) (mkCache 2 {["n1" := 1780401900]}) (mkCache 2 {["n1" := 1780401900]})
    (mkCache 2 {["n1" := 1780401900]}) "n1" "2026-06-02T12:05:00Z" "2026-06-02T12:06:00Z"
    1780401900 100 200 [mkAdmitOp None "n2" "1970-01-01T00:00:01Z" 150] (Ok tt));
    [done|by vm_compute|by vm_compute|by vm_compute|repeat constructor; simpl; lia
    |vm_compute; lia|lia|by vm_compute].
Defined.

(** Replay protection survives a restart.  After a successful admission,
    loading the cache from its file restores every unexpired nonce and the
    capacity, and a request that reuses the nonce before its expiry is still
    refused.  Relies on the JSON codec reading back what it wrote. *)
Theorem restart_preserves_protection (hash_iter : gmap string Z → list (string * Z))
    (to_vec : StoredCache → string) (from_slice : string → option StoredCache)
    (io io2 : option string) (fs fs1 fs2 fs3 : CacheFs) (c c1 c2 c3 : ReplayCache)
    (nonce expires expires2 : string) (now now2 : Z) (cap : nat) (rename_ok : bool)
    (r2 : result unit ReplayError) :
  (∀ m, hash_iter m ≡ₚ map_to_list m) →
  (∀ s, from_slice (to_vec s) = Some s) →
  quarantine_file fs = None →
  admit_at hash_iter to_vec io fs c nonce expires now = (fs1, c1, Ok tt) →
  load_with_capacity from_slice rename_ok fs1 cap now2 = (fs2, Ok c2) ∧
    admit_at hash_iter to_vec io2 fs2 c2 nonce expires2 now2 = (fs3, c3, r2) →
  nonces c2 = prune_expired now2 (nonces c1) ∧ capacity c2 = max (capacity c1) 1 ∧
  (∀ e, nonces c1 !! nonce = Some e → now2 < e → r2 ≠ Ok tt).
Proof.
  intros Hperm Hcodec Hq Ha [Hl Ha2].
  assert (fs1 = mkFs (Present (to_vec (mkStored (capacity c1) (nonces c1)))) None) as ->.
  { unfold admit_at, persist in Ha. crush_match; by rewrite <- Hq. }
  unfold load_with_capacity in Hl. simpl in Hl. rewrite Hcodec in Hl. simplify_eq/=.
  split_and!; [done..|]. intros e He Hlt ->.
  apply admit_at_meets_spec in Ha2; [|done].
  assert (prune_expired now2 (nonces c1) !! nonce = Some e) as Hn by by apply prune_expired_lookup.
  inversion Ha2 as [| | |? ? ? ? ? Hfresh]; simpl in *; congruence.
Qed.
(** A concrete codec: the entries' stdpp encoding, written in binary. *)
Module SampleCodec.
Fixpoint pos_bits (p : positive) : string :=
  match p with
  | xH => ""
  | xO p => String "0" (pos_bits p)
  | xI p => String "1" (pos_bits p)
  end.
Fixpoint bits_pos (s : string) : positive :=
  match s with
  | "" => xH
  | String c s => if decide (c = "1"%char) then xI (bits_pos s) else xO (bits_pos s)
  end.
Definition to_vec (s : StoredCache) : string :=
  pos_bits (encode (st_capacity s, map_to_list (st_nonces s))).
Definition from_slice (b : string) : option StoredCache :=
  '(cap, l) ← decode (A := nat * list (string * Z)) (bits_pos b);
  Some (mkStored cap (list_to_map l)).
Lemma bits_pos_bits p : bits_pos (pos_bits p) = p.
Proof. induction p; simpl; congruence. Qed.
Lemma codec_roundtrip s : from_slice (to_vec s) = Some s.
Proof.
  unfold from_slice, to_vec. rewrite bits_pos_bits, decode_encode. simpl.
  rewrite list_to_map_to_list. by destruct s.
Qed.
End SampleCodec.
Definition sample_cache : ReplayCache := mkCache 4 {["n1" := 1780401900]}.
Definition sample_fs : CacheFs :=
  mkFs (Present (SampleCodec.to_vec (mkStored 4 (nonces sample_cache)))) None.
Lemma restart_preserves_protection_witness :
  nonces (mkCache 4 ∅) = prune_expired 1780401900 (nonces sample_cache).
Proof.
  assert (admit_at sample_iter SampleCodec.to_vec None (mkFs Absent None) (mkCache 4 ∅)
            "n1" "2026-06-02T12:05:00Z" 100 = (sample_fs, sample_cache, Ok tt)) as H1.
  { unfold admit_at. change (parse_rfc3339_to_unix _) with (Some 1780401900). reflexivity. }
  assert (load_with_capacity SampleCodec.from_slice true sample_fs 1 1780401900
          = (sample_fs, Ok (mkCache 4 ∅))) as H2.
  { unfold load_with_capacity. cbn [quarantine_file cache_file sample_fs].
    rewrite SampleCodec.codec_roundtrip. reflexivity. }
  refine (proj1 (restart_preserves_protection sample_iter SampleCodec.to_vec SampleCodec.from_slice
    None None (mkFs Absent None) sample_fs sample_fs sample_fs
    (mkCache 4 ∅) sample_cache (mkCache 4 ∅) (mkCache 4 ∅)
    "n1" "2026-06-02T12:05:00Z" "" 100 1780401900 1 true (Err MalformedTimestamp)
    _ _ _ H1 (conj H2 _))).
  - done.
  - apply SampleCodec.codec_roundtrip.
  - done.
  - reflexivity.
Defined.

(** A sequence of loads (daemon restarts, scheduler passes) over one directory. *)
Fixpoint run_loads (from_slice : string → option StoredCache) (loads : list (bool * nat * Z))
    (fs : CacheFs) : list (result ReplayCache ReplayError) :=
  match loads with
  | [] => []
  | (rename_ok, cap, now) :: loads =>
      let '(fs', r) := load_with_capacity from_slice rename_ok fs cap now in
      r :: run_loads from_slice loads fs'
  end.

Lemma load_corrupt_again from_slice ro fs fs' cap now :
  load_with_capacity from_slice ro fs cap now = (fs', Err Corrupt) →
  ∀ ro' cap' now', (load_with_capacity from_slice ro' fs' cap' now').2 = Err Corrupt.
Proof.
  intros H ro' k' t'. unfold load_with_capacity in *.
  destruct (quarantine_file fs) eqn:Hq; [simplify_eq; by rewrite Hq|].
  destruct (cache_file fs) as [|bytes|] eqn:Hf; simplify_eq/=.
  destruct (from_slice bytes) eqn:Hb; simplify_eq/=.
  unfold quarantine_corrupt. destruct ro; simpl; [done|]. by rewrite Hq, Hf, Hb.
Qed.

(** A corrupt cache file fails closed for good: once a load reports
    corruption, every one of any number of later loads over what it left on
    disk reports corruption too, whether or not the file could be moved aside;
    the cache is never silently replaced by an empty one. *)
Theorem corrupt_stays_closed (from_slice : string → option StoredCache)
    (rename_ok : bool) (fs fs' : CacheFs) (cap : nat) (now : Z) (loads : list (bool * nat * Z)) :
  load_with_capacity from_slice rename_ok fs cap now = (fs', Err Corrupt) →
  Forall (λ r, r = Err Corrupt) (run_loads from_slice loads fs').
Proof.
  revert rename_ok fs fs' cap now. induction loads as [|[[ro' cap'] now'] loads IH];
    intros ro fs fs' cap now H; simpl; [constructor|].
  pose proof (load_corrupt_again _ _ _ _ _ _ H ro' cap' now') as H2.
  destruct (load_with_capacity from_slice ro' fs' cap' now') as [fs2 r2] eqn:E. simpl in H2. subst r2.
  constructor; [done|]. by eapply IH.
Qed.
Lemma corrupt_stays_closed_witness :
  Forall (λ r, r = Err Corrupt)
    (run_loads (λ _, None) [(true, 8%nat, 0); (false, 8%nat, 5)] (mkFs Absent (Some "junk"))).
Proof.
  apply (corrupt_stays_closed (λ _, None) true (mkFs (Present "junk") None)
           (mkFs Absent (Some "junk")) 8 0). reflexivity.
Defined.

(** Forgetting a nonce compensates its admission: after a successful
    [admit_at] and a successful [forget] of the same nonce, the same request is
    admitted again at the same time, so a task that lost its claim can retry. *)
Theorem forget_allows_retry (hash_iter : gmap string Z → list (string * Z))
    (to_vec : StoredCache → string) (fs fs1 fs2 : CacheFs) (c c1 c2 : ReplayCache)
    (nonce expires : string) (now : Z) :
  admit_at hash_iter to_vec None fs c nonce expires now = (fs1, c1, Ok tt) →
  forget to_vec None fs1 c1 nonce = (fs2, c2, Ok tt) →
  (admit_at hash_iter to_vec None fs2 c2 nonce expires now).2 = Ok tt ∧
  nonces c2 = delete nonce (nonces c1).
Proof.
  intros Ha Hf. unfold admit_at in *.
  destruct (parse_rfc3339_to_unix expires) as [e|]; [|by simplify_eq].
  destruct (e <=? now); [by simplify_eq|]. case_bool_decide; [by simplify_eq|]. simplify_eq/=.
  unfold forget in Hf. simpl in Hf. rewrite lookup_insert_eq in Hf. simplify_eq/=.
  rewrite lookup_delete_eq, bool_decide_false by by intros [].
  done.
Qed.
