(* ===== verification/CanonicalJson.v ===== *)
(** * Canonical JSON

    Models [crates/mx-agent-protocol/src/canonical_json.rs].  A [serde_json]
    value is the tree the code matches on; an object is its list of entries in
    any order, since the code sorts the keys itself.  The escaping of string
    literals is [serde_json]'s and is an argument ([json_str]). *)
From Stdlib Require Import Ascii ZArith.
From stdpp Require Import gmap strings list sorting pretty.
From S2P Require Import Prelude RustStr.

#[local] Set Warnings "-register-all".
#[local] Arguments String.append !_ _ / : simpl nomatch.

(** ** Values *)

(** A [serde_json::Number]: an integer of [u64] or [i64], or a float. *)
Inductive Number := NumInt (z : Z) | NumFloat (repr : string).
Inductive Value :=
| Null
| Bool (b : bool)
| Num (n : Number)
| Str (s : string)
| Array (items : list Value)
| Object (entries : list (string * Value)).

(** Induction through arrays and objects. *)
Section Value_induction.
Context (P : Value → Prop).
Context (PNull : P Null) (PBool : ∀ b, P (Bool b)) (PNum : ∀ n, P (Num n)) (PStr : ∀ s, P (Str s)).
Context (PArray : ∀ items, Forall P items → P (Array items)).
Context (PObject : ∀ entries, Forall (λ kv, P kv.2) entries → P (Object entries)).
Fixpoint Value_rect_strong (v : Value) : P v :=
  match v with
  | Null => PNull
  | Bool b => PBool b
  | Num n => PNum n
  | Str s => PStr s
  | Array items =>
      PArray items ((fix go l : Forall P l :=
        match l with [] => Forall_nil_2 _ | x :: l => Forall_cons_2 _ _ _ (Value_rect_strong x) (go l) end) items)
  | Object entries =>
      PObject entries ((fix go l : Forall (λ kv, P kv.2) l :=
        match l with
        | [] => Forall_nil_2 _
        | kv :: l => Forall_cons_2 _ _ _ (Value_rect_strong kv.2) (go l)
        end) entries)
  end.
End Value_induction.

Inductive CanonicalJsonError := NonIntegerNumber.

(** The first error of a sequence of writes, or all their outputs. *)
Fixpoint collect {A E} (l : list (result A E)) : result (list A) E :=
  match l with
  | [] => Ok []
  | r :: l => let? x := r in let? xs := collect l in Ok (x :: xs)
  end.

Section writer.
(** [serde_json::to_string] of a string: the quoted, escaped literal. *)
Context (json_str : string → string).

Definition write_string (s : string) : string := json_str s.

(** [write_value]: the keys are sorted, then each entry written; the entries
    are written before sorting here, which gives the same text because an entry's
    text does not depend on its position. *)
Fixpoint write_value (v : Value) : result string CanonicalJsonError :=
  match v with
  | Null => Ok "null"
  | Bool true => Ok "true"
  | Bool false => Ok "false"
  | Num (NumFloat _) => Err NonIntegerNumber
  | Num (NumInt z) => Ok (pretty z)
  | Str s => Ok (write_string s)
  | Array items =>
      let? texts := collect (map write_value items) in
      Ok ("[" +:+ str_join "," texts +:+ "]")
  | Object entries =>
      let written := map (λ kv, (kv.1, write_value kv.2)) entries in
      let? texts := collect (map (λ kr : string * result string CanonicalJsonError,
                       let? t := kr.2 in Ok (write_string kr.1 +:+ ":" +:+ t))
                     (sort_by key_le written)) in
      Ok ("{" +:+ str_join "," texts +:+ "}")
  end.

Definition to_canonical_string (v : Value) : result string CanonicalJsonError := write_value v.
(** UTF-8 bytes of the string: a [string] is its bytes already. *)
Definition to_canonical_bytes (v : Value) : result string CanonicalJsonError := to_canonical_string v.
End writer.

(** ** Canonical form of a value: object keys sorted throughout *)

Fixpoint canon (v : Value) : Value :=
  match v with
  | Array items => Array (map canon items)
  | Object entries => Object (sort_by key_le (map (λ kv, (kv.1, canon kv.2)) entries))
  | _ => v
  end.

(** No float anywhere. *)
Fixpoint float_free (v : Value) : bool :=
  match v with
  | Num (NumFloat _) => false
  | Array items => forallb float_free items
  | Object entries => forallb (λ kv, float_free kv.2) entries
  | _ => true
  end.

(** ** Sorting by key commutes with mapping the values *)

Lemma insert_sorted_map {V W} (f : V → W) x l :
  insert_sorted key_le (x.1, f x.2) (map (λ kv, (kv.1, f kv.2)) l)
  = map (λ kv, (kv.1, f kv.2)) (insert_sorted key_le x l).
Proof.
  induction l as [|y l IH]; simpl; [done|].
  destruct (decide (key_le (x.1, f x.2) (y.1, f y.2))) as [H|H], (decide (key_le x y)) as [H'|H'];
    unfold key_le in H, H'; simpl in H; try done. simpl. by rewrite IH.
Qed.
Lemma sort_by_map {V W} (f : V → W) l :
  sort_by key_le (map (λ kv, (kv.1, f kv.2)) l) = map (λ kv, (kv.1, f kv.2)) (sort_by key_le l).
Proof.
  unfold sort_by. induction l as [|x l IH]; simpl; [done|]. rewrite IH. apply insert_sorted_map.
Qed.

Lemma NoDup_fst_functional {V} (l : list (string * V)) k x y :
  NoDup (l.*1) → (k, x) ∈ l → (k, y) ∈ l → x = y.
Proof.
  intros Hnd [i Hi]%list_elem_of_lookup [j Hj]%list_elem_of_lookup.
  assert (i = j) as <-; [|congruence].
  eapply (NoDup_lookup (l.*1) i j k); [done|by rewrite list_lookup_fmap, Hi|by rewrite list_lookup_fmap, Hj].
Qed.

(** Sorting by key forgets the order of entries with distinct keys. *)
Lemma sort_by_key_perm {V} (l1 l2 : list (string * V)) :
  NoDup (l1.*1) → l1 ≡ₚ l2 → sort_by key_le l1 = sort_by key_le l2.
Proof.
  intros Hnd Hp. eapply (StronglySorted_unique_strong key_le).
  - intros [k x] [k' y] Hx Hy H1 H2. unfold key_le in *; simpl in *.
    assert (k = k') as <- by by apply (anti_symm String.le).
    rewrite elem_of_sort_by in Hx, Hy. rewrite <- Hp in Hy.
    f_equal. by eapply NoDup_fst_functional.
  - apply sort_by_sorted; apply _.
  - apply sort_by_sorted; apply _.
  - by rewrite !sort_by_perm.
Qed.

(** ** The text of a float-free value *)

Section text.
Context (json_str : string → string).

(** The text, keys in the order of the value. *)
Fixpoint enc (v : Value) : string :=
  match v with
  | Null => "null"
  | Bool b => if b then "true" else "false"
  | Num (NumInt z) => pretty z
  | Num (NumFloat r) => r
  | Str s => json_str s
  | Array items => "[" +:+ str_join "," (map enc items) +:+ "]"
  | Object entries =>
      "{" +:+ str_join "," (map (λ kv, json_str kv.1 +:+ ":" +:+ enc kv.2) entries) +:+ "}"
  end.

Lemma collect_map_Ok {A B E} (f : A → result B E) (g : A → B) l :
  Forall (λ x, f x = Ok (g x)) l → collect (map f l) = Ok (map g l).
Proof. induction 1 as [|x l Hx _ IH]; simpl; [done|]. by rewrite Hx, IH. Qed.
Lemma collect_map_Err {A B} (f : A → result B CanonicalJsonError) l :
  Exists (λ x, f x = Err NonIntegerNumber) l → collect (map f l) = Err NonIntegerNumber.
Proof.
  induction 1 as [x l Hx|x l _ IH]; simpl; [by rewrite Hx|].
  destruct (f x) as [|[]]; [|done]. by rewrite IH.
Qed.

Lemma forallb_map_elem {A} (f : A → bool) l : forallb f l = true ↔ ∀ x, x ∈ l → f x = true.
Proof. rewrite forallb_forall. by setoid_rewrite list_elem_of_In. Qed.
Lemma forallb_false_elem {A} (f : A → bool) l : forallb f l = false ↔ ∃ x, x ∈ l ∧ f x = false.
Proof.
  induction l as [|a l IH]; simpl.
  - split; [done|]. intros (? & H & _). inversion H.
  - destruct (f a) eqn:Ha; simpl.
    + rewrite IH. setoid_rewrite elem_of_cons. split.
      * intros (x & ? & ?). eauto.
      * intros (x & [->|?] & ?); [congruence|eauto].
    + split; [|done]. intros _. exists a. split; [apply list_elem_of_here|done].
Qed.

Lemma write_value_spec v :
  (float_free v = true → write_value json_str v = Ok (enc (canon v))) ∧
  (float_free v = false → write_value json_str v = Err NonIntegerNumber).
Proof.
  induction v as [|[]|[]|s|items IH|entries IH] using Value_rect_strong; simpl; try done.
  - rewrite Forall_forall in IH. split; intros Hf.
    + rewrite forallb_map_elem in Hf. rewrite collect_map_Ok with (g := λ x, enc (canon x)).
      * by rewrite map_map.
      * apply Forall_forall. intros x Hx. apply IH; [done|]. by apply Hf.
    + apply forallb_false_elem in Hf as (x & Hx & Hf). rewrite collect_map_Err; [done|].
      apply Exists_exists. exists x. split; [done|]. by apply IH.
  - rewrite Forall_forall in IH. rewrite !(sort_by_map _ entries), map_map. split; intros Hf.
    + rewrite forallb_map_elem in Hf.
      rewrite collect_map_Ok with (g := λ kv, json_str kv.1 +:+ ":" +:+ enc (canon kv.2)).
      * by rewrite map_map.
      * apply Forall_forall. intros kv Hkv. rewrite elem_of_sort_by in Hkv. simpl.
        destruct (IH kv Hkv) as [IHok _]. by rewrite IHok by by apply Hf.
    + apply forallb_false_elem in Hf as (kv & Hkv & Hf). rewrite collect_map_Err; [done|].
      apply Exists_exists. exists kv. rewrite elem_of_sort_by. split; [done|]. simpl.
      destruct (IH kv Hkv) as [_ IHerr]. by rewrite IHerr.
Qed.
End text.

(** ** The text determines the value *)

(** The double quote character. *)
Definition quote : ascii := ascii_of_nat 34.

(** What is used of [serde_json]'s string literals: they open with a quote,
    and a literal ends at its closing quote, whatever follows. *)
Class JsonString (json_str : string → string) : Prop := {
  json_str_open s : ∃ t, json_str s = String quote t;
  json_str_delimited s s' r r' : json_str s +:+ r = json_str s' +:+ r' → s = s' ∧ r = r';
}.

(** What may follow a value inside a larger text. *)
Definition follow (r : string) : Prop :=
  match r with
  | "" => True
  | String c _ => c = ","%char ∨ c = "]"%char ∨ c = "}"%char
  end.

(** The kind of value a text starts, from its first character. *)
Definition number_char (c : ascii) : bool := is_ascii_digit c || bool_decide (c = "-"%char).
Definition kind_of_char (c : ascii) : nat :=
  if number_char c then 3
  else if decide (c = "n"%char) then 0 else if decide (c = "t"%char) then 1
  else if decide (c = "f"%char) then 2 else if decide (c = quote) then 4
  else if decide (c = "["%char) then 5 else if decide (c = "{"%char) then 6 else 7.
Definition value_kind (v : Value) : nat :=
  match v with
  | Null => 0 | Bool true => 1 | Bool false => 2 | Num _ => 3 | Str _ => 4
  | Array _ => 5 | Object _ => 6
  end.

Fixpoint str_all (p : ascii → bool) (s : string) : bool :=
  match s with "" => true | String c s => p c && str_all p s end.
Lemma str_all_split p s : ∀ s' r r',
  str_all p s = true → str_all p s' = true →
  match r with "" => True | String c _ => p c = false end →
  match r' with "" => True | String c _ => p c = false end →
  s +:+ r = s' +:+ r' → s = s' ∧ r = r'.
Proof.
  induction s as [|c s IH]; intros [|c' s'] r r' Hs Hs' Hr Hr' E; simpl in *; subst; simpl in *; bool_prop.
  - done.
  - congruence.
  - congruence.
  - injection E as -> E. destruct (IH s' r r') as [-> ->]; auto.
Qed.

Lemma pretty_N_go_all n : ∀ acc, str_all number_char acc = true → str_all number_char (pretty_N_go n acc) = true.
Proof.
  induction (N.lt_wf_0 n) as [n _ IH]; intros acc Hacc.
  destruct (decide (n = 0)%N) as [->|Hn]; [by rewrite pretty_N_go_0|].
  rewrite pretty_N_go_step by lia. apply IH; [apply N.div_lt; lia|]. simpl.
  rewrite Hacc, andb_true_r. unfold pretty_N_char. by repeat case_match.
Qed.
Lemma pretty_Z_all (z : Z) : str_all number_char (pretty z) = true.
Proof.
  unfold pretty, pretty_Z, pretty, pretty_positive, pretty, pretty_N.
  destruct z; [done|apply pretty_N_go_all|simpl; apply pretty_N_go_all]; done.
Qed.
Lemma pretty_Z_nonempty (z : Z) : pretty z ≠ "".
Proof.
  intros E. assert (∀ n acc, acc ≠ "" → pretty_N_go n acc ≠ "") as Hne.
  { intros n. induction (N.lt_wf_0 n) as [n _ IH]; intros acc Hacc.
    destruct (decide (n = 0)%N) as [->|]; [by rewrite pretty_N_go_0|].
    rewrite pretty_N_go_step by lia. apply IH; [apply N.div_lt; lia|done]. }
  unfold pretty, pretty_Z, pretty, pretty_positive, pretty, pretty_N in E.
  destruct z as [|p|p]; [done| |done]. case_decide; [done|].
  rewrite pretty_N_go_step in E by lia. by apply Hne in E.
Qed.

(** A comma-separated list with a closing character parses uniquely. *)
Section separated.
Context {A : Type} (f : A → string) (close : ascii).
Context (Hclose : close = "]"%char ∨ close = "}"%char).

Fixpoint tail_text (l : list A) : string :=
  match l with [] => "" | x :: l => "," +:+ f x +:+ tail_text l end.
Lemma str_join_tail x l : str_join "," (map f (x :: l)) = f x +:+ tail_text l.
Proof.
  revert x. induction l as [|y l IH]; intros x; [simpl; by rewrite append_nil_r|].
  change (str_join "," (map f (x :: y :: l))) with (f x +:+ "," +:+ str_join "," (map f (y :: l))).
  by rewrite IH.
Qed.

Context (good : A → Prop).
Definition item_inj (x : A) : Prop :=
  ∀ y r r', good y → follow r → follow r' → f x +:+ r = f y +:+ r' → x = y ∧ r = r'.

Lemma follow_close r : follow (String close r).
Proof. simpl. tauto. Qed.
Lemma follow_tail l r : follow (tail_text l +:+ String close r).
Proof. destruct l; simpl; tauto. Qed.

Lemma tail_text_inj l : ∀ l' r r',
  Forall item_inj l → Forall good l' →
  tail_text l +:+ String close r = tail_text l' +:+ String close r' → l = l' ∧ r = r'.
Proof.
  assert (close ≠ ","%char) as Hc by (destruct Hclose; subst; done).
  induction l as [|x l IH]; intros [|y l'] r r' Hi Hg E; simpl in E; simplify_eq; [done|].
  inversion_clear Hi as [|?? Hx Hl]; inversion_clear Hg as [|?? Hy Hl'].
  rewrite !append_assoc in *.
  destruct (Hx y _ _ Hy (follow_tail l r) (follow_tail l' r') E) as [-> E'].
  destruct (IH l' r r') as [-> ->]; auto.
Qed.

(** No item starts like the closing character. *)
Context (Hstart : ∀ x r r', good x → f x +:+ r ≠ String close r').
Lemma str_join_inj l l' r r' :
  Forall item_inj l → Forall good l → Forall good l' →
  str_join "," (map f l) +:+ String close r = str_join "," (map f l') +:+ String close r' →
  l = l' ∧ r = r'.
Proof.
  destruct l as [|x l], l' as [|y l']; intros Hi Hg Hg' E.
  - simpl in E. by simplify_eq.
  - rewrite str_join_tail in E. simpl in E. symmetry in E. rewrite append_assoc in E.
    inversion_clear Hg'. by apply Hstart in E.
  - rewrite str_join_tail in E. rewrite append_assoc in E.
    inversion_clear Hg. by apply Hstart in E.
  - rewrite !str_join_tail, !append_assoc in E.
    inversion_clear Hi as [|?? Hx Hl]; inversion_clear Hg'.
    destruct (Hx y _ _ ltac:(done) (follow_tail l r) (follow_tail l' r') E) as [-> E'].
    destruct (tail_text_inj l l' r r') as [-> ->]; auto.
Qed.
End separated.

Section injective.
Context (json_str : string → string) `{!JsonString json_str}.

Lemma enc_kind v : float_free v = true → ∃ c t, enc json_str v = String c t ∧ kind_of_char c = value_kind v.
Proof.
  destruct v as [|[]|[z|]|s|items|entries]; intros Hf; simpl; try done; eauto.
  - pose proof (pretty_Z_nonempty z) as Hne. pose proof (pretty_Z_all z) as Hall.
    destruct (pretty z) as [|c t]; [done|]. simpl in Hall. bool_prop.
    exists c, t. split; [done|]. unfold kind_of_char. by rewrite H.
  - destruct (json_str_open s) as [t ->]. by exists quote, t.
Qed.

Lemma enc_kind_eq v w r r' :
  float_free v = true → float_free w = true → enc json_str v +:+ r = enc json_str w +:+ r' → value_kind v = value_kind w.
Proof.
  intros (c & t & -> & <-)%enc_kind (c' & t' & -> & <-)%enc_kind E. simpl in E. by simplify_eq.
Qed.
Lemma enc_not_close v close r r' :
  float_free v = true → close = "]"%char ∨ close = "}"%char → enc json_str v +:+ r ≠ String close r'.
Proof.
  intros (c & t & E & Hk)%enc_kind Hc. rewrite E. simpl. intros [= -> _].
  destruct Hc as [->| ->]; vm_compute in Hk; destruct v as [|[]| | | |]; discriminate Hk.
Qed.

Definition entry_text (kv : string * Value) : string := json_str kv.1 +:+ ":" +:+ enc json_str kv.2.

Lemma number_text_inj (z z' : Z) r r' :
  follow r → follow r' → pretty z +:+ r = pretty z' +:+ r' → z = z' ∧ r = r'.
Proof.
  intros Hr Hr' E. apply (str_all_split number_char) in E as [E ->];
    [by apply (inj pretty) in E|apply pretty_Z_all..| |].
  - destruct r; [done|]. by destruct Hr as [->|[->| ->]].
  - destruct r'; [done|]. by destruct Hr' as [->|[->| ->]].
Qed.

Lemma entry_text_inj kv :
  item_inj (enc json_str) (λ v, float_free v = true) kv.2 →
  item_inj entry_text (λ kv, float_free kv.2 = true) kv.
Proof.
  destruct kv as [k v]. intros IH [k' v'] r r' Hg Hr Hr' E. unfold entry_text in E. simpl in *.
  rewrite !append_assoc in E. simpl in E.
  apply json_str_delimited in E as [-> E]. injection E as E.
  destruct (IH v' r r' Hg Hr Hr' E) as [-> ->]. done.
Qed.

(** A float-free text has one reading, also inside a larger text. *)
Lemma enc_inj v : float_free v = true → item_inj (enc json_str) (λ v, float_free v = true) v.
Proof.
  induction v as [|b|n|s|items IH|entries IH] using Value_rect_strong; intros Hv w r r' Hw Hr Hr' E;
    pose proof (enc_kind_eq _ _ _ _ Hv Hw E) as Hk.
  - destruct w as [|[]| | | |]; simpl in *; by simplify_eq.
  - destruct b, w as [|[]| | | |]; simpl in *; by simplify_eq.
  - destruct n as [z|], w as [|[]|[z'|]| | |]; simpl in *; simplify_eq.
    by apply number_text_inj in E as [-> ->].
  - destruct w as [|[]| | | |]; simpl in *; simplify_eq. by apply json_str_delimited in E as [-> ->].
  - destruct w as [|[]| | |items'|]; simpl in *; simplify_eq. rewrite !append_assoc in E. simpl in E.
    rewrite forallb_map_elem in Hv, Hw. rewrite Forall_forall in IH.
    eapply (str_join_inj _ "]"%char ltac:(by left) (λ v, float_free v = true)) in E as [-> ->].
    + done.
    + intros x ?? Hx. apply enc_not_close; auto.
    + apply Forall_forall. auto.
    + by apply Forall_forall.
    + by apply Forall_forall.
  - destruct w as [|[]| | | |entries']; simpl in *; simplify_eq. rewrite !append_assoc in E. simpl in E.
    rewrite forallb_map_elem in Hv, Hw. rewrite Forall_forall in IH.
    eapply (str_join_inj entry_text "}"%char ltac:(by right) (λ kv, float_free kv.2 = true)) in E as [-> ->].
    + done.
    + intros [k x] ?? Hx. unfold entry_text. simpl. by destruct (json_str_open k) as [t ->].
    + apply Forall_forall. intros kv Hkv. apply entry_text_inj. by apply IH, Hv.
    + by apply Forall_forall.
    + by apply Forall_forall.
Qed.

Lemma float_free_canon v : float_free (canon v) = float_free v.
Proof.
  induction v as [|b|n|s|items IH|entries IH] using Value_rect_strong; simpl; try done.
  - induction IH as [|x l Hx _ IHl]; simpl; [done|]. by rewrite Hx, IHl.
  - apply eq_bool_prop_intro. rewrite !Is_true_true, !forallb_map_elem. setoid_rewrite elem_of_sort_by.
    rewrite Forall_forall in IH. split.
    + intros H kv Hkv. rewrite <- IH by done. apply (H (kv.1, canon kv.2)).
      apply list_elem_of_fmap. by exists kv.
    + intros H kv (kv' & -> & Hkv)%list_elem_of_fmap. simpl. rewrite IH by done. auto.
Qed.

(** C39: two values have the same canonical bytes exactly when they are the same
    value up to the order of object keys; encoding fails exactly on values that
    contain a float. *)
Theorem canonical_bytes_unique v w s :
  to_canonical_bytes json_str v = Ok s →
  (to_canonical_bytes json_str w = Ok s ↔ float_free w = true ∧ canon v = canon w) ∧
  (∀ u, to_canonical_bytes json_str u = Err NonIntegerNumber ↔ float_free u = false).
Proof.
  unfold to_canonical_bytes, to_canonical_string. intros Hv. split.
  - destruct (write_value_spec json_str v) as [Hv1 Hv2], (write_value_spec json_str w) as [Hw1 Hw2].
    destruct (float_free v) eqn:Fv; [|rewrite Hv2 in Hv by done; done].
    rewrite Hv1 in Hv by done. injection Hv as <-. split.
    + intros E. destruct (float_free w) eqn:Fw; [|rewrite Hw2 in E by done; done].
      rewrite Hw1 in E by done. injection E as E. split; [done|].
      destruct (enc_inj (canon v) ltac:(by rewrite float_free_canon) (canon w) "" "") as [? _]; try done.
      * by rewrite float_free_canon.
      * by rewrite !append_nil_r.
    + intros [Fw ->]. by apply Hw1.
  - intros u. destruct (write_value_spec json_str u) as [Hu1 Hu2].
    destruct (float_free u); split; intros; try done; [rewrite Hu1 in *; done|by apply Hu2].
Qed.

(** The order in which the fields of an object were inserted does not
    matter to the canonical bytes. *)
Theorem canonical_key_order_irrelevant entries entries' :
  NoDup (entries.*1) → entries ≡ₚ entries' →
  to_canonical_bytes json_str (Object entries) = to_canonical_bytes json_str (Object entries').
Proof.
  intros Hnd Hp. unfold to_canonical_bytes, to_canonical_string. simpl.
  rewrite (sort_by_key_perm _ (map (λ kv, (kv.1, write_value json_str kv.2)) entries')); [done| |].
  - by rewrite <- list_fmap_compose.
  - by apply Permutation_map.
Qed.
End injective.

(** ** A concrete escaping *)

(** Quotes and backslashes escaped with a backslash, as in a JSON literal
    without control characters. *)
Definition backslash : ascii := ascii_of_nat 92.
Fixpoint escape (s : string) : string :=
  match s with
  | "" => String quote ""
  | String c s =>
      if decide (c = quote ∨ c = backslash) then String backslash (String c (escape s))
      else String c (escape s)
  end.
Definition plain_json_str (s : string) : string := String quote (escape s).

Lemma escape_delimited s : ∀ s' r r', escape s +:+ r = escape s' +:+ r' → s = s' ∧ r = r'.
Proof.
  induction s as [|c s IH]; intros [|c' s'] r r' E; simpl in E;
    repeat case_decide; simpl in E; simplify_eq; try done; try tauto.
  - destruct (IH s' r r') as [-> ->]; done.
  - destruct (IH s' r r') as [-> ->]; done.
Qed.
#[export] Instance plain_json_string : JsonString plain_json_str.
Proof.
  split.
  - intros s. by exists (escape s).
  - intros s s' r r' E. unfold plain_json_str in E. simpl in E. injection E as E.
    by apply escape_delimited in E.
Qed.

Definition sample_value : Value :=
  Object [("b", Num (NumInt (-7))); ("a", Array [Bool true; Null; Str "x"])].
Definition sample_value' : Value :=
  Object [("a", Array [Bool true; Null; Str "x"]); ("b", Num (NumInt (-7)))].
Lemma canonical_bytes_unique_witness :
  to_canonical_bytes plain_json_str sample_value' = to_canonical_bytes plain_json_str sample_value.
Proof.
  assert (∃ s, to_canonical_bytes plain_json_str sample_value = Ok s) as [s Hs] by (eexists; vm_compute; reflexivity).
  rewrite Hs. apply (canonical_bytes_unique plain_json_str sample_value sample_value' s Hs).
  split; vm_compute; reflexivity.
Defined.
