(* ===== verification/Schema.v ===== *)
(** * Event and state schemas

    Models [crates/mx-agent-protocol/src/schema.rs]: the content structs of
    mx-agent events, with the JSON values [serde] derives for them where the
    program signs or stores those values.  Field names carry a prefix per
    struct.  Integers are [Z]; their Rust width is given where a field is
    decoded or incremented.  The forward-compatible [extra] map is a finite map
    whose entries are flattened into the object. *)
From stdpp Require Import gmap strings list.
From S2P Require Import Prelude RustStr CanonicalJson.

Abbreviation Extra := (gmap string Value).

(** ** JSON of the field types *)

Definition strings_value (l : list string) : Value := Array (map Str l).
Definition string_map_value (m : gmap string string) : Value :=
  Object (map (λ kv, (kv.1, Str kv.2)) (btree_iter m)).
Definition opt_value {A} (f : A → Value) (o : option A) : Value :=
  match o with Some x => f x | None => Null end.
(** A field with [skip_serializing_if = Option::is_none]. *)
Definition opt_field {A} (k : string) (f : A → Value) (o : option A) : list (string * Value) :=
  match o with Some x => [(k, f x)] | None => [] end.

(** ** Signatures and requests *)

(** A detached signature. *)
Record Signature := {
  sig_alg : string;
  sig_key_id : string;
  sig_sig : string;
}.
Definition Signature_value (r : Signature) : Value :=
  Object
    ([("alg", Str r.(sig_alg));
     ("key_id", Str r.(sig_key_id));
     ("sig", Str r.(sig_sig))]).

(** The stream channels, with their lower-case names. *)
Inductive StreamKind := Stdin | Stdout | Stderr | Pty | Control.
#[export] Instance StreamKind_eq_dec : EqDecision StreamKind.
Proof. solve_decision. Defined.
Definition stream_kind_value (k : StreamKind) : Value :=
  Str (match k with
       | Stdin => "stdin" | Stdout => "stdout" | Stderr => "stderr" | Pty => "pty"
       | Control => "control"
       end).

(** [com.mxagent.exec.request.v1]. *)
Record ExecRequest := {
  er_invocation_id : string;
  er_request_id : string;
  er_target_agent : string;
  er_requesting_agent : string;
  er_command : list string;
  er_cwd : string;
  er_env : gmap string string;
  er_stdin : bool;
  er_stream : bool;
  er_pty : bool;
  er_timeout_ms : Z;
  er_task_id : option string;
  er_created_at : string;
  er_expires_at : string;
  er_nonce : string;
  er_idempotency_key : string;
  er_signature : Signature;
  er_extra : Extra;
}.
Definition ExecRequest_value (r : ExecRequest) : Value :=
  Object
    ([("invocation_id", Str r.(er_invocation_id));
     ("request_id", Str r.(er_request_id));
     ("target_agent", Str r.(er_target_agent));
     ("requesting_agent", Str r.(er_requesting_agent));
     ("command", strings_value r.(er_command));
     ("cwd", Str r.(er_cwd));
     ("env", string_map_value r.(er_env));
     ("stdin", Bool r.(er_stdin));
     ("stream", Bool r.(er_stream));
     ("pty", Bool r.(er_pty));
     ("timeout_ms", Num (NumInt r.(er_timeout_ms)));
     ("task_id", opt_value (λ x, Str x) r.(er_task_id));
     ("created_at", Str r.(er_created_at));
     ("expires_at", Str r.(er_expires_at));
     ("nonce", Str r.(er_nonce));
     ("idempotency_key", Str r.(er_idempotency_key));
     ("signature", Signature_value r.(er_signature))]
     ++ btree_iter r.(er_extra)).

(** [com.mxagent.call.request.v1]. *)
Record CallRequest := {
  cr_invocation_id : string;
  cr_request_id : string;
  cr_tool : string;
  cr_args : Value;
  cr_created_at : string;
  cr_expires_at : string;
  cr_nonce : string;
  cr_signature : Signature;
  cr_requesting_agent : option string;
  cr_target_agent : option string;
  cr_extra : Extra;
}.
Definition CallRequest_value (r : CallRequest) : Value :=
  Object
    ([("invocation_id", Str r.(cr_invocation_id));
     ("request_id", Str r.(cr_request_id));
     ("tool", Str r.(cr_tool));
     ("args", r.(cr_args));
     ("created_at", Str r.(cr_created_at));
     ("expires_at", Str r.(cr_expires_at));
     ("nonce", Str r.(cr_nonce));
     ("signature", Signature_value r.(cr_signature))]
     ++ opt_field "requesting_agent" (λ x, Str x) r.(cr_requesting_agent)
     ++ opt_field "target_agent" (λ x, Str x) r.(cr_target_agent)
     ++ btree_iter r.(cr_extra)).

(** [com.mxagent.approval.request.v1]. *)
Record ApprovalRequest := {
  apr_request_id : string;
  apr_invocation_id : string;
  apr_requester : string;
  apr_target : string;
  apr_summary : string;
  apr_risk : string;
  apr_expires_at : string;
  apr_extra : Extra;
}.

(** [com.mxagent.approval.decision.v1]. *)
Record ApprovalDecision := {
  apd_request_id : string;
  apd_decision : string;
  apd_approved_by : string;
  apd_created_at : string;
  apd_nonce : option string;
  apd_expires_at : option string;
  apd_signature : option Signature;
  apd_extra : Extra;
}.
Definition ApprovalDecision_value (r : ApprovalDecision) : Value :=
  Object
    ([("request_id", Str r.(apd_request_id));
     ("decision", Str r.(apd_decision));
     ("approved_by", Str r.(apd_approved_by));
     ("created_at", Str r.(apd_created_at))]
     ++ opt_field "nonce" (λ x, Str x) r.(apd_nonce)
     ++ opt_field "expires_at" (λ x, Str x) r.(apd_expires_at)
     ++ opt_field "signature" (λ x, Signature_value x) r.(apd_signature)
     ++ btree_iter r.(apd_extra)).

(** ** The result plane *)

(** [com.mxagent.exec.accepted.v1]. *)
Record ExecAccepted := {
  ea_invocation_id : string;
  ea_signature : option Signature;
  ea_extra : Extra;
}.
Definition ExecAccepted_value (r : ExecAccepted) : Value :=
  Object
    ([("invocation_id", Str r.(ea_invocation_id))]
     ++ opt_field "signature" (λ x, Signature_value x) r.(ea_signature)
     ++ btree_iter r.(ea_extra)).

(** [com.mxagent.exec.rejected.v1]. *)
Record ExecRejected := {
  erj_invocation_id : string;
  erj_reason : string;
  erj_signature : option Signature;
  erj_extra : Extra;
}.
Definition ExecRejected_value (r : ExecRejected) : Value :=
  Object
    ([("invocation_id", Str r.(erj_invocation_id));
     ("reason", Str r.(erj_reason))]
     ++ opt_field "signature" (λ x, Signature_value x) r.(erj_signature)
     ++ btree_iter r.(erj_extra)).

(** [com.mxagent.exec.finished.v1]. *)
Record ExecFinished := {
  ef_invocation_id : string;
  ef_exit_code : option Z;
  ef_signal : option string;
  ef_duration_ms : Z;
  ef_stdout_bytes : Z;
  ef_stderr_bytes : Z;
  ef_truncated : bool;
  ef_artifact_mxc : option string;
  ef_signature : option Signature;
  ef_extra : Extra;
}.
Definition ExecFinished_value (r : ExecFinished) : Value :=
  Object
    ([("invocation_id", Str r.(ef_invocation_id));
     ("exit_code", opt_value (λ x, Num (NumInt x)) r.(ef_exit_code));
     ("signal", opt_value (λ x, Str x) r.(ef_signal));
     ("duration_ms", Num (NumInt r.(ef_duration_ms)));
     ("stdout_bytes", Num (NumInt r.(ef_stdout_bytes)));
     ("stderr_bytes", Num (NumInt r.(ef_stderr_bytes)));
     ("truncated", Bool r.(ef_truncated));
     ("artifact_mxc", opt_value (λ x, Str x) r.(ef_artifact_mxc))]
     ++ opt_field "signature" (λ x, Signature_value x) r.(ef_signature)
     ++ btree_iter r.(ef_extra)).

(** [com.mxagent.exec.cancelled.v1]. *)
Record ExecCancelled := {
  ecd_invocation_id : string;
  ecd_signal_sent : string;
  ecd_killed_process_group : bool;
  ecd_finished_at : string;
  ecd_signature : option Signature;
  ecd_extra : Extra;
}.
Definition ExecCancelled_value (r : ExecCancelled) : Value :=
  Object
    ([("invocation_id", Str r.(ecd_invocation_id));
     ("signal_sent", Str r.(ecd_signal_sent));
     ("killed_process_group", Bool r.(ecd_killed_process_group));
     ("finished_at", Str r.(ecd_finished_at))]
     ++ opt_field "signature" (λ x, Signature_value x) r.(ecd_signature)
     ++ btree_iter r.(ecd_extra)).

(** [com.mxagent.stream.chunk.v1]. *)
Record StreamChunk := {
  sc_invocation_id : string;
  sc_stream : StreamKind;
  sc_seq : Z;
  sc_encoding : string;
  sc_data : string;
  sc_eof : bool;
  sc_compressed : bool;
  sc_sha256 : option string;
  sc_timestamp : string;
  sc_signature : option Signature;
  sc_extra : Extra;
}.
Definition StreamChunk_value (r : StreamChunk) : Value :=
  Object
    ([("invocation_id", Str r.(sc_invocation_id));
     ("stream", stream_kind_value r.(sc_stream));
     ("seq", Num (NumInt r.(sc_seq)));
     ("encoding", Str r.(sc_encoding));
     ("data", Str r.(sc_data));
     ("eof", Bool r.(sc_eof));
     ("compressed", Bool r.(sc_compressed));
     ("sha256", opt_value (λ x, Str x) r.(sc_sha256));
     ("timestamp", Str r.(sc_timestamp))]
     ++ opt_field "signature" (λ x, Signature_value x) r.(sc_signature)
     ++ btree_iter r.(sc_extra)).

(** [com.mxagent.call.response.v1]. *)
Record CallResponse := {
  cresp_request_id : string;
  cresp_ok : bool;
  cresp_result : option Value;
  cresp_error : option string;
  cresp_signature : option Signature;
  cresp_extra : Extra;
}.
Definition CallResponse_value (r : CallResponse) : Value :=
  Object
    ([("request_id", Str r.(cresp_request_id));
     ("ok", Bool r.(cresp_ok));
     ("result", opt_value (λ x, x) r.(cresp_result));
     ("error", opt_value (λ x, Str x) r.(cresp_error))]
     ++ opt_field "signature" (λ x, Signature_value x) r.(cresp_signature)
     ++ btree_iter r.(cresp_extra)).

(** ** Live controls and artifacts *)

(** [com.mxagent.exec.stdin.v1]. *)
Record ExecStdin := {
  es_invocation_id : string;
  es_data : string;
  es_eof : bool;
  es_created_at : string;
  es_nonce : string;
  es_signature : Signature;
  es_extra : Extra;
}.
Definition ExecStdin_value (r : ExecStdin) : Value :=
  Object
    ([("invocation_id", Str r.(es_invocation_id));
     ("data", Str r.(es_data));
     ("eof", Bool r.(es_eof));
     ("created_at", Str r.(es_created_at));
     ("nonce", Str r.(es_nonce));
     ("signature", Signature_value r.(es_signature))]
     ++ btree_iter r.(es_extra)).

(** [com.mxagent.exec.cancel.v1]. *)
Record ExecCancel := {
  ec_invocation_id : string;
  ec_reason : string;
  ec_created_at : string;
  ec_nonce : string;
  ec_signature : Signature;
  ec_extra : Extra;
}.
Definition ExecCancel_value (r : ExecCancel) : Value :=
  Object
    ([("invocation_id", Str r.(ec_invocation_id));
     ("reason", Str r.(ec_reason));
     ("created_at", Str r.(ec_created_at));
     ("nonce", Str r.(ec_nonce));
     ("signature", Signature_value r.(ec_signature))]
     ++ btree_iter r.(ec_extra)).

(** [com.mxagent.pty.resize.v1] ([u16] dimensions). *)
Record PtyResize := {
  pr_invocation_id : string;
  pr_rows : Z;
  pr_cols : Z;
  pr_pixel_width : Z;
  pr_pixel_height : Z;
  pr_created_at : string;
  pr_nonce : string;
  pr_signature : Signature;
  pr_extra : Extra;
}.
Definition PtyResize_value (r : PtyResize) : Value :=
  Object
    ([("invocation_id", Str r.(pr_invocation_id));
     ("rows", Num (NumInt r.(pr_rows)));
     ("cols", Num (NumInt r.(pr_cols)));
     ("pixel_width", Num (NumInt r.(pr_pixel_width)));
     ("pixel_height", Num (NumInt r.(pr_pixel_height)));
     ("created_at", Str r.(pr_created_at));
     ("nonce", Str r.(pr_nonce));
     ("signature", Signature_value r.(pr_signature))]
     ++ btree_iter r.(pr_extra)).

(** [com.mxagent.stream.artifact.v1]. *)
Record StreamArtifact := {
  sa_invocation_id : string;
  sa_stream : StreamKind;
  sa_name : string;
  sa_mime_type : string;
  sa_size_bytes : Z;
  sa_sha256 : string;
  sa_mxc_uri : string;
  sa_tail_preview : string;
  sa_encrypted_file : option Value;
  sa_signature : option Signature;
  sa_extra : Extra;
}.
Definition StreamArtifact_value (r : StreamArtifact) : Value :=
  Object
    ([("invocation_id", Str r.(sa_invocation_id));
     ("stream", stream_kind_value r.(sa_stream));
     ("name", Str r.(sa_name));
     ("mime_type", Str r.(sa_mime_type));
     ("size_bytes", Num (NumInt r.(sa_size_bytes)));
     ("sha256", Str r.(sa_sha256));
     ("mxc_uri", Str r.(sa_mxc_uri));
     ("tail_preview", Str r.(sa_tail_preview))]
     ++ opt_field "encrypted_file" (λ x, x) r.(sa_encrypted_file)
     ++ opt_field "signature" (λ x, Signature_value x) r.(sa_signature)
     ++ btree_iter r.(sa_extra)).

(** [com.mxagent.context.share.v1]. *)
Record ContextShare := {
  cx_context_id : string;
  cx_name : string;
  cx_mime_type : string;
  cx_size_bytes : Z;
  cx_sha256 : string;
  cx_data : option string;
  cx_encoding : option string;
  cx_mxc_uri : option string;
  cx_encrypted_file : option Value;
  cx_extra : Extra;
}.
Definition ContextShare_value (r : ContextShare) : Value :=
  Object
    ([("context_id", Str r.(cx_context_id));
     ("name", Str r.(cx_name));
     ("mime_type", Str r.(cx_mime_type));
     ("size_bytes", Num (NumInt r.(cx_size_bytes)));
     ("sha256", Str r.(cx_sha256))]
     ++ opt_field "data" (λ x, Str x) r.(cx_data)
     ++ opt_field "encoding" (λ x, Str x) r.(cx_encoding)
     ++ opt_field "mxc_uri" (λ x, Str x) r.(cx_mxc_uri)
     ++ opt_field "encrypted_file" (λ x, x) r.(cx_encrypted_file)
     ++ btree_iter r.(cx_extra)).

(** ** Agents *)

(** Workspace metadata of an agent. *)
Record AgentWorkspace := {
  aw_cwd : string;
  aw_project_id : string;
  aw_git_commit : string;
}.

(** Load metrics ([u32] each). *)
Record AgentLoad := {
  al_running_invocations : Z;
  al_max_invocations : Z;
}.

(** [com.mxagent.agent.v1]. *)
Record AgentState := {
  as_agent_id : string;
  as_kind : string;
  as_matrix_user_id : string;
  as_device_id : string;
  as_signing_key_id : string;
  as_signing_public_key : option string;
  as_status : string;
  as_capabilities : list string;
  as_tools : list string;
  as_workspace : AgentWorkspace;
  as_load : AgentLoad;
  as_last_seen_ts : Z;
  as_state_rev : Z;
  as_extra : Extra;
}.

(** [com.mxagent.heartbeat.v1]. *)
Record Heartbeat := {
  hb_agent_id : string;
  hb_status : string;
  hb_load : AgentLoad;
  hb_ts : Z;
  hb_extra : Extra;
}.

(** ** Tasks *)

(** The signed authorization of a task action. *)
Record TaskActionAuthorization := {
  taa_requesting_agent : string;
  taa_target_agent : string;
  taa_created_at : string;
  taa_expires_at : string;
  taa_nonce : string;
  taa_signature : Signature;
  taa_extra : Extra;
}.
Definition TaskActionAuthorization_value (r : TaskActionAuthorization) : Value :=
  Object
    ([("requesting_agent", Str r.(taa_requesting_agent));
     ("target_agent", Str r.(taa_target_agent));
     ("created_at", Str r.(taa_created_at));
     ("expires_at", Str r.(taa_expires_at));
     ("nonce", Str r.(taa_nonce));
     ("signature", Signature_value r.(taa_signature))]
     ++ btree_iter r.(taa_extra)).

(** A task's structured action. *)
Inductive TaskAction :=
| Tool (tool : string) (args : Value) (authorization : option TaskActionAuthorization)
| Exec (command : list string) (cwd : string) (env : gmap string string)
    (timeout_ms : option Z) (stream : bool) (authorization : option TaskActionAuthorization).

Definition kind (a : TaskAction) : string :=
  match a with Tool _ _ _ => "tool" | Exec _ _ _ _ _ _ => "exec" end.
Definition authorization (a : TaskAction) : option TaskActionAuthorization :=
  match a with Tool _ _ auth | Exec _ _ _ _ _ auth => auth end.
Definition without_authorization (a : TaskAction) : TaskAction :=
  match a with
  | Tool tool args _ => Tool tool args None
  | Exec command cwd env timeout_ms stream _ => Exec command cwd env timeout_ms stream None
  end.
Definition with_authorization (a : TaskAction) (auth : TaskActionAuthorization) : TaskAction :=
  match a with
  | Tool tool args _ => Tool tool args (Some auth)
  | Exec command cwd env timeout_ms stream _ => Exec command cwd env timeout_ms stream (Some auth)
  end.

(** The internally tagged JSON of an action ([tag = type], snake case). *)
Definition TaskAction_value (a : TaskAction) : Value :=
  match a with
  | Tool tool args auth =>
      Object ([("type", Str "tool"); ("tool", Str tool); ("args", args)]
              ++ opt_field "authorization" TaskActionAuthorization_value auth)
  | Exec command cwd env timeout_ms stream auth =>
      Object ([("type", Str "exec"); ("command", strings_value command); ("cwd", Str cwd);
               ("env", string_map_value env); ("timeout_ms", opt_value (λ x, Num (NumInt x)) timeout_ms);
               ("stream", Bool stream)]
              ++ opt_field "authorization" TaskActionAuthorization_value auth)
  end.

(** The stable result object of a task. *)
Record TaskResult := {
  tr_status : string;
  tr_completed_by : string;
  tr_completed_at : string;
  tr_invocation_id : option string;
  tr_action : option string;
  tr_reason : option string;
  tr_exit_code : option Z;
  tr_summary : option string;
  tr_artifact_mxc : option string;
  tr_extra : Extra;
}.
Definition TaskResult_value (r : TaskResult) : Value :=
  Object
    ([("status", Str r.(tr_status));
     ("completed_by", Str r.(tr_completed_by));
     ("completed_at", Str r.(tr_completed_at));
     ("invocation_id", opt_value (λ x, Str x) r.(tr_invocation_id));
     ("action", opt_value (λ x, Str x) r.(tr_action));
     ("reason", opt_value (λ x, Str x) r.(tr_reason));
     ("exit_code", opt_value (λ x, Num (NumInt x)) r.(tr_exit_code));
     ("summary", opt_value (λ x, Str x) r.(tr_summary));
     ("artifact_mxc", opt_value (λ x, Str x) r.(tr_artifact_mxc))]
     ++ btree_iter r.(tr_extra)).
(** [into_value]. *)
Definition into_value (r : TaskResult) : Value := TaskResult_value r.

(** [com.mxagent.task.v1]; [ts_state_rev] is a [u64]. *)
Record TaskState := {
  ts_task_id : string;
  ts_title : string;
  ts_description : string;
  ts_state : string;
  ts_assigned_to : string;
  ts_created_by : string;
  ts_depends_on : list string;
  ts_blocks : list string;
  ts_invocation_id : option string;
  ts_created_at : string;
  ts_updated_at : string;
  ts_state_rev : Z;
  ts_previous_event_id : option string;
  ts_result : option Value;
  ts_action : option TaskAction;
  ts_extra : Extra;
}.

(** [com.mxagent.invocation.v1]. *)
Record InvocationState := {
  is_invocation_id : string;
  is_task_id : option string;
  is_requester : string;
  is_target : string;
  is_state : string;
  is_created_at : string;
  is_updated_at : string;
  is_exit_code : option Z;
  is_state_rev : Z;
  is_extra : Extra;
}.

(** [com.mxagent.trust.v1]. *)
Record TrustState := {
  trs_agent_id : string;
  trs_key_id : string;
  trs_fingerprint : string;
  trs_status : string;
  trs_trusted_by : string;
  trs_created_at : string;
  trs_expires_at : option string;
  trs_revoked_at : option string;
  trs_extra : Extra;
}.

(** ** Reading a field back *)

(** The first entry under a key. *)
Definition entry (k : string) (es : list (string * Value)) : option Value :=
  snd <$> List.find (λ kv, kv.1 =s k) es.
(** [Value::as_object().get(k)]. *)
Definition field (k : string) (v : Value) : option Value :=
  match v with Object es => entry k es | _ => None end.

Lemma entry_elem k v es : entry k es = Some v → (k, v) ∈ es.
Proof.
  unfold entry. destruct (List.find _ es) as [[k' v']|] eqn:E; [|done]. simpl. intros [= ->].
  apply List.find_some in E as [Hin Heq]. simpl in Heq. apply str_eqb_eq in Heq as ->.
  by apply list_elem_of_In.
Qed.
Lemma entry_None k es : entry k es = None → k ∉ es.*1.
Proof.
  unfold entry. destruct (List.find _ es) as [[k' v']|] eqn:E; [done|].
  intros _ ([k' v'] & -> & Hin)%list_elem_of_fmap. apply list_elem_of_In in Hin.
  eapply List.find_none in E; [|done]. simpl in E. by rewrite str_eqb_refl in E.
Qed.
Lemma elem_entry k v es : NoDup (es.*1) → (k, v) ∈ es → entry k es = Some v.
Proof.
  intros Hnd Hin. destruct (entry k es) as [v'|] eqn:E.
  - apply entry_elem in E. f_equal. by eapply NoDup_fst_functional.
  - apply entry_None in E. destruct E. apply list_elem_of_fmap. by exists (k, v).
Qed.
Lemma entry_perm k es es' : NoDup (es.*1) → es ≡ₚ es' → entry k es = entry k es'.
Proof.
  intros Hnd Hp. destruct (entry k es) as [v|] eqn:E.
  - symmetry. apply elem_entry; [by rewrite <- Hp|]. rewrite <- Hp. by apply entry_elem.
  - destruct (entry k es') as [v|] eqn:E'; [|done]. apply entry_elem in E'. apply entry_None in E.
    destruct E. apply list_elem_of_fmap. exists (k, v). split; [done|]. by rewrite Hp.
Qed.
Lemma entry_map f k es : entry k (map (λ kv, (kv.1, f kv.2)) es) = f <$> entry k es.
Proof.
  unfold entry. induction es as [|[k' v'] es IH]; simpl; [done|]. by destruct (k' =s k).
Qed.

(** Two objects with the same canonical form agree, up to key order inside,
    on every field. *)
Lemma canon_eq_entry k es es' :
  NoDup (es.*1) → NoDup (es'.*1) → canon (Object es) = canon (Object es') →
  canon <$> entry k es = canon <$> entry k es'.
Proof.
  intros Hnd Hnd' [= E]. rewrite <- !entry_map.
  assert (∀ l : list (string * Value), NoDup (l.*1) →
    NoDup ((map (λ kv, (kv.1, canon kv.2)) l).*1)) as Hmap.
  { intros l Hl. by rewrite <- list_fmap_compose. }
  rewrite (entry_perm _ _ (sort_by key_le (map (λ kv, (kv.1, canon kv.2)) es))); [|auto|by rewrite sort_by_perm].
  rewrite E. symmetry. apply entry_perm; [auto|by rewrite sort_by_perm].
Qed.

Lemma canon_strings l : canon (strings_value l) = strings_value l.
Proof. unfold strings_value. simpl. f_equal. induction l; simpl; congruence. Qed.
Lemma strings_value_inj l l' : strings_value l = strings_value l' → l = l'.
Proof.
  unfold strings_value. intros [= E]. revert l' E.
  induction l as [|x l IH]; intros [|y l'] E; simplify_eq/=; f_equal; auto.
Qed.
Lemma canon_string_map m : canon (string_map_value m) = string_map_value m.
Proof.
  unfold string_map_value. simpl. f_equal. rewrite map_map. simpl.
  rewrite (sort_by_map Str). f_equal. apply sort_by_key_perm; [apply NoDup_btree_keys|apply sort_by_perm].
Qed.
Lemma string_map_value_inj m m' : string_map_value m = string_map_value m' → m = m'.
Proof.
  unfold string_map_value. intros [= E].
  assert (btree_iter m = btree_iter m') as E'.
  { revert E. generalize (btree_iter m'). induction (btree_iter m) as [|[k x] l IH]; intros [|[k' x'] l'] E;
      simplify_eq/=; f_equal; auto. }
  apply map_eq. intros k. apply option_eq. intros v.
  by rewrite <- !elem_of_btree_iter, E'.
Qed.
