(* ===== verification/SeccompProfile.v ===== *)
(** * The seccomp profile

    Models [crates/mx-agent-sandbox/src/seccomp.rs]: the syscall allowlist, the filter
    rules and the OCI profile derived from it, and the byte layout of a compiled
    program.  Syscall numbers are the constants of the [libc] crate, an argument; the
    compiler of [seccompiler] is an argument too, and what a filter and an OCI profile
    say about a call is their documented meaning. *)
From Stdlib Require Import ZArith Lia ZifyN.
From stdpp Require Import gmap strings list.
From S2P Require Import Prelude RustStr CanonicalJson Schema Sandboxing.

(** ** The allowlist *)

(** I/O and file descriptors. *)
Definition allow_io : list string :=
  ["read"; "write"; "close"; "close_range"; "openat"; "openat2"; "lseek"; "pread64"; "pwrite64"; "readv";
   "writev"; "preadv"; "pwritev"; "preadv2"; "pwritev2"; "pipe2"; "dup"; "dup3"; "fcntl"; "flock"; "fsync";
   "fdatasync"; "ftruncate"; "truncate"; "getdents64"; "splice"; "tee"; "ioctl"; "readahead"; "fadvise64";
   "copy_file_range"; "fallocate"].
(** Filesystem metadata / namespace. *)
Definition allow_fs : list string :=
  ["getcwd"; "chdir"; "fchdir"; "renameat2"; "mkdirat"; "unlinkat"; "symlinkat"; "linkat"; "readlinkat";
   "fchmodat"; "fchmod"; "fchownat"; "fchown"; "faccessat"; "faccessat2"; "newfstatat"; "fstat"; "statx";
   "statfs"; "fstatfs"; "utimensat"; "umask"; "mknodat"].
(** Memory. *)
Definition allow_memory : list string :=
  ["mmap"; "munmap"; "mremap"; "mprotect"; "madvise"; "msync"; "mlock"; "munlock"; "mlock2"; "mlockall";
   "munlockall"; "mincore"; "brk"].
(** Signals. *)
Definition allow_signals : list string :=
  ["rt_sigaction"; "rt_sigprocmask"; "rt_sigreturn"; "rt_sigpending"; "rt_sigtimedwait"; "rt_sigsuspend";
   "rt_sigqueueinfo"; "sigaltstack"].
(** Process lifecycle (build/test spawn subprocesses). *)
Definition allow_process : list string :=
  ["clone"; "clone3"; "execve"; "execveat"; "exit"; "exit_group"; "wait4"; "waitid"; "kill"; "tkill";
   "tgkill"; "set_tid_address"; "set_robust_list"; "get_robust_list"; "futex"; "futex_waitv"; "rseq";
   "membarrier"; "restart_syscall"].
(** Time. *)
Definition allow_time : list string :=
  ["nanosleep"; "clock_nanosleep"; "clock_gettime"; "clock_getres"; "gettimeofday"; "getrandom"; "setitimer";
   "getitimer"; "timer_create"; "timer_settime"; "timer_gettime"; "timer_getoverrun"; "timer_delete"].
(** Process / system introspection. *)
Definition allow_introspection : list string :=
  ["uname"; "sysinfo"; "getpid"; "getppid"; "gettid"; "getuid"; "geteuid"; "getgid"; "getegid"; "getgroups";
   "setgroups"; "getpgid"; "setpgid"; "getsid"; "setsid"; "getpriority"; "setpriority"; "sched_getaffinity";
   "sched_setaffinity"; "sched_yield"; "sched_getparam"; "sched_getscheduler"; "prctl"; "prlimit64";
   "getrusage"; "times"; "capget"; "capset"; "getresuid"; "getresgid"; "setuid"; "setgid"; "setreuid";
   "setregid"; "setresuid"; "setresgid"; "setfsuid"; "setfsgid"; "sched_setparam"; "sched_setscheduler";
   "sched_get_priority_max"; "sched_get_priority_min"; "sched_rr_get_interval"; "sched_getattr";
   "sched_setattr"; "rt_tgsigqueueinfo"; "getcpu"].
(** Poll / event fds. *)
Definition allow_poll : list string :=
  ["epoll_create1"; "epoll_ctl"; "epoll_pwait"; "epoll_pwait2"; "ppoll"; "pselect6"; "eventfd2"; "signalfd4";
   "timerfd_create"; "timerfd_settime"; "timerfd_gettime"; "inotify_init1"; "inotify_add_watch";
   "inotify_rm_watch"; "memfd_create"; "pidfd_open"; "pidfd_send_signal"; "pidfd_getfd"].
(** Extended file attributes (security frameworks and tools need these). *)
Definition allow_xattr : list string :=
  ["getxattr"; "lgetxattr"; "fgetxattr"; "listxattr"; "llistxattr"; "flistxattr"; "setxattr"; "lsetxattr";
   "fsetxattr"; "removexattr"; "lremovexattr"; "fremovexattr"].
(** System V IPC (used by some legacy and build tools). *)
Definition allow_sysv_ipc : list string :=
  ["semget"; "semop"; "semtimedop"; "semctl"; "shmget"; "shmat"; "shmdt"; "shmctl"; "msgget"; "msgsnd";
   "msgrcv"; "msgctl"].
(** [io_uring]. *)
Definition allow_io_uring : list string :=
  ["io_uring_setup"; "io_uring_enter"; "io_uring_register"].
(** Misc syscalls from Docker/Podman default profile. *)
Definition allow_misc : list string :=
  ["personality"; "process_vm_readv"; "process_vm_writev"].
(** Local sockets (build tooling talks to local daemons over AF_UNIX). *)
Definition allow_sockets : list string :=
  ["socket"; "socketpair"; "connect"; "bind"; "listen"; "accept"; "accept4"; "getsockname"; "getpeername";
   "getsockopt"; "setsockopt"; "sendto"; "recvfrom"; "sendmsg"; "recvmsg"; "sendmmsg"; "recvmmsg"; "shutdown"].
(** Legacy variants that exist only on x86_64. *)
Definition allow_x86_64 : list string :=
  ["fork"; "vfork"; "open"; "stat"; "lstat"; "poll"; "select"; "access"; "pipe"; "dup2"; "rename"; "renameat";
   "mkdir"; "rmdir"; "unlink"; "symlink"; "link"; "readlink"; "chmod"; "chown"; "creat"; "getdents";
   "epoll_create"; "epoll_wait"; "eventfd"; "signalfd"; "inotify_init"; "alarm"; "pause"; "time"; "getpgrp";
   "utimes"; "futimesat"; "arch_prctl"; "sendfile"; "lchown"; "utime"; "getrlimit"; "mknod"].

Record Allowed := mkAllowed { aw_name : string; aw_number : Z }.
Inductive Arch := X86_64 | Aarch64 | OtherArch (name : string).
Definition common_names : list string :=
  allow_io ++ allow_fs ++ allow_memory ++ allow_signals ++ allow_process ++ allow_time ++ allow_introspection ++ allow_poll
  ++ allow_xattr ++ allow_sysv_ipc ++ allow_io_uring ++ allow_misc ++ allow_sockets.
Definition allowlist_names (arch : Arch) : list string :=
  common_names ++ match arch with X86_64 => allow_x86_64 | _ => [] end.
(** [SYS name] is [libc::SYS_name] on the target. *)
Definition allowlist (SYS : string → Z) (arch : Arch) : list Allowed :=
  map (λ name, mkAllowed name (SYS name)) (allowlist_names arch).

(** ** The filter and the profile *)

Definition EPERM : Z := 1.
Definition default_errno : Z := EPERM.
Inductive SeccompAction := ActAllow | ActErrno (errno : Z).
#[export] Instance SeccompAction_eq_dec : EqDecision SeccompAction.
Proof. solve_decision. Defined.
(** [SeccompFilter::new]: rules by number, each an empty list of conditions. *)
Record SeccompFilter := mkFilter {
  sf_rules : gset Z;
  sf_mismatch_action : SeccompAction;
  sf_match_action : SeccompAction;
  sf_arch : Arch;
}.
Inductive SeccompError := UnsupportedArch (name : string) | BuildError (message : string) | WriteError (message : string).
(** What [TargetArch::try_from] accepts. *)
Definition target_arch (arch : Arch) : result Arch SeccompError :=
  match arch with
  | OtherArch name => if name =s "riscv64" then Ok arch else Err (UnsupportedArch name)
  | _ => Ok arch
  end.
Definition default_filter (SYS : string → Z) (arch : Arch) : SeccompFilter :=
  mkFilter (list_to_set (map aw_number (allowlist SYS arch))) (ActErrno default_errno) ActAllow arch.
Record SockFilter := mkSock { sk_code : N; sk_jt : N; sk_jf : N; sk_k : N }.
Definition BpfProgram : Type := list SockFilter.
(** [compile] is [seccompiler]'s. *)
Definition default_bpf_program (compile : SeccompFilter → result BpfProgram string) (SYS : string → Z) (arch : Arch) :
    result BpfProgram SeccompError :=
  let? arch := target_arch arch in
  match compile (default_filter SYS arch) with Ok program => Ok program | Err e => Err (BuildError e) end.

Definition to_ne_bytes (width : nat) (n : N) : list N :=
  map (λ i, ((n / 2 ^ (8 * N.of_nat i)) `mod` 256)%N) (seq 0 width).
Definition serialize_bpf_program (program : BpfProgram) : list N :=
  concat (map (λ insn, to_ne_bytes 2 insn.(sk_code) ++ [insn.(sk_jt)] ++ [insn.(sk_jf)] ++ to_ne_bytes 4 insn.(sk_k)) program).

Definition oci_architectures (arch : Arch) : list string :=
  match arch with
  | X86_64 => ["SCMP_ARCH_X86_64"; "SCMP_ARCH_X86"; "SCMP_ARCH_X32"]
  | Aarch64 => ["SCMP_ARCH_AARCH64"; "SCMP_ARCH_ARM"]
  | OtherArch _ => []
  end.
(** The profile before it is printed. *)
Definition default_profile (SYS : string → Z) (arch : Arch) : Value :=
  Object [("defaultAction", Str "SCMP_ACT_ERRNO"); ("defaultErrnoRet", Num (NumInt default_errno));
          ("architectures", Array (map Str (oci_architectures arch)));
          ("syscalls", Array [Object [("names", Array (map (λ a, Str a.(aw_name)) (allowlist SYS arch)));
                                      ("action", Str "SCMP_ACT_ALLOW")]])].
(** The two file operations of [write_default_profile]. *)
Definition write_default_profile (dir : string) (write set_permissions : result unit string) : result string SeccompError :=
  let? _ := match write with Ok _ => Ok tt | Err e => Err (WriteError e) end in
  let? _ := match set_permissions with Ok _ => Ok tt | Err e => Err (WriteError e) end in
  Ok (path_join dir "seccomp-default.json").

(** ** What they say about a call *)

Definition filter_verdict (f : SeccompFilter) (number : Z) : SeccompAction :=
  if bool_decide (number ∈ f.(sf_rules)) then f.(sf_match_action) else f.(sf_mismatch_action).
(** An OCI profile: the first block that lists the name decides, else the default. *)
Definition block_names (block : Value) : list string :=
  match field "names" block with
  | Some (Array l) => omap (λ v, match v with Str s => Some s | _ => None end) l
  | _ => []
  end.
Definition oci_action (profile : Value) (action : option Value) : option SeccompAction :=
  match action with
  | Some (Str a) =>
      if a =s "SCMP_ACT_ALLOW" then Some ActAllow
      else if a =s "SCMP_ACT_ERRNO" then
        match field "defaultErrnoRet" profile with Some (Num (NumInt e)) => Some (ActErrno e) | _ => None end
      else None
  | _ => None
  end.
Definition oci_verdict (profile : Value) (name : string) : option SeccompAction :=
  match field "syscalls" profile with
  | Some (Array blocks) =>
      match List.find (λ b, existsb (str_eqb name) (block_names b)) blocks with
      | Some b => oci_action profile (field "action" b)
      | None => oci_action profile (field "defaultAction" profile)
      end
  | _ => None
  end.

(** Calls that reconfigure the kernel, the namespaces or another process. *)
Definition privileged_calls : list string :=
  ["mount"; "umount2"; "pivot_root"; "chroot"; "move_mount"; "open_tree"; "fsmount"; "unshare"; "setns"; "ptrace"; "bpf";
   "perf_event_open"; "init_module"; "finit_module"; "delete_module"; "kexec_load"; "kexec_file_load"; "reboot"; "swapon";
   "swapoff"; "acct"; "settimeofday"; "clock_settime"; "adjtimex"; "iopl"; "ioperm"; "add_key"; "keyctl"; "request_key";
   "userfaultfd"; "open_by_handle_at"; "quotactl"; "sethostname"; "setdomainname"; "syslog"; "vhangup"; "fanotify_init"].
(** Calls without which the command cannot be started once the filter is on. *)
Definition startup_calls : list string :=
  ["execve"; "execveat"; "mmap"; "mprotect"; "munmap"; "brk"; "clone"; "clone3"; "futex"; "rt_sigaction"; "rt_sigprocmask";
   "exit"; "exit_group"; "openat"; "read"; "write"; "close"; "set_robust_list"; "rseq"; "prlimit64"; "getrandom"].

Lemma omap_str_names l : omap (λ v, match v with Str s => Some s | _ => None end) (map Str l) = l.
Proof. induction l as [|x l IH]; [done|]. cbn. by rewrite IH. Qed.
Lemma profile_names SYS arch :
  omap (λ v, match v with Str s => Some s | _ => None end) (map (λ a, Str a.(aw_name)) (allowlist SYS arch)) = allowlist_names arch.
Proof. unfold allowlist. rewrite map_map. cbn [aw_name]. apply omap_str_names. Qed.
Lemma default_profile_verdict SYS arch name :
  oci_verdict (default_profile SYS arch) name =
    Some (if bool_decide (name ∈ allowlist_names arch) then ActAllow else ActErrno default_errno).
Proof.
  assert (field "syscalls" (default_profile SYS arch) =
    Some (Array [Object [("names", Array (map (λ a, Str a.(aw_name)) (allowlist SYS arch))); ("action", Str "SCMP_ACT_ALLOW")]])) as Hf
    by reflexivity.
  unfold oci_verdict. rewrite Hf. cbn [List.find].
  assert (block_names (Object [("names", Array (map (λ a, Str a.(aw_name)) (allowlist SYS arch))); ("action", Str "SCMP_ACT_ALLOW")])
    = allowlist_names arch) as -> by (transitivity
      (omap (λ v, match v with Str s => Some s | _ => None end) (map (λ a, Str a.(aw_name)) (allowlist SYS arch)));
      [reflexivity|apply profile_names]).
  destruct (existsb (str_eqb name) (allowlist_names arch)) eqn:E.
  - rewrite bool_decide_true; [reflexivity|]. apply existsb_exists in E as (x & Hx & Hn). apply str_eqb_eq in Hn as ->.
    by apply list_elem_of_In.
  - rewrite bool_decide_false; [reflexivity|]. intros Hin%list_elem_of_In. apply not_true_iff_false in E. apply E.
    apply existsb_exists. exists name. split; [done|apply str_eqb_refl].
Qed.
Lemma default_filter_rules SYS arch (syscalls : list string) name :
  (∀ a b, a ∈ syscalls → b ∈ syscalls → SYS a = SYS b → a = b) → allowlist_names arch ⊆ syscalls → name ∈ syscalls →
  SYS name ∈ (default_filter SYS arch).(sf_rules) ↔ name ∈ allowlist_names arch.
Proof.
  intros Hinj Hsub Hin. unfold default_filter, allowlist. cbn [sf_rules]. rewrite map_map, elem_of_list_to_set, list_elem_of_fmap.
  cbn [aw_number]. split.
  - intros (x & Heq & Hx). by rewrite (Hinj name x Hin (Hsub x Hx) Heq).
  - intros Hn. by exists name.
Qed.
(** No name is listed twice, for any target. *)
Lemma allowlist_NoDup arch : NoDup (allowlist_names arch).
Proof.
  destruct arch as [| |n]; [| |change (allowlist_names (OtherArch n)) with (allowlist_names Aarch64)];
    apply (bool_decide_unpack _); vm_compute; exact I.
Qed.

(** The two forms of the profile agree.  For every syscall of the target, with
    distinct numbers for distinct calls, the OCI profile given to a container and the
    filter rules given to [bwrap] and installed by the launcher reach the same verdict:
    allowed when the table lists it, the error EPERM otherwise; every call that starting
    the command needs is allowed, and every call that reconfigures the kernel, the
    namespaces or another process is refused. *)
Theorem profiles_agree SYS arch (syscalls : list string) name :
  (∀ a b, a ∈ syscalls → b ∈ syscalls → SYS a = SYS b → a = b) → allowlist_names arch ⊆ syscalls → name ∈ syscalls →
  oci_verdict (default_profile SYS arch) name = Some (filter_verdict (default_filter SYS arch) (SYS name)) ∧
  (filter_verdict (default_filter SYS arch) (SYS name) = ActAllow ∨
   filter_verdict (default_filter SYS arch) (SYS name) = ActErrno EPERM) ∧
  (name ∈ startup_calls → filter_verdict (default_filter SYS arch) (SYS name) = ActAllow) ∧
  (name ∈ privileged_calls → filter_verdict (default_filter SYS arch) (SYS name) = ActErrno EPERM).
Proof.
  intros Hinj Hsub Hin. pose proof (default_filter_rules SYS arch syscalls name Hinj Hsub Hin) as Hr.
  assert (filter_verdict (default_filter SYS arch) (SYS name) =
    if bool_decide (name ∈ allowlist_names arch) then ActAllow else ActErrno EPERM) as Hv.
  { unfold filter_verdict. by rewrite (bool_decide_ext _ _ Hr). }
  rewrite Hv, default_profile_verdict. split_and!; [done|by case_bool_decide; auto| |].
  - intros Hs. rewrite bool_decide_true; [done|].
    assert (Forall (.∈ common_names) startup_calls) as Hsu by (apply (bool_decide_unpack _); vm_compute; exact I).
    rewrite Forall_forall in Hsu. apply elem_of_app. left. by apply Hsu.
  - intros Hp. rewrite bool_decide_false; [done|]. intros Ha.
    assert (Forall (λ x, x ∉ common_names ++ allow_x86_64) privileged_calls) as Hno
      by (apply (bool_decide_unpack _); vm_compute; exact I).
    rewrite Forall_forall in Hno. apply (Hno name Hp). apply elem_of_app in Ha. apply elem_of_app.
    destruct Ha as [?|Ha]; [by left|]. destruct arch; [by right|by apply not_elem_of_nil in Ha..].
Qed.
(** The theorem applied with one number per name and the call [mount]. *)
Lemma profiles_agree_witness :
  let SYS name := Z.pos (encode name) in
  oci_verdict (default_profile SYS X86_64) "mount" = Some (ActErrno EPERM) ∧
  filter_verdict (default_filter SYS X86_64) (SYS "mount") = ActErrno EPERM.
Proof.
  intros SYS.
  destruct (profiles_agree SYS X86_64 (privileged_calls ++ allowlist_names X86_64) "mount") as (Ho & _ & _ & Hp).
  - intros a b _ _ Heq. injection Heq as Heq. exact (encode_inj _ _ Heq).
  - intros x Hx. apply elem_of_app. right. exact Hx.
  - apply elem_of_app. left. apply list_elem_of_In. vm_compute. tauto.
  - rewrite Ho, Hp; [split; reflexivity|]. apply list_elem_of_In. vm_compute. tauto.
Defined.

(** ** The bytes of a program *)

(** How [bwrap] reads them: 8 bytes to an instruction, little-endian. *)
Fixpoint deserialize (bytes : list N) : option BpfProgram :=
  match bytes with
  | [] => Some []
  | c0 :: c1 :: jt :: jf :: k0 :: k1 :: k2 :: k3 :: bytes =>
      cons (mkSock (c0 + 256 * c1) jt jf (k0 + 256 * k1 + 65536 * k2 + 16777216 * k3)) <$> deserialize bytes
  | _ => None
  end.
Record insn_ok (i : SockFilter) : Prop := {
  io_code : (i.(sk_code) < 65536)%N;
  io_jt : (i.(sk_jt) < 256)%N;
  io_jf : (i.(sk_jf) < 256)%N;
  io_k : (i.(sk_k) < 4294967296)%N;
}.
#[local] Ltac Zify.zify_post_hook ::= Z.to_euclidean_division_equations.
Lemma to_ne_bytes_2 n : (n < 65536)%N → ∃ a b, to_ne_bytes 2 n = [a; b] ∧ n = (a + 256 * b)%N ∧ (a < 256 ∧ b < 256)%N.
Proof. intros Hn. eexists _, _. split; [reflexivity|]. change (2 ^ (8 * N.of_nat 0))%N with 1%N. change (2 ^ (8 * N.of_nat 1))%N with 256%N. lia. Qed.
Lemma to_ne_bytes_4 n : (n < 4294967296)%N →
  ∃ a b c d, to_ne_bytes 4 n = [a; b; c; d] ∧ n = (a + 256 * b + 65536 * c + 16777216 * d)%N ∧
    (a < 256 ∧ b < 256 ∧ c < 256 ∧ d < 256)%N.
Proof.
  intros Hn. eexists _, _, _, _. split; [reflexivity|].
  change (2 ^ (8 * N.of_nat 0))%N with 1%N. change (2 ^ (8 * N.of_nat 1))%N with 256%N.
  change (2 ^ (8 * N.of_nat 2))%N with 65536%N. change (2 ^ (8 * N.of_nat 3))%N with 16777216%N. lia.
Qed.
(** The bytes handed over are bytes, eight to an instruction, and read back as the same
    program. *)
Theorem bpf_bytes_roundtrip program :
  Forall insn_ok program →
  deserialize (serialize_bpf_program program) = Some program ∧
  length (serialize_bpf_program program) = 8 * length program ∧
  Forall (λ b, (b < 256)%N) (serialize_bpf_program program).
Proof.
  induction 1 as [|i program [Hc Hjt Hjf Hk] _ (Hd & Hl & Hf)]; [done|].
  destruct (to_ne_bytes_2 _ Hc) as (a & b & E2 & Ha & Hab). destruct (to_ne_bytes_4 _ Hk) as (k0 & k1 & k2 & k3 & E4 & Hb & Hkk).
  assert (serialize_bpf_program (i :: program) = a :: b :: sk_jt i :: sk_jf i :: k0 :: k1 :: k2 :: k3 :: serialize_bpf_program program)
    as -> by (unfold serialize_bpf_program; cbn [map concat]; by rewrite E2, E4).
  split_and!; [|cbn [length]; lia|repeat (constructor; [tauto|]); done].
  etransitivity; [exact (f_equal (fmap (cons _)) Hd)|]. by rewrite <- Ha, <- Hb; destruct i.
Qed.
