(* ===== verification/Signing.v ===== *)
(** * Signed payloads

    Models [crates/mx-agent-protocol/src/signing.rs], the task-action signature
    of [task_orchestrator.rs] and the public-key encoding of the daemon's
    [signing.rs].  Ed25519, base64 and SHA-256 come from other crates: they are
    the operations of the class [Crypto], and what is relied on of them is
    [CryptoLaws]. *)
From stdpp Require Import gmap strings list.
From S2P Require Import Prelude RustStr CanonicalJson Schema.

(** ** Cryptography as an interface *)

(** Keys, signatures and encodings; byte strings are [string]s. *)
Class Crypto := {
  SigningKey : Type;
  VerifyingKey : Type;
  EdSignature : Type;
  verifying_key : SigningKey → VerifyingKey;
  ed_sign : SigningKey → string → EdSignature;
  ed_verify : VerifyingKey → string → EdSignature → bool;
  sig_to_bytes : EdSignature → string;
  sig_from_slice : string → option EdSignature;
  vk_as_bytes : VerifyingKey → string;
  vk_from_bytes : string → option VerifyingKey;
  sha256 : string → string;
  b64_encode : string → string;
  b64_decode : string → option string;
  b64_nopad_encode : string → string;
  b64_nopad_decode : string → option string;
  json_str : string → string;
}.
Class CryptoLaws `{Crypto} : Prop := {
  ed_sign_verify k m : ed_verify (verifying_key k) m (ed_sign k m) = true;
  sig_bytes_roundtrip s : sig_from_slice (sig_to_bytes s) = Some s;
  vk_bytes_roundtrip k : vk_from_bytes (vk_as_bytes k) = Some k;
  vk_bytes_length k : String.length (vk_as_bytes k) = 32;
  b64_roundtrip s : b64_decode (b64_encode s) = Some s;
  b64_empty : b64_decode "" = Some "";
  b64_nopad_roundtrip s : b64_nopad_decode (b64_nopad_encode s) = Some s;
  json_str_literal :: JsonString json_str;
}.

Definition SIGNATURE_FIELD : string := "signature".
Definition ALG_ED25519 : string := "ed25519".

Inductive SignatureError :=
| NotAnObject
| MissingSignature
| UnsupportedAlg (alg : string)
| MalformedSignature
| Invalid
| NonCanonical (e : CanonicalJsonError).

(** [Map::insert]: replaces the value of a present key. *)
Fixpoint map_insert (k : string) (v : Value) (es : list (string * Value)) : list (string * Value) :=
  match es with
  | [] => [(k, v)]
  | (k', v') :: es => if k' =s k then (k, v) :: es else (k', v') :: map_insert k v es
  end.

(** [serde_json::from_value::<Signature>]: an object (or, as [serde] derives
    for structs, a three-element array) with the three string fields; unknown
    fields are ignored. *)
Definition signature_from_value (v : Value) : option Signature :=
  match v with
  | Object es =>
      match entry "alg" es, entry "key_id" es, entry "sig" es with
      | Some (Str alg), Some (Str key_id), Some (Str sig) =>
          Some {| sig_alg := alg; sig_key_id := key_id; sig_sig := sig |}
      | _, _, _ => None
      end
  | Array [Str alg; Str key_id; Str sig] =>
      Some {| sig_alg := alg; sig_key_id := key_id; sig_sig := sig |}
  | _ => None
  end.

Section signing.
Context `{Crypto}.

(** The bytes that are signed: the object without its [signature] field. *)
Definition signing_bytes (content : Value) : result string SignatureError :=
  match content with
  | Object obj =>
      let unsigned := List.filter (λ kv, negb (kv.1 =s SIGNATURE_FIELD)) obj in
      match to_canonical_bytes json_str (Object unsigned) with
      | Ok bytes => Ok bytes
      | Err e => Err (NonCanonical e)
      end
  | _ => Err NotAnObject
  end.

Definition sign (signing_key : SigningKey) (key_id : string) (content : Value) : result Signature SignatureError :=
  let? bytes := signing_bytes content in
  let sig := ed_sign signing_key bytes in
  Ok {| sig_alg := ALG_ED25519; sig_key_id := key_id; sig_sig := b64_encode (sig_to_bytes sig) |}.

Definition sign_into (signing_key : SigningKey) (key_id : string) (content : Value) : result Value SignatureError :=
  let? signature := sign signing_key key_id content in
  match content with
  | Object obj => Ok (Object (map_insert SIGNATURE_FIELD (Signature_value signature) obj))
  | _ => Err NotAnObject
  end.

Definition verify_signature (key : VerifyingKey) (signature : Signature) (bytes : string) : result unit SignatureError :=
  if negb (signature.(sig_alg) =s ALG_ED25519) then Err (UnsupportedAlg signature.(sig_alg)) else
  let? raw := ok_or (b64_decode signature.(sig_sig)) MalformedSignature in
  let? ed_sig := ok_or (sig_from_slice raw) MalformedSignature in
  if ed_verify key bytes ed_sig then Ok tt else Err Invalid.

Definition verify (key : VerifyingKey) (content : Value) : result unit SignatureError :=
  match content with
  | Object obj =>
      let? sig_value := ok_or (entry SIGNATURE_FIELD obj) MissingSignature in
      let? signature := ok_or (signature_from_value sig_value) MalformedSignature in
      let? bytes := signing_bytes content in
      verify_signature key signature bytes
  | _ => Err NotAnObject
  end.

(** A decision after the round trip through its JSON: only the signature field
    changes.  Unlike the value, the struct keeps its [extra] map. *)
Definition set_apd_signature (d : ApprovalDecision) (s : option Signature) : ApprovalDecision :=
  {| apd_request_id := d.(apd_request_id); apd_decision := d.(apd_decision);
     apd_approved_by := d.(apd_approved_by); apd_created_at := d.(apd_created_at);
     apd_nonce := d.(apd_nonce); apd_expires_at := d.(apd_expires_at);
     apd_signature := s; apd_extra := d.(apd_extra) |}.
Definition sign_approval_decision (signing_key : SigningKey) (key_id : string) (d : ApprovalDecision) :
    result ApprovalDecision SignatureError :=
  let? value := sign_into signing_key key_id (ApprovalDecision_value d) in
  let? s := ok_or (field SIGNATURE_FIELD value ≫= signature_from_value) MalformedSignature in
  Ok (set_apd_signature d (Some s)).
Definition verify_approval_decision (key : VerifyingKey) (d : ApprovalDecision) : result unit SignatureError :=
  verify key (ApprovalDecision_value d).
(** [verify_signed], for an event given by its JSON value. *)
Definition verify_signed {T} (to_value : T → Value) (key : VerifyingKey) (event : T) : result unit SignatureError :=
  verify key (to_value event).

(** ** Task actions ([task_orchestrator.rs]) *)

Definition task_action_signing_value (task_id : string) (action : TaskAction) (auth : TaskActionAuthorization) : Value :=
  let action_value := TaskAction_value (without_authorization action) in
  let auth_meta := Object [
    ("requesting_agent", Str auth.(taa_requesting_agent));
    ("target_agent", Str auth.(taa_target_agent));
    ("created_at", Str auth.(taa_created_at));
    ("expires_at", Str auth.(taa_expires_at));
    ("nonce", Str auth.(taa_nonce))] in
  Object [("task_id", Str task_id); ("action", action_value); ("authorization", auth_meta)].

Definition verify_task_action_signature (key : VerifyingKey) (task_id : string) (action : TaskAction)
    (auth : TaskActionAuthorization) : result unit SignatureError :=
  match to_canonical_bytes json_str (task_action_signing_value task_id action auth) with
  | Ok bytes => verify_signature key auth.(taa_signature) bytes
  | Err e => Err (NonCanonical e)
  end.

Definition set_taa_signature (a : TaskActionAuthorization) (s : Signature) : TaskActionAuthorization :=
  {| taa_requesting_agent := a.(taa_requesting_agent); taa_target_agent := a.(taa_target_agent);
     taa_created_at := a.(taa_created_at); taa_expires_at := a.(taa_expires_at);
     taa_nonce := a.(taa_nonce); taa_signature := s; taa_extra := a.(taa_extra) |}.
Definition sign_task_action (signing_key : SigningKey) (key_id task_id : string) (action : TaskAction)
    (requesting_agent target_agent created_at expires_at nonce : string) :
    result TaskActionAuthorization SignatureError :=
  let auth := {| taa_requesting_agent := requesting_agent; taa_target_agent := target_agent;
                 taa_created_at := created_at; taa_expires_at := expires_at; taa_nonce := nonce;
                 taa_signature := {| sig_alg := ALG_ED25519; sig_key_id := key_id; sig_sig := "" |};
                 taa_extra := ∅ |} in
  let value := task_action_signing_value task_id action auth in
  let? signature := sign signing_key key_id value in
  Ok (set_taa_signature auth signature).

(** ** Public keys (the daemon's [signing.rs]) *)

Definition KEY_ID_PREFIX : string := "mxagent-ed25519".
Definition key_id_for_verifying_key (key : VerifyingKey) : string :=
  KEY_ID_PREFIX +:+ ":" +:+ b64_nopad_encode (sha256 (vk_as_bytes key)).
Definition fingerprint_of (key : VerifyingKey) : string :=
  "SHA256:" +:+ b64_nopad_encode (sha256 (vk_as_bytes key)).
Definition encode_verifying_key (key : VerifyingKey) : string := b64_nopad_encode (vk_as_bytes key).
(** [None] is [SigningKeyError::Malformed]. *)
Definition decode_verifying_key (encoded : string) : option VerifyingKey :=
  bytes ← b64_nopad_decode encoded;
  if Nat.eqb (String.length bytes) 32 then vk_from_bytes bytes else None.

(** ** Signing and verifying *)

#[local] Arguments signing_bytes : simpl never.
#[local] Arguments verify_signature : simpl never.

Lemma filter_map_insert k v es :
  List.filter (λ kv : string * Value, negb (kv.1 =s k)) (map_insert k v es)
  = List.filter (λ kv, negb (kv.1 =s k)) es.
Proof.
  induction es as [|[k' v'] es IH]; simpl; [by rewrite str_eqb_refl|].
  destruct (k' =s k) eqn:E; simpl; rewrite ?E, ?str_eqb_refl; simpl; [done|]. by rewrite IH.
Qed.
Lemma entry_map_insert k v es : entry k (map_insert k v es) = Some v.
Proof.
  unfold entry. induction es as [|[k' v'] es IH]; simpl; [by rewrite str_eqb_refl|].
  destruct (k' =s k) eqn:E; simpl; [by rewrite str_eqb_refl|]. by rewrite E.
Qed.
Lemma entry_map_insert_ne k k' v es : k ≠ k' → entry k (map_insert k' v es) = entry k es.
Proof.
  intros Hk. assert ((k' =s k) = false) as Hf by (by apply str_eqb_neq).
  unfold entry. induction es as [|[k0 v0] es IH]; simpl; [by rewrite Hf|].
  destruct (k0 =s k') eqn:E; simpl.
  - apply str_eqb_eq in E as ->. by rewrite Hf.
  - destruct (k0 =s k); [done|]. apply IH.
Qed.
Lemma signature_value_roundtrip s : signature_from_value (Signature_value s) = Some s.
Proof. by destruct s. Qed.

Lemma verify_signature_sign `{!CryptoLaws} k id bytes :
  verify_signature (verifying_key k)
    {| sig_alg := ALG_ED25519; sig_key_id := id; sig_sig := b64_encode (sig_to_bytes (ed_sign k bytes)) |} bytes
  = Ok tt.
Proof.
  unfold verify_signature. cbn. rewrite b64_roundtrip. simpl. rewrite sig_bytes_roundtrip. simpl.
  by rewrite ed_sign_verify.
Qed.

(** The signature itself is never part of the signed bytes. *)
Lemma signing_bytes_insert es v :
  signing_bytes (Object (map_insert SIGNATURE_FIELD v es)) = signing_bytes (Object es).
Proof. unfold signing_bytes. by rewrite filter_map_insert. Qed.

Definition unsigned_part (es : list (string * Value)) : list (string * Value) :=
  List.filter (λ kv, negb (kv.1 =s SIGNATURE_FIELD)) es.
Lemma elem_of_unsigned f v es : (f, v) ∈ unsigned_part es ↔ (f, v) ∈ es ∧ f ≠ SIGNATURE_FIELD.
Proof.
  unfold unsigned_part. rewrite !list_elem_of_In, List.filter_In, negb_true_iff, str_eqb_neq. done.
Qed.

(** Signed content verifies, and only its [signature] field is new. *)
Lemma sign_into_verify `{!CryptoLaws} k id content content' : sign_into k id content = Ok content' →
  verify (verifying_key k) content' = Ok tt ∧
  signing_bytes content' = signing_bytes content ∧
  (∀ f, f ≠ SIGNATURE_FIELD → field f content' = field f content).
Proof.
  intros Hs. unfold sign_into, sign in Hs.
  destruct (signing_bytes content) as [bytes|] eqn:Hb; [|done].
  destruct content as [| | | | |es]; try done. injection Hs as <-.
  split_and!.
  - unfold verify. rewrite entry_map_insert. simpl.
    rewrite signing_bytes_insert, Hb. apply verify_signature_sign.
  - rewrite signing_bytes_insert. done.
  - intros f Hf. simpl. by apply entry_map_insert_ne.
Qed.
Lemma sign_into_is_ok `{!CryptoLaws} k id content :
  is_ok (sign_into k id content) = true ↔
  ∃ es, content = Object es ∧ ∀ f v, (f, v) ∈ es → f ≠ SIGNATURE_FIELD → float_free v = true.
Proof.
  unfold sign_into, sign. destruct content as [| | | | |es];
    try (simpl; split; [done|intros (? & ? & _); done]).
  unfold signing_bytes, to_canonical_bytes, to_canonical_string.
  fold (unsigned_part es). set (u := unsigned_part es).
  destruct (write_value_spec json_str (Object u)) as [H1 H2].
  assert (float_free (Object u) = true ↔
    ∀ f v, (f, v) ∈ es → f ≠ SIGNATURE_FIELD → float_free v = true) as Hiff.
  { simpl. rewrite forallb_map_elem. split.
    - intros Hu f v Hin Hne. apply (Hu (f, v)). apply elem_of_unsigned. done.
    - intros Hu [f v] [Hin Hne]%elem_of_unsigned. eapply Hu; done. }
  destruct (float_free (Object u)) eqn:Hff.
  - rewrite H1 by done. split; [|done]. intros _. exists es. split; [done|]. by apply Hiff.
  - rewrite H2 by done. split; [done|]. intros (es' & [= <-] & Hes). by apply Hiff in Hes.
Qed.

(** Content signed by [sign_into] verifies under the signer's key, replaces
    only the [signature] field, and carries a signature over the same bytes as the
    unsigned content; signing fails exactly on contents that are not objects or
    hold a float outside the [signature] field. *)
Theorem sign_into_verifies `{!CryptoLaws} k id content :
  (∀ content', sign_into k id content = Ok content' →
     verify (verifying_key k) content' = Ok tt ∧
     signing_bytes content' = signing_bytes content ∧
     (∀ f, f ≠ SIGNATURE_FIELD → field f content' = field f content)) ∧
  (is_ok (sign_into k id content) = true ↔
   ∃ es, content = Object es ∧ ∀ f v, (f, v) ∈ es → f ≠ SIGNATURE_FIELD → float_free v = true).
Proof. split; [intros content'; apply sign_into_verify|apply sign_into_is_ok]. Qed.

(** ** What the signed bytes bind *)

Lemma NoDup_unsigned_part es : NoDup (es.*1) → NoDup ((unsigned_part es).*1).
Proof.
  unfold unsigned_part. induction es as [|[k v] es IH]; [done|]. cbn.
  intros [Hk Hnd]%NoDup_cons. destruct (k =s SIGNATURE_FIELD); simpl; [auto|].
  apply NoDup_cons. split; [|auto]. intros ([k' v'] & -> & Hin)%list_elem_of_fmap.
  apply Hk, list_elem_of_fmap. exists (k', v'). split; [done|].
  apply list_elem_of_In in Hin. apply List.filter_In in Hin as [Hin _]. by apply list_elem_of_In.
Qed.
Lemma entry_unsigned_part k es : k ≠ SIGNATURE_FIELD → entry k (unsigned_part es) = entry k es.
Proof.
  intros Hk. unfold entry, unsigned_part. induction es as [|[k' v'] es IH]; [done|]. simpl.
  destruct (k' =s SIGNATURE_FIELD) eqn:E; simpl.
  - apply str_eqb_eq in E as ->. by rewrite (proj2 (str_eqb_neq _ _)) by done.
  - destruct (k' =s k); [done|]. apply IH.
Qed.

Lemma canonical_eq_canon `{!CryptoLaws} v w b :
  to_canonical_bytes json_str v = Ok b → to_canonical_bytes json_str w = Ok b → canon v = canon w.
Proof.
  intros Hv Hw. unfold to_canonical_bytes, to_canonical_string in *.
  destruct (write_value_spec json_str v) as [Hv1 Hv2], (write_value_spec json_str w) as [Hw1 Hw2].
  destruct (float_free v) eqn:Fv; [|rewrite Hv2 in Hv by done; done].
  destruct (float_free w) eqn:Fw; [|rewrite Hw2 in Hw by done; done].
  rewrite Hv1 in Hv by done. rewrite Hw1 in Hw by done. simplify_eq.
  destruct (enc_inj json_str (canon v) ltac:(by rewrite float_free_canon) (canon w) "" "") as [? _]; try done.
  - by rewrite float_free_canon.
  - by rewrite !append_nil_r.
Qed.

Lemma signing_bytes_bind `{!CryptoLaws} es es' b :
  NoDup (es.*1) → NoDup (es'.*1) →
  signing_bytes (Object es) = Ok b → signing_bytes (Object es') = Ok b →
  ∀ k, k ≠ SIGNATURE_FIELD → canon <$> entry k es = canon <$> entry k es'.
Proof.
  intros Hnd Hnd' H1 H2 k Hk. unfold signing_bytes in H1, H2.
  destruct (to_canonical_bytes json_str (Object (List.filter _ es))) eqn:E1; [|done].
  destruct (to_canonical_bytes json_str (Object (List.filter _ es'))) eqn:E2; [|done]. simplify_eq.
  pose proof (canonical_eq_canon _ _ _ E1 E2) as Hc.
  rewrite <- (entry_unsigned_part k es), <- (entry_unsigned_part k es') by done.
  apply canon_eq_entry; auto using NoDup_unsigned_part.
Qed.

(** The keys of an object whose struct flattens an [extra] map. *)
Definition extra_ok (known : list string) (extra : Extra) : Prop :=
  ∀ k, k ∈ known → extra !! k = None.
Lemma NoDup_known_extra (l : list (string * Value)) extra known :
  l.*1 ⊆ known → NoDup (l.*1) → extra_ok known extra → NoDup ((l ++ btree_iter extra).*1).
Proof.
  intros Hsub Hnd Hex. rewrite fmap_app. apply NoDup_app. split_and!; [done| |apply NoDup_btree_keys].
  intros k Hk Hk'. change (k ∈ btree_keys extra) in Hk'. apply elem_of_btree_keys in Hk' as [v Hv].
  rewrite Hex in Hv; [done|]. by apply Hsub.
Qed.

(** Same action up to key order inside tool arguments and up to authorization. *)
Definition same_action (a a' : TaskAction) : Prop :=
  match a, a' with
  | Tool tool args _, Tool tool' args' _ => tool = tool' ∧ canon args = canon args'
  | Exec command cwd env timeout_ms stream _, Exec command' cwd' env' timeout_ms' stream' _ =>
      command = command' ∧ cwd = cwd' ∧ env = env' ∧ timeout_ms = timeout_ms' ∧ stream = stream'
  | _, _ => False
  end.

Lemma bind_strings l l' :
  Some (canon (strings_value l)) = Some (canon (strings_value l')) → l = l'.
Proof. rewrite !canon_strings. intros E. apply (inj Some) in E. by apply strings_value_inj. Qed.
Lemma bind_string_map m m' :
  Some (canon (string_map_value m)) = Some (canon (string_map_value m')) → m = m'.
Proof. rewrite !canon_string_map. intros E. apply (inj Some) in E. by apply string_map_value_inj. Qed.
Lemma bind_opt_string (o o' : option string) :
  Some (canon (opt_value (λ x, Str x) o)) = Some (canon (opt_value (λ x, Str x) o')) → o = o'.
Proof. destruct o, o'; simpl; by intros; simplify_eq. Qed.

Lemma TaskAction_value_bind a a' :
  canon (TaskAction_value (without_authorization a)) = canon (TaskAction_value (without_authorization a')) →
  same_action a a'.
Proof.
  intros Hc.
  assert (∀ k, canon <$> field k (TaskAction_value (without_authorization a))
             = canon <$> field k (TaskAction_value (without_authorization a'))) as Hb.
  { intros k. destruct a, a'; simpl in *; (apply canon_eq_entry; [..|exact Hc]);
      (apply nodupb_NoDup; reflexivity). }
  destruct a as [tool args o|command cwd env t st o], a' as [tool' args' o'|command' cwd' env' t' st' o']; simpl in *.
  - split; [by injection (Hb "tool")|by injection (Hb "args")].
  - discriminate (Hb "type").
  - discriminate (Hb "type").
  - split_and!.
    + apply bind_strings. exact (Hb "command").
    + by injection (Hb "cwd").
    + apply bind_string_map. exact (Hb "env").
    + pose proof (Hb "timeout_ms") as H1. destruct t, t'; simpl in H1; by simplify_eq.
    + by injection (Hb "stream").
Qed.

(** A produced authorization carries its inputs and verifies under the signer's key. *)
Lemma sign_task_action_verifies `{!CryptoLaws} k kid tid a ra ta c e n auth :
  sign_task_action k kid tid a ra ta c e n = Ok auth →
  verify_task_action_signature (verifying_key k) tid (with_authorization a auth) auth = Ok tt ∧
  auth.(taa_requesting_agent) = ra ∧ auth.(taa_target_agent) = ta ∧ auth.(taa_created_at) = c ∧
  auth.(taa_expires_at) = e ∧ auth.(taa_nonce) = n ∧ auth.(taa_signature).(sig_key_id) = kid.
Proof.
  unfold sign_task_action, sign. set (v := task_action_signing_value tid a _).
  assert (signing_bytes v = match to_canonical_bytes json_str v with
                            | Ok b => Ok b | Err e => Err (NonCanonical e) end) as -> by reflexivity.
  destruct (to_canonical_bytes json_str v) as [b|] eqn:Hb; [|done]. intros [= <-]. split; [|done].
  unfold verify_task_action_signature.
  match goal with |- context [to_canonical_bytes json_str ?w] =>
    assert (w = v) as -> by (unfold v; by destruct a) end.
  rewrite Hb. apply verify_signature_sign.
Qed.

(** C31: The bytes a task-action signature covers determine the task id, the
    whole action (up to key order inside tool arguments) and the authorization
    metadata: no other task, command, environment, target, nonce or expiry has the
    same signed bytes.  The authorization [sign_task_action] returns verifies under
    the signer's key, also on the action it has been attached to. *)
Theorem task_action_signature_binds `{!CryptoLaws} task_id action auth b :
  to_canonical_bytes json_str (task_action_signing_value task_id action auth) = Ok b →
  (∀ task_id' action' auth',
     to_canonical_bytes json_str (task_action_signing_value task_id' action' auth') = Ok b →
     task_id' = task_id ∧ same_action action' action ∧
     auth'.(taa_requesting_agent) = auth.(taa_requesting_agent) ∧
     auth'.(taa_target_agent) = auth.(taa_target_agent) ∧
     auth'.(taa_created_at) = auth.(taa_created_at) ∧
     auth'.(taa_expires_at) = auth.(taa_expires_at) ∧
     auth'.(taa_nonce) = auth.(taa_nonce)) ∧
  ∀ k key_id, ∃ auth',
    sign_task_action k key_id task_id action auth.(taa_requesting_agent) auth.(taa_target_agent)
      auth.(taa_created_at) auth.(taa_expires_at) auth.(taa_nonce) = Ok auth' ∧
    verify_task_action_signature (verifying_key k) task_id (with_authorization action auth') auth' = Ok tt.
Proof.
  intros Hb. split.
  - intros task_id' action' auth' Hb'. pose proof (canonical_eq_canon _ _ _ Hb' Hb) as Hc.
    assert (∀ k, canon <$> field k (task_action_signing_value task_id' action' auth')
               = canon <$> field k (task_action_signing_value task_id action auth)) as Hf.
    { intros k. simpl. apply canon_eq_entry; [..|exact Hc]; apply nodupb_NoDup; reflexivity. }
    pose proof (Hf "task_id") as Ht. pose proof (Hf "action") as Ha. pose proof (Hf "authorization") as Hm.
    apply (inj Some) in Ha, Ht, Hm. apply TaskAction_value_bind in Ha.
    simpl in Ht, Hm. by simplify_eq.
  - assert (∀ k a o, task_action_signing_value task_id (with_authorization action a)
                 (set_taa_signature {| taa_requesting_agent := auth.(taa_requesting_agent);
                    taa_target_agent := auth.(taa_target_agent); taa_created_at := auth.(taa_created_at);
                    taa_expires_at := auth.(taa_expires_at); taa_nonce := auth.(taa_nonce);
                    taa_signature := k; taa_extra := ∅ |} o)
               = task_action_signing_value task_id action auth) as Hval.
    { intros k a o. by destruct action. }
    assert (signing_bytes (task_action_signing_value task_id action auth) = Ok b) as Hsb.
    { trans (match to_canonical_bytes json_str (task_action_signing_value task_id action auth) with
             | Ok bytes => Ok bytes | Err e => Err (NonCanonical e) end); [reflexivity|]. by rewrite Hb. }
    intros k key_id. eexists. unfold sign_task_action, sign.
    match goal with |- context [signing_bytes ?v] =>
      replace v with (task_action_signing_value task_id action auth) by done end.
    rewrite Hsb. split; [reflexivity|]. unfold verify_task_action_signature. rewrite Hval, Hb.
    apply verify_signature_sign.
Qed.

(** The keys of an exec request. *)
Definition exec_request_keys : list string :=
  ["invocation_id"; "request_id"; "target_agent"; "requesting_agent"; "command"; "cwd"; "env";
   "stdin"; "stream"; "pty"; "timeout_ms"; "task_id"; "created_at"; "expires_at"; "nonce";
   "idempotency_key"; "signature"].

Lemma entry_app_r k l l' : k ∉ l.*1 → entry k (l ++ l') = entry k l'.
Proof.
  unfold entry. induction l as [|[k' v] l IH]; [done|]. simpl. intros Hk.
  rewrite (proj2 (str_eqb_neq k' k)).
  - apply IH. intros ?. apply Hk. by right.
  - intros ->. apply Hk. left.
Qed.
Lemma entry_extra k (extra : Extra) : entry k (btree_iter extra) = extra !! k.
Proof.
  destruct (extra !! k) as [v|] eqn:E.
  - apply elem_entry; [apply NoDup_btree_keys|]. by apply elem_of_btree_iter.
  - destruct (entry k _) as [v|] eqn:E'; [|done]. apply entry_elem, elem_of_btree_iter in E'. congruence.
Qed.

Lemma exec_request_unknown k r :
  k ∉ exec_request_keys → field k (ExecRequest_value r) = r.(er_extra) !! k.
Proof. intros Hk. unfold ExecRequest_value, field. by rewrite entry_app_r, entry_extra. Qed.

(** The signature of an exec request covers every field of it but the
    signature: two requests with the same signed bytes are equal up to the
    signature and up to the key order inside unknown fields. *)
Theorem exec_request_signature_binds `{!CryptoLaws} r r' b :
  extra_ok exec_request_keys r.(er_extra) → extra_ok exec_request_keys r'.(er_extra) →
  signing_bytes (ExecRequest_value r) = Ok b → signing_bytes (ExecRequest_value r') = Ok b →
  r' = {| er_invocation_id := r.(er_invocation_id); er_request_id := r.(er_request_id);
          er_target_agent := r.(er_target_agent); er_requesting_agent := r.(er_requesting_agent);
          er_command := r.(er_command); er_cwd := r.(er_cwd); er_env := r.(er_env);
          er_stdin := r.(er_stdin); er_stream := r.(er_stream); er_pty := r.(er_pty);
          er_timeout_ms := r.(er_timeout_ms); er_task_id := r.(er_task_id);
          er_created_at := r.(er_created_at); er_expires_at := r.(er_expires_at);
          er_nonce := r.(er_nonce); er_idempotency_key := r.(er_idempotency_key);
          er_signature := r'.(er_signature); er_extra := r'.(er_extra) |} ∧
  ∀ k, canon <$> r.(er_extra) !! k = canon <$> r'.(er_extra) !! k.
Proof.
  intros Hx Hx' Hb Hb'.
  assert (∀ r, extra_ok exec_request_keys r.(er_extra) →
    ∃ es, ExecRequest_value r = Object es ∧ NoDup (es.*1)) as Hnd.
  { intros r0 Hr0. eexists. split; [reflexivity|].
    apply NoDup_known_extra with exec_request_keys; [reflexivity| |done]. apply nodupb_NoDup; reflexivity. }
  destruct (Hnd r Hx) as (es & Hes & Hn), (Hnd r' Hx') as (es' & Hes' & Hn').
  rewrite Hes in Hb. rewrite Hes' in Hb'.
  pose proof (signing_bytes_bind es es' b Hn Hn' Hb Hb') as Hf.
  assert (∀ k, k ≠ SIGNATURE_FIELD →
    canon <$> field k (ExecRequest_value r) = canon <$> field k (ExecRequest_value r')) as Hf'
    by (rewrite Hes, Hes'; exact Hf).
  clear Hf. rename Hf' into Hf. split.
  - clear -Hf. destruct r, r'. simpl. f_equal; try
      match goal with |- ?x' = ?x => is_var x; is_var x'; first
      [ by injection (Hf "invocation_id" ltac:(done)) | by injection (Hf "request_id" ltac:(done))
      | by injection (Hf "target_agent" ltac:(done)) | by injection (Hf "requesting_agent" ltac:(done))
      | by injection (Hf "cwd" ltac:(done)) | by injection (Hf "stdin" ltac:(done))
      | by injection (Hf "stream" ltac:(done)) | by injection (Hf "pty" ltac:(done))
      | by injection (Hf "timeout_ms" ltac:(done)) | by injection (Hf "created_at" ltac:(done))
      | by injection (Hf "expires_at" ltac:(done)) | by injection (Hf "nonce" ltac:(done))
      | by injection (Hf "idempotency_key" ltac:(done)) ] end.
    + symmetry. apply bind_strings. exact (Hf "command" ltac:(done)).
    + symmetry. apply bind_string_map. exact (Hf "env" ltac:(done)).
    + symmetry. apply bind_opt_string. exact (Hf "task_id" ltac:(done)).
  - intros k. destruct (decide (k ∈ exec_request_keys)) as [Hk|Hk].
    + by rewrite Hx, Hx'.
    + rewrite <- !exec_request_unknown by done. apply Hf. intros ->. apply Hk. unfold exec_request_keys. rewrite !elem_of_cons. tauto.
Qed.
End signing.

(** ** A concrete instance of the interface *)

(** One key whose signature of a message is the message. *)
Module Toy.
Definition key_bytes : string := "0123456789abcdef0123456789abcdef".
#[export] Instance toy_crypto : Crypto := {|
  SigningKey := unit; VerifyingKey := unit; EdSignature := string;
  verifying_key := id; ed_sign _ m := m; ed_verify _ m s := m =s s;
  sig_to_bytes := id; sig_from_slice := Some;
  vk_as_bytes _ := key_bytes; vk_from_bytes _ := Some tt;
  sha256 := id; b64_encode := id; b64_decode := Some; b64_nopad_encode := id; b64_nopad_decode := Some;
  json_str := plain_json_str;
|}.
#[export] Instance toy_laws : CryptoLaws.
Proof.
  split; try done; simpl; [intros; apply str_eqb_refl|by intros []|apply _].
Qed.

Definition content : Value := Object [("nonce", Str "n1"); ("command", strings_value ["ls"])].
Definition auth : TaskActionAuthorization :=
  {| taa_requesting_agent := "@a:s"; taa_target_agent := "agent-b"; taa_created_at := "2026-01-01T00:00:00Z";
     taa_expires_at := "2026-01-02T00:00:00Z"; taa_nonce := "n1";
     taa_signature := {| sig_alg := ALG_ED25519; sig_key_id := "k"; sig_sig := "" |}; taa_extra := ∅ |}.
Definition action : TaskAction := Exec ["ls"; "-l"] "/work" ∅ (Some 1000%Z) true None.
Definition request (sig : string) : ExecRequest :=
  {| er_invocation_id := "inv"; er_request_id := "req"; er_target_agent := "agent-b";
     er_requesting_agent := "@a:s"; er_command := ["ls"]; er_cwd := "/work"; er_env := ∅;
     er_stdin := false; er_stream := true; er_pty := false; er_timeout_ms := 1000; er_task_id := None;
     er_created_at := "2026-01-01T00:00:00Z"; er_expires_at := "2026-01-02T00:00:00Z"; er_nonce := "n1";
     er_idempotency_key := "i"; er_signature := {| sig_alg := ALG_ED25519; sig_key_id := "k"; sig_sig := sig |};
     er_extra := ∅ |}.
End Toy.

Section toy_witnesses.
#[local] Existing Instance Toy.toy_crypto.
#[local] Existing Instance Toy.toy_laws.
Lemma sign_into_verifies_witness :
  ∃ content', sign_into tt "k" Toy.content = Ok content' ∧ verify tt content' = Ok tt.
Proof.
  destruct (sign_into (H := Toy.toy_crypto) tt "k" Toy.content) as [c|] eqn:E; [|discriminate E].
  exists c. split; [done|].
  exact (proj1 (proj1 (sign_into_verifies tt "k" Toy.content) c E)).
Defined.
Lemma task_action_signature_binds_witness :
  ∃ auth', sign_task_action tt "k" "t1" Toy.action "@a:s" "agent-b"
             "2026-01-01T00:00:00Z" "2026-01-02T00:00:00Z" "n1" = Ok auth' ∧
    verify_task_action_signature tt "t1" (with_authorization Toy.action auth') auth' = Ok tt.
Proof.
  destruct (to_canonical_bytes json_str (task_action_signing_value "t1" Toy.action Toy.auth)) as [b|] eqn:E;
    [|discriminate E].
  exact (proj2 (task_action_signature_binds "t1" Toy.action Toy.auth b E) tt "k").
Defined.
Lemma exec_request_signature_binds_witness :
  (Toy.request "s2").(er_command) = (Toy.request "s1").(er_command).
Proof.
  assert (∀ s, extra_ok exec_request_keys (Toy.request s).(er_extra)) as Hx by (intros s k _; apply lookup_empty).
  destruct (signing_bytes (ExecRequest_value (Toy.request "s1"))) as [b|] eqn:E; [|discriminate E].
  assert (signing_bytes (ExecRequest_value (Toy.request "s2")) = Ok b) as E' by (rewrite <- E; reflexivity).
  rewrite (proj1 (exec_request_signature_binds _ _ b (Hx "s1") (Hx "s2") E E')). reflexivity.
Defined.
End toy_witnesses.
