(* ===== verification/Room.v ===== *)
(** * Workspace rooms

    The Matrix room as the daemon uses it: the [com.mxagent.*] state events keyed
    by state key (last write wins), the timeline events sent, and the homeserver's
    answers to sends.  Models the state access of [task.rs] and [invocation.rs]
    ([read_task_state], [publish_task_state] and their kin) and the error type of
    [workspace.rs].  Syncing, room resolution and event encoding belong to the
    Matrix SDK: the model starts from the resolved room.  An operation works on the room
    it is given; the daemon's local copy may be behind the homeserver's, and
    [TaskLifecycle.versions] runs each operation on such a copy and writes its result over
    what the room holds. *)
From stdpp Require Import gmap strings list.
From S2P Require Import Prelude RustStr CanonicalJson Schema.

(** The errors of [workspace.rs]; [Matrix] stands for every error of the SDK and [Io]
    for local failures. *)
Inductive WorkspaceError :=
| InvalidTarget (target : string)
| RoomNotFound (target : string)
| InvalidPath (path : string)
| TaskExists (task_id : string)
| TaskNotFound (task_id : string)
| InvalidTaskState (state : string)
| InvalidTaskTransition (task_id from to : string)
| StaleTaskUpdate (task_id : string) (expected current : Z)
| InvocationNotFound (invocation_id : string)
| ApprovalNotFound (request_id : string)
| ContextNotFound (context_id : string)
| ContextIntegrity (context_id expected actual : string)
| ContextRetrievalFailed (message : string)
| ContextCaptureFailed (message : string)
| ArtifactNotFound (what : string)
| ArtifactIntegrity (invocation_id stream expected actual : string)
| ArtifactRetrievalFailed (message : string)
| WorkspaceForbidden (room_id event_type : string) (required_pl : Z)
| Matrix
| Io.
#[export] Instance WorkspaceError_eq_dec : EqDecision WorkspaceError.
Proof. solve_decision. Defined.

(** A state event as [get_field("content")] reads it: content that decodes, with the
    event id when the room is joined; no content, or [null]; content that does not
    decode, such as the empty object a redaction leaves. *)
Inductive StateEvent (T : Type) :=
| Content (content : T) (event_id : option string)
| Cleared
| Malformed.
Arguments Content {_} _ _.
Arguments Cleared {_}.
Arguments Malformed {_}.

Record Room := {
  room_tasks : gmap string (StateEvent TaskState);
  room_invocations : gmap string (StateEvent InvocationState);
  (** Ids of the invocations an [exec.cancel] event was sent for, oldest first. *)
  room_cancels : list string;
  (** The homeserver's answers to the next sends: an event id, or a failure. *)
  room_answers : list (option string);
}.

(** ** Operations on a room: state and errors *)

Definition M (A : Type) : Type := st Room WorkspaceError A.

(** One send: the next answer of the homeserver. *)
Definition send : M string := λ r,
  match r.(room_answers) with
  | Some id :: answers =>
      (Ok id, {| room_tasks := r.(room_tasks); room_invocations := r.(room_invocations);
                 room_cancels := r.(room_cancels); room_answers := answers |})
  | None :: answers =>
      (Err Matrix, {| room_tasks := r.(room_tasks); room_invocations := r.(room_invocations);
                      room_cancels := r.(room_cancels); room_answers := answers |})
  | [] => (Err Matrix, r)
  end.

Definition set_task (k : string) (t : TaskState) (event_id : string) (r : Room) : Room :=
  {| room_tasks := <[k := Content t (Some event_id)]> r.(room_tasks);
     room_invocations := r.(room_invocations); room_cancels := r.(room_cancels);
     room_answers := r.(room_answers) |}.
Definition set_invocation (k : string) (i : InvocationState) (event_id : string) (r : Room) : Room :=
  {| room_tasks := r.(room_tasks);
     room_invocations := <[k := Content i (Some event_id)]> r.(room_invocations);
     room_cancels := r.(room_cancels); room_answers := r.(room_answers) |}.
Definition add_cancel (invocation_id : string) (r : Room) : Room :=
  {| room_tasks := r.(room_tasks); room_invocations := r.(room_invocations);
     room_cancels := r.(room_cancels) ++ [invocation_id]; room_answers := r.(room_answers) |}.

(** [read_task_state]. *)
Definition read_task_state (task_id : string) : M (option (TaskState * option string)) := λ r,
  match r.(room_tasks) !! task_id with
  | Some (Content t id) => (Ok (Some (t, id)), r)
  | Some Malformed => (Err Matrix, r)
  | Some Cleared | None => (Ok None, r)
  end.
(** [publish_task_state]: the key is the argument, not the id inside the state. *)
Definition publish_task_state (task_id : string) (state : TaskState) : M string :=
  let! event_id := send in
  λ r, (Ok event_id, set_task task_id state event_id r).

Definition read_invocation_state (invocation_id : string) : M (option InvocationState) := λ r,
  match r.(room_invocations) !! invocation_id with
  | Some (Content i _) => (Ok (Some i), r)
  | Some Malformed => (Err Matrix, r)
  | Some Cleared | None => (Ok None, r)
  end.
(** [publish_invocation_state]: the key is the id inside the state. *)
Definition publish_invocation_state (state : InvocationState) : M unit :=
  let! event_id := send in
  λ r, (Ok tt, set_invocation state.(is_invocation_id) state event_id r).

(** The loop of [read_all_task_states]: events without content are skipped, content
    that does not decode fails the whole read. *)
Fixpoint read_contents {T} (raws : list (StateEvent T)) : result (list T) WorkspaceError :=
  match raws with
  | [] => Ok []
  | Content t _ :: raws => let? ts := read_contents raws in Ok (t :: ts)
  | Cleared :: raws => read_contents raws
  | Malformed :: _ => Err Matrix
  end.
(** The order of [get_state_events] is the SDK's; [raws] is a listing of the room. *)
Definition read_all_task_states (raws : list (StateEvent TaskState)) : result (list TaskState) WorkspaceError :=
  read_contents raws.
Definition read_all_invocation_states (raws : list (StateEvent InvocationState)) :
    result (list InvocationState) WorkspaceError :=
  read_contents raws.

(** [u64] wrap-around (release builds). *)
Definition wrap_u64 (z : Z) : Z := z `mod` 18446744073709551616.

(** ** How reads and sends change a room *)

Lemma read_task_state_room k r res r' : read_task_state k r = (res, r') → r' = r.
Proof. unfold read_task_state. intros. by crush_match. Qed.
Lemma read_invocation_state_room k r res r' : read_invocation_state k r = (res, r') → r' = r.
Proof. unfold read_invocation_state. intros. by crush_match. Qed.
Lemma send_room r res r' :
  send r = (res, r') →
  r'.(room_tasks) = r.(room_tasks) ∧ r'.(room_invocations) = r.(room_invocations) ∧
  r'.(room_cancels) = r.(room_cancels).
Proof. unfold send. intros. by crush_match. Qed.
Lemma publish_task_state_room k t r res r' :
  publish_task_state k t r = (res, r') →
  r'.(room_invocations) = r.(room_invocations) ∧
  match res with
  | Ok id => r'.(room_tasks) = <[k := Content t (Some id)]> r.(room_tasks)
  | Err _ => r'.(room_tasks) = r.(room_tasks)
  end.
Proof.
  unfold publish_task_state, bind. destruct (send r) as [[id|e] r1] eqn:E; apply send_room in E as (Ht & Hi & _);
    intros [= <- <-]; simpl; by rewrite ?Ht.
Qed.
Lemma publish_invocation_state_room i r res r' :
  publish_invocation_state i r = (res, r') →
  r'.(room_tasks) = r.(room_tasks) ∧
  (is_ok res = false → r'.(room_invocations) = r.(room_invocations)).
Proof.
  unfold publish_invocation_state, bind. destruct (send r) as [[id|e] r1] eqn:E; apply send_room in E as (Ht & Hi & _);
    intros [= <- <-]; simpl; by rewrite ?Ht.
Qed.
