(* ===== verification/Invocation.v ===== *)
(** * Invocation lifecycle

    Models [crates/mx-agent-daemon/src/invocation.rs]: the lifecycle states of an
    invocation, its transitions in the room, cancellation, and the task result
    derived from a finished invocation. *)
From stdpp Require Import gmap strings list.
From S2P Require Import Prelude RustStr CanonicalJson Schema Room.

Definition STATE_ACCEPTED : string := "accepted".
Definition STATE_RUNNING : string := "running".
Definition STATE_SUCCEEDED : string := "succeeded".
Definition STATE_FAILED : string := "failed".
Definition STATE_CANCELLED : string := "cancelled".

Definition is_terminal (state : string) : bool :=
  (state =s STATE_SUCCEEDED) || (state =s STATE_FAILED) || (state =s STATE_CANCELLED).

Definition terminal_state_for_exit (exit_code : Z) : string :=
  if (exit_code =? 0)%Z then STATE_SUCCEEDED else STATE_FAILED.

Definition invocation_for_task (task_id invocation_id requester target now : string) : InvocationState :=
  {| is_invocation_id := invocation_id; is_task_id := Some task_id; is_requester := requester;
     is_target := target; is_state := STATE_ACCEPTED; is_created_at := now; is_updated_at := now;
     is_exit_code := None; is_state_rev := 0; is_extra := ∅ |}.

Definition task_state_for_invocation (invocation_state : string) : option string :=
  if invocation_state =s STATE_SUCCEEDED then Some STATE_SUCCEEDED
  else if invocation_state =s STATE_FAILED then Some STATE_FAILED
  else if invocation_state =s STATE_CANCELLED then Some STATE_CANCELLED
  else None.

Definition task_result_from_invocation (invocation : InvocationState) (completed_by now : string) : TaskResult :=
  let st := invocation.(is_state) in
  let reason :=
    if st =s STATE_FAILED then Some "process_exit"
    else if st =s STATE_CANCELLED then Some "cancelled" else None in
  let summary :=
    if st =s STATE_SUCCEEDED then Some "invocation succeeded"
    else if st =s STATE_FAILED then Some "invocation failed"
    else if st =s STATE_CANCELLED then Some "invocation cancelled"
    else Some ("invocation " +:+ st) in
  {| tr_status := st; tr_completed_by := completed_by; tr_completed_at := now;
     tr_invocation_id := Some invocation.(is_invocation_id); tr_action := None; tr_reason := reason;
     tr_exit_code := invocation.(is_exit_code); tr_summary := summary; tr_artifact_mxc := None;
     tr_extra := ∅ |}.

(** [ListInvocationsOptions], less the room, and its filter. *)
Record ListInvocationsOptions := {
  li_state : option string;
  li_task_id : option string;
}.
Definition matches_filters (invocation : InvocationState) (options : ListInvocationsOptions) : bool :=
  match options.(li_state) with None => true | Some s => invocation.(is_state) =s s end
  && match options.(li_task_id) with
     | None => true
     | Some t => bool_decide (invocation.(is_task_id) = Some t)
     end.

(** [apply_transition]. *)
Definition apply_transition (invocation : InvocationState) (state : string) (exit_code : option Z) (now : string) :
    InvocationState :=
  {| is_invocation_id := invocation.(is_invocation_id); is_task_id := invocation.(is_task_id);
     is_requester := invocation.(is_requester); is_target := invocation.(is_target);
     is_state := state; is_created_at := invocation.(is_created_at); is_updated_at := now;
     is_exit_code := match exit_code with Some code => Some code | None => invocation.(is_exit_code) end;
     is_state_rev := wrap_u64 (invocation.(is_state_rev) + 1); is_extra := invocation.(is_extra) |}.

Definition advance_invocation (now invocation_id state : string) (exit_code : option Z) : M InvocationState :=
  let! read := read_invocation_state invocation_id in
  let! invocation := lift (ok_or read (InvocationNotFound invocation_id)) in
  let invocation := apply_transition invocation state exit_code now in
  let! _ := publish_invocation_state invocation in
  ret invocation.

(** [send_exec_cancel]: the signed cancel event, sent to the timeline. *)
Definition send_exec_cancel (invocation_id : string) : M unit :=
  let! _ := send in λ r, (Ok tt, add_cancel invocation_id r).

Definition cancel_invocation (now invocation_id : string) : M InvocationState :=
  let! read := read_invocation_state invocation_id in
  let! invocation := lift (ok_or read (InvocationNotFound invocation_id)) in
  if is_terminal invocation.(is_state) then ret invocation else
  let! _ := send_exec_cancel invocation_id in
  let invocation := apply_transition invocation STATE_CANCELLED None now in
  let! _ := publish_invocation_state invocation in
  ret invocation.

Definition invocation_id_le (a b : InvocationState) : Prop := String.le a.(is_invocation_id) b.(is_invocation_id).
#[export] Instance invocation_id_le_dec : RelDecision invocation_id_le.
Proof. intros a b. unfold invocation_id_le. apply _. Defined.
(** [list_invocations] on a listing of the room. *)
Definition list_invocations (raws : list (StateEvent InvocationState)) (options : ListInvocationsOptions) :
    result (list InvocationState) WorkspaceError :=
  let? invocations := read_all_invocation_states raws in
  Ok (sort_by invocation_id_le (List.filter (λ i, matches_filters i options) invocations)).
Definition get_invocation (invocation_id : string) : M (option InvocationState) :=
  read_invocation_state invocation_id.

(** ** Cancellation *)

Lemma is_terminal_iff s :
  is_terminal s = true ↔ s = STATE_SUCCEEDED ∨ s = STATE_FAILED ∨ s = STATE_CANCELLED.
Proof. unfold is_terminal. rewrite !orb_true_iff, !str_eqb_eq. tauto. Qed.

Lemma task_state_for_invocation_spec s :
  task_state_for_invocation s = if is_terminal s then Some s else None.
Proof.
  unfold task_state_for_invocation, is_terminal.
  destruct (s =s STATE_SUCCEEDED) eqn:E1; [by apply str_eqb_eq in E1 as ->|].
  destruct (s =s STATE_FAILED) eqn:E2; [by apply str_eqb_eq in E2 as ->|].
  destruct (s =s STATE_CANCELLED) eqn:E3; [by apply str_eqb_eq in E3 as ->|]. done.
Qed.

(** The invocation as [read_invocation_state] sees it. *)
Definition invocation_in (r : Room) (k : string) (i : InvocationState) : Prop :=
  ∃ id, r.(room_invocations) !! k = Some (Content i id).

Lemma read_invocation_state_Some k r i r' :
  read_invocation_state k r = (Ok (Some i), r') ↔ invocation_in r k i ∧ r' = r.
Proof.
  unfold read_invocation_state, invocation_in. split.
  - intros H. crush_match. eauto.
  - intros [[id ->] ->]. done.
Qed.

Lemma cancel_invocation_tasks now k r res r' :
  cancel_invocation now k r = (res, r') → r'.(room_tasks) = r.(room_tasks).
Proof.
  unfold cancel_invocation, bind, lift, ret, send_exec_cancel, bind.
  destruct (read_invocation_state k r) as [[o|e] r1] eqn:E; apply read_invocation_state_room in E as ->;
    [|by intros [= <- <-]].
  destruct o as [i|]; simpl; [|by intros [= <- <-]].
  destruct (is_terminal _); [by intros [= <- <-]|].
  destruct (send r) as [[id|e] r1] eqn:E; apply send_room in E as (Ht & _); simpl; [|by intros [= <- <-]].
  destruct (publish_invocation_state _ _) as [[u|e] r2] eqn:E2; apply publish_invocation_state_room in E2 as [Ht2 _];
    simpl in Ht2; intros [= <- <-]; congruence.
Qed.

Lemma cancel_invocation_result now k r i r' :
  cancel_invocation now k r = (Ok i, r') →
  ∃ i0, invocation_in r k i0 ∧
    if is_terminal i0.(is_state) then i = i0 ∧ r' = r
    else i = apply_transition i0 STATE_CANCELLED None now ∧ r'.(room_cancels) = r.(room_cancels) ++ [k] ∧
         ∃ id, r'.(room_invocations) = <[i.(is_invocation_id) := Content i (Some id)]> r.(room_invocations).
Proof.
  unfold cancel_invocation, bind, lift, ret, send_exec_cancel, bind.
  destruct (read_invocation_state k r) as [[[i0|]|e] r1] eqn:E; simpl; try done.
  apply read_invocation_state_Some in E as [Hin ->]. intros H. exists i0. split; [done|].
  destruct (is_terminal _); [by simplify_eq/=|].
  unfold publish_invocation_state, bind in H.
  destruct (send r) as [[id|e] r1] eqn:E; simpl in H; [|done]. apply send_room in E as (_ & Hi & Hc).
  destruct (send (add_cancel k r1)) as [[id2|e] r2] eqn:E2; simpl in H; [|done].
  apply send_room in E2 as (_ & Hi2 & Hc2). simplify_eq/=. split_and!; [done|by rewrite Hc2, <- Hc|].
  exists id2. by rewrite Hi2, Hi.
Qed.

(** Cancelling an invocation always ends in a terminal state: a finished
    invocation is returned unchanged and nothing is sent; a live one gets exactly
    one cancel event and is republished as [cancelled] with its revision advanced. *)
Theorem cancel_invocation_terminal now k r i r' :
  cancel_invocation now k r = (Ok i, r') →
  is_terminal i.(is_state) = true ∧
  ∃ i0, invocation_in r k i0 ∧
    (is_terminal i0.(is_state) = true → i = i0 ∧ r' = r) ∧
    (is_terminal i0.(is_state) = false →
       i.(is_state) = STATE_CANCELLED ∧ i.(is_exit_code) = i0.(is_exit_code) ∧
       i.(is_state_rev) = wrap_u64 (i0.(is_state_rev) + 1) ∧
       r'.(room_cancels) = r.(room_cancels) ++ [k] ∧ invocation_in r' i.(is_invocation_id) i).
Proof.
  intros (i0 & Hin & H)%cancel_invocation_result. destruct (is_terminal (is_state i0)) eqn:Ht.
  - destruct H as [-> ->]. split; [done|]. exists i0. split; [done|]. split; intros ?; [done|congruence].
  - destruct H as (-> & Hc & id & Hi). split; [done|]. exists i0. split; [done|]. split; intros ?; [congruence|].
    split_and!; try done. exists (Some id). rewrite Hi. apply lookup_insert_eq.
Qed.

(** [advance_invocation] does not check the lifecycle: it moves a finished
    invocation to any state it is given, so a terminal invocation can be reopened. *)
Theorem advance_reopens_terminal now k state code r i id answers :
  r.(room_invocations) !! k = Some (Content i id) → i.(is_invocation_id) = k →
  is_terminal i.(is_state) = true → r.(room_answers) = Some "$e" :: answers →
  ∃ i' r', advance_invocation now k state code r = (Ok i', r') ∧
    i'.(is_state) = state ∧ invocation_in r' k i'.
Proof.
  intros Hi Hk _ Ha.
  unfold advance_invocation, bind, read_invocation_state, lift, publish_invocation_state, bind, send, ret.
  rewrite Hi. simpl. rewrite Ha. simpl. eexists _, _. split; [reflexivity|]. split; [done|].
  exists (Some "$e"). simpl. rewrite Hk. apply lookup_insert_eq.
Qed.

(** ** Witnesses *)

Module Sample.
Definition live (st : string) : InvocationState :=
  apply_transition (invocation_for_task "t1" "inv1" "@a:s" "agent-b" "now") st None "later".
Definition room (st : string) : Room :=
  {| room_tasks := ∅; room_invocations := {["inv1" := Content (live st) None]}; room_cancels := [];
     room_answers := [Some "$e"; Some "$f"] |}.
End Sample.
Lemma cancel_invocation_terminal_witness :
  ∃ i r', cancel_invocation "now" "inv1" (Sample.room "running") = (Ok i, r') ∧ is_terminal i.(is_state) = true.
Proof.
  destruct (cancel_invocation "now" "inv1" (Sample.room "running")) as [[i|e] r'] eqn:E; [|discriminate E].
  exists i, r'. split; [done|]. exact (proj1 (cancel_invocation_terminal _ _ _ _ _ E)).
Defined.
Lemma advance_reopens_terminal_witness :
  ∃ i' r', advance_invocation "now" "inv1" "running" None (Sample.room "succeeded") = (Ok i', r') ∧
    i'.(is_state) = "running" ∧ invocation_in r' "inv1" i'.
Proof.
  refine (advance_reopens_terminal "now" "inv1" "running" None (Sample.room "succeeded")
    (Sample.live "succeeded") None [Some "$f"] _ _ _ _); reflexivity.
Defined.
