(* ===== verification/TaskLifecycle.v ===== *)
(** * Tasks

    Models [crates/mx-agent-daemon/src/task.rs]: the task lifecycle, creating,
    updating, re-signing and cancelling tasks in room state, and listing them.
    The wall clock ([now]), generated ids and the daemon's user id are arguments;
    the homeserver's answers are those of the room. *)
From stdpp Require Import gmap strings list.
From S2P Require Import Prelude RustStr CanonicalJson Schema Signing Room Invocation.

(** ** Lifecycle states *)

Definition STATE_PROPOSED : string := "proposed".
Definition STATE_PENDING : string := "pending".
Definition STATE_ASSIGNED : string := "assigned".
Definition STATE_EXECUTING : string := "executing".
Definition STATE_SUCCEEDED : string := "succeeded".
Definition STATE_FAILED : string := "failed".
Definition STATE_CANCELLED : string := "cancelled".
Definition STATE_BLOCKED : string := "blocked".
Definition STATE_SUPERSEDED : string := "superseded".
Definition DEFAULT_TASK_STATE : string := STATE_PENDING.
Definition KNOWN_STATES : list string :=
  [STATE_PROPOSED; STATE_PENDING; STATE_ASSIGNED; STATE_EXECUTING; STATE_SUCCEEDED; STATE_FAILED;
   STATE_CANCELLED; STATE_BLOCKED; STATE_SUPERSEDED].

(** [matches!(s, a | b | ...)]. *)
Definition one_of (s : string) (l : list string) : bool := existsb (str_eqb s) l.

Definition is_known_state (state : string) : bool := one_of state KNOWN_STATES.
Definition is_terminal (state : string) : bool :=
  one_of state [STATE_SUCCEEDED; STATE_FAILED; STATE_CANCELLED; STATE_SUPERSEDED].
Definition is_runnable (state : string) : bool := one_of state [STATE_PENDING; STATE_ASSIGNED].

Definition can_transition (from to : string) : bool :=
  if from =s to then is_known_state from
  else if from =s STATE_PROPOSED then one_of to [STATE_PENDING; STATE_CANCELLED; STATE_SUPERSEDED]
  else if from =s STATE_PENDING then
    one_of to [STATE_ASSIGNED; STATE_EXECUTING; STATE_BLOCKED; STATE_CANCELLED; STATE_SUPERSEDED]
  else if from =s STATE_ASSIGNED then
    one_of to [STATE_PENDING; STATE_EXECUTING; STATE_BLOCKED; STATE_CANCELLED; STATE_SUPERSEDED]
  else if from =s STATE_BLOCKED then
    one_of to [STATE_PENDING; STATE_ASSIGNED; STATE_CANCELLED; STATE_SUPERSEDED]
  else if from =s STATE_EXECUTING then one_of to [STATE_SUCCEEDED; STATE_FAILED; STATE_CANCELLED]
  else false.

(** ** Options (less the room, which is resolved already) *)

Record CreateTaskOptions := {
  co_task_id : option string;
  co_title : string;
  co_description : string;
  co_state : option string;
  co_assigned_to : string;
  co_created_by : option string;
  co_depends_on : list string;
  co_blocks : list string;
  co_action : option TaskAction;
}.
Record UpdateTaskOptions := {
  uo_task_id : string;
  uo_state : option string;
  uo_assigned_to : option string;
  uo_title : option string;
  uo_description : option string;
  uo_invocation_id : option string;
  uo_result : option Value;
  uo_action : option TaskAction;
  uo_expected_state_rev : option Z;
}.
Record ListTasksOptions := {
  lo_state : option string;
  lo_assigned_to : option string;
}.

(** [.filter(|s| !s.is_empty())]. *)
Definition non_empty (o : option string) : option string :=
  match o with Some s => if s =s "" then None else Some s | None => None end.

Definition resolve_created_by (options : CreateTaskOptions) (user_id : option string) : string :=
  match non_empty options.(co_created_by) with Some s => s | None => default "" user_id end.

(** ** Pure updates *)

Definition build_new_task (options : CreateTaskOptions) (task_id created_by now : string) : TaskState :=
  {| ts_task_id := task_id; ts_title := options.(co_title); ts_description := options.(co_description);
     ts_state := default DEFAULT_TASK_STATE (non_empty options.(co_state));
     ts_assigned_to := options.(co_assigned_to); ts_created_by := created_by;
     ts_depends_on := options.(co_depends_on); ts_blocks := options.(co_blocks);
     ts_invocation_id := None; ts_created_at := now; ts_updated_at := now; ts_state_rev := 1;
     ts_previous_event_id := None; ts_result := None; ts_action := options.(co_action); ts_extra := ∅ |}.

Definition apply_update (state : TaskState) (options : UpdateTaskOptions) (now : string)
    (previous_event_id : option string) : TaskState :=
  {| ts_task_id := state.(ts_task_id);
     ts_title := unwrap_or options.(uo_title) state.(ts_title);
     ts_description := unwrap_or options.(uo_description) state.(ts_description);
     ts_state := unwrap_or options.(uo_state) state.(ts_state);
     ts_assigned_to := unwrap_or options.(uo_assigned_to) state.(ts_assigned_to);
     ts_created_by := state.(ts_created_by);
     ts_depends_on := state.(ts_depends_on); ts_blocks := state.(ts_blocks);
     ts_invocation_id := opt_or options.(uo_invocation_id) state.(ts_invocation_id);
     ts_created_at := state.(ts_created_at); ts_updated_at := now;
     ts_state_rev := wrap_u64 (state.(ts_state_rev) + 1);
     ts_previous_event_id := previous_event_id;
     ts_result := opt_or options.(uo_result) state.(ts_result);
     ts_action := opt_or options.(uo_action) state.(ts_action);
     ts_extra := state.(ts_extra) |}.

Definition check_not_stale (task_id : string) (current_rev : Z) (expected_rev : option Z) : result unit WorkspaceError :=
  match expected_rev with
  | Some expected =>
      if negb (expected =? current_rev)%Z then Err (StaleTaskUpdate task_id expected current_rev) else Ok tt
  | None => Ok tt
  end.
Definition check_known_state (state : string) : result unit WorkspaceError :=
  if is_known_state state then Ok tt else Err (InvalidTaskState state).
Definition check_transition (task_id from to : string) : result unit WorkspaceError :=
  let? _ := check_known_state to in
  if can_transition from to then Ok tt else Err (InvalidTaskTransition task_id from to).

Definition matches_filters (task : TaskState) (options : ListTasksOptions) : bool :=
  match options.(lo_state) with None => true | Some s => task.(ts_state) =s s end
  && match options.(lo_assigned_to) with None => true | Some a => task.(ts_assigned_to) =s a end.

(** ** Operations on the room *)

(** [create_task_returning_event_id]; [generated] is [generate_task_id()]. *)
Definition create_task (user_id : option string) (generated now : string) (options : CreateTaskOptions) :
    M (TaskState * string) :=
  let task_id := default generated (non_empty options.(co_task_id)) in
  let! existing := read_task_state task_id in
  match existing with
  | Some _ => fail (TaskExists task_id)
  | None =>
      let created_by := resolve_created_by options user_id in
      let state := build_new_task options task_id created_by now in
      let! _ := lift (check_known_state state.(ts_state)) in
      let! event_id := publish_task_state task_id state in
      ret (state, event_id)
  end.

Definition apply_and_publish_task (now : string) (current : TaskState) (previous_event_id : option string)
    (options : UpdateTaskOptions) : M (TaskState * string) :=
  let! _ := lift (check_not_stale current.(ts_task_id) current.(ts_state_rev) options.(uo_expected_state_rev)) in
  let! _ := lift (match options.(uo_state) with
                  | Some to => check_transition current.(ts_task_id) current.(ts_state) to
                  | None => Ok tt
                  end) in
  let current := apply_update current options now previous_event_id in
  let! event_id := publish_task_state options.(uo_task_id) current in
  ret (current, event_id).

Definition update_task_in_room (now : string) (options : UpdateTaskOptions) : M (TaskState * string) :=
  let! read := read_task_state options.(uo_task_id) in
  let! (state, event_id) := lift (ok_or read (TaskNotFound options.(uo_task_id))) in
  apply_and_publish_task now state event_id options.

(** ** Signing on behalf of the local caller *)

(** What the producer reads from its surroundings: the two timestamps of
    [rfc3339_after] and the fresh nonce of [generate_request_id]. *)
Record AuthInputs := {
  ai_created_at : string;
  ai_expires_at : string;
  ai_nonce : string;
}.

Section authoring.
Context `{Crypto}.

Definition authored_authorization (signing : SigningKey) (inputs : AuthInputs) (task_id : string)
    (action : TaskAction) (requesting_agent target_agent : string) :
    result (option TaskAction) WorkspaceError :=
  if is_some (authorization action) then Ok None
  else if target_agent =s "" then Ok None
  else
    let unsigned := without_authorization action in
    match sign_task_action signing (key_id_for_verifying_key (verifying_key signing)) task_id unsigned
            requesting_agent target_agent inputs.(ai_created_at) inputs.(ai_expires_at) inputs.(ai_nonce) with
    | Ok auth => Ok (Some (with_authorization unsigned auth))
    | Err _ => Err Io
    end.

Definition set_co (options : CreateTaskOptions) (task_id : string) (action : option TaskAction) : CreateTaskOptions :=
  {| co_task_id := Some task_id; co_title := options.(co_title); co_description := options.(co_description);
     co_state := options.(co_state); co_assigned_to := options.(co_assigned_to);
     co_created_by := options.(co_created_by); co_depends_on := options.(co_depends_on);
     co_blocks := options.(co_blocks); co_action := action |}.
Definition set_uo_action (options : UpdateTaskOptions) (action : option TaskAction) : UpdateTaskOptions :=
  {| uo_task_id := options.(uo_task_id); uo_state := options.(uo_state);
     uo_assigned_to := options.(uo_assigned_to); uo_title := options.(uo_title);
     uo_description := options.(uo_description); uo_invocation_id := options.(uo_invocation_id);
     uo_result := options.(uo_result); uo_action := action;
     uo_expected_state_rev := options.(uo_expected_state_rev) |}.

(** [create_task_for_session]; [key] is the loaded authoring key. *)
Definition create_task_for_session (key : result SigningKey WorkspaceError) (inputs : AuthInputs)
    (user_id : option string) (generated now : string) (options : CreateTaskOptions) : M (TaskState * string) :=
  let task_id := default generated (non_empty options.(co_task_id)) in
  let options := set_co options task_id options.(co_action) in
  match options.(co_action) with
  | Some action =>
      let! signing := lift key in
      let requester := resolve_created_by options user_id in
      let! signed := lift (authored_authorization signing inputs task_id action requester options.(co_assigned_to)) in
      let options := match signed with
                     | Some signed => set_co options task_id (Some signed)
                     | None => options
                     end in
      create_task user_id generated now options
  | None => create_task user_id generated now options
  end.

Definition update_task_with_signing (signing : SigningKey) (inputs : AuthInputs) (user_id : option string)
    (now : string) (options : UpdateTaskOptions) : M (TaskState * string) :=
  let! read := read_task_state options.(uo_task_id) in
  let! (current, event_id) := lift (ok_or read (TaskNotFound options.(uo_task_id))) in
  let effective_assignee := unwrap_or options.(uo_assigned_to) current.(ts_assigned_to) in
  let requester := if current.(ts_created_by) =s "" then default "" user_id else current.(ts_created_by) in
  let! signed := lift (
    match options.(uo_action) with
    | Some new_action =>
        authored_authorization signing inputs current.(ts_task_id) new_action requester effective_assignee
    | None =>
        match options.(uo_assigned_to), current.(ts_action) with
        | Some _, Some current_action =>
            authored_authorization signing inputs current.(ts_task_id) (without_authorization current_action)
              requester effective_assignee
        | _, _ => Ok None
        end
    end) in
  let options := match signed with Some signed => set_uo_action options (Some signed) | None => options end in
  apply_and_publish_task now current event_id options.

Definition update_task_for_session (key : result SigningKey WorkspaceError) (inputs : AuthInputs)
    (user_id : option string) (now : string) (options : UpdateTaskOptions) : M (TaskState * string) :=
  if is_some options.(uo_action) || is_some options.(uo_assigned_to) then
    let! signing := lift key in
    update_task_with_signing signing inputs user_id now options
  else update_task_in_room now options.
End authoring.

(** ** Cancelling and listing *)

Definition cancel_finalization (invocation : option InvocationState) (task : TaskState) (completed_by now : string) :
    string * Value :=
  match invocation with
  | Some inv =>
      let state := default STATE_CANCELLED (task_state_for_invocation inv.(is_state)) in
      (state, into_value (task_result_from_invocation inv completed_by now))
  | None =>
      let result := {| tr_status := STATE_CANCELLED; tr_completed_by := completed_by; tr_completed_at := now;
                       tr_invocation_id := task.(ts_invocation_id); tr_action := None;
                       tr_reason := Some "cancelled"; tr_exit_code := None;
                       tr_summary := Some "task cancelled"; tr_artifact_mxc := None; tr_extra := ∅ |} in
      (STATE_CANCELLED, into_value result)
  end.

(** [Err InvocationNotFound] becomes [None]; other errors propagate. *)
Definition tolerate_missing (m : M InvocationState) : M (option InvocationState) := λ r,
  match m r with
  | (Ok i, r') => (Ok (Some i), r')
  | (Err (InvocationNotFound _), r') => (Ok None, r')
  | (Err e, r') => (Err e, r')
  end.

Definition cancel_options (task_id state : string) (result : Value) : UpdateTaskOptions :=
  {| uo_task_id := task_id; uo_state := Some state; uo_assigned_to := None; uo_title := None;
     uo_description := None; uo_invocation_id := None; uo_result := Some result; uo_action := None;
     uo_expected_state_rev := None |}.

Definition cancel_task (user_id : option string) (now task_id : string) : M TaskState :=
  let! read := read_task_state task_id in
  let! (task, _) := lift (ok_or read (TaskNotFound task_id)) in
  if is_terminal task.(ts_state) then ret task else
  let! invocation := match task.(ts_invocation_id) with
                     | Some invocation_id => tolerate_missing (cancel_invocation now invocation_id)
                     | None => ret None
                     end in
  let completed_by := default "" user_id in
  let '(terminal, result) := cancel_finalization invocation task completed_by now in
  let! (state, _) := update_task_in_room now (cancel_options task_id terminal result) in
  ret state.

Definition task_id_le (a b : TaskState) : Prop := String.le a.(ts_task_id) b.(ts_task_id).
#[export] Instance task_id_le_dec : RelDecision task_id_le.
Proof. intros a b. unfold task_id_le. apply _. Defined.
#[export] Instance task_id_le_total : Total task_id_le.
Proof. intros a b. unfold task_id_le. apply (total String.le). Qed.
#[export] Instance task_id_le_trans : Transitive task_id_le.
Proof. intros a b c. unfold task_id_le. apply transitivity. Qed.
(** [read_tasks] on a listing of the room's task events. *)
Definition read_tasks (raws : list (StateEvent TaskState)) (options : ListTasksOptions) :
    result (list TaskState) WorkspaceError :=
  let? tasks := read_all_task_states raws in
  Ok (sort_by task_id_le (List.filter (λ t, matches_filters t options) tasks)).

(** ** How an operation changes the tasks of a room *)

Definition task_in (r : Room) (k : string) (t : TaskState) (id : option string) : Prop :=
  r.(room_tasks) !! k = Some (Content t id).

(** One allowed change of a task: a lifecycle step of the table (or none), the
    next revision, and nothing of the task's identity touched. *)
Definition lifecycle (from to : string) : Prop := from = to ∨ can_transition from to = true.
Record revises (t : TaskState) (id : option string) (t' : TaskState) : Prop := {
  rv_state : lifecycle t.(ts_state) t'.(ts_state);
  rv_rev : t'.(ts_state_rev) = wrap_u64 (t.(ts_state_rev) + 1);
  rv_previous : t'.(ts_previous_event_id) = id;
  rv_identity : (t'.(ts_task_id), t'.(ts_created_by), t'.(ts_created_at), t'.(ts_depends_on),
                 t'.(ts_blocks), t'.(ts_extra))
              = (t.(ts_task_id), t.(ts_created_by), t.(ts_created_at), t.(ts_depends_on),
                 t.(ts_blocks), t.(ts_extra));
}.

(** Each task is kept or revised; none disappears. *)
Definition tasks_evolve (r r' : Room) : Prop :=
  ∀ k t id, task_in r k t id →
    task_in r' k t id ∨ ∃ t' id', task_in r' k t' id' ∧ revises t id t'.

Lemma tasks_evolve_same r r' : r'.(room_tasks) = r.(room_tasks) → tasks_evolve r r'.
Proof. intros E k t id Ht. left. unfold task_in. by rewrite E. Qed.
Lemma tasks_evolve_insert r r' k0 e :
  r'.(room_tasks) = <[k0 := e]> r.(room_tasks) →
  (∀ t id, task_in r k0 t id → ∃ t' id', e = Content t' id' ∧ revises t id t') →
  tasks_evolve r r'.
Proof.
  intros E H k t id Ht. unfold task_in. rewrite E. destruct (decide (k = k0)) as [->|Hne].
  - right. destruct (H t id Ht) as (t' & id' & -> & Hr). exists t', id'. split; [|done].
    apply lookup_insert_eq.
  - left. by rewrite lookup_insert_ne.
Qed.

Lemma read_task_state_Some k r t id r' :
  read_task_state k r = (Ok (Some (t, id)), r') ↔ task_in r k t id ∧ r' = r.
Proof.
  unfold read_task_state, task_in. split.
  - intros H. by crush_match.
  - by intros [-> ->].
Qed.
Lemma read_task_state_None k r r' t id :
  read_task_state k r = (Ok None, r') → ¬ task_in r k t id.
Proof. unfold read_task_state, task_in. intros H ?. by crush_match. Qed.

Lemma apply_update_revises t id o now :
  match o.(uo_state) with Some to => is_ok (check_transition t.(ts_task_id) t.(ts_state) to) = true | None => True end →
  revises t id (apply_update t o now id).
Proof.
  intros Hs. split; try done. simpl. unfold lifecycle.
  destruct (uo_state o) as [to|]; simpl; [|by left]. right.
  unfold check_transition, check_known_state in Hs. by crush_match.
Qed.

(** What [apply_and_publish_task] does, on every path. *)
Lemma apply_and_publish_spec now t id o r res r' :
  apply_and_publish_task now t id o r = (res, r') →
  match res with
  | Ok (t', eid) =>
      is_ok (check_not_stale t.(ts_task_id) t.(ts_state_rev) o.(uo_expected_state_rev)) = true ∧
      match o.(uo_state) with
      | Some to => is_ok (check_transition t.(ts_task_id) t.(ts_state) to) = true
      | None => True
      end ∧
      t' = apply_update t o now id ∧
      r'.(room_tasks) = <[o.(uo_task_id) := Content t' (Some eid)]> r.(room_tasks)
  | Err _ => r'.(room_tasks) = r.(room_tasks)
  end.
Proof.
  unfold apply_and_publish_task, bind, lift, ret.
  destruct (check_not_stale _ _ _) as [[]|e]; [|by intros [= <- <-]].
  destruct (uo_state o) as [to|]; [destruct (check_transition _ _ _) as [[]|e]; [|by intros [= <- <-]]|].
  all: destruct (publish_task_state _ _ r) as [[eid|e] r1] eqn:E; apply publish_task_state_room in E as [_ E];
    by intros [= <- <-].
Qed.

Lemma apply_and_publish_evolves now t id o r res r' :
  task_in r o.(uo_task_id) t id → apply_and_publish_task now t id o r = (res, r') → tasks_evolve r r'.
Proof.
  intros Ht H. apply apply_and_publish_spec in H. destruct res as [[t' eid]|e].
  - destruct H as (_ & Hs & -> & E). eapply tasks_evolve_insert; [exact E|].
    intros t0 id0 Ht0. unfold task_in in *. rewrite Ht in Ht0. simplify_eq.
    eexists _, _. split; [done|]. by apply apply_update_revises.
  - by apply tasks_evolve_same.
Qed.

Lemma update_in_room_evolves now o r res r' : update_task_in_room now o r = (res, r') → tasks_evolve r r'.
Proof.
  unfold update_task_in_room, bind, lift. destruct (read_task_state _ r) as [[[[t id]|]|e] r1] eqn:E; simpl; intros H.
  - apply read_task_state_Some in E as [Ht ->]. by eapply apply_and_publish_evolves.
  - apply read_task_state_room in E as ->. simplify_eq. by apply tasks_evolve_same.
  - apply read_task_state_room in E as ->. simplify_eq. by apply tasks_evolve_same.
Qed.

Lemma create_task_evolves uid gen now o r res r' : create_task uid gen now o r = (res, r') → tasks_evolve r r'.
Proof.
  unfold create_task, bind, lift, ret, fail. set (k := default gen _).
  destruct (read_task_state k r) as [[[[t id]|]|e] r1] eqn:E; simpl; intros H;
    pose proof (read_task_state_room _ _ _ _ E) as ->; [simplify_eq; by apply tasks_evolve_same| |simplify_eq; by apply tasks_evolve_same].
  destruct (check_known_state _) as [[]|e]; [|simplify_eq; by apply tasks_evolve_same].
  destruct (publish_task_state k _ r) as [[eid|e] r2] eqn:E2; apply publish_task_state_room in E2 as [_ E2];
    simplify_eq; [|by apply tasks_evolve_same].
  eapply tasks_evolve_insert; [exact E2|]. intros t id Ht. by eapply read_task_state_None in E.
Qed.

Lemma create_for_session_evolves `{Crypto} key inputs uid gen now o r res r' :
  create_task_for_session key inputs uid gen now o r = (res, r') → tasks_evolve r r'.
Proof.
  unfold create_task_for_session, bind, lift. destruct (co_action o) as [a|]; simpl; [|apply create_task_evolves].
  destruct key as [sk|e]; [|intros [= <- <-]; by apply tasks_evolve_same].
  destruct (authored_authorization _ _ _ _ _ _) as [s|e]; [|intros [= <- <-]; by apply tasks_evolve_same].
  apply create_task_evolves.
Qed.

Lemma update_with_signing_evolves `{Crypto} sk inputs uid now o r res r' :
  update_task_with_signing sk inputs uid now o r = (res, r') → tasks_evolve r r'.
Proof.
  unfold update_task_with_signing, bind, lift.
  destruct (read_task_state _ r) as [[[[t id]|]|e] r1] eqn:E; simpl; intros Hu.
  2,3: apply read_task_state_room in E as ->; simplify_eq; by apply tasks_evolve_same.
  apply read_task_state_Some in E as [Ht ->].
  match goal with Hu : context [match ?m with Ok _ => _ | Err _ => _ end] |- _ =>
    destruct m as [s|e] end; [|simplify_eq; by apply tasks_evolve_same].
  eapply apply_and_publish_evolves; [|exact Hu]. by destruct s.
Qed.
Lemma update_for_session_evolves `{Crypto} key inputs uid now o r res r' :
  update_task_for_session key inputs uid now o r = (res, r') → tasks_evolve r r'.
Proof.
  unfold update_task_for_session, bind, lift. destruct (_ || _); [|apply update_in_room_evolves].
  destruct key as [sk|e]; [apply update_with_signing_evolves|intros [= <- <-]; by apply tasks_evolve_same].
Qed.

(** [cancel_invocation] leaves every task alone. *)
Lemma tolerate_cancel_tasks now i r res r' :
  tolerate_missing (cancel_invocation now i) r = (res, r') → r'.(room_tasks) = r.(room_tasks).
Proof.
  unfold tolerate_missing. destruct (cancel_invocation now i r) as [o r1] eqn:E.
  apply cancel_invocation_tasks in E. intros. by crush_match.
Qed.
Lemma cancel_finalization_terminal i t by_ now : is_terminal (cancel_finalization i t by_ now).1 = true.
Proof.
  destruct i as [inv|]; simpl; [|done]. rewrite task_state_for_invocation_spec.
  destruct (Invocation.is_terminal _) eqn:E; simpl; [|done].
  apply is_terminal_iff in E as [->|[->| ->]]; done.
Qed.

(** The outcome a cancelled task is reconciled to: the linked invocation's own
    terminal state if it had finished, [cancelled] otherwise. *)
Definition cancel_outcome (r : Room) (t : TaskState) : string :=
  match t.(ts_invocation_id) with
  | Some i =>
      match r.(room_invocations) !! i with
      | Some (Content inv _) => if Invocation.is_terminal inv.(is_state) then inv.(is_state) else STATE_CANCELLED
      | _ => STATE_CANCELLED
      end
  | None => STATE_CANCELLED
  end.
Lemma cancel_invocation_missing now i r k r' :
  cancel_invocation now i r = (Err (InvocationNotFound k), r') →
  r.(room_invocations) !! i = None ∨ r.(room_invocations) !! i = Some Cleared.
Proof.
  unfold cancel_invocation, bind, lift, read_invocation_state, send_exec_cancel, publish_invocation_state, bind, send, ret.
  intros H. destruct (room_invocations r !! i) as [[inv o| |]|]; simpl in H; auto; [|done].
  by crush_match.
Qed.
Lemma tolerate_cancel_outcome now r t b o r' i :
  t.(ts_invocation_id) = Some i →
  tolerate_missing (cancel_invocation now i) r = (Ok o, r') →
  (cancel_finalization o t b now).1 = cancel_outcome r t.
Proof.
  intros Hi H. unfold tolerate_missing in H. unfold cancel_outcome. rewrite Hi.
  destruct (cancel_invocation now i r) as [[inv|e] r1] eqn:E.
  - simplify_eq. apply cancel_invocation_result in E as (i0 & [id0 ->] & Hr).
    simpl. rewrite task_state_for_invocation_spec. destruct (Invocation.is_terminal (is_state i0)) eqn:Ht.
    + destruct Hr as [-> _]. by rewrite Ht.
    + destruct Hr as [-> _]. done.
  - destruct e; simplify_eq. apply cancel_invocation_missing in E as [->| ->]; done.
Qed.

Lemma cancel_task_spec uid now k r res r' :
  cancel_task uid now k r = (res, r') →
  tasks_evolve r r' ∧
  (∀ t', res = Ok t' → is_terminal t'.(ts_state) = true ∧
     ∃ t id, task_in r k t id ∧ if is_terminal t.(ts_state) then t' = t ∧ r' = r
       else t'.(ts_state) = cancel_outcome r t ∧ ∃ id', task_in r' k t' id').
Proof.
  unfold cancel_task, bind at 1 2, lift, ret at 1. destruct (read_task_state k r) as [[[[t id]|]|e] r1] eqn:E; simpl; intros H.
  2,3: apply read_task_state_room in E as ->; simplify_eq; split; [by apply tasks_evolve_same|done].
  apply read_task_state_Some in E as [Ht ->]. destruct (is_terminal (ts_state t)) eqn:Hterm.
  { simplify_eq. split; [by apply tasks_evolve_same|]. intros t' [= <-]. split; [done|].
    exists t, id. by rewrite Hterm. }
  unfold bind at 1 in H.
  match type of H with context [match ?m r with _ => _ end] =>
    assert (∀ x, m r = x → (x.2).(room_tasks) = r.(room_tasks)) as Hm end.
  { intros [x rx] Hx. destruct (ts_invocation_id t); [by apply tolerate_cancel_tasks in Hx|]. unfold ret in Hx. by simplify_eq. }
  match type of H with context [match ?m r with _ => _ end] =>
    destruct (m r) as [[inv|e] r1] eqn:Em end; specialize (Hm _ eq_refl); simpl in Hm.
  2: { simplify_eq. split; [by apply tasks_evolve_same|done]. }
  pose proof (cancel_finalization_terminal inv t (default "" uid) now) as Hfin.
  assert ((cancel_finalization inv t (default "" uid) now).1 = cancel_outcome r t) as Hout.
  { destruct (ts_invocation_id t) as [i|] eqn:Hi; [by eapply tolerate_cancel_outcome|].
    unfold ret in Em. simplify_eq. unfold cancel_outcome. by rewrite Hi. }
  destruct (cancel_finalization inv t (default "" uid) now) as [terminal result]. simpl in Hfin, Hout.
  unfold bind in H. destruct (update_task_in_room now (cancel_options k terminal result) r1) as [[[t' eid]|e] r2] eqn:Eu;
    unfold ret in H; simplify_eq.
  - pose proof (update_in_room_evolves _ _ _ _ _ Eu) as Hev. split.
    { intros k0 t0 id0 H0. apply (Hev k0 t0 id0). unfold task_in. by rewrite Hm. }
    intros ? [= <-]. unfold update_task_in_room, bind, lift in Eu. simpl in Eu.
    destruct (read_task_state k r1) as [[[[t1 id1]|]|] r3] eqn:Er; simpl in Eu; try done.
    apply read_task_state_Some in Er as [_ ->].
    apply apply_and_publish_spec in Eu as (_ & _ & -> & E). simpl. split; [done|].
    exists t, id. split; [done|]. rewrite Hterm. split; [done|]. exists (Some eid). unfold task_in. rewrite E. simpl. apply lookup_insert_eq.
  - split; [|done]. pose proof (update_in_room_evolves _ _ _ _ _ Eu) as Hev.
    intros k0 t0 id0 H0. apply (Hev k0 t0 id0). unfold task_in. by rewrite Hm.
Qed.

(** ** Histories of a room under one daemon *)

Section history.
Context `{Crypto}.

Inductive task_step : Room → Room → Prop :=
| step_create key inputs uid gen now o r res r' :
    create_task_for_session key inputs uid gen now o r = (res, r') → task_step r r'
| step_update key inputs uid now o r res r' :
    update_task_for_session key inputs uid now o r = (res, r') → task_step r r'
| step_scheduler_update now o r res r' :
    update_task_in_room now o r = (res, r') → task_step r r'
| step_cancel uid now k r res r' : cancel_task uid now k r = (res, r') → task_step r r'.

Lemma task_step_evolves r r' : task_step r r' → tasks_evolve r r'.
Proof.
  inversion 1; subst; eauto using create_for_session_evolves, update_for_session_evolves, update_in_room_evolves.
  by eapply cancel_task_spec.
Qed.

Lemma one_of_elem s l : one_of s l = true ↔ s ∈ l.
Proof.
  unfold one_of. rewrite existsb_elem. split.
  - by intros (x & Hx & ->%str_eqb_eq).
  - intros Hs. exists s. split; [done|]. apply str_eqb_refl.
Qed.
Lemma terminal_no_transition s s' : is_terminal s = true → can_transition s s' = true → s' = s.
Proof.
  unfold is_terminal. rewrite one_of_elem. unfold can_transition.
  destruct (s =s s') eqn:E; [by apply str_eqb_eq in E as ->|].
  rewrite !elem_of_cons, elem_of_nil. by intros [->|[->|[->|[->|[]]]]].
Qed.
Lemma lifecycle_terminal s s' : is_terminal s = true → lifecycle s s' → s' = s.
Proof. intros Ht [->|Hc]; [done|]. by apply terminal_no_transition. Qed.

Definition identity (t : TaskState) :=
  (t.(ts_task_id), t.(ts_created_by), t.(ts_created_at), t.(ts_depends_on), t.(ts_blocks), t.(ts_extra)).
(** What a history of steps leaves of a task. *)
Record descends (t t' : TaskState) : Prop := {
  ds_state : rtc (λ a b, can_transition a b = true) t.(ts_state) t'.(ts_state);
  ds_terminal : is_terminal t.(ts_state) = true → t'.(ts_state) = t.(ts_state);
  ds_identity : identity t' = identity t;
  ds_rev : t' = t ∨ ∃ n, (0 < n)%Z ∧ t'.(ts_state_rev) = wrap_u64 (t.(ts_state_rev) + n);
}.
Lemma descends_refl t : descends t t.
Proof. split; auto. apply rtc_refl. Qed.
Lemma wrap_u64_add a b : wrap_u64 (wrap_u64 a + b) = wrap_u64 (a + b).
Proof. unfold wrap_u64. by rewrite Zplus_mod_idemp_l. Qed.
Lemma revises_descends t id t' t'' : revises t id t' → descends t' t'' → descends t t''.
Proof.
  intros [Hs Hr _ Hi] [Hs' Ht' Hi' Hr']. split.
  - destruct Hs as [->|Hs]; [done|]. by eapply rtc_l.
  - intros Ht. apply (lifecycle_terminal _ _ Ht) in Hs. rewrite <- Hs in Ht |- *. auto.
  - unfold identity in *. congruence.
  - right. destruct Hr' as [->|(n & Hn & ->)].
    + exists 1%Z. split; [lia|done].
    + exists (n + 1)%Z. split; [lia|]. rewrite Hr, wrap_u64_add. f_equal. lia.
Qed.

(** *** Reads lag behind writes

    An operation reads the daemon's synced copy of the room, which is some earlier version of
    it, and its writes replace what the room holds under the same keys. *)

(** The copy an operation works on: the state events of [seen], the sends of [cur]. *)
Definition copy_of (seen cur : Room) : Room :=
  {| room_tasks := seen.(room_tasks); room_invocations := seen.(room_invocations);
     room_cancels := cur.(room_cancels); room_answers := cur.(room_answers) |}.
(** [m'] is [m] with what changed from [old] to [new] written over it. *)
Definition overlays {A} (old new m m' : gmap string A) : Prop :=
  ∀ k, (new !! k = old !! k ∧ m' !! k = m !! k) ∨ (new !! k ≠ old !! k ∧ m' !! k = new !! k).
Record written_over (seen after cur next : Room) : Prop := {
  wo_tasks : overlays seen.(room_tasks) after.(room_tasks) cur.(room_tasks) next.(room_tasks);
  wo_invocations : overlays seen.(room_invocations) after.(room_invocations) cur.(room_invocations) next.(room_invocations);
  wo_cancels : next.(room_cancels) = after.(room_cancels);
  wo_answers : next.(room_answers) = after.(room_answers);
}.
(** The versions of a room, newest first; the copies of the keys in [fresh] are never behind. *)
Inductive versions (fresh : string → Prop) : list Room → Prop :=
| versions_start r : versions fresh [r]
| versions_write seen after cur old next :
    versions fresh (cur :: old) → seen ∈ cur :: old →
    (∀ k, fresh k → seen.(room_tasks) !! k = cur.(room_tasks) !! k) →
    task_step (copy_of seen cur) after → written_over seen after cur next →
    versions fresh (next :: cur :: old).

(** What is written under a key is an allowed change of the task that the writer saw there, or
    the writer saw none. *)
Definition allowed_write (seen next : Room) (k : string) : Prop :=
  ∀ t id, task_in seen k t id → ∃ t' id', task_in next k t' id' ∧ revises t id t'.
Lemma written_allowed fresh vs : versions fresh vs → ∀ newer next cur old k,
  vs = newer ++ next :: cur :: old → next.(room_tasks) !! k ≠ cur.(room_tasks) !! k →
  ∃ seen, seen ∈ cur :: old ∧ (fresh k → seen.(room_tasks) !! k = cur.(room_tasks) !! k) ∧ allowed_write seen next k.
Proof.
  induction 1 as [r|seen after cur0 old0 next0 _ IH Hseen Hfresh Hstep [Ho _ _ _]]; intros newer next cur old k Heq Hne.
  { by destruct newer as [|? [|]]. }
  destruct newer as [|v newer]; [|injection Heq as _ Heq; by eapply IH]. simplify_eq/=.
  exists seen. split_and!; [done|auto|]. destruct (Ho k) as [[_ ?]|[Hch Hnext]]; [done|].
  intros t id Ht. destruct (task_step_evolves _ _ Hstep k t id Ht) as [Hsame|(t' & id' & Ht' & Hr)].
  - destruct Hch. unfold task_in in *. simpl in *. congruence.
  - exists t', id'. split; [|done]. unfold task_in in *. by rewrite Hnext.
Qed.
Lemma descends_trans t t' t'' : descends t t' → descends t' t'' → descends t t''.
Proof.
  intros [Hs Ht Hi Hr] [Hs' Ht' Hi' Hr']. split.
  - by etrans.
  - intros Hx. rewrite <- (Ht Hx) in Hx |- *. auto.
  - congruence.
  - destruct Hr as [->|(n & Hn & Hr)]; [done|]. right. destruct Hr' as [->|(n' & Hn' & Hr')]; [eauto|].
    exists (n + n')%Z. split; [lia|]. rewrite Hr', Hr, wrap_u64_add. f_equal. lia.
Qed.
(** One version and the next, under a key whose copies are up to date. *)
Lemma fresh_step fresh k next cur old t id : versions fresh (next :: cur :: old) → fresh k → task_in cur k t id →
  ∃ t' id', task_in next k t' id' ∧ descends t t'.
Proof.
  intros Hv Hk Ht. inversion Hv as [|seen after cur0 old0 next0 _ _ Hfresh Hstep [Ho _ _ _]]; subst.
  destruct (Ho k) as [[_ Hn]|[_ Hn]].
  - exists t, id. split; [|apply descends_refl]. unfold task_in in *. by rewrite Hn.
  - assert (task_in (copy_of seen cur) k t id) as Hs by (unfold task_in in *; simpl; by rewrite Hfresh).
    destruct (task_step_evolves _ _ Hstep k t id Hs) as [Ha|(t' & id' & Ha & Hr)]; unfold task_in in *.
    + exists t, id. rewrite Hn. split; [done|apply descends_refl].
    + exists t', id'. rewrite Hn. split; [done|]. eapply revises_descends, descends_refl. done.
Qed.
Lemma fresh_descends fresh k r old t id newer : versions fresh (newer ++ r :: old) → fresh k → task_in r k t id →
  ∃ cur rest t' id', newer ++ r :: old = cur :: rest ∧ task_in cur k t' id' ∧ descends t t'.
Proof.
  intros Hv Hk Ht. induction newer as [|next newer IH]; simpl in *.
  { exists r, old, t, id. split_and!; [done|done|apply descends_refl]. }
  destruct IH as (cur & rest & t1 & id1 & Heq & Ht1 & Hd1).
  { inversion Hv; [|done]. by destruct newer. }
  rewrite Heq in *. destruct (fresh_step _ _ _ _ _ _ _ Hv Hk Ht1) as (t2 & id2 & Ht2 & Hd2).
  exists next, (cur :: rest), t2, id2. split_and!; [done|done|by eapply descends_trans].
Qed.

(** C16: over any sequence of creates, updates, scheduler writes and cancels, successful or
    failing, each working on a copy of the room that may be behind it and writing over what the
    room holds, every change of a task is an allowed change of the version that its writer
    read: a step of the lifecycle table or none, the next revision, the event id of that
    version as the previous one, and the identity (id, creator, creation time,
    dependencies) kept; unless the writer saw no task there.  Where the copies of a task are
    never behind the room, an existing task is never lost, its state only moves along the
    table, a terminal task keeps its terminal state for ever, its identity never changes
    and every change advances the revision. *)
Theorem task_history fresh vs : versions fresh vs →
  (∀ newer next cur old k, vs = newer ++ next :: cur :: old → next.(room_tasks) !! k ≠ cur.(room_tasks) !! k →
     ∃ seen, seen ∈ cur :: old ∧ (fresh k → seen.(room_tasks) !! k = cur.(room_tasks) !! k) ∧ allowed_write seen next k) ∧
  (∀ newer r old k t id, vs = newer ++ r :: old → fresh k → task_in r k t id →
     ∃ cur rest t' id', vs = cur :: rest ∧ task_in cur k t' id' ∧ descends t t').
Proof.
  intros Hv. split; [by eapply written_allowed|]. intros newer r old k t id -> Hk Ht. by eapply fresh_descends.
Qed.
End history.

(** Two writers that observed the same revision cannot both win: once an
    update guarded by [expected_state_rev] has been applied, a second one guarded by
    the same revision is rejected as stale and leaves the room as it is. *)
Theorem stale_write_rejected now now' o1 o2 r t id t1 e1 r1 :
  task_in r o1.(uo_task_id) t id → (0 ≤ t.(ts_state_rev) < u64_max)%Z →
  o2.(uo_task_id) = o1.(uo_task_id) →
  o1.(uo_expected_state_rev) = Some t.(ts_state_rev) →
  o2.(uo_expected_state_rev) = Some t.(ts_state_rev) →
  update_task_in_room now o1 r = (Ok (t1, e1), r1) →
  t1.(ts_state_rev) = (t.(ts_state_rev) + 1)%Z ∧
  update_task_in_room now' o2 r1
  = (Err (StaleTaskUpdate t.(ts_task_id) t.(ts_state_rev) (t.(ts_state_rev) + 1)), r1).
Proof.
  intros Ht Hrev Hk He1 He2 Hu. unfold update_task_in_room, bind, lift in Hu.
  rewrite (proj2 (read_task_state_Some _ r t id r) (conj Ht eq_refl)) in Hu. simpl in Hu.
  apply apply_and_publish_spec in Hu as (_ & _ & -> & Hr1).
  assert (wrap_u64 (ts_state_rev t + 1) = (ts_state_rev t + 1)%Z) as Hw.
  { unfold wrap_u64, u64_max in *. apply Z.mod_small. lia. }
  simpl. split; [done|]. unfold update_task_in_room, bind, lift.
  rewrite (proj2 (read_task_state_Some (uo_task_id o2) r1 (apply_update t o1 now id) (Some e1) r1)).
  - simpl. unfold apply_and_publish_task, bind, lift. rewrite He2. simpl. rewrite Hw.
    rewrite (proj2 (Z.eqb_neq _ _)) by lia. done.
  - split; [|done]. unfold task_in. rewrite Hr1, Hk. apply lookup_insert_eq.
Qed.

(** An update is refused exactly for the reasons the code names, in this
    order (unknown task, stale revision, unknown target state, forbidden
    transition), and a refused update leaves every task as it was; otherwise, when
    the homeserver accepts the event, the task stored under the key is the updated
    one, with the prior event id recorded. *)
Theorem update_task_spec now o r t id :
  task_in r o.(uo_task_id) t id →
  let stale := match o.(uo_expected_state_rev) with Some e => negb (e =? t.(ts_state_rev))%Z | None => false end in
  let bad_state := match o.(uo_state) with Some to => negb (is_known_state to) | None => false end in
  let bad_move := match o.(uo_state) with Some to => negb (can_transition t.(ts_state) to) | None => false end in
  (stale || bad_state || bad_move = true →
   ∃ e, update_task_in_room now o r = (Err e, r) ∧
     match e with
     | StaleTaskUpdate _ _ _ => stale = true
     | InvalidTaskState s => stale = false ∧ bad_state = true ∧ o.(uo_state) = Some s
     | InvalidTaskTransition _ from to => stale = false ∧ bad_state = false ∧ bad_move = true ∧
         from = t.(ts_state) ∧ o.(uo_state) = Some to
     | _ => False
     end) ∧
  (stale || bad_state || bad_move = false → ∀ eid answers, r.(room_answers) = Some eid :: answers →
   ∃ r', update_task_in_room now o r = (Ok (apply_update t o now id, eid), r') ∧
     r'.(room_tasks) = <[o.(uo_task_id) := Content (apply_update t o now id) (Some eid)]> r.(room_tasks)).
Proof.
  intros Ht stale bad_state bad_move. unfold update_task_in_room, bind, lift.
  rewrite (proj2 (read_task_state_Some _ r t id r) (conj Ht eq_refl)). simpl.
  unfold apply_and_publish_task, bind, lift, check_not_stale, check_transition, check_known_state,
    publish_task_state, bind, send, ret. subst stale bad_state bad_move.
  destruct (uo_expected_state_rev o) as [e|] eqn:He; [destruct (negb (e =? ts_state_rev t)%Z) eqn:Hs|]; simpl.
  - split; [|done]. intros _. eexists. split; [reflexivity|]. done.
  - destruct (uo_state o) as [to|] eqn:Ho; simpl; [destruct (is_known_state to) eqn:Hk; simpl;
      [destruct (can_transition (ts_state t) to) eqn:Hc; simpl|]|].
    all: split; try done; intros _; first
      [ intros eid answers ->; eexists; split; reflexivity | eexists; split; [reflexivity|]; done ].
  - destruct (uo_state o) as [to|] eqn:Ho; simpl; [destruct (is_known_state to) eqn:Hk; simpl;
      [destruct (can_transition (ts_state t) to) eqn:Hc; simpl|]|].
    all: split; try done; intros _; first
      [ intros eid answers ->; eexists; split; reflexivity | eexists; split; [reflexivity|]; done ].
Qed.

Section resigning.
Context `{CryptoLaws}.

Lemma authored_authorization_spec sk inputs tid a ra ta res :
  authorization a = None → ta ≠ "" → authored_authorization sk inputs tid a ra ta = Ok res →
  ∃ auth, res = Some (with_authorization a auth) ∧
    sign_task_action sk (key_id_for_verifying_key (verifying_key sk)) tid a ra ta
      inputs.(ai_created_at) inputs.(ai_expires_at) inputs.(ai_nonce) = Ok auth.
Proof.
  intros Ha Hta. unfold authored_authorization. rewrite Ha, (proj2 (str_eqb_neq ta "")) by done. simpl.
  assert (without_authorization a = a) as -> by (destruct a; simpl in *; by subst).
  destruct (sign_task_action _ _ _ _ _ _ _ _ _) as [auth|]; [|done]. intros [= <-]. by exists auth.
Qed.

Lemma authorization_with a auth : authorization (with_authorization a auth) = Some auth.
Proof. by destruct a. Qed.
Lemma authorization_without a : authorization (without_authorization a) = None.
Proof. by destruct a. Qed.
Lemma without_with a auth : without_authorization (with_authorization a auth) = without_authorization a.
Proof. by destruct a. Qed.

(** Reassigning a task re-signs its action for the new assignee: the published
    task is assigned to the new agent and carries the same action, with an
    authorization that targets that agent, holds the fresh nonce and expiry, and
    verifies for this task under the daemon's key. *)
Theorem reassignment_resigns sk inputs uid now o r t id a act t' eid r' :
  task_in r o.(uo_task_id) t id → t.(ts_action) = Some act →
  o.(uo_assigned_to) = Some a → a ≠ "" → o.(uo_action) = None →
  update_task_with_signing sk inputs uid now o r = (Ok (t', eid), r') →
  t'.(ts_assigned_to) = a ∧
  ∃ act' auth, t'.(ts_action) = Some act' ∧ authorization act' = Some auth ∧
    without_authorization act' = without_authorization act ∧
    auth.(taa_target_agent) = a ∧ auth.(taa_nonce) = inputs.(ai_nonce) ∧
    auth.(taa_expires_at) = inputs.(ai_expires_at) ∧
    verify_task_action_signature (verifying_key sk) t'.(ts_task_id) act' auth = Ok tt.
Proof.
  intros Ht Hact Ha Hne Hno Hu. unfold update_task_with_signing, bind, lift in Hu.
  rewrite (proj2 (read_task_state_Some _ r t id r) (conj Ht eq_refl)) in Hu. simpl in Hu.
  rewrite Hno, Ha, Hact in Hu. simpl in Hu.
  destruct (authored_authorization _ _ _ _ _ _) as [s|e] eqn:Es; [|done].
  apply authored_authorization_spec in Es as (auth & -> & Hsign); [|apply authorization_without|done].
  apply apply_and_publish_spec in Hu as (_ & _ & -> & _). simpl. rewrite Ha. split; [done|].
  apply sign_task_action_verifies in Hsign as (Hv & _ & Hta & _ & He & Hn & _).
  eexists _, auth. split; [done|]. rewrite authorization_with, without_with. split_and!; try done.
  by destruct act.
Qed.

(** Unassigning a task (an empty assignee, no new action) does not touch the
    stored action: an authorization signed for the previous assignee stays attached. *)
Theorem unassignment_keeps_authorization sk inputs uid now o r t id t' eid r' :
  task_in r o.(uo_task_id) t id → o.(uo_assigned_to) = Some "" → o.(uo_action) = None →
  update_task_with_signing sk inputs uid now o r = (Ok (t', eid), r') →
  t'.(ts_assigned_to) = "" ∧ t'.(ts_action) = t.(ts_action).
Proof.
  intros Ht Ha Hno Hu. unfold update_task_with_signing, bind, lift in Hu.
  rewrite (proj2 (read_task_state_Some _ r t id r) (conj Ht eq_refl)) in Hu. simpl in Hu.
  rewrite Hno, Ha in Hu. simpl in Hu.
  assert (∀ ot act, authored_authorization sk inputs ot (without_authorization act)
            (if ts_created_by t =s "" then default "" uid else ts_created_by t) "" = Ok None) as Hnone
    by (intros ot act; by destruct act).
  destruct (ts_action t) as [act|] eqn:Hact; [rewrite Hnone in Hu|];
    apply apply_and_publish_spec in Hu as (_ & _ & -> & _); simpl; by rewrite Ha, Hno.
Qed.
End resigning.

(** A successful cancel leaves the task in a terminal state: a finished task is
    returned unchanged and the room is not touched; otherwise the task ends in the
    linked invocation's own outcome when that had already finished, and as
    [cancelled] when it had not or when there is none. *)
Theorem cancel_task_reconciles uid now k r t' r' :
  cancel_task uid now k r = (Ok t', r') →
  is_terminal t'.(ts_state) = true ∧
  ∃ t id, task_in r k t id ∧
    if is_terminal t.(ts_state) then t' = t ∧ r' = r
    else t'.(ts_state) = cancel_outcome r t ∧ ∃ id', task_in r' k t' id'.
Proof. intros H. by apply cancel_task_spec in H as [_ H]; apply H. Qed.

(** ** Witnesses *)

Module Sample.
Definition create (act : option TaskAction) : CreateTaskOptions :=
  {| co_task_id := Some "t1"; co_title := "build"; co_description := ""; co_state := None;
     co_assigned_to := "agent-b"; co_created_by := Some "@a:s"; co_depends_on := []; co_blocks := [];
     co_action := act |}.
Definition update (st : option string) (assignee : option string) : UpdateTaskOptions :=
  {| uo_task_id := "t1"; uo_state := st; uo_assigned_to := assignee; uo_title := None;
     uo_description := None; uo_invocation_id := None; uo_result := None; uo_action := None;
     uo_expected_state_rev := Some 1%Z |}.
Definition task : TaskState := build_new_task (create (Some Signing.Toy.action)) "t1" "@a:s" "now".
Definition room : Room :=
  {| room_tasks := {["t1" := Content task (Some "$1")]}; room_invocations := ∅; room_cancels := [];
     room_answers := [Some "$2"; Some "$3"] |}.
Definition signed_action : TaskAction := with_authorization Signing.Toy.action Signing.Toy.auth.
Definition signed_task : TaskState := build_new_task (create (Some signed_action)) "t1" "@a:s" "now".
Definition signed_room : Room :=
  {| room_tasks := {["t1" := Content signed_task (Some "$1")]}; room_invocations := ∅; room_cancels := [];
     room_answers := [Some "$2"] |}.
Definition inputs : AuthInputs :=
  {| ai_created_at := "2026-01-01T00:00:00Z"; ai_expires_at := "2026-01-02T00:00:00Z"; ai_nonce := "n1" |}.
End Sample.

Section task_witnesses.
#[local] Existing Instance Signing.Toy.toy_crypto.
#[local] Existing Instance Signing.Toy.toy_laws.

(** A change of one key, written over a room that has it too. *)
Lemma overlays_key {A} (k : string) (x y z : A) : x ≠ y → overlays {[k := x]} {[k := y]} {[k := z]} {[k := y]}.
Proof.
  intros Hne k'. destruct (base.decide (k' = k)) as [->|Hk].
  - right. rewrite !lookup_singleton_eq. split; congruence.
  - left. by rewrite !lookup_singleton_ne.
Qed.
Lemma overlays_none {A} (old m : gmap string A) : overlays old old m m.
Proof. intros k. by left. Qed.
(** The task is cancelled; a writer whose copy does not show that updates it from the version
    it saw, and the cancellation is written over. *)
Lemma task_history_witness :
  ∃ r1 r2 t1 t2, cancel_task (Some "@a:s") "later" "t1" Sample.room = (Ok t1, r1) ∧
    versions (λ _, False) [r2; r1; Sample.room] ∧ task_in r2 "t1" t2 (Some "$3") ∧
    t1.(ts_state) = "cancelled" ∧ t2.(ts_state) = "assigned" ∧
    (∃ seen, seen ∈ [r1; Sample.room] ∧ allowed_write seen r2 "t1") ∧
    ∃ cur rest t' id', [r1; Sample.room] = cur :: rest ∧ task_in cur "t1" t' id' ∧ descends Sample.task t'.
Proof.
  destruct (cancel_task (Some "@a:s") "later" "t1" Sample.room) as [[t1|e] r1] eqn:E; [|discriminate E].
  assert (r1 = {| room_tasks := {["t1" := Content t1 (Some "$2")]}; room_invocations := ∅; room_cancels := [];
                  room_answers := [Some "$3"] |} ∧ t1.(ts_state) = "cancelled" ∧ t1.(ts_state_rev) = 2%Z) as (Hr1 & Hst1 & Hrev1)
    by (vm_compute in E; simplify_eq; split_and!; reflexivity).
  destruct (update_task_in_room "later" (Sample.update (Some "assigned") None) (copy_of Sample.room r1))
    as [[[t2 id2]|e2] r2] eqn:E2; [|rewrite Hr1 in E2; discriminate E2].
  assert (r2 = {| room_tasks := {["t1" := Content t2 (Some "$3")]}; room_invocations := ∅; room_cancels := [];
                  room_answers := [] |} ∧ t2.(ts_state) = "assigned") as (Hr2 & Hst2)
    by (rewrite Hr1 in E2; vm_compute in E2; simplify_eq; split_and!; reflexivity).
  assert (∀ fresh, versions fresh [r1; Sample.room]) as Hv1.
  { intros fresh. apply (versions_write fresh Sample.room r1 Sample.room [] r1); [constructor|left|done|by eapply step_cancel|].
    rewrite Hr1. split; [|apply overlays_none|done|done]. apply overlays_key. by intros [= _ Hx]. }
  assert (versions (λ _, False) [r2; r1; Sample.room]) as Hv2.
  { apply (versions_write _ Sample.room r2 r1 [Sample.room] r2); [apply Hv1|right; left|done|by eapply step_scheduler_update|].
    rewrite Hr1, Hr2. split; [|apply overlays_none|done|done]. apply overlays_key. by intros [= _ Hx]. }
  exists r1, r2, t1, t2. split_and!; [done|done|by rewrite Hr2|done|done| |].
  - destruct (proj1 (task_history (λ _, False) [r2; r1; Sample.room] Hv2) [] r2 r1 [Sample.room] "t1" eq_refl)
      as (seen & Hin & _ & Ha); [|by exists seen].
    rewrite Hr1, Hr2. simpl. rewrite !lookup_singleton_eq. congruence.
  - exact (proj2 (task_history (λ _, True) [r1; Sample.room] (Hv1 _)) [r1] Sample.room [] "t1" Sample.task (Some "$1")
      eq_refl I eq_refl).
Defined.
Lemma stale_write_rejected_witness :
  ∃ t1 r1, update_task_in_room "later" (Sample.update (Some "assigned") None) Sample.room = (Ok (t1, "$2"), r1) ∧
    update_task_in_room "later" (Sample.update (Some "blocked") None) r1 = (Err (StaleTaskUpdate "t1" 1 2), r1).
Proof.
  destruct (update_task_in_room "later" (Sample.update (Some "assigned") None) Sample.room) as [[[t1 e]|e] r1] eqn:E;
    [|discriminate E].
  assert (e = "$2") as -> by (vm_compute in E; by simplify_eq).
  exists t1, r1. split; [done|].
  refine (proj2 (stale_write_rejected "later" "later" (Sample.update (Some "assigned") None)
    (Sample.update (Some "blocked") None) Sample.room Sample.task (Some "$1") t1 "$2" r1
    eq_refl _ eq_refl eq_refl eq_refl E)). unfold u64_max. simpl. lia.
Defined.
Lemma update_task_spec_witness :
  ∃ e, update_task_in_room "later" (Sample.update (Some "succeeded") None) Sample.room = (Err e, Sample.room).
Proof.
  destruct (proj1 (update_task_spec "later" (Sample.update (Some "succeeded") None) Sample.room Sample.task (Some "$1") eq_refl)
    eq_refl) as (e & He & _). by exists e.
Defined.
Lemma reassignment_resigns_witness :
  ∃ t' eid r', update_task_with_signing tt Sample.inputs None "later" (Sample.update None (Some "agent-c")) Sample.room
    = (Ok (t', eid), r') ∧ t'.(ts_assigned_to) = "agent-c".
Proof.
  destruct (update_task_with_signing (H := Signing.Toy.toy_crypto) tt Sample.inputs None "later"
    (Sample.update None (Some "agent-c")) Sample.room) as [[[t' eid]|e] r'] eqn:E; [|discriminate E].
  exists t', eid, r'. split; [done|].
  refine (proj1 (reassignment_resigns tt Sample.inputs None "later" (Sample.update None (Some "agent-c"))
    Sample.room Sample.task (Some "$1") "agent-c" Signing.Toy.action t' eid r' eq_refl eq_refl eq_refl _ eq_refl E)).
  discriminate.
Defined.
Lemma unassignment_keeps_authorization_witness :
  ∃ t' eid r', update_task_with_signing tt Sample.inputs None "later" (Sample.update None (Some "")) Sample.signed_room
    = (Ok (t', eid), r') ∧ t'.(ts_action) = Some Sample.signed_action.
Proof.
  destruct (update_task_with_signing (H := Signing.Toy.toy_crypto) tt Sample.inputs None "later"
    (Sample.update None (Some "")) Sample.signed_room) as [[[t' eid]|e] r'] eqn:E; [|discriminate E].
  exists t', eid, r'. split; [done|].
  exact (proj2 (unassignment_keeps_authorization tt Sample.inputs None "later" (Sample.update None (Some ""))
    Sample.signed_room Sample.signed_task (Some "$1") t' eid r' eq_refl eq_refl eq_refl E)).
Defined.
Lemma cancel_task_reconciles_witness :
  ∃ t' r', cancel_task (Some "@a:s") "later" "t1" Sample.room = (Ok t', r') ∧ is_terminal t'.(ts_state) = true.
Proof.
  destruct (cancel_task (Some "@a:s") "later" "t1" Sample.room) as [[t'|e] r'] eqn:E; [|discriminate E].
  exists t', r'. split; [done|]. exact (proj1 (cancel_task_reconciles _ _ _ _ _ _ E)).
Defined.
End task_witnesses.
