(* ===== verification/NonceGuard.v ===== *)
(** * Single-use nonces as an interface

    What the task orchestrator, the approval gate and the event router use of the
    replay cache: burning a nonce until an expiry, and taking a burn back.
    [NonceGuard] is the interface with its laws; the replay cache of [replay.rs]
    (file [Replay]) implements it. *)
From Stdlib Require Import ZArith.
From stdpp Require Import gmap strings list.
From S2P Require Import Prelude RustStr Time Replay.

(** [burn now nonce expires_at] is [ReplayCache::admit]; [unburn] is [forget]. *)
Class NonceGuard (C : Type) := {
  burn : Z → string → string → C → result unit ReplayError * C;
  unburn : string → C → C;
}.

Definition expired (now : Z) (expires_at : string) : Prop :=
  ∃ x, parse_rfc3339_to_unix expires_at = Some x ∧ (x ≤ now)%Z.

(** A refusal leaves the guard alone, but for a burn whose record cannot be written to the
    file, which stands in memory.  [recorded c n e]: nonce [n] is held until [e].  [room_for c k]: [k] more
    nonces fit without evicting a live one. *)
Class NonceGuardLaws (C : Type) `{NonceGuard C} := {
  recorded : C → string → string → Prop;
  room_for : C → nat → Prop;
  burn_ok now n e c c' :
    burn now n e c = (Ok tt, c') → recorded c' n e ∧ ∀ e', ¬ recorded c n e';
  burn_refused now n e c err c' :
    burn now n e c = (Err err, c') →
    match err with
    | ReplayIo _ => recorded c' n e ∧ ∀ e', ¬ recorded c n e'
    | Expired => c' = c ∧ expired now e
    | MalformedTimestamp => c' = c ∧ parse_rfc3339_to_unix e = None
    | _ => c' = c
    end;
  burn_spent now n e c :
    recorded c n e ∨ expired now e → ∃ err, burn now n e c = (Err err, c);
  burn_keeps now n e c r c' k :
    burn now n e c = (r, c') → room_for c (S k) →
    room_for c' k ∧ ∀ m e', recorded c m e' → recorded c' m e' ∨ expired now e';
  unburn_keeps n c m e : recorded c m e → m ≠ n → recorded (unburn n c) m e;
  unburn_only n c m e : recorded (unburn n c) m e → recorded c m e;
  unburn_forgets n c e : ¬ recorded (unburn n c) n e;
  unburn_room n c k : room_for c k → room_for (unburn n c) k;
  room_mono c k k' : k' ≤ k → room_for c k → room_for c k';
}.

(** An authorization that can no longer be burned at [now] or later. *)
Definition spent `{NonceGuardLaws C} (now : Z) (c : C) (n e : string) : Prop :=
  recorded c n e ∨ expired now e.

Section spent.
Context `{NonceGuardLaws C}.
Lemma expired_mono now now' e : (now ≤ now')%Z → expired now e → expired now' e.
Proof. intros Hle (x & Hx & Hle'). exists x. split; [done|lia]. Qed.
Lemma spent_mono now now' c n e : (now ≤ now')%Z → spent now c n e → spent now' c n e.
Proof. intros Hle [Hr|He]; [by left|right]. by eapply expired_mono. Qed.
Lemma spent_burn now n e c r c' k m e' :
  burn now n e c = (r, c') → room_for c (S k) → spent now c m e' → spent now c' m e'.
Proof.
  intros Hb Hk [Hr|He]; [|by right]. destruct (burn_keeps _ _ _ _ _ _ _ Hb Hk) as [_ Hkeep].
  by apply Hkeep in Hr.
Qed.
(** Taking back a burn leaves everything that was spent before it spent. *)
Lemma spent_unburn now n e c0 c1 c2 m e' :
  burn now n e c0 = (Ok tt, c1) → spent now c0 m e' → spent now c2 m e' → spent now (unburn n c2) m e'.
Proof.
  intros Hb [Hr0|He] H2; [|by right]. destruct H2 as [Hr2|He]; [|by right]. left.
  apply unburn_keeps; [done|]. intros ->. destruct (burn_ok _ _ _ _ _ Hb) as [_ Hn]. by apply Hn in Hr0.
Qed.
End spent.

(** ** The replay cache implements the interface *)

(** The cache with its file and the outcomes of the next persists ([Some kind]: an
    I/O failure; persists beyond the list succeed). *)
Record Guard := { g_fs : CacheFs; g_cache : ReplayCache; g_io : list (option string) }.

Section instance.
Context (hash_iter : gmap string Z → list (string * Z)).
Context (hash_iter_perm : ∀ m, hash_iter m ≡ₚ map_to_list m).
Context (to_vec : StoredCache → string).

Definition next_io (g : Guard) : option string := match g.(g_io) with io :: _ => io | [] => None end.
Definition cache_burn (now : Z) (n e : string) (g : Guard) : result unit ReplayError * Guard :=
  let '(fs, c, r) := admit_at hash_iter to_vec (next_io g) g.(g_fs) g.(g_cache) n e now in
  match r with
  | Ok _ | Err (ReplayIo _) => (r, {| g_fs := fs; g_cache := c; g_io := tail g.(g_io) |})
  | Err _ => (r, g)
  end.
Definition cache_unburn (n : string) (g : Guard) : Guard :=
  let '(fs, c, _) := forget to_vec (next_io g) g.(g_fs) g.(g_cache) n in
  {| g_fs := fs; g_cache := c; g_io := tail g.(g_io) |}.
#[local] Instance cache_guard : NonceGuard Guard := {| burn := cache_burn; unburn := cache_unburn |}.

Definition cache_recorded (g : Guard) (n e : string) : Prop :=
  ∃ x, parse_rfc3339_to_unix e = Some x ∧ nonces g.(g_cache) !! n = Some x.
Definition cache_room (g : Guard) (k : nat) : Prop :=
  (0 < capacity g.(g_cache)) ∧ (size (nonces g.(g_cache)) + k ≤ capacity g.(g_cache)).

Lemma admit_size io fs c n e now fs' c' r :
  admit_at hash_iter to_vec io fs c n e now = (fs', c', r) →
  capacity c' = capacity c ∧ (size (nonces c') ≤ S (size (nonces c))).
Proof.
  unfold admit_at, persist. intros Ha. destruct (parse_rfc3339_to_unix e); [|by simplify_eq; auto].
  destruct (_ <=? _)%Z; [simplify_eq; auto|]. destruct (bool_decide _); [simplify_eq; auto|].
  assert (size (<[n := z]> (evict hash_iter (size (prune_expired now (nonces c))) (capacity c) (prune_expired now (nonces c))))
    ≤ S (size (nonces c))) as Hs.
  { rewrite map_size_insert. pose proof (prune_expired_size now (nonces c)).
    pose proof (map_subseteq_size _ _ (evict_subset hash_iter (size (prune_expired now (nonces c))) (capacity c) (prune_expired now (nonces c)))).
    destruct (evict _ _ _ _ !! n); simpl; lia. }
  destruct io; by simplify_eq/=.
Qed.

Lemma cache_guard_laws : NonceGuardLaws Guard.
Proof using hash_iter_perm.
  refine {| recorded := cache_recorded; room_for := cache_room |}.
  - intros now n e c c' Hb. simpl in Hb. unfold cache_burn in Hb.
    destruct (admit_at _ _ _ _ _ _ _ _) as [[fs c1] r] eqn:E.
    pose proof (admit_at_meets_spec _ hash_iter_perm _ _ _ _ _ _ _ _ _ _ E) as Hs.
    destruct Hs as [?|? ? ?|? ? ? ?|x0 c2 r2 Hp Hlt Hnone Hcap2 Hrec Honly Hdrop Hfull Hres]; simplify_eq.
    destruct Hres as [->|[? ->]]; simplify_eq. split.
    + exists x0. by split.
    + intros e' (x & _ & Hx). congruence.
  - intros now n e c err c' Hb. simpl in Hb. unfold cache_burn in Hb.
    destruct (admit_at _ _ _ _ _ _ _ _) as [[fs c1] r] eqn:E.
    pose proof (admit_at_meets_spec _ hash_iter_perm _ _ _ _ _ _ _ _ _ _ E) as Hs.
    destruct Hs as [?|? ? ?|? ? ? ?|x0 c2 r2 Hp Hlt Hnone Hcap2 Hrec Honly Hdrop Hfull Hres]; simplify_eq; try done.
    + split; [done|]. eexists. by split.
    + destruct Hres as [->|[? ->]]; simplify_eq. split; [by exists x0|]. intros e1 (x1 & _ & Hx1). congruence.
  - intros now n e c Hsp. simpl. unfold cache_burn.
    destruct (admit_at _ _ _ _ _ _ _ _) as [[fs c1] r] eqn:E.
    pose proof (admit_at_meets_spec _ hash_iter_perm _ _ _ _ _ _ _ _ _ _ E) as Hs.
    destruct Hs as [?|? ? ?|? ? ? ?|x0 c2 r2 Hp Hlt Hnone Hcap2 Hrec Honly Hdrop Hfull Hres]; [by eexists..|]. exfalso. destruct Hsp as [(x & Hx & Hn)|(x & Hx & Hle)]; simplify_eq; lia.
  - intros now n e c r c' k Hb [Hc Hk]. simpl in Hb. unfold cache_burn in Hb.
    destruct (admit_at _ _ _ _ _ _ _ _) as [[fs c1] r1] eqn:E.
    pose proof (admit_at_meets_spec _ hash_iter_perm _ _ _ _ _ _ _ _ _ _ E) as Hs.
    apply admit_size in E as [Hcap Hsize].
    destruct Hs as [?|? ? ?|? ? ? ?|x0 c2 r2 Hp Hlt Hnone Hcap2 Hrec Honly Hdrop Hfull Hres]; simplify_eq;
      try (split; [split; [done|lia]|auto]).
    assert (cache_room {| g_fs := fs; g_cache := c2; g_io := tail (g_io c) |} k) as Hroom
      by (split; simpl; [by rewrite Hcap|lia]).
    assert (∀ m e', cache_recorded c m e' →
      cache_recorded {| g_fs := fs; g_cache := c2; g_io := tail (g_io c) |} m e' ∨ expired now e') as Hkeep.
    { intros m e' (x & Hx & Hm). destruct (decide (now < x)%Z); [|right; exists x; split; [done|lia]].
      left. exists x. split; [done|]. simpl. apply Hfull; [lia|done|done]. }
    destruct Hres as [->|[? ->]]; simplify_eq; done.
  - intros n c m e (x & Hx & Hm) Hne. simpl. unfold cache_unburn, forget, persist.
    exists x. split; [done|]. destruct (nonces (g_cache c) !! n) eqn:En; [|done].
    destruct (next_io c); simpl; by rewrite lookup_delete_ne.
  - intros n c m e (x & Hx & Hm). simpl in Hm. unfold cache_unburn, forget, persist in Hm.
    exists x. split; [done|]. destruct (nonces (g_cache c) !! n) eqn:En; [|done].
    destruct (next_io c); simpl in Hm; by apply lookup_delete_Some in Hm as [_ Hm].
  - intros n c e (x & Hx & Hm). simpl in Hm. unfold cache_unburn, forget, persist in Hm.
    destruct (nonces (g_cache c) !! n) eqn:En; [|simpl in Hm; congruence].
    destruct (next_io c); simpl in Hm; by rewrite lookup_delete_eq in Hm.
  - intros n c k [Hc Hk]. simpl. unfold cache_unburn, forget, persist.
    destruct (nonces (g_cache c) !! n) eqn:En; [|done].
    destruct (next_io c); split; simpl; try done; rewrite map_size_delete, En; lia.
  - intros c k k' Hle [Hc Hk]. split; [done|lia].
Defined.
End instance.
