(* ===== verification/EventRouter.v ===== *)
(** * Event router

    Models [crates/mx-agent-daemon/src/event_router.rs] and the event types of
    [crates/mx-agent-protocol/src/events.rs]: classifying, decoding and
    replay-checking the events of a sync before a handler sees them.  [serde]'s
    decoding is an argument; the replay cache is any nonce guard.  Turning a sync
    response into [IncomingEvent]s belongs to the Matrix SDK. *)
From Stdlib Require Import ZArith.
From stdpp Require Import gmap strings list.
From S2P Require Import Prelude RustStr CanonicalJson Schema Time Replay NonceGuard.

Definition ENCRYPTED_EVENT_TYPE : string := "m.room.encrypted".

Record IncomingEvent := {
  ie_event_type : string;
  ie_room_id : string;
  ie_sender : string;
  ie_event_id : option string;
  ie_state_key : option string;
  ie_encrypted : bool;
  ie_content : Value;
}.
Record EventMeta := {
  em_event_type : string;
  em_room_id : string;
  em_sender : string;
  em_event_id : option string;
  em_state_key : option string;
}.

Inductive EventCategory :=
| CExecRequest | CExecAccepted | CExecRejected | CExecFinished | CExecStdin | CExecCancel | CExecCancelled
| CPtyResize | CCallRequest | CCallResponse | CStreamChunk | CStreamArtifact | CTask | CInvocation
| CApprovalRequest | CApprovalDecision | CHeartbeat.
#[export] Instance EventCategory_eq_dec : EqDecision EventCategory.
Proof. solve_decision. Defined.

Definition category_as_str (c : EventCategory) : string :=
  match c with
  | CExecRequest => "exec.request"
  | CExecAccepted => "exec.accepted"
  | CExecRejected => "exec.rejected"
  | CExecFinished => "exec.finished"
  | CExecStdin => "exec.stdin"
  | CExecCancel => "exec.cancel"
  | CExecCancelled => "exec.cancelled"
  | CPtyResize => "pty.resize"
  | CCallRequest => "call.request"
  | CCallResponse => "call.response"
  | CStreamChunk => "stream.chunk"
  | CStreamArtifact => "stream.artifact"
  | CTask => "task"
  | CInvocation => "invocation"
  | CApprovalRequest => "approval.request"
  | CApprovalDecision => "approval.decision"
  | CHeartbeat => "heartbeat"
  end.
Definition is_privileged (c : EventCategory) : bool :=
  match c with
  | CExecRequest | CExecStdin | CExecCancel | CCallRequest | CPtyResize => true
  | _ => false
  end.

(** The arms of [classify], in order, over the constants of [events.rs]. *)
Definition event_types : list (string * EventCategory) := [
  ("com.mxagent.exec.request.v1", CExecRequest);
  ("com.mxagent.exec.accepted.v1", CExecAccepted);
  ("com.mxagent.exec.rejected.v1", CExecRejected);
  ("com.mxagent.exec.finished.v1", CExecFinished);
  ("com.mxagent.exec.stdin.v1", CExecStdin);
  ("com.mxagent.exec.cancel.v1", CExecCancel);
  ("com.mxagent.exec.cancelled.v1", CExecCancelled);
  ("com.mxagent.pty.resize.v1", CPtyResize);
  ("com.mxagent.call.request.v1", CCallRequest);
  ("com.mxagent.call.response.v1", CCallResponse);
  ("com.mxagent.stream.chunk.v1", CStreamChunk);
  ("com.mxagent.stream.artifact.v1", CStreamArtifact);
  ("com.mxagent.approval.request.v1", CApprovalRequest);
  ("com.mxagent.approval.decision.v1", CApprovalDecision);
  ("com.mxagent.heartbeat.v1", CHeartbeat);
  ("com.mxagent.task.v1", CTask);
  ("com.mxagent.invocation.v1", CInvocation)].
Definition classify (event_type : string) : option EventCategory :=
  snd <$> List.find (λ p, p.1 =s event_type) event_types.

Inductive RoutedEvent :=
| RExecRequest (r : ExecRequest)
| RExecAccepted (r : ExecAccepted)
| RExecRejected (r : ExecRejected)
| RExecFinished (r : ExecFinished)
| RExecStdin (r : ExecStdin)
| RExecCancel (r : ExecCancel)
| RExecCancelled (r : ExecCancelled)
| RPtyResize (r : PtyResize)
| RCallRequest (r : CallRequest)
| RCallResponse (r : CallResponse)
| RStreamChunk (r : StreamChunk)
| RStreamArtifact (r : StreamArtifact)
| RTask (t : TaskState)
| RInvocation (i : InvocationState)
| RApprovalRequest (r : ApprovalRequest)
| RApprovalDecision (d : ApprovalDecision)
| RHeartbeat (h : Heartbeat).
Definition category (e : RoutedEvent) : EventCategory :=
  match e with
  | RExecRequest _ => CExecRequest
  | RExecAccepted _ => CExecAccepted
  | RExecRejected _ => CExecRejected
  | RExecFinished _ => CExecFinished
  | RExecStdin _ => CExecStdin
  | RExecCancel _ => CExecCancel
  | RExecCancelled _ => CExecCancelled
  | RPtyResize _ => CPtyResize
  | RCallRequest _ => CCallRequest
  | RCallResponse _ => CCallResponse
  | RStreamChunk _ => CStreamChunk
  | RStreamArtifact _ => CStreamArtifact
  | RTask _ => CTask
  | RInvocation _ => CInvocation
  | RApprovalRequest _ => CApprovalRequest
  | RApprovalDecision _ => CApprovalDecision
  | RHeartbeat _ => CHeartbeat
  end.

Inductive RouteOutcome :=
| Dispatched (c : EventCategory)
| Ignored
| SkippedEncrypted
| Malformed (c : EventCategory)
| ReplayRejected (c : EventCategory).
Definition was_dispatched (o : RouteOutcome) : bool := match o with Dispatched _ => true | _ => false end.

(** The payload type of a category, and [serde_json::from_value] into it. *)
Definition payload (c : EventCategory) : Type :=
  match c with
  | CExecRequest => ExecRequest | CExecAccepted => ExecAccepted | CExecRejected => ExecRejected
  | CExecFinished => ExecFinished | CExecStdin => ExecStdin | CExecCancel => ExecCancel
  | CExecCancelled => ExecCancelled | CPtyResize => PtyResize | CCallRequest => CallRequest
  | CCallResponse => CallResponse | CStreamChunk => StreamChunk | CStreamArtifact => StreamArtifact
  | CTask => TaskState | CInvocation => InvocationState | CApprovalRequest => ApprovalRequest
  | CApprovalDecision => ApprovalDecision | CHeartbeat => Heartbeat
  end.

Section router.
Context `{NonceGuard C} (decode : ∀ c : EventCategory, Value → option (payload c)).

Definition parse_routed (c : EventCategory) (content : Value) : option RoutedEvent :=
  match c with
  | CExecRequest => RExecRequest <$> decode CExecRequest content
  | CExecAccepted => RExecAccepted <$> decode CExecAccepted content
  | CExecRejected => RExecRejected <$> decode CExecRejected content
  | CExecFinished => RExecFinished <$> decode CExecFinished content
  | CExecStdin => RExecStdin <$> decode CExecStdin content
  | CExecCancel => RExecCancel <$> decode CExecCancel content
  | CExecCancelled => RExecCancelled <$> decode CExecCancelled content
  | CPtyResize => RPtyResize <$> decode CPtyResize content
  | CCallRequest => RCallRequest <$> decode CCallRequest content
  | CCallResponse => RCallResponse <$> decode CCallResponse content
  | CStreamChunk => RStreamChunk <$> decode CStreamChunk content
  | CStreamArtifact => RStreamArtifact <$> decode CStreamArtifact content
  | CTask => RTask <$> decode CTask content
  | CInvocation => RInvocation <$> decode CInvocation content
  | CApprovalRequest => RApprovalRequest <$> decode CApprovalRequest content
  | CApprovalDecision => RApprovalDecision <$> decode CApprovalDecision content
  | CHeartbeat => RHeartbeat <$> decode CHeartbeat content
  end.

(** The nonce and expiry the router burns. *)
Definition replay_of (e : RoutedEvent) : option (string * string) :=
  match e with
  | RExecRequest r => Some (r.(er_nonce), r.(er_expires_at))
  | RCallRequest r => Some (r.(cr_nonce), r.(cr_expires_at))
  | _ => None
  end.

Definition admit_decision_nonce (now : Z) (nonce expires_at : string) (replay : C) : bool * C :=
  let '(r, replay) := burn now nonce expires_at replay in (is_ok r, replay).

(** [route]: the outcome, the call made to the sink, and the cache afterwards. *)
Definition route (now : Z) (event : IncomingEvent) (replay : C) :
    RouteOutcome * option (EventMeta * RoutedEvent) * C :=
  if event.(ie_encrypted) || (event.(ie_event_type) =s ENCRYPTED_EVENT_TYPE) then (SkippedEncrypted, None, replay)
  else
    match classify event.(ie_event_type) with
    | None => (Ignored, None, replay)
    | Some category =>
        match parse_routed category event.(ie_content) with
        | None => (Malformed category, None, replay)
        | Some routed =>
            let '(fresh, replay) :=
              match replay_of routed with
              | Some (nonce, expires_at) =>
                  let '(r, replay) := burn now nonce expires_at replay in (negb (is_err r), replay)
              | None => (true, replay)
              end in
            if negb fresh then (ReplayRejected category, None, replay)
            else
              let meta := {| em_event_type := event.(ie_event_type); em_room_id := event.(ie_room_id);
                             em_sender := event.(ie_sender); em_event_id := event.(ie_event_id);
                             em_state_key := event.(ie_state_key) |} in
              (Dispatched category, Some (meta, routed), replay)
        end
    end.

(** The sync loop: events in order, each at its clock reading, with what reached the
    handlers. *)
Fixpoint route_all (events : list (Z * IncomingEvent)) (replay : C) : list (EventMeta * RoutedEvent) * C :=
  match events with
  | [] => ([], replay)
  | (now, e) :: events =>
      let '(_, d, replay) := route now e replay in
      let '(ds, replay) := route_all events replay in
      ((match d with Some x => [x] | None => [] end) ++ ds, replay)
  end.
End router.

(** ** Classification *)

Lemma classify_spec t c : classify t = Some c ↔ (t, c) ∈ event_types.
Proof.
  unfold classify. split.
  - destruct (List.find _ event_types) as [[t' c']|] eqn:E; [|done]. intros [= <-].
    apply List.find_some in E as [Hin Heq]. apply str_eqb_eq in Heq. simpl in Heq. subst. by apply list_elem_of_In.
  - intros Hin. repeat (apply elem_of_cons in Hin as [Hin|Hin]; [simplify_eq; reflexivity|]). by apply elem_of_nil in Hin.
Qed.
Lemma parse_routed_category decode c v r : parse_routed decode c v = Some r → category r = c.
Proof. destruct c; simpl; intros Hp; by apply fmap_Some in Hp as (x & _ & ->). Qed.

(** ** The gates of one event *)

(** What [route] promises for each outcome. *)
Definition route_spec `{NonceGuard C} (decode : ∀ c, Value → option (payload c)) (now : Z) (e : IncomingEvent) (replay : C)
    (o : RouteOutcome) (d : option (EventMeta * RoutedEvent)) (replay' : C) : Prop :=
  let encrypted := e.(ie_encrypted) = true ∨ e.(ie_event_type) = ENCRYPTED_EVENT_TYPE in
  match o with
  | SkippedEncrypted => encrypted ∧ d = None ∧ replay' = replay
  | Ignored => ¬ encrypted ∧ (∀ c, (e.(ie_event_type), c) ∉ event_types) ∧ d = None ∧ replay' = replay
  | Malformed c => ¬ encrypted ∧ (e.(ie_event_type), c) ∈ event_types ∧ parse_routed decode c e.(ie_content) = None ∧
      d = None ∧ replay' = replay
  | ReplayRejected c => ¬ encrypted ∧ (c = CExecRequest ∨ c = CCallRequest) ∧ d = None ∧
      ∃ r n x err, parse_routed decode c e.(ie_content) = Some r ∧ replay_of r = Some (n, x) ∧
        burn now n x replay = (Err err, replay')
  | Dispatched c => ¬ encrypted ∧ (e.(ie_event_type), c) ∈ event_types ∧
      ∃ meta r, d = Some (meta, r) ∧ category r = c ∧ parse_routed decode c e.(ie_content) = Some r ∧
        meta.(em_room_id) = e.(ie_room_id) ∧ meta.(em_sender) = e.(ie_sender) ∧
        match replay_of r with
        | Some (n, x) => (c = CExecRequest ∨ c = CCallRequest) ∧ burn now n x replay = (Ok tt, replay')
        | None => c ≠ CExecRequest ∧ c ≠ CCallRequest ∧ replay' = replay
        end
  end.

Lemma replay_of_category r n x : replay_of r = Some (n, x) → category r = CExecRequest ∨ category r = CCallRequest.
Proof. destruct r; simpl; intros Hr; simplify_eq; auto. Qed.
Lemma replay_of_None r : replay_of r = None → category r ≠ CExecRequest ∧ category r ≠ CCallRequest.
Proof. by destruct r. Qed.

Lemma route_meets_spec `{NonceGuard C} decode now e (replay : C) o d replay' :
  route decode now e replay = (o, d, replay') → route_spec decode now e replay o d replay'.
Proof.
  unfold route. destruct (ie_encrypted e || _) eqn:Henc.
  { intros [= <- <- <-]. apply orb_true_iff in Henc as [?|?%str_eqb_eq]; split; auto. }
  assert (¬ (e.(ie_encrypted) = true ∨ e.(ie_event_type) = ENCRYPTED_EVENT_TYPE)) as Hne.
  { apply orb_false_iff in Henc as [? ?]. intros [?|Heq]; [congruence|]. by rewrite Heq, str_eqb_refl in *. }
  destruct (classify _) as [c|] eqn:Hc.
  2: { intros [= <- <- <-]. split_and!; try done. intros c Hin%classify_spec. congruence. }
  apply classify_spec in Hc. destruct (parse_routed decode c _) as [r|] eqn:Hp; [|intros [= <- <- <-]; by split_and!].
  pose proof (parse_routed_category _ _ _ _ Hp) as Hcat.
  destruct (replay_of r) as [[n x]|] eqn:Hr.
  - apply replay_of_category in Hr as Hrc. rewrite Hcat in Hrc.
    destruct (burn now n x replay) as [[[]|err] replay1] eqn:Hb; simpl; intros [= <- <- <-].
    + split; [done|]. split; [done|]. do 2 eexists. split; [done|]. rewrite Hr. by split_and!.
    + split_and!; [done|done|done|]. by exists r, n, x, err.
  - simpl. intros [= <- <- <-]. split; [done|]. split; [done|]. do 2 eexists. split; [done|]. rewrite Hr.
    apply replay_of_None in Hr. rewrite Hcat in Hr. destruct Hr. by split_and!.
Qed.

(** What became of the cache when the nonce of a request was refused. *)
Definition refusal_grounds `{NonceGuardLaws C} (now : Z) (n x : string) (err : ReplayError) (replay replay' : C) : Prop :=
  match err with
  | ReplayIo _ => recorded replay' n x ∧ ∀ x', ¬ recorded replay n x'
  | Expired => replay' = replay ∧ expired now x
  | MalformedTimestamp => replay' = replay ∧ parse_rfc3339_to_unix x = None
  | _ => replay' = replay
  end.
Definition gate_spec `{NonceGuardLaws C} (decode : ∀ c, Value → option (payload c)) (now : Z) (e : IncomingEvent) (replay : C)
    (o : RouteOutcome) (d : option (EventMeta * RoutedEvent)) (replay' : C) : Prop :=
  let encrypted := e.(ie_encrypted) = true ∨ e.(ie_event_type) = ENCRYPTED_EVENT_TYPE in
  match o with
  | SkippedEncrypted => encrypted ∧ d = None ∧ replay' = replay
  | Ignored => ¬ encrypted ∧ (∀ c, (e.(ie_event_type), c) ∉ event_types) ∧ d = None ∧ replay' = replay
  | Malformed c => ¬ encrypted ∧ (e.(ie_event_type), c) ∈ event_types ∧ parse_routed decode c e.(ie_content) = None ∧
      d = None ∧ replay' = replay
  | ReplayRejected c => ¬ encrypted ∧ (c = CExecRequest ∨ c = CCallRequest) ∧ d = None ∧
      ∃ r n x err, parse_routed decode c e.(ie_content) = Some r ∧ replay_of r = Some (n, x) ∧
        burn now n x replay = (Err err, replay') ∧ refusal_grounds now n x err replay replay'
  | Dispatched c => ¬ encrypted ∧ (e.(ie_event_type), c) ∈ event_types ∧
      ∃ meta r, d = Some (meta, r) ∧ category r = c ∧ parse_routed decode c e.(ie_content) = Some r ∧
        meta.(em_room_id) = e.(ie_room_id) ∧ meta.(em_sender) = e.(ie_sender) ∧
        match replay_of r with
        | Some (n, x) => (c = CExecRequest ∨ c = CCallRequest) ∧ ¬ spent now replay n x ∧ recorded replay' n x
        | None => c ≠ CExecRequest ∧ c ≠ CCallRequest ∧ replay' = replay
        end
  end.

(** C8: the router hands an event to a handler only if it is decrypted, of a known type, its
    content decodes to that type and, for an exec or call request, its nonce was neither
    recorded nor expired and is recorded now.  Of the events it does not hand on, those that
    are encrypted, of an unknown type or malformed leave the replay cache alone, as does a
    request that is replayed, expired or has no readable expiry; a request whose record
    could not be written to the file is refused too, but its nonce stays recorded in
    memory.  Each outcome that is reported is true of the event. *)
Theorem route_gates `{NonceGuardLaws C} decode now e (replay : C) :
  let '(o, d, replay') := route decode now e replay in gate_spec decode now e replay o d replay'.
Proof.
  destruct (route decode now e replay) as [[o d] replay'] eqn:E. apply route_meets_spec in E.
  destruct o as [c| | | |c]; simpl in *; try done.
  - destruct E as (He & Ht & meta & r & -> & Hc & Hp & Hr & Hs & Hm). split_and!; [done..|]. exists meta, r.
    split_and!; [done..|]. destruct (replay_of r) as [[n x]|]; [|done]. destruct Hm as [Hcat Hb]. split_and!; [done| |].
    + intros Hsp. destruct (burn_spent now n x replay Hsp) as [err Herr]. congruence.
    + by eapply burn_ok.
  - destruct E as (He & Hc & -> & r & n & x & err & Hp & Hr & Hb). split_and!; [done..|]. exists r, n, x, err.
    split_and!; [done..|]. pose proof (burn_refused _ _ _ _ _ _ Hb) as Hg. by destruct err.
Qed.

(** ** Requests reach a handler at most once *)

Section once.
Context `{NonceGuardLaws C} (decode : ∀ c : EventCategory, Value → option (payload c)).

(** The single-use tokens of what reached the handlers. *)
Definition tokens (ds : list (EventMeta * RoutedEvent)) : list (string * string) := omap (λ d, replay_of d.2) ds.
Fixpoint clock_from (t : Z) (es : list (Z * IncomingEvent)) : Prop :=
  match es with [] => True | (now, _) :: es => (t ≤ now)%Z ∧ clock_from now es end.

(** One event: what was spent stays spent, at the cost of one place in the cache. *)
Lemma route_keeps now e (c c' : C) o d k :
  route decode now e c = (o, d, c') → room_for c (S k) →
  room_for c' k ∧ (∀ m x, spent now c m x → spent now c' m x) ∧
  ∀ meta r n x, d = Some (meta, r) → replay_of r = Some (n, x) → spent now c' n x ∧ ¬ spent now c n x.
Proof.
  intros Hr Hk. apply route_meets_spec in Hr.
  assert (room_for c k) as Hk' by (eapply room_mono; [|done]; lia).
  assert (∀ n x r, burn now n x c = (r, c') → room_for c' k ∧ ∀ m x, spent now c m x → spent now c' m x) as Hburn.
  { intros n x r Hb. split; [by eapply (burn_keeps _ _ _ _ _ _ _ Hb)|]. intros m y. by eapply spent_burn. }
  destruct o; simpl in Hr.
  - destruct Hr as (_ & _ & meta & r & -> & _ & _ & _ & _ & Hm). destruct (replay_of r) as [[n x]|] eqn:Hrp.
    + destruct Hm as [_ Hb]. destruct (Hburn _ _ _ Hb). split_and!; [done..|].
      intros ? ? n' x' [= <- <-] Heq. rewrite Hrp in Heq. simplify_eq. split; [left; by eapply burn_ok|].
      intros Hs. destruct (burn_spent now n' x' c Hs) as [err Herr]. congruence.
    + destruct Hm as (_ & _ & ->). split_and!; [done..|]. intros ? ? n x [= <- <-] Heq. congruence.
  - destruct Hr as (_ & _ & -> & ->). by split_and!.
  - destruct Hr as (_ & -> & ->). by split_and!.
  - destruct Hr as (_ & _ & _ & -> & ->). by split_and!.
  - destruct Hr as (_ & _ & -> & r & n & x & err & _ & _ & Hb). destruct (Hburn _ _ _ Hb). by split_and!.
Qed.

(** C11: over any sync history no exec or call request reaches a handler twice under
    the same nonce and expiry, nor one whose nonce was already spent, provided the
    clock does not run backwards and the cache has room for the requests. *)
Theorem requests_dispatched_once es : ∀ now (c c' : C) ds,
  clock_from now es → room_for c (length es) → route_all decode es c = (ds, c') →
  NoDup (tokens ds) ∧ ∀ n x, (n, x) ∈ tokens ds → ¬ spent now c n x.
Proof.
  induction es as [|[t e] es IH]; simpl; intros now c c' ds Hck Hk Hr.
  { simplify_eq. split; [apply NoDup_nil_2|]. intros n x Hin. by apply elem_of_nil in Hin. }
  destruct Hck as [Hle Hck]. destruct (route decode t e c) as [[o d] c1] eqn:H1.
  destruct (route_all decode es c1) as [ds1 c2] eqn:H2. simplify_eq.
  destruct (route_keeps _ _ _ _ _ _ _ H1 Hk) as (Hk1 & Hkeep & Hd).
  destruct (IH t c1 c' ds1 Hck Hk1 H2) as [Hnd Hfresh].
  assert (∀ n x, (n, x) ∈ tokens ds1 → ¬ spent now c n x) as Hrest.
  { intros n x Hin Hs. apply (Hfresh n x Hin), Hkeep. by eapply spent_mono. }
  destruct d as [[meta r]|]; [|done]. unfold tokens in *. simpl.
  destruct (replay_of r) as [[n x]|] eqn:Hrp; [|done]. destruct (Hd meta r n x eq_refl Hrp) as [Hs1 Hs0]. split.
  - apply NoDup_cons. split; [|done]. intros Hin. by apply (Hfresh n x).
  - intros n' x' [[= -> ->]|Hin]%elem_of_cons; [|by apply Hrest]. intros Hs. apply Hs0. by eapply spent_mono.
Qed.

End once.

(** ** Flooding the cache

    The router burns nonces before any signature is checked, and a full cache evicts
    its soonest-to-expire entry. *)
Section flood.
Context (hash_iter : gmap string Z → list (string * Z)).
Context (hash_iter_perm : ∀ m, hash_iter m ≡ₚ map_to_list m).
Context (to_vec : StoredCache → string) (decode : ∀ c : EventCategory, Value → option (payload c)).
#[local] Instance flood_guard : NonceGuard Guard := cache_guard hash_iter to_vec.

(** An event that decodes to an exec request with this nonce and expiry: nothing is
    asked of its signature. *)
Definition exec_event (e : IncomingEvent) (n : string) (x : Z) : Prop :=
  e.(ie_encrypted) = false ∧ e.(ie_event_type) = "com.mxagent.exec.request.v1" ∧
  ∃ r : ExecRequest, decode CExecRequest e.(ie_content) = Some r ∧ r.(er_nonce) = n ∧
    parse_rfc3339_to_unix r.(er_expires_at) = Some x.

Lemma route_exec_event now e n x g o d g' :
  exec_event e n x → (now < x)%Z → g.(g_io) = [] → nonces g.(g_cache) !! n = None →
  route decode now e g = (o, d, g') →
  o = Dispatched CExecRequest ∧ g'.(g_io) = [] ∧ ∃ fs fs' s,
    admit_at hash_iter to_vec None fs g.(g_cache) n s now = (fs', g'.(g_cache), Ok tt) ∧ parse_rfc3339_to_unix s = Some x.
Proof.
  intros (Henc & Hty & r & Hd & <- & Hx) Hlt Hio Hn. unfold route. rewrite Henc, Hty. simpl. rewrite Hd. simpl.
  unfold cache_burn, next_io. rewrite Hio. destruct (admit_at _ _ _ _ _ _ _ _) as [[fs' c'] res] eqn:E.
  assert (res = Ok tt) as ->.
  { unfold admit_at, persist in E. rewrite Hx in E. rewrite (proj2 (Z.leb_gt _ _) Hlt), Hn in E. by simplify_eq/=. }
  simpl. intros [= <- <- <-]. split; [done|]. split; [done|]. simpl. by exists (g_fs g), fs', (er_expires_at r).
Qed.
(** One flood event: either the victim's entry goes, or every later-expiring entry stays. *)
Lemma flood_step now e m y g o d g' n x :
  exec_event e m y → (now < x < y)%Z → m ≠ n → g.(g_io) = [] → cache_wf g.(g_cache) → nonces g.(g_cache) !! m = None →
  route decode now e g = (o, d, g') →
  cache_wf g'.(g_cache) ∧ g'.(g_io) = [] ∧ capacity g'.(g_cache) = capacity g.(g_cache) ∧
  nonces g'.(g_cache) !! m = Some y ∧
  (∀ k z, k ≠ m → nonces g'.(g_cache) !! k = Some z → nonces g.(g_cache) !! k = Some z) ∧
  (nonces g'.(g_cache) !! n = Some x → ∀ k z, nonces g.(g_cache) !! k = Some z → (x < z)%Z →
     nonces g'.(g_cache) !! k = Some z).
Proof using hash_iter_perm.
  intros He Hx Hmn Hio Hwf Hm Hr.
  apply (route_exec_event _ _ _ _ _ _ _ _ He) in Hr as (_ & Hio' & fs & fs' & s & Ha & Hs); [|lia|done|done].
  apply (admit_at_wf hash_iter hash_iter_perm) in Ha as Hwf'; [|done].
  apply (admit_at_meets_spec hash_iter hash_iter_perm) in Ha.
  inversion Ha as [| | |z c2 r Hz Hlt Hnone Hcap Hrec Honly Hdrop Hfull Hres]; subst; simplify_eq.
  split_and!; try done.
  - intros k w Hk Hw. by apply Honly in Hw as [? _].
  - intros Hn k w Hk Hxw. destruct (nonces (g_cache g') !! k) as [w'|] eqn:Hk'.
    + destruct (decide (k = m)) as [->|Hkm]; [congruence|]. apply Honly in Hk' as [? _]; [congruence|done].
    + assert (w ≤ x)%Z; [|lia]. apply (Hdrop k w n x); [done|lia|done|done|done].
Qed.

(** A flood: events with their nonces and expiries. *)
Definition flood_ok (now : Z) (n : string) (x : Z) (flood : list (IncomingEvent * string * Z)) : Prop :=
  Forall (λ f, exec_event f.1.1 f.1.2 f.2 ∧ (now < x < f.2)%Z ∧ f.1.2 ≠ n) flood ∧
  NoDup (map (λ f, f.1.2) flood).
Definition flood_events (now : Z) (flood : list (IncomingEvent * string * Z)) : list (Z * IncomingEvent) :=
  map (λ f, (now, f.1.1)) flood.

Lemma flood_run now n x flood : ∀ g ds g',
  flood_ok now n x flood → g.(g_io) = [] → cache_wf g.(g_cache) →
  Forall (λ f, nonces g.(g_cache) !! f.1.2 = None) flood →
  route_all decode (flood_events now flood) g = (ds, g') →
  cache_wf g'.(g_cache) ∧ g'.(g_io) = [] ∧ capacity g'.(g_cache) = capacity g.(g_cache) ∧
  (∀ z, nonces g'.(g_cache) !! n = Some z → nonces g.(g_cache) !! n = Some z) ∧
  (nonces g'.(g_cache) !! n = Some x →
     (∀ k z, nonces g.(g_cache) !! k = Some z → (x < z)%Z → nonces g'.(g_cache) !! k = Some z) ∧
     ∀ f, f ∈ flood → nonces g'.(g_cache) !! f.1.2 = Some f.2).
Proof using hash_iter_perm.
  induction flood as [|[[e m] y] flood IH]; simpl; intros g ds g' [Hok Hnd] Hio Hwf Hnone Hr.
  { simplify_eq. split_and!; try done. intros _. split; [done|]. by intros f ?%elem_of_nil. }
  apply Forall_cons in Hok as [(He & Hx & Hmn) Hok]. apply Forall_cons in Hnone as [Hm Hnone]. simpl in *.
  apply NoDup_cons in Hnd as [Hmf Hnd].
  destruct (route decode now e g) as [[o d] g1] eqn:H1. destruct (route_all decode _ g1) as [ds1 g2] eqn:H2. simplify_eq.
  destruct (flood_step _ _ _ _ _ _ _ _ n x He Hx Hmn Hio Hwf Hm H1) as (Hwf1 & Hio1 & Hcap1 & Hrec & Hold & Hkeep).
  apply IH in H2 as (Hwf2 & Hio2 & Hcap2 & Hn2 & Hall); [|done|done|done|].
  2: { rewrite Forall_forall in Hnone |- *. intros f Hf. destruct (nonces (g_cache g1) !! f.1.2) as [z|] eqn:E; [|done].
       rewrite <- (Hnone f Hf). symmetry. apply Hold; [|done]. intros Heq. apply Hmf. rewrite <- Heq.
       by apply (list_elem_of_fmap_2 (λ f : IncomingEvent * string * Z, f.1.2)). }
  split_and!; [done|done|congruence| |].
  - intros z Hz%Hn2. by apply (Hold n).
  - intros Hn. destruct (Hall Hn) as [Hbig Hfl]. pose proof (Hkeep (Hn2 _ Hn)) as Hk. split.
    + intros k z Hkz Hxz. apply Hbig; [by apply Hk|done].
    + intros f [->|Hf]%elem_of_cons; [|by apply Hfl]. simpl. apply Hbig; [done|lia].
Qed.

Lemma size_ge_list {V} (m : gmap string V) l : NoDup l → (∀ k, k ∈ l → is_Some (m !! k)) → length l ≤ size m.
Proof.
  intros Hnd Hl. rewrite <- (size_list_to_set (C := gset string)) by done. rewrite <- size_dom.
  apply subseteq_size. intros k Hk%elem_of_list_to_set. by apply elem_of_dom, Hl.
Qed.

(** Any room member can reopen the replay window of an exec request.  As many
    exec-request events as the cache holds, unsigned or not, with fresh nonces and a
    later expiry, evict the request's nonce; the router then dispatches the same
    request again, before it has expired. *)
Theorem flood_reopens_replay now n x victim flood g ds g' :
  exec_event victim n x → flood_ok now n x flood → (now < x)%Z →
  g.(g_io) = [] → cache_wf g.(g_cache) → nonces g.(g_cache) !! n = Some x →
  Forall (λ f, nonces g.(g_cache) !! f.1.2 = None) flood → length flood = capacity g.(g_cache) →
  route_all decode (flood_events now flood) g = (ds, g') →
  (route decode now victim g).1.1 = ReplayRejected CExecRequest ∧
  (route decode now victim g').1.1 = Dispatched CExecRequest.
Proof using hash_iter_perm.
  intros Hv Hok Hlt Hio Hwf Hn Hnone Hlen Hr. split.
  { destruct Hv as (Henc & Hty & r & Hd & <- & Hx). unfold route. rewrite Henc, Hty. simpl. rewrite Hd. simpl.
    unfold cache_burn, admit_at. rewrite Hx, (proj2 (Z.leb_gt _ _) Hlt), Hn. done. }
  destruct (flood_run now n x flood g ds g' Hok Hio Hwf Hnone Hr) as ([_ Hsz] & Hio' & Hcap & Hold & Hall).
  destruct (nonces (g_cache g') !! n) as [z|] eqn:Hn'.
  - exfalso. pose proof (Hold z eq_refl). assert (z = x) as -> by congruence. destruct (Hall eq_refl) as [_ Hfl].
    assert (length (n :: map (λ f : IncomingEvent * string * Z, f.1.2) flood) ≤ size (nonces (g_cache g'))) as Hge.
    { destruct Hok as [Hok Hnd]. apply size_ge_list.
      - apply NoDup_cons. split; [|done]. intros (f & -> & Hf)%list_elem_of_fmap.
        rewrite Forall_forall in Hok. by apply Hok in Hf as (_ & _ & ?).
      - intros k [->|(f & -> & Hf)%list_elem_of_fmap]%elem_of_cons; [by rewrite Hn'|]. by rewrite (Hfl f Hf). }
    simpl in Hge. rewrite length_map in Hge. lia.
  - destruct (route decode now victim g') as [[o d] g2] eqn:E.
    by apply (route_exec_event _ _ _ _ _ _ _ _ Hv Hlt Hio' Hn') in E as [-> _].
Qed.
End flood.

(** ** Witnesses *)

Module Sample.
(** A decoder that reads the nonce and the expiry. *)
Definition request (n x : string) : ExecRequest :=
  {| er_invocation_id := "inv"; er_request_id := "req"; er_target_agent := "agent-b"; er_requesting_agent := "@a:s";
     er_command := ["ls"]; er_cwd := "/work"; er_env := ∅; er_stdin := false; er_stream := true; er_pty := false;
     er_timeout_ms := 1000; er_task_id := None; er_created_at := "2026-01-01T00:00:00Z"; er_expires_at := x;
     er_nonce := n; er_idempotency_key := "exec:inv";
     er_signature := {| sig_alg := "none"; sig_key_id := ""; sig_sig := "" |}; er_extra := ∅ |}.
Definition decode (c : EventCategory) : Value → option (payload c) :=
  match c with
  | CExecRequest => λ v,
      match v with
      | Object [(_, Str n); (_, Str x)] => Some (request n x)
      | _ => None
      end
  | _ => λ _, None
  end.
Definition event (n x : string) : IncomingEvent :=
  {| ie_event_type := "com.mxagent.exec.request.v1"; ie_room_id := "!r"; ie_sender := "@mallory:s"; ie_event_id := None;
     ie_state_key := None; ie_encrypted := false; ie_content := Object [("nonce", Str n); ("expires_at", Str x)] |}.
Definition guard (m : gmap string Z) : Guard := {| g_fs := mkFs Absent None; g_cache := mkCache 2 m; g_io := [] |}.
End Sample.

Section router_witnesses.
#[local] Instance sample_guard : NonceGuard Guard := cache_guard sample_iter (λ _, "").
#[local] Instance sample_laws : NonceGuardLaws Guard := cache_guard_laws sample_iter (λ m, reflexivity _) (λ _, "").

(** A fresh request is handed on and recorded, once in a run where the write fails and once
    where it succeeds. *)
Lemma route_gates_witness :
  let e := Sample.event "n1" "2026-06-02T12:05:00Z" in
  let bad := {| g_fs := mkFs Absent None; g_cache := mkCache 4 ∅; g_io := [Some "full"] |} in
  ((route Sample.decode 1000 e (Sample.guard ∅)).1.1 = Dispatched CExecRequest ∧
   recorded (route Sample.decode 1000 e (Sample.guard ∅)).2 "n1" "2026-06-02T12:05:00Z") ∧
  ((route Sample.decode 1000 e bad).1.1 = ReplayRejected CExecRequest ∧
   recorded (route Sample.decode 1000 e bad).2 "n1" "2026-06-02T12:05:00Z").
Proof.
  intros e bad. split.
  - pose proof (route_gates Sample.decode 1000 e (Sample.guard ∅)) as Hg.
    destruct (route Sample.decode 1000 e (Sample.guard ∅)) as [[o d] g] eqn:E.
    assert (o = Dispatched CExecRequest) as -> by (change o with (o, d, g).1.1; rewrite <- E; vm_compute; reflexivity).
    split; [reflexivity|]. destruct Hg as (_ & _ & m & r & Hd & _ & Hp & _ & _ & Hr).
    assert (replay_of r = Some ("n1", "2026-06-02T12:05:00Z")) as Hn
      by (apply (f_equal (λ x, x ≫= replay_of)) in Hp; simpl in Hp; rewrite <- Hp; reflexivity).
    rewrite Hn in Hr. apply Hr.
  - pose proof (route_gates Sample.decode 1000 e bad) as Hg.
    destruct (route Sample.decode 1000 e bad) as [[o d] g] eqn:E.
    assert (o = ReplayRejected CExecRequest) as -> by (change o with (o, d, g).1.1; rewrite <- E; vm_compute; reflexivity).
    split; [reflexivity|]. destruct Hg as (_ & _ & _ & r & n & x & err & Hp & Hr & Hb & Hgr).
    assert (Some (n, x) = Some ("n1", "2026-06-02T12:05:00Z")) as [= -> ->]
      by (rewrite <- Hr; apply (f_equal (λ y, y ≫= replay_of)) in Hp; simpl in Hp; rewrite <- Hp; reflexivity).
    assert (err = ReplayIo "full") as ->
      by (apply (f_equal (λ y, y.1)) in Hb; vm_compute in Hb; injection Hb as <-; reflexivity).
    apply Hgr.
Defined.
Lemma requests_dispatched_once_witness :
  ∃ ds g, route_all Sample.decode
      [(1000%Z, Sample.event "n1" "2026-06-02T12:05:00Z"); (2000%Z, Sample.event "n1" "2026-06-02T12:05:00Z")]
      (Sample.guard ∅) = (ds, g) ∧ tokens ds = [("n1", "2026-06-02T12:05:00Z")] ∧ NoDup (tokens ds).
Proof.
  destruct (route_all Sample.decode
      [(1000%Z, Sample.event "n1" "2026-06-02T12:05:00Z"); (2000%Z, Sample.event "n1" "2026-06-02T12:05:00Z")]
      (Sample.guard ∅)) as [ds g] eqn:E.
  exists ds, g. split; [done|]. split.
  - apply (f_equal (λ x, tokens x.1)) in E. simpl in E. rewrite <- E. vm_compute. reflexivity.
  - assert (room_for (Sample.guard ∅) 2) as Hk by (split; simpl; [lia|]; rewrite map_size_empty; lia).
    refine (proj1 (requests_dispatched_once Sample.decode
      [(1000%Z, Sample.event "n1" "2026-06-02T12:05:00Z"); (2000%Z, Sample.event "n1" "2026-06-02T12:05:00Z")]
      0%Z (Sample.guard ∅) g ds _ Hk E)). simpl. lia.
Defined.

Lemma flood_reopens_replay_witness :
  ∃ g', (route Sample.decode 1000%Z (Sample.event "n1" "2026-06-02T12:05:00Z") (Sample.guard {["n1" := 1780401900%Z]})).1.1
          = ReplayRejected CExecRequest ∧
        (route Sample.decode 1000%Z (Sample.event "n1" "2026-06-02T12:05:00Z") g').1.1 = Dispatched CExecRequest.
Proof.
  assert (∀ n, exec_event Sample.decode (Sample.event n "2026-06-02T12:05:00Z") n 1780401900%Z) as Hv.
  { intros n. split; [done|]. split; [done|]. exists (Sample.request n "2026-06-02T12:05:00Z"). by vm_compute. }
  assert (∀ n, exec_event Sample.decode (Sample.event n "2026-06-02T12:06:00Z") n 1780401960%Z) as Hf.
  { intros n. split; [done|]. split; [done|]. exists (Sample.request n "2026-06-02T12:06:00Z"). by vm_compute. }
  set (flood := [(Sample.event "f1" "2026-06-02T12:06:00Z", "f1", 1780401960%Z); (Sample.event "f2" "2026-06-02T12:06:00Z", "f2", 1780401960%Z)]).
  assert (flood_ok Sample.decode 1000%Z "n1" 1780401900%Z flood) as Hok.
  { split; [|apply nodupb_NoDup; reflexivity]. repeat constructor; try apply Hf; simpl; try lia; done. }
  assert (cache_wf (g_cache (Sample.guard {["n1" := 1780401900%Z]}))) as Hwf.
  { split; simpl; [lia|]. rewrite map_size_singleton. lia. }
  assert (Forall (λ f : IncomingEvent * string * Z, nonces (g_cache (Sample.guard {["n1" := 1780401900%Z]})) !! f.1.2 = None) flood) as Hnone
    by (repeat constructor; vm_compute; reflexivity).
  destruct (route_all Sample.decode (flood_events 1000%Z flood) (Sample.guard {["n1" := 1780401900%Z]})) as [ds g'] eqn:E.
  exists g'.
  exact (flood_reopens_replay sample_iter (λ m, reflexivity _) (λ _, "") Sample.decode 1000%Z "n1" 1780401900%Z
    (Sample.event "n1" "2026-06-02T12:05:00Z") flood (Sample.guard {["n1" := 1780401900%Z]}) ds g'
    (Hv "n1") Hok eq_refl eq_refl Hwf eq_refl Hnone eq_refl E).
Defined.
End router_witnesses.
