(* ===== verification/Frame.v ===== *)
(** * IPC framing

    Models [crates/mx-agent-ipc/src/frame.rs]: length-prefixed frames over a byte
    stream.  A byte is a [Z] below 256.  A reader delivers its bytes in pieces whose
    sizes, and whose errors, are listed in advance, so that short reads and
    interrupted reads are covered; a writer may fail after any number of bytes.
    Error messages are left out. *)
From Stdlib Require Import ZArith.
From stdpp Require Import list.
From S2P Require Import Prelude.

Inductive ErrorKind := InvalidData | UnexpectedEof | Interrupted | OtherIo.

Definition MAX_FRAME_LEN : Z := 16 * 1024 * 1024.

(** ** Streams *)

(** What the next calls of [read] do: deliver at most [n + 1] bytes, or fail.  Calls
    beyond the list deliver all they can.  A read delivers nothing only at the end of
    the stream. *)
Inductive ReadEvent := Chunk (n : nat) | ReadFails (kind : ErrorKind).
Record Reader := { rd_data : list Z; rd_events : list ReadEvent }.
Definition read (len : nat) (r : Reader) : result (list Z) ErrorKind * Reader :=
  match r.(rd_events) with
  | ReadFails kind :: es => (Err kind, {| rd_data := r.(rd_data); rd_events := es |})
  | Chunk n :: es =>
      let m := Nat.min len (S n) in
      (Ok (take m r.(rd_data)), {| rd_data := drop m r.(rd_data); rd_events := es |})
  | [] => (Ok (take len r.(rd_data)), {| rd_data := drop len r.(rd_data); rd_events := [] |})
  end.

(** A writer's output, and the failure to come: after that many more bytes. *)
Record Writer := { wr_out : list Z; wr_fail : option (nat * ErrorKind) }.
Definition write_all (bytes : list Z) (w : Writer) : result unit ErrorKind * Writer :=
  match w.(wr_fail) with
  | Some (n, kind) =>
      if (n <? length bytes)%nat then
        (Err kind, {| wr_out := w.(wr_out) ++ take n bytes; wr_fail := Some (0, kind) |})
      else (Ok tt, {| wr_out := w.(wr_out) ++ bytes; wr_fail := Some (n - length bytes, kind) |})
  | None => (Ok tt, {| wr_out := w.(wr_out) ++ bytes; wr_fail := None |})
  end.

(** ** Frames *)

(** [u32::to_be_bytes] and [u32::from_be_bytes]. *)
Definition to_be_bytes (n : Z) : list Z :=
  [Z.shiftr n 24 mod 256; Z.shiftr n 16 mod 256; Z.shiftr n 8 mod 256; n mod 256]%Z.
Definition from_be_bytes (b : list Z) : Z := fold_left (λ acc x, acc * 256 + x)%Z b 0%Z.

Definition write_frame (payload : list Z) (w : Writer) : result unit ErrorKind * Writer :=
  if (MAX_FRAME_LEN <? Z.of_nat (length payload))%Z then (Err InvalidData, w)
  else if (2 ^ 32 <=? Z.of_nat (length payload))%Z then (Err InvalidData, w)
  else
    match write_all (to_be_bytes (Z.of_nat (length payload))) w with
    | (Ok _, w) => write_all payload w
    | (Err kind, w) => (Err kind, w)
    end.

(** [fill]; [fuel] bounds the calls of [read], and [None] is running out of it. *)
Fixpoint fill (fuel want : nat) (acc : list Z) (r : Reader) : option (result (list Z) ErrorKind * Reader) :=
  match want with
  | O => Some (Ok acc, r)
  | S _ =>
      match fuel with
      | O => None
      | S fuel =>
          match read want r with
          | (Err kind, r) => Some (Err kind, r)
          | (Ok [], r) => Some (Ok acc, r)
          | (Ok bytes, r) => fill fuel (want - length bytes) (acc ++ bytes) r
          end
      end
  end.
(** [Read::read_exact]: an interrupted read is retried, the end of the stream is an error. *)
Fixpoint read_exact (fuel want : nat) (acc : list Z) (r : Reader) : option (result (list Z) ErrorKind * Reader) :=
  match want with
  | O => Some (Ok acc, r)
  | S _ =>
      match fuel with
      | O => None
      | S fuel =>
          match read want r with
          | (Err Interrupted, r) => read_exact fuel want acc r
          | (Err kind, r) => Some (Err kind, r)
          | (Ok [], r) => Some (Err UnexpectedEof, r)
          | (Ok bytes, r) => read_exact fuel (want - length bytes) (acc ++ bytes) r
          end
      end
  end.

(** Each read delivers a byte, ends the loop, or uses up a listed event. *)
Definition read_frame (r : Reader) : option (result (option (list Z)) ErrorKind * Reader) :=
  res ← fill 4 4 [] r;
  match res with
  | (Err kind, r) => Some (Err kind, r)
  | (Ok len_buf, r) =>
      match length len_buf with
      | 0 => Some (Ok None, r)
      | 4 =>
          if (MAX_FRAME_LEN <? from_be_bytes len_buf)%Z then Some (Err InvalidData, r)
          else
            let len := Z.to_nat (from_be_bytes len_buf) in
            res ← read_exact (len + length r.(rd_events)) len [] r;
            match res with
            | (Ok payload, r) => Some (Ok (Some payload), r)
            | (Err kind, r) => Some (Err kind, r)
            end
      | _ => Some (Err UnexpectedEof, r)
      end
  end.

(** A client writing several frames, and one reading until the stream ends or fails. *)
Fixpoint write_frames (payloads : list (list Z)) (w : Writer) : result unit ErrorKind * Writer :=
  match payloads with
  | [] => (Ok tt, w)
  | p :: payloads =>
      match write_frame p w with
      | (Ok _, w) => write_frames payloads w
      | (Err kind, w) => (Err kind, w)
      end
  end.
Fixpoint read_frames (n : nat) (r : Reader) : option (list (list Z) * result unit ErrorKind) :=
  match n with
  | O => None
  | S n =>
      res ← read_frame r;
      match res with
      | (Ok (Some p), r) => res ← read_frames n r; Some (p :: res.1, res.2)
      | (Ok None, _) => Some ([], Ok tt)
      | (Err kind, _) => Some ([], Err kind)
      end
  end.

(** ** Reading is total, and delivers what is there *)

Definition no_errors (r : Reader) : Prop := Forall (λ e, ∃ n, e = Chunk n) r.(rd_events).

(** One read without errors: the next bytes, none only at the end of the stream. *)
Lemma read_ok len r :
  len ≠ 0 → no_errors r →
  ∃ bytes r', read len r = (Ok bytes, r') ∧ r.(rd_data) = bytes ++ r'.(rd_data) ∧ no_errors r' ∧
    length bytes ≤ len ∧ (bytes = [] → r.(rd_data) = []).
Proof.
  intros Hlen Hne. unfold read, no_errors in *.
  assert (∀ m, 0 < m → take m (rd_data r) = [] → rd_data r = []) as Hnil.
  { intros m Hm E. apply (f_equal length) in E. rewrite length_take in E. apply length_zero_iff_nil. simpl in E. lia. }
  destruct (rd_events r) as [|e es] eqn:E.
  - do 2 eexists. split; [done|]. simpl. rewrite take_drop, length_take. split_and!; [done|done|lia|]. apply Hnil. lia.
  - apply Forall_cons in Hne as [[n ->] Hne]. do 2 eexists. split; [done|]. cbn [rd_data rd_events].
    rewrite take_drop, length_take. split_and!; [done|done|lia|]. apply Hnil. lia.
Qed.

Lemma fill_ok fuel : ∀ want acc r,
  want ≤ fuel → no_errors r →
  ∃ r', fill fuel want acc r = Some (Ok (acc ++ take want r.(rd_data)), r') ∧
    r'.(rd_data) = drop want r.(rd_data) ∧ no_errors r'.
Proof.
  induction fuel as [|fuel IH]; intros want acc r Hle Hne; (destruct want as [|want]; simpl;
    [exists r; rewrite take_0, app_nil_r, drop_0; by split_and!|]); [lia|].
  destruct (read_ok (S want) r) as (bytes & r1 & -> & Hd & Hne1 & Hm & Hnil); [done|done|].
  destruct bytes as [|b bs] eqn:E; [rewrite Hnil in * by done|rewrite <- E in *].
  - simpl in Hd. exists r1. rewrite <- Hd, app_nil_r. by split_and!.
  - assert (0 < length bytes) by (rewrite E; simpl; lia).
    destruct (IH (S want - length bytes) (acc ++ bytes) r1) as (r' & Hf & Hd' & Hne'); [lia|done|].
    exists r'. rewrite Hd, take_app_ge, drop_app_ge, app_assoc by done. subst bytes. by split_and!.
Qed.
Lemma read_exact_ok fuel : ∀ want acc r,
  want ≤ fuel → no_errors r →
  ∃ r', read_exact fuel want acc r
          = Some (if decide (want ≤ length r.(rd_data)) then Ok (acc ++ take want r.(rd_data)) else Err UnexpectedEof, r') ∧
    (want ≤ length r.(rd_data) → r'.(rd_data) = drop want r.(rd_data)) ∧ no_errors r'.
Proof.
  induction fuel as [|fuel IH]; intros want acc r Hle Hne; (destruct want as [|want]; cbn [read_exact];
    [exists r; rewrite take_0, app_nil_r, drop_0, decide_True by lia; by split_and!|]); [lia|].
  destruct (read_ok (S want) r) as (bytes & r1 & -> & Hd & Hne1 & Hm & Hnil); [done|done|].
  destruct bytes as [|b bs] eqn:E; [rewrite Hnil in * by done|rewrite <- E in *].
  - exists r1. rewrite decide_False by (simpl; lia). split_and!; [done|simpl; lia|done].
  - assert (0 < length bytes) by (rewrite E; simpl; lia).
    destruct (IH (S want - length bytes) (acc ++ bytes) r1) as (r' & Hf & Hd' & Hne'); [lia|done|].
    exists r'. rewrite Hd, take_app_ge, drop_app_ge, app_assoc, length_app by done.
    destruct (decide (S want - length bytes ≤ length (rd_data r1)));
      [rewrite decide_True by lia|rewrite decide_False by lia]; subst bytes; split_and!; try done; intros; apply Hd'; lia.
Qed.

(** However the reads go, failures included, the calls of [read] that are allowed for are
    enough. *)
Lemma read_progress want r bs r' :
  read want r = (Ok bs, r') → (length bs ≤ want)%nat ∧ (length r'.(rd_events) ≤ length r.(rd_events))%nat.
Proof.
  unfold read. destruct (rd_events r) as [|[n|kind] es]; intros E; simplify_eq; cbn [rd_events length]; rewrite length_take; lia.
Qed.
Lemma fill_total fuel : ∀ want acc r, (want ≤ fuel)%nat → is_Some (fill fuel want acc r).
Proof.
  induction fuel as [|fuel IH]; intros want acc r Hw; (destruct want as [|want]; [by eexists|]); [lia|]. cbn [fill].
  destruct (read (S want) r) as [[[|b bs]|kind] r'] eqn:E; [by eexists| |by eexists]. apply IH. cbn [length]. lia.
Qed.
Lemma read_exact_total fuel : ∀ want acc r, (want + length r.(rd_events) ≤ fuel)%nat → is_Some (read_exact fuel want acc r).
Proof.
  induction fuel as [|fuel IH]; intros want acc r Hw; (destruct want as [|want]; [by eexists|]); [lia|]. cbn [read_exact].
  destruct (read (S want) r) as [[[|b bs]|kind] r'] eqn:E; [by eexists| |].
  - apply read_progress in E as [_ He]. apply IH. cbn [length]. lia.
  - destruct kind; try by eexists. apply IH. unfold read in E. destruct (rd_events r) as [|[n|k] es]; simplify_eq. cbn [rd_events length] in *. lia.
Qed.
Lemma read_frame_total r : is_Some (read_frame r).
Proof.
  unfold read_frame. destruct (fill_total 4 4 [] r) as [[[bs|k] r'] ->]; [lia| |by eexists]. cbn [mbind option_bind].
  destruct (length bs) as [|[|[|[|[|n]]]]]; try by eexists. destruct (_ <? _)%Z; [by eexists|].
  destruct (read_exact_total (Z.to_nat (from_be_bytes bs) + length (rd_events r')) (Z.to_nat (from_be_bytes bs)) [] r') as [[[p|k] r''] ->]; [lia|by eexists..].
Qed.

(** ** The length prefix *)

Lemma be_bytes_roundtrip n : (0 ≤ n < 2 ^ 32)%Z → from_be_bytes (to_be_bytes n) = n.
Proof.
  intros Hn. unfold from_be_bytes, to_be_bytes. simpl. rewrite !Z.shiftr_div_pow2 by lia.
  change (2 ^ 24)%Z with 16777216%Z. change (2 ^ 16)%Z with 65536%Z. change (2 ^ 8)%Z with 256%Z.
  change (2 ^ 32)%Z with 4294967296%Z in Hn.
  pose proof (Z.div_mod n 256 ltac:(lia)). pose proof (Z.div_mod (n / 256) 256 ltac:(lia)) as H1.
  pose proof (Z.div_mod (n / 65536) 256 ltac:(lia)) as H2.
  rewrite Z.div_div in H1, H2 by lia. change (256 * 256)%Z with 65536%Z in H1. change (65536 * 256)%Z with 16777216%Z in H2.
  assert (n / 16777216 < 256)%Z by (apply Z.div_lt_upper_bound; lia).
  assert (0 ≤ n / 16777216)%Z by (apply Z.div_pos; lia).
  rewrite (Z.mod_small (n / 16777216)) by lia. lia.
Qed.

(** The bytes of a frame. *)
Definition frame (payload : list Z) : list Z := to_be_bytes (Z.of_nat (length payload)) ++ payload.
Definition fits (payload : list Z) : Prop := (Z.of_nat (length payload) ≤ MAX_FRAME_LEN)%Z.

Lemma frame_length p : fits p → (0 ≤ Z.of_nat (length p) < 2 ^ 32)%Z.
Proof. unfold fits, MAX_FRAME_LEN. lia. Qed.
Lemma write_frame_ok p out :
  fits p → write_frame p {| wr_out := out; wr_fail := None |} = (Ok tt, {| wr_out := out ++ frame p; wr_fail := None |}).
Proof.
  intros Hp. unfold write_frame. rewrite (proj2 (Z.ltb_ge _ _)) by exact Hp.
  rewrite (proj2 (Z.leb_gt _ _)) by by apply frame_length. unfold write_all, frame. cbn [wr_fail wr_out].
  by rewrite app_assoc.
Qed.
Lemma write_frames_ok ps : ∀ out,
  Forall fits ps →
  write_frames ps {| wr_out := out; wr_fail := None |} = (Ok tt, {| wr_out := out ++ concat (map frame ps); wr_fail := None |}).
Proof.
  induction ps as [|p ps IH]; intros out Hps; cbn [write_frames map concat]; [by rewrite app_nil_r|].
  apply Forall_cons in Hps as [Hp Hps]. rewrite write_frame_ok by done. by rewrite IH, <- app_assoc by done.
Qed.

(** The stream starts with a whole frame, or with less than one. *)
Lemma read_frame_whole p rest r :
  fits p → no_errors r → r.(rd_data) = frame p ++ rest →
  ∃ r', read_frame r = Some (Ok (Some p), r') ∧ r'.(rd_data) = rest ∧ no_errors r'.
Proof.
  intros Hp Hne Hd. unfold read_frame. destruct (fill_ok 4 4 [] r) as (r1 & -> & Hd1 & Hne1); [lia|done|].
  rewrite Hd in *. unfold frame in *. rewrite <- app_assoc in *. rewrite take_app_length' in * by done.
  rewrite drop_app_length' in Hd1 by done. cbn [mbind option_bind app].
  change (length (to_be_bytes _)) with 4. cbn [mbind option_bind]. rewrite be_bytes_roundtrip by by apply frame_length.
  rewrite (proj2 (Z.ltb_ge _ _)) by exact Hp. rewrite Nat2Z.id.
  destruct (read_exact_ok (length p + length (rd_events r1)) (length p) [] r1) as (r2 & Hr & Hd2 & Hne2); [lia|done|].
  rewrite Hr. rewrite Hd1, length_app in *. rewrite decide_True by lia. rewrite take_app_length' by done.
  exists r2. split; [done|]. split; [|done]. rewrite Hd2 by lia. by rewrite drop_app_length'.
Qed.
Lemma read_frame_partial p t r :
  fits p → no_errors r → r.(rd_data) = t → t `prefix_of` frame p → t ≠ frame p →
  ∃ r', read_frame r = Some (match t with [] => Ok None | _ => Err UnexpectedEof end, r').
Proof.
  intros Hp Hne Hd [k Hk] Hneq. unfold read_frame. destruct (fill_ok 4 4 [] r) as (r1 & -> & Hd1 & Hne1); [lia|done|].
  rewrite Hd in *. cbn [mbind option_bind app]. rewrite length_take.
  destruct (decide (length t < 4)) as [Hlt|Hge].
  { rewrite Nat.min_r by lia. destruct t as [|a [|b [|c [|d t]]]]; simpl in *; try lia; by eexists. }
  rewrite Nat.min_l by lia.
  assert (∃ body, t = to_be_bytes (Z.of_nat (length p)) ++ body ∧ length body < length p) as (body & -> & Hb).
  { unfold frame in Hk. exists (drop 4 t).
    assert (take 4 t = to_be_bytes (Z.of_nat (length p))) as Ht.
    { apply (f_equal (take 4)) in Hk. rewrite (take_app_le t) in Hk by lia. by rewrite take_app_length' in Hk by done. }
    rewrite <- Ht at 1. rewrite take_drop. split; [done|]. rewrite length_drop.
    assert (k ≠ []) by (intros ->; rewrite app_nil_r in Hk; by destruct Hneq).
    apply (f_equal length) in Hk. rewrite !length_app in Hk. simpl in Hk. destruct k; [done|]. simpl in Hk. lia. }
  rewrite take_app_length' by done. rewrite drop_app_length' in Hd1 by done.
  rewrite be_bytes_roundtrip by by apply frame_length. rewrite (proj2 (Z.ltb_ge _ _)) by exact Hp. rewrite Nat2Z.id.
  destruct (read_exact_ok (length p + length (rd_events r1)) (length p) [] r1) as (r2 & Hr & _ & _); [lia|done|].
  rewrite Hr, Hd1, decide_False by lia. simpl. by eexists.
Qed.

(** C40: framing is lossless and never invents a message.  Whatever sizes the reads come
    in, a stream of written frames reads back as exactly the written payloads; if it is
    cut at a frame boundary the reader then sees a clean end, and if it is cut inside a
    frame, an unexpected-end error, never a shortened or merged payload. *)
Theorem frames_roundtrip ps p t r :
  Forall fits ps → fits p → t `prefix_of` frame p → t ≠ frame p → no_errors r →
  ∃ w, write_frames ps {| wr_out := []; wr_fail := None |} = (Ok tt, w) ∧
    (r.(rd_data) = w.(wr_out) ++ t →
     read_frames (S (length ps)) r = Some (ps, match t with [] => Ok tt | _ => Err UnexpectedEof end)).
Proof.
  intros Hps Hp Ht Hneq Hne. eexists. split; [by apply write_frames_ok|]. cbn [wr_out app].
  revert r Hne. induction ps as [|q ps IH]; intros r Hne Hd; cbn [map concat app] in Hd.
  - destruct (read_frame_partial p t r Hp Hne Hd Ht Hneq) as (r' & Hr). cbn [read_frames length]. rewrite Hr.
    by destruct t.
  - apply Forall_cons in Hps as [Hq Hps]. rewrite <- app_assoc in Hd.
    destruct (read_frame_whole q _ r Hq Hne Hd) as (r' & Hr & Hd' & Hne').
    cbn [length]. cbn [read_frames]. rewrite Hr. cbn [mbind option_bind]. 
    specialize (IH Hps r' Hne' Hd'). cbn [read_frames] in IH. rewrite IH. done.
Qed.

(** ** Witness *)
Lemma frames_roundtrip_witness :
  read_frames 2 {| rd_data := frame [1; 2; 3]%Z ++ [0; 0]%Z; rd_events := [Chunk 0; Chunk 1; Chunk 0] |}
  = Some ([[1; 2; 3]%Z], Err UnexpectedEof).
Proof.
  assert (Forall fits [[1; 2; 3]%Z]) as Hps by (repeat constructor; unfold fits; simpl; vm_compute; discriminate).
  assert (fits [7]%Z) as Hp by (unfold fits; vm_compute; discriminate).
  assert ([0; 0]%Z `prefix_of` frame [7]%Z) as Ht by (exists [0; 1; 7]%Z; reflexivity).
  destruct (frames_roundtrip [[1; 2; 3]%Z] [7]%Z [0; 0]%Z
    {| rd_data := frame [1; 2; 3]%Z ++ [0; 0]%Z; rd_events := [Chunk 0; Chunk 1; Chunk 0] |} Hps Hp Ht
    ltac:(discriminate) ltac:(repeat constructor; by eexists)) as (w & Hw & Hr).
  apply Hr. vm_compute in Hw. injection Hw as <-. reflexivity.
Defined.
