(* ===== verification/Trust.v ===== *)
(** * Trust store

    Models [crates/mx-agent-daemon/src/trust.rs] (the local store of approved
    signing keys) and [trust_state.rs] (room-published trust and how it combines
    with the local store).  The clock is an argument; the JSON codec of the store
    file is a parameter of [load] and [save]. *)
From stdpp Require Import gmap strings list.
From S2P Require Import Prelude RustStr CanonicalJson Schema Signing Room Time.

Inductive TrustStatus := Trusted | Revoked.
#[export] Instance TrustStatus_eq_dec : EqDecision TrustStatus.
Proof. solve_decision. Defined.
Definition status_to_string (s : TrustStatus) : string :=
  match s with Trusted => "trusted" | Revoked => "revoked" end.

Record TrustEntry := {
  te_agent_id : string;
  te_key_id : string;
  te_fingerprint : string;
  te_status : TrustStatus;
  te_room : option string;
  te_trusted_by : option string;
  te_created_at : Z;
  te_revoked_at : option Z;
}.
(** [TrustEntry::is_trusted]. *)
Definition entry_is_trusted (e : TrustEntry) : bool := bool_decide (e.(te_status) = Trusted).

(** [TrustStore]: its [entries]. *)
Abbreviation TrustStore := (list TrustEntry).

Definition fingerprint_from_key_id (key_id : string) : option string :=
  rest ← strip_prefix KEY_ID_PREFIX key_id;
  suffix ← strip_prefix ":" rest;
  if suffix =s "" then None else Some ("SHA256:" +:+ suffix).

Definition is_pair (agent_id key_id : string) (e : TrustEntry) : bool :=
  (e.(te_agent_id) =s agent_id) && (e.(te_key_id) =s key_id).
(** [TrustStore::position], [TrustStore::entry]. *)
Definition trust_position (s : TrustStore) (agent_id key_id : string) : option nat :=
  position (is_pair agent_id key_id) s.
Definition trust_entry (s : TrustStore) (agent_id key_id : string) : option TrustEntry :=
  idx ← trust_position s agent_id key_id; s !! idx.

Definition approve (s : TrustStore) (now : Z) (agent_id key_id : string)
    (fingerprint room trusted_by : option string) : TrustStore * TrustEntry :=
  let fingerprint := unwrap_or (opt_or fingerprint (fingerprint_from_key_id key_id)) "" in
  let fresh := {| te_agent_id := agent_id; te_key_id := key_id; te_fingerprint := fingerprint;
                  te_status := Trusted; te_room := room; te_trusted_by := trusted_by;
                  te_created_at := now; te_revoked_at := None |} in
  match trust_position s agent_id key_id with
  | Some idx =>
      match s !! idx with
      | Some e =>
          let e' := {| te_agent_id := e.(te_agent_id); te_key_id := e.(te_key_id);
                       te_fingerprint := fingerprint; te_status := Trusted;
                       te_room := opt_or room e.(te_room);
                       te_trusted_by := opt_or trusted_by e.(te_trusted_by);
                       te_created_at := e.(te_created_at); te_revoked_at := None |} in
          (<[idx := e']> s, e')
      | None => (s, fresh)
      end
  | None => (s ++ [fresh], fresh)
  end.

Definition revoke (s : TrustStore) (now : Z) (agent_id key_id : string) : TrustStore * option TrustEntry :=
  match trust_position s agent_id key_id with
  | Some idx =>
      match s !! idx with
      | Some e =>
          let e' := {| te_agent_id := e.(te_agent_id); te_key_id := e.(te_key_id);
                       te_fingerprint := e.(te_fingerprint); te_status := Revoked;
                       te_room := e.(te_room); te_trusted_by := e.(te_trusted_by);
                       te_created_at := e.(te_created_at); te_revoked_at := Some now |} in
          (<[idx := e']> s, Some e')
      | None => (s, None)
      end
  | None => (s, None)
  end.

Definition is_trusted (s : TrustStore) (agent_id key_id : string) : bool :=
  match trust_entry s agent_id key_id with Some e => entry_is_trusted e | None => false end.
Definition is_key_trusted (s : TrustStore) (key_id : string) : bool :=
  existsb (λ e, (e.(te_key_id) =s key_id) && entry_is_trusted e) s.

(** ** Room-published trust ([trust_state.rs]) *)

Definition trust_state_key (agent_id key_id : string) : string := agent_id +:+ "|" +:+ key_id.

Definition trust_state_from_entry (e : TrustEntry) (published_by : string) : TrustState :=
  {| trs_agent_id := e.(te_agent_id); trs_key_id := e.(te_key_id); trs_fingerprint := e.(te_fingerprint);
     trs_status := status_to_string e.(te_status);
     trs_trusted_by := match e.(te_trusted_by) with
                       | Some s => if s =s "" then published_by else s
                       | None => published_by
                       end;
     trs_created_at := unix_to_rfc3339 e.(te_created_at); trs_expires_at := None;
     trs_revoked_at := unix_to_rfc3339 <$> e.(te_revoked_at); trs_extra := ∅ |}.

Inductive TrustSource := SourceLocal | SourceRoom | SourceNone.
Record EffectiveTrust := {
  et_agent_id : string;
  et_key_id : string;
  et_trusted : bool;
  et_source : TrustSource;
}.

Definition room_state_grants_trust (state : TrustState) : bool :=
  (state.(trs_status) =s "trusted") && negb (is_some state.(trs_revoked_at)).

Definition effective_trust (local : TrustStore) (room_states : list TrustState) (agent_id key_id : string) :
    EffectiveTrust :=
  match trust_entry local agent_id key_id with
  | Some e => {| et_agent_id := agent_id; et_key_id := key_id; et_trusted := entry_is_trusted e;
                 et_source := SourceLocal |}
  | None =>
      let room_trusted :=
        existsb room_state_grants_trust
          (List.filter (λ s, (s.(trs_agent_id) =s agent_id) && (s.(trs_key_id) =s key_id)) room_states) in
      {| et_agent_id := agent_id; et_key_id := key_id; et_trusted := room_trusted;
         et_source := if room_trusted then SourceRoom else SourceNone |}
  end.

(** [effective_trust_table]: the distinct pairs, sorted. *)
Definition pair_le (a b : string * string) : Prop :=
  if decide (a.1 = b.1) then String.le a.2 b.2 else String.le a.1 b.1.
#[export] Instance pair_le_dec : RelDecision pair_le.
Proof. intros a b. unfold pair_le. destruct (decide (a.1 = b.1)); apply _. Defined.
Definition push_pair (pairs : list (string * string)) (p : string * string) : list (string * string) :=
  if existsb (λ q, bool_decide (q = p)) pairs then pairs else pairs ++ [p].
Definition effective_trust_table (local : TrustStore) (room_states : list TrustState) : list EffectiveTrust :=
  let pairs := foldl push_pair [] (map (λ e, (e.(te_agent_id), e.(te_key_id))) local) in
  let pairs := foldl push_pair pairs (map (λ s, (s.(trs_agent_id), s.(trs_key_id))) room_states) in
  map (λ p, effective_trust local room_states p.1 p.2) (sort_by pair_le pairs).

(** ** The store as a map from pairs to statuses *)

Definition pair_of (e : TrustEntry) : string * string := (e.(te_agent_id), e.(te_key_id)).
Definition trust_wf (s : TrustStore) : Prop := NoDup (map pair_of s).
Definition view (s : TrustStore) : gmap (string * string) TrustStatus :=
  list_to_map (map (λ e, (pair_of e, e.(te_status))) s).

Lemma view_keys s : (map (λ e, (pair_of e, e.(te_status))) s).*1 = map pair_of s.
Proof. rewrite <- list_fmap_compose. done. Qed.
Lemma is_pair_true a k e : is_pair a k e = true ↔ pair_of e = (a, k).
Proof. unfold is_pair, pair_of. rewrite andb_true_iff, !str_eqb_eq. split; [intros [-> ->]|intros [= -> ->]]; done. Qed.

Lemma trust_position_Some s a k idx :
  trust_position s a k = Some idx → ∃ e, s !! idx = Some e ∧ pair_of e = (a, k).
Proof.
  unfold trust_position, position. destruct (find_idx _ s) as [[i e]|] eqn:E; [|done].
  intros [= ->]. apply find_idx_Some in E as (Hi & He & _). exists e. by rewrite <- is_pair_true.
Qed.
Lemma trust_position_None s a k : trust_position s a k = None → (a, k) ∉ map pair_of s.
Proof.
  unfold trust_position, position. destruct (find_idx _ s) eqn:E; [done|]. intros _.
  apply find_idx_None in E. intros (e & He & Hin)%list_elem_of_fmap.
  rewrite Forall_forall in E. apply E in Hin. symmetry in He. apply is_pair_true in He. congruence.
Qed.

Lemma view_lookup s e : trust_wf s → e ∈ s → view s !! pair_of e = Some e.(te_status).
Proof.
  intros Hwf He. apply elem_of_list_to_map_1; [by rewrite view_keys|].
  apply list_elem_of_fmap. by exists e.
Qed.
Lemma view_lookup_None s p : p ∉ map pair_of s → view s !! p = None.
Proof. intros Hp. apply not_elem_of_list_to_map_1. by rewrite view_keys. Qed.

Lemma view_insert s idx e e' :
  trust_wf s → s !! idx = Some e → pair_of e' = pair_of e →
  trust_wf (<[idx := e']> s) ∧ view (<[idx := e']> s) = <[pair_of e := e'.(te_status)]> (view s).
Proof.
  intros Hwf Hi Hp.
  assert (trust_wf (<[idx := e']> s)) as Hwf'.
  { unfold trust_wf. assert (pair_of <$> <[idx := e']> s = pair_of <$> s) as E;
      [|change (NoDup (pair_of <$> <[idx := e']> s)); by rewrite E].
    rewrite list_fmap_insert, Hp. apply list_insert_id. by rewrite list_lookup_fmap, Hi. }
  split; [done|]. assert (idx < length s) as Hlt by by eapply lookup_lt_Some.
  apply map_eq. intros p. destruct (decide (p = pair_of e)) as [->|Hne].
  - rewrite lookup_insert_eq, <- Hp. apply view_lookup; [done|].
    apply list_elem_of_lookup. exists idx. by apply list_lookup_insert_eq.
  - rewrite lookup_insert_ne by done. destruct (view s !! p) as [st|] eqn:E.
    + apply elem_of_list_to_map_2 in E. apply list_elem_of_fmap in E as (e0 & [= -> ->] & Hin).
      apply view_lookup; [done|]. apply list_elem_of_lookup in Hin as [j Hj].
      apply list_elem_of_lookup. exists j. rewrite list_lookup_insert_ne; [done|]. intros ->. by simplify_eq.
    + apply view_lookup_None. intros (e0 & -> & Hin)%list_elem_of_fmap.
      apply list_elem_of_lookup in Hin as [j Hj]. destruct (decide (idx = j)) as [<-|Hij].
      * rewrite list_lookup_insert_eq in Hj by done. simplify_eq.
      * rewrite list_lookup_insert_ne in Hj by done. apply list_elem_of_lookup_2 in Hj.
        by rewrite (view_lookup s e0) in E.
Qed.
Lemma view_app s e :
  trust_wf s → pair_of e ∉ map pair_of s →
  trust_wf (s ++ [e]) ∧ view (s ++ [e]) = <[pair_of e := e.(te_status)]> (view s).
Proof.
  intros Hwf Hp. assert (trust_wf (s ++ [e])) as Hwf'.
  { unfold trust_wf. rewrite map_app. apply NoDup_app. split_and!; [done| |apply NoDup_singleton].
    intros x Hx ->%list_elem_of_singleton. done. }
  split; [done|]. unfold view. rewrite map_app, list_to_map_app. simpl.
  apply map_eq. intros p. destruct (decide (p = pair_of e)) as [->|Hne].
  - rewrite lookup_insert_eq, lookup_union_r; [apply lookup_insert_eq|]. by apply view_lookup_None.
  - rewrite lookup_insert_ne by done. rewrite lookup_union_l; [done|]. by rewrite lookup_insert_ne.
Qed.

Lemma approve_view s now a k fp room tb s' e :
  trust_wf s → approve s now a k fp room tb = (s', e) →
  trust_wf s' ∧ view s' = <[(a, k) := Trusted]> (view s) ∧ e ∈ s' ∧ pair_of e = (a, k).
Proof.
  intros Hwf. unfold approve. destruct (trust_position s a k) as [idx|] eqn:E.
  - apply trust_position_Some in E as (e0 & He0 & Hp). rewrite He0. intros [= <- <-].
    match goal with |- trust_wf (<[idx := ?x]> s) ∧ _ => set (e1 := x) end.
    destruct (view_insert s idx e0 e1 Hwf He0 eq_refl) as [Hwf' ->]. rewrite Hp. split_and!; [done|done| |done].
    apply list_elem_of_lookup. exists idx. apply list_lookup_insert_eq. by eapply lookup_lt_Some.
  - apply trust_position_None in E. intros [= <- <-].
    match goal with |- trust_wf (s ++ [?x]) ∧ _ => set (e1 := x) end.
    destruct (view_app s e1 Hwf E) as [Hwf' ->]. split_and!; try done. apply elem_of_app. right. by left.
Qed.
Lemma revoke_view s now a k s' o :
  trust_wf s → revoke s now a k = (s', o) →
  trust_wf s' ∧ match view s !! (a, k) with
    | Some _ => view s' = <[(a, k) := Revoked]> (view s) ∧ o ≠ None
    | None => s' = s ∧ o = None
    end.
Proof.
  intros Hwf. unfold revoke. destruct (trust_position s a k) as [idx|] eqn:E.
  - apply trust_position_Some in E as (e0 & He0 & Hp). rewrite He0. intros [= <- <-].
    match goal with |- trust_wf (<[idx := ?x]> s) ∧ _ => set (e1 := x) end.
    destruct (view_insert s idx e0 e1 Hwf He0 eq_refl) as [Hwf' ->]. split; [done|].
    rewrite <- Hp, (view_lookup s e0); [done..|]. by apply list_elem_of_lookup_2 in He0.
  - apply trust_position_None in E. intros [= <- <-]. split; [done|]. by rewrite view_lookup_None.
Qed.

Lemma is_trusted_view s a k : trust_wf s → is_trusted s a k = true ↔ view s !! (a, k) = Some Trusted.
Proof.
  intros Hwf. unfold is_trusted, trust_entry. destruct (trust_position s a k) as [idx|] eqn:E; simpl.
  - apply trust_position_Some in E as (e & He & Hp). rewrite He, <- Hp, (view_lookup s e);
      [|done|by apply list_elem_of_lookup_2 in He].
    unfold entry_is_trusted. rewrite bool_decide_eq_true. naive_solver congruence.
  - apply trust_position_None in E. by rewrite view_lookup_None.
Qed.
Lemma is_key_trusted_view s k :
  trust_wf s → is_key_trusted s k = true ↔ ∃ a, view s !! (a, k) = Some Trusted.
Proof.
  intros Hwf. unfold is_key_trusted. rewrite existsb_elem. split.
  - intros (e & He & Hk). bool_prop. apply str_eqb_eq in H as <-. unfold entry_is_trusted in *. bool_prop.
    exists e.(te_agent_id). change (te_agent_id e, te_key_id e) with (pair_of e). rewrite view_lookup by done. congruence.
  - intros [a Ha]. unfold view in Ha. apply elem_of_list_to_map_2 in Ha.
    apply list_elem_of_fmap in Ha as (e & [= -> -> Hst] & Hin). exists e. split; [done|].
    unfold entry_is_trusted. rewrite str_eqb_refl. simpl. by apply bool_decide_eq_true.
Qed.

(** ** Histories *)

Inductive TrustOp :=
| OpApprove (now : Z) (agent_id key_id : string) (fingerprint room trusted_by : option string)
| OpRevoke (now : Z) (agent_id key_id : string).
Definition run_op (s : TrustStore) (op : TrustOp) : TrustStore :=
  match op with
  | OpApprove now a k fp room tb => (approve s now a k fp room tb).1
  | OpRevoke now a k => (revoke s now a k).1
  end.
Definition op_pair (op : TrustOp) : string * string :=
  match op with OpApprove _ a k _ _ _ | OpRevoke _ a k => (a, k) end.
Definition is_approval (op : TrustOp) : Prop := match op with OpApprove _ _ _ _ _ _ => True | _ => False end.
(** The decision in force: the last operation on the pair. *)
Definition in_force (ops : list TrustOp) (p : string * string) : option TrustOp :=
  last (filter (λ op, op_pair op = p) ops).

Lemma run_ops_view ops :
  trust_wf (foldl run_op [] ops) ∧
  ∀ p, view (foldl run_op [] ops) !! p = Some Trusted ↔ ∃ op, in_force ops p = Some op ∧ is_approval op.
Proof.
  induction ops as [|op ops [Hwf IH]] using rev_ind.
  { split; [apply NoDup_nil_2|]. intros p. unfold view. simpl. rewrite lookup_empty. naive_solver. }
  rewrite foldl_app. simpl. set (s := foldl run_op [] ops) in *.
  assert (∀ p, in_force (ops ++ [op]) p = if decide (op_pair op = p) then Some op else in_force ops p) as Hin.
  { intros p. unfold in_force. rewrite filter_app, filter_cons, filter_nil.
    destruct (decide (op_pair op = p)); [by rewrite last_snoc|]. by rewrite app_nil_r. }
  destruct op as [now a k fp room tb|now a k]; simpl in *.
  - destruct (approve s now a k fp room tb) as [s' e] eqn:E. apply approve_view in E as (Hwf' & Hv & _); [|done].
    simpl. split; [done|]. intros p. rewrite Hv, Hin. destruct (decide ((a, k) = p)) as [<-|Hne].
    + rewrite lookup_insert_eq. split; [intros _; eexists; by split|done].
    + by rewrite lookup_insert_ne.
  - destruct (revoke s now a k) as [s' o] eqn:E. apply revoke_view in E as [Hwf' Hv]; [|done].
    simpl. split; [done|]. intros p. rewrite Hin. destruct (decide ((a, k) = p)) as [<-|Hne].
    + split; [|by intros (? & [= <-] & ?)]. intros Ht. destruct (view s !! (a, k)) eqn:Hs.
      * destruct Hv as [Hv _]. rewrite Hv, lookup_insert_eq in Ht. done.
      * destruct Hv as [-> _]. congruence.
    + rewrite <- IH. destruct (view s !! (a, k)) eqn:Hs; destruct Hv as [Hv _]; [|by subst].
      by rewrite Hv, lookup_insert_ne.
Qed.

(** C37: after any sequence of approvals and revocations, a key is trusted for an
    agent exactly when the last operation on that pair was an approval, and trusted
    as a key exactly when that is so for some agent; unknown and revoked keys are
    rejected, and the store keeps one record per pair. *)
Theorem last_decision_wins ops :
  let s := foldl run_op [] ops in
  trust_wf s ∧
  (∀ a k, is_trusted s a k = true ↔ ∃ op, in_force ops (a, k) = Some op ∧ is_approval op) ∧
  (∀ k, is_key_trusted s k = true ↔ ∃ a op, in_force ops (a, k) = Some op ∧ is_approval op).
Proof.
  destruct (run_ops_view ops) as [Hwf Hv]. split_and!; [done| |].
  - intros a k. by rewrite is_trusted_view, Hv.
  - intros k. rewrite is_key_trusted_view by done. by setoid_rewrite Hv.
Qed.

(** Room-published trust never overrides the local store: a local record decides
    alone, a local revocation included; only for pairs the local store does not know
    does a published record count, and then only one that is [trusted] and carries no
    revocation. *)
Theorem local_trust_precedence local room_states a k :
  let t := effective_trust local room_states a k in
  (∀ e, trust_entry local a k = Some e →
     t.(et_source) = SourceLocal ∧ t.(et_trusted) = is_trusted local a k) ∧
  (trust_entry local a k = None →
     t.(et_trusted) = true ↔ ∃ s, s ∈ room_states ∧ s.(trs_agent_id) = a ∧ s.(trs_key_id) = k ∧
       s.(trs_status) = "trusted" ∧ s.(trs_revoked_at) = None) ∧
  (∀ e p, e ∈ local → te_status e = Revoked →
     room_state_grants_trust (trust_state_from_entry e p) = false).
Proof.
  unfold effective_trust, is_trusted. split_and!.
  - intros e ->. done.
  - intros ->. simpl. rewrite existsb_elem. split.
    + intros (s & Hs & Hg). apply list_elem_of_In, List.filter_In in Hs as [Hin Hp].
      unfold room_state_grants_trust in Hg. bool_prop. rewrite !str_eqb_eq in *.
      exists s. split_and!; try done; [by apply list_elem_of_In|]. by destruct (trs_revoked_at s).
    + intros (s & Hin & <- & <- & Hst & Hr). exists s. split.
      * apply list_elem_of_In, List.filter_In. split; [by apply list_elem_of_In|]. by rewrite !str_eqb_refl.
      * unfold room_state_grants_trust. by rewrite Hst, Hr.
  - intros e p _ Hr. unfold room_state_grants_trust, trust_state_from_entry. simpl. by rewrite Hr.
Qed.
