(* ===== verification/Approval.v ===== *)
(** * Approvals

    Models [crates/mx-agent-daemon/src/approval.rs]: when an authorized request is
    held, the local queue of held requests, the verification of approval decisions,
    and the live handler that releases or denies a held request.  Spawning and the
    emission of events are outcomes of the handler; what it reads from the room and
    the disk is its input. *)
From Stdlib Require Import ZArith.
From stdpp Require Import gmap strings list.
From S2P Require Import Prelude RustStr CanonicalJson Schema Signing Time Replay NonceGuard PolicyFile PolicyEngine Trust.

(** ** Dispositions *)

Definition risk_for (a : Allowance) : string :=
  let networked := match a.(al_network) with Some NetAllow => true | _ => false end in
  let unsandboxed := match a.(al_sandbox) with None | Some SbNone => true | _ => false end in
  if networked || unsandboxed then "high" else "medium".

Definition summary_for (request : ExecRequest) : string :=
  "Run " +:+ str_join " " request.(er_command) +:+ " in " +:+ request.(er_cwd).

Definition approval_request_for (request : ExecRequest) (a : Allowance) : ApprovalRequest :=
  {| apr_request_id := request.(er_request_id); apr_invocation_id := request.(er_invocation_id);
     apr_requester := request.(er_requesting_agent); apr_target := request.(er_target_agent);
     apr_summary := summary_for request; apr_risk := risk_for a;
     apr_expires_at := request.(er_expires_at); apr_extra := ∅ |}.
Definition approval_request_for_call (request : CallRequest) (a : Allowance) : ApprovalRequest :=
  {| apr_request_id := request.(cr_request_id); apr_invocation_id := request.(cr_invocation_id);
     apr_requester := default "" request.(cr_requesting_agent); apr_target := default "" request.(cr_target_agent);
     apr_summary := "Call tool " +:+ request.(cr_tool); apr_risk := risk_for a;
     apr_expires_at := request.(cr_expires_at); apr_extra := ∅ |}.

(** [ExecDisposition] and [CallDisposition]. *)
Inductive Disposition (R : Type) :=
| Execute (request : R)
| RequiresApproval (request : R) (approval : ApprovalRequest).
Arguments Execute {_} _.
Arguments RequiresApproval {_} _ _.
Definition executable {R} (d : Disposition R) : option R :=
  match d with Execute r => Some r | RequiresApproval _ _ => None end.
Definition disposition_for_exec (request : ExecRequest) (a : Allowance) : Disposition ExecRequest :=
  if a.(al_requires_approval) then RequiresApproval request (approval_request_for request a) else Execute request.
Definition disposition_for_call (request : CallRequest) (a : Allowance) : Disposition CallRequest :=
  if a.(al_requires_approval) then RequiresApproval request (approval_request_for_call request a) else Execute request.

(** ** The queue *)

Inductive HeldRequest := HeldExec (request : ExecRequest) | HeldCall (request : CallRequest).
Definition redacted_for_inspection (h : HeldRequest) : HeldRequest :=
  match h with
  | HeldExec r =>
      HeldExec {| er_invocation_id := r.(er_invocation_id); er_request_id := r.(er_request_id);
        er_target_agent := r.(er_target_agent); er_requesting_agent := r.(er_requesting_agent);
        er_command := []; er_cwd := r.(er_cwd); er_env := ∅; er_stdin := r.(er_stdin);
        er_stream := r.(er_stream); er_pty := r.(er_pty); er_timeout_ms := r.(er_timeout_ms);
        er_task_id := r.(er_task_id); er_created_at := r.(er_created_at); er_expires_at := r.(er_expires_at);
        er_nonce := r.(er_nonce); er_idempotency_key := r.(er_idempotency_key);
        er_signature := r.(er_signature); er_extra := ∅ |}
  | HeldCall r =>
      HeldCall {| cr_invocation_id := r.(cr_invocation_id); cr_request_id := r.(cr_request_id);
        cr_tool := r.(cr_tool); cr_args := Null; cr_created_at := r.(cr_created_at);
        cr_expires_at := r.(cr_expires_at); cr_nonce := r.(cr_nonce); cr_signature := r.(cr_signature);
        cr_requesting_agent := r.(cr_requesting_agent); cr_target_agent := r.(cr_target_agent);
        cr_extra := ∅ |}
  end.

Record PendingApproval := {
  pa_room_id : string;
  pa_request : ApprovalRequest;
  pa_held_request : option HeldRequest;
  pa_requester_user : option string;
}.
Definition pa_request_id (p : PendingApproval) : string := p.(pa_request).(apr_request_id).

(** [ApprovalQueue]: its [pending] list. *)
Abbreviation ApprovalQueue := (list PendingApproval).
Definition has_id (request_id : string) (p : PendingApproval) : bool := pa_request_id p =s request_id.
Definition queue_get (q : ApprovalQueue) (request_id : string) : option PendingApproval :=
  List.find (has_id request_id) q.
Definition enqueue (q : ApprovalQueue) (approval : PendingApproval) : ApprovalQueue :=
  match position (has_id (pa_request_id approval)) q with
  | Some idx => <[idx := approval]> q
  | None => q ++ [approval]
  end.
Definition queue_remove (q : ApprovalQueue) (request_id : string) : ApprovalQueue * option PendingApproval :=
  match position (has_id request_id) q with
  | Some idx => (delete idx q, q !! idx)
  | None => (q, None)
  end.

Definition redact (p : PendingApproval) : PendingApproval :=
  {| pa_room_id := p.(pa_room_id); pa_request := p.(pa_request);
     pa_held_request := redacted_for_inspection <$> p.(pa_held_request);
     pa_requester_user := p.(pa_requester_user) |}.
Definition request_id_le (a b : PendingApproval) : Prop := String.le (pa_request_id a) (pa_request_id b).
#[export] Instance request_id_le_dec : RelDecision request_id_le.
Proof. intros a b. unfold request_id_le. apply _. Defined.
(** [list_pending_approvals] and [get_pending_approval], on the loaded queue. *)
Definition list_pending_approvals (q : ApprovalQueue) (room : option string) : list PendingApproval :=
  let pending := match room with
                 | Some room_id => List.filter (λ p, p.(pa_room_id) =s room_id) q
                 | None => q
                 end in
  map redact (sort_by request_id_le pending).
Definition get_pending_approval (q : ApprovalQueue) (request_id : string) : option PendingApproval :=
  redact <$> queue_get q request_id.

(** ** Decisions *)

Definition DECISION_APPROVED : string := "approved".
Definition DECISION_DENIED : string := "denied".
Definition decision_permits_spawn (d : ApprovalDecision) : bool := d.(apd_decision) =s DECISION_APPROVED.
Definition approval_decision_for (request_id decision approved_by created_at : string) : ApprovalDecision :=
  {| apd_request_id := request_id; apd_decision := decision; apd_approved_by := approved_by;
     apd_created_at := created_at; apd_nonce := None; apd_expires_at := None; apd_signature := None;
     apd_extra := ∅ |}.

Definition APPROVAL_REQUEST_TTL : Z := 3600.
(** [now] in seconds since the epoch; [saturating_add] on [u64]. *)
Definition approval_request_expiry (now ttl : Z) : string := unix_to_rfc3339 (Z.min (now + ttl) u64_max).
Definition approval_request_expired (expires_at : string) (now_unix : Z) : bool :=
  match parse_rfc3339_to_unix expires_at with
  | Some expiry => (expiry <=? now_unix)%Z
  | None => false
  end.

Section decisions.
Context `{Crypto}.

Record DecisionVerification := {
  dv_local_user : string;
  dv_approvers : gset string;
  dv_verifying_keys : gmap string VerifyingKey;
  dv_trust : TrustStore;
  dv_now_unix : Z;
}.

Definition verification_failure (d : ApprovalDecision) (sender : string) (ctx : DecisionVerification) : option string :=
  let authorized := negb (sender =s "") &&
    ((sender =s ctx.(dv_local_user)) || bool_decide (sender ∈ ctx.(dv_approvers))) in
  if negb authorized then Some "untrusted_sender" else
  match d.(apd_signature) with
  | None => Some "missing_signature"
  | Some signature =>
      match ctx.(dv_verifying_keys) !! signature.(sig_key_id) with
      | None => Some "unresolved_key"
      | Some key =>
          if negb (is_key_trusted ctx.(dv_trust) signature.(sig_key_id)) then Some "untrusted_key" else
          match verify_approval_decision key d with
          | Err _ => Some "invalid_signature"
          | Ok _ =>
              match d.(apd_nonce), d.(apd_expires_at) with
              | Some _, Some expires_at =>
                  match parse_rfc3339_to_unix expires_at with
                  | None => Some "malformed_expiry"
                  | Some expiry => if (expiry <=? ctx.(dv_now_unix))%Z then Some "decision_expired" else None
                  end
              | _, _ => Some "missing_replay_material"
              end
          end
      end
  end.

(** The timeline events a scan reads, newest first: the type, the sender and the
    decoded content where present. *)
Record TimelineEvent := {
  tl_type : option string;
  tl_sender : option string;
  tl_decision : option ApprovalDecision;
}.
Definition APPROVAL_DECISION : string := "com.mxagent.approval.decision.v1".
(** The loop of [read_verified_approval_decisions]: the first verified decision of
    each request wins. *)
Fixpoint collect_decisions (events : list TimelineEvent) (ctx : DecisionVerification)
    (decisions : gmap string ApprovalDecision) : gmap string ApprovalDecision :=
  match events with
  | [] => decisions
  | ev :: events =>
      let decisions' :=
        if negb (bool_decide (ev.(tl_type) = Some APPROVAL_DECISION)) then decisions else
        match ev.(tl_decision) with
        | None => decisions
        | Some d =>
            match verification_failure d (default "" ev.(tl_sender)) ctx with
            | Some _ => decisions
            | None => match decisions !! d.(apd_request_id) with
                      | Some _ => decisions
                      | None => <[d.(apd_request_id) := d]> decisions
                      end
            end
        end in
      collect_decisions events ctx decisions'
  end.
Definition read_verified_approval_decisions (events : list TimelineEvent) (ctx : DecisionVerification) :
    gmap string ApprovalDecision := collect_decisions events ctx ∅.

(** [call::verifying_key_from_agent_state]; [None] is any rejection. *)
Definition verifying_key_from_agent_state (agent : AgentState) : option VerifyingKey :=
  public_key ← agent.(as_signing_public_key);
  key ← decode_verifying_key public_key;
  if negb (key_id_for_verifying_key key =s agent.(as_signing_key_id)) then None else Some key.
Definition resolve_verifying_keys (agents : list AgentState) : gmap string VerifyingKey :=
  foldl (λ keys agent,
    if agent.(as_signing_key_id) =s "" then keys else
    match verifying_key_from_agent_state agent with
    | Some key => <[agent.(as_signing_key_id) := key]> keys
    | None => keys
    end) ∅ agents.

(** ** The live handler *)

(** What the handler reads: whether the decision's room is known, its agent states,
    the daemon's user, the loaded trust store, the policy and the clock, whether
    reading the queue again succeeds after the burn ([unwrap_or_default] otherwise),
    and whether saving it does. *)
Record LiveInputs := {
  lv_room_available : bool;
  lv_agents : option (list AgentState);
  lv_local_user : option string;
  lv_trust : option TrustStore;
  lv_policy : Policy;
  lv_now : Z;
  lv_reload_ok : bool;
  lv_save_ok : bool;
}.
(** What it does: nothing, a terminal rejection, or the re-authorization and spawn of
    the held request under the policy of a room. *)
Inductive LiveOutcome :=
| LiveIgnored (reason : string)
| LiveDenied (room_id : string) (held : HeldRequest)
| LiveReleased (room_id : string) (held : HeldRequest) (requester_user : option string).

Definition live_verification (inp : LiveInputs) (agents : list AgentState) (room_id : string) : DecisionVerification :=
  {| dv_local_user := default "" inp.(lv_local_user);
     dv_approvers := match (rooms inp.(lv_policy)) !! room_id with
                     | Some r => list_to_set r.(rm_approvers)
                     | None => ∅
                     end;
     dv_verifying_keys := resolve_verifying_keys agents;
     dv_trust := default [] inp.(lv_trust);
     dv_now_unix := inp.(lv_now) |}.

Section live.
Context `{NonceGuard C}.

Definition burn_decision_nonce (now : Z) (router : option C) (d : ApprovalDecision) : bool * option C :=
  match d.(apd_nonce), d.(apd_expires_at) with
  | Some nonce, Some expires_at =>
      match router with
      | Some c => let '(r, c') := burn now nonce expires_at c in (is_ok r, Some c')
      | None => (true, None)
      end
  | _, _ => (false, router)
  end.

(** [queue] is the queue file: [None] if it cannot be loaded.  [room_id] and
    [sender] are the decision event's. *)
Definition handle_live_approval_decision (inp : LiveInputs) (room_id sender : string) (d : ApprovalDecision)
    (queue : option ApprovalQueue) (router : option C) : LiveOutcome * option ApprovalQueue * option C :=
  match queue with
  | None => (LiveIgnored "queue_unavailable", queue, router)
  | Some q =>
      match queue_get q d.(apd_request_id) with
      | None => (LiveIgnored "no_hold", queue, router)
      | Some pending =>
          match pending.(pa_held_request) with
          | None => (LiveIgnored "task_hold", queue, router)
          | Some held =>
              let requester_user := pending.(pa_requester_user) in
              if negb inp.(lv_room_available) then (LiveIgnored "room_unavailable", queue, router) else
              match inp.(lv_agents) with
              | None => (LiveIgnored "agents_unavailable", queue, router)
              | Some agents =>
                  match verification_failure d sender (live_verification inp agents room_id) with
                  | Some reason => (LiveIgnored reason, queue, router)
                  | None =>
                      let '(fresh, router) := burn_decision_nonce inp.(lv_now) router d in
                      if negb fresh then (LiveIgnored "replayed", queue, router) else
                      let q' := (queue_remove (if inp.(lv_reload_ok) then q else []) d.(apd_request_id)).1 in
                      let queue := if inp.(lv_save_ok) then Some q' else Some q in
                      if negb (decision_permits_spawn d) then (LiveDenied room_id held, queue, router)
                      else (LiveReleased room_id held requester_user, queue, router)
                  end
              end
          end
      end
  end.
End live.
End decisions.

(** ** Verified decisions *)

(** Every anchor a decision must satisfy. *)
Record decision_verified `{Crypto} (d : ApprovalDecision) (sender : string) (ctx : DecisionVerification) : Prop := {
  vd_sender : sender ≠ "" ∧ (sender = ctx.(dv_local_user) ∨ sender ∈ ctx.(dv_approvers));
  vd_signature : ∃ s key, d.(apd_signature) = Some s ∧ ctx.(dv_verifying_keys) !! s.(sig_key_id) = Some key ∧
    is_key_trusted ctx.(dv_trust) s.(sig_key_id) = true ∧ verify_approval_decision key d = Ok tt;
  vd_nonce : is_Some d.(apd_nonce);
  vd_live : ∃ e x, d.(apd_expires_at) = Some e ∧ parse_rfc3339_to_unix e = Some x ∧ (ctx.(dv_now_unix) < x)%Z;
}.

Lemma verification_failure_None `{Crypto} d sender ctx :
  verification_failure d sender ctx = None ↔ decision_verified d sender ctx.
Proof.
  unfold verification_failure. split.
  - intros Hv. destruct (negb (sender =s "") && _) eqn:Ha; simpl in Hv; [|done].
    apply andb_true_iff in Ha as [Hne Ha]. apply negb_true_iff, str_eqb_neq in Hne.
    apply orb_true_iff in Ha. rewrite str_eqb_eq, bool_decide_eq_true in Ha.
    destruct (apd_signature d) as [s|] eqn:Es; [|done].
    destruct (_ !! sig_key_id s) as [key|] eqn:Ek; [|done].
    destruct (is_key_trusted _ _) eqn:Et; simpl in Hv; [|done].
    destruct (verify_approval_decision key d) as [[]|] eqn:Ev; [|done].
    destruct (apd_nonce d) as [n|] eqn:En; [|done]. destruct (apd_expires_at d) as [e|] eqn:Ee; [|done].
    destruct (parse_rfc3339_to_unix e) as [x|] eqn:Ep; [|done]. destruct (x <=? _)%Z eqn:Hx; [done|]. bool_prop.
    split; [done|by exists s, key|by exists n|by exists e, x].
  - intros [[Hne Ha] (s & key & -> & -> & -> & ->) [n ->] (e & x & -> & -> & Hlt)].
    rewrite (proj2 (str_eqb_neq _ _)) by done. simpl.
    rewrite (proj2 (Z.leb_gt _ _)) by done.
    destruct Ha as [->|Ha]; [by rewrite str_eqb_refl|].
    rewrite bool_decide_true by done. by rewrite orb_true_r.
Qed.

(** The verified decision an event carries for a request, if any. *)
Definition event_decision `{Crypto} (rid : string) (ctx : DecisionVerification) (ev : TimelineEvent) : option ApprovalDecision :=
  d ← ev.(tl_decision);
  if bool_decide (ev.(tl_type) = Some APPROVAL_DECISION) && (d.(apd_request_id) =s rid)
     && negb (is_some (verification_failure d (default "" ev.(tl_sender)) ctx))
  then Some d else None.
Lemma event_decision_Some `{Crypto} rid ctx ev d :
  event_decision rid ctx ev = Some d ↔
  ev.(tl_type) = Some APPROVAL_DECISION ∧ ev.(tl_decision) = Some d ∧ d.(apd_request_id) = rid ∧
  decision_verified d (default "" ev.(tl_sender)) ctx.
Proof.
  unfold event_decision. destruct (tl_decision ev) as [d0|]; simpl; [|naive_solver].
  rewrite <- verification_failure_None. split.
  - intros Hd. destruct (_ && _ && _) eqn:E; [|done]. simplify_eq. bool_prop. rewrite str_eqb_eq in *.
    split_and!; try done. by destruct (verification_failure _ _ _).
  - intros (-> & [= ->] & <- & ->). rewrite bool_decide_true by done. by rewrite str_eqb_refl.
Qed.

Lemma collect_decisions_lookup `{Crypto} events ctx : ∀ m rid,
  collect_decisions events ctx m !! rid = opt_or (m !! rid) (head (omap (event_decision rid ctx) events)).
Proof.
  induction events as [|ev events IH]; intros m rid; csimpl; [by destruct (m !! rid)|].
  rewrite IH. clear IH. unfold event_decision at 2. destruct (tl_decision ev) as [d|]; simpl.
  2: { by destruct (negb _). }
  case_bool_decide; simpl; [|done].
  destruct (verification_failure d _ ctx); simpl; [by rewrite andb_false_r|]. rewrite andb_true_r.
  destruct (apd_request_id d =s rid) eqn:E.
  - apply str_eqb_eq in E as <-. destruct (m !! apd_request_id d) eqn:Em; simpl; [by rewrite Em|].
    by rewrite lookup_insert_eq.
  - apply str_eqb_neq in E. destruct (m !! apd_request_id d); [done|]. by rewrite lookup_insert_ne.
Qed.

(** C36: the decision the scheduler acts on for a request is the newest event of the
    scan that is a decision for that request and passes every anchor: sent by the
    daemon's user or a configured approver, signed under a published key that the
    local trust store trusts, carrying a nonce and an unexpired deadline.  Forged,
    unsigned, untrusted or expired events count as no decision. *)
Theorem only_verified_decisions_count `{Crypto} events ctx rid d :
  read_verified_approval_decisions events ctx !! rid = Some d ↔
  ∃ newer ev older, events = newer ++ ev :: older ∧
    ev.(tl_type) = Some APPROVAL_DECISION ∧ ev.(tl_decision) = Some d ∧ d.(apd_request_id) = rid ∧
    decision_verified d (default "" ev.(tl_sender)) ctx ∧
    Forall (λ ev', ∀ d', ev'.(tl_type) = Some APPROVAL_DECISION → ev'.(tl_decision) = Some d' →
              d'.(apd_request_id) = rid → ¬ decision_verified d' (default "" ev'.(tl_sender)) ctx) newer.
Proof.
  unfold read_verified_approval_decisions. rewrite collect_decisions_lookup, lookup_empty. simpl.
  assert (∀ ev, event_decision rid ctx ev = None ↔ ∀ d', ev.(tl_type) = Some APPROVAL_DECISION →
    ev.(tl_decision) = Some d' → d'.(apd_request_id) = rid → ¬ decision_verified d' (default "" ev.(tl_sender)) ctx) as Hnone.
  { intros ev. split.
    - intros E d' H1 H2 H3 H4. by rewrite (proj2 (event_decision_Some rid ctx ev d')) in E.
    - intros E. destruct (event_decision rid ctx ev) as [d'|] eqn:Ed; [|done].
      apply event_decision_Some in Ed as (? & ? & ? & ?). exfalso. by eapply E. }
  setoid_rewrite <- Hnone. clear Hnone. split.
  - induction events as [|ev events IH]; csimpl; [done|]. destruct (event_decision rid ctx ev) as [d0|] eqn:Ed.
    + intros [= ->]. apply event_decision_Some in Ed as (? & ? & ? & ?). exists [], ev, events. by split_and!.
    + intros (newer & ev0 & older & -> & ? & ? & ? & ? & Hf)%IH. exists (ev :: newer), ev0, older.
      split_and!; try done. by constructor.
  - intros (newer & ev & older & -> & H1 & H2 & H3 & H4 & Hf). induction Hf as [|ev' newer Hn Hf IH]; csimpl.
    + by rewrite (proj2 (event_decision_Some rid ctx ev d)).
    + by rewrite Hn.
Qed.

(** ** The queue keeps one entry per request *)

Definition queue_wf (q : ApprovalQueue) : Prop := NoDup (map pa_request_id q).
Lemma has_id_true rid p : has_id rid p = true ↔ pa_request_id p = rid.
Proof. apply str_eqb_eq. Qed.

Lemma queue_get_elem q rid p : queue_get q rid = Some p → p ∈ q ∧ pa_request_id p = rid.
Proof.
  intros Hg. apply List.find_some in Hg as [Hin Hid]. rewrite has_id_true in Hid. by apply list_elem_of_In in Hin.
Qed.
Lemma queue_get_None q rid : queue_get q rid = None ↔ rid ∉ map pa_request_id q.
Proof.
  split.
  - intros Hg (p & -> & Hin)%list_elem_of_fmap. apply list_elem_of_In in Hin.
    eapply List.find_none in Hg; [|done]. by rewrite (proj2 (has_id_true _ _)) in Hg.
  - intros Hn. destruct (queue_get q rid) as [p|] eqn:E; [|done].
    apply queue_get_elem in E as [Hin <-]. destruct Hn. apply list_elem_of_fmap. by exists p.
Qed.
Lemma queue_get_wf q p : queue_wf q → p ∈ q → queue_get q (pa_request_id p) = Some p.
Proof.
  unfold queue_wf, queue_get. induction q as [|a q IH]; [by intros _ ?%elem_of_nil|]. simpl.
  intros [Ha Hnd]%NoDup_cons [->|Hp]%elem_of_cons.
  - by rewrite (proj2 (has_id_true _ _)).
  - destruct (has_id (pa_request_id p) a) eqn:E; [|auto]. apply has_id_true in E. destruct Ha. rewrite E.
    apply list_elem_of_fmap. by exists p.
Qed.

Lemma queue_remove_wf q rid : queue_wf q → queue_wf (queue_remove q rid).1 ∧ queue_get (queue_remove q rid).1 rid = None.
Proof.
  intros Hwf. unfold queue_remove, position. destruct (find_idx _ q) as [[i p]|] eqn:E; simpl.
  - apply find_idx_Some in E as (Hi & Hp & _). apply has_id_true in Hp.
    pose proof (delete_take_drop q i) as Hd. rewrite <- (take_drop_middle q i p Hi) in Hwf.
    unfold queue_wf in *. rewrite map_app in Hwf. simpl in Hwf.
    rewrite NoDup_app in Hwf. destruct Hwf as (H1 & H2 & H3). apply NoDup_cons in H3 as [H3 H4].
    rewrite Hd. split.
    + rewrite map_app. apply NoDup_app. split_and!; [done| |done]. intros x Hx Hx'. apply (H2 x Hx). by right.
    + rewrite queue_get_None, map_app, elem_of_app, <- Hp. intros [Hin|Hin]; [|done].
      apply (H2 _ Hin). left.
  - split; [done|]. apply find_idx_None in E. rewrite queue_get_None.
    intros (p & -> & Hin)%list_elem_of_fmap. rewrite Forall_forall in E. apply E in Hin.
    by rewrite (proj2 (has_id_true _ _)) in Hin.
Qed.
Lemma enqueue_wf q p : queue_wf q → queue_wf (enqueue q p).
Proof.
  unfold queue_wf, enqueue, position. intros Hwf. destruct (find_idx _ q) as [[i x]|] eqn:E; simpl.
  - apply find_idx_Some in E as (Hi & Hx & _). apply has_id_true in Hx.
    change (map pa_request_id) with (fmap (M := list) pa_request_id) in *.
    rewrite list_fmap_insert, list_insert_id; [done|]. by rewrite list_lookup_fmap, Hi, <- Hx.
  - apply find_idx_None in E. rewrite map_app. apply NoDup_app. split_and!; [done| |apply NoDup_singleton].
    intros rid (y & -> & Hy)%list_elem_of_fmap [= Heq]%list_elem_of_singleton.
    rewrite Forall_forall in E. apply E in Hy. apply not_true_iff_false in Hy. destruct Hy. by apply has_id_true.
Qed.
Lemma enqueue_get q p : queue_get (enqueue q p) (pa_request_id p) = Some p.
Proof.
  unfold enqueue, position, queue_get. destruct (find_idx _ q) as [[i x]|] eqn:E; simpl.
  - apply find_idx_Some in E as (Hi & Hx & Hlt).
    assert (i < length q) as Hlen by by eapply lookup_lt_Some.
    rewrite insert_take_drop by done.
    assert (∀ l, Forall (λ y, has_id (pa_request_id p) y = false) l →
      List.find (has_id (pa_request_id p)) (l ++ p :: drop (S i) q) = Some p) as Hfind.
    { induction 1 as [|y l Hy _ IH]; simpl; [by rewrite (proj2 (has_id_true _ _))|]. by rewrite Hy. }
    apply Hfind. apply Forall_lookup. intros k y Hk. apply lookup_take_Some in Hk as [Hk Hki]. by eapply Hlt.
  - apply find_idx_None in E.
    induction E as [|y l Hy _ IH]; simpl; [by rewrite (proj2 (has_id_true _ _))|]. by rewrite Hy.
Qed.

(** ** Live release *)

Section live_release.
Context `{Crypto} `{NonceGuardLaws C}.

(** A hold of this request was decided by a verified decision, whose nonce was burned
    when a router is attached, and left the queue unless saving it failed. *)
Definition hold_decided (inp : LiveInputs) (room_id sender : string) (d : ApprovalDecision)
    (queue : option ApprovalQueue) (router : option C) (held : HeldRequest)
    (queue' : option ApprovalQueue) (router' : option C) : Prop :=
  ∃ q p agents n e, queue = Some q ∧ queue_get q d.(apd_request_id) = Some p ∧ p.(pa_held_request) = Some held ∧
    inp.(lv_agents) = Some agents ∧ decision_verified d sender (live_verification inp agents room_id) ∧
    d.(apd_nonce) = Some n ∧ d.(apd_expires_at) = Some e ∧
    match router with
    | Some c => ∃ c', burn inp.(lv_now) n e c = (Ok tt, c') ∧ router' = Some c'
    | None => router' = None
    end ∧
    queue' = Some (if inp.(lv_save_ok) then (queue_remove (if inp.(lv_reload_ok) then q else []) d.(apd_request_id)).1 else q).

Lemma handle_live_spec inp room_id sender d queue router o queue' router' :
  handle_live_approval_decision inp room_id sender d queue router = (o, queue', router') →
  match o with
  | LiveIgnored _ => queue' = queue
  | LiveDenied rm held =>
      rm = room_id ∧ decision_permits_spawn d = false ∧ hold_decided inp room_id sender d queue router held queue' router'
  | LiveReleased rm held _ =>
      rm = room_id ∧ decision_permits_spawn d = true ∧ hold_decided inp room_id sender d queue router held queue' router'
  end.
Proof.
  intros Hh. unfold handle_live_approval_decision in Hh. destruct queue as [q|]; [|by simplify_eq].
  destruct (queue_get q _) as [p|] eqn:Hg; [|by simplify_eq].
  destruct (pa_held_request p) as [held|] eqn:Hheld; [|by simplify_eq].
  destruct (negb (lv_room_available inp)); [by simplify_eq|].
  destruct (lv_agents inp) as [agents|] eqn:Ha; [|by simplify_eq].
  destruct (verification_failure _ _ _) eqn:Hv; [by simplify_eq|].
  apply verification_failure_None in Hv. pose proof (vd_nonce _ _ _ Hv) as [n Hn].
  destruct (vd_live _ _ _ Hv) as (e & _ & He & _).
  destruct (burn_decision_nonce _ router d) as [fresh router1] eqn:Hb.
  destruct fresh; simpl in Hh; [|by simplify_eq].
  assert (∀ queue2, queue2 = (if lv_save_ok inp then Some (queue_remove (if lv_reload_ok inp then q else []) (apd_request_id d)).1 else Some q) →
    hold_decided inp room_id sender d (Some q) router held queue2 router1) as Hdec.
  { intros queue2 ->. exists q, p, agents, n, e. split_and!; try done; [|by destruct (lv_save_ok inp)].
    unfold burn_decision_nonce in Hb. rewrite Hn, He in Hb. destruct router as [c|]; [|by simplify_eq].
    destruct (burn _ n e c) as [[[]|] c']; simplify_eq. by exists c'. }
  destruct (decision_permits_spawn d); simpl in Hh; simplify_eq; eauto.
Qed.

(** A crash after the nonce is burned and before the queue is saved leaves a hold that
    the redelivered decision no longer releases: it finds its own nonce spent. *)
Lemma crash_after_burn_strands_hold inp inp' room_id sender d q c c' n e o queue' router' :
  d.(apd_nonce) = Some n → d.(apd_expires_at) = Some e → burn inp.(lv_now) n e c = (Ok tt, c') →
  handle_live_approval_decision inp' room_id sender d (Some q) (Some c') = (o, queue', router') →
  (∃ reason, o = LiveIgnored reason) ∧ queue' = Some q.
Proof.
  intros Hn He Hb Hh. apply handle_live_spec in Hh. destruct o as [reason|rm h|rm h u]; [by split; [eexists|]| |].
  all: exfalso; destruct Hh as (_ & _ & q1 & p1 & agents1 & n1 & e1 & _ & _ & _ & _ & _ & Hn1 & He1 & (c2 & Hb2 & _) & _).
  all: rewrite Hn in Hn1; rewrite He in He1; simplify_eq.
  all: destruct (burn_spent (lv_now inp') n1 e1 c') as [err Herr];
    [left; by apply (burn_ok (lv_now inp) n1 e1 c c' Hb)|congruence].
Qed.
(** ** A sequence of holds and decisions *)

(** A request is held ([load_ok]: the queue could be read, else it starts empty), or a decision
    event is handled ([load_ok] alike: an unreadable queue makes the handler return). *)
Inductive QueueStep :=
| QHold (p : PendingApproval) (load_ok save_ok : bool)
| QDecide (inp : LiveInputs) (load_ok : bool) (room_id sender : string) (d : ApprovalDecision).
Definition queue_step (x : QueueStep) (q : ApprovalQueue) (router : C) : LiveOutcome * ApprovalQueue * C :=
  match x with
  | QHold p load_ok save_ok =>
      (LiveIgnored "held", if save_ok then enqueue (if load_ok then q else []) p else q, router)
  | QDecide inp load_ok room_id sender d =>
      let '(o, queue', router') :=
        handle_live_approval_decision inp room_id sender d (if load_ok then Some q else None) (Some router) in
      (o, default q queue', default router router')
  end.
Fixpoint queue_run (xs : list QueueStep) (q : ApprovalQueue) (router : C) : list (QueueStep * LiveOutcome) :=
  match xs with
  | [] => []
  | x :: xs => let '(o, q, router) := queue_step x q router in (x, o) :: queue_run xs q router
  end.

(** What was decided: its request and the single-use token of its decision. *)
Definition decided (xo : QueueStep * LiveOutcome) : option ApprovalDecision :=
  match xo with
  | (QDecide _ _ _ _ d, LiveReleased _ _ _) | (QDecide _ _ _ _ d, LiveDenied _ _) => Some d
  | _ => None
  end.
Definition decision_token (d : ApprovalDecision) : string * string := (default "" d.(apd_nonce), default "" d.(apd_expires_at)).
(** A release is one of a request that was in the queue or was held since, approved by a
    decision that passes every anchor where it is handled. *)
Definition release_grounds (holds : list PendingApproval) (xo : QueueStep * LiveOutcome) : Prop :=
  match xo with
  | (QDecide inp _ room_id sender d, LiveReleased rm held user) =>
      rm = room_id ∧ decision_permits_spawn d = true ∧
      (∃ agents, inp.(lv_agents) = Some agents ∧ decision_verified d sender (live_verification inp agents room_id)) ∧
      ∃ p, p ∈ holds ∧ pa_request_id p = d.(apd_request_id) ∧ p.(pa_held_request) = Some held
  | _ => True
  end.
Definition new_holds (xs : list QueueStep) : list PendingApproval :=
  omap (λ x, match x with QHold p _ _ => Some p | _ => None end) xs.
Definition step_time (x : QueueStep) : option Z := match x with QDecide inp _ _ _ _ => Some inp.(lv_now) | _ => None end.
Fixpoint decisions_from (t : Z) (xs : list QueueStep) : Prop :=
  match xs with
  | [] => True
  | x :: xs => match step_time x with Some now => (t ≤ now)%Z ∧ decisions_from now xs | None => decisions_from t xs end
  end.
Definition saved (x : QueueStep) : bool := match x with QDecide inp _ _ _ _ => inp.(lv_save_ok) | _ => true end.

Lemma queue_remove_sublist q rid : (queue_remove q rid).1 `sublist_of` q.
Proof. unfold queue_remove. destruct (position _ q) as [i|]; [|done]. apply sublist_delete. Qed.
(** What a step does to the queue. *)
Lemma queue_step_holds x q router o q' router' : queue_step x q router = (o, q', router') →
  ∀ p, p ∈ q' → p ∈ q ++ new_holds [x].
Proof.
  intros Hs p Hp. apply elem_of_app. destruct x as [p0 lo sv|inp lo rm sd d]; simpl in Hs.
  - simplify_eq. destruct sv; [|by left]. unfold enqueue in Hp.
    assert (p ∈ (if lo then q else []) → p ∈ q) as Hsub by (destruct lo; [done|by intros ?%not_elem_of_nil]).
    destruct (position _ _) as [i|].
    + apply list_elem_of_lookup_1 in Hp as [j Hj]. destruct (base.decide (i = j)) as [->|Hne].
      * apply list_lookup_insert_Some in Hj as [(_ & -> & _)|[? _]]; [right; by left|done].
      * rewrite list_lookup_insert_ne in Hj by done. left. apply Hsub. by eapply list_elem_of_lookup_2.
    + apply elem_of_app in Hp as [Hp|Hp%list_elem_of_singleton]; [left; by apply Hsub|right; subst; by left].
  - left. destruct (handle_live_approval_decision _ _ _ _ _ _) as [[o1 qq] rr] eqn:Hh. simplify_eq.
    apply handle_live_spec in Hh. destruct o as [reason|? held|? held u].
    { subst qq. by destruct lo. }
    all: destruct Hh as (_ & _ & q0 & p0 & ag & n & e & Hq0 & _ & _ & _ & _ & _ & _ & _ & ->); destruct lo; [|done];
      injection Hq0 as <-; simpl in Hp; destruct (lv_save_ok inp); [|done];
      eapply elem_of_sublist; [exact Hp|]; (destruct (lv_reload_ok inp); [apply queue_remove_sublist|]);
      (etrans; [apply queue_remove_sublist|apply sublist_nil_l]).
Qed.
Lemma queue_run_grounds xs : ∀ q c holds, (∀ p, p ∈ q ++ new_holds xs → p ∈ holds) →
  Forall (release_grounds holds) (queue_run xs q c).
Proof.
  induction xs as [|x xs IH]; intros q c holds Hin; simpl; [constructor|].
  destruct (queue_step x q c) as [[o q'] c'] eqn:Hs. constructor.
  - destruct x as [|inp lo rm sd d]; [done|]. simpl in Hs.
    destruct (handle_live_approval_decision _ _ _ _ _ _) as [[o1 qq] rr] eqn:Hh. simplify_eq.
    apply handle_live_spec in Hh. destruct o as [reason|? held|? held u]; simpl; try done.
    destruct Hh as (-> & Hp & q0 & p0 & ag & n & e & Hq0 & Hg & Hheld & Ha & Hv & _). destruct lo; [|done]. injection Hq0 as <-.
    apply queue_get_elem in Hg as [Hpq Hid]. split_and!; [done|done|by exists ag|]. exists p0. split_and!; [|done|done].
    apply Hin, elem_of_app. by left.
  - apply IH. intros p Hp. apply Hin. apply elem_of_app in Hp as [Hp|Hp].
    + apply (queue_step_holds _ _ _ _ _ _ Hs) in Hp. rewrite elem_of_app in *. destruct Hp as [Hp|Hp]; [by left|right].
      destruct x; simpl in *; [|by apply not_elem_of_nil in Hp]. apply list_elem_of_singleton in Hp as ->. by left.
    + apply elem_of_app. right. destruct x; simpl; [by right|done].
Qed.

(** What a step does to the router's nonces. *)
Lemma queue_step_router x q c o q' c' : queue_step x q c = (o, q', c') →
  c' = c ∨ ∃ now n e r, step_time x = Some now ∧ burn now n e c = (r, c').
Proof.
  intros Hs. destruct x as [|inp lo rm sd d]; simpl in Hs; [simplify_eq; by left|].
  unfold handle_live_approval_decision in Hs. destruct lo; [|simplify_eq; by left].
  destruct (queue_get q _) as [p|]; [|simplify_eq; by left]. destruct (pa_held_request p) as [held|]; [|simplify_eq; by left].
  destruct (negb _); [simplify_eq; by left|]. destruct (lv_agents inp) as [agents|]; [|simplify_eq; by left].
  destruct (verification_failure _ _ _); [simplify_eq; by left|].
  assert (∀ b r, burn_decision_nonce (lv_now inp) (Some c) d = (b, r) →
    default c r = c ∨ ∃ now n e r', step_time (QDecide inp true rm sd d) = Some now ∧ burn now n e c = (r', default c r)) as Hb.
  { intros b r. unfold burn_decision_nonce. destruct (apd_nonce d) as [n|]; [|intros [= <- <-]; by left].
    destruct (apd_expires_at d) as [e|]; [|intros [= <- <-]; by left]. destruct (burn _ n e c) as [r' c1] eqn:Eb.
    intros [= <- <-]. right. by exists (lv_now inp), n, e, r'. }
  destruct (burn_decision_nonce _ _ _) as [fresh r] eqn:Eb. specialize (Hb _ _ eq_refl).
  destruct fresh; simpl in Hs; [|by simplify_eq/=]. destruct (decision_permits_spawn d); by simplify_eq/=.
Qed.
Lemma decided_burns x q c o q' c' d : queue_step x q c = (o, q', c') → decided (x, o) = Some d →
  ∃ now n e, step_time x = Some now ∧ decision_token d = (n, e) ∧ burn now n e c = (Ok tt, c').
Proof.
  intros Hs Hd. destruct x as [|inp lo rm sd d0]; [done|]. simpl in Hs.
  destruct (handle_live_approval_decision _ _ _ _ _ _) as [[o1 qq] rr] eqn:Hh. simplify_eq.
  apply handle_live_spec in Hh. unfold decision_token.
  destruct o as [reason|? held|? held u]; simpl in Hd; [done|injection Hd as <-..].
  all: destruct Hh as (_ & _ & q0 & p0 & ag & n & e & _ & _ & _ & _ & _ & -> & -> & (c1 & Hb & ->) & _); by exists (lv_now inp), n, e.
Qed.
Lemma omap_decided_cons xo l :
  omap decided (xo :: l) = match decided xo with Some d => d :: omap decided l | None => omap decided l end.
Proof. reflexivity. Qed.
Lemma queue_run_tokens xs : ∀ t q c, decisions_from t xs → room_for c (length xs) →
  NoDup (map decision_token (omap decided (queue_run xs q c))) ∧
  ∀ n e, (n, e) ∈ map decision_token (omap decided (queue_run xs q c)) → ¬ spent t c n e.
Proof.
  induction xs as [|x xs IH]; intros t q c Ht Hk; simpl.
  { split; [constructor|]. by intros n e ?%not_elem_of_nil. }
  destruct (queue_step x q c) as [[o q'] c'] eqn:Hs. rewrite !omap_decided_cons.
  set (t' := default t (step_time x)).
  assert (t ≤ t' ∧ decisions_from t' xs)%Z as [Hle Ht'].
  { subst t'. simpl in Ht. destruct (step_time x); [by destruct Ht|]. split; [simpl; lia|done]. }
  assert (room_for c' (length xs) ∧ ∀ n e, spent t c n e → spent t' c' n e) as [Hk' Hsp].
  { destruct (queue_step_router _ _ _ _ _ _ Hs) as [->|(now & n & e & r & Hnow & Hb)].
    - split; [eapply room_mono; [|exact Hk]; simpl; lia|]. intros n e. by apply spent_mono.
    - split; [by eapply (burn_keeps _ _ _ _ _ _ _ Hb)|]. intros n' e' Hn. subst t'. rewrite Hnow in *. simpl.
      eapply spent_burn; [exact Hb|exact Hk|]. by eapply spent_mono. }
  destruct (IH t' q' c' Ht' Hk') as [Hnd Hfresh].
  assert (∀ n e, (n, e) ∈ map decision_token (omap decided (queue_run xs q' c')) → ¬ spent t c n e) as Hrest.
  { intros n e Hin Hx. eapply Hfresh; [exact Hin|]. by apply Hsp. }
  destruct (decided (x, o)) as [d|] eqn:Hd; [|done]. simpl.
  destruct (decided_burns _ _ _ _ _ _ _ Hs Hd) as (now & n & e & Hnow & Htok & Hb). rewrite Htok.
  assert (t' = now) as Heq by (subst t'; by rewrite Hnow).
  split.
  - constructor; [|done]. intros Hin. apply (Hfresh _ _ Hin). left. by eapply burn_ok.
  - intros n' e' [[= -> ->]|Hin]%elem_of_cons; [|by apply Hrest]. intros Hx.
    destruct (burn_spent now n e c) as [err Herr]; [|congruence]. rewrite <- Heq. by eapply spent_mono.
Qed.

(** What a step does to the ids of the queue. *)
Lemma queue_step_ids x q c o q' c' : queue_step x q c = (o, q', c') → queue_wf q → saved x = true →
  (∀ d, decided (x, o) = Some d → d.(apd_request_id) ∈ map pa_request_id q ∧ d.(apd_request_id) ∉ map pa_request_id q') ∧
  queue_wf q'.
Proof.
  intros Hs Hwf Hsv. destruct x as [p lo sv|inp lo rm sd d]; simpl in Hs.
  { simplify_eq. split; [done|]. destruct sv; [|done].
    apply enqueue_wf. destruct lo; [done|constructor]. }
  destruct (handle_live_approval_decision _ _ _ _ _ _) as [[o1 qq] rr] eqn:Hh. simplify_eq.
  apply handle_live_spec in Hh. destruct o as [reason|? held|? held u].
  { subst qq. split; [done|]. by destruct lo. }
  all: destruct Hh as (_ & _ & q0 & p0 & ag & n & e & Hq0 & Hg & _ & _ & _ & _ & _ & _ & ->); destruct lo; [|done]; injection Hq0 as <-;
    simpl in Hsv; rewrite Hsv; simpl; apply queue_get_elem in Hg as [Hin Hid];
    assert (queue_wf (if lv_reload_ok inp then q else [])) as Hwf' by (destruct (lv_reload_ok inp); [done|constructor]);
    destruct (queue_remove_wf _ (apd_request_id d) Hwf') as [Hw Hn]; (split; [|done]);
    intros d' [= <-]; (split; [rewrite <- Hid; apply list_elem_of_fmap; by exists p0|by apply queue_get_None]).
Qed.
Lemma queue_run_ids xs : ∀ q c, NoDup (map pa_request_id (q ++ new_holds xs)) → forallb saved xs = true →
  NoDup (map apd_request_id (omap decided (queue_run xs q c))) ∧
  ∀ rid, rid ∈ map apd_request_id (omap decided (queue_run xs q c)) → rid ∈ map pa_request_id (q ++ new_holds xs).
Proof.
  induction xs as [|x xs IH]; intros q c Hnd Hsv; simpl.
  { split; [constructor|]. by intros rid ?%not_elem_of_nil. }
  simpl in Hsv. apply andb_true_iff in Hsv as [Hsx Hsv].
  destruct (queue_step x q c) as [[o q'] c'] eqn:Hs. rewrite !omap_decided_cons.
  assert (queue_wf q) as Hwf by (rewrite map_app in Hnd; by apply NoDup_app in Hnd as (? & _)).
  destruct (queue_step_ids _ _ _ _ _ _ Hs Hwf Hsx) as (Hdec & Hwf').
  pose proof (queue_step_holds _ _ _ _ _ _ Hs) as Hsub.
  assert (∀ rid, rid ∈ map pa_request_id q' → rid ∈ map pa_request_id (q ++ new_holds [x])) as Hids.
  { intros rid (p & -> & Hp)%list_elem_of_fmap. apply list_elem_of_fmap. exists p. split; [done|by apply Hsub]. }
  assert (new_holds (x :: xs) = new_holds [x] ++ new_holds xs) as Happ by (by destruct x).
  rewrite Happ, app_assoc, map_app in Hnd. apply NoDup_app in Hnd as (Hnd1 & Hdis & Hnd2).
  assert (NoDup (map pa_request_id (q' ++ new_holds xs))) as Hnd'.
  { rewrite map_app. apply NoDup_app. split_and!; [done| |done]. intros rid Hr. apply Hdis. by apply Hids. }
  destruct (IH q' c' Hnd' Hsv) as [Hu Hin].
  assert (∀ rid, rid ∈ map apd_request_id (omap decided (queue_run xs q' c')) → rid ∈ map pa_request_id (q ++ new_holds (x :: xs))) as Hin'.
  { intros rid Hr. apply Hin in Hr. rewrite Happ, app_assoc, map_app, elem_of_app. rewrite map_app, elem_of_app in Hr.
    destruct Hr as [Hr|Hr]; [left; by apply Hids|by right]. }
  destruct (decided (x, o)) as [d|] eqn:Hd; [|done]. simpl. destruct (Hdec d eq_refl) as [Hq Hq'].
  split; [|intros rid [->|Hr]%elem_of_cons; [|by apply Hin']; rewrite map_app; apply elem_of_app; by left].
  constructor; [|done]. intros Hr. apply Hin in Hr. rewrite map_app, elem_of_app in Hr. destruct Hr as [Hr|Hr]; [done|].
  apply (Hdis (apd_request_id d)); [|done]. rewrite map_app, elem_of_app. by left.
Qed.

(** C15: over any sequence of requests that are held and decisions that are handled, in one
    process and with no scheduler pass that writes the queue in between, a request is
    released only if it is held, by an approving decision that passes every anchor (sender,
    published and trusted key, signature, nonce, deadline) where it is handled.  No decision
    acts twice, whatever fails to be saved, if the clock of the handlers does not run
    backwards and the replay cache has room.  And no request is decided twice, by whatever
    decisions, if every save after a decision succeeds and each request is held once. *)
Theorem live_release_once xs t q c :
  decisions_from t xs → room_for c (length xs) →
  Forall (release_grounds (q ++ new_holds xs)) (queue_run xs q c) ∧
  NoDup (map decision_token (omap decided (queue_run xs q c))) ∧
  (NoDup (map pa_request_id (q ++ new_holds xs)) → forallb saved xs = true →
     NoDup (map apd_request_id (omap decided (queue_run xs q c)))).
Proof.
  intros Ht Hk. split_and!.
  - by apply queue_run_grounds.
  - by apply (queue_run_tokens xs t).
  - intros Hnd Hsv. by apply queue_run_ids.
Qed.

(** The room a hold was raised in plays no part in its release: a decision that
    verifies in another room releases it and hands it to that room's policy. *)
Theorem release_ignores_hold_room inp room_id sender d q p held agents n e c c' :
  queue_get q d.(apd_request_id) = Some p → p.(pa_held_request) = Some held → p.(pa_room_id) ≠ room_id →
  inp.(lv_room_available) = true → inp.(lv_agents) = Some agents →
  decision_verified d sender (live_verification inp agents room_id) →
  d.(apd_nonce) = Some n → d.(apd_expires_at) = Some e →
  burn inp.(lv_now) n e c = (Ok tt, c') → decision_permits_spawn d = true →
  (handle_live_approval_decision inp room_id sender d (Some q) (Some c)).1.1
  = LiveReleased room_id held p.(pa_requester_user).
Proof.
  intros Hg Hh _ Hr Ha Hv Hn He Hb Hp. unfold handle_live_approval_decision.
  rewrite Hg, Hh, Hr, Ha. simpl. apply verification_failure_None in Hv. rewrite Hv.
  unfold burn_decision_nonce. rewrite Hn, He, Hb. simpl. by rewrite Hp.
Qed.

(** A failed second read of the queue empties it of every other hold. *)
Lemma failed_reload_drops_holds inp room_id sender d q c rm held user queue' router' :
  inp.(lv_reload_ok) = false → inp.(lv_save_ok) = true →
  handle_live_approval_decision inp room_id sender d (Some q) (Some c) = (LiveReleased rm held user, queue', router') →
  queue' = Some [].
Proof.
  intros Hr Hs Hh. apply handle_live_spec in Hh as (_ & _ & q0 & p & agents & n & e & _ & _ & _ & _ & _ & _ & _ & _ & ->).
  by rewrite Hr, Hs.
Qed.
End live_release.

(** ** Witnesses *)

Module Sample.
#[local] Existing Instance Signing.Toy.toy_crypto.
Definition key_id : string := key_id_for_verifying_key (H := Signing.Toy.toy_crypto) tt.
Definition agent : AgentState :=
  {| as_agent_id := "agent-op"; as_kind := "pi"; as_matrix_user_id := "@op:s"; as_device_id := "D";
     as_signing_key_id := key_id; as_signing_public_key := Some Signing.Toy.key_bytes; as_status := "active";
     as_capabilities := []; as_tools := [];
     as_workspace := {| aw_cwd := "/"; aw_project_id := ""; aw_git_commit := "" |};
     as_load := {| al_running_invocations := 0; al_max_invocations := 1 |}; as_last_seen_ts := 0;
     as_state_rev := 1; as_extra := ∅ |}.
Definition trust : TrustStore := (approve [] 0 "agent-op" key_id None None None).1.
Definition inputs (now : Z) : LiveInputs :=
  {| lv_room_available := true; lv_agents := Some [agent]; lv_local_user := Some "@op:s";
     lv_trust := Some trust; lv_policy := PolicyEngine.Sample.policy; lv_now := now; lv_reload_ok := true;
     lv_save_ok := false |}.
Definition unsigned : ApprovalDecision :=
  {| apd_request_id := "req"; apd_decision := DECISION_APPROVED; apd_approved_by := "@op:s";
     apd_created_at := "2026-01-01T00:00:00Z"; apd_nonce := Some "dn"; apd_expires_at := Some "2026-06-02T12:05:00Z";
     apd_signature := None; apd_extra := ∅ |}.
Definition decision : ApprovalDecision :=
  match sign_approval_decision (H := Signing.Toy.toy_crypto) tt key_id unsigned with Ok d => d | Err _ => unsigned end.
Definition held : HeldRequest := HeldExec (Signing.Toy.request "s1").
Definition pending : PendingApproval :=
  {| pa_room_id := "!room-a"; pa_request := approval_request_for (Signing.Toy.request "s1") Allowance_default;
     pa_held_request := Some held; pa_requester_user := Some "@a:s" |}.
Definition guard : Guard := {| g_fs := mkFs Absent None; g_cache := mkCache 4 ∅; g_io := [] |}.
End Sample.

Section live_witnesses.
#[local] Existing Instance Signing.Toy.toy_crypto.
#[local] Instance sample_guard : NonceGuard Guard := cache_guard sample_iter (λ _, "").
#[local] Instance sample_laws : NonceGuardLaws Guard :=
  cache_guard_laws sample_iter (λ m, reflexivity _) (λ _, "").

(** A request is held, its approval is handled twice, and the queue cannot be saved: the first
    delivery releases it and the second finds its nonce spent. *)
Lemma live_release_once_witness :
  let xs := [QHold Sample.pending true true; QDecide (Sample.inputs 1000) true "!room-b" "@op:s" Sample.decision;
             QDecide (Sample.inputs 2000) true "!room-b" "@op:s" Sample.decision] in
  omap decided (queue_run xs [] Sample.guard) = [Sample.decision] ∧
  Forall (release_grounds [Sample.pending]) (queue_run xs [] Sample.guard) ∧
  NoDup (map decision_token (omap decided (queue_run xs [] Sample.guard))).
Proof.
  intros xs. split; [vm_compute; reflexivity|].
  destruct (live_release_once xs 0 [] Sample.guard) as (Hg & Hn & _).
  - simpl. lia.
  - split; simpl; [lia|]. rewrite map_size_empty. lia.
  - split; [exact Hg|exact Hn].
Defined.
Lemma release_ignores_hold_room_witness :
  (handle_live_approval_decision (Sample.inputs 1000) "!room-b" "@op:s" Sample.decision (Some [Sample.pending])
     (Some Sample.guard)).1.1 = LiveReleased "!room-b" Sample.held (Some "@a:s").
Proof.
  assert (decision_verified Sample.decision "@op:s" (live_verification (Sample.inputs 1000) [Sample.agent] "!room-b")) as Hv.
  { apply verification_failure_None. vm_compute. reflexivity. }
  assert (∃ c', burn 1000 "dn" "2026-06-02T12:05:00Z" Sample.guard = (Ok tt, c')) as [c' Hb]
    by (eexists; vm_compute; reflexivity).
  exact (release_ignores_hold_room (Sample.inputs 1000) "!room-b" "@op:s" Sample.decision [Sample.pending]
    Sample.pending Sample.held [Sample.agent] "dn" "2026-06-02T12:05:00Z" Sample.guard c'
    eq_refl eq_refl ltac:(discriminate) eq_refl eq_refl Hv eq_refl eq_refl Hb eq_refl).
Defined.
End live_witnesses.
