(* ===== verification/LiveAuth.v ===== *)
(** * Authorization of live requests

    Models the receive-side gates of [crates/mx-agent-daemon/src/exec.rs] and
    [call.rs]: signature, target, trust, policy, sender binding, verified device,
    sandbox floor and environment screen, for exec requests, tool calls and the
    signed controls of a running session; and the functions that build and sign the
    requests.  What the gates read (agent states, the trust store, the policy, the
    device status) is their input; [serde]'s decoding is the class [RequestSerde]. *)
From stdpp Require Import gmap strings list.
From S2P Require Import Prelude RustStr Sandboxing CanonicalJson Schema Signing Trust PolicyFile PolicyEngine ChildEnv Approval.

(** ** Decoding requests *)

Class RequestSerde := {
  exec_request_from_value : Value → option ExecRequest;
  call_request_from_value : Value → option CallRequest;
  exec_cancel_from_value : Value → option ExecCancel;
}.
Definition call_request_keys : list string :=
  ["invocation_id"; "request_id"; "tool"; "args"; "created_at"; "expires_at"; "nonce"; "signature";
   "requesting_agent"; "target_agent"].
Definition exec_cancel_keys : list string := ["invocation_id"; "reason"; "created_at"; "nonce"; "signature"].
(** What decoding is relied on for: a struct reads back from its own JSON.  A [u64] field
    fits and the flattened map holds no field of the struct. *)
Class RequestSerdeLaws `{RequestSerde} : Prop := {
  exec_request_roundtrip r :
    extra_ok exec_request_keys r.(er_extra) → (0 <= r.(er_timeout_ms) <= u64_max)%Z →
    exec_request_from_value (ExecRequest_value r) = Some r;
  call_request_roundtrip r :
    extra_ok call_request_keys r.(cr_extra) → call_request_from_value (CallRequest_value r) = Some r;
  exec_cancel_roundtrip r :
    extra_ok exec_cancel_keys r.(ec_extra) → exec_cancel_from_value (ExecCancel_value r) = Some r;
}.

(** ** Rejections *)

Inductive ExecRejection :=
| XMalformed | XUnsigned | XInvalidSignature | XWrongTarget (target : string) | XUntrustedKey (key_id : string)
| XPolicyDenied (reason : DenyReason) | XUnverifiedDevice | XApprovalDenied | XApprovalExpired | XSandboxRequired
| XEnvOverrideNotAllowed (var : string).
Definition exec_reason (r : ExecRejection) : string :=
  match r with
  | XMalformed => "malformed_request"
  | XUnsigned => "unsigned"
  | XInvalidSignature => "invalid_signature"
  | XWrongTarget _ => "wrong_target"
  | XUntrustedKey _ => "untrusted_key"
  | XPolicyDenied _ => "policy_denied"
  | XUnverifiedDevice => "unverified_device"
  | XApprovalDenied => "approval_denied"
  | XApprovalExpired => "approval_expired"
  | XSandboxRequired => "sandbox_required"
  | XEnvOverrideNotAllowed _ => "env_override_not_allowed"
  end.

Inductive CallRejection :=
| LMalformed | LUnsigned | LInvalidSignature | LUntrustedKey (key_id : string) | LPolicyDenied (reason : DenyReason)
| LUnverifiedDevice | LApprovalDenied | LApprovalExpired.
Definition call_reason (r : CallRejection) : string :=
  match r with
  | LMalformed => "malformed_request"
  | LUnsigned => "unsigned"
  | LInvalidSignature => "invalid_signature"
  | LUntrustedKey _ => "untrusted_key"
  | LPolicyDenied _ => "policy_denied"
  | LUnverifiedDevice => "unverified_device"
  | LApprovalDenied => "approval_denied"
  | LApprovalExpired => "approval_expired"
  end.

Inductive CancelRejection :=
| KMalformed | KUnsigned | KInvalidSignature | KInvocationMismatch (requested : string) | KUntrustedKey (key_id : string)
| KUnauthorized (owner : string).
Definition cancel_reason (r : CancelRejection) : string :=
  match r with
  | KMalformed => "malformed_request"
  | KUnsigned => "unsigned"
  | KInvalidSignature => "invalid_signature"
  | KInvocationMismatch _ => "invocation_mismatch"
  | KUntrustedKey _ => "untrusted_key"
  | KUnauthorized _ => "unauthorized"
  end.

(** ** Gates that only add a denial *)

Definition enforce_verified_device (a : Allowance) (device_verified : option bool) : result unit ExecRejection :=
  if a.(al_require_verified_device) && negb (bool_decide (device_verified = Some true)) then Err XUnverifiedDevice
  else Ok tt.
Definition enforce_verified_device_call (a : Allowance) (device_verified : option bool) : result unit CallRejection :=
  if a.(al_require_verified_device) && negb (bool_decide (device_verified = Some true)) then Err LUnverifiedDevice
  else Ok tt.

Definition sandbox_backend (sandbox : option Sandbox) : Backend :=
  match sandbox with
  | Some Bubblewrap => BackendBubblewrap
  | Some Docker | Some Podman => BackendContainer
  | _ => BackendNone
  end.
Definition check_sandbox_floor (a : Allowance) : result unit unit :=
  if negb (bool_decide (sandbox_backend a.(al_sandbox) = BackendNone)) then Ok tt
  else if a.(al_require_sandbox) then Err tt else Ok tt.
Definition enforce_sandbox_floor (a : Allowance) : result unit ExecRejection :=
  match check_sandbox_floor a with Ok _ => Ok tt | Err _ => Err XSandboxRequired end.

(** The identity a policy is keyed on; [None] is [IdentityMismatch]. *)
Definition policy_identity (requester_matrix_user_id : string) (authenticated_sender : option string) : option string :=
  match authenticated_sender with
  | Some sender => if negb (sender =s requester_matrix_user_id) then None else Some requester_matrix_user_id
  | None => Some requester_matrix_user_id
  end.

(** ** Signature, target, trust, policy *)

(** The three copies of [read_signature] differ in their error type only. *)
Definition read_signature_as {E} (malformed invalid : E) (content : Value) : result (option Signature) E :=
  match content with
  | Object obj =>
      match entry SIGNATURE_FIELD obj with
      | None => Ok None
      | Some Null => Ok None
      | Some value => match signature_from_value value with Some s => Ok (Some s) | None => Err invalid end
      end
  | _ => Err malformed
  end.
Definition read_signature : Value → result (option Signature) ExecRejection :=
  read_signature_as XMalformed XInvalidSignature.
Definition read_call_signature : Value → result (option Signature) CallRejection :=
  read_signature_as LMalformed LInvalidSignature.
Definition read_cancel_signature : Value → result (option Signature) CancelRejection :=
  read_signature_as KMalformed KInvalidSignature.

Section gates.
Context `{Crypto} `{RequestSerde} (regex_new : RegexNew).

(** [signing::verify] with its errors mapped. *)
Definition verify_as {E} (unsigned malformed invalid : E) (key : VerifyingKey) (content : Value) : result unit E :=
  match verify key content with
  | Ok _ => Ok tt
  | Err MissingSignature => Err unsigned
  | Err NotAnObject => Err malformed
  | Err _ => Err invalid
  end.

Definition authorize_exec_request_with_allowance (content : Value) (key : VerifyingKey) (trust : TrustStore)
    (policy : Policy) (room_id requesting_agent local_agent : string) : result (ExecRequest * Allowance) ExecRejection :=
  let? signature := read_signature content in
  let? signature := ok_or signature XUnsigned in
  let? _ := verify_as XUnsigned XMalformed XInvalidSignature key content in
  let? request := ok_or (exec_request_from_value content) XMalformed in
  if negb (request.(er_target_agent) =s local_agent) then Err (XWrongTarget request.(er_target_agent)) else
  if negb (is_key_trusted trust signature.(sig_key_id)) then Err (XUntrustedKey signature.(sig_key_id)) else
  let outcome := evaluate_exec regex_new policy
    (mkExecContext room_id requesting_agent request.(er_command) request.(er_cwd)) in
  match outcome with
  | Allow a => Ok (request, a)
  | Deny reason => Err (XPolicyDenied reason)
  end.
Definition authorize_exec_request (content : Value) (key : VerifyingKey) (trust : TrustStore) (policy : Policy)
    (room_id requesting_agent local_agent : string) : result ExecRequest ExecRejection :=
  let? ra := authorize_exec_request_with_allowance content key trust policy room_id requesting_agent local_agent in
  Ok ra.1.

Definition authorize_call_request_with_allowance (content : Value) (key : VerifyingKey) (trust : TrustStore)
    (policy : Policy) (room_id requesting_agent : string) : result (CallRequest * Allowance) CallRejection :=
  let? signature := read_call_signature content in
  let? signature := ok_or signature LUnsigned in
  let? _ := verify_as LUnsigned LMalformed LInvalidSignature key content in
  let? request := ok_or (call_request_from_value content) LMalformed in
  if negb (is_key_trusted trust signature.(sig_key_id)) then Err (LUntrustedKey signature.(sig_key_id)) else
  match evaluate_call policy (mkCallContext room_id requesting_agent request.(cr_tool)) with
  | Allow a => Ok (request, a)
  | Deny reason => Err (LPolicyDenied reason)
  end.

Definition authorize_exec_cancel (content : Value) (key : VerifyingKey) (trust : TrustStore)
    (invocation : InvocationState) (requesting_agent : string) : result ExecCancel CancelRejection :=
  let? signature := read_cancel_signature content in
  let? signature := ok_or signature KUnsigned in
  let? _ := verify_as KUnsigned KMalformed KInvalidSignature key content in
  let? cancel := ok_or (exec_cancel_from_value content) KMalformed in
  if negb (cancel.(ec_invocation_id) =s invocation.(is_invocation_id)) then
    Err (KInvocationMismatch cancel.(ec_invocation_id)) else
  if negb (is_key_trusted trust signature.(sig_key_id)) then Err (KUntrustedKey signature.(sig_key_id)) else
  if negb (requesting_agent =s invocation.(is_requester)) then Err (KUnauthorized invocation.(is_requester)) else
  Ok cancel.

(** [verifying_key_from_agent_state] with its rejections; [Approval] uses it where they
    are all alike. *)
Definition agent_verifying_key (agent : AgentState) : result VerifyingKey CallRejection :=
  match agent.(as_signing_public_key) with
  | None => Err (LUntrustedKey agent.(as_signing_key_id))
  | Some public_key =>
      let? key := ok_or (decode_verifying_key public_key) LInvalidSignature in
      if negb (key_id_for_verifying_key key =s agent.(as_signing_key_id)) then Err LInvalidSignature else Ok key
  end.

(** What an authorization reads: [read_agent_state] of an agent id, the trust store file,
    the resolved policy, and [sender_verified] of a user id. *)
Record AuthInputs := {
  au_read_agent : string → result (option AgentState) unit;
  au_trust : option TrustStore;
  au_policy : Policy;
  au_sender_verified : string → option bool;
}.

(** The signing key of a requester: its agent state, the key id the request names, the
    published key. *)
Definition authorize_live_exec (inp : AuthInputs) (content : Value) (request : ExecRequest) (room_id : string)
    (authenticated_sender : option string) : result (ExecRequest * Allowance) ExecRejection :=
  match inp.(au_read_agent) request.(er_requesting_agent) with
  | Err _ => Err XMalformed
  | Ok None => Err (XUntrustedKey request.(er_signature).(sig_key_id))
  | Ok (Some requester) =>
      if negb (requester.(as_signing_key_id) =s request.(er_signature).(sig_key_id)) then Err XInvalidSignature else
      match agent_verifying_key requester with
      | Err _ => Err XInvalidSignature
      | Ok key =>
          let trust := default [] inp.(au_trust) in
          let? policy_key := ok_or (policy_identity requester.(as_matrix_user_id) authenticated_sender) XInvalidSignature in
          let? ra := authorize_exec_request_with_allowance content key trust inp.(au_policy) room_id policy_key
            request.(er_target_agent) in
          let '(request, a) := ra in
          let device_verified := inp.(au_sender_verified) requester.(as_matrix_user_id) in
          let? _ := if a.(al_require_verified_device) then enforce_verified_device a device_verified else Ok tt in
          let? _ := enforce_sandbox_floor a in
          match first_disallowed_remote_override request.(er_env) a.(al_env_allowlist) with
          | Some var => Err (XEnvOverrideNotAllowed var)
          | None => Ok (request, a)
          end
      end
  end.

Definition authorize_live_call (inp : AuthInputs) (content : Value) (request : CallRequest) (requesting_agent room_id : string)
    (authenticated_sender : option string) : result (CallRequest * Allowance) CallRejection :=
  match inp.(au_read_agent) requesting_agent with
  | Err _ => Err LMalformed
  | Ok None => Err (LUntrustedKey request.(cr_signature).(sig_key_id))
  | Ok (Some requester) =>
      if negb (requester.(as_signing_key_id) =s request.(cr_signature).(sig_key_id)) then Err LInvalidSignature else
      let? key := agent_verifying_key requester in
      let trust := default [] inp.(au_trust) in
      let? policy_key := ok_or (policy_identity requester.(as_matrix_user_id) authenticated_sender) LInvalidSignature in
      let? ra := authorize_call_request_with_allowance content key trust inp.(au_policy) room_id policy_key in
      let '(request, a) := ra in
      let device_verified := inp.(au_sender_verified) requester.(as_matrix_user_id) in
      let? _ := if a.(al_require_verified_device) then enforce_verified_device_call a device_verified else Ok tt in
      Ok (request, a)
  end.

(** Controls of a running session: the frame's content, the key id it names, the agent that
    started the session. *)
Definition authorize_control_from_states (agents : list AgentState) (requester_agent_id : string) (content : Value)
    (key_id : string) (trust : TrustStore) : result unit unit :=
  match List.find (λ agent, agent.(as_agent_id) =s requester_agent_id) agents with
  | None => Err tt
  | Some agent =>
      if negb (agent.(as_signing_key_id) =s key_id) then Err tt else
      match agent_verifying_key agent with
      | Err _ => Err tt
      | Ok key =>
          match verify key content with
          | Err _ => Err tt
          | Ok _ => if negb (is_key_trusted trust key_id) then Err tt else Ok tt
          end
      end
  end.
(** [authorize_live_control]: [agents] is [read_all_agent_states]. *)
Definition authorize_live_control (agents : option (list AgentState)) (trust : option TrustStore) (content : Value)
    (key_id requester_agent_id : string) : result unit unit :=
  match agents with
  | None => Err tt
  | Some agents => authorize_control_from_states agents requester_agent_id content key_id (default [] trust)
  end.

(** ** Building and signing requests *)

Definition placeholder_signature (key_id : string) : Signature :=
  {| sig_alg := ALG_ED25519; sig_key_id := key_id; sig_sig := "" |}.
Record ExecRequestOptions := {
  eo_target_agent : string;
  eo_requesting_agent : string;
  eo_command : list string;
  eo_cwd : string;
  eo_env : gmap string string;
  eo_stdin : bool;
  eo_stream : bool;
  eo_pty : bool;
  eo_timeout_ms : Z;
  eo_task_id : option string;
}.
(** The struct that is signed, with its signature. *)
Definition exec_request_of (key_id invocation_id request_id nonce created_at expires_at : string) (o : ExecRequestOptions)
    (signature : Signature) : ExecRequest :=
  {| er_invocation_id := invocation_id; er_request_id := request_id; er_target_agent := o.(eo_target_agent);
     er_requesting_agent := o.(eo_requesting_agent); er_command := o.(eo_command); er_cwd := o.(eo_cwd);
     er_env := o.(eo_env); er_stdin := o.(eo_stdin); er_stream := o.(eo_stream); er_pty := o.(eo_pty);
     er_timeout_ms := o.(eo_timeout_ms); er_task_id := o.(eo_task_id); er_created_at := created_at;
     er_expires_at := expires_at; er_nonce := nonce; er_idempotency_key := "exec:" +:+ invocation_id;
     er_signature := signature; er_extra := ∅ |}.
Definition build_signed_exec_request (signing_key : SigningKey)
    (key_id invocation_id request_id nonce created_at expires_at : string) (o : ExecRequestOptions) :
    result Value SignatureError :=
  let request := exec_request_of key_id invocation_id request_id nonce created_at expires_at o
    (placeholder_signature key_id) in
  sign_into signing_key key_id (ExecRequest_value request).

Definition build_signed_call_request_for_target (signing_key : SigningKey)
    (key_id invocation_id request_id nonce created_at expires_at tool : string) (args : Value)
    (requesting_agent target_agent : option string) : result Value SignatureError :=
  let request := {| cr_invocation_id := invocation_id; cr_request_id := request_id; cr_tool := tool; cr_args := args;
    cr_created_at := created_at; cr_expires_at := expires_at; cr_nonce := nonce;
    cr_signature := placeholder_signature key_id; cr_requesting_agent := requesting_agent;
    cr_target_agent := target_agent; cr_extra := ∅ |} in
  sign_into signing_key key_id (CallRequest_value request).

Definition build_signed_exec_stdin (signing_key : SigningKey) (key_id invocation_id data : string) (eof : bool)
    (created_at nonce : string) : result Value SignatureError :=
  sign_into signing_key key_id (ExecStdin_value
    {| es_invocation_id := invocation_id; es_data := b64_encode data; es_eof := eof; es_created_at := created_at;
       es_nonce := nonce; es_signature := placeholder_signature key_id; es_extra := ∅ |}).
Definition build_signed_exec_cancel (signing_key : SigningKey) (key_id invocation_id reason created_at nonce : string) :
    result Value SignatureError :=
  sign_into signing_key key_id (ExecCancel_value
    {| ec_invocation_id := invocation_id; ec_reason := reason; ec_created_at := created_at; ec_nonce := nonce;
       ec_signature := placeholder_signature key_id; ec_extra := ∅ |}).
Record PtyWinsize := { pw_rows : Z; pw_cols : Z; pw_pixel_width : Z; pw_pixel_height : Z }.
Definition build_signed_pty_resize (signing_key : SigningKey) (key_id invocation_id : string) (size : PtyWinsize)
    (created_at nonce : string) : result Value SignatureError :=
  sign_into signing_key key_id (PtyResize_value
    {| pr_invocation_id := invocation_id; pr_rows := size.(pw_rows); pr_cols := size.(pw_cols);
       pr_pixel_width := size.(pw_pixel_width); pr_pixel_height := size.(pw_pixel_height); pr_created_at := created_at;
       pr_nonce := nonce; pr_signature := placeholder_signature key_id; pr_extra := ∅ |}).

(** ** What each gate accepts *)

Lemma agent_verifying_key_Approval agent :
  verifying_key_from_agent_state agent = match agent_verifying_key agent with Ok k => Some k | Err _ => None end.
Proof.
  unfold verifying_key_from_agent_state, agent_verifying_key. destruct (as_signing_public_key agent) as [pk|]; [|done].
  simpl. destruct (decode_verifying_key pk); simpl; [|done]. by destruct (key_id_for_verifying_key _ =s _).
Qed.
Lemma agent_verifying_key_Ok agent key :
  agent_verifying_key agent = Ok key ↔
  ∃ pk, agent.(as_signing_public_key) = Some pk ∧ decode_verifying_key pk = Some key ∧
    key_id_for_verifying_key key = agent.(as_signing_key_id).
Proof.
  unfold agent_verifying_key. destruct (as_signing_public_key agent) as [pk|]; simpl.
  2:{ split; [done|]. by intros (? & ? & _). }
  destruct (decode_verifying_key pk) as [k|] eqn:Ek; simpl.
  2:{ split; [done|]. intros (? & [= <-] & ? & _). congruence. }
  destruct (key_id_for_verifying_key k =s _) eqn:E; simpl.
  - apply str_eqb_eq in E. split; [intros [= <-]; eauto|]. intros (? & [= <-] & ? & _). congruence.
  - apply str_eqb_neq in E. split; [done|]. intros (? & [= <-] & ? & Hk). congruence.
Qed.

Lemma verify_as_Ok {E} (u m i : E) key content : verify_as u m i key content = Ok tt ↔ verify key content = Ok tt.
Proof. unfold verify_as. destruct (verify key content) as [[]|[]]; done. Qed.

(** A content that verifies holds a readable signature. *)
Lemma verify_read_signature {E} (m i : E) key content :
  verify key content = Ok tt → ∃ s, read_signature_as m i content = Ok (Some s) ∧
    (field SIGNATURE_FIELD content ≫= signature_from_value) = Some s.
Proof.
  unfold verify, read_signature_as. destruct content as [| | | | |obj]; try done. simpl.
  destruct (entry SIGNATURE_FIELD obj) as [v|]; simpl; [|done].
  destruct (signature_from_value v) as [s|] eqn:Es; simpl; [|done]. exists s. split; [|done]. by destruct v.
Qed.

(** The value of a request carries the request's own signature. *)
Lemma read_exec_signature r : read_signature (ExecRequest_value r) = Ok (Some r.(er_signature)).
Proof. unfold read_signature, read_signature_as, ExecRequest_value. simpl. by destruct (er_signature r). Qed.
Lemma read_call_request_signature r : read_call_signature (CallRequest_value r) = Ok (Some r.(cr_signature)).
Proof. unfold read_call_signature, read_signature_as, CallRequest_value. simpl. by destruct (cr_signature r). Qed.
Lemma read_exec_cancel_signature r : read_cancel_signature (ExecCancel_value r) = Ok (Some r.(ec_signature)).
Proof. unfold read_cancel_signature, read_signature_as, ExecCancel_value. simpl. by destruct (ec_signature r). Qed.

Lemma policy_identity_Some user sender k :
  policy_identity user sender = Some k ↔ k = user ∧ ∀ s, sender = Some s → s = user.
Proof.
  unfold policy_identity. destruct sender as [s|].
  - destruct (s =s user) eqn:Es; simpl.
    + apply str_eqb_eq in Es as ->. split; [intros [= <-]; split; [done|]; by intros ? [= <-]|]. by intros [-> _].
    + apply str_eqb_neq in Es. split; [done|]. intros [_ Hs]. destruct Es. by apply Hs.
  - split; [by intros [= <-]|]. by intros [-> _].
Qed.
Lemma enforce_verified_device_Ok a dv :
  enforce_verified_device a dv = Ok tt ↔ (a.(al_require_verified_device) = true → dv = Some true).
Proof.
  unfold enforce_verified_device. destruct (al_require_verified_device a); simpl; [|split; done].
  case_bool_decide; simpl; split; try done; intros Hx; by destruct (Hx eq_refl).
Qed.
Lemma enforce_sandbox_floor_Ok a :
  enforce_sandbox_floor a = Ok tt ↔ (a.(al_require_sandbox) = true → sandbox_backend a.(al_sandbox) ≠ BackendNone).
Proof.
  unfold enforce_sandbox_floor, check_sandbox_floor. case_bool_decide as Hb; simpl.
  - destruct (al_require_sandbox a); simpl; split; try done. intros Hx. by destruct (Hx eq_refl).
  - split; done.
Qed.

Lemma enforce_verified_device_Err a dv e :
  enforce_verified_device a dv = Err e → e = XUnverifiedDevice ∧ a.(al_require_verified_device) = true ∧ dv ≠ Some true.
Proof.
  unfold enforce_verified_device. destruct (al_require_verified_device a); [|done].
  case_bool_decide; simpl; [done|]. by intros [= <-].
Qed.
Lemma enforce_sandbox_floor_Err a e :
  enforce_sandbox_floor a = Err e →
  e = XSandboxRequired ∧ a.(al_require_sandbox) = true ∧ sandbox_backend a.(al_sandbox) = BackendNone.
Proof.
  unfold enforce_sandbox_floor, check_sandbox_floor. case_bool_decide; simpl; [|done].
  destruct (al_require_sandbox a); [|done]. by intros [= <-].
Qed.

(** ** The live exec gate *)

(** Every condition under which a live exec request runs. *)
Record live_exec_gates (inp : AuthInputs) (r : ExecRequest) (room_id : string) (sender : option string)
    (requester : AgentState) (key : VerifyingKey) (a : Allowance) : Prop := {
  xg_requester : inp.(au_read_agent) r.(er_requesting_agent) = Ok (Some requester);
  xg_key_id : requester.(as_signing_key_id) = r.(er_signature).(sig_key_id);
  xg_key : agent_verifying_key requester = Ok key;
  xg_sender : ∀ s, sender = Some s → s = requester.(as_matrix_user_id);
  xg_signed : verify key (ExecRequest_value r) = Ok tt;
  xg_trusted : is_key_trusted (default [] inp.(au_trust)) r.(er_signature).(sig_key_id) = true;
  xg_policy : evaluate_exec regex_new inp.(au_policy)
    (mkExecContext room_id requester.(as_matrix_user_id) r.(er_command) r.(er_cwd)) = Allow a;
  xg_device : a.(al_require_verified_device) = true →
    inp.(au_sender_verified) requester.(as_matrix_user_id) = Some true;
  xg_sandbox : a.(al_require_sandbox) = true → sandbox_backend a.(al_sandbox) ≠ BackendNone;
  xg_env : first_disallowed_remote_override r.(er_env) a.(al_env_allowlist) = None;
}.
(** A request as [serde] decodes one. *)
Definition exec_request_wf (r : ExecRequest) : Prop :=
  extra_ok exec_request_keys r.(er_extra) ∧ (0 <= r.(er_timeout_ms) <= u64_max)%Z.

(** What each rejection says of the request; the other reasons are never given. *)
Definition exec_rejection_justified (inp : AuthInputs) (r : ExecRequest) (room_id : string) (sender : option string)
    (e : ExecRejection) : Prop :=
  let agent := inp.(au_read_agent) r.(er_requesting_agent) in
  let key_id := r.(er_signature).(sig_key_id) in
  let outcome req := evaluate_exec regex_new inp.(au_policy)
    (mkExecContext room_id req.(as_matrix_user_id) r.(er_command) r.(er_cwd)) in
  match e with
  | XMalformed => agent = Err tt
  | XUntrustedKey k => k = key_id ∧ (agent = Ok None ∨ is_key_trusted (default [] inp.(au_trust)) key_id = false)
  | XInvalidSignature => ∃ req, agent = Ok (Some req) ∧
      (req.(as_signing_key_id) ≠ key_id ∨ (∀ key, agent_verifying_key req ≠ Ok key) ∨
       (∃ s, sender = Some s ∧ s ≠ req.(as_matrix_user_id)) ∨
       ∃ key, agent_verifying_key req = Ok key ∧ verify key (ExecRequest_value r) ≠ Ok tt)
  | XPolicyDenied reason => ∃ req, agent = Ok (Some req) ∧ outcome req = Deny reason
  | XUnverifiedDevice => ∃ req a, agent = Ok (Some req) ∧ outcome req = Allow a ∧
      a.(al_require_verified_device) = true ∧ inp.(au_sender_verified) req.(as_matrix_user_id) ≠ Some true
  | XSandboxRequired => ∃ req a, agent = Ok (Some req) ∧ outcome req = Allow a ∧
      a.(al_require_sandbox) = true ∧ sandbox_backend a.(al_sandbox) = BackendNone
  | XEnvOverrideNotAllowed var => ∃ req a, agent = Ok (Some req) ∧ outcome req = Allow a ∧
      first_disallowed_remote_override r.(er_env) a.(al_env_allowlist) = Some var
  | XUnsigned | XWrongTarget _ | XApprovalDenied | XApprovalExpired => False
  end.

(** A value with a readable signature field fails to verify only as an invalid one. *)
Lemma verify_as_signed {E} (u m i : E) key es v s :
  entry SIGNATURE_FIELD es = Some v → signature_from_value v = Some s →
  verify_as u m i key (Object es) = match verify key (Object es) with Ok _ => Ok tt | Err _ => Err i end.
Proof.
  intros He Hs. unfold verify_as. destruct (verify key (Object es)) as [[]|e] eqn:Hv; [done|].
  unfold verify in Hv. rewrite He in Hv. cbn [ok_or] in Hv. rewrite Hs in Hv. cbn [ok_or] in Hv.
  unfold signing_bytes, verify_signature in Hv. destruct (to_canonical_bytes json_str _) as [b|e']; [|by injection Hv as <-].
  destruct (sig_alg s =s _); [|by injection Hv as <-]. cbn [negb] in Hv.
  destruct (b64_decode _) as [raw|]; [|by injection Hv as <-]. cbn [ok_or] in Hv.
  destruct (sig_from_slice raw) as [sg|]; [|by injection Hv as <-]. cbn [ok_or] in Hv.
  destruct (ed_verify _ _ _); [done|by injection Hv as <-].
Qed.
Lemma authorize_exec_value `{!RequestSerdeLaws} r key trust policy room_id who local : exec_request_wf r →
  authorize_exec_request_with_allowance (ExecRequest_value r) key trust policy room_id who local =
  match verify key (ExecRequest_value r) with
  | Err _ => Err XInvalidSignature
  | Ok _ =>
      if negb (r.(er_target_agent) =s local) then Err (XWrongTarget r.(er_target_agent)) else
      if negb (is_key_trusted trust r.(er_signature).(sig_key_id)) then Err (XUntrustedKey r.(er_signature).(sig_key_id)) else
      match evaluate_exec regex_new policy (mkExecContext room_id who r.(er_command) r.(er_cwd)) with
      | Allow a => Ok (r, a)
      | Deny reason => Err (XPolicyDenied reason)
      end
  end.
Proof.
  intros [Hx Ht]. unfold authorize_exec_request_with_allowance. rewrite read_exec_signature. cbn [ok_or].
  rewrite exec_request_roundtrip by done. cbn [ok_or]. unfold ExecRequest_value at 1.
  erewrite verify_as_signed; [|reflexivity|apply signature_value_roundtrip].
  fold (ExecRequest_value r). by destruct (verify key (ExecRequest_value r)) as [[]|].
Qed.
Lemma authorize_call_value `{!RequestSerdeLaws} r key trust policy room_id who :
  extra_ok call_request_keys r.(cr_extra) →
  authorize_call_request_with_allowance (CallRequest_value r) key trust policy room_id who =
  match verify key (CallRequest_value r) with
  | Err _ => Err LInvalidSignature
  | Ok _ =>
      if negb (is_key_trusted trust r.(cr_signature).(sig_key_id)) then Err (LUntrustedKey r.(cr_signature).(sig_key_id)) else
      match evaluate_call policy (mkCallContext room_id who r.(cr_tool)) with
      | Allow a => Ok (r, a)
      | Deny reason => Err (LPolicyDenied reason)
      end
  end.
Proof.
  intros Hx. unfold authorize_call_request_with_allowance. rewrite read_call_request_signature. cbn [ok_or].
  rewrite call_request_roundtrip by done. cbn [ok_or]. unfold CallRequest_value at 1.
  erewrite verify_as_signed; [|reflexivity|apply signature_value_roundtrip].
  fold (CallRequest_value r). by destruct (verify key (CallRequest_value r)) as [[]|].
Qed.

Lemma authorize_live_exec_Ok `{!RequestSerdeLaws} inp r room_id sender r' a : exec_request_wf r →
  authorize_live_exec inp (ExecRequest_value r) r room_id sender = Ok (r', a) ↔
  r' = r ∧ ∃ requester key, live_exec_gates inp r room_id sender requester key a.
Proof.
  intros Hwf. unfold authorize_live_exec. split.
  - destruct (au_read_agent _ _) as [[req|]|] eqn:Ha; try done.
    destruct (as_signing_key_id req =s _) eqn:Hk; [|done]. apply str_eqb_eq in Hk. cbn [negb].
    destruct (agent_verifying_key req) as [key|] eqn:Hvk; [|done].
    destruct (policy_identity _ _) as [pk|] eqn:Hp; [|done]. apply policy_identity_Some in Hp as [-> Hs]. cbn [ok_or].
    rewrite authorize_exec_value, str_eqb_refl by done. cbn [negb].
    destruct (verify key _) as [[]|] eqn:Hv; [|done].
    destruct (is_key_trusted _ _) eqn:Ht; [|done]. cbn [negb].
    destruct (evaluate_exec _ _ _) as [a'|] eqn:He; [|done].
    destruct (if al_require_verified_device a' then _ else _) as [[]|] eqn:Hd; [|done].
    destruct (enforce_sandbox_floor a') as [[]|] eqn:Hf; [|done].
    destruct (first_disallowed_remote_override _ _) eqn:Hov; [done|]. intros [= <- <-].
    split; [done|]. exists req, key. split; try done; [|by apply enforce_sandbox_floor_Ok].
    intros Hrv. rewrite Hrv in Hd. by apply enforce_verified_device_Ok in Hd.
  - intros (-> & req & key & [Ha Hk Hvk Hs Hv Ht He Hd Hf Hov]). rewrite Ha, Hk, str_eqb_refl, Hvk. cbn [negb].
    rewrite (proj2 (policy_identity_Some _ _ _) (conj eq_refl Hs)). cbn [ok_or].
    rewrite authorize_exec_value, str_eqb_refl, Hv, Ht, He by done. cbn [negb].
    rewrite (proj2 (enforce_sandbox_floor_Ok _) Hf), Hov.
    destruct (al_require_verified_device a) eqn:Hr; [|done].
    by rewrite (proj2 (enforce_verified_device_Ok _ _)) by (intros _; auto).
Qed.

Lemma authorize_live_exec_Err `{!RequestSerdeLaws} inp r room_id sender e : exec_request_wf r →
  authorize_live_exec inp (ExecRequest_value r) r room_id sender = Err e → exec_rejection_justified inp r room_id sender e.
Proof.
  intros Hwf. unfold authorize_live_exec.
  destruct (au_read_agent _ _) as [[req|]|[]] eqn:Ha; [|intros [= <-]; simpl; auto|by intros [= <-]].
  destruct (as_signing_key_id req =s _) eqn:Hk; cbn [negb].
  2:{ intros [= <-]. apply str_eqb_neq in Hk. exists req. auto. }
  destruct (agent_verifying_key req) as [key|] eqn:Hvk; [|intros [= <-]; exists req; split; [done|]; right; left; congruence].
  destruct (policy_identity _ _) as [pk|] eqn:Hp; cbn [ok_or].
  2:{ intros [= <-]. exists req. split; [done|]. right; right; left. unfold policy_identity in Hp.
      destruct sender as [s|]; [|done]. destruct (s =s _) eqn:Hs; [done|]. apply str_eqb_neq in Hs. eauto. }
  apply policy_identity_Some in Hp as [-> _]. rewrite authorize_exec_value, str_eqb_refl by done. cbn [negb].
  destruct (verify key _) as [[]|] eqn:Hv; [|intros [= <-]; exists req; split; [done|]; right; right; right; exists key; by rewrite Hv].
  destruct (is_key_trusted _ _) eqn:Ht; cbn [negb]; [|intros [= <-]; simpl; auto].
  destruct (evaluate_exec _ _ _) as [a|] eqn:He; [|intros [= <-]; by exists req].
  destruct (if al_require_verified_device a then _ else _) as [[]|] eqn:Hd.
  2:{ destruct (al_require_verified_device a) eqn:Hr; [|done]. apply enforce_verified_device_Err in Hd as (-> & _ & Hd).
      intros [= <-]. by exists req, a. }
  destruct (enforce_sandbox_floor a) as [[]|] eqn:Hf.
  2:{ apply enforce_sandbox_floor_Err in Hf as (-> & ? & ?). intros [= <-]. by exists req, a. }
  destruct (first_disallowed_remote_override _ _) eqn:Hov; [intros [= <-]; by exists req, a|done].
Qed.

(** A live exec request is authorized exactly when its requester has published an agent
    state whose key id the request names and whose public key hashes to that id, the
    request's own bytes verify under that key, the key is locally trusted, the published
    Matrix user is the event's authenticated sender (or the one captured at hold time), the
    policy allows the command and directory for that user in that room, and the device,
    sandbox and environment gates pass; and every rejection states a fact about the
    request, no request being turned away as unsigned, misaddressed or for approval
    here. *)
Theorem live_exec_gate `{!RequestSerdeLaws} inp r room_id sender : exec_request_wf r →
  match authorize_live_exec inp (ExecRequest_value r) r room_id sender with
  | Ok (r', a) => r' = r ∧ ∃ requester key, live_exec_gates inp r room_id sender requester key a
  | Err e => exec_rejection_justified inp r room_id sender e ∧
      ∀ requester key a, ¬ live_exec_gates inp r room_id sender requester key a
  end.
Proof.
  intros Hwf. destruct (authorize_live_exec _ _ _ _ _) as [[r' a]|e] eqn:E.
  - by apply authorize_live_exec_Ok in E.
  - split; [by apply authorize_live_exec_Err|]. intros requester key a Hg.
    rewrite (proj2 (authorize_live_exec_Ok inp r room_id sender r a Hwf)) in E; [done|eauto].
Qed.

(** ** The live call gate *)

Record live_call_gates (inp : AuthInputs) (r : CallRequest) (who room_id : string) (sender : option string)
    (requester : AgentState) (key : VerifyingKey) (a : Allowance) : Prop := {
  lg_requester : inp.(au_read_agent) who = Ok (Some requester);
  lg_key_id : requester.(as_signing_key_id) = r.(cr_signature).(sig_key_id);
  lg_key : agent_verifying_key requester = Ok key;
  lg_sender : ∀ s, sender = Some s → s = requester.(as_matrix_user_id);
  lg_signed : verify key (CallRequest_value r) = Ok tt;
  lg_trusted : is_key_trusted (default [] inp.(au_trust)) r.(cr_signature).(sig_key_id) = true;
  lg_policy : evaluate_call inp.(au_policy) (mkCallContext room_id requester.(as_matrix_user_id) r.(cr_tool)) = Allow a;
  lg_device : a.(al_require_verified_device) = true →
    inp.(au_sender_verified) requester.(as_matrix_user_id) = Some true;
}.
Lemma authorize_live_call_Ok `{!RequestSerdeLaws} inp r who room_id sender r' a :
  extra_ok call_request_keys r.(cr_extra) →
  authorize_live_call inp (CallRequest_value r) r who room_id sender = Ok (r', a) ↔
  r' = r ∧ ∃ requester key, live_call_gates inp r who room_id sender requester key a.
Proof.
  intros Hwf. unfold authorize_live_call. split.
  - destruct (au_read_agent _ _) as [[req|]|] eqn:Ha; try done.
    destruct (as_signing_key_id req =s _) eqn:Hk; [|done]. apply str_eqb_eq in Hk. cbn [negb].
    destruct (agent_verifying_key req) as [key|] eqn:Hvk; [|done].
    destruct (policy_identity _ _) as [pk|] eqn:Hp; [|done]. apply policy_identity_Some in Hp as [-> Hs]. cbn [ok_or].
    rewrite authorize_call_value by done. destruct (verify key _) as [[]|] eqn:Hv; [|done].
    destruct (is_key_trusted _ _) eqn:Ht; [|done]. cbn [negb].
    destruct (evaluate_call _ _) as [a'|] eqn:He; [|done]. unfold enforce_verified_device_call.
    destruct (al_require_verified_device a') eqn:Hr; simpl.
    + case_bool_decide; simpl; [|done]. intros [= <- <-]. split; [done|]. by exists req, key.
    + intros [= <- <-]. split; [done|]. exists req, key. split; try done. by rewrite Hr.
  - intros (-> & req & key & [Ha Hk Hvk Hs Hv Ht He Hd]). rewrite Ha, Hk, str_eqb_refl, Hvk. cbn [negb].
    rewrite (proj2 (policy_identity_Some _ _ _) (conj eq_refl Hs)). cbn [ok_or].
    rewrite authorize_call_value, Hv, Ht, He by done. cbn [negb]. unfold enforce_verified_device_call.
    destruct (al_require_verified_device a) eqn:Hr; [|done]. simpl. by rewrite bool_decide_eq_true_2 by auto.
Qed.

(** ** What is built is accepted *)

Lemma float_free_strings l : float_free (strings_value l) = true.
Proof. unfold strings_value. simpl. rewrite forallb_map_elem. by intros v [? [-> _]]%list_elem_of_fmap. Qed.
Lemma float_free_string_map m : float_free (string_map_value m) = true.
Proof. unfold string_map_value. simpl. rewrite forallb_map_elem. by intros v [? [-> _]]%list_elem_of_fmap. Qed.

(** Signing a struct replaces its placeholder. *)
Lemma build_signed_exec_request_Ok `{!CryptoLaws} sk key_id inv rid n c e o :
  ∃ s, s.(sig_key_id) = key_id ∧
    build_signed_exec_request sk key_id inv rid n c e o = Ok (ExecRequest_value (exec_request_of key_id inv rid n c e o s)) ∧
    verify (verifying_key sk) (ExecRequest_value (exec_request_of key_id inv rid n c e o s)) = Ok tt.
Proof.
  set (v := ExecRequest_value (exec_request_of key_id inv rid n c e o (placeholder_signature key_id))).
  assert (is_ok (sign_into sk key_id v) = true) as Hok.
  { apply sign_into_is_ok. eexists. split; [reflexivity|]. intros f x Hx _. simpl in Hx.
    repeat (apply elem_of_cons in Hx as [[= -> ->]|Hx]); try done.
    - apply float_free_strings.
    - apply float_free_string_map.
    - by destruct (eo_task_id o).
    - by apply not_elem_of_nil in Hx. }
  unfold sign_into, sign in Hok. destruct (signing_bytes v) as [b|] eqn:Hb; [|done].
  exists {| sig_alg := ALG_ED25519; sig_key_id := key_id; sig_sig := b64_encode (sig_to_bytes (ed_sign sk b)) |}.
  split; [done|].
  assert (build_signed_exec_request sk key_id inv rid n c e o =
    Ok (ExecRequest_value (exec_request_of key_id inv rid n c e o
      {| sig_alg := ALG_ED25519; sig_key_id := key_id; sig_sig := b64_encode (sig_to_bytes (ed_sign sk b)) |}))) as Hs.
  { unfold build_signed_exec_request, sign_into, sign. fold v. rewrite Hb. reflexivity. }
  split; [exact Hs|]. unfold build_signed_exec_request in Hs. by apply sign_into_verify in Hs as [? _].
Qed.
Lemma decode_encode_verifying_key `{!CryptoLaws} k : decode_verifying_key (encode_verifying_key k) = Some k.
Proof.
  unfold decode_verifying_key, encode_verifying_key. rewrite b64_nopad_roundtrip. simpl.
  by rewrite vk_bytes_length, vk_bytes_roundtrip.
Qed.

(** A request built and signed by a requester is authorized by every daemon that reads the
    requester's published key, trusts it, and whose policy and additive gates admit the
    request for the requester's user: signing on one side and the gate on the other fit,
    with no condition on identifiers, times or the environment beyond the screen. *)
Theorem built_exec_authorized `{!CryptoLaws, !RequestSerdeLaws} sk inv rid n c e o :
  let key_id := key_id_for_verifying_key (verifying_key sk) in
  (0 <= o.(eo_timeout_ms) <= u64_max)%Z →
  ∃ s, let r := exec_request_of key_id inv rid n c e o s in
    build_signed_exec_request sk key_id inv rid n c e o = Ok (ExecRequest_value r) ∧
    exec_request_from_value (ExecRequest_value r) = Some r ∧
    ∀ inp room_id requester a,
      inp.(au_read_agent) o.(eo_requesting_agent) = Ok (Some requester) →
      requester.(as_signing_key_id) = key_id →
      requester.(as_signing_public_key) = Some (encode_verifying_key (verifying_key sk)) →
      is_key_trusted (default [] inp.(au_trust)) key_id = true →
      evaluate_exec regex_new inp.(au_policy)
        (mkExecContext room_id requester.(as_matrix_user_id) o.(eo_command) o.(eo_cwd)) = Allow a →
      (a.(al_require_verified_device) = true → inp.(au_sender_verified) requester.(as_matrix_user_id) = Some true) →
      (a.(al_require_sandbox) = true → sandbox_backend a.(al_sandbox) ≠ BackendNone) →
      first_disallowed_remote_override o.(eo_env) a.(al_env_allowlist) = None →
      authorize_live_exec inp (ExecRequest_value r) r room_id (Some requester.(as_matrix_user_id)) = Ok (r, a).
Proof.
  intros key_id Hto. destruct (build_signed_exec_request_Ok sk key_id inv rid n c e o) as (s & Hk & Hb & Hv).
  exists s. assert (exec_request_wf (exec_request_of key_id inv rid n c e o s)) as Hwf.
  { split; [intros k _; apply lookup_empty|done]. }
  split; [exact Hb|]. split; [exact (exec_request_roundtrip _ (proj1 Hwf) (proj2 Hwf))|].
  intros inp room_id requester a Ha Hid Hpk Ht He Hd Hf Hov. apply authorize_live_exec_Ok; [exact Hwf|].
  split; [reflexivity|]. exists requester, (verifying_key sk). constructor; try assumption.
  - by rewrite Hid, <- Hk.
  - apply agent_verifying_key_Ok. eexists. split_and!; [done|apply decode_encode_verifying_key|done].
  - by intros ? [= <-].
  - cbn [er_signature exec_request_of]. by rewrite Hk.
Qed.

(** ** Controls *)

(** Every condition under which a control frame reaches a session. *)
Record control_gates (agents : list AgentState) (trust : TrustStore) (content : Value) (key_id who : string)
    (agent : AgentState) (key : VerifyingKey) : Prop := {
  cg_agent : agent ∈ agents;
  cg_id : agent.(as_agent_id) = who;
  cg_key_id : agent.(as_signing_key_id) = key_id;
  cg_key : agent_verifying_key agent = Ok key;
  cg_signed : verify key content = Ok tt;
  cg_trusted : is_key_trusted trust key_id = true;
}.
Lemma authorize_live_control_Ok agents trust content key_id who :
  authorize_live_control agents trust content key_id who = Ok tt →
  ∃ l agent key, agents = Some l ∧ control_gates l (default [] trust) content key_id who agent key.
Proof.
  unfold authorize_live_control, authorize_control_from_states. destruct agents as [l|]; [|done].
  destruct (List.find _ l) as [agent|] eqn:Hf; [|done]. apply List.find_some in Hf as [Hin Hid%str_eqb_eq].
  destruct (as_signing_key_id agent =s key_id) eqn:Hk; [|done]. apply str_eqb_eq in Hk. cbn [negb].
  destruct (agent_verifying_key agent) as [key|] eqn:Hvk; [|done].
  destruct (verify key content) as [[]|] eqn:Hv; [|done]. destruct (is_key_trusted _ _) eqn:Ht; [|done].
  intros _. exists l, agent, key. split; [done|]. split; try done. by apply list_elem_of_In.
Qed.
End gates.

(** ** A concrete decoder *)

(** What [serde] derives for a struct with a flattened map: the named fields, an absent or
    null [Option] being [None], and every other entry kept. *)
Definition str_of (v : Value) : option string := match v with Str s => Some s | _ => None end.
Definition bool_of (v : Value) : option bool := match v with Bool b => Some b | _ => None end.
Definition u64_of (v : Value) : option Z :=
  match v with Num (NumInt n) => if ((0 <=? n) && (n <=? u64_max))%Z then Some n else None | _ => None end.
Definition strings_of (v : Value) : option (list string) := match v with Array l => mapM str_of l | _ => None end.
Definition string_map_of (v : Value) : option (gmap string string) :=
  match v with
  | Object es => list_to_map <$> mapM (λ kv, s ← str_of kv.2; Some (kv.1, s)) es
  | _ => None
  end.
Definition opt_str_of (v : option Value) : option (option string) :=
  match v with None | Some Null => Some None | Some (Str s) => Some (Some s) | Some _ => None end.
Definition rest_of (known : list string) (es : list (string * Value)) : Extra :=
  list_to_map (List.filter (λ kv, negb (existsb (str_eqb kv.1) known)) es).

Definition derived_exec_request (v : Value) : option ExecRequest :=
  es ← (match v with Object es => Some es | _ => None end);
  let get k := entry k es in
  invocation_id ← get "invocation_id" ≫= str_of; request_id ← get "request_id" ≫= str_of;
  target_agent ← get "target_agent" ≫= str_of; requesting_agent ← get "requesting_agent" ≫= str_of;
  command ← get "command" ≫= strings_of; cwd ← get "cwd" ≫= str_of; env ← get "env" ≫= string_map_of;
  stdin ← get "stdin" ≫= bool_of; stream ← get "stream" ≫= bool_of; pty ← get "pty" ≫= bool_of;
  timeout_ms ← get "timeout_ms" ≫= u64_of; task_id ← opt_str_of (get "task_id");
  created_at ← get "created_at" ≫= str_of; expires_at ← get "expires_at" ≫= str_of;
  nonce ← get "nonce" ≫= str_of; idempotency_key ← get "idempotency_key" ≫= str_of;
  signature ← get "signature" ≫= signature_from_value;
  Some {| er_invocation_id := invocation_id; er_request_id := request_id; er_target_agent := target_agent;
    er_requesting_agent := requesting_agent; er_command := command; er_cwd := cwd; er_env := env; er_stdin := stdin;
    er_stream := stream; er_pty := pty; er_timeout_ms := timeout_ms; er_task_id := task_id; er_created_at := created_at;
    er_expires_at := expires_at; er_nonce := nonce; er_idempotency_key := idempotency_key; er_signature := signature;
    er_extra := rest_of exec_request_keys es |}.
Definition derived_call_request (v : Value) : option CallRequest :=
  es ← (match v with Object es => Some es | _ => None end);
  let get k := entry k es in
  invocation_id ← get "invocation_id" ≫= str_of; request_id ← get "request_id" ≫= str_of; tool ← get "tool" ≫= str_of;
  args ← get "args"; created_at ← get "created_at" ≫= str_of; expires_at ← get "expires_at" ≫= str_of;
  nonce ← get "nonce" ≫= str_of; signature ← get "signature" ≫= signature_from_value;
  requesting_agent ← opt_str_of (get "requesting_agent"); target_agent ← opt_str_of (get "target_agent");
  Some {| cr_invocation_id := invocation_id; cr_request_id := request_id; cr_tool := tool; cr_args := args;
    cr_created_at := created_at; cr_expires_at := expires_at; cr_nonce := nonce; cr_signature := signature;
    cr_requesting_agent := requesting_agent; cr_target_agent := target_agent; cr_extra := rest_of call_request_keys es |}.
Definition derived_exec_cancel (v : Value) : option ExecCancel :=
  es ← (match v with Object es => Some es | _ => None end);
  let get k := entry k es in
  invocation_id ← get "invocation_id" ≫= str_of; reason ← get "reason" ≫= str_of;
  created_at ← get "created_at" ≫= str_of; nonce ← get "nonce" ≫= str_of;
  signature ← get "signature" ≫= signature_from_value;
  Some {| ec_invocation_id := invocation_id; ec_reason := reason; ec_created_at := created_at; ec_nonce := nonce;
    ec_signature := signature; ec_extra := rest_of exec_cancel_keys es |}.

Lemma rest_of_extra known l extra :
  forallb (λ k, existsb (str_eqb k) known) (l.*1) = true → extra_ok known extra →
  rest_of known (l ++ btree_iter extra) = extra.
Proof.
  intros Hl Hx. unfold rest_of. rewrite List.filter_app.
  assert (List.filter (λ kv : string * Value, negb (existsb (str_eqb kv.1) known)) l = []) as ->.
  { induction l as [|[k v] l IH]; [done|]. simpl in *. apply andb_true_iff in Hl as [-> Hl]. by apply IH. }
  assert (∀ m, (∀ kv, kv ∈ m → extra !! kv.1 = Some kv.2) →
    List.filter (λ kv : string * Value, negb (existsb (str_eqb kv.1) known)) m = m) as Hf.
  { induction m as [|[k v] m IH]; intros Hm; [done|]. simpl.
    destruct (existsb (str_eqb k) known) eqn:He; simpl.
    - apply existsb_str_In in He. specialize (Hm (k, v) ltac:(by left)). simpl in Hm.
      by rewrite Hx in Hm.
    - f_equal. apply IH. intros kv Hkv. apply Hm. by right. }
  rewrite Hf by (intros [k v] Hkv; by apply elem_of_btree_iter). simpl. apply list_to_map_btree_iter.
Qed.
Lemma strings_of_value l : strings_of (strings_value l) = Some l.
Proof. unfold strings_of, strings_value. induction l as [|s l IH]; [done|]. simpl in *. by rewrite IH. Qed.
Lemma string_map_of_value m : string_map_of (string_map_value m) = Some m.
Proof.
  unfold string_map_of, string_map_value.
  assert (∀ l : list (string * string),
    mapM (λ kv : string * Value, s ← str_of kv.2; Some (kv.1, s)) (map (λ kv, (kv.1, Str kv.2)) l) = Some l) as ->.
  { induction l as [|[k s] l IH]; [done|]. simpl in *. by rewrite IH. }
  simpl. f_equal. apply list_to_map_btree_iter.
Qed.

#[local] Instance derived_serde : RequestSerde := {|
  exec_request_from_value := derived_exec_request;
  call_request_from_value := derived_call_request;
  exec_cancel_from_value := derived_exec_cancel;
|}.
Lemma u64_of_value n : (0 <= n <= u64_max)%Z → u64_of (Num (NumInt n)) = Some n.
Proof. intros Hn. simpl. by rewrite (proj2 (Z.leb_le 0 _)), (proj2 (Z.leb_le _ u64_max)) by lia. Qed.
Lemma opt_str_of_value o : opt_str_of (Some (opt_value Str o)) = Some o.
Proof. by destruct o. Qed.
#[local] Instance derived_serde_laws : RequestSerdeLaws.
Proof.
  split.
  - intros r Hx Ht. transitivity (
      command ← strings_of (strings_value r.(er_command)); env ← string_map_of (string_map_value r.(er_env));
      timeout_ms ← u64_of (Num (NumInt r.(er_timeout_ms))); task_id ← opt_str_of (Some (opt_value Str r.(er_task_id)));
      signature ← signature_from_value (Signature_value r.(er_signature));
      Some {| er_invocation_id := r.(er_invocation_id); er_request_id := r.(er_request_id);
        er_target_agent := r.(er_target_agent); er_requesting_agent := r.(er_requesting_agent); er_command := command;
        er_cwd := r.(er_cwd); er_env := env; er_stdin := r.(er_stdin); er_stream := r.(er_stream); er_pty := r.(er_pty);
        er_timeout_ms := timeout_ms; er_task_id := task_id; er_created_at := r.(er_created_at);
        er_expires_at := r.(er_expires_at); er_nonce := r.(er_nonce); er_idempotency_key := r.(er_idempotency_key);
        er_signature := signature;
        er_extra := rest_of exec_request_keys (match ExecRequest_value r with Object es => es | _ => [] end) |});
      [reflexivity|].
    unfold ExecRequest_value. rewrite rest_of_extra by (reflexivity || exact Hx).
    rewrite strings_of_value, string_map_of_value, (u64_of_value _ Ht), opt_str_of_value, signature_value_roundtrip.
    by destruct r.
  - intros r Hx. set (es := match CallRequest_value r with Object es => es | _ => [] end). transitivity (
      signature ← signature_from_value (Signature_value r.(cr_signature));
      requesting_agent ← opt_str_of (entry "requesting_agent" es); target_agent ← opt_str_of (entry "target_agent" es);
      Some {| cr_invocation_id := r.(cr_invocation_id); cr_request_id := r.(cr_request_id); cr_tool := r.(cr_tool);
        cr_args := r.(cr_args); cr_created_at := r.(cr_created_at); cr_expires_at := r.(cr_expires_at);
        cr_nonce := r.(cr_nonce); cr_signature := signature; cr_requesting_agent := requesting_agent;
        cr_target_agent := target_agent; cr_extra := rest_of call_request_keys es |}); [reflexivity|].
    assert (r.(cr_extra) !! "requesting_agent" = None) as H1 by (by apply Hx, existsb_str_In).
    assert (r.(cr_extra) !! "target_agent" = None) as H2 by (by apply Hx, existsb_str_In).
    assert (entry "requesting_agent" es = Str <$> r.(cr_requesting_agent)) as ->.
    { subst es. unfold CallRequest_value. rewrite entry_app_r by (by apply (bool_decide_unpack _)).
      destruct (cr_requesting_agent r); [done|]. cbn [opt_field].
      rewrite app_nil_l, entry_app_r by (destruct (cr_target_agent r); by apply (bool_decide_unpack _)).
      by rewrite entry_extra, H1. }
    assert (entry "target_agent" es = Str <$> r.(cr_target_agent)) as ->.
    { subst es. unfold CallRequest_value. rewrite !entry_app_r
        by (try destruct (cr_requesting_agent r); by apply (bool_decide_unpack _)).
      destruct (cr_target_agent r); [done|]. cbn [opt_field]. by rewrite app_nil_l, entry_extra, H2. }
    subst es. unfold CallRequest_value. rewrite !app_assoc, signature_value_roundtrip.
    rewrite rest_of_extra by (exact Hx || by destruct (cr_requesting_agent r), (cr_target_agent r)).
    by destruct r as [? ? ? ? ? ? ? ? [] []].
  - intros r Hx. transitivity (
      signature ← signature_from_value (Signature_value r.(ec_signature));
      Some {| ec_invocation_id := r.(ec_invocation_id); ec_reason := r.(ec_reason); ec_created_at := r.(ec_created_at);
        ec_nonce := r.(ec_nonce); ec_signature := signature;
        ec_extra := rest_of exec_cancel_keys (match ExecCancel_value r with Object es => es | _ => [] end) |});
      [reflexivity|].
    unfold ExecCancel_value. rewrite rest_of_extra by (reflexivity || exact Hx).
    rewrite signature_value_roundtrip. by destruct r.
Qed.

(** ** Witnesses *)

Module Sample.
#[local] Existing Instance Signing.Toy.toy_crypto.
Definition key_id : string := key_id_for_verifying_key (H := Signing.Toy.toy_crypto) tt.
Definition agent (id user : string) : AgentState :=
  {| as_agent_id := id; as_kind := "pi"; as_matrix_user_id := user; as_device_id := "D";
     as_signing_key_id := key_id; as_signing_public_key := Some Signing.Toy.key_bytes; as_status := "active";
     as_capabilities := []; as_tools := []; as_workspace := {| aw_cwd := "/"; aw_project_id := ""; aw_git_commit := "" |};
     as_load := {| al_running_invocations := 0; al_max_invocations := 1 |}; as_last_seen_ts := 0;
     as_state_rev := 1; as_extra := ∅ |}.
Definition requester : AgentState := agent "claude-dev" "@claude:matrix.org".
Definition trust : TrustStore := (approve [] 0 "claude-dev" key_id None None None).1.
Definition inputs : AuthInputs :=
  {| au_read_agent := λ id, Ok (if id =s "claude-dev" then Some requester
                                else if id =s "local" then Some (agent "local" "@me:matrix.org") else None);
     au_trust := Some trust; au_policy := PolicyEngine.Sample.policy; au_sender_verified := λ _, None |}.
Definition options : ExecRequestOptions :=
  {| eo_target_agent := "local"; eo_requesting_agent := "claude-dev"; eo_command := ["cargo"; "build"];
     eo_cwd := "/home/me/code/project"; eo_env := {["LANG" := "C"]}; eo_stdin := true; eo_stream := true; eo_pty := false;
     eo_timeout_ms := 1000; eo_task_id := None |}.
(** A request as it is built and signed. *)
Definition request (inv nonce : string) : ExecRequest :=
  let unsigned := exec_request_of key_id inv ("req-" +:+ inv) nonce "2026-01-01T00:00:00Z" "2026-01-02T00:00:00Z" options
    (placeholder_signature key_id) in
  match sign (H := Signing.Toy.toy_crypto) tt key_id (ExecRequest_value unsigned) with
  | Ok s => exec_request_of key_id inv ("req-" +:+ inv) nonce "2026-01-01T00:00:00Z" "2026-01-02T00:00:00Z" options s
  | Err _ => unsigned
  end.
Definition allowance : Allowance := allowance_for PolicyEngine.Sample.policy PolicyEngine.Sample.room PolicyEngine.Sample.agent.
End Sample.

Section auth_witnesses.
#[local] Existing Instance Signing.Toy.toy_crypto.
#[local] Existing Instance Signing.Toy.toy_laws.
Lemma sample_wf inv n : exec_request_wf (Sample.request inv n).
Proof.
  unfold Sample.request. destruct (sign _ _ _) as [s|];
    (split; [intros k _; apply lookup_empty|unfold u64_max; simpl; lia]).
Qed.

Lemma live_exec_gate_witness :
  ∃ requester key, live_exec_gates PolicyEngine.Sample.literal_regex Sample.inputs (Sample.request "inv" "n") "!abc:matrix.org"
    (Some "@claude:matrix.org") requester key Sample.allowance.
Proof.
  pose proof (live_exec_gate PolicyEngine.Sample.literal_regex Sample.inputs (Sample.request "inv" "n") "!abc:matrix.org"
    (Some "@claude:matrix.org") (sample_wf "inv" "n")) as Hg.
  assert (authorize_live_exec PolicyEngine.Sample.literal_regex Sample.inputs (ExecRequest_value (Sample.request "inv" "n"))
    (Sample.request "inv" "n") "!abc:matrix.org" (Some "@claude:matrix.org") = Ok (Sample.request "inv" "n", Sample.allowance))
    as E by (vm_compute; reflexivity).
  rewrite E in Hg. exact (proj2 Hg).
Defined.
Lemma built_exec_authorized_witness :
  ∃ s, let r := exec_request_of Sample.key_id "inv" "req" "n" "c" "e" Sample.options s in
    authorize_live_exec PolicyEngine.Sample.literal_regex Sample.inputs (ExecRequest_value r) r "!abc:matrix.org"
      (Some "@claude:matrix.org") = Ok (r, Sample.allowance).
Proof.
  assert (0 <= Sample.options.(eo_timeout_ms) <= u64_max)%Z as Ht by (split; vm_compute; discriminate).
  destruct (built_exec_authorized (H := Signing.Toy.toy_crypto) PolicyEngine.Sample.literal_regex tt "inv" "req" "n" "c" "e" Sample.options Ht)
    as (s & _ & _ & Hs).
  exists s. apply (Hs Sample.inputs "!abc:matrix.org" Sample.requester Sample.allowance); 
    (reflexivity || (vm_compute; reflexivity) || (intros Hr; vm_compute in Hr; discriminate Hr)).
Defined.
End auth_witnesses.
