(* ===== verification/ResultPlane.v ===== *)
(** * The result plane

    Models [crates/mx-agent-daemon/src/result_verify.rs], the registry of
    [exec_subscribers.rs], the forwarding of routed result events in [sync.rs] and the
    wait for a call's response in [call.rs].  A subscription's channel is part of the
    registry's state: it exists while its receiver does and holds what was not read yet.
    What forwarding reads (the agent states of a room, the trust store) is its input. *)
From Stdlib Require Import ZArith.
From stdpp Require Import gmap strings list.
From S2P Require Import Prelude RustStr CanonicalJson Schema Signing Trust PolicyFile PolicyEngine Time Replay NonceGuard EventRouter Room Approval LiveAuth.

(** ** Verification *)

Inductive ResultVerifyError := RUnresolvableKey | RUnsigned | RKeyIdMismatch | RUntrustedKey | RInvalid.
Definition result_verify_reason (e : ResultVerifyError) : string :=
  match e with
  | RUnresolvableKey => "unresolvable_executor_key"
  | RUnsigned => "unsigned"
  | RKeyIdMismatch => "key_id_mismatch"
  | RUntrustedKey => "untrusted_key"
  | RInvalid => "invalid_signature"
  end.

Definition as_str (v : Value) : option string := match v with Str s => Some s | _ => None end.
Definition embedded_key_id (value : Value) : option string :=
  signature ← field SIGNATURE_FIELD value; key_id ← field "key_id" signature; as_str key_id.

(** ** Forwarded events *)

Inductive ExecSubscriptionKey := KInvocation (id : string) | KRequest (id : string).
#[export] Instance ExecSubscriptionKey_eq_dec : EqDecision ExecSubscriptionKey.
Proof. solve_decision. Defined.
#[export] Instance ExecSubscriptionKey_countable : Countable ExecSubscriptionKey.
Proof.
  refine (inj_countable' (λ k, match k with KInvocation id => inl id | KRequest id => inr id end)
    (λ s, match s with inl id => KInvocation id | inr id => KRequest id end) _); by intros [].
Defined.

Inductive ForwardedExecEvent :=
| FwStreamChunk (ev : StreamChunk)
| FwStreamArtifact (ev : StreamArtifact)
| FwExecRejected (ev : ExecRejected)
| FwExecFinished (ev : ExecFinished)
| FwExecCancelled (ev : ExecCancelled)
| FwCallResponse (ev : CallResponse).
Definition event_key (e : ForwardedExecEvent) : ExecSubscriptionKey :=
  match e with
  | FwStreamChunk ev => KInvocation ev.(sc_invocation_id)
  | FwStreamArtifact ev => KInvocation ev.(sa_invocation_id)
  | FwExecRejected ev => KInvocation ev.(erj_invocation_id)
  | FwExecFinished ev => KInvocation ev.(ef_invocation_id)
  | FwExecCancelled ev => KInvocation ev.(ecd_invocation_id)
  | FwCallResponse ev => KRequest ev.(cresp_request_id)
  end.
(** The event as [serde] writes it. *)
Definition event_value (e : ForwardedExecEvent) : Value :=
  match e with
  | FwStreamChunk ev => StreamChunk_value ev
  | FwStreamArtifact ev => StreamArtifact_value ev
  | FwExecRejected ev => ExecRejected_value ev
  | FwExecFinished ev => ExecFinished_value ev
  | FwExecCancelled ev => ExecCancelled_value ev
  | FwCallResponse ev => CallResponse_value ev
  end.

(** The arms of [handle_routed_events] that forward. *)
Definition forwarded_of (r : RoutedEvent) : option ForwardedExecEvent :=
  match r with
  | RStreamChunk ev => Some (FwStreamChunk ev)
  | RStreamArtifact ev => Some (FwStreamArtifact ev)
  | RExecRejected ev => Some (FwExecRejected ev)
  | RExecFinished ev => Some (FwExecFinished ev)
  | RExecCancelled ev => Some (FwExecCancelled ev)
  | RCallResponse ev => Some (FwCallResponse ev)
  | _ => None
  end.

(** ** The registry *)

Record ForwardStats := { fs_delivered : nat; fs_pruned : nat; fs_filtered : nat }.
Definition no_stats : ForwardStats := {| fs_delivered := 0; fs_pruned := 0; fs_filtered := 0 |}.

Record Subscriber := { sub_id : Z; sub_expected_sender : string }.
Record Registry := {
  rg_next_id : Z;
  rg_subscribers : gmap ExecSubscriptionKey (list Subscriber);
  (** The channels whose receiver is alive, with what is still unread. *)
  rg_channels : gmap Z (list ForwardedExecEvent);
}.
Definition registry_new : Registry := {| rg_next_id := 0; rg_subscribers := ∅; rg_channels := ∅ |}.
Record ExecSubscription := { es_key : ExecSubscriptionKey; es_id : Z }.

(** [saturating_add(1)] on [u64]. *)
Definition next_u64 (n : Z) : Z := Z.min (n + 1) u64_max.
Definition subscribers_of (r : Registry) (key : ExecSubscriptionKey) : list Subscriber := unwrap_or (r.(rg_subscribers) !! key) [].

Definition subscribe (key : ExecSubscriptionKey) (expected_sender : string) (r : Registry) : ExecSubscription * Registry :=
  let id := r.(rg_next_id) in
  ({| es_key := key; es_id := id |},
   {| rg_next_id := next_u64 id;
      rg_subscribers := <[key := subscribers_of r key ++ [{| sub_id := id; sub_expected_sender := expected_sender |}]]> r.(rg_subscribers);
      rg_channels := <[id := []]> r.(rg_channels) |}).

(** [list.retain(..)] of [publish]. *)
Fixpoint publish_to (event : ForwardedExecEvent) (sender : string) (l : list Subscriber) (chans : gmap Z (list ForwardedExecEvent))
    (stats : ForwardStats) : list Subscriber * gmap Z (list ForwardedExecEvent) * ForwardStats :=
  match l with
  | [] => ([], chans, stats)
  | sub :: l =>
    if negb (sub.(sub_expected_sender) =s sender) then
      let '(l, chans, stats) := publish_to event sender l chans
        {| fs_delivered := stats.(fs_delivered); fs_pruned := stats.(fs_pruned); fs_filtered := S stats.(fs_filtered) |} in
      (sub :: l, chans, stats)
    else match chans !! sub.(sub_id) with
    | Some queue =>
      let '(l, chans, stats) := publish_to event sender l (<[sub.(sub_id) := queue ++ [event]]> chans)
        {| fs_delivered := S stats.(fs_delivered); fs_pruned := stats.(fs_pruned); fs_filtered := stats.(fs_filtered) |} in
      (sub :: l, chans, stats)
    | None =>
      publish_to event sender l chans
        {| fs_delivered := stats.(fs_delivered); fs_pruned := S stats.(fs_pruned); fs_filtered := stats.(fs_filtered) |}
    end
  end.
(** A list of subscribers, dropped from the map when it is empty. *)
Definition set_list (key : ExecSubscriptionKey) (l : list Subscriber) (m : gmap ExecSubscriptionKey (list Subscriber)) :
    gmap ExecSubscriptionKey (list Subscriber) :=
  match l with [] => delete key m | _ => <[key := l]> m end.
Definition publish (event : ForwardedExecEvent) (sender : string) (r : Registry) : ForwardStats * Registry :=
  let key := event_key event in
  match r.(rg_subscribers) !! key with
  | None => (no_stats, r)
  | Some l =>
    let '(l, chans, stats) := publish_to event sender l r.(rg_channels) no_stats in
    (stats, {| rg_next_id := r.(rg_next_id); rg_subscribers := set_list key l r.(rg_subscribers); rg_channels := chans |})
  end.
Definition subscriber_count (key : ExecSubscriptionKey) (r : Registry) : nat := length (subscribers_of r key).
Definition total_subscribers (r : Registry) : nat := list_sum (map (λ kv, length kv.2) (map_to_list r.(rg_subscribers))).

Definition try_recv (sub : ExecSubscription) (r : Registry) : option ForwardedExecEvent * Registry :=
  match r.(rg_channels) !! sub.(es_id) with
  | Some (event :: queue) =>
    (Some event, {| rg_next_id := r.(rg_next_id); rg_subscribers := r.(rg_subscribers); rg_channels := <[sub.(es_id) := queue]> r.(rg_channels) |})
  | _ => (None, r)
  end.
(** [Drop for ExecSubscription], and the receiver goes with it. *)
Definition drop_subscription (sub : ExecSubscription) (r : Registry) : Registry :=
  {| rg_next_id := r.(rg_next_id);
     rg_subscribers :=
       match r.(rg_subscribers) !! sub.(es_key) with
       | Some l => set_list sub.(es_key) (List.filter (λ s, negb (s.(sub_id) =? sub.(es_id))%Z) l) r.(rg_subscribers)
       | None => r.(rg_subscribers)
       end;
     rg_channels := delete sub.(es_id) r.(rg_channels) |}.

(** ** Forwarding *)

Definition read_all_agent_states (raws : list (StateEvent AgentState)) : result (list AgentState) WorkspaceError :=
  read_contents raws.

(** [fe_agents]: the agent state events of a room, [None] when the room or they cannot be
    had. *)
Record ForwardEnv := { fe_agents : string → option (list (StateEvent AgentState)); fe_trust : option TrustStore }.

Section forwarding.
Context `{Crypto}.

(** [verify_result_signature], of the event's JSON. *)
Definition verify_result_signature (value : Value) (agent_state : AgentState) (trust : TrustStore) : result unit ResultVerifyError :=
  match agent_verifying_key agent_state with
  | Err _ => Err RUnresolvableKey
  | Ok verifying_key =>
    match verify verifying_key value with
    | Err MissingSignature => Err RUnsigned
    | Err _ => Err RInvalid
    | Ok _ =>
      match embedded_key_id value with
      | None => Err RInvalid
      | Some key_id =>
        if negb (key_id =s agent_state.(as_signing_key_id)) then Err RKeyIdMismatch
        else if negb (is_key_trusted trust key_id) then Err RUntrustedKey
        else Ok tt
      end
    end
  end.

Definition executor_state (env : ForwardEnv) (room_id user : string) : option AgentState :=
  raws ← env.(fe_agents) room_id;
  match read_all_agent_states raws with
  | Ok agents => List.find (λ agent, agent.(as_matrix_user_id) =s user) agents
  | Err _ => None
  end.
Definition verify_forwarded_event (env : ForwardEnv) (meta : EventMeta) (event : ForwardedExecEvent) : result unit ResultVerifyError :=
  match executor_state env meta.(em_room_id) meta.(em_sender) with
  | None => Err RUnresolvableKey
  | Some agent_state => verify_result_signature (event_value event) agent_state (unwrap_or env.(fe_trust) [])
  end.
Definition publish_forwarded (env : ForwardEnv) (meta : EventMeta) (event : ForwardedExecEvent) (r : Registry) : Registry :=
  match verify_forwarded_event env meta event with
  | Ok _ => snd (publish event meta.(em_sender) r)
  | Err _ => r
  end.

(** ** Waiting for a response *)

Definition CALL_RESPONSE : string := "com.mxagent.call.response.v1".
Context (call_response_from_value : Value → option CallResponse).

Definition verify_call_response_signature (env : ForwardEnv) (event : IncomingEvent) (expected_sender : string) : result unit string :=
  match call_response_from_value event.(ie_content) with
  | None => Err "malformed"
  | Some response =>
    match executor_state env event.(ie_room_id) expected_sender with
    | None => Err (result_verify_reason RUnresolvableKey)
    | Some agent_state =>
      match verify_result_signature (CallResponse_value response) agent_state (unwrap_or env.(fe_trust) []) with
      | Ok _ => Ok tt
      | Err e => Err (result_verify_reason e)
      end
    end
  end.
(** The events of one sync. *)
Fixpoint scan_call_responses (env : ForwardEnv) (request_id expected_sender : string) (events : list IncomingEvent) : option CallResponse :=
  match events with
  | [] => None
  | event :: events =>
    if negb (event.(ie_event_type) =s CALL_RESPONSE) then scan_call_responses env request_id expected_sender events
    else if negb (event.(ie_sender) =s expected_sender) then scan_call_responses env request_id expected_sender events
    else match verify_call_response_signature env event expected_sender with
    | Err _ => scan_call_responses env request_id expected_sender events
    | Ok _ =>
      match call_response_from_value event.(ie_content) with
      | Some response =>
        if response.(cresp_request_id) =s request_id then Some response
        else scan_call_responses env request_id expected_sender events
      | None => scan_call_responses env request_id expected_sender events
      end
    end
  end.
(** [syncs]: the syncs that complete before the deadline, each with what was readable
    then, or the error of one that failed. *)
Fixpoint wait_for_call_response (request_id expected_sender : string) (syncs : list (result (ForwardEnv * list IncomingEvent) string)) :
    result CallResponse string :=
  match syncs with
  | [] => Err "timed out waiting for call response"
  | Err e :: _ => Err e
  | Ok (env, events) :: syncs =>
    match scan_call_responses env request_id expected_sender events with
    | Some response => Ok response
    | None => wait_for_call_response request_id expected_sender syncs
    end
  end.
End forwarding.

(** ** What a subscription receives *)

(** The operations on the registry, by the sync loop and by the waiting clients. *)
Inductive RegistryOp :=
| OpSubscribe (key : ExecSubscriptionKey) (expected_sender : string)
| OpForward (env : ForwardEnv) (meta : EventMeta) (event : ForwardedExecEvent)
| OpRecv (sub : ExecSubscription)
| OpDrop (sub : ExecSubscription).

Section delivery.
Context `{Crypto}.

Definition apply_op (op : RegistryOp) (r : Registry) : Registry :=
  match op with
  | OpSubscribe key sender => snd (subscribe key sender r)
  | OpForward env meta event => publish_forwarded env meta event r
  | OpRecv sub => snd (try_recv sub r)
  | OpDrop sub => drop_subscription sub r
  end.
(** What the receiver of subscription [id] reads. *)
Definition op_reads (id : Z) (op : RegistryOp) (r : Registry) : list ForwardedExecEvent :=
  match op with
  | OpRecv sub => if (sub.(es_id) =? id)%Z then option_list (fst (try_recv sub r)) else []
  | _ => []
  end.
Fixpoint apply_ops (ops : list RegistryOp) (r : Registry) : Registry :=
  match ops with [] => r | op :: ops => apply_ops ops (apply_op op r) end.
Fixpoint ops_read (id : Z) (ops : list RegistryOp) (r : Registry) : list ForwardedExecEvent :=
  match ops with [] => [] | op :: ops => op_reads id op r ++ ops_read id ops (apply_op op r) end.

(** The abstract specification: a subscription is a log of the events forwarded since it
    was made, for its key, from its executor, with a valid signature. *)
Definition delivers (key : ExecSubscriptionKey) (sender : string) (op : RegistryOp) : option ForwardedExecEvent :=
  match op with
  | OpForward env meta event =>
    if bool_decide (event_key event = key) && (meta.(em_sender) =s sender) && is_ok (verify_forwarded_event env meta event)
    then Some event else None
  | _ => None
  end.

Lemma subscribers_of_set r key l k next chans :
  subscribers_of {| rg_next_id := next; rg_subscribers := set_list key l r.(rg_subscribers); rg_channels := chans |} k
  = if bool_decide (key = k) then l else subscribers_of r k.
Proof.
  unfold subscribers_of, set_list. simpl. case_bool_decide as E; [subst|].
  - destruct l; [by rewrite lookup_delete_eq|by rewrite lookup_insert_eq].
  - destruct l; [by rewrite lookup_delete_ne|by rewrite lookup_insert_ne].
Qed.

Definition with_id (i : Z) (l : list Subscriber) : list Subscriber := List.filter (λ s, (s.(sub_id) =? i)%Z) l.

(** Subscription [i] is registered once, under its key, and its receiver is alive. *)
Record registered (i : Z) (key : ExecSubscriptionKey) (sender : string) (queue : list ForwardedExecEvent) (r : Registry) : Prop := {
  rg_here : with_id i (subscribers_of r key) = [{| sub_id := i; sub_expected_sender := sender |}];
  rg_only k : k ≠ key → with_id i (subscribers_of r k) = [];
  rg_queue : r.(rg_channels) !! i = Some queue;
  rg_old : (i < r.(rg_next_id))%Z;
  rg_small : (i < u64_max)%Z;
}.

Lemma publish_to_spec event sender i l : ∀ chans stats l' chans' stats' q,
  publish_to event sender l chans stats = (l', chans', stats') → chans !! i = Some q →
  with_id i l' = with_id i l ∧
  chans' !! i = Some (q ++ map (λ _, event) (List.filter (λ s, s.(sub_expected_sender) =s sender) (with_id i l))).
Proof.
  induction l as [|s l IH]; intros chans stats l' chans' stats' q; cbn [publish_to].
  { intros [= <- <- <-] Hq. simpl. by rewrite app_nil_r. }
  destruct (sub_expected_sender s =s sender) eqn:Es; cbn [negb].
  - destruct (chans !! sub_id s) as [q0|] eqn:Eq.
    + destruct (publish_to _ _ _ _ _) as [[l1 c1] s1] eqn:E. intros [= <- <- <-] Hq. unfold with_id in *. cbn [List.filter].
      destruct (Z.eqb_spec (sub_id s) i) as [<-|Hne].
      * rewrite Eq in Hq. injection Hq as ->. apply IH with (q := q ++ [event]) in E as [-> ->]; [|by rewrite lookup_insert_eq].
        cbn [List.filter map]. rewrite Es. split; [done|]. by rewrite <- app_assoc.
      * eapply IH in E; [exact E|]. by rewrite lookup_insert_ne.
    + intros E Hq. unfold with_id in *. cbn [List.filter]. destruct (Z.eqb_spec (sub_id s) i) as [<-|Hne]; [congruence|].
      eapply IH; [exact E|done].
  - destruct (publish_to _ _ _ _ _) as [[l1 c1] s1] eqn:E. intros [= <- <- <-] Hq. unfold with_id in *. cbn [List.filter].
    eapply IH in E as [E1 E2]; [|exact Hq]. destruct (Z.eqb_spec (sub_id s) i); [|done].
    rewrite E1. split; [done|]. cbn [List.filter]. by rewrite Es, E2.
Qed.

Lemma publish_registered i key sender q event u r :
  registered i key sender q r →
  registered i key sender (q ++ (if bool_decide (event_key event = key) && (u =s sender) then [event] else [])) (snd (publish event u r)).
Proof.
  intros [Hh Ho Hq Hn Hs]. unfold publish. destruct (rg_subscribers r !! event_key event) as [l|] eqn:El.
  2: { assert (bool_decide (event_key event = key) = false) as ->.
       { apply bool_decide_eq_false. intros E. unfold subscribers_of in Hh. by rewrite <- E, El in Hh. }
       simpl. rewrite app_nil_r. done. }
  assert (subscribers_of r (event_key event) = l) as Hl by (unfold subscribers_of; by rewrite El).
  destruct (publish_to _ _ _ _ _) as [[l' c'] st'] eqn:E. destruct (publish_to_spec _ _ i _ _ _ _ _ _ _ E Hq) as [Hw Hc]. simpl.
  split; try done.
  - rewrite subscribers_of_set. case_bool_decide as Ek; [|done]. by rewrite Hw, <- Hl, Ek.
  - intros k Hk. rewrite subscribers_of_set. case_bool_decide as Ek; [|by apply Ho]. by rewrite Hw, <- Hl, Ek, Ho.
  - simpl. rewrite Hc. do 2 f_equal. rewrite <- Hl. case_bool_decide as Ek; simpl.
    + rewrite Ek, Hh. simpl. unfold str_eqb. rewrite (bool_decide_ext (sender = u) (u = sender)) by naive_solver.
      by case_bool_decide.
    + by rewrite Ho.
Qed.

Lemma with_id_app i l l' : with_id i (l ++ l') = with_id i l ++ with_id i l'.
Proof. apply List.filter_app. Qed.
Lemma with_id_filter i j l : i ≠ j → with_id i (List.filter (λ s, negb (s.(sub_id) =? j)%Z) l) = with_id i l.
Proof.
  intros Hij. induction l as [|s l IH]; [done|]. unfold with_id in *. simpl.
  destruct (Z.eqb_spec (sub_id s) j); simpl; destruct (Z.eqb_spec (sub_id s) i); rewrite IH; done || congruence.
Qed.

(** One operation: what is read and what is queued grow by what the operation delivers. *)
Lemma apply_op_registered i key sender q op r :
  registered i key sender q r → (∀ sub, op = OpDrop sub → sub.(es_id) ≠ i) →
  ∃ q', registered i key sender q' (apply_op op r) ∧ op_reads i op r ++ q' = q ++ option_list (delivers key sender op).
Proof.
  intros Hr Hd. destruct op as [k s|env meta event|sub|sub]; simpl.
  - exists q. rewrite app_nil_r. split; [|done]. destruct Hr as [Hh Ho Hq Hn Hs]. unfold subscribe. simpl.
    assert (∀ k', with_id i (subscribers_of {| rg_next_id := next_u64 (rg_next_id r);
      rg_subscribers := <[k := subscribers_of r k ++ [{| sub_id := rg_next_id r; sub_expected_sender := s |}]]> (rg_subscribers r);
      rg_channels := <[rg_next_id r := []]> (rg_channels r) |} k') = with_id i (subscribers_of r k')) as Hw.
    { intros k'. unfold subscribers_of at 1. simpl. destruct (decide (k = k')) as [->|Hne]; [|by rewrite lookup_insert_ne].
      rewrite lookup_insert_eq. simpl. rewrite with_id_app. unfold with_id at 2. simpl.
      destruct (Z.eqb_spec (rg_next_id r) i); [lia|]. by rewrite app_nil_r. }
    split; simpl; [by rewrite Hw|intros; rewrite Hw; by apply Ho|by rewrite lookup_insert_ne by lia|unfold next_u64; lia|done].
  - unfold publish_forwarded. destruct (verify_forwarded_event env meta event) as [[]|].
    + eexists. split; [by apply publish_registered|]. simpl. rewrite andb_true_r. by destruct (_ && _).
    + exists q. simpl. rewrite andb_false_r. by rewrite app_nil_r.
  - destruct Hr as [Hh Ho Hq Hn Hs]. unfold try_recv. rewrite app_nil_r. destruct (Z.eqb_spec (es_id sub) i) as [E|E].
    + rewrite E, Hq. destruct q as [|e q]; [by exists []|]. exists q. simpl. split; [|done]. split; try done. simpl. by rewrite lookup_insert_eq.
    + exists q. split; [|done]. destruct (rg_channels r !! es_id sub) as [[|e q1]|]; [done| |done]. split; try done.
      simpl. by rewrite lookup_insert_ne.
  - specialize (Hd sub eq_refl). exists q. rewrite app_nil_r. split; [|done]. destruct Hr as [Hh Ho Hq Hn Hs]. unfold drop_subscription.
    assert (∀ k, with_id i (subscribers_of (drop_subscription sub r) k) = with_id i (subscribers_of r k)) as Hw.
    { intros k. unfold drop_subscription. destruct (rg_subscribers r !! es_key sub) as [l|] eqn:El; [|done].
      rewrite subscribers_of_set. case_bool_decide as Ek; [|done]. rewrite with_id_filter by done.
      unfold subscribers_of. by rewrite <- Ek, El. }
    split; simpl; [rewrite <- Hh; apply Hw|intros; rewrite <- (Ho k) by done; apply Hw|by rewrite lookup_delete_ne|done|done].
Qed.

(** Ids are handed out once. *)
Definition ids_below (r : Registry) : Prop :=
  (∀ k s, s ∈ subscribers_of r k → (s.(sub_id) < r.(rg_next_id))%Z) ∧ (∀ i, is_Some (r.(rg_channels) !! i) → (i < r.(rg_next_id))%Z).

Lemma publish_to_sub event sender l : ∀ chans stats l' chans' stats',
  publish_to event sender l chans stats = (l', chans', stats') →
  (∀ s, s ∈ l' → s ∈ l) ∧ (∀ i, is_Some (chans' !! i) → is_Some (chans !! i)).
Proof.
  induction l as [|s l IH]; intros chans stats l' chans' stats'; cbn [publish_to]; [by intros [= <- <- <-]|].
  destruct (negb _); [|destruct (chans !! sub_id s) as [q|] eqn:Eq].
  - destruct (publish_to _ _ _ _ _) as [[l1 c1] s1] eqn:E. intros [= <- <- <-]. apply IH in E as [Hl Hc].
    split; [|done]. intros x. rewrite !elem_of_cons. naive_solver.
  - destruct (publish_to _ _ _ _ _) as [[l1 c1] s1] eqn:E. intros [= <- <- <-]. apply IH in E as [Hl Hc].
    split; [intros x; rewrite !elem_of_cons; naive_solver|]. intros i [Hi|[_ Hi]]%Hc%lookup_insert_is_Some; [by subst|done].
  - intros E. apply IH in E as [Hl Hc]. split; [|done]. intros x. rewrite elem_of_cons. auto.
Qed.
Lemma apply_op_ids op r :
  ids_below r → (r.(rg_next_id) < u64_max)%Z → ids_below (apply_op op r) ∧ (r.(rg_next_id) ≤ (apply_op op r).(rg_next_id) ≤ r.(rg_next_id) + 1)%Z.
Proof.
  intros [Hs Hc] Hn. destruct op as [k s|env meta event|sub|sub]; simpl.
  - assert (next_u64 (rg_next_id r) = rg_next_id r + 1)%Z as E by (unfold next_u64; lia).
    split; [|rewrite E; lia]. unfold subscribe. simpl. rewrite E. split; simpl.
    + intros k' x. unfold subscribers_of at 1. simpl. destruct (decide (k = k')) as [->|Hne].
      * rewrite lookup_insert_eq. simpl. rewrite elem_of_app, list_elem_of_singleton. intros [Hx| ->]; [apply Hs in Hx|simpl]; lia.
      * rewrite lookup_insert_ne by done. intros Hx. specialize (Hs k' x Hx). lia.
    + intros i [<-|[_ Hi]]%lookup_insert_is_Some; [lia|]. apply Hc in Hi. lia.
  - unfold publish_forwarded. destruct (verify_forwarded_event _ _ _); [|split; [done|lia]]. unfold publish.
    destruct (rg_subscribers r !! event_key event) as [l|] eqn:El; [|split; [done|simpl; lia]].
    destruct (publish_to _ _ _ _ _) as [[l' c'] st'] eqn:E. apply publish_to_sub in E as [Hl Hch]. simpl.
    split; [|lia]. split; simpl.
    + intros k x. rewrite subscribers_of_set. case_bool_decide as Ek; [|apply Hs]. intros Hx%Hl. apply (Hs k). unfold subscribers_of. by rewrite <- Ek, El.
    + intros i Hi%Hch. auto.
  - unfold try_recv. destruct (rg_channels r !! es_id sub) as [[|e q]|] eqn:Eq; simpl; split; try done; try lia. split; [done|].
    simpl. intros i [<-|[_ Hi]]%lookup_insert_is_Some; auto.
  - split; [|lia]. unfold drop_subscription. split; simpl.
    + intros k x. destruct (rg_subscribers r !! es_key sub) as [l|] eqn:El; [|apply Hs].
      rewrite subscribers_of_set. case_bool_decide as Ek; [|apply Hs]. rewrite list_elem_of_In, filter_In, <- list_elem_of_In.
      intros [Hx _]. apply (Hs k). unfold subscribers_of. by rewrite <- Ek, El.
    + intros i Hi. apply Hc. destruct (decide (es_id sub = i)) as [<-|Hne]; [rewrite lookup_delete_eq in Hi; by destruct Hi|].
      by rewrite lookup_delete_ne in Hi.
Qed.
Lemma apply_ops_ids ops : ∀ r,
  ids_below r → (r.(rg_next_id) + Z.of_nat (length ops) < u64_max)%Z →
  ids_below (apply_ops ops r) ∧ ((apply_ops ops r).(rg_next_id) ≤ r.(rg_next_id) + Z.of_nat (length ops))%Z.
Proof.
  induction ops as [|op ops IH]; intros r Hr Hn; cbn [apply_ops length] in *; [split; [done|lia]|].
  destruct (apply_op_ids op r Hr ltac:(lia)) as [H1 H2]. destruct (IH _ H1 ltac:(lia)). split; [done|lia].
Qed.
Lemma with_id_fresh r k : ids_below r → with_id r.(rg_next_id) (subscribers_of r k) = [].
Proof.
  intros [Hs _]. unfold with_id. specialize (Hs k). induction (subscribers_of r k) as [|s l IH]; [done|]. simpl.
  destruct (Z.eqb_spec (sub_id s) (rg_next_id r)) as [E|_].
  - specialize (Hs s ltac:(left)). lia.
  - apply IH. intros x Hx. apply Hs. by right.
Qed.
Lemma subscribe_registered key sender r sub r' :
  ids_below r → (r.(rg_next_id) < u64_max)%Z → subscribe key sender r = (sub, r') → registered sub.(es_id) key sender [] r'.
Proof.
  intros Hr Hn [= <- <-]. split; simpl; [| |by rewrite lookup_insert_eq|unfold next_u64; lia|done].
  - unfold subscribers_of at 1. simpl. rewrite lookup_insert_eq. simpl. rewrite with_id_app, with_id_fresh by done. unfold with_id. simpl.
    by rewrite Z.eqb_refl.
  - intros k Hk. unfold subscribers_of. simpl. rewrite lookup_insert_ne by done. by apply with_id_fresh.
Qed.
Lemma apply_ops_registered i key sender ops : ∀ r q,
  registered i key sender q r → (∀ sub, OpDrop sub ∈ ops → sub.(es_id) ≠ i) →
  ∃ q', registered i key sender q' (apply_ops ops r) ∧ ops_read i ops r ++ q' = q ++ omap (delivers key sender) ops.
Proof.
  induction ops as [|op ops IH]; intros r q Hr Hd; [exists q; simpl; by rewrite app_nil_r|]. cbn [apply_ops ops_read].
  destruct (apply_op_registered i key sender q op r Hr) as (q1 & H1 & E1); [intros sub ->; apply Hd; by left|].
  destruct (IH _ _ H1) as (q2 & H2 & E2); [intros; apply Hd; by right|]. exists q2. split; [done|].
  rewrite <- app_assoc, E2, app_assoc, E1, <- app_assoc. f_equal. simpl. by destruct (delivers key sender op).
Qed.

(** C9: a subscription behaves as a log: from the moment it is made until it is dropped, whatever
    the sync loop and the other clients do, what its holder has read and what waits for
    it are together exactly the events that were forwarded for its key, from the executor it was
    pinned to and with a signature that verifies, each once and in order. *)
Theorem subscription_refines_log before key sender sub r after :
  (Z.of_nat (length before) < u64_max)%Z →
  subscribe key sender (apply_ops before registry_new) = (sub, r) →
  (∀ s, OpDrop s ∈ after → s.(es_id) ≠ sub.(es_id)) →
  ∃ unread, (apply_ops after r).(rg_channels) !! sub.(es_id) = Some unread ∧
    ops_read sub.(es_id) after r ++ unread = omap (delivers key sender) after.
Proof.
  intros Hlen Hsub Hd.
  destruct (apply_ops_ids before registry_new) as [Hids Hn]; [|simpl; lia|].
  { split; [intros k s Hs; by apply not_elem_of_nil in Hs|]. intros i Hi. simpl in Hi. rewrite lookup_empty in Hi. by destruct Hi. }
  simpl in Hn. pose proof (subscribe_registered _ _ _ _ _ Hids ltac:(lia) Hsub) as Hr.
  destruct (apply_ops_registered _ _ _ after _ _ Hr Hd) as (q & Hq & E). exists q. split; [apply Hq|exact E].
Qed.

(** ** Who signed what is forwarded *)

Lemma sign_into_key_id sk id v value : sign_into sk id v = Ok value → embedded_key_id value = Some id.
Proof.
  unfold sign_into, sign. destruct (signing_bytes v); [|done]. destruct v as [| | | | |es]; try done. intros [= <-].
  unfold embedded_key_id, field. by rewrite entry_map_insert.
Qed.

(** What [verify_result_signature] says. *)
Definition verdict_explained (value : Value) (agent : AgentState) (trust : TrustStore) (r : result unit ResultVerifyError) : Prop :=
  match r with
  | Ok _ => ∃ key, agent_verifying_key agent = Ok key ∧ verify key value = Ok tt ∧
              embedded_key_id value = Some agent.(as_signing_key_id) ∧ is_key_trusted trust agent.(as_signing_key_id) = true
  | Err RUnresolvableKey => ∀ key, agent_verifying_key agent ≠ Ok key
  | Err RUnsigned => ∃ key, agent_verifying_key agent = Ok key ∧ verify key value = Err MissingSignature
  | Err RInvalid => ∃ key, agent_verifying_key agent = Ok key ∧ (verify key value ≠ Ok tt ∨ embedded_key_id value = None)
  | Err RKeyIdMismatch => ∃ key, agent_verifying_key agent = Ok key ∧ verify key value = Ok tt ∧
              embedded_key_id value ≠ Some agent.(as_signing_key_id)
  | Err RUntrustedKey => is_key_trusted trust agent.(as_signing_key_id) = false
  end.
Lemma verify_result_explained value agent trust : verdict_explained value agent trust (verify_result_signature value agent trust).
Proof.
  unfold verify_result_signature. destruct (agent_verifying_key agent) as [key|e] eqn:Ek; [|intros k; simpl; congruence].
  destruct (verify key value) as [[]|e] eqn:Ev.
  - destruct (embedded_key_id value) as [id|] eqn:Ei; [|simpl; eauto].
    destruct (id =s as_signing_key_id agent) eqn:Eid; cbn [negb]; [apply str_eqb_eq in Eid as ->|].
    + destruct (is_key_trusted trust _) eqn:Et; simpl; eauto 6.
    + simpl. apply str_eqb_neq in Eid. exists key. rewrite Ei. split_and!; [done|done|congruence].
  - destruct e; simpl; exists key; rewrite ?Ev; eauto; split; try done; by left.
Qed.
End delivery.

Section authentic.
Context `{Crypto}.

Definition published (env : ForwardEnv) (room : string) (agents : list AgentState) : Prop :=
  ∃ raws, env.(fe_agents) room = Some raws ∧ read_all_agent_states raws = Ok agents.
(** The result was signed with the key that the executor publishes and this host trusts. *)
Definition authentic (env : ForwardEnv) (room user : string) (value : Value) : Prop :=
  ∃ agents agent key,
    published env room agents ∧ List.find (λ a, a.(as_matrix_user_id) =s user) agents = Some agent ∧
    agent_verifying_key agent = Ok key ∧ verify key value = Ok tt ∧
    embedded_key_id value = Some agent.(as_signing_key_id) ∧
    is_key_trusted (unwrap_or env.(fe_trust) []) agent.(as_signing_key_id) = true.

Lemma verify_result_Ok value agent trust :
  verify_result_signature value agent trust = Ok tt ↔
  ∃ key, agent_verifying_key agent = Ok key ∧ verify key value = Ok tt ∧
    embedded_key_id value = Some agent.(as_signing_key_id) ∧ is_key_trusted trust agent.(as_signing_key_id) = true.
Proof.
  split.
  - intros E. pose proof (verify_result_explained value agent trust) as Hx. by rewrite E in Hx.
  - intros (key & Hk & Hv & Hi & Ht). unfold verify_result_signature. by rewrite Hk, Hv, Hi, str_eqb_refl, Ht.
Qed.
Lemma executor_state_Some env room user agent :
  executor_state env room user = Some agent ↔
  ∃ agents, published env room agents ∧ List.find (λ a, a.(as_matrix_user_id) =s user) agents = Some agent.
Proof.
  unfold executor_state, published. rewrite bind_Some. split.
  - intros (raws & Hr & Hf). destruct (read_all_agent_states raws) as [agents|] eqn:E; [|done]. eauto.
  - intros (agents & (raws & Hr & E) & Hf). exists raws. by rewrite E.
Qed.
Lemma verify_forwarded_authentic env meta event :
  verify_forwarded_event env meta event = Ok tt ↔ authentic env meta.(em_room_id) meta.(em_sender) (event_value event).
Proof.
  unfold verify_forwarded_event, authentic. destruct (executor_state env _ _) as [agent|] eqn:E.
  - rewrite verify_result_Ok. apply executor_state_Some in E as (agents & Ha & Hf). split.
    + intros (key & ?). exists agents, agent, key. naive_solver.
    + intros (agents' & agent' & key & Ha' & Hf' & ?). destruct Ha as (raws & Hr & He), Ha' as (raws' & Hr' & He').
      rewrite Hr in Hr'. injection Hr' as <-. rewrite He in He'. injection He' as <-. rewrite Hf in Hf'. injection Hf' as <-. eauto.
  - split; [done|]. intros (agents & agent & key & Ha & Hf & _). assert (executor_state env (em_room_id meta) (em_sender meta) = Some agent); [|congruence].
    apply executor_state_Some. eauto.
Qed.

Context (call_response_from_value : Value → option CallResponse).
Lemma verify_call_authentic env event user response :
  call_response_from_value event.(ie_content) = Some response →
  verify_call_response_signature call_response_from_value env event user = Ok tt →
  authentic env event.(ie_room_id) user (CallResponse_value response).
Proof.
  intros Hr. unfold verify_call_response_signature. rewrite Hr.
  destruct (executor_state env _ _) as [agent|] eqn:E; [|done]. apply executor_state_Some in E as (agents & Ha & Hf).
  destruct (verify_result_signature _ _ _) as [[]|] eqn:Ev; [|done]. intros _. apply verify_result_Ok in Ev as (key & ?).
  exists agents, agent, key. naive_solver.
Qed.
(** Each room names at most one agent for the user. *)
Definition single (env : ForwardEnv) (user : string) : Prop :=
  ∀ room agents a b, published env room agents → a ∈ agents → b ∈ agents →
    a.(as_matrix_user_id) = user → b.(as_matrix_user_id) = user → a = b.
(** The value is signed with the key that the user's agent publishes and this host trusts. *)
Definition executor_signed (env : ForwardEnv) (room user : string) (value : Value) : Prop :=
  ∃ agents agent key,
    published env room agents ∧ agent ∈ agents ∧ agent.(as_matrix_user_id) = user ∧
    agent_verifying_key agent = Ok key ∧ verify key value = Ok tt ∧
    embedded_key_id value = Some agent.(as_signing_key_id) ∧
    is_key_trusted (unwrap_or env.(fe_trust) []) agent.(as_signing_key_id) = true.
Lemma authentic_single env room user value : single env user → authentic env room user value ↔ executor_signed env room user value.
Proof.
  intros Hone. split.
  - intros (agents & agent & key & Hp & Hf & ?). apply List.find_some in Hf as [Hin Hu].
    exists agents, agent, key. split_and!; [done|by apply list_elem_of_In|by apply str_eqb_eq|..]; naive_solver.
  - intros (agents & agent & key & Hp & Hin & Hu & ?). exists agents, agent, key. split_and!; [done| |naive_solver..].
    destruct (List.find (λ a, as_matrix_user_id a =s user) agents) as [a|] eqn:Hf.
    + apply List.find_some in Hf as [Ha%list_elem_of_In Hau%str_eqb_eq]. f_equal. by eapply Hone.
    + eapply List.find_none in Hf; [|by apply list_elem_of_In]. by rewrite Hu, str_eqb_refl in Hf.
Qed.

(** An event that answers a call: a response of the expected sender for that request, signed
    in the sense of [signed]. *)
Definition answers_call (signed : ForwardEnv → string → string → Value → Prop) (env : ForwardEnv) (id user : string)
    (event : IncomingEvent) (response : CallResponse) : Prop :=
  event.(ie_event_type) = CALL_RESPONSE ∧ event.(ie_sender) = user ∧
  call_response_from_value event.(ie_content) = Some response ∧ response.(cresp_request_id) = id ∧
  signed env event.(ie_room_id) user (CallResponse_value response).
Lemma scan_call_Some env id user events response :
  scan_call_responses call_response_from_value env id user events = Some response →
  ∃ event, event ∈ events ∧ answers_call authentic env id user event response.
Proof.
  induction events as [|e events IH]; [done|]. cbn [scan_call_responses]. intros Hs.
  assert (scan_call_responses call_response_from_value env id user events = Some response →
    ∃ event, event ∈ e :: events ∧ answers_call authentic env id user event response) as Hlater.
  { intros Hl. destruct (IH Hl) as (event & Hin & ?). exists event. split; [by right|done]. }
  destruct (ie_event_type e =s CALL_RESPONSE) eqn:Et; cbn [negb] in Hs; [|auto].
  destruct (ie_sender e =s user) eqn:Eu; cbn [negb] in Hs; [|auto].
  destruct (verify_call_response_signature _ env e user) as [[]|] eqn:Ev; [|auto].
  destruct (call_response_from_value (ie_content e)) as [r|] eqn:Er; [|auto].
  destruct (cresp_request_id r =s id) eqn:Ei; [|auto]. injection Hs as <-. clear IH Hlater.
  apply str_eqb_eq in Et, Eu, Ei. exists e. split; [by left|]. split_and!; try done. by apply verify_call_authentic.
Qed.
Lemma answers_call_verifies env id user event response : answers_call authentic env id user event response →
  verify_call_response_signature call_response_from_value env event user = Ok tt.
Proof.
  intros (_ & _ & Hr & _ & agents & agent & key & Ha & Hf & Hv).
  unfold verify_call_response_signature. rewrite Hr, (proj2 (executor_state_Some _ _ _ agent)); [|eauto].
  by rewrite (proj2 (verify_result_Ok _ _ _)) by eauto.
Qed.
Lemma scan_call_finds env id user events event response : event ∈ events →
  answers_call authentic env id user event response →
  is_Some (scan_call_responses call_response_from_value env id user events).
Proof.
  intros Hin Ha. pose proof (answers_call_verifies _ _ _ _ _ Ha) as Hv. destruct Ha as (Ht & Hu & Hr & Hi & _).
  induction Hin as [event events|event e events Hin IH]; cbn [scan_call_responses].
  - rewrite Ht, Hu, !str_eqb_refl, Hv, Hr, Hi, str_eqb_refl. by eexists.
  - specialize (IH Ht Hu Hr Hv). destruct (negb _); [done|]. destruct (negb _); [done|].
    destruct (verify_call_response_signature call_response_from_value env e user); [|done].
    destruct (call_response_from_value (ie_content e)) as [r|]; [|done]. destruct (cresp_request_id r =s id); [by eexists|done].
Qed.

Lemma wait_call_authentic id user syncs response :
  wait_for_call_response call_response_from_value id user syncs = Ok response →
  ∃ pre env events post event, syncs = map Ok pre ++ Ok (env, events) :: post ∧ event ∈ events ∧
    answers_call authentic env id user event response.
Proof.
  induction syncs as [|[[env events]|e] syncs IH]; simpl; [done| |done].
  destruct (scan_call_responses _ env id user events) as [r|] eqn:E.
  - intros [= ->]. apply scan_call_Some in E as (event & Hin & Ha). by exists [], env, events, syncs, event.
  - intros Hw. destruct (IH Hw) as (pre & env' & events' & post & event & -> & Hin & Ha).
    by exists ((env, events) :: pre), env', events', post, event.
Qed.
Lemma wait_call_returns id user env events post event response : ∀ pre,
  event ∈ events → answers_call authentic env id user event response →
  ∃ r, wait_for_call_response call_response_from_value id user (map Ok pre ++ Ok (env, events) :: post) = Ok r.
Proof.
  intros pre Hin Ha. destruct (scan_call_finds env id user events event response Hin Ha) as [r Hr].
  induction pre as [|[env' events'] pre [r' IH]]; simpl; [rewrite Hr; eauto|].
  destruct (scan_call_responses _ env' id user events'); eauto.
Qed.
Lemma answers_call_single env id user event response : single env user →
  answers_call authentic env id user event response ↔ answers_call executor_signed env id user event response.
Proof. intros Hone. unfold answers_call. by rewrite authentic_single. Qed.

(** An executor whose key is published and trusted is always accepted. *)
Lemma published_key_signs `{!CryptoLaws} env room user agents agent sk v value :
  published env room agents → agent ∈ agents → agent.(as_matrix_user_id) = user →
  agent.(as_signing_public_key) = Some (encode_verifying_key (verifying_key sk)) →
  agent.(as_signing_key_id) = key_id_for_verifying_key (verifying_key sk) →
  is_key_trusted (unwrap_or env.(fe_trust) []) agent.(as_signing_key_id) = true →
  sign_into sk agent.(as_signing_key_id) v = Ok value → executor_signed env room user value.
Proof.
  intros Ha Hin Hu Hpk Hid Ht Hs. exists agents, agent, (verifying_key sk).
  pose proof (sign_into_verify _ _ _ _ Hs) as [Hv _]. split_and!; try done.
  - apply agent_verifying_key_Ok. eexists. split_and!; [exact Hpk|apply decode_encode_verifying_key|done].
  - by apply sign_into_key_id in Hs.
Qed.

(** One agent state that does not decode silences a room: while the room's state
    has such an event, which any member allowed to publish agent states can add and a
    redaction leaves behind, every result of the room is dropped, and a waiting call
    returns no response of it. *)
Theorem malformed_agent_state_silences_room env room raws :
  env.(fe_agents) room = Some raws → Malformed ∈ raws →
  (∀ meta event r, meta.(em_room_id) = room → publish_forwarded env meta event r = r) ∧
  (∀ id user events, (∀ e, e ∈ events → e.(ie_room_id) = room) →
     scan_call_responses call_response_from_value env id user events = None).
Proof.
  intros Hr Hm.
  assert (∀ user, executor_state env room user = None) as Hnone.
  { intros user. unfold executor_state. rewrite Hr. simpl. clear Hr. unfold read_all_agent_states.
    assert (∃ e, read_contents raws = Err e) as [e ->]; [|done].
    induction raws as [|[a i| |] raws IH]; simpl; [by apply not_elem_of_nil in Hm| | |eauto];
      apply elem_of_cons in Hm as [?|Hm]; try done; destruct (IH Hm) as [e E]; rewrite E; eauto. }
  split.
  - intros meta event r Hroom. unfold publish_forwarded, verify_forwarded_event. by rewrite Hroom, Hnone.
  - intros id user events Hev. destruct (scan_call_responses _ _ _ _ _) as [resp|] eqn:E; [|done].
    clear -E Hev Hnone. induction events as [|e events IH]; [done|]. cbn [scan_call_responses] in E.
    assert (∀ e, e ∈ events → ie_room_id e = room) as Hev' by (intros x Hx; apply Hev; by right).
    unfold verify_call_response_signature in E. rewrite (Hev e (list_elem_of_here e events)), Hnone in E.
    destruct (negb _); [auto|]. destruct (negb _); [auto|]. destruct (call_response_from_value (ie_content e)); auto.
Qed.
End authentic.

(** ** Witnesses *)

Module ResultExample.
#[local] Existing Instance Signing.Toy.toy_crypto.
Definition executor : AgentState := LiveAuth.Sample.agent "worker" "@worker:s".
Definition env : ForwardEnv :=
  {| fe_agents := λ _, Some [Content (LiveAuth.Sample.agent "other" "@other:s") None; Content executor None]; fe_trust := Some LiveAuth.Sample.trust |}.
Definition finished (code : Z) (s : option Signature) : ExecFinished :=
  {| ef_invocation_id := "inv"; ef_exit_code := Some code; ef_signal := None; ef_duration_ms := 1; ef_stdout_bytes := 0;
     ef_stderr_bytes := 0; ef_truncated := false; ef_artifact_mxc := None; ef_signature := s; ef_extra := ∅ |}.
(** The result of exit code [code], signed by the executor. *)
Definition signed (code : Z) : ForwardedExecEvent :=
  FwExecFinished (finished code
    match sign (H := Signing.Toy.toy_crypto) tt LiveAuth.Sample.key_id (ExecFinished_value (finished code None)) with
    | Ok s => Some s
    | Err _ => None
    end).
Definition meta (sender : string) : EventMeta :=
  {| em_event_type := "com.mxagent.exec.finished.v1"; em_room_id := "!r"; em_sender := sender; em_event_id := None; em_state_key := None |}.
Definition sub : ExecSubscription := {| es_key := KInvocation "inv"; es_id := 1 |}.
(** A result of another member, an unsigned one, and the executor's, read at the end. *)
Definition after : list RegistryOp :=
  [OpForward env (meta "@other:s") (signed 0); OpForward env (meta "@worker:s") (FwExecFinished (finished 0 None));
   OpSubscribe (KInvocation "inv") "@other:s"; OpForward env (meta "@worker:s") (signed 3); OpRecv sub].
End ResultExample.

Section result_witnesses.
#[local] Existing Instance Signing.Toy.toy_crypto.
#[local] Existing Instance Signing.Toy.toy_laws.
Lemma subscription_refines_log_witness :
  ∃ r unread,
    subscribe (KInvocation "inv") "@worker:s" (apply_ops [OpSubscribe (KRequest "req") "@other:s"] registry_new) = (ResultExample.sub, r) ∧
    ops_read 1 ResultExample.after r ++ unread = [ResultExample.signed 3] ∧ ops_read 1 ResultExample.after r = [ResultExample.signed 3].
Proof.
  destruct (subscribe (KInvocation "inv") "@worker:s" (apply_ops [OpSubscribe (KRequest "req") "@other:s"] registry_new))
    as [sub r] eqn:E.
  assert (sub = ResultExample.sub) as -> by (vm_compute in E; by injection E as <- <-).
  destruct (subscription_refines_log [OpSubscribe (KRequest "req") "@other:s"] (KInvocation "inv") "@worker:s" ResultExample.sub r
    ResultExample.after) as (unread & _ & Hlog); [vm_compute; reflexivity|exact E| |].
  - intros s. unfold ResultExample.after. rewrite !elem_of_cons. intros [H|[H|[H|[H|[H|H%not_elem_of_nil]]]]]; done.
  - exists r, unread. split; [reflexivity|]. split; [etrans; [exact Hlog|vm_compute; reflexivity]|].
    clear -E. vm_compute in E. injection E as <-. vm_compute. reflexivity.
Defined.
Lemma malformed_agent_state_silences_room_witness :
  publish_forwarded {| fe_agents := λ _, Some [Content ResultExample.executor None; Malformed]; fe_trust := Some LiveAuth.Sample.trust |}
    (ResultExample.meta "@worker:s") (ResultExample.signed 3) (subscribe (KInvocation "inv") "@worker:s" registry_new).2 = (subscribe (KInvocation "inv") "@worker:s" registry_new).2.
Proof.
  destruct (malformed_agent_state_silences_room (λ _, None)
    {| fe_agents := λ _, Some [Content ResultExample.executor None; Malformed]; fe_trust := Some LiveAuth.Sample.trust |}
    "!r" [Content ResultExample.executor None; Malformed]) as [Hp _];
    [reflexivity|right; left|]. exact (Hp (ResultExample.meta "@worker:s") (ResultExample.signed 3) (subscribe (KInvocation "inv") "@worker:s" registry_new).2 eq_refl).
Defined.
End result_witnesses.
