(* ===== verification/Presence.v ===== *)
(** * Presence: running invocations, heartbeats, liveness

    Models [crates/mx-agent-daemon/src/inflight.rs], [heartbeat.rs] and the liveness part
    of [agent.rs].  Clock readings are milliseconds since the epoch and arguments.  A room
    is its agent state events and the events sent to it; pages of its timeline, newest
    first, are what the homeserver answers to a scan. *)
From Stdlib Require Import ZArith Lia.
From stdpp Require Import gmap strings list.
From S2P Require Import Prelude RustStr CanonicalJson Schema Signing Trust PolicyFile PolicyEngine Time Replay NonceGuard EventRouter Room Approval LiveAuth ResultPlane.
Local Open Scope Z_scope.

(** ** Running invocations *)

(** The process-wide map from agent to count. *)
Abbreviation Inflight := (gmap string Z).
Definition running_invocations (agent_id : string) (m : Inflight) : Z := unwrap_or (m !! agent_id) 0.
Definition inflight_enter (agent_id : string) (m : Inflight) : Inflight :=
  let count := unwrap_or (m !! agent_id) 0 in <[agent_id := Z.min (count + 1) u32_max]> m.
Definition inflight_drop (agent_id : string) (m : Inflight) : Inflight :=
  match m !! agent_id with
  | Some count => let count := Z.max 0 (count - 1) in if count =? 0 then delete agent_id m else <[agent_id := count]> m
  | None => m
  end.

(** ** Liveness *)

Definition DEFAULT_HEARTBEAT_INTERVAL : Z := 30000.
Definition DEFAULT_STALE_AFTER : Z := 90000.
Definition DEFAULT_OFFLINE_AFTER : Z := 300000.
Definition DEFAULT_STATE_REFRESH : Z := 300000.
Definition HEARTBEAT_SCAN_LIMIT : Z := 100.
Definition MAX_HEARTBEAT_SCAN_EVENTS : Z := 1000.
Definition MAX_TRACKED_AGENTS : Z := 50000.

Inductive Liveness := Active | Stale | Offline.
#[export] Instance Liveness_eq_dec : EqDecision Liveness.
Proof. solve_decision. Defined.
Definition liveness_as_str (l : Liveness) : string := match l with Active => "active" | Stale => "stale" | Offline => "offline" end.

(** Durations as [as_millis() as u64] gives them. *)
Record LivenessConfig := { lv_stale_after : Z; lv_offline_after : Z }.
Definition default_liveness : LivenessConfig := {| lv_stale_after := DEFAULT_STALE_AFTER; lv_offline_after := DEFAULT_OFFLINE_AFTER |}.
Definition u64_sub (a b : Z) : Z := Z.max 0 (a - b).
Definition liveness (c : LivenessConfig) (last_seen_ms now_ms : Z) : Liveness :=
  let elapsed := u64_sub now_ms last_seen_ms in
  if c.(lv_offline_after) <=? elapsed then Offline
  else if c.(lv_stale_after) <=? elapsed then Stale
  else Active.
Definition liveness_of (c : LivenessConfig) (state : AgentState) (now_ms : Z) : Liveness := liveness c state.(as_last_seen_ts) now_ms.
Definition liveness_combined (c : LivenessConfig) (state : AgentState) (latest_heartbeat_ts : option Z) (now_ms : Z) : Liveness :=
  liveness c (Z.max state.(as_last_seen_ts) (unwrap_or latest_heartbeat_ts 0)) now_ms.

Record HeartbeatConfig := { hc_interval : Z; hc_state_refresh : Z }.
Definition default_heartbeat : HeartbeatConfig :=
  {| hc_interval := DEFAULT_HEARTBEAT_INTERVAL; hc_state_refresh := DEFAULT_STATE_REFRESH |}.
Definition should_refresh_state (c : HeartbeatConfig) (status_changed : bool) (last_state_ms now_ms : Z) : bool :=
  if status_changed then true else c.(hc_state_refresh) <=? u64_sub now_ms last_state_ms.

(** ** Emission *)

(** What was sent to a room and how its homeserver answers the next sends. *)
Record PresenceRoom := {
  pr_agents : gmap string (StateEvent AgentState);
  pr_heartbeats : list Heartbeat;
  pr_answers : list bool;
}.
Definition PM (A : Type) : Type := st PresenceRoom WorkspaceError A.
Definition read_agent_state (agent_id : string) : PM (option AgentState) := λ r,
  match r.(pr_agents) !! agent_id with
  | Some (Content a _) => (Ok (Some a), r)
  | Some Malformed => (Err Matrix, r)
  | Some Cleared | None => (Ok None, r)
  end.
Definition presence_answer : PM unit := λ r,
  match r.(pr_answers) with
  | true :: answers => (Ok tt, {| pr_agents := r.(pr_agents); pr_heartbeats := r.(pr_heartbeats); pr_answers := answers |})
  | false :: answers => (Err Matrix, {| pr_agents := r.(pr_agents); pr_heartbeats := r.(pr_heartbeats); pr_answers := answers |})
  | [] => (Err Matrix, r)
  end.
Definition send_heartbeat (h : Heartbeat) : PM unit :=
  let! _ := presence_answer in
  λ r, (Ok tt, {| pr_agents := r.(pr_agents); pr_heartbeats := r.(pr_heartbeats) ++ [h]; pr_answers := r.(pr_answers) |}).
Definition send_agent_state (agent_id : string) (a : AgentState) : PM unit :=
  let! _ := presence_answer in
  λ r, (Ok tt, {| pr_agents := <[agent_id := Content a None]> r.(pr_agents); pr_heartbeats := r.(pr_heartbeats); pr_answers := r.(pr_answers) |}).

Definition refreshed (state : AgentState) (status : string) (load : AgentLoad) (ts : Z) : AgentState :=
  {| as_agent_id := state.(as_agent_id); as_kind := state.(as_kind); as_matrix_user_id := state.(as_matrix_user_id);
     as_device_id := state.(as_device_id); as_signing_key_id := state.(as_signing_key_id);
     as_signing_public_key := state.(as_signing_public_key); as_status := status; as_capabilities := state.(as_capabilities);
     as_tools := state.(as_tools); as_workspace := state.(as_workspace); as_load := load; as_last_seen_ts := ts;
     as_state_rev := wrap_u64 (state.(as_state_rev) + 1); as_extra := state.(as_extra) |}.

Definition emit_heartbeat (inflight : Inflight) (ts : Z) (agent_id status : string) (config : HeartbeatConfig) (last_state_ms : Z) : PM bool :=
  let! existing := read_agent_state agent_id in
  let load := {| al_running_invocations := running_invocations agent_id inflight;
                 al_max_invocations := match existing with Some s => s.(as_load).(al_max_invocations) | None => 0 end |} in
  let! _ := send_heartbeat {| hb_agent_id := agent_id; hb_status := status; hb_load := load; hb_ts := ts; hb_extra := ∅ |} in
  let status_changed := match existing with Some s => negb (s.(as_status) =s status) | None => true end in
  if negb (should_refresh_state config status_changed last_state_ms ts) then ret false
  else match existing with
  | Some state =>
    let! _ := send_agent_state agent_id (refreshed state status load ts) in ret true
  | None => ret false
  end.

(** The loop over the agents of one room: [clock] gives the two readings of each
    emission, [tracked] the time of the last refresh of each agent. *)
Definition owned_agents (agents : list AgentState) (local_user : string) : list AgentState :=
  List.filter (λ a, a.(as_matrix_user_id) =s local_user) agents.
Definition stored_last_state_ms (tracked : gmap (string * string) Z) (key : string * string) (discovered : Z) :
    Z * gmap (string * string) Z :=
  match tracked !! key with Some t => (t, tracked) | None => (discovered, <[key := discovered]> tracked) end.
Fixpoint emit_owned (inflight : Inflight) (clock : string → Z * Z) (config : HeartbeatConfig) (room_id : string) (agents : list AgentState)
    (tracked : gmap (string * string) Z) (room : PresenceRoom) : gmap (string * string) Z * PresenceRoom :=
  match agents with
  | [] => (tracked, room)
  | agent :: agents =>
    let key := (room_id, agent.(as_agent_id)) in
    let '(stored, tracked) := stored_last_state_ms tracked key agent.(as_last_seen_ts) in
    let '(ts, after) := clock agent.(as_agent_id) in
    let '(res, room) := emit_heartbeat inflight ts agent.(as_agent_id) agent.(as_status) config stored room in
    let tracked := match res with Ok true => <[key := after]> tracked | _ => tracked end in
    emit_owned inflight clock config room_id agents tracked room
  end.
(** A room the account has joined: its id, its agent state events as they are read, the
    clock while it is served, and what it receives. *)
Record JoinedRoom := { jr_id : string; jr_raws : list (StateEvent AgentState); jr_clock : string → Z * Z; jr_room : PresenceRoom }.
Definition heartbeat_room (local_user : string) (inflight : Inflight) (config : HeartbeatConfig)
    (tracked : gmap (string * string) Z) (j : JoinedRoom) : gmap (string * string) Z * PresenceRoom :=
  match read_all_agent_states j.(jr_raws) with
  | Err _ => (tracked, j.(jr_room))
  | Ok agents => emit_owned inflight j.(jr_clock) config j.(jr_id) (owned_agents agents local_user) tracked j.(jr_room)
  end.
Fixpoint heartbeat_rooms (local_user : string) (inflight : Inflight) (config : HeartbeatConfig)
    (tracked : gmap (string * string) Z) (rooms : list JoinedRoom) : gmap (string * string) Z * list PresenceRoom :=
  match rooms with
  | [] => (tracked, [])
  | j :: rooms =>
    let '(tracked, room) := heartbeat_room local_user inflight config tracked j in
    let '(tracked, rooms) := heartbeat_rooms local_user inflight config tracked rooms in
    (tracked, room :: rooms)
  end.
(** [user_id] is the account's user, if it is logged in. *)
Definition heartbeat_pass (user_id : option string) (inflight : Inflight) (config : HeartbeatConfig)
    (tracked : gmap (string * string) Z) (rooms : list JoinedRoom) : gmap (string * string) Z * list PresenceRoom :=
  let local_user := unwrap_or user_id "" in
  if local_user =s "" then (tracked, map jr_room rooms) else heartbeat_rooms local_user inflight config tracked rooms.
(** An iteration of [run_heartbeat_loop]. *)
Definition heartbeat_tick (user_id : option string) (inflight : Inflight) (config : HeartbeatConfig)
    (tracked : gmap (string * string) Z) (rooms : list JoinedRoom) : gmap (string * string) Z * list PresenceRoom :=
  let tracked := if MAX_TRACKED_AGENTS <? Z.of_nat (size tracked) then ∅ else tracked in
  heartbeat_pass user_id inflight config tracked rooms.

(** ** The latest heartbeats of a room *)

Definition HEARTBEAT_EVENT_TYPE : string := "com.mxagent.heartbeat.v1".
(** A timeline event: its type and sender where they can be read, and its content when it
    decodes as a heartbeat. *)
Record PageEvent := { pe_type : option string; pe_sender : option string; pe_heartbeat : option Heartbeat }.

Definition expected_senders (agents : list AgentState) : gmap string string :=
  foldl (λ m a, <[a.(as_agent_id) := a.(as_matrix_user_id)]> m) ∅ agents.
Definition accept_heartbeat (expected : gmap string string) (agent_id : string) (sender : option string) : bool :=
  match expected !! agent_id, sender with
  | Some registered, Some sender => registered =s sender
  | _, _ => false
  end.
(** The heartbeat of an event, if it is accepted. *)
Definition accepted (expected : gmap string string) (e : PageEvent) : option Heartbeat :=
  if negb (bool_decide (e.(pe_type) = Some HEARTBEAT_EVENT_TYPE)) then None
  else h ← e.(pe_heartbeat);
       if negb (accept_heartbeat expected h.(hb_agent_id) e.(pe_sender)) then None else Some h.
(** [or_insert]. *)
Definition keep_first (latest : gmap string Heartbeat) (h : Heartbeat) : gmap string Heartbeat :=
  match latest !! h.(hb_agent_id) with Some _ => latest | None => <[h.(hb_agent_id) := h]> latest end.
Fixpoint scan_page (expected : gmap string string) (events : list PageEvent) (latest : gmap string Heartbeat) : gmap string Heartbeat :=
  match events with
  | [] => latest
  | e :: events =>
    scan_page expected events (match accepted expected e with Some h => keep_first latest h | None => latest end)
  end.
(** [pages]: what the requests return, with whether an earlier page can be asked for. *)
Fixpoint scan_pages (expected : gmap string string) (max_events scanned : Z) (pages : list (result (list PageEvent * bool) WorkspaceError))
    (latest : gmap string Heartbeat) : result (gmap string Heartbeat) WorkspaceError :=
  if max_events <=? scanned then Ok latest
  else match pages with
  | [] => Ok latest
  | Err e :: _ => Err e
  | Ok ([], _) :: _ => Ok latest
  | Ok (events, more) :: pages =>
    let latest := scan_page expected events latest in
    if forallb (λ id, is_some (latest !! id)) (map_to_list expected).*1 then Ok latest
    else if more then scan_pages expected max_events (scanned + Z.of_nat (length events)) pages latest
    else Ok latest
  end.
Definition read_latest_heartbeats (agents : list AgentState) (max_events : Z) (pages : list (result (list PageEvent * bool) WorkspaceError)) :
    result (gmap string Heartbeat) WorkspaceError :=
  let expected := expected_senders agents in
  if bool_decide (expected = ∅) then Ok ∅ else scan_pages expected max_events 0 pages ∅.

(** ** Listings *)

Record AgentListing := { li_agent : AgentState; li_liveness : Liveness }.
(** [None] is a read that timed out. *)
Definition bounded_latest_heartbeats (read : option (result (gmap string Heartbeat) WorkspaceError)) : gmap string Heartbeat :=
  match read with Some (Ok latest) => latest | _ => ∅ end.
Definition enrich_with_liveness (agents : list AgentState) (read : option (result (gmap string Heartbeat) WorkspaceError)) (now : Z) : list AgentListing :=
  let latest := bounded_latest_heartbeats read in
  map (λ agent, {| li_agent := agent;
                   li_liveness := liveness_combined default_liveness agent (hb_ts <$> latest !! agent.(as_agent_id)) now |}) agents.
Definition matches_capabilities (agent : AgentState) (wanted : list string) : bool :=
  forallb (λ w, existsb (λ have, have =s w) agent.(as_capabilities)) wanted.
Definition agent_le (a b : AgentState) : Prop := String.le a.(as_agent_id) b.(as_agent_id).
#[export] Instance agent_le_dec : RelDecision agent_le.
Proof. intros a b. unfold agent_le. apply _. Defined.
(** [list_agents_with_liveness_for_session], of the room's agent state events. *)
Definition list_agents_with_liveness (raws : list (StateEvent AgentState)) (capabilities : list string)
    (read : list AgentState → option (result (gmap string Heartbeat) WorkspaceError)) (now : Z) : result (list AgentListing) WorkspaceError :=
  let? agents := read_all_agent_states raws in
  let agents := List.filter (λ a, matches_capabilities a capabilities) agents in
  let agents := sort_by agent_le agents in
  Ok (enrich_with_liveness agents (read agents) now).

(** ** The count is the number of live guards *)

Inductive GuardOp := GEnter (agent_id : string) | GDrop (agent_id : string).
Definition guard_op (m : Inflight) (op : GuardOp) : Inflight :=
  match op with GEnter a => inflight_enter a m | GDrop a => inflight_drop a m end.
Definition live_change (agent : string) (op : GuardOp) : Z :=
  match op with GEnter a => if a =s agent then 1 else 0 | GDrop a => if a =s agent then -1 else 0 end.
(** Guards of [agent] that were entered and not dropped. *)
Definition live_guards (agent : string) (ops : list GuardOp) : Z := foldr (λ op n, live_change agent op + n) 0 ops.
(** A guard is dropped once, after it was entered. *)
Definition guards_ok (ops : list GuardOp) : Prop := ∀ agent pre post, ops = pre ++ post → 0 ≤ live_guards agent pre.

Lemma live_guards_app agent l l' : live_guards agent (l ++ l') = live_guards agent l + live_guards agent l'.
Proof. unfold live_guards. induction l as [|op l IH]; simpl; [lia|]. rewrite IH. lia. Qed.
Lemma live_guards_snoc agent ops op : live_guards agent (ops ++ [op]) = live_guards agent ops + live_change agent op.
Proof. rewrite live_guards_app. unfold live_guards at 2. simpl. lia. Qed.
Lemma live_guards_le agent ops : live_guards agent ops ≤ Z.of_nat (length ops).
Proof.
  induction ops as [|op ops IH]; [done|]. unfold live_guards in *. simpl. unfold live_change at 1. destruct op; destruct (_ =s _); lia.
Qed.
Lemma inflight_counts ops :
  guards_ok ops → Z.of_nat (length ops) < u32_max →
  ∀ agent, foldl guard_op ∅ ops !! agent = if 0 <? live_guards agent ops then Some (live_guards agent ops) else None.
Proof.
  induction ops as [|op ops IH] using rev_ind; intros Hok Hlen agent; [done|].
  rewrite length_app in Hlen. simpl in Hlen. rewrite foldl_snoc. specialize (IH ltac:(intros a pre post ->; apply (Hok a pre (post ++ [op])); by rewrite app_assoc) ltac:(lia)).
  pose proof (live_guards_le agent ops) as Hle. pose proof (Hok agent (ops ++ [op]) [] ltac:(by rewrite app_nil_r)) as Hpos.
  rewrite live_guards_snoc in *.
  set (m := foldl guard_op ∅ ops) in *. clearbody m.
  set (n := live_guards agent ops) in *. assert (0 ≤ n) as Hn by (apply (Hok agent ops [op]); done).
  destruct op as [a|a]; unfold guard_op, live_change in *; destruct (a =s agent) eqn:E.
  - apply str_eqb_eq in E as ->. unfold inflight_enter. rewrite IH. fold n. rewrite lookup_insert_eq.
    destruct (Z.ltb_spec 0 n), (Z.ltb_spec 0 (n + 1)); try lia; simpl; f_equal; lia.
  - apply str_eqb_neq in E. unfold inflight_enter. rewrite lookup_insert_ne by done. rewrite Z.add_0_r. apply IH.
  - apply str_eqb_eq in E as ->. unfold inflight_drop. rewrite IH. fold n.
    destruct (Z.ltb_spec 0 n), (Z.ltb_spec 0 (n + -1)); try lia.
    + destruct (Z.eqb_spec (Z.max 0 (n - 1)) 0); [lia|]. rewrite lookup_insert_eq. f_equal. lia.
    + destruct (Z.eqb_spec (Z.max 0 (n - 1)) 0); [|lia]. apply lookup_delete_eq.
  - apply str_eqb_neq in E. rewrite Z.add_0_r. unfold inflight_drop. destruct (m !! a); [|apply IH].
    destruct (_ =? _); [rewrite lookup_delete_ne by done|rewrite lookup_insert_ne by done]; apply IH.
Qed.

(** ** What a scan finds *)

(** The events a scan can reach, newest first. *)
Fixpoint timeline (pages : list (result (list PageEvent * bool) WorkspaceError)) : list PageEvent :=
  match pages with
  | [] | Err _ :: _ | Ok ([], _) :: _ => []
  | Ok (events, more) :: pages => events ++ (if more then timeline pages else [])
  end.
Definition for_agent (id : string) (l : list Heartbeat) : list Heartbeat := List.filter (λ h, h.(hb_agent_id) =s id) l.
Definition or_head (o : option Heartbeat) (l : list Heartbeat) : option Heartbeat := match o with Some h => Some h | None => head l end.

Lemma or_head_app o l l' : or_head (or_head o l) l' = or_head o (l ++ l').
Proof. by destruct o, l. Qed.
Lemma keep_first_lookup latest h id : keep_first latest h !! id = or_head (latest !! id) (for_agent id [h]).
Proof.
  unfold keep_first, for_agent. simpl. destruct (hb_agent_id h =s id) eqn:E.
  - apply str_eqb_eq in E as <-. destruct (latest !! hb_agent_id h) eqn:Ei; rewrite ?Ei; [done|]. by rewrite lookup_insert_eq.
  - apply str_eqb_neq in E. destruct (latest !! hb_agent_id h); [|rewrite lookup_insert_ne by done]; by destruct (latest !! id).
Qed.
Lemma for_agent_app id l l' : for_agent id (l ++ l') = for_agent id l ++ for_agent id l'.
Proof. apply List.filter_app. Qed.
Lemma scan_page_lookup expected events : ∀ latest id,
  scan_page expected events latest !! id = or_head (latest !! id) (for_agent id (omap (accepted expected) events)).
Proof.
  induction events as [|e events IH]; intros latest id; cbn [scan_page]; [by destruct (latest !! id)|].
  rewrite IH. cbn [omap list_omap]. destruct (accepted expected e) as [h|]; [|done].
  rewrite keep_first_lookup, or_head_app, <- for_agent_app. done.
Qed.

(** The scan has looked at [seen], a front of the timeline, and stops before its end only
    when every agent was found or enough was read. *)
Lemma scan_pages_spec expected max_events pages : ∀ scanned latest latest',
  scan_pages expected max_events scanned pages latest = Ok latest' →
  ∃ seen rest, timeline pages = seen ++ rest ∧
    (∀ id, latest' !! id = or_head (latest !! id) (for_agent id (omap (accepted expected) seen))) ∧
    (rest = [] ∨ (∀ id, is_Some (expected !! id) → is_Some (latest' !! id)) ∨ max_events ≤ scanned + Z.of_nat (length seen)).
Proof.
  induction pages as [|p pages IH]; intros scanned latest latest'; cbn [scan_pages].
  { assert (∀ id, latest !! id = or_head (latest !! id) []) as E by (intros id; by destruct (latest !! id)).
    destruct (_ <=? _); intros [= <-]; exists [], []; simpl; eauto. }
  assert (∀ id, latest !! id = or_head (latest !! id) []) as E0 by (intros id; by destruct (latest !! id)).
  destruct (Z.leb_spec max_events scanned) as [Hmax|Hmax].
  { intros [= <-]. exists [], (timeline (p :: pages)). split; [done|]. split; [done|]. right. right. simpl. lia. }
  destruct p as [[[|e events] more]|err]; [intros [= <-]; exists [], []; simpl; eauto| |done].
  set (evs := e :: events). set (l1 := scan_page expected evs latest).
  assert (∀ id, l1 !! id = or_head (latest !! id) (for_agent id (omap (accepted expected) evs))) as H1 by (intros; apply scan_page_lookup).
  destruct (forallb _ _) eqn:Hall.
  { intros [= <-]. exists evs, (if more then timeline pages else []). split; [done|]. split; [done|]. right. left. intros id [u Hu].
    rewrite forallb_forall in Hall. specialize (Hall id). destruct (l1 !! id); [eauto|]. exfalso. apply diff_false_true.
    apply Hall, list_elem_of_In, list_elem_of_fmap. exists (id, u). by rewrite elem_of_map_to_list. }
  destruct more.
  - intros Hs. apply IH in Hs as (seen & rest & Et & Hl & Hr). exists (evs ++ seen), rest. cbn [timeline]. rewrite Et. split; [by rewrite <- app_assoc|].
    split; [intros id; by rewrite Hl, H1, or_head_app, omap_app, for_agent_app|]. rewrite length_app. destruct Hr as [?|[?|?]]; [auto|auto|].
    right. right. lia.
  - intros [= <-]. exists evs, []. simpl. rewrite app_nil_r. eauto.
Qed.

(** The heartbeats that [agent] itself sent: of its id, from its registered user. *)
Definition own_heartbeats (agent : AgentState) (events : list PageEvent) : list Heartbeat :=
  for_agent agent.(as_agent_id)
    (omap (λ e, if bool_decide (e.(pe_type) = Some HEARTBEAT_EVENT_TYPE ∧ e.(pe_sender) = Some agent.(as_matrix_user_id))
                then e.(pe_heartbeat) else None) events).

Lemma expected_senders_snoc agents a : expected_senders (agents ++ [a]) = <[a.(as_agent_id) := a.(as_matrix_user_id)]> (expected_senders agents).
Proof. unfold expected_senders. by rewrite foldl_snoc. Qed.
Lemma expected_senders_lookup agents agent :
  NoDup (map as_agent_id agents) → agent ∈ agents → expected_senders agents !! agent.(as_agent_id) = Some agent.(as_matrix_user_id).
Proof.
  induction agents as [|a agents IH] using rev_ind; intros Hnd Hin; [by apply not_elem_of_nil in Hin|].
  rewrite map_app in Hnd. apply NoDup_app in Hnd as (Hnd & Hdis & _). rewrite expected_senders_snoc.
  apply elem_of_app in Hin as [Hin|Hin%list_elem_of_singleton]; [|subst; apply lookup_insert_eq].
  rewrite lookup_insert_ne; [by apply IH|]. intros E. apply (Hdis (as_agent_id agent)); [apply list_elem_of_fmap; eauto|].
  rewrite <- E. by left.
Qed.
Lemma accepted_own expected agent events :
  expected !! agent.(as_agent_id) = Some agent.(as_matrix_user_id) →
  for_agent agent.(as_agent_id) (omap (accepted expected) events) = own_heartbeats agent events.
Proof.
  intros He. unfold own_heartbeats. induction events as [|e events IH]; [done|]. simpl.
  unfold accepted at 1. destruct (pe_heartbeat e) as [h|].
  2: { destruct (negb _); simpl; destruct (bool_decide _); exact IH. }
  simpl. destruct (hb_agent_id h =s as_agent_id agent) eqn:Eh.
  - apply str_eqb_eq in Eh. rewrite Eh. unfold accept_heartbeat. rewrite He.
    assert (bool_decide (pe_type e = Some HEARTBEAT_EVENT_TYPE ∧ pe_sender e = Some (as_matrix_user_id agent))
            = bool_decide (pe_type e = Some HEARTBEAT_EVENT_TYPE) && match pe_sender e with Some s => as_matrix_user_id agent =s s | None => false end) as ->.
    { apply eq_true_iff_eq. rewrite andb_true_iff, !bool_decide_eq_true. destruct (pe_sender e); [rewrite str_eqb_eq|]; naive_solver. }
    destruct (bool_decide (pe_type e = _)), (match pe_sender e with Some s => _ | None => false end); simpl; try exact IH.
    unfold for_agent in *. simpl. rewrite Eh, str_eqb_refl. f_equal. exact IH.
  - destruct (negb _); [|destruct (accept_heartbeat _ _ _)]; simpl; destruct (bool_decide _); simpl; rewrite ?Eh; exact IH.
Qed.
Lemma own_heartbeats_app agent l l' : own_heartbeats agent (l ++ l') = own_heartbeats agent l ++ own_heartbeats agent l'.
Proof. unfold own_heartbeats. by rewrite omap_app, for_agent_app. Qed.

(** What a listing says of an agent follows its own heartbeats and nothing else: a
    scan never returns a heartbeat for the agent but the newest one that its registered
    user sent, it does return that one when it is among the events the scan may read, and
    then the agent reads active until the stale threshold after it, whatever other
    members send and however old its durable state is. *)
Theorem liveness_follows_own_heartbeats agents agent max_events pages latest now :
  NoDup (map as_agent_id agents) → agent ∈ agents → 0 ≤ max_events →
  read_latest_heartbeats agents max_events pages = Ok latest →
  (∀ h, latest !! agent.(as_agent_id) = Some h → head (own_heartbeats agent (timeline pages)) = Some h) ∧
  (∀ h, head (own_heartbeats agent (take (Z.to_nat max_events) (timeline pages))) = Some h →
     latest !! agent.(as_agent_id) = Some h ∧
     (now < h.(hb_ts) + DEFAULT_STALE_AFTER →
      ∀ l, l ∈ enrich_with_liveness agents (Some (Ok latest)) now → l.(li_agent) = agent → l.(li_liveness) = Active)).
Proof.
  intros Hnd Hin Hmax Hread. pose proof (expected_senders_lookup _ _ Hnd Hin) as He.
  unfold read_latest_heartbeats in Hread. rewrite bool_decide_false in Hread.
  2: { intros E. rewrite E, lookup_empty in He. done. }
  apply scan_pages_spec in Hread as (seen & rest & Et & Hl & Hstop). rewrite Et.
  specialize (Hl (as_agent_id agent)) as Hla. rewrite lookup_empty, accepted_own in Hla by done. simpl in Hla.
  assert (∀ h, head (own_heartbeats agent (take (Z.to_nat max_events) (seen ++ rest))) = Some h → latest !! as_agent_id agent = Some h) as Hfound.
  { intros h Hh. rewrite Hla. destruct Hstop as [-> |[Hall|Hlen]].
    - rewrite app_nil_r in Hh. rewrite <- (take_drop (Z.to_nat max_events) seen), own_heartbeats_app.
      by destruct (own_heartbeats agent (take (Z.to_nat max_events) seen)).
    - destruct (Hall (as_agent_id agent)) as [h' Hh']; [by eexists|]. rewrite Hla in Hh'.
      destruct (own_heartbeats agent seen) as [|x l] eqn:Eo; [done|]. rewrite <- Hh. simpl.
      assert (own_heartbeats agent (seen ++ rest) = (x :: l) ++ own_heartbeats agent rest) as E1 by by rewrite own_heartbeats_app, Eo.
      rewrite <- (take_drop (Z.to_nat max_events) (seen ++ rest)), own_heartbeats_app in E1.
      destruct (own_heartbeats agent (take (Z.to_nat max_events) (seen ++ rest))) as [|y l']; [done|]. by injection E1 as ->.
    - rewrite take_app_le in Hh by lia. rewrite <- (take_drop (Z.to_nat max_events) seen), own_heartbeats_app.
      by destruct (own_heartbeats agent (take (Z.to_nat max_events) seen)). }
  split.
  - intros h Hh. rewrite own_heartbeats_app. rewrite Hla in Hh. by destruct (own_heartbeats agent seen).
  - intros h Hh. split; [by apply Hfound|]. intros Hnow l Hl' <-.
    apply list_elem_of_fmap in Hl' as (a & -> & _). simpl in *. rewrite (Hfound h Hh). simpl.
    unfold liveness_combined, liveness, u64_sub, default_liveness, DEFAULT_STALE_AFTER, DEFAULT_OFFLINE_AFTER in *. simpl.
    destruct (Z.leb_spec 300000 (Z.max 0 (now - Z.max (as_last_seen_ts a) (hb_ts h)))); [lia|].
    destruct (Z.leb_spec 90000 (Z.max 0 (now - Z.max (as_last_seen_ts a) (hb_ts h)))); [lia|done].
Qed.

(** An emission reports the number of guards that are alive: it sends one heartbeat
    with that count, its time and the status, or nothing when the state cannot be read or
    the send fails; and it rewrites the durable state exactly when it says so, with the
    same load and time and the next revision, which is when the state exists and its status
    differs or the refresh interval is over. *)
Theorem heartbeat_reports_load ops ts agent_id status config last_state_ms r res r' :
  guards_ok ops → Z.of_nat (length ops) < u32_max →
  emit_heartbeat (foldl guard_op ∅ ops) ts agent_id status config last_state_ms r = (res, r') →
  (∀ k, k ≠ agent_id → r'.(pr_agents) !! k = r.(pr_agents) !! k) ∧
  (r'.(pr_heartbeats) = r.(pr_heartbeats) ∧ is_ok res = false ∧ r'.(pr_agents) = r.(pr_agents) ∨
   ∃ h, r'.(pr_heartbeats) = r.(pr_heartbeats) ++ [h] ∧ h.(hb_agent_id) = agent_id ∧ h.(hb_ts) = ts ∧ h.(hb_status) = status ∧
     h.(hb_load).(al_running_invocations) = live_guards agent_id ops ∧
     match res with
     | Ok true => ∃ s i, r.(pr_agents) !! agent_id = Some (Content s i) ∧
         r'.(pr_agents) !! agent_id = Some (Content (refreshed s status h.(hb_load) ts) None) ∧
         (s.(as_status) ≠ status ∨ config.(hc_state_refresh) ≤ u64_sub ts last_state_ms)
     | _ => r'.(pr_agents) = r.(pr_agents)
     end).
Proof.
  intros Hok Hlen. pose proof (inflight_counts ops Hok Hlen agent_id) as Hc. pose proof (Hok agent_id ops [] ltac:(by rewrite app_nil_r)) as Hpos.
  set (m := foldl guard_op ∅ ops) in *.
  assert (running_invocations agent_id m = live_guards agent_id ops) as Hrun.
  { unfold running_invocations. rewrite Hc. destruct (Z.ltb_spec 0 (live_guards agent_id ops)); simpl; lia. }
  clearbody m. clear Hc Hok Hlen Hpos.
  unfold emit_heartbeat, bind, read_agent_state, send_heartbeat, send_agent_state, presence_answer, bind, ret.
  destruct r as [agents hbs answers]. simpl.
  assert (∀ s, negb (as_status s =s status) = true ∨ config.(hc_state_refresh) ≤ u64_sub ts last_state_ms →
    as_status s ≠ status ∨ config.(hc_state_refresh) ≤ u64_sub ts last_state_ms) as Hst.
  { intros s [Hs|?]; [|auto]. left. by apply negb_true_iff, str_eqb_neq in Hs. }
  assert (∀ b, should_refresh_state config b last_state_ms ts = true → b = true ∨ config.(hc_state_refresh) ≤ u64_sub ts last_state_ms) as Hsr.
  { intros [] H; [by left|]. right. by apply Z.leb_le. }
  destruct (agents !! agent_id) as [[s i| |]|] eqn:Ea; simpl; [| |intros [= <- <-]; simpl; split; [done|by left]|].
  - destruct answers as [|[] answers]; [intros [= <- <-]; simpl; split; [done|by left]| |intros [= <- <-]; simpl; split; [done|by left]].
    destruct (should_refresh_state _ _ _ _) eqn:Er; simpl.
    2: { intros [= <- <-]. simpl. split; [done|]. right. eexists. split; [done|]. simpl. by rewrite Hrun. }
    destruct answers as [|[] answers]; intros [= <- <-]; simpl; (split; [try done|right; eexists; split; [done|]; simpl; rewrite Hrun; split_and!; try done]).
    + intros k Hk. by rewrite lookup_insert_ne.
    + exists s, i. split; [done|]. rewrite lookup_insert_eq. split; [done|]. by apply Hst, Hsr.
  - destruct answers as [|[] answers]; [intros [= <- <-]; simpl; split; [done|by left]| |intros [= <- <-]; simpl; split; [done|by left]].
    intros [= <- <-]. simpl. split; [done|]. right. eexists. split; [done|]. simpl. by rewrite Hrun.
  - destruct answers as [|[] answers]; [intros [= <- <-]; simpl; split; [done|by left]| |intros [= <- <-]; simpl; split; [done|by left]].
    intros [= <- <-]. simpl. split; [done|]. right. eexists. split; [done|]. simpl. by rewrite Hrun.
Qed.

Lemma emit_heartbeat_agent inflight ts agent_id status config last_state_ms r :
  let r' := (emit_heartbeat inflight ts agent_id status config last_state_ms r).2 in
  r'.(pr_heartbeats) = r.(pr_heartbeats) ∨ ∃ h, r'.(pr_heartbeats) = r.(pr_heartbeats) ++ [h] ∧ h.(hb_agent_id) = agent_id.
Proof.
  unfold emit_heartbeat, bind, read_agent_state, send_heartbeat, send_agent_state, presence_answer, bind, ret. destruct r as [agents hbs answers].
  simpl. repeat case_match; simplify_eq/=; (by left) || (right; eexists; done).
Qed.
Lemma emit_owned_agents inflight clock config room_id agents : ∀ tracked room,
  ∃ sent, (emit_owned inflight clock config room_id agents tracked room).2.(pr_heartbeats) = room.(pr_heartbeats) ++ sent ∧
    Forall (λ h, h.(hb_agent_id) ∈ map as_agent_id agents) sent.
Proof.
  induction agents as [|a agents IH]; intros tracked room; [exists []; by rewrite app_nil_r|]. simpl.
  destruct (stored_last_state_ms _ _ _) as [stored tracked']. destruct (clock _) as [ts after].
  pose proof (emit_heartbeat_agent inflight ts (as_agent_id a) (as_status a) config stored room) as He.
  destruct (emit_heartbeat _ _ _ _ _ _ room) as [res room']. simpl in He.
  destruct (IH (match res with Ok true => <[(room_id, as_agent_id a) := after]> tracked' | _ => tracked' end) room') as (sent & -> & Hs).
  assert (Forall (λ h, h.(hb_agent_id) ∈ map as_agent_id (a :: agents)) sent) as Hs' by (eapply Forall_impl; [exact Hs|]; intros h Hh; by right).
  destruct He as [-> |(h & -> & Hh)]; [by exists sent|]. exists (h :: sent). rewrite <- app_assoc. split; [done|].
  constructor; [rewrite Hh; left|done].
Qed.

(** A pass sends heartbeats only for agents that the account's own user registered in the
    room; with no account it sends none. *)
Theorem pass_beats_for_own_agents user_id inflight config rooms : ∀ tracked,
  Forall2 (λ j room, ∃ sent, room.(pr_heartbeats) = j.(jr_room).(pr_heartbeats) ++ sent ∧
    Forall (λ h, ∃ a agents, read_all_agent_states j.(jr_raws) = Ok agents ∧ a ∈ agents ∧
      Some a.(as_matrix_user_id) = user_id ∧ h.(hb_agent_id) = a.(as_agent_id)) sent)
    rooms (heartbeat_pass user_id inflight config tracked rooms).2.
Proof.
  unfold heartbeat_pass. intros tracked. destruct (unwrap_or user_id "" =s "") eqn:E.
  { simpl. induction rooms; constructor; [exists []; by rewrite app_nil_r|done]. }
  destruct user_id as [user|]; [|done]. simpl in E |- *. clear E. revert tracked.
  induction rooms as [|j rooms IH]; intros tracked; [constructor|]. simpl.
  destruct (heartbeat_room user inflight config tracked j) as [tracked' room] eqn:Er. specialize (IH tracked').
  destruct (heartbeat_rooms user inflight config tracked' rooms) as [tracked'' rooms']. simpl in *. constructor; [|done]. clear IH.
  unfold heartbeat_room in Er. destruct (read_all_agent_states (jr_raws j)) as [agents|e]; [|injection Er as <- <-; exists []; by rewrite app_nil_r].
  destruct (emit_owned_agents inflight (jr_clock j) config (jr_id j) (owned_agents agents user) tracked (jr_room j)) as (sent & Hs & Hall).
  rewrite Er in Hs. exists sent. split; [done|]. eapply Forall_impl; [exact Hall|]. intros h (a & Ha & Hin)%list_elem_of_fmap.
  unfold owned_agents in Hin. apply list_elem_of_In, filter_In in Hin as [Hin Hu]. rewrite <- list_elem_of_In in Hin. apply str_eqb_eq in Hu. exists a, agents.
  by rewrite Hu.
Qed.

(** ** Witnesses *)

Module PresenceExample.
Definition me : AgentState := LiveAuth.Sample.agent "me" "@me:s".
Definition beat (id : string) (ts : Z) (sender : string) : PageEvent :=
  {| pe_type := Some HEARTBEAT_EVENT_TYPE; pe_sender := Some sender;
     pe_heartbeat := Some {| hb_agent_id := id; hb_status := "active";
       hb_load := {| al_running_invocations := 0; al_max_invocations := 1 |}; hb_ts := ts; hb_extra := ∅ |} |}.
(** A forged heartbeat, then the agent's own, on the second page. *)
Definition pages : list (result (list PageEvent * bool) WorkspaceError) :=
  [Ok ([beat "me" 900000 "@evil:s"], true); Ok ([beat "me" 500000 "@me:s"; beat "me" 400000 "@me:s"], true)].
Definition room : PresenceRoom := {| pr_agents := {["me" := Content me None]}; pr_heartbeats := []; pr_answers := [true; true] |}.
End PresenceExample.

Lemma liveness_follows_own_heartbeats_witness :
  ∃ latest h, read_latest_heartbeats [PresenceExample.me] 1000 PresenceExample.pages = Ok latest ∧
    latest !! "me" = Some h ∧ h.(hb_ts) = 500000.
Proof.
  destruct (read_latest_heartbeats [PresenceExample.me] 1000 PresenceExample.pages) as [latest|] eqn:E; [|vm_compute in E; discriminate E].
  destruct (head (own_heartbeats PresenceExample.me (take (Z.to_nat 1000) (timeline PresenceExample.pages)))) as [h|] eqn:Eh;
    [|vm_compute in Eh; discriminate Eh].
  destruct (liveness_follows_own_heartbeats [PresenceExample.me] PresenceExample.me 1000 PresenceExample.pages latest 589999) as [_ Hf];
    [apply NoDup_singleton|left|discriminate|exact E|].
  exists latest, h. split; [reflexivity|]. split; [exact (proj1 (Hf h Eh))|]. vm_compute in Eh. injection Eh as <-. reflexivity.
Defined.
Lemma heartbeat_reports_load_witness :
  ∃ r', emit_heartbeat (foldl guard_op ∅ [GEnter "me"; GEnter "you"; GEnter "me"; GDrop "me"]) 700000 "me" "active" default_heartbeat 300000
      PresenceExample.room = (Ok true, r') ∧
    ∃ h, r'.(pr_heartbeats) = [h] ∧ h.(hb_load).(al_running_invocations) = 1.
Proof.
  destruct (emit_heartbeat (foldl guard_op ∅ [GEnter "me"; GEnter "you"; GEnter "me"; GDrop "me"]) 700000 "me" "active" default_heartbeat 300000
      PresenceExample.room) as [res r'] eqn:E.
  assert (res = Ok true) as -> by (vm_compute in E; injection E as <- _; reflexivity).
  destruct (heartbeat_reports_load [GEnter "me"; GEnter "you"; GEnter "me"; GDrop "me"] 700000 "me" "active" default_heartbeat 300000
      PresenceExample.room (Ok true) r') as [_ [(_ & [=] & _)|(h & Hh & _ & _ & _ & Hl & _)]]; [|reflexivity|exact E|].
  - intros agent pre post Hp.
    destruct pre as [|? [|? [|? [|? [|? pre]]]]]; simplify_eq/=; unfold live_guards, live_change; simpl;
      repeat destruct (_ =s _); lia.
  - exists r'. split; [reflexivity|]. exists h. split; [exact Hh|]. rewrite Hl. vm_compute. reflexivity.
Defined.
