(* ===== verification/Runner.v ===== *)
(** * The process runner

    Models [crates/mx-agent-daemon/src/runner.rs] ([RunSpec], [restrictions_for],
    [resolve_sandbox], [launcher_wrap], [inject_bubblewrap_seccomp], [build_command],
    [run]), the command that [PtySession::spawn] of [pty.rs] builds, and the functions
    that turn an allowance into a [RunSpec]: the live paths of [exec.rs], the local
    paths of [exec_ipc.rs] and [pty_ipc.rs].  What the operating system answers (the
    environment, directories, files, the running binary, a descriptor) is a [RunEnv];
    what a child process does in time is a [Child].  Durations are milliseconds. *)
From stdpp Require Import gmap strings list pretty.
From S2P Require Import Prelude RustStr ChildEnv Sandboxing CanonicalJson Schema PolicyFile PolicyEngine LiveAuth.

(** ** Specifications *)

Definition DEFAULT_GRACE_PERIOD : N := 5000.
Definition DEFAULT_LOOPBACK_EXEC_TIMEOUT_MS : N := 600000.
Record RunSpec := mkSpec {
  sp_command : list string;
  sp_cwd : string;
  sp_env : gmap string string;
  sp_env_allowlist : list string;
  sp_stdin : option (list Byte.byte);
  sp_timeout : option N;
  sp_grace_period : N;
  sp_sandbox : Backend;
  sp_network : Network;
  sp_read_only_paths : list string;
  sp_writable_paths : list string;
  sp_container_runtime : Runtime;
  sp_container_image : option string;
  sp_resources : ResourceLimits;
  sp_seccomp : SeccompMode;
  sp_run_uid : option N;
  sp_run_gid : option N;
}.

(** An [std::io::Error], by its kind. *)
Inductive IoKind := KNotFound | KInvalidInput | KPermissionDenied | KBrokenPipe | KOther.
Inductive RunError := RunEmptyCommand | MissingCwd (path : string) | Spawn (kind : IoKind) (message : string).
Record RunEnv := {
  re_vars : list (string * string);
  re_path : string;
  re_is_dir : string → bool;
  re_exists : string → bool;
  re_current_exe : result string (IoKind * string);
  re_write_profile : result string (IoKind * string);
  re_memfd : result N (IoKind * string);
  re_uid : N;
  re_gid : N;
}.
Definition spawn_err {A} (r : result A (IoKind * string)) : result A RunError :=
  match r with Ok a => Ok a | Err (k, m) => Err (Spawn k m) end.

Definition restrictions_for (spec : RunSpec) (env : gmap string string) : Restrictions :=
  mkRestrictions spec.(sp_cwd) env spec.(sp_timeout) None spec.(sp_network) spec.(sp_read_only_paths)
    spec.(sp_writable_paths) false spec.(sp_resources) spec.(sp_seccomp) None spec.(sp_run_uid) spec.(sp_run_gid).
Definition resolve_sandbox (spec : RunSpec) : DynSandbox :=
  match spec.(sp_sandbox) with
  | BackendContainer => sandbox_for_container spec.(sp_container_runtime) spec.(sp_container_image)
  | other => sandbox_for other
  end.
Definition launcher_wrap (env : RunEnv) (spec : RunSpec) (prepared_argv : list string) : result (list string) RunError :=
  let wrap is_none :=
    if negb (launcher_is_needed spec.(sp_resources) spec.(sp_seccomp) is_none) then Ok prepared_argv
    else
      let? launcher_exe :=
        match env.(re_current_exe) with
        | Ok exe => Ok exe
        | Err (k, m) =>
            Err (Spawn k ("could not resolve the daemon binary to apply sandbox resource limits: " +:+ m))
        end in
      let seccomp := if is_none : bool then spec.(sp_seccomp) else ModeOff in
      Ok ([launcher_exe; LAUNCHER_SUBCOMMAND] ++ to_args (mkLauncher spec.(sp_resources) seccomp prepared_argv)) in
  match spec.(sp_sandbox) with
  | BackendNone => wrap true
  | BackendBubblewrap => wrap false
  | BackendContainer => Ok prepared_argv
  end.
Definition container_seccomp_profile_path (env : RunEnv) (spec : RunSpec) : result (option string) RunError :=
  if negb (bool_decide (spec.(sp_sandbox) = BackendContainer)) || negb (seccomp_is_on spec.(sp_seccomp)) then Ok None
  else let? path := spawn_err env.(re_write_profile) in Ok (Some path).
Definition inject_bubblewrap_seccomp (env : RunEnv) (spec : RunSpec) (argv : list string) :
    result (list string * option N) RunError :=
  if negb (bool_decide (spec.(sp_sandbox) = BackendBubblewrap)) || negb (seccomp_is_on spec.(sp_seccomp)) then Ok (argv, None)
  else let? memfd := spawn_err env.(re_memfd) in Ok (bubblewrap_with_seccomp_fd argv memfd, Some memfd).

(** ** Building the command *)

Inductive Stdio := StdioPiped | StdioNull | StdioTerminal.
Record Command := mkCommand {
  cm_program : string;
  cm_args : list string;
  cm_current_dir : string;
  cm_env : gmap string string;
  cm_stdin : Stdio;
  cm_process_group : bool;
}.
Definition set_interactive (r : Restrictions) : Restrictions :=
  mkRestrictions r.(rs_cwd) r.(rs_env) r.(rs_timeout) r.(rs_max_output_bytes) r.(rs_network) r.(rs_read_only_paths)
    r.(rs_writable_paths) true r.(rs_resources) r.(rs_seccomp) r.(rs_seccomp_profile_path) r.(rs_run_uid) r.(rs_run_gid).
Definition set_profile (path : option string) (r : Restrictions) : Restrictions :=
  mkRestrictions r.(rs_cwd) r.(rs_env) r.(rs_timeout) r.(rs_max_output_bytes) r.(rs_network) r.(rs_read_only_paths)
    r.(rs_writable_paths) r.(rs_interactive) r.(rs_resources) r.(rs_seccomp) path r.(rs_run_uid) r.(rs_run_gid).

Definition build_command (env : RunEnv) (spec : RunSpec) : result (Command * option N) RunError :=
  match spec.(sp_command) with
  | [] => Err RunEmptyCommand
  | _ =>
      if negb (env.(re_is_dir) spec.(sp_cwd)) then Err (MissingCwd spec.(sp_cwd))
      else
        let? _ :=
          match preflight_backend_in env.(re_exists) spec.(sp_sandbox) spec.(sp_container_runtime) env.(re_path) with
          | Ok _ => Ok tt
          | Err message => Err (Spawn KNotFound message)
          end in
        let vars := sanitize_env env.(re_vars) spec.(sp_env) spec.(sp_env_allowlist) in
        let restrictions := restrictions_for spec vars in
        let? profile := container_seccomp_profile_path env spec in
        let restrictions := set_profile profile restrictions in
        let prepared := sb_prepare (resolve_sandbox spec) spec.(sp_command) restrictions in
        let? (prepared_argv, seccomp_fd) := inject_bubblewrap_seccomp env spec prepared.(pr_argv) in
        let? argv := launcher_wrap env spec prepared_argv in
        match argv with
        | [] => Err RunEmptyCommand
        | program :: args =>
            Ok (mkCommand program args prepared.(pr_restrictions).(rs_cwd) prepared.(pr_restrictions).(rs_env)
                  (match spec.(sp_stdin) with Some _ => StdioPiped | None => StdioNull end) true, seccomp_fd)
        end
  end.

(** The command of [PtySession::spawn]; opening the terminal is [open_pty]. *)
Definition pty_spawn_command (env : RunEnv) (open_pty : result unit (IoKind * string)) (spec : RunSpec) :
    result (Command * option N) RunError :=
  match spec.(sp_command) with
  | [] => Err RunEmptyCommand
  | _ =>
      if negb (env.(re_is_dir) spec.(sp_cwd)) then Err (MissingCwd spec.(sp_cwd))
      else
        let? _ := spawn_err open_pty in
        let? _ :=
          match preflight_backend_in env.(re_exists) spec.(sp_sandbox) spec.(sp_container_runtime) env.(re_path) with
          | Ok _ => Ok tt
          | Err message => Err (Spawn KNotFound message)
          end in
        let vars := sanitize_env env.(re_vars) spec.(sp_env) spec.(sp_env_allowlist) in
        let restrictions := set_interactive (restrictions_for spec vars) in
        let? profile := container_seccomp_profile_path env spec in
        let restrictions := set_profile profile restrictions in
        let prepared := sb_prepare (resolve_sandbox spec) spec.(sp_command) restrictions in
        let? (prepared_argv, seccomp_fd) := inject_bubblewrap_seccomp env spec prepared.(pr_argv) in
        let? argv := launcher_wrap env spec prepared_argv in
        match argv with
        | [] => Err RunEmptyCommand
        | program :: args =>
            Ok (mkCommand program args prepared.(pr_restrictions).(rs_cwd) prepared.(pr_restrictions).(rs_env)
                  StdioTerminal true, seccomp_fd)
        end
  end.

(** ** Specifications from an allowance *)

Definition container_runtime_for (sandbox : option Sandbox) : Runtime :=
  match sandbox with Some Podman => RtPodman | _ => RtDocker end.
Definition network_for (network : option NetworkPolicy) : Network :=
  match network with Some NetAllow => NetworkAllow | Some NetDeny | None => NetworkDeny end.
Definition resource_limits_for (a : Allowance) : ResourceLimits :=
  mkLimits a.(al_max_processes) a.(al_max_memory_bytes) a.(al_max_cpu_seconds).
Definition seccomp_for (seccomp : Seccomp) : SeccompMode :=
  match seccomp with SeccompOff => ModeOff | SeccompDefault => ModeDefault end.
Definition container_run_identity (env : RunEnv) (backend : Backend) : option N * option N :=
  if bool_decide (backend = BackendContainer) then (Some env.(re_uid), Some env.(re_gid)) else (None, None).

(** The [spec] of [run_controlled_exec]. *)
Definition live_run_spec (env : RunEnv) (request : ExecRequest) (a : Allowance) : RunSpec :=
  let backend := sandbox_backend a.(al_sandbox) in
  let '(run_uid, run_gid) := container_run_identity env backend in
  mkSpec request.(er_command) request.(er_cwd) request.(er_env) a.(al_env_allowlist)
    (if request.(er_stdin) then Some [] else None)
    (Some (unwrap_or a.(al_max_runtime_ms) (Z.to_N request.(er_timeout_ms)))) DEFAULT_GRACE_PERIOD
    backend (network_for a.(al_network)) a.(al_read_only_paths) a.(al_writable_paths)
    (container_runtime_for a.(al_sandbox)) a.(al_container_image) (resource_limits_for a) (seccomp_for a.(al_seccomp))
    run_uid run_gid.
(** The [spec] of [run_controlled_pty_exec]. *)
Definition live_pty_run_spec (env : RunEnv) (request : ExecRequest) (a : Allowance) : RunSpec :=
  let backend := sandbox_backend a.(al_sandbox) in
  let '(run_uid, run_gid) := container_run_identity env backend in
  mkSpec request.(er_command) request.(er_cwd) request.(er_env) a.(al_env_allowlist) None
    (Some (unwrap_or a.(al_max_runtime_ms) (Z.to_N request.(er_timeout_ms)))) DEFAULT_GRACE_PERIOD
    backend (network_for a.(al_network)) a.(al_read_only_paths) a.(al_writable_paths)
    (container_runtime_for a.(al_sandbox)) a.(al_container_image) (resource_limits_for a) (seccomp_for a.(al_seccomp))
    run_uid run_gid.

Record ExecStartParams := mkExecParams {
  xp_command : list string;
  xp_cwd : option string;
  xp_stdin : option (list Byte.byte);
  xp_env : gmap string string;
  xp_timeout_ms : option N;
}.
Definition loopback_run_spec (env : RunEnv) (params : ExecStartParams) (a : Allowance) : RunSpec :=
  let backend := sandbox_backend a.(al_sandbox) in
  let '(run_uid, run_gid) := container_run_identity env backend in
  mkSpec params.(xp_command) (default "" params.(xp_cwd)) params.(xp_env) a.(al_env_allowlist) params.(xp_stdin)
    (Some (unwrap_or (opt_or params.(xp_timeout_ms) a.(al_max_runtime_ms)) DEFAULT_LOOPBACK_EXEC_TIMEOUT_MS))
    DEFAULT_GRACE_PERIOD
    backend (network_for a.(al_network)) a.(al_read_only_paths) a.(al_writable_paths)
    (container_runtime_for a.(al_sandbox)) a.(al_container_image) (resource_limits_for a) (seccomp_for a.(al_seccomp))
    run_uid run_gid.
Definition pty_loopback_run_spec (env : RunEnv) (command : list string) (cwd : option string) (vars : gmap string string)
    (a : Allowance) : RunSpec :=
  let backend := sandbox_backend a.(al_sandbox) in
  let '(run_uid, run_gid) := container_run_identity env backend in
  mkSpec command (default "." cwd) vars a.(al_env_allowlist) None None DEFAULT_GRACE_PERIOD
    backend (network_for a.(al_network)) a.(al_read_only_paths) a.(al_writable_paths)
    (container_runtime_for a.(al_sandbox)) a.(al_container_image) (resource_limits_for a) (seccomp_for a.(al_seccomp))
    run_uid run_gid.

(** ** Waiting for a child *)

Inductive TermSignal := SigTerm | SigKill.
#[export] Instance TermSignal_eq_dec : EqDecision TermSignal.
Proof. solve_decision. Defined.
Record ExitStatus := mkStatus { es_code : option Z; es_signal : option Z }.
(** What becomes of the input written to a child: all of it is taken at some time, the
    child is gone and the pipe breaks, or the write never ends. *)
Inductive StdinFate := StdinTaken (time : N) | StdinBroken | StdinStuck.
(** A child as the runner sees it: what becomes of its input, when it exits by itself ([None]: it never does), how long it lives after
    SIGTERM ([None]: it ignores it) and after SIGKILL, and its status each time; how
    long after its exit the output pipes stay open, and what was written to them. *)
Record Child := mkChild {
  ch_stdin : StdinFate;
  ch_exits : option (N * ExitStatus);
  ch_on_term : option (N * ExitStatus);
  ch_on_kill : N * ExitStatus;
  ch_pipes_close : option N;
  ch_stdout : list Byte.byte;
  ch_stderr : list Byte.byte;
}.
Record RunOutput := mkOutput {
  ro_exit_code : option Z;
  ro_signal : option Z;
  ro_stdout : list Byte.byte;
  ro_stderr : list Byte.byte;
  ro_timed_out : bool;
}.
(** [tokio::time::timeout(limit, child.wait())] begun at [start]: the wait is polled
    first, so an exit at the limit counts. *)
Definition timeout_wait (start limit : N) (exits : option (N * ExitStatus)) : option (N * ExitStatus) :=
  match exits with
  | Some (t, st) => if (t <=? start + limit)%N then Some (N.max start t, st) else None
  | None => None
  end.
(** Stopping the process group: SIGTERM, a grace period, SIGKILL.  The exit by itself
    may still come first. *)
Definition earliest (a b : option (N * ExitStatus)) : option (N * ExitStatus) :=
  match a, b with
  | Some (t, s), Some (t', s') => if (t <=? t')%N then Some (t, s) else Some (t', s')
  | Some x, None | None, Some x => Some x
  | None, None => None
  end.
Definition after (start : N) (o : option (N * ExitStatus)) : option (N * ExitStatus) :=
  match o with Some (t, s) => Some ((start + t)%N, s) | None => None end.
Definition stop_group (start grace : N) (child : Child) : N * ExitStatus * list TermSignal :=
  let termed := earliest child.(ch_exits) (after start child.(ch_on_term)) in
  match timeout_wait start grace termed with
  | Some (t, s) => (t, s, [SigTerm])
  | None =>
      let killed := ((start + grace + child.(ch_on_kill).1)%N, child.(ch_on_kill).2) in
      match earliest termed (Some killed) with
      | Some (t, s) => (t, s, [SigTerm; SigKill])
      | None => (killed, [SigTerm; SigKill])
      end
  end.
(** The wait of [run]: the time of the exit, the status, the signals sent and whether
    the limit was hit; [None] when the wait never ends. *)
Definition run_wait (start : N) (timeout : option N) (grace : N) (child : Child) :
    option (N * ExitStatus * list TermSignal * bool) :=
  match timeout with
  | Some limit =>
      match timeout_wait start limit child.(ch_exits) with
      | Some (t, s) => Some (t, s, [], false)
      | None => Some (stop_group (start + limit) grace child, true)
      end
  | None => match child.(ch_exits) with Some (t, s) => Some (N.max start t, s, [], false) | None => None end
  end.
(** [run] of a child that was spawned: it writes the input before it waits, and returns
    when the pipes are closed.  The result comes with the time and the signals sent. *)
Definition run_child (spec : RunSpec) (child : Child) : option (result (N * list TermSignal * RunOutput) RunError) :=
  let wait start :=
    match run_wait start spec.(sp_timeout) spec.(sp_grace_period) child with
    | None => None
    | Some (t, s, signals, timed_out) =>
        match child.(ch_pipes_close) with
        | None => None
        | Some d =>
            Some (Ok ((t + d)%N, signals,
              mkOutput s.(es_code) s.(es_signal) child.(ch_stdout) child.(ch_stderr) timed_out))
        end
    end in
  match spec.(sp_stdin), child.(ch_stdin) with
  | None, _ => wait 0%N
  | Some _, StdinTaken start => wait start
  | Some _, StdinBroken => Some (Err (Spawn KBrokenPipe ""))
  | Some _, StdinStuck => None
  end.
Definition run (env : RunEnv) (spawn : Command → result Child (IoKind * string)) (spec : RunSpec) :
    option (result RunOutput RunError) :=
  match build_command env spec with
  | Err e => Some (Err e)
  | Ok (command, _) =>
      match spawn_err (spawn command) with
      | Err e => Some (Err e)
      | Ok child =>
          match run_child spec child with
          | None => None
          | Some (Err e) => Some (Err e)
          | Some (Ok (_, _, out)) => Some (Ok out)
          end
      end
  end.

(** ** The controlled wait of a live exec *)

Inductive Branch := BrExited | BrCancelled | BrTimedOut.
#[export] Instance Branch_eq_dec : EqDecision Branch.
Proof. solve_decision. Defined.
(** When each branch of the [select!] becomes ready; of those ready first any may be
    taken. *)
Definition branch_time (spec : RunSpec) (child : Child) (cancel : option N) (b : Branch) : option N :=
  match b with
  | BrExited => fst <$> child.(ch_exits)
  | BrCancelled => cancel
  | BrTimedOut => spec.(sp_timeout)
  end.
Definition may_win (spec : RunSpec) (child : Child) (cancel : option N) (b : Branch) : Prop :=
  ∃ t, branch_time spec child cancel b = Some t ∧
    ∀ b' t', branch_time spec child cancel b' = Some t' → (t <= t')%N.
Inductive ControlledExecResult :=
| Finished (output : RunOutput)
| Cancelled (output : RunOutput) (killed_process_group : bool).

Definition controlled_wait (spec : RunSpec) (child : Child) (cancel : option N) (b : Branch) :
    option (N * ExitStatus * list TermSignal) :=
  match b, branch_time spec child cancel b, child.(ch_exits) with
  | BrExited, _, Some (t, s) => Some (t, s, [])
  | (BrCancelled | BrTimedOut), Some t, _ => Some (stop_group t spec.(sp_grace_period) child)
  | _, _, _ => None
  end.
(** The stdin task ends at an end-of-file frame or when a write fails, which it does
    once the child is gone; the channel stays open while the run is registered. *)
Fixpoint stdin_task_end (exited : N) (frames : list (N * option (list Byte.byte))) : option N :=
  match frames with
  | [] => None
  | (t, None) :: _ => Some t
  | (t, Some _) :: frames => if (exited <=? t)%N then Some t else stdin_task_end exited frames
  end.
Definition run_controlled_exec (env : RunEnv) (request : ExecRequest) (a : Allowance) (child : Child) (cancel : option N)
    (frames : list (N * option (list Byte.byte))) (b : Branch) : option (N * ControlledExecResult) :=
  let spec := live_run_spec env request a in
  match controlled_wait spec child cancel b with
  | None => None
  | Some (t, s, signals) =>
      match if request.(er_stdin) then stdin_task_end t frames else Some t with
      | None => None
      | Some t' =>
          match child.(ch_pipes_close) with
          | None => None
          | Some d =>
              let output := mkOutput s.(es_code) s.(es_signal) child.(ch_stdout) child.(ch_stderr) false in
              Some (N.max t' (t + d), if bool_decide (b = BrCancelled)
                then Cancelled output (bool_decide (SigKill ∈ signals)) else Finished output)
          end
      end
  end.

(** ** Bounds on the run *)

Lemma stop_group_bound start grace child :
  let '(t, s, signals) := stop_group start grace child in
  (t <= start + grace + child.(ch_on_kill).1)%N ∧
  (signals = [SigTerm] ∨ signals = [SigTerm; SigKill]) ∧
  (signals = [SigTerm] ↔ ∃ t' s', earliest child.(ch_exits) (after start child.(ch_on_term)) = Some (t', s') ∧ (t' <= start + grace)%N).
Proof.
  unfold stop_group, timeout_wait. destruct (earliest (ch_exits child) _) as [[t s]|] eqn:E.
  2: { simpl. split_and!; [lia|by right|]. split; [done|]. by intros (? & ? & ? & ?). }
  destruct (N.leb_spec t (start + grace)).
  - split_and!; [lia|by left|]. split; [|done]. intros _. by exists t, s.
  - simpl. destruct (N.leb_spec t (start + grace + (ch_on_kill child).1)); simpl;
      (split_and!; [lia|by right|]; split; [done|intros (? & ? & [= <- <-] & ?); lia]).
Qed.
Lemma run_wait_bound start limit grace child :
  ∃ t s signals timed_out, run_wait start (Some limit) grace child = Some (t, s, signals, timed_out) ∧
    (t <= N.max start (start + limit + grace + child.(ch_on_kill).1))%N ∧
    (timed_out = false ↔ ∃ t' s', child.(ch_exits) = Some (t', s') ∧ (t' <= start + limit)%N) ∧
    (signals = [] ↔ timed_out = false).
Proof.
  unfold run_wait, timeout_wait. destruct (ch_exits child) as [[t s]|] eqn:E.
  - destruct (N.leb_spec t (start + limit)).
    + eexists _, _, _, _. split; [done|]. split_and!; [lia| |done]. split; [|done]. intros _. by exists t, s.
    + pose proof (stop_group_bound (start + limit) grace child) as Hb.
      destruct (stop_group (start + limit) grace child) as [[t' s'] sg]. destruct Hb as (Hb & Hs & _).
      eexists _, _, _, _. split; [done|]. split_and!; [lia| |by destruct Hs as [-> | ->]].
      split; [done|]. intros (? & ? & [= <- <-] & ?). lia.
  - pose proof (stop_group_bound (start + limit) grace child) as Hb.
    destruct (stop_group (start + limit) grace child) as [[t' s'] sg]. destruct Hb as (Hb & Hs & _).
    eexists _, _, _, _. split; [done|]. split_and!; [lia| |by destruct Hs as [-> | ->]].
    split; [done|]. by intros (? & ? & [=] & ?).
Qed.

(** ** What is spawned *)

(** The restrictions handed to the backend. *)
Definition spawn_restrictions (env : RunEnv) (spec : RunSpec) (interactive : bool) (profile : option string) : Restrictions :=
  let r := restrictions_for spec (sanitize_env env.(re_vars) spec.(sp_env) spec.(sp_env_allowlist)) in
  set_profile profile (if interactive then set_interactive r else r).
Definition container_of (spec : RunSpec) : ContainerSandbox :=
  mkContainer spec.(sp_container_runtime) (unwrap_or spec.(sp_container_image) DEFAULT_IMAGE).
(** The values a specification must have for its command line to be read as written: an
    image is not an option, no path is the separator (only looked for when a filter is
    spliced in), and caps are of 64 bits. *)
Record spec_ok (spec : RunSpec) : Prop := {
  so_image : starts_with "-" (unwrap_or spec.(sp_container_image) DEFAULT_IMAGE) = false;
  so_paths : Forall (.≠ "--") (spec.(sp_cwd) :: spec.(sp_read_only_paths) ++ spec.(sp_writable_paths));
  so_limits : limits_fit spec.(sp_resources);
}.

(** What [bwrap] is told for a specification. *)
Definition bwrap_enforces (arity : string → option nat) (spec : RunSpec) (fd : option N) (inner : list string) : Prop :=
  ∃ args opts, inner = BWRAP :: args ∧ read_args arity args None = Some (opts, spec.(sp_command)) ∧
    values "--cap-drop" opts = [["ALL"]] ∧
    values "--chdir" opts = [[spec.(sp_cwd)]] ∧
    (("--unshare-net", []) ∈ opts ↔ spec.(sp_network) = NetworkDeny) ∧
    (∀ path, access opts path = Some HostWritable ↔ below spec.(sp_writable_paths) path = true) ∧
    (∀ path, access opts path = Some HostReadOnly ↔
       below spec.(sp_writable_paths) path = false ∧ below spec.(sp_read_only_paths) path = true) ∧
    values "--seccomp" opts = (if fd is Some n then [[pretty n]] else []) ∧
    (is_Some fd ↔ spec.(sp_seccomp) = ModeDefault).
(** What the container runtime is told; [vars] is the environment of its client, of which each
    [--env] names a variable to pass on. *)
Definition container_enforces (arity : string → option nat) (spec : RunSpec) (vars : gmap string string) (inner : list string) : Prop :=
  ∃ args opts, inner = runtime_program spec.(sp_container_runtime) :: "run" :: args ∧
    read_args arity args None = Some (opts, unwrap_or spec.(sp_container_image) DEFAULT_IMAGE :: spec.(sp_command)) ∧
    values "--read-only" opts = [[]] ∧
    values "--workdir" opts = [[spec.(sp_cwd)]] ∧
    values "--env" opts = map (λ k, [k]) (btree_keys vars) ∧
    (("--network", ["none"]) ∈ opts ↔ spec.(sp_network) = NetworkDeny) ∧
    (("--cap-drop", ["ALL"]) ∈ opts ↔ is_Some spec.(sp_run_uid)) ∧
    values "--pids-limit" opts = (if spec.(sp_resources).(rl_max_processes) is Some n then [[pretty n]] else []) ∧
    values "--memory" opts = (if spec.(sp_resources).(rl_max_memory_bytes) is Some n then [[pretty n]] else []) ∧
    values "--ulimit" opts = (if spec.(sp_resources).(rl_max_cpu_seconds) is Some n
      then [["cpu=" +:+ pretty n +:+ ":" +:+ pretty n]] else []) ∧
    values "--volume" opts = map (λ p, [p +:+ ":" +:+ p +:+ ":ro"]) spec.(sp_read_only_paths) ++
      map (λ p, [p +:+ ":" +:+ p]) spec.(sp_writable_paths) ∧
    (spec.(sp_seccomp) = ModeDefault → ∃ p, ("--security-opt", ["seccomp=" +:+ p]) ∈ opts).
(** The argument vector applies the specification: through the launcher, which applies
    the caps and on the bare path the filter, where there is anything to apply. *)
Definition launched (spec : RunSpec) (is_none : bool) (argv inner : list string) : Prop :=
  if launcher_is_needed spec.(sp_resources) spec.(sp_seccomp) is_none then
    ∃ exe args, argv = exe :: LAUNCHER_SUBCOMMAND :: args ∧
      launcher_parse args = Ok (mkLauncher spec.(sp_resources) (if is_none then spec.(sp_seccomp) else ModeOff) inner)
  else argv = inner.
Definition argv_confined (bw ct : string → option nat) (spec : RunSpec) (vars : gmap string string) (fd : option N) (argv : list string) : Prop :=
  match spec.(sp_sandbox) with
  | BackendNone => launched spec true argv spec.(sp_command)
  | BackendBubblewrap => ∃ inner, launched spec false argv inner ∧ bwrap_enforces bw spec fd inner
  | BackendContainer => container_enforces ct spec vars argv
  end.

Lemma launcher_wrap_launched env spec (is_none : bool) argv argv' :
  spec.(sp_sandbox) = (if is_none then BackendNone else BackendBubblewrap) → limits_fit spec.(sp_resources) → argv ≠ [] →
  launcher_wrap env spec argv = Ok argv' → launched spec is_none argv' argv.
Proof.
  intros Hs Hl Ha. unfold launcher_wrap, launched. rewrite Hs.
  assert (∀ b, launcher_parse (to_args (mkLauncher (sp_resources spec) (if b : bool then sp_seccomp spec else ModeOff) argv)) =
    Ok (mkLauncher (sp_resources spec) (if b then sp_seccomp spec else ModeOff) argv)) as Hp
    by (intros; by apply launcher_parse_to_args).
  destruct is_none; (destruct (launcher_is_needed _ _ _) eqn:En; cbn [negb]; [|by intros [= <-]]);
    (destruct (re_current_exe env) as [exe|[k m]]; [|done]); intros [= <-]; (eexists _, _; split; [reflexivity|]);
    [apply (Hp true) | apply (Hp false)].
Qed.

Lemma bwrap_spawn_enforces `{Hcli : !BwrapCli bw} env spec interactive profile argv fd :
  spec.(sp_sandbox) = BackendBubblewrap → spec_ok spec →
  inject_bubblewrap_seccomp env spec
    (pr_argv (bubblewrap_prepare spec.(sp_command) (spawn_restrictions env spec interactive profile))) = Ok (argv, fd) →
  bwrap_enforces bw spec fd argv.
Proof.
  intros Hs [_ Hp _]. set (r := spawn_restrictions env spec interactive profile).
  assert (rs_network r = sp_network spec ∧ rs_read_only_paths r = sp_read_only_paths spec ∧
    rs_writable_paths r = sp_writable_paths spec ∧ rs_cwd r = sp_cwd spec) as (Hnet & Hro & Hrw & Hcwd)
    by (unfold r, spawn_restrictions; by destruct interactive).
  destruct (bwrap_values r) as (Hn & _ & Hc & _ & Hch). rewrite Hcwd in Hch.
  assert (values "--seccomp" (bwrap_options r) = []) as Hnone by (unfold bwrap_options; by values_of).
  assert (("--unshare-net", []) ∈ bwrap_options r ↔ sp_network spec = NetworkDeny) as Hnet'.
  { rewrite <- values_elem, Hn, Hnet. clear. destruct (sp_network spec); simpl; rewrite ?list_elem_of_singleton, ?elem_of_nil; naive_solver. }
  pose proof (bwrap_access_iff r) as Hacc. rewrite Hro, Hrw in Hacc.
  unfold inject_bubblewrap_seccomp. rewrite Hs, bool_decide_true by done. cbn [negb orb].
  destruct (sp_seccomp spec) eqn:Em; cbn [seccomp_is_on negb].
  - intros [= <- <-]. destruct (bubblewrap_read (arity := bw) (sp_command spec) r) as (args & Ha & Hr).
    exists args, (bwrap_options r). split_and!; [done..| | |done|by rewrite Em; split; [intros []|]].
    all: intros path; apply Hacc.
  - unfold spawn_err. destruct (re_memfd env) as [n|[k m]]; [|done]. intros [= <- <-].
    destruct (bubblewrap_seccomp_read (arity := bw) (sp_command spec) r n) as (args & Ha & Hr); [by rewrite Hro, Hrw, Hcwd|].
    exists args, (bwrap_options r ++ [("--seccomp", [pretty n])]).
    assert (∀ path, access (bwrap_options r ++ [("--seccomp", [pretty n])]) path = access (bwrap_options r) path) as Hacc'.
    { intros path. unfold access. rewrite foldl_app. reflexivity. }
    split_and!; [done|done| | | | | | |by rewrite Em; split; [|by eexists]].
    + by rewrite values_app, Hc.
    + by rewrite values_app, Hch.
    + rewrite elem_of_app, list_elem_of_singleton, <- Hnet'. clear. naive_solver.
    + intros path. rewrite Hacc'. apply Hacc.
    + intros path. rewrite Hacc'. apply Hacc.
    + by rewrite values_app, Hnone.
Qed.
Lemma container_spawn_enforces `{Hcli : !ContainerCli ct} env spec interactive profile :
  spec.(sp_sandbox) = BackendContainer → spec_ok spec →
  container_seccomp_profile_path env spec = Ok profile →
  container_enforces ct spec (sanitize_env env.(re_vars) spec.(sp_env) spec.(sp_env_allowlist))
    (pr_argv (container_prepare (container_of spec) spec.(sp_command) (spawn_restrictions env spec interactive profile))).
Proof.
  intros Hs [Hi _ _] Hprof. set (r := spawn_restrictions env spec interactive profile).
  assert (rs_network r = sp_network spec ∧ rs_read_only_paths r = sp_read_only_paths spec ∧
    rs_writable_paths r = sp_writable_paths spec ∧ rs_resources r = sp_resources spec ∧ rs_run_uid r = sp_run_uid spec ∧
    rs_seccomp r = sp_seccomp spec ∧ rs_seccomp_profile_path r = profile ∧ rs_cwd r = sp_cwd spec ∧
    rs_env r = sanitize_env env.(re_vars) spec.(sp_env) spec.(sp_env_allowlist)) as (Hnet & Hro & Hrw & Hres & Huid & Hsec & Hpp & Hcwd & Henv)
    by (unfold r, spawn_restrictions; by destruct interactive).
  destruct (container_read (arity := ct) (container_of spec) (sp_command spec) r Hi) as (args & Ha & Hr).
  destruct (container_values (container_of spec) r) as (Hroot & Hn & Hc & Hev & Hp & Hm & Hu & Hwd & Hso & Hv).
  rewrite Henv in Hev. rewrite Hcwd in Hwd.
  rewrite Hnet in Hn. rewrite Huid in Hc. rewrite Hres in Hp, Hm, Hu. rewrite Hro, Hrw in Hv. rewrite Hsec, Hpp in Hso.
  exists args, (container_options (container_of spec) r). split_and!; [done|done|done|done|done| | |done|done|done|done|].
  - rewrite <- values_elem, Hn. clear. destruct (sp_network spec); simpl; rewrite ?list_elem_of_singleton, ?elem_of_nil; naive_solver.
  - rewrite <- values_elem, Hc. clear. destruct (sp_run_uid spec); simpl; rewrite ?list_elem_of_singleton, ?elem_of_nil; naive_solver.
  - intros Hd. unfold container_seccomp_profile_path in Hprof. rewrite Hs, Hd, bool_decide_true in Hprof by done.
    simpl in Hprof. destruct (spawn_err (re_write_profile env)) as [p|]; [|done]. injection Hprof as <-.
    exists p. rewrite <- values_elem, Hso, Hd. apply elem_of_app. right. by apply list_elem_of_singleton.
Qed.

Lemma resolve_container spec : spec.(sp_sandbox) = BackendContainer → resolve_sandbox spec = container_sandbox (container_of spec).
Proof. intros Hs. unfold resolve_sandbox, sandbox_for_container, container_of. rewrite Hs. by destruct (sp_container_image spec). Qed.
Lemma prepare_restrictions spec argv r : pr_restrictions (sb_prepare (resolve_sandbox spec) argv r) = r.
Proof. unfold resolve_sandbox, sandbox_for_container. destruct (sp_sandbox spec), (sp_container_image spec); reflexivity. Qed.

(** The common end of the two ways to spawn. *)
Definition assembled (env : RunEnv) (spec : RunSpec) (interactive : bool) (fd : option N) (argv : list string) : Prop :=
  ∃ profile prepared_argv,
    container_seccomp_profile_path env spec = Ok profile ∧
    inject_bubblewrap_seccomp env spec
      (pr_argv (sb_prepare (resolve_sandbox spec) spec.(sp_command) (spawn_restrictions env spec interactive profile)))
      = Ok (prepared_argv, fd) ∧
    launcher_wrap env spec prepared_argv = Ok argv.
Lemma assembled_confined `{Hb : !BwrapCli bw} `{Hc : !ContainerCli ct} env spec interactive fd argv :
  spec_ok spec → spec.(sp_command) ≠ [] → assembled env spec interactive fd argv →
  argv_confined bw ct spec (sanitize_env env.(re_vars) spec.(sp_env) spec.(sp_env_allowlist)) fd argv.
Proof.
  intros Hok Hcmd (profile & pargv & Hp & Hi & Hl). unfold argv_confined. destruct (sp_sandbox spec) eqn:Hs.
  - unfold inject_bubblewrap_seccomp in Hi. rewrite Hs in Hi. simpl in Hi. injection Hi as <- <-.
    unfold resolve_sandbox in Hl. rewrite Hs in Hl. simpl in Hl.
    by eapply (launcher_wrap_launched env spec true); [..|exact Hl]; [done|apply Hok|].
  - unfold resolve_sandbox in Hi. rewrite Hs in Hi. exists pargv.
    assert (bwrap_enforces bw spec fd pargv) as He by by eapply bwrap_spawn_enforces.
    split; [|done]. eapply (launcher_wrap_launched env spec false); [done|apply Hok| |exact Hl].
    destruct He as (? & ? & -> & _). done.
  - rewrite resolve_container in Hi by done. unfold inject_bubblewrap_seccomp in Hi. rewrite Hs in Hi. simpl in Hi.
    injection Hi as <- <-. unfold launcher_wrap in Hl. rewrite Hs in Hl. injection Hl as <-.
    by apply container_spawn_enforces.
Qed.

Record spawn_facts (env : RunEnv) (spec : RunSpec) (interactive : bool) (cmd : Command) (fd : option N) : Prop := {
  sf_nonempty : spec.(sp_command) ≠ [];
  sf_dir : env.(re_is_dir) spec.(sp_cwd) = true;
  sf_current_dir : cmd.(cm_current_dir) = spec.(sp_cwd);
  sf_env : cmd.(cm_env) = sanitize_env env.(re_vars) spec.(sp_env) spec.(sp_env_allowlist);
  sf_group : cmd.(cm_process_group) = true;
  sf_argv : assembled env spec interactive fd (cmd.(cm_program) :: cmd.(cm_args));
}.
(** The steps both functions share after the preflight. *)
Lemma spawn_tail env spec interactive stdin res :
  spec.(sp_command) ≠ [] → env.(re_is_dir) spec.(sp_cwd) = true →
  (let? profile := container_seccomp_profile_path env spec in
   let r := spawn_restrictions env spec interactive profile in
   let prepared := sb_prepare (resolve_sandbox spec) spec.(sp_command) r in
   let? (prepared_argv, seccomp_fd) := inject_bubblewrap_seccomp env spec prepared.(pr_argv) in
   let? argv := launcher_wrap env spec prepared_argv in
   match argv with
   | [] => Err RunEmptyCommand
   | program :: args =>
       Ok (mkCommand program args prepared.(pr_restrictions).(rs_cwd) prepared.(pr_restrictions).(rs_env) stdin true, seccomp_fd)
   end) = Ok res → spawn_facts env spec interactive res.1 res.2.
Proof.
  intros Hc Hd. destruct (container_seccomp_profile_path env spec) as [profile|] eqn:Hp; [|done]. cbn zeta.
  destruct (inject_bubblewrap_seccomp env spec _) as [[pargv fd]|] eqn:Hi; [|done].
  destruct (launcher_wrap env spec pargv) as [argv|] eqn:Hl; [|done].
  destruct argv as [|program args]; [done|]. intros [= <-]. rewrite prepare_restrictions.
  split; [done|done| | |done|]; [by destruct interactive..|]. by exists profile, pargv.
Qed.
Lemma build_command_facts env spec res : build_command env spec = Ok res → spawn_facts env spec false res.1 res.2.
Proof.
  unfold build_command. destruct (sp_command spec) as [|c cs] eqn:Hc; [done|]. rewrite <- Hc.
  destruct (re_is_dir env (sp_cwd spec)) eqn:Hd; [|done]. cbn [negb].
  destruct (preflight_backend_in _ _ _ _); [|done]. apply (spawn_tail env spec false); [by rewrite Hc|done].
Qed.
Lemma pty_spawn_facts env open_pty spec res : pty_spawn_command env open_pty spec = Ok res → spawn_facts env spec true res.1 res.2.
Proof.
  unfold pty_spawn_command. destruct (sp_command spec) as [|c cs] eqn:Hc; [done|]. rewrite <- Hc.
  destruct (re_is_dir env (sp_cwd spec)) eqn:Hd; [|done]. cbn [negb]. destruct (spawn_err open_pty); [|done].
  destruct (preflight_backend_in _ _ _ _); [|done]. apply (spawn_tail env spec true); [by rewrite Hc|done].
Qed.

(** C20: whatever the runner spawns, for a batch command or on a terminal, is the
    specified command under the confinement that its backend gives, provided the image is
    not written like an option, no path is the separator and the caps are of 64 bits.  The
    spawned process starts in the specified directory, which exists, in its own process group,
    with exactly the sanitized environment, and nothing is spawned without a command.  With
    no backend the command runs as given, through the launcher when a cap or the filter is
    to be applied; network, mounts and capabilities are then not restricted.  With
    bubblewrap the innermost command line is read by [bwrap] as the command in its
    directory, without capabilities, with the specified network, mounts and filter, and the
    launcher around it applies the caps but not the filter.  With a container the runtime
    is told the same: the directory, the variables of the environment to pass on, a
    read-only root, the network, the mounts, the caps and the filter, and to drop
    capabilities where the run has a user id. *)
Theorem spawned_command_confined `{Hb : !BwrapCli bw} `{Hc : !ContainerCli ct} env open_pty spec cmd fd :
  spec_ok spec →
  build_command env spec = Ok (cmd, fd) ∨ pty_spawn_command env open_pty spec = Ok (cmd, fd) →
  spec.(sp_command) ≠ [] ∧ env.(re_is_dir) spec.(sp_cwd) = true ∧ cmd.(cm_current_dir) = spec.(sp_cwd) ∧
  cmd.(cm_env) = sanitize_env env.(re_vars) spec.(sp_env) spec.(sp_env_allowlist) ∧ cmd.(cm_process_group) = true ∧
  argv_confined bw ct spec cmd.(cm_env) fd (cmd.(cm_program) :: cmd.(cm_args)).
Proof.
  intros Hok Hspawn.
  assert (∃ interactive, spawn_facts env spec interactive cmd fd) as [interactive [H1 H2 H3 H4 H5 H6]].
  { destruct Hspawn as [H|H]; [exists false; by apply build_command_facts in H|exists true; by apply pty_spawn_facts in H]. }
  split_and!; [done..|]. rewrite H4. by eapply assembled_confined.
Qed.
(** The theorem applied to a host with [bwrap] and a command with caps and a filter. *)
Module Sample.
Definition env : RunEnv :=
  {| re_vars := [("PATH", "/usr/bin"); ("GITHUB_TOKEN", "t")]; re_path := "/bin:/usr/bin"; re_is_dir _ := true;
     re_exists p := p =s "/usr/bin/bwrap"; re_current_exe := Ok "/usr/bin/mx-agent"; re_write_profile := Ok "/p.json";
     re_memfd := Ok 7%N; re_uid := 1000; re_gid := 1000 |}.
Definition spec : RunSpec :=
  mkSpec ["ls"; "--"] "/work" ∅ [] None (Some 1000%N) 5000 BackendBubblewrap NetworkDeny ["/usr"] ["/work"] RtDocker None
    (mkLimits (Some 64%N) None None) ModeDefault None None.
Definition child (exits : option (N * ExitStatus)) : Child :=
  mkChild (StdinTaken 0) exits (Some (100%N, mkStatus None (Some 15%Z))) (10%N, mkStatus None (Some 9%Z)) (Some 0%N) [] [].
End Sample.
Lemma spawned_command_confined_witness :
  ∃ cmd, build_command Sample.env Sample.spec = Ok (cmd, Some 7%N) ∧
    cmd.(cm_env) = {["PATH" := "/usr/bin"]} ∧
    ∃ inner, launched Sample.spec false (cmd.(cm_program) :: cmd.(cm_args)) inner ∧
      bwrap_enforces (manual_arity bwrap_manual) Sample.spec (Some 7%N) inner.
Proof.
  destruct (build_command Sample.env Sample.spec) as [[cmd fd]|] eqn:E; [|vm_compute in E; discriminate E].
  assert (fd = Some 7%N) as -> by (vm_compute in E; injection E as _ <-; reflexivity).
  exists cmd. split; [reflexivity|].
  destruct (spawned_command_confined (bw := manual_arity bwrap_manual) (ct := manual_arity container_manual)
    Sample.env (Ok tt) Sample.spec cmd (Some 7%N)) as (_ & _ & _ & He & _ & Hc).
  - split; [reflexivity|repeat constructor; discriminate|].
    split_and!; intros n Hn; vm_compute in Hn; try discriminate Hn. injection Hn as <-. vm_compute. discriminate.
  - left. exact E.
  - split; [rewrite He; vm_compute; reflexivity|exact Hc].
Defined.

Definition stdin_taken (spec : RunSpec) (child : Child) (start : N) : Prop :=
  match spec.(sp_stdin) with Some _ => child.(ch_stdin) = StdinTaken start | None => start = 0%N end.
Lemma run_child_waits spec child start :
  stdin_taken spec child start →
  run_child spec child =
    match run_wait start spec.(sp_timeout) spec.(sp_grace_period) child, child.(ch_pipes_close) with
    | Some (t, s, signals, timed_out), Some d =>
        Some (Ok ((t + d)%N, signals, mkOutput s.(es_code) s.(es_signal) child.(ch_stdout) child.(ch_stderr) timed_out))
    | _, _ => None
    end.
Proof. unfold stdin_taken, run_child. destruct (sp_stdin spec); intros ->; by repeat case_match. Qed.

(** C35: a run with a time limit ends, once the child has taken its input and provided the
    output pipes close some time after the child is gone: [run] then returns no later than the
    limit, the grace period and the time SIGKILL takes, plus the time the pipes stay open.
    A child that exits within the limit is not signalled and its own status is reported;
    any other is reported as timed out after SIGTERM, and SIGKILL follows exactly when it
    did not exit within the grace period. *)
Theorem run_bounded spec child limit start d :
  spec.(sp_timeout) = Some limit →
  stdin_taken spec child start →
  child.(ch_pipes_close) = Some d →
  ∃ t signals out, run_child spec child = Some (Ok (t, signals, out)) ∧
    (t <= start + limit + spec.(sp_grace_period) + child.(ch_on_kill).1 + d)%N ∧
    (out.(ro_timed_out) = false ↔ ∃ t' s, child.(ch_exits) = Some (t', s) ∧ (t' <= start + limit)%N) ∧
    (out.(ro_timed_out) = false → signals = [] ∧ ∃ t' s, child.(ch_exits) = Some (t', s) ∧
       out.(ro_exit_code) = s.(es_code) ∧ out.(ro_signal) = s.(es_signal)) ∧
    (out.(ro_timed_out) = true →
       let in_grace := ∃ t' s, earliest child.(ch_exits) (after (start + limit) child.(ch_on_term)) = Some (t', s) ∧
                               (t' <= start + limit + spec.(sp_grace_period))%N in
       (signals = [SigTerm] ∧ in_grace) ∨ (signals = [SigTerm; SigKill] ∧ ¬ in_grace)).
Proof.
  intros Ht Hs Hd. rewrite (run_child_waits _ _ _ Hs), Ht, Hd. unfold run_wait, timeout_wait.
  pose proof (stop_group_bound (start + limit) (sp_grace_period spec) child) as Hb.
  destruct (stop_group (start + limit) (sp_grace_period spec) child) as [[t s] sg]. destruct Hb as (Hb & Hsg & Hterm).
  assert (let in_grace := ∃ t' s, earliest child.(ch_exits) (after (start + limit) child.(ch_on_term)) = Some (t', s) ∧
      (t' <= start + limit + spec.(sp_grace_period))%N in
    (sg = [SigTerm] ∧ in_grace) ∨ (sg = [SigTerm; SigKill] ∧ ¬ in_grace)) as Hsg'.
  { destruct Hsg as [->| ->]; [left; split; [done|by apply Hterm]|]. right. split; [done|]. intros Hg.
    by assert ([SigTerm; SigKill] = [SigTerm]) by by apply Hterm. }
  destruct (ch_exits child) as [[t' s']|] eqn:Ex; [destruct (N.leb_spec t' (start + limit))|].
  - eexists _, _, _. split; [done|]. cbn. split_and!; [lia|split; eauto|eauto 10|done].
  - eexists _, _, _. split; [done|]. cbn. split_and!; [lia| |done|done].
    split; [done|]. intros (? & ? & [= <- <-] & ?). lia.
  - eexists _, _, _. split; [done|]. cbn. split_and!; [lia| |done|done].
    split; [done|]. by intros (? & ? & [=] & ?).
Qed.
(** The theorem applied to a child that never exits by itself. *)
Lemma run_bounded_witness :
  ∃ t signals out, run_child Sample.spec (Sample.child None) = Some (Ok (t, signals, out)) ∧ (t <= 6010)%N ∧
    out.(ro_timed_out) = true ∧ signals = [SigTerm].
Proof.
  destruct (run_bounded Sample.spec (Sample.child None) 1000 0 0 eq_refl eq_refl eq_refl) as (t & signals & out & Hr & Hb & Ht & _ & _).
  exists t, signals, out. assert (Hr' := Hr). vm_compute in Hr'. injection Hr' as <- <- <-.
  split_and!; [exact Hr|exact Hb|reflexivity|reflexivity].
Defined.

(** A live exec with an open standard input is not reported when it ends.  If the
    requester has sent no end-of-file and nothing after the command is gone, the handler
    never returns, whether the command exited, was cancelled or timed out, since it
    first waits for a task that waits for the next frame; without standard input it
    returns, and so it does when one more frame arrives. *)
Theorem open_stdin_withholds_result env request a child cancel frames b t s signals :
  controlled_wait (live_run_spec env request a) child cancel b = Some (t, s, signals) →
  (request.(er_stdin) = true → Forall (λ f, f.2 ≠ None ∧ (f.1 < t)%N) frames →
     run_controlled_exec env request a child cancel frames b = None) ∧
  (request.(er_stdin) = true → Exists (λ f, f.2 = None ∨ (t <= f.1)%N) frames → is_Some child.(ch_pipes_close) →
     is_Some (run_controlled_exec env request a child cancel frames b)) ∧
  (request.(er_stdin) = false → is_Some child.(ch_pipes_close) →
     is_Some (run_controlled_exec env request a child cancel frames b)).
Proof.
  intros Hw. unfold run_controlled_exec. rewrite Hw. split_and!.
  - intros -> Hf. assert (stdin_task_end t frames = None) as ->; [|done].
    induction Hf as [|[t' [bytes|]] frames [Hn Hlt] _ IH]; simpl in *; [done| |done].
    by rewrite (proj2 (N.leb_gt _ _) Hlt).
  - intros -> Hf [d ->]. assert (is_Some (stdin_task_end t frames)) as [e ->]; [|by eexists].
    induction Hf as [[t' [bytes|]] frames H|[t' [bytes|]] frames _ IH]; simpl in *; try by eexists.
    + destruct H as [H|H]; [done|]. rewrite (proj2 (N.leb_le _ _) H). by eexists.
    + destruct (t <=? t')%N; [by eexists|done].
  - intros -> [d ->]. by eexists.
Qed.
(** The theorem applied to a command that was cancelled while its input was open. *)
Lemma open_stdin_withholds_result_witness :
  ∃ t s signals,
    controlled_wait (live_run_spec Sample.env (LiveAuth.Sample.request "inv" "n") Allowance_default) (Sample.child None) (Some 500%N) BrCancelled
      = Some (t, s, signals) ∧ signals = [SigTerm] ∧
    run_controlled_exec Sample.env (LiveAuth.Sample.request "inv" "n") Allowance_default (Sample.child None) (Some 500%N)
      [(100%N, Some [])] BrCancelled = None.
Proof.
  destruct (controlled_wait (live_run_spec Sample.env (LiveAuth.Sample.request "inv" "n") Allowance_default) (Sample.child None)
    (Some 500%N) BrCancelled) as [[[t s] signals]|] eqn:E; [|vm_compute in E; discriminate E].
  exists t, s, signals. split; [reflexivity|].
  destruct (open_stdin_withholds_result _ _ _ _ _ [(100%N, Some [])] _ _ _ _ E) as [H _].
  vm_compute in E. injection E as <- <- <-. split; [reflexivity|].
  apply H; [vm_compute; reflexivity|]. apply Forall_cons. split; [|constructor].
  split; [discriminate|vm_compute; reflexivity].
Defined.

(** ** Writing the input before reading the output

    The bytes of a run whose child copies its input to its output: what [run] still has
    to write, what is in the input pipe, in the child's buffer and in the output pipe.
    [run] begins to read the output when its write has ended. *)
Section Deadlock.
Context (pipe buffer : N).
Record Flow := mkFlow { fl_to_write : N; fl_in_pipe : N; fl_held : N; fl_out_pipe : N }.
Inductive flow_step : Flow → Flow → Prop :=
| run_writes w i h o k :
    (0 < k <= w)%N → (i + k <= pipe)%N → flow_step (mkFlow w i h o) (mkFlow (w - k) (i + k) h o)
| child_reads w i h o k :
    (0 < k <= i)%N → (h + k <= buffer)%N → flow_step (mkFlow w i h o) (mkFlow w (i - k) (h + k) o)
| child_writes w i h o k :
    (0 < k <= h)%N → (o + k <= pipe)%N → flow_step (mkFlow w i h o) (mkFlow w i (h - k) (o + k))
| run_reads i h o k :
    (0 < k <= o)%N → flow_step (mkFlow 0 i h o) (mkFlow 0 i h (o - k)).
Definition flow_start (input : N) : Flow := mkFlow input 0 0 0.

Lemma flow_total input f :
  rtc flow_step (flow_start input) f → (fl_to_write f + fl_in_pipe f + fl_held f + fl_out_pipe f <= input)%N.
Proof.
  assert (∀ f f', rtc flow_step f f' →
    (fl_to_write f' + fl_in_pipe f' + fl_held f' + fl_out_pipe f' <=
     fl_to_write f + fl_in_pipe f + fl_held f + fl_out_pipe f)%N) as Hle.
  { induction 1 as [|f1 f2 f3 Hstep _ IH]; [done|]. destruct Hstep; simpl in *; lia. }
  intros Hr. apply Hle in Hr. simpl in Hr. lia.
Qed.
(** What has been written is in the pipes and the buffer. *)
Lemma flow_blocked input f :
  (2 * pipe + buffer < input)%N → rtc flow_step (flow_start input) f → (0 < fl_to_write f)%N.
Proof.
  intros Hbig Hr. cut ((0 < fl_to_write f)%N ∧ (fl_to_write f + fl_in_pipe f + fl_held f + fl_out_pipe f = input)%N ∧
    (fl_in_pipe f <= pipe)%N ∧ (fl_held f <= buffer)%N ∧ (fl_out_pipe f <= pipe)%N); [tauto|].
  revert f Hr. apply rtc_ind_r; [simpl; lia|]. intros f1 f2 _ Hstep IH. destruct Hstep; simpl in *; lia.
Qed.

(** A child that copies its input, given more than its buffer and the two pipes hold,
    blocks the runner for ever: the write of the input never ends, so the wait and with
    it the time limit never begin.  Input that fits in one pipe can always be written. *)
Theorem large_input_blocks_run input f :
  rtc flow_step (flow_start input) f →
  ((2 * pipe + buffer < input)%N → (0 < f.(fl_to_write))%N) ∧
  ((input <= pipe)%N → (0 < f.(fl_to_write))%N → ∃ f', flow_step f f' ∧ f'.(fl_to_write) = 0%N).
Proof.
  intros Hr. split; [intros Hbig; by eapply flow_blocked|]. intros Hfit Hw. apply flow_total in Hr.
  destruct f as [w i h o]. simpl in *. exists (mkFlow (w - w) (i + w) h o). split; [constructor; lia|simpl; lia].
Qed.
End Deadlock.
(** The theorem applied to pipes and a buffer of 64 KiB and a megabyte of input, after
    the first write. *)
Lemma large_input_blocks_run_witness :
  rtc (flow_step 65536 65536) (flow_start 1048576) (mkFlow 983040 65536 0 0) ∧ (0 < fl_to_write (mkFlow 983040 65536 0 0))%N.
Proof.
  assert (rtc (flow_step 65536 65536) (flow_start 1048576) (mkFlow 983040 65536 0 0)) as Hr.
  { apply rtc_once. exact (run_writes 65536 65536 1048576 0 0 0 65536 ltac:(lia) ltac:(lia)). }
  split; [exact Hr|]. apply (large_input_blocks_run 65536 65536 1048576 _ Hr). lia.
Defined.
