(* ===== verification/LiveHandlers.v ===== *)
(** * Live requests, held requests and running sessions

    Models the handlers of [crates/mx-agent-daemon/src/exec.rs] and [call.rs] that
    [handle_routed_events] of [sync.rs] calls, one event at a time, and the expiry sweep of
    [scheduler_loop.rs]: requests run, are held or are rejected; decisions release or deny
    a hold; signed controls reach a running session.  The state is what the handlers share:
    the table of live sessions, the queue file, the router's nonces and the log of effects.
    Emission, publishing and auditing never fail a handler, so they are entries of the log. *)
From Stdlib Require Import ZArith.
From stdpp Require Import gmap strings list.
From S2P Require Import Prelude RustStr CanonicalJson Schema Signing Time Replay NonceGuard PolicyFile PolicyEngine Trust ChildEnv AuditLog Invocation Approval LiveAuth.

(** ** State *)

(** The channels of a session, as the frames sent into them, and its seen nonces. *)
Record LiveExecControl := {
  lc_requester_agent : string;
  lc_stdin : list (option string);
  lc_cancel : option string;
  lc_resize : option (list PtyWinsize);
  lc_seen_control_nonces : gset string;
}.

Inductive Effect :=
| Emit (event_type : string) (content : Value)
| AskApproval (approval : ApprovalRequest)
| PublishInvocation (state : InvocationState)
| Audit (record : AuditRecord)
| OutputEvents (invocation_id : string)
| SpawnRun (request : ExecRequest) (a : Allowance) (state : InvocationState)
| RunTool (request : CallRequest) (a : Allowance).

Section handlers.
Context `{Crypto} `{RequestSerde} (regex_new : RegexNew) {C : Type} `{!NonceGuard C}.

(** [ls_queue] is the queue file ([None]: unreadable). *)
Record LiveState := {
  ls_controls : gmap string LiveExecControl;
  ls_queue : option ApprovalQueue;
  ls_router : option C;
  ls_effects : list Effect;
}.
Definition set_controls (m : gmap string LiveExecControl) (st : LiveState) : LiveState :=
  {| ls_controls := m; ls_queue := st.(ls_queue); ls_router := st.(ls_router); ls_effects := st.(ls_effects) |}.
Definition set_queue (q : option ApprovalQueue) (st : LiveState) : LiveState :=
  {| ls_controls := st.(ls_controls); ls_queue := q; ls_router := st.(ls_router); ls_effects := st.(ls_effects) |}.
Definition set_router (c : option C) (st : LiveState) : LiveState :=
  {| ls_controls := st.(ls_controls); ls_queue := st.(ls_queue); ls_router := c; ls_effects := st.(ls_effects) |}.
Definition perform (es : list Effect) (st : LiveState) : LiveState :=
  {| ls_controls := st.(ls_controls); ls_queue := st.(ls_queue); ls_router := st.(ls_router);
     ls_effects := st.(ls_effects) ++ es |}.

(** What a handler reads while it runs. *)
Record LiveEnv := {
  en_auth : AuthInputs;
  en_room_available : bool;
  en_local_user : option string;
  en_signing_key : option SigningKey;
  en_all_agents : option (list AgentState);
  en_save_ok : bool;
  en_reload_ok : bool;
  en_now_unix : Z;
  en_now : string;
  en_now_running : string;
  (** [execute_tool_async] of a request: its result, or the error's text. *)
  en_tool_result : CallRequest → result Value string;
}.

(** ** The result plane *)

Definition EXEC_ACCEPTED : string := "com.mxagent.exec.accepted.v1".
Definition EXEC_REJECTED : string := "com.mxagent.exec.rejected.v1".
Definition EXEC_FINISHED : string := "com.mxagent.exec.finished.v1".
Definition EXEC_CANCELLED : string := "com.mxagent.exec.cancelled.v1".
Definition CALL_RESPONSE : string := "com.mxagent.call.response.v1".
Definition daemon_key_id (sk : SigningKey) : string := key_id_for_verifying_key (verifying_key sk).

(** [sign_result_content], then the send: content that cannot be signed is not sent. *)
Definition emit_signed (sk : SigningKey) (event_type : string) (content : Value) : list Effect :=
  match sign_into sk (daemon_key_id sk) content with Ok signed => [Emit event_type signed] | Err _ => [] end.
Definition emit_exec_accepted (sk : SigningKey) (invocation_id : string) : list Effect :=
  emit_signed sk EXEC_ACCEPTED
    (ExecAccepted_value {| ea_invocation_id := invocation_id; ea_signature := None; ea_extra := ∅ |}).
Definition emit_exec_rejected (sk : SigningKey) (invocation_id : string) (r : ExecRejection) : list Effect :=
  emit_signed sk EXEC_REJECTED
    (ExecRejected_value {| erj_invocation_id := invocation_id; erj_reason := exec_reason r; erj_signature := None;
       erj_extra := ∅ |}).
Definition emit_exec_cancelled (sk : SigningKey) (invocation_id signal_sent : string) (killed : bool) (finished_at : string) :
    list Effect :=
  emit_signed sk EXEC_CANCELLED
    (ExecCancelled_value {| ecd_invocation_id := invocation_id; ecd_signal_sent := signal_sent;
       ecd_killed_process_group := killed; ecd_finished_at := finished_at; ecd_signature := None; ecd_extra := ∅ |}).

Definition success_response (request_id : string) (value : Value) : CallResponse :=
  {| cresp_request_id := request_id; cresp_ok := true; cresp_result := Some value; cresp_error := None;
     cresp_signature := None; cresp_extra := ∅ |}.
Definition error_response (request_id error : string) : CallResponse :=
  {| cresp_request_id := request_id; cresp_ok := false; cresp_result := None; cresp_error := Some error;
     cresp_signature := None; cresp_extra := ∅ |}.
Definition rejection_response (request_id : string) (r : CallRejection) : CallResponse :=
  error_response request_id (call_reason r).
Definition emit_call_response (sk : SigningKey) (response : CallResponse) : list Effect :=
  match sign_into sk (daemon_key_id sk) (CallResponse_value response) with
  | Ok content => [Emit CALL_RESPONSE content]
  | Err (NonCanonical _) =>
      emit_signed sk CALL_RESPONSE
        (CallResponse_value (error_response response.(cresp_request_id) "result not canonicalizable"))
  | Err _ => []
  end.

(** ** Running an authorized exec *)

Definition invocation_state_for (request : ExecRequest) (now : string) : InvocationState :=
  {| is_invocation_id := request.(er_invocation_id); is_task_id := request.(er_task_id);
     is_requester := request.(er_requesting_agent); is_target := request.(er_target_agent); is_state := "accepted";
     is_created_at := now; is_updated_at := now; is_exit_code := None; is_state_rev := 0; is_extra := ∅ |}.
(** The updates of the published record; [saturating_add] on [u64]. *)
Definition advance_state (s : InvocationState) (state : string) (exit_code : option Z) (now : string) : InvocationState :=
  {| is_invocation_id := s.(is_invocation_id); is_task_id := s.(is_task_id); is_requester := s.(is_requester);
     is_target := s.(is_target); is_state := state; is_created_at := s.(is_created_at); is_updated_at := now;
     is_exit_code := exit_code; is_state_rev := Z.min (s.(is_state_rev) + 1) u64_max; is_extra := s.(is_extra) |}.

Definition spawn_authorized_live_exec (env : LiveEnv) (sk : SigningKey) (request : ExecRequest) (a : Allowance)
    (st : LiveState) : LiveState :=
  let accepted := invocation_state_for request env.(en_now) in
  let running := advance_state accepted STATE_RUNNING None env.(en_now_running) in
  let st := perform (emit_exec_accepted sk request.(er_invocation_id)) st in
  let st := perform [PublishInvocation accepted; PublishInvocation running] st in
  let control := {| lc_requester_agent := request.(er_requesting_agent); lc_stdin := []; lc_cancel := None;
                    lc_resize := if request.(er_pty) then Some [] else None; lc_seen_control_nonces := ∅ |} in
  let st := set_controls (<[request.(er_invocation_id) := control]> st.(ls_controls)) st in
  perform [SpawnRun request a running] st.

(** ** Audit records *)

Definition audit_exec_decision (env : LiveEnv) (room_id : string) (r : ExecRequest) (o : Outcome) : Effect :=
  Audit (for_exec env.(en_now) room_id r.(er_requesting_agent) r.(er_target_agent) (Some r.(er_invocation_id))
    r.(er_command) o).
Definition audit_exec_rejection (env : LiveEnv) (room_id : string) (r : ExecRequest) (rejection : ExecRejection) : Effect :=
  Audit (for_exec_denied env.(en_now) room_id r.(er_requesting_agent) r.(er_target_agent) (Some r.(er_invocation_id))
    r.(er_command) (exec_reason rejection)).
Definition audit_exec_held (env : LiveEnv) (room_id : string) (r : ExecRequest) (a : Allowance) : Effect :=
  Audit (for_exec_held env.(en_now) room_id r.(er_requesting_agent) r.(er_target_agent) (Some r.(er_invocation_id))
    r.(er_command) (Allow a)).
Definition audit_exec_released (env : LiveEnv) (room_id : string) (r : ExecRequest) (a : Allowance) : Effect :=
  Audit (for_exec_released env.(en_now) room_id r.(er_requesting_agent) r.(er_target_agent) (Some r.(er_invocation_id))
    r.(er_command) (Allow a)).
Definition audit_exec_expired (env : LiveEnv) (room_id : string) (r : ExecRequest) : Effect :=
  Audit (for_exec_expired env.(en_now) room_id r.(er_requesting_agent) r.(er_target_agent) (Some r.(er_invocation_id))
    r.(er_command)).
(** The rejections of a request or of a release that are audited. *)
Definition audit_rejected_exec (env : LiveEnv) (room_id : string) (r : ExecRequest) (rejection : ExecRejection) : list Effect :=
  match rejection with
  | XPolicyDenied reason => [audit_exec_decision env room_id r (Deny reason)]
  | XUnverifiedDevice | XSandboxRequired | XEnvOverrideNotAllowed _ => [audit_exec_rejection env room_id r rejection]
  | _ => []
  end.

(** ** Exec requests *)

(** The check that the target agent's published user is this daemon's. *)
Definition is_local_target (env : LiveEnv) (target_agent : string) : bool :=
  match env.(en_auth).(au_read_agent) target_agent with
  | Ok (Some agent) => agent.(as_matrix_user_id) =s default "" env.(en_local_user)
  | _ => false
  end.

(** [ApprovalQueue::load(..).unwrap_or_default()], enqueue, save. *)
Definition enqueue_and_save (env : LiveEnv) (p : PendingApproval) (st : LiveState) : LiveState :=
  let q := enqueue (default [] st.(ls_queue)) p in
  if env.(en_save_ok) then set_queue (Some q) st else st.

Definition handle_live_exec_request (env : LiveEnv) (room_id sender : string) (request : ExecRequest) (st : LiveState) :
    LiveState :=
  if negb env.(en_room_available) then st else
  if negb (is_local_target env request.(er_target_agent)) then st else
  match env.(en_signing_key) with
  | None => st
  | Some sk =>
      if negb (request.(er_idempotency_key) =s "exec:" +:+ request.(er_invocation_id)) then
        perform (emit_exec_rejected sk request.(er_invocation_id) XMalformed) st else
      match authorize_live_exec regex_new env.(en_auth) (ExecRequest_value request) request room_id (Some sender) with
      | Err rejection =>
          perform (audit_rejected_exec env room_id request rejection ++
            emit_exec_rejected sk request.(er_invocation_id) rejection) st
      | Ok (request, a) =>
          match st.(ls_controls) !! request.(er_invocation_id) with
          | Some _ => perform (emit_exec_accepted sk request.(er_invocation_id)) st
          | None =>
              match disposition_for_exec request a with
              | RequiresApproval _ approval =>
                  let st := perform [audit_exec_held env room_id request a] st in
                  let st := enqueue_and_save env
                    {| pa_room_id := room_id; pa_request := approval; pa_held_request := Some (HeldExec request);
                       pa_requester_user := Some sender |} st in
                  perform [AskApproval approval] st
              | Execute _ =>
                  let st := perform [audit_exec_decision env room_id request (Allow a)] st in
                  spawn_authorized_live_exec env sk request a st
              end
          end
      end
  end.

Definition release_held_exec (env : LiveEnv) (room_id : string) (request : ExecRequest)
    (authenticated_sender : option string) (st : LiveState) : LiveState :=
  match env.(en_signing_key) with
  | None => st
  | Some sk =>
      match authorize_live_exec regex_new env.(en_auth) (ExecRequest_value request) request room_id authenticated_sender with
      | Ok (request, a) =>
          spawn_authorized_live_exec env sk request a (perform [audit_exec_released env room_id request a] st)
      | Err rejection =>
          perform (audit_rejected_exec env room_id request rejection ++
            emit_exec_rejected sk request.(er_invocation_id) rejection) st
      end
  end.
(** [load_result_signing_key] and the emission of a terminal rejection. *)
Definition reject_held_exec (env : LiveEnv) (request : ExecRequest) (rejection : ExecRejection) (st : LiveState) : LiveState :=
  match env.(en_signing_key) with
  | None => st
  | Some sk => perform (emit_exec_rejected sk request.(er_invocation_id) rejection) st
  end.
Definition deny_held_exec (env : LiveEnv) (room_id : string) (request : ExecRequest) (st : LiveState) : LiveState :=
  reject_held_exec env request XApprovalDenied
    (perform [audit_exec_rejection env room_id request XApprovalDenied] st).
Definition expire_held_exec (env : LiveEnv) (room_id : string) (request : ExecRequest) (st : LiveState) : LiveState :=
  reject_held_exec env request XApprovalExpired (perform [audit_exec_expired env room_id request] st).

(** ** The end of a run *)

Definition CANCEL_SIGNAL : string := "SIGTERM".
Definition signal_name (n : Z) : option string :=
  match n with
  | 1 => Some "SIGHUP" | 2 => Some "SIGINT" | 3 => Some "SIGQUIT" | 6 => Some "SIGABRT" | 8 => Some "SIGFPE"
  | 9 => Some "SIGKILL" | 11 => Some "SIGSEGV" | 13 => Some "SIGPIPE" | 14 => Some "SIGALRM" | 15 => Some "SIGTERM"
  | _ => None
  end%Z.

(** What running the command came to; the byte counts are those reported (all output of a
    PTY counts as standard output), [truncated] is the capture's. *)
Inductive RunEnd :=
| RunFinished (exit_code signal : option Z) (duration_ms stdout_bytes stderr_bytes : Z) (truncated : bool)
| RunCancelled (exit_code : option Z) (killed_process_group : bool)
| RunFailed (err : string).

(** The tail of the task spawned for a request, after the run: [state] is the record it was
    spawned with.  A PTY run has streamed its output already. *)
Definition finish_exec (env : LiveEnv) (sk : SigningKey) (request : ExecRequest) (state : InvocationState) (e : RunEnd)
    (st : LiveState) : LiveState :=
  let inv := request.(er_invocation_id) in
  let output := if request.(er_pty) then [] else [OutputEvents inv] in
  let st := set_controls (delete inv st.(ls_controls)) st in
  match e with
  | RunFailed err => perform (emit_exec_rejected sk inv (XPolicyDenied (CommandNotAllowed err))) st
  | RunCancelled exit_code killed =>
      perform (output ++ emit_exec_cancelled sk inv CANCEL_SIGNAL killed env.(en_now) ++
        [PublishInvocation (advance_state state STATE_CANCELLED exit_code env.(en_now))]) st
  | RunFinished exit_code signal duration stdout_bytes stderr_bytes truncated =>
      let finished := {| ef_invocation_id := inv; ef_exit_code := exit_code; ef_signal := signal ≫= signal_name;
        ef_duration_ms := duration; ef_stdout_bytes := stdout_bytes;
        ef_stderr_bytes := stderr_bytes; ef_truncated := truncated; ef_artifact_mxc := None; ef_signature := None;
        ef_extra := ∅ |} in
      let terminal := match exit_code with Some code => terminal_state_for_exit code | None => STATE_FAILED end in
      perform (output ++ emit_signed sk EXEC_FINISHED (ExecFinished_value finished) ++
        [PublishInvocation (advance_state state terminal exit_code env.(en_now))]) st
  end.

(** ** Tool calls *)

Definition audit_call_decision (env : LiveEnv) (room_id : string) (r : CallRequest) (requester target : string) (o : Outcome) :
    Effect :=
  Audit (for_call env.(en_now) room_id requester target (Some r.(cr_invocation_id)) r.(cr_tool) o).
Definition audit_call_held (env : LiveEnv) (room_id : string) (r : CallRequest) (requester target : string) (a : Allowance) :
    Effect :=
  Audit (for_call_held env.(en_now) room_id requester target (Some r.(cr_invocation_id)) r.(cr_tool) (Allow a)).
Definition audit_call_released (env : LiveEnv) (room_id : string) (r : CallRequest) (requester target : string) (a : Allowance) :
    Effect :=
  Audit (for_call_released env.(en_now) room_id requester target (Some r.(cr_invocation_id)) r.(cr_tool) (Allow a)).
Definition audit_call_expired (env : LiveEnv) (room_id : string) (r : CallRequest) : Effect :=
  Audit (for_call_expired env.(en_now) room_id (default "" r.(cr_requesting_agent)) (default "" r.(cr_target_agent))
    (Some r.(cr_invocation_id)) r.(cr_tool)).
Definition call_rejection_audit_record (env : LiveEnv) (room_id : string) (r : CallRequest) (requester target : string)
    (rejection : CallRejection) : option AuditRecord :=
  match rejection with
  | LPolicyDenied reason =>
      Some (for_call env.(en_now) room_id requester target (Some r.(cr_invocation_id)) r.(cr_tool) (Deny reason))
  | LUnverifiedDevice =>
      Some (for_call_denied env.(en_now) room_id requester target (Some r.(cr_invocation_id)) r.(cr_tool) (call_reason rejection))
  | _ => None
  end.
Definition audit_opt (record : option AuditRecord) : list Effect :=
  match record with Some record => [Audit record] | None => [] end.

Definition execute_authorized_call (env : LiveEnv) (request : CallRequest) : CallResponse :=
  match env.(en_tool_result) request with
  | Ok value => success_response request.(cr_request_id) value
  | Err err => error_response request.(cr_request_id) err
  end.
Definition execute_and_respond_call (env : LiveEnv) (sk : SigningKey) (request : CallRequest) (a : Allowance)
    (st : LiveState) : LiveState :=
  perform (RunTool request a :: emit_call_response sk (execute_authorized_call env request)) st.

Definition handle_live_call_request (env : LiveEnv) (room_id sender : string) (request : CallRequest) (st : LiveState) :
    LiveState :=
  match request.(cr_target_agent), request.(cr_requesting_agent) with
  | Some target_agent, Some requesting_agent =>
      if negb env.(en_room_available) then st else
      if negb (is_local_target env target_agent) then st else
      match env.(en_signing_key) with
      | None => st
      | Some sk =>
          match authorize_live_call env.(en_auth) (CallRequest_value request) request requesting_agent room_id (Some sender) with
          | Ok (authorized, a) =>
              match disposition_for_call authorized a with
              | RequiresApproval _ approval =>
                  let st := perform [audit_call_held env room_id authorized requesting_agent target_agent a] st in
                  let st := enqueue_and_save env
                    {| pa_room_id := room_id; pa_request := approval; pa_held_request := Some (HeldCall authorized);
                       pa_requester_user := Some sender |} st in
                  perform [AskApproval approval] st
              | Execute _ =>
                  execute_and_respond_call env sk authorized a
                    (perform [audit_call_decision env room_id authorized requesting_agent target_agent (Allow a)] st)
              end
          | Err rejection =>
              perform (audit_opt (call_rejection_audit_record env room_id request requesting_agent target_agent rejection) ++
                emit_call_response sk (rejection_response request.(cr_request_id) rejection)) st
          end
      end
  | _, _ => st
  end.

Definition release_held_call (env : LiveEnv) (room_id : string) (request : CallRequest)
    (authenticated_sender : option string) (st : LiveState) : LiveState :=
  let requesting_agent := default "" request.(cr_requesting_agent) in
  let target_agent := default "" request.(cr_target_agent) in
  match env.(en_signing_key) with
  | None => st
  | Some sk =>
      match authorize_live_call env.(en_auth) (CallRequest_value request) request requesting_agent room_id authenticated_sender with
      | Ok (authorized, a) =>
          execute_and_respond_call env sk authorized a
            (perform [audit_call_released env room_id authorized requesting_agent target_agent a] st)
      | Err rejection =>
          perform (audit_opt (call_rejection_audit_record env room_id request requesting_agent target_agent rejection) ++
            emit_call_response sk (rejection_response request.(cr_request_id) rejection)) st
      end
  end.
Definition reject_held_call (env : LiveEnv) (request : CallRequest) (rejection : CallRejection) (st : LiveState) : LiveState :=
  match env.(en_signing_key) with
  | None => st
  | Some sk => perform (emit_call_response sk (rejection_response request.(cr_request_id) rejection)) st
  end.
Definition deny_held_call (env : LiveEnv) (room_id : string) (request : CallRequest) (st : LiveState) : LiveState :=
  let record := for_call_denied env.(en_now) room_id (default "" request.(cr_requesting_agent))
    (default "" request.(cr_target_agent)) (Some request.(cr_invocation_id)) request.(cr_tool) (call_reason LApprovalDenied) in
  reject_held_call env request LApprovalDenied (perform [Audit record] st).
Definition expire_held_call (env : LiveEnv) (room_id : string) (request : CallRequest) (st : LiveState) : LiveState :=
  reject_held_call env request LApprovalExpired (perform [audit_call_expired env room_id request] st).

(** ** Decisions and expiry *)

(** What the decision handler of [Approval] reads of the environment. *)
Definition decision_inputs (env : LiveEnv) : LiveInputs :=
  {| lv_room_available := env.(en_room_available); lv_agents := env.(en_all_agents); lv_local_user := env.(en_local_user);
     lv_trust := env.(en_auth).(au_trust); lv_policy := env.(en_auth).(au_policy); lv_now := env.(en_now_unix);
     lv_reload_ok := env.(en_reload_ok); lv_save_ok := env.(en_save_ok) |}.
(** [handle_live_approval_decision] with the release or denial it ends in. *)
Definition handle_approval_decision (env : LiveEnv) (room_id sender : string) (d : ApprovalDecision) (st : LiveState) :
    LiveState :=
  let '(outcome, queue, router) :=
    handle_live_approval_decision (decision_inputs env) room_id sender d st.(ls_queue) st.(ls_router) in
  let st := set_router router (set_queue queue st) in
  match outcome with
  | LiveIgnored _ => st
  | LiveDenied room_id (HeldExec request) => deny_held_exec env room_id request st
  | LiveDenied room_id (HeldCall request) => deny_held_call env room_id request st
  | LiveReleased room_id (HeldExec request) requester_user => release_held_exec env room_id request requester_user st
  | LiveReleased room_id (HeldCall request) requester_user => release_held_call env room_id request requester_user st
  end.

Definition expired_live_holds_in_room (q : ApprovalQueue) (room_id : string) (now_unix : Z) : list PendingApproval :=
  List.filter (λ p, is_some p.(pa_held_request) && approval_request_expired p.(pa_request).(apr_expires_at) now_unix)
    (List.filter (λ p, p.(pa_room_id) =s room_id) q).
(** The sweep works on the pass's copy of the queue, which it returns. *)
Definition sweep_one (env : LiveEnv) (room_id : string) (qst : ApprovalQueue * LiveState) (p : PendingApproval) :
    ApprovalQueue * LiveState :=
  match p.(pa_held_request) with
  | Some (HeldExec request) => ((queue_remove qst.1 (pa_request_id p)).1, expire_held_exec env room_id request qst.2)
  | Some (HeldCall request) => ((queue_remove qst.1 (pa_request_id p)).1, expire_held_call env room_id request qst.2)
  | None => qst
  end.
Definition sweep_expired_live_holds (env : LiveEnv) (room_id : string) (q : ApprovalQueue) (now_unix : Z) (st : LiveState) :
    ApprovalQueue * LiveState :=
  foldl (sweep_one env room_id) (q, st) (expired_live_holds_in_room q room_id now_unix).

(** ** Controls of a running session *)

Definition admit_control_nonce (c : LiveExecControl) (nonce : string) : bool * LiveExecControl :=
  (negb (bool_decide (nonce ∈ c.(lc_seen_control_nonces))),
   {| lc_requester_agent := c.(lc_requester_agent); lc_stdin := c.(lc_stdin); lc_cancel := c.(lc_cancel);
      lc_resize := c.(lc_resize); lc_seen_control_nonces := {[nonce]} ∪ c.(lc_seen_control_nonces) |}).
Definition send_stdin (frames : list (option string)) (c : LiveExecControl) : LiveExecControl :=
  {| lc_requester_agent := c.(lc_requester_agent); lc_stdin := c.(lc_stdin) ++ frames; lc_cancel := c.(lc_cancel);
     lc_resize := c.(lc_resize); lc_seen_control_nonces := c.(lc_seen_control_nonces) |}.
Definition send_cancel (reason : string) (c : LiveExecControl) : LiveExecControl :=
  {| lc_requester_agent := c.(lc_requester_agent); lc_stdin := c.(lc_stdin); lc_cancel := Some reason;
     lc_resize := c.(lc_resize); lc_seen_control_nonces := c.(lc_seen_control_nonces) |}.
Definition send_resize (size : PtyWinsize) (c : LiveExecControl) : LiveExecControl :=
  {| lc_requester_agent := c.(lc_requester_agent); lc_stdin := c.(lc_stdin); lc_cancel := c.(lc_cancel);
     lc_resize := (λ l, l ++ [size]) <$> c.(lc_resize); lc_seen_control_nonces := c.(lc_seen_control_nonces) |}.

(** The three control handlers differ in what they send: authorize, admit the nonce, apply. *)
Definition handle_control (env : LiveEnv) (invocation_id : string) (content : Value) (key_id nonce : string)
    (apply_frame : LiveExecControl → LiveExecControl) (st : LiveState) : LiveState :=
  match st.(ls_controls) !! invocation_id with
  | None => st
  | Some control =>
      match authorize_live_control env.(en_all_agents) env.(en_auth).(au_trust) content key_id control.(lc_requester_agent) with
      | Err _ => st
      | Ok _ =>
          let '(fresh, control) := admit_control_nonce control nonce in
          let control := if fresh then apply_frame control else control in
          set_controls (<[invocation_id := control]> st.(ls_controls)) st
      end
  end.
(** The frames of a stdin event: decoded data if there is any, then the end of input; data that
    does not decode sends nothing. *)
Definition stdin_frames (s : ExecStdin) : list (option string) :=
  match b64_decode s.(es_data) with
  | None => []
  | Some data => (if data =s "" then [] else [Some data]) ++ (if s.(es_eof) then [None] else [])
  end.
Definition handle_live_exec_stdin (env : LiveEnv) (s : ExecStdin) (st : LiveState) : LiveState :=
  handle_control env s.(es_invocation_id) (ExecStdin_value s) s.(es_signature).(sig_key_id) s.(es_nonce)
    (send_stdin (stdin_frames s)) st.
Definition handle_live_exec_cancel (env : LiveEnv) (c : ExecCancel) (st : LiveState) : LiveState :=
  handle_control env c.(ec_invocation_id) (ExecCancel_value c) c.(ec_signature).(sig_key_id) c.(ec_nonce)
    (send_cancel c.(ec_reason)) st.
Definition handle_live_pty_resize (env : LiveEnv) (r : PtyResize) (st : LiveState) : LiveState :=
  handle_control env r.(pr_invocation_id) (PtyResize_value r) r.(pr_signature).(sig_key_id) r.(pr_nonce)
    (send_resize {| pw_rows := r.(pr_rows); pw_cols := r.(pr_cols); pw_pixel_width := r.(pr_pixel_width);
                    pw_pixel_height := r.(pr_pixel_height) |}) st.

(** ** The daemon's steps *)

(** A routed event with its room and sender; a hold queued for a task; the sweep of a pass
    whose queue is loaded and saved around it; the end of a run; a restart, which kills
    every session. *)
Inductive LiveEvent :=
| EvExec (room_id sender : string) (request : ExecRequest)
| EvCall (room_id sender : string) (request : CallRequest)
| EvDecision (room_id sender : string) (d : ApprovalDecision)
| EvStdin (s : ExecStdin)
| EvCancel (c : ExecCancel)
| EvResize (r : PtyResize)
| EvTaskHold (p : PendingApproval)
| EvSweep (room_id : string)
| EvFinish (sk : SigningKey) (request : ExecRequest) (state : InvocationState) (e : RunEnd)
| EvRestart.

(** [handle_routed_events] on one event, and the other steps. *)
Definition live_step (env : LiveEnv) (ev : LiveEvent) (st : LiveState) : LiveState :=
  match ev with
  | EvExec room_id sender r => handle_live_exec_request env room_id sender r st
  | EvCall room_id sender r => handle_live_call_request env room_id sender r st
  | EvDecision room_id sender d => handle_approval_decision env room_id sender d st
  | EvStdin s => if env.(en_room_available) then handle_live_exec_stdin env s st else st
  | EvCancel c => if env.(en_room_available) then handle_live_exec_cancel env c st else st
  | EvResize r => if env.(en_room_available) then handle_live_pty_resize env r st else st
  | EvTaskHold p => enqueue_and_save env p st
  | EvSweep room_id =>
      let '(q, st) := sweep_expired_live_holds env room_id (default [] st.(ls_queue)) env.(en_now_unix) st in
      if env.(en_save_ok) then set_queue (Some q) st else st
  | EvFinish sk r state e => finish_exec env sk r state e st
  | EvRestart => set_controls ∅ st
  end.
Definition live_run (evs : list (LiveEnv * LiveEvent)) (st : LiveState) : LiveState :=
  foldl (λ st e, live_step e.1 e.2 st) st evs.
End handlers.
