(* ===== verification/LiveCorrect.v ===== *)
(** * What the live handlers guarantee

    Theorems about [LiveHandlers] over sequences of events: what runs was authorized, what
    leaves the daemon is signed, what a session receives, and where the handlers fall
    short of what their comments say. *)
From Stdlib Require Import ZArith.
From stdpp Require Import gmap strings list.
From S2P Require Import Prelude RustStr CanonicalJson Schema Signing Time Replay NonceGuard PolicyFile PolicyEngine Trust ChildEnv AuditLog Invocation Approval LiveAuth LiveHandlers.

Create HintDb live discriminated.

(** ** The queue as a set *)

Lemma elem_of_enqueue q p p' : p' ∈ enqueue q p → p' = p ∨ p' ∈ q.
Proof.
  unfold enqueue. destruct (position _ q) as [i|].
  - intros [j Hj]%list_elem_of_lookup_1. destruct (decide (i = j)) as [->|Hne].
    + left. apply list_lookup_insert_Some in Hj as [(_ & -> & _)|[? _]]; done.
    + right. rewrite list_lookup_insert_ne in Hj by done. by eapply list_elem_of_lookup_2.
  - rewrite elem_of_app, list_elem_of_singleton. tauto.
Qed.
Lemma elem_of_queue_remove q rid p : p ∈ (queue_remove q rid).1 → p ∈ q.
Proof.
  unfold queue_remove. destruct (position _ q) as [i|]; [|done]. simpl. rewrite delete_take_drop, elem_of_app.
  intros [Hp|Hp]; [by eapply elem_of_take_incl|]. apply list_elem_of_lookup_1 in Hp as [j Hj].
  rewrite lookup_drop in Hj. by eapply list_elem_of_lookup_2.
Qed.

Section correct.
Context `{Crypto} `{RequestSerde} (regex_new : RegexNew) {C : Type} `{!NonceGuard C}.
Abbreviation step := (live_step regex_new (C := C)).
Abbreviation run := (live_run regex_new (C := C)).
Implicit Types (st : @LiveState C) (env : LiveEnv).

(** What a released hold is: the entry the decision found in the queue. *)
Lemma released_entry inp room_id sender d queue (router : option C) rm held user queue' router' :
  handle_live_approval_decision inp room_id sender d queue router = (LiveReleased rm held user, queue', router') →
  ∃ q p, queue = Some q ∧ queue_get q d.(apd_request_id) = Some p ∧ p.(pa_held_request) = Some held ∧
    p.(pa_requester_user) = user.
Proof.
  unfold handle_live_approval_decision. intros Hh. destruct queue as [q|]; [|done].
  destruct (queue_get q _) as [p|] eqn:Hg; [|done]. destruct (pa_held_request p) as [h|] eqn:Hp; [|done].
  destruct (negb _); [done|]. destruct (lv_agents inp); [|done]. destruct (verification_failure _ _ _); [done|].
  destruct (burn_decision_nonce _ _ _) as [[] ?]; simpl in Hh; [|done].
  destruct (decision_permits_spawn d); simplify_eq/=. by exists q, p.
Qed.

(** ** Frames of the handlers *)

(** The effects a step appends; the queue and sessions it leaves. *)
Definition extends st st' (es : list Effect) : Prop := st'.(ls_effects) = st.(ls_effects) ++ es.
Lemma extends_refl st : extends st st [].
Proof. unfold extends. by rewrite app_nil_r. Qed.
Lemma extends_perform st es : extends st (perform es st) es.
Proof. done. Qed.
Lemma extends_trans st st' st'' es es' : extends st st' es → extends st' st'' es' → extends st st'' (es ++ es').
Proof. unfold extends. intros -> ->. by rewrite app_assoc. Qed.

(** The keys a step signs with. *)
Definition step_key env (ev : LiveEvent) (sk : SigningKey) : Prop :=
  env.(en_signing_key) = Some sk ∨ ∃ r s e, ev = EvFinish sk r s e.
Definition signed_with (sk : SigningKey) (content : Value) : Prop :=
  ∃ v, sign_into sk (daemon_key_id sk) v = Ok content.
(** Effects that start nothing; events are signed. *)
Definition starts_nothing env ev (e : Effect) : Prop :=
  match e with
  | SpawnRun _ _ _ | RunTool _ _ => False
  | Emit _ content => ∃ sk, step_key env ev sk ∧ signed_with sk content
  | _ => True
  end.
Lemma emit_signed_quiet env ev sk ty v : step_key env ev sk → Forall (starts_nothing env ev) (emit_signed sk ty v).
Proof.
  intros Hk. unfold emit_signed. destruct (sign_into _ _ _) as [c|] eqn:Hs; [|constructor].
  constructor; [|constructor]. exists sk. split; [done|]. by exists v.
Qed.
Lemma emit_call_response_quiet env ev sk r : step_key env ev sk → Forall (starts_nothing env ev) (emit_call_response sk r).
Proof.
  intros Hk. unfold emit_call_response. destruct (sign_into sk _ (CallResponse_value r)) as [c|[]] eqn:Hs;
    first [by apply emit_signed_quiet|by constructor|constructor; [|constructor]].
  exists sk. split; [done|]. by eexists.
Qed.
Lemma audit_rejected_quiet env ev env' room_id r e : Forall (starts_nothing env ev) (audit_rejected_exec env' room_id r e).
Proof. destruct e; repeat constructor. Qed.
Lemma audit_opt_quiet env ev o : Forall (starts_nothing env ev) (audit_opt o).
Proof. destruct o; repeat constructor. Qed.
Lemma emit_exec_rejected_quiet env ev sk inv x :
  step_key env ev sk → Forall (starts_nothing env ev) (emit_exec_rejected sk inv x).
Proof. apply emit_signed_quiet. Qed.
Lemma emit_exec_cancelled_quiet env ev sk inv sg k t :
  step_key env ev sk → Forall (starts_nothing env ev) (emit_exec_cancelled sk inv sg k t).
Proof. apply emit_signed_quiet. Qed.
Lemma step_key_env env ev sk : env.(en_signing_key) = Some sk → step_key env ev sk.
Proof. by left. Qed.
#[local] Hint Resolve emit_signed_quiet emit_call_response_quiet audit_rejected_quiet audit_opt_quiet Forall_app_2
  emit_exec_rejected_quiet emit_exec_cancelled_quiet step_key_env : live.

(** What a handler may do to the state: append [es], leave entries of the queue that it had or
    that satisfy [P]. *)
Record effect_of st st' (es : list Effect) (P : PendingApproval → Prop) : Prop := {
  eo_effects : extends st st' es;
  eo_queue : ∀ q' p, st'.(ls_queue) = Some q' → p ∈ q' → P p ∨ ∃ q, st.(ls_queue) = Some q ∧ p ∈ q;
}.
Lemma effect_refl st : effect_of st st [] (λ _, False).
Proof. split; [apply extends_refl|eauto]. Qed.
Lemma effect_perform st es : effect_of st (perform es st) es (λ _, False).
Proof. split; [done|]. simpl. eauto. Qed.
Lemma effect_trans st st' st'' es es' (P : PendingApproval → Prop) :
  effect_of st st' es P → effect_of st' st'' es' P → effect_of st st'' (es ++ es') P.
Proof.
  intros [He Hq] [He' Hq']. split; [by eapply extends_trans|]. intros q' p Hp Hin.
  destruct (Hq' q' p Hp Hin) as [?|(q & ? & ?)]; eauto.
Qed.
Lemma effect_weaken st st' es (P Q : PendingApproval → Prop) :
  (∀ p, P p → Q p) → effect_of st st' es P → effect_of st st' es Q.
Proof. intros HPQ [He Hq]. split; [done|]. intros q' p Hp Hin. destruct (Hq q' p Hp Hin); auto. Qed.
Lemma effect_enqueue env p st : effect_of st (enqueue_and_save env p st) [] (λ p', p' = p).
Proof.
  unfold enqueue_and_save. destruct (en_save_ok env); [|eapply effect_weaken, effect_refl; done].
  split; [unfold extends; by rewrite app_nil_r|]. simpl. intros q' p' [= <-] [->|Hin]%elem_of_enqueue; [by left|].
  destruct (ls_queue st) as [q|]; [|by apply not_elem_of_nil in Hin]. eauto.
Qed.

(** ** What a step starts *)

Definition exec_gated env (r : ExecRequest) (a : Allowance) (sender : option string) (room_id : string) : Prop :=
  ∃ requester key, live_exec_gates regex_new env.(en_auth) r room_id sender requester key a.
Definition call_gated env (r : CallRequest) (a : Allowance) (sender : option string) (room_id : string) : Prop :=
  ∃ requester key, live_call_gates env.(en_auth) r (default "" r.(cr_requesting_agent)) room_id sender requester key a.
(** A verified, approving decision of a request. *)
Definition approved_by env (room_id dsender : string) (d : ApprovalDecision) (request_id : string) : Prop :=
  d.(apd_request_id) = request_id ∧ decision_permits_spawn d = true ∧
  ∃ agents, env.(en_all_agents) = Some agents ∧
    decision_verified d dsender (live_verification (decision_inputs env) agents room_id).

Definition held_wf (h : HeldRequest) : Prop :=
  match h with HeldExec r => exec_request_wf r | HeldCall r => extra_ok call_request_keys r.(cr_extra) end.
Definition held_id (h : HeldRequest) : string :=
  match h with HeldExec r => r.(er_request_id) | HeldCall r => r.(cr_request_id) end.
(** A queue entry is consistent with the request it holds. *)
Definition hold_ok (p : PendingApproval) : Prop :=
  ∀ h, p.(pa_held_request) = Some h → held_wf h ∧ held_id h = pa_request_id p.
Definition event_wf (ev : LiveEvent) : Prop :=
  match ev with
  | EvExec _ _ r => exec_request_wf r
  | EvCall _ _ r => extra_ok call_request_keys r.(cr_extra)
  | EvTaskHold p => p.(pa_held_request) = None
  | _ => True
  end.
(** A call is handled when it names both agents and its target is one of this account. *)
Definition call_routed env (r : CallRequest) : Prop :=
  ∃ target, r.(cr_target_agent) = Some target ∧ is_local_target env target = true.
(** The holds an event adds. *)
Definition new_hold env (ev : LiveEvent) (p : PendingApproval) : Prop :=
  match ev with
  | EvExec _ sender r => p.(pa_held_request) = Some (HeldExec r) ∧ p.(pa_requester_user) = Some sender ∧ pa_request_id p = r.(er_request_id) ∧
      is_local_target env r.(er_target_agent) = true
  | EvCall _ sender r => p.(pa_held_request) = Some (HeldCall r) ∧ p.(pa_requester_user) = Some sender ∧ pa_request_id p = r.(cr_request_id) ∧
      call_routed env r
  | EvTaskHold p' => p = p'
  | _ => False
  end.
(** Why an effect that starts something happened. *)
Definition started env ev st (e : Effect) : Prop :=
  match e with
  | SpawnRun r a _ =>
      (∃ room_id sender, ev = EvExec room_id sender r ∧ a.(al_requires_approval) = false ∧
         is_local_target env r.(er_target_agent) = true ∧ exec_gated env r a (Some sender) room_id) ∨
      (∃ room_id ds d q p, ev = EvDecision room_id ds d ∧ st.(ls_queue) = Some q ∧ p ∈ q ∧
         p.(pa_held_request) = Some (HeldExec r) ∧ approved_by env room_id ds d r.(er_request_id) ∧
         exec_gated env r a p.(pa_requester_user) room_id)
  | RunTool r a =>
      (∃ room_id sender, ev = EvCall room_id sender r ∧ a.(al_requires_approval) = false ∧
         call_routed env r ∧ call_gated env r a (Some sender) room_id) ∨
      (∃ room_id ds d q p, ev = EvDecision room_id ds d ∧ st.(ls_queue) = Some q ∧ p ∈ q ∧
         p.(pa_held_request) = Some (HeldCall r) ∧ approved_by env room_id ds d r.(cr_request_id) ∧
         call_gated env r a p.(pa_requester_user) room_id)
  | Emit _ content => ∃ sk, step_key env ev sk ∧ signed_with sk content
  | _ => True
  end.
Lemma quiet_started env ev st es : Forall (starts_nothing env ev) es → Forall (started env ev st) es.
Proof. intros Hq. eapply Forall_impl; [exact Hq|]. by intros []. Qed.

(** A spawn: everything but the last effect is quiet. *)
Lemma effect_spawn env ev sk r a st : step_key env ev sk →
  ∃ es s, effect_of st (spawn_authorized_live_exec env sk r a st) (es ++ [SpawnRun r a s]) (λ _, False) ∧
    Forall (starts_nothing env ev) es.
Proof.
  intros Hk. exists (emit_exec_accepted sk r.(er_invocation_id) ++
    [PublishInvocation (invocation_state_for r (en_now env));
     PublishInvocation (advance_state (invocation_state_for r (en_now env)) STATE_RUNNING None (en_now_running env))]).
  eexists. split.
  - split; [|simpl; eauto]. unfold extends, spawn_authorized_live_exec. simpl. rewrite <- !app_assoc. reflexivity.
  - apply Forall_app. split; [by apply emit_signed_quiet|repeat constructor].
Qed.
(** The steps one handler at a time: this is the shape all of them share. *)
Definition accounted env ev st st' : Prop := ∃ es, effect_of st st' es (new_hold env ev) ∧ Forall (started env ev st) es.
Lemma effect_quiet env ev st es : Forall (starts_nothing env ev) es → accounted env ev st (perform es st).
Proof.
  intros Hq. exists es. split; [eapply effect_weaken, effect_perform; done|by apply quiet_started].
Qed.
Lemma effect_none env ev st : accounted env ev st st.
Proof. exists []. split; [eapply effect_weaken, effect_refl; done|done]. Qed.

Lemma accounted_trans env ev st st' st'' es :
  effect_of st st' es (new_hold env ev) → Forall (started env ev st) es →
  (∃ es', effect_of st' st'' es' (new_hold env ev) ∧ Forall (started env ev st) es') → accounted env ev st st''.
Proof.
  intros He Hs (es' & He' & Hs'). exists (es ++ es'). split; [by eapply effect_trans|]. by apply Forall_app.
Qed.
Lemma accounted_spawn env ev sk r a st st1 s1 :
  effect_of st st1 s1 (new_hold env ev) → Forall (starts_nothing env ev) s1 → (∀ s, started env ev st (SpawnRun r a s)) → step_key env ev sk →
  accounted env ev st (spawn_authorized_live_exec env sk r a st1).
Proof.
  intros He Hq Hs Hk. eapply accounted_trans; [exact He|by apply quiet_started|].
  destruct (effect_spawn env ev sk r a st1 Hk) as (es & s & He' & Hq'). exists (es ++ [SpawnRun r a s]).
  split; [eapply effect_weaken, He'; done|]. apply Forall_app. split; [by apply quiet_started|]. constructor; [apply Hs|constructor].
Qed.
Lemma accounted_tool env ev sk r a st st1 s1 :
  effect_of st st1 s1 (new_hold env ev) → Forall (starts_nothing env ev) s1 → started env ev st (RunTool r a) → step_key env ev sk →
  accounted env ev st (execute_and_respond_call env sk r a st1).
Proof.
  intros He Hq Hs Hk. eapply accounted_trans; [exact He|by apply quiet_started|].
  eexists. split; [eapply effect_weaken, effect_perform; done|].
  constructor; [done|]. by apply quiet_started, emit_call_response_quiet.
Qed.
Lemma accounted_hold env ev st p e a :
  starts_nothing env ev e → new_hold env ev p → accounted env ev st (perform [AskApproval a] (enqueue_and_save env p (perform [e] st))).
Proof.
  intros He Hp. eapply (accounted_trans _ _ _ (perform [e] st));
    [eapply effect_weaken, effect_perform; done|apply quiet_started; by repeat constructor|].
  exists ([] ++ [AskApproval a]). split; [|by repeat constructor].
  eapply effect_trans; [|eapply effect_weaken, effect_perform; done].
  eapply effect_weaken, effect_enqueue. by intros p' ->.
Qed.

Context `{!RequestSerdeLaws}.

Lemma exec_accounted env room_id sender r st : exec_request_wf r →
  accounted env (EvExec room_id sender r) st (handle_live_exec_request regex_new env room_id sender r st).
Proof.
  intros Hwf. unfold handle_live_exec_request. destruct (negb _); [apply effect_none|].
  destruct (is_local_target env _) eqn:Hloc; cbn [negb]; [|apply effect_none]. destruct (en_signing_key env) as [sk|] eqn:Hsk; [|apply effect_none].
  destruct (negb _); [by apply effect_quiet, emit_signed_quiet; left|].
  destruct (authorize_live_exec _ _ _ _ _ _) as [[r' a]|e] eqn:Ha.
  2:{ apply effect_quiet. auto with live. }
  rewrite authorize_live_exec_Ok in Ha by done. destruct Ha as [-> Hg].
  destruct (ls_controls st !! _); [by apply effect_quiet, emit_signed_quiet; left|].
  unfold disposition_for_exec. destruct (al_requires_approval a) eqn:Hr.
  - by apply accounted_hold.
  - eapply accounted_spawn; [eapply effect_weaken, effect_perform; done|by repeat constructor| |by left].
    intros s. left. by exists room_id, sender.
Qed.
Lemma call_accounted env room_id sender r st : extra_ok call_request_keys r.(cr_extra) →
  accounted env (EvCall room_id sender r) st (handle_live_call_request env room_id sender r st).
Proof.
  intros Hwf. unfold handle_live_call_request. destruct (cr_target_agent r) as [target|] eqn:Ht; [|apply effect_none].
  destruct (cr_requesting_agent r) as [who|] eqn:Hw; [|apply effect_none].
  destruct (negb _); [apply effect_none|]. destruct (is_local_target env _) eqn:Hloc; cbn [negb]; [|apply effect_none].
  assert (call_routed env r) as Hrt by (by exists target).
  destruct (en_signing_key env) as [sk|] eqn:Hsk; [|apply effect_none].
  destruct (authorize_live_call _ _ _ _ _ _) as [[r' a]|e] eqn:Ha.
  2:{ apply effect_quiet. auto with live. }
  rewrite authorize_live_call_Ok in Ha by done. destruct Ha as [-> Hg].
  unfold disposition_for_call. destruct (al_requires_approval a) eqn:Hr.
  - by apply accounted_hold.
  - eapply accounted_tool; [eapply effect_weaken, effect_perform; done|by repeat constructor| |by left].
    left. exists room_id, sender. split_and!; [done|done|done|]. unfold call_gated. by rewrite Hw.
Qed.
(** Terminal rejections start nothing and leave the queue to their caller. *)
Lemma quiet_reject_exec env ev st0 e r x st : starts_nothing env ev e →
  ∃ es, effect_of st (reject_held_exec env r x (perform [e] st)) es (new_hold env ev) ∧ Forall (started env ev st0) es.
Proof.
  intros He. unfold reject_held_exec. destruct (en_signing_key env) as [sk|] eqn:Hsk.
  - exists ([e] ++ emit_exec_rejected sk r.(er_invocation_id) x). split.
    + eapply effect_trans; (eapply effect_weaken, effect_perform; done).
    + apply quiet_started, Forall_app. split; [by repeat constructor|auto with live].
  - exists [e]. split; [eapply effect_weaken, effect_perform; done|]. apply quiet_started. by repeat constructor.
Qed.
Lemma quiet_reject_call env ev st0 e r x st : starts_nothing env ev e →
  ∃ es, effect_of st (reject_held_call env r x (perform [e] st)) es (new_hold env ev) ∧ Forall (started env ev st0) es.
Proof.
  intros He. unfold reject_held_call. destruct (en_signing_key env) as [sk|] eqn:Hsk.
  - exists ([e] ++ emit_call_response sk (rejection_response r.(cr_request_id) x)). split.
    + eapply effect_trans; (eapply effect_weaken, effect_perform; done).
    + apply quiet_started, Forall_app. split; [by repeat constructor|auto with live].
  - exists [e]. split; [eapply effect_weaken, effect_perform; done|]. apply quiet_started. by repeat constructor.
Qed.
Lemma decision_accounted env room_id ds d st :
  (∀ q p, st.(ls_queue) = Some q → p ∈ q → hold_ok p) →
  accounted env (EvDecision room_id ds d) st (handle_approval_decision regex_new env room_id ds d st).
Proof.
  intros Hok. unfold handle_approval_decision.
  destruct (handle_live_approval_decision _ _ _ _ _ _) as [[o queue] router] eqn:Hh.
  pose proof (handle_live_spec _ _ _ _ _ _ _ _ _ Hh) as Hspec.
  assert (effect_of st (set_router router (set_queue queue st)) [] (new_hold env (EvDecision room_id ds d))) as He.
  { split; [unfold extends; by rewrite app_nil_r|]. simpl. intros q' p -> Hin. right.
    destruct o as [reason|rm held|rm held user]; [eauto|..];
      (destruct Hspec as (_ & _ & q & p0 & agents & n & e & Hq & _ & _ & _ & _ & _ & _ & _ & Heq); rewrite Hq; exists q; split; [done|];
       injection Heq as ->; destruct (en_save_ok env); [|done]; apply elem_of_queue_remove in Hin;
       destruct (en_reload_ok env); [done|by apply not_elem_of_nil in Hin]). }
  destruct o as [reason|rm held|rm held user].
  - exists []. by split.
  - eapply accounted_trans; [exact He|done|].
    destruct held as [r|r]; [apply quiet_reject_exec|apply quiet_reject_call]; by constructor.
  - destruct Hspec as (-> & Hperm & _ & _ & agents & n & e & _ & _ & _ & Hag & Hver & _).
    apply released_entry in Hh as (q & p & Hq & Hget & Hheld & <-).
    apply queue_get_elem in Hget as [Hin Hid]. destruct (Hok q p Hq Hin held Hheld) as [Hwf Hhid].
    assert (approved_by env room_id ds d (held_id held)) as Happ by (split_and!; [congruence|done|by exists agents]).
    destruct held as [r|r].
    + unfold release_held_exec. destruct (en_signing_key env) as [sk|] eqn:Hsk; [|exists []; by split].
      destruct (authorize_live_exec _ _ _ _ _ _) as [[r' a]|x] eqn:Ha.
      2:{ eapply accounted_trans; [exact He|done|]. eexists. split; [eapply effect_weaken, effect_perform; done|].
          apply quiet_started. auto with live. }
      rewrite authorize_live_exec_Ok in Ha by done. destruct Ha as [-> Hg].
      eapply accounted_spawn; [eapply effect_trans; [exact He|eapply effect_weaken, effect_perform; done]|by repeat constructor| |by left].
      intros s. right. by exists room_id, ds, d, q, p.
    + unfold release_held_call. destruct (en_signing_key env) as [sk|] eqn:Hsk; [|exists []; by split].
      destruct (authorize_live_call _ _ _ _ _ _) as [[r' a]|x] eqn:Ha.
      2:{ eapply accounted_trans; [exact He|done|]. eexists. split; [eapply effect_weaken, effect_perform; done|].
          apply quiet_started. auto with live. }
      rewrite authorize_live_call_Ok in Ha by done. destruct Ha as [-> Hg].
      eapply accounted_tool; [eapply effect_trans; [exact He|eapply effect_weaken, effect_perform; done]|by repeat constructor| |by left].
      right. by exists room_id, ds, d, q, p.
Qed.
(** Steps that leave the queue and the log alone. *)
Lemma accounted_same env ev st st' :
  st'.(ls_queue) = st.(ls_queue) → st'.(ls_effects) = st.(ls_effects) → accounted env ev st st'.
Proof.
  intros Hq He. exists []. split; [|done]. split; [unfold extends; by rewrite app_nil_r|]. rewrite Hq. eauto.
Qed.
Lemma control_accounted env ev inv content k n f st : accounted env ev st (handle_control env inv content k n f st).
Proof.
  unfold handle_control. destruct (_ !! inv) as [c|]; [|apply effect_none].
  destruct (authorize_live_control _ _ _ _ _); [|apply effect_none]. by apply accounted_same.
Qed.
Lemma sweep_effects env ev st0 room_id l : ∀ q st,
  (∀ p, p ∈ q → ∃ q0, st.(ls_queue) = Some q0 ∧ p ∈ q0) →
  ∃ es, effect_of st (foldl (sweep_one env room_id) (q, st) l).2 es (new_hold env ev) ∧ Forall (started env ev st0) es ∧
    (∀ p, p ∈ (foldl (sweep_one env room_id) (q, st) l).1 → ∃ q0, st.(ls_queue) = Some q0 ∧ p ∈ q0).
Proof.
  induction l as [|p l IH]; intros q st Hq; simpl.
  { exists []. split; [eapply effect_weaken, effect_refl; done|done]. }
  assert (∀ st', st'.(ls_queue) = st.(ls_queue) →
    ∀ p', p' ∈ (queue_remove q (pa_request_id p)).1 → ∃ q0, st'.(ls_queue) = Some q0 ∧ p' ∈ q0) as Hrm.
  { intros st' -> p' Hp'%elem_of_queue_remove. by apply Hq. }
  unfold sweep_one at 2 4. destruct (pa_held_request p) as [[r|r]|]; [| |by apply IH].
  - destruct (quiet_reject_exec env ev st0 (audit_exec_expired env room_id r) r XApprovalExpired st I) as (es & He & Hs).
    destruct (IH (queue_remove q (pa_request_id p)).1 (expire_held_exec env room_id r st)) as (es' & He' & Hs' & Hq').
    { apply Hrm. unfold expire_held_exec, reject_held_exec. by destruct (en_signing_key env). }
    exists (es ++ es'). split_and!; [by eapply effect_trans|by apply Forall_app|].
    intros p' Hp'. destruct (Hq' p' Hp') as (q0 & Hq0 & ?). exists q0. split; [|done]. rewrite <- Hq0.
    unfold expire_held_exec, reject_held_exec. by destruct (en_signing_key env).
  - destruct (quiet_reject_call env ev st0 (audit_call_expired env room_id r) r LApprovalExpired st I) as (es & He & Hs).
    destruct (IH (queue_remove q (pa_request_id p)).1 (expire_held_call env room_id r st)) as (es' & He' & Hs' & Hq').
    { apply Hrm. unfold expire_held_call, reject_held_call. by destruct (en_signing_key env). }
    exists (es ++ es'). split_and!; [by eapply effect_trans|by apply Forall_app|].
    intros p' Hp'. destruct (Hq' p' Hp') as (q0 & Hq0 & ?). exists q0. split; [|done]. rewrite <- Hq0.
    unfold expire_held_call, reject_held_call. by destruct (en_signing_key env).
Qed.
Lemma finish_accounted env ev sk r s e st : step_key env ev sk → accounted env ev st (finish_exec env sk r s e st).
Proof.
  intros Hk.
  unfold finish_exec.
  assert (∀ es, Forall (starts_nothing env ev) es →
    accounted env ev st (perform es (set_controls (delete (er_invocation_id r) (ls_controls st)) st))) as Hp.
  { intros es Hes. exists es. split; [|by apply quiet_started]. split; [done|]. simpl. eauto. }
  assert (Forall (starts_nothing env ev) (if er_pty r then [] else [OutputEvents (er_invocation_id r)])) as Ho
    by (destruct (er_pty r); by repeat constructor).
  destruct e; apply Hp; rewrite ?Forall_app; split_and?; auto with live; by repeat constructor.
Qed.
Lemma step_accounted env ev st : event_wf ev → (∀ q p, st.(ls_queue) = Some q → p ∈ q → hold_ok p) →
  accounted env ev st (step env ev st).
Proof.
  intros Hwf Hok. destruct ev; simpl.
  - by apply exec_accounted.
  - by apply call_accounted.
  - by apply decision_accounted.
  - destruct (en_room_available env); [apply control_accounted|apply effect_none].
  - destruct (en_room_available env); [apply control_accounted|apply effect_none].
  - destruct (en_room_available env); [apply control_accounted|apply effect_none].
  - exists []. split; [|done]. eapply effect_weaken, effect_enqueue. by intros ? ->.
  - destruct (ls_queue st) as [q|] eqn:Hq.
    + destruct (sweep_effects env (EvSweep room_id) st room_id
        (expired_live_holds_in_room q room_id (en_now_unix env)) q st) as (es & He & Hs & Hq'); [eauto|].
      unfold sweep_expired_live_holds. simpl. destruct (foldl _ _ _) as [q' st']. simpl in *.
      destruct (en_save_ok env); [|by exists es]. exists es. split; [|done]. destruct He as [Hx Hy]. split; [done|].
      simpl. intros ? p [= <-] Hp. right. by apply Hq'.
    + unfold sweep_expired_live_holds. simpl. destruct (en_save_ok env); [|apply effect_none].
      exists []. split; [|done]. split; [unfold extends; by rewrite app_nil_r|]. simpl.
      intros ? p [= <-] Hp. by apply not_elem_of_nil in Hp.
  - apply finish_accounted. right. eauto.
  - by apply accounted_same.
Qed.

(** ** Over a run *)

Implicit Types (evs : list (LiveEnv * @LiveEvent _)).
(** An entry of the queue is a task hold or a request that an event of the run brought, with that
    event's sender. *)
Definition hold_traced evs (p : PendingApproval) : Prop :=
  match p.(pa_held_request) with
  | Some (HeldExec r) => ∃ env room_id sender, (env, EvExec room_id sender r) ∈ evs ∧ p.(pa_requester_user) = Some sender ∧
      is_local_target env r.(er_target_agent) = true
  | Some (HeldCall r) => ∃ env room_id sender, (env, EvCall room_id sender r) ∈ evs ∧ p.(pa_requester_user) = Some sender ∧ call_routed env r
  | None => True
  end.
(** A run that was started: by an event of the trace whose authenticated sender is the identity
    the gates passed for, at that event if the policy asks no approval, or else at a
    verified approving decision of that request. *)
Definition run_traced evs (e : Effect) : Prop :=
  match e with
  | SpawnRun r a _ =>
      ∃ env0 room0 sender env room_id, (env0, EvExec room0 sender r) ∈ evs ∧ is_local_target env0 r.(er_target_agent) = true ∧
        exec_gated env r a (Some sender) room_id ∧
        ((env = env0 ∧ room_id = room0 ∧ a.(al_requires_approval) = false) ∨
         ∃ ds d, (env, EvDecision room_id ds d) ∈ evs ∧ approved_by env room_id ds d r.(er_request_id))
  | RunTool r a =>
      ∃ env0 room0 sender env room_id, (env0, EvCall room0 sender r) ∈ evs ∧ call_routed env0 r ∧ call_gated env r a (Some sender) room_id ∧
        ((env = env0 ∧ room_id = room0 ∧ a.(al_requires_approval) = false) ∨
         ∃ ds d, (env, EvDecision room_id ds d) ∈ evs ∧ approved_by env room_id ds d r.(cr_request_id))
  | _ => True
  end.
(** An emitted event: signed with the daemon's key at a step of the trace. *)
Definition emit_traced evs (e : Effect) : Prop :=
  match e with
  | Emit _ content => ∃ env ev sk, (env, ev) ∈ evs ∧ step_key env ev sk ∧ signed_with sk content
  | _ => True
  end.
Record traced evs st : Prop := {
  tr_effects : Forall (run_traced evs) st.(ls_effects);
  tr_emitted : Forall (emit_traced evs) st.(ls_effects);
  tr_queue : ∀ q p, st.(ls_queue) = Some q → p ∈ q → hold_ok p ∧ hold_traced evs p;
}.

Lemma traced_mono evs evs' st : evs ⊆ evs' → traced evs st → traced evs' st.
Proof.
  intros Hs [He Hm Hq]. split.
  - eapply Forall_impl; [exact He|]. intros [| | | | |r a s|r a]; simpl; try done;
      (intros (env0 & room0 & sender & env & room_id & ? & ? & ? & Hc); exists env0, room0, sender, env, room_id;
       split_and!; [by apply Hs|done|done|]; destruct Hc as [?|(ds & d & ? & ?)]; [by left|right; exists ds, d; auto]).
  - eapply Forall_impl; [exact Hm|]. intros []; simpl; try done. intros (env & ev & sk & ? & ?). exists env, ev, sk. auto.
  - intros q p Hqp Hp. destruct (Hq q p Hqp Hp) as [? Ht]. split; [done|]. unfold hold_traced in *.
    destruct (pa_held_request p) as [[r|r]|]; [| |done];
      (destruct Ht as (env & room_id & sender & ? & ? & ?); exists env, room_id, sender; auto).
Qed.
Lemma step_traced evs env ev st : event_wf ev → traced evs st → traced (evs ++ [(env, ev)]) (step env ev st).
Proof.
  intros Hwf Htr. destruct (step_accounted env ev st Hwf) as (es & [Hx Hy] & Hs).
  { intros q p Hq Hp. by apply (tr_queue _ _ Htr q p). }
  assert ((env, ev) ∈ evs ++ [(env, ev)]) as Hin by (apply elem_of_app; right; by apply list_elem_of_singleton).
  apply (traced_mono evs (evs ++ [(env, ev)])) in Htr as [He Hm Hq]; [|set_solver].
  split.
  - rewrite Hx. apply Forall_app. split; [done|]. eapply Forall_impl; [exact Hs|].
    assert (∀ p r user, p.(pa_held_request) = Some (HeldExec r) → p.(pa_requester_user) = user → hold_traced (evs ++ [(env, ev)]) p →
      ∃ env0 room0 sender, (env0, EvExec room0 sender r) ∈ evs ++ [(env, ev)] ∧ user = Some sender ∧
        is_local_target env0 r.(er_target_agent) = true) as Hexec.
    { intros p r user Hh <-. unfold hold_traced. by rewrite Hh. }
    assert (∀ p r user, p.(pa_held_request) = Some (HeldCall r) → p.(pa_requester_user) = user → hold_traced (evs ++ [(env, ev)]) p →
      ∃ env0 room0 sender, (env0, EvCall room0 sender r) ∈ evs ++ [(env, ev)] ∧ user = Some sender ∧ call_routed env0 r) as Hcall.
    { intros p r user Hh <-. unfold hold_traced. by rewrite Hh. }
    intros [| | | | |r a s|r a]; simpl; try done.
    + intros [(room_id & sender & -> & Ha & Hloc & Hg)|(room_id & ds & d & q & p & -> & Hqq & Hp & Hheld & Happ & Hg)].
      * exists env, room_id, sender, env, room_id. split_and!; [done|done|done|by left].
      * destruct (Hexec p r _ Hheld eq_refl (proj2 (Hq q p Hqq Hp))) as (env0 & room0 & sender & ? & Hu & ?).
        rewrite Hu in Hg. exists env0, room0, sender, env, room_id. split_and!; [done|done|done|right; by exists ds, d].
    + intros [(room_id & sender & -> & Ha & Hloc & Hg)|(room_id & ds & d & q & p & -> & Hqq & Hp & Hheld & Happ & Hg)].
      * exists env, room_id, sender, env, room_id. split_and!; [done|done|done|by left].
      * destruct (Hcall p r _ Hheld eq_refl (proj2 (Hq q p Hqq Hp))) as (env0 & room0 & sender & ? & Hu & ?).
        rewrite Hu in Hg. exists env0, room0, sender, env, room_id. split_and!; [done|done|done|right; by exists ds, d].
  - rewrite Hx. apply Forall_app. split; [done|]. eapply Forall_impl; [exact Hs|].
    intros []; simpl; try done. intros (sk & ? & ?). by exists env, ev, sk.
  - intros q' p Hq' Hp. destruct (Hy q' p Hq' Hp) as [Hnew|(q & ? & ?)]; [|eauto].
    unfold new_hold in Hnew. destruct ev; try done.
    + destruct Hnew as (Hh & Hu & Hid & Hloc). unfold hold_ok, hold_traced. rewrite Hh. split; [by intros h [= <-]|eauto 8].
    + destruct Hnew as (Hh & Hu & Hid & Hloc). unfold hold_ok, hold_traced. rewrite Hh. split; [by intros h [= <-]|eauto 8].
    + subst p0. unfold hold_ok, hold_traced. simpl in Hwf. by rewrite Hwf.
Qed.

(** Where a run starts: nothing has happened and no live request is held. *)
Definition fresh st : Prop :=
  st.(ls_effects) = [] ∧ ∀ q p, st.(ls_queue) = Some q → p ∈ q → p.(pa_held_request) = None.
Lemma run_traced_all evs st : Forall (λ e, event_wf e.2) evs → fresh st → traced evs (run evs st).
Proof.
  intros Hwf [He Hq].
  assert (traced [] st) as H0'.
  { split; [by rewrite He..|]. intros q p Hqp Hp. unfold hold_ok, hold_traced. by rewrite (Hq q p Hqp Hp). }
  enough (∀ done, traced done st → traced (done ++ evs) (run evs st)) as Hrun by apply (Hrun [] H0').
  clear H0' He Hq. revert st. induction Hwf as [|[env ev] evs Hev _ IH]; intros st done Hd; simpl.
  - by rewrite app_nil_r.
  - rewrite cons_middle, app_assoc. apply IH. by apply step_traced.
Qed.

(** C1: over any sequence of events from a start with no live request held, whatever the daemon runs was asked for by an event of the
    sequence that was addressed to an agent of this account, passed every gate for the
    authenticated sender of that event, and, where the
    policy asks approval, was released by a verified approving decision of that very
    request: a hold is never released under another identity than the one that asked,
    whatever happens to agent states, trust or policy in between. *)
Theorem live_runs_authorized evs st : Forall (λ e, event_wf e.2) evs → fresh st →
  Forall (run_traced evs) (run evs st).(ls_effects).
Proof. intros Hwf Hf. apply tr_effects. by apply run_traced_all. Qed.

(** Every event the daemon emits about a request, whatever its outcome, verifies under the
    signing key the daemon had at that step, and names that key: an event that cannot be
    signed is not sent. *)
Theorem emitted_events_signed `{!CryptoLaws} evs st ty content : Forall (λ e, event_wf e.2) evs → fresh st →
  Emit ty content ∈ (run evs st).(ls_effects) →
  ∃ env ev sk s, (env, ev) ∈ evs ∧ step_key env ev sk ∧ verify (verifying_key sk) content = Ok tt ∧
    (field SIGNATURE_FIELD content ≫= signature_from_value) = Some s ∧ s.(sig_key_id) = daemon_key_id sk.
Proof.
  intros Hwf Hf Hin. pose proof (tr_emitted _ _ (run_traced_all evs st Hwf Hf)) as He.
  rewrite Forall_forall in He. destruct (He _ Hin) as (env & ev & sk & ? & ? & v & Hs).
  pose proof (sign_into_verify _ _ _ _ Hs) as [Hv _]. unfold sign_into, sign in Hs.
  destruct (signing_bytes v) as [b|]; [|done]. destruct v as [| | | | |es]; try done. injection Hs as <-.
  do 4 eexists. split_and!; [done|done|exact Hv| |].
  - unfold field. rewrite entry_map_insert. apply signature_value_roundtrip.
  - done.
Qed.

(** ** One exec request *)

(** What a request needs to run or to be held, with the allowance it gets: it is routed here,
    its key is the one its invocation calls for, every gate passes for the sender of the
    event and the invocation is not running yet. *)
Record exec_ready env (room_id sender : string) (r : ExecRequest) st (a : Allowance) : Prop := {
  rd_room : env.(en_room_available) = true;
  rd_routed : is_local_target env r.(er_target_agent) = true;
  rd_key : is_Some env.(en_signing_key);
  rd_idempotency : r.(er_idempotency_key) = "exec:" +:+ r.(er_invocation_id);
  rd_gated : exec_gated env r a (Some sender) room_id;
  rd_new : st.(ls_controls) !! r.(er_invocation_id) = None;
}.
(** How a request that is not ready is answered. *)
Inductive exec_refused env (room_id sender : string) (r : ExecRequest) st st' : Prop :=
| refused_not_ours :
    env.(en_room_available) = false ∨ is_local_target env r.(er_target_agent) = false ∨ env.(en_signing_key) = None →
    st' = st → exec_refused env room_id sender r st st'
| refused_malformed sk :
    env.(en_signing_key) = Some sk → r.(er_idempotency_key) ≠ "exec:" +:+ r.(er_invocation_id) →
    st' = perform (emit_exec_rejected sk r.(er_invocation_id) XMalformed) st → exec_refused env room_id sender r st st'
| refused_gate sk x :
    env.(en_signing_key) = Some sk → exec_rejection_justified regex_new env.(en_auth) r room_id (Some sender) x →
    (∀ a, ¬ exec_gated env r a (Some sender) room_id) →
    st' = perform (audit_rejected_exec env room_id r x ++ emit_exec_rejected sk r.(er_invocation_id) x) st →
    exec_refused env room_id sender r st st'
| refused_running sk a :
    env.(en_signing_key) = Some sk → exec_gated env r a (Some sender) room_id →
    is_Some (st.(ls_controls) !! r.(er_invocation_id)) →
    st' = perform (emit_exec_accepted sk r.(er_invocation_id)) st → exec_refused env room_id sender r st st'.
(** The hold of a request. *)
Definition hold_of (room_id sender : string) (r : ExecRequest) (a : Allowance) : PendingApproval :=
  {| pa_room_id := room_id; pa_request := approval_request_for r a; pa_held_request := Some (HeldExec r);
     pa_requester_user := Some sender |}.

Lemma exec_gated_authorize env r a sender room_id : exec_request_wf r → exec_gated env r a sender room_id →
  authorize_live_exec regex_new env.(en_auth) (ExecRequest_value r) r room_id sender = Ok (r, a).
Proof. intros Hwf Hg. by apply authorize_live_exec_Ok. Qed.
Lemma exec_ready_handled env room_id sender r st a : exec_request_wf r → exec_ready env room_id sender r st a →
  ∃ sk, env.(en_signing_key) = Some sk ∧ handle_live_exec_request regex_new env room_id sender r st =
    if a.(al_requires_approval)
    then perform [AskApproval (approval_request_for r a)]
           (enqueue_and_save env (hold_of room_id sender r a) (perform [audit_exec_held env room_id r a] st))
    else spawn_authorized_live_exec env sk r a (perform [audit_exec_decision env room_id r (Allow a)] st).
Proof.
  intros Hwf [Hr Hl [sk Hk] Hi Hg Hn]. exists sk. split; [done|]. unfold handle_live_exec_request.
  rewrite Hr, Hl, Hk, Hi, str_eqb_refl, (exec_gated_authorize env r a), Hn by done. cbn [negb].
  unfold disposition_for_exec. by destruct (al_requires_approval a).
Qed.
Lemma exec_ready_dec env room_id sender r st : exec_request_wf r →
  (∃ a, exec_ready env room_id sender r st a) ∨
  exec_refused env room_id sender r st (handle_live_exec_request regex_new env room_id sender r st).
Proof.
  intros Hwf. destruct (en_room_available env) eqn:Hr.
  2:{ right. apply refused_not_ours; [auto|]. unfold handle_live_exec_request. by rewrite Hr. }
  destruct (is_local_target env (er_target_agent r)) eqn:Hl.
  2:{ right. apply refused_not_ours; [auto|]. unfold handle_live_exec_request. by rewrite Hr, Hl. }
  destruct (en_signing_key env) as [sk|] eqn:Hk.
  2:{ right. apply refused_not_ours; [auto|]. unfold handle_live_exec_request. by rewrite Hr, Hl, Hk. }
  destruct (er_idempotency_key r =s "exec:" +:+ er_invocation_id r) eqn:Hi.
  2:{ right. apply (refused_malformed env room_id sender r st _ sk); [done|by apply str_eqb_neq|].
      unfold handle_live_exec_request. by rewrite Hr, Hl, Hk, Hi. }
  destruct (authorize_live_exec regex_new env.(en_auth) (ExecRequest_value r) r room_id (Some sender)) as [[r' a]|x] eqn:Ha.
  - pose proof Ha as Hg. rewrite authorize_live_exec_Ok in Hg by done. destruct Hg as [-> Hg].
    destruct (ls_controls st !! er_invocation_id r) as [c|] eqn:Hc.
    + right. apply (refused_running env room_id sender r st _ sk a); [done|done|by exists c|].
      unfold handle_live_exec_request. by rewrite Hr, Hl, Hk, Hi, Ha, Hc.
    + left. exists a. split; [done|done|by exists sk|by apply str_eqb_eq|done|done].
  - right. apply (refused_gate env room_id sender r st _ sk x); [done|by apply authorize_live_exec_Err| |].
    + intros a Hg. rewrite (exec_gated_authorize env r a) in Ha by done. done.
    + unfold handle_live_exec_request. by rewrite Hr, Hl, Hk, Hi, Ha.
Qed.
(** What runs or is held because of a state change. *)
Definition spawns st st' (r : ExecRequest) (a : Allowance) : Prop :=
  ∃ es s, extends st st' (es ++ [SpawnRun r a s]) ∧ is_Some (st'.(ls_controls) !! r.(er_invocation_id)).
Definition asks st st' (approval : ApprovalRequest) : Prop := ∃ es, extends st st' (es ++ [AskApproval approval]).
Definition holds env st st' (room_id sender : string) (r : ExecRequest) (a : Allowance) : Prop :=
  st'.(ls_controls) = st.(ls_controls) ∧
  st'.(ls_queue) = (if env.(en_save_ok) then Some (enqueue (default [] st.(ls_queue)) (hold_of room_id sender r a)) else st.(ls_queue)) ∧
  extends st st' [audit_exec_held env room_id r a; AskApproval (approval_request_for r a)].

(** A refused request is only answered and audited. *)
Definition answer_or_audit (e : Effect) : Prop := match e with Emit _ _ | Audit _ => True | _ => False end.
Lemma emit_signed_answers sk ty v : Forall answer_or_audit (emit_signed sk ty v).
Proof. unfold emit_signed. destruct (sign_into _ _ _); by repeat constructor. Qed.
Lemma refused_only_answers env room_id sender r st st' e es :
  exec_refused env room_id sender r st st' → extends st st' (es ++ [e]) → answer_or_audit e.
Proof.
  intros Href Hx.
  assert (∃ l, extends st st' l ∧ Forall answer_or_audit l) as (l & Hl & Hall).
  { destruct Href as [_ ->|sk _ _ ->|sk x _ _ _ ->|sk a' _ _ _ ->].
    - exists []. split; [apply extends_refl|done].
    - eexists. split; [apply extends_perform|apply emit_signed_answers].
    - eexists. split; [apply extends_perform|]. apply Forall_app. split; [|apply emit_signed_answers].
      destruct x; by repeat constructor.
    - eexists. split; [apply extends_perform|apply emit_signed_answers]. }
  unfold extends in *. rewrite Hl in Hx. apply app_inv_head in Hx as ->. apply Forall_app in Hall as [_ Hall]. by inversion Hall.
Qed.
Lemma extends_last st st' es es' e e' : extends st st' (es ++ [e]) → extends st st' (es' ++ [e']) → e = e'.
Proof. unfold extends. intros -> Hx. rewrite !app_assoc in Hx. by apply app_inj_tail in Hx as [_ ?]. Qed.
Lemma exec_ready_spawns env room_id sender r st a : exec_request_wf r → exec_ready env room_id sender r st a →
  a.(al_requires_approval) = false → spawns st (handle_live_exec_request regex_new env room_id sender r st) r a.
Proof.
  intros Hwf Hrd Hap. destruct (exec_ready_handled _ _ _ _ _ _ Hwf Hrd) as (sk & Hk & ->). rewrite Hap.
  destruct (effect_spawn env (EvExec room_id sender r) sk r a (perform [audit_exec_decision env room_id r (Allow a)] st)
    (step_key_env _ _ _ Hk)) as (es & s & [Hx _] & _).
  exists ([audit_exec_decision env room_id r (Allow a)] ++ es), s. rewrite <- app_assoc.
  split; [by eapply extends_trans; [apply extends_perform|]|]. simpl. rewrite lookup_insert_eq. by eexists.
Qed.
Lemma exec_ready_holds env room_id sender r st a : exec_request_wf r → exec_ready env room_id sender r st a →
  a.(al_requires_approval) = true → holds env st (handle_live_exec_request regex_new env room_id sender r st) room_id sender r a.
Proof.
  intros Hwf Hrd Hap. destruct (exec_ready_handled _ _ _ _ _ _ Hwf Hrd) as (sk & Hk & ->). rewrite Hap.
  unfold holds, extends, enqueue_and_save. destruct (en_save_ok env); simpl; split_and!; try done; by rewrite <- app_assoc.
Qed.

(** C4: an exec request event, as the router decodes it, is handled in exactly one of
    three ways.  It is run, registered as
    a session, exactly when it is routed here (the room is at hand, the target's published
    user is this account, the daemon has its signing key), its idempotency key is the one
    of its invocation, every gate passes for the event's sender, the invocation is not
    running already and the policy asks no approval; it is held, queued with that sender
    and announced, exactly when all of that holds and the policy asks approval (if the queue
    file cannot be saved, only the announcement is made).  Any other request changes no
    session and no queue: one that is not routed here is ignored, one that already runs is
    acknowledged again, and every other is rejected for a reason that is true of it. *)
Theorem exec_request_handled env room_id sender r st : exec_request_wf r →
  let st' := handle_live_exec_request regex_new env room_id sender r st in
  (∀ a, spawns st st' r a ↔ exec_ready env room_id sender r st a ∧ a.(al_requires_approval) = false) ∧
  (∀ approval, asks st st' approval ↔
     ∃ a, exec_ready env room_id sender r st a ∧ a.(al_requires_approval) = true ∧ approval = approval_request_for r a) ∧
  (∀ a, exec_ready env room_id sender r st a → a.(al_requires_approval) = true → holds env st st' room_id sender r a) ∧
  ((∀ a, ¬ exec_ready env room_id sender r st a) → exec_refused env room_id sender r st st').
Proof.
  intros Hwf st'. pose proof (λ a, exec_ready_spawns env room_id sender r st a Hwf) as Hsp.
  pose proof (λ a, exec_ready_holds env room_id sender r st a Hwf) as Hho. fold st' in Hsp, Hho.
  destruct (exec_ready_dec env room_id sender r st Hwf) as [[a' Hrd]|Href].
  - split_and!; [| |done|by intros Hno; destruct (Hno a')].
    + intros a. split; [|by intros [? ?]; apply Hsp]. intros (es & s & Hx & _).
      destruct (al_requires_approval a') eqn:Hap.
      * destruct (Hho a' Hrd Hap) as (_ & _ & Hx'). by pose proof (extends_last _ _ _ [_] _ _ Hx Hx').
      * destruct (Hsp a' Hrd Hap) as (es' & s' & Hx' & _). by pose proof (extends_last _ _ _ _ _ _ Hx Hx') as [= -> _].
    + intros ap. split.
      * intros [es Hx]. destruct (al_requires_approval a') eqn:Hap.
        -- destruct (Hho a' Hrd Hap) as (_ & _ & Hx'). pose proof (extends_last _ _ _ [_] _ _ Hx Hx') as [= ->]. by exists a'.
        -- destruct (Hsp a' Hrd Hap) as (es' & s' & Hx' & _). by pose proof (extends_last _ _ _ _ _ _ Hx Hx').
      * intros (a & Hra & Hap & ->). destruct (Hho a Hra Hap) as (_ & _ & Hx). by exists [audit_exec_held env room_id r a].
  - assert (∀ e, (∃ es, extends st st' (es ++ [e])) → answer_or_audit e) as Hno.
    { intros e [es Hx]. by eapply refused_only_answers. }
    split_and!; [| |done|done].
    + intros a. split; [|by intros [? ?]; apply Hsp]. intros (es & s & Hx & _). by destruct (Hno (SpawnRun r a s) (ex_intro _ es Hx)).
    + intros ap. split; [intros Hx; by destruct (Hno _ Hx)|].
      intros (a & Hra & Hap & ->). destruct (Hho a Hra Hap) as (_ & _ & Hx). by exists [audit_exec_held env room_id r a].
Qed.

(** ** What a session receives *)

Inductive ControlFrame := FStdin (s : ExecStdin) | FCancel (c : ExecCancel) | FResize (r : PtyResize).
Definition frame_event (f : ControlFrame) : LiveEvent :=
  match f with FStdin s => EvStdin s | FCancel c => EvCancel c | FResize r => EvResize r end.
Definition frame_session (f : ControlFrame) : string :=
  match f with FStdin s => s.(es_invocation_id) | FCancel c => c.(ec_invocation_id) | FResize r => r.(pr_invocation_id) end.
Definition frame_nonce (f : ControlFrame) : string :=
  match f with FStdin s => s.(es_nonce) | FCancel c => c.(ec_nonce) | FResize r => r.(pr_nonce) end.
Definition frame_content (f : ControlFrame) : Value :=
  match f with FStdin s => ExecStdin_value s | FCancel c => ExecCancel_value c | FResize r => PtyResize_value r end.
Definition frame_key_id (f : ControlFrame) : string :=
  match f with
  | FStdin s => s.(es_signature).(sig_key_id) | FCancel c => c.(ec_signature).(sig_key_id)
  | FResize r => r.(pr_signature).(sig_key_id)
  end.
(** The frame reaches its room and passes the gates for the agent [who]. *)
Definition frame_authorized (who : string) (ef : LiveEnv * ControlFrame) : Prop :=
  ef.1.(en_room_available) = true ∧
  authorize_live_control ef.1.(en_all_agents) ef.1.(en_auth).(au_trust) (frame_content ef.2) (frame_key_id ef.2) who = Ok tt.

(** The abstract session: the frames it accepted, in order. *)
Definition stdin_of (f : ControlFrame) : list (option string) := match f with FStdin s => stdin_frames s | _ => [] end.
Definition cancel_of (f : ControlFrame) : option string := match f with FCancel c => Some c.(ec_reason) | _ => None end.
Definition resize_of (f : ControlFrame) : list PtyWinsize :=
  match f with
  | FResize r => [{| pw_rows := r.(pr_rows); pw_cols := r.(pr_cols); pw_pixel_width := r.(pr_pixel_width);
                     pw_pixel_height := r.(pr_pixel_height) |}]
  | _ => []
  end.
Record received (c c' : LiveExecControl) (accepted : list ControlFrame) : Prop := {
  rc_owner : c'.(lc_requester_agent) = c.(lc_requester_agent);
  rc_stdin : c'.(lc_stdin) = c.(lc_stdin) ++ concat (map stdin_of accepted);
  rc_cancel : c'.(lc_cancel) = opt_or (last (omap cancel_of accepted)) c.(lc_cancel);
  rc_resize : c'.(lc_resize) = (λ l, l ++ concat (map resize_of accepted)) <$> c.(lc_resize);
  rc_seen : ∀ n, n ∈ c'.(lc_seen_control_nonces) ↔ n ∈ c.(lc_seen_control_nonces) ∨ n ∈ map frame_nonce accepted;
}.

Lemma received_refl c : received c c [].
Proof.
  split; simpl; [done|by rewrite app_nil_r|done| |].
  - destruct (lc_resize c); simpl; [by rewrite app_nil_r|done].
  - intros n. rewrite elem_of_nil. tauto.
Qed.
Lemma received_trans c c' c'' acc acc' : received c c' acc → received c' c'' acc' → received c c'' (acc ++ acc').
Proof.
  intros [? Hs Hc Hr Hn] [? Hs' Hc' Hr' Hn']. split.
  - congruence.
  - by rewrite Hs', Hs, map_app, concat_app, app_assoc.
  - rewrite Hc', Hc, omap_app, last_app. by destruct (last (omap cancel_of acc')).
  - rewrite Hr', Hr, map_app, concat_app. destruct (lc_resize c); simpl; [by rewrite app_assoc|done].
  - intros n. rewrite Hn', Hn, map_app, elem_of_app. tauto.
Qed.

(** One frame: dropped, or the session receives it and its nonce is spent. *)
Lemma frame_step env f st inv c : st.(ls_controls) !! inv = Some c →
  ∃ c' acc, (step env (frame_event f) st).(ls_controls) !! inv = Some c' ∧ received c c' acc ∧
    (acc = [] ∨ acc = [f] ∧ frame_session f = inv ∧ frame_authorized c.(lc_requester_agent) (env, f) ∧
       frame_nonce f ∉ c.(lc_seen_control_nonces)) ∧
    (frame_session f = inv → frame_authorized c.(lc_requester_agent) (env, f) →
       frame_nonce f ∈ c.(lc_seen_control_nonces) ∨ acc = [f]).
Proof.
  intros Hc.
  assert (∃ g, step env (frame_event f) st =
      (if en_room_available env
       then handle_control env (frame_session f) (frame_content f) (frame_key_id f) (frame_nonce f) g st else st) ∧
    ∀ c0, received c0 (g (admit_control_nonce c0 (frame_nonce f)).2) [f]) as (g & -> & Hg).
  { destruct f as [s|s|s]; eexists; (split; [reflexivity|]); intros c0; (split; simpl; [done|by rewrite ?app_nil_r|done| |]);
      try (destruct (lc_resize c0); simpl; by rewrite ?app_nil_r); intros n; set_solver. }
  destruct (en_room_available env) eqn:Hav.
  2:{ exists c, []. split_and!; [done|apply received_refl|by left|]. intros _ [Hx _]. simpl in Hx. congruence. }
  unfold handle_control. destruct (decide (frame_session f = inv)) as [<-|Hne].
  - rewrite Hc. destruct (authorize_live_control _ _ _ _ _) as [[]|] eqn:Ha.
    2:{ exists c, []. split_and!; [done|apply received_refl|by left|]. intros _ [_ Hx]. simpl in Hx. congruence. }
    unfold admit_control_nonce at 1. case_bool_decide as Hn; cbn [negb].
    + eexists _, []. split_and!; [apply lookup_insert_eq| |by left|by left]. cbn. destruct (received_refl c) as [? ? ? ? Hs].
      split; try done. intros n. simpl. rewrite elem_of_union, elem_of_singleton. set_solver.
    + eexists _, [f]. split_and!; [apply lookup_insert_eq|apply (Hg c)|right; split_and!; try done|by right].
  - exists c, []. split_and!; [|apply received_refl|by left|done]. destruct (_ !! frame_session f); [|done].
    destruct (authorize_live_control _ _ _ _ _); [|done]. destruct (admit_control_nonce _ _). simpl.
    by rewrite lookup_insert_ne.
Qed.

(** C7: a running session refines its abstract specification: over any sequence of control
    frames it receives exactly an accepted subsequence, in order, each frame of it
    authorized for the agent that started the session and no nonce twice, and no
    authorized frame with a new nonce is lost; replayed, foreign and unauthorized frames
    change nothing. *)
Theorem session_refines_log fs : ∀ st inv c, st.(ls_controls) !! inv = Some c →
  ∃ c' acc, (run (map (λ ef, (ef.1, frame_event ef.2)) fs) st).(ls_controls) !! inv = Some c' ∧
    received c c' (map snd acc) ∧ acc `sublist_of` fs ∧ NoDup (map (frame_nonce ∘ snd) acc) ∧
    (∀ ef, ef ∈ acc → frame_session ef.2 = inv ∧ frame_authorized c.(lc_requester_agent) ef ∧
       frame_nonce ef.2 ∉ c.(lc_seen_control_nonces)) ∧
    (∀ ef, ef ∈ fs → frame_session ef.2 = inv → frame_authorized c.(lc_requester_agent) ef →
       frame_nonce ef.2 ∈ c.(lc_seen_control_nonces) ∨ frame_nonce ef.2 ∈ map (frame_nonce ∘ snd) acc).
Proof.
  induction fs as [|[env f] fs IH]; intros st inv c Hc; simpl.
  { exists c, []. split_and!; [done|apply received_refl|constructor|constructor|by intros ? ?%not_elem_of_nil..]. }
  destruct (frame_step env f st inv c Hc) as (c1 & acc1 & Hc1 & Hr1 & Ha1 & Hl1).
  destruct (IH _ inv c1 Hc1) as (c' & acc & Hc' & Hr' & Hsub & Hnd & Hau & Hall).
  assert (c1.(lc_requester_agent) = c.(lc_requester_agent)) as Ho by apply Hr1.
  rewrite Ho in Hau, Hall.
  exists c', (map (pair env) acc1 ++ acc). split_and!; [done| | | | |].
  - rewrite map_app, map_map. simpl. rewrite map_id. by eapply received_trans.
  - destruct Ha1 as [->|[-> _]]; simpl; by constructor.
  - destruct Ha1 as [->|(-> & _ & _ & Hn)]; simpl; [done|]. constructor; [|done].
    intros (ef & Heq & Hin)%list_elem_of_fmap. destruct (Hau ef Hin) as (_ & _ & Hn').
    apply Hn'. rewrite (rc_seen _ _ _ Hr1). right. simpl in *. rewrite <- Heq. by left.
  - intros ef [Hin|Hin]%elem_of_app.
    + destruct Ha1 as [->|(-> & ? & ? & ?)]; simpl in Hin; [by apply not_elem_of_nil in Hin|].
      by apply list_elem_of_singleton in Hin as ->.
    + destruct (Hau ef Hin) as (? & ? & Hn'). split_and!; [done..|]. intros Hs. apply Hn'. rewrite (rc_seen _ _ _ Hr1). by left.
  - intros ef [->|Hin]%elem_of_cons Hs Hf; simpl in *.
    + destruct (Hl1 Hs Hf) as [?| ->]; [by left|]. right. simpl. left.
    + destruct (Hall ef Hin Hs Hf) as [Hn|Hn].
      * apply (rc_seen _ _ _ Hr1) in Hn as [?|Hn]; [by left|]. right. rewrite map_app, elem_of_app. left. rewrite map_map. exact Hn.
      * right. rewrite map_app, elem_of_app. by right.
Qed.

(** ** Where the handlers fall short *)

Definition is_spawn (e : Effect) : Prop := match e with SpawnRun _ _ _ => True | _ => False end.

(** A request re-sent for a live session never spawns a second child, but a hold released for
    one does: the release path has no such check, so a second child starts under the same
    invocation id and the running session's channels are replaced, after which no
    control reaches the first child. *)
Theorem release_respawns_live_session env sk room_id user sender r a st c :
  exec_request_wf r → env.(en_signing_key) = Some sk → st.(ls_controls) !! r.(er_invocation_id) = Some c →
  exec_gated env r a user room_id →
  (∀ es, extends st (handle_live_exec_request regex_new env room_id sender r st) es → Forall (not ∘ is_spawn) es) ∧
  ∃ es s c', extends st (release_held_exec regex_new env room_id r user st) (es ++ [SpawnRun r a s]) ∧
    (release_held_exec regex_new env room_id r user st).(ls_controls) !! r.(er_invocation_id) = Some c' ∧
    c'.(lc_stdin) = [] ∧ c'.(lc_seen_control_nonces) = ∅.
Proof.
  intros Hwf Hsk Hc Hg. split.
  - intros es He. unfold extends in He.
    assert (∀ env ev l, Forall (starts_nothing env ev) l → Forall (not ∘ is_spawn) l) as Hq.
    { intros env0 ev l Hl. eapply Forall_impl; [exact Hl|]. intros []; simpl; tauto. }
    assert (∀ l, st.(ls_effects) ++ l = st.(ls_effects) ++ es → Forall (starts_nothing env EvRestart) l → Forall (not ∘ is_spawn) es) as Hx.
    { intros l Hl Hs. apply app_inv_head in Hl as <-. by eapply Hq. }
    unfold handle_live_exec_request in He. rewrite Hsk in He.
    destruct (negb (en_room_available env)); [apply (Hx []); [rewrite app_nil_r; exact He|constructor]|].
    destruct (negb (is_local_target _ _)); [apply (Hx []); [rewrite app_nil_r; exact He|constructor]|].
    destruct (negb _); [eapply Hx; [exact He|auto with live]|].
    destruct (authorize_live_exec _ _ _ _ _ _) as [[r' a']|e] eqn:Ha; [|eapply Hx; [exact He|auto with live]].
    rewrite authorize_live_exec_Ok in Ha by done. destruct Ha as [-> _]. rewrite Hc in He.
    eapply Hx; [exact He|]. apply emit_signed_quiet. by left.
  - assert (authorize_live_exec regex_new (en_auth env) (ExecRequest_value r) r room_id user = Ok (r, a)) as Ha
      by (apply authorize_live_exec_Ok; done).
    unfold release_held_exec. rewrite Hsk, Ha.
    destruct (effect_spawn env EvRestart sk r a (perform [audit_exec_released env room_id r a] st)) as (es & s & [He _] & _);
      [by left|].
    exists ([audit_exec_released env room_id r a] ++ es), s. eexists. split_and!.
    + unfold extends in *. rewrite He. simpl. by rewrite <- !app_assoc.
    + unfold spawn_authorized_live_exec. simpl. apply lookup_insert_eq.
    + done.
    + done.
Qed.

(** The last published record of an invocation. *)
Definition published_state (inv : string) (es : list Effect) : option string :=
  last (omap (λ e, match e with PublishInvocation s => if s.(is_invocation_id) =s inv then Some s.(is_state) else None | _ => None end) es).
(** A run that cannot be started is reported as rejected but its invocation record is left
    as [running]: the record published before the run is the last one, while a run that
    finishes or is cancelled always ends with a terminal record. *)
Theorem failed_start_stays_running env env' sk r a e st :
  let inv := r.(er_invocation_id) in
  let running := advance_state (invocation_state_for r env.(en_now)) STATE_RUNNING None env.(en_now_running) in
  let st' := finish_exec env' sk r running e (spawn_authorized_live_exec env sk r a st) in
  match e with
  | RunFailed _ => published_state inv st'.(ls_effects) = Some STATE_RUNNING
  | _ => ∃ s, published_state inv st'.(ls_effects) = Some s ∧ is_terminal s = true
  end.
Proof.
  intros inv running st'.
  assert (∀ s l, s.(is_invocation_id) = inv → published_state inv (l ++ [PublishInvocation s]) = Some s.(is_state)) as Hlast.
  { intros s l Hs. unfold published_state. rewrite omap_app, last_app. simpl. by rewrite Hs, str_eqb_refl. }
  assert (∀ l ty v, published_state inv (l ++ emit_signed sk ty v) = published_state inv l) as Hemit.
  { intros l ty v. unfold published_state, emit_signed. rewrite omap_app. destruct (sign_into _ _ _); simpl; by rewrite app_nil_r. }
  assert (∀ l s x, published_state inv (l ++ [PublishInvocation x; SpawnRun r a s]) = published_state inv (l ++ [PublishInvocation x])) as Hspawn.
  { intros l s x. unfold published_state. by rewrite !omap_app. }
  destruct e as [code sg dur so se tr|code killed|err]; subst st'; simpl.
  - eexists. split; [rewrite !app_assoc; by apply Hlast|]. simpl. destruct code as [code|]; [|done].
    unfold terminal_state_for_exit. by destruct (code =? 0)%Z.
  - eexists. split; [rewrite !app_assoc; by apply Hlast|]. done.
  - unfold emit_exec_rejected. rewrite Hemit. unfold published_state. rewrite omap_app. simpl. rewrite app_nil_r, omap_app. simpl.
    fold inv. rewrite str_eqb_refl, last_app. done.
Qed.

(** The queue only changes where a handler saves it. *)
Lemma release_exec_queue env room_id r user st :
  (release_held_exec regex_new env room_id r user st).(ls_queue) = st.(ls_queue).
Proof. unfold release_held_exec. destruct (en_signing_key env); [|done]. by destruct (authorize_live_exec _ _ _ _ _ _) as [[]|]. Qed.
Lemma release_call_queue env room_id r user st : (release_held_call env room_id r user st).(ls_queue) = st.(ls_queue).
Proof. unfold release_held_call. destruct (en_signing_key env); [|done]. by destruct (authorize_live_call _ _ _ _ _ _) as [[]|]. Qed.
Lemma queue_remove_keeps q rid p : p ∈ q → pa_request_id p ≠ rid → p ∈ (queue_remove q rid).1.
Proof.
  intros [i Hi]%list_elem_of_lookup_1 Hne. unfold queue_remove, position, find_idx.
  destruct (find_idx_from _ 0 q) as [[k x]|] eqn:Hf; simpl; [|by eapply list_elem_of_lookup_2].
  apply find_idx_from_Some in Hf as (k' & -> & Hk & Hx%has_id_true & _). simpl.
  assert (i ≠ k') as Hik by congruence. rewrite delete_take_drop. apply elem_of_app.
  destruct (decide (i < k')) as [Hlt|Hge].
  - left. apply list_elem_of_lookup_2 with i. by rewrite lookup_take_lt.
  - right. apply list_elem_of_lookup_2 with (i - S k'). rewrite lookup_drop. rewrite <- Hi. f_equal. lia.
Qed.
Lemma sweep_keeps env room_id p l : ∀ q st, p ∈ q → (∀ x, x ∈ l → pa_request_id x ≠ pa_request_id p) →
  p ∈ (foldl (sweep_one env room_id) (q, st) l).1.
Proof.
  induction l as [|x l IH]; intros q st Hp Hl; [done|]. cbn [foldl].
  assert (p ∈ (queue_remove q (pa_request_id x)).1) as Hrm by (apply queue_remove_keeps; [done|apply not_eq_sym, Hl; left]).
  assert (∀ y, y ∈ l → pa_request_id y ≠ pa_request_id p) as Hl' by (intros y Hy; apply Hl; by right).
  unfold sweep_one at 2. destruct (pa_held_request x) as [[r|r]|]; by apply IH.
Qed.

(** A pass of the scheduler keeps the queue it loaded and writes it back at its end.  A hold
    that a decision released in between, and that the sweep of the pass did not expire, is
    in the queue again once the pass has saved: the two threads do not synchronize on the
    file, so a request that ran is pending again and can be approved and run anew. *)
Theorem pass_restores_released_hold env env' room rm room_id ds d q p held user st queue' router' :
  queue_wf q → st.(ls_queue) = Some q → p ∈ q → pa_request_id p = d.(apd_request_id) →
  env.(en_save_ok) = true → env.(en_reload_ok) = true →
  handle_live_approval_decision (decision_inputs env) room_id ds d (Some q) st.(ls_router) =
    (LiveReleased rm held user, queue', router') →
  approval_request_expired p.(pa_request).(apr_expires_at) env'.(en_now_unix) = false →
  let st1 := handle_approval_decision regex_new env room_id ds d st in
  (∃ q1, st1.(ls_queue) = Some q1 ∧ p ∉ q1) ∧
  p ∈ (sweep_expired_live_holds env' room q env'.(en_now_unix) st1).1.
Proof.
  intros Hwf Hq Hp Hid Hsave Hload Hh Hexp st1. split.
  - pose proof (handle_live_spec _ _ _ _ _ _ _ _ _ Hh) as (_ & _ & q0 & p0 & ag & n & e & [= <-] & _ & _ & _ & _ & _ & _ & _ & Hq').
    simpl in Hq'. rewrite Hsave, Hload in Hq'. exists (queue_remove q (apd_request_id d)).1. split.
    + subst st1. unfold handle_approval_decision. rewrite Hq, Hh.
      destruct held; [rewrite release_exec_queue|rewrite release_call_queue]; done.
    + intros Hin. destruct (queue_remove_wf q (apd_request_id d) Hwf) as [Hwf' Hnone].
      pose proof (queue_get_wf _ p Hwf' Hin) as Hg. rewrite Hid in Hg. congruence.
  - unfold sweep_expired_live_holds. apply sweep_keeps; [done|]. intros x Hx Heq.
    unfold expired_live_holds_in_room in Hx. apply list_elem_of_In, List.filter_In in Hx as [Hx Hb].
    apply List.filter_In in Hx as [Hx _]. apply list_elem_of_In in Hx. apply andb_true_iff in Hb as [_ Hb].
    assert (x = p) as -> by (pose proof (queue_get_wf q x Hwf Hx) as Hgx; pose proof (queue_get_wf q p Hwf Hp) as Hgp; congruence).
    congruence.
Qed.
End correct.

(** ** Witnesses *)

Module Sample.
#[local] Existing Instance Signing.Toy.toy_crypto.
#[local] Existing Instance derived_serde.
#[local] Existing Instance Approval.sample_guard.
Definition env (policy : Policy) (now : Z) : LiveEnv :=
  {| en_auth := {| au_read_agent := LiveAuth.Sample.inputs.(au_read_agent); au_trust := Some LiveAuth.Sample.trust;
                   au_policy := policy; au_sender_verified := λ _, None |};
     en_room_available := true; en_local_user := Some "@me:matrix.org"; en_signing_key := Some tt;
     en_all_agents := Some [LiveAuth.Sample.requester; LiveAuth.Sample.agent "local" "@me:matrix.org"];
     en_save_ok := true; en_reload_ok := true; en_now_unix := now; en_now := "t0"; en_now_running := "t1";
     en_tool_result := λ _, Err "no tool" |}.
Definition env0 : LiveEnv := env PolicyEngine.Sample.policy 1000.
Definition start : @LiveState Guard := {| ls_controls := ∅; ls_queue := Some []; ls_router := None; ls_effects := [] |}.
Definition request : ExecRequest := LiveAuth.Sample.request "inv" "n".
Definition events : list (LiveEnv * LiveEvent) := [(env0, EvExec "!abc:matrix.org" "@claude:matrix.org" request)].
Definition running : @LiveState Guard := live_run PolicyEngine.Sample.literal_regex events start.
Definition stdin (nonce : string) : ExecStdin :=
  let unsigned := {| es_invocation_id := "inv"; es_data := "ls"; es_eof := false; es_created_at := "t"; es_nonce := nonce;
    es_signature := placeholder_signature LiveAuth.Sample.key_id; es_extra := ∅ |} in
  match sign (H := Signing.Toy.toy_crypto) tt LiveAuth.Sample.key_id (ExecStdin_value unsigned) with
  | Ok s => {| es_invocation_id := "inv"; es_data := "ls"; es_eof := false; es_created_at := "t"; es_nonce := nonce;
               es_signature := s; es_extra := ∅ |}
  | Err _ => unsigned
  end.
(** The same request under a policy that asks approval, its hold, and an approving decision. *)
Definition ask_agent : AgentPolicy :=
  {| ag_allow_exec := true; ag_allow_tools := []; ag_allow_commands := ["cargo"]; ag_allow_cwd := ["/home/me/code/project"];
     ag_deny_args_regex := []; ag_max_runtime_ms := None; ag_max_output_bytes := None; ag_requires_approval := true;
     ag_sandbox := None; ag_network := None; ag_max_processes := None; ag_max_memory_bytes := None;
     ag_max_cpu_seconds := None; ag_seccomp := None; ag_require_verified_device := false |}.
Definition ask_policy : Policy :=
  mkPolicy PolicyEngine.Sample.execution_defaults
    {["!abc:matrix.org" := {| rm_trusted := true; rm_raw_exec_default := Some RawDeny; rm_require_verified_device := false;
        rm_approvers := []; rm_agents := {["@claude:matrix.org" := ask_agent]} |}]}.
Definition held_state : @LiveState Guard :=
  live_run PolicyEngine.Sample.literal_regex [(env ask_policy 1000, EvExec "!abc:matrix.org" "@claude:matrix.org" request)] start.
Definition decision : ApprovalDecision :=
  let unsigned := {| apd_request_id := "req-inv"; apd_decision := DECISION_APPROVED; apd_approved_by := "@me:matrix.org";
    apd_created_at := "2026-01-01T00:00:00Z"; apd_nonce := Some "dn"; apd_expires_at := Some "2026-06-02T12:05:00Z";
    apd_signature := None; apd_extra := ∅ |} in
  match sign_approval_decision (H := Signing.Toy.toy_crypto) tt LiveAuth.Sample.key_id unsigned with Ok d => d | Err _ => unsigned end.
End Sample.

Section live_witnesses.
#[local] Existing Instance Signing.Toy.toy_crypto.
#[local] Existing Instance Signing.Toy.toy_laws.
#[local] Existing Instance derived_serde.
#[local] Existing Instance derived_serde_laws.
#[local] Existing Instance Approval.sample_guard.

Lemma sample_events_wf : Forall (λ e : LiveEnv * LiveEvent, event_wf e.2) Sample.events.
Proof. constructor; [apply sample_wf|constructor]. Qed.
Lemma sample_fresh : fresh Sample.start.
Proof. split; [done|]. intros q p [= <-] Hp. by apply not_elem_of_nil in Hp. Qed.

Lemma live_runs_authorized_witness :
  Forall (run_traced PolicyEngine.Sample.literal_regex Sample.events) Sample.running.(ls_effects) ∧
  length Sample.running.(ls_effects) = 5.
Proof.
  split; [|vm_compute; reflexivity].
  exact (live_runs_authorized PolicyEngine.Sample.literal_regex Sample.events Sample.start sample_events_wf sample_fresh).
Defined.
Lemma emitted_events_signed_witness :
  ∃ content, Emit EXEC_ACCEPTED content ∈ Sample.running.(ls_effects) ∧
    verify (H := Signing.Toy.toy_crypto) tt content = Ok tt.
Proof.
  destruct (sign_into (H := Signing.Toy.toy_crypto) tt (daemon_key_id (H := Signing.Toy.toy_crypto) tt) (ExecAccepted_value
    {| ea_invocation_id := "inv"; ea_signature := None; ea_extra := ∅ |})) as [content|] eqn:E; [|discriminate E].
  assert (Emit EXEC_ACCEPTED content ∈ Sample.running.(ls_effects)) as Hin.
  { vm_compute in E. injection E as <-. vm_compute. right. left. }
  exists content. split; [exact Hin|].
  destruct (emitted_events_signed PolicyEngine.Sample.literal_regex Sample.events Sample.start EXEC_ACCEPTED content
    sample_events_wf sample_fresh Hin) as (_ & _ & [] & _ & _ & _ & Hv & _). exact Hv.
Defined.
Lemma session_refines_log_witness :
  ∃ c' (acc : list (LiveEnv * ControlFrame)), (live_run PolicyEngine.Sample.literal_regex
      (map (λ ef, (ef.1, frame_event ef.2))
        [(Sample.env0, FStdin (Sample.stdin "a")); (Sample.env0, FStdin (Sample.stdin "a"))])
      Sample.running).(ls_controls) !! "inv" = Some c' ∧
    NoDup (map (frame_nonce ∘ snd) acc) ∧ c'.(lc_stdin) = [Some "ls"].
Proof.
  destruct (ls_controls Sample.running !! "inv") as [c|] eqn:Hc; [|vm_compute in Hc; discriminate Hc].
  destruct (session_refines_log PolicyEngine.Sample.literal_regex
    [(Sample.env0, FStdin (Sample.stdin "a")); (Sample.env0, FStdin (Sample.stdin "a"))] Sample.running "inv" c Hc)
    as (c' & acc & Hc' & _ & _ & Hnd & _).
  exists c', acc. split_and!; [exact Hc'|exact Hnd|]. vm_compute in Hc'. injection Hc' as <-. reflexivity.
Defined.
Lemma sample_gated : exec_gated PolicyEngine.Sample.literal_regex Sample.env0 Sample.request LiveAuth.Sample.allowance
  (Some "@claude:matrix.org") "!abc:matrix.org".
Proof.
  assert (authorize_live_exec PolicyEngine.Sample.literal_regex Sample.env0.(en_auth) (ExecRequest_value Sample.request)
    Sample.request "!abc:matrix.org" (Some "@claude:matrix.org") = Ok (Sample.request, LiveAuth.Sample.allowance)) as Ha
    by (vm_compute; reflexivity).
  exact (proj2 (proj1 (authorize_live_exec_Ok _ _ _ _ _ _ _ (sample_wf "inv" "n")) Ha)).
Qed.
Lemma exec_request_handled_witness :
  spawns Sample.start (handle_live_exec_request PolicyEngine.Sample.literal_regex Sample.env0 "!abc:matrix.org"
    "@claude:matrix.org" Sample.request Sample.start) Sample.request LiveAuth.Sample.allowance.
Proof.
  apply (proj1 (exec_request_handled PolicyEngine.Sample.literal_regex Sample.env0 "!abc:matrix.org" "@claude:matrix.org"
    Sample.request Sample.start (sample_wf "inv" "n")) LiveAuth.Sample.allowance).
  split; [|reflexivity]. split; [reflexivity|reflexivity|by exists tt|vm_compute; reflexivity|exact sample_gated|reflexivity].
Defined.
Lemma release_respawns_live_session_witness :
  ∃ es s, extends Sample.running (release_held_exec PolicyEngine.Sample.literal_regex Sample.env0 "!abc:matrix.org"
      Sample.request (Some "@claude:matrix.org") Sample.running) (es ++ [SpawnRun Sample.request LiveAuth.Sample.allowance s]).
Proof.
  destruct (ls_controls Sample.running !! er_invocation_id Sample.request) as [c|] eqn:Hc; [|vm_compute in Hc; discriminate Hc].
  assert (authorize_live_exec PolicyEngine.Sample.literal_regex Sample.env0.(en_auth) (ExecRequest_value Sample.request)
    Sample.request "!abc:matrix.org" (Some "@claude:matrix.org") = Ok (Sample.request, LiveAuth.Sample.allowance)) as Ha
    by (vm_compute; reflexivity).
  assert (exec_gated PolicyEngine.Sample.literal_regex Sample.env0 Sample.request LiveAuth.Sample.allowance
    (Some "@claude:matrix.org") "!abc:matrix.org") as Hg.
  { exact (proj2 (proj1 (authorize_live_exec_Ok _ _ _ _ _ _ _ (sample_wf "inv" "n")) Ha)). }
  destruct (proj2 (release_respawns_live_session PolicyEngine.Sample.literal_regex Sample.env0 tt "!abc:matrix.org"
    (Some "@claude:matrix.org") "@claude:matrix.org" Sample.request LiveAuth.Sample.allowance Sample.running c
    (sample_wf "inv" "n") eq_refl Hc Hg)) as (es & s & _ & He & _).
  exists es, s. exact He.
Defined.
Lemma pass_restores_released_hold_witness :
  ∃ q p, ls_queue Sample.held_state = Some q ∧
    p ∈ (sweep_expired_live_holds (Sample.env Sample.ask_policy 1000) "!abc:matrix.org" q 1000
      (handle_approval_decision PolicyEngine.Sample.literal_regex (Sample.env Sample.ask_policy 1000) "!abc:matrix.org"
         "@me:matrix.org" Sample.decision Sample.held_state)).1.
Proof.
  destruct (ls_queue Sample.held_state) as [q|] eqn:Hq; [|vm_compute in Hq; discriminate Hq].
  assert (∃ p, q = [p]) as [p ->] by (vm_compute in Hq; injection Hq as <-; eexists; reflexivity).
  destruct (handle_live_approval_decision (decision_inputs (Sample.env Sample.ask_policy 1000)) "!abc:matrix.org"
    "@me:matrix.org" Sample.decision (Some [p]) Sample.held_state.(ls_router)) as [[o q'] r'] eqn:Hh.
  exists [p], p. split; [reflexivity|].
  assert (∃ rm held user, o = LiveReleased rm held user) as (rm & held & user & ->).
  { vm_compute in Hq. injection Hq as <-. vm_compute in Hh. injection Hh as <- _ _. eauto. }
  refine (proj2 (pass_restores_released_hold PolicyEngine.Sample.literal_regex (Sample.env Sample.ask_policy 1000)
    (Sample.env Sample.ask_policy 1000) "!abc:matrix.org" rm "!abc:matrix.org" "@me:matrix.org" Sample.decision [p] p held
    user Sample.held_state q' r' _ Hq _ _ eq_refl eq_refl Hh _)).
  - unfold queue_wf. simpl. repeat constructor; by intros ?%not_elem_of_nil.
  - left.
  - vm_compute in Hq. injection Hq as <-. vm_compute. reflexivity.
  - vm_compute in Hq. injection Hq as <-. vm_compute. reflexivity.
Defined.
End live_witnesses.
