(* ===== verification/Orchestrator.v ===== *)
(** * Task orchestrator

    Models [crates/mx-agent-daemon/src/task_orchestrator.rs]: deciding, authorizing,
    claiming, dispatching and finalizing one task, restart recovery, and the
    queue-backed approval gate.  The store, the dispatcher and the gate are the
    traits of the source, as classes over the state they keep; the replay cache the
    orchestrator shares with the gate is one component of the world both act on.
    Clock readings, the generated invocation id and text rendering are arguments;
    auditing, which never changes a decision, is not modelled. *)
From Stdlib Require Import ZArith.
From stdpp Require Import gmap strings list pretty.
From S2P Require Import Prelude RustStr CanonicalJson Schema Signing Time Replay NonceGuard PolicyFile PolicyEngine Trust Room.
From S2P Require Invocation.
From S2P Require Import TaskLifecycle Approval.

(** ** Actions, results, errors *)

Inductive TaskActionError := MissingAction | InvalidAction (task_id : string).
Definition ACTION_FIELD : string := "action".
(** [serde]'s decoding of a legacy [extra] payload is an argument. *)
Definition action_from_task (action_from_value : Value → option TaskAction) (task : TaskState) :
    result TaskAction TaskActionError :=
  match task.(ts_action) with
  | Some action => Ok action
  | None =>
      let? value := ok_or (task.(ts_extra) !! ACTION_FIELD) MissingAction in
      ok_or (action_from_value value) (InvalidAction task.(ts_task_id))
  end.

Record TaskExecutionResult := {
  xr_exit_code : option Z;
  xr_summary : string;
  xr_artifact_mxc : option string;
}.
Definition is_success (r : TaskExecutionResult) : bool := bool_decide (r.(xr_exit_code) = Some 0%Z).

Inductive TaskDispatchError := PolicyDenied (reason : string) | DispatchFailed (reason : string).
Inductive TaskStoreError :=
| StaleClaim (task_id : string) (expected current : Z)
| NotFound (task_id : string)
| OtherStoreError (reason : string).
Inductive ApprovalDisposition :=
| Approved
| Denied (reason : string)
| Pending (request_id : string)
| ApprovalExpired (request_id : string).

(** [OrchestrationOutcome], less the error text of a malformed action. *)
Inductive OrchestrationOutcome :=
| ONotAssigned (task_id : string)
| ONotRunnableState (task_id state : string)
| OBlocked (task_id : string) (waiting_on : list string)
| OMalformedAction (task_id : string)
| OStaleClaim (task_id : string)
| ODenied (task_id invocation_id : string)
| OCompleted (task_id invocation_id state : string)
| ORecoveredStale (task_id : string)
| OReconciledInvocation (task_id state : string)
| OStillRunningInvocation (task_id : string)
| OStaleRemoteExecuting (task_id owner : string)
| OAwaitingApproval (task_id : string) (request_id : option string)
| OStoreError (task_id reason : string).

(** ** The traits *)

Class TaskStore (S : Type) := {
  claim : UpdateTaskOptions → S → result TaskState TaskStoreError * S;
  finalize : UpdateTaskOptions → S → result TaskState TaskStoreError * S;
}.
Class TaskDispatcher (D : Type) := {
  dispatch : TaskState → TaskAction → string → Allowance → D → result TaskExecutionResult TaskDispatchError * D;
}.
(** The gate acts on its own state and on the shared replay cache, at a clock reading. *)
Class TaskApprovalGate (G C : Type) := {
  gate_evaluate : Z → TaskState → TaskAction → G * option C → ApprovalDisposition * (G * option C);
  compensate_lost_claim : G * option C → G * option C;
}.

(** ** Helpers *)

Definition succeeded_ids (tasks : list TaskState) : gset string :=
  list_to_set (map ts_task_id (List.filter (λ t, t.(ts_state) =s STATE_SUCCEEDED) tasks)).
Definition unmet_dependencies (task : TaskState) (succeeded : gset string) : list string :=
  List.filter (λ dep, negb (bool_decide (dep ∈ succeeded))) task.(ts_depends_on).

Lemma unmet_nil task all :
  unmet_dependencies task (succeeded_ids all) = [] ↔
  ∀ dep, dep ∈ task.(ts_depends_on) → ∃ t, t ∈ all ∧ t.(ts_task_id) = dep ∧ t.(ts_state) = STATE_SUCCEEDED.
Proof.
  assert (∀ dep, dep ∈ succeeded_ids all ↔ ∃ t, t ∈ all ∧ t.(ts_task_id) = dep ∧ t.(ts_state) = STATE_SUCCEEDED) as Hs.
  { intros dep. unfold succeeded_ids. rewrite elem_of_list_to_set, list_elem_of_fmap.
    setoid_rewrite list_elem_of_In. setoid_rewrite List.filter_In. setoid_rewrite str_eqb_eq. naive_solver. }
  unfold unmet_dependencies. setoid_rewrite <- Hs. split.
  - intros Hu dep Hdep. destruct (bool_decide (dep ∈ succeeded_ids all)) eqn:E; [by bool_prop|].
    assert (In dep (List.filter (λ dep, negb (bool_decide (dep ∈ succeeded_ids all))) task.(ts_depends_on))) as Hin.
    { apply List.filter_In. split; [by apply list_elem_of_In|]. by rewrite E. }
    by rewrite Hu in Hin.
  - intros Hd. destruct (List.filter _ _) as [|dep l] eqn:E; [done|].
    assert (In dep (dep :: l)) as Hin by (by left). rewrite <- E in Hin. apply List.filter_In in Hin as [Hin Hn].
    apply list_elem_of_In, Hd in Hin. bool_prop. done.
Qed.

(** [dispatch_result] and [failure_result]; [now] is [now_rfc3339()]. *)
Definition dispatch_result (status completed_by now invocation_id action : string) (reason : option string)
    (output : TaskExecutionResult) : Value :=
  into_value {| tr_status := status; tr_completed_by := completed_by; tr_completed_at := now;
    tr_invocation_id := Some invocation_id; tr_action := Some action; tr_reason := reason;
    tr_exit_code := output.(xr_exit_code); tr_summary := Some output.(xr_summary);
    tr_artifact_mxc := output.(xr_artifact_mxc); tr_extra := ∅ |}.
Definition failure_result (completed_by now : string) (invocation_id action : option string) (reason : string)
    (summary : option string) : Value :=
  into_value {| tr_status := STATE_FAILED; tr_completed_by := completed_by; tr_completed_at := now;
    tr_invocation_id := invocation_id; tr_action := action; tr_reason := Some reason; tr_exit_code := None;
    tr_summary := summary; tr_artifact_mxc := None; tr_extra := ∅ |}.

(** The options of a claim and of a finalize. *)
Definition claim_options (agent_id : string) (task : TaskState) (invocation_id : string) : UpdateTaskOptions :=
  {| uo_task_id := task.(ts_task_id); uo_state := Some STATE_EXECUTING; uo_assigned_to := Some agent_id;
     uo_title := None; uo_description := None; uo_invocation_id := Some invocation_id; uo_result := None;
     uo_action := None; uo_expected_state_rev := Some task.(ts_state_rev) |}.
Definition finalize_options (task_id state : string) (result : Value) (rev : Z) : UpdateTaskOptions :=
  {| uo_task_id := task_id; uo_state := Some state; uo_assigned_to := None; uo_title := None;
     uo_description := None; uo_invocation_id := None; uo_result := Some result; uo_action := None;
     uo_expected_state_rev := Some rev |}.

(** Rust's [{:?}] of a string, an argument, in the texts that use it. *)
Definition deny_reason_text (debug_str : string → string) (r : DenyReason) : string :=
  match r with
  | UnknownRoom => "no policy for requesting room"
  | UntrustedRoom => "room is not trusted for raw exec"
  | UnknownAgent => "no policy for requesting agent in this room"
  | EmptyCommand => "command argv is empty"
  | ExecNotAllowed => "raw exec is not permitted"
  | CommandNotAllowed command => "command " +:+ debug_str command +:+ " is not allowlisted"
  | CwdNotAllowed cwd => "working directory " +:+ debug_str cwd +:+ " is not allowlisted"
  | DeniedArguments pattern => "arguments matched deny pattern " +:+ debug_str pattern
  | ToolNotAllowed tool => "tool " +:+ debug_str tool +:+ " is not allowlisted"
  end.
Definition format_store_error (debug_str : string → string) (err : TaskStoreError) : string :=
  match err with
  | StaleClaim task_id expected current =>
      "task " +:+ debug_str task_id +:+ " update is stale: expected state_rev " +:+ pretty expected
        +:+ " but current is " +:+ pretty current
  | NotFound task_id => "task " +:+ debug_str task_id +:+ " was not found"
  | OtherStoreError reason => reason
  end.

Definition evaluate_task_action (regex_new : RegexNew) (policy : Policy) (room_id : string) (task : TaskState)
    (action : TaskAction) : Outcome :=
  match action with
  | Tool tool _ _ =>
      evaluate_call policy {| cc_room_id := room_id; cc_requesting_agent := task.(ts_created_by); cc_tool := tool |}
  | Exec command cwd _ _ _ _ =>
      evaluate_exec regex_new policy
        {| xc_room_id := room_id; xc_requesting_agent := task.(ts_created_by); xc_command := command; xc_cwd := cwd |}
  end.

(** ** One task *)

Section orchestrator.
Context `{Crypto} {Store Disp Gate Cache : Type}
  `{!TaskStore Store, !TaskDispatcher Disp, !NonceGuard Cache, !TaskApprovalGate Gate Cache}.
Context (action_from_value : Value → option TaskAction) (regex_new : RegexNew) (debug_str : string → string).

(** [TaskOrchestrator], less the audit log, the cache and the gate. *)
Record TaskOrchestrator := {
  to_agent_id : string;
  to_room_id : option string;
  to_policy : option Policy;
  to_trust_store : option TrustStore;
  to_verifying_keys : gmap string VerifyingKey;
}.
(** What a pass acts on; [None] where the orchestrator has no gate or cache. *)
Record World := {
  w_store : Store;
  w_dispatcher : Disp;
  w_gate : option Gate;
  w_cache : option Cache;
}.
Definition set_store (w : World) (s : Store) : World :=
  {| w_store := s; w_dispatcher := w.(w_dispatcher); w_gate := w.(w_gate); w_cache := w.(w_cache) |}.
Definition set_dispatcher (w : World) (d : Disp) : World :=
  {| w_store := w.(w_store); w_dispatcher := d; w_gate := w.(w_gate); w_cache := w.(w_cache) |}.
Definition set_gate (w : World) (g : option Gate) (c : option Cache) : World :=
  {| w_store := w.(w_store); w_dispatcher := w.(w_dispatcher); w_gate := g; w_cache := c |}.
Definition set_cache (w : World) (c : option Cache) : World :=
  {| w_store := w.(w_store); w_dispatcher := w.(w_dispatcher); w_gate := w.(w_gate); w_cache := c |}.
Definition Orch (A : Type) : Type := st World OrchestrationOutcome A.
Definition run_finalize (o : UpdateTaskOptions) (w : World) : result TaskState TaskStoreError * World :=
  let '(r, s) := finalize o w.(w_store) in (r, set_store w s).
Definition run_claim (o : UpdateTaskOptions) (w : World) : result TaskState TaskStoreError * World :=
  let '(r, s) := claim o w.(w_store) in (r, set_store w s).

Context (self : TaskOrchestrator) (now : string) (now_unix : Z).

Definition is_assigned (task : TaskState) : bool := task.(ts_assigned_to) =s self.(to_agent_id).

Definition runnable_tasks (tasks : list TaskState) : list TaskState :=
  let succeeded := succeeded_ids tasks in
  List.filter (λ t, match unmet_dependencies t succeeded with [] => true | _ => false end)
    (List.filter (λ t, is_runnable t.(ts_state)) (List.filter is_assigned tasks)).

(** Finalize as [blocked] with a reason: the common body of the [block_*] methods. *)
Definition finalize_blocked {A} (task : TaskState) (invocation_id : string) (result : Value) : Orch A := λ w,
  match run_finalize (finalize_options task.(ts_task_id) STATE_BLOCKED result task.(ts_state_rev)) w with
  | (Ok finalized, w') => (Err (ODenied finalized.(ts_task_id) invocation_id), w')
  | (Err err, w') => (Err (OStoreError task.(ts_task_id) (format_store_error debug_str err)), w')
  end.
Definition block_unauthorized {A} (task : TaskState) (action : TaskAction) (invocation_id reason : string) : Orch A :=
  finalize_blocked task invocation_id
    (failure_result self.(to_agent_id) now (Some invocation_id) (Some (kind action)) "unauthorized"
       (Some ("task action authorization rejected: " +:+ reason))).
Definition block_approval_expired {A} (task : TaskState) (action : TaskAction) (invocation_id : string) : Orch A :=
  finalize_blocked task invocation_id
    (failure_result self.(to_agent_id) now (Some invocation_id) (Some (kind action)) "approval_expired"
       (Some "approval window expired before a decision was made")).
Definition block_approval_denied {A} (task : TaskState) (action : TaskAction) (invocation_id reason : string) : Orch A :=
  finalize_blocked task invocation_id
    (failure_result self.(to_agent_id) now (Some invocation_id) (Some (kind action)) "approval_denied"
       (Some ("task action approval denied: " +:+ reason))).
Definition block_policy_denied {A} (task : TaskState) (action : TaskAction) (invocation_id reason : string) : Orch A :=
  finalize_blocked task invocation_id
    (failure_result self.(to_agent_id) now (Some invocation_id) (Some (kind action)) "policy_denied" (Some reason)).

Definition verify_task_action_authorization (task : TaskState) (action : TaskAction) (invocation_id : string) : Orch unit :=
  λ w,
  if negb (is_some self.(to_trust_store)) && negb (is_some w.(w_cache)) then (Ok tt, w) else
  match authorization action with
  | None => block_unauthorized task action invocation_id "unsigned" w
  | Some auth =>
      if negb (auth.(taa_target_agent) =s self.(to_agent_id)) then
        block_unauthorized task action invocation_id "wrong_target" w
      else
        match self.(to_trust_store) with
        | None => (Ok tt, w)
        | Some trust =>
            let key_id := auth.(taa_signature).(sig_key_id) in
            if negb (is_key_trusted trust key_id) then
              block_unauthorized task action invocation_id "untrusted_key" w
            else
              match self.(to_verifying_keys) !! key_id with
              | None => block_unauthorized task action invocation_id "unresolved_key" w
              | Some verifying_key =>
                  match verify_task_action_signature verifying_key task.(ts_task_id) action auth with
                  | Ok _ => (Ok tt, w)
                  | Err _ => block_unauthorized task action invocation_id "invalid_signature" w
                  end
              end
        end
  end.

Definition replay_reason (err : ReplayError) : string :=
  match err with
  | Expired => "expired"
  | Replayed => "replayed"
  | MalformedTimestamp => "malformed_expiry"
  | Corrupt => "replay_cache_corrupt"
  | ReplayIo _ => "replay_cache_unavailable"
  end.
Definition admit_task_action_replay (task : TaskState) (action : TaskAction) (invocation_id : string) : Orch unit := λ w,
  match w.(w_cache) with
  | None => (Ok tt, w)
  | Some cache =>
      match authorization action with
      | None => block_unauthorized task action invocation_id "unsigned" w
      | Some auth =>
          let '(r, cache') := burn now_unix auth.(taa_nonce) auth.(taa_expires_at) cache in
          let w := set_cache w (Some cache') in
          match r with
          | Ok _ => (Ok tt, w)
          | Err err => block_unauthorized task action invocation_id (replay_reason err) w
          end
      end
  end.

Definition authorize_task_action (task : TaskState) (action : TaskAction) (invocation_id : string) : Orch Allowance := λ w,
  match self.(to_policy) with
  | None => (Ok Allowance_default, w)
  | Some policy =>
      match self.(to_room_id) with
      | None => block_policy_denied task action invocation_id "policy_not_configured_for_room" w
      | Some room_id =>
          match evaluate_task_action regex_new policy room_id task action with
          | Allow a => (Ok a, w)
          | Deny reason => block_policy_denied task action invocation_id (deny_reason_text debug_str reason) w
          end
      end
  end.

Definition resolve_approval (task : TaskState) (action : TaskAction) (invocation_id : string) : Orch unit := λ w,
  match w.(w_gate) with
  | None => (Err (OAwaitingApproval task.(ts_task_id) None), w)
  | Some gate =>
      let '(disposition, (gate', cache')) := gate_evaluate now_unix task action (gate, w.(w_cache)) in
      let w := set_gate w (Some gate') cache' in
      match disposition with
      | Approved => (Ok tt, w)
      | Denied reason => block_approval_denied task action invocation_id reason w
      | Pending request_id => (Err (OAwaitingApproval task.(ts_task_id) (Some request_id)), w)
      | ApprovalExpired _ => block_approval_expired task action invocation_id w
      end
  end.

(** The [StaleClaim] arm: take back the nonces this pass burned. *)
Definition compensate (action : TaskAction) (allowance : Allowance) (w : World) : World :=
  let w := match w.(w_cache), authorization action with
           | Some cache, Some auth => set_cache w (Some (unburn auth.(taa_nonce) cache))
           | _, _ => w
           end in
  if allowance.(al_requires_approval) then
    match w.(w_gate) with
    | Some gate => let '(gate', cache') := compensate_lost_claim (gate, w.(w_cache)) in set_gate w (Some gate') cache'
    | None => w
    end
  else w.

(** [process_one] up to the successful claim: every early return of the method. *)
Definition prepare (task : TaskState) (all_tasks : list TaskState) (invocation_id : string) :
    Orch (TaskAction * Allowance * TaskState) :=
  if negb (is_assigned task) then fail (ONotAssigned task.(ts_task_id))
  else if negb (is_runnable task.(ts_state)) then fail (ONotRunnableState task.(ts_task_id) task.(ts_state))
  else
    match unmet_dependencies task (succeeded_ids all_tasks) with
    | (_ :: _) as waiting_on => fail (OBlocked task.(ts_task_id) waiting_on)
    | [] =>
        match action_from_task action_from_value task with
        | Err _ => fail (OMalformedAction task.(ts_task_id))
        | Ok action =>
            let! _ := verify_task_action_authorization task action invocation_id in
            let! allowance := authorize_task_action task action invocation_id in
            let! _ := if allowance.(al_requires_approval)
                      then resolve_approval task action invocation_id else ret tt in
            let! _ := admit_task_action_replay task action invocation_id in
            λ w,
              match run_claim (claim_options self.(to_agent_id) task invocation_id) w with
              | (Ok claimed, w') => (Ok (action, allowance, claimed), w')
              | (Err (StaleClaim _ _ _), w') =>
                  (Err (OStaleClaim task.(ts_task_id)), compensate action allowance w')
              | (Err err, w') => (Err (OStoreError task.(ts_task_id) (format_store_error debug_str err)), w')
              end
        end
    end.

(** The terminal state and result of a dispatch. *)
Definition dispatch_terminal (action : TaskAction) (invocation_id : string)
    (dispatched : result TaskExecutionResult TaskDispatchError) : string * Value :=
  match dispatched with
  | Ok output =>
      let state := if is_success output then STATE_SUCCEEDED else STATE_FAILED in
      (state, dispatch_result state self.(to_agent_id) now invocation_id (kind action)
                (if state =s STATE_FAILED then Some "process_exit" else None) output)
  | Err (PolicyDenied reason) =>
      (STATE_FAILED, failure_result self.(to_agent_id) now (Some invocation_id) (Some (kind action))
                       "policy_denied" (Some reason))
  | Err (DispatchFailed reason) =>
      (STATE_FAILED, failure_result self.(to_agent_id) now (Some invocation_id) (Some (kind action))
                       "dispatch_failed" (Some reason))
  end.

Definition process_one (task : TaskState) (all_tasks : list TaskState) (invocation_id : string) (w : World) :
    OrchestrationOutcome * World :=
  match prepare task all_tasks invocation_id w with
  | (Err outcome, w) => (outcome, w)
  | (Ok (action, allowance, claimed), w) =>
      let '(dispatched, d) := dispatch claimed action invocation_id allowance w.(w_dispatcher) in
      let w := set_dispatcher w d in
      let '(terminal, result) := dispatch_terminal action invocation_id dispatched in
      match run_finalize (finalize_options task.(ts_task_id) terminal result claimed.(ts_state_rev)) w with
      | (Ok finalized, w) =>
          if (terminal =s STATE_FAILED)
             && match finalized.(ts_result) ≫= field "reason" with
                | Some (Str reason) => reason =s "policy_denied"
                | _ => false
                end
          then (ODenied finalized.(ts_task_id) invocation_id, w)
          else (OCompleted finalized.(ts_task_id) invocation_id finalized.(ts_state), w)
      | (Err err, w) => (OStoreError task.(ts_task_id) (format_store_error debug_str err), w)
      end
  end.

(** ** Restart recovery *)

Definition recover_stale_executing (task : TaskState) (live_invocations : gset string) (w : World) :
    OrchestrationOutcome * World :=
  if negb (is_assigned task) || negb (task.(ts_state) =s STATE_EXECUTING) then
    (ONotRunnableState task.(ts_task_id) task.(ts_state), w)
  else if match task.(ts_invocation_id) with Some id => bool_decide (id ∈ live_invocations) | None => false end then
    (ONotRunnableState task.(ts_task_id) task.(ts_state), w)
  else
    let result := failure_result self.(to_agent_id) now task.(ts_invocation_id) None "recovered_stale_invocation"
      (Some "daemon restart found executing task without live local invocation") in
    match run_finalize (finalize_options task.(ts_task_id) STATE_FAILED result task.(ts_state_rev)) w with
    | (Ok finalized, w) => (ORecoveredStale finalized.(ts_task_id), w)
    | (Err err, w) => (OStoreError task.(ts_task_id) (format_store_error debug_str err), w)
    end.

Definition reconcile_terminal_invocation (task : TaskState) (invocation : InvocationState) (w : World) :
    OrchestrationOutcome * World :=
  let state := default STATE_FAILED (Invocation.task_state_for_invocation invocation.(is_state)) in
  let result := Invocation.task_result_from_invocation invocation self.(to_agent_id) now in
  match run_finalize (finalize_options task.(ts_task_id) state (into_value result) task.(ts_state_rev)) w with
  | (Ok finalized, w) => (OReconciledInvocation finalized.(ts_task_id) finalized.(ts_state), w)
  | (Err err, w) => (OStoreError task.(ts_task_id) (format_store_error debug_str err), w)
  end.

(** One executing task of the loop of [reconcile_executing_tasks]. *)
Definition reconcile_one (live_invocations : gset string) (invocations : gmap string InvocationState)
    (task : TaskState) (w : World) : OrchestrationOutcome * World :=
  if negb (is_assigned task) then (OStaleRemoteExecuting task.(ts_task_id) task.(ts_assigned_to), w)
  else if match task.(ts_invocation_id) with Some id => bool_decide (id ∈ live_invocations) | None => false end then
    (ONotRunnableState task.(ts_task_id) task.(ts_state), w)
  else
    match task.(ts_invocation_id) ≫= (λ id, invocations !! id) with
    | Some inv =>
        if Invocation.is_terminal inv.(is_state) then reconcile_terminal_invocation task inv w
        else (OStillRunningInvocation task.(ts_task_id), w)
    | None => recover_stale_executing task live_invocations w
    end.
Fixpoint reconcile_loop (live_invocations : gset string) (invocations : gmap string InvocationState)
    (tasks : list TaskState) (w : World) : list OrchestrationOutcome * World :=
  match tasks with
  | [] => ([], w)
  | task :: tasks =>
      let '(o, w) := reconcile_one live_invocations invocations task w in
      let '(os, w) := reconcile_loop live_invocations invocations tasks w in
      (o :: os, w)
  end.
Definition reconcile_executing_tasks (tasks : list TaskState) (live_invocations : gset string)
    (invocations : gmap string InvocationState) (w : World) : list OrchestrationOutcome * World :=
  reconcile_loop live_invocations invocations (List.filter (λ t, t.(ts_state) =s STATE_EXECUTING) tasks) w.
Definition recover_executing_tasks (tasks : list TaskState) (live_invocations : gset string) (w : World) :
    list OrchestrationOutcome * World :=
  reconcile_executing_tasks tasks live_invocations ∅ w.
End orchestrator.

(** ** The queue-backed approval gate *)

Definition task_approval_request (task : TaskState) (action : TaskAction) (target_agent expires_at : string) :
    ApprovalRequest :=
  {| apr_request_id := "approval:" +:+ task.(ts_task_id); apr_invocation_id := "";
     apr_requester := task.(ts_created_by); apr_target := target_agent;
     apr_summary := "Run " +:+ kind action +:+ " action for task " +:+ task.(ts_task_id);
     apr_risk := "medium"; apr_expires_at := expires_at; apr_extra := ∅ |}.
Definition set_expires_at (r : ApprovalRequest) (e : string) : ApprovalRequest :=
  {| apr_request_id := r.(apr_request_id); apr_invocation_id := r.(apr_invocation_id);
     apr_requester := r.(apr_requester); apr_target := r.(apr_target); apr_summary := r.(apr_summary);
     apr_risk := r.(apr_risk); apr_expires_at := e; apr_extra := r.(apr_extra) |}.

(** [QueueApprovalGate]; the decision resolver is the map of verified decisions, and
    the attached cache is the orchestrator's own ([qg_attached]). *)
Record QueueApprovalGate := {
  qg_room_id : string;
  qg_target_agent : string;
  qg_expires_at : string;
  qg_now_unix : Z;
  qg_queue : ApprovalQueue;
  qg_attached : bool;
  qg_last_admitted : option string;
  qg_resolve_decision : string → option ApprovalDecision;
}.
Definition set_queue (g : QueueApprovalGate) (q : ApprovalQueue) : QueueApprovalGate :=
  {| qg_room_id := g.(qg_room_id); qg_target_agent := g.(qg_target_agent); qg_expires_at := g.(qg_expires_at);
     qg_now_unix := g.(qg_now_unix); qg_queue := q; qg_attached := g.(qg_attached);
     qg_last_admitted := g.(qg_last_admitted); qg_resolve_decision := g.(qg_resolve_decision) |}.
Definition set_last (g : QueueApprovalGate) (n : option string) : QueueApprovalGate :=
  {| qg_room_id := g.(qg_room_id); qg_target_agent := g.(qg_target_agent); qg_expires_at := g.(qg_expires_at);
     qg_now_unix := g.(qg_now_unix); qg_queue := g.(qg_queue); qg_attached := g.(qg_attached);
     qg_last_admitted := n; qg_resolve_decision := g.(qg_resolve_decision) |}.

Section gate.
Context `{NonceGuard Cache}.

(** The cache the gate sees: none unless attached. *)
Definition attached_cache (g : QueueApprovalGate) (c : option Cache) : option Cache :=
  if g.(qg_attached) then c else None.

Definition admit_decision_nonce (now_unix : Z) (g : QueueApprovalGate) (c : option Cache) (d : ApprovalDecision) :
    bool * (QueueApprovalGate * option Cache) :=
  match attached_cache g c with
  | None => (true, (g, c))
  | Some cache =>
      match d.(apd_nonce), d.(apd_expires_at) with
      | Some nonce, Some expires_at =>
          let '(r, cache') := burn now_unix nonce expires_at cache in
          if is_ok r then (true, (set_last g (Some nonce), Some cache')) else (false, (g, Some cache'))
      | _, _ => (false, (g, c))
      end
  end.

Definition queue_evaluate (now_unix : Z) (task : TaskState) (action : TaskAction) (gc : QueueApprovalGate * option Cache) :
    ApprovalDisposition * (QueueApprovalGate * option Cache) :=
  let '(g, c) := gc in
  let request := task_approval_request task action g.(qg_target_agent) g.(qg_expires_at) in
  let request_id := request.(apr_request_id) in
  let pending r := {| pa_room_id := g.(qg_room_id); pa_request := r; pa_held_request := None; pa_requester_user := None |} in
  match g.(qg_resolve_decision) request_id with
  | Some decision =>
      if decision_permits_spawn decision then
        let '(fresh, (g, c)) := admit_decision_nonce now_unix g c decision in
        if negb fresh then (Pending request_id, (set_queue g (enqueue g.(qg_queue) (pending request)), c))
        else (Approved, (set_queue g (queue_remove g.(qg_queue) request_id).1, c))
      else (Denied "approval denied by operator", (set_queue g (queue_remove g.(qg_queue) request_id).1, c))
  | None =>
      let deadline := match queue_get g.(qg_queue) request_id with
                      | Some p => p.(pa_request).(apr_expires_at)
                      | None => request.(apr_expires_at)
                      end in
      if approval_request_expired deadline g.(qg_now_unix) then
        (ApprovalExpired request_id, (set_queue g (queue_remove g.(qg_queue) request_id).1, c))
      else
        (Pending request_id, (set_queue g (enqueue g.(qg_queue) (pending (set_expires_at request deadline))), c))
  end.

(** [last_admitted_decision_nonce] is taken in any case; the burn is taken back when a
    cache is attached. *)
Definition queue_compensate (gc : QueueApprovalGate * option Cache) : QueueApprovalGate * option Cache :=
  let '(g, c) := gc in
  match attached_cache g c with
  | Some cache =>
      match g.(qg_last_admitted) with
      | Some nonce => (set_last g None, Some (unburn nonce cache))
      | None => (g, c)
      end
  | None => (set_last g None, c)
  end.
#[export] Instance queue_gate : TaskApprovalGate QueueApprovalGate Cache :=
  {| gate_evaluate := queue_evaluate; compensate_lost_claim := queue_compensate |}.
End gate.

(** ** What the orchestrator relies on of a gate

    A gate burns at most one nonce per evaluation and takes back only a nonce that
    its last approving evaluation burned. *)
Class GateLaws (G C : Type) `{!NonceGuard C, !NonceGuardLaws C, !TaskApprovalGate G C} : Prop := {
  gate_evaluate_cache now t a g c d g' c' :
    gate_evaluate now t a (g, c) = (d, (g', c')) → is_some c' = is_some c;
  gate_evaluate_keeps now t a g c d g' c' k :
    gate_evaluate now t a (g, Some c) = (d, (g', Some c')) → room_for c (S k) →
    room_for c' k ∧ ∀ m e, spent now c m e → spent now c' m e;
  gate_compensate_cache g c g' c' : compensate_lost_claim (g, c) = (g', c') → is_some c' = is_some c;
  gate_compensate_keeps now t a g c g1 c1 c2 g3 c3 k :
    gate_evaluate now t a (g, Some c) = (Approved, (g1, Some c1)) →
    compensate_lost_claim (g1, Some c2) = (g3, Some c3) → room_for c2 k →
    room_for c3 k ∧ ∀ m e, spent now c m e → spent now c2 m e → spent now c3 m e;
  gate_compensate_records g c g' c' n :
    compensate_lost_claim (g, Some c) = (g', Some c') →
    (∀ e, ¬ recorded c n e) → ∀ e, ¬ recorded c' n e;
}.

#[export] Instance queue_gate_laws `{NonceGuardLaws Cache} : GateLaws QueueApprovalGate Cache.
Proof.
  split; simpl.
  - intros now t a g c d g' c' He. unfold queue_evaluate, admit_decision_nonce, attached_cache in He.
    by crush_match.
  - intros now t a g c d g' c' k He Hk. unfold queue_evaluate, admit_decision_nonce, attached_cache in He.
    assert (room_for c k) as Hk' by (eapply room_mono; [|done]; lia).
    crush_match; eauto.
    all: match goal with Hb : burn _ _ _ _ = _ |- _ =>
      split; [by eapply (burn_keeps _ _ _ _ _ _ _ Hb)|intros m e; by eapply spent_burn] end.
  - intros g c g' c' He. unfold queue_compensate, attached_cache in He. by crush_match.
  - intros now t a g c g1 c1 c2 g3 c3 k He Hc Hk. unfold queue_evaluate, admit_decision_nonce, attached_cache in He.
    unfold queue_compensate, attached_cache in Hc.
    crush_match; eauto; try congruence.
    all: match goal with Hr : is_ok ?r = true, Hb : burn _ _ _ _ = (?r, _) |- _ => destruct r as [[]|]; [clear Hr|done] end.
    all: split; [by apply unburn_room|intros m e ? ?; by eapply spent_unburn].
  - intros g c g' c' n Hc Hn e. unfold queue_compensate, attached_cache in Hc.
    crush_match; eauto. intros Hr%unburn_only. by eapply Hn.
Qed.
