(* ===== verification/ToolDispatch.v ===== *)
(** * Built-in tools and task dispatch

    Models [crates/mx-agent-daemon/src/tool_exec.rs] (the built-in tools, their
    argument checks, the specification a tool runs under and its result), the registry
    of [tools.rs], and the dispatchers of [task_dispatch.rs] that run the action of an
    authorized task.  Error texts that render a value with [Debug] keep the value. *)
From stdpp Require Import gmap strings list pretty.
From S2P Require Import Prelude RustStr ChildEnv Sandboxing CanonicalJson Schema PolicyFile PolicyEngine LiveAuth Runner TaskLifecycle Orchestrator.

(** ** Tool commands *)

Definition RUN_TESTS : string := "run_tests".
Definition LINT : string := "lint".
Record ToolResult := mkToolResult { tr_exit_code : Z; tr_summary : string }.
Inductive ToolError :=
| UnknownTool (name : string)
| UnsupportedVersion (tool requested supported : string)
| InvalidArgs (message : string)
| ToolSpawn (kind : IoKind) (message : string).

Definition run_tests_command (args : Value) : result (string * list string) ToolError :=
  let? obj := match args with Object es => Ok es | _ => Err (InvalidArgs "expected a JSON object") end in
  let? package :=
    match entry "package" obj with
    | Some (Str s) => if negb (s =s "") then Ok s else Err (InvalidArgs "package must be non-empty")
    | Some _ => Err (InvalidArgs "package must be a string")
    | None => Err (InvalidArgs "package is required")
    end in
  let? name :=
    match entry "name" obj with
    | None | Some Null => Ok None
    | Some (Str s) => if negb (s =s "") then Ok (Some s) else Err (InvalidArgs "name must be non-empty")
    | Some _ => Err (InvalidArgs "name must be a string")
    end in
  let? _ :=
    match entry "coverage" obj with
    | None | Some (Bool _) | Some Null => Ok tt
    | Some _ => Err (InvalidArgs "coverage must be a boolean")
    end in
  Ok ("cargo", ["test"; "-p"; package] ++ match name with Some name => ["--"; name] | None => [] end).
Definition lint_command (args : Value) : result (string * list string) ToolError :=
  let? obj := match args with Object es => Ok es | _ => Err (InvalidArgs "expected a JSON object") end in
  let? path :=
    match entry "path" obj with
    | None | Some Null => Ok None
    | Some (Str s) => if negb (s =s "") then Ok (Some s) else Err (InvalidArgs "path must be non-empty")
    | Some _ => Err (InvalidArgs "path must be a string")
    end in
  let? fix_ :=
    match entry "fix" obj with
    | None | Some Null => Ok false
    | Some (Bool b) => Ok b
    | Some _ => Err (InvalidArgs "fix must be a boolean")
    end in
  Ok ("cargo", ["clippy"] ++ match path with Some path => ["--manifest-path"; path] | None => [] end
    ++ if fix_ : bool then ["--fix"] else []).

Definition typed (t : string) : Value := Object [("type", Str t)].
Definition tool_output_schema : Value :=
  Object [("type", Str "object");
    ("properties", Object [("exit_code", typed "integer"); ("summary", typed "string"); ("log_mxc", typed "string")])].
Definition run_tests_io_schema : Value * Value :=
  (Object [("type", Str "object");
     ("properties", Object [("package", typed "string"); ("name", typed "string"); ("coverage", typed "boolean")]);
     ("required", Array [Str "package"])],
   tool_output_schema).
Definition lint_io_schema : Value * Value :=
  (Object [("type", Str "object"); ("properties", Object [("path", typed "string"); ("fix", typed "boolean")])],
   tool_output_schema).

Record BuiltinTool := {
  bt_name : string;
  bt_version : string;
  bt_description : string;
  bt_label : string;
  bt_command : Value → result (string * list string) ToolError;
  bt_io_schema : Value * Value;
}.
Definition BUILTIN_TOOLS : list BuiltinTool :=
  [{| bt_name := RUN_TESTS; bt_version := "1.0.0"; bt_description := "Run project test suites";
      bt_label := "cargo test"; bt_command := run_tests_command; bt_io_schema := run_tests_io_schema |};
   {| bt_name := LINT; bt_version := "1.0.0"; bt_description := "Run project linters";
      bt_label := "cargo clippy"; bt_command := lint_command; bt_io_schema := lint_io_schema |}].

(** [reference.split_once('@')]. *)
Fixpoint split_once (c : Ascii.ascii) (s : string) : option (string * string) :=
  match s with
  | "" => None
  | String d s =>
      if decide (d = c) then Some ("", s)
      else match split_once c s with Some (a, b) => Some (String d a, b) | None => None end
  end.
Definition resolve_builtin (reference : string) : result BuiltinTool ToolError :=
  let '(name, requested_version) :=
    match split_once (chr 64) reference with
    | Some (name, version) => (name, Some version)
    | None => (reference, None)
    end in
  let? tool := ok_or (List.find (λ t, t.(bt_name) =s name) BUILTIN_TOOLS) (UnknownTool reference) in
  match requested_version with
  | Some requested =>
      if negb (requested =s tool.(bt_version)) then Err (UnsupportedVersion name requested tool.(bt_version)) else Ok tool
  | None => Ok tool
  end.

(** ** Running a tool *)

Definition tool_run_spec (env : RunEnv) (name : string) (args : Value) (a : Allowance) (cwd : string) :
    result RunSpec ToolError :=
  let? builtin := resolve_builtin name in
  let? (program, argv) := builtin.(bt_command) args in
  let command := program :: argv in
  if is_err (check_sandbox_floor a) then
    Err (ToolSpawn KPermissionDenied "execution.require_sandbox is set but the resolved sandbox backend is none")
  else
    let backend := sandbox_backend a.(al_sandbox) in
    let '(run_uid, run_gid) := container_run_identity env backend in
    Ok (mkSpec command cwd ∅ a.(al_env_allowlist) None a.(al_max_runtime_ms) DEFAULT_GRACE_PERIOD
          backend (network_for a.(al_network)) a.(al_read_only_paths) a.(al_writable_paths)
          (container_runtime_for a.(al_sandbox)) a.(al_container_image) (resource_limits_for a) (seccomp_for a.(al_seccomp))
          run_uid run_gid).
Definition tool_label (name : string) : string :=
  match resolve_builtin name with Ok tool => tool.(bt_label) | Err _ => "tool" end.
Definition map_run_error (debug_path : string → string) (err : RunError) : ToolError :=
  match err with
  | Spawn k m => ToolSpawn k m
  | RunEmptyCommand => ToolSpawn KInvalidInput "tool command argv is empty"
  | MissingCwd path => ToolSpawn KNotFound ("tool working directory " +:+ debug_path path +:+ " does not exist")
  end.
Definition summarize (label : string) (code : option Z) : Z * string :=
  match code with
  | Some code => if Z.eqb code 0 then (0%Z, label +:+ " passed")
      else (code, label +:+ " failed (exit code " +:+ pretty code +:+ ")")
  | None => (1%Z, label +:+ " terminated by signal")
  end.
(** [execute_tool] and [execute_tool_async]; [None] when the child never ends. *)
Definition execute_tool (env : RunEnv) (spawn : Command → result Child (IoKind * string)) (debug_path : string → string)
    (name : string) (args : Value) (a : Allowance) (cwd : string) : option (result ToolResult ToolError) :=
  match tool_run_spec env name args a cwd with
  | Err e => Some (Err e)
  | Ok spec =>
      match run env spawn spec with
      | None => None
      | Some (Err e) => Some (Err (map_run_error debug_path e))
      | Some (Ok output) =>
          let '(exit_code, summary) := summarize (tool_label name) output.(ro_exit_code) in
          Some (Ok (mkToolResult exit_code summary))
      end
  end.

(** ** The registry *)

Record ToolSchema := mkToolSchema {
  tc_name : string;
  tc_version : string;
  tc_description : string;
  tc_input_schema : Value;
  tc_output_schema : Value;
}.
Definition qualified_ref (t : ToolSchema) : string := t.(tc_name) +:+ "@" +:+ t.(tc_version).
Definition BuiltinTool_schema (t : BuiltinTool) : ToolSchema :=
  mkToolSchema t.(bt_name) t.(bt_version) t.(bt_description) t.(bt_io_schema).1 t.(bt_io_schema).2.
Definition builtin_schemas : list ToolSchema := map BuiltinTool_schema BUILTIN_TOOLS.
Definition ToolRegistry : Type := gmap string ToolSchema.
Definition register (tool : ToolSchema) (r : ToolRegistry) : ToolRegistry := <[tool.(tc_name) := tool]> r.
Definition ToolRegistry_builtin : ToolRegistry := foldl (λ r t, register t r) ∅ builtin_schemas.
Definition schemas (r : ToolRegistry) : list ToolSchema := (btree_iter r).*2.
Definition qualified_refs (r : ToolRegistry) : list string := map qualified_ref (schemas r).
Definition ToolRegistry_resolve (r : ToolRegistry) (reference : string) : option ToolSchema :=
  let name := default reference (head (split_on (chr 64) reference)) in r !! name.

(** ** Dispatching a task's action *)

Record ExecRunRequest := mkRunRequest {
  xr_command : list string;
  xr_cwd : string;
  xr_env : gmap string string;
  xr_timeout : option N;
  xr_sandbox : Backend;
  xr_network : Network;
  xr_read_only_paths : list string;
  xr_writable_paths : list string;
  xr_env_allowlist : list string;
  xr_container_runtime : Runtime;
  xr_container_image : option string;
  xr_resources : ResourceLimits;
  xr_seccomp : SeccompMode;
  xr_run_uid : option N;
  xr_run_gid : option N;
}.
Definition run_request_spec (r : ExecRunRequest) : RunSpec :=
  mkSpec r.(xr_command) r.(xr_cwd) r.(xr_env) r.(xr_env_allowlist) None r.(xr_timeout) DEFAULT_GRACE_PERIOD r.(xr_sandbox)
    r.(xr_network) r.(xr_read_only_paths) r.(xr_writable_paths) r.(xr_container_runtime) r.(xr_container_image)
    r.(xr_resources) r.(xr_seccomp) r.(xr_run_uid) r.(xr_run_gid).
(** [runtime] is the outcome of building the temporary runtime. *)
Definition default_command_runner (env : RunEnv) (runtime : result unit (IoKind * string))
    (spawn : Command → result Child (IoKind * string)) (request : ExecRunRequest) : option (result RunOutput RunError) :=
  match spawn_err runtime with
  | Err e => Some (Err e)
  | Ok _ => run env spawn (run_request_spec request)
  end.

Definition exec_result_from_output (output : RunOutput) (artifact_mxc : option string) : TaskExecutionResult :=
  {| xr_summary :=
       if output.(ro_timed_out) then "exec command timed out"
       else match output.(ro_exit_code), output.(ro_signal) with
       | Some code, _ => "exec command exited with code " +:+ pretty code
       | None, Some signal => "exec command terminated by signal " +:+ pretty signal
       | None, None => "exec command finished"
       end;
     xr_exit_code :=
       match output.(ro_exit_code) with
       | Some code => Some code
       | None => Some (128 + unwrap_or output.(ro_signal) 0)%Z
       end;
     xr_artifact_mxc := artifact_mxc |}.

Section Dispatch.
Context (env : RunEnv) (debug : string → string).
Definition run_error_text (e : RunError) : string :=
  match e with
  | RunEmptyCommand => "command argv is empty"
  | MissingCwd path => "working directory " +:+ debug path +:+ " does not exist"
  | Spawn _ m => "could not run command: " +:+ m
  end.
Definition tool_error_text (e : ToolError) : string :=
  match e with
  | UnknownTool name => "unknown tool " +:+ debug name
  | UnsupportedVersion tool requested supported =>
      "unsupported version " +:+ debug requested +:+ " for tool " +:+ debug tool +:+ " (this daemon implements "
        +:+ debug supported +:+ ")"
  | InvalidArgs msg => "invalid tool arguments: " +:+ msg
  | ToolSpawn _ m => "could not run tool: " +:+ m
  end.

Definition exec_run_request (command : list string) (cwd : string) (vars : gmap string string) (timeout_ms : option Z)
    (a : Allowance) : ExecRunRequest :=
  let backend := sandbox_backend a.(al_sandbox) in
  let '(run_uid, run_gid) := container_run_identity env backend in
  mkRunRequest command cwd vars (Z.to_N <$> timeout_ms) backend (network_for a.(al_network)) a.(al_read_only_paths)
    a.(al_writable_paths) a.(al_env_allowlist) (container_runtime_for a.(al_sandbox)) a.(al_container_image)
    (resource_limits_for a) (seccomp_for a.(al_seccomp)) run_uid run_gid.
(** The command runner and the tool runner are closures over a state [D]. *)
Context {D : Type}.
Definition exec_dispatch (run_command : ExecRunRequest → D → result RunOutput RunError * D)
    (task : TaskState) (action : TaskAction) (invocation_id : string) (a : Allowance) (d : D) :
    result TaskExecutionResult TaskDispatchError * D :=
  match action with
  | Exec command cwd vars timeout_ms _ _ =>
      if is_err (check_sandbox_floor a) then
        (Err (PolicyDenied "execution.require_sandbox is set but the resolved sandbox backend is none"), d)
      else
        let '(outcome, d) := run_command (exec_run_request command cwd vars timeout_ms a) d in
        (match outcome with
         | Ok output => Ok (exec_result_from_output output None)
         | Err err => Err (DispatchFailed ("exec command could not be run: " +:+ run_error_text err))
         end, d)
  | Tool _ _ _ => (Err (DispatchFailed "tool action cannot run through the exec dispatcher"), d)
  end.
Definition tool_dispatch (run_tool : string → Value → Allowance → string → D → result ToolResult ToolError * D)
    (current_dir : option string) (task : TaskState) (action : TaskAction) (invocation_id : string) (a : Allowance) (d : D) :
    result TaskExecutionResult TaskDispatchError * D :=
  match action with
  | Tool tool args _ =>
      let '(outcome, d) := run_tool tool args a (unwrap_or current_dir ".") d in
      (match outcome with
       | Ok r => Ok {| xr_exit_code := Some r.(tr_exit_code); xr_summary := r.(tr_summary); xr_artifact_mxc := None |}
       | Err err => Err (DispatchFailed ("tool " +:+ debug tool +:+ " could not be invoked: " +:+ tool_error_text err))
       end, d)
  | Exec _ _ _ _ _ _ => (Err (DispatchFailed "exec action cannot run through the tool dispatcher"), d)
  end.
(** The two implementations of the orchestrator's dispatcher interface. *)
Definition exec_task_dispatcher run_command : TaskDispatcher D := {| dispatch := exec_dispatch run_command |}.
Definition tool_task_dispatcher run_tool current_dir : TaskDispatcher D := {| dispatch := tool_dispatch run_tool current_dir |}.
End Dispatch.

(** ** Tool arguments and the advertised schema *)

(** JSON Schema's [type], [properties] and [required], which is all the schemas use. *)
Definition has_type (t : string) (v : Value) : bool :=
  match v with
  | Str _ => t =s "string"
  | Bool _ => t =s "boolean"
  | Object _ => t =s "object"
  | Num (NumInt _) => t =s "integer"
  | _ => false
  end.
Definition schema_required (schema : Value) : list string :=
  match field "required" schema with
  | Some (Array l) => omap (λ v, match v with Str s => Some s | _ => None end) l
  | _ => []
  end.
Definition schema_properties (schema : Value) : list (string * string) :=
  match field "properties" schema with
  | Some (Object es) => omap (λ e, match field "type" e.2 with Some (Str t) => Some (e.1, t) | _ => None end) es
  | _ => []
  end.
Definition conforms (schema args : Value) : bool :=
  match args with
  | Object es =>
      forallb (λ p, is_some (entry p es)) (schema_required schema)
      && forallb (λ pt, match entry pt.1 es with Some v => has_type pt.2 v | None => true end) (schema_properties schema)
  | _ => false
  end.
(** The arguments without the optional properties that are [null]. *)
Definition without_null (schema args : Value) : Value :=
  match args with
  | Object es =>
      Object (List.filter (λ e, match entry e.1 es with
                                | Some Null => bool_decide (e.1 ∈ schema_required schema)
                                | _ => true
                                end) es)
  | v => v
  end.
(** No listed property is the empty string. *)
Definition no_empty (schema args : Value) : bool :=
  forallb (λ pt, match field pt.1 args with Some (Str s) => negb (s =s "") | _ => true end) (schema_properties schema).

Lemma entry_filter (keep : string → bool) k es :
  entry k (List.filter (λ e, keep e.1) es) = if keep k then entry k es else None.
Proof.
  unfold entry. induction es as [|[k' v] es IH]; cbn; [by destruct (keep k)|].
  destruct (keep k') eqn:Hk'; cbn.
  - destruct (k' =s k) eqn:Ek; [|done]. apply str_eqb_eq in Ek as ->. by rewrite Hk'.
  - rewrite IH. destruct (k' =s k) eqn:Ek; [|done]. apply str_eqb_eq in Ek as ->. by rewrite Hk'.
Qed.
Lemma conforms_without_null schema es :
  conforms schema (without_null schema (Object es)) =
    forallb (λ p, is_some (if bool_decide (p ∈ schema_required schema) then entry p es
                           else match entry p es with Some Null => None | o => o end)) (schema_required schema)
    && forallb (λ pt, match (if bool_decide (pt.1 ∈ schema_required schema) then entry pt.1 es
                             else match entry pt.1 es with Some Null => None | o => o end) with
                      | Some v => has_type pt.2 v | None => true end) (schema_properties schema).
Proof.
  cbn [conforms without_null].
  set (keep := λ k, match entry k es with Some Null => bool_decide (k ∈ schema_required schema) | _ => true end).
  assert (∀ k, entry k (List.filter (λ e, keep e.1) es) =
    if bool_decide (k ∈ schema_required schema) then entry k es else match entry k es with Some Null => None | o => o end) as He.
  { intros k. rewrite entry_filter. unfold keep. destruct (entry k es) as [[]|], (bool_decide _); done. }
  assert (∀ {A} (f g : A → bool) l, (∀ x, f x = g x) → forallb f l = forallb g l) as Hext.
  { intros A f g l Hfg. induction l as [|x l IH]; cbn; [done|]. by rewrite Hfg, IH. }
  f_equal; apply Hext; intros x; by rewrite He.
Qed.
(** A tool's command is built exactly from the arguments that conform once their optional
    [null]s are dropped, and have no empty string. *)
Definition takes (command : Value → result (string * list string) ToolError) (schema : Value) : Prop :=
  ∀ args, is_ok (command args) = conforms schema (without_null schema args) && no_empty schema args.
Lemma run_tests_typed : takes run_tests_command run_tests_io_schema.1.
Proof.
  intros args. destruct args as [| | | |items|es]; try reflexivity.
  assert (schema_properties run_tests_io_schema.1 = [("package", "string"); ("name", "string"); ("coverage", "boolean")]) as Hp
    by reflexivity.
  assert (schema_required run_tests_io_schema.1 = ["package"]) as Hr by reflexivity.
  rewrite conforms_without_null. unfold no_empty. rewrite Hp, Hr. cbn [run_tests_command field forallb fst snd].
  rewrite (bool_decide_true ("package" ∈ ["package"])), (bool_decide_false ("name" ∈ ["package"])),
    (bool_decide_false ("coverage" ∈ ["package"])) by (rewrite list_elem_of_singleton; done).
  destruct (entry "package" es) as [[]|]; try reflexivity;
    (destruct (entry "name" es) as [[]|]; try reflexivity);
    (destruct (entry "coverage" es) as [[]|]; try reflexivity); cbn; repeat case_match; try reflexivity; try discriminate.
Qed.
Lemma lint_typed : takes lint_command lint_io_schema.1.
Proof.
  intros args. destruct args as [| | | |items|es]; try reflexivity.
  assert (schema_properties lint_io_schema.1 = [("path", "string"); ("fix", "boolean")]) as Hp by reflexivity.
  assert (schema_required lint_io_schema.1 = []) as Hr by reflexivity.
  rewrite conforms_without_null. unfold no_empty. rewrite Hp, Hr. cbn [lint_command field forallb fst snd].
  rewrite !(bool_decide_false (_ ∈ [])) by apply not_elem_of_nil.
  destruct (entry "path" es) as [[]|]; try reflexivity;
    (destruct (entry "fix" es) as [[]|]; try reflexivity); cbn; repeat case_match; try reflexivity; try discriminate.
Qed.
(** No type of the schemas has [null], so what conforms has none to drop. *)
Lemma conforms_drops_nothing schema args : conforms schema args = true → conforms schema (without_null schema args) = true.
Proof.
  destruct args as [| | | |items|es]; try done. intros H. rewrite conforms_without_null. cbn in H.
  apply andb_true_iff in H as [Hr Hp]. apply andb_true_iff. rewrite !forallb_forall in *. split.
  - intros p Hin. rewrite bool_decide_true by by apply list_elem_of_In. by apply Hr.
  - intros pt Hin. specialize (Hp pt Hin). by destruct (bool_decide _), (entry pt.1 es) as [[]|].
Qed.

Lemma split_once_Some c s a b : split_once c s = Some (a, b) → s = a +:+ String c b.
Proof.
  revert a b. induction s as [|d s IH]; intros a b; simpl; [done|]. destruct (decide (d = c)) as [->|]; [by intros [= <- <-]|].
  destruct (split_once c s) as [[a' b']|]; [|done]. intros [= <- <-]. rewrite append_cons. f_equal. by apply IH.
Qed.
Lemma resolve_builtin_spec reference tool :
  resolve_builtin reference = Ok tool →
  tool ∈ BUILTIN_TOOLS ∧ (reference = tool.(bt_name) ∨ reference = qualified_ref (BuiltinTool_schema tool)).
Proof.
  unfold resolve_builtin. destruct (split_once (chr 64) reference) as [[name version]|] eqn:Es.
  - destruct (List.find _ BUILTIN_TOOLS) as [t|] eqn:Ef; [|done]. cbn [ok_or].
    destruct (version =s bt_version t) eqn:Ev; [|done]. intros [= <-]. apply List.find_some in Ef as [Hin Hn].
    apply str_eqb_eq in Hn. apply str_eqb_eq in Ev. subst name version.
    split; [by apply list_elem_of_In|]. right. by apply split_once_Some in Es.
  - destruct (List.find _ BUILTIN_TOOLS) as [t|] eqn:Ef; [|done]. intros [= <-]. apply List.find_some in Ef as [Hin Hn].
    apply str_eqb_eq in Hn. split; [by apply list_elem_of_In|by left].
Qed.
Lemma builtin_typed tool :
  tool ∈ BUILTIN_TOOLS → takes tool.(bt_command) (BuiltinTool_schema tool).(tc_input_schema).
Proof.
  unfold BUILTIN_TOOLS. rewrite !elem_of_cons, elem_of_nil. intros [-> | [-> | []]]; [apply run_tests_typed|apply lint_typed].
Qed.

(** C34: a tool runs as advertised.  Every reference the registry advertises resolves to an
    executor, and to the schema of that executor; a reference resolves only as the plain
    name or as the name with the implemented version.  The executor builds a command from
    every argument object that satisfies the advertised JSON schema (its [type],
    [properties] and [required]) and has no empty string; and it differs from that schema
    in two ways only: it refuses an empty string, which the schema allows, and it takes a
    [null] for an optional property, which the schema forbids, as the property's absence.
    Apart from these it refuses what the schema refuses. *)
Theorem tools_run_as_advertised reference :
  (reference ∈ qualified_refs ToolRegistry_builtin → ∃ tool, resolve_builtin reference = Ok tool ∧
     ToolRegistry_resolve ToolRegistry_builtin reference = Some (BuiltinTool_schema tool)) ∧
  (∀ tool, resolve_builtin reference = Ok tool →
     let schema := (BuiltinTool_schema tool).(tc_input_schema) in
     (reference = tool.(bt_name) ∨ reference = qualified_ref (BuiltinTool_schema tool)) ∧
     (∀ args, conforms schema args = true → no_empty schema args = true → is_ok (tool.(bt_command) args) = true) ∧
     (∀ args, is_ok (tool.(bt_command) args) = conforms schema (without_null schema args) && no_empty schema args)).
Proof.
  split.
  - assert (qualified_refs ToolRegistry_builtin = ["lint@1.0.0"; "run_tests@1.0.0"]) as -> by (vm_compute; reflexivity).
    rewrite !elem_of_cons, elem_of_nil. intros [-> | [-> | []]]; eexists; split; reflexivity.
  - intros tool [Hin Href]%resolve_builtin_spec schema. pose proof (builtin_typed tool Hin) as Ht. split_and!; [done| |done].
    intros args Hc Hn. rewrite (Ht args). apply andb_true_iff. split; [by apply conforms_drops_nothing|done].
Qed.
(** The theorem applied to an advertised reference. *)
Lemma tools_run_as_advertised_witness :
  "lint@1.0.0" ∈ qualified_refs ToolRegistry_builtin ∧
  ∃ tool, resolve_builtin "lint@1.0.0" = Ok tool ∧
    is_ok (tool.(bt_command) (Object [("fix", Bool true); ("path", Null)])) = true ∧
    is_ok (tool.(bt_command) (Object [("path", Str "")])) = false ∧
    is_ok (tool.(bt_command) (Object [("fix", Str "yes")])) = false.
Proof.
  assert ("lint@1.0.0" ∈ qualified_refs ToolRegistry_builtin) as Hin
    by (apply list_elem_of_In; vm_compute; tauto).
  split; [exact Hin|]. destruct (proj1 (tools_run_as_advertised "lint@1.0.0") Hin) as (tool & Ht & _).
  exists tool. split; [exact Ht|]. destruct (proj2 (tools_run_as_advertised "lint@1.0.0") tool Ht) as (_ & _ & Hargs).
  rewrite !Hargs. vm_compute in Ht. injection Ht as <-. split; [|split]; vm_compute; reflexivity.
Defined.

(** ** One confinement for every path *)

(** Everything an allowance says about how a command is confined, the time limit aside. *)
Definition confinement_of (s : RunSpec) :=
  (s.(sp_sandbox), s.(sp_network), s.(sp_read_only_paths), s.(sp_writable_paths), s.(sp_container_runtime),
   s.(sp_container_image), s.(sp_resources), s.(sp_seccomp), (s.(sp_run_uid), s.(sp_run_gid)), s.(sp_env_allowlist),
   s.(sp_grace_period)).
Definition policy_confinement (env : RunEnv) (a : Allowance) :=
  (sandbox_backend a.(al_sandbox), network_for a.(al_network), a.(al_read_only_paths), a.(al_writable_paths),
   container_runtime_for a.(al_sandbox), a.(al_container_image), resource_limits_for a, seccomp_for a.(al_seccomp),
   container_run_identity env (sandbox_backend a.(al_sandbox)), a.(al_env_allowlist), DEFAULT_GRACE_PERIOD).

(** All the ways to run a command, live, live on a terminal, local, local on a
    terminal, as a tool and as a task, confine it alike, by a function of the allowance
    alone.  They differ in the time limit: the policy's cap replaces the time a live
    request asks for even when that is shorter, bounds a tool, gives way to the caller's
    choice locally, and does not bound a task, which runs as long as its own action
    says. *)
Theorem every_path_confines_alike env a :
  (∀ request, confinement_of (live_run_spec env request a) = policy_confinement env a ∧
     (live_run_spec env request a).(sp_timeout) = Some (unwrap_or a.(al_max_runtime_ms) (Z.to_N request.(er_timeout_ms)))) ∧
  (∀ request, confinement_of (live_pty_run_spec env request a) = policy_confinement env a) ∧
  (∀ params, confinement_of (loopback_run_spec env params a) = policy_confinement env a ∧
     (loopback_run_spec env params a).(sp_timeout) =
       Some (unwrap_or (opt_or params.(xp_timeout_ms) a.(al_max_runtime_ms)) DEFAULT_LOOPBACK_EXEC_TIMEOUT_MS)) ∧
  (∀ command cwd vars, confinement_of (pty_loopback_run_spec env command cwd vars a) = policy_confinement env a) ∧
  (∀ name args cwd spec, tool_run_spec env name args a cwd = Ok spec →
     confinement_of spec = policy_confinement env a ∧ spec.(sp_env) = ∅ ∧ spec.(sp_timeout) = a.(al_max_runtime_ms) ∧
     check_sandbox_floor a = Ok tt) ∧
  (∀ command cwd vars timeout_ms,
     let spec := run_request_spec (exec_run_request env command cwd vars timeout_ms a) in
     confinement_of spec = policy_confinement env a ∧ spec.(sp_timeout) = Z.to_N <$> timeout_ms).
Proof.
  unfold live_run_spec, live_pty_run_spec, loopback_run_spec, pty_loopback_run_spec, exec_run_request, policy_confinement.
  destruct (container_run_identity env (sandbox_backend (al_sandbox a))) as [uid gid] eqn:E. split_and!; try by intros.
  intros name args cwd spec. unfold tool_run_spec. rewrite E.
  destruct (resolve_builtin name) as [tool|]; [|done]. destruct (bt_command tool args) as [[program argv]|]; [|done].
  destruct (check_sandbox_floor a) as [[]|[]] eqn:Ef; [|done]. by intros [= <-].
Qed.
(** The theorem applied to a tool under a policy with a cap. *)
Definition capped_allowance : Allowance :=
  mkAllowance (Some 60000%N) None (Some Bubblewrap) None false [] ["/usr"] ["/work"] false None (Some 64%N) None None SeccompDefault true.
Lemma every_path_confines_alike_witness :
  ∃ spec, tool_run_spec Runner.Sample.env "lint" (Object []) capped_allowance "/work" = Ok spec ∧
    confinement_of spec = confinement_of (live_run_spec Runner.Sample.env (LiveAuth.Sample.request "inv" "n") capped_allowance) ∧
    spec.(sp_timeout) = Some 60000%N.
Proof.
  destruct (tool_run_spec Runner.Sample.env "lint" (Object []) capped_allowance "/work") as [spec|] eqn:E;
    [|vm_compute in E; discriminate E].
  exists spec. split; [reflexivity|].
  destruct (every_path_confines_alike Runner.Sample.env capped_allowance) as (Hl & _ & _ & _ & Ht & _).
  destruct (Ht _ _ _ _ E) as (Hc & _ & Hto & _). destruct (Hl (LiveAuth.Sample.request "inv" "n")) as [Hc' _].
  split; [rewrite Hc, Hc'; reflexivity|exact Hto].
Defined.

(** ** What a dispatched exec action comes to *)

(** The exec dispatcher runs nothing when the policy demands a sandbox and none is
    configured, and otherwise runs the action once under the allowance.  The task counts
    as succeeded exactly when the command exited with code zero: never when it was
    killed by a signal or could not be run, but also when it was stopped at its time
    limit and then exited with zero. *)
Theorem exec_dispatch_outcome {D} env debug (run_command : ExecRunRequest → D → result RunOutput RunError * D)
    task command cwd vars timeout_ms stream auth inv a (d : D) :
  let '(r, d') := exec_dispatch env debug run_command task (Exec command cwd vars timeout_ms stream auth) inv a d in
  let ran := run_command (exec_run_request env command cwd vars timeout_ms a) d in
  (check_sandbox_floor a = Err tt ↔ a.(al_require_sandbox) = true ∧ sandbox_backend a.(al_sandbox) = BackendNone) ∧
  (check_sandbox_floor a = Err tt → d' = d ∧ ∃ reason, r = Err (PolicyDenied reason)) ∧
  (check_sandbox_floor a = Ok tt → d' = ran.2 ∧
     (∀ e, ran.1 = Err e → ∃ reason, r = Err (DispatchFailed reason)) ∧
     (∀ out, ran.1 = Ok out → (∀ n, out.(ro_signal) = Some n → 0 < n)%Z →
        ∃ x, r = Ok x ∧ (is_success x = true ↔ out.(ro_exit_code) = Some 0%Z))).
Proof.
  cbn [exec_dispatch]. assert (check_sandbox_floor a = Err tt ↔
    a.(al_require_sandbox) = true ∧ sandbox_backend a.(al_sandbox) = BackendNone) as Hf.
  { unfold check_sandbox_floor. case_bool_decide; simpl; [|naive_solver]. destruct (al_require_sandbox a); naive_solver. }
  destruct (check_sandbox_floor a) as [[]|[]] eqn:Ef; cbn [is_err is_ok negb].
  - destruct (run_command _ d) as [o d']. cbn. split_and!; [done|done|]. intros _. split_and!; [done| |].
    + intros e ->. by eexists.
    + intros out -> Hs. eexists. split; [done|]. unfold is_success, exec_result_from_output. cbn.
      rewrite bool_decide_eq_true. destruct (ro_exit_code out) as [c|]; [done|]. split; [|done].
      destruct (ro_signal out) as [n|]; cbn; [specialize (Hs n eq_refl)|]; intros [=]; lia.
  - split_and!; [done| |done]. intros _. split; [done|by eexists].
Qed.
(** The theorem applied to a command stopped at its limit that exits with zero. *)
Lemma exec_dispatch_outcome_witness :
  ∃ x, (exec_dispatch Runner.Sample.env id (λ _ d, (Ok (mkOutput (Some 0%Z) None [] [] true), d)) TaskLifecycle.Sample.task
      (Exec ["sleep"; "60"] "/work" ∅ (Some 10%Z) false None) "inv" capped_allowance tt).1 = Ok x ∧
    is_success x = true ∧ x.(xr_summary) = "exec command timed out".
Proof.
  destruct (exec_dispatch Runner.Sample.env id (λ _ d, (Ok (mkOutput (Some 0%Z) None [] [] true), d)) TaskLifecycle.Sample.task
      (Exec ["sleep"; "60"] "/work" ∅ (Some 10%Z) false None) "inv" capped_allowance tt) as [r d'] eqn:E.
  pose proof (exec_dispatch_outcome Runner.Sample.env id (λ _ d, (Ok (mkOutput (Some 0%Z) None [] [] true), d))
    TaskLifecycle.Sample.task ["sleep"; "60"] "/work" ∅ (Some 10%Z) false None "inv" capped_allowance tt) as H.
  rewrite E in H. destruct H as (_ & _ & H). destruct (H eq_refl) as (_ & _ & Hok).
  destruct (Hok _ eq_refl ltac:(discriminate)) as (x & -> & Hs). exists x. split; [reflexivity|].
  split; [apply Hs; reflexivity|]. vm_compute in E. injection E as <- _. reflexivity.
Defined.

(** The environment of a task's command is not screened.  A variable of the action
    reaches the child whatever its name, a loader variable or a secret's name included,
    while the screen that a live request passes rejects any set of variables that has
    one of those. *)
Theorem task_env_unscreened env command cwd vars timeout_ms a cmd fd :
  build_command env (run_request_spec (exec_run_request env command cwd vars timeout_ms a)) = Ok (cmd, fd) →
  ∀ k v, vars !! k = Some v → cmd.(cm_env) !! k = Some v ∧
    (is_loader_control_var k = true ∨ is_secret_var k = true → first_disallowed_remote_override vars a.(al_env_allowlist) ≠ None).
Proof.
  intros Hb k v Hk. apply build_command_facts in Hb as [_ _ _ He _ _]. split.
  - cbn [fst] in He. rewrite He. unfold sanitize_env.
    assert (sp_env (run_request_spec (exec_run_request env command cwd vars timeout_ms a)) = vars) as ->
      by (unfold exec_run_request; by destruct (container_run_identity _ _)).
    by apply lookup_union_Some_l.
  - intros Hl Hn. rewrite screen_spec in Hn. destruct (Hn k v Hk) as (H1 & H2 & _). destruct Hl; congruence.
Qed.
(** The theorem applied to a task that sets a loader variable. *)
Lemma task_env_unscreened_witness :
  ∃ cmd fd,
    build_command Runner.Sample.env (run_request_spec (exec_run_request Runner.Sample.env ["ls"] "/work"
      {["LD_PRELOAD" := "/work/x.so"]} None capped_allowance)) = Ok (cmd, fd) ∧
    cmd.(cm_env) !! "LD_PRELOAD" = Some "/work/x.so" ∧
    first_disallowed_remote_override {["LD_PRELOAD" := "/work/x.so"]} capped_allowance.(al_env_allowlist) ≠ None.
Proof.
  destruct (build_command Runner.Sample.env (run_request_spec (exec_run_request Runner.Sample.env ["ls"] "/work"
      {["LD_PRELOAD" := "/work/x.so"]} None capped_allowance))) as [[cmd fd]|] eqn:E; [|vm_compute in E; discriminate E].
  exists cmd, fd. split; [reflexivity|].
  destruct (task_env_unscreened _ _ _ _ _ _ _ _ E "LD_PRELOAD" "/work/x.so" eq_refl) as [H1 H2].
  split; [exact H1|]. apply H2. left. vm_compute. reflexivity.
Defined.
