(* ===== verification/OrchestratorCorrect.v ===== *)
(** * Correctness of the task orchestrator

    Theorems about [Orchestrator]: nothing is dispatched without passing every gate,
    a signed authorization runs at most once over any number of passes, a lost claim
    gives its nonces back, and the approval gate neither slides a deadline nor
    releases without a verified approval. *)
From Stdlib Require Import ZArith.
From stdpp Require Import gmap strings list.
From S2P Require Import Prelude RustStr CanonicalJson Schema Signing Time Replay NonceGuard PolicyFile PolicyEngine Trust Room.
From S2P Require Import TaskLifecycle Approval Orchestrator.

Section correct.
Context `{Crypto} {Store Disp Gate Cache : Type}
  `{!TaskStore Store, !TaskDispatcher Disp, !NonceGuard Cache, !NonceGuardLaws Cache,
    !TaskApprovalGate Gate Cache, !GateLaws Gate Cache}.
Context (afv : Value → option TaskAction) (regex_new : RegexNew) (debug_str : string → string).
Abbreviation World := (@World Store Disp Gate Cache).
Abbreviation prepare := (prepare (Store := Store) (Disp := Disp) (Gate := Gate) (Cache := Cache) afv regex_new debug_str).
Abbreviation process_one := (process_one (Store := Store) (Disp := Disp) (Gate := Gate) (Cache := Cache) afv regex_new debug_str).

(** The gates that read no mutable state: assignment, state, dependencies, the
    signed authorization and the policy. *)
Record gates_passed (self : TaskOrchestrator) (task : TaskState) (all : list TaskState)
    (action : TaskAction) (allowance : Allowance) : Prop := {
  gp_assigned : task.(ts_assigned_to) = self.(to_agent_id);
  gp_runnable : is_runnable task.(ts_state) = true;
  gp_deps : ∀ dep, dep ∈ task.(ts_depends_on) →
    ∃ t, t ∈ all ∧ t.(ts_task_id) = dep ∧ t.(ts_state) = STATE_SUCCEEDED;
  gp_action : action_from_task afv task = Ok action;
  gp_signed : ∀ trust, self.(to_trust_store) = Some trust →
    ∃ auth key, authorization action = Some auth ∧ auth.(taa_target_agent) = self.(to_agent_id) ∧
      is_key_trusted trust auth.(taa_signature).(sig_key_id) = true ∧
      self.(to_verifying_keys) !! auth.(taa_signature).(sig_key_id) = Some key ∧
      verify_task_action_signature key task.(ts_task_id) action auth = Ok tt;
  gp_policy : match self.(to_policy) with
    | Some p => ∃ room, self.(to_room_id) = Some room ∧ evaluate_task_action regex_new p room task action = Allow allowance
    | None => allowance = Allowance_default
    end;
}.

(** Everything that holds when an action is handed to the dispatcher. *)
Record dispatch_authorized (self : TaskOrchestrator) (now_unix : Z) (task : TaskState) (all : list TaskState)
    (inv : string) (w : World) (action : TaskAction) (allowance : Allowance) (claimed : TaskState) : Prop := {
  da_gates : gates_passed self task all action allowance;
  da_approved : allowance.(al_requires_approval) = true →
    ∃ g gc, w.(w_gate) = Some g ∧ gate_evaluate now_unix task action (g, w.(w_cache)) = (Approved, gc);
  da_fresh : ∀ c, w.(w_cache) = Some c → ∃ auth, authorization action = Some auth ∧
    (room_for c 1 → ¬ spent now_unix c auth.(taa_nonce) auth.(taa_expires_at));
  da_claimed : (claim (claim_options self.(to_agent_id) task inv) w.(w_store)).1 = Ok claimed;
}.

(** ** The steps of [prepare] *)

(** Nonces spent before stay spent, at the cost of at most [n] of the cache's room. *)
Definition keeps (now_unix : Z) (n : nat) (oc oc' : option Cache) : Prop :=
  is_some oc' = is_some oc ∧
  ∀ c c' k, oc = Some c → oc' = Some c' → room_for c (n + k) →
    room_for c' k ∧ ∀ m e, spent now_unix c m e → spent now_unix c' m e.

Lemma keeps_refl now_unix n oc : keeps now_unix n oc oc.
Proof.
  split; [done|]. intros c c' k -> [= <-] Hk. split; [|done]. eapply room_mono; [|done]. lia.
Qed.
Lemma keeps_trans now_unix n m o1 o2 o3 :
  keeps now_unix n o1 o2 → keeps now_unix m o2 o3 → keeps now_unix (n + m) o1 o3.
Proof.
  intros [Hs1 H1] [Hs2 H2]. split; [congruence|]. intros c c'' k -> -> Hk. simpl in Hs2.
  destruct o2 as [c'|]; [|done].
  destruct (H1 c c' (m + k) eq_refl eq_refl) as [Hk' Hsp]; [by rewrite Nat.add_assoc|].
  destruct (H2 c' c'' k eq_refl eq_refl Hk') as [Hk'' Hsp']. eauto.
Qed.

Definition is_stale (o : OrchestrationOutcome) : bool := match o with OStaleClaim _ => true | _ => false end.
Lemma finalize_blocked_err {A : Type} task inv (v : Value) (w w' : World) (r : result A OrchestrationOutcome) :
  finalize_blocked debug_str task inv v w = (r, w') →
  (∃ o, r = Err o ∧ is_stale o = false) ∧ w'.(w_dispatcher) = w.(w_dispatcher) ∧ w'.(w_gate) = w.(w_gate) ∧ w'.(w_cache) = w.(w_cache).
Proof.
  unfold finalize_blocked, run_finalize. destruct (finalize _ _) as [[t|e] s]; intros [= <- <-]; eauto 8.
Qed.
Ltac solve_blocked :=
  match goal with Hf : _ = (_, _) |- _ =>
    unfold block_unauthorized, block_policy_denied, block_approval_denied, block_approval_expired in Hf;
    apply finalize_blocked_err in Hf as ((? & ? & ?) & ? & ? & ?) end.

Lemma verify_spec self now task action inv (w w' : World) r :
  verify_task_action_authorization debug_str self now task action inv w = (r, w') →
  w'.(w_dispatcher) = w.(w_dispatcher) ∧ w'.(w_gate) = w.(w_gate) ∧ w'.(w_cache) = w.(w_cache) ∧
  (∀ o, r = Err o → is_stale o = false) ∧
  (r = Ok tt → w' = w ∧ (is_some w.(w_cache) = true → is_some (authorization action) = true) ∧
     ∀ trust, self.(to_trust_store) = Some trust →
    ∃ auth key, authorization action = Some auth ∧ auth.(taa_target_agent) = self.(to_agent_id) ∧
      is_key_trusted trust auth.(taa_signature).(sig_key_id) = true ∧
      self.(to_verifying_keys) !! auth.(taa_signature).(sig_key_id) = Some key ∧
      verify_task_action_signature key task.(ts_task_id) action auth = Ok tt).
Proof.
  unfold verify_task_action_authorization. intros Hv.
  destruct (negb (is_some (to_trust_store self)) && _) eqn:Hno.
  { simplify_eq. bool_prop. split_and!; try done. intros _. split_and!; [done|congruence|].
    intros trust Ht. by rewrite Ht in *. }
  destruct (authorization action) as [auth|] eqn:Ha; [|solve_blocked; split_and!; try done; congruence].
  destruct (negb (taa_target_agent auth =s _)) eqn:Ht; [solve_blocked; split_and!; try done; congruence|].
  bool_prop. apply str_eqb_eq in Ht.
  destruct (to_trust_store self) as [trust|] eqn:Hts; [|by simplify_eq].
  destruct (negb (is_key_trusted trust _)) eqn:Hk; [solve_blocked; split_and!; try done; congruence|]. bool_prop.
  destruct (to_verifying_keys self !! _) as [key|] eqn:Hvk; [|solve_blocked; split_and!; try done; congruence].
  destruct (verify_task_action_signature key _ _ _) as [[]|] eqn:Hsig; [|solve_blocked; split_and!; try done; congruence].
  simplify_eq. split_and!; try done. intros _. split_and!; try done. intros ? [= <-]. by exists auth, key.
Qed.

Lemma authorize_spec self now task action inv (w w' : World) r :
  authorize_task_action regex_new debug_str self now task action inv w = (r, w') →
  w'.(w_dispatcher) = w.(w_dispatcher) ∧ w'.(w_gate) = w.(w_gate) ∧ w'.(w_cache) = w.(w_cache) ∧
  (∀ o, r = Err o → is_stale o = false) ∧
  (∀ allowance, r = Ok allowance → w' = w ∧
    match self.(to_policy) with
    | Some p => ∃ room, self.(to_room_id) = Some room ∧ evaluate_task_action regex_new p room task action = Allow allowance
    | None => allowance = Allowance_default
    end).
Proof.
  unfold authorize_task_action. intros Hv. destruct (to_policy self) as [p|].
  - destruct (to_room_id self) as [room|]; [|solve_blocked; split_and!; try done; congruence].
    destruct (evaluate_task_action _ _ _ _ _) as [a|reason] eqn:He; [|solve_blocked; split_and!; try done; congruence].
    simplify_eq. split_and!; try done. intros ? [= <-]. split; [done|]. by exists room.
  - simplify_eq. split_and!; try done. by intros ? [= <-].
Qed.

Lemma resolve_spec self now now_unix task action inv (w w' : World) r :
  resolve_approval debug_str self now now_unix task action inv w = (r, w') →
  w'.(w_dispatcher) = w.(w_dispatcher) ∧ keeps now_unix 1 w.(w_cache) w'.(w_cache) ∧
  (∀ o, r = Err o → is_stale o = false) ∧
  (r = Ok tt → w'.(w_store) = w.(w_store) ∧
     ∃ g g', w.(w_gate) = Some g ∧ w'.(w_gate) = Some g' ∧
       gate_evaluate now_unix task action (g, w.(w_cache)) = (Approved, (g', w'.(w_cache)))).
Proof.
  unfold resolve_approval. intros Hv. destruct (w_gate w) as [g|] eqn:Hg.
  2: { simplify_eq. split_and!; [done|apply keeps_refl|by intros ? [= <-]|done]. }
  destruct (gate_evaluate now_unix task action (g, w_cache w)) as [d [g' c1]] eqn:He.
  assert (keeps now_unix 1 (w_cache w) c1) as Hkeep.
  { split; [by eapply gate_evaluate_cache|]. intros c c' k Hc -> Hk. rewrite Hc in He. by eapply gate_evaluate_keeps. }
  destruct d.
  - simplify_eq/=. split_and!; try done. intros _. split; [done|]. by exists g, g'.
  - solve_blocked. simpl in *. split_and!; congruence.
  - simplify_eq/=. split_and!; [done|done|by intros ? [= <-]|done].
  - solve_blocked. simpl in *. split_and!; congruence.
Qed.

Lemma replay_spec self now now_unix task action inv (w w' : World) r :
  admit_task_action_replay debug_str self now now_unix task action inv w = (r, w') →
  w'.(w_dispatcher) = w.(w_dispatcher) ∧ w'.(w_gate) = w.(w_gate) ∧ keeps now_unix 1 w.(w_cache) w'.(w_cache) ∧
  (∀ o, r = Err o → is_stale o = false) ∧
  (r = Ok tt → w'.(w_store) = w.(w_store) ∧
     ∀ c, w.(w_cache) = Some c → ∃ auth c', authorization action = Some auth ∧ w'.(w_cache) = Some c' ∧
       burn now_unix auth.(taa_nonce) auth.(taa_expires_at) c = (Ok tt, c')).
Proof.
  unfold admit_task_action_replay. intros Hv. destruct (w_cache w) as [c|] eqn:Hc.
  2: { simplify_eq. rewrite Hc. split_and!; try done; apply keeps_refl. }
  destruct (authorization action) as [auth|] eqn:Ha.
  2: { solve_blocked. rewrite Hc in *. split_and!; try congruence.
       replace (w_cache w') with (Some c) by congruence. apply keeps_refl. }
  destruct (burn now_unix _ _ c) as [r1 c1] eqn:Hb.
  assert (keeps now_unix 1 (Some c) (Some c1)) as Hkeep.
  { split; [done|]. intros ? ? k [= <-] [= <-] Hk. split; [by eapply (burn_keeps _ _ _ _ _ _ _ Hb)|].
    intros m e. by eapply spent_burn. }
  destruct r1 as [[]|err].
  - simplify_eq/=. split_and!; try done. intros _. split; [done|]. intros ? [= <-]. by exists auth, c1.
  - solve_blocked. simpl in *. split_and!; congruence.
Qed.
Lemma bind_inv {St E A B} (m : st St E A) (f : A → st St E B) s r s' :
  bind m f s = (r, s') →
  (∃ e, m s = (Err e, s') ∧ r = Err e) ∨ ∃ x s1, m s = (Ok x, s1) ∧ f x s1 = (r, s').
Proof. unfold bind. destruct (m s) as [[x|e] s1]; intros Hf; simplify_eq; eauto 6. Qed.

(** The pass stands just before its claim: every gate passed, its nonces burned. *)
Record admitted (self : TaskOrchestrator) (now_unix : Z) (task : TaskState) (all : list TaskState)
    (w w2 : World) (action : TaskAction) (allowance : Allowance) : Prop := {
  ad_store : w2.(w_store) = w.(w_store);
  ad_dispatcher : w2.(w_dispatcher) = w.(w_dispatcher);
  ad_keeps : keeps now_unix 2 w.(w_cache) w2.(w_cache);
  ad_gates : gates_passed self task all action allowance;
  ad_approved : allowance.(al_requires_approval) = true →
    ∃ g g' c1, w.(w_gate) = Some g ∧ w2.(w_gate) = Some g' ∧
      gate_evaluate now_unix task action (g, w.(w_cache)) = (Approved, (g', c1));
  ad_fresh : ∀ c, w.(w_cache) = Some c → ∃ auth c1 c2, authorization action = Some auth ∧
    w2.(w_cache) = Some c2 ∧ burn now_unix auth.(taa_nonce) auth.(taa_expires_at) c1 = (Ok tt, c2) ∧
    keeps now_unix 1 (Some c) (Some c1);
}.

(** The claim lost after admission: both burns are taken back. *)
Lemma compensate_spec self now_unix task all w w2 action allowance s :
  admitted self now_unix task all w w2 action allowance →
  let w3 := compensate action allowance (set_store w2 s) in
  w3.(w_dispatcher) = w.(w_dispatcher) ∧ keeps now_unix 2 w.(w_cache) w3.(w_cache) ∧
  ∀ c c3 auth, w.(w_cache) = Some c → w3.(w_cache) = Some c3 → authorization action = Some auth →
    ∀ e, ¬ recorded c3 auth.(taa_nonce) e.
Proof.
  intros Ha. unfold compensate.
  destruct (w_cache w) as [c|] eqn:Hc.
  - destruct (ad_fresh _ _ _ _ _ _ _ _ Ha _ Hc) as (auth & c1 & c2 & Hauth & Hc2 & Hb & Hk1).
    pose proof (ad_keeps _ _ _ _ _ _ _ _ Ha) as [_ Hk2]. rewrite Hc, Hc2 in Hk2. simpl. rewrite Hc2, Hauth. simpl.
    assert (keeps now_unix 2 (Some c) (Some (unburn (taa_nonce auth) c2))) as Hk3.
    { split; [done|]. intros ? ? k [= <-] [= <-] Hk.
      destruct (Hk2 _ _ k eq_refl eq_refl Hk) as [Hr Hs]. split; [by apply unburn_room|].
      intros m e Hm. eapply spent_unburn; [done| |by apply Hs].
      destruct Hk1 as [_ Hk1]. by eapply (Hk1 _ _ (S k)). }
    destruct (al_requires_approval allowance) eqn:Hap; simpl.
    2: { split; [apply Ha|]. split; [done|]. intros ? ? ? _ [= <-] [= <-]. apply unburn_forgets. }
    destruct (ad_approved _ _ _ _ _ _ _ _ Ha Hap) as (g & g' & oc1 & Hg & Hg' & He). rewrite Hg'. simpl.
    destruct (compensate_lost_claim (g', Some (unburn (taa_nonce auth) c2))) as [g3 oc3] eqn:Hcl. simpl.
    pose proof (gate_compensate_cache _ _ _ _ Hcl) as Hsome.
    pose proof (gate_evaluate_cache _ _ _ _ _ _ _ _ He) as Hsome'. rewrite Hc in He, Hsome'.
    destruct oc3 as [c3|]; [|done]. destruct oc1 as [c1'|]; [|done].
    split; [apply Ha|]. split.
    + split; [done|]. intros ? ? k [= <-] [= <-] Hk.
      destruct Hk3 as [_ Hk3]. destruct (Hk3 _ _ k eq_refl eq_refl Hk) as [Hr Hs].
      destruct (gate_compensate_keeps _ _ _ _ _ _ _ _ _ _ k He Hcl Hr) as [Hr' Hs']. eauto.
    + intros ? ? ? _ [= <-] [= <-]. eapply gate_compensate_records; [done|]. intros e. apply unburn_forgets.
  - pose proof (ad_keeps _ _ _ _ _ _ _ _ Ha) as [Hn _]. rewrite Hc in Hn.
    destruct (w_cache w2) eqn:Hc2; [done|]. simpl. rewrite Hc2.
    destruct (al_requires_approval allowance) eqn:Hap; simpl.
    2: { rewrite Hc2. split; [apply Ha|]. split; [apply keeps_refl|done]. }
    destruct (ad_approved _ _ _ _ _ _ _ _ Ha Hap) as (g & g' & oc1 & Hg & Hg' & He). rewrite Hg', ?Hc2.
    destruct (compensate_lost_claim (g', None)) as [g3 oc3] eqn:Hcl. simpl.
    pose proof (gate_compensate_cache _ _ _ _ Hcl) as Hsome. destruct oc3; [done|].
    split; [apply Ha|]. split; [apply keeps_refl|done].
Qed.

Lemma approval_spec self now now_unix task action inv allowance (w w' : World) r :
  (if al_requires_approval allowance then resolve_approval debug_str self now now_unix task action inv else ret tt) w
    = (r, w') →
  w'.(w_dispatcher) = w.(w_dispatcher) ∧ keeps now_unix 1 w.(w_cache) w'.(w_cache) ∧
  (∀ o, r = Err o → is_stale o = false) ∧
  (r = Ok tt → w'.(w_store) = w.(w_store) ∧ (allowance.(al_requires_approval) = true →
     ∃ g g', w.(w_gate) = Some g ∧ w'.(w_gate) = Some g' ∧
       gate_evaluate now_unix task action (g, w.(w_cache)) = (Approved, (g', w'.(w_cache))))).
Proof.
  destruct (al_requires_approval allowance).
  - intros (? & ? & ? & Hr)%resolve_spec. split_and!; [done..|]. intros (? & ?)%Hr. auto.
  - intros [= <- <-]. split; [done|]. split; [apply keeps_refl|done].
Qed.

Lemma prepare_spec self now now_unix task all inv w r w' :
  prepare self now now_unix task all inv w = (r, w') →
  w'.(w_dispatcher) = w.(w_dispatcher) ∧ keeps now_unix 2 w.(w_cache) w'.(w_cache) ∧
  match r with
  | Ok (action, allowance, claimed) =>
      ∃ w2, admitted self now_unix task all w w2 action allowance ∧ w'.(w_cache) = w2.(w_cache) ∧
        (claim (claim_options self.(to_agent_id) task inv) w.(w_store)).1 = Ok claimed
  | Err o => is_stale o = true →
      ∃ w2 action allowance, admitted self now_unix task all w w2 action allowance ∧
        w' = compensate action allowance (set_store w2 (claim (claim_options self.(to_agent_id) task inv) w.(w_store)).2)
  end.
Proof.
  intros Hp. unfold Orchestrator.prepare, fail in Hp.
  destruct (negb (is_assigned self task)) eqn:Has; [simplify_eq; by (split_and!; try apply keeps_refl)|].
  destruct (negb (is_runnable _)) eqn:Hrun; [simplify_eq; by (split_and!; try apply keeps_refl)|].
  destruct (unmet_dependencies _ _) eqn:Hun; [|simplify_eq; by (split_and!; try apply keeps_refl)].
  destruct (action_from_task afv task) as [action|] eqn:Hact; [|simplify_eq; by (split_and!; try apply keeps_refl)].
  bool_prop. apply str_eqb_eq in Has.
  apply bind_inv in Hp as [(e & Hv & ->)|([] & w0 & Hv & Hp)];
    apply verify_spec in Hv as (Hd0 & Hg0 & Hc0 & Hns0 & Hv).
  { split_and!; [done| |by rewrite Hns0]. rewrite Hc0. apply keeps_refl. }
  destruct (Hv eq_refl) as (-> & _ & Hsig). clear Hd0 Hg0 Hc0 Hv Hns0.
  apply bind_inv in Hp as [(e & Hv & ->)|(allowance & w0 & Hv & Hp)];
    apply authorize_spec in Hv as (Hd0 & Hg0 & Hc0 & Hns0 & Hv).
  { split_and!; [done| |by rewrite Hns0]. rewrite Hc0. apply keeps_refl. }
  destruct (Hv _ eq_refl) as (-> & Hpol). clear Hd0 Hg0 Hc0 Hv Hns0.
  apply bind_inv in Hp as [(e & Hv & ->)|([] & w1 & Hv & Hp)];
    apply approval_spec in Hv as (Hd1 & Hk1 & Hns1 & Hap).
  { split_and!; [done| |by rewrite Hns1]. apply (keeps_trans _ 1 1 _ _ _ Hk1), keeps_refl. }
  destruct (Hap eq_refl) as (Hs1 & Hapr). clear Hap Hns1.
  apply bind_inv in Hp as [(e & Hv & ->)|([] & w2 & Hv & Hp)];
    apply replay_spec in Hv as (Hd2 & Hg2 & Hk2 & Hns2 & Hf).
  { split_and!; [congruence|apply (keeps_trans _ 1 1 _ _ _ Hk1 Hk2)|by rewrite Hns2]. }
  destruct (Hf eq_refl) as (Hs2 & Hfresh).
  assert (admitted self now_unix task all w w2 action allowance) as Hadm.
  { split; [congruence|congruence|apply (keeps_trans _ 1 1 _ _ _ Hk1 Hk2)|..].
    - split; try done. by apply unmet_nil.
    - intros Hq. destruct (Hapr Hq) as (g & g' & Hg & Hg' & He). exists g, g', (w_cache w1). by rewrite Hg2.
    - intros c Hc. rewrite Hc in Hk1. destruct (w_cache w1) as [c1|] eqn:Hc1; [|by destruct Hk1].
      destruct (Hfresh _ eq_refl) as (auth & c2 & Ha & Hc2 & Hb). by exists auth, c1, c2. }
  unfold run_claim in Hp. replace (w_store w2) with (w_store w) in Hp by congruence.
  destruct (claim _ (w_store w)) as [[claimed|err] s] eqn:Hcl.
  - simplify_eq/=. split_and!; [apply Hadm|apply Hadm|]. by exists w2.
  - destruct err; simplify_eq/=.
    + destruct (compensate_spec _ _ _ _ _ _ _ _ s Hadm) as (Hd & Hk & _).
      split_and!; [done..|]. intros _. by exists w2, action, allowance.
    + split_and!; [apply Hadm|apply Hadm|done].
    + split_and!; [apply Hadm|apply Hadm|done].
Qed.
Lemma admitted_fresh self now_unix task all w w2 action allowance c :
  admitted self now_unix task all w w2 action allowance → w.(w_cache) = Some c →
  ∃ auth c2, authorization action = Some auth ∧ w2.(w_cache) = Some c2 ∧
    recorded c2 auth.(taa_nonce) auth.(taa_expires_at) ∧
    (room_for c 1 → ¬ spent now_unix c auth.(taa_nonce) auth.(taa_expires_at)).
Proof.
  intros Ha Hc. destruct (ad_fresh _ _ _ _ _ _ _ _ Ha _ Hc) as (auth & c1 & c2 & Hauth & Hc2 & Hb & [_ Hk]).
  exists auth, c2. split_and!; [done|done|by eapply burn_ok|]. intros Hr Hsp.
  destruct (Hk c c1 0 eq_refl eq_refl Hr) as [_ Hs].
  destruct (burn_spent now_unix _ _ c1 (Hs _ _ Hsp)) as [err Herr]. congruence.
Qed.

(** The cache and the dispatcher after a whole pass: the finalize touches neither. *)
Lemma process_spec self now now_unix task all inv w o w' :
  process_one self now now_unix task all inv w = (o, w') →
  (w'.(w_dispatcher) = w.(w_dispatcher) ∧ keeps now_unix 2 w.(w_cache) w'.(w_cache)) ∨
  ∃ action allowance claimed w2, admitted self now_unix task all w w2 action allowance ∧
    (claim (claim_options self.(to_agent_id) task inv) w.(w_store)).1 = Ok claimed ∧
    w'.(w_dispatcher) = (dispatch claimed action inv allowance w.(w_dispatcher)).2 ∧
    w'.(w_cache) = w2.(w_cache).
Proof.
  unfold Orchestrator.process_one. destruct (Orchestrator.prepare _ _ _ _ _ _ _ _ _ _) as [[[[action allowance] claimed]|o1] w1] eqn:Hp.
  - apply prepare_spec in Hp as (Hd & Hk & w2 & Hadm & Hc & Hcl). rewrite Hd.
    destruct (dispatch claimed action inv allowance (w_dispatcher w)) as [dr d] eqn:Hdis. destruct (dispatch_terminal _ _ _ _ _) as [term v].
    unfold run_finalize. destruct (finalize _ _) as [[fin|err] s]; intros Hr; right; exists action, allowance, claimed, w2;
      rewrite Hdis; by crush_match.
  - intros [= <- <-]. left. apply prepare_spec in Hp as (Hd & Hk & _). done.
Qed.

(** C2: a pass over a task reaches the dispatcher only when the task is assigned to
    this agent and runnable, every dependency has succeeded, the action is signed by
    a trusted key for this agent and task, the policy allows it, a required approval
    was given, the authorization's nonce was unspent and the claim was won; it then
    dispatches exactly that action, once. *)
Theorem dispatch_only_when_authorized self now now_unix task all inv w o w' :
  process_one self now now_unix task all inv w = (o, w') →
  w'.(w_dispatcher) = w.(w_dispatcher) ∨
  ∃ action allowance claimed,
    dispatch_authorized self now_unix task all inv w action allowance claimed ∧
    w'.(w_dispatcher) = (dispatch claimed action inv allowance w.(w_dispatcher)).2.
Proof.
  intros [[Hd _]|(action & allowance & claimed & w2 & Hadm & Hcl & Hd & _)]%process_spec; [by left|right].
  exists action, allowance, claimed. split; [|done]. split; [apply Hadm| | |done].
  - intros Hq. destruct (ad_approved _ _ _ _ _ _ _ _ Hadm Hq) as (g & g' & c1 & Hg & _ & He). eauto.
  - intros c Hc. destruct (admitted_fresh _ _ _ _ _ _ _ _ _ Hadm Hc) as (auth & _ & Ha & _ & _ & Hf). eauto.
Qed.

(** A pass that loses its claim dispatches nothing and leaves the
    authorization's nonce unrecorded, so that the retry against the new revision is
    not refused as a replay; every nonce spent before the pass stays spent. *)
Theorem lost_claim_can_retry self now now_unix task all inv w t w' c :
  process_one self now now_unix task all inv w = (OStaleClaim t, w') →
  w.(w_cache) = Some c → room_for c 2 →
  w'.(w_dispatcher) = w.(w_dispatcher) ∧
  ∃ action auth c', action_from_task afv task = Ok action ∧ authorization action = Some auth ∧
    w'.(w_cache) = Some c' ∧ (∀ e, ¬ recorded c' auth.(taa_nonce) e) ∧
    ∀ m e, spent now_unix c m e → spent now_unix c' m e.
Proof.
  unfold Orchestrator.process_one. destruct (Orchestrator.prepare _ _ _ _ _ _ _ _ _ _) as [[[[action allowance] claimed]|o1] w1] eqn:Hp.
  { intros Hr. exfalso. destruct (dispatch _ _ _ _ _). destruct (dispatch_terminal _ _ _ _ _). by crush_match. }
  intros [= -> ->] Hc Hr. apply prepare_spec in Hp as (Hd & [Hsome Hk] & Hst).
  destruct (Hst eq_refl) as (w2 & action & allowance & Hadm & Hw'). split; [done|].
  destruct (admitted_fresh _ _ _ _ _ _ _ _ _ Hadm Hc) as (auth & _ & Hauth & _).
  rewrite Hc in Hsome. destruct (w_cache w') as [c'|] eqn:Hc'; [|done].
  exists action, auth, c'. split; [apply Hadm|]. split_and!; [done|done| |].
  - rewrite Hw' in Hc'. by eapply (compensate_spec _ _ _ _ _ _ _ _ _ Hadm).
  - eapply (Hk c c' 0 Hc eq_refl). done.
Qed.
End correct.

(** ** Many passes *)

Section passes.
Context `{Crypto} {Store Gate Cache : Type}
  `{!TaskStore Store, !NonceGuard Cache, !NonceGuardLaws Cache, !TaskApprovalGate Gate Cache, !GateLaws Gate Cache}.
Context (afv : Value → option TaskAction) (regex_new : RegexNew) (debug_str : string → string).
(** Any dispatcher, seen through the log of the actions handed to it. *)
Context (outcome_of : TaskState → TaskAction → string → Allowance → result TaskExecutionResult TaskDispatchError).
#[local] Instance log_dispatcher : TaskDispatcher (list TaskAction) :=
  {| dispatch t a i al log := (outcome_of t a i al, a :: log) |}.

(** One pass: its orchestrator, clock, task and task list, and the store and gate as
    it finds them; only the replay cache is the same from pass to pass. *)
Record Pass := {
  ps_self : TaskOrchestrator;
  ps_now : string;
  ps_now_unix : Z;
  ps_task : TaskState;
  ps_all : list TaskState;
  ps_inv : string;
  ps_store : Store;
  ps_gate : option Gate;
}.
Definition run_pass (p : Pass) (log : list TaskAction) (c : option Cache) : list TaskAction * option Cache :=
  let '(_, w) := process_one afv regex_new debug_str p.(ps_self) p.(ps_now) p.(ps_now_unix) p.(ps_task) p.(ps_all)
    p.(ps_inv) {| w_store := p.(ps_store); w_dispatcher := log; w_gate := p.(ps_gate); w_cache := c |} in
  (w.(w_dispatcher), w.(w_cache)).
Fixpoint run_passes (ps : list Pass) (log : list TaskAction) (c : option Cache) : list TaskAction * option Cache :=
  match ps with
  | [] => (log, c)
  | p :: ps => let '(log, c) := run_pass p log c in run_passes ps log c
  end.
(** The clock never runs backwards from [t] on. *)
Fixpoint clock_from (t : Z) (ps : list Pass) : Prop :=
  match ps with [] => True | p :: ps => (t ≤ p.(ps_now_unix))%Z ∧ clock_from p.(ps_now_unix) ps end.

(** The single-use token of an action: its authorization's nonce and expiry. *)
Definition token (a : TaskAction) : option (string * string) :=
  (λ auth, (auth.(taa_nonce), auth.(taa_expires_at))) <$> authorization a.

(** Every logged action is authorized by its own token, already spent. *)
Definition log_spent (now : Z) (c : Cache) (log : list TaskAction) : Prop :=
  NoDup (map token log) ∧
  ∀ a, a ∈ log → ∃ auth, authorization a = Some auth ∧ spent now c auth.(taa_nonce) auth.(taa_expires_at).

Lemma log_spent_le now now' c c' log :
  (now ≤ now')%Z → (∀ m e, spent now' c m e → spent now' c' m e) → log_spent now c log → log_spent now' c' log.
Proof.
  intros Hle Hk [Hnd Hl]. split; [done|]. intros a (auth & Ha & Hs)%Hl. exists auth. split; [done|].
  apply Hk. by eapply spent_mono.
Qed.

Lemma run_pass_spent p now log c k log' oc' :
  (now ≤ p.(ps_now_unix))%Z → log_spent now c log → room_for c (2 + k) →
  run_pass p log (Some c) = (log', oc') →
  ∃ c', oc' = Some c' ∧ log_spent p.(ps_now_unix) c' log' ∧ room_for c' k.
Proof.
  intros Hle Hl Hr Hp. unfold run_pass in Hp.
  destruct (process_one _ _ _ _ _ _ _ _ _ _) as [o w'] eqn:Hpo. simplify_eq/=.
  apply process_spec in Hpo as [[Hd [Hs Hk]]|(action & allowance & claimed & w2 & Hadm & _ & Hd & Hc)]; simpl in *.
  - destruct (w_cache w') as [c'|]; [|done]. destruct (Hk _ _ k eq_refl eq_refl Hr) as [Hr' Hsp].
    exists c'. rewrite Hd. split_and!; [done| |done]. by eapply log_spent_le.
  - destruct (admitted_fresh _ _ _ _ _ _ _ _ _ _ _ Hadm eq_refl) as (auth & c2 & Ha & Hc2 & Hrec & Hfr).
    destruct (ad_keeps _ _ _ _ _ _ _ _ _ _ Hadm) as [_ Hk]. rewrite Hc2 in Hk.
    destruct (Hk _ _ k eq_refl eq_refl Hr) as [Hr' Hsp].
    exists c2. rewrite Hc, Hd. split_and!; [done| |done]. simpl.
    apply (log_spent_le _ (ps_now_unix p) c c) in Hl as Hl0; [|done..].
    apply (log_spent_le _ (ps_now_unix p) c c2) in Hl as [Hnd Hl]; [|done..]. split.
    + apply NoDup_cons. split; [|done]. intros (b & Htok & Hb)%list_elem_of_fmap.
      destruct Hl0 as [_ Hl0]. destruct (Hl0 _ Hb) as (auth' & Ha' & Hsb). unfold token in Htok.
      rewrite Ha, Ha' in Htok. simplify_eq/=. apply Hfr; [eapply room_mono; [|done]; lia|]. congruence.
    + intros a [->|Hin]%elem_of_cons; [|by apply Hl]. exists auth. split; [done|]. by left.
Qed.

Lemma run_passes_spent ps : ∀ now log c k log' oc',
  clock_from now ps → log_spent now c log → room_for c (2 * length ps + k) →
  run_passes ps log (Some c) = (log', oc') → NoDup (map token log').
Proof.
  induction ps as [|p ps IH]; simpl; intros now log c k log' oc' Hck Hl Hr Hp; [simplify_eq; apply Hl|].
  destruct Hck as [Hle Hck]. destruct (run_pass p log (Some c)) as [log1 oc1] eqn:Hp1.
  destruct (run_pass_spent p now log c (2 * length ps + k) log1 oc1) as (c1 & -> & Hl1 & Hr1); [done..| |done|].
  { eapply room_mono; [|done]. lia. }
  by eapply IH.
Qed.

(** Over any number of passes that hand one replay cache on, with any stores, gates and task lists in between,
    the dispatcher is never handed two actions under the same authorization (nonce
    and expiry), provided the clock does not run backwards and the cache has room for
    two nonces a pass.  (The scheduler loop loads the cache from its file in each pass,
    and the router writes its own over that file: [SchedulerPass].) *)
Theorem authorization_runs_at_most_once ps now c log oc' :
  clock_from now ps → room_for c (2 * length ps) →
  run_passes ps [] (Some c) = (log, oc') → NoDup (map token log).
Proof.
  intros Hck Hr Hp. apply (run_passes_spent ps now [] c 0 log oc'); [done| | |done].
  - split; [apply NoDup_nil_2|]. intros a Ha. by apply elem_of_nil in Ha.
  - by rewrite Nat.add_0_r.
Qed.
End passes.

(** ** Restart recovery *)

Section recovery.
Context `{Crypto} {Disp Gate Cache : Type} (debug_str : string → string).
(** Any store, seen through the log of the updates asked of it. *)
Context (answer : UpdateTaskOptions → result TaskState TaskStoreError).
#[local] Instance log_store : TaskStore (list UpdateTaskOptions) :=
  {| claim o log := (answer o, o :: log); finalize o log := (answer o, o :: log) |}.
Context (self : TaskOrchestrator) (now : string) (live : gset string) (invs : gmap string InvocationState).
Abbreviation World := (@World (list UpdateTaskOptions) Disp Gate Cache).

Definition is_live (t : TaskState) : Prop := ∃ id, t.(ts_invocation_id) = Some id ∧ id ∈ live.
(** The state recovery gives a task: its invocation's outcome, or failed when the
    room has no record of the invocation. *)
Definition recovered_state (t : TaskState) (state : string) : Prop :=
  match t.(ts_invocation_id) ≫= (λ id, invs !! id) with
  | Some i => Invocation.is_terminal i.(is_state) = true ∧
      state = default STATE_FAILED (Invocation.task_state_for_invocation i.(is_state))
  | None => state = STATE_FAILED
  end.
(** An update recovery may ask for. *)
Definition recovers (tasks : list TaskState) (o : UpdateTaskOptions) : Prop :=
  ∃ t state result, t ∈ tasks ∧ t.(ts_state) = STATE_EXECUTING ∧ t.(ts_assigned_to) = self.(to_agent_id) ∧
    ¬ is_live t ∧ recovered_state t state ∧ o = finalize_options t.(ts_task_id) state result t.(ts_state_rev).

Lemma is_live_spec t :
  match t.(ts_invocation_id) with Some id => bool_decide (id ∈ live) | None => false end = true ↔ is_live t.
Proof.
  unfold is_live. destruct (ts_invocation_id t) as [id|]; [|split; [done|by intros (? & ? & _)]].
  rewrite bool_decide_eq_true. split; [by exists id|by intros (? & [= <-] & ?)].
Qed.
Lemma reconcile_one_spec t (w : World) o w' :
  t.(ts_state) = STATE_EXECUTING → reconcile_one debug_str self now live invs t w = (o, w') →
  w'.(w_dispatcher) = w.(w_dispatcher) ∧ w'.(w_gate) = w.(w_gate) ∧ w'.(w_cache) = w.(w_cache) ∧
  (w'.(w_store) = w.(w_store) ∨ ∃ u, w'.(w_store) = u :: w.(w_store) ∧ recovers [t] u).
Proof.
  intros Hs. unfold reconcile_one, is_assigned.
  destruct (ts_assigned_to t =s to_agent_id self) eqn:Ha; simpl; [|intros [= <- <-]; auto].
  destruct (match ts_invocation_id t with Some _ => _ | None => _ end) eqn:Hl; [intros [= <- <-]; auto|].
  assert (¬ is_live t) as Hnl by (rewrite <- is_live_spec, Hl; done). apply str_eqb_eq in Ha.
  assert (t ∈ [t]) as Ht by left.
  destruct (ts_invocation_id t ≫= _) as [i|] eqn:Hi.
  - destruct (Invocation.is_terminal (is_state i)) eqn:Hterm; [|intros [= <- <-]; auto].
    unfold reconcile_terminal_invocation, run_finalize. simpl.
    destruct (answer _); intros [= <- <-]; simpl; split_and!; try done; right; eexists; (split; [done|]);
      do 3 eexists; unfold recovered_state; rewrite Hi; by split_and!.
  - unfold recover_stale_executing, run_finalize, is_assigned. rewrite Ha, Hs, !str_eqb_refl, Hl. simpl.
    destruct (answer _); intros [= <- <-]; simpl; split_and!; try done; right; eexists; (split; [done|]);
      do 3 eexists; unfold recovered_state; rewrite Hi; by split_and!.
Qed.
Lemma reconcile_loop_spec tasks : ∀ (w : World) os w',
  Forall (λ t, t.(ts_state) = STATE_EXECUTING) tasks →
  reconcile_loop debug_str self now live invs tasks w = (os, w') →
  length os = length tasks ∧
  w'.(w_dispatcher) = w.(w_dispatcher) ∧ w'.(w_gate) = w.(w_gate) ∧ w'.(w_cache) = w.(w_cache) ∧
  ∀ u, u ∈ w'.(w_store) → u ∈ w.(w_store) ∨ recovers tasks u.
Proof.
  induction tasks as [|t tasks IH]; simpl; intros w os w' Hex; [by intros [= <- <-]; split_and!; auto|].
  apply Forall_cons in Hex as [Ht Hex].
  destruct (reconcile_one debug_str self now live invs t w) as [o w1] eqn:H1.
  destruct (reconcile_loop debug_str self now live invs tasks w1) as [os1 w2] eqn:H2. intros [= <- <-].
  apply reconcile_one_spec in H1 as (Hd & Hg & Hc & Hst); [|done]. apply IH in H2 as (Hlen & -> & -> & -> & Hin); [|done].
  assert (∀ ts u, recovers ts u → ts ⊆ t :: tasks → recovers (t :: tasks) u) as Hmono.
  { intros ts u (t0 & st & r & Hin0 & Hrest) Hsub. exists t0, st, r. split; [by apply Hsub|done]. }
  split_and!; [simpl; by rewrite Hlen|done..|]. intros u [Hu|Hu]%Hin.
  - destruct Hst as [Hst|(v & Hv & Hr)]; [left; by rewrite <- Hst|]. rewrite Hv in Hu. apply elem_of_cons in Hu as [->|Hu]; [|by left].
    right. apply (Hmono [t]); [done|]. intros x ->%list_elem_of_singleton. left.
  - right. apply (Hmono tasks); [done|]. intros x Hx. by right.
Qed.

(** Restart recovery re-runs nothing: it never touches the dispatcher, the gate or
    the replay cache, gives one outcome per executing task, and updates only tasks
    that are executing, assigned to this agent and without a live invocation, at the
    revision it read, to the outcome their invocation reached or, when the room has
    no record of it, to failed. *)
Theorem recovery_updates_only_orphans tasks (w : World) os w' :
  reconcile_executing_tasks debug_str self now tasks live invs w = (os, w') →
  length os = length (List.filter (λ t, t.(ts_state) =s STATE_EXECUTING) tasks) ∧
  w'.(w_dispatcher) = w.(w_dispatcher) ∧ w'.(w_gate) = w.(w_gate) ∧ w'.(w_cache) = w.(w_cache) ∧
  ∀ u, u ∈ w'.(w_store) → u ∈ w.(w_store) ∨ recovers tasks u.
Proof.
  assert (∀ t, t ∈ List.filter (λ t, t.(ts_state) =s STATE_EXECUTING) tasks ↔ t ∈ tasks ∧ t.(ts_state) = STATE_EXECUTING) as Hf.
  { intros t. by rewrite !list_elem_of_In, List.filter_In, str_eqb_eq. }
  intros (Hlen & Hd & Hg & Hc & Hu)%reconcile_loop_spec.
  - split_and!; [done..|]. intros u [?|(t & st & r & [? ?]%Hf & Hrest)]%Hu; [by left|right]. exists t, st, r. by split.
  - apply Forall_forall. intros t Ht. by apply Hf in Ht as [_ ?].
Qed.
End recovery.

(** ** The approval window *)

Section window.
Context `{NonceGuard Cache}.
Context (task : TaskState) (action : TaskAction) (now : Z).
#[local] Arguments queue_evaluate : simpl never.
Definition hold_id : string := "approval:" +:+ task.(ts_task_id).

(** Successive passes over a held task: the gate is rebuilt for each, the queue and
    the cache persist. *)
Fixpoint gate_passes (gs : list QueueApprovalGate) (q : ApprovalQueue) (c : option Cache) :
    list ApprovalDisposition * ApprovalQueue * option Cache :=
  match gs with
  | [] => ([], q, c)
  | g :: gs =>
      let '(d, (g', c)) := queue_evaluate now task action (set_queue g q, c) in
      let '(ds, q, c) := gate_passes gs g'.(qg_queue) c in
      (d :: ds, q, c)
  end.
Definition deadline_of (q : ApprovalQueue) : option string :=
  (λ p, p.(pa_request).(apr_expires_at)) <$> queue_get q hold_id.
Definition undecided (g : QueueApprovalGate) : Prop := g.(qg_resolve_decision) hold_id = None.

Lemma undecided_step g q c D :
  undecided g → queue_wf q → default g.(qg_expires_at) (deadline_of q) = D →
  let '(d, (g', c')) := queue_evaluate now task action (set_queue g q, c) in
  queue_wf g'.(qg_queue) ∧ c' = c ∧
  if approval_request_expired D g.(qg_now_unix)
  then d = ApprovalExpired hold_id ∧ deadline_of g'.(qg_queue) = None
  else d = Pending hold_id ∧ deadline_of g'.(qg_queue) = Some D.
Proof.
  intros Hu Hwf HD. unfold queue_evaluate. simpl. fold hold_id. rewrite Hu.
  unfold deadline_of in HD.
  assert (match queue_get q hold_id with Some p => p.(pa_request).(apr_expires_at) | None => g.(qg_expires_at) end = D)
    as -> by (destruct (queue_get q hold_id); exact HD).
  destruct (approval_request_expired D (qg_now_unix g)); simpl; unfold deadline_of.
  - destruct (queue_remove_wf q hold_id Hwf) as [Hwf' ->]. done.
  - match goal with |- context [enqueue q ?p] => pose proof (enqueue_get q p) as Hg; pose proof (enqueue_wf q p Hwf) end.
    split_and!; [done|done|done|]. change (pa_request_id _) with hold_id in Hg. by rewrite Hg.
Qed.

Lemma undecided_passes gs : ∀ q c D x,
  Forall undecided gs → queue_wf q → parse_rfc3339_to_unix D = Some x →
  Forall (λ g, g.(qg_now_unix) < x)%Z gs → deadline_of q = Some D →
  let '(ds, q', _) := gate_passes gs q c in
  Forall (λ d, d = Pending hold_id) ds ∧ deadline_of q' = Some D ∧ queue_wf q'.
Proof.
  induction gs as [|g gs IH]; simpl; intros q c D x Hu Hwf Hx Hlt HD; [done|].
  apply Forall_cons in Hu as [Hg Hu]. apply Forall_cons in Hlt as [Hl Hlt].
  pose proof (undecided_step g q c D Hg Hwf (f_equal (default _) HD)) as Hs.
  destruct (queue_evaluate _ _ _ _) as [d [g' c']]. destruct Hs as (Hwf' & -> & Hs).
  unfold approval_request_expired in Hs. rewrite Hx in Hs. rewrite (proj2 (Z.leb_gt _ _) Hl) in Hs. destruct Hs as [-> HD'].
  specialize (IH (qg_queue g') c D x Hu Hwf' Hx Hlt HD').
  destruct (gate_passes gs _ c) as [[ds q'] c2]. destruct IH as (Hds & ? & ?). simpl. split_and!; [by constructor|done|done].
Qed.

(** C33: the approval window never slides.  Whatever expiry each later pass would stamp,
    an undecided hold keeps the deadline of the pass that first queued it: every pass
    before it leaves the task pending, and the first pass at or after it expires the
    hold and removes it from the queue. *)
Theorem approval_window_never_slides g gs h q c x :
  queue_wf q → deadline_of q = None → parse_rfc3339_to_unix g.(qg_expires_at) = Some x →
  Forall undecided (g :: gs ++ [h]) → Forall (λ g, g.(qg_now_unix) < x)%Z (g :: gs) → (x ≤ h.(qg_now_unix))%Z →
  let '(ds, q', c') := gate_passes (g :: gs) q c in
  Forall (λ d, d = Pending hold_id) ds ∧ deadline_of q' = Some g.(qg_expires_at) ∧
  let '(d, (h', _)) := queue_evaluate now task action (set_queue h q', c') in
  d = ApprovalExpired hold_id ∧ deadline_of h'.(qg_queue) = None.
Proof.
  intros Hwf Hn Hx [Hg [Hgs Hh]%Forall_app]%Forall_cons [Hl Hlt]%Forall_cons Hle.
  rewrite Forall_singleton in Hh. simpl.
  pose proof (undecided_step g q c _ Hg Hwf (f_equal (default _) Hn)) as Hs.
  destruct (queue_evaluate _ _ _ (set_queue g q, c)) as [d [g' c']]. destruct Hs as (Hwf' & -> & Hs).
  unfold approval_request_expired in Hs. simpl in Hs. rewrite Hx, (proj2 (Z.leb_gt _ _) Hl) in Hs. destruct Hs as [-> HD'].
  pose proof (undecided_passes gs (qg_queue g') c _ x Hgs Hwf' Hx Hlt HD') as Hp.
  destruct (gate_passes gs _ c) as [[ds q'] c2]. destruct Hp as (Hds & HD & Hwq).
  simpl. split_and!; [by constructor|done|].
  pose proof (undecided_step h q' c2 (qg_expires_at g) Hh Hwq (f_equal (default _) HD)) as Hs.
  destruct (queue_evaluate _ _ _ _) as [d [h' c3]]. destruct Hs as (_ & _ & Hs).
  unfold approval_request_expired in Hs. by rewrite Hx, (proj2 (Z.leb_le _ _) Hle) in Hs.
Qed.

(** An approving decision whose nonce is already spent holds the task pending and
    restarts its window: the queued deadline becomes the one this pass would stamp,
    whatever was queued before and however long ago it passed.  Only an undecided hold
    can expire, so a task whose one approval was consumed by a pass that then failed
    waits as long as that decision is in the scan window. *)
Theorem spent_approval_restarts_window g q cache d nonce expires err cache' :
  g.(qg_resolve_decision) hold_id = Some d → decision_permits_spawn d = true → g.(qg_attached) = true →
  d.(apd_nonce) = Some nonce → d.(apd_expires_at) = Some expires → burn now nonce expires cache = (Err err, cache') →
  let '(o, (g', _)) := queue_evaluate now task action (set_queue g q, Some cache) in
  o = Pending hold_id ∧ deadline_of g'.(qg_queue) = Some g.(qg_expires_at).
Proof.
  intros Hd Hp Ha Hn He Hb. unfold queue_evaluate, admit_decision_nonce, attached_cache. simpl. fold hold_id.
  rewrite Hd, Hp, Ha, Hn, He, Hb. simpl. split; [done|]. unfold deadline_of.
  match goal with |- context [enqueue q ?p] => pose proof (enqueue_get q p) as Hg end.
  change (pa_request_id _) with hold_id in Hg. by rewrite Hg.
Qed.
End window.

(** ** Witnesses *)

Module Sample.
#[local] Existing Instance Signing.Toy.toy_crypto.
Definition key_id : string := "k".
Definition signed_auth : TaskActionAuthorization :=
  match sign_task_action (H := Signing.Toy.toy_crypto) tt key_id "t1" Signing.Toy.action "@a:s" "agent-b"
          "2026-01-01T00:00:00Z" "2026-01-02T00:00:00Z" "n1" with
  | Ok auth => auth
  | Err _ => Signing.Toy.auth
  end.
Definition action : TaskAction := with_authorization Signing.Toy.action signed_auth.
Definition task : TaskState :=
  build_new_task (TaskLifecycle.Sample.create (Some action)) "t1" "@a:s" "2026-01-01T00:00:00Z".
Definition agent_policy : AgentPolicy :=
  {| ag_allow_exec := true; ag_allow_tools := []; ag_allow_commands := ["ls"]; ag_allow_cwd := ["/work"];
     ag_deny_args_regex := []; ag_max_runtime_ms := None; ag_max_output_bytes := None; ag_requires_approval := true;
     ag_sandbox := None; ag_network := None; ag_max_processes := None; ag_max_memory_bytes := None;
     ag_max_cpu_seconds := None; ag_seccomp := None; ag_require_verified_device := false |}.
Definition policy : Policy :=
  mkPolicy ExecutionPolicy_default
    {["!r" := {| rm_trusted := true; rm_raw_exec_default := None; rm_require_verified_device := false;
                 rm_approvers := []; rm_agents := {["@a:s" := agent_policy]} |}]}.
Definition self : TaskOrchestrator (H := Signing.Toy.toy_crypto) :=
  {| to_agent_id := "agent-b"; to_room_id := Some "!r"; to_policy := Some policy;
     to_trust_store := Some (approve [] 0%Z "@a:s" key_id None None None).1; to_verifying_keys := {[key_id := tt]} |}.
(** A store whose claim is lost to another writer when [true]. *)
#[export] Instance racing_store : TaskStore bool :=
  {| claim _ (lost : bool) := (if lost then Err (StaleClaim "t1" 1 2) else Ok task, lost); finalize _ (lost : bool) := (Ok task, lost) |}.
Definition decision : ApprovalDecision :=
  {| apd_request_id := "approval:t1"; apd_decision := DECISION_APPROVED; apd_approved_by := "@op:s";
     apd_created_at := "2026-01-01T00:00:00Z"; apd_nonce := Some "dn"; apd_expires_at := Some "2026-01-02T00:00:00Z";
     apd_signature := None; apd_extra := ∅ |}.
Definition gate (expires_at : string) (now : Z) (d : option ApprovalDecision) : QueueApprovalGate :=
  {| qg_room_id := "!r"; qg_target_agent := "agent-b"; qg_expires_at := expires_at; qg_now_unix := now;
     qg_queue := []; qg_attached := true; qg_last_admitted := None; qg_resolve_decision := λ _, d |}.
Definition guard : Guard := {| g_fs := mkFs Absent None; g_cache := mkCache 4 ∅; g_io := [] |}.
Definition outcome_of (t : TaskState) (a : TaskAction) (inv : string) (al : Allowance) :
    result TaskExecutionResult TaskDispatchError :=
  Ok {| xr_exit_code := Some 0%Z; xr_summary := "done"; xr_artifact_mxc := None |}.
Definition world (lost : bool) : World (Disp := list TaskAction) (Cache := Guard) :=
  {| w_store := lost; w_dispatcher := []; w_gate := Some (gate "2026-01-01T12:00:00Z" 1000 (Some decision));
     w_cache := Some guard |}.
Definition pass (now : Z) : Pass (Store := bool) (Gate := QueueApprovalGate) :=
  {| ps_self := self; ps_now := "2026-01-01T00:00:00Z"; ps_now_unix := now; ps_task := task; ps_all := [task];
     ps_inv := "inv"; ps_store := false; ps_gate := Some (gate "2026-01-01T12:00:00Z" now (Some decision)) |}.
End Sample.

Section orchestrator_witnesses.
#[local] Existing Instance Signing.Toy.toy_crypto.
#[local] Instance sample_guard : NonceGuard Guard := cache_guard sample_iter (λ _, "").
#[local] Instance sample_laws : NonceGuardLaws Guard :=
  cache_guard_laws sample_iter (λ m, reflexivity _) (λ _, "").
#[local] Existing Instance Sample.racing_store.
#[local] Instance sample_dispatcher : TaskDispatcher (list TaskAction) := log_dispatcher Sample.outcome_of.
Abbreviation sample_process := (process_one (λ _, None) PolicyEngine.Sample.literal_regex id Sample.self
  "2026-01-01T00:00:00Z" 1000 Sample.task [Sample.task] "inv").

Lemma dispatch_only_when_authorized_witness :
  ∃ action allowance claimed,
    dispatch_authorized (λ _, None) PolicyEngine.Sample.literal_regex Sample.self 1000 Sample.task [Sample.task] "inv"
      (Sample.world false) action allowance claimed ∧
    (sample_process (Sample.world false)).2.(w_dispatcher) = [action].
Proof.
  destruct (sample_process (Sample.world false)) as [o w'] eqn:E.
  destruct (dispatch_only_when_authorized _ _ _ _ _ _ _ _ _ _ _ _ E) as [Hd|(a & al & t & Hda & Hd)].
  - exfalso. apply (f_equal (λ x, length x.2.(w_dispatcher))) in E. simpl in E. rewrite Hd in E.
    vm_compute in E. discriminate E.
  - exists a, al, t. split; [exact Hda|exact Hd].
Defined.

Lemma lost_claim_can_retry_witness :
  (sample_process (Sample.world true)).1 = OStaleClaim "t1" ∧
  (sample_process (Sample.world true)).2.(w_dispatcher) = [].
Proof.
  destruct (sample_process (Sample.world true)) as [o w'] eqn:E.
  assert (o = OStaleClaim "t1") as ->.
  { apply (f_equal fst) in E. vm_compute in E. by symmetry. }
  split; [reflexivity|].
  assert (room_for Sample.guard 2) as Hr by (split; simpl; [lia|]; rewrite map_size_empty; lia).
  exact (proj1 (lost_claim_can_retry _ _ _ _ _ _ _ _ _ _ _ _ Sample.guard E eq_refl Hr)).
Defined.

Lemma authorization_runs_at_most_once_witness :
  ∃ log oc, run_passes (λ _, None) PolicyEngine.Sample.literal_regex id Sample.outcome_of
      [Sample.pass 1000; Sample.pass 2000] [] (Some Sample.guard) = (log, oc) ∧
    map token log = [Some ("n1", "2026-01-02T00:00:00Z")] ∧ NoDup (map token log).
Proof.
  destruct (run_passes (λ _, None) PolicyEngine.Sample.literal_regex id Sample.outcome_of
      [Sample.pass 1000; Sample.pass 2000] [] (Some Sample.guard)) as [log oc] eqn:E.
  exists log, oc. split; [reflexivity|]. split.
  - apply (f_equal (λ x, map token x.1)) in E. simpl in E. rewrite <- E. vm_compute. reflexivity.
  - assert (room_for Sample.guard 4) as Hr by (split; simpl; [lia|]; rewrite map_size_empty; lia).
    assert (clock_from 0 [Sample.pass 1000; Sample.pass 2000]) as Hck by (simpl; lia).
    exact (authorization_runs_at_most_once _ _ _ _ _ 0 Sample.guard log oc Hck Hr E).
Defined.

Lemma recovery_updates_only_orphans_witness :
  let executing := apply_update Sample.task (claim_options "agent-b" Sample.task "inv-1") "now" None in
  let w := {| w_store := []; w_dispatcher := []; w_gate := Some (Sample.gate "" 0 None); w_cache := Some Sample.guard |} in
  ∃ w' u, reconcile_executing_tasks (Disp := list TaskAction) (TaskStore0 := log_store (λ _, Ok executing)) id Sample.self "now"
      [Sample.task; executing] ∅ ∅ w = ([ORecoveredStale "t1"], w') ∧
    w'.(w_store) = [u] ∧ recovers Sample.self ∅ ∅ [Sample.task; executing] u.
Proof.
  intros executing w.
  destruct (reconcile_executing_tasks (Disp := list TaskAction) (TaskStore0 := log_store (λ _, Ok executing)) id Sample.self "now"
      [Sample.task; executing] ∅ ∅ w) as [os w'] eqn:E.
  assert (os = [ORecoveredStale "t1"]) as -> by (apply (f_equal fst) in E; vm_compute in E; by symmetry).
  assert (∃ u, w'.(w_store) = [u]) as [u Hu].
  { apply (f_equal (λ x, x.2.(w_store))) in E. simpl in E. rewrite <- E. eexists. vm_compute. reflexivity. }
  exists w', u. split; [done|]. split; [done|].
  destruct (recovery_updates_only_orphans id (λ _, Ok executing) Sample.self "now" ∅ ∅ _ w _ _ E)
    as (_ & _ & _ & _ & Hin).
  destruct (Hin u) as [Hn|Hr]; [rewrite Hu; left|by apply elem_of_nil in Hn|exact Hr].
Defined.

Lemma approval_window_never_slides_witness :
  let '(ds, q', c') := gate_passes Sample.task Sample.action 0
    [Sample.gate "2026-01-01T12:00:00Z" 1767268799 None; Sample.gate "2026-01-01T13:00:00Z" 1767268799 None]
    [] (Some Sample.guard) in
  Forall (λ d, d = Pending (hold_id Sample.task)) ds ∧ deadline_of Sample.task q' = Some "2026-01-01T12:00:00Z" ∧
  let '(d, (h', _)) := queue_evaluate 0 Sample.task Sample.action
    (set_queue (Sample.gate "2026-01-01T14:00:00Z" 1767268800 None) q', c') in
  d = ApprovalExpired (hold_id Sample.task) ∧ deadline_of Sample.task h'.(qg_queue) = None.
Proof.
  apply (approval_window_never_slides Sample.task Sample.action 0
    (Sample.gate "2026-01-01T12:00:00Z" 1767268799 None) [Sample.gate "2026-01-01T13:00:00Z" 1767268799 None]
    (Sample.gate "2026-01-01T14:00:00Z" 1767268800 None) [] (Some Sample.guard) 1767268800).
  - apply NoDup_nil_2.
  - reflexivity.
  - vm_compute. reflexivity.
  - repeat constructor.
  - repeat constructor.
  - simpl. lia.
Defined.

Lemma spent_approval_restarts_window_witness :
  let '(o, (g', _)) := queue_evaluate 1767312000 Sample.task Sample.action
    (set_queue (Sample.gate "2026-01-02T12:00:00Z" 1767312000 (Some Sample.decision)) [], Some Sample.guard) in
  o = Pending (hold_id Sample.task) ∧ deadline_of Sample.task g'.(qg_queue) = Some "2026-01-02T12:00:00Z".
Proof.
  assert (∃ err c', burn 1767312000 "dn" "2026-01-02T00:00:00Z" Sample.guard = (Err err, c')) as (err & c' & Hb)
    by (do 2 eexists; vm_compute; reflexivity).
  exact (spent_approval_restarts_window Sample.task Sample.action 1767312000
    (Sample.gate "2026-01-02T12:00:00Z" 1767312000 (Some Sample.decision)) [] Sample.guard Sample.decision
    "dn" "2026-01-02T00:00:00Z" err c' eq_refl eq_refl eq_refl eq_refl eq_refl Hb).
Defined.
End orchestrator_witnesses.
