(* ===== verification/TaskGraph.v ===== *)
(** * Task dependency graph

    Models [crates/mx-agent-daemon/src/task_graph.rs]: building the graph, the
    three-colour depth-first search for dependency cycles with its explicit stack, and
    the text rendering.  An indexing or [unwrap] that would panic is [None]; so is
    running out of fuel, and the theorems show neither happens. *)
From Stdlib Require Import ZArith.
From stdpp Require Import gmap strings list relations.
From S2P Require Import Prelude RustStr Schema.

(** ** Building the graph *)

Record GraphNode := { gn_task_id : string; gn_state : string; gn_depends_on : list string }.
(** [GraphEdge { from, to }], ordered lexicographically as derived. *)
Record GraphEdge := { ge_from : string; ge_to : string }.
#[export] Instance GraphEdge_eq_dec : EqDecision GraphEdge.
Proof. solve_decision. Defined.
#[export] Instance GraphEdge_countable : Countable GraphEdge.
Proof.
  refine (inj_countable' (λ e, (e.(ge_from), e.(ge_to))) (λ p, {| ge_from := p.1; ge_to := p.2 |}) _). by intros [].
Defined.
Definition edge_le (x y : GraphEdge) : Prop :=
  if decide (x.(ge_from) = y.(ge_from)) then String.le x.(ge_to) y.(ge_to) else String.le x.(ge_from) y.(ge_from).
#[export] Instance edge_le_dec : RelDecision edge_le.
Proof. intros x y. unfold edge_le. destruct (decide _); apply _. Defined.

(** [TaskGraph], less the warnings attached by [with_diagnostics]. *)
Record TaskGraph := {
  tg_nodes : list GraphNode;
  tg_edges : list GraphEdge;
  tg_roots : list string;
  tg_cycles : list (list string);
}.

Definition present_ids (tasks : list TaskState) : gset string := list_to_set (map ts_task_id tasks).
Definition present_deps (present : gset string) (task : TaskState) : list string :=
  List.filter (λ dep, bool_decide (dep ∈ present)) task.(ts_depends_on).

(** [Vec::dedup]: consecutive repeats. *)
Fixpoint dedup (l : list string) : list string :=
  match l with
  | x :: (y :: _) as l' => if x =s y then dedup l' else x :: dedup l'
  | _ => l
  end.

(** ** Cycle detection *)

Inductive Color := White | Gray | Black.
#[export] Instance Color_eq_dec : EqDecision Color.
Proof. solve_decision. Defined.

(** [deps]: the adjacency built by [entry(..).or_default()] and pushes. *)
Definition build_deps (tasks : list TaskState) (present : gset string) : gmap string (list string) :=
  foldl (λ deps task,
    <[task.(ts_task_id) := default [] (deps !! task.(ts_task_id)) ++ present_deps present task]> deps) ∅ tasks.

(** The search state; the stack is kept top first. *)
Record Dfs := {
  dfs_color : gmap string Color;
  dfs_stack : list (string * nat);
  dfs_cycles : list (list string);
}.

Section search.
Context (deps : gmap string (list string)).

(** One turn of the [while let] loop, on the frame [(node, idx)] over [rest]. *)
Definition dfs_step (color : gmap string Color) (node : string) (idx : nat) (rest : list (string * nat))
    (cycles : list (list string)) : option Dfs :=
  adj ← deps !! node;
  match adj !! idx with
  | Some next =>
      let stack := (node, S idx) :: rest in
      c ← color !! next;
      match c with
      | White => Some {| dfs_color := <[next := Gray]> color; dfs_stack := (next, 0) :: stack; dfs_cycles := cycles |}
      | Gray =>
          let ids := reverse stack.*1 in
          pos ← position (λ n, n =s next) ids;
          Some {| dfs_color := color; dfs_stack := stack; dfs_cycles := cycles ++ [drop pos ids ++ [next]] |}
      | Black => Some {| dfs_color := color; dfs_stack := stack; dfs_cycles := cycles |}
      end
  | None => Some {| dfs_color := <[node := Black]> color; dfs_stack := rest; dfs_cycles := cycles |}
  end.
Fixpoint dfs_run (fuel : nat) (s : Dfs) : option Dfs :=
  match s.(dfs_stack) with
  | [] => Some s
  | (node, idx) :: rest =>
      match fuel with
      | O => None
      | S fuel => dfs_step s.(dfs_color) node idx rest s.(dfs_cycles) ≫= dfs_run fuel
      end
  end.

(** Every node costs its visit, each of its edges, and its pop. *)
Definition dfs_fuel : nat := sum_list_with (λ k, 2 + length (default [] (deps !! k))) (btree_keys deps).

(** The body of [for &start in deps.keys()]; between two starts the stack is empty. *)
Definition dfs_start (start : string) (s : Dfs) : option Dfs :=
  c ← s.(dfs_color) !! start;
  match c with
  | White => dfs_run dfs_fuel
      {| dfs_color := <[start := Gray]> s.(dfs_color); dfs_stack := [(start, 0)]; dfs_cycles := s.(dfs_cycles) |}
  | _ => Some s
  end.
Fixpoint dfs_all (starts : list string) (s : Dfs) : option Dfs :=
  match starts with
  | [] => Some s
  | start :: starts => dfs_start start s ≫= dfs_all starts
  end.
End search.

Definition detect_cycles (tasks : list TaskState) (present : gset string) : option (list (list string)) :=
  let deps := build_deps tasks present in
  dfs_cycles <$> dfs_all deps (btree_keys deps)
    {| dfs_color := (λ _, White) <$> deps; dfs_stack := []; dfs_cycles := [] |}.

Definition task_node (t : TaskState) : GraphNode :=
  {| gn_task_id := t.(ts_task_id); gn_state := t.(ts_state); gn_depends_on := t.(ts_depends_on) |}.
Definition node_le (x y : GraphNode) : Prop := String.le x.(gn_task_id) y.(gn_task_id).
#[export] Instance node_le_dec : RelDecision node_le.
Proof. intros x y. unfold node_le. apply _. Defined.

Definition from_tasks (tasks : list TaskState) : option TaskGraph :=
  let present := present_ids tasks in
  let edges : gset GraphEdge :=
    list_to_set (t ← tasks; dep ← present_deps present t; [{| ge_from := dep; ge_to := t.(ts_task_id) |}]) in
  let roots := List.filter (λ t, match present_deps present t with [] => true | _ => false end) tasks in
  cycles ← detect_cycles tasks present;
  Some {| tg_nodes := sort_by node_le (map task_node tasks);
          tg_edges := sort_by edge_le (elements edges);
          tg_roots := dedup (sort_by String.le (map ts_task_id roots));
          tg_cycles := cycles |}.

(** ** Rendering *)

(** [render_node]; the returned text is what it appends to [out].  The connector is
    the source's [└─ ], in UTF-8. *)
Definition connector : string :=
  String (Ascii.ascii_of_nat 226) (String (Ascii.ascii_of_nat 148) (String (Ascii.ascii_of_nat 148)
    (String (Ascii.ascii_of_nat 226) (String (Ascii.ascii_of_nat 148) (String (Ascii.ascii_of_nat 128) " "))))).
Definition newline : string := String (Ascii.ascii_of_nat 10) "".
Fixpoint repeat_string (s : string) (n : nat) : string :=
  match n with O => "" | S n => s +:+ repeat_string s n end.
Definition render_line (states : gmap string string) (id : string) (depth : nat) : string :=
  let prefix := if decide (depth = 0) then "" else repeat_string " " (4 * depth - 2) +:+ connector in
  prefix +:+ id +:+ "  " +:+ default "" (states !! id) +:+ newline.
Fixpoint render_node (states : gmap string string) (children : gmap string (list string)) (fuel : nat)
    (id : string) (depth : nat) (path : list string) : option string :=
  match fuel with
  | O => None
  | S fuel =>
      let line := render_line states id depth in
      if bool_decide (id ∈ path) then Some line
      else
        kids ← foldr (λ child acc, s ← render_node states children fuel child (S depth) (path ++ [id]);
                                   rest ← acc; Some (s +:+ rest))
                 (Some "") (default [] (children !! id));
        Some (line +:+ kids)
  end.
Definition render_children (edges : list GraphEdge) : gmap string (list string) :=
  foldl (λ children e, <[e.(ge_from) := default [] (children !! e.(ge_from)) ++ [e.(ge_to)]]> children) ∅ edges.
(** [collect] into a map: a later node with the same id overrides. *)
Definition render_states (nodes : list GraphNode) : gmap string string :=
  foldl (λ m n, <[n.(gn_task_id) := n.(gn_state)]> m) ∅ nodes.
(** An active path holds distinct nodes, so [|nodes| + 2] levels are enough. *)
Definition render_text (g : TaskGraph) : option string :=
  let states := render_states g.(tg_nodes) in
  let children := render_children g.(tg_edges) in
  tree ← foldr (λ root acc, s ← render_node states children (2 + length g.(tg_nodes)) root 0 [];
                            rest ← acc; Some (s +:+ rest)) (Some "") g.(tg_roots);
  Some (tree +:+ foldr (λ cycle acc, "cycle detected: " +:+ str_join " -> " cycle +:+ newline +:+ acc) "" g.(tg_cycles)).

(** ** The dependency relation *)

(** [a] depends on [b], both present. *)
Definition depends (tasks : list TaskState) (a b : string) : Prop :=
  ∃ t, t ∈ tasks ∧ t.(ts_task_id) = a ∧ b ∈ t.(ts_depends_on) ∧ b ∈ present_ids tasks.

Definition adj (deps : gmap string (list string)) (v : string) : list string := default [] (deps !! v).

Lemma elem_of_present_deps present t b :
  b ∈ present_deps present t ↔ b ∈ t.(ts_depends_on) ∧ b ∈ present.
Proof.
  unfold present_deps. rewrite !list_elem_of_In, List.filter_In, bool_decide_eq_true. done.
Qed.

Lemma build_deps_adj tasks present a b :
  b ∈ adj (build_deps tasks present) a ↔
  ∃ t, t ∈ tasks ∧ t.(ts_task_id) = a ∧ b ∈ t.(ts_depends_on) ∧ b ∈ present.
Proof.
  unfold build_deps, adj. induction tasks as [|t tasks IH] using rev_ind; simpl.
  { rewrite lookup_empty. simpl. split; [by intros ?%elem_of_nil|by intros (t & ?%elem_of_nil & _)]. }
  rewrite foldl_app. simpl. setoid_rewrite elem_of_app. setoid_rewrite list_elem_of_singleton.
  destruct (decide (ts_task_id t = a)) as [<-|Hne].
  - rewrite lookup_insert_eq. simpl. rewrite elem_of_app, IH, elem_of_present_deps. split.
    + intros [(t0 & ? & ? & ? & ?)|[? ?]]; eauto 10.
    + intros (t0 & [?| ->] & ? & ? & ?); eauto 10.
  - rewrite lookup_insert_ne by done. rewrite IH. split.
    + intros (t0 & ? & ? & ? & ?); eauto 10.
    + intros (t0 & [?| ->] & ? & ? & ?); [eauto 10|done].
Qed.
Lemma build_deps_dom tasks present a :
  is_Some (build_deps tasks present !! a) ↔ a ∈ map ts_task_id tasks.
Proof.
  unfold build_deps. induction tasks as [|t tasks IH] using rev_ind; simpl.
  { rewrite lookup_empty. split; [by intros []|by intros ?%elem_of_nil]. }
  rewrite foldl_app, map_app, elem_of_app. simpl. rewrite list_elem_of_singleton, <- IH.
  destruct (decide (ts_task_id t = a)) as [<-|Hne].
  - rewrite lookup_insert_eq. naive_solver.
  - rewrite lookup_insert_ne by done. naive_solver.
Qed.
Lemma adj_depends tasks a b : b ∈ adj (build_deps tasks (present_ids tasks)) a ↔ depends tasks a b.
Proof. apply build_deps_adj. Qed.
Lemma build_deps_closed tasks v u :
  u ∈ adj (build_deps tasks (present_ids tasks)) v → is_Some (build_deps tasks (present_ids tasks) !! u).
Proof.
  intros (t & _ & _ & _ & Hu)%adj_depends. apply build_deps_dom. by apply elem_of_list_to_set in Hu.
Qed.

(** ** Cycles *)

Definition linked (R : string → string → Prop) (l : list string) : Prop :=
  ∀ i a b, l !! i = Some a → l !! S i = Some b → R a b.
(** A closed walk: the entry point is repeated at the end. *)
Definition is_cycle (R : string → string → Prop) (c : list string) : Prop :=
  ∃ x mid, c = x :: mid ++ [x] ∧ linked R c.

Lemma linked_reverse R l : linked (flip R) l → linked R (reverse l).
Proof.
  intros Hl i a b Ha Hb. pose proof (lookup_lt_Some _ _ _ Hb) as Hlt. rewrite length_reverse in Hlt.
  rewrite reverse_lookup in Ha, Hb by lia.
  eapply (Hl (length l - S (S i))); [done|]. replace (S (length l - S (S i))) with (length l - S i) by lia. done.
Qed.
Lemma linked_drop R l n : linked R l → linked R (drop n l).
Proof. intros Hl i a b. rewrite !lookup_drop, Nat.add_succ_r. apply Hl. Qed.
Lemma linked_snoc R l a x : linked R (l ++ [a]) → R a x → linked R ((l ++ [a]) ++ [x]).
Proof.
  intros Hl Hr i b c Hb Hc. apply lookup_snoc_Some in Hc as [[Hlt Hc]|[Hi ->]].
  - rewrite lookup_app_l in Hb by lia. by eapply Hl.
  - rewrite lookup_app_l in Hb by lia. rewrite length_app in Hi. simpl in Hi.
    replace i with (length l) in Hb by lia. rewrite lookup_app_r, Nat.sub_diag in Hb by lia. by simplify_eq/=.
Qed.

Lemma sum_list_with_ext (f g : string → nat) l :
  (∀ x, x ∈ l → f x = g x) → sum_list_with f l = sum_list_with g l.
Proof.
  induction l as [|y l IH]; simpl; intros Hfg; [done|]. rewrite (Hfg y) by left. f_equal. apply IH.
  intros x Hx. apply Hfg. by right.
Qed.
Lemma sum_list_with_update (f g : string → nat) l x :
  NoDup l → x ∈ l → (∀ y, y ≠ x → f y = g y) → sum_list_with g l + f x = sum_list_with f l + g x.
Proof.
  intros Hnd Hx Hfg. induction Hnd as [|y l Hy Hnd IH]; [by apply elem_of_nil in Hx|]. simpl.
  destruct (decide (y = x)) as [->|Hne].
  - rewrite (sum_list_with_ext f g l); [lia|]. intros z Hz. apply Hfg. by intros ->.
  - apply elem_of_cons in Hx as [?|Hx]; [done|]. rewrite (Hfg y) by done. specialize (IH Hx). lia.
Qed.

(** ** The search invariant *)

Section invariant.
Context (deps : gmap string (list string)).
Abbreviation adj := (adj deps).
Context (closed : ∀ v u, u ∈ adj v → is_Some (deps !! u)).
Definition edge (v u : string) : Prop := u ∈ adj v.

(** Each frame's node depends on the node of the frame above it. *)
Fixpoint frames (above : option string) (stk : list (string * nat)) : Prop :=
  match stk with
  | [] => True
  | (v, i) :: rest => i ≤ length (adj v) ∧ (∀ w, above = Some w → edge v w) ∧ frames (Some v) rest
  end.
(** What a frame has visited is finished, or is the frame above it. *)
Fixpoint explored (color : gmap string Color) (above : option string) (stk : list (string * nat)) : Prop :=
  match stk with
  | [] => True
  | (v, i) :: rest =>
      (∀ j u, j < i → adj v !! j = Some u → color !! u = Some Black ∨ above = Some u) ∧
      explored color (Some v) rest
  end.
(** Finished nodes are ranked below their dependents. *)
Definition ranked (color : gmap string Color) : Prop :=
  ∃ (rank : string → nat) n, ∀ v, color !! v = Some Black →
    rank v < n ∧ ∀ u, edge v u → color !! u = Some Black ∧ rank u < rank v.
Record dfs_inv (color : gmap string Color) (stk : list (string * nat)) (cycles : list (list string)) : Prop := {
  di_dom : ∀ v, is_Some (color !! v) ↔ is_Some (deps !! v);
  di_gray : ∀ v, color !! v = Some Gray ↔ v ∈ stk.*1;
  di_nodup : NoDup stk.*1;
  di_frames : frames None stk;
  di_cycles : Forall (is_cycle edge) cycles;
  di_clean : cycles = [] → explored color None stk ∧ ranked color;
}.

Definition cost (v : string) (i : nat) : nat := 1 + (length (adj v) - i).
Definition white_cost (color : gmap string Color) (k : string) : nat :=
  if decide (color !! k = Some White) then 1 + cost k 0 else 0.
Definition measure (color : gmap string Color) (stk : list (string * nat)) : nat :=
  sum_list_with (white_cost color) (btree_keys deps) + sum_list_with (λ f, cost f.1 f.2) stk.

Lemma frames_linked above stk : frames above stk → linked (flip edge) stk.*1.
Proof.
  revert above. induction stk as [|[v i] stk IH]; simpl; intros above Hf; [by intros j a b Ha|].
  destruct Hf as (_ & _ & Hf). intros [|j] a b Ha Hb; simpl in *; [|by eapply IH].
  simplify_eq. destruct stk as [|[w k] stk]; simpl in *; [done|]. simplify_eq. by apply Hf.
Qed.
Lemma explored_mono color color' above stk :
  (∀ u, color !! u = Some Black → color' !! u = Some Black) → explored color above stk → explored color' above stk.
Proof.
  intros Hm. revert above. induction stk as [|[v i] stk IH]; simpl; intros above; [done|].
  intros [He Hr]. split; [|by apply IH]. intros j u Hj Hu. destruct (He j u Hj Hu); auto.
Qed.
Lemma measure_recolor color v c stk :
  color !! v ≠ Some White → c ≠ White → measure (<[v := c]> color) stk = measure color stk.
Proof.
  intros Hv Hc. unfold measure. f_equal. apply sum_list_with_ext. intros k Hk. unfold white_cost.
  destruct (decide (k = v)) as [->|Hne]; [rewrite lookup_insert_eq|by rewrite lookup_insert_ne].
  by repeat case_decide; simplify_eq.
Qed.
Lemma measure_visit color v stk :
  is_Some (deps !! v) → color !! v = Some White →
  measure (<[v := Gray]> color) stk + (1 + cost v 0) = measure color stk.
Proof.
  intros Hd Hv. unfold measure.
  pose proof (sum_list_with_update (white_cost color) (white_cost (<[v := Gray]> color)) (btree_keys deps) v
    (NoDup_btree_keys _) ltac:(by apply elem_of_btree_keys)) as Hs.
  assert (white_cost color v = 1 + cost v 0) as Hw by (unfold white_cost; by rewrite decide_True).
  assert (white_cost (<[v := Gray]> color) v = 0) as Hg by (unfold white_cost; by rewrite lookup_insert_eq, decide_False).
  rewrite Hw, Hg in Hs. rewrite <- (Nat.add_0_r (sum_list_with (white_cost color) _)), <- Hs; [lia|].
  intros y Hy. unfold white_cost. by rewrite lookup_insert_ne.
Qed.
(** The back edge to a node on the stack closes a cycle. *)
Lemma back_edge_cycle node i rest next :
  frames None ((node, i) :: rest) → edge node next → next ∈ ((node, i) :: rest).*1 →
  ∃ pos, position (λ n, n =s next) (reverse ((node, i) :: rest).*1) = Some pos ∧
    is_cycle edge (drop pos (reverse ((node, i) :: rest).*1) ++ [next]).
Proof.
  intros Hf He Hin. set (ids := reverse _).
  assert (ids = reverse rest.*1 ++ [node]) as Hids by (unfold ids; simpl; by rewrite reverse_cons).
  assert (linked edge ids) as Hl by (apply linked_reverse; by eapply frames_linked).
  unfold position. destruct (find_idx (λ n, n =s next) ids) as [[pos n]|] eqn:E.
  2: { apply find_idx_None in E. rewrite Forall_forall in E. apply elem_of_reverse in Hin. apply E in Hin.
       by rewrite str_eqb_refl in Hin. }
  exists pos. split; [done|]. apply find_idx_Some in E as (Hpos & ->%str_eqb_eq & _).
  apply linked_drop with (n := pos) in Hl. rewrite (drop_S _ _ _ Hpos) in *.
  exists next, (drop (S pos) ids). split; [done|].
  assert (∃ l, next :: drop (S pos) ids = l ++ [node]) as [l Hlast].
  { rewrite <- (drop_S _ _ _ Hpos). exists (drop pos (reverse rest.*1)).
    rewrite Hids, drop_app_le; [done|]. apply lookup_lt_Some in Hpos. rewrite Hids, length_app in Hpos. simpl in Hpos. lia. }
  rewrite Hlast in Hl |- *. by apply linked_snoc.
Qed.

Lemma adj_lookup v i u : adj v !! i = Some u → edge v u ∧ i < length (adj v).
Proof. intros Hu. split; [by eapply list_elem_of_lookup_2|by eapply lookup_lt_Some]. Qed.

(** Advancing the top frame past a finished dependency, or past a recorded cycle. *)
Lemma advance_inv color node idx rest cycles cycles' next :
  dfs_inv color ((node, idx) :: rest) cycles → adj node !! idx = Some next →
  Forall (is_cycle edge) cycles' → (cycles' = [] → cycles = [] ∧ color !! next = Some Black) →
  dfs_inv color ((node, S idx) :: rest) cycles'.
Proof.
  intros [Hdom Hgray Hnd Hfr Hcy Hcl] Hn Hcy' Hclean. destruct (adj_lookup _ _ _ Hn) as [_ Hlt].
  split; [done|done|done| |done|].
  - destruct Hfr as (_ & ? & ?). by split_and!.
  - intros (Hc & Hb)%Hclean. destruct (Hcl Hc) as [[He Hr] Hrk]. split; [|done]. split; [|done].
    intros j u Hj Hu. destruct (decide (j = idx)) as [->|]; [|apply (He j); [lia|done]]. left. congruence.
Qed.
Lemma visit_inv color node idx rest cycles next :
  dfs_inv color ((node, idx) :: rest) cycles → adj node !! idx = Some next → color !! next = Some White →
  dfs_inv (<[next := Gray]> color) ((next, 0) :: (node, S idx) :: rest) cycles.
Proof.
  intros [Hdom Hgray Hnd Hfr Hcy Hcl] Hn Hw. destruct (adj_lookup _ _ _ Hn) as [Hed Hlt].
  assert (next ∉ ((node, idx) :: rest).*1) as Hnew by (rewrite <- Hgray, Hw; congruence).
  split; [| | | |done|].
  - intros v. destruct (decide (v = next)) as [->|]; [rewrite lookup_insert_eq|by rewrite lookup_insert_ne].
    split; [|by eexists]. intros _. by eapply closed.
  - intros v. rewrite !fmap_cons, elem_of_cons. simpl. destruct (decide (v = next)) as [->|Hne].
    + rewrite lookup_insert_eq. by split; [left|].
    + rewrite lookup_insert_ne, Hgray by done. simpl. set_solver.
  - by apply NoDup_cons.
  - destruct Hfr as (_ & ? & ?). simpl. split_and!; [lia|done|done|by intros ? [= <-]|done].
  - intros Hc. destruct (Hcl Hc) as [[He Hr] (rank & n & Hrk)].
    assert (∀ u, color !! u = Some Black → <[next:=Gray]> color !! u = Some Black) as Hm.
    { intros u Hu. rewrite lookup_insert_ne; [done|]. congruence. }
    split.
    + simpl. split; [intros j u Hj; lia|]. split; [|by eapply explored_mono].
      intros j u Hj Hu. destruct (decide (j = idx)) as [->|]; [right; congruence|].
      destruct (He j u ltac:(lia) Hu); [left; auto|done].
    + exists rank, n. intros v Hv. destruct (decide (v = next)) as [->|Hne]; [by rewrite lookup_insert_eq in Hv|].
      rewrite lookup_insert_ne in Hv by done. destruct (Hrk v Hv) as [? Hu]. split; [done|].
      intros u [? ?]%Hu. auto.
Qed.
Lemma finish_inv color node idx rest cycles :
  dfs_inv color ((node, idx) :: rest) cycles → adj node !! idx = None →
  dfs_inv (<[node := Black]> color) rest cycles.
Proof.
  intros [Hdom Hgray Hnd Hfr Hcy Hcl] Hn. apply lookup_ge_None in Hn.
  assert (color !! node = Some Gray) as Hg by (apply Hgray; left).
  simpl in Hnd. apply NoDup_cons in Hnd as [Hnin Hnd]. destruct Hfr as (Hle & _ & Hfr).
  split; [| |done| |done|].
  - intros v. destruct (decide (v = node)) as [->|]; [|by rewrite lookup_insert_ne].
    rewrite lookup_insert_eq, <- Hdom, Hg. by split; eexists.
  - intros v. destruct (decide (v = node)) as [->|Hne].
    + rewrite lookup_insert_eq. by split.
    + rewrite lookup_insert_ne, Hgray by done. simpl. rewrite elem_of_cons. naive_solver.
  - destruct rest as [|[w k] rest]; [done|]. destruct Hfr as (? & ? & ?). by split_and!.
  - intros Hc. destruct (Hcl Hc) as [[He Hr] (rank & n & Hrk)].
    assert (∀ u, color !! u = Some Black → <[node:=Black]> color !! u = Some Black) as Hm.
    { intros u Hu. rewrite lookup_insert_ne; [done|]. congruence. }
    assert (∀ u, edge node u → color !! u = Some Black) as Hdone.
    { intros u (j & Hj)%list_elem_of_lookup_1. destruct (He j u) as [?|?]; [|done|done|done].
      apply lookup_lt_Some in Hj. lia. }
    split.
    + apply (explored_mono _ _ _ _ Hm) in Hr. destruct rest as [|[w k] rest]; [done|]. destruct Hr as [Hr ?].
      split; [|done]. intros j u Hj Hu. left. destruct (Hr j u Hj Hu) as [?|[= ->]]; [done|apply lookup_insert_eq].
    + exists (λ v, if decide (v = node) then n else rank v), (S n). intros v Hv.
      assert (∀ u, color !! u = Some Black → u ≠ node) as Hne by congruence.
      destruct (decide (v = node)) as [->|Hvn].
      * split; [lia|]. intros u Hu%Hdone. split; [auto|]. rewrite decide_False by auto. by apply Hrk.
      * rewrite lookup_insert_ne in Hv by done. destruct (Hrk v Hv) as [? Hu]. split; [lia|].
        intros u [Hb ?]%Hu. split; [auto|]. by rewrite decide_False by auto.
Qed.
Lemma dfs_step_inv color node idx rest cycles :
  dfs_inv color ((node, idx) :: rest) cycles →
  ∃ s, dfs_step deps color node idx rest cycles = Some s ∧ dfs_inv s.(dfs_color) s.(dfs_stack) s.(dfs_cycles) ∧
    measure s.(dfs_color) s.(dfs_stack) < measure color ((node, idx) :: rest).
Proof.
  intros Hi. pose proof Hi as [Hdom Hgray _ Hfr Hcy _].
  assert (color !! node = Some Gray) as Hg by (apply Hgray; left).
  destruct (proj1 (Hdom node) ltac:(by rewrite Hg)) as [a Ha].
  assert (adj node = a) as Hadj by (unfold TaskGraph.adj; by rewrite Ha).
  unfold dfs_step. rewrite Ha. simpl. rewrite <- Hadj. destruct (adj node !! idx) as [next|] eqn:Hn.
  - destruct (adj_lookup _ _ _ Hn) as [Hed Hlt].
    destruct (proj2 (Hdom next) (closed _ _ Hed)) as [c Hc]. rewrite Hc. simpl.
    assert (measure color ((node, S idx) :: rest) < measure color ((node, idx) :: rest)) as Hm
      by (unfold measure, cost; simpl; lia).
    destruct c.
    + eexists. split; [done|]. split; [by eapply visit_inv|]. simpl.
      pose proof (measure_visit color next ((next, 0) :: (node, S idx) :: rest) (closed _ _ Hed) Hc) as Hv.
      unfold measure, cost in *. simpl in *. lia.
    + destruct (back_edge_cycle node (S idx) rest next) as (pos & Hp & Hcyc); [|done|by apply Hgray in Hc|].
      { destruct Hfr as (_ & ? & ?). by split_and!. }
      simpl in Hp, Hcyc. rewrite Hp. simpl. eexists. split; [done|]. split; [|done]. simpl.
      eapply advance_inv; [done|done| |]; [apply Forall_app; split; [done|by apply Forall_singleton]|].
      by intros []%app_nil.
    + eexists. split; [done|]. split; [|done]. by eapply advance_inv.
  - eexists. split; [done|]. split; [by eapply finish_inv|]. simpl.
    rewrite measure_recolor by (rewrite ?Hg; congruence). unfold measure, cost. simpl. lia.
Qed.

Lemma dfs_step_white color node idx rest cycles s v :
  dfs_step deps color node idx rest cycles = Some s → s.(dfs_color) !! v = Some White → color !! v = Some White.
Proof.
  unfold dfs_step. intros Hs Hv. destruct (deps !! node); [|done]. simpl in Hs.
  destruct (_ !! idx) as [next|].
  2: { simplify_eq/=. by apply lookup_insert_Some in Hv as [[_ ?]|[_ ?]]. }
  destruct (color !! next) as [[]|]; simpl in Hs; [|by destruct (position _ _); simplify_eq/=|by simplify_eq/=|done].
  simplify_eq/=. by apply lookup_insert_Some in Hv as [[_ ?]|[_ ?]].
Qed.
Lemma dfs_run_inv fuel : ∀ s,
  dfs_inv s.(dfs_color) s.(dfs_stack) s.(dfs_cycles) → measure s.(dfs_color) s.(dfs_stack) ≤ fuel →
  ∃ s', dfs_run deps fuel s = Some s' ∧ dfs_inv s'.(dfs_color) [] s'.(dfs_cycles) ∧
    ∀ v, s'.(dfs_color) !! v = Some White → s.(dfs_color) !! v = Some White.
Proof.
  induction fuel as [|fuel IH]; intros [color stk cycles]; simpl; intros Hi Hm;
    destruct stk as [|[node idx] rest]; try (eexists; by split_and!).
  - unfold measure, cost in Hm. simpl in Hm. lia.
  - destruct (dfs_step_inv _ _ _ _ _ Hi) as (s & Hs & Hi' & Hlt). rewrite Hs. simpl.
    destruct (IH s Hi' ltac:(lia)) as (s' & Hr & Hi'' & Hw). exists s'. split_and!; [done..|].
    intros v Hv%Hw. by eapply dfs_step_white.
Qed.
Lemma start_inv color cycles start :
  dfs_inv color [] cycles → is_Some (deps !! start) → color !! start = Some White →
  dfs_inv (<[start := Gray]> color) [(start, 0)] cycles.
Proof.
  intros [Hdom Hgray Hnd Hfr Hcy Hcl] Hd Hw. split; [| | | |done|].
  - intros v. destruct (decide (v = start)) as [->|]; [rewrite lookup_insert_eq|by rewrite lookup_insert_ne].
    by split; eauto.
  - intros v. simpl. rewrite list_elem_of_singleton. destruct (decide (v = start)) as [->|].
    + rewrite lookup_insert_eq. by split.
    + rewrite lookup_insert_ne, Hgray by done. simpl. by split; [intros ?%elem_of_nil|].
  - apply NoDup_singleton.
  - simpl. split_and!; [lia|done|done].
  - intros Hc. destruct (Hcl Hc) as [_ (rank & n & Hrk)]. split; [split; [intros; lia|done]|].
    exists rank, n. intros v Hv. apply lookup_insert_Some in Hv as [[_ ?]|[Hne Hv]]; [done|].
    destruct (Hrk v Hv) as [? Hu]. split; [done|]. intros u [Hb ?]%Hu. split; [|done].
    rewrite lookup_insert_ne; [done|]. congruence.
Qed.
Lemma measure_le_fuel color : measure color [] ≤ dfs_fuel deps.
Proof.
  unfold measure, dfs_fuel. simpl. rewrite Nat.add_0_r. induction (btree_keys deps) as [|k l IH]; simpl; [done|].
  unfold white_cost at 1, cost, TaskGraph.adj. case_decide; lia.
Qed.
Lemma dfs_start_inv start s :
  dfs_inv s.(dfs_color) [] s.(dfs_cycles) → is_Some (deps !! start) →
  ∃ s', dfs_start deps start s = Some s' ∧ dfs_inv s'.(dfs_color) [] s'.(dfs_cycles) ∧
    s'.(dfs_color) !! start ≠ Some White ∧
    ∀ v, s'.(dfs_color) !! v = Some White → s.(dfs_color) !! v = Some White.
Proof.
  intros Hi Hd. unfold dfs_start. destruct (proj2 (di_dom _ _ _ Hi start) Hd) as [c Hc]. rewrite Hc. simpl.
  destruct c; [|exists s; by rewrite Hc..].
  destruct (dfs_run_inv (dfs_fuel deps)
    {| dfs_color := <[start := Gray]> s.(dfs_color); dfs_stack := [(start, 0)]; dfs_cycles := s.(dfs_cycles) |})
    as (s' & -> & Hi' & Hw); simpl in *.
  - by apply start_inv.
  - pose proof (measure_visit (dfs_color s) start [(start, 0)] Hd Hc) as Hm.
    pose proof (measure_le_fuel (dfs_color s)). unfold measure, cost in *. simpl in *. lia.
  - exists s'. split_and!; [done..| |].
    + intros Hv%Hw. by rewrite lookup_insert_eq in Hv.
    + intros v Hv%Hw. by apply lookup_insert_Some in Hv as [[_ ?]|[_ ?]].
Qed.
Lemma dfs_all_inv starts : ∀ s,
  dfs_inv s.(dfs_color) [] s.(dfs_cycles) → Forall (λ k, is_Some (deps !! k)) starts →
  ∃ s', dfs_all deps starts s = Some s' ∧ dfs_inv s'.(dfs_color) [] s'.(dfs_cycles) ∧
    (∀ v, s'.(dfs_color) !! v = Some White → s.(dfs_color) !! v = Some White) ∧
    ∀ v, v ∈ starts → s'.(dfs_color) !! v ≠ Some White.
Proof.
  induction starts as [|start starts IH]; simpl; intros s Hi Hd.
  { exists s. split_and!; [done..|]. by intros v ?%elem_of_nil. }
  apply Forall_cons in Hd as [Hd Hds]. destruct (dfs_start_inv start s Hi Hd) as (s1 & -> & Hi1 & Hst & Hw1). simpl.
  destruct (IH s1 Hi1 Hds) as (s2 & -> & Hi2 & Hw2 & Hn2). exists s2. split_and!; [done..|auto|].
  intros v [->|Hv]%elem_of_cons; auto.
Qed.

(** The whole search: no panic, enough fuel, only real cycles, and a ranking of all
    nodes when it reports none. *)
Lemma dfs_correct :
  ∃ s, dfs_all deps (btree_keys deps) {| dfs_color := (λ _, White) <$> deps; dfs_stack := []; dfs_cycles := [] |} = Some s ∧
    Forall (is_cycle edge) s.(dfs_cycles) ∧
    (s.(dfs_cycles) = [] → ∃ rank : string → nat, ∀ v u, edge v u → rank u < rank v).
Proof.
  destruct (dfs_all_inv (btree_keys deps) {| dfs_color := (λ _, White) <$> deps; dfs_stack := []; dfs_cycles := [] |})
    as (s & Hs & Hi & _ & Hn); simpl.
  - split; simpl; try done.
    + intros v. by rewrite lookup_fmap, fmap_is_Some.
    + intros v. rewrite lookup_fmap. split; [by destruct (deps !! v)|by intros ?%elem_of_nil].
    + apply NoDup_nil_2.
    + intros _. split; [done|]. exists (λ _, 0), 0. intros v. rewrite lookup_fmap. by destruct (deps !! v).
  - apply Forall_forall. intros k. by rewrite elem_of_btree_keys.
  - exists s. split; [done|]. split; [apply Hi|]. intros Hc. destruct (di_clean _ _ _ Hi Hc) as [_ (rank & n & Hrk)].
    exists rank. intros v u Hed.
    assert (is_Some (deps !! v)) as Hv.
    { unfold edge, TaskGraph.adj in Hed. destruct (deps !! v); [done|]. by apply elem_of_nil in Hed. }
    destruct (proj2 (di_dom _ _ _ Hi v) Hv) as [c Hcv]. apply elem_of_btree_keys, Hn in Hv.
    destruct c; [done| |by apply (Hrk v Hcv)].
    apply (di_gray _ _ _ Hi) in Hcv. by apply elem_of_nil in Hcv.
Qed.
End invariant.

Lemma linked_tc R x mid y : linked R (x :: mid ++ [y]) → tc R x y.
Proof.
  revert x. induction mid as [|z mid IH]; intros x Hl; [apply tc_once, (Hl 0); done|].
  eapply tc_l; [by apply (Hl 0)|]. apply IH. intros i a b. apply (Hl (S i)).
Qed.

Lemma detect_cycles_spec tasks :
  ∃ cs, detect_cycles tasks (present_ids tasks) = Some cs ∧
    Forall (is_cycle (depends tasks)) cs ∧ (cs = [] ↔ ∀ x, ¬ tc (depends tasks) x x).
Proof.
  destruct (dfs_correct (build_deps tasks (present_ids tasks)) (build_deps_closed tasks)) as (s & Hs & Hc & Hrank).
  assert (∀ c, is_cycle (edge (build_deps tasks (present_ids tasks))) c → is_cycle (depends tasks) c) as Hcyc.
  { intros c (x & mid & -> & Hl). exists x, mid. split; [done|]. intros i a b Ha Hb. by eapply adj_depends, Hl. }
  exists s.(dfs_cycles). unfold detect_cycles. rewrite Hs. split; [done|]. split; [by eapply Forall_impl|]. split.
  - intros (rank & Hr)%Hrank x Hx.
    assert (∀ a b, tc (depends tasks) a b → rank b < rank a) as Hdec.
    { induction 1 as [a b Hab|a b c Hab _ IH]; apply adj_depends, Hr in Hab; lia. }
    apply Hdec in Hx. lia.
  - intros Hac. destruct s.(dfs_cycles) as [|c cs]; [done|]. apply Forall_cons in Hc as [(x & mid & -> & Hl)%Hcyc _].
    by apply linked_tc, Hac in Hl.
Qed.

(** C32: cycle detection is total (no panic, and it ends), every reported cycle is a
    closed walk of dependencies between present tasks, and it reports none exactly
    when the dependency graph is acyclic. *)
Theorem cycle_detection_correct tasks :
  ∃ cs, detect_cycles tasks (present_ids tasks) = Some cs ∧
    Forall (is_cycle (depends tasks)) cs ∧ (cs = [] ↔ ∀ x, ¬ tc (depends tasks) x x).
Proof. apply detect_cycles_spec. Qed.

(** ** Edges, roots and rendering *)

Lemma elem_of_dedup l x : x ∈ dedup l ↔ x ∈ l.
Proof.
  induction l as [|y l IH]; simpl; [done|]. destruct l as [|z l]; [done|].
  destruct (y =s z) eqn:E.
  - apply str_eqb_eq in E as ->. rewrite IH, (elem_of_cons (z :: l)). set_solver.
  - rewrite !(elem_of_cons _ x y), IH. done.
Qed.
Lemma render_children_spec edges from :
  ∀ to, to ∈ default [] (render_children edges !! from) ↔ {| ge_from := from; ge_to := to |} ∈ edges.
Proof.
  unfold render_children. induction edges as [|e edges IH] using rev_ind; intros to; simpl.
  { rewrite lookup_empty. simpl. by rewrite !elem_of_nil. }
  rewrite foldl_app, elem_of_app, <- IH. simpl. rewrite list_elem_of_singleton.
  destruct (decide (e.(ge_from) = from)) as [<-|Hne].
  - rewrite lookup_insert_eq. simpl. rewrite elem_of_app, list_elem_of_singleton. destruct e; simpl. naive_solver.
  - rewrite lookup_insert_ne by done. destruct e; simpl in *. naive_solver.
Qed.

Section render.
Context (states : gmap string string) (children : gmap string (list string)) (ids : list string).
Context (children_in : ∀ v c, c ∈ default [] (children !! v) → c ∈ ids).

Lemma render_kids_total (f : string → option string) kids :
  (∀ c, c ∈ kids → is_Some (f c)) →
  is_Some (foldr (λ child acc, s ← f child; rest ← acc; Some (s +:+ rest)) (Some "") kids).
Proof.
  induction kids as [|c kids IH]; simpl; intros Hf; [by eexists|].
  destruct (Hf c) as [s ->]; [left|]. destruct IH as [r ->]; [intros; apply Hf; by right|]. by eexists.
Qed.
Lemma render_node_total fuel : ∀ id depth path,
  NoDup path → path ⊆ ids → id ∈ ids → 2 + length ids ≤ fuel + length path →
  is_Some (render_node states children fuel id depth path).
Proof.
  induction fuel as [|fuel IH]; simpl; intros id depth path Hnd Hsub Hid Hlen.
  { assert (length path ≤ length ids); [|lia]. apply submseteq_length, NoDup_submseteq; [done|]. exact Hsub. }
  case_bool_decide as Hin; [by eexists|].
  destruct (render_kids_total (λ child, render_node states children fuel child (S depth) (path ++ [id]))
    (default [] (children !! id))) as [s ->]; [|by eexists].
  intros c Hc. apply IH.
  - apply NoDup_app. split_and!; [done| |apply NoDup_singleton]. intros x Hx ->%list_elem_of_singleton. done.
  - intros x [Hx| ->%list_elem_of_singleton]%elem_of_app; auto.
  - by eapply children_in.
  - rewrite length_app. simpl. lia.
Qed.
End render.

(** The fields of the graph are what its documentation says. *)
Record graph_of (tasks : list TaskState) (g : TaskGraph) : Prop := {
  go_nodes : map gn_task_id g.(tg_nodes) ≡ₚ map ts_task_id tasks;
  go_edges : ∀ a b, {| ge_from := a; ge_to := b |} ∈ g.(tg_edges) ↔ depends tasks b a;
  go_roots : ∀ x, x ∈ g.(tg_roots) ↔
    ∃ t, t ∈ tasks ∧ t.(ts_task_id) = x ∧ ∀ d, d ∈ t.(ts_depends_on) → d ∉ present_ids tasks;
}.
Lemma edges_spec tasks a b :
  {| ge_from := a; ge_to := b |} ∈
    (t ← tasks; dep ← present_deps (present_ids tasks) t; [{| ge_from := dep; ge_to := t.(ts_task_id) |}])
  ↔ depends tasks b a.
Proof.
  rewrite list_elem_of_bind. setoid_rewrite list_elem_of_bind. setoid_rewrite list_elem_of_singleton.
  setoid_rewrite elem_of_present_deps. split.
  - intros (t & (d & [= -> ->] & ? & ?) & ?). by exists t.
  - intros (t & ? & <- & ? & ?). exists t. split; [|done]. by exists a.
Qed.
Lemma no_present_deps tasks t :
  match present_deps (present_ids tasks) t with [] => true | _ => false end = true ↔
  ∀ d, d ∈ t.(ts_depends_on) → d ∉ present_ids tasks.
Proof.
  split.
  - destruct (present_deps _ t) eqn:E; [|done]. intros _ d Hd Hp.
    assert (d ∈ present_deps (present_ids tasks) t) as Hin by by apply elem_of_present_deps.
    rewrite E in Hin. by apply elem_of_nil in Hin.
  - intros Hn. destruct (present_deps _ t) as [|d l] eqn:E; [done|].
    assert (d ∈ present_deps (present_ids tasks) t) as [Hd Hp]%elem_of_present_deps by (rewrite E; left).
    by apply Hn in Hd.
Qed.
Lemma from_tasks_spec tasks : ∃ g, from_tasks tasks = Some g ∧ graph_of tasks g.
Proof.
  destruct (detect_cycles_spec tasks) as (cs & Hcs & _). unfold from_tasks. rewrite Hcs. eexists. split; [done|].
  split; simpl.
  - change (map gn_task_id) with (fmap (M := list) gn_task_id). rewrite sort_by_perm.
    change (map task_node tasks) with (task_node <$> tasks). by rewrite <- list_fmap_compose.
  - intros a b. rewrite elem_of_sort_by, elem_of_elements, elem_of_list_to_set. apply edges_spec.
  - intros x. rewrite elem_of_dedup, elem_of_sort_by. rewrite list_elem_of_fmap.
    setoid_rewrite list_elem_of_In at 1. setoid_rewrite List.filter_In. setoid_rewrite no_present_deps.
    setoid_rewrite <- list_elem_of_In. split; [intros (t & -> & ? & ?)|intros (t & ? & <- & ?)]; by exists t.
Qed.

(** The graph of any tasks is built and rendered without panicking or looping,
    cycles included; its nodes are the tasks, its edges the dependencies between
    present tasks, and its roots the tasks that depend on none present. *)
Theorem graph_built_and_rendered tasks :
  ∃ g text, from_tasks tasks = Some g ∧ graph_of tasks g ∧ render_text g = Some text.
Proof.
  destruct (from_tasks_spec tasks) as (g & Hg & Hof). exists g. unfold render_text.
  set (ids := map gn_task_id (tg_nodes g)).
  assert (∀ t, t ∈ tasks → t.(ts_task_id) ∈ ids) as Hids.
  { intros t Ht. unfold ids. rewrite (go_nodes _ _ Hof). by apply list_elem_of_fmap_2. }
  destruct (render_kids_total (λ root, render_node (render_states (tg_nodes g)) (render_children (tg_edges g))
    (2 + length (tg_nodes g)) root 0 []) (tg_roots g)) as [tree ->]; [|by eexists].
  intros root (t & Ht & <- & _)%(go_roots _ _ Hof). apply render_node_total with (ids := ids); [|apply NoDup_nil_2| | |].
  - intros v c (t' & Ht' & <- & _)%render_children_spec%(go_edges _ _ Hof). auto.
  - by intros x ?%elem_of_nil.
  - auto.
  - unfold ids. rewrite length_map. simpl. lia.
Qed.

(** ** A cycle through finished nodes is not reported

    [a] depends on [b] and [c], both depend on [d], and [d] on [a]. *)
Module Sample.
Definition task (id : string) (deps : list string) : TaskState :=
  {| ts_task_id := id; ts_title := ""; ts_description := ""; ts_state := "pending"; ts_assigned_to := "";
     ts_created_by := ""; ts_depends_on := deps; ts_blocks := []; ts_invocation_id := None; ts_created_at := "";
     ts_updated_at := ""; ts_state_rev := 1; ts_previous_event_id := None; ts_result := None; ts_action := None;
     ts_extra := ∅ |}.
Definition diamond : list TaskState := [task "a" ["b"; "c"]; task "b" ["d"]; task "c" ["d"]; task "d" ["a"]].
End Sample.
Lemma diamond_cycle_missed :
  is_cycle (depends Sample.diamond) ["a"; "c"; "d"; "a"] ∧
  detect_cycles Sample.diamond (present_ids Sample.diamond) = Some [["a"; "b"; "d"; "a"]].
Proof.
  split; [|vm_compute; reflexivity]. exists "a", ["c"; "d"]. split; [done|].
  assert (∀ x y, y ∈ adj (build_deps Sample.diamond (present_ids Sample.diamond)) x → depends Sample.diamond x y) as Hd
    by (intros; by apply adj_depends).
  intros [|[|[|i]]] x y Hx Hy; simplify_eq/=; apply Hd; vm_compute; set_solver.
Qed.
