(* ===== verification/Diagnostics.v ===== *)
(** * Task diagnostics

    Models [crates/mx-agent-daemon/src/task_diagnostics.rs]: the warnings about a room's
    tasks and agents.  The [Debug] rendering of a string and the clock are arguments; the
    decoding of an action kept in a task's extra fields is too. *)
From Stdlib Require Import ZArith Ascii.
From stdpp Require Import gmap strings list pretty.
From S2P Require Import Prelude RustStr Replay CanonicalJson Schema Signing PolicyFile PolicyEngine NonceGuard Trust Room Invocation TaskLifecycle Approval LiveAuth ResultPlane Presence Orchestrator TaskGraph.

Inductive Severity := Warning.
Record TaskDiagnostic := { td_severity : Severity; td_kind : string; td_task_id : option string; td_message : string }.
Definition warning (kind : string) (task_id : option string) (message : string) : TaskDiagnostic :=
  {| td_severity := Warning; td_kind := kind; td_task_id := task_id; td_message := message |}.

Definition KIND_DUPLICATE_TITLE : string := "duplicate_title".
Definition KIND_DEPENDENCY_CYCLE : string := "dependency_cycle".
Definition KIND_MISSING_DEPENDENCY : string := "missing_dependency".
Definition KIND_UNKNOWN_AGENT : string := "assigned_to_unknown_agent".
Definition KIND_INACTIVE_AGENT : string := "assigned_to_inactive_agent".
Definition KIND_RUNNABLE_WITHOUT_ACTION : string := "runnable_without_action".
Definition KIND_TOOL_UNAVAILABLE : string := "tool_unavailable".

Section diagnose.
Context (debug : string → string) (action_from_value : Value → option TaskAction).

(** [by_title]. *)
Definition titles_by (tasks : list TaskState) : gmap string (list string) :=
  foldl (λ m t, if t.(ts_title) =s "" then m
                else <[t.(ts_title) := unwrap_or (m !! t.(ts_title)) [] ++ [t.(ts_task_id)]]> m) ∅ tasks.
Definition title_diagnostics (tasks : list TaskState) : list TaskDiagnostic :=
  omap (λ '(title, ids),
    if (1 <? length ids)%nat then
      Some (warning KIND_DUPLICATE_TITLE None
        (pretty (N.of_nat (length ids)) +:+ " tasks share the title " +:+ debug title +:+ ": " +:+ str_join ", " ids))
    else None) (btree_iter (titles_by tasks)).
Definition cycle_diagnostics (graph : TaskGraph) : list TaskDiagnostic :=
  map (λ cycle, warning KIND_DEPENDENCY_CYCLE (head cycle) ("dependency cycle: " +:+ str_join " -> " cycle)) graph.(tg_cycles).
Definition missing_diagnostics (tasks : list TaskState) : list TaskDiagnostic :=
  let present := present_ids tasks in
  task ← tasks; dep ← task.(ts_depends_on);
  if bool_decide (dep ∈ present) then []
  else [warning KIND_MISSING_DEPENDENCY (Some task.(ts_task_id))
         ("task " +:+ debug task.(ts_task_id) +:+ " depends on missing task " +:+ debug dep)].

(** [by_id]: the last of several agents with one id. *)
Definition agents_by_id (agents : list AgentState) : gmap string AgentState :=
  foldl (λ m a, <[a.(as_agent_id) := a]> m) ∅ agents.
Definition offers (agent : AgentState) (tool : string) : bool :=
  existsb (λ q, bool_decide (head (split_on "@"%char q) = Some tool)) agent.(as_tools).
Definition verdict_for (verdicts : gmap string Liveness) (agent : AgentState) (now_ms : Z) : Liveness :=
  unwrap_or (verdicts !! agent.(as_agent_id)) (liveness_of default_liveness agent now_ms).
Definition agent_diagnostics_of (by_id : gmap string AgentState) (verdicts : gmap string Liveness) (now_ms : Z) (task : TaskState) : list TaskDiagnostic :=
  if task.(ts_assigned_to) =s "" then []
  else match by_id !! task.(ts_assigned_to) with
  | None => [warning KIND_UNKNOWN_AGENT (Some task.(ts_task_id))
              ("task " +:+ debug task.(ts_task_id) +:+ " is assigned to unknown agent " +:+ debug task.(ts_assigned_to))]
  | Some agent =>
    (if negb (bool_decide (verdict_for verdicts agent now_ms = Active)) then
       [warning KIND_INACTIVE_AGENT (Some task.(ts_task_id))
         ("task " +:+ debug task.(ts_task_id) +:+ " is assigned to inactive agent " +:+ debug task.(ts_assigned_to))]
     else []) ++
    match action_from_task action_from_value task with
    | Ok (Tool tool _ _) =>
      if negb (offers agent tool) then
        [warning KIND_TOOL_UNAVAILABLE (Some task.(ts_task_id))
          ("task " +:+ debug task.(ts_task_id) +:+ " requires tool " +:+ debug tool +:+ ", not offered by agent " +:+ debug task.(ts_assigned_to))]
      else []
    | _ => []
    end
  end.
Definition agent_diagnostics (tasks : list TaskState) (agents : list AgentState) (verdicts : gmap string Liveness) (now_ms : Z) : list TaskDiagnostic :=
  match agents with
  | [] => []
  | _ => task ← tasks; agent_diagnostics_of (agents_by_id agents) verdicts now_ms task
  end.
Definition action_diagnostics (tasks : list TaskState) : list TaskDiagnostic :=
  task ← tasks;
  if is_runnable task.(ts_state) && negb (task.(ts_assigned_to) =s "") && is_err (action_from_task action_from_value task) then
    [warning KIND_RUNNABLE_WITHOUT_ACTION (Some task.(ts_task_id))
      ("task " +:+ debug task.(ts_task_id) +:+ " is assigned and " +:+ task.(ts_state) +:+ " but has no executable action")]
  else [].

(** [None] where the graph's construction panics, which it never does. *)
Definition diagnose_tasks_at (tasks : list TaskState) (agents : list AgentState) (verdicts : gmap string Liveness) (now_ms : Z) :
    option (list TaskDiagnostic) :=
  graph ← from_tasks tasks;
  Some (title_diagnostics tasks ++ cycle_diagnostics graph ++ missing_diagnostics tasks
        ++ agent_diagnostics tasks agents verdicts now_ms ++ action_diagnostics tasks).

(** ** What each warning means *)

(** The kinds one task's assignment gives. *)
Definition assignment_problem (by_id : gmap string AgentState) (verdicts : gmap string Liveness) (now_ms : Z) (kind : string) (task : TaskState) : Prop :=
  task.(ts_assigned_to) ≠ "" ∧
  ((kind = KIND_UNKNOWN_AGENT ∧ by_id !! task.(ts_assigned_to) = None) ∨
   ∃ a, by_id !! task.(ts_assigned_to) = Some a ∧
     ((kind = KIND_INACTIVE_AGENT ∧ verdict_for verdicts a now_ms ≠ Active) ∨
      (kind = KIND_TOOL_UNAVAILABLE ∧ ∃ tool args auth,
         action_from_task action_from_value task = Ok (Tool tool args auth) ∧ offers a tool = false))).
(** A warning's kind and task, and the condition on the room it stands for. *)
Definition problem (tasks : list TaskState) (agents : list AgentState) (verdicts : gmap string Liveness) (now_ms : Z)
    (kind : string) (task_id : option string) : Prop :=
  (kind = KIND_DUPLICATE_TITLE ∧ task_id = None ∧
     ∃ i j t u, i ≠ j ∧ tasks !! i = Some t ∧ tasks !! j = Some u ∧ t.(ts_title) = u.(ts_title) ∧ t.(ts_title) ≠ "") ∨
  ∃ task, task ∈ tasks ∧ task_id = Some task.(ts_task_id) ∧
    ((kind = KIND_MISSING_DEPENDENCY ∧ ∃ dep, dep ∈ task.(ts_depends_on) ∧ ∀ t, t ∈ tasks → t.(ts_task_id) ≠ dep) ∨
     (agents ≠ [] ∧ assignment_problem (agents_by_id agents) verdicts now_ms kind task) ∨
     (kind = KIND_RUNNABLE_WITHOUT_ACTION ∧ is_runnable task.(ts_state) = true ∧ task.(ts_assigned_to) ≠ "" ∧
        is_err (action_from_task action_from_value task) = true)).

(** ** Titles *)

Definition titled (title : string) (tasks : list TaskState) : list TaskState := List.filter (λ t, t.(ts_title) =s title) tasks.
Lemma titles_by_lookup tasks title :
  titles_by tasks !! title =
  if (title =s "") || bool_decide (titled title tasks = []) then None else Some (map ts_task_id (titled title tasks)).
Proof.
  induction tasks as [|t tasks IH] using rev_ind; [simpl; by rewrite orb_true_r|].
  unfold titles_by. rewrite foldl_snoc. fold (titles_by tasks). unfold titled in *. rewrite List.filter_app. cbn [List.filter].
  destruct (ts_title t =s title) eqn:E.
  - apply str_eqb_eq in E as ->. destruct (title =s "") eqn:Et; [by rewrite IH|]. rewrite lookup_insert_eq, IH. simpl.
    rewrite (bool_decide_false (_ ++ [t] = [])) by (by destruct (List.filter _ tasks)).
    case_bool_decide as Hf; [rewrite Hf; done|]. simpl. by rewrite map_app.
  - rewrite app_nil_r, <- IH. destruct (ts_title t =s ""); [done|]. rewrite lookup_insert_ne; [done|]. by apply str_eqb_neq in E.
Qed.
Lemma two_of {A} (f : A → bool) l :
  (1 < length (List.filter f l))%nat ↔ ∃ i j x y, i ≠ j ∧ l !! i = Some x ∧ l !! j = Some y ∧ f x = true ∧ f y = true.
Proof.
  induction l as [|a l IH]; [simpl; split; [lia|naive_solver]|]. cbn [List.filter]. split.
  - destruct (f a) eqn:Ea; simpl.
    + intros Hl. assert (∃ y, y ∈ List.filter f l) as [y Hy] by (destruct (List.filter f l) as [|y r]; [simpl in Hl; lia|exists y; left]).
      rewrite list_elem_of_In, filter_In, <- list_elem_of_In, list_elem_of_lookup in Hy. destruct Hy as [[j Hj] Hfy].
      exists 0%nat, (S j), a, y. done.
    + intros (i & j & x & y & ? & ? & ? & ? & ?)%IH. exists (S i), (S j), x, y. split; [lia|done].
  - intros (i & j & x & y & Hij & Hi & Hj & Hx & Hy).
    assert (∀ k z, l !! k = Some z → f z = true → (0 < length (List.filter f l))%nat) as Hone.
    { intros k z Hk Hz. assert (z ∈ List.filter f l) as Hin by (apply list_elem_of_In, filter_In; rewrite <- list_elem_of_In; split; [by eapply list_elem_of_lookup_2|done]).
      destruct (List.filter f l); [by apply not_elem_of_nil in Hin|simpl; lia]. }
    destruct (f a) eqn:Ea; simpl.
    + enough (0 < length (List.filter f l))%nat by lia.
      destruct i as [|i]; [destruct j as [|j]; [done|by eapply (Hone j)]|by eapply (Hone i)].
    + destruct i as [|i]; [injection Hi as ->; congruence|]. destruct j as [|j]; [injection Hj as ->; congruence|].
      apply IH. exists i, j, x, y. split; [lia|done].
Qed.
Lemma title_diagnostics_spec tasks :
  (∀ d, d ∈ title_diagnostics tasks → d.(td_kind) = KIND_DUPLICATE_TITLE ∧ d.(td_task_id) = None) ∧
  ((∃ d, d ∈ title_diagnostics tasks) ↔
   ∃ i j t u, i ≠ j ∧ tasks !! i = Some t ∧ tasks !! j = Some u ∧ t.(ts_title) = u.(ts_title) ∧ t.(ts_title) ≠ "").
Proof.
  unfold title_diagnostics. split; [|split].
  - intros d ([title ids] & _ & Hd)%list_elem_of_omap. destruct (_ <? _)%nat; [|done]. by injection Hd as <-.
  - intros (d & ([title ids] & Hin & Hd)%list_elem_of_omap). apply elem_of_btree_iter in Hin. rewrite titles_by_lookup in Hin.
    destruct (title =s "") eqn:Et; [done|]. simpl in Hin. case_bool_decide; [done|]. injection Hin as <-.
    destruct (Nat.ltb_spec 1 (length (map ts_task_id (titled title tasks)))) as [Hl|]; [|done]. rewrite length_map in Hl.
    apply two_of in Hl as (i & j & t & u & ? & ? & ? & Ht%str_eqb_eq & Hu%str_eqb_eq). apply str_eqb_neq in Et.
    exists i, j, t, u. split_and!; congruence.
  - intros (i & j & t & u & Hij & Hi & Hj & Htu & Hne). setoid_rewrite list_elem_of_omap.
    assert (1 < length (titled (ts_title t) tasks))%nat as Hl.
    { apply two_of. exists i, j, t, u. rewrite !str_eqb_eq. auto. }
    eexists _, (ts_title t, map ts_task_id (titled (ts_title t) tasks)). split.
    + apply elem_of_btree_iter. rewrite titles_by_lookup. apply str_eqb_neq in Hne. rewrite Hne, bool_decide_false; [done|].
      intros E. rewrite E in Hl. simpl in Hl. lia.
    + rewrite length_map. destruct (Nat.ltb_spec 1 (length (titled (ts_title t) tasks))); [done|lia].
Qed.

(** ** Agents *)

Lemma agents_by_id_snoc agents a : agents_by_id (agents ++ [a]) = <[a.(as_agent_id) := a]> (agents_by_id agents).
Proof. unfold agents_by_id. by rewrite foldl_snoc. Qed.
Lemma agents_by_id_None agents id : agents_by_id agents !! id = None ↔ ∀ a, a ∈ agents → a.(as_agent_id) ≠ id.
Proof.
  induction agents as [|a agents IH] using rev_ind; [split; [intros _ a Ha; by apply not_elem_of_nil in Ha|done]|].
  rewrite agents_by_id_snoc, lookup_insert_None, IH. setoid_rewrite elem_of_app. setoid_rewrite list_elem_of_singleton. naive_solver.
Qed.
Lemma present_ids_spec tasks id : id ∈ present_ids tasks ↔ ∃ t, t ∈ tasks ∧ t.(ts_task_id) = id.
Proof. unfold present_ids. rewrite elem_of_list_to_set, list_elem_of_fmap. naive_solver. Qed.
Lemma missing_diagnostics_spec tasks d :
  d ∈ missing_diagnostics tasks ↔
  ∃ task dep, task ∈ tasks ∧ dep ∈ task.(ts_depends_on) ∧ (∀ t, t ∈ tasks → t.(ts_task_id) ≠ dep) ∧
    d = warning KIND_MISSING_DEPENDENCY (Some task.(ts_task_id))
          ("task " +:+ debug task.(ts_task_id) +:+ " depends on missing task " +:+ debug dep).
Proof.
  unfold missing_diagnostics. rewrite list_elem_of_bind. setoid_rewrite list_elem_of_bind. split.
  - intros (task & (dep & Hd & Hdep) & Htask). case_bool_decide as Hp; [by apply not_elem_of_nil in Hd|].
    apply list_elem_of_singleton in Hd as ->. exists task, dep. split_and!; [done..| |done]. intros t Ht Heq. apply Hp, present_ids_spec. eauto.
  - intros (task & dep & Htask & Hdep & Hn & ->). exists task. split; [|done]. exists dep. split; [|done].
    rewrite bool_decide_false; [by apply list_elem_of_singleton|]. rewrite present_ids_spec. naive_solver.
Qed.
Lemma action_diagnostics_spec tasks d :
  d ∈ action_diagnostics tasks ↔
  ∃ task, task ∈ tasks ∧ is_runnable task.(ts_state) = true ∧ task.(ts_assigned_to) ≠ "" ∧
    is_err (action_from_task action_from_value task) = true ∧
    d = warning KIND_RUNNABLE_WITHOUT_ACTION (Some task.(ts_task_id))
          ("task " +:+ debug task.(ts_task_id) +:+ " is assigned and " +:+ task.(ts_state) +:+ " but has no executable action").
Proof.
  unfold action_diagnostics. rewrite list_elem_of_bind. split.
  - intros (task & Hd & Htask). destruct (is_runnable _) eqn:Er, (_ =s _) eqn:Ea, (is_err _) eqn:Ee;
      try by apply not_elem_of_nil in Hd. apply list_elem_of_singleton in Hd as ->. apply str_eqb_neq in Ea. by exists task.
  - intros (task & Htask & Hr & Ha%str_eqb_neq & He & ->). exists task. split; [|done]. rewrite Hr, Ha, He. by apply list_elem_of_singleton.
Qed.

Lemma agent_diagnostics_of_spec by_id verdicts now_ms task kind id :
  (∃ d, d ∈ agent_diagnostics_of by_id verdicts now_ms task ∧ d.(td_kind) = kind ∧ d.(td_task_id) = id) ↔
  id = Some task.(ts_task_id) ∧ assignment_problem by_id verdicts now_ms kind task.
Proof.
  unfold agent_diagnostics_of, assignment_problem. destruct (ts_assigned_to task =s "") eqn:Ea.
  { apply str_eqb_eq in Ea. split; [intros (d & Hd & _); by apply not_elem_of_nil in Hd|tauto]. }
  apply str_eqb_neq in Ea. destruct (by_id !! ts_assigned_to task) as [a|]; cycle 1.
  { setoid_rewrite list_elem_of_singleton. split; [intros (d & -> & <- & <-); auto|].
    intros (-> & _ & [[-> _]|(a & [=] & _)]). eauto. }
  setoid_rewrite elem_of_app. split.
  - intros (d & [Hd|Hd] & <- & <-).
    + case_bool_decide as Hv; [by apply not_elem_of_nil in Hd|]. apply list_elem_of_singleton in Hd as ->. eauto 8.
    + destruct (action_from_task _ task) as [[|]|] eqn:Et; try by apply not_elem_of_nil in Hd.
      destruct (offers a _) eqn:Eo; [by apply not_elem_of_nil in Hd|]. apply list_elem_of_singleton in Hd as ->. eauto 12.
  - intros (-> & _ & [[_ [=]]|(a' & [= <-] & [[-> Hv]|(-> & tool & args & auth & -> & Ho)])]).
    + rewrite bool_decide_false by done. eexists. split; [left; by apply list_elem_of_singleton|done].
    + rewrite Ho. eexists. split; [right; by apply list_elem_of_singleton|done].
Qed.
Lemma agent_diagnostics_spec tasks agents verdicts now_ms kind id :
  (∃ d, d ∈ agent_diagnostics tasks agents verdicts now_ms ∧ d.(td_kind) = kind ∧ d.(td_task_id) = id) ↔
  ∃ task, task ∈ tasks ∧ id = Some task.(ts_task_id) ∧
    agents ≠ [] ∧ assignment_problem (agents_by_id agents) verdicts now_ms kind task.
Proof.
  unfold agent_diagnostics. destruct agents as [|a agents].
  { split; [intros (d & Hd & _); by apply not_elem_of_nil in Hd|intros (task & _ & _ & [] & _); done]. }
  setoid_rewrite list_elem_of_bind. split.
  - intros (d & (task & Hd & Htask) & Hk & Hi). exists task. split; [done|].
    destruct (proj1 (agent_diagnostics_of_spec (agents_by_id (a :: agents)) verdicts now_ms task kind id)) as [-> Hp]; [by exists d|done].
  - intros (task & Htask & -> & _ & Hp).
    destruct (proj2 (agent_diagnostics_of_spec (agents_by_id (a :: agents)) verdicts now_ms task kind (Some task.(ts_task_id)))) as (d & ? & ?); [done|].
    exists d. split; [by exists task|done].
Qed.
Lemma cycle_diagnostics_kind graph d : d ∈ cycle_diagnostics graph → d.(td_kind) = KIND_DEPENDENCY_CYCLE.
Proof. unfold cycle_diagnostics. intros (c & -> & _)%list_elem_of_fmap. done. Qed.
Lemma from_tasks_cycles tasks :
  ∃ g, from_tasks tasks = Some g ∧ (g.(tg_cycles) = [] ↔ ∀ x, ¬ tc (depends tasks) x x).
Proof.
  destruct (detect_cycles_spec tasks) as (cs & Hcs & _ & Hc). unfold from_tasks. rewrite Hcs. by eexists.
Qed.
Lemma agent_diagnostics_kind tasks agents verdicts now_ms d :
  d ∈ agent_diagnostics tasks agents verdicts now_ms → d.(td_kind) ≠ KIND_DEPENDENCY_CYCLE.
Proof.
  intros Hd. destruct (proj1 (agent_diagnostics_spec tasks agents verdicts now_ms d.(td_kind) d.(td_task_id))) as (task & _ & _ & _ & _ & Hk); [by exists d|].
  destruct Hk as [[-> _]|(a & _ & [[-> _]|[-> _]])]; done.
Qed.

(** The diagnostics are computed for any tasks and agents (no panic), and they are
    exact: a warning of a kind about a task is reported if and only if the room has the
    problem of that kind (a shared non-empty title, a dependency on an absent task, an
    assignment to an unknown or inactive agent or to one without the tool, a runnable
    assigned task without an action), agents being judged only when some are known; and a
    cycle is reported if and only if the dependency graph has one. *)
Theorem diagnose_exact tasks agents verdicts now_ms :
  ∃ out, diagnose_tasks_at tasks agents verdicts now_ms = Some out ∧
    (∀ kind id, kind ≠ KIND_DEPENDENCY_CYCLE →
       (∃ d, d ∈ out ∧ d.(td_kind) = kind ∧ d.(td_task_id) = id) ↔ problem tasks agents verdicts now_ms kind id) ∧
    ((∀ d, d ∈ out → d.(td_kind) ≠ KIND_DEPENDENCY_CYCLE) ↔ ∀ x, ¬ tc (depends tasks) x x).
Proof.
  destruct (from_tasks_cycles tasks) as (g & Hg & Hc). unfold diagnose_tasks_at. rewrite Hg. simpl.
  eexists. split; [done|]. destruct (title_diagnostics_spec tasks) as [Ht Ht']. split.
  - intros kind id Hk. setoid_rewrite elem_of_app. setoid_rewrite elem_of_app. setoid_rewrite elem_of_app. setoid_rewrite elem_of_app. split.
    + intros (d & Hd & Hkd & Hid). destruct Hd as [Hd|[Hd|[Hd|[Hd|Hd]]]].
      * left. destruct (Ht d Hd) as [E1 E2]. split_and!; [congruence..|]. apply Ht'. by exists d.
      * apply cycle_diagnostics_kind in Hd. congruence.
      * apply missing_diagnostics_spec in Hd as (task & dep & Htask & Hdep & Hn & ->). right. exists task. simpl in *. split_and!; [done..|]. left. eauto.
      * right. destruct (proj1 (agent_diagnostics_spec tasks agents verdicts now_ms kind id)) as (task & ? & ? & Hp); [by exists d|].
        exists task. auto.
      * apply action_diagnostics_spec in Hd as (task & Htask & Hr & Ha & He & ->). right. exists task. simpl in *. split_and!; [done..|]. auto 6.
    + intros [(-> & -> & Hdup)|(task & Htask & -> & [(-> & dep & Hdep & Hn)|[Hp|(-> & Hr & Ha & He)]])].
      * apply Ht' in Hdup as [d Hd]. exists d. split; [by left|]. by apply Ht.
      * eexists. split; [right; right; left; apply missing_diagnostics_spec; exists task, dep; split_and!; [done..|reflexivity]|done].
      * destruct (proj2 (agent_diagnostics_spec tasks agents verdicts now_ms kind (Some task.(ts_task_id)))) as (d & Hd & Hkd); [by exists task|].
        exists d. split; [by right; right; right; left|done].
      * eexists. split; [do 4 right; apply action_diagnostics_spec; exists task; split_and!; [done..|reflexivity]|done].
  - rewrite <- Hc. unfold cycle_diagnostics. split.
    + intros Hn. destruct (tg_cycles g) as [|c cs]; [done|]. exfalso.
      eapply Hn; [rewrite elem_of_app; right; left|reflexivity].
    + intros Hnil d Hd. rewrite Hnil in Hd. simpl in Hd. rewrite !elem_of_app in Hd. destruct Hd as [Hd|[Hd|[Hd|Hd]]].
      * by rewrite (proj1 (Ht d Hd)).
      * by apply missing_diagnostics_spec in Hd as (? & ? & _ & _ & _ & ->).
      * by eapply agent_diagnostics_kind.
      * by apply action_diagnostics_spec in Hd as (? & _ & _ & _ & _ & ->).
Qed.
End diagnose.
