(* ===== verification/Scheduler.v ===== *)
(** * Task scheduler

    Models [crates/mx-agent-daemon/src/scheduler.rs]: the runnable condition of one
    task, the decisions for a whole snapshot under the agent's capacity, and the tasks
    chosen.  A [u32] count is an [N]; [saturating_sub] is [N.sub]. *)
From Stdlib Require Import ZArith.
From stdpp Require Import gmap strings list sorting.
From S2P Require Import Prelude RustStr CanonicalJson Schema TaskLifecycle Orchestrator.

Inductive ScheduleDecision :=
| Runnable (task_id : string)
| NotAssigned (task_id assigned_to : string)
| TerminalState (task_id state : string)
| NotSchedulableState (task_id state : string)
| DependenciesUnmet (task_id : string) (waiting_on : list string)
| NoExecutableAction (task_id : string)
| AtCapacity (task_id : string).
Definition decision_task_id (d : ScheduleDecision) : string :=
  match d with
  | Runnable t | NotAssigned t _ | TerminalState t _ | NotSchedulableState t _ | DependenciesUnmet t _
  | NoExecutableAction t | AtCapacity t => t
  end.
Definition decision_is_runnable (d : ScheduleDecision) : bool := match d with Runnable _ => true | _ => false end.

Record TaskScheduler := { sc_agent_id : string; sc_max_invocations : N; sc_auto_claim : bool }.

Definition id_le (x y : TaskState) : Prop := String.le x.(ts_task_id) y.(ts_task_id).
#[export] Instance id_le_dec : RelDecision id_le.
Proof. intros x y. unfold id_le. apply _. Defined.
#[export] Instance id_le_total : Total id_le.
Proof. intros x y. unfold id_le. apply (total String.le). Qed.
#[export] Instance id_le_trans : Transitive id_le.
Proof. intros x y z. unfold id_le. apply transitivity. Qed.

Section scheduler.
Context (action_from_value : Value → option TaskAction) (self : TaskScheduler).

Definition is_claimable (task : TaskState) : bool :=
  self.(sc_auto_claim) || (task.(ts_assigned_to) =s self.(sc_agent_id)).

Definition evaluate (task : TaskState) (all_tasks : list TaskState) : ScheduleDecision :=
  if TaskLifecycle.is_terminal task.(ts_state) then TerminalState task.(ts_task_id) task.(ts_state)
  else if negb (is_runnable task.(ts_state)) then NotSchedulableState task.(ts_task_id) task.(ts_state)
  else if negb (is_claimable task) then NotAssigned task.(ts_task_id) task.(ts_assigned_to)
  else
    match unmet_dependencies task (succeeded_ids all_tasks) with
    | (_ :: _) as waiting_on => DependenciesUnmet task.(ts_task_id) waiting_on
    | [] =>
        if is_err (action_from_task action_from_value task) then NoExecutableAction task.(ts_task_id)
        else Runnable task.(ts_task_id)
    end.

(** The loop of [decide] over the ordered tasks. *)
Fixpoint decide_loop (tasks ordered : list TaskState) (remaining : N) : list ScheduleDecision :=
  match ordered with
  | [] => []
  | task :: ordered =>
      let decision := evaluate task tasks in
      if decision_is_runnable decision then
        if (remaining =? 0)%N then AtCapacity task.(ts_task_id) :: decide_loop tasks ordered remaining
        else decision :: decide_loop tasks ordered (remaining - 1)
      else decision :: decide_loop tasks ordered remaining
  end.
Definition decide (tasks : list TaskState) (running_count : N) : list ScheduleDecision :=
  decide_loop tasks (sort_by id_le tasks) (self.(sc_max_invocations) - running_count).

Definition runnable (tasks : list TaskState) (running_count : N) : list TaskState :=
  let runnable_ids : gset string :=
    list_to_set (map decision_task_id (List.filter decision_is_runnable (decide tasks running_count))) in
  List.filter (λ task, bool_decide (task.(ts_task_id) ∈ runnable_ids)) tasks.

(** ** Correctness *)

(** The runnable condition of the architecture, capacity apart. *)
Definition ready (tasks : list TaskState) (t : TaskState) : Prop :=
  is_runnable t.(ts_state) = true ∧
  (self.(sc_auto_claim) = true ∨ t.(ts_assigned_to) = self.(sc_agent_id)) ∧
  (∀ dep, dep ∈ t.(ts_depends_on) → ∃ u, u ∈ tasks ∧ u.(ts_task_id) = dep ∧ u.(ts_state) = STATE_SUCCEEDED) ∧
  ∃ action, action_from_task action_from_value t = Ok action.
Definition eligible (tasks : list TaskState) (t : TaskState) : bool := decision_is_runnable (evaluate t tasks).
Lemma eligible_ready tasks t : eligible tasks t = true ↔ ready tasks t.
Proof.
  unfold eligible, evaluate, ready, is_claimable. rewrite <- unmet_nil.
  assert (TaskLifecycle.is_terminal (ts_state t) = true → is_runnable (ts_state t) = false) as Hterm.
  { unfold TaskLifecycle.is_terminal. unfold one_of. intros (x & H & ->%str_eqb_eq)%existsb_exists. repeat (destruct H as [<-|H]; [reflexivity|]). done. }
  destruct (TaskLifecycle.is_terminal (ts_state t)) eqn:Et; [rewrite Hterm by done; by split; [|intros [? _]]|].
  destruct (is_runnable (ts_state t)); simpl; [|by split; [|intros [? _]]].
  destruct (sc_auto_claim self) eqn:Ea, (ts_assigned_to t =s sc_agent_id self) eqn:Es; simpl.
  4: { split; [done|]. intros (_ & [?|Heq] & _); [done|]. by rewrite Heq, str_eqb_refl in Es. }
  all: try apply str_eqb_eq in Es.
  all: destruct (unmet_dependencies t (succeeded_ids tasks)); simpl; [|split; [done|intros (_ & _ & ? & _); done]].
  all: destruct (action_from_task action_from_value t); simpl; [split; [eauto 10|done]|].
  all: split; [done|intros (_ & _ & _ & ? & ?); done].
Qed.
Lemma evaluate_task_id t tasks : decision_task_id (evaluate t tasks) = t.(ts_task_id).
Proof. unfold evaluate. by repeat case_match. Qed.
(** The chosen ids are those of the first [remaining] eligible tasks in order. *)
Lemma decide_loop_ids tasks ordered : ∀ remaining,
  map decision_task_id (List.filter decision_is_runnable (decide_loop tasks ordered remaining))
  = map ts_task_id (take (N.to_nat remaining) (List.filter (eligible tasks) ordered)).
Proof.
  induction ordered as [|t ordered IH]; simpl; intros remaining; [by rewrite take_nil|].
  assert (decision_is_runnable (evaluate t tasks) = eligible tasks t) as He by done. rewrite He.
  destruct (eligible tasks t) eqn:E; simpl; [|by rewrite He].
  destruct (N.eqb_spec remaining 0) as [->|Hne]; simpl; [apply (IH 0%N)|].
  rewrite He. simpl. replace (N.to_nat remaining) with (S (N.to_nat (remaining - 1))) by lia. simpl.
  by rewrite IH, evaluate_task_id.
Qed.
Definition chosen (tasks : list TaskState) (running_count : N) : list TaskState :=
  take (N.to_nat (self.(sc_max_invocations) - running_count)) (List.filter (eligible tasks) (sort_by id_le tasks)).
Lemma chosen_incl tasks n t : t ∈ chosen tasks n → t ∈ tasks ∧ eligible tasks t = true.
Proof.
  intros Ht%elem_of_take_incl. apply list_elem_of_In, List.filter_In in Ht as [Ht ?].
  by rewrite <- list_elem_of_In, elem_of_sort_by in Ht.
Qed.
Lemma NoDup_fmap_inj tasks t u :
  NoDup (map ts_task_id tasks) → t ∈ tasks → u ∈ tasks → t.(ts_task_id) = u.(ts_task_id) → t = u.
Proof.
  intros Hnd (i & Hi)%list_elem_of_lookup_1 (j & Hj)%list_elem_of_lookup_1 Heq.
  assert (i = j) as ->; [|congruence].
  eapply (NoDup_lookup _ i j); [exact Hnd| |]; rewrite list_lookup_fmap; [by rewrite Hi|by rewrite Hj, Heq].
Qed.
Lemma runnable_chosen tasks n :
  NoDup (map ts_task_id tasks) → runnable tasks n ≡ₚ chosen tasks n.
Proof.
  intros Hnd. assert (NoDup tasks) as Hnd' by by eapply NoDup_fmap_1.
  apply NoDup_Permutation.
  - unfold runnable. apply NoDup_ListNoDup, List.NoDup_filter. by apply NoDup_ListNoDup.
  - eapply sublist_NoDup; [|apply sublist_take]. apply NoDup_ListNoDup, List.NoDup_filter, NoDup_ListNoDup.
    by rewrite sort_by_perm.
  - intros t. unfold runnable, decide. rewrite decide_loop_ids. fold (chosen tasks n).
    rewrite list_elem_of_In, List.filter_In, bool_decide_eq_true, elem_of_list_to_set, <- list_elem_of_In.
    rewrite list_elem_of_fmap. split.
    + intros (Ht & u & Heq & Hu). rewrite (NoDup_fmap_inj tasks t u); [done|done|done|by apply chosen_incl in Hu as [? _]|done].
    + intros Ht. split; [by apply chosen_incl in Ht as [? _]|]. by exists t.
Qed.

(** For a snapshot with distinct task ids, the scheduler picks only tasks that meet
    the runnable condition, as many as the spare capacity and no fewer than are
    available, and prefers lower task ids: a ready task it leaves out comes after
    every task it picked. *)
Theorem schedule_correct tasks running_count :
  NoDup (map ts_task_id tasks) →
  let picked := runnable tasks running_count in
  (∀ t, t ∈ picked → t ∈ tasks ∧ ready tasks t) ∧
  length picked = Nat.min (N.to_nat (self.(sc_max_invocations) - running_count))
                          (length (List.filter (eligible tasks) tasks)) ∧
  ∀ t u, t ∈ picked → u ∈ tasks → ready tasks u → u ∉ picked → id_le t u.
Proof.
  intros Hnd picked. pose proof (runnable_chosen _ running_count Hnd : picked ≡ₚ _) as Hp.
  assert (∀ t, t ∈ picked ↔ t ∈ chosen tasks running_count) as Hin by (intros t; by rewrite Hp). split_and!.
  - intros t [? ?]%Hin%chosen_incl. by rewrite <- eligible_ready.
  - rewrite Hp. unfold chosen. rewrite length_take. f_equal.
    apply Permutation_length, filter_perm, sort_by_perm.
  - intros t u Ht Hu Hr%eligible_ready Hn. rewrite Hin in Ht, Hn. clear Hin.
    assert (StronglySorted id_le (List.filter (eligible tasks) (sort_by id_le tasks))) as Hs
      by (apply filter_sorted, sort_by_sorted; apply _).
    unfold chosen in *.
    assert (u ∈ List.filter (eligible tasks) (sort_by id_le tasks)) as Hin.
    { apply list_elem_of_In, List.filter_In. by rewrite <- list_elem_of_In, elem_of_sort_by. }
    rewrite <- (take_drop (N.to_nat (sc_max_invocations self - running_count)) (List.filter _ _)) in Hin, Hs.
    apply elem_of_app in Hin as [?|Hin]; [done|].
    by eapply StronglySorted_app_1_elem_of.
Qed.
End scheduler.

(** ** The flag [auto_claim] *)

(** With auto-claim on, the assignee is not consulted at all: a task assigned to any
    other agent is judged as if it were unassigned. *)
Lemma auto_claim_ignores_assignee afv self t all :
  self.(sc_auto_claim) = true → t.(ts_assigned_to) ≠ self.(sc_agent_id) → is_runnable t.(ts_state) = true →
  unmet_dependencies t (succeeded_ids all) = [] → is_ok (action_from_task afv t) = true →
  eligible afv self all t = true.
Proof.
  intros Ha _ Hr Hu Hact. apply eligible_ready. split_and!; [done|by left|by apply unmet_nil|].
  destruct (action_from_task afv t) as [a|]; [by exists a|done].
Qed.

Section scheduler_witness.
Definition sample_task (id state : string) (deps : list string) : TaskState :=
  {| ts_task_id := id; ts_title := id; ts_description := ""; ts_state := state; ts_assigned_to := "agent-a";
     ts_created_by := "planner"; ts_depends_on := deps; ts_blocks := []; ts_invocation_id := None; ts_created_at := "";
     ts_updated_at := ""; ts_state_rev := 1; ts_previous_event_id := None; ts_result := None;
     ts_action := Some (Tool "run_tests" (Object []) None); ts_extra := ∅ |}.
Definition sample_tasks : list TaskState :=
  [sample_task "t3" STATE_PENDING ["t0"]; sample_task "t2" STATE_ASSIGNED []; sample_task "t1" STATE_PENDING [];
   sample_task "t0" STATE_SUCCEEDED []; sample_task "t4" STATE_PENDING ["t1"]].
Definition sample_scheduler : TaskScheduler := {| sc_agent_id := "agent-a"; sc_max_invocations := 3; sc_auto_claim := false |}.
Lemma schedule_correct_witness :
  map ts_task_id (runnable (λ _, None) sample_scheduler sample_tasks 1) = ["t2"; "t1"] ∧
  length (runnable (λ _, None) sample_scheduler sample_tasks 1)
  = Nat.min (N.to_nat (3 - 1)) (length (List.filter (eligible (λ _, None) sample_scheduler sample_tasks) sample_tasks)).
Proof.
  split; [vm_compute; reflexivity|].
  apply (schedule_correct (λ _, None) sample_scheduler sample_tasks 1). apply nodupb_NoDup. reflexivity.
Defined.
End scheduler_witness.
