(* ===== verification/SchedulerLoop.v ===== *)
(** * The scheduler loop

    Models [crates/mx-agent-daemon/src/scheduler_loop.rs]: the task store over a room
    with its write cache, the dispatcher that routes by kind of action, one tick over a
    snapshot, and the memory the loop keeps from tick to tick.  The daemon reads the room
    from a local copy that follows the homeserver, and writes to the homeserver; the
    copy and the room are two components of the store's state. *)
From Stdlib Require Import ZArith.
From stdpp Require Import gmap strings list.
From S2P Require Import Prelude RustStr Replay CanonicalJson Schema Signing PolicyFile PolicyEngine NonceGuard Trust Room Invocation TaskLifecycle Approval Orchestrator OrchestratorCorrect Scheduler.

Inductive TaskDispatchMode := DispatchLocal | DispatchMatrix.
Definition dispatch_mode_from_env (var : option string) : TaskDispatchMode :=
  match var with Some v => if v =s "matrix" then DispatchMatrix else DispatchLocal | None => DispatchLocal end.

(** ** The store *)

Definition workspace_to_store_error (text : WorkspaceError → string) (err : WorkspaceError) : TaskStoreError :=
  match err with
  | StaleTaskUpdate task_id expected current => StaleClaim task_id expected current
  | TaskNotFound task_id => NotFound task_id
  | other => OtherStoreError (text other)
  end.
(** What the daemon has synced, the room itself, and the states written this pass. *)
Record MatrixStore := mkStore {
  ms_local : Room;
  ms_room : Room;
  ms_write_cache : gmap string (TaskState * option string);
}.
(** The updater of [scheduler_pass_for_agent]. *)
Definition store_update (now : string) (options : UpdateTaskOptions) (s : MatrixStore) :
    result TaskState WorkspaceError * MatrixStore :=
  let write :=
    let current :=
      match s.(ms_write_cache) !! options.(uo_task_id) with
      | Some cached => Ok cached
      | None =>
          match (read_task_state options.(uo_task_id) s.(ms_local)).1 with
          | Ok (Some found) => Ok found
          | Ok None => Err (TaskNotFound options.(uo_task_id))
          | Err e => Err e
          end
      end in
    match current with
    | Err e => (Err e, s)
    | Ok (current, event_id) =>
        match apply_and_publish_task now current event_id options s.(ms_room) with
        | (Ok (updated, _), room) =>
            (Ok updated, mkStore s.(ms_local) room (<[updated.(ts_task_id) := (updated, None)]> s.(ms_write_cache)))
        | (Err e, room) => (Err e, mkStore s.(ms_local) room s.(ms_write_cache))
        end
    end in
  match (read_task_state options.(uo_task_id) s.(ms_local)).1 with
  | Ok (Some (latest, _)) =>
      if TaskLifecycle.is_terminal latest.(ts_state) then
        (Err (StaleTaskUpdate options.(uo_task_id) (unwrap_or options.(uo_expected_state_rev) latest.(ts_state_rev))
                latest.(ts_state_rev)), s)
      else write
  | _ => write
  end.
Definition store_apply (text : WorkspaceError → string) (now : string) (options : UpdateTaskOptions) (s : MatrixStore) :
    result TaskState TaskStoreError * MatrixStore :=
  let '(r, s) := store_update now options s in
  (match r with Ok t => Ok t | Err e => Err (workspace_to_store_error text e) end, s).
Definition matrix_task_store (text : WorkspaceError → string) (now : string) : TaskStore MatrixStore :=
  {| claim := store_apply text now; finalize := store_apply text now |}.

(** ** The dispatcher *)

Section Routing.
Context {T E : Type} `{!TaskDispatcher T, !TaskDispatcher E}.
Definition routing_dispatch (task : TaskState) (action : TaskAction) (invocation_id : string) (a : Allowance) (d : T * E) :
    result TaskExecutionResult TaskDispatchError * (T * E) :=
  match action with
  | Tool _ _ _ => let '(r, t) := dispatch task action invocation_id a d.1 in (r, (t, d.2))
  | Exec _ _ _ _ _ _ => let '(r, e) := dispatch task action invocation_id a d.2 in (r, (d.1, e))
  end.
Definition routing_dispatcher : TaskDispatcher (T * E) := {| dispatch := routing_dispatch |}.
End Routing.

(** ** One tick *)

Definition claimed_invocation_id (o : OrchestrationOutcome) : option string :=
  match o with OCompleted _ id _ | ODenied _ id => Some id | _ => None end.
Definition is_awaiting (o : OrchestrationOutcome) : bool := match o with OAwaitingApproval _ _ => true | _ => false end.
(** The sets kept between ticks, and how many invocation ids were generated. *)
Record LoopMemory := mkMemory { lm_claimed : gset string; lm_attempted : gset (string * Z); lm_generated : nat }.
Definition task_key (t : TaskState) : string * Z := (t.(ts_task_id), t.(ts_state_rev)).

Section tick.
Context `{Crypto} {Store Disp Gate Cache : Type}
  `{!TaskStore Store, !TaskDispatcher Disp, !NonceGuard Cache, !TaskApprovalGate Gate Cache}.
Context (action_from_value : Value → option TaskAction) (regex_new : RegexNew) (debug_str : string → string).
(** The source of invocation ids. *)
Context (generate : nat → string).
Context (scheduler : TaskScheduler) (orchestrator : TaskOrchestrator) (now : string) (now_unix : Z).

(** The loop over the runnable ids; with each outcome, the task it is about. *)
Fixpoint tick_loop (snapshot : list TaskState) (ids : list string) (m : LoopMemory) (w : @World Store Disp Gate Cache) :
    list (TaskState * OrchestrationOutcome) * LoopMemory * @World Store Disp Gate Cache :=
  match ids with
  | [] => ([], m, w)
  | id :: ids =>
      match List.find (λ t, t.(ts_task_id) =s id) snapshot with
      | None => tick_loop snapshot ids m w
      | Some task =>
          if bool_decide (task_key task ∈ m.(lm_attempted)) then tick_loop snapshot ids m w
          else
            let attempted := {[task_key task]} ∪ m.(lm_attempted) in
            let '(outcome, w) := process_one action_from_value regex_new debug_str orchestrator now now_unix task snapshot
              (generate m.(lm_generated)) w in
            let attempted := if is_awaiting outcome then attempted ∖ {[task_key task]} else attempted in
            let claimed :=
              match claimed_invocation_id outcome with
              | Some invocation_id => {[invocation_id]} ∪ m.(lm_claimed)
              | None => m.(lm_claimed)
              end in
            let '(rest, m, w) := tick_loop snapshot ids (mkMemory claimed attempted (S m.(lm_generated))) w in
            ((task, outcome) :: rest, m, w)
      end
  end.
Definition run_scheduler_tick (snapshot : list TaskState) (invocations : gmap string InvocationState) (m : LoopMemory)
    (w : @World Store Disp Gate Cache) :
    list OrchestrationOutcome * list (TaskState * OrchestrationOutcome) * LoopMemory * @World Store Disp Gate Cache :=
  let '(recovered, w) := reconcile_executing_tasks debug_str orchestrator now snapshot m.(lm_claimed) invocations w in
  let running := N.of_nat (length (List.filter (λ t, t.(ts_state) =s STATE_EXECUTING) snapshot)) in
  let runnable_ids := map ts_task_id (runnable action_from_value scheduler snapshot running) in
  let '(processed, m, w) := tick_loop snapshot runnable_ids m w in
  (recovered, processed, m, w).
End tick.

(** The head of an iteration of the loop. *)
Definition MAX_ATTEMPTED_TRACKED : nat := N.to_nat 50000.
Definition trim_memory (m : LoopMemory) : LoopMemory :=
  mkMemory (if bool_decide (MAX_ATTEMPTED_TRACKED < size m.(lm_claimed)) then ∅ else m.(lm_claimed))
    (if bool_decide (MAX_ATTEMPTED_TRACKED < size m.(lm_attempted)) then ∅ else m.(lm_attempted)) m.(lm_generated).

(** ** One attempt per revision *)

Definition settled (log : list (TaskState * OrchestrationOutcome)) : list (string * Z) :=
  map (λ x, task_key x.1) (List.filter (λ x, negb (is_awaiting x.2)) log).
Lemma settled_app a b : settled (a ++ b) = settled a ++ settled b.
Proof. unfold settled. by rewrite List.filter_app, map_app. Qed.

Section ticks.
Context `{Crypto} {Store Disp Gate Cache : Type}
  `{!TaskStore Store, !TaskDispatcher Disp, !NonceGuard Cache, !TaskApprovalGate Gate Cache}.
Context (afv : Value → option TaskAction) (regex_new : RegexNew) (debug_str : string → string) (generate : nat → string).
Abbreviation world := (@World Store Disp Gate Cache).

(** What a loop over ids does to the memory. *)
Record loop_effect (snapshot : list TaskState) (ids : list string) (m m' : LoopMemory)
    (log : list (TaskState * OrchestrationOutcome)) : Prop := {
  le_grows : m.(lm_attempted) ⊆ m'.(lm_attempted);
  le_fresh : ∀ x, x ∈ log → task_key x.1 ∉ m.(lm_attempted);
  le_settled : ∀ k, k ∈ settled log → k ∈ m'.(lm_attempted);
  le_once : NoDup (settled log);
  le_size : size m'.(lm_attempted) ≤ size m.(lm_attempted) + length log;
  le_claimed : m.(lm_claimed) ⊆ m'.(lm_claimed);
  le_claimed_size : size m'.(lm_claimed) ≤ size m.(lm_claimed) + length log;
  le_own : ∀ x id, x ∈ log → claimed_invocation_id x.2 = Some id → id ∈ m'.(lm_claimed);
  le_chosen : ∀ x, x ∈ log → x.1 ∈ snapshot ∧ x.1.(ts_task_id) ∈ ids;
}.
Lemma loop_effect_skip snapshot id ids m m' log :
  loop_effect snapshot ids m m' log → loop_effect snapshot (id :: ids) m m' log.
Proof. intros []. split; try done. intros x Hx. split; [by apply le_chosen0|right; by apply le_chosen0]. Qed.
Lemma loop_effect_cons snapshot id ids m m' task o rest :
  task ∈ snapshot → task.(ts_task_id) = id → task_key task ∉ m.(lm_attempted) →
  loop_effect snapshot ids
    (mkMemory (match claimed_invocation_id o with Some i => {[i]} ∪ m.(lm_claimed) | None => m.(lm_claimed) end)
       (if is_awaiting o then ({[task_key task]} ∪ m.(lm_attempted)) ∖ {[task_key task]}
        else {[task_key task]} ∪ m.(lm_attempted)) (S m.(lm_generated))) m' rest →
  loop_effect snapshot (id :: ids) m m' ((task, o) :: rest).
Proof.
  intros Ht Hid Hf [Hg Hfr Hs Ho Hz Hc Hcz Hown Hch]. cbn [lm_attempted lm_claimed] in *.
  assert (({[task_key task]} ∪ m.(lm_attempted)) ∖ {[task_key task]} = m.(lm_attempted)) as Hdiff by set_solver.
  rewrite Hdiff in Hg, Hfr, Hz. split.
  - destruct (is_awaiting o); set_solver.
  - intros x [-> |Hx]%elem_of_cons; [done|]. specialize (Hfr x Hx). destruct (is_awaiting o); set_solver.
  - intros k. unfold settled. cbn [List.filter map snd fst]. destruct (is_awaiting o) eqn:Ea; cbn [negb]; [apply Hs|].
    cbn [map]. rewrite elem_of_cons. intros [-> |Hk]; [set_solver|by apply Hs].
  - unfold settled. cbn [List.filter snd]. destruct (is_awaiting o) eqn:Ea; cbn [negb]; [done|]. cbn [map fst].
    constructor; [|done]. intros (x & Hk & Hx)%list_elem_of_fmap.
    apply list_elem_of_In, List.filter_In in Hx as [Hx _]. apply list_elem_of_In, Hfr in Hx.
    apply Hx. rewrite <- Hk. apply elem_of_union_l. by apply elem_of_singleton.
  - cbn [length]. destruct (is_awaiting o); [lia|]. rewrite size_union in Hz by set_solver.
    rewrite size_singleton in Hz. lia.
  - destruct (claimed_invocation_id o); set_solver.
  - cbn [length]. destruct (claimed_invocation_id o) as [i|]; [|lia].
    pose proof (size_union_alt {[i]} (lm_claimed m)) as Hu. rewrite size_singleton in Hu.
    pose proof (subseteq_size (lm_claimed m ∖ {[i]}) (lm_claimed m) ltac:(set_solver)). lia.
  - intros x i [-> |Hx]%elem_of_cons; [|by apply Hown]. cbn [snd]. intros Hi. rewrite Hi in Hc. set_solver.
  - intros x [-> |Hx]%elem_of_cons; [split; [done|subst id; by left]|]. destruct (Hch x Hx). split; [done|by right].
Qed.
Lemma tick_loop_effect orchestrator now now_unix snapshot ids : ∀ m (w : world) log m' w',
  tick_loop afv regex_new debug_str generate orchestrator now now_unix snapshot ids m w = (log, m', w') →
  loop_effect snapshot ids m m' log.
Proof.
  induction ids as [|id ids IH]; intros m w log m' w'.
  { intros [= <- <- <-]. split; try done; [by intros x ?%not_elem_of_nil|by intros k ?%not_elem_of_nil|constructor|
      simpl; lia|simpl; lia|by intros x i ?%not_elem_of_nil|by intros x ?%not_elem_of_nil]. }
  cbn [tick_loop]. destruct (List.find _ snapshot) as [task|] eqn:Ef;
    [|intros E; eapply loop_effect_skip, IH, E].
  apply List.find_some in Ef as [Hin Hid]. apply str_eqb_eq in Hid.
  case_bool_decide as Hb; [intros E; eapply loop_effect_skip, IH, E|].
  destruct (process_one _ _ _ _ _ _ _ _ _ w) as [o w1].
  destruct (tick_loop _ _ _ _ _ _ _ _ _ _ _) as [[rest m1] w2] eqn:El. intros [= <- <- <-].
  apply loop_effect_cons; [by apply list_elem_of_In|done|done|]. eapply IH, El.
Qed.

(** A tick of the loop as it is called: the memory is trimmed first, and the world is
    whatever the pass finds. *)
Record Tick := {
  ti_scheduler : TaskScheduler;
  ti_orchestrator : TaskOrchestrator;
  ti_now : string;
  ti_now_unix : Z;
  ti_snapshot : list TaskState;
  ti_invocations : gmap string InvocationState;
  ti_world : world;
}.
Definition run_tick (t : Tick) (m : LoopMemory) :
    list OrchestrationOutcome * list (TaskState * OrchestrationOutcome) * LoopMemory * world :=
  run_scheduler_tick afv regex_new debug_str generate t.(ti_scheduler) t.(ti_orchestrator) t.(ti_now) t.(ti_now_unix)
    t.(ti_snapshot) t.(ti_invocations) (trim_memory m) t.(ti_world).
Fixpoint run_ticks (ts : list Tick) (m : LoopMemory) : list (TaskState * OrchestrationOutcome) * LoopMemory :=
  match ts with
  | [] => ([], m)
  | t :: ts =>
      let '(_, processed, m, _) := run_tick t m in
      let '(rest, m) := run_ticks ts m in (processed ++ rest, m)
  end.

Lemma trim_attempted m : size m.(lm_attempted) ≤ MAX_ATTEMPTED_TRACKED → (trim_memory m).(lm_attempted) = m.(lm_attempted).
Proof. intros Hs. unfold trim_memory. cbn [lm_attempted]. rewrite bool_decide_false; [done|lia]. Qed.
Lemma run_tick_effect t m processed recovered m' w :
  run_tick t m = (recovered, processed, m', w) →
  ∃ ids, loop_effect t.(ti_snapshot) ids (trim_memory m) m' processed ∧
    ∀ x, x ∈ ids → ∃ task, task ∈ runnable afv t.(ti_scheduler) t.(ti_snapshot)
      (N.of_nat (length (List.filter (λ t, t.(ts_state) =s STATE_EXECUTING) t.(ti_snapshot)))) ∧ task.(ts_task_id) = x.
Proof.
  unfold run_tick, run_scheduler_tick. destruct (reconcile_executing_tasks _ _ _ _ _ _ _) as [r w1].
  destruct (tick_loop _ _ _ _ _ _ _ _ _ _ _) as [[p m1] w2] eqn:E. intros [= <- <- <- <-].
  eexists. split; [eapply tick_loop_effect, E|]. intros x (task & -> & Hx)%list_elem_of_fmap. eauto.
Qed.
Lemma run_ticks_once ts : ∀ m log m',
  run_ticks ts m = (log, m') → size m.(lm_attempted) + length log ≤ MAX_ATTEMPTED_TRACKED →
  NoDup (settled log) ∧ (∀ k, k ∈ settled log → k ∉ m.(lm_attempted)).
Proof.
  induction ts as [|t ts IH]; intros m log m'; cbn [run_ticks].
  { intros [= <- <-] _. split; [constructor|by intros k ?%not_elem_of_nil]. }
  destruct (run_tick t m) as [[[r p] m1] w] eqn:Et. destruct (run_ticks ts m1) as [rest m2] eqn:Er.
  intros [= <- <-]. rewrite length_app. intros Hz.
  destruct (run_tick_effect _ _ _ _ _ _ Et) as (ids & [Hg Hfr Hs Ho Hsz _ _ _ _] & _).
  rewrite trim_attempted in Hg, Hfr, Hsz by lia.
  destruct (IH _ _ _ Er) as [Hnd Hnew]; [lia|]. rewrite settled_app. split.
  - apply NoDup_app. split_and!; [done| |done]. intros k Hk Hk'. by apply (Hnew k Hk'), Hs.
  - intros k [Hk|Hk]%elem_of_app; [|intros Hin; apply (Hnew k Hk); by apply Hg].
    unfold settled in Hk. apply list_elem_of_fmap in Hk as (x & -> & Hx).
    apply list_elem_of_In, List.filter_In in Hx as [Hx _]. by apply Hfr, list_elem_of_In.
Qed.
Lemma trim_claimed m : size m.(lm_claimed) ≤ MAX_ATTEMPTED_TRACKED → (trim_memory m).(lm_claimed) = m.(lm_claimed).
Proof. intros Hs. unfold trim_memory. cbn [lm_claimed]. rewrite bool_decide_false; [done|lia]. Qed.
Lemma run_ticks_claimed ts : ∀ m log m',
  run_ticks ts m = (log, m') → size m.(lm_claimed) + length log ≤ MAX_ATTEMPTED_TRACKED →
  m.(lm_claimed) ⊆ m'.(lm_claimed) ∧ size m'.(lm_claimed) ≤ size m.(lm_claimed) + length log ∧
  (∀ x id, x ∈ log → claimed_invocation_id x.2 = Some id → id ∈ m'.(lm_claimed)).
Proof.
  induction ts as [|t ts IH]; intros m log m'; cbn [run_ticks].
  { intros [= <- <-] _. split_and!; [done|simpl; lia|by intros x i ?%not_elem_of_nil]. }
  destruct (run_tick t m) as [[[r p] m1] w] eqn:Et. destruct (run_ticks ts m1) as [rest m2] eqn:Er.
  intros [= <- <-]. rewrite length_app. intros Hz.
  destruct (run_tick_effect _ _ _ _ _ _ Et) as (ids & [_ _ _ _ _ Hc Hcz Hown _] & _).
  rewrite trim_claimed in Hc, Hcz by lia.
  destruct (IH _ _ _ Er) as (Hc' & Hcz' & Hown'); [lia|]. split_and!; [set_solver|lia|].
  intros x i [Hx|Hx]%elem_of_app Hi; [by eapply Hc', Hown|by eapply Hown'].
Qed.
Lemma run_ticks_chosen ts : ∀ m log m', run_ticks ts m = (log, m') → ∀ x, x ∈ log →
  ∃ t task, t ∈ ts ∧ x.1 ∈ t.(ti_snapshot) ∧ task.(ts_task_id) = x.1.(ts_task_id) ∧
    task ∈ runnable afv t.(ti_scheduler) t.(ti_snapshot)
      (N.of_nat (length (List.filter (λ t, t.(ts_state) =s STATE_EXECUTING) t.(ti_snapshot)))).
Proof.
  induction ts as [|t ts IH]; intros m log m'; cbn [run_ticks]; [intros [= <- <-] x ?%not_elem_of_nil; done|].
  destruct (run_tick t m) as [[[r p] m1] w] eqn:Et. destruct (run_ticks ts m1) as [rest m2] eqn:Er.
  intros [= <- <-] x [Hx|Hx]%elem_of_app.
  - destruct (run_tick_effect _ _ _ _ _ _ Et) as (ids & [_ _ _ _ _ _ _ _ Hch] & Hids).
    destruct (Hch x Hx) as [Hin Hid]. destruct (Hids _ Hid) as (task & Hr & He). exists t, task.
    split_and!; [left|done|done|done].
  - destruct (IH _ _ _ Er x Hx) as (t' & task & Ht & H'). exists t', task. split; [by right|done].
Qed.

(** C25: over any sequence of ticks of one loop that processes at most 50,000 tasks, as many as
    the loop keeps track of, a task is settled at most once per revision: it is processed again
    at the same revision only while it waits for an approval.  Only tasks the scheduler
    chose from the tick's snapshot are processed.  And a task whose outcome the loop
    recorded under the invocation it had claimed is never recovered as an orphan by that
    loop, however stale the snapshot: reconciliation leaves everything as it was. *)
Theorem ticks_settle_once ts log m' :
  run_ticks ts (mkMemory ∅ ∅ 0) = (log, m') → length log ≤ MAX_ATTEMPTED_TRACKED →
  NoDup (settled log) ∧
  (∀ x, x ∈ log → ∃ t task, t ∈ ts ∧ x.1 ∈ t.(ti_snapshot) ∧ task.(ts_task_id) = x.1.(ts_task_id) ∧
    task ∈ runnable afv t.(ti_scheduler) t.(ti_snapshot)
      (N.of_nat (length (List.filter (λ t, t.(ts_state) =s STATE_EXECUTING) t.(ti_snapshot))))) ∧
  (∀ x id, x ∈ log → claimed_invocation_id x.2 = Some id →
     ∀ self now invs task (w : world), task.(ts_invocation_id) = Some id →
       (reconcile_one debug_str self now (trim_memory m').(lm_claimed) invs task w).2 = w).
Proof.
  intros Hr Hz.
  assert (size (lm_attempted (mkMemory ∅ ∅ 0)) = 0 ∧ size (lm_claimed (mkMemory ∅ ∅ 0)) = 0) as [Hz1 Hz2]
    by (cbn; by rewrite !size_empty).
  destruct (run_ticks_once _ _ _ _ Hr) as [Hnd _]; [lia|].
  destruct (run_ticks_claimed _ _ _ _ Hr) as (_ & Hcz & Hown); [lia|].
  split_and!; [done|by eapply run_ticks_chosen|].
  intros x id Hx Hid self now invs task w Ht. unfold reconcile_one. rewrite trim_claimed by lia.
  destruct (is_assigned self task); cbn [negb]; [|done]. rewrite Ht, bool_decide_true; [done|]. by eapply Hown.
Qed.

(** An invocation whose outcome could not be recorded is not remembered as the
    loop's own.  When the store fails after the task was claimed, the next tick that sees
    the task executing treats it as an orphan of an earlier daemon and writes it as
    failed, whatever the command came to. *)
Theorem unrecorded_outcome_becomes_failed orchestrator now now_unix snapshot id m (w : world) task tid why m' w' :
  tick_loop afv regex_new debug_str generate orchestrator now now_unix snapshot [id] m w =
    ([(task, OStoreError tid why)], m', w') →
  generate m.(lm_generated) ∉ m.(lm_claimed) →
  ∀ seen (w2 : world) now2, is_assigned orchestrator seen = true → seen.(ts_state) = STATE_EXECUTING →
    seen.(ts_invocation_id) = Some (generate m.(lm_generated)) →
    (reconcile_one debug_str orchestrator now2 m'.(lm_claimed) ∅ seen w2).2 =
    (run_finalize (finalize_options seen.(ts_task_id) STATE_FAILED
       (failure_result orchestrator.(to_agent_id) now2 seen.(ts_invocation_id) None "recovered_stale_invocation"
          (Some "daemon restart found executing task without live local invocation")) seen.(ts_state_rev)) w2).2.
Proof.
  intros Hl Hf. assert (generate m.(lm_generated) ∉ m'.(lm_claimed)) as Hn.
  { revert Hl. cbn [tick_loop]. destruct (List.find _ snapshot); [|done]. case_bool_decide; [done|].
    destruct (process_one _ _ _ _ _ _ _ _ _ w) as [o w1]. intros [= -> -> <- <-]. done. }
  intros seen w2 now2 Ha Hs Hi. unfold reconcile_one, recover_stale_executing. rewrite Ha, Hi. cbn [negb mbind option_bind].
  rewrite bool_decide_false, lookup_empty by done. rewrite Hs, str_eqb_refl. cbn [negb orb].
  by destruct (run_finalize _ w2) as [[t|e] w3].
Qed.
End ticks.

(** ** The store over a lagging copy *)

Definition lookup_local (s : MatrixStore) (k : string) : option (TaskState * option string) :=
  match s.(ms_local).(room_tasks) !! k with Some (Content t id) => Some (t, id) | _ => None end.
(** What an update starts from. *)
Definition starts_from (s : MatrixStore) (k : string) : option (TaskState * option string) :=
  opt_or (s.(ms_write_cache) !! k) (lookup_local s k).
Definition shows_terminal (s : MatrixStore) (k : string) : bool :=
  match lookup_local s k with Some (t, _) => TaskLifecycle.is_terminal t.(ts_state) | None => false end.

Lemma store_update_spec now o s t id :
  shows_terminal s o.(uo_task_id) = false → starts_from s o.(uo_task_id) = Some (t, id) →
  store_update now o s =
    match apply_and_publish_task now t id o s.(ms_room) with
    | (Ok (updated, _), room) =>
        (Ok updated, mkStore s.(ms_local) room (<[updated.(ts_task_id) := (updated, None)]> s.(ms_write_cache)))
    | (Err e, room) => (Err e, mkStore s.(ms_local) room s.(ms_write_cache))
    end.
Proof.
  unfold shows_terminal, starts_from, lookup_local, store_update, read_task_state.
  destruct (ms_write_cache s !! uo_task_id o) as [[t' id']|]; cbn [opt_or].
  - intros Ht [= -> ->]. destruct (room_tasks (ms_local s) !! uo_task_id o) as [[t' id'| |]|]; cbn [fst]; by rewrite ?Ht.
  - destruct (room_tasks (ms_local s) !! uo_task_id o) as [[t' id'| |]|]; try done. cbn [fst].
    intros Ht [= -> ->]. by rewrite Ht.
Qed.
Lemma store_update_terminal now o s :
  shows_terminal s o.(uo_task_id) = true → ∃ e c, store_update now o s = (Err (StaleTaskUpdate o.(uo_task_id) e c), s).
Proof.
  unfold shows_terminal, lookup_local, store_update, read_task_state.
  destruct (room_tasks (ms_local s) !! uo_task_id o) as [[t' id'| |]|]; try done. cbn [fst]. intros ->. eauto.
Qed.

Definition state_allowed (t : TaskState) (o : UpdateTaskOptions) : Prop :=
  match o.(uo_state) with Some to => check_transition t.(ts_task_id) t.(ts_state) to = Ok tt | None => True end.
Lemma apply_and_publish_ok now t id o r ev answers :
  o.(uo_expected_state_rev) = Some t.(ts_state_rev) → state_allowed t o → r.(room_answers) = Some ev :: answers →
  ∃ r', apply_and_publish_task now t id o r = (Ok (apply_update t o now id, ev), r') ∧
    r'.(room_tasks) = <[o.(uo_task_id) := Content (apply_update t o now id) (Some ev)]> r.(room_tasks).
Proof.
  intros Hrev Hst Hans. unfold apply_and_publish_task, check_not_stale, state_allowed in *. rewrite Hrev, Z.eqb_refl. cbn [negb].
  assert (match uo_state o with Some to => check_transition (ts_task_id t) (ts_state t) to | None => Ok tt end = Ok tt) as ->
    by by destruct (uo_state o).
  unfold publish_task_state, bind, lift, send, ret. rewrite Hans. eexists. split; reflexivity.
Qed.

(** The store believes the daemon's synced copy of the room.  A task the copy shows
    terminal is not touched.  Otherwise an update at the revision the copy, or the
    store's own earlier write, shows is published whenever the homeserver accepts it; so
    a claim can be finalized before it is synced back, but also a task that another
    writer has cancelled in the room is overwritten as long as the copy does not show
    it. *)
Theorem store_trusts_synced_copy now o s :
  (shows_terminal s o.(uo_task_id) = true → (store_update now o s).2 = s ∧ is_err (store_update now o s).1 = true) ∧
  (∀ t id ev answers,
     shows_terminal s o.(uo_task_id) = false → starts_from s o.(uo_task_id) = Some (t, id) →
     o.(uo_expected_state_rev) = Some t.(ts_state_rev) → state_allowed t o → s.(ms_room).(room_answers) = Some ev :: answers →
     ∃ s', store_update now o s = (Ok (apply_update t o now id), s') ∧
       s'.(ms_room).(room_tasks) !! o.(uo_task_id) = Some (Content (apply_update t o now id) (Some ev)) ∧
       s'.(ms_local) = s.(ms_local) ∧
       (t.(ts_task_id) = o.(uo_task_id) → starts_from s' o.(uo_task_id) = Some (apply_update t o now id, None))).
Proof.
  split.
  - intros Ht. destruct (store_update_terminal now o s Ht) as (e & c & ->). done.
  - intros t id ev answers Ht Hs Hrev Hst Hans. rewrite (store_update_spec _ _ _ _ _ Ht Hs).
    destruct (apply_and_publish_ok now t id o (ms_room s) ev answers Hrev Hst Hans) as (r' & -> & Hr).
    eexists. split; [reflexivity|]. cbn [ms_room ms_local]. split_and!; [by rewrite Hr, lookup_insert_eq|done|].
    intros Hid. unfold starts_from. cbn [ms_write_cache].
    assert (ts_task_id (apply_update t o now id) = o.(uo_task_id)) as -> by done. by rewrite lookup_insert_eq.
Qed.
(** The theorem applied to a task cancelled in the room while the copy shows it
    executing: the finalize replaces the cancellation. *)
Module Sample.
Definition executing : TaskState :=
  apply_update TaskLifecycle.Sample.task (claim_options "agent-b" TaskLifecycle.Sample.task "inv") "now" None.
Definition cancelled : TaskState := apply_update executing (cancel_options "t1" STATE_CANCELLED Null) "now" None.
Definition room (t : TaskState) : Room :=
  {| room_tasks := {["t1" := Content t (Some "$1")]}; room_invocations := ∅; room_cancels := []; room_answers := [Some "$9"] |}.
Definition store : MatrixStore := mkStore (room executing) (room cancelled) ∅.
End Sample.
Lemma store_trusts_synced_copy_witness :
  let o := finalize_options "t1" STATE_SUCCEEDED Null Sample.executing.(ts_state_rev) in
  Sample.cancelled.(ts_state) = STATE_CANCELLED ∧
  ∃ s', store_update "now" o Sample.store = (Ok (apply_update Sample.executing o "now" (Some "$1")), s') ∧
    s'.(ms_room).(room_tasks) !! "t1" = Some (Content (apply_update Sample.executing o "now" (Some "$1")) (Some "$9")).
Proof.
  intros o. split; [reflexivity|].
  destruct (proj2 (store_trusts_synced_copy "now" o Sample.store) Sample.executing (Some "$1") "$9" [] eq_refl eq_refl eq_refl
    eq_refl eq_refl) as (s' & Hu & Hr & _). exists s'. split; [exact Hu|exact Hr].
Defined.

Section loop_witnesses.
#[local] Existing Instance Signing.Toy.toy_crypto.
#[local] Instance loop_guard : NonceGuard Guard := cache_guard sample_iter (λ _, "").
#[local] Instance loop_dispatcher : TaskDispatcher (list TaskAction) := log_dispatcher OrchestratorCorrect.Sample.outcome_of.
(** A store that claims, and whose finalize fails when [true]; it keeps the states written. *)
#[local] Instance flaky_store : TaskStore (bool * list string) :=
  {| claim o s := (Ok Sample.executing, (s.1, s.2 ++ ["claim"]));
     finalize o s := if s.1 : bool then (Err (OtherStoreError "offline"), s)
                     else (Ok Sample.executing, (s.1, s.2 ++ [default "" o.(uo_state)])) |}.
Definition sample_world (b : bool) : World (Store := bool * list string) (Disp := list TaskAction) (Cache := Guard) :=
  {| w_store := (b, []); w_dispatcher := [];
     w_gate := Some (OrchestratorCorrect.Sample.gate "2026-01-01T12:00:00Z" 1000 (Some OrchestratorCorrect.Sample.decision));
     w_cache := Some OrchestratorCorrect.Sample.guard |}.
Definition sample_generate (n : nat) : string := match n with 0 => "inv" | _ => "inv2" end.
Definition sample_tick : Tick (Store := bool * list string) :=
  {| ti_scheduler := {| sc_agent_id := "agent-b"; sc_max_invocations := 2; sc_auto_claim := false |};
     ti_orchestrator := OrchestratorCorrect.Sample.self; ti_now := "2026-01-01T00:00:00Z"; ti_now_unix := 1000;
     ti_snapshot := [OrchestratorCorrect.Sample.task]; ti_invocations := ∅; ti_world := sample_world false |}.

(** The theorem applied to two ticks over one stale snapshot: the task runs once. *)
Lemma ticks_settle_once_witness :
  ∃ log m', run_ticks (λ _, None) PolicyEngine.Sample.literal_regex id sample_generate [sample_tick; sample_tick] (mkMemory ∅ ∅ 0)
      = (log, m') ∧ map snd log = [OCompleted "t1" "inv" STATE_EXECUTING] ∧ NoDup (settled log) ∧
    (reconcile_one id OrchestratorCorrect.Sample.self "now" (trim_memory m').(lm_claimed) ∅ Sample.executing (sample_world false)).2
      = sample_world false.
Proof.
  destruct (run_ticks (λ _, None) PolicyEngine.Sample.literal_regex id sample_generate [sample_tick; sample_tick] (mkMemory ∅ ∅ 0))
    as [log m'] eqn:E. exists log, m'. split; [reflexivity|].
  assert (map snd log = [OCompleted "t1" "inv" STATE_EXECUTING]) as Hl.
  { apply (f_equal (λ x, map snd x.1)) in E. cbn [fst] in E. rewrite <- E. vm_compute. reflexivity. }
  assert (length log ≤ MAX_ATTEMPTED_TRACKED) as Hz.
  { rewrite <- (length_map snd log), Hl. cbn. unfold MAX_ATTEMPTED_TRACKED. lia. }
  destruct (ticks_settle_once _ _ _ _ _ _ _ E Hz) as (Hnd & _ & Hown).
  split; [exact Hl|]. split; [exact Hnd|].
  destruct log as [|x log]; [discriminate Hl|]. injection Hl as Hx _.
  exact (Hown x "inv" (list_elem_of_here x log) ltac:(rewrite Hx; reflexivity) _ _ ∅ Sample.executing _ eq_refl).
Defined.
(** The theorem applied to a store that is offline when the outcome is written. *)
Lemma unrecorded_outcome_becomes_failed_witness :
  ∃ m' w', tick_loop (λ _, None) PolicyEngine.Sample.literal_regex id sample_generate OrchestratorCorrect.Sample.self
      "2026-01-01T00:00:00Z" 1000 [OrchestratorCorrect.Sample.task] ["t1"] (mkMemory ∅ ∅ 0) (sample_world true)
      = ([(OrchestratorCorrect.Sample.task, OStoreError "t1" "offline")], m', w') ∧
    length w'.(w_dispatcher) = 1 ∧
    (reconcile_one id OrchestratorCorrect.Sample.self "now" m'.(lm_claimed) ∅ Sample.executing (sample_world false)).2.(w_store)
      = (false, [STATE_FAILED]).
Proof.
  destruct (tick_loop (λ _, None) PolicyEngine.Sample.literal_regex id sample_generate OrchestratorCorrect.Sample.self
      "2026-01-01T00:00:00Z" 1000 [OrchestratorCorrect.Sample.task] ["t1"] (mkMemory ∅ ∅ 0) (sample_world true)) as [[log m'] w'] eqn:E.
  assert (log = [(OrchestratorCorrect.Sample.task, OStoreError "t1" "offline")]) as ->
    by (apply (f_equal (λ x, x.1.1)) in E; cbn [fst] in E; rewrite <- E; vm_compute; reflexivity).
  exists m', w'. split; [reflexivity|].
  split; [apply (f_equal (λ x, length x.2.(w_dispatcher))) in E; cbn [snd] in E; rewrite <- E; vm_compute; reflexivity|].
  assert (sample_generate 0 ∉ (∅ : gset string)) as Hn by apply not_elem_of_empty.
  rewrite (unrecorded_outcome_becomes_failed _ _ _ _ _ _ _ _ _ _ _ _ _ _ _ _ E Hn Sample.executing (sample_world false) "now"
    eq_refl eq_refl eq_refl). reflexivity.
Defined.
End loop_witnesses.
