(* ===== verification/Streams.v ===== *)
(** * Output capture

    Models [crates/mx-agent-daemon/src/stream.rs]: the two readers that turn a child's
    output into chunks, the byte budget they share, and the encoding of a chunk.  Each
    reader is a task that stops at its [await] points; a schedule says which task goes
    next, and the theorems hold for every schedule.  A read yields data, nothing in
    time, or an error; a reader with no more reads is at end of file.  Waiting for an
    event token only delays a task, so the token bucket is not part of the state. *)
From Stdlib Require Import Ascii ZArith Lia.
From stdpp Require Import gmap strings list.
From S2P Require Import Prelude RustStr Time CanonicalJson Schema Signing.
Local Open Scope Z_scope.

(** ** Bytes and text *)

(** [Vec<u8>] is a list of bytes; text is a [string]. *)
Abbreviation bytes := (list ascii).
Abbreviation to_text := String.string_of_list_ascii.
Abbreviation to_bytes := String.list_ascii_of_string.

(** [str::from_utf8]: well-formed UTF-8 (Unicode, table 3-7). *)
Definition in_range (lo hi : N) (c : ascii) : bool := ((lo <=? byte_of c) && (byte_of c <=? hi))%N.
Fixpoint from_utf8_ok (data : bytes) : bool :=
  match data with
  | [] => true
  | a :: r =>
    if in_range 0 127 a then from_utf8_ok r
    else match r with
    | [] => false
    | b :: r =>
      if in_range 194 223 a then in_range 128 191 b && from_utf8_ok r
      else match r with
      | [] => false
      | c :: r =>
        if in_range 224 239 a then
          in_range (if (byte_of a =? 224)%N then 160 else 128)%N (if (byte_of a =? 237)%N then 159 else 191)%N b
          && in_range 128 191 c && from_utf8_ok r
        else match r with
        | [] => false
        | d :: r =>
          in_range 240 244 a
          && in_range (if (byte_of a =? 240)%N then 144 else 128)%N (if (byte_of a =? 244)%N then 143 else 191)%N b
          && in_range 128 191 c && in_range 128 191 d && from_utf8_ok r
        end
      end
    end
  end.

(** [now_rfc3339_millis], of the clock reading. *)
Definition now_rfc3339_millis (now : Z * Z) : string :=
  let '(secs, millis) := now in
  let days := Z.quot secs 86400 in
  let tod := Z.rem secs 86400 in
  let hour := Z.quot tod 3600 in
  let minute := Z.quot (Z.rem tod 3600) 60 in
  let second := Z.rem tod 60 in
  let '(year, month, day) := civil_from_days days in
  format_pad 4 year +:+ "-" +:+ format_pad 2 month +:+ "-" +:+ format_pad 2 day +:+ "T"
  +:+ format_pad 2 hour +:+ ":" +:+ format_pad 2 minute +:+ ":" +:+ format_pad 2 second +:+ "."
  +:+ format_pad 3 millis +:+ "Z".

(** ** Configuration *)

Definition DEFAULT_MAX_CHUNK_BYTES : Z := 16 * 1024.
Definition DEFAULT_BATCH_FLUSH_INTERVAL : Z := 250.
Definition DEFAULT_INTERACTIVE_FLUSH_INTERVAL : Z := 50.

Record OutputCaps := { cap_max_output_bytes : option Z; cap_max_events_per_second : option Z }.
Definition unlimited_caps : OutputCaps := {| cap_max_output_bytes := None; cap_max_events_per_second := None |}.
Record StreamCaptureConfig := {
  scc_max_chunk_bytes : Z;
  scc_flush_interval : Z;
  scc_flush_on_newline : bool;
  scc_caps : OutputCaps;
}.
Definition batch : StreamCaptureConfig :=
  {| scc_max_chunk_bytes := DEFAULT_MAX_CHUNK_BYTES; scc_flush_interval := DEFAULT_BATCH_FLUSH_INTERVAL;
     scc_flush_on_newline := false; scc_caps := unlimited_caps |}.
Definition interactive : StreamCaptureConfig :=
  {| scc_max_chunk_bytes := DEFAULT_MAX_CHUNK_BYTES; scc_flush_interval := DEFAULT_INTERACTIVE_FLUSH_INTERVAL;
     scc_flush_on_newline := true; scc_caps := unlimited_caps |}.
Definition with_caps (c : StreamCaptureConfig) (caps : OutputCaps) : StreamCaptureConfig :=
  {| scc_max_chunk_bytes := c.(scc_max_chunk_bytes); scc_flush_interval := c.(scc_flush_interval);
     scc_flush_on_newline := c.(scc_flush_on_newline); scc_caps := caps |}.

(** ** The shared byte budget *)

Record LimiterInner := { lm_max_output_bytes : option Z; lm_emitted : Z; lm_truncated : bool }.
Definition limiter_new (caps : OutputCaps) : LimiterInner :=
  {| lm_max_output_bytes := caps.(cap_max_output_bytes); lm_emitted := 0; lm_truncated := false |}.

(** [saturating_sub] of [u64]. *)
Definition saturating_sub (a b : Z) : Z := Z.max 0 (a - b).

(** One successful round of the exchange loop: the loop retries until no other task
    came between its load and its exchange. *)
Definition reserve (l : LimiterInner) (len : Z) : Z * LimiterInner :=
  match l.(lm_max_output_bytes) with
  | None => (len, l)
  | Some max =>
    let remaining := saturating_sub max l.(lm_emitted) in
    let grant := Z.min len remaining in
    (grant, {| lm_max_output_bytes := Some max; lm_emitted := l.(lm_emitted) + grant;
               lm_truncated := if grant <? len then true else l.(lm_truncated) |})
  end.

Record CaptureSummary := { cs_truncated : bool; cs_output_bytes : Z }.

(** ** Chunks *)

Section capture.
Context `{Crypto}.

Definition encode_chunk (data : bytes) : string * string :=
  if from_utf8_ok data then ("utf-8", to_text data) else ("base64", b64_encode (to_text data)).

Definition chunk_sha256 (data : bytes) : option string :=
  match data with [] => None | _ => Some (b64_encode (sha256 (to_text data))) end.

(** The sink is what was sent and the number of sends before the receiver is dropped. *)
Record Sink := { sink_sent : list StreamChunk; sink_left : option nat }.
Definition sink_send (s : Sink) (c : StreamChunk) : bool * Sink :=
  match s.(sink_left) with
  | None => (true, {| sink_sent := s.(sink_sent) ++ [c]; sink_left := None |})
  | Some O => (false, s)
  | Some (S n) => (true, {| sink_sent := s.(sink_sent) ++ [c]; sink_left := Some n |})
  end.

(** [clock n] is the time when the sink holds [n] chunks. *)
Context (clock : nat → Z * Z) (invocation_id : string).

Definition build_chunk (stream : StreamKind) (seq : Z) (data : bytes) (eof : bool) (now : Z * Z) : StreamChunk :=
  let '(encoding, payload) := encode_chunk data in
  {| sc_invocation_id := invocation_id; sc_stream := stream; sc_seq := seq; sc_encoding := encoding;
     sc_data := payload; sc_eof := eof; sc_compressed := false; sc_sha256 := chunk_sha256 data;
     sc_timestamp := now_rfc3339_millis now; sc_signature := None; sc_extra := ∅ |}.
Definition send_chunk (stream : StreamKind) (seq : Z) (data : bytes) (eof : bool) (s : Sink) : bool * Z * Sink :=
  let '(ok, s) := sink_send s (build_chunk stream seq data eof (clock (length s.(sink_sent)))) in
  (ok, seq + 1, s).

(** ** One reader *)

Inductive Emit := Sent | Closed | BudgetExhausted.

(** What a read yields before the flush interval is over. *)
Inductive ReadResult := Elapsed | ReadData (data : bytes) | ReadError.

(** Where a reader is: the [emit_chunk] calls are numbered in their order in the code. *)
Inductive Call := AtElapsed | AtEof | AtFull | AtNewline | AtError.
Inductive Pc :=
| Reading
| Draining
| Lining
| Emitting (data : bytes) (at_ : Call)
| Sending (data : bytes) (exhausted : bool) (at_ : Call)
| Finishing
| Returned.

Record Reader := { rd_reads : list ReadResult; rd_buf : bytes; rd_seq : Z; rd_pc : Pc }.
Definition reader_new (reads : list ReadResult) : Reader :=
  {| rd_reads := reads; rd_buf := []; rd_seq := 0; rd_pc := Reading |}.
Definition goto (t : Reader) (pc : Pc) : Reader :=
  {| rd_reads := t.(rd_reads); rd_buf := t.(rd_buf); rd_seq := t.(rd_seq); rd_pc := pc |}.

(** The [match] on the result of the call. *)
Definition after_emit (t : Reader) (at_ : Call) (r : Emit) : Reader :=
  match at_, r with
  | AtElapsed, Sent => {| rd_reads := t.(rd_reads); rd_buf := []; rd_seq := t.(rd_seq); rd_pc := Reading |}
  | AtEof, (Sent | BudgetExhausted) => goto t Finishing
  | AtFull, Sent => goto t Draining
  | AtNewline, Sent => goto t Reading
  | AtError, _ => goto t Finishing
  | _, Closed => goto t Returned
  | _, BudgetExhausted => goto t Finishing
  end.

(** [rposition(|&b| b == b'\n')]. *)
Fixpoint last_newline (buf : bytes) : option nat :=
  match buf with
  | [] => None
  | c :: r => match last_newline r with
              | Some i => Some (S i)
              | None => if (byte_of c =? 10)%N then Some 0%nat else None
              end
  end.

Definition flush_or (t : Reader) (at_ : Call) (pc : Pc) : Reader :=
  match t.(rd_buf) with [] => goto t pc | buf => goto t (Emitting buf at_) end.
Definition take_front (t : Reader) (n : nat) (at_ : Call) : Reader :=
  {| rd_reads := t.(rd_reads); rd_buf := drop n t.(rd_buf); rd_seq := t.(rd_seq);
     rd_pc := Emitting (take n t.(rd_buf)) at_ |}.

Context (config : StreamCaptureConfig).

(** [capture_stream_limited], up to its next stop. *)
Definition capture_step (stream : StreamKind) (t : Reader) (l : LimiterInner) (s : Sink) : Reader * LimiterInner * Sink :=
  match t.(rd_pc) with
  | Reading =>
    match t.(rd_reads) with
    | Elapsed :: reads =>
      (flush_or {| rd_reads := reads; rd_buf := t.(rd_buf); rd_seq := t.(rd_seq); rd_pc := Reading |} AtElapsed Reading, l, s)
    | [] | ReadData [] :: _ => (flush_or t AtEof Finishing, l, s)
    | ReadData data :: reads =>
      ({| rd_reads := reads; rd_buf := t.(rd_buf) ++ data; rd_seq := t.(rd_seq); rd_pc := Draining |}, l, s)
    | ReadError :: _ => (flush_or t AtError Finishing, l, s)
    end
  | Draining =>
    if config.(scc_max_chunk_bytes) <=? Z.of_nat (length t.(rd_buf))
    then (take_front t (Z.to_nat config.(scc_max_chunk_bytes)) AtFull, l, s)
    else (goto t Lining, l, s)
  | Lining =>
    if config.(scc_flush_on_newline) then
      match last_newline t.(rd_buf) with
      | Some last_nl => (take_front t (S last_nl) AtNewline, l, s)
      | None => (goto t Reading, l, s)
      end
    else (goto t Reading, l, s)
  | Emitting data at_ =>
    let '(allowed, l) := reserve l (Z.of_nat (length data)) in
    let exhausted := allowed <? Z.of_nat (length data) in
    if 0 <? allowed then (goto t (Sending (take (Z.to_nat allowed) data) exhausted at_), l, s)
    else (after_emit t at_ (if exhausted then BudgetExhausted else Sent), l, s)
  | Sending data exhausted at_ =>
    let '(ok, seq, s) := send_chunk stream t.(rd_seq) data false s in
    let t := {| rd_reads := t.(rd_reads); rd_buf := t.(rd_buf); rd_seq := seq; rd_pc := t.(rd_pc) |} in
    (after_emit t at_ (if negb ok then Closed else if exhausted then BudgetExhausted else Sent), l, s)
  | Finishing =>
    let '(_, seq, s) := send_chunk stream t.(rd_seq) [] true s in
    ({| rd_reads := t.(rd_reads); rd_buf := t.(rd_buf); rd_seq := seq; rd_pc := Returned |}, l, s)
  | Returned => (t, l, s)
  end.

(** ** Both readers *)

Record Capture := { cap_out : Reader; cap_err : Reader; cap_limiter : LimiterInner; cap_sink : Sink }.
Definition capture_start (out err : list ReadResult) (left : option nat) : Capture :=
  {| cap_out := reader_new out; cap_err := reader_new err; cap_limiter := limiter_new config.(scc_caps);
     cap_sink := {| sink_sent := []; sink_left := left |} |}.

(** [true] lets the reader of stdout go on, [false] that of stderr. *)
Definition poll (who : bool) (c : Capture) : Capture :=
  if who then
    let '(t, l, s) := capture_step Stdout c.(cap_out) c.(cap_limiter) c.(cap_sink) in
    {| cap_out := t; cap_err := c.(cap_err); cap_limiter := l; cap_sink := s |}
  else
    let '(t, l, s) := capture_step Stderr c.(cap_err) c.(cap_limiter) c.(cap_sink) in
    {| cap_out := c.(cap_out); cap_err := t; cap_limiter := l; cap_sink := s |}.
Definition polls (schedule : list bool) (c : Capture) : Capture := foldl (λ c who, poll who c) c schedule.

(** [capture_child_output]: the summary once both readers returned. *)
Definition capture_child_output (schedule : list bool) (out err : list ReadResult) (left : option nat) :
    option (CaptureSummary * list StreamChunk) :=
  let c := polls schedule (capture_start out err left) in
  match c.(cap_out).(rd_pc), c.(cap_err).(rd_pc) with
  | Returned, Returned =>
    Some ({| cs_truncated := c.(cap_limiter).(lm_truncated); cs_output_bytes := c.(cap_limiter).(lm_emitted) |},
          c.(cap_sink).(sink_sent))
  | _, _ => None
  end.

(** ** What was sent *)

(** [decode_chunk] of the command line ([mx-agent-cli/src/stream.rs]). *)
Definition decode_chunk (chunk : StreamChunk) : bytes :=
  if chunk.(sc_encoding) =s "base64" then
    to_bytes (unwrap_or (b64_decode chunk.(sc_data)) chunk.(sc_data))
  else to_bytes chunk.(sc_data).

Definition of_stream (k : StreamKind) (cs : list StreamChunk) : list StreamChunk :=
  List.filter (λ c, bool_decide (c.(sc_stream) = k)) cs.
Definition output (cs : list StreamChunk) : bytes := concat (map decode_chunk cs).

(** What a stream carries before its end or its first error. *)
Fixpoint stream_bytes (reads : list ReadResult) : bytes :=
  match reads with
  | [] | ReadData [] :: _ | ReadError :: _ => []
  | Elapsed :: reads => stream_bytes reads
  | ReadData data :: reads => data ++ stream_bytes reads
  end.

Section correct.
Context `{!CryptoLaws}.

Lemma decode_build k seq data eof now : decode_chunk (build_chunk k seq data eof now) = data.
Proof.
  unfold decode_chunk, build_chunk, encode_chunk. destruct (from_utf8_ok data); cbn [sc_encoding sc_data].
  - apply String.list_ascii_of_string_of_list_ascii.
  - rewrite str_eqb_refl, b64_roundtrip. apply String.list_ascii_of_string_of_list_ascii.
Qed.
Lemma of_stream_app k cs cs' : of_stream k (cs ++ cs') = of_stream k cs ++ of_stream k cs'.
Proof. apply List.filter_app. Qed.
Lemma of_stream_new k k' seq data eof now :
  of_stream k (@cons StreamChunk (build_chunk k' seq data eof now) []) =
  if bool_decide (k' = k) then [build_chunk k' seq data eof now] else [].
Proof. unfold of_stream, build_chunk. simpl. destruct (encode_chunk data). simpl. by case_bool_decide. Qed.
Lemma output_app cs cs' : output (cs ++ cs') = output cs ++ output cs'.
Proof. unfold output. by rewrite map_app, concat_app. Qed.
Lemma build_seq k seq data eof now : (build_chunk k seq data eof now).(sc_seq) = seq.
Proof. unfold build_chunk. by destruct (encode_chunk data). Qed.
Lemma build_eof k seq data eof now : (build_chunk k seq data eof now).(sc_eof) = eof.
Proof. unfold build_chunk. by destruct (encode_chunk data). Qed.

(** ** The budget *)

Definition limiter_ok (l : LimiterInner) : Prop :=
  match l.(lm_max_output_bytes) with
  | None => l.(lm_truncated) = false ∧ l.(lm_emitted) = 0
  | Some m => 0 ≤ l.(lm_emitted) ≤ m ∧ (l.(lm_truncated) = true → l.(lm_emitted) = m)
  end.
Definition spent (l : LimiterInner) (n : Z) : Prop := ∀ m, l.(lm_max_output_bytes) = Some m → l.(lm_emitted) = n.

Lemma reserve_spec l n g l' :
  reserve l n = (g, l') → limiter_ok l → 0 ≤ n →
  limiter_ok l' ∧ 0 ≤ g ≤ n ∧ l'.(lm_max_output_bytes) = l.(lm_max_output_bytes) ∧
  (∀ x, spent l x → spent l' (x + g)) ∧
  l'.(lm_truncated) = (g <? n) || l.(lm_truncated).
Proof.
  unfold reserve, limiter_ok, spent, saturating_sub. destruct l as [[m|] e tr]; simpl; intros [= <- <-] Hok Hn; simpl.
  - destruct Hok as [Hb Ht]. destruct (Z.ltb_spec (Z.min n (Z.max 0 (m - e))) n); simpl; split_and!; try lia;
      try done; intros; try lia; try naive_solver lia.
  - rewrite Z.ltb_irrefl. destruct Hok. split_and!; try done; lia.
Qed.
(** ** What a reader still holds *)

(** Bytes that a reader reserved and has not sent yet. *)
Definition held (t : Reader) : bytes := match t.(rd_pc) with Sending data _ _ => data | _ => [] end.
Definition behind (t : Reader) (at_ : Call) : bytes :=
  match at_ with
  | AtElapsed => stream_bytes t.(rd_reads)
  | AtEof | AtError => []
  | AtFull | AtNewline => t.(rd_buf) ++ stream_bytes t.(rd_reads)
  end.
Definition unsent (t : Reader) : bytes :=
  match t.(rd_pc) with
  | Emitting data at_ | Sending data _ at_ => data ++ behind t at_
  | _ => t.(rd_buf) ++ stream_bytes t.(rd_reads)
  end.
Definition forwarded (k : StreamKind) (t : Reader) (sent : list StreamChunk) : bytes := output (of_stream k sent) ++ held t.
Definition short (k : StreamKind) (full : bytes) (t : Reader) (sent : list StreamChunk) : Prop :=
  forwarded k t sent `prefix_of` full ∧ (length (forwarded k t sent) < length full)%nat.
(** The reader was granted less than it asked for. *)
Definition is_cut (k : StreamKind) (full : bytes) (t : Reader) (sent : list StreamChunk) : Prop :=
  match t.(rd_pc) with Sending _ true _ | Finishing | Returned => short k full t sent | _ => False end.

Record reader_inv (k : StreamKind) (full : bytes) (t : Reader) (truncated : bool) (sent : list StreamChunk) : Prop := {
  ri_seq : map sc_seq (of_stream k sent) = seqZ 0 (Z.of_nat (length (of_stream k sent)));
  ri_next : t.(rd_seq) = Z.of_nat (length (of_stream k sent));
  ri_built : Forall (λ c, ∃ seq data eof now, c = build_chunk k seq data eof now) (of_stream k sent);
  ri_eof : match t.(rd_pc) with
           | Returned => ∃ cs e, of_stream k sent = cs ++ [e] ∧ e.(sc_eof) = true ∧ Forall (λ c, c.(sc_eof) = false) cs
           | _ => Forall (λ c, c.(sc_eof) = false) (of_stream k sent)
           end;
  ri_bytes : match t.(rd_pc) with
             | Sending _ true _ => short k full t sent ∧ truncated = true
             | Finishing | Returned => forwarded k t sent = full ∨ (short k full t sent ∧ truncated = true)
             | _ => output (of_stream k sent) ++ unsent t = full
             end;
}.

Lemma reader_start k reads : reader_inv k (stream_bytes reads) (reader_new reads) false [].
Proof. split; try done; constructor. Qed.

Lemma reader_inv_truncated k full t tr tr' sent :
  reader_inv k full t tr sent → (tr = true → tr' = true) → reader_inv k full t tr' sent.
Proof.
  intros [? ? ? ? Hb] Ht. split; try done. revert Hb. destruct (rd_pc t) as [| | |d a|d [] a| |]; naive_solver.
Qed.
Lemma reader_inv_other k k' full t tr sent seq data eof now :
  k' ≠ k → reader_inv k full t tr sent → reader_inv k full t tr (sent ++ [build_chunk k' seq data eof now]).
Proof.
  intros Hk [? ? ? ? ?].
  assert (of_stream k (sent ++ [build_chunk k' seq data eof now]) = of_stream k sent) as E.
  { rewrite of_stream_app, of_stream_new, bool_decide_false by done. apply app_nil_r. }
  split; unfold forwarded, short in *; unfold forwarded in *; by rewrite ?E.
Qed.
(** A reader that sends its next chunk. *)
Lemma sent_next k full t tr sent data eof now :
  reader_inv k full t tr sent →
  let cs := of_stream k (sent ++ [build_chunk k t.(rd_seq) data eof now]) in
  cs = of_stream k sent ++ [build_chunk k t.(rd_seq) data eof now] ∧
  map sc_seq cs = seqZ 0 (Z.of_nat (length cs)) ∧ t.(rd_seq) + 1 = Z.of_nat (length cs) ∧
  Forall (λ c, ∃ seq data eof now, c = build_chunk k seq data eof now) cs ∧
  output cs = output (of_stream k sent) ++ data.
Proof.
  intros [Hs Hn Hb _ _] cs.
  assert (cs = of_stream k sent ++ [build_chunk k t.(rd_seq) data eof now]) as E.
  { unfold cs. by rewrite of_stream_app, of_stream_new, bool_decide_true by done. }
  rewrite E, length_app, map_app, Hs, output_app, Forall_app. simpl. rewrite build_seq.
  unfold output at 2. simpl. rewrite decode_build, app_nil_r. split_and!; [done| |lia|done| |done].
  - rewrite Hn, Nat2Z.inj_add, seqZ_app by lia. simpl. by rewrite Z.add_0_l.
  - repeat constructor. eauto.
Qed.

(** One poll of the reader of stream [k]. *)
Record advances (k : StreamKind) (full : bytes) (t : Reader) (l : LimiterInner) (s : Sink)
    (t' : Reader) (l' : LimiterInner) (s' : Sink) : Prop := {
  ad_inv : reader_inv k full t' l'.(lm_truncated) s'.(sink_sent);
  ad_left : s'.(sink_left) = None;
  ad_sent : s'.(sink_sent) = s.(sink_sent) ∨
            ∃ seq data eof now, s'.(sink_sent) = s.(sink_sent) ++ [build_chunk k seq data eof now];
  ad_ok : limiter_ok l';
  ad_max : l'.(lm_max_output_bytes) = l.(lm_max_output_bytes);
  ad_spent x : spent l x → spent l' (x + Z.of_nat (length (forwarded k t' s'.(sink_sent)))
                                      - Z.of_nat (length (forwarded k t s.(sink_sent))));
  ad_truncated : l.(lm_truncated) = true → l'.(lm_truncated) = true;
  ad_cut : l'.(lm_truncated) = true → l.(lm_truncated) = true ∨ is_cut k full t' s'.(sink_sent);
  ad_stays : is_cut k full t s.(sink_sent) → is_cut k full t' s'.(sink_sent);
}.

(** A poll that touches neither the budget nor the sink. *)
Lemma advances_silent k full t l s t' :
  reader_inv k full t l.(lm_truncated) s.(sink_sent) → limiter_ok l → s.(sink_left) = None →
  t'.(rd_seq) = t.(rd_seq) → held t = [] → ¬ is_cut k full t s.(sink_sent) →
  output (of_stream k s.(sink_sent)) ++ unsent t = full → unsent t' = unsent t →
  match t'.(rd_pc) with Sending _ _ _ | Returned => False | Finishing => unsent t' = [] | _ => True end →
  match t.(rd_pc) with Returned => False | _ => True end →
  advances k full t l s t' l s.
Proof.
  intros [Hs Hn Hb He _] Hok Hl Hseq Hh Hc Hu Hu' Hpc Hpc0.
  assert (held t' = []) as Hh' by (unfold held; by destruct (rd_pc t')).
  split; try done; [|by left|intros x; unfold forwarded; rewrite Hh, Hh'; intros Hx; by replace (_ - _) with x by lia|by left].
  split; try done; [by rewrite Hseq|by destruct (rd_pc t'), (rd_pc t)|].
  unfold forwarded, short. rewrite <- Hu' in Hu. destruct (rd_pc t'); try done.
  left. rewrite Hh'. by rewrite Hpc in Hu.
Qed.
(** Where a call returns to, when its data was sent and when the budget ran out. *)
Lemma after_emit_frame t at_ r :
  (after_emit t at_ r).(rd_seq) = t.(rd_seq) ∧ held (after_emit t at_ r) = [].
Proof. by destruct at_, r. Qed.
Lemma after_sent t at_ k full tr sent :
  output (of_stream k sent) ++ behind t at_ = full →
  let t' := after_emit t at_ Sent in
  match t'.(rd_pc) with
  | Sending _ true _ => short k full t' sent ∧ tr = true
  | Finishing | Returned => forwarded k t' sent = full ∨ (short k full t' sent ∧ tr = true)
  | _ => output (of_stream k sent) ++ unsent t' = full
  end ∧ t'.(rd_pc) ≠ Returned.
Proof. intros Hb. destruct at_; simpl in *; split; try done; left; exact Hb. Qed.
Lemma after_exhausted t at_ : (after_emit t at_ BudgetExhausted).(rd_pc) = Finishing.
Proof. by destruct at_. Qed.

Lemma not_returned {P Q : Prop} (t : Reader) :
  t.(rd_pc) ≠ Returned → match t.(rd_pc) with Returned => P | _ => Q end ↔ Q.
Proof. by destruct (rd_pc t). Qed.

(** A poll that reserves: what it was granted waits to be sent, or it was granted nothing. *)
Section reserving.
Context (k : StreamKind) (full : bytes) (t : Reader) (l l' : LimiterInner) (s : Sink) (data : bytes) (at_ : Call) (g : Z).
Context (Hpc : t.(rd_pc) = Emitting data at_) (Hinv : reader_inv k full t l.(lm_truncated) s.(sink_sent)).
Context (Hok : limiter_ok l) (Hl : s.(sink_left) = None) (Hr : reserve l (Z.of_nat (length data)) = (g, l')).
#[local] Abbreviation ex := (g <? Z.of_nat (length data)).

Lemma reserved_short t' :
  held t' = take (Z.to_nat g) data → ex = true → short k full t' s.(sink_sent).
Proof.
  destruct Hinv as [_ _ _ _ Hby]. rewrite Hpc in Hby. unfold unsent in Hby. rewrite Hpc in Hby.
  destruct (reserve_spec _ _ _ _ Hr Hok ltac:(lia)) as (_ & Hg & _).
  intros Ht' Hex. unfold short, forwarded. rewrite Ht'. apply Z.ltb_lt in Hex. split.
  - exists (drop (Z.to_nat g) data ++ behind t at_). rewrite <- Hby, <- !app_assoc. f_equal.
    by rewrite app_assoc, take_drop.
  - rewrite <- Hby, !length_app, length_take. lia.
Qed.

(** Any next state that holds what was granted and has the bytes it should. *)
Lemma reserve_next t' :
  held t' = take (Z.to_nat g) data → t'.(rd_seq) = t.(rd_seq) → t'.(rd_pc) ≠ Returned →
  reader_inv k full t' l'.(lm_truncated) s.(sink_sent) → (ex = true → is_cut k full t' s.(sink_sent)) →
  advances k full t l s t' l' s.
Proof.
  destruct (reserve_spec _ _ _ _ Hr Hok ltac:(lia)) as (Hok' & Hg & Hm & Hsp & Htr).
  intros Hh' Hseq Hret Hinv' Hcut. split; try done.
  - by left.
  - intros x Hx. replace (_ - _) with (x + g); [by apply Hsp|].
    unfold forwarded. rewrite Hh'. unfold held. rewrite Hpc, !length_app, length_take. simpl. lia.
  - intros Ht. rewrite Htr, Ht. apply orb_true_r.
  - rewrite Htr. intros [?|?]%orb_true_iff; auto.
  - unfold is_cut at 1. by rewrite Hpc.
Qed.

Lemma advances_reserve :
  advances k full t l s
    (if 0 <? g then goto t (Sending (take (Z.to_nat g) data) ex at_)
     else after_emit t at_ (if ex then BudgetExhausted else Sent)) l' s.
Proof.
  destruct (reserve_spec _ _ _ _ Hr Hok ltac:(lia)) as (_ & Hg & _ & _ & Htr).
  pose proof Hinv as [Hs Hn Hb He Hby]. rewrite Hpc in He, Hby. unfold unsent in Hby. rewrite Hpc in Hby.
  destruct (Z.ltb_spec 0 g) as [Hpos|Hpos].
  - apply reserve_next; try done.
    + split; try done. simpl. destruct ex eqn:Hex; [split; [by apply reserved_short|done]|].
      apply Z.ltb_ge in Hex. simpl. unfold unsent. simpl. by rewrite take_ge by lia.
    + intros Hex. unfold is_cut. simpl. rewrite Hex. by apply reserved_short.
  - assert (g = 0) as Hg0 by lia. destruct ex eqn:Hex.
    + assert (held (after_emit t at_ BudgetExhausted) = take (Z.to_nat g) data) as Hh
        by (rewrite Hg0; apply after_emit_frame).
      apply reserve_next; try done; [apply after_emit_frame|by rewrite after_exhausted| |].
      * split; try done; [by rewrite (proj1 (after_emit_frame _ _ _))|by rewrite after_exhausted|].
        rewrite after_exhausted. right. split; [by apply reserved_short|done].
      * intros _. unfold is_cut. rewrite after_exhausted. by apply reserved_short.
    + apply Z.ltb_ge in Hex as Hlen. assert (data = []) as Hd by (apply length_zero_iff_nil; lia). rewrite Hd in Hby.
      destruct (after_sent t at_ k full (lm_truncated l') (sink_sent s) Hby) as [Hby' Hret].
      apply reserve_next; try done; [by rewrite Hg0, (proj2 (after_emit_frame _ _ _))|apply after_emit_frame| |by rewrite Hex].
      split; try done; [by rewrite (proj1 (after_emit_frame _ _ _))|by apply not_returned].
Qed.
End reserving.
(** A poll that sends: the bytes move from what is held to what was sent. *)
Lemma advances_send k full t l s data ex at_ now :
  t.(rd_pc) = Sending data ex at_ → reader_inv k full t l.(lm_truncated) s.(sink_sent) → limiter_ok l →
  let t' := {| rd_reads := t.(rd_reads); rd_buf := t.(rd_buf); rd_seq := t.(rd_seq) + 1; rd_pc := t.(rd_pc) |} in
  advances k full t l s (after_emit t' at_ (if ex then BudgetExhausted else Sent)) l
    {| sink_sent := s.(sink_sent) ++ [build_chunk k t.(rd_seq) data false now]; sink_left := None |}.
Proof.
  intros Hpc Hinv Hok t'. destruct (sent_next _ _ _ _ _ data false now Hinv) as (E & Hs & Hn & Hb & Ho).
  destruct Hinv as [_ _ _ He Hby]. rewrite Hpc in He, Hby.
  set (sent' := sink_sent s ++ _) in *. set (r := if ex then _ else _).
  destruct (after_emit_frame t' at_ r) as [Hseq Hh].
  assert (forwarded k (after_emit t' at_ r) sent' = forwarded k t (sink_sent s)) as Hf.
  { unfold forwarded. rewrite Hh, Ho, app_nil_r. unfold held. by rewrite Hpc. }
  assert (Forall (λ c, sc_eof c = false) (of_stream k sent')) as He'.
  { rewrite E, Forall_app. split; [done|]. repeat constructor. apply build_eof. }
  assert (short k full t (sink_sent s) → short k full (after_emit t' at_ r) sent') as Hsh by (unfold short; by rewrite Hf).
  split; try done; simpl; [|by right; eauto|intros x Hx; rewrite Hf; by replace (_ - _) with x by lia|by left|].
  - destruct ex; subst r.
    + split; try done; [by rewrite Hseq|by rewrite after_exhausted|]. rewrite after_exhausted. right. naive_solver.
    + unfold unsent in Hby. rewrite Hpc in Hby. rewrite app_assoc, <- Ho in Hby.
      destruct (after_sent t' at_ k full (lm_truncated l) sent' Hby) as [Hby' Hret].
      split; try done; [by rewrite Hseq|by apply not_returned].
  - unfold is_cut at 1. rewrite Hpc. destruct ex; [|done]. intros Hc. unfold is_cut, r. rewrite after_exhausted. auto.
Qed.

Lemma advances_finish k full t l s now :
  t.(rd_pc) = Finishing → reader_inv k full t l.(lm_truncated) s.(sink_sent) → limiter_ok l →
  advances k full t l s {| rd_reads := t.(rd_reads); rd_buf := t.(rd_buf); rd_seq := t.(rd_seq) + 1; rd_pc := Returned |} l
    {| sink_sent := s.(sink_sent) ++ [build_chunk k t.(rd_seq) [] true now]; sink_left := None |}.
Proof.
  intros Hpc Hinv Hok. destruct (sent_next _ _ _ _ _ [] true now Hinv) as (E & Hs & Hn & Hb & Ho).
  destruct Hinv as [_ _ _ He Hby]. rewrite Hpc in He, Hby. set (t' := Build_Reader _ _ _ _). set (sent' := sink_sent s ++ _) in *.
  assert (forwarded k t' sent' = forwarded k t (sink_sent s)) as Hf.
  { unfold forwarded, held. simpl. by rewrite Hpc, Ho, !app_nil_r. }
  assert (short k full t (sink_sent s) → short k full t' sent') as Hsh by (unfold short; by rewrite Hf).
  split; try done; simpl; [|by right; eauto|intros x Hx; rewrite Hf; by replace (_ - _) with x by lia|by left|].
  - split; try done; simpl; [|rewrite Hf; naive_solver].
    exists (of_stream k (sink_sent s)), (build_chunk k (rd_seq t) [] true now). by rewrite build_eof.
  - unfold is_cut. simpl. rewrite Hpc. auto.
Qed.

Lemma advances_refl k full t l s :
  reader_inv k full t l.(lm_truncated) s.(sink_sent) → limiter_ok l → s.(sink_left) = None → advances k full t l s t l s.
Proof.
  intros. split; try done; [by left| |by left]. intros x Hx. by replace (_ - _) with x by lia.
Qed.

Lemma capture_step_advances k full t l s t' l' s' :
  capture_step k t l s = (t', l', s') →
  reader_inv k full t l.(lm_truncated) s.(sink_sent) → limiter_ok l → s.(sink_left) = None →
  advances k full t l s t' l' s'.
Proof.
  intros Hstep Hinv Hok Hl. unfold capture_step in Hstep. pose proof (ri_bytes _ _ _ _ _ Hinv) as Hby.
  destruct (rd_pc t) as [| | |data at_|data ex at_| |] eqn:Hpc.
  1-3: assert (held t = []) as Hh by (unfold held; by rewrite Hpc);
    assert (¬ is_cut k full t (sink_sent s)) as Hc by (unfold is_cut; rewrite Hpc; tauto);
    assert (unsent t = rd_buf t ++ stream_bytes (rd_reads t)) as Hu by (unfold unsent; by rewrite Hpc).
  - destruct (rd_reads t) as [|[|[|b data]|] reads] eqn:Hrd; simpl in Hu;
      unfold flush_or, goto in Hstep; simpl in Hstep;
      destruct (rd_buf t) as [|b0 buf] eqn:Hbuf; injection Hstep as <- <- <-;
      apply advances_silent; try done; rewrite ?Hpc, ?Hu; try done; unfold unsent; simpl;
      rewrite ?Hrd, ?Hbuf, <- ?app_assoc; simpl; by rewrite ?app_nil_r.
  - destruct (_ <=? _) in Hstep; injection Hstep as <- <- <-; apply advances_silent; try done; rewrite ?Hpc, ?Hu; try done.
    unfold unsent. simpl. by rewrite app_assoc, take_drop.
  - destruct (scc_flush_on_newline config), (last_newline (rd_buf t)); injection Hstep as <- <- <-;
      apply advances_silent; try done; rewrite ?Hpc, ?Hu; try done.
    unfold unsent. cbn [take_front rd_pc rd_buf rd_reads behind]. by rewrite app_assoc, take_drop.
  - destruct (reserve l _) as [g l1] eqn:Hr. pose proof (advances_reserve k full t l l1 s data at_ g Hpc Hinv Hok Hl Hr).
    destruct (0 <? g); by simplify_eq.
  - unfold send_chunk, sink_send in Hstep. rewrite Hl in Hstep. simplify_eq. simpl. by apply advances_send.
  - unfold send_chunk, sink_send in Hstep. rewrite Hl in Hstep. simplify_eq. by apply advances_finish.
  - simplify_eq. by apply advances_refl.
Qed.
(** The other reader notices nothing but the budget. *)
Lemma advances_other k full t l s t' l' s' k' full' u :
  k ≠ k' → advances k full t l s t' l' s' → reader_inv k' full' u l.(lm_truncated) s.(sink_sent) →
  reader_inv k' full' u l'.(lm_truncated) s'.(sink_sent) ∧
  forwarded k' u s'.(sink_sent) = forwarded k' u s.(sink_sent).
Proof.
  intros Hk [_ _ Hsent _ _ _ Htr _ _] Hinv. apply (reader_inv_truncated _ _ _ _ _ _ Hinv) in Htr.
  destruct Hsent as [-> |(seq & data & eof & now & ->)]; [done|].
  split; [by apply reader_inv_other|]. unfold forwarded.
  by rewrite of_stream_app, of_stream_new, bool_decide_false, app_nil_r by done.
Qed.
Lemma is_cut_forwarded k full u sent sent' :
  forwarded k u sent' = forwarded k u sent → is_cut k full u sent → is_cut k full u sent'.
Proof. unfold is_cut, short. by intros ->. Qed.

Record capture_inv (fo fe : bytes) (c : Capture) : Prop := {
  ci_out : reader_inv Stdout fo c.(cap_out) c.(cap_limiter).(lm_truncated) c.(cap_sink).(sink_sent);
  ci_err : reader_inv Stderr fe c.(cap_err) c.(cap_limiter).(lm_truncated) c.(cap_sink).(sink_sent);
  ci_kinds : ∀ x, x ∈ c.(cap_sink).(sink_sent) → x.(sc_stream) = Stdout ∨ x.(sc_stream) = Stderr;
  ci_left : c.(cap_sink).(sink_left) = None;
  ci_ok : limiter_ok c.(cap_limiter);
  ci_max : c.(cap_limiter).(lm_max_output_bytes) = config.(scc_caps).(cap_max_output_bytes);
  ci_spent : spent c.(cap_limiter) (Z.of_nat (length (forwarded Stdout c.(cap_out) c.(cap_sink).(sink_sent)))
                                    + Z.of_nat (length (forwarded Stderr c.(cap_err) c.(cap_sink).(sink_sent))));
  ci_cut : c.(cap_limiter).(lm_truncated) = true →
           is_cut Stdout fo c.(cap_out) c.(cap_sink).(sink_sent) ∨ is_cut Stderr fe c.(cap_err) c.(cap_sink).(sink_sent);
}.

Lemma capture_start_inv out err :
  (∀ m, config.(scc_caps).(cap_max_output_bytes) = Some m → 0 ≤ m) →
  capture_inv (stream_bytes out) (stream_bytes err) (capture_start out err None).
Proof.
  intros Hm. split; try done; try apply reader_start.
  { intros x Hx. by apply not_elem_of_nil in Hx. }
  unfold limiter_ok. simpl. destruct (cap_max_output_bytes _) as [m|]; [|done]. specialize (Hm m eq_refl). split; [lia|done].
Qed.

Lemma build_stream k seq data eof now : (build_chunk k seq data eof now).(sc_stream) = k.
Proof. unfold build_chunk. by destruct (encode_chunk data). Qed.
Lemma sent_kinds k full t l s t' l' s' :
  advances k full t l s t' l' s' → k = Stdout ∨ k = Stderr →
  (∀ x, x ∈ s.(sink_sent) → x.(sc_stream) = Stdout ∨ x.(sc_stream) = Stderr) →
  ∀ x, x ∈ s'.(sink_sent) → x.(sc_stream) = Stdout ∨ x.(sc_stream) = Stderr.
Proof.
  intros A Hk Hs x. destruct (ad_sent _ _ _ _ _ _ _ _ A) as [-> |(seq & data & eof & now & ->)]; [auto|].
  rewrite elem_of_app, list_elem_of_singleton. intros [?| ->]; [auto|by rewrite build_stream].
Qed.
Lemma spent_eq l x y : x = y → spent l x → spent l y.
Proof. by intros ->. Qed.
Lemma poll_inv fo fe who c : capture_inv fo fe c → capture_inv fo fe (poll who c).
Proof.
  intros [Ho He Hk Hl Hok Hm Hsp Hc]. unfold poll. destruct who.
  - destruct (capture_step _ _ _ _) as [[t l] s] eqn:E. pose proof (capture_step_advances _ _ _ _ _ _ _ _ E Ho Hok Hl) as A.
    destruct (advances_other Stdout _ _ _ _ _ _ _ Stderr fe (cap_err c) ltac:(discriminate) A He) as [He' Hf].
    pose proof (is_cut_forwarded _ fe _ _ _ Hf). pose proof (sent_kinds _ _ _ _ _ _ _ _ A (or_introl eq_refl) Hk).
    destruct A as [? ? ? ? Hm' Hsp' ? ? ?]. split; simpl; try done; [by rewrite Hm'| |naive_solver]. rewrite Hf. eapply spent_eq, Hsp', Hsp. lia.
  - destruct (capture_step _ _ _ _) as [[t l] s] eqn:E. pose proof (capture_step_advances _ _ _ _ _ _ _ _ E He Hok Hl) as A.
    destruct (advances_other Stderr _ _ _ _ _ _ _ Stdout fo (cap_out c) ltac:(discriminate) A Ho) as [Ho' Hf].
    pose proof (is_cut_forwarded _ fo _ _ _ Hf). pose proof (sent_kinds _ _ _ _ _ _ _ _ A (or_intror eq_refl) Hk).
    destruct A as [? ? ? ? Hm' Hsp' ? ? ?]. split; simpl; try done; [by rewrite Hm'| |naive_solver]. rewrite Hf. eapply spent_eq, Hsp', Hsp. lia.
Qed.
Lemma polls_inv fo fe schedule : ∀ c, capture_inv fo fe c → capture_inv fo fe (polls schedule c).
Proof. induction schedule as [|who r IH]; intros c Hc; [done|]. apply IH, poll_inv, Hc. Qed.
(** ** Progress *)

Definition read_cost (r : ReadResult) : nat := match r with ReadData data => 10 + 8 * length data | _ => 10 end.
Definition call_cost (at_ : Call) : nat := match at_ with AtElapsed | AtNewline => 4 | AtEof | AtError => 1 | AtFull => 6 end.
Definition pc_cost (pc : Pc) : nat :=
  match pc with
  | Reading => 4 | Draining => 6 | Lining => 5
  | Emitting _ at_ => 2 + call_cost at_ | Sending _ _ at_ => 1 + call_cost at_
  | Finishing => 1 | Returned => 0
  end.
Definition steps_left (t : Reader) : nat :=
  match t.(rd_pc) with
  | Returned => 0
  | pc => list_sum (map read_cost t.(rd_reads)) + 8 * length t.(rd_buf) + pc_cost pc
  end.

Lemma after_emit_cost t at_ r : (steps_left (after_emit t at_ r) ≤ list_sum (map read_cost t.(rd_reads)) + 8 * length t.(rd_buf) + call_cost at_)%nat.
Proof. unfold steps_left. destruct at_, r; simpl; lia. Qed.
Lemma last_newline_lt buf : ∀ i, last_newline buf = Some i → (i < length buf)%nat.
Proof.
  induction buf as [|c r IH]; [done|]. intros i. cbn [last_newline]. destruct (last_newline r) as [j|] eqn:E.
  - intros [= <-]. specialize (IH j eq_refl). simpl. lia.
  - destruct (_ =? _)%N; [|done]. intros [= <-]. simpl. lia.
Qed.

Lemma step_decreases k t l s t' l' s' :
  0 < config.(scc_max_chunk_bytes) → capture_step k t l s = (t', l', s') →
  (steps_left t' ≤ pred (steps_left t))%nat.
Proof.
  intros Hm Hstep. unfold capture_step in Hstep. destruct t as [reads buf sq pc]. cbn [rd_pc rd_reads rd_buf rd_seq] in Hstep.
  destruct pc as [| | |data at_|data ex at_| |].
  - destruct reads as [|[|[|b data]|] reads]; [| | | |]; unfold flush_or in Hstep; destruct buf; simplify_eq/=;
      unfold steps_left; simpl; rewrite ?length_app; simpl; lia.
  - destruct (Z.leb_spec (scc_max_chunk_bytes config) (Z.of_nat (length buf))); simplify_eq; unfold steps_left; cbn [take_front goto rd_pc rd_buf rd_reads pc_cost call_cost].
    + rewrite length_drop. lia.
    + lia.
  - destruct (scc_flush_on_newline config), (last_newline buf) as [i|] eqn:E; simplify_eq; unfold steps_left; cbn [take_front goto rd_pc rd_buf rd_reads pc_cost call_cost]; try lia.
    apply last_newline_lt in E. rewrite length_drop. lia.
  - destruct (reserve l _) as [g l1]. destruct (0 <? g); simplify_eq.
    + unfold steps_left. simpl. lia.
    + etrans; [apply after_emit_cost|]. unfold steps_left. simpl. lia.
  - destruct (send_chunk _ _ _ _ _) as [[ok sq'] s1]. simplify_eq. etrans; [apply after_emit_cost|]. unfold steps_left. simpl. lia.
  - destruct (send_chunk _ _ _ _ _) as [[ok sq'] s1]. simplify_eq. unfold steps_left. simpl. lia.
  - by simplify_eq.
Qed.
(** How often a schedule lets a reader go on, and how often is enough. *)
Definition turns (who : bool) (schedule : list bool) : nat := length (List.filter (eqb who) schedule).
Definition enough_turns (reads : list ReadResult) : nat := list_sum (map read_cost reads) + 4.

Definition reader_of (who : bool) (c : Capture) : Reader := if who then c.(cap_out) else c.(cap_err).
Lemma poll_steps who who' c :
  0 < config.(scc_max_chunk_bytes) →
  (steps_left (reader_of who (poll who' c)) ≤ steps_left (reader_of who c) - (if eqb who who' then 1 else 0))%nat.
Proof.
  intros Hm. unfold poll. destruct who'; destruct (capture_step _ _ _ _) as [[t l] s] eqn:E;
    apply step_decreases in E; try done; destruct who; simpl; lia.
Qed.
Lemma polls_steps who schedule : ∀ c,
  0 < config.(scc_max_chunk_bytes) →
  (steps_left (reader_of who (polls schedule c)) ≤ steps_left (reader_of who c) - turns who schedule)%nat.
Proof.
  induction schedule as [|who' r IH]; intros c Hm; [unfold turns; simpl; lia|].
  change (polls (who' :: r) c) with (polls r (poll who' c)). etrans; [by apply IH|].
  pose proof (poll_steps who who' c Hm). unfold turns in *. cbn [List.filter]. destruct (eqb who who'); simpl; lia.
Qed.
Lemma steps_left_0 t : steps_left t = 0%nat → t.(rd_pc) = Returned.
Proof. unfold steps_left. destruct (rd_pc t); simpl; intros; (done || lia). Qed.

Lemma both_return out err left schedule :
  0 < config.(scc_max_chunk_bytes) →
  (enough_turns out ≤ turns true schedule)%nat → (enough_turns err ≤ turns false schedule)%nat →
  let c := polls schedule (capture_start out err left) in
  c.(cap_out).(rd_pc) = Returned ∧ c.(cap_err).(rd_pc) = Returned.
Proof.
  intros Hm Ho He. split; apply steps_left_0.
  - pose proof (polls_steps true schedule (capture_start out err left) Hm) as H1.
    unfold enough_turns, steps_left in *. simpl in *. lia.
  - pose proof (polls_steps false schedule (capture_start out err left) Hm) as H1.
    unfold enough_turns, steps_left in *. simpl in *. lia.
Qed.

(** What the consumer of one stream can rely on. *)
Record captured (k : StreamKind) (full : bytes) (chunks : list StreamChunk) : Prop := {
  cd_seq : map sc_seq (of_stream k chunks) = seqZ 0 (Z.of_nat (length (of_stream k chunks)));
  cd_eof : ∃ cs e, of_stream k chunks = cs ++ [e] ∧ e.(sc_eof) = true ∧ Forall (λ c, c.(sc_eof) = false) cs;
  cd_built : Forall (λ c, ∃ seq data eof now, c = build_chunk k seq data eof now) (of_stream k chunks);
  cd_prefix : output (of_stream k chunks) `prefix_of` full;
}.
Lemma reader_captured k full t tr sent :
  reader_inv k full t tr sent → t.(rd_pc) = Returned →
  captured k full sent ∧
  (output (of_stream k sent) = full ∨ ((length (output (of_stream k sent)) < length full)%nat ∧ tr = true)) ∧
  (tr = true → is_cut k full t sent → (length (output (of_stream k sent)) < length full)%nat) ∧
  forwarded k t sent = output (of_stream k sent).
Proof.
  intros [Hs _ Hb He Hby] Hpc. rewrite Hpc in He, Hby.
  assert (forwarded k t sent = output (of_stream k sent)) as Hf by (unfold forwarded, held; by rewrite Hpc, app_nil_r).
  unfold is_cut, short in *. rewrite Hpc, Hf in *. split_and!; [|naive_solver|naive_solver|done].
  split; try done. destruct Hby as [-> |[[? _] _]]; done.
Qed.

(** What a capture that returned has sent. *)
Lemma capture_result out err schedule summary chunks :
  (∀ m, config.(scc_caps).(cap_max_output_bytes) = Some m → 0 ≤ m) →
  capture_child_output schedule out err None = Some (summary, chunks) →
  captured Stdout (stream_bytes out) chunks ∧ captured Stderr (stream_bytes err) chunks ∧
  (∀ x, x ∈ chunks → x.(sc_stream) = Stdout ∨ x.(sc_stream) = Stderr) ∧
  (summary.(cs_truncated) = false →
   output (of_stream Stdout chunks) = stream_bytes out ∧ output (of_stream Stderr chunks) = stream_bytes err) ∧
  let sent := Z.of_nat (length (output (of_stream Stdout chunks)) + length (output (of_stream Stderr chunks))) in
  let total := Z.of_nat (length (stream_bytes out) + length (stream_bytes err)) in
  match config.(scc_caps).(cap_max_output_bytes) with
  | None => sent = total ∧ summary.(cs_truncated) = false ∧ summary.(cs_output_bytes) = 0
  | Some m => sent = Z.min m total ∧ summary.(cs_truncated) = (m <? total) ∧ summary.(cs_output_bytes) = sent
  end.
Proof.
  intros Hm. pose proof (polls_inv _ _ schedule _ (capture_start_inv out err Hm)) as [Io Ie Hk _ Hok Hcap Hsp Hcut].
  unfold capture_child_output. set (c := polls schedule _) in *.
  destruct (rd_pc (cap_out c)) eqn:Ro; try done. destruct (rd_pc (cap_err c)) eqn:Re; try done. intros [= <- <-].
  destruct (reader_captured _ _ _ _ _ Io Ro) as (Co & Do & Uo & Fo). destruct (reader_captured _ _ _ _ _ Ie Re) as (Ce & De & Ue & Fe).
  split; [exact Co|]. split; [exact Ce|]. split; [exact Hk|]. rewrite Fo, Fe in Hsp. unfold limiter_ok, spent in *. rewrite Hcap in *. simpl.
  clear -Do De Uo Ue Hok Hsp Hcut Hm. split.
  { intros Htr. rewrite Htr in *. destruct Do as [Do|[_ [=]]], De as [De|[_ [=]]]. done. }
  destruct (cap_max_output_bytes _) as [m|].
  - specialize (Hsp m eq_refl). rewrite Hsp in *. destruct Hok as [Hb Ht].
    destruct (lm_truncated _) eqn:Htr.
    + specialize (Ht eq_refl).
      assert (m < Z.of_nat (length (stream_bytes out) + length (stream_bytes err))) as Hlt.
      { destruct Do as [Do|[Do _]], De as [De|[De _]]; try (rewrite ?Do, ?De in *; lia).
        destruct (Hcut eq_refl) as [Hx|Hx]; [apply Uo in Hx|apply Ue in Hx]; try done; rewrite ?Do, ?De in *; lia. }
      split_and!; [lia|symmetry; by apply Z.ltb_lt|lia].
    + destruct Do as [Do|[_ [=]]], De as [De|[_ [=]]]. rewrite Do, De in *.
      split_and!; [lia|symmetry; apply Z.ltb_ge; lia|lia].
  - destruct Hok as [Htr He]. rewrite Htr in *. destruct Do as [Do|[_ [=]]], De as [De|[_ [=]]]. rewrite Do, De.
    split_and!; [lia|done|done].
Qed.
(** C30: whatever the reads and however the two readers interleave, a capture with a
    positive chunk size, whose consumer takes every chunk and whose readers get enough
    turns, returns; each stream is sent as chunks numbered from zero without a gap, closed
    by one end marker, that decode to a prefix of what was read of the child's output (up
    to its end or the first failed read); together they carry all of it or exactly the byte
    cap, whichever is less, and the summary says truncated exactly when the cap was the
    less.  With a byte cap the summary's byte count is what was sent; without a cap nothing
    is claimed of the count. *)
Theorem capture_forwards_up_to_cap out err schedule :
  0 < config.(scc_max_chunk_bytes) →
  (∀ m, config.(scc_caps).(cap_max_output_bytes) = Some m → 0 ≤ m) →
  (enough_turns out ≤ turns true schedule)%nat → (enough_turns err ≤ turns false schedule)%nat →
  ∃ summary chunks,
    capture_child_output schedule out err None = Some (summary, chunks) ∧
    captured Stdout (stream_bytes out) chunks ∧ captured Stderr (stream_bytes err) chunks ∧
    let sent := Z.of_nat (length (output (of_stream Stdout chunks)) + length (output (of_stream Stderr chunks))) in
    let total := Z.of_nat (length (stream_bytes out) + length (stream_bytes err)) in
    match config.(scc_caps).(cap_max_output_bytes) with
    | None => sent = total ∧ summary.(cs_truncated) = false
    | Some m => sent = Z.min m total ∧ summary.(cs_truncated) = (m <? total) ∧ summary.(cs_output_bytes) = sent
    end.
Proof.
  intros Hmax Hm Ho He. destruct (both_return out err None schedule Hmax Ho He) as [Ro Re].
  destruct (capture_child_output schedule out err None) as [[summary chunks]|] eqn:E.
  - destruct (capture_result _ _ _ _ _ Hm E) as (Co & Ce & _ & _ & Hn). exists summary, chunks.
    split_and!; [done..|]. destruct (cap_max_output_bytes _); naive_solver.
  - unfold capture_child_output in E. rewrite Ro, Re in E. done.
Qed.
End correct.
End capture.

(** Four bytes on stdout and two on stderr, with a cap of five, one reader after the other. *)
Module StreamExample.
Definition lf : ascii := chr 10.
Definition out_reads : list ReadResult := [ReadData ["a"; "b"; lf]%char; Elapsed; ReadData ["c"]%char].
Definition err_reads : list ReadResult := [ReadData [chr 255; "d"]%char; ReadError].
Definition config : StreamCaptureConfig :=
  with_caps interactive {| cap_max_output_bytes := Some 5; cap_max_events_per_second := None |}.
Definition clock (n : nat) : Z * Z := (1748865600 + Z.of_nat n, 7).
Definition schedule : list bool := repeat true 80 ++ repeat false 80.
End StreamExample.

Lemma capture_forwards_up_to_cap_witness :
  ∃ summary chunks,
    capture_child_output (H := Signing.Toy.toy_crypto) StreamExample.clock "inv" StreamExample.config
      StreamExample.schedule StreamExample.out_reads StreamExample.err_reads None = Some (summary, chunks) ∧
    summary.(cs_truncated) = true ∧ summary.(cs_output_bytes) = 5 ∧
    map (λ c, (c.(sc_stream), c.(sc_data), c.(sc_timestamp))) chunks =
      [(Stdout, to_text ["a"; "b"; StreamExample.lf]%char, "2025-06-02T12:00:00.007Z"); (Stdout, "c", "2025-06-02T12:00:01.007Z");
       (Stdout, "", "2025-06-02T12:00:02.007Z"); (Stderr, to_text [chr 255], "2025-06-02T12:00:03.007Z");
       (Stderr, "", "2025-06-02T12:00:04.007Z")].
Proof.
  destruct (capture_forwards_up_to_cap (H := Signing.Toy.toy_crypto) (H0 := Signing.Toy.toy_laws) StreamExample.clock "inv" StreamExample.config
              StreamExample.out_reads StreamExample.err_reads StreamExample.schedule)
    as (summary & chunks & E & _ & _ & _ & Htr & Hn).
  - vm_compute. reflexivity.
  - intros m. vm_compute. intros [= <-]. discriminate.
  - apply Nat.leb_le. vm_compute. reflexivity.
  - apply Nat.leb_le. vm_compute. reflexivity.
  - exists summary, chunks. split; [exact E|]. split; [exact Htr|].
    revert E. vm_compute. intros [= <- <-]. by split.
Defined.
