(* ===== verification/Reassembly.v ===== *)
(** * Reassembly of a forwarded stream

    Models [crates/mx-agent-cli/src/stream.rs]: the buffer that puts the chunks of each
    stream back in order, the checks of strict mode and the rendering of a stream to the
    local terminal, up to the exit code.  A write may fail, which ends the rendering; what
    was written is a log.  The order in which [HashMap] lists the streams is an argument.

    The boundary of a stream is a [u64] that grows by one per chunk released or declared
    lost, so the model leaves out its overflow: it would take as many steps. *)
From Stdlib Require Import Ascii ZArith Lia.
From stdpp Require Import gmap strings list pretty.
From S2P Require Import Prelude RustStr CanonicalJson Schema Signing Streams.
Local Open Scope Z_scope.

Definition EXIT_PROTOCOL_FAILURE : Z := 128.
Definition EXIT_STREAM_INTEGRITY : Z := 132.
Definition DEFAULT_REORDER_WINDOW : Z := 64.

Inductive StreamFrame :=
| FChunk (chunk : StreamChunk)
| FArtifact (artifact : StreamArtifact)
| FFinished (finished : ExecFinished).

Record RenderConfig := { rc_reorder_window : Z; rc_strict : bool }.
Definition default_render_config : RenderConfig := {| rc_reorder_window := DEFAULT_REORDER_WINDOW; rc_strict := false |}.

Record MissingChunk := { mc_stream : StreamKind; mc_seq : Z }.
Record StreamOutcome := {
  so_exit_code : option Z;
  so_missing : list MissingChunk;
  so_integrity_failure : bool;
  so_artifacts : list StreamArtifact;
  so_truncated : bool;
}.
Definition default_outcome : StreamOutcome :=
  {| so_exit_code := None; so_missing := []; so_integrity_failure := false; so_artifacts := []; so_truncated := false |}.
Definition degraded (o : StreamOutcome) : bool := match o.(so_missing) with [] => false | _ => true end.

(** ** One stream *)

Record StreamReorder := { next_expected : Z; ahead : gmap Z StreamChunk }.
Definition default_reorder : StreamReorder := {| next_expected := 0; ahead := ∅ |}.

(** [keys().next()] of a [BTreeMap]: the least key. *)
Definition first_key (m : gmap Z StreamChunk) : option Z :=
  match (map_to_list m).*1 with [] => None | k :: ks => Some (foldr Z.min k ks) end.

(** [drain_contiguous]: every round removes an entry, so there are at most as many
    rounds as entries. *)
Fixpoint drain_rounds (n : nat) (s : StreamReorder) : StreamReorder * list StreamChunk :=
  match n, s.(ahead) !! s.(next_expected) with
  | S n, Some chunk =>
    let '(s, ready) :=
      drain_rounds n {| next_expected := s.(next_expected) + 1; ahead := delete s.(next_expected) s.(ahead) |} in
    (s, chunk :: ready)
  | _, _ => (s, [])
  end.
Definition drain_contiguous (s : StreamReorder) : StreamReorder * list StreamChunk := drain_rounds (size s.(ahead)) s.

(** The inner loop of [push] and [flush]: everything below [first] is lost. *)
Definition declare_lost (first : Z) (s : StreamReorder) : StreamReorder * list Z :=
  ({| next_expected := Z.max s.(next_expected) first; ahead := s.(ahead) |},
   seqZ s.(next_expected) (first - s.(next_expected))).

(** The outer loop: while more than [window] chunks are buffered.  [flush] is the same
    loop while any is.  Every round drains at least one. *)
Fixpoint skip_gaps_rounds (n : nat) (window : Z) (s : StreamReorder) : StreamReorder * list StreamChunk * list Z :=
  match n with
  | O => (s, [], [])
  | S n =>
    if window <? Z.of_nat (size s.(ahead)) then
      match first_key s.(ahead) with
      | Some first =>
        let '(s, lost) := declare_lost first s in
        let '(s, ready) := drain_contiguous s in
        let '(s, ready', lost') := skip_gaps_rounds n window s in
        (s, ready ++ ready', lost ++ lost')
      | None => (s, [], [])
      end
    else (s, [], [])
  end.
Definition skip_gaps (window : Z) (s : StreamReorder) : StreamReorder * list StreamChunk * list Z :=
  skip_gaps_rounds (size s.(ahead)) window s.

Definition push (s : StreamReorder) (chunk : StreamChunk) (window : Z) : StreamReorder * list StreamChunk * list Z :=
  let seq := chunk.(sc_seq) in
  if (seq <? s.(next_expected)) || is_some (s.(ahead) !! seq) then (s, [], [])
  else
    let '(s, ready) :=
      if seq =? s.(next_expected) then
        let '(s, ready) := drain_contiguous {| next_expected := s.(next_expected) + 1; ahead := s.(ahead) |} in
        (s, chunk :: ready)
      else ({| next_expected := s.(next_expected); ahead := <[seq := chunk]> s.(ahead) |}, []) in
    let '(s, ready', lost) := skip_gaps window s in
    (s, ready ++ ready', lost).
Definition flush (s : StreamReorder) : StreamReorder * list StreamChunk * list Z := skip_gaps 0 s.

(** ** All streams *)

#[export] Instance StreamKind_countable : Countable StreamKind.
Proof.
  refine (inj_countable' (λ k, match k with Stdin => 0 | Stdout => 1 | Stderr => 2 | Pty => 3 | Control => 4 end)
    (λ n, match n with 0 => Stdin | 1 => Stdout | 2 => Stderr | 3 => Pty | _ => Control end) _); by intros [].
Defined.

Record ReorderBuffer := { rb_streams : gmap StreamKind StreamReorder; rb_window : Z }.
Definition reorder_new (window : Z) : ReorderBuffer := {| rb_streams := ∅; rb_window := Z.max window 1 |}.
Definition stream_state (b : ReorderBuffer) (k : StreamKind) : StreamReorder := unwrap_or (b.(rb_streams) !! k) default_reorder.
Definition with_stream (b : ReorderBuffer) (k : StreamKind) (s : StreamReorder) : ReorderBuffer :=
  {| rb_streams := <[k := s]> b.(rb_streams); rb_window := b.(rb_window) |}.
Definition missing_of (k : StreamKind) (lost : list Z) : list MissingChunk :=
  map (λ seq, {| mc_stream := k; mc_seq := seq |}) lost.

Definition accept (b : ReorderBuffer) (chunk : StreamChunk) : ReorderBuffer * list StreamChunk * list MissingChunk :=
  let stream := chunk.(sc_stream) in
  let '(s, ready, lost) := push (stream_state b stream) chunk b.(rb_window) in
  (with_stream b stream s, ready, missing_of stream lost).

(** [order] lists the keys of the map as its iterator does. *)
Fixpoint flush_all (order : list StreamKind) (b : ReorderBuffer) : ReorderBuffer * list StreamChunk * list MissingChunk :=
  match order with
  | [] => (b, [], [])
  | stream :: order =>
    let '(s, ready, lost) := flush (stream_state b stream) in
    let '(b, ready', lost') := flush_all order (with_stream b stream s) in
    (b, ready ++ ready', missing_of stream lost ++ lost')
  end.

(** ** Exit codes *)

Definition signal_number (name : string) : option Z :=
  if name =s "SIGHUP" then Some 1 else if name =s "SIGINT" then Some 2
  else if name =s "SIGQUIT" then Some 3 else if name =s "SIGILL" then Some 4
  else if (name =s "SIGABRT") || (name =s "SIGIOT") then Some 6 else if name =s "SIGFPE" then Some 8
  else if name =s "SIGKILL" then Some 9 else if name =s "SIGSEGV" then Some 11
  else if name =s "SIGPIPE" then Some 13 else if name =s "SIGALRM" then Some 14
  else if name =s "SIGTERM" then Some 15 else None.
(** [u8::try_from(..).ok()]. *)
Definition u8_try_from (n : Z) : option Z := if (0 <=? n) && (n <=? 255) then Some n else None.
Definition resolve_exit_code (finished : ExecFinished) : Z :=
  match finished.(ef_exit_code) with
  | Some code => unwrap_or (u8_try_from code) 1
  | None =>
    match finished.(ef_signal) with
    | Some signal =>
      unwrap_or (match signal_number signal with Some n => u8_try_from (128 + n) | None => None end) EXIT_PROTOCOL_FAILURE
    | None => EXIT_PROTOCOL_FAILURE
    end
  end.

(** ** Rendering *)

Inductive Writer := Out | ErrOut.
#[export] Instance Writer_eq_dec : EqDecision Writer.
Proof. solve_decision. Defined.
Inductive IoError := IoFailed.
(** What was written so far, oldest first. *)
Definition WriteLog : Type := list (Writer * string).
Definition Io (A : Type) : Type := st WriteLog IoError A.

Definition stream_label (stream : StreamKind) : string :=
  match stream with Stdout => "stdout" | Stderr => "stderr" | Pty => "pty" | Stdin => "stdin" | Control => "control" end.

Section render.
Context `{Crypto}.
(** [io log w] says whether the next write to [w], or flush of it, succeeds; [debug] is
    the [Debug] rendering of a string, [b64_error] that of a decoding error. *)
Context (io : WriteLog → Writer → bool) (debug b64_error : string → string).

Definition write_all (w : Writer) (text : string) : Io unit :=
  λ log, if io log w then (Ok tt, log ++ [(w, text)]) else (Err IoFailed, log).
Definition writeln (w : Writer) (text : string) : Io unit := write_all w (text +:+ to_text [chr 10]).
Definition flush_writer (w : Writer) : Io unit := λ log, if io log w then (Ok tt, log) else (Err IoFailed, log).

Definition render_chunk (chunk : StreamChunk) : Io unit :=
  if chunk.(sc_data) =s "" then ret tt
  else
    let bytes := to_text (decode_chunk chunk) in
    match chunk.(sc_stream) with
    | Stdout | Pty => write_all Out bytes
    | Stderr => write_all ErrOut bytes
    | Stdin | Control => ret tt
    end.

Definition render_artifact (artifact : StreamArtifact) : Io unit :=
  let location := if artifact.(sa_mxc_uri) =s "" then "(captured locally; not uploaded)" else artifact.(sa_mxc_uri) in
  let! _ := writeln ErrOut
    ("mx-agent: " +:+ stream_label artifact.(sa_stream) +:+ " exceeded the timeline budget; full log uploaded as artifact "
     +:+ debug artifact.(sa_name) +:+ " (" +:+ pretty artifact.(sa_size_bytes) +:+ " bytes, sha256=" +:+ artifact.(sa_sha256)
     +:+ ") at " +:+ location) in
  if artifact.(sa_tail_preview) =s "" then ret tt
  else
    let! _ := writeln ErrOut "mx-agent: tail preview follows:" in
    match artifact.(sa_stream) with
    | Stderr => write_all ErrOut artifact.(sa_tail_preview)
    | _ => write_all Out artifact.(sa_tail_preview)
    end.

Definition chunk_integrity_error (chunk : StreamChunk) : option string :=
  let check (bytes : string) :=
    match chunk.(sc_sha256) with
    | Some expected =>
      if negb (b64_encode (sha256 bytes) =s expected)
      then Some (stream_label chunk.(sc_stream) +:+ " chunk " +:+ pretty chunk.(sc_seq) +:+ ": sha256 digest mismatch")
      else None
    | None => None
    end in
  if chunk.(sc_encoding) =s "base64" then
    match b64_decode chunk.(sc_data) with
    | Some bytes => check bytes
    | None => Some (stream_label chunk.(sc_stream) +:+ " chunk " +:+ pretty chunk.(sc_seq)
                    +:+ ": invalid base64 payload: " +:+ b64_error chunk.(sc_data))
    end
  else check chunk.(sc_data).

Definition fail_integrity (o : StreamOutcome) : StreamOutcome :=
  {| so_exit_code := o.(so_exit_code); so_missing := o.(so_missing); so_integrity_failure := true;
     so_artifacts := o.(so_artifacts); so_truncated := o.(so_truncated) |}.
Definition add_missing (o : StreamOutcome) (m : MissingChunk) : StreamOutcome :=
  {| so_exit_code := o.(so_exit_code); so_missing := o.(so_missing) ++ [m]; so_integrity_failure := o.(so_integrity_failure);
     so_artifacts := o.(so_artifacts); so_truncated := o.(so_truncated) |}.

Fixpoint surface_missing (detected : list MissingChunk) (o : StreamOutcome) (strict : bool) : Io StreamOutcome :=
  match detected with
  | [] => ret o
  | m :: detected =>
    let! o :=
      if strict then
        let! _ := writeln ErrOut ("mx-agent: error: " +:+ stream_label m.(mc_stream)
                                  +:+ " stream integrity failure: missing chunk " +:+ pretty m.(mc_seq)) in
        ret (fail_integrity o)
      else
        let! _ := writeln ErrOut ("mx-agent: warning: " +:+ stream_label m.(mc_stream) +:+ " stream degraded: missing chunk "
                                  +:+ pretty m.(mc_seq) +:+ " (best-effort output continues)") in
        ret o in
    surface_missing detected (add_missing o m) strict
  end.

Definition check_chunk_integrity (chunk : StreamChunk) (o : StreamOutcome) (strict : bool) : Io StreamOutcome :=
  if negb strict then ret o
  else match chunk_integrity_error chunk with
  | Some reason =>
    let! _ := writeln ErrOut ("mx-agent: error: stream integrity failure: " +:+ reason) in ret (fail_integrity o)
  | None => ret o
  end.

Fixpoint render_ready (ready : list StreamChunk) (o : StreamOutcome) (strict : bool) : Io StreamOutcome :=
  match ready with
  | [] => ret o
  | chunk :: ready =>
    let! o := check_chunk_integrity chunk o strict in
    let! _ := render_chunk chunk in
    render_ready ready o strict
  end.

Context (order : gmap StreamKind StreamReorder → list StreamKind).

Definition render_flush (b : ReorderBuffer) (o : StreamOutcome) (strict : bool) : Io StreamOutcome :=
  let '(_, ready, detected) := flush_all (order b.(rb_streams)) b in
  let! o := render_ready ready o strict in
  surface_missing detected o strict.

(** The loop over the frames. *)
Fixpoint render_frames (frames : list StreamFrame) (config : RenderConfig) (b : ReorderBuffer) (o : StreamOutcome) : Io StreamOutcome :=
  match frames with
  | [] => render_flush b o config.(rc_strict)
  | FChunk chunk :: frames =>
    let '(b, ready, detected) := accept b chunk in
    let! o := render_ready ready o config.(rc_strict) in
    let! o := surface_missing detected o config.(rc_strict) in
    render_frames frames config b o
  | FArtifact artifact :: frames =>
    let! _ := render_artifact artifact in
    render_frames frames config b
      {| so_exit_code := o.(so_exit_code); so_missing := o.(so_missing); so_integrity_failure := o.(so_integrity_failure);
         so_artifacts := o.(so_artifacts) ++ [artifact]; so_truncated := o.(so_truncated) |}
  | FFinished finished :: _ =>
    let! o := render_flush b o config.(rc_strict) in
    ret {| so_exit_code := Some (resolve_exit_code finished); so_missing := o.(so_missing);
           so_integrity_failure := o.(so_integrity_failure); so_artifacts := o.(so_artifacts);
           so_truncated := finished.(ef_truncated) |}
  end.
Definition render_stream_with (frames : list StreamFrame) (config : RenderConfig) : Io StreamOutcome :=
  let! o := render_frames frames config (reorder_new config.(rc_reorder_window)) default_outcome in
  let! _ := flush_writer Out in
  let! _ := flush_writer ErrOut in
  ret o.
Definition render_stream (frames : list StreamFrame) : Io StreamOutcome := render_stream_with frames default_render_config.
End render.

(** ** The loops advance the boundary *)

Lemma first_key_Some m k :
  first_key m = Some k → is_Some (m !! k) ∧ ∀ k', is_Some (m !! k') → k ≤ k'.
Proof.
  unfold first_key. intros Hk.
  assert (∀ k', is_Some (m !! k') ↔ k' ∈ (map_to_list m).*1) as Hdom.
  { intros k'. rewrite list_elem_of_fmap. split.
    - intros [c Hc]. exists (k', c). split; [done|]. by apply elem_of_map_to_list.
    - intros ([k1 c] & -> & Hc). apply elem_of_map_to_list in Hc. by exists c. }
  setoid_rewrite Hdom. destruct ((map_to_list m).*1) as [|a l]; [done|]. injection Hk as <-. clear. induction l as [|b l IH]; simpl.
  - split; [by left|]. intros k' Hk'. apply list_elem_of_singleton in Hk'. lia.
  - destruct IH as [Hin Hle]. rewrite !elem_of_cons in *. split.
    + destruct (Z.min_spec b (foldr Z.min a l)) as [[_ ->]|[_ ->]]; naive_solver.
    + intros k'. rewrite !elem_of_cons. specialize (Hle k'). rewrite elem_of_cons in Hle. intros [->|[->|?]]; [|lia|].
      * specialize (Hle (or_introl eq_refl)). lia.
      * specialize (Hle (or_intror H)). lia.
Qed.
Lemma first_key_None m : first_key m = None → m = ∅.
Proof.
  unfold first_key. destruct ((map_to_list m).*1) as [|a l] eqn:E; [|done]. intros _.
  apply fmap_nil_inv in E. by apply map_to_list_empty_iff in E.
Qed.

(** From [s] to [s'] the boundary moved over [ready], in order, and over [lost]. *)
Record passes (s s' : StreamReorder) (ready : list StreamChunk) (lost : list Z) : Prop := {
  pa_le : s.(next_expected) ≤ s'.(next_expected);
  pa_ahead k : s'.(ahead) !! k = if k <? s'.(next_expected) then None else s.(ahead) !! k;
  pa_ready : ready = omap (λ k, s.(ahead) !! k) (seqZ s.(next_expected) (s'.(next_expected) - s.(next_expected)));
  pa_lost : lost = List.filter (λ k, negb (is_some (s.(ahead) !! k)))
                     (seqZ s.(next_expected) (s'.(next_expected) - s.(next_expected)));
}.
(** Nothing below the boundary is buffered. *)
Definition above (s : StreamReorder) : Prop := ∀ k, is_Some (s.(ahead) !! k) → s.(next_expected) ≤ k.

Lemma passes_refl s : above s → passes s s [] [].
Proof.
  intros Ha. split; [done| |by rewrite Z.sub_diag|by rewrite Z.sub_diag].
  intros k. destruct (Z.ltb_spec k (next_expected s)); [|done]. destruct (ahead s !! k) eqn:E; [|done].
  specialize (Ha k (mk_is_Some _ _ E)). lia.
Qed.
Lemma passes_above s s' ready lost : passes s s' ready lost → above s'.
Proof. intros [_ Ha _ _] k. rewrite Ha. destruct (Z.ltb_spec k (next_expected s')); [by intros []|done]. Qed.
Lemma seqZ_split a b c : a ≤ b → b ≤ c → seqZ a (c - a) = seqZ a (b - a) ++ seqZ b (c - b).
Proof. intros ??. replace (c - a) with ((b - a) + (c - b)) by lia. rewrite seqZ_app by lia. do 2 f_equal. lia. Qed.
Lemma filter_ext_elem {A} (f g : A → bool) l : (∀ x, x ∈ l → f x = g x) → List.filter f l = List.filter g l.
Proof. intros Hx. apply filter_ext_in. intros x Hin. apply Hx. by apply list_elem_of_In. Qed.
Lemma filter_all {A} (f : A → bool) l : (∀ x, x ∈ l → f x = true) → List.filter f l = l.
Proof.
  intros Hx. induction l as [|a l IH]; [done|]. simpl. rewrite Hx by left. f_equal. apply IH. intros. apply Hx. by right.
Qed.
Lemma omap_ext_elem {A B} (f g : A → option B) (l : list A) : (∀ x, x ∈ l → f x = g x) → omap f l = omap g l.
Proof. intros Hx. induction l as [|a l IH]; [done|]. simpl. rewrite Hx by left. destruct (g a); [f_equal|]; apply IH; intros; apply Hx; by right. Qed.

Lemma passes_trans s s1 s2 ready1 lost1 ready2 lost2 :
  passes s s1 ready1 lost1 → passes s1 s2 ready2 lost2 → passes s s2 (ready1 ++ ready2) (lost1 ++ lost2).
Proof.
  intros [Hle1 Ha1 -> ->] [Hle2 Ha2 -> ->].
  assert (∀ k, k ∈ seqZ (next_expected s1) (next_expected s2 - next_expected s1) → ahead s1 !! k = ahead s !! k) as Heq.
  { intros k [Hk _]%elem_of_seqZ. rewrite Ha1. destruct (Z.ltb_spec k (next_expected s1)); [lia|done]. }
  split.
  - lia.
  - intros k. rewrite Ha2, Ha1. destruct (Z.ltb_spec k (next_expected s2)), (Z.ltb_spec k (next_expected s1)); done || lia.
  - rewrite (seqZ_split (next_expected s) (next_expected s1) (next_expected s2)), omap_app by lia. f_equal. by apply omap_ext_elem.
  - rewrite (seqZ_split (next_expected s) (next_expected s1) (next_expected s2)), List.filter_app by lia. f_equal.
    apply filter_ext_elem. intros k Hk. by rewrite Heq.
Qed.
Lemma passes_one s c :
  above s → s.(ahead) !! s.(next_expected) = Some c →
  passes s {| next_expected := s.(next_expected) + 1; ahead := delete s.(next_expected) s.(ahead) |} [c] [].
Proof.
  intros Ha Hc. split; simpl; [lia| | |].
  - intros k. destruct (Z.ltb_spec k (next_expected s + 1)) as [Hk|Hk].
    + destruct (decide (k = next_expected s)) as [->|Hne]; [apply lookup_delete_eq|].
      rewrite lookup_delete_ne by done. destruct (ahead s !! k) eqn:E; [|done]. specialize (Ha k (mk_is_Some _ _ E)). lia.
    + apply lookup_delete_ne. lia.
  - replace (next_expected s + 1 - next_expected s) with 1 by lia. rewrite seqZ_cons by lia. simpl. by rewrite Hc.
  - replace (next_expected s + 1 - next_expected s) with 1 by lia. rewrite seqZ_cons by lia. simpl. by rewrite Hc.
Qed.

Lemma drain_rounds_passes n : ∀ s s' ready,
  above s → drain_rounds n s = (s', ready) → passes s s' ready [].
Proof.
  induction n as [|n IH]; intros s s' ready Ha; cbn [drain_rounds]; [intros [= <- <-]; by apply passes_refl|].
  destruct (ahead s !! next_expected s) as [c|] eqn:E; [|intros [= <- <-]; by apply passes_refl].
  destruct (drain_rounds n _) as [s1 r1] eqn:E1. intros [= <- <-].
  pose proof (passes_one _ _ Ha E) as H1. apply IH in E1; [|by eapply passes_above].
  exact (passes_trans _ _ _ _ _ _ _ H1 E1).
Qed.
Lemma drain_rounds_done n : ∀ s s' ready,
  (size s.(ahead) ≤ n)%nat → drain_rounds n s = (s', ready) → s'.(ahead) !! s'.(next_expected) = None.
Proof.
  induction n as [|n IH]; intros s s' ready Hn; cbn [drain_rounds].
  - intros [= <- <-]. assert (ahead s = ∅) as -> by (apply map_size_empty_inv; lia). apply lookup_empty.
  - destruct (ahead s !! next_expected s) as [c|] eqn:E; [|by intros [= <- <-]].
    destruct (drain_rounds n _) as [s1 r1] eqn:E1. intros [= <- <-]. eapply IH; [|done].
    simpl. rewrite map_size_delete, E. simpl. lia.
Qed.
Lemma drain_passes s s' ready :
  above s → drain_contiguous s = (s', ready) → passes s s' ready [] ∧ s'.(ahead) !! s'.(next_expected) = None.
Proof. intros Ha E. split; [by eapply drain_rounds_passes|by eapply drain_rounds_done]. Qed.

(** A round of the outer loop. *)
Lemma declare_lost_passes first s s' lost :
  first_key s.(ahead) = Some first → above s → declare_lost first s = (s', lost) →
  passes s s' [] lost ∧ s'.(ahead) = s.(ahead) ∧ s'.(next_expected) = first.
Proof.
  intros [Hin Hmin]%first_key_Some Ha [= <- <-]. specialize (Ha _ Hin) as Hle.
  assert (∀ k, k < first → ahead s !! k = None) as Hnone.
  { intros k Hk. destruct (ahead s !! k) eqn:E; [|done]. specialize (Hmin k (mk_is_Some _ _ E)). lia. }
  assert (∀ k, k ∈ seqZ (next_expected s) (first - next_expected s) → ahead s !! k = None) as Hseq.
  { intros k Hk%elem_of_seqZ. apply Hnone. lia. }
  split; [|split; simpl; [done|lia]]. split; simpl; rewrite ?Z.max_r by lia; [done| | |].
  - intros k. destruct (Z.ltb_spec k first); [by apply Hnone|done].
  - erewrite (omap_ext_elem _ (λ _, None)) by done. clear. by induction (seqZ _ _).
  - rewrite filter_all; [done|]. intros k Hk. by rewrite Hseq.
Qed.

Lemma passes_size s s' ready lost : passes s s' ready lost → s'.(ahead) ⊆ s.(ahead).
Proof.
  intros [_ Ha _ _]. apply map_subseteq_spec. intros k c. rewrite Ha. by destruct (_ <? _).
Qed.

Lemma skip_gaps_rounds_passes n window : ∀ s s' ready lost,
  above s → skip_gaps_rounds n window s = (s', ready, lost) → passes s s' ready lost.
Proof.
  induction n as [|n IH]; intros s s' ready lost Ha; cbn [skip_gaps_rounds]; [intros [= <- <- <-]; by apply passes_refl|].
  destruct (_ <? _); [|intros [= <- <- <-]; by apply passes_refl].
  destruct (first_key (ahead s)) as [first|] eqn:F; [|intros [= <- <- <-]; by apply passes_refl].
  destruct (declare_lost first s) as [s1 lost1] eqn:E1. destruct (drain_contiguous s1) as [s2 ready2] eqn:E2.
  destruct (skip_gaps_rounds n window s2) as [[s3 ready3] lost3] eqn:E3. intros [= <- <- <-].
  apply (declare_lost_passes _ _ _ _ F Ha) in E1 as (P1 & _). apply drain_passes in E2 as [P2 _]; [|by eapply passes_above].
  apply IH in E3; [|by eapply passes_above].
  pose proof (passes_trans _ _ _ _ _ _ _ P1 (passes_trans _ _ _ _ _ _ _ P2 E3)) as P. exact P.
Qed.

(** The bounds on the rounds are enough. *)
Lemma skip_gaps_rounds_done n window : ∀ s s' ready lost,
  (size s.(ahead) ≤ n)%nat → above s → 0 ≤ window → s.(ahead) !! s.(next_expected) = None →
  skip_gaps_rounds n window s = (s', ready, lost) →
  Z.of_nat (size s'.(ahead)) ≤ window ∧ s'.(ahead) !! s'.(next_expected) = None.
Proof.
  induction n as [|n IH]; intros s s' ready lost Hn Ha Hw Hs; cbn [skip_gaps_rounds]; [intros [= <- <- <-]; split; [lia|done]|].
  destruct (Z.ltb_spec window (Z.of_nat (size (ahead s)))); [|intros [= <- <- <-]; split; [lia|done]].
  destruct (first_key (ahead s)) as [first|] eqn:F.
  2: { apply first_key_None in F. rewrite F, map_size_empty in *. lia. }
  destruct (declare_lost first s) as [s1 lost1] eqn:E1. destruct (drain_contiguous s1) as [s2 ready2] eqn:E2.
  destruct (skip_gaps_rounds n window s2) as [[s3 ready3] lost3] eqn:E3. intros [= <- <- <-].
  apply (declare_lost_passes _ _ _ _ F Ha) in E1 as (P1 & Ha1 & Hn1). apply first_key_Some in F as [Hin _].
  apply drain_passes in E2 as [P2 Hs2]; [|by eapply passes_above].
  eapply IH; [|by eapply passes_above|done|done|exact E3].
  assert (size (ahead s2) < size (ahead s))%nat; [|lia]. rewrite <- Ha1. apply map_subset_size.
  split; [by eapply passes_size|]. intros Hsub. rewrite <- Hn1, <- Ha1 in Hin. destruct Hin as [c Hc].
  eapply lookup_weaken in Hsub; [|exact Hc]. rewrite (pa_ahead _ _ _ _ P2) in Hsub.
  destruct (Z.ltb_spec (next_expected s1) (next_expected s2)) as [|Hge]; [done|].
  pose proof (pa_le _ _ _ _ P2). assert (next_expected s1 = next_expected s2) as Heq by lia.
  rewrite <- Heq, (pa_ahead _ _ _ _ P2), <- Heq, Z.ltb_irrefl, Hc in Hs2. done.
Qed.
Lemma skip_gaps_passes window s s' ready lost :
  above s → 0 ≤ window → s.(ahead) !! s.(next_expected) = None → skip_gaps window s = (s', ready, lost) →
  passes s s' ready lost ∧ Z.of_nat (size s'.(ahead)) ≤ window ∧ s'.(ahead) !! s'.(next_expected) = None.
Proof. intros Ha Hw Hs E. split; [by eapply skip_gaps_rounds_passes|by eapply skip_gaps_rounds_done]. Qed.

(** A new chunk is inserted and released with the run it completes, before the window is
    enforced. *)
Definition with_chunk (s : StreamReorder) (chunk : StreamChunk) : StreamReorder :=
  {| next_expected := s.(next_expected); ahead := <[chunk.(sc_seq) := chunk]> s.(ahead) |}.
Lemma push_split s chunk window :
  above s → s.(ahead) !! s.(next_expected) = None →
  s.(next_expected) ≤ chunk.(sc_seq) → s.(ahead) !! chunk.(sc_seq) = None →
  ∃ s1 r1, passes (with_chunk s chunk) s1 r1 [] ∧ s1.(ahead) !! s1.(next_expected) = None ∧
    push s chunk window = (let '(s2, r2, l2) := skip_gaps window s1 in (s2, r1 ++ r2, l2)).
Proof.
  intros Ha Hgap Hseq Hnew. unfold push. rewrite Hnew.
  assert (above (with_chunk s chunk)) as Ha0.
  { intros k Hk. simpl in Hk. apply lookup_insert_is_Some in Hk as [Hk|[_ Hk]]; simpl; [lia|by apply Ha]. }
  destruct (Z.ltb_spec (sc_seq chunk) (next_expected s)); [lia|]. simpl.
  destruct (Z.eqb_spec (sc_seq chunk) (next_expected s)) as [Heq|Hne].
  - pose proof (passes_one (with_chunk s chunk) chunk Ha0) as P0. simpl in P0.
    rewrite Heq, lookup_insert_eq in P0. specialize (P0 eq_refl). rewrite delete_insert_id in P0 by done.
    destruct (drain_contiguous _) as [s1 r1] eqn:E1. apply drain_passes in E1 as [P1 Hg1]; [|by eapply passes_above].
    exists s1, (chunk :: r1). split_and!; [exact (passes_trans _ _ _ _ _ _ _ P0 P1)|done|done].
  - exists (with_chunk s chunk), []. split_and!; [by apply passes_refl| |done]. simpl. by rewrite lookup_insert_ne by lia.
Qed.

(** ** One stream against its source *)

Section stream.
(** What the producer sent, by sequence number. *)
Context (src : Z → option StreamChunk).

Record stream_pre (rcv : list StreamChunk) (s : StreamReorder) (rel : list StreamChunk) (mis : list Z) : Prop := {
  si_pos : 0 ≤ s.(next_expected);
  si_above : above s;
  si_ahead k c : s.(ahead) !! k = Some c → src k = Some c ∧ k ∈ map sc_seq rcv;
  si_rcv c : c ∈ rcv → c.(sc_seq) < s.(next_expected) ∨ is_Some (s.(ahead) !! c.(sc_seq));
  si_rel : Some <$> rel = src <$> List.filter (λ k, negb (bool_decide (k ∈ mis))) (seqZ 0 s.(next_expected));
  si_mis k : k ∈ mis → 0 ≤ k < s.(next_expected);
}.
Definition stream_inv rcv s rel mis : Prop := stream_pre rcv s rel mis ∧ s.(ahead) !! s.(next_expected) = None.

Lemma src_omap (m : gmap Z StreamChunk) (l : list Z) :
  (∀ k c, m !! k = Some c → src k = Some c) →
  src <$> List.filter (λ k, is_some (m !! k)) l = Some <$> omap (λ k, m !! k) l.
Proof.
  intros Hm. induction l as [|k l IH]; [done|]. simpl. destruct (m !! k) as [c|] eqn:E; simpl; [|done].
  rewrite (Hm _ _ E). f_equal. apply IH.
Qed.
Lemma passes_pre rcv s rel mis s' ready lost :
  stream_pre rcv s rel mis → passes s s' ready lost → stream_pre rcv s' (rel ++ ready) (mis ++ lost).
Proof.
  intros [Hp Ha Hah Hr Hrel Hmis] P. pose proof P as [Hle Hah' Hready Hlost].
  assert (∀ k, k ∈ lost ↔ next_expected s ≤ k < next_expected s' ∧ ahead s !! k = None) as Hlost'.
  { intros k. rewrite Hlost, list_elem_of_In, filter_In, <- list_elem_of_In, elem_of_seqZ. destruct (ahead s !! k); simpl; naive_solver lia. }
  split.
  - lia.
  - by eapply passes_above.
  - intros k c. rewrite Hah'. destruct (_ <? _); [done|apply Hah].
  - intros c Hc. rewrite Hah'. destruct (Z.ltb_spec (sc_seq c) (next_expected s')); [by left|].
    destruct (Hr c Hc); [lia|by right].
  - replace (next_expected s') with (next_expected s' - 0) by lia. rewrite (seqZ_split 0 (next_expected s)), List.filter_app, !fmap_app by lia.
    f_equal.
    + rewrite Hrel, Z.sub_0_r. f_equal. apply filter_ext_elem. intros k Hk%elem_of_seqZ. f_equal. apply bool_decide_ext.
      rewrite elem_of_app, Hlost'. intuition lia.
    + rewrite Hready, <- src_omap by (intros; by apply Hah). f_equal. apply filter_ext_elem. intros k Hk%elem_of_seqZ.
      destruct (ahead s !! k) as [c|] eqn:E; simpl.
      * symmetry. apply negb_true_iff, bool_decide_eq_false. rewrite elem_of_app, Hlost', E.
        intros [Hin|[_ [=]]]. apply Hmis in Hin. lia.
      * symmetry. apply negb_false_iff, bool_decide_eq_true. rewrite elem_of_app, Hlost', E. right. split; [lia|done].
  - intros k. rewrite elem_of_app, Hlost'. intros [Hin|[? _]]; [apply Hmis in Hin|]; lia.
Qed.

Lemma stream_start : stream_inv [] default_reorder [] [].
Proof.
  split; [|done]. split; simpl; try done.
  - intros k Hk. simpl in Hk. rewrite lookup_empty in Hk. by destruct Hk.
  - intros c Hc. by apply not_elem_of_nil in Hc.
  - intros k Hk. by apply not_elem_of_nil in Hk.
Qed.

Lemma with_chunk_pre rcv s rel mis chunk :
  stream_pre rcv s rel mis → s.(next_expected) ≤ chunk.(sc_seq) → src chunk.(sc_seq) = Some chunk →
  stream_pre (rcv ++ [chunk]) (with_chunk s chunk) rel mis.
Proof.
  intros [Hp Ha Hah Hr Hrel Hmis] Hge Hsrc. split; simpl; try done.
  - intros k Hk. simpl in Hk. apply lookup_insert_is_Some in Hk as [Hk|[_ Hk]]; simpl; [lia|by apply Ha].
  - intros k c. rewrite map_app, elem_of_app. intros [[<- <-]|[_ Hc]]%lookup_insert_Some.
    + split; [done|]. right. by left.
    + destruct (Hah _ _ Hc). auto.
  - intros c. rewrite elem_of_app, list_elem_of_singleton, lookup_insert_is_Some. intros [Hc| ->]; [|auto].
    destruct (decide (sc_seq chunk = sc_seq c)); [auto|]. destruct (Hr c Hc); auto.
Qed.

(** Accepting a chunk of the producer. *)
Lemma push_inv rcv s rel mis chunk window s' ready lost :
  stream_inv rcv s rel mis → 0 ≤ window → 0 ≤ chunk.(sc_seq) → src chunk.(sc_seq) = Some chunk →
  push s chunk window = (s', ready, lost) →
  stream_inv (rcv ++ [chunk]) s' (rel ++ ready) (mis ++ lost).
Proof.
  intros [Hpre Hgap] Hw Hpos Hsrc E.
  destruct (decide (sc_seq chunk < next_expected s ∨ is_Some (ahead s !! sc_seq chunk))) as [Hdup|Hnew].
  - assert (push s chunk window = (s, [], [])) as E'.
    { unfold push. destruct (Z.ltb_spec (sc_seq chunk) (next_expected s)); [done|]. destruct Hdup as [|[c Hc]]; [lia|]. by rewrite Hc. }
    rewrite E' in E. injection E as <- <- <-. rewrite !app_nil_r. split; [|done]. destruct Hpre as [? ? Hah Hr ? ?]. split; try done.
    + intros k c Hc. destruct (Hah k c Hc). split; [done|]. rewrite map_app, elem_of_app. by left.
    + intros c. rewrite elem_of_app, list_elem_of_singleton. intros [?| ->]; auto.
  - assert (next_expected s ≤ sc_seq chunk ∧ ahead s !! sc_seq chunk = None) as [Hge Hno].
    { split; [lia|]. apply eq_None_not_Some. naive_solver. }
    destruct (push_split s chunk window) as (s1 & r1 & P1 & Hg1 & E1); try done; [apply Hpre|]. rewrite E in E1.
    destruct (skip_gaps window s1) as [[s2 r2] l2] eqn:E2. injection E1 as -> -> ->.
    apply skip_gaps_passes in E2 as (P2 & _ & Hgap'); [|by eapply passes_above|done|done].
    split; [|done]. eapply passes_pre; [by apply with_chunk_pre|exact (passes_trans _ _ _ _ _ _ _ P1 P2)].
Qed.
Lemma flush_inv rcv s rel mis s' ready lost :
  stream_inv rcv s rel mis → flush s = (s', ready, lost) →
  stream_inv rcv s' (rel ++ ready) (mis ++ lost) ∧ s'.(ahead) = ∅.
Proof.
  intros [Hpre Hgap] E. apply skip_gaps_passes in E as (P & Hs & Hgap'); [|apply Hpre|done|done].
  split; [split; [by eapply passes_pre|done]|]. apply map_size_empty_inv. lia.
Qed.
(** ** Deliveries within the window *)

(** A chunk arrives only after every chunk more than [window] before it. *)
Definition in_window (window : Z) (rcv : list StreamChunk) : Prop :=
  ∀ pre c post, rcv = pre ++ c :: post → ∀ i, 0 ≤ i → i + window < c.(sc_seq) → i ∈ map sc_seq pre.

Lemma window_size rcv s rel mis window :
  stream_pre rcv s rel mis → s.(ahead) !! s.(next_expected) = None → 0 ≤ window → in_window window rcv →
  Z.of_nat (size s.(ahead)) ≤ window.
Proof.
  intros [Hp Ha Hah Hr _ _] Hgap Hw Hin.
  assert (dom s.(ahead) ⊆ list_to_set (C := gset Z) (seqZ (next_expected s + 1) window)) as Hsub.
  { intros k [c Hc]%elem_of_dom. rewrite elem_of_list_to_set, elem_of_seqZ. destruct (Hah _ _ Hc) as [_ Hk].
    assert (next_expected s ≤ k) by (by apply Ha; eauto). assert (k ≠ next_expected s) by congruence.
    destruct (decide (k ≤ next_expected s + window)); [lia|].
    apply list_elem_of_fmap in Hk as (x & -> & Hx). apply list_elem_of_split in Hx as (pre & post & ->).
    specialize (Hin pre x post eq_refl (next_expected s) Hp ltac:(lia)).
    apply list_elem_of_fmap in Hin as (y & Hy & Hyin). destruct (Hr y) as [?|[c' Hc']]; [rewrite elem_of_app; by left|lia|].
    rewrite <- Hy, Hgap in Hc'. done. }
  apply subseteq_size in Hsub. rewrite size_dom, size_list_to_set, length_seqZ in Hsub by apply NoDup_seqZ. lia.
Qed.
Lemma skip_gaps_none window s : Z.of_nat (size s.(ahead)) ≤ window → skip_gaps window s = (s, [], []).
Proof.
  intros Hs. unfold skip_gaps. destruct (size (ahead s)) eqn:E; [done|]. cbn [skip_gaps_rounds]. rewrite E.
  destruct (Z.ltb_spec window (Z.of_nat (S n))); [lia|done].
Qed.

Lemma push_no_loss rcv s rel mis chunk window s' ready lost :
  stream_inv rcv s rel mis → 0 ≤ window → src chunk.(sc_seq) = Some chunk → in_window window (rcv ++ [chunk]) →
  push s chunk window = (s', ready, lost) → lost = [].
Proof.
  intros [Hpre Hgap] Hw Hsrc Hin E.
  destruct (decide (sc_seq chunk < next_expected s ∨ is_Some (ahead s !! sc_seq chunk))) as [Hdup|Hnew].
  - unfold push in E. destruct (Z.ltb_spec (sc_seq chunk) (next_expected s)); [by simplify_eq/=|].
    destruct Hdup as [|[c Hc]]; [lia|]. rewrite Hc in E. by simplify_eq/=.
  - assert (next_expected s ≤ sc_seq chunk ∧ ahead s !! sc_seq chunk = None) as [Hge Hno].
    { split; [lia|]. apply eq_None_not_Some. naive_solver. }
    destruct (push_split s chunk window) as (s1 & r1 & P1 & Hg1 & E1); try done; [apply Hpre|].
    rewrite E1, skip_gaps_none in E; [by simplify_eq|]. eapply window_size; [|done|done|done].
    eapply passes_pre, P1. by apply with_chunk_pre.
Qed.
Lemma flush_no_loss rcv s rel mis s' ready lost :
  stream_inv rcv s rel mis → (∀ i c, src i = Some c → i ∈ map sc_seq rcv) → (∀ i j, 0 ≤ i ≤ j → is_Some (src j) → is_Some (src i)) →
  flush s = (s', ready, lost) → lost = [].
Proof.
  intros [[Hp Ha Hah Hr _ _] Hgap] Hall Hdown E. unfold flush in E.
  assert (ahead s = ∅) as He.
  { apply map_empty. intros k. destruct (ahead s !! k) as [c|] eqn:Hc; [|done].
    destruct (Hdown (next_expected s) k) as [d Hd]; [split; [done|by apply Ha; eauto]|exists c; by apply Hah|].
    apply Hall in Hd. apply list_elem_of_fmap in Hd as (y & Hy & Hyin). destruct (Hr y Hyin) as [?|[c' Hc']]; [lia|].
    rewrite <- Hy, Hgap in Hc'. done. }
  rewrite skip_gaps_none in E; [by simplify_eq|]. by rewrite He, map_size_empty.
Qed.
End stream.

(** ** All streams against their sources *)

Section buffer.
(** The chunks that were produced for each stream, numbered from zero. *)
Context (sent : StreamKind → list StreamChunk).
Context (sent_stream : ∀ k c, c ∈ sent k → c.(sc_stream) = k).
Context (sent_seq : ∀ k, map sc_seq (sent k) = seqZ 0 (Z.of_nat (length (sent k)))).

Definition src (k : StreamKind) (i : Z) : option StreamChunk := if i <? 0 then None else sent k !! Z.to_nat i.
Lemma src_elem k i c : src k i = Some c → c ∈ sent k.
Proof. unfold src. destruct (_ <? _); [done|]. apply list_elem_of_lookup_2. Qed.
Lemma elem_src k c : c ∈ sent k → 0 ≤ c.(sc_seq) < Z.of_nat (length (sent k)) ∧ src k c.(sc_seq) = Some c.
Proof.
  intros [i Hi]%list_elem_of_lookup. pose proof (lookup_lt_Some _ _ _ Hi) as Hlt.
  assert (map sc_seq (sent k) !! i = Some (sc_seq c)) as Hs by (change (map sc_seq (sent k)) with (sc_seq <$> sent k); by rewrite list_lookup_fmap, Hi).
  rewrite sent_seq in Hs. apply lookup_seqZ in Hs as [Hs Hb]. rewrite Hs. split; [lia|].
  unfold src. destruct (Z.ltb_spec (0 + Z.of_nat i) 0); [lia|]. by rewrite Z.add_0_l, Nat2Z.id.
Qed.

Definition lost_of (k : StreamKind) (mis : list MissingChunk) : list Z :=
  map mc_seq (List.filter (λ m, bool_decide (m.(mc_stream) = k)) mis).
Lemma lost_of_app k m m' : lost_of k (m ++ m') = lost_of k m ++ lost_of k m'.
Proof. unfold lost_of. by rewrite List.filter_app, map_app. Qed.
Lemma lost_of_missing k j lost : lost_of k (missing_of j lost) = if bool_decide (j = k) then lost else [].
Proof.
  unfold lost_of, missing_of. induction lost as [|x l IH]; simpl; [by case_bool_decide|].
  case_bool_decide; simpl; by rewrite IH.
Qed.
Lemma of_stream_all k j cs : (∀ c, c ∈ cs → c.(sc_stream) = j) → of_stream k cs = if bool_decide (j = k) then cs else [].
Proof.
  intros Hj. induction cs as [|c cs IH]; [by case_bool_decide|]. unfold of_stream in *. simpl.
  rewrite (Hj c) by left. rewrite IH by (intros; apply Hj; by right). by case_bool_decide.
Qed.

Lemma inv_elem k rcv s rel mis c : stream_inv (src k) rcv s rel mis → c ∈ rel → c ∈ sent k.
Proof.
  intros [[_ _ _ _ Hrel _] _] Hc. assert (Some c ∈ Some <$> rel) as Hs by (apply list_elem_of_fmap; eauto).
  rewrite Hrel in Hs. apply list_elem_of_fmap in Hs as (i & Hi & _). by eapply src_elem.
Qed.

Definition buf_inv (cs : list StreamChunk) (b : ReorderBuffer) (rel : list StreamChunk) (mis : list MissingChunk) : Prop :=
  ∀ k, stream_inv (src k) (of_stream k cs) (stream_state b k) (of_stream k rel) (lost_of k mis).

Lemma stream_state_with b j s k : stream_state (with_stream b j s) k = if bool_decide (j = k) then s else stream_state b k.
Proof.
  unfold stream_state, with_stream. simpl. case_bool_decide as Hk; [subst; by rewrite lookup_insert_eq|by rewrite lookup_insert_ne].
Qed.

(** One stream moves on, the others stay. *)
Lemma buf_inv_step cs cs' b rel mis j s ready lost :
  buf_inv cs b rel mis → (∀ k, k ≠ j → of_stream k cs' = of_stream k cs) →
  stream_inv (src j) (of_stream j cs') s (of_stream j rel ++ ready) (lost_of j mis ++ lost) →
  buf_inv cs' (with_stream b j s) (rel ++ ready) (mis ++ missing_of j lost).
Proof.
  intros Hb Hcs Hj k. rewrite of_stream_app, lost_of_app, lost_of_missing, stream_state_with.
  rewrite (of_stream_all k j ready).
  - case_bool_decide as Hk; [by subst|]. rewrite !app_nil_r, Hcs by done. apply Hb.
  - intros c Hc. apply sent_stream. eapply inv_elem; [exact Hj|]. rewrite elem_of_app. by right.
Qed.

Lemma accept_inv cs b rel mis c b' ready lost :
  buf_inv cs b rel mis → 0 ≤ b.(rb_window) → c ∈ sent c.(sc_stream) → accept b c = (b', ready, lost) →
  buf_inv (cs ++ [c]) b' (rel ++ ready) (mis ++ lost) ∧ b'.(rb_window) = b.(rb_window).
Proof.
  intros Hb Hw Hc. unfold accept. destruct (push _ _ _) as [[s r] l] eqn:E. intros [= <- <- <-].
  split; [|done]. apply elem_src in Hc as [Hr Hsrc].
  eapply buf_inv_step; [done| |].
  - intros k Hk. rewrite of_stream_app. unfold of_stream at 2. simpl. by rewrite bool_decide_false, app_nil_r by done.
  - rewrite of_stream_app. unfold of_stream at 2. simpl. rewrite bool_decide_true by done.
    eapply push_inv; [apply Hb|done|lia|done|exact E].
Qed.

(** The chunks that [accept] releases over a run. *)
Fixpoint accepts (cs : list StreamChunk) (b : ReorderBuffer) : ReorderBuffer * list StreamChunk * list MissingChunk :=
  match cs with
  | [] => (b, [], [])
  | c :: cs =>
    let '(b, ready, lost) := accept b c in
    let '(b, ready', lost') := accepts cs b in (b, ready ++ ready', lost ++ lost')
  end.
Lemma accepts_inv cs : ∀ cs0 b rel mis b' ready lost,
  buf_inv cs0 b rel mis → 0 ≤ b.(rb_window) → (∀ c, c ∈ cs → c ∈ sent c.(sc_stream)) → accepts cs b = (b', ready, lost) →
  buf_inv (cs0 ++ cs) b' (rel ++ ready) (mis ++ lost).
Proof.
  induction cs as [|c cs IH]; intros cs0 b rel mis b' ready lost Hb Hw Hcs; cbn [accepts].
  - intros [= <- <- <-]. by rewrite !app_nil_r.
  - destruct (accept b c) as [[b1 r1] l1] eqn:E1. destruct (accepts cs b1) as [[b2 r2] l2] eqn:E2. intros [= <- <- <-].
    apply accept_inv with (cs := cs0) (rel := rel) (mis := mis) in E1 as [H1 Hw1]; try done; [|apply Hcs; left].
    rewrite !app_assoc. replace (cs0 ++ c :: cs) with ((cs0 ++ [c]) ++ cs) by by rewrite <- app_assoc.
    eapply IH; [exact H1|by rewrite Hw1| |exact E2]. intros x Hx. apply Hcs. by right.
Qed.

Lemma flush_all_inv order : ∀ cs b rel mis b' ready lost,
  buf_inv cs b rel mis → flush_all order b = (b', ready, lost) →
  buf_inv cs b' (rel ++ ready) (mis ++ lost) ∧
  ∀ k, k ∈ order ∨ (stream_state b k).(ahead) = ∅ → (stream_state b' k).(ahead) = ∅.
Proof.
  induction order as [|j order IH]; intros cs b rel mis b' ready lost Hb; cbn [flush_all].
  - intros [= <- <- <-]. rewrite !app_nil_r. split; [done|]. intros k [Hk|?]; [|done]. by apply not_elem_of_nil in Hk.
  - destruct (flush _) as [[s r1] l1] eqn:E1. destruct (flush_all order _) as [[b2 r2] l2] eqn:E2. intros [= <- <- <-].
    apply (flush_inv _ _ _ _ _ _ _ _ (Hb j)) in E1 as [H1 He]. rewrite !app_assoc.
    apply (IH cs _ (rel ++ r1) (mis ++ missing_of j l1)) in E2 as [H2 Hk2]; [|by apply (buf_inv_step cs)].
    split; [done|]. intros k Hk. apply Hk2. rewrite stream_state_with. case_bool_decide; [by right|].
    rewrite elem_of_cons in Hk. naive_solver.
Qed.
Lemma src_down k i j : 0 ≤ i ≤ j → is_Some (src k j) → is_Some (src k i).
Proof.
  unfold src. intros Hij. destruct (Z.ltb_spec j 0), (Z.ltb_spec i 0); try lia. rewrite !lookup_lt_is_Some. lia.
Qed.

Lemma accepts_no_loss cs : ∀ cs0 b rel mis b' ready lost,
  buf_inv cs0 b rel mis → 0 ≤ b.(rb_window) → (∀ c, c ∈ cs → c ∈ sent c.(sc_stream)) →
  (∀ k, in_window b.(rb_window) (of_stream k (cs0 ++ cs))) →
  accepts cs b = (b', ready, lost) → lost = [].
Proof.
  induction cs as [|c cs IH]; intros cs0 b rel mis b' ready lost Hb Hw Hcs Hin; cbn [accepts]; [by intros [= <- <- <-]|].
  destruct (accept b c) as [[b1 r1] l1] eqn:E1. destruct (accepts cs b1) as [[b2 r2] l2] eqn:E2. intros [= <- <- <-].
  assert (l1 = []) as ->.
  { unfold accept in E1. destruct (push _ _ _) as [[s r] l] eqn:E. injection E1 as <- <- <-.
    assert (l = []) as ->; [|done]. eapply push_no_loss; [apply Hb|exact Hw| |  |exact E].
    - apply elem_src, Hcs. by left.
    - intros pre x post Heq. apply (Hin (sc_stream c) pre x (post ++ of_stream (sc_stream c) cs)).
      replace (cs0 ++ c :: cs) with ((cs0 ++ [c]) ++ cs) by by rewrite <- app_assoc.
      rewrite !of_stream_app. unfold of_stream at 2. simpl. rewrite bool_decide_true by done. rewrite Heq, <- app_assoc. done. }
  apply accept_inv with (cs := cs0) (rel := rel) (mis := mis) in E1 as [H1 Hw1]; try done; [|apply Hcs; left].
  eapply IH; [exact H1|by rewrite Hw1| | |exact E2].
  - intros x Hx. apply Hcs. by right.
  - intros k. rewrite Hw1, <- app_assoc. apply Hin.
Qed.
Lemma flush_all_no_loss order : ∀ cs b rel mis b' ready lost,
  buf_inv cs b rel mis → (∀ k c, c ∈ sent k → c ∈ of_stream k cs) → flush_all order b = (b', ready, lost) → lost = [].
Proof.
  induction order as [|j order IH]; intros cs b rel mis b' ready lost Hb Hall; cbn [flush_all]; [by intros [= <- <- <-]|].
  destruct (flush _) as [[s r1] l1] eqn:E1. destruct (flush_all order _) as [[b2 r2] l2] eqn:E2. intros [= <- <- <-].
  assert (l1 = []) as ->.
  { eapply flush_no_loss; [apply (Hb j)| |intros; by eapply src_down|exact E1]. intros i c Hi.
    pose proof (src_elem _ _ _ Hi) as Hc. apply list_elem_of_fmap. exists c. split; [|by apply Hall].
    apply elem_src in Hc as [? Hc]. unfold src in Hi, Hc.
    destruct (Z.ltb_spec i 0), (Z.ltb_spec (sc_seq c) 0); try done.
    assert (sc_seq c = Z.of_nat (Z.to_nat i)); [|lia]. pose proof (sent_seq j) as Hs.
    apply (f_equal (.!! Z.to_nat i)) in Hs. change (map sc_seq (sent j)) with (sc_seq <$> sent j) in Hs.
    rewrite list_lookup_fmap, Hi in Hs. symmetry in Hs. simpl in Hs. apply lookup_seqZ in Hs. lia. }
  simpl. apply (flush_inv _ _ _ _ _ _ _ _ (Hb j)) in E1 as [H1 He]. eapply (IH cs _ (rel ++ r1) (mis ++ missing_of j [])); [|done|exact E2].
  by apply (buf_inv_step cs).
Qed.

(** With nothing lost, what was released is the front of what was sent, and it goes
    beyond everything that arrived. *)
Lemma released_front k cs b rel :
  buf_inv cs b rel [] → (stream_state b k).(ahead) = ∅ →
  ∃ n, of_stream k rel = take n (sent k) ∧ (n ≤ length (sent k))%nat ∧ ∀ c, c ∈ of_stream k cs → c.(sc_seq) < Z.of_nat n.
Proof.
  intros Hb He. destruct (Hb k) as [[Hp _ _ Hr Hrel _] _]. set (n := next_expected (stream_state b k)) in *.
  exists (Z.to_nat n). rewrite (filter_all (λ k, negb _)) in Hrel
    by (intros; apply negb_true_iff, bool_decide_eq_false, not_elem_of_nil).
  assert (∀ i, (i < Z.to_nat n)%nat → ∃ c, of_stream k rel !! i = Some c ∧ sent k !! i = Some c) as Hi.
  { intros i Hlt. apply (f_equal (.!! i)) in Hrel. rewrite !list_lookup_fmap, lookup_seqZ_lt in Hrel by lia. simpl in Hrel.
    destruct (of_stream k rel !! i) as [c|] eqn:Ec; [|done]. exists c. split; [done|]. simpl in Hrel. injection Hrel as Hrel.
    unfold src in Hrel. destruct (Z.ltb_spec (0 + Z.of_nat i) 0); [lia|]. rewrite Z.add_0_l, Nat2Z.id in Hrel. done. }
  assert (length (of_stream k rel) = Z.to_nat n) as Hlen.
  { apply (f_equal length) in Hrel. rewrite !length_fmap, length_seqZ in Hrel. done. }
  split_and!.
  - apply list_eq. intros i. destruct (decide (i < Z.to_nat n)%nat) as [Hlt|Hge].
    + destruct (Hi i Hlt) as (c & -> & Hc). by rewrite lookup_take_lt, Hc.
    + rewrite !lookup_ge_None_2; [done|rewrite length_take; lia|lia].
  - destruct (decide (Z.to_nat n ≤ length (sent k))%nat) as [|Hgt]; [done|].
    destruct (Hi (length (sent k)) ltac:(lia)) as (c & _ & Hc). apply lookup_lt_Some in Hc. lia.
  - intros c Hc. destruct (Hr c Hc) as [?|[x Hx]]; [lia|]. by rewrite He, lookup_empty in Hx.
Qed.
End buffer.

(** ** What is written *)

Fixpoint written (w : Writer) (log : WriteLog) : string :=
  match log with
  | [] => ""
  | (w', text) :: log => if bool_decide (w' = w) then text +:+ written w log else written w log
  end.

Lemma to_text_app a b : to_text (a ++ b) = to_text a +:+ to_text b.
Proof. induction a as [|x a IH]; [done|]. simpl. by rewrite IH. Qed.

Definition nonempty {A} (l : list A) : bool := match l with [] => false | _ => true end.
Lemma nonempty_app {A} (l l' : list A) : nonempty (l ++ l') = nonempty l || nonempty l'.
Proof. by destruct l. Qed.

Section written.
Context `{Crypto}.
Context (io : WriteLog → Writer → bool) (debug b64_error : string → string) (order : gmap StreamKind StreamReorder → list StreamKind).

Definition writer_of (k : StreamKind) : option Writer := match k with Stdout | Pty => Some Out | Stderr => Some ErrOut | _ => None end.
Definition chunk_write (c : StreamChunk) : WriteLog :=
  if c.(sc_data) =s "" then []
  else match writer_of c.(sc_stream) with Some w => [(w, to_text (decode_chunk c))] | None => [] end.
Definition writes (cs : list StreamChunk) : WriteLog := concat (map chunk_write cs).
(** A chunk that passes the checks of strict mode. *)
Definition intact (c : StreamChunk) : Prop := chunk_integrity_error b64_error c = None ∧ (c.(sc_data) = "" → decode_chunk c = []).

Context (io_ok : ∀ log w, io log w = true).

Lemma write_all_ok w text log : write_all io w text log = (Ok tt, log ++ [(w, text)]).
Proof. unfold write_all. by rewrite io_ok. Qed.
Lemma render_ready_ok ready o strict : ∀ log,
  (∀ c, c ∈ ready → intact c) → render_ready io b64_error ready o strict log = (Ok o, log ++ writes ready).
Proof.
  induction ready as [|c ready IH]; intros log Hi; [unfold writes; simpl; by rewrite app_nil_r|].
  cbn [render_ready]. unfold bind.
  assert (check_chunk_integrity io b64_error c o strict log = (Ok o, log)) as ->.
  { unfold check_chunk_integrity. destruct (Hi c ltac:(by left)) as [-> _]. by destruct strict. }
  assert (render_chunk io c log = (Ok tt, log ++ chunk_write c)) as ->.
  { unfold render_chunk, chunk_write. destruct (sc_data c =s ""); [by rewrite app_nil_r|].
    destruct (sc_stream c); simpl; rewrite ?write_all_ok, ?app_nil_r; done. }
  rewrite IH by (intros; apply Hi; by right). unfold writes. simpl. by rewrite app_assoc.
Qed.
Lemma surface_missing_ok detected strict : ∀ o log, ∃ o' log',
  surface_missing io detected o strict log = (Ok o', log') ∧
  o'.(so_missing) = o.(so_missing) ++ detected ∧
  o'.(so_integrity_failure) = o.(so_integrity_failure) || (strict && nonempty detected) ∧
  (detected = [] → log' = log).
Proof.
  induction detected as [|m detected IH]; intros o log.
  - exists o, log. simpl. by rewrite app_nil_r, andb_false_r, orb_false_r.
  - cbn [surface_missing]. unfold bind, writeln. destruct strict; rewrite write_all_ok; unfold ret;
      edestruct IH as (o' & log' & E & Hm & Hf & _); exists o', log'; (split; [exact E|]); rewrite Hm, Hf; simpl; rewrite <- app_assoc.
    + split; [done|]. by rewrite orb_true_r.
    + done.
Qed.

(** The outcome and the log of rendering chunks and the end of the stream. *)
Lemma render_frames_run cs finished rest config : ∀ b o log b1 ready lost b2 ready2 lost2,
  accepts cs b = (b1, ready, lost) → flush_all (order b1.(rb_streams)) b1 = (b2, ready2, lost2) →
  (∀ c, c ∈ ready ++ ready2 → intact c) →
  ∃ o' log',
    render_frames io debug b64_error order (map FChunk cs ++ FFinished finished :: rest) config b o log = (Ok o', log') ∧
    o'.(so_missing) = o.(so_missing) ++ lost ++ lost2 ∧ o'.(so_exit_code) = Some (resolve_exit_code finished) ∧
    o'.(so_truncated) = finished.(ef_truncated) ∧
    o'.(so_integrity_failure) = o.(so_integrity_failure) || (config.(rc_strict) && nonempty (lost ++ lost2)) ∧
    (lost ++ lost2 = [] → log' = log ++ writes (ready ++ ready2)).
Proof.
  induction cs as [|c cs IH]; intros b o log b1 ready lost b2 ready2 lost2; cbn [accepts].
  - intros [= <- <- <-] Hf Hi. simpl. unfold bind, render_flush. rewrite Hf. unfold bind. rewrite render_ready_ok by done.
    destruct (surface_missing_ok lost2 (rc_strict config) o (log ++ writes ready2)) as (o' & log' & -> & Hm & Hint & Hl).
    do 2 eexists. split; [done|]. done.
  - destruct (accept b c) as [[ba r1] l1] eqn:E1. destruct (accepts cs ba) as [[bb r2] l2] eqn:E2. intros [= <- <- <-] Hf Hi.
    cbn [map app render_frames]. rewrite E1. unfold bind. rewrite render_ready_ok.
    2: { intros x Hx. apply Hi. rewrite !elem_of_app. auto. }
    destruct (surface_missing_ok l1 (rc_strict config) o (log ++ writes r1)) as (o1 & log1 & -> & Hm1 & Hint1 & Hl1).
    destruct (IH ba o1 log1 bb r2 l2 b2 ready2 lost2 E2 Hf) as (o' & log' & E & Hm & He & Ht & Hint & Hl).
    { intros x Hx. apply Hi. rewrite <- app_assoc, elem_of_app. auto. }
    exists o', log'. rewrite E. split; [done|]. rewrite Hm, Hm1, Hint, Hint1, <- !app_assoc, !nonempty_app. split_and!; try done.
    + clear. by destruct (so_integrity_failure o), (rc_strict config), (nonempty l1), (nonempty l2), (nonempty lost2).
    + intros [Hn1 Hn2]%app_eq_nil. rewrite Hl, Hl1 by done. unfold writes. by rewrite <- app_assoc, (map_app _ r1), concat_app.
Qed.

Lemma written_app w log log' : written w (log ++ log') = written w log +:+ written w log'.
Proof.
  induction log as [|[w' t] log IH]; [done|]. simpl. case_bool_decide; rewrite IH; [|done]. by rewrite append_assoc.
Qed.
Lemma written_writes cs :
  (∀ c, c ∈ cs → intact c ∧ (c.(sc_stream) = Stdout ∨ c.(sc_stream) = Stderr)) →
  written Out (writes cs) = to_text (output (of_stream Stdout cs)) ∧ written ErrOut (writes cs) = to_text (output (of_stream Stderr cs)).
Proof.
  induction cs as [|c cs IH]; intros Hc; [done|]. destruct IH as [IH1 IH2]; [intros; apply Hc; by right|].
  destruct (Hc c ltac:(by left)) as [[_ He] Hs]. unfold writes. simpl. rewrite !written_app. fold (writes cs). rewrite IH1, IH2.
  unfold chunk_write. destruct (sc_data c =s "") eqn:E.
  - apply str_eqb_eq, He in E. unfold of_stream, output. simpl. destruct Hs as [-> | ->]; simpl; by rewrite E.
  - destruct Hs as [Hs|Hs]; unfold of_stream, output; simpl; rewrite Hs; simpl; by rewrite to_text_app, append_assoc.
Qed.
End written.

(** ** From capture to terminal *)

Section end_to_end.
Context `{Crypto} `{!CryptoLaws}.
Context (io : WriteLog → Writer → bool) (debug b64_error : string → string) (order : gmap StreamKind StreamReorder → list StreamKind).
Context (io_ok : ∀ log w, io log w = true) (order_ok : ∀ m, order m ≡ₚ (map_to_list m).*1).

Lemma built_intact id k seq data eof now : intact b64_error (build_chunk id k seq data eof now).
Proof.
  split.
  - unfold chunk_integrity_error, build_chunk, encode_chunk. destruct (from_utf8_ok data); cbn [sc_encoding sc_sha256 sc_data].
    + change ("utf-8" =s "base64") with false. cbv iota. unfold chunk_sha256. destruct data; [done|]. by rewrite str_eqb_refl.
    + rewrite str_eqb_refl, b64_roundtrip. unfold chunk_sha256. destruct data; [done|]. by rewrite str_eqb_refl.
  - rewrite decode_build by exact _. unfold build_chunk, encode_chunk. destruct (from_utf8_ok data); cbn [sc_data]; [by destruct data|].
    intros E. pose proof (b64_roundtrip (to_text data)) as R. rewrite E, b64_empty in R. by destruct data.
Qed.

Lemma of_stream_elem k c cs : c ∈ of_stream k cs ↔ c ∈ cs ∧ c.(sc_stream) = k.
Proof. unfold of_stream. rewrite !list_elem_of_In, filter_In, bool_decide_eq_true. done. Qed.

(** Chunks that were built for the two output streams, each numbered from zero. *)
Record numbered (id : string) (chunks : list StreamChunk) : Prop := {
  nu_seq k : map sc_seq (of_stream k chunks) = seqZ 0 (Z.of_nat (length (of_stream k chunks)));
  nu_built c : c ∈ chunks → (c.(sc_stream) = Stdout ∨ c.(sc_stream) = Stderr) ∧
                            ∃ k seq data eof now, c = build_chunk id k seq data eof now;
}.
Lemma captured_numbered id fo fe chunks :
  captured id Stdout fo chunks → captured id Stderr fe chunks →
  (∀ x, x ∈ chunks → x.(sc_stream) = Stdout ∨ x.(sc_stream) = Stderr) → numbered id chunks.
Proof.
  intros Hout Herr Hkinds. split.
  - intros k. destruct k; [|apply Hout|apply Herr| |]; (destruct (of_stream _ chunks) as [|c l] eqn:E; [done|exfalso]);
      assert (c ∈ c :: l) as Hc by left; rewrite <- E in Hc; apply of_stream_elem in Hc as [Hc Hk]; apply Hkinds in Hc; rewrite Hk in Hc; naive_solver.
  - intros c Hc. split; [by apply Hkinds|].
    destruct (Hkinds c Hc) as [Hk|Hk]; [destruct Hout as [_ _ Hb _]|destruct Herr as [_ _ Hb _]]; rewrite Forall_forall in Hb;
      destruct (Hb c) as (? & ? & ? & ? & ->); eauto 10; by apply of_stream_elem.
Qed.
(** A front of such chunks is such a list. *)
Lemma numbered_front id chunks n : numbered id chunks → numbered id (take n chunks).
Proof.
  intros [Hs Hb]. split.
  - intros k. specialize (Hs k). rewrite <- (take_drop n chunks) in Hs at 1 2. rewrite of_stream_app, map_app, length_app, Nat2Z.inj_add, seqZ_app in Hs by lia.
    apply app_inj_1 in Hs as [Hs _]; [done|]. by rewrite length_map, length_seqZ, Nat2Z.id.
  - intros c Hc. apply Hb. rewrite <- (take_drop n chunks), elem_of_app. by left.
Qed.
(** Delivered in the order they were built, they are within any window. *)
Lemma numbered_in_window id chunks window k : numbered id chunks → 0 ≤ window → in_window window (of_stream k chunks).
Proof.
  intros [Hs _] Hw pre c post E i Hi Hc. specialize (Hs k). rewrite E in Hs. rewrite map_app, length_app, Nat2Z.inj_add, seqZ_app in Hs by lia.
  apply app_inj_1 in Hs as [Hpre Hs]; [|by rewrite length_map, length_seqZ, Nat2Z.id].
  cbn [map length] in Hs. rewrite seqZ_cons in Hs by lia. injection Hs as Hs _. rewrite Hpre, elem_of_seqZ. lia.
Qed.

Section delivery.
Context (id : string) (chunks : list StreamChunk) (Hnum : numbered id chunks).

Lemma chunks_stream k c : c ∈ of_stream k chunks → c.(sc_stream) = k.
Proof. by intros [_ ?]%of_stream_elem. Qed.
Lemma chunks_intact c : c ∈ chunks → intact b64_error c ∧ (c.(sc_stream) = Stdout ∨ c.(sc_stream) = Stderr).
Proof. intros Hc. destruct (nu_built _ _ Hnum c Hc) as [? (? & ? & ? & ? & ? & ->)]. split; [apply built_intact|done]. Qed.
(** The end marker has the highest number. *)
Lemma eof_last k full c : captured id k full chunks → c ∈ of_stream k chunks → c.(sc_eof) = true →
  c.(sc_seq) + 1 = Z.of_nat (length (of_stream k chunks)).
Proof.
  intros [Hs (cs & e & E & _ & Hcs) _ _] Hc He. rewrite E in Hc. apply elem_of_app in Hc as [Hc|Hc].
  { rewrite Forall_forall in Hcs. by rewrite (Hcs c Hc) in He. }
  apply list_elem_of_singleton in Hc as ->. rewrite E, length_app in Hs |- *. rewrite map_app in Hs. cbn [map length] in Hs |- *.
  rewrite Nat2Z.inj_add, seqZ_app in Hs by lia. apply app_inj_tail in Hs as [_ ->]. lia.
Qed.

Lemma eof_covers k full cs n e :
  captured id k full chunks → e ∈ of_stream k chunks → e.(sc_eof) = true →
  (∀ c, c ∈ of_stream k cs → c.(sc_seq) < Z.of_nat n) → e ∈ cs → take n (of_stream k chunks) = of_stream k chunks.
Proof.
  intros Hc Hin He Hn Hcs. pose proof (eof_last k full e Hc Hin He). apply take_ge.
  apply of_stream_elem in Hin as [_ Hk]. specialize (Hn e ltac:(by apply of_stream_elem)). lia.
Qed.
Lemma eof_exists k full : captured id k full chunks → ∃ e, e ∈ of_stream k chunks ∧ e.(sc_eof) = true.
Proof. intros [_ (l & e & -> & He & _) _ _]. exists e. rewrite elem_of_app. split; [right; by left|done]. Qed.

Lemma delivered cs config finished rest :
  (∀ c, c ∈ cs → c ∈ chunks) →
  ∃ o log,
    render_stream_with io debug b64_error order (map FChunk cs ++ FFinished finished :: rest) config [] = (Ok o, log) ∧
    o.(so_exit_code) = Some (resolve_exit_code finished) ∧ o.(so_truncated) = finished.(ef_truncated) ∧
    o.(so_integrity_failure) = config.(rc_strict) && nonempty o.(so_missing) ∧
    (o.(so_missing) = [] → ∃ no ne,
       written Out log = to_text (output (take no (of_stream Stdout chunks))) ∧
       written ErrOut log = to_text (output (take ne (of_stream Stderr chunks))) ∧
       (no ≤ length (of_stream Stdout chunks))%nat ∧ (ne ≤ length (of_stream Stderr chunks))%nat ∧
       (∀ c, c ∈ of_stream Stdout cs → c.(sc_seq) < Z.of_nat no) ∧ (∀ c, c ∈ of_stream Stderr cs → c.(sc_seq) < Z.of_nat ne)) ∧
    ((∀ c, c ∈ chunks → c ∈ cs) → (∀ k, in_window (Z.max config.(rc_reorder_window) 1) (of_stream k cs)) → o.(so_missing) = []).
Proof.
  intros Hcs. set (b0 := reorder_new (rc_reorder_window config)). set (sent := λ k, of_stream k chunks).
  assert (∀ c, c ∈ cs → c ∈ sent (sc_stream c)) as Hsent by (intros c Hc; apply of_stream_elem; auto).
  assert (buf_inv sent [] b0 [] []) as HI0 by (intros k; apply stream_start).
  assert (0 ≤ rb_window b0) as Hw by (simpl; lia).
  destruct (accepts cs b0) as [[b1 ready] lost] eqn:E1. destruct (flush_all (order (rb_streams b1)) b1) as [[b2 ready2] lost2] eqn:E2.
  pose proof (accepts_inv sent chunks_stream (nu_seq _ _ Hnum) cs [] b0 [] [] _ _ _ HI0 Hw Hsent E1) as H1. simpl in H1.
  destruct (flush_all_inv sent chunks_stream (order (rb_streams b1)) cs b1 ready lost _ _ _ H1 E2) as [H2 Hempty].
  assert (∀ k, ahead (stream_state b2 k) = ∅) as He2.
  { intros k. apply Hempty. rewrite order_ok. unfold stream_state. destruct (rb_streams b1 !! k) as [s|] eqn:Ek; [|by right].
    left. apply list_elem_of_fmap. exists (k, s). split; [done|]. by apply elem_of_map_to_list. }
  assert (∀ c, c ∈ ready ++ ready2 → c ∈ chunks) as Hin.
  { intros c Hc. assert (c ∈ of_stream (sc_stream c) (ready ++ ready2)) as Hc' by by apply of_stream_elem.
    eapply (inv_elem sent), of_stream_elem in Hc' as [? _]; [done|apply H2]. }
  destruct (render_frames_run io debug b64_error order io_ok cs finished rest config b0 default_outcome [] _ _ _ _ _ _ E1 E2)
    as (o & log & E & Hm & Hex & Ht & Hint & Hlog).
  { intros c Hc. by apply chunks_intact, Hin. }
  exists o, log. simpl in Hm. rewrite Hm. split_and!; try done.
  - unfold render_stream_with, bind, flush_writer. fold b0. rewrite E. by rewrite !io_ok.
  - intros Hnil. rewrite Hlog by done. simpl.
    destruct (written_writes b64_error (ready ++ ready2)) as [-> ->]; [intros; by apply chunks_intact, Hin|].
    rewrite Hnil in H2. destruct (released_front sent Stdout cs b2 _ H2 (He2 _)) as (no & -> & ? & ?).
    destruct (released_front sent Stderr cs b2 _ H2 (He2 _)) as (ne & -> & ? & ?). by exists no, ne.
  - intros Hall Hwin. rewrite (accepts_no_loss sent chunks_stream (nu_seq _ _ Hnum) cs [] b0 [] [] _ _ _ HI0 Hw Hsent Hwin E1). simpl.
    eapply (flush_all_no_loss sent chunks_stream (nu_seq _ _ Hnum)); [exact H1| |exact E2].
    intros k c [Hc Hk]%of_stream_elem. apply of_stream_elem. auto.
Qed.
End delivery.

Context (clock : nat → Z * Z) (id : string) (capture_config : StreamCaptureConfig).
Context (cap_pos : ∀ m, capture_config.(scc_caps).(cap_max_output_bytes) = Some m → 0 ≤ m).

(** A delivery of every chunk within the window. *)
Lemma complete_delivery schedule out err summary chunks cs config finished rest :
  capture_child_output clock id capture_config schedule out err None = Some (summary, chunks) →
  summary.(cs_truncated) = false →
  (∀ c, c ∈ cs ↔ c ∈ chunks) →
  (∀ k, in_window (Z.max config.(rc_reorder_window) 1) (of_stream k cs)) →
  ∃ o log,
    render_stream_with io debug b64_error order (map FChunk cs ++ FFinished finished :: rest) config [] = (Ok o, log) ∧
    written Out log = to_text (stream_bytes out) ∧ written ErrOut log = to_text (stream_bytes err) ∧
    o.(so_missing) = [] ∧ o.(so_integrity_failure) = false ∧ o.(so_exit_code) = Some (resolve_exit_code finished).
Proof.
  intros Hcap Htr Hcs Hwin. destruct (capture_result clock id capture_config out err schedule summary chunks cap_pos Hcap) as (Ho & He & Hk & Hfull & _).
  destruct (Hfull Htr) as [Fo Fe].
  destruct (delivered id chunks (captured_numbered _ _ _ _ Ho He Hk) cs config finished rest) as (o & log & E & Hex & _ & Hint & Hfront & Hnone); [intros; by apply Hcs|].
  assert (so_missing o = []) as Hm by (apply Hnone; [intros; by apply Hcs|done]).
  destruct (Hfront Hm) as (no & ne & Wo & We & Lo & Le & So & Se). exists o, log. split_and!; try done.
  - destruct (eof_exists id chunks _ _ Ho) as (e & Hin & Hee). rewrite Wo, <- Fo.
    by rewrite (eof_covers id chunks _ _ cs no e Ho Hin Hee So) by (apply Hcs; by apply of_stream_elem in Hin as [? _]).
  - destruct (eof_exists id chunks _ _ He) as (e & Hin & Hee). rewrite We, <- Fe.
    by rewrite (eof_covers id chunks _ _ cs ne e He Hin Hee Se) by (apply Hcs; by apply of_stream_elem in Hin as [? _]).
  - rewrite Hint, Hm. apply andb_false_r.
Qed.

(** C29: what the child wrote comes out of the remote terminal byte for byte: when a
    capture that was not truncated is delivered complete, in any order and with any
    repetition that stays within the reorder window, stdout and stderr are written
    exactly, nothing is reported missing, strict mode included, and the exit code is the
    child's. *)
Theorem stream_roundtrip schedule out err summary chunks cs config finished rest :
  capture_child_output clock id capture_config schedule out err None = Some (summary, chunks) →
  summary.(cs_truncated) = false →
  (∀ c, c ∈ cs ↔ c ∈ chunks) →
  (∀ k, in_window (Z.max config.(rc_reorder_window) 1) (of_stream k cs)) →
  ∃ o log,
    render_stream_with io debug b64_error order (map FChunk cs ++ FFinished finished :: rest) config [] = (Ok o, log) ∧
    written Out log = to_text (stream_bytes out) ∧ written ErrOut log = to_text (stream_bytes err) ∧
    o.(so_missing) = [] ∧ o.(so_integrity_failure) = false ∧ o.(so_exit_code) = Some (resolve_exit_code finished).
Proof. apply complete_delivery. Qed.

(** Whatever part of a capture arrives, in whatever order and however often, the
    renderer either reports a missing chunk, which strict mode turns into an integrity
    failure, or has written for each stream a front of its chunks in their order; and
    that front is the whole stream when the end marker of the stream arrived. *)
Theorem unreported_loss_is_a_tail schedule out err summary chunks cs config finished rest :
  capture_child_output clock id capture_config schedule out err None = Some (summary, chunks) →
  (∀ c, c ∈ cs → c ∈ chunks) →
  ∃ o log,
    render_stream_with io debug b64_error order (map FChunk cs ++ FFinished finished :: rest) config [] = (Ok o, log) ∧
    o.(so_integrity_failure) = config.(rc_strict) && degraded o ∧
    (degraded o = false → ∃ no ne,
       written Out log = to_text (output (take no (of_stream Stdout chunks))) ∧
       written ErrOut log = to_text (output (take ne (of_stream Stderr chunks))) ∧
       ∀ e, e ∈ cs → e.(sc_eof) = true →
         match e.(sc_stream) with
         | Stdout => take no (of_stream Stdout chunks) = of_stream Stdout chunks
         | Stderr => take ne (of_stream Stderr chunks) = of_stream Stderr chunks
         | _ => False
         end).
Proof.
  intros Hcap Hcs. destruct (capture_result clock id capture_config out err schedule summary chunks cap_pos Hcap) as (Ho & He & Hk & _).
  destruct (delivered id chunks (captured_numbered _ _ _ _ Ho He Hk) cs config finished rest Hcs) as (o & log & E & _ & _ & Hint & Hfront & _).
  exists o, log. split; [done|]. split; [exact Hint|]. unfold degraded. intros Hd.
  destruct Hfront as (no & ne & Wo & We & _ & _ & So & Se); [by destruct (so_missing o)|]. exists no, ne. split_and!; try done.
  intros e Hin Hee. destruct (Hk e (Hcs e Hin)) as [Hs|Hs]; rewrite Hs.
  - apply (eof_covers id chunks _ _ cs no e Ho); try done. apply of_stream_elem. auto.
  - apply (eof_covers id chunks _ _ cs ne e He); try done. apply of_stream_elem. auto.
Qed.

(** A stream that ends early is accepted, in strict mode too: when delivery stops
    after any number of chunks and the final frame still arrives, what was delivered is
    written, no chunk is reported missing, no integrity failure is raised, and the exit
    code is the child's.  Neither the end markers nor the byte counts of the final frame
    are checked. *)
Theorem lost_tail_unnoticed schedule out err summary chunks n config finished rest :
  capture_child_output clock id capture_config schedule out err None = Some (summary, chunks) →
  ∃ o log,
    render_stream_with io debug b64_error order (map FChunk (take n chunks) ++ FFinished finished :: rest) config [] = (Ok o, log) ∧
    written Out log = to_text (output (of_stream Stdout (take n chunks))) ∧
    degraded o = false ∧ o.(so_integrity_failure) = false ∧ o.(so_exit_code) = Some (resolve_exit_code finished).
Proof.
  intros Hcap. destruct (capture_result clock id capture_config out err schedule summary chunks cap_pos Hcap) as (Ho & He & Hk & _).
  pose proof (numbered_front _ _ n (captured_numbered _ _ _ _ Ho He Hk)) as Hn.
  destruct (delivered id (take n chunks) Hn (take n chunks) config finished rest) as (o & log & E & Hex & _ & Hint & Hfront & Hnone); [done|].
  assert (so_missing o = []) as Hm by (apply Hnone; [done|]; intros; apply (numbered_in_window _ _ _ _ Hn); lia).
  destruct (Hfront Hm) as (no & ne & Wo & _ & Lo & _ & So & _). exists o, log. unfold degraded. rewrite Hint, Hm, andb_false_r.
  split_and!; try done. rewrite Wo, take_ge; [done|]. apply Nat.le_ngt. intros Hlt.
  pose proof (nu_seq _ _ Hn Stdout) as Hs. set (l := of_stream Stdout (take n chunks)) in *.
  destruct (l !! no) as [c|] eqn:Ec; [|apply lookup_ge_None in Ec; lia].
  specialize (So c (list_elem_of_lookup_2 _ _ _ Ec)). apply (f_equal (.!! no)) in Hs. change (map sc_seq l) with (sc_seq <$> l) in Hs.
  rewrite list_lookup_fmap, Ec in Hs. symmetry in Hs. simpl in Hs. apply lookup_seqZ in Hs. lia.
Qed.
End end_to_end.

(** ** A capture of five chunks, delivered backwards *)
Module RenderExample.
Import StreamExample.
Definition io (_ : WriteLog) (_ : Writer) : bool := true.
Definition order (m : gmap StreamKind StreamReorder) : list StreamKind := (map_to_list m).*1.
Definition plain (s : string) : string := s.
Definition capture : option (CaptureSummary * list StreamChunk) :=
  capture_child_output (H := Signing.Toy.toy_crypto) clock "inv" interactive schedule out_reads err_reads None.
Definition chunks : list StreamChunk := match capture with Some (_, cs) => cs | None => [] end.
Definition chunk (i : nat) : StreamChunk := nth i chunks (build_chunk (H := Signing.Toy.toy_crypto) "inv" Stderr 9 [] true (0, 0)).
Definition finished : ExecFinished :=
  {| ef_invocation_id := "inv"; ef_exit_code := Some 3; ef_signal := None; ef_duration_ms := 1; ef_stdout_bytes := 4;
     ef_stderr_bytes := 2; ef_truncated := false; ef_artifact_mxc := None; ef_signature := None; ef_extra := ∅ |}.
Definition config : RenderConfig := {| rc_reorder_window := 64; rc_strict := true |}.
Definition render (cs : list StreamChunk) : result StreamOutcome IoError * WriteLog :=
  render_stream_with (H := Signing.Toy.toy_crypto) io plain plain order (map FChunk cs ++ [FFinished finished]) config [].
End RenderExample.


Lemma small_in_window window k cs : Forall (λ c, c.(sc_seq) ≤ window) cs → in_window window (of_stream k cs).
Proof.
  intros Hcs pre c post E i Hi Hlt. assert (c ∈ of_stream k cs) as Hc by (rewrite E, elem_of_app; right; by left).
  apply of_stream_elem in Hc as [Hc _]. rewrite Forall_forall in Hcs. specialize (Hcs c Hc). lia.
Qed.
#[local] Instance chunk_small_dec window c : Decision (c.(sc_seq) ≤ window) := Z_le_dec _ _.

Lemma capture_example :
  capture_child_output (H := Signing.Toy.toy_crypto) StreamExample.clock "inv" interactive StreamExample.schedule
    StreamExample.out_reads StreamExample.err_reads None =
  Some ({| cs_truncated := false; cs_output_bytes := 0 |}, RenderExample.chunks).
Proof. vm_compute. reflexivity. Qed.

(** Backwards, and then a second time. *)
Lemma stream_roundtrip_witness :
  ∃ o log,
    RenderExample.render (rev RenderExample.chunks ++ RenderExample.chunks) = (Ok o, log) ∧
    written Out log = to_text ["a"; "b"; StreamExample.lf; "c"]%char ∧ written ErrOut log = to_text [chr 255; "d"]%char ∧
    o.(so_missing) = [] ∧ o.(so_integrity_failure) = false ∧ o.(so_exit_code) = Some 3.
Proof.
  pose proof capture_example as E.
  destruct (stream_roundtrip (H := Signing.Toy.toy_crypto) (H0 := Signing.Toy.toy_laws)
    RenderExample.io RenderExample.plain RenderExample.plain RenderExample.order (λ _ _, eq_refl) (λ _, Permutation_refl _)
    StreamExample.clock "inv" interactive ltac:(intros m [=]) StreamExample.schedule StreamExample.out_reads StreamExample.err_reads
    {| cs_truncated := false; cs_output_bytes := 0 |} RenderExample.chunks (rev RenderExample.chunks ++ RenderExample.chunks)
    RenderExample.config RenderExample.finished [] E eq_refl) as (o & log & Hr & Ho & He & Hm & Hi & Hx).
  - intros c. rewrite elem_of_app, !list_elem_of_In, <- in_rev. tauto.
  - intros k. apply small_in_window. apply (bool_decide_unpack _). vm_compute. exact I.
  - exists o, log. split_and!; [exact Hr|exact Ho|exact He|exact Hm|exact Hi|exact Hx].
Defined.

(** The first chunk of stderr arrives twice, its end marker once, and nothing of stdout. *)
Lemma unreported_loss_is_a_tail_witness :
  let e := RenderExample.chunk 3 in
  ∃ o log, RenderExample.render [RenderExample.chunk 4; e; e] = (Ok o, log) ∧
    degraded o = false ∧ written ErrOut log = to_text [chr 255; "d"]%char ∧ written Out log = "".
Proof.
  intros e.
  pose proof capture_example as E.
  destruct (unreported_loss_is_a_tail (H := Signing.Toy.toy_crypto) (H0 := Signing.Toy.toy_laws)
    RenderExample.io RenderExample.plain RenderExample.plain RenderExample.order (λ _ _, eq_refl) (λ _, Permutation_refl _)
    StreamExample.clock "inv" interactive ltac:(intros m [=]) StreamExample.schedule StreamExample.out_reads StreamExample.err_reads
    {| cs_truncated := false; cs_output_bytes := 0 |} RenderExample.chunks [RenderExample.chunk 4; e; e]
    RenderExample.config RenderExample.finished [] E) as (o & log & Hr & _ & Hfront).
  - intros c. rewrite !elem_of_cons. intros [->|[->|[->|[]%not_elem_of_nil]]]; subst e; vm_compute; repeat constructor.
  - assert (degraded o = false) as Hd by (revert Hr; vm_compute; intros [= <- _]; reflexivity).
    destruct (Hfront Hd) as (no & ne & _ & He & Heof). 
    assert (sc_stream (RenderExample.chunk 4) = Stderr) as Hst by (vm_compute; reflexivity).
    assert (sc_eof (RenderExample.chunk 4) = true) as He4 by (vm_compute; reflexivity).
    specialize (Heof (RenderExample.chunk 4) ltac:(left) He4). rewrite Hst in Heof.
    exists o, log. split; [exact Hr|]. split; [exact Hd|]. split.
    + rewrite He, Heof. vm_compute. reflexivity.
    + revert Hr. vm_compute. intros [= _ <-]. reflexivity.
Defined.

(** Strict mode, and the second of two chunks of stdout is lost. *)
Lemma lost_tail_unnoticed_witness :
  ∃ o log, RenderExample.render (take 1 RenderExample.chunks) = (Ok o, log) ∧
    o.(so_integrity_failure) = false ∧ o.(so_exit_code) = Some 3 ∧ written Out log = to_text ["a"; "b"; StreamExample.lf]%char.
Proof.
  pose proof capture_example as E.
  destruct (lost_tail_unnoticed (H := Signing.Toy.toy_crypto) (H0 := Signing.Toy.toy_laws)
    RenderExample.io RenderExample.plain RenderExample.plain RenderExample.order (λ _ _, eq_refl) (λ _, Permutation_refl _)
    StreamExample.clock "inv" interactive ltac:(intros m [=]) StreamExample.schedule StreamExample.out_reads StreamExample.err_reads
    {| cs_truncated := false; cs_output_bytes := 0 |} RenderExample.chunks 1
    RenderExample.config RenderExample.finished [] E) as (o & log & Hr & Ho & _ & Hi & Hx).
  exists o, log. split; [exact Hr|]. split; [exact Hi|]. split; [exact Hx|]. rewrite Ho. vm_compute. reflexivity.
Defined.
