(* ===== verification/Sharing.v ===== *)
(** * Shared context and output artifacts

    Models [crates/mx-agent-daemon/src/context.rs] and [artifact.rs], and the emission of
    a finished command's output in [exec.rs] ([emit_output_events]).  A payload is put into
    an event or, when it is large, into the homeserver's media repository, and is read back
    by whoever finds the event in the room's timeline.  The media repository and the
    [zstd] program are interfaces with the laws relied on; what a [/messages] request
    returns is an argument; the event's sender is the homeserver's. *)
From Stdlib Require Import Ascii ZArith Lia.
From stdpp Require Import gmap strings list pretty.
From S2P Require Import Prelude RustStr Time CanonicalJson Schema Signing Room LiveAuth Streams LiveHandlers.
Local Open Scope Z_scope.

(** ** The media repository *)

Inductive MediaSource (F : Type) := Plain (uri : string) | Encrypted (file : F).
Arguments Plain {_} _.
Arguments Encrypted {_} _.

(** Uploads and downloads of the SDK ([None]: the request failed), the [EncryptedFile] of
    an encrypted upload with its JSON, the validity of an [mxc://] URI, MIME parsing. *)
Class MatrixMedia := {
  MediaStore : Type;
  EncryptedFile : Type;
  media_upload : string → bytes → MediaStore → option string * MediaStore;
  upload_encrypted_file : bytes → MediaStore → option EncryptedFile * MediaStore;
  get_media_content : MediaSource EncryptedFile → MediaStore → option bytes;
  mxc_is_valid : string → bool;
  file_url : EncryptedFile → string;
  file_to_value : EncryptedFile → option Value;
  file_from_value : Value → result EncryptedFile string;
  mime_parse : string → option string;
}.
(** What is relied on: an upload answers with a URI its content can be read at, the key
    material of an encrypted upload reads back from its JSON, which has no floats, and
    uploads leave other media alone. *)
Class MediaLaws `{MatrixMedia} : Prop := {
  upload_stored mime data s uri s' : media_upload mime data s = (Some uri, s') →
    mxc_is_valid uri = true ∧ uri ≠ "" ∧ get_media_content (Plain uri) s' = Some data;
  encrypted_stored data s f s' : upload_encrypted_file data s = (Some f, s') →
    file_url f ≠ "" ∧ get_media_content (Encrypted f) s' = Some data;
  file_roundtrip f v : file_to_value f = Some v → file_from_value v = Ok f;
  file_integral f v : file_to_value f = Some v → float_free v = true;
  upload_keeps mime data s src d :
    get_media_content src s = Some d → get_media_content src (media_upload mime data s).2 = Some d;
  encrypted_keeps data s src d :
    get_media_content src s = Some d → get_media_content src (upload_encrypted_file data s).2 = Some d;
}.

(** ** Text *)

(** [String::from_utf8_lossy]: U+FFFD for each maximal part that is not well formed. *)
Definition replacement : bytes := [chr 239; chr 191; chr 189].
Definition second_ok (a b : ascii) : bool :=
  if in_range 224 239 a then
    in_range (if (byte_of a =? 224)%N then 160 else 128)%N (if (byte_of a =? 237)%N then 159 else 191)%N b
  else in_range 240 244 a &&
    in_range (if (byte_of a =? 240)%N then 144 else 128)%N (if (byte_of a =? 244)%N then 143 else 191)%N b.
Fixpoint from_utf8_lossy (data : bytes) : bytes :=
  match data with
  | [] => []
  | a :: r =>
    if in_range 0 127 a then a :: from_utf8_lossy r
    else match r with
    | [] => replacement
    | b :: r1 =>
      if in_range 194 223 a then
        if in_range 128 191 b then a :: b :: from_utf8_lossy r1 else replacement ++ from_utf8_lossy r
      else if second_ok a b then
        match r1 with
        | [] => replacement
        | c :: r2 =>
          if in_range 128 191 c then
            if in_range 224 239 a then a :: b :: c :: from_utf8_lossy r2
            else match r2 with
            | [] => replacement
            | d :: r3 =>
              if in_range 128 191 d then a :: b :: c :: d :: from_utf8_lossy r3
              else replacement ++ from_utf8_lossy r2
            end
          else replacement ++ from_utf8_lossy r1
        end
      else replacement ++ from_utf8_lossy r
    end
  end.

(** [str::lines] up to the first line, and [trim] by the caller. *)
Fixpoint first_line (s : string) : string :=
  match s with
  | EmptyString => ""
  | String c r => if (byte_of c =? 10)%N then "" else String c (first_line r)
  end.

Section sharing.
Context `{Crypto} `{MatrixMedia} (debug b64_error : string → string).

Definition sha256_b64 (data : bytes) : string := b64_encode (sha256 (to_text data)).

(** What a client changes while it shares: the media repository, the events it sent
    (oldest first) and the homeserver's answers to its next sends. *)
Record ShareWorld := { sw_media : MediaStore; sw_sent : list (string * Value); sw_answers : list bool }.
Definition SM (A : Type) : Type := st ShareWorld WorkspaceError A.

Definition send_raw (event_type : string) (content : Value) : SM unit := λ w,
  match w.(sw_answers) with
  | true :: answers =>
      (Ok tt, {| sw_media := w.(sw_media); sw_sent := w.(sw_sent) ++ [(event_type, content)]; sw_answers := answers |})
  | false :: answers => (Err Matrix, {| sw_media := w.(sw_media); sw_sent := w.(sw_sent); sw_answers := answers |})
  | [] => (Err Matrix, w)
  end.
Definition sdk_upload (mime : string) (data : bytes) : SM string := λ w,
  let '(answer, media) := media_upload mime data w.(sw_media) in
  (ok_or answer Matrix, {| sw_media := media; sw_sent := w.(sw_sent); sw_answers := w.(sw_answers) |}).
Definition sdk_upload_encrypted (data : bytes) : SM EncryptedFile := λ w,
  let '(answer, media) := upload_encrypted_file data w.(sw_media) in
  (ok_or answer Matrix, {| sw_media := media; sw_sent := w.(sw_sent); sw_answers := w.(sw_answers) |}).

(** An event of the timeline: its type and sender where they can be read, and its content
    where it decodes as one of the two kinds. *)
Record TimelineEvent := {
  te_type : option string;
  te_sender : option string;
  te_share : option ContextShare;
  te_artifact : option StreamArtifact;
}.

(** ** Sharing context *)

Definition MAX_INLINE_BYTES : Z := 256 * 1024.
Definition DIFF_MIME_TYPE : string := "text/x-diff".
Definition ENV_MIME_TYPE : string := "application/json".
Definition CONTEXT_SHARE : string := "com.mxagent.context.share.v1".
Definition APPLICATION_OCTET_STREAM : string := "application/octet-stream".

Definition encode_payload (data : bytes) : string * string :=
  if from_utf8_ok data then ("utf-8", to_text data) else ("base64", b64_encode (to_text data)).
Definition build_inline_share (context_id name mime_type : string) (data : bytes) : ContextShare :=
  let '(encoding, payload) := encode_payload data in
  {| cx_context_id := context_id; cx_name := name; cx_mime_type := mime_type; cx_size_bytes := Z.of_nat (length data);
     cx_sha256 := sha256_b64 data; cx_data := Some payload; cx_encoding := Some encoding; cx_mxc_uri := None;
     cx_encrypted_file := None; cx_extra := ∅ |}.
Definition build_media_share (context_id name mime_type : string) (size_bytes : Z) (sha256 mxc_uri : string)
    (encrypted_file : option Value) : ContextShare :=
  {| cx_context_id := context_id; cx_name := name; cx_mime_type := mime_type; cx_size_bytes := size_bytes;
     cx_sha256 := sha256; cx_data := None; cx_encoding := None; cx_mxc_uri := Some mxc_uri;
     cx_encrypted_file := encrypted_file; cx_extra := ∅ |}.
Definition parse_mime (mime_type : string) : string := unwrap_or (mime_parse mime_type) APPLICATION_OCTET_STREAM.
Definition upload_media_share (context_id name mime_type : string) (data : bytes) (encrypted : bool) : SM ContextShare :=
  let sha256 := sha256_b64 data in
  let size_bytes := Z.of_nat (length data) in
  if encrypted then
    let! file := sdk_upload_encrypted data in
    match file_to_value file with
    | Some encrypted_file =>
        ret (build_media_share context_id name mime_type size_bytes sha256 (file_url file) (Some encrypted_file))
    | None => fail Matrix
    end
  else
    let! uri := sdk_upload (parse_mime mime_type) data in
    ret (build_media_share context_id name mime_type size_bytes sha256 uri None).

Record ShareContextOptions := { sco_name : string; sco_mime_type : string; sco_data : bytes }.
Definition publish_context_share (content : ContextShare) : SM unit := send_raw CONTEXT_SHARE (ContextShare_value content).
(** [context_id] is the generated id, [encrypted] whether the room is. *)
Definition share_context (context_id : string) (encrypted : bool) (o : ShareContextOptions) : SM ContextShare :=
  let! content :=
    if MAX_INLINE_BYTES <? Z.of_nat (length o.(sco_data))
    then upload_media_share context_id o.(sco_name) o.(sco_mime_type) o.(sco_data) encrypted
    else ret (build_inline_share context_id o.(sco_name) o.(sco_mime_type) o.(sco_data)) in
  let! _ := publish_context_share content in
  ret content.

(** A finished process: whether it succeeded, its stdout and stderr. *)
Record ProcessOutput := { po_success : bool; po_stdout : bytes; po_stderr : bytes }.
Definition git_diff_args (base : option string) (stat : bool) : list string :=
  ["diff"] ++ (if stat then ["--stat"] else []) ++
  match base with Some b => if b =s "" then [] else [b] | None => [] end.
(** [git] runs the program with arguments, or is the text of the error. *)
Definition capture_git_diff (git : list string → result ProcessOutput string) (base : option string) (stat : bool) :
    result string WorkspaceError :=
  let args := git_diff_args base stat in
  match git args with
  | Err e => Err (ContextCaptureFailed ("could not run git: " +:+ e))
  | Ok out =>
    if negb out.(po_success) then
      Err (ContextCaptureFailed ("git " +:+ str_join " " args +:+ " failed: " +:+ trim (to_text (from_utf8_lossy out.(po_stderr)))))
    else Ok (to_text (from_utf8_lossy out.(po_stdout)))
  end.
(** [run] runs [cmd --version]. *)
Definition tool_version (run : string → option ProcessOutput) (cmd : string) : option string :=
  output ← run cmd;
  if negb output.(po_success) then None
  else
    let line := trim (first_line (to_text (from_utf8_lossy output.(po_stdout)))) in
    if line =s "" then None else Some line.
Definition assemble_env (entries : list (string * option string)) : Value :=
  Object (btree_iter (foldl (λ (m : gmap string Value) '(key, value), <[key := match value with Some s => Str s | None => Null end]> m) ∅ entries)).
(** [os] is the text of the platform. *)
Definition collect_env (run : string → option ProcessOutput) (os : string) (include : list string) : Value :=
  assemble_env (map (λ key, (key, if key =s "os" then Some os else tool_version run key)) include).
Definition share_diff (git : list string → result ProcessOutput string) (context_id : string) (encrypted : bool)
    (base : option string) (stat : bool) : SM ContextShare :=
  match capture_git_diff git base stat with
  | Err e => fail e
  | Ok diff =>
    share_context context_id encrypted
      {| sco_name := if stat then "diff.stat" else "diff.patch"; sco_mime_type := DIFF_MIME_TYPE; sco_data := to_bytes diff |}
  end.
(** [pretty_json] is [serde_json::to_string_pretty]. *)
Definition share_env (pretty_json : Value → string) (run : string → option ProcessOutput) (os context_id : string) (encrypted : bool)
    (include : list string) : SM ContextShare :=
  share_context context_id encrypted
    {| sco_name := "env.json"; sco_mime_type := ENV_MIME_TYPE; sco_data := to_bytes (pretty_json (collect_env run os include)) |}.

(** ** Fetching context *)

Record ScannedShare := { ss_share : ContextShare; ss_producer : string }.
Definition scan_share (e : TimelineEvent) : option ScannedShare :=
  if negb (bool_decide (e.(te_type) = Some CONTEXT_SHARE)) then None
  else match e.(te_share), e.(te_sender) with
  | Some share, Some producer => Some {| ss_share := share; ss_producer := producer |}
  | _, _ => None
  end.
(** [messages] answers a backward request, newest event first. *)
Definition scan_context_shares (messages : result (list TimelineEvent) WorkspaceError) : result (list ScannedShare) WorkspaceError :=
  let? chunk := messages in Ok (omap scan_share chunk).
Definition list_context_shares (messages : result (list TimelineEvent) WorkspaceError) : result (list ContextShare) WorkspaceError :=
  let? shares := scan_context_shares messages in Ok (map ss_share shares).

(** [filter(|s| !s.is_empty())] of a pinned sender. *)
Definition pinned (expected_sender : option string) : option string :=
  match expected_sender with Some s => if s =s "" then None else Some s | None => None end.
Definition select_share (shares : list ScannedShare) (context_id : string) (expected_sender : option string) :
    result ContextShare WorkspaceError :=
  match List.filter (λ s, s.(ss_share).(cx_context_id) =s context_id) shares with
  | [] => Err (ContextNotFound context_id)
  | first :: rest =>
    match pinned expected_sender with
    | Some expected =>
        match List.find (λ s, s.(ss_producer) =s expected) (first :: rest) with
        | Some s => Ok s.(ss_share)
        | None => Err (ContextNotFound context_id)
        end
    | None =>
        if forallb (λ s, s.(ss_producer) =s first.(ss_producer)) (first :: rest) then Ok first.(ss_share)
        else Err (ContextRetrievalFailed ("multiple shares with context_id " +:+ debug context_id
               +:+ " from different senders; pin the expected producer to disambiguate"))
    end
  end.

Definition parse_mxc (retrieval_failed : string → WorkspaceError) (uri : string) : result string WorkspaceError :=
  if mxc_is_valid uri then Ok uri else Err (retrieval_failed (debug uri +:+ " is not a valid mxc:// URI")).
Definition media_source (share : ContextShare) (mxc_uri : string) : result (MediaSource EncryptedFile) WorkspaceError :=
  match share.(cx_encrypted_file) with
  | Some value =>
    match file_from_value value with
    | Ok file => Ok (Encrypted file)
    | Err e => Err (ContextRetrievalFailed ("share " +:+ debug share.(cx_context_id) +:+ " has malformed encrypted_file key material: " +:+ e))
    end
  | None => let? uri := parse_mxc ContextRetrievalFailed mxc_uri in Ok (Plain uri)
  end.
Definition download_media (media : MediaStore) (share : ContextShare) (mxc_uri : string) : result bytes WorkspaceError :=
  let? source := media_source share mxc_uri in ok_or (get_media_content source media) Matrix.
Definition decode_inline (share : ContextShare) : result bytes WorkspaceError :=
  let? data := ok_or share.(cx_data)
    (ContextRetrievalFailed ("share " +:+ debug share.(cx_context_id) +:+ " has neither inline data nor an mxc:// reference")) in
  match share.(cx_encoding) with
  | None => Ok (to_bytes data)
  | Some encoding =>
    if encoding =s "base64" then
      match b64_decode data with
      | Some raw => Ok (to_bytes raw)
      | None => Err (ContextRetrievalFailed ("invalid base64 payload: " +:+ b64_error data))
      end
    else if encoding =s "utf-8" then Ok (to_bytes data)
    else Err (ContextRetrievalFailed ("unknown payload encoding " +:+ debug encoding))
  end.
Definition verify_digest (share : ContextShare) (data : bytes) : result unit WorkspaceError :=
  let actual := sha256_b64 data in
  if actual =s share.(cx_sha256) then Ok tt
  else Err (ContextIntegrity share.(cx_context_id) share.(cx_sha256) actual).

Record FetchedContext := { fc_share : ContextShare; fc_data : bytes }.
Definition fetch_context (media : MediaStore) (messages : result (list TimelineEvent) WorkspaceError) (context_id : string)
    (expected_sender : option string) : result FetchedContext WorkspaceError :=
  let? shares := scan_context_shares messages in
  let? share := select_share shares context_id expected_sender in
  let? data :=
    match share.(cx_mxc_uri) with
    | Some mxc_uri => download_media media share mxc_uri
    | None => decode_inline share
    end in
  let? _ := verify_digest share data in
  Ok {| fc_share := share; fc_data := data |}.

(** ** Output artifacts *)

Definition DEFAULT_MAX_TIMELINE_OUTPUT_BYTES : Z := 256 * 1024.
Definition DEFAULT_TAIL_PREVIEW_BYTES : Z := 4 * 1024.
Record ArtifactConfig := { ac_max_timeline_output_bytes : Z; ac_tail_preview_bytes : Z; ac_compress : bool }.
Definition default_artifact_config : ArtifactConfig :=
  {| ac_max_timeline_output_bytes := DEFAULT_MAX_TIMELINE_OUTPUT_BYTES; ac_tail_preview_bytes := DEFAULT_TAIL_PREVIEW_BYTES;
     ac_compress := true |}.
Definition should_switch (c : ArtifactConfig) (output_len : Z) : bool := c.(ac_max_timeline_output_bytes) <? output_len.

Definition tail_preview (data : bytes) (max_bytes : Z) : string :=
  to_text (from_utf8_lossy (drop (length data - Z.to_nat max_bytes) data)).
Definition stream_stem (stream : StreamKind) : string :=
  match stream with Stdin => "stdin" | Stdout => "stdout" | Stderr => "stderr" | Pty => "pty" | Control => "control" end.

Record PreparedArtifact := {
  pa_invocation_id : string;
  pa_stream : StreamKind;
  pa_name : string;
  pa_mime_type : string;
  pa_size_bytes : Z;
  pa_sha256 : string;
  pa_tail_preview : string;
  pa_compressed : bool;
  pa_bytes : bytes;
}.
Definition into_event_with (p : PreparedArtifact) (mxc_uri : string) (encrypted_file : option Value) : StreamArtifact :=
  {| sa_invocation_id := p.(pa_invocation_id); sa_stream := p.(pa_stream); sa_name := p.(pa_name);
     sa_mime_type := p.(pa_mime_type); sa_size_bytes := p.(pa_size_bytes); sa_sha256 := p.(pa_sha256); sa_mxc_uri := mxc_uri;
     sa_tail_preview := p.(pa_tail_preview); sa_encrypted_file := encrypted_file; sa_signature := None; sa_extra := ∅ |}.
Definition into_event (p : PreparedArtifact) (mxc_uri : string) : StreamArtifact := into_event_with p mxc_uri None.
Definition into_event_encrypted (p : PreparedArtifact) (mxc_uri : string) (encrypted_file : Value) : StreamArtifact :=
  into_event_with p mxc_uri (Some encrypted_file).

(** [compress_zstd] and [decompress_zstd] run a program, which may not be there. *)
Context (compress_zstd decompress_zstd : bytes → option bytes).

Definition prepare_artifact (invocation_id : string) (stream : StreamKind) (data : bytes) (config : ArtifactConfig) : PreparedArtifact :=
  let stem := stream_stem stream in
  let '(bytes, name, mime_type, compressed) :=
    match (if config.(ac_compress) then compress_zstd data else None) with
    | Some compressed => (compressed, stem +:+ ".log.zst", "text/plain+zstd", true)
    | None => (data, stem +:+ ".log", "text/plain", false)
    end in
  {| pa_invocation_id := invocation_id; pa_stream := stream; pa_name := name; pa_mime_type := mime_type;
     pa_size_bytes := Z.of_nat (length bytes); pa_sha256 := sha256_b64 bytes;
     pa_tail_preview := tail_preview data config.(ac_tail_preview_bytes); pa_compressed := compressed; pa_bytes := bytes |}.
Definition upload_artifact (prepared : PreparedArtifact) (encrypted : bool) : SM StreamArtifact :=
  if encrypted then
    let! file := sdk_upload_encrypted prepared.(pa_bytes) in
    match file_to_value file with
    | Some encrypted_file => ret (into_event_encrypted prepared (file_url file) encrypted_file)
    | None => fail Matrix
    end
  else
    let! uri := sdk_upload (unwrap_or (mime_parse prepared.(pa_mime_type)) APPLICATION_OCTET_STREAM) prepared.(pa_bytes) in
    ret (into_event prepared uri).

(** ** Emitting a finished command's output *)

Definition STREAM_ARTIFACT : string := "com.mxagent.stream.artifact.v1".
Definition STREAM_CHUNK : string := "com.mxagent.stream.chunk.v1".
(** A failure is logged and the handler goes on. *)
Definition sm_ignore {A} (m : SM A) (w : ShareWorld) : ShareWorld := (m w).2.
Definition emit_artifact (sk : SigningKey) (invocation_id : string) (encrypted : bool) (w : ShareWorld) (stream_data : StreamKind * bytes) : ShareWorld :=
  let '(stream, data) := stream_data in
  match data with
  | [] => w
  | _ =>
    let prepared := prepare_artifact invocation_id stream data default_artifact_config in
    match upload_artifact prepared encrypted w with
    | (Ok event, w) =>
      match sign_into sk (daemon_key_id sk) (StreamArtifact_value event) with
      | Ok content => sm_ignore (send_raw STREAM_ARTIFACT content) w
      | Err _ => w
      end
    | (Err _, w) => w
    end
  end.
(** Chunks that cannot be signed are skipped; a failed send ends the loop. *)
Fixpoint emit_chunks (sk : SigningKey) (chunks : list StreamChunk) (w : ShareWorld) : ShareWorld :=
  match chunks with
  | [] => w
  | chunk :: chunks =>
    match sign_into sk (daemon_key_id sk) (StreamChunk_value chunk) with
    | Err _ => emit_chunks sk chunks w
    | Ok content =>
      match send_raw STREAM_CHUNK content w with
      | (Ok _, w) => emit_chunks sk chunks w
      | (Err _, w) => w
      end
    end
  end.
(** [capture] is what [capture_child_output] of the two outputs returns. *)
Definition emit_output_events (sk : SigningKey) (invocation_id : string) (encrypted : bool) (stdout stderr : bytes)
    (capture : CaptureSummary * list StreamChunk) (w : ShareWorld) : CaptureSummary * ShareWorld :=
  let total := Z.of_nat (length stdout) + Z.of_nat (length stderr) in
  if should_switch default_artifact_config total then
    ({| cs_truncated := false; cs_output_bytes := total |},
     foldl (emit_artifact sk invocation_id encrypted) w [(Stdout, stdout); (Stderr, stderr)])
  else (capture.1, emit_chunks sk capture.2 w).

(** ** Retrieving an artifact *)

Definition ends_with (suffix s : string) : bool :=
  bool_decide (drop (String.length s - String.length suffix) (to_bytes s) = to_bytes suffix).
Definition is_compressed (artifact : StreamArtifact) : bool :=
  ends_with ".zst" artifact.(sa_name) || ends_with "+zstd" artifact.(sa_mime_type).
Definition verify_and_decompress (artifact : StreamArtifact) (media : bytes) : result bytes WorkspaceError :=
  let actual := sha256_b64 media in
  if negb (actual =s artifact.(sa_sha256)) then
    Err (ArtifactIntegrity artifact.(sa_invocation_id) (stream_stem artifact.(sa_stream)) artifact.(sa_sha256) actual)
  else if is_compressed artifact then
    ok_or (decompress_zstd media)
      (ArtifactRetrievalFailed ("could not decompress zstd artifact " +:+ debug artifact.(sa_name) +:+ "; is the `zstd` binary installed?"))
  else Ok media.

Record ScannedArtifact := { sca_artifact : StreamArtifact; sca_producer : string }.
Definition scan_artifact (e : TimelineEvent) : option ScannedArtifact :=
  if negb (bool_decide (e.(te_type) = Some STREAM_ARTIFACT)) then None
  else match e.(te_artifact), e.(te_sender) with
  | Some artifact, Some producer => Some {| sca_artifact := artifact; sca_producer := producer |}
  | _, _ => None
  end.
Definition scan_stream_artifacts (messages : result (list TimelineEvent) WorkspaceError) : result (list ScannedArtifact) WorkspaceError :=
  let? chunk := messages in Ok (omap scan_artifact chunk).
Definition list_stream_artifacts (messages : result (list TimelineEvent) WorkspaceError) : result (list StreamArtifact) WorkspaceError :=
  let? artifacts := scan_stream_artifacts messages in Ok (map sca_artifact artifacts).
Definition select_artifact (artifacts : list ScannedArtifact) (invocation_id : string) (stream : StreamKind) (expected_sender : string) :
    option StreamArtifact :=
  sca_artifact <$> List.find (λ s, (s.(sca_artifact).(sa_invocation_id) =s invocation_id)
    && bool_decide (s.(sca_artifact).(sa_stream) = stream) && (s.(sca_producer) =s expected_sender)) artifacts.
Definition artifact_media_source (artifact : StreamArtifact) : result (MediaSource EncryptedFile) WorkspaceError :=
  match artifact.(sa_encrypted_file) with
  | Some value =>
    match file_from_value value with
    | Ok file => Ok (Encrypted file)
    | Err e => Err (ArtifactRetrievalFailed ("artifact for " +:+ debug artifact.(sa_invocation_id) +:+ " has malformed encrypted_file key material: " +:+ e))
    end
  | None => let? uri := parse_mxc ArtifactRetrievalFailed artifact.(sa_mxc_uri) in Ok (Plain uri)
  end.
Definition artifact_download_media (media : MediaStore) (artifact : StreamArtifact) : result bytes WorkspaceError :=
  let? source := artifact_media_source artifact in ok_or (get_media_content source media) Matrix.

Record RetrieveArtifactOptions := { rao_invocation_id : string; rao_stream : StreamKind; rao_expected_sender : option string }.
(** The room's invocation and agent state events. *)
Record StateView := { sv_invocations : gmap string (StateEvent InvocationState); sv_agents : gmap string (StateEvent AgentState) }.
Definition read_content {T} (events : gmap string (StateEvent T)) (key : string) : result (option T) WorkspaceError :=
  match events !! key with
  | Some (Content t _) => Ok (Some t)
  | Some Malformed => Err Matrix
  | Some Cleared | None => Ok None
  end.
Definition resolve_artifact_producer (view : StateView) (o : RetrieveArtifactOptions) : result string WorkspaceError :=
  match pinned o.(rao_expected_sender) with
  | Some sender => Ok sender
  | None =>
    let? read := read_content view.(sv_invocations) o.(rao_invocation_id) in
    let? invocation := ok_or read
      (ArtifactNotFound (o.(rao_invocation_id) +:+ " (no invocation state to resolve its producer)")) in
    let? read := read_content view.(sv_agents) invocation.(is_target) in
    let? agent := ok_or read (ArtifactRetrievalFailed ("could not resolve the executing agent " +:+ debug invocation.(is_target)
      +:+ " for invocation " +:+ debug o.(rao_invocation_id))) in
    Ok agent.(as_matrix_user_id)
  end.
Record RetrievedArtifact := { ra_artifact : StreamArtifact; ra_data : bytes }.
Definition retrieve_artifact (media : MediaStore) (view : StateView) (messages : result (list TimelineEvent) WorkspaceError)
    (o : RetrieveArtifactOptions) : result RetrievedArtifact WorkspaceError :=
  let? expected_sender := resolve_artifact_producer view o in
  let? artifacts := scan_stream_artifacts messages in
  let? artifact := ok_or (select_artifact artifacts o.(rao_invocation_id) o.(rao_stream) expected_sender)
    (ArtifactNotFound (o.(rao_invocation_id) +:+ " (" +:+ stream_stem o.(rao_stream) +:+ ")")) in
  if artifact.(sa_mxc_uri) =s "" then
    Err (ArtifactRetrievalFailed ("artifact for " +:+ debug o.(rao_invocation_id) +:+ " has no mxc:// reference to download"))
  else
    let? media := artifact_download_media media artifact in
    let? data := verify_and_decompress artifact media in
    Ok {| ra_artifact := artifact; ra_data := data |}.
(** ** Media that stays *)

Definition retains (s s' : MediaStore) : Prop := ∀ src data, get_media_content src s = Some data → get_media_content src s' = Some data.
#[export] Instance retains_preorder : PreOrder retains.
Proof. split; [by intros s src data|]. intros s1 s2 s3 H12 H23 src data Hs. auto. Qed.

(** A share event as the room holds it. *)
Definition share_event (sender : string) (share : ContextShare) : TimelineEvent :=
  {| te_type := Some CONTEXT_SHARE; te_sender := Some sender; te_share := Some share; te_artifact := None |}.
(** [who] published a share under this id in these events. *)
Definition shared_by (context_id who : string) (events : list TimelineEvent) : Prop :=
  ∃ s, s ∈ omap scan_share events ∧ s.(ss_share).(cx_context_id) = context_id ∧ s.(ss_producer) = who.
(** What a share says its payload is. *)
Definition share_payload (media : MediaStore) (share : ContextShare) : result bytes WorkspaceError :=
  match share.(cx_mxc_uri) with Some uri => download_media media share uri | None => decode_inline share end.

Lemma find_first {A} (f : A → bool) l x :
  List.find f l = Some x ↔ ∃ newer older, l = newer ++ x :: older ∧ f x = true ∧ ∀ y, y ∈ newer → f y = false.
Proof.
  split.
  - induction l as [|a l IH]; simpl; [done|]. destruct (f a) eqn:Ea.
    + intros [= <-]. exists [], l. split_and!; [done..|]. intros y Hy. by apply not_elem_of_nil in Hy.
    + intros (newer & older & -> & Hx & Hn)%IH. exists (a :: newer), older. split_and!; [done..|].
      intros y [->|Hy]%elem_of_cons; auto.
  - intros (newer & older & -> & Hx & Hn). induction newer as [|a newer IH]; simpl; [by rewrite Hx|].
    rewrite (Hn a) by left. apply IH. intros y Hy. apply Hn. by right.
Qed.
Lemma filter_find {A} (f g : A → bool) l : List.find g (List.filter f l) = List.find (λ x, f x && g x) l.
Proof. induction l as [|a l IH]; simpl; [done|]. destruct (f a); simpl; [by destruct (g a)|done]. Qed.

Lemma select_pinned shares id who share :
  who ≠ "" → select_share shares id (Some who) = Ok share ↔
  ∃ s, List.find (λ s, (s.(ss_share).(cx_context_id) =s id) && (s.(ss_producer) =s who)) shares = Some s ∧ s.(ss_share) = share.
Proof.
  intros Hw%str_eqb_neq. unfold select_share, pinned. rewrite Hw, <- filter_find.
  destruct (List.filter _ shares) as [|first rest]; [simpl; split; [done|by intros (s & [=] & _)]|].
  destruct (List.find _ (first :: rest)) as [s|]; split; [intros [= <-]; by eexists|intros (s' & [= <-] & <-)|done|by intros (s' & [=] & _)]; done.
Qed.
Lemma select_unpinned shares id expected share :
  pinned expected = None → select_share shares id expected = Ok share ↔
  ∃ s, List.find (λ s, s.(ss_share).(cx_context_id) =s id) shares = Some s ∧ s.(ss_share) = share ∧
    ∀ s', s' ∈ shares → s'.(ss_share).(cx_context_id) = id → s'.(ss_producer) = s.(ss_producer).
Proof.
  intros Hp. unfold select_share. rewrite Hp.
  assert (List.find (λ s, s.(ss_share).(cx_context_id) =s id) shares =
          head (List.filter (λ s, s.(ss_share).(cx_context_id) =s id) shares)) as ->.
  { induction shares as [|a l IH]; simpl; [done|]. by destruct (cx_context_id (ss_share a) =s id). }
  assert (∀ s, s ∈ List.filter (λ s, s.(ss_share).(cx_context_id) =s id) shares ↔ s ∈ shares ∧ s.(ss_share).(cx_context_id) = id) as Hf.
  { intros s. by rewrite list_elem_of_In, filter_In, <- list_elem_of_In, str_eqb_eq. }
  destruct (List.filter _ shares) as [|first rest]; [simpl; split; [done|by intros (s & [=] & _)]|].
  destruct (forallb _ _) eqn:Ef; simpl.
  - rewrite forallb_forall in Ef. split; [|intros (s & [= <-] & <- & _); done].
    intros [= <-]. exists first. split_and!; [done..|]. intros s' Hs' Hid. apply str_eqb_eq, Ef, list_elem_of_In, Hf. auto.
  - split; [done|]. intros (s & [= <-] & <- & Hall). exfalso. apply not_true_iff_false in Ef. apply Ef, forallb_forall.
    intros s' [Hin Hid]%list_elem_of_In%Hf. apply str_eqb_eq. by apply Hall.
Qed.

Lemma omap_split {A B} (f : A → option B) l l1 x l2 :
  omap f l = l1 ++ x :: l2 → ∃ a b c, l = a ++ b :: c ∧ f b = Some x ∧ omap f a = l1 ∧ omap f c = l2.
Proof.
  revert l1. induction l as [|y l IH]; intros l1; simpl; [by destruct l1|]. destruct (f y) as [z|] eqn:Ey.
  - destruct l1 as [|z' l1]; intros [= -> Hl].
    + by exists [], y, l.
    + destruct (IH _ Hl) as (a & b & c & -> & Hb & Ha & Hc). exists (y :: a), b, c. split_and!; [done..| |done]. simpl. rewrite Ey. f_equal. exact Ha.
  - intros (a & b & c & -> & Hb & Ha & Hc)%IH. exists (y :: a), b, c. split_and!; [done..| |done]. simpl. rewrite Ey. exact Ha.
Qed.
Lemma fetch_Ok media page id expected f :
  fetch_context media (Ok page) id expected = Ok f ↔
  select_share (omap scan_share page) id expected = Ok f.(fc_share) ∧
  share_payload media f.(fc_share) = Ok f.(fc_data) ∧ sha256_b64 f.(fc_data) = f.(fc_share).(cx_sha256).
Proof.
  unfold fetch_context, scan_context_shares. destruct (select_share _ id expected) as [share|e]; [|split; [done|by intros [? _]]].
  fold (share_payload media share). split.
  - destruct (share_payload media share) as [data|] eqn:Ed; [|done]. unfold verify_digest.
    destruct (sha256_b64 data =s cx_sha256 share) eqn:Es; [|done]. intros [= <-]. apply str_eqb_eq in Es. done.
  - intros ([= ->] & -> & Hs). unfold verify_digest. rewrite Hs, str_eqb_refl. by destruct f.
Qed.

Section laws.
Context `{!CryptoLaws} `{!MediaLaws}.

Lemma decode_inline_build id name mime data : decode_inline (build_inline_share id name mime data) = Ok data.
Proof.
  unfold build_inline_share, encode_payload. destruct (from_utf8_ok data); unfold decode_inline; cbn [cx_data cx_encoding ok_or].
  - rewrite (proj2 (str_eqb_neq "utf-8" "base64")) by done. by rewrite str_eqb_refl, String.list_ascii_of_string_of_list_ascii.
  - by rewrite str_eqb_refl, b64_roundtrip, String.list_ascii_of_string_of_list_ascii.
Qed.
Lemma sdk_upload_Ok mime data w uri w' :
  sdk_upload mime data w = (Ok uri, w') →
  w'.(sw_sent) = w.(sw_sent) ∧ w'.(sw_answers) = w.(sw_answers) ∧ mxc_is_valid uri = true ∧ uri ≠ "" ∧
  get_media_content (Plain uri) w'.(sw_media) = Some data.
Proof.
  unfold sdk_upload. destruct (media_upload mime data (sw_media w)) as [[u|] media] eqn:E; [|done]. intros [= -> <-].
  apply upload_stored in E as (? & ? & ?). done.
Qed.
Lemma sdk_upload_encrypted_Ok data w f w' :
  sdk_upload_encrypted data w = (Ok f, w') →
  w'.(sw_sent) = w.(sw_sent) ∧ w'.(sw_answers) = w.(sw_answers) ∧ file_url f ≠ "" ∧ get_media_content (Encrypted f) w'.(sw_media) = Some data.
Proof.
  unfold sdk_upload_encrypted. destruct (upload_encrypted_file data (sw_media w)) as [[u|] media] eqn:E; [|done]. intros [= -> <-].
  apply encrypted_stored in E as [? ?]. done.
Qed.
Lemma upload_media_share_Ok id name mime data encrypted w share w' :
  upload_media_share id name mime data encrypted w = (Ok share, w') →
  w'.(sw_sent) = w.(sw_sent) ∧ share.(cx_context_id) = id ∧ share.(cx_sha256) = sha256_b64 data ∧
  ∀ media, retains w'.(sw_media) media → share_payload media share = Ok data.
Proof.
  unfold upload_media_share, bind, share_payload, download_media, media_source, parse_mxc. destruct encrypted.
  - destruct (sdk_upload_encrypted data w) as [[f|] w1] eqn:E; [|done]. apply sdk_upload_encrypted_Ok in E as (Es & _ & _ & Eg).
    destruct (file_to_value f) as [v|] eqn:Ev; [|done]. intros [= <- <-]. simpl. split_and!; [done..|]. intros media Hm.
    by rewrite (file_roundtrip _ _ Ev), (Hm _ _ Eg).
  - destruct (sdk_upload _ data w) as [[uri|] w1] eqn:E; [|done]. apply sdk_upload_Ok in E as (Es & _ & Hv & _ & Eg).
    intros [= <- <-]. simpl. split_and!; [done..|]. intros media Hm. by rewrite Hv, (Hm _ _ Eg).
Qed.
Lemma send_raw_Ok ty v w w' :
  send_raw ty v w = (Ok tt, w') → w'.(sw_sent) = w.(sw_sent) ++ [(ty, v)] ∧ w'.(sw_media) = w.(sw_media).
Proof. unfold send_raw. destruct (sw_answers w) as [|[] ?]; [done| |done]. by intros [= <-]. Qed.
Lemma share_context_Ok id encrypted o w share w' :
  share_context id encrypted o w = (Ok share, w') →
  w'.(sw_sent) = w.(sw_sent) ++ [(CONTEXT_SHARE, ContextShare_value share)] ∧ share.(cx_context_id) = id ∧
  share.(cx_sha256) = sha256_b64 o.(sco_data) ∧
  ∀ media, retains w'.(sw_media) media → share_payload media share = Ok o.(sco_data).
Proof.
  unfold share_context, bind, publish_context_share.
  set (build := if MAX_INLINE_BYTES <? _ then _ else _). destruct (build w) as [[c|] w1] eqn:E; [|done].
  assert (w1.(sw_sent) = w.(sw_sent) ∧ c.(cx_context_id) = id ∧ c.(cx_sha256) = sha256_b64 o.(sco_data) ∧
    ∀ media, retains w1.(sw_media) media → share_payload media c = Ok o.(sco_data)) as (Hs & Hid & Hd & Hp).
  { subst build. destruct (_ <? _); [by apply upload_media_share_Ok in E|]. injection E as <- <-. split; [done|].
    split; [by unfold build_inline_share; destruct (encode_payload _)|]. split; [by unfold build_inline_share; destruct (encode_payload _)|].
    intros media _. rewrite <- (decode_inline_build id (sco_name o) (sco_mime_type o) (sco_data o)).
    unfold share_payload, build_inline_share. by destruct (encode_payload _). }
  clear E build. destruct (send_raw _ _ w1) as [[[]|] w2] eqn:E; [|done]. apply send_raw_Ok in E as [E1 E2].
  intros [= <- <-]. rewrite E1, E2, Hs. done.
Qed.

Lemma shared_by_scan id who events :
  ¬ shared_by id who events ↔
  ∀ s, s ∈ omap scan_share events → (s.(ss_share).(cx_context_id) =s id) && (s.(ss_producer) =s who) = false.
Proof.
  unfold shared_by. split.
  - intros Hn s Hs. apply not_true_iff_false. rewrite andb_true_iff, !str_eqb_eq. intros [? ?]. apply Hn. by exists s.
  - intros Hall (s & Hs & Hid & Hw). specialize (Hall s Hs). by rewrite Hid, Hw, !str_eqb_refl in Hall.
Qed.
Lemma scan_page newer me share older :
  omap scan_share (newer ++ share_event me share :: older) =
  omap scan_share newer ++ {| ss_share := share; ss_producer := me |} :: omap scan_share older.
Proof. rewrite omap_app. reflexivity. Qed.

(** What was shared is what is fetched.  A share that was published is read back byte
    for byte, inline or through the media repository, encrypted or not, by whoever pins
    its publisher, whatever other members publish under the same id; without a pin it is
    read back when only its publisher used the id, and refused when anyone else did. *)
Theorem context_roundtrip id encrypted o w share w' me media newer older :
  share_context id encrypted o w = (Ok share, w') → me ≠ "" → retains w'.(sw_media) media → ¬ shared_by id me newer →
  w'.(sw_sent) = w.(sw_sent) ++ [(CONTEXT_SHARE, ContextShare_value share)] ∧
  let page := newer ++ share_event me share :: older in
  fetch_context media (Ok page) id (Some me) = Ok {| fc_share := share; fc_data := o.(sco_data) |} ∧
  ((∀ who, shared_by id who page → who = me) →
   fetch_context media (Ok page) id None = Ok {| fc_share := share; fc_data := o.(sco_data) |}) ∧
  (∀ who f, shared_by id who page → who ≠ me → fetch_context media (Ok page) id None ≠ Ok f).
Proof.
  intros (Hsent & Hid & Hsha & Hpay)%share_context_Ok Hme Hret Hnew. split; [done|]. intros page.
  assert (∀ expected, select_share (omap scan_share page) id expected = Ok share →
    fetch_context media (Ok page) id expected = Ok {| fc_share := share; fc_data := o.(sco_data) |}) as Hfetch.
  { intros expected Hs. apply fetch_Ok. simpl. auto. }
  pose proof (scan_page newer me share older) as Hpage. fold page in Hpage. split; [|split].
  - apply Hfetch, select_pinned; [done|]. eexists. split; [apply find_first; rewrite Hpage; eexists _, _; split; [done|]|done].
    simpl. rewrite Hid, !str_eqb_refl. split; [done|]. by apply shared_by_scan.
  - intros Hall. apply Hfetch, select_unpinned; [done|].
    assert (∀ s, s ∈ omap scan_share page → cx_context_id (ss_share s) = id → ss_producer s = me) as Hmine.
    { intros s Hs Hi. apply Hall. by exists s. }
    exists {| ss_share := share; ss_producer := me |}. split_and!; [|done|exact Hmine].
    apply find_first. rewrite Hpage. eexists _, _. split; [done|]. simpl. rewrite Hid, str_eqb_refl. split; [done|].
    intros s Hs. destruct (cx_context_id (ss_share s) =s id) eqn:Ei; [|done]. apply str_eqb_eq in Ei. exfalso. apply Hnew.
    exists s. split_and!; [done..|]. apply Hmine; [rewrite Hpage; apply elem_of_app; by left|done].
  - intros who f (s & Hs & Hi & Hwho) Hne [Hsel _]%fetch_Ok. apply select_unpinned in Hsel as (s0 & _ & _ & Hall); [|done].
    apply Hne. rewrite <- Hwho, (Hall s Hs Hi). symmetry.
    apply (Hall {| ss_share := share; ss_producer := me |}); [rewrite Hpage; apply elem_of_app; right; left|done].
Qed.

(** Nothing else is fetched.  A payload that is returned has the digest its share
    records, and the share is the newest one its publisher sent under the requested id;
    that publisher is the pinned one, or without a pin the only one that used the id. *)
Theorem fetch_only_from_publisher media page id expected f :
  fetch_context media (Ok page) id expected = Ok f →
  sha256_b64 f.(fc_data) = f.(fc_share).(cx_sha256) ∧ share_payload media f.(fc_share) = Ok f.(fc_data) ∧
  ∃ newer e older who, page = newer ++ e :: older ∧ scan_share e = Some {| ss_share := f.(fc_share); ss_producer := who |} ∧
    f.(fc_share).(cx_context_id) = id ∧ ¬ shared_by id who newer ∧
    match pinned expected with Some p => who = p | None => ∀ other, shared_by id other page → other = who end.
Proof.
  intros (Hsel & Hpay & Hsha)%fetch_Ok. split_and!; [done..|].
  destruct (pinned expected) as [p|] eqn:Ep.
  - assert (expected = Some p ∧ p ≠ "") as [-> Hp].
    { unfold pinned in Ep. destruct expected as [x|]; [|done]. destruct (x =s "") eqn:Ex; [done|]. injection Ep as ->. split; [done|]. by apply str_eqb_neq. }
    apply select_pinned in Hsel as (s & (n' & o' & Hsplit & Hs & Hn)%find_first & <-); [|done].
    apply andb_true_iff in Hs as [Hi%str_eqb_eq Hw%str_eqb_eq].
    apply omap_split in Hsplit as (newer & e & older & -> & He & Hne & _). exists newer, e, older, p.
    split_and!; [done|by rewrite He, <- Hw; destruct s|done|apply shared_by_scan; by rewrite Hne|done].
  - apply select_unpinned in Hsel as (s & (n' & o' & Hsplit & Hi%str_eqb_eq & Hn)%find_first & <- & Hall); [|done].
    assert (∀ other, shared_by id other page → other = ss_producer s) as Hone by (intros other (s' & Hs' & Hid & <-); by apply Hall).
    apply omap_split in Hsplit as (newer & e & older & -> & He & Hne & _). exists newer, e, older, (ss_producer s).
    split_and!; [done|by rewrite He; destruct s|done| |done]. intros (s' & Hs' & Hid & _). rewrite Hne in Hs'. apply Hn in Hs'.
    by rewrite Hid, str_eqb_refl in Hs'.
Qed.

(** ** Artifacts *)

Definition signed_artifact (a : StreamArtifact) (s : Signature) : StreamArtifact :=
  {| sa_invocation_id := a.(sa_invocation_id); sa_stream := a.(sa_stream); sa_name := a.(sa_name);
     sa_mime_type := a.(sa_mime_type); sa_size_bytes := a.(sa_size_bytes); sa_sha256 := a.(sa_sha256); sa_mxc_uri := a.(sa_mxc_uri);
     sa_tail_preview := a.(sa_tail_preview); sa_encrypted_file := a.(sa_encrypted_file); sa_signature := Some s; sa_extra := a.(sa_extra) |}.
Lemma map_insert_fresh k v es : k ∉ es.*1 → map_insert k v es = es ++ [(k, v)].
Proof.
  induction es as [|[k' v'] es IH]; simpl; [done|]. intros Hn. destruct (k' =s k) eqn:E.
  - apply str_eqb_eq in E as ->. exfalso. apply Hn. left.
  - f_equal. apply IH. intros Hin. apply Hn. by right.
Qed.
(** A signed artifact event is the event of the artifact with its signature. *)
Lemma sign_artifact_value sk kid p uri ef v :
  sign_into sk kid (StreamArtifact_value (into_event_with p uri ef)) = Ok v →
  ∃ sig, v = StreamArtifact_value (signed_artifact (into_event_with p uri ef) sig).
Proof.
  unfold sign_into. destruct (sign sk kid _) as [sig|]; [|done]. cbn. intros [= <-]. exists sig.
  unfold StreamArtifact_value, into_event_with. f_equal. cbn [sa_extra sa_signature sa_encrypted_file signed_artifact sa_invocation_id sa_stream sa_name sa_mime_type sa_size_bytes sa_sha256 sa_mxc_uri sa_tail_preview].
  change (btree_iter (∅ : gmap string Value)) with (@nil (string * Value)).
  rewrite map_insert_fresh by (destruct ef; cbn; apply (bool_decide_unpack _); vm_compute; reflexivity).
  destruct ef; reflexivity.
Qed.
Lemma sign_artifact_total sk kid p uri ef :
  match ef with Some v => float_free v = true | None => True end →
  is_ok (sign_into sk kid (StreamArtifact_value (into_event_with p uri ef))) = true.
Proof.
  intros Hef. apply sign_into_is_ok. eexists. split; [done|]. cbn [sa_extra sa_signature sa_encrypted_file into_event_with].
  change (btree_iter (∅ : gmap string Value)) with (@nil (string * Value)). cbn [opt_field]. rewrite !app_nil_r.
  intros f v Hin _. rewrite elem_of_app in Hin. destruct Hin as [Hin|Hin].
  - rewrite !elem_of_cons, elem_of_nil in Hin. destruct_or!; try done; injection Hin as _ ->; try done; by destruct (pa_stream p).
  - destruct ef as [x|]; cbn in Hin; [|by apply not_elem_of_nil in Hin]. apply list_elem_of_singleton in Hin. by injection Hin as _ ->.
Qed.

Lemma upload_artifact_Ok p encrypted w event w' :
  upload_artifact p encrypted w = (Ok event, w') →
  ∃ uri ef, event = into_event_with p uri ef ∧ uri ≠ "" ∧ match ef with Some v => float_free v = true | None => True end ∧
    w'.(sw_sent) = w.(sw_sent) ∧ w'.(sw_answers) = w.(sw_answers) ∧
    ∀ sig media, retains w'.(sw_media) media → artifact_download_media media (signed_artifact event sig) = Ok p.(pa_bytes).
Proof.
  unfold upload_artifact, bind, artifact_download_media, artifact_media_source, parse_mxc, into_event, into_event_encrypted. destruct encrypted.
  - destruct (sdk_upload_encrypted _ w) as [[f|] w1] eqn:E; [|done]. apply sdk_upload_encrypted_Ok in E as (Es & Ea & Hu & Eg).
    destruct (file_to_value f) as [v|] eqn:Ev; [|done]. intros [= <- <-]. exists (file_url f), (Some v).
    split_and!; try done; [by eapply file_integral|]. intros sig media Hm. simpl. by rewrite (file_roundtrip _ _ Ev), (Hm _ _ Eg).
  - destruct (sdk_upload _ _ w) as [[uri|] w1] eqn:E; [|done]. apply sdk_upload_Ok in E as (Es & Ea & Hv & Hu & Eg).
    intros [= <- <-]. exists uri, None. split_and!; [done..|]. intros sig media Hm. simpl. by rewrite Hv, (Hm _ _ Eg).
Qed.
Lemma upload_artifact_frame p encrypted w :
  (upload_artifact p encrypted w).2.(sw_sent) = w.(sw_sent) ∧ retains w.(sw_media) (upload_artifact p encrypted w).2.(sw_media).
Proof.
  unfold upload_artifact, bind, sdk_upload, sdk_upload_encrypted. destruct encrypted.
  - pose proof (λ src d, encrypted_keeps (pa_bytes p) (sw_media w) src d) as Hk. destruct (upload_encrypted_file _ _) as [[f|] m]; simpl in *; [|by split].
    by destruct (file_to_value f).
  - match goal with |- context [media_upload ?m _ _] => pose proof (λ src d, upload_keeps m (pa_bytes p) (sw_media w) src d) as Hk end.
    destruct (media_upload _ _ _) as [[f|] m]; simpl in *; by split.
Qed.

(** What decompression undoes; a host without the program decompresses nothing. *)
Context (zstd_inverse : ∀ data packed, compress_zstd data = Some packed → decompress_zstd packed = Some data).

Lemma prepared_data inv k data config uri ef sig :
  let p := prepare_artifact inv k data config in
  verify_and_decompress (signed_artifact (into_event_with p uri ef) sig) p.(pa_bytes) = Ok data.
Proof.
  unfold prepare_artifact, verify_and_decompress, is_compressed. destruct (if ac_compress config then _ else _) as [packed|] eqn:E; cbn.
  - rewrite str_eqb_refl. cbn. assert (compress_zstd data = Some packed) as Hz by by destruct (ac_compress config).
    rewrite (zstd_inverse _ _ Hz). by destruct k.
  - rewrite str_eqb_refl. cbn. by destruct k.
Qed.

(** [who] published an artifact of the invocation's stream in these events. *)
Definition artifact_by (invocation_id : string) (k : StreamKind) (who : string) (events : list TimelineEvent) : Prop :=
  ∃ s, s ∈ omap scan_artifact events ∧ s.(sca_artifact).(sa_invocation_id) = invocation_id ∧ s.(sca_artifact).(sa_stream) = k ∧ s.(sca_producer) = who.
Definition artifact_event (sender : string) (a : StreamArtifact) : TimelineEvent :=
  {| te_type := Some STREAM_ARTIFACT; te_sender := Some sender; te_share := None; te_artifact := Some a |}.
Lemma select_artifact_Some scanned inv k who a :
  select_artifact scanned inv k who = Some a ↔
  ∃ s newer older, scanned = newer ++ s :: older ∧ s.(sca_artifact) = a ∧ a.(sa_invocation_id) = inv ∧ a.(sa_stream) = k ∧ s.(sca_producer) = who ∧
    ∀ s', s' ∈ newer → ¬ (s'.(sca_artifact).(sa_invocation_id) = inv ∧ s'.(sca_artifact).(sa_stream) = k ∧ s'.(sca_producer) = who).
Proof.
  assert (∀ s, (s.(sca_artifact).(sa_invocation_id) =s inv) && bool_decide (s.(sca_artifact).(sa_stream) = k) && (s.(sca_producer) =s who) = true ↔
    s.(sca_artifact).(sa_invocation_id) = inv ∧ s.(sca_artifact).(sa_stream) = k ∧ s.(sca_producer) = who) as Hm.
  { intros s. rewrite !andb_true_iff, !str_eqb_eq, bool_decide_eq_true. symmetry. apply and_assoc. }
  unfold select_artifact. rewrite fmap_Some. setoid_rewrite find_first. split.
  - intros (s & (newer & older & -> & (? & ? & ?)%Hm & Hn) & ->). exists s, newer, older. split_and!; try done.
    intros s' Hs'. rewrite <- Hm, (Hn s' Hs'). done.
  - intros (s & newer & older & -> & <- & ? & ? & ? & Hn). exists s. split; [|done]. exists newer, older. split_and!; [done|by apply Hm|].
    intros s' Hs'. apply not_true_iff_false. rewrite Hm. by apply Hn.
Qed.

(** What an emitted artifact gives whoever retrieves it. *)
Definition retrievable (stored : MediaStore) (invocation_id : string) (k : StreamKind) (data : bytes) (a : StreamArtifact) : Prop :=
  a.(sa_invocation_id) = invocation_id ∧ a.(sa_stream) = k ∧
  ∀ media view o who newer older,
    retains stored media → o.(rao_invocation_id) = invocation_id → o.(rao_stream) = k →
    resolve_artifact_producer view o = Ok who → ¬ artifact_by invocation_id k who newer →
    retrieve_artifact media view (Ok (newer ++ artifact_event who a :: older)) o = Ok {| ra_artifact := a; ra_data := data |}.
Lemma retrievable_retains s s' inv k data a : retrievable s inv k data a → retains s s' → retrievable s' inv k data a.
Proof. intros (? & ? & Hr) Hs. split_and!; [done..|]. intros media view o who newer older Hm. apply Hr. by etrans. Qed.
Lemma prepared_retrievable stored inv k data config uri ef sig :
  let a := signed_artifact (into_event_with (prepare_artifact inv k data config) uri ef) sig in
  uri ≠ "" →
  (∀ media, retains stored media → artifact_download_media media a = Ok (prepare_artifact inv k data config).(pa_bytes)) →
  retrievable stored inv k data a.
Proof.
  intros a Hu Hd. assert (a.(sa_invocation_id) = inv ∧ a.(sa_stream) = k) as [Hi Hk].
  { subst a. unfold prepare_artifact. by destruct (if ac_compress config then _ else _). }
  split_and!; [done..|]. intros media view o who newer older Hm Hoi Hok Hw Hn. unfold retrieve_artifact. rewrite Hw, Hoi, Hok.
  cbn. rewrite (proj2 (select_artifact_Some _ inv k who a)); cbn.
  - rewrite (proj2 (str_eqb_neq _ _)) by exact Hu. rewrite (Hd media Hm). cbn. subst a. by rewrite prepared_data.
  - exists {| sca_artifact := a; sca_producer := who |}, (omap scan_artifact newer), (omap scan_artifact older).
    rewrite omap_app. split_and!; try done. intros s' Hs' (? & ? & ?). apply Hn. by exists s'.
Qed.

(** Every upload succeeds. *)
Definition media_up : Prop :=
  (∀ mime data s, is_Some (media_upload mime data s).1) ∧
  ∀ data s, ∃ f v, (upload_encrypted_file data s).1 = Some f ∧ file_to_value f = Some v.
Lemma media_up_artifact p encrypted w : media_up → ∃ event w', upload_artifact p encrypted w = (Ok event, w').
Proof.
  intros [Hu He]. unfold upload_artifact, bind, sdk_upload, sdk_upload_encrypted. destruct encrypted.
  - destruct (He (pa_bytes p) (sw_media w)) as (f & v & Hf & Hv). destruct (upload_encrypted_file _ _) as [? m]. simpl in Hf. subst. simpl.
    rewrite Hv. eauto.
  - match goal with |- context [media_upload ?m _ _] => destruct (Hu m (pa_bytes p) (sw_media w)) as [uri Huri] end.
    destruct (media_upload _ _ _) as [? m]. simpl in Huri. subst. simpl. eauto.
Qed.

(** The events one stream's output adds. *)
Record emitted (sk : SigningKey) (inv : string) (k : StreamKind) (data : bytes) (w w' : ShareWorld) (evs : list (string * Value)) : Prop := {
  em_sent : w'.(sw_sent) = w.(sw_sent) ++ evs;
  em_retains : retains w.(sw_media) w'.(sw_media);
  em_events : ∀ ev, ev ∈ evs → ∃ a, ev = (STREAM_ARTIFACT, StreamArtifact_value a) ∧
    verify (verifying_key sk) ev.2 = Ok tt ∧ retrievable w'.(sw_media) inv k data a;
  em_complete : ∀ answers, media_up → w.(sw_answers) = true :: answers → data ≠ [] → length evs = 1%nat ∧ w'.(sw_answers) = answers;
  em_skip : data = [] → w' = w ∧ evs = [];
}.
Lemma emit_artifact_spec sk inv encrypted k data w :
  ∃ evs, emitted sk inv k data w (emit_artifact sk inv encrypted w (k, data)) evs.
Proof.
  unfold emit_artifact. destruct data as [|c data]; [exists []; split; [by rewrite app_nil_r|done|intros ev Hev; by apply not_elem_of_nil in Hev|done|done]|].
  set (bytes := c :: data). assert (bytes ≠ []) as Hne by done. clearbody bytes. set (p := prepare_artifact inv k bytes default_artifact_config).
  pose proof (upload_artifact_frame p encrypted w) as [Hs Hr]. pose proof (media_up_artifact p encrypted w) as Hup.
  assert (∀ (ev : string * Value) (P : Prop), ev ∈ [] → P) as Hnil by (intros ev P Hev; by apply not_elem_of_nil in Hev).
  destruct (upload_artifact p encrypted w) as [[event|e] w1] eqn:E; cbn in Hs, Hr.
  2: { exists []. split; [by rewrite app_nil_r|done|intros; by eapply Hnil| |done]. intros answers Hm. by destruct (Hup Hm) as (? & ? & ?). }
  apply upload_artifact_Ok in E as (uri & ef & -> & Hu & Hff & _ & Ha & Hd).
  pose proof (sign_artifact_total sk (daemon_key_id sk) p uri ef Hff) as Htot.
  destruct (sign_into sk (daemon_key_id sk) _) as [v|] eqn:Ev; [|done].
  pose proof (sign_into_verify _ _ _ _ Ev) as [Hver _]. apply sign_artifact_value in Ev as [sig ->].
  assert (retrievable w1.(sw_media) inv k bytes (signed_artifact (into_event_with p uri ef) sig)) as Hret by (by apply prepared_retrievable; [|apply Hd]).
  unfold sm_ignore, send_raw. destruct (sw_answers w1) as [|[] answers] eqn:Ean; cbn.
  - exists []. split; [by rewrite app_nil_r|done|intros; by eapply Hnil| |done]. intros answers _ Hw. congruence.
  - eexists. split; cbn; [by rewrite Hs|done| | |done].
    + intros ev ->%list_elem_of_singleton. eexists. done.
    + intros answers' _ Hw _. split; [done|]. congruence.
  - exists []. split; cbn; [by rewrite app_nil_r|done|intros; by eapply Hnil| |done]. intros answers' _ Hw. congruence.
Qed.

(** A large output is not lost and not forgeable.  When the output exceeds the
    timeline budget, every event sent is a signed artifact of one of the two streams from
    which anyone who can resolve the executor retrieves exactly the bytes the command wrote,
    whatever other members publish for the same invocation; and when the uploads and sends
    succeed there is one for each stream that has output. *)
Theorem artifact_roundtrip sk inv encrypted out err capture w summary w' :
  DEFAULT_MAX_TIMELINE_OUTPUT_BYTES < Z.of_nat (length out) + Z.of_nat (length err) →
  emit_output_events sk inv encrypted out err capture w = (summary, w') →
  ∃ evs, w'.(sw_sent) = w.(sw_sent) ++ evs ∧
    (∀ ev, ev ∈ evs → ∃ k data a, (k, data) ∈ [(Stdout, out); (Stderr, err)] ∧ data ≠ [] ∧ ev = (STREAM_ARTIFACT, StreamArtifact_value a) ∧
       verify (verifying_key sk) ev.2 = Ok tt ∧ retrievable w'.(sw_media) inv k data a) ∧
    (media_up → w.(sw_answers) = [true; true] →
     length evs = length (List.filter (λ d : bytes, negb (bool_decide (d = []))) [out; err])).
Proof.
  intros Hbig. unfold emit_output_events, should_switch. cbn [ac_max_timeline_output_bytes default_artifact_config]. rewrite (proj2 (Z.ltb_lt _ _) Hbig). intros [<- <-]%pair_eq.
  cbn [foldl]. destruct (emit_artifact_spec sk inv encrypted Stdout out w) as [evs1 E1].
  destruct (emit_artifact_spec sk inv encrypted Stderr err (emit_artifact sk inv encrypted w (Stdout, out))) as [evs2 E2].
  set (w1 := emit_artifact sk inv encrypted w (Stdout, out)) in *. set (w2 := emit_artifact sk inv encrypted w1 (Stderr, err)) in *.
  exists (evs1 ++ evs2). split; [by rewrite (em_sent _ _ _ _ _ _ _ E2), (em_sent _ _ _ _ _ _ _ E1), app_assoc|]. split.
  - intros ev [Hev|Hev]%elem_of_app.
    + destruct (em_events _ _ _ _ _ _ _ E1 ev Hev) as (a & -> & Hv & Hr). exists Stdout, out, a.
      split_and!; [left| |done..|eapply retrievable_retains; [done|apply (em_retains _ _ _ _ _ _ _ E2)]].
      intros Hd. destruct (em_skip _ _ _ _ _ _ _ E1 Hd) as [_ ->]. by apply not_elem_of_nil in Hev.
    + destruct (em_events _ _ _ _ _ _ _ E2 ev Hev) as (a & -> & Hv & Hr). exists Stderr, err, a. split_and!; [right; left| |done..].
      intros Hd. destruct (em_skip _ _ _ _ _ _ _ E2 Hd) as [_ ->]. by apply not_elem_of_nil in Hev.
  - intros Hm Hans. rewrite length_app. cbn.
    assert (length evs1 = (if bool_decide (out = []) then 0 else 1)%nat ∧ ∃ answers, w1.(sw_answers) = true :: answers) as [-> [answers Ha]].
    { case_bool_decide as Ho.
      - destruct (em_skip _ _ _ _ _ _ _ E1 Ho) as [-> ->]. rewrite Hans. eauto.
      - destruct (em_complete _ _ _ _ _ _ _ E1 [true] Hm Hans Ho) as [-> ->]. eauto. }
    assert (length evs2 = (if bool_decide (err = []) then 0 else 1)%nat) as ->.
    { case_bool_decide as He; [by destruct (em_skip _ _ _ _ _ _ _ E2 He) as [_ ->]|]. by apply (em_complete _ _ _ _ _ _ _ E2 answers Hm Ha He). }
    destruct (bool_decide (out = [])), (bool_decide (err = [])); reflexivity.
Qed.


(** A retrieved artifact is the executor's.  It is the newest the resolved producer (the
    pinned sender, or the registered user of the agent the invocation names as its target)
    published for that invocation and stream, its media has the digest it records, and the
    bytes returned are that media, decompressed when it is marked compressed. *)
Theorem retrieve_only_from_executor media view page o r :
  retrieve_artifact media view (Ok page) o = Ok r →
  ∃ who newer e older stored, resolve_artifact_producer view o = Ok who ∧
    page = newer ++ e :: older ∧ scan_artifact e = Some {| sca_artifact := r.(ra_artifact); sca_producer := who |} ∧
    r.(ra_artifact).(sa_invocation_id) = o.(rao_invocation_id) ∧ r.(ra_artifact).(sa_stream) = o.(rao_stream) ∧
    ¬ artifact_by o.(rao_invocation_id) o.(rao_stream) who newer ∧
    artifact_download_media media r.(ra_artifact) = Ok stored ∧ sha256_b64 stored = r.(ra_artifact).(sa_sha256) ∧
    (if is_compressed r.(ra_artifact) then decompress_zstd stored = Some r.(ra_data) else r.(ra_data) = stored) ∧
    (pinned o.(rao_expected_sender) = None → ∃ inv i agent j,
       view.(sv_invocations) !! o.(rao_invocation_id) = Some (Content inv i) ∧
       view.(sv_agents) !! inv.(is_target) = Some (Content agent j) ∧ agent.(as_matrix_user_id) = who).
Proof.
  unfold retrieve_artifact, scan_stream_artifacts. intros Hr.
  destruct (resolve_artifact_producer view o) as [who|] eqn:Ew; [|done]. cbn in Hr.
  destruct (select_artifact _ _ _ who) as [a|] eqn:Es; [|done]. cbn in Hr. destruct (sa_mxc_uri a =s ""); [done|].
  destruct (artifact_download_media media a) as [stored|] eqn:Ed; [|done]. unfold verify_and_decompress in Hr.
  destruct (sha256_b64 stored =s sa_sha256 a) eqn:Eh; [|done]. cbn in Hr. apply str_eqb_eq in Eh.
  apply select_artifact_Some in Es as (s & n' & o' & Hsplit & Hsa & Hi & Hk & Hp & Hn).
  apply omap_split in Hsplit as (newer & e & older & -> & He & Hne & _).
  exists who, newer, e, older, stored.
  assert (r.(ra_artifact) = a ∧ (if is_compressed a then decompress_zstd stored = Some r.(ra_data) else r.(ra_data) = stored)) as [-> Hdata].
  { destruct (is_compressed a); [destruct (decompress_zstd stored); [|done]|]; cbn in Hr; by injection Hr as <-. }
  split_and!; try done.
  - rewrite He. by destruct s; simpl in *; subst.
  - intros (s' & Hs' & ?). rewrite Hne in Hs'. by eapply Hn.
  - intros Hpin. unfold resolve_artifact_producer, read_content in Ew. rewrite Hpin in Ew.
    destruct (sv_invocations view !! _) as [[inv i| |]|] eqn:Ei; cbn in Ew; try done.
    destruct (sv_agents view !! _) as [[agent j| |]|] eqn:Ea; cbn in Ew; try done. injection Ew as <-. by exists inv, i, agent, j.
Qed.

(** A large output whose uploads fail leaves no trace in the room, and the summary, from
    which the finished event is filled, reports it complete. *)
Theorem lost_output_reported_complete sk inv out err capture w :
  (∀ mime data s, (media_upload mime data s).1 = None) →
  DEFAULT_MAX_TIMELINE_OUTPUT_BYTES < Z.of_nat (length out) + Z.of_nat (length err) →
  ∃ w', emit_output_events sk inv false out err capture w =
    ({| cs_truncated := false; cs_output_bytes := Z.of_nat (length out) + Z.of_nat (length err) |}, w') ∧ w'.(sw_sent) = w.(sw_sent).
Proof.
  intros Hdown Hbig. unfold emit_output_events, should_switch. cbn [ac_max_timeline_output_bytes default_artifact_config].
  rewrite (proj2 (Z.ltb_lt _ _) Hbig). eexists. split; [done|].
  assert (∀ w k data, sw_sent (emit_artifact sk inv false w (k, data)) = sw_sent w) as Hone.
  { intros w0 k [|c data]; [done|]. unfold emit_artifact, upload_artifact, bind, sdk_upload.
    match goal with |- context [media_upload ?m ?d ?s] => specialize (Hdown m d s); destruct (media_upload m d s) as [? ?] end.
    simpl in Hdown. by subst. }
  unfold foldl. by rewrite !Hone.
Qed.

End laws.
End sharing.

(** ** A concrete instance of the interface *)

(** Media is numbered; a URI is as long as its number, plus one. *)
Module ToyMedia.
#[export] Instance toy_media : MatrixMedia := {|
  MediaStore := list bytes; EncryptedFile := nat;
  media_upload _ data s := (Some (zeros (S (length s))), s ++ [data]);
  upload_encrypted_file data s := (Some (length s), s ++ [data]);
  get_media_content src s :=
    match src with
    | Plain uri => match String.length uri with O => None | S n => s !! n end
    | Encrypted n => s !! n
    end;
  mxc_is_valid uri := negb (uri =s "");
  file_url _ := "mxc://s/file";
  file_to_value n := Some (Num (NumInt (Z.of_nat n)));
  file_from_value v := match v with Num (NumInt z) => Ok (Z.to_nat z) | _ => Err "not a file" end;
  mime_parse := Some;
|}.
Lemma zeros_length n : String.length (zeros n) = n.
Proof. induction n; simpl; congruence. Qed.
Lemma snoc_lookup (s : list bytes) data : (s ++ [data]) !! length s = Some data.
Proof. by rewrite lookup_app_r, Nat.sub_diag by done. Qed.
#[export] Instance toy_media_laws : MediaLaws.
Proof.
  split; simpl.
  - intros mime data s uri s' [= <- <-]. split_and!; [done..|]. simpl. rewrite zeros_length. apply snoc_lookup.
  - intros data s f s' [= <- <-]. split; [done|]. apply snoc_lookup.
  - intros f v [= <-]. by rewrite Nat2Z.id.
  - by intros f v [= <-].
  - intros mime data s [uri|n] d; [destruct (String.length uri); [done|]|]; apply lookup_app_l_Some.
  - intros data s [uri|n] d; [destruct (String.length uri); [done|]|]; apply lookup_app_l_Some.
Qed.
Definition zip (data : bytes) : option bytes := Some (chr 40 :: data).
Definition unzip (data : bytes) : option bytes := tail <$> (match data with [] => None | _ => Some data end).
Definition options : ShareContextOptions := {| sco_name := "plan"; sco_mime_type := "text/plain"; sco_data := [chr 104; chr 255] |}.
Definition world : ShareWorld := {| sw_media := []; sw_sent := []; sw_answers := [true; true] |}.
Definition forged (id : string) : TimelineEvent :=
  share_event "@evil:s" (build_inline_share (H := Toy.toy_crypto) id "plan" "text/plain" [chr 104]).
Definition shared : result ContextShare WorkspaceError * ShareWorld :=
  share_context (H := Toy.toy_crypto) "ctx_1" false options world.
(** An output one byte over the budget. *)
Definition big : bytes := repeat (chr 97) (Z.to_nat (DEFAULT_MAX_TIMELINE_OUTPUT_BYTES + 1)).
Definition small : StreamArtifact :=
  into_event (prepare_artifact (H := Toy.toy_crypto) (λ _, None) "inv" Stdout [chr 104] default_artifact_config) "0".
Definition view : StateView :=
  {| sv_invocations := {["inv" := Content {| is_invocation_id := "inv"; is_task_id := None; is_requester := "@me:s"; is_target := "worker";
       is_state := "exited"; is_created_at := ""; is_updated_at := ""; is_exit_code := Some 0; is_state_rev := 2; is_extra := ∅ |} None]};
     sv_agents := {["worker" := Content (LiveAuth.Sample.agent "worker" "@worker:s") None]} |}.
Definition wanted : RetrieveArtifactOptions := {| rao_invocation_id := "inv"; rao_stream := Stdout; rao_expected_sender := None |}.
End ToyMedia.

Section sharing_witnesses.
#[local] Existing Instance Toy.toy_crypto.
#[local] Existing Instance Toy.toy_laws.
#[local] Existing Instance ToyMedia.toy_media.
#[local] Existing Instance ToyMedia.toy_media_laws.

Lemma context_roundtrip_witness :
  ∃ share w', share_context "ctx_1" false ToyMedia.options ToyMedia.world = (Ok share, w') ∧
    fetch_context id id w'.(sw_media) (Ok [ToyMedia.forged "ctx_1"; share_event "@me:s" share]) "ctx_1" (Some "@me:s") =
      Ok {| fc_share := share; fc_data := [chr 104; chr 255] |} ∧
    is_err (fetch_context id id w'.(sw_media) (Ok [ToyMedia.forged "ctx_1"; share_event "@me:s" share]) "ctx_1" None) = true.
Proof.
  destruct (share_context "ctx_1" false ToyMedia.options ToyMedia.world) as [[share|e] w'] eqn:E; [|by vm_compute in E].
  exists share, w'. split; [done|].
  destruct (context_roundtrip id id "ctx_1" false ToyMedia.options ToyMedia.world share w' "@me:s" w'.(sw_media) [ToyMedia.forged "ctx_1"] [] E)
    as (_ & Hp & _ & Hu); [done|reflexivity| |].
  - intros (s & Hs & _ & Hw). apply list_elem_of_singleton in Hs. subst. done.
  - split; [exact Hp|]. match goal with |- is_err ?x = true => destruct x as [f|] eqn:Ef end; [|done].
    exfalso. apply (Hu "@evil:s" f); [|done|exact Ef].
    exists {| ss_share := build_inline_share "ctx_1" "plan" "text/plain" [chr 104]; ss_producer := "@evil:s" |}. split_and!; [left|done..].
Defined.
Lemma fetch_only_from_publisher_witness :
  ∃ f, fetch_context id id ToyMedia.world.(sw_media) (Ok [ToyMedia.forged "ctx_1"; ToyMedia.forged "ctx_2"]) "ctx_2" None = Ok f ∧
    sha256_b64 f.(fc_data) = f.(fc_share).(cx_sha256).
Proof.
  destruct (fetch_context id id ToyMedia.world.(sw_media) (Ok [ToyMedia.forged "ctx_1"; ToyMedia.forged "ctx_2"]) "ctx_2" None) as [f|] eqn:E;
    [|by vm_compute in E].
  exists f. split; [done|]. exact (proj1 (fetch_only_from_publisher id id ToyMedia.world.(sw_media) _ "ctx_2" None f E)).
Defined.
Lemma zip_inverse data packed : ToyMedia.zip data = Some packed → ToyMedia.unzip packed = Some data.
Proof. by intros [= <-]. Qed.
Lemma toy_media_up : media_up.
Proof. split; [intros mime data s; by eexists|intros data s; by eexists _, _]. Qed.
Lemma big_length : DEFAULT_MAX_TIMELINE_OUTPUT_BYTES < Z.of_nat (length ToyMedia.big) + Z.of_nat (length (@nil ascii)).
Proof. unfold ToyMedia.big. rewrite repeat_length. vm_compute. reflexivity. Qed.
Lemma artifact_roundtrip_witness :
  ∃ summary w' a,
    emit_output_events (H := Toy.toy_crypto) (H0 := ToyMedia.toy_media) ToyMedia.zip tt "inv" false ToyMedia.big []
      ({| cs_truncated := false; cs_output_bytes := 0 |}, []) ToyMedia.world = (summary, w') ∧
    w'.(sw_sent) = [(STREAM_ARTIFACT, StreamArtifact_value a)] ∧
    retrieve_artifact id ToyMedia.unzip w'.(sw_media) {| sv_invocations := ∅; sv_agents := ∅ |} (Ok [artifact_event "@worker:s" a])
      {| rao_invocation_id := "inv"; rao_stream := Stdout; rao_expected_sender := Some "@worker:s" |} = Ok {| ra_artifact := a; ra_data := ToyMedia.big |}.
Proof.
  destruct (emit_output_events (H := Toy.toy_crypto) (H0 := ToyMedia.toy_media) ToyMedia.zip tt "inv" false ToyMedia.big []
    ({| cs_truncated := false; cs_output_bytes := 0 |}, []) ToyMedia.world) as [summary w'] eqn:E.
  destruct (artifact_roundtrip (H := Toy.toy_crypto) (H0 := ToyMedia.toy_media) id ToyMedia.zip ToyMedia.unzip zip_inverse tt "inv" false
    ToyMedia.big [] _ ToyMedia.world summary w' big_length E) as (evs & Hs & Hev & Hlen).
  assert (length evs = 1%nat) as H1 by (rewrite (Hlen toy_media_up eq_refl); vm_compute; reflexivity).
  destruct evs as [|ev [|? ?]]; [done| |done]. destruct (Hev ev) as (k & data & a & Hin & Hne & -> & _ & Hi & Hk & Hr); [left|].
  assert (data = ToyMedia.big ∧ k = Stdout) as [-> ->].
  { rewrite !elem_of_cons in Hin. destruct Hin as [[-> ->]%pair_eq|[[-> ->]%pair_eq|[]%not_elem_of_nil]].
    - split; reflexivity.
    - exfalso. apply Hne. reflexivity. }
  exists summary, w', a. split; [reflexivity|]. split; [exact Hs|].
  apply (Hr _ _ _ "@worker:s" [] []); [reflexivity..|]. intros (s & Hs' & _). exact (not_elem_of_nil _ Hs').
Defined.
(** Another member's artifact, newer than the executor's, is passed over. *)
Lemma retrieve_only_from_executor_witness :
  ∃ r, retrieve_artifact id ToyMedia.unzip (H0 := ToyMedia.toy_media) [[chr 104]] ToyMedia.view
      (Ok [artifact_event "@evil:s" ToyMedia.small; artifact_event "@worker:s" ToyMedia.small]) ToyMedia.wanted = Ok r ∧
    r.(ra_data) = [chr 104] ∧ sha256_b64 [chr 104] = r.(ra_artifact).(sa_sha256).
Proof.
  destruct (retrieve_artifact id ToyMedia.unzip (H0 := ToyMedia.toy_media) [[chr 104]] ToyMedia.view
      (Ok [artifact_event "@evil:s" ToyMedia.small; artifact_event "@worker:s" ToyMedia.small]) ToyMedia.wanted) as [r|] eqn:E; [|by vm_compute in E].
  exists r. split; [done|].
  destruct (retrieve_only_from_executor id ToyMedia.unzip (H0 := ToyMedia.toy_media) _ _ _ _ r E)
    as (who & newer & e & older & stored & _ & _ & _ & _ & _ & _ & _ & Hd & _).
  vm_compute in E. injection E as <-. split; [done|]. vm_compute. reflexivity.
Defined.
End sharing_witnesses.
