(* ===== verification/DataDir.v ===== *)
(** * The data directory

    Models [crates/mx-agent-daemon/src/session.rs] and the key file of [signing.rs]: the
    session, sync token, passphrase and signing key files, written through a temporary
    file, and their removal at logout.  The file system is a map from paths to nodes.  An
    oracle says of each system call whether it goes through or fails part way; when the
    oracle ends the process is dead and nothing changes any more, so that a property of
    every oracle is one of every failure and every crash point.  JSON is the interface
    [SessionSerde]; randomness is an argument. *)
From Stdlib Require Import ZArith Lia.
From stdpp Require Import gmap strings list.
From S2P Require Import Prelude RustStr CanonicalJson Schema Signing Streams.
Local Open Scope Z_scope.

(** ** The file system *)

(** A path is the list of its components. *)
Abbreviation Path := (list string).
Inductive Node := File (mode : Z) (content : string) | Dir (mode : Z).
#[export] Instance Node_eq_dec : EqDecision Node.
Proof. solve_decision. Defined.
Inductive IoError := NotFound | OtherIo.

(** A failing call may have written some bytes or removed some entries. *)
Inductive Call := Proceed | FailAfter (written : nat) (removed : gset Path).
Record Disk := { dk_fs : gmap Path Node; dk_calls : list Call }.
Definition FM (A : Type) : Type := st Disk IoError A.

Definition syscall {A} (go : gmap Path Node → result A IoError * gmap Path Node)
    (partial : nat → gset Path → gmap Path Node → gmap Path Node) : FM A := λ d,
  match d.(dk_calls) with
  | [] => (Err OtherIo, d)
  | Proceed :: calls => let '(r, fs) := go d.(dk_fs) in (r, {| dk_fs := fs; dk_calls := calls |})
  | FailAfter n removed :: calls => (Err OtherIo, {| dk_fs := partial n removed d.(dk_fs); dk_calls := calls |})
  end.
Definition nothing (n : nat) (removed : gset Path) (fs : gmap Path Node) : gmap Path Node := fs.

Definition fs_exists (p : Path) : FM bool := λ d, (Ok (is_some (d.(dk_fs) !! p)), d).
Definition fs_read (p : Path) : FM string :=
  syscall (λ fs, match fs !! p with Some (File _ content) => (Ok content, fs) | Some (Dir _) => (Err OtherIo, fs) | None => (Err NotFound, fs) end) nothing.
(** [read_to_string] refuses what is not UTF-8. *)
Definition read_to_string (p : Path) : FM string :=
  let! content := fs_read p in
  if from_utf8_ok (to_bytes content) then ret content else fail OtherIo.
Definition set_mode (mode : Z) (node : Node) : Node := match node with File _ content => File mode content | Dir _ => Dir mode end.
Definition set_permissions (p : Path) (mode : Z) : FM unit :=
  syscall (λ fs, match fs !! p with Some node => (Ok tt, <[p := set_mode mode node]> fs) | None => (Err NotFound, fs) end) nothing.
(** [File::create]: truncates; a new file gets the process's default mode. *)
Definition DEFAULT_MODE : Z := 420.
Definition file_create (p : Path) : FM unit :=
  syscall (λ fs,
    match fs !! p with
    | Some (Dir _) => (Err OtherIo, fs)
    | Some (File mode _) => (Ok tt, <[p := File mode ""]> fs)
    | None => (Ok tt, <[p := File DEFAULT_MODE ""]> fs)
    end) nothing.
Definition append_to (p : Path) (data : string) (fs : gmap Path Node) : gmap Path Node :=
  match fs !! p with Some (File mode content) => <[p := File mode (content +:+ data)]> fs | _ => fs end.
Definition write_all (p : Path) (data : string) : FM unit :=
  syscall (λ fs, (Ok tt, append_to p data fs)) (λ n _, append_to p (to_text (take n (to_bytes data)))).
Definition rename (from to : Path) : FM unit :=
  syscall (λ fs,
    match fs !! from, fs !! to with
    | None, _ => (Err NotFound, fs)
    | Some _, Some (Dir _) => (Err OtherIo, fs)
    | Some node, _ => (Ok tt, <[to := node]> (delete from fs))
    end) nothing.
Definition remove_file (p : Path) : FM unit :=
  syscall (λ fs, match fs !! p with Some (File _ _) => (Ok tt, delete p fs) | Some (Dir _) => (Err OtherIo, fs) | None => (Err NotFound, fs) end) nothing.
Definition under (p q : Path) : bool := is_prefix p q.
Definition remove_dir_all (p : Path) : FM unit :=
  syscall (λ fs,
    match fs !! p with
    | None => (Err NotFound, fs)
    | Some (File _ _) => (Err OtherIo, fs)
    | Some (Dir _) => (Ok tt, filter (λ kv, under p kv.1 = false) fs)
    end)
    (λ _ removed fs,
      match fs !! p with Some (Dir _) => filter (λ kv, under p kv.1 = false ∨ kv.1 ∉ removed) fs | _ => fs end).
Definition mkdir (p : Path) : FM unit :=
  syscall (λ fs, match fs !! p with None => (Ok tt, <[p := Dir 493]> fs) | Some (Dir _) => (Ok tt, fs) | Some _ => (Err OtherIo, fs) end) nothing.
(** [create_dir_all]: each ancestor in turn. *)
Fixpoint create_dirs (done : Path) (rest : Path) : FM unit :=
  match rest with
  | [] => ret tt
  | c :: rest => let! _ := mkdir (done ++ [c]) in create_dirs (done ++ [c]) rest
  end.
Definition create_dir_all (p : Path) : FM unit := create_dirs [] p.

(** [match m { Err(e) if e.kind() == NotFound => ..., other => other }]. *)
Definition on_not_found {A} (m : FM A) (k : FM A) : FM A := λ d,
  match m d with (Err NotFound, d) => k d | other => other end.

(** ** Paths *)

Record SessionPaths := {
  sp_data_dir : Path;
  sp_session_file : Path;
  sp_sync_token_file : Path;
  sp_crypto_store_dir : Path;
  sp_crypto_store_key_file : Path;
  sp_lock_file : Path;
}.
(** [join] of one of the daemon's own file names, a single component. *)
Definition child (dir : Path) (name : string) : Path := dir ++ [name].
(** [join] of any string, as the system resolves the path: components between slashes, those that
    are empty or a dot stay where they are, two dots go up, and a leading slash starts anew at
    the root. *)
Definition descend (dir : Path) (component : string) : Path :=
  if (component =s "") || (component =s ".") then dir
  else if component =s ".." then removelast dir
  else dir ++ [component].
Definition join (dir : Path) (name : string) : Path :=
  foldl descend (if starts_with "/" name then [] else dir) (split_on (chr 47) name).
Definition for_data_dir (data_dir : Path) : SessionPaths :=
  {| sp_data_dir := data_dir; sp_session_file := child data_dir "session.json"; sp_sync_token_file := child data_dir "sync_token";
     sp_crypto_store_dir := child data_dir "crypto-store"; sp_crypto_store_key_file := child data_dir "crypto-store-key";
     sp_lock_file := child data_dir ".write.lock" |}.
Definition is_plain_path_component (name : string) : bool :=
  negb (name =s "") && negb (name =s ".") && negb (name =s "..") && negb (str_contains_char (chr 47) name)
  && negb (str_contains_char (chr 92) name) && negb (str_contains_char (chr 0) name).

(** A plain component is joined as one. *)
Lemma split_on_single sep a : str_contains_char sep a = false → split_on sep a = [a].
Proof.
  induction a as [|d a IH]; cbn [str_contains_char split_on]; intros Ha; [done|]. destruct (decide (sep = d)); [done|].
  rewrite decide_False by congruence. by rewrite IH.
Qed.
Lemma join_plain dir name : is_plain_path_component name = true → join dir name = child dir name.
Proof.
  unfold is_plain_path_component. rewrite !andb_true_iff, !negb_true_iff. intros (((((He & Hd) & Hdd) & Hs) & _) & _).
  unfold join. rewrite split_on_single by done. cbn [foldl]. unfold descend. rewrite He, Hd, Hdd. cbn [orb].
  destruct name as [|c name]; [done|]. cbn [str_contains_char] in Hs. destruct (decide (chr 47 = c)) as [|Hne]; [done|].
  assert (starts_with "/" (String c name) = false) as ->; [|done].
  unfold starts_with. cbn [strip_prefix]. by rewrite decide_False.
Qed.

(** Any other may lead out of the directory. *)
Example join_escapes : join ["home"; "data"] "../../etc" = ["etc"] ∧ join ["home"; "data"] "/etc" = ["etc"] ∧ join ["home"; "data"] "" = ["home"; "data"].
Proof. split_and!; reflexivity. Qed.

Definition MODE_0600 : Z := 384.
Definition MODE_0700 : Z := 448.

(** ** Session and tokens *)

(** A [Secret] is its value; what it prints as is [secret_display]. *)
Record StoredSession := {
  ses_homeserver : string;
  ses_user_id : string;
  ses_device_id : string;
  ses_access_token : string;
  ses_refresh_token : option string;
}.
#[export] Instance StoredSession_eq_dec : EqDecision StoredSession.
Proof. solve_decision. Defined.
Class SessionSerde := {
  session_to_vec_pretty : StoredSession → string;
  session_from_slice : string → option StoredSession;
}.
Class SessionSerdeLaws `{SessionSerde} : Prop := {
  session_roundtrip s : session_from_slice (session_to_vec_pretty s) = Some s;
}.
Definition REDACTED : string := "***redacted***".
Definition secret_display (secret : string) : string := REDACTED.
Definition secret_debug (secret : string) : string := "Secret(" +:+ REDACTED +:+ ")".
Record AuthStatus := { au_logged_in : bool; au_homeserver : option string; au_user_id : option string; au_device_id : option string }.
Definition logged_out : AuthStatus := {| au_logged_in := false; au_homeserver := None; au_user_id := None; au_device_id := None |}.
Definition from_session (s : StoredSession) : AuthStatus :=
  {| au_logged_in := true; au_homeserver := Some s.(ses_homeserver); au_user_id := Some s.(ses_user_id); au_device_id := Some s.(ses_device_id) |}.

Section data_dir.
Context `{Crypto} `{SessionSerde}.
Context (paths : SessionPaths).

Definition ensure_data_dir : FM unit :=
  let! there := fs_exists paths.(sp_data_dir) in
  if negb there then
    let! _ := create_dir_all paths.(sp_data_dir) in set_permissions paths.(sp_data_dir) MODE_0700
  else ret tt.
Definition ensure_crypto_store_dir : FM unit :=
  let! _ := ensure_data_dir in
  let! there := fs_exists paths.(sp_crypto_store_dir) in
  if negb there then
    let! _ := create_dir_all paths.(sp_crypto_store_dir) in set_permissions paths.(sp_crypto_store_dir) MODE_0700
  else ret tt.

(** The lock file is opened with mode 0600 when it is new; then [flock]. *)
Definition open_lock : FM unit :=
  syscall (λ fs,
    match fs !! paths.(sp_lock_file) with
    | None => (Ok tt, <[paths.(sp_lock_file) := File MODE_0600 ""]> fs)
    | Some (File _ _) => (Ok tt, fs)
    | Some (Dir _) => (Err OtherIo, fs)
    end) nothing.
Definition flock : FM unit := syscall (λ fs, (Ok tt, fs)) nothing.
Definition with_data_dir_write_lock {A} (f : FM A) : FM A :=
  let! _ := ensure_data_dir in
  let! _ := open_lock in
  let! _ := flock in
  f.

(** Create, restrict, write, flush, rename. *)
Definition write_private (tmp file : Path) (content : string) : FM unit :=
  let! _ := file_create tmp in
  let! _ := set_permissions tmp MODE_0600 in
  let! _ := write_all tmp content in
  rename tmp file.

Definition write_session_file (session : StoredSession) : FM unit :=
  write_private (child paths.(sp_data_dir) "session.json.tmp") paths.(sp_session_file) (session_to_vec_pretty session).
Definition save_session (session : StoredSession) : FM unit := with_data_dir_write_lock (write_session_file session).
Definition load_session : FM (option StoredSession) :=
  on_not_found
    (let! bytes := fs_read paths.(sp_session_file) in
     match session_from_slice bytes with Some s => ret (Some s) | None => fail OtherIo end)
    (ret None).
Definition remove_dir_if_present (dir : Path) : FM unit := on_not_found (remove_dir_all dir) (ret tt).
Definition remove_file_if_present (file : Path) : FM unit := on_not_found (remove_file file) (ret tt).

Definition save_sync_token (token : string) : FM unit :=
  let! _ := ensure_data_dir in
  write_private (child paths.(sp_data_dir) "sync_token.tmp") paths.(sp_sync_token_file) token.
Definition load_sync_token : FM (option string) :=
  on_not_found
    (let! token := read_to_string paths.(sp_sync_token_file) in
     if trim_is_empty token then ret None else ret (Some (trim token)))
    (ret None).
Definition clear_sync_token : FM unit := remove_file_if_present paths.(sp_sync_token_file).

(** What is only logged is left out. *)
Definition persist_login_session (session : StoredSession) : FM unit :=
  with_data_dir_write_lock
    (let! prior := load_session in
     let identity_changed :=
       match prior with
       | Some p => negb (p.(ses_user_id) =s session.(ses_user_id)) || negb (p.(ses_device_id) =s session.(ses_device_id))
       | None => true
       end in
     let! _ := if identity_changed then clear_sync_token else ret tt in
     let! _ :=
       match prior with
       | Some p =>
         if (p.(ses_user_id) =s session.(ses_user_id)) && negb (p.(ses_device_id) =s session.(ses_device_id))
            && is_plain_path_component p.(ses_device_id)
         then remove_dir_if_present (join paths.(sp_data_dir) p.(ses_device_id))
         else ret tt
       | None => ret tt
       end in
     write_session_file session).
(** [if let Ok(Some(session)) = load_session(paths)]: an unreadable session is passed over. *)
Definition clear_session : FM unit :=
  with_data_dir_write_lock
    (let! _ := λ d,
       match load_session d with
       | (Ok (Some session), d) =>
         if is_plain_path_component session.(ses_device_id)
         then remove_dir_if_present (join paths.(sp_data_dir) session.(ses_device_id)) d
         else (Ok tt, d)
       | (_, d) => (Ok tt, d)
       end in
     let! _ := remove_dir_if_present paths.(sp_crypto_store_dir) in
     let! _ := remove_file_if_present paths.(sp_crypto_store_key_file) in
     let! _ := remove_file_if_present paths.(sp_session_file) in
     clear_sync_token).
Definition auth_status : FM AuthStatus :=
  let! session := load_session in
  ret match session with Some s => from_session s | None => logged_out end.

(** ** Keys *)

(** [random]: 32 fresh bytes, or the generator failed. *)
Definition generate_crypto_store_key (random : option string) : FM string :=
  with_data_dir_write_lock (λ d,
    let create : FM string :=
      match random with
      | None => fail OtherIo
      | Some bytes =>
        let key := b64_nopad_encode bytes in
        let! _ := write_private (child paths.(sp_data_dir) "crypto-store-key.tmp") paths.(sp_crypto_store_key_file) key in
        ret key
      end in
    match read_to_string paths.(sp_crypto_store_key_file) d with
    | (Ok contents, d) => if negb (trim_is_empty contents) then (Ok (trim contents), d) else create d
    | (Err NotFound, d) => create d
    | (Err e, d) => (Err e, d)
    end).
Definition load_or_create_crypto_store_key (random : option string) : FM string := λ d,
  match read_to_string paths.(sp_crypto_store_key_file) d with
  | (Ok contents, d) =>
    if trim_is_empty contents then generate_crypto_store_key random d else (Ok (trim contents), d)
  | (Err NotFound, d) => generate_crypto_store_key random d
  | (Err e, d) => (Err e, d)
  end.

Inductive SigningKeyError := KeyIo (e : IoError) | KeyMalformed | KeyRandom.
Definition SECRET_KEY_LENGTH : nat := 32.
Definition signing_key_file : Path := child paths.(sp_data_dir) "signing_key.ed25519".
(** A stored key is its secret bytes; [SigningKey::from_bytes] is injective on them. *)
Definition secret_of (bytes : string) : result string SigningKeyError :=
  if (String.length bytes =? SECRET_KEY_LENGTH)%nat then Ok bytes else Err KeyMalformed.
Definition key_io {A} (m : FM A) : st Disk SigningKeyError A := λ d,
  match m d with (Ok a, d) => (Ok a, d) | (Err e, d) => (Err (KeyIo e), d) end.
Definition generate_and_store (random : option string) : st Disk SigningKeyError string :=
  let! _ := key_io (with_data_dir_write_lock (ret tt)) in
  λ d, match fs_read signing_key_file d with
  | (Ok bytes, d) => (secret_of bytes, d)
  | (Err NotFound, d) =>
    match random with
    | None => (Err KeyRandom, d)
    | Some secret =>
      match write_private (child paths.(sp_data_dir) "signing_key.ed25519.tmp") signing_key_file secret d with
      | (Ok _, d) => (Ok secret, d)
      | (Err e, d) => (Err (KeyIo e), d)
      end
    end
  | (Err e, d) => (Err (KeyIo e), d)
  end.
Definition load_or_create_signing_key (random : option string) : st Disk SigningKeyError string := λ d,
  match fs_read signing_key_file d with
  | (Ok bytes, d) => (secret_of bytes, d)
  | (Err NotFound, d) => generate_and_store random d
  | (Err e, d) => (Err (KeyIo e), d)
  end.
End data_dir.

(** ** Hoare triples over every oracle *)

Definition hoare {A : Type} (P : gmap Path Node → Prop) (m : FM A) (Q : result A IoError → gmap Path Node → Prop) : Prop :=
  ∀ d, P d.(dk_fs) → Q (m d).1 (m d).2.(dk_fs).
(** What holds at every point of a run. *)
Definition keeps {A : Type} (I : gmap Path Node → Prop) (m : FM A) : Prop := hoare I m (λ _, I).

Create HintDb disk.
Section triples.
Context {A B : Type}.
Implicit Types (I P : gmap Path Node → Prop).

Lemma keeps_ret I (x : A) : keeps I (ret x).
Proof. by intros d. Qed.
Lemma keeps_fail I e : keeps I (fail e : FM A).
Proof. by intros d. Qed.
Lemma keeps_bind I (m : FM A) (f : A → FM B) : keeps I m → (∀ x, keeps I (f x)) → keeps I (bind m f).
Proof. intros Hm Hf d Hd. specialize (Hm d Hd). unfold bind. destruct (m d) as [[x|e] d']; simpl in *; [by apply Hf|done]. Qed.
Lemma hoare_bind P (m : FM A) (f : A → FM B) R Q :
  hoare P m R → (∀ x, hoare (R (Ok x)) (f x) Q) → (∀ e fs, R (Err e) fs → Q (Err e) fs) → hoare P (bind m f) Q.
Proof.
  intros Hm Hf He d Hd. specialize (Hm d Hd). unfold bind. destruct (m d) as [[x|e] d']; simpl in *; [by apply Hf|by apply He].
Qed.
Lemma hoare_weaken P P' (m : FM A) (Q Q' : result A IoError → gmap Path Node → Prop) :
  hoare P m Q → (∀ fs, P' fs → P fs) → (∀ r fs, Q r fs → Q' r fs) → hoare P' m Q'.
Proof. intros Hm HP HQ d Hd. by apply HQ, Hm, HP. Qed.
Lemma keeps_on_not_found I (m k : FM A) : keeps I m → keeps I k → keeps I (on_not_found m k).
Proof.
  intros Hm Hk d Hd. specialize (Hm d Hd). unfold on_not_found. destruct (m d) as [[x|[]] d'] eqn:E; simpl in *; [done| |done]. by apply Hk.
Qed.
Lemma keeps_syscall I (go : gmap Path Node → result A IoError * gmap Path Node) partial :
  (∀ fs, I fs → I (go fs).2) → (∀ n removed fs, I fs → I (partial n removed fs)) → keeps I (syscall go partial).
Proof.
  intros Hg Hp [fs calls] Hd. unfold syscall. simpl in *. destruct calls as [|[|n removed] calls]; simpl; [done| |by apply Hp].
  specialize (Hg fs Hd). by destruct (go fs).
Qed.
Lemma hoare_syscall P (go : gmap Path Node → result A IoError * gmap Path Node) partial Q :
  (∀ fs, P fs → Q (go fs).1 (go fs).2) → (∀ fs, P fs → Q (Err OtherIo) fs) →
  (∀ n removed fs, P fs → Q (Err OtherIo) (partial n removed fs)) → hoare P (syscall go partial) Q.
Proof.
  intros Hg Hd' Hp [fs calls] Hd. unfold syscall. simpl in *. destruct calls as [|[|n removed] calls]; simpl; [by apply Hd'| |by apply Hp].
  specialize (Hg fs Hd). by destruct (go fs).
Qed.
End triples.
#[export] Hint Resolve keeps_ret keeps_fail keeps_bind keeps_on_not_found : disk.

(** A call that only looks keeps everything. *)
Lemma keeps_read I p : keeps I (fs_read p).
Proof. apply keeps_syscall; [|done]. intros fs Hfs. by destruct (fs !! p) as [[]|]. Qed.
Lemma keeps_exists I p : keeps I (fs_exists p).
Proof. by intros d. Qed.
Lemma keeps_read_to_string I p : keeps I (read_to_string p).
Proof. apply keeps_bind; [apply keeps_read|]. intros x. destruct (from_utf8_ok _); auto with disk. Qed.
#[export] Hint Resolve keeps_read keeps_exists keeps_read_to_string : disk.

(** ** Atomic, private writes *)

(** What a temporary file may be left as. *)
Definition leftover (content : string) (old new : option Node) : Prop :=
  new = old ∨ (∃ mode, new = Some (File mode "")) ∨ ∃ n, new = Some (File MODE_0600 (to_text (take n (to_bytes content)))).
Definition written (tmp file : Path) (content : string) (fs0 : gmap Path Node) (r : result unit IoError) (fs : gmap Path Node) : Prop :=
  (∀ q, q ≠ tmp → q ≠ file → fs !! q = fs0 !! q) ∧
  match r with
  | Ok _ => fs !! file = Some (File MODE_0600 content) ∧ fs !! tmp = None
  | Err _ => fs !! file = fs0 !! file ∧ leftover content (fs0 !! tmp) (fs !! tmp)
  end.
Lemma to_text_all content : to_text (take (String.length content) (to_bytes content)) = content.
Proof.
  rewrite take_ge; [apply String.string_of_list_ascii_of_string|]. induction content; simpl; lia.
Qed.
Lemma write_private_spec tmp file content fs0 :
  tmp ≠ file → hoare (eq fs0) (write_private tmp file content) (written tmp file content fs0).
Proof.
  intros Hne d ->. unfold write_private, bind, file_create, set_permissions, write_all, rename, append_to, syscall, nothing, written.
  destruct d as [fs calls]. cbn. pose proof (to_text_all content) as Hall.
  destruct calls as [|[|n removed] calls]; cbn; [split; [done|by split; [|left]]| |split; [done|by split; [|left]]].
  assert (∀ fs' : gmap Path Node, (∀ q, q ≠ tmp → fs' !! q = fs !! q) → leftover content (fs !! tmp) (fs' !! tmp) →
    (∀ q, q ≠ tmp → q ≠ file → fs' !! q = fs !! q) ∧ fs' !! file = fs !! file ∧ leftover content (fs !! tmp) (fs' !! tmp)) as Hfail.
  { intros fs' Hq Hl. split_and!; [auto|by apply Hq|done]. }
  assert (∃ mode, (match fs !! tmp with Some (Dir _) => True | _ => False end) ∨
    (match fs !! tmp with Some (Dir _) => (Err OtherIo, fs) | Some (File mode _) => (Ok tt, <[tmp := File mode ""]> fs)
     | None => (Ok tt, <[tmp := File DEFAULT_MODE ""]> fs) end) = (Ok tt, <[tmp := File mode ""]> fs) :> result unit IoError * gmap Path Node) as [mode Hm].
  { destruct (fs !! tmp) as [[mode c|]|]; [exists mode; by right|exists 0; by left|eexists; by right]. }
  destruct Hm as [Hm|Hm].
  { destruct (fs !! tmp) as [[]|] eqn:Et; try done. cbn. apply Hfail; [done|]. left. done. }
  rewrite Hm. cbn. clear Hm.
  assert (∀ (x : Node) q, q ≠ tmp → <[tmp := x]> fs !! q = fs !! q) as Hins by (intros x q Hq; by rewrite lookup_insert_ne).
  assert (leftover content (fs !! tmp) (<[tmp := File mode ""]> fs !! tmp)) as Hl1.
  { right. left. eexists. by rewrite lookup_insert_eq. }
  destruct calls as [|[|n removed] calls]; cbn; [by apply Hfail; auto| |by apply Hfail; auto].
  rewrite lookup_insert_eq. cbn. rewrite insert_insert_eq.
  assert (leftover content (fs !! tmp) (<[tmp := File MODE_0600 ""]> fs !! tmp)) as Hl2.
  { right. left. eexists. by rewrite lookup_insert_eq. }
  destruct calls as [|[|n removed] calls]; cbn; [by apply Hfail; auto| |].
  2: { rewrite lookup_insert_eq, insert_insert_eq. apply Hfail; [auto|]. right. right. exists n. by rewrite lookup_insert_eq. }
  rewrite lookup_insert_eq, insert_insert_eq. cbn.
  assert (leftover content (fs !! tmp) (<[tmp := File MODE_0600 content]> fs !! tmp)) as Hl3.
  { right. right. exists (String.length content). by rewrite lookup_insert_eq, Hall. }
  destruct calls as [|[|n' removed'] calls]; cbn; [by apply Hfail; auto| |by apply Hfail; auto].
  rewrite lookup_insert_eq, (lookup_insert_ne _ tmp file) by done.
  destruct (fs !! file) as [[mode' c'|mode']|] eqn:Ef; cbn.
  - split; [intros q Hq Hq'; by rewrite lookup_insert_ne, lookup_delete_ne, lookup_insert_ne by done|].
    by rewrite lookup_insert_eq, lookup_insert_ne, lookup_delete_eq.
  - apply Hfail; [auto|exact Hl3].
  - split; [intros q Hq Hq'; by rewrite lookup_insert_ne, lookup_delete_ne, lookup_insert_ne by done|].
    by rewrite lookup_insert_eq, lookup_insert_ne, lookup_delete_eq.
Qed.

(** ** Confinement *)

(** Outside the directory nothing changes, but for missing ancestors that are created. *)
Definition untouched (dir : Path) (fs0 fs : gmap Path Node) : Prop :=
  ∀ q, under dir q = false → fs !! q = fs0 !! q ∨ (fs0 !! q = None ∧ under q dir = true ∧ ∃ mode, fs !! q = Some (Dir mode)).

Section confined.
Context (dir : Path) (fs0 : gmap Path Node).

Lemma untouched_step (fs fs' : gmap Path Node) :
  (∀ q, under dir q = false → fs' !! q = fs !! q) → untouched dir fs0 fs → untouched dir fs0 fs'.
Proof. intros Hs Hu q Hq. rewrite (Hs q Hq). by apply Hu. Qed.
Lemma keeps_untouched {A} (go : gmap Path Node → result A IoError * gmap Path Node) partial :
  (∀ fs q, under dir q = false → (go fs).2 !! q = fs !! q) →
  (∀ n removed fs q, under dir q = false → partial n removed fs !! q = fs !! q) →
  keeps (untouched dir fs0) (syscall go partial).
Proof.
  intros Hg Hp. apply keeps_syscall; [intros fs Hfs|intros n removed fs Hfs]; (eapply untouched_step; [|exact Hfs]); auto.
Qed.
Lemma not_under p q : under dir p = true → under dir q = false → q ≠ p.
Proof. intros Hp Hq ->. congruence. Qed.
Lemma under_trans p q : under dir p = true → under p q = true → under dir q = true.
Proof. unfold under. rewrite !is_prefix_spec. intros [a ->] [b ->]. exists (a ++ b). by rewrite app_assoc. Qed.

Lemma confined_set_permissions p mode : under dir p = true → keeps (untouched dir fs0) (set_permissions p mode).
Proof.
  intros Hp. apply keeps_untouched; [|done]. intros fs q Hq. pose proof (not_under p q Hp Hq).
  destruct (fs !! p); simpl; [by rewrite lookup_insert_ne|done].
Qed.
Lemma confined_file_create p : under dir p = true → keeps (untouched dir fs0) (file_create p).
Proof.
  intros Hp. apply keeps_untouched; [|done]. intros fs q Hq. pose proof (not_under p q Hp Hq).
  destruct (fs !! p) as [[]|]; simpl; [by rewrite lookup_insert_ne|done|by rewrite lookup_insert_ne].
Qed.
Lemma confined_append p data fs q : under dir p = true → under dir q = false → append_to p data fs !! q = fs !! q.
Proof.
  intros Hp Hq. pose proof (not_under p q Hp Hq). unfold append_to. destruct (fs !! p) as [[]|]; [by rewrite lookup_insert_ne|done..].
Qed.
Lemma confined_write_all p data : under dir p = true → keeps (untouched dir fs0) (write_all p data).
Proof. intros Hp. apply keeps_untouched; intros; by apply confined_append. Qed.
Lemma confined_rename a b : under dir a = true → under dir b = true → keeps (untouched dir fs0) (rename a b).
Proof.
  intros Ha Hb. apply keeps_untouched; [|done]. intros fs q Hq. pose proof (not_under a q Ha Hq). pose proof (not_under b q Hb Hq).
  destruct (fs !! a), (fs !! b) as [[]|]; simpl; try done; by rewrite lookup_insert_ne, lookup_delete_ne.
Qed.
Lemma confined_remove_file p : under dir p = true → keeps (untouched dir fs0) (remove_file p).
Proof.
  intros Hp. apply keeps_untouched; [|done]. intros fs q Hq. pose proof (not_under p q Hp Hq).
  destruct (fs !! p) as [[]|]; simpl; [by rewrite lookup_delete_ne|done..].
Qed.
Lemma filter_lookup_other (P : Path * Node → Prop) `{∀ x, Decision (P x)} (fs : gmap Path Node) q :
  (∀ node, P (q, node)) → filter P fs !! q = fs !! q.
Proof.
  intros HP. destruct (fs !! q) as [node|] eqn:E; [apply map_lookup_filter_Some; auto|]. apply map_lookup_filter_None. by left.
Qed.
Lemma confined_remove_dir_all p : under dir p = true → keeps (untouched dir fs0) (remove_dir_all p).
Proof.
  intros Hp. assert (∀ q, under dir q = false → under p q = false) as Hout.
  { intros q Hq. apply not_true_iff_false. intros Hu. rewrite (under_trans p q Hp Hu) in Hq. done. }
  apply keeps_untouched; [intros fs q Hq|intros n removed fs q Hq].
  - destruct (fs !! p) as [[]|]; simpl; [done| |done]. apply filter_lookup_other. intros node. by apply Hout.
  - destruct (fs !! p) as [[]|]; [done| |done]. apply filter_lookup_other. intros node. left. by apply Hout.
Qed.
Lemma confined_mkdir p : under dir p = true ∨ under p dir = true → keeps (untouched dir fs0) (mkdir p).
Proof.
  intros Hp. apply keeps_syscall; [|done]. intros fs Hfs. destruct (fs !! p) as [[]|] eqn:Ep; simpl; [done..|].
  intros q Hq. destruct (decide (q = p)) as [->|Hne]; [|rewrite lookup_insert_ne by done; by apply Hfs].
  right. rewrite lookup_insert_eq. destruct Hp as [Hp|Hp]; [congruence|]. split_and!; [|done|by eexists].
  destruct (Hfs p Hq) as [Hs|(? & _ & ?)]; [congruence|done].
Qed.
Lemma confined_create_dirs rest : ∀ prefix, (∀ p, is_prefix p (prefix ++ rest) = true → under dir p = true ∨ under p dir = true) →
  keeps (untouched dir fs0) (create_dirs prefix rest).
Proof.
  induction rest as [|c rest IH]; intros prefix Hp; simpl; [apply keeps_ret|]. apply keeps_bind.
  - apply confined_mkdir, Hp, is_prefix_spec. exists rest. by rewrite <- app_assoc.
  - intros _. apply IH. by rewrite <- app_assoc.
Qed.
Lemma confined_create_dir_all p : under dir p = true → keeps (untouched dir fs0) (create_dir_all p).
Proof.
  intros Hp. apply confined_create_dirs. simpl. intros q Hq. unfold under in *. rewrite !is_prefix_spec in *.
  destruct Hp as [a ->], Hq as [b Hb]. apply app_eq_inv in Hb as [(k & -> & _)|(k & -> & _)]; [right|left]; by exists k.
Qed.
Lemma confined_write_private tmp file content :
  under dir tmp = true → under dir file = true → keeps (untouched dir fs0) (write_private tmp file content).
Proof.
  intros Ht Hf. unfold write_private. repeat (apply keeps_bind; [|intros _]);
    auto using confined_file_create, confined_set_permissions, confined_write_all, confined_rename.
Qed.
End confined.
#[export] Hint Resolve confined_set_permissions confined_file_create confined_write_all confined_rename confined_remove_file
  confined_remove_dir_all confined_create_dir_all confined_write_private : disk.

(** ** The operations stay inside the directory *)

Lemma under_join dir name : under dir (child dir name) = true.
Proof. apply is_prefix_spec. by exists [name]. Qed.
Lemma under_refl dir : under dir dir = true.
Proof. by apply is_prefix_spec. Qed.
#[export] Hint Resolve under_join under_refl : disk.

(** Any of the operations that change the directory. *)
Inductive DataOp :=
| OpSaveSession (session : StoredSession)
| OpLogin (session : StoredSession)
| OpLogout
| OpSaveToken (token : string)
| OpStoreKey (random : option string)
| OpSigningKey (random : option string).

Section operations.
Context `{Crypto} `{SessionSerde} (dir : Path).
Let paths := for_data_dir dir.

(** An operation, as what it leaves on the disk. *)
Definition run_op (op : DataOp) (d : Disk) : Disk :=
  match op with
  | OpSaveSession s => (save_session paths s d).2
  | OpLogin s => (persist_login_session paths s d).2
  | OpLogout => (clear_session paths d).2
  | OpSaveToken t => (save_sync_token paths t d).2
  | OpStoreKey r => (load_or_create_crypto_store_key paths r d).2
  | OpSigningKey r => (load_or_create_signing_key paths r d).2
  end.
(** An invariant of every step of the operations. *)
Definition stable (I : gmap Path Node → Prop) : Prop := ∀ op d, I d.(dk_fs) → I (run_op op d).(dk_fs).

(** What suffices for an invariant to be stable: the system calls the operations make. *)
Record closed (I : gmap Path Node → Prop) : Prop := {
  cl_mkdirs : keeps I (create_dir_all dir);
  cl_chmod : keeps I (set_permissions dir MODE_0700);
  cl_lock : keeps I (open_lock paths);
  cl_write : ∀ name content, name ∈ ["session.json"; "sync_token"; "crypto-store-key"; "signing_key.ed25519"] →
    keeps I (write_private (child dir (name +:+ ".tmp")) (child dir name) content);
  cl_remove : ∀ name, name ∈ ["session.json"; "sync_token"; "crypto-store-key"] → keeps I (remove_file (child dir name));
  cl_remove_dir : ∀ name, is_plain_path_component name = true → keeps I (remove_dir_all (join dir name));
}.
Context (I : gmap Path Node → Prop) (HI : closed I).

Lemma keeps_ensure : keeps I (ensure_data_dir paths).
Proof.
  unfold ensure_data_dir. apply keeps_bind; [auto with disk|]. intros there. destruct (negb there); [|auto with disk].
  apply keeps_bind; [apply (cl_mkdirs I HI)|intros _; apply (cl_chmod I HI)].
Qed.
Lemma keeps_locked {A} (f : FM A) : keeps I f → keeps I (with_data_dir_write_lock paths f).
Proof.
  intros Hf. unfold with_data_dir_write_lock. apply keeps_bind; [apply keeps_ensure|intros _]. apply keeps_bind; [apply (cl_lock I HI)|intros _].
  apply keeps_bind; [by apply keeps_syscall|by intros _].
Qed.
Lemma keeps_load_session : keeps I (load_session paths).
Proof.
  apply keeps_on_not_found; [|auto with disk]. apply keeps_bind; [auto with disk|]. intros bytes. destruct (session_from_slice bytes); auto with disk.
Qed.
Lemma keeps_write_session s : keeps I (write_session_file paths s).
Proof. apply (cl_write I HI "session.json"). left. Qed.
Lemma keeps_clear_token : keeps I (clear_sync_token paths).
Proof. apply keeps_on_not_found; [|auto with disk]. apply (cl_remove I HI "sync_token"). right. left. Qed.
Lemma keeps_remove_device name : is_plain_path_component name = true → keeps I (remove_dir_if_present (join dir name)).
Proof. intros Hn. apply keeps_on_not_found; [by apply (cl_remove_dir I HI)|auto with disk]. Qed.

Lemma keeps_persist s : keeps I (persist_login_session paths s).
Proof.
  apply keeps_locked. apply keeps_bind; [apply keeps_load_session|]. intros prior. apply keeps_bind.
  { destruct (match prior with Some _ => _ | None => _ end); [apply keeps_clear_token|auto with disk]. }
  intros _. apply keeps_bind; [|intros _; apply keeps_write_session].
  destruct prior as [p|]; [|auto with disk]. destruct (is_plain_path_component (ses_device_id p)) eqn:Ep; [|rewrite andb_false_r; auto with disk].
  destruct (_ && _ && _); [by apply keeps_remove_device|auto with disk].
Qed.
Lemma keeps_clear_session : keeps I (clear_session paths).
Proof.
  apply keeps_locked. apply keeps_bind.
  - intros d Hd. pose proof (keeps_load_session d Hd) as Hl. destruct (load_session paths d) as [[[s|]|e] d1]; simpl in *; [|done..].
    destruct (is_plain_path_component (ses_device_id s)) eqn:Ep; [|done]. by apply keeps_remove_device.
  - intros _. apply keeps_bind; [apply (keeps_remove_device "crypto-store"); reflexivity|intros _].
    apply keeps_bind; [apply keeps_on_not_found; [|auto with disk]; apply (cl_remove I HI "crypto-store-key"); do 2 right; left|intros _].
    apply keeps_bind; [apply keeps_on_not_found; [|auto with disk]; apply (cl_remove I HI "session.json"); left|intros _; apply keeps_clear_token].
Qed.
Lemma keeps_store_key random : keeps I (load_or_create_crypto_store_key paths random).
Proof.
  assert (keeps I (generate_crypto_store_key paths random)) as Hg.
  { apply keeps_locked. intros d Hd.
    pose proof (keeps_read_to_string I (sp_crypto_store_key_file paths) d Hd) as Hr.
    assert (keeps I (match random with None => fail OtherIo | Some bytes => let key := b64_nopad_encode bytes in
      let! _ := write_private (child (sp_data_dir paths) "crypto-store-key.tmp") (sp_crypto_store_key_file paths) key in ret key end)) as Hc.
    { destruct random; [|auto with disk]. apply keeps_bind; [|auto with disk]. apply (cl_write I HI "crypto-store-key"). do 2 right. left. }
    destruct (read_to_string _ d) as [[c|[]] d1]; simpl in *; [|by apply Hc|done]. destruct (negb _); [done|by apply Hc]. }
  intros d Hd. pose proof (keeps_read_to_string I (sp_crypto_store_key_file paths) d Hd) as Hr. unfold load_or_create_crypto_store_key.
  destruct (read_to_string _ d) as [[c|[]] d1]; simpl in *; [|by apply Hg|done]. destruct (trim_is_empty c); [by apply Hg|done].
Qed.
Lemma keeps_signing_key random d : I d.(dk_fs) → I (load_or_create_signing_key paths random d).2.(dk_fs).
Proof.
  intros Hd. unfold load_or_create_signing_key. pose proof (keeps_read I (signing_key_file paths) d Hd) as Hr.
  destruct (fs_read _ d) as [[c|[]] d1]; simpl in *; [done| |done]. unfold generate_and_store, bind, key_io.
  pose proof (keeps_locked (ret tt) (keeps_ret I tt) d1 Hr) as Hl.
  destruct (with_data_dir_write_lock paths (ret tt) d1) as [[[]|e] d2]; simpl in *; [|done].
  pose proof (keeps_read I (signing_key_file paths) d2 Hl) as Hr2.
  destruct (fs_read _ d2) as [[c|[]] d3]; simpl in *; [done| |done]. destruct random as [secret|]; [|done].
  pose proof (cl_write I HI "signing_key.ed25519" secret ltac:(do 3 right; left) d3 Hr2) as Hw. cbn in Hw.
  unfold signing_key_file, child in *. cbn [sp_data_dir for_data_dir paths] in *.
  destruct (write_private _ _ secret d3) as [[[]|e] d4]; done.
Qed.
Lemma closed_stable : stable I.
Proof.
  intros [s|s| |t|r|r] d Hd; simpl.
  - apply (keeps_locked (write_session_file paths s) (keeps_write_session s) d Hd).
  - by apply keeps_persist.
  - by apply keeps_clear_session.
  - refine (keeps_bind I _ _ keeps_ensure _ d Hd). intros _. apply (cl_write I HI "sync_token"). right. left.
  - by apply keeps_store_key.
  - by apply keeps_signing_key.
Qed.
End operations.

(** ** Secrets are private at every moment *)

Definition stored_names : list string := ["session.json"; "sync_token"; "crypto-store-key"; "signing_key.ed25519"].
Definition secret_path (dir p : Path) : Prop := ∃ name, name ∈ stored_names ∧ (p = child dir name ∨ p = child dir (name +:+ ".tmp")).
(** A file that may hold a secret is empty or readable by its owner only. *)
Definition private_node (node : option Node) : Prop :=
  match node with Some (File mode content) => content = "" ∨ mode = MODE_0600 | _ => True end.
Definition all_private (dir : Path) (fs : gmap Path Node) : Prop := ∀ p, secret_path dir p → private_node (fs !! p).

Lemma join_inj dir a b : child dir a = child dir b → a = b.
Proof. unfold child. intros Hj. apply app_inv_head in Hj. congruence. Qed.
Lemma join_ne_dir dir a : child dir a ≠ dir.
Proof. unfold child. intros Hj. apply (f_equal length) in Hj. rewrite length_app in Hj. simpl in Hj. lia. Qed.
Lemma stored_not_tmp a b : a ∈ stored_names → b ∈ stored_names → a ≠ b +:+ ".tmp".
Proof. unfold stored_names. rewrite !elem_of_cons, !elem_of_nil. intros. destruct_or!; subst; try done; vm_compute; intros [=]. Qed.
Lemma secret_not_lock dir : ¬ secret_path dir (child dir ".write.lock").
Proof.
  intros (name & Hn & [Hj|Hj]); apply join_inj in Hj; unfold stored_names in Hn; rewrite !elem_of_cons, elem_of_nil in Hn; destruct_or!; subst; vm_compute in Hj; done.
Qed.
Lemma secret_not_dir dir p : secret_path dir p → p ≠ dir.
Proof. intros (name & _ & [-> | ->]); apply join_ne_dir. Qed.

Lemma private_filter (P : Path * Node → Prop) `{∀ x, Decision (P x)} (fs : gmap Path Node) q :
  private_node (fs !! q) → private_node (filter P fs !! q).
Proof.
  intros Hp. destruct (filter P fs !! q) as [node|] eqn:E; [|done]. apply map_lookup_filter_Some in E as [E _]. by rewrite E in Hp.
Qed.
Lemma private_delete (fs : gmap Path Node) p q : private_node (fs !! q) → private_node (delete p fs !! q).
Proof. intros Hp. destruct (decide (p = q)) as [->|]; [by rewrite lookup_delete_eq|by rewrite lookup_delete_ne]. Qed.
Lemma keeps_private_mkdir dir p : keeps (all_private dir) (mkdir p).
Proof.
  apply keeps_syscall; [|done]. intros fs Hfs q Hq. destruct (fs !! p) as [[]|]; simpl; [by apply Hfs..|].
  destruct (decide (p = q)) as [->|]; [by rewrite lookup_insert_eq|rewrite lookup_insert_ne by done; by apply Hfs].
Qed.
Lemma keeps_private_dirs dir rest : ∀ prefix, keeps (all_private dir) (create_dirs prefix rest).
Proof. induction rest; intros prefix; simpl; [apply keeps_ret|]. apply keeps_bind; [apply keeps_private_mkdir|auto]. Qed.
Lemma private_prefix content old new : private_node old → leftover content old new → private_node new.
Proof. intros Ho [-> |[[mode ->]|[n ->]]]; [done|by left|by right]. Qed.
Lemma closed_private dir : closed dir (all_private dir).
Proof.
  split.
  - apply keeps_private_dirs.
  - apply keeps_syscall; [|done]. intros fs Hfs q Hq. pose proof (secret_not_dir _ _ Hq). destruct (fs !! dir); simpl; [|by apply Hfs].
    rewrite lookup_insert_ne by done. by apply Hfs.
  - apply keeps_syscall; [|done]. intros fs Hfs q Hq. cbn [sp_lock_file for_data_dir].
    destruct (fs !! child dir ".write.lock") as [[]|]; simpl; [by apply Hfs..|]. rewrite lookup_insert_ne; [by apply Hfs|].
    intros <-. by apply secret_not_lock in Hq.
  - intros name content Hn d Hd. assert (child dir (name +:+ ".tmp") ≠ child dir name) as Hne.
    { intros E%join_inj. by apply (stored_not_tmp name name Hn Hn). }
    destruct (write_private_spec _ _ content _ Hne d eq_refl) as [Hother Hr]. intros q Hq.
    destruct (decide (q = child dir (name +:+ ".tmp"))) as [->|Ht]; [|destruct (decide (q = child dir name)) as [->|Hf];
      [|by rewrite Hother by done; apply Hd]].
    + destruct (write_private _ _ content d).1; [by rewrite (proj2 Hr)|]. eapply private_prefix; [by apply Hd|exact (proj2 Hr)].
    + destruct (write_private _ _ content d).1; [by rewrite (proj1 Hr); right|]. rewrite (proj1 Hr). by apply Hd.
  - intros name _. apply keeps_syscall; [|done]. intros fs Hfs q Hq. destruct (fs !! child dir name) as [[]|]; simpl; [apply private_delete|..]; by apply Hfs.
  - intros name Hn. rewrite (join_plain dir name Hn). apply keeps_syscall; [intros fs Hfs q Hq|intros n removed fs Hfs q Hq; destruct (fs !! child dir name) as [[]|]; [|apply private_filter|]; by apply Hfs].
    destruct (fs !! child dir name) as [[]|]; simpl; [by apply Hfs|apply private_filter|]; by apply Hfs.
Qed.
Lemma closed_untouched dir fs0 : closed dir (untouched dir fs0).
Proof.
  split; intros; rewrite ?join_plain by done; eauto with disk.
  - apply keeps_untouched; [|done]. intros fs q Hq. pose proof (not_under dir (child dir ".write.lock") q (under_join _ _) Hq).
    cbn [sp_lock_file for_data_dir]. destruct (fs !! child dir ".write.lock") as [[]|]; simpl; [done..|by rewrite lookup_insert_ne].
Qed.

(** A history: operations one after the other, each with its own oracle, so that each may
    have failed or died anywhere. *)
Definition run_ops `{Crypto} `{SessionSerde} (dir : Path) (history : list (DataOp * list Call)) (fs : gmap Path Node) : gmap Path Node :=
  foldl (λ fs '(op, calls), (run_op dir op {| dk_fs := fs; dk_calls := calls |}).(dk_fs)) fs history.


(** ** Logging in and out *)

Section login.
Context `{Crypto} `{SessionSerde} (dir : Path).
Implicit Types fs : gmap Path Node.
Let paths := for_data_dir dir.

(** Equal but for the directory, its ancestors and the lock file. *)
Definition same_files (fs0 fs : gmap Path Node) : Prop :=
  ∀ q, under q dir = false → q ≠ child dir ".write.lock" → fs !! q = fs0 !! q.
Lemma same_mkdir fs0 p : under p dir = true → keeps (same_files fs0) (mkdir p).
Proof.
  intros Hp. apply keeps_syscall; [|done]. intros fs Hfs q Hq Hl. destruct (fs !! p) as [[]|]; simpl; [by apply Hfs..|].
  rewrite lookup_insert_ne; [by apply Hfs|]. intros ->. congruence.
Qed.
Lemma same_dirs fs0 rest : ∀ prefix, (∀ p, is_prefix p (prefix ++ rest) = true → under p dir = true) → keeps (same_files fs0) (create_dirs prefix rest).
Proof.
  induction rest as [|c rest IH]; intros prefix Hp; simpl; [apply keeps_ret|]. apply keeps_bind.
  - apply same_mkdir, Hp, is_prefix_spec. exists rest. by rewrite <- app_assoc.
  - intros _. apply IH. by rewrite <- app_assoc.
Qed.
Lemma same_ensure fs0 : keeps (same_files fs0) (ensure_data_dir paths).
Proof.
  unfold ensure_data_dir. apply keeps_bind; [auto with disk|]. intros there. destruct (negb there); [|auto with disk].
  apply keeps_bind; [by apply same_dirs|intros _]. apply keeps_syscall; [|done]. intros fs Hfs q Hq Hl.
  destruct (fs !! sp_data_dir paths); simpl; [|by apply Hfs]. rewrite lookup_insert_ne; [by apply Hfs|]. intros <-. cbn in Hq. by rewrite under_refl in Hq.
Qed.
Lemma hoare_locked {A} fs0 (f : FM A) (Q : result A IoError → gmap Path Node → Prop) :
  (∀ fs, same_files fs0 fs → hoare (eq fs) f Q) → (∀ e fs, same_files fs0 fs → Q (Err e) fs) →
  hoare (eq fs0) (with_data_dir_write_lock paths f) Q.
Proof.
  intros Hf He. unfold with_data_dir_write_lock.
  assert (∀ fs, eq fs0 fs → same_files fs0 fs) as Hrefl by by intros fs <-.
  eapply hoare_bind with (R := λ _, same_files fs0); [eapply hoare_weaken; [apply same_ensure|done|done]|intros _|done].
  eapply hoare_bind with (R := λ _, same_files fs0); [|intros _|done].
  { apply keeps_syscall; [|done]. intros fs Hfs q Hq Hl. cbn [sp_lock_file for_data_dir paths].
    destruct (fs !! child dir ".write.lock") as [[]|]; simpl; [by apply Hfs..|]. rewrite lookup_insert_ne by done. by apply Hfs. }
  eapply hoare_bind with (R := λ _, same_files fs0); [by apply keeps_syscall|intros _|done].
  intros d Hd. by apply (Hf _ Hd).
Qed.

Definition stored_session (fs : gmap Path Node) : option StoredSession :=
  match fs !! child dir "session.json" with Some (File _ content) => session_from_slice content | _ => None end.
Lemma load_session_spec fs :
  hoare (eq fs) (load_session paths) (λ r fs', fs' = fs ∧
    match r with
    | Ok (Some p) => stored_session fs = Some p
    | Ok None => fs !! child dir "session.json" = None
    | Err _ => True
    end).
Proof.
  intros [? calls] [= <-]. unfold load_session, on_not_found, bind, fs_read, syscall, stored_session. cbn.
  destruct calls as [|[|n removed] calls]; cbn; [done| |done].
  destruct (fs !! child dir "session.json") as [[mode c|]|] eqn:E; cbn; [|done..].
  destruct (session_from_slice c) eqn:Es; cbn; done.
Qed.
Lemma remove_if_present_spec p fs :
  hoare (eq fs) (remove_file_if_present p) (λ r fs', (∀ q, q ≠ p → fs' !! q = fs !! q) ∧ match r with Ok _ => fs' !! p = None | Err _ => True end).
Proof.
  intros [? calls] [= <-]. unfold remove_file_if_present, on_not_found, remove_file, syscall. cbn.
  destruct calls as [|[|n removed] calls]; cbn; [done| |done].
  destruct (fs !! p) as [[mode c|]|] eqn:E; cbn; [|done..]. rewrite lookup_delete_eq. split; [|done]. intros q Hq. by rewrite lookup_delete_ne.
Qed.
Lemma remove_dir_if_present_spec p fs :
  hoare (eq fs) (remove_dir_if_present p) (λ r fs', (∀ q, under p q = false → fs' !! q = fs !! q) ∧ (∀ q, fs !! q = None → fs' !! q = None) ∧
    ((∀ mode, fs !! p ≠ Some (Dir mode)) → fs' = fs) ∧
    match r with Ok _ => fs' !! p = None ∧ (∀ q, under p q = true → fs !! p ≠ None → fs' !! q = None) | Err _ => True end).
Proof.
  intros [? calls] [= <-]. unfold remove_dir_if_present, on_not_found, remove_dir_all, syscall. cbn.
  assert (∀ (P : Path * Node → Prop) `{∀ x, Decision (P x)} q, fs !! q = None → filter P fs !! q = None) as Hnone.
  { intros P ? q Hq. apply map_lookup_filter_None. by left. }
  destruct calls as [|[|n removed] calls]; cbn; [done| |]; destruct (fs !! p) as [[mode c|mode]|] eqn:E; cbn; try done.
  - split_and!; [intros q Hq; by apply filter_lookup_other|intros q Hq; by apply Hnone|intros Hd; by destruct (Hd mode)|..].
    + apply map_lookup_filter_None. right. intros node _. cbn. by rewrite under_refl.
    + intros q Hq _. apply map_lookup_filter_None. right. intros node _. cbn. by rewrite Hq.
  - split_and!; [intros q Hq; apply filter_lookup_other; intros node; by left|intros q Hq; by apply Hnone|intros Hd; by destruct (Hd mode)|done].
Qed.

Definition identity_changed (prior : option StoredSession) (s : StoredSession) : Prop :=
  match prior with Some p => p.(ses_user_id) ≠ s.(ses_user_id) ∨ p.(ses_device_id) ≠ s.(ses_device_id) | None => True end.
(** Entries inside a subdirectory of the data directory. *)
Definition inside (name : string) (rest : Path) : Path := dir ++ name :: rest.
(** [name] is the device the login replaces. *)
Definition superseded (prior : option StoredSession) (s : StoredSession) (name : string) : Prop :=
  ∃ p, prior = Some p ∧ p.(ses_user_id) = s.(ses_user_id) ∧ p.(ses_device_id) = name ∧ name ≠ s.(ses_device_id).
Definition login_outcome (s : StoredSession) (fs0 : gmap Path Node) (r : result unit IoError) (fs : gmap Path Node) : Prop :=
  (∀ name rest, rest ≠ [] → ¬ superseded (stored_session fs0) s name → fs !! inside name rest = fs0 !! inside name rest) ∧
  match r with
  | Err _ => fs !! child dir "session.json" = fs0 !! child dir "session.json"
  | Ok _ => fs !! child dir "session.json" = Some (File MODE_0600 (session_to_vec_pretty s)) ∧
      (identity_changed (stored_session fs0) s → fs !! child dir "sync_token" = None) ∧
      (¬ identity_changed (stored_session fs0) s → fs !! child dir "sync_token" = fs0 !! child dir "sync_token")
  end.

Lemma under_name a b rest : under (child dir a) (inside b rest) = true → a = b.
Proof.
  unfold under, child, inside. rewrite is_prefix_spec. intros [k Hk]. rewrite <- app_assoc in Hk. apply app_inv_head in Hk. by injection Hk.
Qed.
Lemma inside_file name : inside name [] = child dir name.
Proof. done. Qed.
Lemma inside_not_file name rest other : rest ≠ [] → inside name rest ≠ child dir other.
Proof. unfold inside, child. intros Hr E. apply app_inv_head in E. injection E as _ E. done. Qed.
Lemma inside_not_above name rest : under (inside name rest) dir = false.
Proof.
  apply not_true_iff_false. unfold under, inside. rewrite is_prefix_spec. intros [k Hk]. apply (f_equal length) in Hk.
  rewrite !length_app in Hk. simpl in Hk. lia.
Qed.
Lemma same_inside fs0 fs name rest : same_files fs0 fs → (rest ≠ [] ∨ name ≠ ".write.lock") → fs !! inside name rest = fs0 !! inside name rest.
Proof.
  intros Hs Hr. apply Hs; [apply inside_not_above|]. destruct Hr as [Hr|Hn]; [by apply inside_not_file|].
  unfold inside, child. intros E. apply app_inv_head in E. congruence.
Qed.
Lemma same_stored fs0 fs : same_files fs0 fs → stored_session fs = stored_session fs0.
Proof. intros Hs. unfold stored_session. by rewrite <- inside_file, (same_inside fs0 fs "session.json" [] Hs) by by right. Qed.
Lemma outcome_same s fs0 fs1 r fs : same_files fs0 fs1 → login_outcome s fs1 r fs → login_outcome s fs0 r fs.
Proof.
  intros Hs [Hi Hr]. unfold login_outcome. rewrite <- (same_stored fs0 fs1 Hs). split.
  - intros name rest Hne Hsup. rewrite (Hi name rest Hne Hsup). apply same_inside; auto.
  - pose proof (same_inside fs0 fs1 "session.json" [] Hs ltac:(by right)) as E1. pose proof (same_inside fs0 fs1 "sync_token" [] Hs ltac:(by right)) as E2.
    rewrite !inside_file in E1, E2. by rewrite <- E1, <- E2.
Qed.

Lemma identity_changed_bool prior s :
  (match prior with
   | Some p => negb (p.(ses_user_id) =s s.(ses_user_id)) || negb (p.(ses_device_id) =s s.(ses_device_id))
   | None => true
   end) = true ↔ identity_changed prior s.
Proof. destruct prior as [p|]; [|done]. simpl. by rewrite orb_true_iff, !negb_true_iff, !str_eqb_neq. Qed.
(** The state between the removal of the token and the new session file. *)
Definition cleared (s : StoredSession) (fs1 : gmap Path Node) (r : result unit IoError) (fs : gmap Path Node) : Prop :=
  (∀ name rest, rest ≠ [] → ¬ superseded (stored_session fs1) s name → fs !! inside name rest = fs1 !! inside name rest) ∧
  fs !! child dir "session.json" = fs1 !! child dir "session.json" ∧
  match r with
  | Ok _ => (identity_changed (stored_session fs1) s → fs !! child dir "sync_token" = None) ∧
      (¬ identity_changed (stored_session fs1) s → fs !! child dir "sync_token" = fs1 !! child dir "sync_token")
  | Err _ => True
  end.
Lemma clear_token_cleared s fs1 changed :
  (changed = true ↔ identity_changed (stored_session fs1) s) →
  hoare (eq fs1) (if changed then clear_sync_token paths else ret tt) (cleared s fs1).
Proof.
  intros Hch. destruct changed.
  - eapply hoare_weaken; [apply remove_if_present_spec|done|]. intros r fs [Ho Hr]. split_and!.
    + intros name rest Hne _. apply Ho. by apply inside_not_file.
    + apply Ho. intros E%join_inj. done.
    + destruct r; [|done]. split; [done|]. intros Hn. by destruct Hn; apply Hch.
  - intros d Hd. subst fs1. split_and!; [done..|]. split; [|done]. intros Hc%Hch. done.
Qed.
Lemma remove_device_cleared s fs1 p :
  stored_session fs1 = Some p → p.(ses_user_id) = s.(ses_user_id) → p.(ses_device_id) ≠ s.(ses_device_id) →
  hoare (cleared s fs1 (Ok tt)) (remove_dir_if_present (child dir p.(ses_device_id))) (cleared s fs1).
Proof.
  intros Hp Hu Hd d (Hi & Hs & Ht & _). destruct (remove_dir_if_present_spec (child dir (ses_device_id p)) _ d eq_refl) as (Ho & Hn & Hfile & _).
  set (fs := dk_fs d) in *. set (res := remove_dir_if_present _ d) in *. clearbody res. split_and!.
  - intros name rest Hne Hsup. rewrite <- (Hi name rest Hne Hsup). apply Ho, not_true_iff_false. intros E%under_name.
    apply Hsup. exists p. split_and!; [done..|]. by rewrite <- E.
  - rewrite <- Hs. destruct (decide (ses_device_id p = "session.json")) as [E|Hne].
    + rewrite Hfile; [done|]. intros mode. rewrite E, Hs. unfold stored_session in Hp. by destruct (fs1 !! _) as [[]|].
    + apply Ho, not_true_iff_false. rewrite <- (inside_file "session.json"). intros E%under_name. done.
  - assert (identity_changed (stored_session fs1) s) as Hc by (rewrite Hp; by right).
    destruct res.1; [|done]. split; [intros _; apply Hn; by apply Ht|done].
Qed.
Lemma write_session_outcome s fs1 : hoare (cleared s fs1 (Ok tt)) (write_session_file paths s) (login_outcome s fs1).
Proof.
  intros d (Hi & Hs & Ht & Hk).
  destruct (write_private_spec (child dir "session.json.tmp") (child dir "session.json") (session_to_vec_pretty s) _
    ltac:(intros E%join_inj; done) d eq_refl) as [Ho Hr].
  change (write_private _ _ _ d) with (write_session_file paths s d) in *. set (res := write_session_file paths s d) in *. clearbody res.
  assert (res.2.(dk_fs) !! child dir "sync_token" = d.(dk_fs) !! child dir "sync_token") as Htok by (apply Ho; intros E%join_inj; done).
  split.
  - intros name rest Hne Hsup. rewrite <- (Hi name rest Hne Hsup). apply Ho; by apply inside_not_file.
  - destruct res.1; [|by rewrite (proj1 Hr)]. rewrite Htok. by split_and!; [apply Hr|..].
Qed.

Lemma login_steps s d :
  login_outcome s d.(dk_fs) (persist_login_session paths s d).1 (persist_login_session paths s d).2.(dk_fs).
Proof.
  revert d. enough (∀ fs0, hoare (eq fs0) (persist_login_session paths s) (login_outcome s fs0)) as Hh by (intros d; by apply Hh).
  intros fs0. apply hoare_locked.
  2: { intros e fs Hs. apply (outcome_same s fs0 fs _ _ Hs). by split. }
  intros fs1 Hsame. eapply hoare_weaken; [|done|intros r fs Ho; by apply (outcome_same s fs0 fs1 _ _ Hsame)].
  eapply hoare_bind; [apply load_session_spec|..].
  2: { intros e fs [-> _]. by split. }
  intros prior d [Hd Hp]. symmetry in Hd.
  assert (prior = stored_session fs1) as ->.
  { destruct prior; [done|]. unfold stored_session. by rewrite Hp. }
  clear Hp. revert d Hd. eapply hoare_bind; [apply clear_token_cleared, identity_changed_bool|intros []|by intros e fs (Hi & Hs & _)].
  eapply hoare_bind; [|intros []; apply write_session_outcome|by intros e fs (Hi & Hs & _)].
  destruct (stored_session fs1) as [p|] eqn:Ep; [|by intros d].
  destruct (ses_user_id p =s ses_user_id s) eqn:Eu; [|by intros d]. destruct (ses_device_id p =s ses_device_id s) eqn:Ed; [by intros d|].
  destruct (is_plain_path_component (ses_device_id p)) eqn:Epl; [|by intros d]. cbn.
  apply str_eqb_eq in Eu. apply str_eqb_neq in Ed. cbn [paths for_data_dir sp_data_dir]. rewrite (join_plain dir _ Epl). by apply remove_device_cleared.
Qed.

(** A login is atomic.  Wherever it fails or is killed, the session file is the old one,
    or it is the new one complete and with mode 0600; the new one is never there together
    with the sync token of another identity, and a login of the same identity keeps the
    token.  No device store is touched but that of the device the same user had before. *)
Theorem login_atomic s d :
  login_outcome s d.(dk_fs) (persist_login_session paths s d).1 (persist_login_session paths s d).2.(dk_fs).
Proof. apply login_steps. Qed.

(** ** Creating the signing key concurrently *)

(** A process of [load_or_create_signing_key]: about to read, about to take the lock after
    it found no key, or finished.  What runs under the lock is one step: a reader outside
    the lock sees the key file only before or after its rename. *)
Inductive Proc :=
| PStart (random : option string)
| PMissed (random : option string)
| PDone (r : result string SigningKeyError).
Definition proc_step (fs : gmap Path Node) (calls : list Call) (p : Proc) : gmap Path Node * Proc :=
  match p with
  | PStart random =>
    match fs_read (signing_key_file paths) {| dk_fs := fs; dk_calls := calls |} with
    | (Ok bytes, d) => (d.(dk_fs), PDone (secret_of bytes))
    | (Err NotFound, d) => (d.(dk_fs), PMissed random)
    | (Err e, d) => (d.(dk_fs), PDone (Err (KeyIo e)))
    end
  | PMissed random =>
    let '(r, d) := generate_and_store paths random {| dk_fs := fs; dk_calls := calls |} in (d.(dk_fs), PDone r)
  | PDone r => (fs, PDone r)
  end.
Definition system_step (state : gmap Path Node * list Proc) (turn : nat * list Call) : gmap Path Node * list Proc :=
  match state.2 !! turn.1 with
  | Some p => let '(fs, p) := proc_step state.1 turn.2 p in (fs, <[turn.1 := p]> state.2)
  | None => state
  end.
Definition run_system (schedule : list (nat * list Call)) (fs : gmap Path Node) (randoms : list (option string)) : gmap Path Node * list Proc :=
  foldl system_step (fs, map PStart randoms) schedule.

Definition key_path : Path := child dir "signing_key.ed25519".
Definition holds_key (fs : gmap Path Node) (key : string) : Prop := ∃ mode, fs !! key_path = Some (File mode key).
Lemma generate_spec random d :
  let '(r, d') := generate_and_store paths random d in
  (∀ key, holds_key d.(dk_fs) key → holds_key d'.(dk_fs) key) ∧ (∀ key, r = Ok key → holds_key d'.(dk_fs) key).
Proof.
  unfold generate_and_store, bind, key_io.
  assert (same_files d.(dk_fs) (with_data_dir_write_lock paths (ret tt) d).2.(dk_fs)) as Hs.
  { refine (hoare_locked d.(dk_fs) (ret tt) (λ _, same_files d.(dk_fs)) _ _ d eq_refl); [|done]. intros fs Hfs d' Hd. cbn. by rewrite <- Hd. }
  destruct (with_data_dir_write_lock paths (ret tt) d) as [[[]|e] d1]; cbn in Hs |- *.
  all: assert (d1.(dk_fs) !! key_path = d.(dk_fs) !! key_path) as Hk by (apply (same_inside _ _ "signing_key.ed25519" [] Hs); by right).
  2: { split; [|done]. intros key [mode Hm]. exists mode. by rewrite Hk. }
  unfold fs_read, syscall, signing_key_file. cbn [sp_data_dir for_data_dir paths]. fold key_path.
  destruct d1 as [fs1 calls]. cbn [dk_fs dk_calls] in Hk |- *. unfold holds_key. rewrite <- Hk. clear Hk Hs.
  destruct calls as [|[|n removed] calls]; cbn; change (dir ++ ["signing_key.ed25519"]) with key_path; [done| |done].
  destruct (fs1 !! key_path) as [[mode c|]|] eqn:E; cbn; change (dir ++ ["signing_key.ed25519"]) with key_path; rewrite ?E.
  - split; [done|]. unfold secret_of. intros key. destruct (_ =? _)%nat; [|done]. intros [= <-]. eauto.
  - done.
  - destruct random as [secret|]; [|by split; [intros ? [? [=]]|]]. destruct (write_private_spec (child dir "signing_key.ed25519.tmp") key_path secret fs1
      ltac:(intros Ej%join_inj; done) {| dk_fs := fs1; dk_calls := calls |} eq_refl) as [_ Hr].
    destruct (write_private _ key_path secret _) as [[[]|e] d3]; cbn in Hr |- *; (split; [by intros ? [? ?]|]); [|done].
    intros key [= <-]. eexists. apply Hr.
Qed.
Lemma proc_step_spec fs calls p :
  let '(fs', p') := proc_step fs calls p in
  (∀ key, holds_key fs key → holds_key fs' key) ∧ (∀ key, p' = PDone (Ok key) → p = PDone (Ok key) ∨ holds_key fs' key).
Proof.
  destruct p as [random|random|r]; cbn.
  - unfold fs_read, syscall, signing_key_file. cbn [sp_data_dir for_data_dir paths dk_calls dk_fs]. fold key_path.
    destruct calls as [|[|n removed] calls]; cbn; [by split; [|intros ? [=]]| |by split; [|intros ? [=]]].
    change (dir ++ ["signing_key.ed25519"]) with key_path. destruct (fs !! key_path) as [[mode c|]|] eqn:E; cbn; [|by split; [|intros ? [=]]..].
    split; [done|]. unfold secret_of. destruct (_ =? _)%nat; [|done]. intros key [= <-]. right. by exists mode.
  - pose proof (generate_spec random {| dk_fs := fs; dk_calls := calls |}) as Hg. destruct (generate_and_store _ _ _) as [r d'].
    cbn in Hg. destruct Hg as [Hg1 Hg2]. split; [done|]. intros key [= ->]. right. by apply Hg2.
  - split; [done|]. intros key ->. by left.
Qed.

(** However many processes create the signing key at once, however they interleave, and
    wherever some of them fail or are killed, all that get a key get the same one, it is
    the one in the file, and a key that was there before is never replaced. *)
Theorem signing_keys_converge schedule fs randoms :
  let '(fs', procs) := run_system schedule fs randoms in
  (∀ i j key key', procs !! i = Some (PDone (Ok key)) → procs !! j = Some (PDone (Ok key')) → key = key' ∧ holds_key fs' key) ∧
  (∀ key, holds_key fs key → holds_key fs' key).
Proof.
  assert (∀ i key, map PStart randoms !! i = Some (PDone (Ok key)) → holds_key fs key) as Hstart.
  { intros i key. rewrite list_lookup_fmap. by destruct (randoms !! i). }
  unfold run_system. set (procs := map PStart randoms) in *. clearbody procs. clear randoms.
  enough (let '(fs', procs') := foldl system_step (fs, procs) schedule in
    (∀ i key, procs' !! i = Some (PDone (Ok key)) → holds_key fs' key) ∧ (∀ key, holds_key fs key → holds_key fs' key)) as Hgoal.
  { destruct (foldl _ _ schedule) as [fs' procs']. destruct Hgoal as [Hk Hold]. split; [|done]. intros i j key key' Hi Hj.
    destruct (Hk i key Hi) as [m1 E1], (Hk j key' Hj) as [m2 E2]. split; [congruence|]. by exists m1. }
  revert fs procs Hstart. induction schedule as [|[i calls] schedule IH]; intros fs procs Hstart; cbn [foldl]; [done|].
  unfold system_step at 2. cbn [fst snd]. destruct (procs !! i) as [p|] eqn:Ep; [|by apply IH].
  pose proof (proc_step_spec fs calls p) as Hp. destruct (proc_step fs calls p) as [fs1 p1]. destruct Hp as [Hkeep Hdone].
  specialize (IH fs1 (<[i := p1]> procs)). destruct (foldl _ _ schedule) as [fs' procs'].
  destruct IH as [Hk Hold]; [|split; auto]. intros j key Hj. destruct (decide (i = j)) as [<-|Hne].
  - rewrite list_lookup_insert_eq in Hj by (by eapply lookup_lt_Some). injection Hj as ->.
    destruct (Hdone key eq_refl) as [-> |?]; [|done]. by apply Hkeep, (Hstart i).
  - rewrite list_lookup_insert_ne in Hj by done. by eapply Hkeep, Hstart.
Qed.

(** A restarted daemon finds the session of the last login, and reports it without tokens. *)
Lemma session_reloads `{!SessionSerdeLaws} s d calls :
  (persist_login_session paths s d).1 = Ok tt →
  (auth_status paths {| dk_fs := (persist_login_session paths s d).2.(dk_fs); dk_calls := Proceed :: calls |}).1 = Ok (from_session s).
Proof.
  intros Hok. destruct (login_steps s d) as [_ Hr]. rewrite Hok in Hr. destruct Hr as [Hs _].
  unfold auth_status, bind, load_session, on_not_found, bind, fs_read, syscall. cbn [dk_calls dk_fs sp_session_file for_data_dir paths].
  rewrite Hs. cbn. by rewrite session_roundtrip.
Qed.
End login.

(** ** Examples *)

Module DataExample.
Definition dir : Path := ["home"; "me"; ".local"].
#[export] Instance serde : SessionSerde :=
  {| session_to_vec_pretty s := s.(ses_device_id);
     session_from_slice c := if c =s "?" then None else Some {| ses_homeserver := "h"; ses_user_id := "@me:h"; ses_device_id := c; ses_access_token := "t"; ses_refresh_token := None |} |}.
Definition session (device : string) : StoredSession :=
  {| ses_homeserver := "h"; ses_user_id := "@me:h"; ses_device_id := device; ses_access_token := "t"; ses_refresh_token := None |}.
(** A login killed while it writes, another, a key, a logout that fails. *)
Definition history : list (DataOp * list Call) :=
  [(OpLogin (session "D1"), repeat Proceed 10 ++ [FailAfter 1 ∅]); (OpSaveToken "tok", repeat Proceed 10);
   (OpLogin (session "D2"), repeat Proceed 20); (OpSigningKey (Some "k"), repeat Proceed 20); (OpLogout, repeat Proceed 4)].
End DataExample.
(** A session file that cannot be parsed is removed at logout, which succeeds and leaves the
    crypto store of the device it named. *)
Lemma logout_strands_store :
  let fs : gmap Path Node := {[DataExample.dir := Dir 448; child DataExample.dir "session.json" := File 384 "?";
    child DataExample.dir "D1" := Dir 448; child DataExample.dir "D1" ++ ["crypto-store"] := Dir 448]} in
  let '(r, d) := clear_session (H0 := DataExample.serde) (for_data_dir DataExample.dir) {| dk_fs := fs; dk_calls := repeat Proceed 8 |} in
  r = Ok tt ∧ d.(dk_fs) !! child DataExample.dir "session.json" = None ∧ d.(dk_fs) !! (child DataExample.dir "D1" ++ ["crypto-store"]) = Some (Dir 448).
Proof. vm_compute. done. Qed.
