(* ===== verification/SyncLoop.v ===== *)
(** * The sync loop

    Models [crates/mx-agent-daemon/src/sync.rs] ([run_sync_loop], its backoff and health)
    and the watch loop of [watch.rs].  Durations are in milliseconds.  A life of the daemon
    is a list of what each [/sync] brings; the token goes through the data directory, whose
    oracle may end the life at any system call. *)
From Stdlib Require Import ZArith Lia.
From stdpp Require Import gmap strings list pretty.
From S2P Require Import Prelude RustStr CanonicalJson Schema Signing Room TaskLifecycle Streams DataDir.
Local Open Scope Z_scope.

(** ** Health *)

Inductive SyncState := Initializing | Healthy | Degraded | Stopped.
Record SyncHealth := {
  sh_state : SyncState;
  sh_total_syncs : Z;
  sh_consecutive_failures : Z;
  sh_last_success_unix : option Z;
  sh_last_error : option string;
  sh_rate_limited_secs : option Z;
  sh_resumed_from_token : bool;
}.
Definition initializing (resumed_from_token : bool) : SyncHealth :=
  {| sh_state := Initializing; sh_total_syncs := 0; sh_consecutive_failures := 0; sh_last_success_unix := None;
     sh_last_error := None; sh_rate_limited_secs := None; sh_resumed_from_token := resumed_from_token |}.
Definition sat_u64 (z : Z) : Z := Z.min z u64_max.
Definition sat_u32 (z : Z) : Z := Z.min z u32_max.
Definition record_success (h : SyncHealth) (now : Z) : SyncHealth :=
  {| sh_state := Healthy; sh_total_syncs := sat_u64 (h.(sh_total_syncs) + 1); sh_consecutive_failures := 0;
     sh_last_success_unix := Some now; sh_last_error := None; sh_rate_limited_secs := None;
     sh_resumed_from_token := h.(sh_resumed_from_token) |}.
Definition record_failure (h : SyncHealth) (error : string) : SyncHealth :=
  {| sh_state := Degraded; sh_total_syncs := h.(sh_total_syncs); sh_consecutive_failures := sat_u32 (h.(sh_consecutive_failures) + 1);
     sh_last_success_unix := h.(sh_last_success_unix); sh_last_error := Some error; sh_rate_limited_secs := None;
     sh_resumed_from_token := h.(sh_resumed_from_token) |}.
Definition record_rate_limited (h : SyncHealth) (delay : Z) : SyncHealth :=
  let secs := delay / 1000 in
  {| sh_state := Degraded; sh_total_syncs := h.(sh_total_syncs); sh_consecutive_failures := sat_u32 (h.(sh_consecutive_failures) + 1);
     sh_last_success_unix := h.(sh_last_success_unix);
     sh_last_error := Some ("rate limited by homeserver; retrying in " +:+ pretty (Z.to_N secs) +:+ "s");
     sh_rate_limited_secs := Some secs; sh_resumed_from_token := h.(sh_resumed_from_token) |}.
Definition record_fatal (h : SyncHealth) (error : string) : SyncHealth :=
  {| sh_state := Stopped; sh_total_syncs := h.(sh_total_syncs); sh_consecutive_failures := h.(sh_consecutive_failures);
     sh_last_success_unix := h.(sh_last_success_unix); sh_last_error := Some error; sh_rate_limited_secs := None;
     sh_resumed_from_token := h.(sh_resumed_from_token) |}.
Definition record_stopped (h : SyncHealth) : SyncHealth :=
  {| sh_state := Stopped; sh_total_syncs := h.(sh_total_syncs); sh_consecutive_failures := h.(sh_consecutive_failures);
     sh_last_success_unix := h.(sh_last_success_unix); sh_last_error := h.(sh_last_error); sh_rate_limited_secs := h.(sh_rate_limited_secs);
     sh_resumed_from_token := h.(sh_resumed_from_token) |}.

(** ** Backoff *)

Record BackoffConfig := { bc_base : Z; bc_max : Z; bc_factor : Z; bc_rate_limit_ceiling : Z }.
Definition default_backoff : BackoffConfig := {| bc_base := 1000; bc_max := 60000; bc_factor := 2; bc_rate_limit_ceiling := 300000 |}.
Record Backoff := { bo_config : BackoffConfig; bo_attempt : Z }.
Definition backoff_new (config : BackoffConfig) : Backoff := {| bo_config := config; bo_attempt := 0 |}.
(** [checked_pow], [None] on overflow of [u64]. *)
Definition checked_pow (base exp : Z) : option Z := if base ^ exp <=? u64_max then Some (base ^ exp) else None.
Definition next_delay (b : Backoff) : Z * Backoff :=
  let c := b.(bo_config) in
  let mult := unwrap_or (checked_pow c.(bc_factor) b.(bo_attempt)) u64_max in
  (Z.min (sat_u64 (c.(bc_base) * mult)) c.(bc_max), {| bo_config := c; bo_attempt := sat_u32 (b.(bo_attempt) + 1) |}).
Definition backoff_reset (b : Backoff) : Backoff := {| bo_config := b.(bo_config); bo_attempt := 0 |}.

(** ** Errors *)

(** The error kinds of the homeserver's API that are told apart; times are in
    milliseconds. *)
Inductive RetryAfter := RetryDelay (delay : Z) | RetryDateTime (instant : Z).
Inductive ErrorKind := UnknownToken | MissingToken | Forbidden | LimitExceeded (retry_after : option RetryAfter) | OtherKind.
(** An error of the SDK: its kind if it is one of the API, and its text. *)
Record SdkError := { se_kind : option ErrorKind; se_text : string }.
Definition is_fatal_sync_error (e : SdkError) : bool :=
  match e.(se_kind) with Some UnknownToken | Some MissingToken => true | _ => false end.
Definition is_rate_limit_error (e : SdkError) : bool :=
  match e.(se_kind) with Some (LimitExceeded _) => true | _ => false end.
Definition rate_limit_retry_after (kind : ErrorKind) (now ceiling : Z) : option Z :=
  match kind with
  | LimitExceeded (Some (RetryDelay delay)) => Some (Z.min delay ceiling)
  | LimitExceeded (Some (RetryDateTime instant)) => Some (Z.min (Z.max 0 (instant - now)) ceiling)
  | _ => None
  end.
Inductive StepError := Transient (message : string) | RateLimited (retry_after : option Z) | Fatal (message : string).
(** The classification in [run_matrix_sync_with_subscribers]. *)
Definition classify (e : SdkError) (now ceiling : Z) : StepError :=
  if is_fatal_sync_error e then Fatal e.(se_text)
  else if is_rate_limit_error e then
    RateLimited (kind ← e.(se_kind); rate_limit_retry_after kind now ceiling)
  else Transient e.(se_text).
(** The wait after a rate limit. *)
Definition rate_limited_delay (floor : Z) (retry_after : option Z) : Z :=
  match retry_after with Some after => Z.max after floor | None => floor end.

(** [sleep_interruptible]: chunks of 50 ms while [running] says so; the time slept. *)
Fixpoint sleep_interruptible (running : list bool) (remaining slept : Z) : Z :=
  match running with
  | true :: running =>
    if 0 <? remaining then
      let chunk := Z.min remaining 50 in sleep_interruptible running (Z.max 0 (remaining - chunk)) (slept + chunk)
    else slept
  | _ => slept
  end.

(** ** The loop *)

Section sync_loop.
Context {E : Type} (paths : SessionPaths) (io_text : IoError → string).

(** What an iteration brings.  A response has its events and its [next_batch]; the
    handlers run before the step returns, and the process may die among them. *)
Inductive Iteration :=
| Response (events : list E) (next_batch : string) (now : Z)
| Failed (e : SdkError) (now : Z)
| Killed (events : list E) (handled : nat).

Record LoopState := {
  lp_token : option string;
  lp_backoff : Backoff;
  lp_health : SyncHealth;
  lp_handled : list E;
  lp_requests : list (option string);
  lp_sleeps : list Z;
  lp_disk : Disk;
}.
Definition with_request (s : LoopState) : LoopState :=
  {| lp_token := s.(lp_token); lp_backoff := s.(lp_backoff); lp_health := s.(lp_health); lp_handled := s.(lp_handled);
     lp_requests := s.(lp_requests) ++ [s.(lp_token)]; lp_sleeps := s.(lp_sleeps); lp_disk := s.(lp_disk) |}.
Definition with_handled (events : list E) (s : LoopState) : LoopState :=
  {| lp_token := s.(lp_token); lp_backoff := s.(lp_backoff); lp_health := s.(lp_health); lp_handled := s.(lp_handled) ++ events;
     lp_requests := s.(lp_requests); lp_sleeps := s.(lp_sleeps); lp_disk := s.(lp_disk) |}.
Definition with_health (h : SyncHealth) (s : LoopState) : LoopState :=
  {| lp_token := s.(lp_token); lp_backoff := s.(lp_backoff); lp_health := h; lp_handled := s.(lp_handled);
     lp_requests := s.(lp_requests); lp_sleeps := s.(lp_sleeps); lp_disk := s.(lp_disk) |}.
Definition with_disk (d : Disk) (s : LoopState) : LoopState :=
  {| lp_token := s.(lp_token); lp_backoff := s.(lp_backoff); lp_health := s.(lp_health); lp_handled := s.(lp_handled);
     lp_requests := s.(lp_requests); lp_sleeps := s.(lp_sleeps); lp_disk := d |}.
Definition pause (delay : Z) (b : Backoff) (h : SyncHealth) (s : LoopState) : LoopState :=
  {| lp_token := s.(lp_token); lp_backoff := b; lp_health := h; lp_handled := s.(lp_handled);
     lp_requests := s.(lp_requests); lp_sleeps := s.(lp_sleeps) ++ [delay]; lp_disk := s.(lp_disk) |}.
Definition advance (next : string) (now : Z) (s : LoopState) : LoopState :=
  {| lp_token := Some next; lp_backoff := backoff_reset s.(lp_backoff); lp_health := record_success s.(lp_health) now;
     lp_handled := s.(lp_handled); lp_requests := s.(lp_requests); lp_sleeps := s.(lp_sleeps); lp_disk := s.(lp_disk) |}.

(** One iteration of the [while]: the state to go on with, or the one the loop ends in. *)
Definition sync_iteration (ceiling : Z) (it : Iteration) (s : LoopState) : LoopState + LoopState :=
  let s := with_request s in
  match it with
  | Killed events n => inr (with_handled (take n events) s)
  | Response events next_token now =>
    let s := with_handled events s in
    match save_sync_token paths next_token s.(lp_disk) with
    | (Err e, d) => inr (with_health (record_fatal s.(lp_health) ("sync token save failed: " +:+ io_text e)) (with_disk d s))
    | (Ok _, d) => inl (advance next_token now (with_disk d s))
    end
  | Failed e now =>
    match classify e now ceiling with
    | Transient message =>
      let h := record_failure s.(lp_health) message in
      let '(delay, b) := next_delay s.(lp_backoff) in inl (pause delay b h s)
    | RateLimited retry_after =>
      let '(floor, b) := next_delay s.(lp_backoff) in
      let delay := rate_limited_delay floor retry_after in
      inl (pause delay b (record_rate_limited s.(lp_health) delay) s)
    | Fatal message => inr (with_health (record_fatal s.(lp_health) message) s)
    end
  end.
(** [running] is cleared when the list ends. *)
Fixpoint sync_iterations (ceiling : Z) (its : list Iteration) (s : LoopState) : LoopState :=
  match its with
  | [] => with_health (record_stopped s.(lp_health)) s
  | it :: its =>
    match sync_iteration ceiling it s with inl s => sync_iterations ceiling its s | inr s => s end
  end.
Definition start_state (config : BackoffConfig) (token : option string) (handled : list E) (d : Disk) : LoopState :=
  {| lp_token := token; lp_backoff := backoff_new config; lp_health := initializing (is_some token); lp_handled := handled;
     lp_requests := []; lp_sleeps := []; lp_disk := d |}.
Definition run_sync_loop (config : BackoffConfig) (health : SyncHealth) (its : list Iteration) (handled : list E) (d : Disk) : LoopState :=
  match load_sync_token paths d with
  | (Err e, d) =>
    with_health (record_fatal health ("sync token load failed: " +:+ io_text e)) (start_state config None handled d)
  | (Ok token, d) => sync_iterations config.(bc_rate_limit_ceiling) its (start_state config token handled d)
  end.
End sync_loop.
Arguments Response {_} _ _ _.
Arguments Failed {_} _ _.
Arguments Killed {_} _ _.

(** ** Backoff is the unbounded schedule, capped *)

Definition backoff_ok (c : BackoffConfig) : Prop := 1 ≤ c.(bc_base) ≤ u64_max ∧ 0 ≤ c.(bc_max) ≤ u64_max ∧ 1 ≤ c.(bc_factor).
Lemma next_delay_exact b :
  backoff_ok b.(bo_config) → 0 ≤ b.(bo_attempt) →
  (next_delay b).1 = Z.min (b.(bo_config).(bc_base) * b.(bo_config).(bc_factor) ^ b.(bo_attempt)) b.(bo_config).(bc_max).
Proof.
  intros (Hb & Hm & Hf) Ha. unfold next_delay, checked_pow, sat_u64. cbn.
  set (base := bc_base (bo_config b)) in *. set (pow := bc_factor (bo_config b) ^ bo_attempt b).
  assert (0 < pow) by (apply Z.pow_pos_nonneg; lia). assert (0 < u64_max) by done.
  destruct (Z.leb_spec pow u64_max) as [Hp|Hp]; cbn; [lia|].
  assert (u64_max ≤ base * u64_max) by nia. assert (u64_max ≤ base * pow) by nia. lia.
Qed.
Lemma rate_limit_clamped e now ceiling after :
  0 ≤ ceiling → (match e.(se_kind) with Some (LimitExceeded (Some (RetryDelay d))) => 0 ≤ d | _ => True end) →
  classify e now ceiling = RateLimited (Some after) → 0 ≤ after ≤ ceiling.
Proof.
  intros Hc Hd. unfold classify, is_fatal_sync_error, is_rate_limit_error. destruct (se_kind e) as [[| | |[[delay|instant]|]|]|]; try done; cbn;
    intros [= <-]; lia.
Qed.

(** ** Every life of the loop ends reported *)

Section correct.
Context {E : Type} (dir : Path) (io_text : IoError → string).
Let paths := for_data_dir dir.
Implicit Types (its : list (Iteration (E := E))) (s : LoopState (E := E)).

Definition killed (it : Iteration (E := E)) : bool := match it with Killed _ _ => true | _ => false end.
Lemma iterations_stop ceiling its : ∀ s,
  forallb (λ it, negb (killed it)) its = true → (sync_iterations paths io_text ceiling its s).(lp_health).(sh_state) = Stopped.
Proof.
  induction its as [|it its IH]; intros s Hk; [done|]. cbn in Hk. apply andb_true_iff in Hk as [Hit Hk]. cbn [sync_iterations].
  unfold sync_iteration. destruct it as [events next now|e now|events n]; [| |done].
  - destruct (save_sync_token paths next _) as [[[]|err] d]; [by apply IH|done].
  - destruct (classify e now ceiling) as [msg|after|msg]; [destruct (next_delay _); by apply IH..|done].
Qed.

(** The pauses of the loop. *)
Definition bounded_sleeps (config : BackoffConfig) (s : LoopState (E := E)) : Prop :=
  s.(lp_backoff).(bo_config) = config ∧ 0 ≤ s.(lp_backoff).(bo_attempt) ∧
  Forall (λ d, 0 ≤ d ≤ Z.max config.(bc_max) config.(bc_rate_limit_ceiling)) s.(lp_sleeps).
Definition sane_iteration (it : Iteration (E := E)) : Prop :=
  match it with
  | Failed e _ => match e.(se_kind) with Some (LimitExceeded (Some (RetryDelay d))) => 0 ≤ d | _ => True end
  | _ => True
  end.
Lemma next_delay_bounds b : backoff_ok b.(bo_config) → 0 ≤ b.(bo_attempt) →
  0 ≤ (next_delay b).1 ≤ b.(bo_config).(bc_max) ∧ 0 ≤ (next_delay b).2.(bo_attempt) ∧ (next_delay b).2.(bo_config) = b.(bo_config).
Proof.
  intros Hok Ha. split_and!; [| |unfold next_delay, sat_u32; cbn; assert (0 ≤ u32_max) by done; lia|done].
  - rewrite next_delay_exact by done. destruct Hok as (Hb & Hm & Hf).
    assert (0 < bc_factor (bo_config b) ^ bo_attempt b) by (apply Z.pow_pos_nonneg; lia). nia.
  - rewrite next_delay_exact by done. lia.
Qed.
Lemma iterations_sleep config its : ∀ s,
  backoff_ok config → 0 ≤ config.(bc_rate_limit_ceiling) → Forall sane_iteration its → bounded_sleeps config s →
  bounded_sleeps config (sync_iterations paths io_text config.(bc_rate_limit_ceiling) its s).
Proof.
  induction its as [|it its IH]; intros s Hok Hc Hits Hs; [exact Hs|]. apply Forall_cons in Hits as [Hit Hits]. cbn [sync_iterations].
  destruct Hs as (Hcfg & Hatt & Hsl). unfold sync_iteration. destruct it as [events next now|e now|events n]; [| |by split_and!].
  - destruct (save_sync_token paths next _) as [[[]|err] d]; [|by split_and!]. apply IH; [done..|]. by split_and!.
  - assert (backoff_ok (bo_config (lp_backoff (with_request s)))) as Hok' by by cbn; rewrite Hcfg.
    pose proof (next_delay_bounds (lp_backoff (with_request s)) Hok' Hatt) as Hnext. clear Hok'.
    destruct (next_delay (lp_backoff (with_request s))) as [delay b]. cbn [fst snd] in Hnext. destruct Hnext as (Hd & Ha & Hb).
    change (bo_config (lp_backoff (with_request s))) with (bo_config (lp_backoff s)) in Hd, Hb. rewrite Hcfg in Hd, Hb.
    pose proof (rate_limit_clamped e now config.(bc_rate_limit_ceiling)) as Hrl.
    destruct (classify e now _) as [msg|after|msg]; [..|by split_and!];
      (apply IH; [done..|]; split; [done|]; split; [done|]; apply Forall_app; split; [done|]; apply Forall_singleton); [lia|].
    unfold rate_limited_delay. destruct after as [after|]; [|lia]. pose proof (Hrl after Hc Hit eq_refl). lia.
Qed.

(** The loop neither hammers nor sleeps for ever, and never hides that it ended.  The
    pause after the n-th failure in a row is exactly the exponential schedule capped at the
    maximum, although it is computed in 64 bits; a pause the homeserver asks for is honoured
    up to the ceiling, so no pause of any run exceeds the larger of the two; and a loop that
    has returned reports itself stopped. *)
Theorem sync_pauses_bounded config health its handled d :
  backoff_ok config → 0 ≤ config.(bc_rate_limit_ceiling) → Forall sane_iteration its → forallb (λ it, negb (killed it)) its = true →
  let s := run_sync_loop paths io_text config health its handled d in
  Forall (λ p, 0 ≤ p ≤ Z.max config.(bc_max) config.(bc_rate_limit_ceiling)) s.(lp_sleeps) ∧
  s.(lp_health).(sh_state) = Stopped ∧
  (∀ attempt, 0 ≤ attempt →
     (next_delay {| bo_config := config; bo_attempt := attempt |}).1 = Z.min (config.(bc_base) * config.(bc_factor) ^ attempt) config.(bc_max)).
Proof.
  intros Hok Hc Hits Hk s. split_and!.
  - subst s. unfold run_sync_loop. destruct (load_sync_token paths d) as [[token|e] d1]; [|constructor].
    apply (iterations_sleep config its); [done..|]. cbn. done.
  - subst s. unfold run_sync_loop. destruct (load_sync_token paths d) as [[token|e] d1]; [|done]. by apply iterations_stop.
  - intros attempt Ha. by apply next_delay_exact.
Qed.

(** ** Restarts lose nothing *)

(** The token a start would resume from. *)
Definition token_of (fs : gmap Path Node) : option string :=
  match fs !! child dir "sync_token" with
  | Some (File _ content) => if trim_is_empty content then None else Some (trim content)
  | _ => None
  end.
Definition clean_token (t : string) : Prop := trim_is_empty t = false ∧ trim t = t.

Lemma load_token_spec fs0 :
  hoare (eq fs0) (load_sync_token paths) (λ r fs, fs = fs0 ∧ ∀ t, r = Ok t → t = None ∨ t = token_of fs0).
Proof.
  intros [fs calls] ->. unfold load_sync_token, on_not_found, bind, read_to_string, bind, fs_read, syscall, token_of. cbn.
  destruct calls as [|[|n removed] calls]; cbn; [by split; [|intros t [=]]| |by split; [|intros t [=]]].
  destruct (fs !! child dir "sync_token") as [[mode content|mode]|]; cbn; [|by split; [|intros t [=]]|by split; [|intros t [= <-]; left]].
  destruct (from_utf8_ok _); cbn; [|by split; [|intros t [=]]].
  destruct (trim_is_empty content); cbn; (split; [done|]); intros t [= <-]; [by left|by right].
Qed.
Lemma save_token_spec token fs0 :
  clean_token token →
  hoare (eq fs0) (save_sync_token paths token) (λ r fs, token_of fs = match r with Ok _ => Some token | Err _ => token_of fs0 end).
Proof.
  intros [Hne Htr]. assert (∀ fs, same_files dir fs0 fs → fs !! child dir "sync_token" = fs0 !! child dir "sync_token") as Hsame.
  { intros fs Hs. rewrite <- inside_file. apply same_inside; [done|by right]. }
  unfold save_sync_token. eapply hoare_bind with (R := λ _, same_files dir fs0).
  - eapply hoare_weaken; [apply same_ensure|by intros fs <-|done].
  - intros _ d Hd. assert (child dir "sync_token.tmp" ≠ child dir "sync_token") as Hf by (intros Ej%join_inj; done).
    destruct (write_private_spec _ _ token _ Hf d eq_refl) as [_ Hr]. cbn [sp_data_dir sp_sync_token_file paths for_data_dir].
    unfold token_of. destruct (write_private _ _ token d).1; destruct Hr as [-> _]; [by rewrite Hne, Htr|by rewrite Hsame].
  - intros e fs Hs. unfold token_of. by rewrite Hsame.
Qed.

(** A homeserver: the events of the account's rooms in order, and the position each token
    stands for; a sync without a token starts at [base]. *)
Record Homeserver := { hs_log : list E; hs_base : nat; hs_position : string → option nat }.
Definition position (hs : Homeserver) (t : option string) : option nat :=
  match t with None => Some hs.(hs_base) | Some t => hs.(hs_position) t end.
(** What the homeserver may answer to a request: events of its log, in order, from the
    request's token up to the position of the token it returns.  A limited timeline leaves
    some of them out; [gaps] are the positions that some answer left out. *)
Context (gaps : nat → Prop).
Definition answers (hs : Homeserver) (t : option string) (it : Iteration (E := E)) : Prop :=
  match it with
  | Response events next _ =>
    ∃ p q kept, position hs t = Some p ∧ hs.(hs_position) next = Some q ∧ (p ≤ q)%nat ∧
      events = omap (λ i, hs.(hs_log) !! i) kept ∧ kept `sublist_of` seq p (q - p) ∧
      (∀ i, i ∈ seq p (q - p) → i ∈ kept ∨ gaps i) ∧ clean_token next
  | Failed _ _ | Killed _ _ => True
  end.
Fixpoint honest (hs : Homeserver) (ceiling : Z) its s : Prop :=
  match its with
  | [] => True
  | it :: its =>
    answers hs s.(lp_token) it ∧
    match sync_iteration paths io_text ceiling it s with inl s => honest hs ceiling its s | inr _ => True end
  end.

(** The lives of a daemon, each with its configuration, what its iterations bring and how
    its system calls end. *)
Record Life := { lf_config : BackoffConfig; lf_health : SyncHealth; lf_its : list (Iteration (E := E)); lf_calls : list Call }.
Definition live (l : Life) (st : list E * gmap Path Node) : LoopState (E := E) :=
  run_sync_loop paths io_text l.(lf_config) l.(lf_health) l.(lf_its) st.1 {| dk_fs := st.2; dk_calls := l.(lf_calls) |}.
Definition after_life (st : list E * gmap Path Node) (l : Life) : list E * gmap Path Node :=
  ((live l st).(lp_handled), (live l st).(lp_disk).(dk_fs)).
Definition honest_life (hs : Homeserver) (l : Life) (st : list E * gmap Path Node) : Prop :=
  match load_sync_token paths {| dk_fs := st.2; dk_calls := l.(lf_calls) |} with
  | (Err _, _) => True
  | (Ok token, d) => honest hs l.(lf_config).(bc_rate_limit_ceiling) l.(lf_its) (start_state l.(lf_config) token st.1 d)
  end.
Fixpoint honest_lives (hs : Homeserver) (lives : list Life) (st : list E * gmap Path Node) : Prop :=
  match lives with [] => True | l :: lives => honest_life hs l st ∧ honest_lives hs lives (after_life st l) end.

(** Every event from the base up to the position of a token is handled, or was left out of
    an answer. *)
Definition covered (hs : Homeserver) (handled : list E) (t : option string) : Prop :=
  ∃ p, position hs t = Some p ∧ ∀ i e, (hs.(hs_base) ≤ i < p)%nat → hs.(hs_log) !! i = Some e → e ∈ handled ∨ gaps i.
Lemma covered_none hs handled : covered hs handled None.
Proof. exists hs.(hs_base). split; [done|]. intros i e Hi. lia. Qed.
Lemma covered_more hs handled more t : covered hs handled t → covered hs (handled ++ more) t.
Proof. intros (p & Hp & Hall). exists p. split; [done|]. intros i e Hi He. rewrite elem_of_app. destruct (Hall i e Hi He); tauto. Qed.
Lemma covered_next hs handled t events next now :
  covered hs handled t → answers hs t (Response events next now) → covered hs (handled ++ events) (Some next).
Proof.
  intros (p & Hp & Hall) (p' & q & kept & Hp' & Hq & Hle & -> & _ & Hkept & _). assert (p' = p) as -> by congruence. exists q. split; [done|].
  intros i e Hi He. rewrite elem_of_app. destruct (decide (i < p)%nat) as [Hlt|Hge]; [destruct (Hall i e) as [?|?]; [lia|done|tauto..]|].
  destruct (Hkept i) as [Hk|Hg]; [apply elem_of_seq; lia| |by right]. left; right. apply list_elem_of_omap. by exists i.
Qed.
Lemma iterations_covered hs ceiling its : ∀ s,
  honest hs ceiling its s → covered hs s.(lp_handled) s.(lp_token) → covered hs s.(lp_handled) (token_of s.(lp_disk).(dk_fs)) →
  let s' := sync_iterations paths io_text ceiling its s in covered hs s'.(lp_handled) (token_of s'.(lp_disk).(dk_fs)).
Proof.
  induction its as [|it its IH]; intros s Hh Ht Hd; [exact Hd|]. cbn [sync_iterations honest] in *. destruct Hh as [Ha Hh].
  unfold sync_iteration in *. destruct it as [events next now|e now|events n]; [| |by apply covered_more].
  - pose proof (covered_next _ _ _ _ _ _ Ht Ha) as Hn. destruct Ha as (p & q & kept & _ & _ & _ & _ & _ & _ & Hclean).
    pose proof (save_token_spec next _ Hclean (lp_disk s) eq_refl) as Hs. cbn in Hh |- *.
    destruct (save_sync_token paths next (lp_disk s)) as [[[]|err] d]; cbn in Hs; [|cbn; rewrite Hs; by apply covered_more].
    apply IH; [done|done|]. cbn. by rewrite Hs.
  - destruct (classify e now ceiling) as [msg|after|msg]; [destruct (next_delay _); by apply IH..|done].
Qed.

Lemma lives_covered hs lives : ∀ st,
  covered hs st.1 (token_of st.2) → honest_lives hs lives st →
  covered hs (foldl after_life st lives).1 (token_of (foldl after_life st lives).2).
Proof.
  induction lives as [|l lives IH]; intros st Hc Hh; [exact Hc|]. cbn [foldl honest_lives] in *.
  destruct Hh as [Hl Hh]. apply IH; [|done]. unfold honest_life in Hl. unfold after_life, live, run_sync_loop. cbn [fst snd].
  pose proof (load_token_spec st.2 {| dk_fs := st.2; dk_calls := lf_calls l |} eq_refl) as [Hd Ht].
  destruct (load_sync_token paths _) as [[token|e] d]; cbn in Hd, Ht; [|cbn; by rewrite Hd].
  apply iterations_covered; [done| |cbn; by rewrite Hd]. cbn. destruct (Ht token eq_refl) as [->| ->]; [apply covered_none|done].
Qed.

End correct.

(** ** Witnesses *)

Definition ok_calls : list Call := replicate 12 Proceed.
Definition an_error : SdkError := {| se_kind := Some (LimitExceeded (Some (RetryDelay 900000))); se_text := "429" |}.
Lemma sync_pauses_bounded_witness :
  let its := [Failed an_error 0; Failed {| se_kind := None; se_text := "timeout" |} 0; Response [1%nat] "s1" 5] in
  let s := run_sync_loop (for_data_dir ["data"]) (λ _, "io") default_backoff (initializing false) its [] {| dk_fs := ∅; dk_calls := ok_calls |} in
  s.(lp_sleeps) = [300000; 2000] ∧
  Forall (λ p, 0 ≤ p ≤ Z.max default_backoff.(bc_max) default_backoff.(bc_rate_limit_ceiling)) s.(lp_sleeps).
Proof.
  intros its s. split; [vm_compute; reflexivity|].
  apply (sync_pauses_bounded ["data"] (λ _, "io") default_backoff (initializing false) its [] {| dk_fs := ∅; dk_calls := ok_calls |}).
  - unfold backoff_ok. vm_compute. repeat split; discriminate.
  - discriminate.
  - repeat constructor. discriminate.
  - reflexivity.
Defined.

(** A log of four events; the first life is killed in the second batch, and the second life
    takes up after the first batch with a limited answer, which leaves out two events; one of
    them the first life had handled. *)
Definition a_server : Homeserver (E := nat) :=
  {| hs_log := [7; 8; 9; 10]%nat; hs_base := 0; hs_position := λ t, if t =s "s1" then Some 1%nat else if t =s "s4" then Some 4%nat else None |}.
Definition two_lives : list (Life (E := nat)) :=
  [ {| lf_config := default_backoff; lf_health := initializing false; lf_calls := ok_calls;
       lf_its := [Response [7%nat] "s1" 5; Killed [8; 9; 10]%nat 1] |};
    {| lf_config := default_backoff; lf_health := initializing false; lf_calls := ok_calls;
       lf_its := [Response [10]%nat "s4" 6] |} ].
Definition left_out (i : nat) : Prop := i = 1%nat ∨ i = 2%nat.
