(* ===== verification/Workspace.v ===== *)
(** * Workspaces

    Models [crates/mx-agent-daemon/src/workspace.rs]: creating, joining, reading, attaching
    and granting.  The Matrix client and its homeserver are an interface, [MatrixServer],
    whose laws are the authorization rules of the Matrix specification for state events and
    power levels; a client is named by the user it is logged in as. *)
From Stdlib Require Import ZArith Lia.
From stdpp Require Import gmap strings list.
From S2P Require Import Prelude RustStr CanonicalJson Schema Room TaskLifecycle SyncLoop.
Local Open Scope Z_scope.

(** ** The protocol's state types *)

Definition AGENT : string := "com.mxagent.agent.v1".
Definition TASK : string := "com.mxagent.task.v1".
Definition INVOCATION : string := "com.mxagent.invocation.v1".
Definition TOOL : string := "com.mxagent.tool.v1".
Definition WORKSPACE : string := "com.mxagent.workspace.v1".
Definition TRUST : string := "com.mxagent.trust.v1".
Definition state_ALL : list string := [AGENT; TASK; INVOCATION; TOOL; WORKSPACE; TRUST].

Record RepoInfo := { ri_remote_url : option string; ri_branch : option string; ri_commit : option string }.
Record WorkspaceState := {
  wst_project_id : string;
  wst_path : string;
  wst_repo : option RepoInfo;
  wst_attached_by : string;
  wst_attached_at : Z;
  wst_state_rev : Z;
  wst_extra : Extra;
}.
Definition RepoInfo_value (r : RepoInfo) : Value :=
  let opt (o : option string) := match o with Some s => Str s | None => Null end in
  Object [("remote_url", opt r.(ri_remote_url)); ("branch", opt r.(ri_branch)); ("commit", opt r.(ri_commit))].
Definition WorkspaceState_value (s : WorkspaceState) : Value :=
  Object ([("project_id", Str s.(wst_project_id)); ("path", Str s.(wst_path));
           ("repo", match s.(wst_repo) with Some r => RepoInfo_value r | None => Null end);
           ("attached_by", Str s.(wst_attached_by)); ("attached_at", Num (NumInt s.(wst_attached_at)));
           ("state_rev", Num (NumInt s.(wst_state_rev)))] ++ btree_iter s.(wst_extra)).

(** ** Requests *)

Definition WORKSPACE_AGENT_PL : Z := 50.
Definition WORKSPACE_STATE_DEFAULT_PL : Z := 100.
Inductive WorkspaceVisibility := Private | Public.
Definition visibility_as_str (v : WorkspaceVisibility) : string := match v with Private => "private" | Public => "public" end.
Record CreateWorkspaceOptions := {
  cwo_alias : option string;
  cwo_name : option string;
  cwo_topic : option string;
  cwo_visibility : WorkspaceVisibility;
  cwo_e2ee : bool;
}.
Definition default_create_options : CreateWorkspaceOptions :=
  {| cwo_alias := None; cwo_name := None; cwo_topic := None; cwo_visibility := Private; cwo_e2ee := false |}.

(** The fields of [m.room.power_levels] that decide who may send what, and the fields of
    an override that are given. *)
Record PowerLevels := {
  pl_users : gmap string Z;
  pl_users_default : Z;
  pl_events : gmap string Z;
  pl_events_default : Z;
  pl_state_default : Z;
}.
Record PowerLevelOverride := {
  plo_users : option (gmap string Z);
  plo_users_default : option Z;
  plo_events : option (gmap string Z);
  plo_events_default : option Z;
  plo_state_default : option Z;
}.
Inductive RoomPreset := PrivateChat | PublicChat.
Inductive InitialState := RoomEncryption.
Record CreateRoomRequest := {
  crq_name : option string;
  crq_topic : option string;
  crq_room_alias_name : option string;
  crq_visibility : WorkspaceVisibility;
  crq_preset : option RoomPreset;
  crq_initial_state : list InitialState;
  crq_power_level_content_override : option PowerLevelOverride;
}.
Definition build_power_level_override : PowerLevelOverride :=
  {| plo_users := None; plo_users_default := Some 0;
     plo_events := Some (foldl (λ events ty, <[ty := WORKSPACE_AGENT_PL]> events) ∅ state_ALL);
     plo_events_default := Some 0; plo_state_default := Some WORKSPACE_STATE_DEFAULT_PL |}.
Definition build_create_room_request (o : CreateWorkspaceOptions) : CreateRoomRequest :=
  {| crq_name := o.(cwo_name); crq_topic := o.(cwo_topic); crq_room_alias_name := o.(cwo_alias);
     crq_visibility := o.(cwo_visibility);
     crq_preset := Some (match o.(cwo_visibility) with Private => PrivateChat | Public => PublicChat end);
     crq_initial_state := if o.(cwo_e2ee) then [RoomEncryption] else [];
     crq_power_level_content_override := Some build_power_level_override |}.

(** ** The client *)

(** A parsed room id or alias. *)
Inductive RoomOrAliasId := RoomId (id : string) | RoomAlias (alias : string).
Inductive MembershipState := MBan | MInvite | MJoin | MKnock | MLeave | MOther (state : string).
Record Member := { mb_user_id : string; mb_display_name : option string; mb_membership : MembershipState }.
(** What the client's store has of a room. *)
Record RoomView := {
  rmv_canonical_alias : option string;
  rmv_name : option string;
  rmv_topic : option string;
  rmv_encrypted : bool;
  rmv_joined_members : Z;
  rmv_invited_members : Z;
}.
Definition POWER_LEVELS : string := "m.room.power_levels".

(** [me] is the client's user. *)
Class MatrixServer (W : Type) := {
  sdk_create_room : ∀ (me : string), CreateRoomRequest → st W SdkError (string * RoomView);
  sdk_join : ∀ (me : string), RoomOrAliasId → st W SdkError (string * RoomView);
  sdk_sync_once : ∀ (me : string), st W SdkError string;
  sdk_resolve_alias : ∀ (me alias : string), st W SdkError string;
  sdk_get_room : ∀ (me room_id : string), W → option RoomView;
  sdk_active_members : ∀ (me room_id : string), st W SdkError (list Member);
  sdk_get_workspace_state : ∀ (me room_id : string), st W SdkError (option (StateEvent WorkspaceState));
  sdk_send_state : ∀ (me room_id event_type state_key : string), Value → st W SdkError string;
  sdk_update_power_levels : ∀ (me room_id : string), list (string * Z) → st W SdkError unit;
  (** What the homeserver has for a room. *)
  power_levels : W → string → option PowerLevels;
  joined : W → string → string → Prop;
}.

Definition user_level (pl : PowerLevels) (user : string) : Z := default pl.(pl_users_default) (pl.(pl_users) !! user).
Definition state_level (pl : PowerLevels) (event_type : string) : Z := default pl.(pl_state_default) (pl.(pl_events) !! event_type).
(** An override replaces the fields it has. *)
Definition overlay (base : PowerLevels) (o : PowerLevelOverride) : PowerLevels :=
  {| pl_users := default base.(pl_users) o.(plo_users); pl_users_default := default base.(pl_users_default) o.(plo_users_default);
     pl_events := default base.(pl_events) o.(plo_events); pl_events_default := default base.(pl_events_default) o.(plo_events_default);
     pl_state_default := default base.(pl_state_default) o.(plo_state_default) |}.
Definition is_forbidden (e : SdkError) : Prop := e.(se_kind) = Some Forbidden.

(** The rules of the Matrix specification.  A room's creator starts at level 100 and an
    override is applied to the generated content; a state event is accepted only from a user
    at the level of its type, a member at that level is never refused as forbidden, and a
    user below it is refused (or the request fails on its way); the levels change only with
    an accepted update, which changes those of the users it lists. *)
Section laws.
Context {W : Type} `{MatrixServer W}.
Definition same_rooms (w w' : W) : Prop :=
  ∀ room, power_levels w' room = power_levels w room ∧ ∀ u, joined w room u → joined w' room u.
Definition changes_nothing {A E} (m : st W E A) : Prop := ∀ w, same_rooms w (m w).2.
Class MatrixLaws : Prop := {
  law_created me req w id v w' :
    sdk_create_room me req w = (Ok (id, v), w') →
    ∃ base, base.(pl_users) = {[me := 100]} ∧ power_levels w id = None ∧ joined w' id me ∧
      power_levels w' id = Some (match req.(crq_power_level_content_override) with Some o => overlay base o | None => base end);
  law_create_other me req w room :
    power_levels w room ≠ None →
    power_levels (sdk_create_room me req w).2 room = power_levels w room ∧
    ∀ u, joined w room u → joined (sdk_create_room me req w).2 room u;
  law_join me id : changes_nothing (sdk_join me id);
  law_sync me : changes_nothing (sdk_sync_once me);
  law_resolve me alias : changes_nothing (sdk_resolve_alias me alias);
  law_members me room : changes_nothing (sdk_active_members me room);
  law_read me room : changes_nothing (sdk_get_workspace_state me room);
  law_send_same me room ty key v : ty ≠ POWER_LEVELS → changes_nothing (sdk_send_state me room ty key v);
  law_send me room ty key v w pl :
    power_levels w room = Some pl →
    match (sdk_send_state me room ty key v w).1 with
    | Ok _ => state_level pl ty ≤ user_level pl me
    | Err e => (is_forbidden e → joined w room me → user_level pl me < state_level pl ty) ∧
               (user_level pl me < state_level pl ty → is_forbidden e ∨ e.(se_kind) = None)
    end;
  law_update_other me room users w r :
    r ≠ room → power_levels (sdk_update_power_levels me room users w).2 r = power_levels w r;
  (** An update with no other change of the levels between the SDK's read and its write. *)
  law_update me room users w pl :
    power_levels w room = Some pl →
    match (sdk_update_power_levels me room users w).1 with
    | Ok _ =>
      state_level pl POWER_LEVELS ≤ user_level pl me ∧
      ∃ pl', power_levels (sdk_update_power_levels me room users w).2 room = Some pl' ∧
        pl'.(pl_events) = pl.(pl_events) ∧ pl'.(pl_state_default) = pl.(pl_state_default) ∧
        ∀ u, user_level pl' u = default (user_level pl u) (list_to_map (M := gmap string Z) users !! u)
    | Err e =>
      power_levels (sdk_update_power_levels me room users w).2 room = Some pl ∧
      (user_level pl me < state_level pl POWER_LEVELS → is_forbidden e ∨ e.(se_kind) = None)
    end;
}.
End laws.

(** ** Operations *)

Section workspace.
Context {W : Type} `{MatrixServer W} (parse_id : string → option RoomOrAliasId) (parse_user : string → option string).
Abbreviation WM := (st W WorkspaceError).

Definition matrix {A} (m : st W SdkError A) : WM A := λ w, match m w with (Ok x, w) => (Ok x, w) | (Err _, w) => (Err Matrix, w) end.
Definition lift {A} (r : result A WorkspaceError) : WM A := λ w, (r, w).
Definition observe {A} (f : W → A) : WM A := λ w, (Ok (f w), w).

Definition map_state_write_error (room_id event_type : string) (e : SdkError) : WorkspaceError :=
  match e.(se_kind) with Some Forbidden => WorkspaceForbidden room_id event_type WORKSPACE_AGENT_PL | _ => Matrix end.
Definition state_write {A} (room_id event_type : string) (m : st W SdkError A) : WM A := λ w,
  match m w with (Ok x, w) => (Ok x, w) | (Err e, w) => (Err (map_state_write_error room_id event_type e), w) end.
Definition send_workspace_state (me room_id event_type state_key : string) (content : Value) : WM string :=
  state_write room_id event_type (sdk_send_state me room_id event_type state_key content).

Definition parse_room_or_alias (target : string) : result RoomOrAliasId WorkspaceError := ok_or (parse_id target) (InvalidTarget target).
Definition resolve_room_id (me : string) (id : RoomOrAliasId) : WM string :=
  match id with RoomId room_id => ret room_id | RoomAlias alias => matrix (sdk_resolve_alias me alias) end.
(** Parse, sync, resolve, look up; the beginning of every operation on a room. *)
Definition open_room (me target : string) : WM (string * RoomView) :=
  let! id := lift (parse_room_or_alias target) in
  let! _ := matrix (sdk_sync_once me) in
  let! room_id := resolve_room_id me id in
  let! view := observe (sdk_get_room me room_id) in
  let! view := lift (ok_or view (RoomNotFound target)) in
  ret (room_id, view).

Record WorkspaceInfo := {
  wi_room_id : string;
  wi_canonical_alias : option string;
  wi_name : option string;
  wi_topic : option string;
  wi_encrypted : bool;
  wi_joined_members : Z;
}.
Definition from_room (room_id : string) (v : RoomView) : WorkspaceInfo :=
  {| wi_room_id := room_id; wi_canonical_alias := v.(rmv_canonical_alias); wi_name := v.(rmv_name); wi_topic := v.(rmv_topic);
     wi_encrypted := v.(rmv_encrypted); wi_joined_members := v.(rmv_joined_members) |}.
Definition from_room_with_e2ee (room_id : string) (v : RoomView) (requested_e2ee : bool) : WorkspaceInfo :=
  let info := from_room room_id v in
  {| wi_room_id := info.(wi_room_id); wi_canonical_alias := info.(wi_canonical_alias); wi_name := info.(wi_name);
     wi_topic := info.(wi_topic); wi_encrypted := requested_e2ee || info.(wi_encrypted); wi_joined_members := info.(wi_joined_members) |}.
Definition create_workspace (me : string) (options : CreateWorkspaceOptions) : WM WorkspaceInfo :=
  let! (room_id, view) := matrix (sdk_create_room me (build_create_room_request options)) in
  ret (from_room_with_e2ee room_id view options.(cwo_e2ee)).
Definition join_workspace (me target : string) : WM WorkspaceInfo :=
  let! id := lift (parse_room_or_alias target) in
  let! (room_id, view) := matrix (sdk_join me id) in
  ret (from_room room_id view).

(** ** Status *)

Record MemberSummary := { ms_user_id : string; ms_display_name : option string; ms_membership : string }.
Record WorkspaceStatus := {
  wss_room_id : string;
  wss_canonical_alias : option string;
  wss_name : option string;
  wss_encrypted : bool;
  wss_joined_members : Z;
  wss_invited_members : Z;
  wss_members : list MemberSummary;
  wss_workspace : option WorkspaceState;
}.
Definition membership_label (s : MembershipState) : string :=
  match s with
  | MBan => "ban" | MInvite => "invite" | MJoin => "join" | MKnock => "knock" | MLeave => "leave"
  | MOther state => state
  end.
Definition member_le (a b : MemberSummary) : Prop := String.le a.(ms_user_id) b.(ms_user_id).
#[export] Instance member_le_dec : RelDecision member_le.
Proof. intros a b. unfold member_le. apply _. Defined.
Definition read_workspace_state (me room_id : string) : WM (option WorkspaceState) :=
  let! raw := matrix (sdk_get_workspace_state me room_id) in
  match raw with
  | Some (Content s _) => ret (Some s)
  | Some Malformed => fail Matrix
  | Some Cleared | None => ret None
  end.
Definition build_workspace_status (me room_id : string) (v : RoomView) : WM WorkspaceStatus :=
  let! members := matrix (sdk_active_members me room_id) in
  let members := map (λ m, {| ms_user_id := m.(mb_user_id); ms_display_name := m.(mb_display_name);
                              ms_membership := membership_label m.(mb_membership) |}) members in
  let members := sort_by member_le members in
  let! workspace := read_workspace_state me room_id in
  ret {| wss_room_id := room_id; wss_canonical_alias := v.(rmv_canonical_alias); wss_name := v.(rmv_name);
         wss_encrypted := v.(rmv_encrypted); wss_joined_members := v.(rmv_joined_members);
         wss_invited_members := v.(rmv_invited_members); wss_members := members; wss_workspace := workspace |}.
Definition workspace_status (me target : string) : WM WorkspaceStatus :=
  let! (room_id, view) := open_room me target in
  build_workspace_status me room_id view.

(** ** Attaching and granting *)

(** A run of git: its exit status and output, if it could be run; [trimmed] says what a
    UTF-8 output is. *)
Definition git_output (git : list string → option (bool * option string)) (args : list string) : option string :=
  match git args with
  | Some (true, Some stdout) => let value := trim stdout in if value =s "" then None else Some value
  | _ => None
  end.
Definition detect_repo_info (git : list string → option (bool * option string)) : option RepoInfo :=
  match git_output git ["rev-parse"; "--is-inside-work-tree"] with
  | Some inside =>
    if inside =s "true" then
      Some {| ri_remote_url := git_output git ["remote"; "get-url"; "origin"];
              ri_branch := git_output git ["rev-parse"; "--abbrev-ref"; "HEAD"];
              ri_commit := git_output git ["rev-parse"; "HEAD"] |}
    else None
  | None => None
  end.
Record AttachWorkspaceOptions := { awo_room : string; awo_path : string; awo_project_id : string }.
Definition attach_workspace (me : string) (is_dir : string → bool) (git : list string → option (bool * option string)) (now_ms : Z)
    (o : AttachWorkspaceOptions) : WM WorkspaceState :=
  if negb (is_dir o.(awo_path)) then fail (InvalidPath o.(awo_path))
  else
    let! (room_id, _) := open_room me o.(awo_room) in
    let! previous := read_workspace_state me room_id in
    let state_rev := match previous with Some w => wrap_u64 (w.(wst_state_rev) + 1) | None => 1 end in
    let state := {| wst_project_id := o.(awo_project_id); wst_path := o.(awo_path); wst_repo := detect_repo_info git;
                    wst_attached_by := me; wst_attached_at := now_ms; wst_state_rev := state_rev; wst_extra := ∅ |} in
    let! _ := send_workspace_state me room_id WORKSPACE "" (WorkspaceState_value state) in
    ret state.

Record GrantWorkspaceOptions := { gwo_room : string; gwo_user : string; gwo_level : option Z }.
Record WorkspaceGrant := { wg_room_id : string; wg_user : string; wg_level : Z }.
(** The integers of JavaScript. *)
Definition MAX_SAFE_INT : Z := 9007199254740991.
Definition int_new (level : Z) : option Z := if (- MAX_SAFE_INT <=? level) && (level <=? MAX_SAFE_INT) then Some level else None.
Definition grant_workspace (show : Z → string) (me : string) (o : GrantWorkspaceOptions) : WM WorkspaceGrant :=
  let level := unwrap_or o.(gwo_level) WORKSPACE_AGENT_PL in
  let! int_level := lift (ok_or (int_new level) (InvalidTarget ("power level " +:+ show level +:+ " is out of range"))) in
  let! user_id := lift (ok_or (parse_user o.(gwo_user)) (InvalidTarget o.(gwo_user))) in
  let! (room_id, _) := open_room me o.(gwo_room) in
  let! _ := state_write room_id POWER_LEVELS (sdk_update_power_levels me room_id [(user_id, int_level)]) in
  ret {| wg_room_id := room_id; wg_user := user_id; wg_level := level |}.
End workspace.

(** ** Who may write the state of a workspace *)

(** The level a workspace asks for a state event. *)
Definition required_level (ty : string) : Z := if bool_decide (ty ∈ state_ALL) then WORKSPACE_AGENT_PL else WORKSPACE_STATE_DEFAULT_PL.
Lemma override_events ty :
  default WORKSPACE_STATE_DEFAULT_PL (foldl (λ events ty, <[ty := WORKSPACE_AGENT_PL]> events) (∅ : gmap string Z) state_ALL !! ty) = required_level ty.
Proof.
  unfold required_level.
  assert (∀ l (m : gmap string Z), foldl (λ events ty, <[ty := WORKSPACE_AGENT_PL]> events) m l !! ty
            = if bool_decide (ty ∈ l) then Some WORKSPACE_AGENT_PL else m !! ty) as Hf.
  { induction l as [|x l IH] using rev_ind; intros m; [by rewrite bool_decide_false by apply not_elem_of_nil|]. rewrite foldl_snoc.
    destruct (decide (x = ty)) as [->|Hne]; [rewrite lookup_insert_eq, bool_decide_true by set_solver; done|].
    rewrite lookup_insert_ne, IH by done. erewrite bool_decide_ext; [done|set_solver]. }
  rewrite Hf. by destruct (bool_decide _).
Qed.

Section roles.
Context {W : Type} `{MatrixServer W} (parse_id : string → option RoomOrAliasId) (parse_user : string → option string) (show : Z → string).

Inductive Op :=
| OpWrite (me ty key : string) (v : Value)
| OpGrant (me : string) (o : GrantWorkspaceOptions)
| OpAttach (me : string) (is_dir : string → bool) (git : list string → option (bool * option string)) (now_ms : Z) (o : AttachWorkspaceOptions)
| OpStatus (me target : string)
| OpJoin (me target : string)
| OpCreate (me : string) (o : CreateWorkspaceOptions).
Inductive Outcome :=
| Wrote (me ty : string) (r : result string WorkspaceError)
| Granted (me : string) (r : result WorkspaceGrant WorkspaceError)
| Other.
(** The users' levels in a workspace, as the grants that succeeded make them. *)
Abbreviation Roles := (gmap string Z).
Definition role (roles : Roles) (u : string) : Z := default 0 (roles !! u).

Definition op_outcome (room : string) (op : Op) (w : W) : Outcome * W :=
  match op with
  | OpWrite me ty key v => let '(r, w) := send_workspace_state me room ty key v w in (Wrote me ty r, w)
  | OpGrant me o => let '(r, w) := grant_workspace parse_id parse_user show me o w in (Granted me r, w)
  | OpAttach me is_dir git now_ms o => let '(_, w) := attach_workspace parse_id me is_dir git now_ms o w in (Other, w)
  | OpStatus me target => let '(_, w) := workspace_status parse_id me target w in (Other, w)
  | OpJoin me target => let '(_, w) := join_workspace parse_id me target w in (Other, w)
  | OpCreate me o => let '(_, w) := create_workspace me o w in (Other, w)
  end.
Definition grant_role (room : string) (out : Outcome) (roles : Roles) : Roles :=
  match out with
  | Granted _ (Ok g) => if g.(wg_room_id) =s room then <[g.(wg_user) := g.(wg_level)]> roles else roles
  | _ => roles
  end.
(** What a step may do, given the roles and the members before it. *)
Definition step_allowed (room : string) (roles : Roles) (w : W) (out : Outcome) : Prop :=
  match out with
  | Wrote me ty (Ok _) => required_level ty ≤ role roles me
  | Wrote me ty (Err e) =>
    (role roles me < required_level ty → e = WorkspaceForbidden room ty WORKSPACE_AGENT_PL ∨ e = Matrix) ∧
    (required_level ty ≤ role roles me → joined w room me → e ≠ WorkspaceForbidden room ty WORKSPACE_AGENT_PL)
  | Granted me (Ok g) => g.(wg_room_id) = room → WORKSPACE_STATE_DEFAULT_PL ≤ role roles me
  | _ => True
  end.
Fixpoint history_ok (room : string) (ops : list Op) (roles : Roles) (w : W) : Prop :=
  match ops with
  | [] => ∃ pl, power_levels w room = Some pl ∧ ∀ u, user_level pl u = role roles u
  | op :: ops =>
    let '(out, w') := op_outcome room op w in
    step_allowed room roles w out ∧ history_ok room ops (grant_role room out roles) w'
  end.
Definition native_write (op : Op) : Prop := match op with OpWrite _ ty _ _ => ty ≠ POWER_LEVELS | _ => True end.

(** ** The levels in the homeserver are the roles *)

Definition governed (room : string) (roles : Roles) (w : W) : Prop :=
  ∃ pl, power_levels w room = Some pl ∧ (∀ ty, state_level pl ty = required_level ty) ∧ ∀ u, user_level pl u = role roles u.
Lemma governed_same room roles w w' : power_levels w' room = power_levels w room → governed room roles w → governed room roles w'.
Proof. intros Hs (pl & Hpl & Hr). exists pl. by rewrite Hs. Qed.

Context `{!MatrixLaws (W := W)}.
Lemma nothing_ret {A E} (x : A) : changes_nothing (ret x : st W E A).
Proof. by intros w room. Qed.
Lemma nothing_lift {A} (r : result A WorkspaceError) : changes_nothing (lift r : st W WorkspaceError A).
Proof. by intros w room. Qed.
Lemma nothing_observe {A} (f : W → A) : changes_nothing (observe f).
Proof. by intros w room. Qed.
Lemma nothing_fail {A E} (e : E) : changes_nothing (fail e : st W E A).
Proof. by intros w room. Qed.
Lemma nothing_bind {A B E} (m : st W E A) (f : A → st W E B) : changes_nothing m → (∀ x, changes_nothing (f x)) → changes_nothing (bind m f).
Proof.
  intros Hm Hf w room. unfold bind. specialize (Hm w). destruct (m w) as [[x|e] w1]; cbn in *; [|apply Hm].
  destruct (Hm room) as [H1 H2]. destruct (Hf x w1 room) as [H3 H4]. split; [by rewrite H3|auto].
Qed.
Lemma nothing_matrix {A} (m : st W SdkError A) : changes_nothing m → changes_nothing (matrix m).
Proof. intros Hm w room. unfold matrix. specialize (Hm w). destruct (m w) as [[x|e] w1]; apply Hm. Qed.
Lemma nothing_state_write {A} room ty (m : st W SdkError A) : changes_nothing m → changes_nothing (state_write room ty m).
Proof. intros Hm w r. unfold state_write. specialize (Hm w). destruct (m w) as [[x|e] w1]; apply Hm. Qed.
Create HintDb room.
Hint Resolve nothing_ret nothing_lift nothing_observe nothing_fail nothing_bind nothing_matrix nothing_state_write law_join law_sync law_resolve
  law_members law_read law_send_same : room.

Lemma nothing_open me target : changes_nothing (open_room parse_id me target).
Proof.
  apply nothing_bind; [auto with room|intros id]. apply nothing_bind; [auto with room|intros _].
  apply nothing_bind; [destruct id; cbn; auto with room|intros room].
  apply nothing_bind; [apply nothing_observe|intros view]. apply nothing_bind; [apply nothing_lift|auto with room].
Qed.
Lemma nothing_read_state me room : changes_nothing (read_workspace_state me room).
Proof. apply nothing_bind; [auto with room|]. intros [[]|]; auto with room. Qed.
Lemma nothing_attach me is_dir git now_ms o : changes_nothing (attach_workspace parse_id me is_dir git now_ms o).
Proof.
  unfold attach_workspace. destruct (negb _); [auto with room|]. apply nothing_bind; [apply nothing_open|intros [room view]].
  apply nothing_bind; [apply nothing_read_state|intros previous]. apply nothing_bind; [|auto with room]. by apply nothing_state_write, law_send_same.
Qed.
Lemma nothing_status me target : changes_nothing (workspace_status parse_id me target).
Proof.
  apply nothing_bind; [apply nothing_open|intros [room view]]. apply nothing_bind; [auto with room|intros members].
  apply nothing_bind; [apply nothing_read_state|auto with room].
Qed.
Lemma nothing_joining me target : changes_nothing (join_workspace parse_id me target).
Proof. apply nothing_bind; [auto with room|intros id]. apply nothing_bind; [auto with room|intros []; auto with room]. Qed.

Lemma create_keeps room roles me o w : governed room roles w → governed room roles (create_workspace me o w).2.
Proof.
  intros (pl & Hpl & Hr). pose proof (law_create_other me (build_create_room_request o) w room) as Hc. rewrite Hpl in Hc.
  destruct Hc as [Hc _]; [done|]. apply (governed_same room roles w); [|by exists pl]. rewrite Hpl. unfold create_workspace, bind, matrix.
  destruct (sdk_create_room me _ w) as [[[id view]|e] w1]; exact Hc.
Qed.
Lemma created_governed creator o w info w1 :
  create_workspace creator o w = (Ok info, w1) → governed info.(wi_room_id) {[creator := 100]} w1.
Proof.
  unfold create_workspace, bind, matrix. destruct (sdk_create_room creator _ w) as [[[id view]|e] w'] eqn:E; [|done].
  intros [= <- <-]. apply law_created in E as (base & Hu & _ & _ & Hpl). cbn in Hpl. exists (overlay base build_power_level_override).
  split; [done|]. split; [intros ty; apply override_events|]. intros u. unfold user_level, role, overlay. cbn. by rewrite Hu.
Qed.

Lemma write_allowed room roles me ty key v w :
  governed room roles w → ty ≠ POWER_LEVELS →
  step_allowed room roles w (Wrote me ty (send_workspace_state me room ty key v w).1) ∧
  governed room roles (send_workspace_state me room ty key v w).2.
Proof.
  intros Hg Hty. split.
  - destruct Hg as (pl & Hpl & Hs & Hu). pose proof (law_send me room ty key v w pl Hpl) as Hl. rewrite Hs, Hu in Hl.
    unfold send_workspace_state, state_write. destruct (sdk_send_state me room ty key v w) as [[id|e] w1]; cbn in *; [done|].
    destruct Hl as [Hf Hlow]. unfold map_state_write_error, is_forbidden in *. split.
    + intros Hlt. destruct (Hlow Hlt) as [-> | ->]; auto.
    + intros Hge Hj. destruct (se_kind e) as [[]|]; try done. specialize (Hf eq_refl Hj). lia.
  - eapply governed_same; [|done]. apply nothing_state_write. by apply law_send_same.
Qed.
Lemma power_levels_required : required_level POWER_LEVELS = WORKSPACE_STATE_DEFAULT_PL.
Proof. reflexivity. Qed.
Lemma grant_allowed room roles me o w :
  governed room roles w →
  let '(r, w') := grant_workspace parse_id parse_user show me o w in
  step_allowed room roles w (Granted me r) ∧ governed room (grant_role room (Granted me r) roles) w'.
Proof.
  intros Hg. unfold grant_workspace. set (level := unwrap_or _ _). unfold bind at 1, lift at 1. unfold int_new.
  destruct (_ && _); cbn [ok_or]; [|done]. unfold bind at 1, lift. destruct (parse_user _) as [user|]; cbn [ok_or]; [|done].
  unfold bind at 1. pose proof (nothing_open me (gwo_room o) w) as Hopen.
  destruct (open_room parse_id me (gwo_room o) w) as [[[id view]|e] w1]; cbn in Hopen; [|by split; [|eapply governed_same; [apply Hopen|]]].
  eapply (governed_same _ _ _ w1) in Hg; [|apply Hopen]. destruct Hg as (pl & Hpl & Hs & Hu). unfold bind, state_write, ret.
  destruct (decide (id = room)) as [->|Hne].
  - pose proof (law_update me room [(user, level)] w1 pl Hpl) as Hl. rewrite Hs, Hu, power_levels_required in Hl.
    destruct (sdk_update_power_levels me room [(user, level)] w1) as [[[]|e] w2]; cbn [fst snd] in Hl; cbn.
    + destruct Hl as [Hle (pl' & Hpl' & He & Hd & Hu')]. split; [done|]. rewrite str_eqb_refl. exists pl'. split; [done|]. split.
      * intros ty. rewrite <- Hs. unfold state_level. by rewrite He, Hd.
      * intros u. rewrite Hu', list_to_map_cons, list_to_map_nil. unfold role. cbn [fst snd wg_user wg_level].
        destruct (decide (u = user)) as [->|Hu2]; [by rewrite !lookup_insert_eq|]. rewrite !lookup_insert_ne, lookup_empty by done. apply Hu.
    + split; [done|]. exists pl. by destruct Hl.
  - pose proof (law_update_other me id [(user, level)] w1 room) as Ho. destruct (sdk_update_power_levels me id [(user, level)] w1) as [[[]|e] w2]; cbn in Ho |- *.
    + split; [done|]. rewrite (proj2 (str_eqb_neq id room)) by done. exists pl. by rewrite Ho.
    + split; [done|]. exists pl. by rewrite Ho.
Qed.
Lemma step_sound room op roles w out w' :
  governed room roles w → native_write op → op_outcome room op w = (out, w') →
  step_allowed room roles w out ∧ governed room (grant_role room out roles) w'.
Proof.
  intros Hg Hn. destruct op as [me ty key v|me o|me is_dir git now_ms o|me target|me target|me o]; cbn [op_outcome].
  - pose proof (write_allowed room roles me ty key v w Hg Hn) as [H1 H2]. destruct (send_workspace_state me room ty key v w) as [r w1]. by intros [= <- <-].
  - pose proof (grant_allowed room roles me o w Hg) as Hgr. destruct (grant_workspace parse_id parse_user show me o w) as [r w1]. by intros [= <- <-].
  - pose proof (nothing_attach me is_dir git now_ms o w room) as [Hs _]. destruct (attach_workspace parse_id me is_dir git now_ms o w) as [r w1]. intros [= <- <-].
    split; [done|]. by eapply governed_same.
  - pose proof (nothing_status me target w room) as [Hs _]. destruct (workspace_status parse_id me target w) as [r w1]. intros [= <- <-].
    split; [done|]. by eapply governed_same.
  - pose proof (nothing_joining me target w room) as [Hs _]. destruct (join_workspace parse_id me target w) as [r w1]. intros [= <- <-].
    split; [done|]. by eapply governed_same.
  - pose proof (create_keeps room roles me o w Hg) as Hk. destruct (create_workspace me o w) as [r w1]. by intros [= <- <-].
Qed.

(** Who may write a workspace's state is what its creator granted.  In a room that
    [create_workspace] made, over any sequence of operations of any users, a user's level is
    the last level granted to it (100 for the creator, 0 for everyone else at first); a
    [com.mxagent.*] state event is written only by users at 50 and every other state event
    only at 100; who is below is told so, who is at the level is never told so; and a
    grant succeeds only for a user at 100, so that no granted agent passes its role on. *)
Theorem workspace_roles creator o w info w1 ops :
  create_workspace creator o w = (Ok info, w1) → Forall native_write ops →
  history_ok info.(wi_room_id) ops {[creator := 100]} w1.
Proof.
  intros Hc%created_governed Hops. revert Hc. generalize ({[creator := 100]} : Roles) w1. induction Hops as [|op ops Hop Hops IH]; intros roles w0 Hg; cbn.
  - destruct Hg as (pl & Hpl & _ & Hu). by exists pl.
  - destruct (op_outcome (wi_room_id info) op w0) as [out w'] eqn:E. destruct (step_sound _ _ _ _ _ _ Hg Hop E) as [Ha Hg']. split; [done|]. by apply IH.
Qed.
End roles.

(** ** A homeserver that obeys the laws *)

Module Toy.
Record Server := { sv_rooms : gmap string PowerLevels; sv_next : nat }.
Definition view : RoomView :=
  {| rmv_canonical_alias := None; rmv_name := None; rmv_topic := None; rmv_encrypted := false; rmv_joined_members := 1; rmv_invited_members := 0 |}.
Definition base (me : string) : PowerLevels :=
  {| pl_users := {[me := 100]}; pl_users_default := 0; pl_events := {["m.room.name" := 50]}; pl_events_default := 0; pl_state_default := 50 |}.
Definition refused : SdkError := {| se_kind := Some Forbidden; se_text := "M_FORBIDDEN" |}.
Definition unknown : SdkError := {| se_kind := Some OtherKind; se_text := "M_NOT_FOUND" |}.
(** The room [!r], if it is free. *)
Definition create (me : string) (req : CreateRoomRequest) : st Server SdkError (string * RoomView) := λ w,
  match w.(sv_rooms) !! "!r" with
  | Some _ => (Err unknown, w)
  | None =>
    let pl := match req.(crq_power_level_content_override) with Some o => overlay (base me) o | None => base me end in
    (Ok ("!r", view), {| sv_rooms := <["!r" := pl]> w.(sv_rooms); sv_next := w.(sv_next) |})
  end.
Definition accept {A} (me room ty : string) (x : A) (change : PowerLevels → PowerLevels) : st Server SdkError A := λ w,
  match w.(sv_rooms) !! room with
  | None => (Err unknown, w)
  | Some pl =>
    if state_level pl ty <=? user_level pl me
    then (Ok x, {| sv_rooms := <[room := change pl]> w.(sv_rooms); sv_next := S w.(sv_next) |}) else (Err refused, w)
  end.
Definition set_users (users : list (string * Z)) (pl : PowerLevels) : PowerLevels :=
  {| pl_users := list_to_map users ∪ pl.(pl_users); pl_users_default := pl.(pl_users_default); pl_events := pl.(pl_events);
     pl_events_default := pl.(pl_events_default); pl_state_default := pl.(pl_state_default) |}.
#[local] Instance server : MatrixServer Server := {
  sdk_create_room := create;
  sdk_join me id := ret ("!r", view);
  sdk_sync_once me := ret "s";
  sdk_resolve_alias me alias := ret "!r";
  sdk_get_room me room w := if bool_decide (is_Some (w.(sv_rooms) !! room)) then Some view else None;
  sdk_active_members me room := ret [];
  sdk_get_workspace_state me room := ret None;
  sdk_send_state me room ty key v := accept me room ty "$e" id;
  sdk_update_power_levels me room users := accept me room POWER_LEVELS tt (set_users users);
  power_levels w room := w.(sv_rooms) !! room;
  joined w room u := True;
}.
Lemma accept_same {A} me room ty (x : A) : changes_nothing (accept me room ty x id).
Proof.
  intros w r. unfold accept. cbn. destruct (sv_rooms w !! room) as [pl|] eqn:E; [|done]. destruct (_ <=? _); [|done]. cbn.
  split; [|done]. destruct (decide (r = room)) as [->|Hne]; [by rewrite lookup_insert_eq, E|by rewrite lookup_insert_ne].
Qed.
#[local] Instance server_laws : MatrixLaws (W := Server).
Proof.
  split; try (intros; intros w r; done); cbn.
  - intros me req w id v w'. unfold create. destruct (sv_rooms w !! "!r") eqn:E; [done|]. intros [= <- <- <-]. exists (base me).
    split_and!; [done..|]. cbn. by rewrite lookup_insert_eq.
  - intros me req w room Hr. unfold create. destruct (sv_rooms w !! "!r") eqn:E; [done|]. cbn. split; [|done].
    rewrite lookup_insert_ne; [done|]. intros <-. congruence.
  - intros me room ty key v _. apply accept_same.
  - intros me room ty key v w pl Hpl. unfold accept. rewrite Hpl. destruct (Z.leb_spec (state_level pl ty) (user_level pl me)); cbn; [done|].
    split; [lia|by left].
  - intros me room users w r Hr. unfold accept. destruct (sv_rooms w !! room); [|done]. destruct (_ <=? _); [|done]. cbn. by rewrite lookup_insert_ne.
  - intros me room users w pl Hpl. unfold accept. rewrite Hpl. destruct (Z.leb_spec (state_level pl POWER_LEVELS) (user_level pl me)); cbn.
    + split; [done|]. exists (set_users users pl). rewrite lookup_insert_eq. split_and!; [done..|]. intros u. unfold user_level, set_users. cbn.
      rewrite lookup_union. by destruct (list_to_map users !! u), (pl_users pl !! u).
    + split; [done|by left].
Qed.

Definition created : result WorkspaceInfo WorkspaceError * Server := create_workspace "@me:s" default_create_options {| sv_rooms := ∅; sv_next := 0 |}.
Definition grant (user : string) : GrantWorkspaceOptions := {| gwo_room := "!r"; gwo_user := user; gwo_level := None |}.
(** The agent writes before and after the creator's grant, then tries to pass its role on. *)
Definition ops : list Op :=
  [OpWrite "@agent:s" TASK "t" Null; OpGrant "@me:s" (grant "@agent:s"); OpWrite "@agent:s" TASK "t" Null;
   OpWrite "@agent:s" "m.room.name" "" Null; OpGrant "@agent:s" (grant "@eve:s")].
Fixpoint outcomes (ops : list Op) (w : Server) : list Outcome :=
  match ops with
  | [] => []
  | op :: ops => let '(out, w) := op_outcome (λ s, Some (RoomId s)) Some (λ _, "") "!r" op w in out :: outcomes ops w
  end.
Lemma workspace_roles_witness :
  outcomes ops created.2 =
    [Wrote "@agent:s" TASK (Err (WorkspaceForbidden "!r" TASK 50));
     Granted "@me:s" (Ok {| wg_room_id := "!r"; wg_user := "@agent:s"; wg_level := 50 |});
     Wrote "@agent:s" TASK (Ok "$e");
     Wrote "@agent:s" "m.room.name" (Err (WorkspaceForbidden "!r" "m.room.name" 50));
     Granted "@agent:s" (Err (WorkspaceForbidden "!r" POWER_LEVELS 50))] ∧
  history_ok (λ s, Some (RoomId s)) Some (λ _, "") "!r" ops {["@me:s" := 100]} created.2.
Proof.
  split; [vm_compute; reflexivity|].
  apply (workspace_roles (λ s, Some (RoomId s)) Some (λ _, "") "@me:s" default_create_options {| sv_rooms := ∅; sv_next := 0 |}
           (from_room_with_e2ee "!r" view false) created.2 ops).
  - vm_compute. reflexivity.
  - repeat constructor; discriminate.
Defined.
End Toy.
