(* ===== verification/Watch.v ===== *)
(** * Watching a room

    Models [crates/mx-agent-daemon/src/watch.rs]: the watch loop, which forwards a snapshot
    only when it differs from the last, and [diff_tasks], which turns two task lists into
    changes by id.  What each tick of the loop brings is an input. *)
From Stdlib Require Import ZArith Lia.
From stdpp Require Import gmap strings list sorting.
From S2P Require Import Prelude RustStr CanonicalJson Schema Room TaskLifecycle SyncLoop Workspace.
Local Open Scope Z_scope.

(** ** Equality of snapshots *)

#[export] Instance Number_eq_dec : EqDecision Number.
Proof. solve_decision. Defined.
#[export] Instance Value_eq_dec : EqDecision Value.
Proof.
  refine (fix go (v w : Value) {struct v} : Decision (v = w) :=
    match v, w with
    | Null, Null => left eq_refl
    | Bool a, Bool b => cast_if (decide (a = b))
    | Num a, Num b => cast_if (decide (a = b))
    | Str a, Str b => cast_if (decide (a = b))
    | Array a, Array b =>
      cast_if ((fix go_items (l k : list Value) {struct l} : Decision (l = k) :=
        match l, k with
        | [], [] => left eq_refl
        | x :: l, y :: k => cast_if_and (go x y) (go_items l k)
        | _, _ => right _
        end) a b)
    | Object a, Object b =>
      cast_if ((fix go_entries (l k : list (string * Value)) {struct l} : Decision (l = k) :=
        match l, k with
        | [], [] => left eq_refl
        | (n, x) :: l, (n', y) :: k => cast_if_and3 (decide (n = n')) (go x y) (go_entries l k)
        | _, _ => right _
        end) a b)
    | _, _ => right _
    end); clear go; try clear go_items; try clear go_entries; congruence.
Defined.
#[export] Instance Signature_eq_dec : EqDecision Signature.
Proof. solve_decision. Defined.
#[export] Instance TaskActionAuthorization_eq_dec : EqDecision TaskActionAuthorization.
Proof. solve_decision. Defined.
#[export] Instance TaskAction_eq_dec : EqDecision TaskAction.
Proof. solve_decision. Defined.
#[export] Instance TaskState_eq_dec : EqDecision TaskState.
Proof. solve_decision. Defined.

(** JSON objects are maps: two of them are equal whatever the order of their entries.  The
    derived equality of a task compares its fields so, that is, their canonical forms. *)
Definition canon_authorization (a : TaskActionAuthorization) : TaskActionAuthorization :=
  {| taa_requesting_agent := a.(taa_requesting_agent); taa_target_agent := a.(taa_target_agent); taa_created_at := a.(taa_created_at);
     taa_expires_at := a.(taa_expires_at); taa_nonce := a.(taa_nonce); taa_signature := a.(taa_signature); taa_extra := canon <$> a.(taa_extra) |}.
Definition canon_action (a : TaskAction) : TaskAction :=
  match a with
  | Tool tool args auth => Tool tool (canon args) (canon_authorization <$> auth)
  | Exec command cwd env timeout_ms stream auth => Exec command cwd env timeout_ms stream (canon_authorization <$> auth)
  end.
Definition canon_task (t : TaskState) : TaskState :=
  {| ts_task_id := t.(ts_task_id); ts_title := t.(ts_title); ts_description := t.(ts_description); ts_state := t.(ts_state);
     ts_assigned_to := t.(ts_assigned_to); ts_created_by := t.(ts_created_by); ts_depends_on := t.(ts_depends_on); ts_blocks := t.(ts_blocks);
     ts_invocation_id := t.(ts_invocation_id); ts_created_at := t.(ts_created_at); ts_updated_at := t.(ts_updated_at);
     ts_state_rev := t.(ts_state_rev); ts_previous_event_id := t.(ts_previous_event_id); ts_result := canon <$> t.(ts_result);
     ts_action := canon_action <$> t.(ts_action); ts_extra := canon <$> t.(ts_extra) |}.
Definition task_eqb (a b : TaskState) : bool := bool_decide (canon_task a = canon_task b).
Definition tasks_eqb (a b : list TaskState) : bool := bool_decide (map canon_task a = map canon_task b).

#[export] Instance RepoInfo_eq_dec : EqDecision RepoInfo.
Proof. solve_decision. Defined.
#[export] Instance WorkspaceState_eq_dec : EqDecision WorkspaceState.
Proof. solve_decision. Defined.
#[export] Instance MemberSummary_eq_dec : EqDecision MemberSummary.
Proof. solve_decision. Defined.
#[export] Instance WorkspaceStatus_eq_dec : EqDecision WorkspaceStatus.
Proof. solve_decision. Defined.
Definition canon_workspace (w : WorkspaceState) : WorkspaceState :=
  {| wst_project_id := w.(wst_project_id); wst_path := w.(wst_path); wst_repo := w.(wst_repo); wst_attached_by := w.(wst_attached_by);
     wst_attached_at := w.(wst_attached_at); wst_state_rev := w.(wst_state_rev); wst_extra := canon <$> w.(wst_extra) |}.
Definition canon_status (s : WorkspaceStatus) : WorkspaceStatus :=
  {| wss_room_id := s.(wss_room_id); wss_canonical_alias := s.(wss_canonical_alias); wss_name := s.(wss_name); wss_encrypted := s.(wss_encrypted);
     wss_joined_members := s.(wss_joined_members); wss_invited_members := s.(wss_invited_members); wss_members := s.(wss_members);
     wss_workspace := canon_workspace <$> s.(wss_workspace) |}.
Definition status_eqb (a b : WorkspaceStatus) : bool := bool_decide (canon_status a = canon_status b).

(** ** Changes between two task lists *)

Inductive TaskChange := Added (task : TaskState) | Removed (task : TaskState) | Updated (previous current : TaskState).
Definition change_task_id (c : TaskChange) : string :=
  match c with Added t | Removed t => t.(ts_task_id) | Updated _ current => current.(ts_task_id) end.
(** [collect] into a [BTreeMap]: the last entry of a key stays. *)
Definition by_id (tasks : list TaskState) : gmap string TaskState := foldl (λ m t, <[t.(ts_task_id) := t]> m) ∅ tasks.
Definition change_le (a b : TaskChange) : Prop := String.le (change_task_id a) (change_task_id b).
#[export] Instance change_le_dec : RelDecision change_le.
Proof. intros a b. unfold change_le. apply _. Defined.
#[export] Instance change_le_total : Total change_le.
Proof. intros a b. unfold change_le. apply (total String.le). Qed.
#[export] Instance change_le_trans : Transitive change_le.
Proof. intros a b c. unfold change_le. apply transitivity. Qed.
Definition added_or_updated (prev_by_id : gmap string TaskState) (entry : string * TaskState) : option TaskChange :=
  match prev_by_id !! entry.1 with
  | None => Some (Added entry.2)
  | Some prev => if negb (task_eqb prev entry.2) then Some (Updated prev entry.2) else None
  end.
Definition removed (curr_by_id : gmap string TaskState) (entry : string * TaskState) : option TaskChange :=
  match curr_by_id !! entry.1 with None => Some (Removed entry.2) | Some _ => None end.
Definition diff_tasks (previous current : list TaskState) : list TaskChange :=
  let prev_by_id := by_id previous in
  let curr_by_id := by_id current in
  sort_by change_le (omap (added_or_updated prev_by_id) (btree_iter curr_by_id) ++ omap (removed curr_by_id) (btree_iter prev_by_id)).

(** ** The loop *)

Record WatchConfig := { wc_sync_timeout : Z; wc_backoff : BackoffConfig }.
Definition DEFAULT_WATCH_SYNC_TIMEOUT : Z := 30000.
Definition default_watch_config : WatchConfig := {| wc_sync_timeout := DEFAULT_WATCH_SYNC_TIMEOUT; wc_backoff := default_backoff |}.
Inductive WatchUpdate (T : Type) :=
| Initial (snapshot : T)
| Changed (previous current : T)
| Reconnecting (attempt : Z) (error : string)
| Reconnected.
Arguments Initial {_} _.
Arguments Changed {_} _ _.
Arguments Reconnecting {_} _ _.
Arguments Reconnected {_}.

Section watch.
Context {T : Type} (same : T → T → bool).

(** What a sync of the loop brings, and what is read after it. *)
Inductive Tick := Synced (next_batch : string) (read : result T WorkspaceError) | SyncFailed (e : SdkError) (now : Z).
Record WatchState := {
  wt_next_batch : string;
  wt_last : T;
  wt_backoff : Backoff;
  wt_failures : Z;
  wt_updates : list (WatchUpdate T);
  wt_sleeps : list Z;
}.
Definition reconnected (next_batch : string) (s : WatchState) : WatchState :=
  if 0 <? s.(wt_failures) then
    {| wt_next_batch := next_batch; wt_last := s.(wt_last); wt_backoff := backoff_reset s.(wt_backoff); wt_failures := 0;
       wt_updates := s.(wt_updates) ++ [Reconnected]; wt_sleeps := s.(wt_sleeps) |}
  else
    {| wt_next_batch := next_batch; wt_last := s.(wt_last); wt_backoff := s.(wt_backoff); wt_failures := s.(wt_failures);
       wt_updates := s.(wt_updates); wt_sleeps := s.(wt_sleeps) |}.
Definition forward (current : T) (s : WatchState) : WatchState :=
  if negb (same current s.(wt_last)) then
    {| wt_next_batch := s.(wt_next_batch); wt_last := current; wt_backoff := s.(wt_backoff); wt_failures := s.(wt_failures);
       wt_updates := s.(wt_updates) ++ [Changed s.(wt_last) current]; wt_sleeps := s.(wt_sleeps) |}
  else s.
Definition watch_delay (config : WatchConfig) (floor : Z) (e : SdkError) (now : Z) : Z :=
  rate_limited_delay floor (kind ← e.(se_kind); rate_limit_retry_after kind now config.(wc_backoff).(bc_rate_limit_ceiling)).
Definition retry (config : WatchConfig) (e : SdkError) (now : Z) (s : WatchState) : WatchState :=
  let failures := sat_u32 (s.(wt_failures) + 1) in
  let '(floor, b) := next_delay s.(wt_backoff) in
  {| wt_next_batch := s.(wt_next_batch); wt_last := s.(wt_last); wt_backoff := b; wt_failures := failures;
     wt_updates := s.(wt_updates) ++ [Reconnecting failures e.(se_text)]; wt_sleeps := s.(wt_sleeps) ++ [watch_delay config floor e now] |}.
(** One iteration: the state to go on with, or that the error is fatal. *)
Definition watch_tick (config : WatchConfig) (t : Tick) (s : WatchState) : option WatchState :=
  match t with
  | Synced next_batch read =>
    let s := reconnected next_batch s in
    Some (match read with Ok current => forward current s | Err _ => s end)
  | SyncFailed e now => if is_fatal_sync_error e then None else Some (retry config e now s)
  end.
Fixpoint watch_loop (config : WatchConfig) (ticks : list Tick) (s : WatchState) : result unit WorkspaceError * WatchState :=
  match ticks with
  | [] => (Ok tt, s)
  | t :: ticks => match watch_tick config t s with None => (Err Matrix, s) | Some s => watch_loop config ticks s end
  end.
Definition watch_state (config : WatchConfig) (next_batch : string) (last : T) : WatchState :=
  {| wt_next_batch := next_batch; wt_last := last; wt_backoff := backoff_new config.(wc_backoff); wt_failures := 0;
     wt_updates := [Initial last]; wt_sleeps := [] |}.

Context {W : Type} `{MatrixServer W} (parse_id : string → option RoomOrAliasId).
(** Up to the first callback. *)
Definition watch_start (me target : string) (read : string → RoomView → st W WorkspaceError T) : st W WorkspaceError (string * T) :=
  let! id := lift (parse_room_or_alias parse_id target) in
  let! next_batch := matrix (sdk_sync_once me) in
  let! room_id := resolve_room_id me id in
  let! view := observe (sdk_get_room me room_id) in
  let! view := lift (ok_or view (RoomNotFound target)) in
  let! last := read room_id view in
  ret (next_batch, last).
(** The result and the updates the callback was given. *)
Definition run_watch (me target : string) (config : WatchConfig) (ticks : list Tick) (read : string → RoomView → st W WorkspaceError T) (w : W) :
    result unit WorkspaceError * list (WatchUpdate T) :=
  match watch_start me target read w with
  | (Err e, _) => (Err e, [])
  | (Ok (next_batch, last), _) =>
    let '(r, s) := watch_loop config ticks (watch_state config next_batch last) in (r, s.(wt_updates))
  end.
End watch.
Arguments Synced {_} _ _.
Arguments SyncFailed {_} _ _.

Section surfaces.
Context {W : Type} `{MatrixServer W} (parse_id : string → option RoomOrAliasId).
(** [listing]: the room's task events in the client's store. *)
Definition watch_tasks (listing : string → st W SdkError (list (StateEvent TaskState))) (me room : string) (options : ListTasksOptions)
    (config : WatchConfig) (ticks : list (Tick (T := list TaskState))) : W → result unit WorkspaceError * list (WatchUpdate (list TaskState)) :=
  run_watch tasks_eqb parse_id me room config ticks
    (λ room_id _, let! raws := matrix (listing room_id) in lift (read_tasks raws options)).
Definition watch_workspace_status (me target : string) (config : WatchConfig) (ticks : list (Tick (T := WorkspaceStatus))) :
    W → result unit WorkspaceError * list (WatchUpdate WorkspaceStatus) :=
  run_watch status_eqb parse_id me target config ticks (build_workspace_status me).
End surfaces.

(** ** The changes are exact *)

(** What a change makes of a viewer's map. *)
Definition patch (m : gmap string TaskState) (c : TaskChange) : gmap string TaskState :=
  match c with
  | Added t | Updated _ t => <[t.(ts_task_id) := t]> m
  | Removed t => delete t.(ts_task_id) m
  end.
Definition change_after (c : TaskChange) : option TaskState := match c with Added t | Updated _ t => Some t | Removed _ => None end.
Lemma patch_lookup m c k : patch m c !! k = if decide (change_task_id c = k) then change_after c else m !! k.
Proof.
  destruct c as [t|t|p t]; simpl; case_decide as Hk; subst;
    by rewrite ?lookup_insert_eq, ?lookup_delete_eq, ?lookup_insert_ne, ?lookup_delete_ne by done.
Qed.
Lemma patches_lookup l : ∀ m k,
  NoDup (map change_task_id l) →
  (∀ c, c ∈ l → change_task_id c = k → foldl patch m l !! k = change_after c) ∧
  ((∀ c, c ∈ l → change_task_id c ≠ k) → foldl patch m l !! k = m !! k).
Proof.
  induction l as [|x l IH] using rev_ind; intros m k Hnd; [split; [intros c Hc; by apply not_elem_of_nil in Hc|done]|].
  rewrite foldl_snoc, patch_lookup. rewrite map_app in Hnd. simpl in Hnd. apply NoDup_app in Hnd as (Hnd & Hx & _).
  destruct (IH m k Hnd) as [IH1 IH2]. split.
  - intros c Hc Hk. case_decide as Hxk.
    + apply elem_of_app in Hc as [Hc|Hc]; [|apply list_elem_of_singleton in Hc as ->; done].
      destruct (Hx k); [|rewrite Hxk; by apply list_elem_of_singleton]. rewrite <- Hk. by apply list_elem_of_fmap_2.
    + apply elem_of_app in Hc as [Hc|Hc]; [by apply IH1|]. apply list_elem_of_singleton in Hc as ->. done.
  - intros Hall. rewrite decide_False by (apply Hall, elem_of_app; right; by apply list_elem_of_singleton). apply IH2. intros c Hc.
    apply Hall, elem_of_app. by left.
Qed.
Lemma by_id_key tasks k t : by_id tasks !! k = Some t → t.(ts_task_id) = k.
Proof.
  unfold by_id. induction tasks as [|x tasks IH] using rev_ind; [done|]. rewrite foldl_snoc.
  destruct (decide (x.(ts_task_id) = k)) as [<-|Hne]; [rewrite lookup_insert_eq; congruence|by rewrite lookup_insert_ne].
Qed.

Section diff.
Context (previous current : list TaskState).
Let m0 := by_id previous.
Let m1 := by_id current.
Definition differs (k : string) : Prop := canon_task <$> m0 !! k ≠ canon_task <$> m1 !! k.
(** The change an id calls for. *)
Definition change_of (k : string) : option TaskChange :=
  match m0 !! k, m1 !! k with
  | None, Some t => Some (Added t)
  | Some p, Some t => if negb (task_eqb p t) then Some (Updated p t) else None
  | Some p, None => Some (Removed p)
  | None, None => None
  end.
Lemma change_of_id k c : change_of k = Some c → change_task_id c = k.
Proof.
  unfold change_of. destruct (m0 !! k) as [p|] eqn:E0, (m1 !! k) as [t|] eqn:E1; [destruct (negb _)|..]; intros [= <-]; simpl;
    first [by apply (by_id_key current)|by apply (by_id_key previous)].
Qed.
Lemma change_of_differs k : is_Some (change_of k) ↔ differs k.
Proof.
  unfold change_of, differs, task_eqb. destruct (m0 !! k) as [p|], (m1 !! k) as [t|]; simpl.
  - destruct (decide (canon_task p = canon_task t)) as [E|E].
    + rewrite bool_decide_true by done. simpl. split; [by intros []|]. intros []. by f_equal.
    + rewrite bool_decide_false by done. simpl. split; [congruence|by eexists].
  - split; [done|by eexists].
  - split; [done|by eexists].
  - split; [by intros []|done].
Qed.
Lemma elem_of_diff c : c ∈ diff_tasks previous current ↔ ∃ k, change_of k = Some c.
Proof.
  unfold diff_tasks. rewrite elem_of_sort_by, elem_of_app, !list_elem_of_omap. fold m0 m1. split.
  - intros [([k t] & Hk & Hc)|([k p] & Hk & Hc)]; apply elem_of_btree_iter in Hk; exists k; unfold change_of.
    + unfold added_or_updated in Hc. simpl in Hc. rewrite Hk. by destruct (m0 !! k).
    + unfold removed in Hc. simpl in Hc. rewrite Hk. by destruct (m1 !! k).
  - intros [k Hc]. unfold change_of in Hc. destruct (m1 !! k) as [t|] eqn:E1.
    + left. exists (k, t). split; [by apply elem_of_btree_iter|]. unfold added_or_updated. simpl. by destruct (m0 !! k).
    + right. destruct (m0 !! k) as [p|] eqn:E0; [|done]. exists (k, p). split; [by apply elem_of_btree_iter|]. unfold removed. simpl. by rewrite E1.
Qed.
Lemma NoDup_omap_ids (f : string * TaskState → option TaskChange) (l : list (string * TaskState)) :
  NoDup l.*1 → (∀ kv c, kv ∈ l → f kv = Some c → change_task_id c = kv.1) →
  NoDup (map change_task_id (omap f l)) ∧ ∀ c, c ∈ omap f l → change_task_id c ∈ l.*1.
Proof.
  intros Hnd Hf. split.
  - induction l as [|kv l IH]; [constructor|]. rewrite fmap_cons in Hnd. apply NoDup_cons in Hnd as [Hn Hnd]. simpl.
    assert (NoDup (map change_task_id (omap f l))) as IH' by (apply IH; [done|intros; apply Hf; [by apply elem_of_cons; right|done]]).
    destruct (f kv) as [c|] eqn:E; [|done]. simpl. constructor; [|done]. rewrite (Hf kv c) by (done || by apply elem_of_cons; left).
    intros (c' & Hc' & Hin)%list_elem_of_fmap. apply list_elem_of_omap in Hin as (kv' & Hin & Hfc). apply Hn.
    rewrite Hc', (Hf kv' c') by (done || by apply elem_of_cons; right). by apply list_elem_of_fmap_2.
  - intros c (kv & Hin & Hc)%list_elem_of_omap. rewrite (Hf kv c Hin Hc). by apply list_elem_of_fmap_2.
Qed.
Lemma NoDup_diff : NoDup (map change_task_id (diff_tasks previous current)).
Proof.
  unfold diff_tasks. fold m0 m1. rewrite (fmap_Permutation change_task_id _ _ (sort_by_perm change_le _)), fmap_app.
  destruct (NoDup_omap_ids (added_or_updated m0) (btree_iter m1)) as [H1 H1']; [apply NoDup_btree_keys| |].
  { intros [k t] c Hk Hc. apply elem_of_btree_iter in Hk. unfold added_or_updated in Hc. simpl in *.
    destruct (m0 !! k); [destruct (negb _); [|done]|]; injection Hc as <-; by apply (by_id_key current). }
  destruct (NoDup_omap_ids (removed m1) (btree_iter m0)) as [H2 H2']; [apply NoDup_btree_keys| |].
  { intros [k p] c Hk Hc. apply elem_of_btree_iter in Hk. unfold removed in Hc. simpl in *. destruct (m1 !! k); [done|]. injection Hc as <-. by apply (by_id_key previous). }
  apply NoDup_app. split_and!; [done| |done]. intros k (c & -> & Hc)%list_elem_of_fmap (c' & Heq & Hc')%list_elem_of_fmap.
  apply H1' in Hc. apply elem_of_btree_keys in Hc as [t Ht]. apply list_elem_of_omap in Hc' as ([k p] & Hk & Hr). apply elem_of_btree_iter in Hk.
  unfold removed in Hr. simpl in Hr. destruct (m1 !! k) eqn:E; [done|]. injection Hr as <-. simpl in Heq. rewrite (by_id_key _ _ _ Hk) in Heq. congruence.
Qed.
Lemma diff_patches : canon_task <$> foldl patch m0 (diff_tasks previous current) = canon_task <$> m1.
Proof.
  apply map_eq. intros k. rewrite !lookup_fmap. destruct (patches_lookup (diff_tasks previous current) m0 k NoDup_diff) as [Hin Hout].
  destruct (change_of k) as [c|] eqn:E.
  - rewrite (Hin c); [|apply elem_of_diff; by exists k|by apply change_of_id]. unfold change_of in E.
    destruct (m0 !! k) as [p|], (m1 !! k) as [t|]; [destruct (negb _)|..]; by simplify_eq/=.
  - rewrite Hout.
    + destruct (decide (canon_task <$> m0 !! k = canon_task <$> m1 !! k)) as [|Hd]; [done|]. apply change_of_differs in Hd as [c Hc]. congruence.
    + intros c [k' Hc]%elem_of_diff Hk. rewrite (change_of_id _ _ Hc) in Hk. congruence.
Qed.
End diff.

(** The changes between two task lists are exact.  There is one for each id whose task
    differs, and for no other; they come in the order of the ids; and a viewer that applies
    them to the old tasks has the new ones. *)
Theorem diff_tasks_exact previous current :
  let changes := diff_tasks previous current in
  (∀ k, (∃ c, c ∈ changes ∧ change_task_id c = k) ↔ differs previous current k) ∧
  NoDup (map change_task_id changes) ∧ StronglySorted change_le changes ∧
  canon_task <$> foldl patch (by_id previous) changes = canon_task <$> by_id current.
Proof.
  cbn zeta. split_and!; [|apply NoDup_diff|apply sort_by_sorted; apply _|apply diff_patches].
  intros k. rewrite <- change_of_differs. split.
  - intros (c & [k' Hc]%elem_of_diff & <-). rewrite (change_of_id _ _ _ _ Hc). by eexists.
  - intros [c Hc]. exists c. split; [apply elem_of_diff; by exists k|by eapply change_of_id].
Qed.

(** ** The viewer of a watch sees the room *)

(** Maps of tasks, up to the order of entries in JSON objects. *)
Definition same_tasks (m m' : gmap string TaskState) : Prop := canon_task <$> m = canon_task <$> m'.
#[export] Instance same_tasks_equiv : Equivalence same_tasks.
Proof. unfold same_tasks. split; [by intros m|by intros m m' ->|by intros m m' m'' -> ->]. Qed.
#[export] Instance patch_proper : Proper (same_tasks ==> eq ==> same_tasks) patch.
Proof.
  intros m m' Hm c ? <-. unfold same_tasks in *. apply map_eq. intros k. rewrite !lookup_fmap, !patch_lookup. case_decide; [done|].
  rewrite <- !lookup_fmap. by rewrite Hm.
Qed.
#[export] Instance patches_proper : Proper (same_tasks ==> eq ==> same_tasks) (foldl patch).
Proof. intros m m' Hm l ? <-. revert m m' Hm. induction l as [|c l IH]; intros m m' Hm; [done|]. simpl. apply IH. by rewrite Hm. Qed.
Lemma canon_by_id l : canon_task <$> by_id l = by_id (map canon_task l).
Proof.
  unfold by_id. induction l as [|t l IH] using rev_ind; [apply fmap_empty|]. rewrite map_app, foldl_snoc, fmap_insert, IH.
  change (map canon_task [t]) with [canon_task t]. by rewrite foldl_snoc.
Qed.
Lemma same_by_id a b : tasks_eqb a b = true → same_tasks (by_id a) (by_id b).
Proof. intros E%bool_decide_eq_true. unfold same_tasks. by rewrite !canon_by_id, E. Qed.

(** A viewer: it takes the initial snapshot and applies the changes. *)
Definition follow (shown : gmap string TaskState) (u : WatchUpdate (list TaskState)) : gmap string TaskState :=
  match u with
  | Initial tasks => by_id tasks
  | Changed previous current => foldl patch shown (diff_tasks previous current)
  | Reconnecting _ _ | Reconnected => shown
  end.
(** The last snapshot the loop read. *)
Fixpoint latest (ticks : list (Tick (T := list TaskState))) (last : list TaskState) : list TaskState :=
  match ticks with
  | [] => last
  | Synced _ (Ok current) :: ticks => latest ticks current
  | Synced _ (Err _) :: ticks => latest ticks last
  | SyncFailed e _ :: ticks => if is_fatal_sync_error e then last else latest ticks last
  end.
Definition fatal_tick (t : Tick (T := list TaskState)) : bool := match t with SyncFailed e _ => is_fatal_sync_error e | Synced _ _ => false end.
Definition real_change (u : WatchUpdate (list TaskState)) : Prop := match u with Changed p c => tasks_eqb c p = false | _ => True end.

Record watching (last : list TaskState) (s : WatchState (T := list TaskState)) : Prop := {
  wg_shown : same_tasks (foldl follow ∅ s.(wt_updates)) (by_id s.(wt_last));
  wg_last : same_tasks (by_id s.(wt_last)) (by_id last);
  wg_real : Forall real_change s.(wt_updates);
}.
Lemma watching_reconnected last nb s : watching last s → watching last (reconnected nb s).
Proof.
  intros [H1 H2 H3]. unfold reconnected. destruct (0 <? wt_failures s); [|by split]. split; cbn; [by rewrite foldl_snoc|done|].
  apply Forall_app. split; [done|by apply Forall_singleton].
Qed.
Lemma watching_retry config e now last s : watching last s → watching last (retry config e now s).
Proof.
  intros [H1 H2 H3]. unfold retry. destruct (next_delay _) as [floor b]. split; cbn; [by rewrite foldl_snoc|done|].
  apply Forall_app. split; [done|by apply Forall_singleton].
Qed.
Lemma watching_forward last current s : watching last s → watching current (forward tasks_eqb current s).
Proof.
  intros [H1 H2 H3]. unfold forward. destruct (tasks_eqb current (wt_last s)) eqn:E; cbn.
  - split; [done| |done]. symmetry. by apply same_by_id.
  - split; cbn; [|done|apply Forall_app; split; [done|by apply Forall_singleton]]. rewrite foldl_snoc. cbn. rewrite H1. apply diff_patches.
Qed.
Lemma watch_loop_sound config ticks : ∀ last s,
  watching last s →
  let '(r, s') := watch_loop tasks_eqb config ticks s in
  watching (latest ticks last) s' ∧ (is_ok r = negb (existsb fatal_tick ticks)).
Proof.
  induction ticks as [|t ticks IH]; intros last s Hs; [done|]. cbn [watch_loop latest existsb]. unfold watch_tick.
  destruct t as [nb [current|err]|e now]; cbn [fatal_tick orb].
  - by apply IH, (watching_forward last), watching_reconnected.
  - by apply IH, watching_reconnected.
  - destruct (is_fatal_sync_error e); [done|]. by apply IH, watching_retry.
Qed.

(** Who follows a watch sees the room.  Whatever syncs and reads fail in between, a
    viewer that starts from the first snapshot and applies the changes computed between the
    snapshots it is given ends with the tasks of the last snapshot the loop read; it is
    given no snapshot twice in a row; and the watch ends with an error exactly when the
    homeserver rejects the login. *)
Theorem watcher_sees_room {W : Type} `{MatrixServer W} parse_id listing me room options config ticks (w : W) :
  let '(r, updates) := watch_tasks parse_id listing me room options config ticks w in
  match watch_start parse_id me room (λ room_id _, let! raws := matrix (listing room_id) in lift (read_tasks raws options)) w with
  | (Err e, _) => r = Err e ∧ updates = []
  | (Ok (_, first), _) =>
    same_tasks (foldl follow ∅ updates) (by_id (latest ticks first)) ∧ Forall real_change updates ∧
    (is_ok r = negb (existsb fatal_tick ticks))
  end.
Proof.
  unfold watch_tasks, run_watch. destruct (watch_start _ _ _ _ w) as [[[nb first]|e] w1]; [|done].
  pose proof (watch_loop_sound config ticks first (watch_state config nb first)) as Hl.
  destruct (watch_loop tasks_eqb config ticks _) as [r s]. destruct Hl as [[H1 H2 H3] Hr].
  - split; cbn; [done|done|by apply Forall_singleton].
  - split_and!; [|done|done]. by rewrite H1.
Qed.
