(* ===== verification/PolicyLoad.v ===== *)
(** * Resolving the operator's policy

    Models [crates/mx-agent-daemon/src/policy.rs], the gate on it in [run_foreground] and
    [start_background] of [lifecycle.rs], and [loopback_execution_allowance] of
    [exec_ipc.rs].  The environment, the read of the file and the rendering of an error are
    arguments. *)
From stdpp Require Import gmap strings list.
From S2P Require Import Prelude RustStr Sandboxing PolicyFile PolicyEngine LiveAuth Runner.

Definition POLICY_STATE_MALFORMED : string := "malformed".

Module PolicyLoad.
Inductive PolicyResolution :=
| Absent
| Loaded (policy : Policy)
| Malformed (path display : string).
Record PolicyStatus := { pst_state : string; pst_path : string; pst_error : string }.

Definition into_policy (r : PolicyResolution) : Policy :=
  match r with Loaded policy => policy | Absent | Malformed _ _ => Policy_default end.
Definition malformed_message (r : PolicyResolution) : option string :=
  match r with
  | Malformed path display => Some ("malformed policy " +:+ path +:+ ": " +:+ display)
  | Absent | Loaded _ => None
  end.
Definition status (r : PolicyResolution) : option PolicyStatus :=
  match r with
  | Malformed path display => Some {| pst_state := POLICY_STATE_MALFORMED; pst_path := path; pst_error := display |}
  | Absent | Loaded _ => None
  end.

Section resolve.
Context (regex_new : RegexNew) (toml : string → result Policy string) (show : PolicyError → string).

(** [env] is the environment, [read] the file system. *)
Definition resolve_policy (env : string → option string) (read : string → FsRead) : PolicyResolution :=
  match default_path env with
  | None => Absent
  | Some path =>
    match load_optional regex_new toml path (read path) with
    | Ok None => Absent
    | Ok (Some policy) => Loaded policy
    | Err e => Malformed path (show e)
    end
  end.
(** The policy, and what is logged at error level. *)
Definition resolve_policy_for_enforcement (env : string → option string) (read : string → FsRead) : Policy * option string :=
  let resolution := resolve_policy env read in (into_policy resolution, malformed_message resolution).
(** The gate of [run_foreground] and [start_background]. *)
Definition start_gate (env : string → option string) (read : string → FsRead) : result unit string :=
  match resolve_policy env read with
  | Malformed path detail => Err ("malformed policy " +:+ path +:+ ": " +:+ detail)
  | Absent | Loaded _ => Ok tt
  end.
Definition loopback_execution_allowance (env : string → option string) (read : string → FsRead) : Allowance :=
  execution_allowance (resolve_policy_for_enforcement env read).1.

(** ** Correctness *)

(** The file the policy is read from is there and is a valid policy. *)
Definition policy_in_force (env : string → option string) (read : string → FsRead) (p : Policy) : Prop :=
  ∃ path input, default_path env = Some path ∧ read path = ReadOk input ∧ toml input = Ok p ∧ policy_wf regex_new p.
Lemma loaded_in_force env read p : resolve_policy env read = Loaded p → policy_in_force env read p.
Proof.
  unfold resolve_policy. destruct (default_path env) as [path|] eqn:Hp; [|done].
  pose proof (load_optional_fails_loudly regex_new toml path (read path)) as Hl.
  destruct (load_optional regex_new toml path (read path)) as [[q|]|e]; [|done..]. intros [= ->].
  destruct Hl as (input & Hr & Ht & Hwf). by exists path, input.
Qed.
Lemma default_denies room agent : lookup_rules Policy_default room agent = Err UnknownRoom.
Proof. unfold lookup_rules. cbn. by rewrite lookup_empty. Qed.
Lemma enforced_rules env read room agent rules :
  lookup_rules (resolve_policy_for_enforcement env read).1 room agent = Ok rules →
  policy_in_force env read (resolve_policy_for_enforcement env read).1.
Proof.
  unfold resolve_policy_for_enforcement. cbn. destruct (resolve_policy env read) as [|p|path e] eqn:E; cbn [into_policy].
  - by rewrite default_denies.
  - intros _. by apply loaded_in_force.
  - by rewrite default_denies.
Qed.

(** The file is there and cannot be used: its read fails for another reason than its
    absence, it does not parse, or what it says is not a valid policy. *)
Definition policy_unusable (env : string → option string) (read : string → FsRead) (path : string) : Prop :=
  default_path env = Some path ∧
  ((∃ msg, read path = ReadError msg) ∨
   (∃ input msg, read path = ReadOk input ∧ toml input = Err msg) ∨
   (∃ input p, read path = ReadOk input ∧ toml input = Ok p ∧ ¬ policy_wf regex_new p)).
(** There is no file, or no place to look for one. *)
Definition policy_absent (env : string → option string) (read : string → FsRead) : Prop :=
  default_path env = None ∨ ∃ path msg, default_path env = Some path ∧ read path = ReadNotFound msg.
Lemma load_optional_Err path fs :
  (∃ e, load_optional regex_new toml path fs = Err e) ↔
  (∃ msg, fs = ReadError msg) ∨ (∃ input msg, fs = ReadOk input ∧ toml input = Err msg) ∨
  (∃ input p, fs = ReadOk input ∧ toml input = Ok p ∧ ¬ policy_wf regex_new p).
Proof.
  destruct fs as [input|msg|msg]; cbn; [|naive_solver..]. unfold parse.
  destruct (toml input) as [p|msg] eqn:Ht; [|naive_solver].
  pose proof (validate_Ok regex_new p) as Hwf. destruct (validate regex_new p) as [[]|e].
  - split; [naive_solver|]. intros [[? [=]]|[(? & ? & [= <-] & ?)|(? & q & [= <-] & ? & Hn)]]; [congruence|].
    replace q with p in Hn by congruence. by destruct Hn; apply Hwf.
  - split; [|naive_solver]. intros _. right; right. exists input, p. split_and!; [done..|]. by intros [=]%Hwf.
Qed.
Lemma load_optional_absent path fs : load_optional regex_new toml path fs = Ok None ↔ ∃ msg, fs = ReadNotFound msg.
Proof. destruct fs as [input|msg|msg]; cbn; [|naive_solver..]. destruct (parse _ _ input); naive_solver. Qed.
Lemma load_optional_loaded path fs p :
  load_optional regex_new toml path fs = Ok (Some p) ↔ ∃ input, fs = ReadOk input ∧ toml input = Ok p ∧ policy_wf regex_new p.
Proof.
  split.
  - intros E. pose proof (load_optional_fails_loudly regex_new toml path fs) as H. by rewrite E in H.
  - intros (input & -> & Ht & Hwf%validate_Ok). cbn. unfold parse. by rewrite Ht, Hwf.
Qed.

(** What the resolution is, in terms of the file. *)
Lemma resolved_loaded env read p : resolve_policy env read = Loaded p ↔ policy_in_force env read p.
Proof.
  split; [apply loaded_in_force|]. intros (path & input & Hp & Hr & Ht & Hwf). unfold resolve_policy. rewrite Hp.
  by rewrite (proj2 (load_optional_loaded path (read path) p)) by eauto.
Qed.
Lemma resolved_absent env read : resolve_policy env read = Absent ↔ policy_absent env read.
Proof.
  unfold resolve_policy, policy_absent. destruct (default_path env) as [path|]; [|naive_solver].
  pose proof (load_optional_absent path (read path)) as H.
  destruct (load_optional regex_new toml path (read path)) as [[p|]|e]; naive_solver.
Qed.
Lemma resolved_malformed env read path : (∃ d, resolve_policy env read = Malformed path d) ↔ policy_unusable env read path.
Proof.
  unfold resolve_policy, policy_unusable. destruct (default_path env) as [path'|]; [|naive_solver].
  pose proof (load_optional_Err path' (read path')) as H.
  destruct (load_optional regex_new toml path' (read path')) as [[p|]|e].
  - split; [intros [d [=]]|]. intros [[= ->] [? [=]]%H].
  - split; [intros [d [=]]|]. intros [[= ->] [? [=]]%H].
  - split; [|intros [[= ->] _]; eauto]. intros [d [= -> _]]. split; [done|]. apply H. eauto.
Qed.

(** C27: only a valid policy file authorizes a remote request.  The policy a remote exec or
    call is judged by is the one of the file when the file is there, is read, parses and is
    valid, and otherwise the default, under which no exec and no call of any context is
    allowed.  A file that is there but unusable (the read fails for another reason than its
    absence, or it does not parse, or it parses to an invalid policy) is never silent: in
    exactly these cases the daemon refuses to start, every enforcement logs an error and the
    status names the file.  Commands run locally, without a remote request, are not
    authorized by the policy and are not part of this claim. *)
Theorem policy_fails_closed env read :
  let enforced := resolve_policy_for_enforcement env read in
  ((∃ p, policy_in_force env read p ∧ enforced = (p, None)) ∨
   (policy_absent env read ∧ enforced = (Policy_default, None)) ∨
   (∃ path log, policy_unusable env read path ∧ enforced = (Policy_default, Some log))) ∧
  (∀ ctx a, ¬ evaluate_exec regex_new Policy_default ctx = Allow a) ∧
  (∀ ctx a, ¬ evaluate_call Policy_default ctx = Allow a) ∧
  (∀ path, policy_unusable env read path →
     is_some enforced.2 = true ∧ is_err (start_gate env read) = true ∧
     ∃ st, status (resolve_policy env read) = Some st ∧ st.(pst_path) = path) ∧
  ((∀ path, ¬ policy_unusable env read path) →
     enforced.2 = None ∧ start_gate env read = Ok tt ∧ status (resolve_policy env read) = None).
Proof.
  intros enforced. unfold enforced, resolve_policy_for_enforcement, start_gate. split_and!.
  - destruct (resolve_policy env read) as [|p|path d] eqn:E; cbn.
    + right; left. split; [|done]. by apply resolved_absent.
    + left. exists p. split; [|done]. by apply resolved_loaded.
    + right; right. eexists path, _. split; [|done]. apply resolved_malformed. eauto.
  - intros ctx a. unfold evaluate_exec. by rewrite default_denies.
  - intros ctx a. unfold evaluate_call. by rewrite default_denies.
  - intros path [d ->]%resolved_malformed. cbn. split_and!; [done..|]. by eexists.
  - intros Hn. destruct (resolve_policy env read) as [|p|path d] eqn:E; [done..|].
    destruct (Hn path). apply resolved_malformed. eauto.
Qed.

(** A policy file that turns bad while the daemon runs drops the operator's confinement of
    local commands instead of refusing them: whatever the file asked for before, they run
    in no sandbox, and the sandbox floor does not object. *)
Theorem broken_policy_unconfines_loopback env read renv params :
  is_err (start_gate env read) = true →
  let a := loopback_execution_allowance env read in
  check_sandbox_floor a = Ok tt ∧ (loopback_run_spec renv params a).(sp_sandbox) = BackendNone.
Proof.
  unfold start_gate, loopback_execution_allowance, resolve_policy_for_enforcement. by destruct (resolve_policy env read).
Qed.
End resolve.

(** A policy that asks for a sandbox, and the same file with a broken line. *)
Definition strict : Policy :=
  mkPolicy (mkExecutionPolicy (Some Bubblewrap) None [] [] [] None None None None SeccompOff true) ∅.
Definition toml (s : string) : result Policy string := if s =s "strict" then Ok strict else Err "expected =".
Definition env (k : string) : option string := if k =s "HOME" then Some "/home/me" else None.
Lemma broken_policy_unconfines_loopback_witness :
  let allowance contents := loopback_execution_allowance (λ _, None) toml (λ _, "") env (λ _, ReadOk contents) in
  (allowance "strict").(al_sandbox) = Some Bubblewrap ∧ (allowance "strict").(al_require_sandbox) = true ∧
  check_sandbox_floor (allowance "stric!") = Ok tt.
Proof.
  intros allowance. split; [reflexivity|]. split; [reflexivity|].
  apply (broken_policy_unconfines_loopback (λ _, None) toml (λ _, "") env (λ _, ReadOk "stric!")
           {| re_vars := []; re_path := ""; re_is_dir := λ _, false; re_exists := λ _, false; re_current_exe := Ok ""; re_write_profile := Ok "";
              re_memfd := Ok 0%N; re_uid := 0; re_gid := 0 |} (mkExecParams [] None None ∅ None)).
  reflexivity.
Defined.
End PolicyLoad.
