(* ===== verification/ExecIpc.v ===== *)
(** * Starting a run from the local socket

    Models [crates/mx-agent-daemon/src/exec_ipc.rs] and [call_ipc.rs]: a command run on this
    host (loopback) with its output packed into frames, a tool run here, and a command sent
    to another agent: the signed request, the pinned subscription, the wait for its result
    and the cancel when it does not come.  Times are in milliseconds; the clock, fresh ids
    and what the subscription delivers are inputs. *)
From Stdlib Require Import ZArith Lia Ascii.
From stdpp Require Import gmap strings list.
From S2P Require Import Prelude RustStr Sandboxing PolicyFile PolicyEngine CanonicalJson Schema Signing Room TaskLifecycle EventRouter LiveAuth ResultPlane Runner LiveHandlers ToolDispatch Streams Reassembly Sharing DataDir SyncLoop Workspace.
Local Open Scope Z_scope.

(** ** Frames and outcomes *)

Inductive ExecErrorKind := XNotFound | XEmptyCommand | XSpawn | XRemote | XTimeout.
Inductive ExecOutcome :=
| ExecOk (frames : list StreamFrame)
| ExecError (kind : ExecErrorKind) (message : string).
Record ExecStartResult := { xr_invocation_id : string; xr_request_id : string; xr_outcome : ExecOutcome }.
(** The fields of [ExecStartParams] that target a run; [xs_params] holds the others. *)
Record ExecStart := {
  xs_params : ExecStartParams;
  xs_room : option string;
  xs_agent : option string;
  xs_stream : bool;
  xs_pty : bool;
  xs_task : option string;
  xs_strict_stream : bool;
  xs_invocation_id : option string;
}.
Definition error_kind_for (e : RunError) : ExecErrorKind :=
  match e with
  | RunEmptyCommand => XEmptyCommand
  | MissingCwd _ => XNotFound
  | Spawn KNotFound _ => XNotFound
  | Spawn _ _ => XSpawn
  end.
Definition DEFAULT_PTY_OUTPUT_CAP_BYTES : Z := 64 * 1024 * 1024.
Definition DEFAULT_REMOTE_EXEC_TIMEOUT_MS : Z := 600000.
Definition REQUESTER_TIMEOUT_GRACE : Z := 30000.
Definition LOOPBACK_CONTROL_UNSUPPORTED : string :=
  "exec control (stdin/cancel) requires a remote --room/--agent target; local loopback exec is synchronous and cannot be controlled mid-run (use `exec --pty` for an interactive local session)".
Definition REFUSED_UNSANDBOXED : string :=
  "refusing to run unsandboxed: execution.require_sandbox is set but the resolved sandbox backend is none".

(** ** A run on this host *)

Section loopback.
Context `{Crypto} (clock : nat → Z * Z) (compress_zstd : bytes → option bytes) (show_run_error : RunError → string).

Definition of_bytes (l : list Byte.byte) : bytes := map ascii_of_byte l.
(** Reading a slice: at most the reader's buffer at a time. *)
Definition READ_BUF : nat := Z.to_nat 8192.
Fixpoint slice_reads_fuel (n : nat) (data : bytes) : list ReadResult :=
  match n, data with
  | S n, _ :: _ => ReadData (take READ_BUF data) :: slice_reads_fuel n (drop READ_BUF data)
  | _, _ => []
  end.
Definition slice_reads (data : bytes) : list ReadResult := slice_reads_fuel (length data) data.

Definition loopback_capture_config (a : Allowance) : StreamCaptureConfig :=
  with_caps batch {| cap_max_output_bytes := Some (unwrap_or (Z.of_N <$> a.(al_max_output_bytes)) DEFAULT_PTY_OUTPUT_CAP_BYTES);
                     cap_max_events_per_second := None |}.
Definition artifact_frame (invocation_id : string) (stream_data : StreamKind * bytes) : option StreamFrame :=
  let '(stream, data) := stream_data in
  match data with
  | [] => None
  | _ => Some (FArtifact (into_event (prepare_artifact compress_zstd invocation_id stream data default_artifact_config) ""))
  end.
(** The frames before the last, whether output was cut, and the artifact's URI; [None] when
    the capture is not scheduled to its end. *)
Definition pack_output (invocation_id : string) (a : Allowance) (schedule : list bool) (stdout stderr : bytes) :
    option (list StreamFrame * bool * option string) :=
  if should_switch default_artifact_config (Z.of_nat (length stdout) + Z.of_nat (length stderr)) then
    Some (omap (artifact_frame invocation_id) [(Stdout, stdout); (Stderr, stderr)], false,
          match stdout with [] => None | _ => Some "" end)
  else
    match capture_child_output clock invocation_id (loopback_capture_config a) schedule (slice_reads stdout) (slice_reads stderr) None with
    | None => None
    | Some (summary, chunks) => Some (map FChunk chunks, summary.(cs_truncated), None)
    end.
Definition finished_frame (invocation_id : string) (output : RunOutput) (duration_ms : Z) (truncated : bool) (artifact_mxc : option string) : ExecFinished :=
  {| ef_invocation_id := invocation_id; ef_exit_code := output.(ro_exit_code); ef_signal := n ← output.(ro_signal); signal_name n;
     ef_duration_ms := duration_ms; ef_stdout_bytes := Z.of_nat (length output.(ro_stdout)); ef_stderr_bytes := Z.of_nat (length output.(ro_stderr));
     ef_truncated := truncated; ef_artifact_mxc := artifact_mxc; ef_signature := None; ef_extra := ∅ |}.
(** [None]: the run does not end. *)
Definition run_loopback_with (env : RunEnv) (spawn : Command → result Child (IoKind * string)) (invocation_id : string)
    (params : ExecStartParams) (a : Allowance) (duration_ms : Z) (schedule : list bool) : option ExecOutcome :=
  if is_err (check_sandbox_floor a) then Some (ExecError XSpawn REFUSED_UNSANDBOXED)
  else
    match run env spawn (loopback_run_spec env params a) with
    | None => None
    | Some (Err e) => Some (ExecError (error_kind_for e) (show_run_error e))
    | Some (Ok output) =>
      match pack_output invocation_id a schedule (of_bytes output.(ro_stdout)) (of_bytes output.(ro_stderr)) with
      | None => None
      | Some (frames, truncated, artifact_mxc) =>
        Some (ExecOk (frames ++ [FFinished (finished_frame invocation_id output duration_ms truncated artifact_mxc)]))
      end
    end.
Definition start_exec_loopback (env : RunEnv) (spawn : Command → result Child (IoKind * string)) (fresh_invocation fresh_request : string)
    (x : ExecStart) (a : Allowance) (duration_ms : Z) (schedule : list bool) : option ExecStartResult :=
  let invocation_id := unwrap_or x.(xs_invocation_id) fresh_invocation in
  (λ outcome, {| xr_invocation_id := invocation_id; xr_request_id := fresh_request; xr_outcome := outcome |})
    <$> run_loopback_with env spawn invocation_id x.(xs_params) a duration_ms schedule.
End loopback.

(** ** A tool on this host *)

Inductive CallErrorKind := CkUnknownTool | CkInvalidArgs | CkNotFound | CkSpawn | CkRemote.
Inductive CallOutcome := CallOk (exit_code : Z) (summary : string) | CallError (kind : CallErrorKind) (message : string).
Record CallStartParams := { cs_room : option string; cs_agent : option string; cs_tool : string; cs_input : Value; cs_invocation_id : option string }.
Record CallStartResult := { cr_result_invocation_id : string; cr_result_request_id : string; cr_outcome : CallOutcome }.
Definition call_error_kind (e : ToolError) : CallErrorKind :=
  match e with
  | UnknownTool _ => CkUnknownTool
  | UnsupportedVersion _ _ _ | InvalidArgs _ => CkInvalidArgs
  | ToolSpawn KNotFound _ => CkNotFound
  | ToolSpawn _ _ => CkSpawn
  end.
(** [run_loopback_with] of [call_ipc.rs]; [run_tool] is [execute_tool] with this host. *)
Definition call_loopback_with (show_tool_error : ToolError → string) (run_tool : string → Value → Allowance → string → option (result ToolResult ToolError))
    (fresh_invocation fresh_request cwd : string) (p : CallStartParams) (a : Allowance) : option CallStartResult :=
  (λ outcome, {| cr_result_invocation_id := unwrap_or p.(cs_invocation_id) fresh_invocation; cr_result_request_id := fresh_request; cr_outcome := outcome |}) <$>
  match run_tool p.(cs_tool) p.(cs_input) a cwd with
  | None => None
  | Some (Ok result) => Some (CallOk result.(tr_exit_code) result.(tr_summary))
  | Some (Err e) => Some (CallError (call_error_kind e) (show_tool_error e))
  end.
(** What a response reports; a result without a fitting exit code counts as zero. *)
Definition as_i32 (v : Value) : option Z :=
  match v with Num (NumInt n) => if (-2147483648 <=? n) && (n <=? 2147483647) then Some n else None | _ => None end.
Definition response_to_outcome (response : CallResponse) : CallOutcome :=
  if response.(cresp_ok) then
    let result := unwrap_or response.(cresp_result) Null in
    CallOk (unwrap_or (v ← field "exit_code" result; as_i32 v) 0)
           (unwrap_or (v ← field "summary" result; as_str v) "remote call completed")
  else CallError CkRemote (unwrap_or response.(cresp_error) "remote call failed").

(** ** Waiting for a remote result *)

(** What the subscription gives and when: an event, or [None] when it is closed. *)
Abbreviation Arrivals := (list (Z * option ForwardedExecEvent)).
Inductive WaitEnd := WaitOutcome (outcome : ExecOutcome) | WaitClosed | WaitTimedOut.
Definition POLL_WINDOW : Z := 5000.
(** What an event does to the frames: more of them, or an end. *)
Definition on_event (frames : list StreamFrame) (e : ForwardedExecEvent) : list StreamFrame + ExecOutcome :=
  match e with
  | FwStreamChunk chunk => inl (frames ++ [FChunk chunk])
  | FwStreamArtifact artifact => inl (frames ++ [FArtifact artifact])
  | FwExecFinished finished => inr (ExecOk (frames ++ [FFinished finished]))
  | FwExecRejected rejected => inr (ExecError XRemote rejected.(erj_reason))
  | FwExecCancelled cancelled => inr (ExecError XRemote ("remote exec cancelled (" +:+ cancelled.(ecd_signal_sent) +:+ ")"))
  | FwCallResponse _ => inl frames
  end.
(** The [loop]: receive for at most five seconds, or until the deadline, then check it
    again. *)
Fixpoint poll_loop (fuel : nat) (deadline now : Z) (arrivals : Arrivals) (frames : list StreamFrame) : option WaitEnd :=
  match fuel with
  | O => None
  | S fuel =>
    let remaining := Z.max 0 (deadline - now) in
    if remaining =? 0 then Some WaitTimedOut
    else
      let window := Z.min remaining POLL_WINDOW in
      match arrivals with
      | (t, event) :: rest =>
        if t <=? now + window then
          match event with
          | None => Some WaitClosed
          | Some e =>
            match on_event frames e with
            | inl frames => poll_loop fuel deadline (Z.max now t) rest frames
            | inr outcome => Some (WaitOutcome outcome)
            end
          end
        else poll_loop fuel deadline (now + window) arrivals frames
      | [] => poll_loop fuel deadline (now + window) [] frames
      end
  end.

(** ** A run on another agent *)

Definition EXEC_REQUEST : string := "com.mxagent.exec.request.v1".
Definition EXEC_STDIN : string := "com.mxagent.exec.stdin.v1".
Definition EXEC_CANCEL : string := "com.mxagent.exec.cancel.v1".
Definition CALL_REQUEST : string := "com.mxagent.call.request.v1".

Section remote.
Context `{Crypto} {W : Type} `{MatrixServer W} (parse_id : string → option RoomOrAliasId).
(** The rest of the client: room state it has, and sending to the timeline. *)
Context (sdk_agent_states : string → st W SdkError (list (StateEvent AgentState)))
        (sdk_agent_state : string → string → st W SdkError (option (StateEvent AgentState)))
        (sdk_send : string → string → Value → st W SdkError unit).
Context (show_error : WorkspaceError → string) (show_sdk : SdkError → string) (debug : string → string).

Record Requester := { rq_world : W; rq_registry : Registry; rq_sent : list (string * Value) }.
Abbreviation RM := (st Requester string).

(** The client's calls, with their errors as text. *)
Definition client {A} (m : st W SdkError A) : RM A := λ s,
  let '(r, w) := m s.(rq_world) in
  (match r with Ok x => Ok x | Err e => Err (show_sdk e) end, {| rq_world := w; rq_registry := s.(rq_registry); rq_sent := s.(rq_sent) |}).
Definition text {A} (r : result A WorkspaceError) : RM A := λ s, (match r with Ok x => Ok x | Err e => Err (show_error e) end, s).
Definition send_raw (room_id event_type : string) (content : Value) : RM unit := λ s,
  match sdk_send room_id event_type content s.(rq_world) with
  | (Ok _, w) => (Ok tt, {| rq_world := w; rq_registry := s.(rq_registry); rq_sent := s.(rq_sent) ++ [(event_type, content)] |})
  | (Err e, w) => (Err (show_sdk e), {| rq_world := w; rq_registry := s.(rq_registry); rq_sent := s.(rq_sent) |})
  end.
Definition subscribe_to (key : ExecSubscriptionKey) (sender : string) : RM ExecSubscription := λ s,
  let '(sub, r) := subscribe key sender s.(rq_registry) in
  (Ok sub, {| rq_world := s.(rq_world); rq_registry := r; rq_sent := s.(rq_sent) |}).
Definition unsubscribe (sub : ExecSubscription) (s : Requester) : Requester :=
  {| rq_world := s.(rq_world); rq_registry := drop_subscription sub s.(rq_registry); rq_sent := s.(rq_sent) |}.
(** An early return drops the subscription. *)
Definition or_drop {A} (sub : ExecSubscription) (m : RM A) : RM A := λ s,
  match m s with (Err e, s) => (Err e, unsubscribe sub s) | ok => ok end.
(** Failing with a fixed message. *)
Definition or_fail {A} (o : option A) (message : string) : RM A := match o with Some x => ret x | None => fail message end.

(** [min_by(agent_id)]: the first of the least. *)
Definition min_agent (agents : list AgentState) : option AgentState :=
  match agents with
  | [] => None
  | a :: agents => Some (foldl (λ best x, if bool_decide (String.le best.(as_agent_id) x.(as_agent_id)) then best else x) a agents)
  end.
Definition read_agent (events : option (StateEvent AgentState)) : result (option AgentState) WorkspaceError :=
  match events with
  | Some (Content a _) => Ok (Some a)
  | Some Room.Malformed => Err Matrix
  | Some Cleared | None => Ok None
  end.

(** What the process supplies: the stored login's user, whether a client can be restored
    from it, the key, and fresh values. *)
Record Fresh := {
  fr_session : result (option string) string;
  fr_client : result unit string;
  fr_signing : result SigningKey string;
  fr_nonce : string; fr_created_at : string; fr_expires_at : string;
  fr_stdin_nonce : string; fr_stdin_at : string;
  fr_cancel_nonce : string; fr_cancel_at : string;
}.
(** [expect]: the content of these events is always an object. *)
Definition signed_content (r : result Value SignatureError) : Value := match r with Ok v => v | Err _ => Null end.
Definition key_id_of (sk : SigningKey) : string := key_id_for_verifying_key (verifying_key sk).

Definition request_options (x : ExecStart) (target_agent requesting_agent : string) : ExecRequestOptions :=
  {| eo_target_agent := target_agent; eo_requesting_agent := requesting_agent; eo_command := x.(xs_params).(xp_command);
     eo_cwd := default "" x.(xs_params).(xp_cwd); eo_env := x.(xs_params).(xp_env); eo_stdin := is_some x.(xs_params).(xp_stdin);
     eo_stream := x.(xs_stream); eo_pty := x.(xs_pty);
     eo_timeout_ms := unwrap_or (Z.of_N <$> x.(xs_params).(xp_timeout_ms)) DEFAULT_REMOTE_EXEC_TIMEOUT_MS; eo_task_id := x.(xs_task) |}.
Definition build_request (f : Fresh) (sk : SigningKey) (invocation_id request_id : string) (o : ExecRequestOptions) : result Value SignatureError :=
  build_signed_exec_request sk (key_id_of sk) invocation_id request_id f.(fr_nonce) f.(fr_created_at) f.(fr_expires_at) o.
Definition stdin_content (f : Fresh) (sk : SigningKey) (invocation_id : string) (data : bytes) (eof : bool) : Value :=
  signed_content (build_signed_exec_stdin sk (key_id_of sk) invocation_id (to_text data) eof f.(fr_stdin_at) f.(fr_stdin_nonce)).
Definition cancel_content (f : Fresh) (sk : SigningKey) (invocation_id reason : string) : Value :=
  signed_content (build_signed_exec_cancel sk (key_id_of sk) invocation_id reason f.(fr_cancel_at) f.(fr_cancel_nonce)).
Definition CANCEL_REASON : string := "requester timed out waiting for result".

(** The login, the room, the two agents and the key. *)
Record Prepared := { pp_room_id : string; pp_requester : AgentState; pp_expected_sender : string; pp_signing : SigningKey }.
Definition open_target (f : Fresh) (room_target : string) : RM (string * string) :=
  let! session := (λ s, (match f.(fr_session) with Ok x => Ok x | Err e => Err ("could not read daemon session: " +:+ e) end, s)) in
  let! me := or_fail session "not logged in; run `mx-agent auth login` first" in
  let! _ := (λ s, (f.(fr_client), s)) in
  let! _ := client (sdk_sync_once me) in
  let! id := text (parse_room_or_alias parse_id room_target) in
  let! room_id := match id with RoomId room_id => ret room_id | RoomAlias alias => client (sdk_resolve_alias me alias) end in
  let! view := (λ s, (Ok (sdk_get_room me room_id s.(rq_world)), s)) in
  let! _ := or_fail view ("room not found: " +:+ room_target) in
  ret (me, room_id).
Definition prepare (f : Fresh) (room_target target_agent : string) : RM Prepared :=
  let! (me, room_id) := open_target f room_target in
  let! raws := client (sdk_agent_states room_id) in
  let! agents := text (read_all_agent_states raws) in
  let! requester := or_fail (min_agent (List.filter (λ a, a.(as_matrix_user_id) =s me) agents)) "local agent is not registered in the target room" in
  let! event := client (sdk_agent_state room_id target_agent) in
  let! target := text (read_agent event) in
  let! target := or_fail target ("target agent " +:+ debug target_agent +:+ " is not registered in the room") in
  let! sk := (λ s, (f.(fr_signing), s)) in
  ret {| pp_room_id := room_id; pp_requester := requester; pp_expected_sender := target.(as_matrix_user_id); pp_signing := sk |}.

(** The wait, once the request is out: [None] when the fuel ends. *)
Definition await (f : Fresh) (p : Prepared) (invocation_id : string) (fuel : nat) (deadline now : Z) (arrivals : Arrivals) (s : Requester) :
    option (result ExecOutcome string * Requester) :=
  match poll_loop fuel deadline now arrivals [] with
  | None => None
  | Some (WaitOutcome outcome) => Some (Ok outcome, s)
  | Some WaitClosed => Some (Err "remote exec subscriber closed", s)
  | Some WaitTimedOut =>
    let s := (send_raw p.(pp_room_id) EXEC_CANCEL (cancel_content f p.(pp_signing) invocation_id CANCEL_REASON) s).2 in
    Some (Ok (ExecError XTimeout "timed out waiting for remote exec result; sent cancel"), s)
  end.
(** From the subscription to the request and its input on their way. *)
Definition submit (f : Fresh) (x : ExecStart) (target_agent invocation_id request_id : string) (p : Prepared) : RM ExecSubscription :=
  let! content := (λ s, (match build_request f p.(pp_signing) invocation_id request_id (request_options x target_agent p.(pp_requester).(as_agent_id))
                         with Ok v => Ok v | Err _ => Err "signing failed" end, s)) in
  let! sub := subscribe_to (KInvocation invocation_id) p.(pp_expected_sender) in
  let! _ := or_drop sub
    (let! _ := send_raw p.(pp_room_id) EXEC_REQUEST content in
     match x.(xs_params).(xp_stdin) with
     | Some stdin => send_raw p.(pp_room_id) EXEC_STDIN (stdin_content f p.(pp_signing) invocation_id (of_bytes stdin) true)
     | None => ret tt
     end) in
  ret sub.
Definition start_exec_matrix_inner (f : Fresh) (x : ExecStart) (invocation_id request_id : string) (fuel : nat) (now : Z) (arrivals : Arrivals)
    (s : Requester) : option (result ExecOutcome string * Requester) :=
  match x.(xs_room), x.(xs_agent) with
  | None, _ => Some (Err "remote exec requires --room", s)
  | _, None => Some (Err "remote exec requires --agent", s)
  | Some room_target, Some target_agent =>
    match (let! p := prepare f room_target target_agent in
           let! sub := submit f x target_agent invocation_id request_id p in ret (p, sub)) s with
    | (Err e, s) => Some (Err e, s)
    | (Ok (p, sub), s) =>
      let deadline := now + unwrap_or (Z.of_N <$> x.(xs_params).(xp_timeout_ms)) DEFAULT_REMOTE_EXEC_TIMEOUT_MS + REQUESTER_TIMEOUT_GRACE in
      (λ rs, (rs.1, unsubscribe sub rs.2)) <$> await f p invocation_id fuel deadline now arrivals s
    end
  end.
Definition start_exec_matrix (f : Fresh) (x : ExecStart) (fresh_invocation fresh_request : string) (fuel : nat) (now : Z) (arrivals : Arrivals)
    (s : Requester) : option (ExecStartResult * Requester) :=
  let invocation_id := unwrap_or x.(xs_invocation_id) fresh_invocation in
  match start_exec_matrix_inner f x invocation_id fresh_request fuel now arrivals s with
  | None => None
  | Some (r, s) =>
    let outcome := match r with Ok outcome => outcome | Err message => ExecError XRemote message end in
    Some ({| xr_invocation_id := invocation_id; xr_request_id := fresh_request; xr_outcome := outcome |}, s)
  end.

(** A tool of another agent; [syncs] is what the syncs before the deadline return. *)
Definition call_content (f : Fresh) (sk : SigningKey) (invocation_id request_id : string) (p : CallStartParams) (requester target_agent : string) :
    result Value SignatureError :=
  build_signed_call_request_for_target sk (key_id_of sk) invocation_id request_id f.(fr_nonce) f.(fr_created_at) f.(fr_expires_at)
    p.(cs_tool) p.(cs_input) (Some requester) (Some target_agent).
Definition start_call_matrix_inner (call_response_from_value : Value → option CallResponse) (f : Fresh) (params : CallStartParams)
    (invocation_id request_id room_target target_agent : string) (syncs : list (result (ForwardEnv * list IncomingEvent) string)) : RM CallResponse :=
  let! p := prepare f room_target target_agent in
  let! content := (λ s, (match call_content f p.(pp_signing) invocation_id request_id params p.(pp_requester).(as_agent_id) target_agent
                         with Ok v => Ok v | Err _ => Err "signing failed" end, s)) in
  let! _ := send_raw p.(pp_room_id) CALL_REQUEST content in
  (λ s, (wait_for_call_response call_response_from_value request_id p.(pp_expected_sender) syncs, s)).
(** [loopback]: [start_call_loopback], which takes ids of its own. *)
Definition start_call_matrix (call_response_from_value : Value → option CallResponse) (loopback : CallStartParams → option CallStartResult)
    (f : Fresh) (params : CallStartParams) (fresh_invocation request_id : string) (syncs : list (result (ForwardEnv * list IncomingEvent) string))
    (s : Requester) : option (CallStartResult * Requester) :=
  match params.(cs_room), params.(cs_agent) with
  | Some room_target, Some target_agent =>
    let invocation_id := unwrap_or params.(cs_invocation_id) fresh_invocation in
    let '(r, s) := start_call_matrix_inner call_response_from_value f params invocation_id request_id room_target target_agent syncs s in
    let outcome := match r with Ok response => response_to_outcome response | Err message => CallError CkRemote message end in
    Some ({| cr_result_invocation_id := invocation_id; cr_result_request_id := request_id; cr_outcome := outcome |}, s)
  | _, _ => (λ r, (r, s)) <$> loopback params
  end.

(** Input or a cancel for a run that is under way. *)
Record ExecControlResult := { ecr_invocation_id : string; ecr_accepted : bool; ecr_message : string }.
Record ExecStdinParams := { sp_room : option string; sp_invocation_id : string; sp_data : list Byte.byte; sp_eof : bool }.
Record ExecCancelParams := { cp_room : option string; cp_invocation_id : string; cp_reason : option string }.
Definition send_control_room (f : Fresh) (room_target : string) : RM (string * SigningKey) :=
  let! (_, room_id) := open_target f room_target in
  let! sk := (λ s, (f.(fr_signing), s)) in
  ret (room_id, sk).
(** Both methods: [content] signs the event once the key is at hand. *)
Definition send_control (f : Fresh) (room : option string) (invocation_id event_type sent : string) (content : SigningKey → Value)
    (s : Requester) : ExecControlResult * Requester :=
  match room with
  | None => ({| ecr_invocation_id := invocation_id; ecr_accepted := false; ecr_message := LOOPBACK_CONTROL_UNSUPPORTED |}, s)
  | Some room_target =>
    match (let! (room_id, sk) := send_control_room f room_target in send_raw room_id event_type (content sk)) s with
    | (Ok _, s) => ({| ecr_invocation_id := invocation_id; ecr_accepted := true; ecr_message := sent |}, s)
    | (Err message, s) => ({| ecr_invocation_id := invocation_id; ecr_accepted := false; ecr_message := message |}, s)
    end
  end.
Definition send_exec_stdin_matrix (f : Fresh) (p : ExecStdinParams) : Requester → ExecControlResult * Requester :=
  send_control f p.(sp_room) p.(sp_invocation_id) EXEC_STDIN "stdin sent over Matrix"
    (λ sk, stdin_content f sk p.(sp_invocation_id) (of_bytes p.(sp_data)) p.(sp_eof)).
Definition send_exec_cancel_matrix (f : Fresh) (p : ExecCancelParams) : Requester → ExecControlResult * Requester :=
  send_control f p.(cp_room) p.(cp_invocation_id) EXEC_CANCEL "cancel sent over Matrix"
    (λ sk, cancel_content f sk p.(cp_invocation_id) (unwrap_or p.(cp_reason) "cancelled by operator")).
End remote.

(** ** Polling is waiting until the deadline *)

Fixpoint await_result (deadline now : Z) (arrivals : Arrivals) (frames : list StreamFrame) : WaitEnd :=
  if deadline <=? now then WaitTimedOut
  else
    match arrivals with
    | [] => WaitTimedOut
    | (t, event) :: rest =>
      if t <=? deadline then
        match event with
        | None => WaitClosed
        | Some e =>
          match on_event frames e with
          | inl frames => await_result deadline (Z.max now t) rest frames
          | inr outcome => WaitOutcome outcome
          end
        end
      else WaitTimedOut
    end.
Definition windows (deadline now : Z) : nat := Z.to_nat ((deadline - now + (POLL_WINDOW - 1)) / POLL_WINDOW).
Lemma windows_mono deadline now now' : now ≤ now' → (windows deadline now' ≤ windows deadline now)%nat.
Proof.
  intros Hle. unfold windows, POLL_WINDOW. assert ((deadline - now' + (5000 - 1)) / 5000 ≤ (deadline - now + (5000 - 1)) / 5000) by (apply Z.div_le_mono; lia). lia.
Qed.
Lemma windows_next deadline now :
  now < deadline → (windows deadline (now + Z.min (Z.max 0 (deadline - now)) POLL_WINDOW) < windows deadline now)%nat.
Proof.
  intros Hlt. unfold windows, POLL_WINDOW. rewrite Z.max_r by lia.
  assert (1 ≤ (deadline - now + (5000 - 1)) / 5000) by (apply Z.div_le_lower_bound; lia). destruct (Z.le_gt_cases (deadline - now) 5000) as [Hs|Hs].
  - rewrite Z.min_l by lia. replace (deadline - (now + (deadline - now)) + (5000 - 1)) with 4999 by lia. change (4999 / 5000) with 0. lia.
  - rewrite Z.min_r by lia. replace (deadline - (now + 5000) + (5000 - 1)) with (deadline - now + (5000 - 1) + (-1) * 5000) by lia.
    rewrite Z.div_add by lia. lia.
Qed.
Lemma poll_loop_waits fuel : ∀ deadline now arrivals frames,
  (windows deadline now + length arrivals < fuel)%nat → poll_loop fuel deadline now arrivals frames = Some (await_result deadline now arrivals frames).
Proof.
  induction fuel as [|fuel IH]; intros deadline now arrivals frames Hf; [lia|]. cbn [poll_loop].
  destruct (Z.eqb_spec (Z.max 0 (deadline - now)) 0) as [Hz|Hz].
  { destruct arrivals; cbn [await_result]; by rewrite (proj2 (Z.leb_le _ _)) by lia. }
  pose proof (windows_next deadline now ltac:(lia)) as Hw. set (window := Z.min _ POLL_WINDOW) in *.
  assert (0 < window ≤ deadline - now) as Hwin by (unfold window, POLL_WINDOW; lia).
  destruct arrivals as [|[t event] rest].
  - rewrite IH by lia. cbn [await_result]. rewrite (proj2 (Z.leb_gt deadline now)) by lia. by destruct (_ <=? _).
  - destruct (Z.leb_spec t (now + window)) as [Ht|Ht].
    + cbn [await_result]. rewrite (proj2 (Z.leb_gt deadline now)), (proj2 (Z.leb_le t deadline)) by lia.
      destruct event as [e|]; [|done]. destruct (on_event frames e); [|done]. apply IH. pose proof (windows_mono deadline now (Z.max now t) ltac:(lia)). cbn in Hf. lia.
    + rewrite IH by lia. cbn [await_result]. rewrite (proj2 (Z.leb_gt deadline now)) by lia. destruct (Z.leb_spec t deadline) as [Hd|Hd].
      * rewrite (proj2 (Z.leb_gt deadline (now + window))) by lia. by rewrite !Z.max_r by lia.
      * by destruct (_ <=? _).
Qed.

(** The frame an event adds, and whether it ends the wait. *)
Definition frame_of (e : ForwardedExecEvent) : option StreamFrame :=
  match e with FwStreamChunk c => Some (FChunk c) | FwStreamArtifact a => Some (FArtifact a) | _ => None end.
Definition terminal (e : ForwardedExecEvent) : bool :=
  match e with FwExecFinished _ | FwExecRejected _ | FwExecCancelled _ => true | _ => false end.
Lemma on_event_frames frames e :
  on_event frames e = if terminal e then on_event frames e else inl (frames ++ option_list (frame_of e)).
Proof. destruct e; simpl; by rewrite ?app_nil_r. Qed.
Lemma await_ok deadline arrivals : ∀ now frames out,
  await_result deadline now arrivals frames = WaitOutcome (ExecOk out) →
  ∃ pre t finished post, arrivals = pre ++ (t, Some (FwExecFinished finished)) :: post ∧ t ≤ deadline ∧
    Forall (λ a, ∃ e, a.2 = Some e ∧ terminal e = false) pre ∧
    out = frames ++ omap (λ a, e ← a.2; frame_of e) pre ++ [FFinished finished].
Proof.
  induction arrivals as [|[t event] rest IH]; intros now frames out; cbn [await_result]; (destruct (deadline <=? now); [done|]); [done|].
  destruct (Z.leb_spec t deadline) as [Ht|]; [|done]. destruct event as [e|]; [|done]. destruct (terminal e) eqn:He.
  - destruct e; try done; cbn; intros [= <-]. exists [], t, ev, rest. split_and!; [done|done|constructor|done].
  - rewrite on_event_frames, He. intros (pre & t' & fin & post & -> & Hd & Hpre & ->)%IH. exists ((t, Some e) :: pre), t', fin, post.
    split_and!; [done|done|constructor; [by exists e|done]|]. cbn. rewrite <- !app_assoc. by destruct (frame_of e).
Qed.

Section remote_correct.
Context `{Crypto} `{!CryptoLaws} {W : Type} `{MatrixServer W} (parse_id : string → option RoomOrAliasId).
Context (sdk_agent_states : string → st W SdkError (list (StateEvent AgentState)))
        (sdk_agent_state : string → string → st W SdkError (option (StateEvent AgentState)))
        (sdk_send : string → string → Value → st W SdkError unit).
Context (show_error : WorkspaceError → string) (show_sdk : SdkError → string) (debug : string → string).
Abbreviation send_raw := (send_raw sdk_send show_sdk).
Abbreviation prepare := (prepare parse_id sdk_agent_states sdk_agent_state show_error show_sdk debug).
Abbreviation submit := (submit sdk_send show_sdk).

(** A step that sends nothing. *)
Definition quiet {A} (m : st (Requester (W := W)) string A) : Prop := ∀ s, (m s).2.(rq_sent) = s.(rq_sent).
Lemma quiet_ret {A} (x : A) : quiet (ret x).
Proof. by intros s. Qed.
Lemma quiet_bind {A B} (m : st Requester string A) (k : A → st Requester string B) : quiet m → (∀ x, quiet (k x)) → quiet (bind m k).
Proof. intros Hm Hk s. unfold bind. specialize (Hm s). destruct (m s) as [[x|e] s1]; simpl in *; [by rewrite Hk|done]. Qed.
Lemma quiet_client {A} (m : st W SdkError A) : quiet (client show_sdk m).
Proof. intros s. unfold client. by destruct (m _) as [[] ?]. Qed.
Lemma quiet_text {A} (r : result A WorkspaceError) : quiet (text show_error r).
Proof. by intros s. Qed.
Lemma quiet_or_fail {A} (o : option A) msg : quiet (or_fail o msg).
Proof. by destruct o. Qed.
Lemma quiet_pure {A} (g : Requester → result A string) : quiet (λ s, (g s, s)).
Proof. by intros s. Qed.
Create HintDb quiet.
Hint Resolve quiet_ret quiet_client quiet_text quiet_or_fail quiet_pure : quiet.
Lemma quiet_open f target : quiet (open_target parse_id show_error show_sdk f target).
Proof.
  apply quiet_bind; [auto with quiet|intros session]. apply quiet_bind; [auto with quiet|intros me]. apply quiet_bind; [auto with quiet|intros _]. apply quiet_bind; [auto with quiet|intros _].
  apply quiet_bind; [auto with quiet|intros id]. apply quiet_bind; [destruct id; auto with quiet|intros room].
  apply quiet_bind; [auto with quiet|intros view]. apply quiet_bind; auto with quiet.
Qed.
Lemma quiet_prepare f target agent : quiet (prepare f target agent).
Proof.
  apply quiet_bind; [apply quiet_open|]. intros [me room]. repeat (apply quiet_bind; [auto with quiet|intros ?]). auto with quiet.
Qed.
Lemma bind_Ok {A B} (m : st (Requester (W := W)) string A) (k : A → st Requester string B) s x s' :
  bind m k s = (Ok x, s') → ∃ y s1, m s = (Ok y, s1) ∧ k y s1 = (Ok x, s').
Proof. unfold bind. destruct (m s) as [[y|e] s1]; [by exists y, s1|done]. Qed.
Lemma prepare_key f target agent s p s' : prepare f target agent s = (Ok p, s') → f.(fr_signing) = Ok p.(pp_signing).
Proof.
  intros ([me room] & s1 & _ & E)%bind_Ok. do 7 (apply bind_Ok in E as (? & ? & ? & E)). cbn in *.
  match goal with H : (fr_signing _, _) = _ |- _ => injection H as -> end. injection E as <- _. done.
Qed.

(** What sending does to the log. *)
Lemma send_raw_log room ty v s :
  (send_raw room ty v s).2.(rq_sent) = s.(rq_sent) ++ match (send_raw room ty v s).1 with Ok _ => [(ty, v)] | Err _ => [] end.
Proof. unfold ExecIpc.send_raw. destruct (sdk_send room ty v _) as [[]]; simpl; [done|by rewrite app_nil_r]. Qed.
Definition stdin_events (f : Fresh) (x : ExecStart) (sk : SigningKey) (invocation_id : string) : list (string * Value) :=
  match x.(xs_params).(xp_stdin) with
  | Some stdin => [(EXEC_STDIN, stdin_content f sk invocation_id (of_bytes stdin) true)]
  | None => []
  end.
Definition request_of (f : Fresh) (x : ExecStart) (agent invocation_id request_id : string) (p : Prepared) : ExecRequestOptions :=
  request_options x agent p.(pp_requester).(as_agent_id).

(** The request an executor gets: what was asked for, signed by this host. *)
Record sent_request (f : Fresh) (x : ExecStart) (agent invocation_id request_id : string) (sk : SigningKey) (content : Value) : Prop := {
  sr_signed : verify (verifying_key sk) content = Ok tt;
  sr_asked : ∃ requester s, s.(sig_key_id) = key_id_of sk ∧
    content = ExecRequest_value (exec_request_of (key_id_of sk) invocation_id request_id f.(fr_nonce) f.(fr_created_at) f.(fr_expires_at)
                                  (request_options x agent requester) s);
}.
Lemma built_request f x agent inv rid p :
  ∃ content, build_request f p.(pp_signing) inv rid (request_options x agent p.(pp_requester).(as_agent_id)) = Ok content ∧
    sent_request f x agent inv rid p.(pp_signing) content.
Proof.
  unfold build_request. destruct (build_signed_exec_request_Ok p.(pp_signing) (key_id_of p.(pp_signing)) inv rid f.(fr_nonce) f.(fr_created_at)
    f.(fr_expires_at) (request_options x agent p.(pp_requester).(as_agent_id))) as (s & Hk & -> & Hv).
  eexists. split; [done|]. split; [done|]. by exists p.(pp_requester).(as_agent_id), s.
Qed.
(** Nothing is sent, or the request is, and its input too when it got through. *)
Lemma submit_log f x agent inv rid p s :
  ∃ content, sent_request f x agent inv rid p.(pp_signing) content ∧
    let '(r, s') := submit f x agent inv rid p s in
    (s'.(rq_sent) = s.(rq_sent) ∧ is_err r = true) ∨
    (s'.(rq_sent) = s.(rq_sent) ++ [(EXEC_REQUEST, content)] ∧ is_err r = true ∧ stdin_events f x p.(pp_signing) inv ≠ []) ∨
    (s'.(rq_sent) = s.(rq_sent) ++ (EXEC_REQUEST, content) :: stdin_events f x p.(pp_signing) inv ∧ is_ok r = true).
Proof.
  destruct (built_request f x agent inv rid p) as (content & Hb & Hs). exists content. split; [done|]. unfold ExecIpc.submit, bind at 1. rewrite Hb.
  unfold bind at 1, subscribe_to. destruct (subscribe _ _ _) as [sub reg]. set (s1 := {| rq_world := _ |}). unfold bind at 1, or_drop, bind at 1.
  pose proof (send_raw_log p.(pp_room_id) EXEC_REQUEST content s1) as Hl1. destruct (send_raw _ _ content s1) as [[[]|e] s2]; cbn in Hl1 |- *.
  2:{ left. by rewrite Hl1, app_nil_r. }
  unfold stdin_events. destruct (xp_stdin (xs_params x)) as [stdin|]; cbn.
  - pose proof (send_raw_log p.(pp_room_id) EXEC_STDIN (stdin_content f (pp_signing p) inv (of_bytes stdin) true) s2) as Hl2.
    destruct (send_raw _ _ _ s2) as [[[]|e] s3]; cbn in Hl2 |- *; rewrite Hl2, Hl1.
    + right. right. by rewrite <- app_assoc.
    + right. left. by rewrite app_nil_r.
  - right. right. by rewrite Hl1.
Qed.

Abbreviation start := (start_exec_matrix parse_id sdk_agent_states sdk_agent_state sdk_send show_error show_sdk debug).
Definition deadline_of (x : ExecStart) (now : Z) : Z :=
  now + unwrap_or (Z.of_N <$> x.(xs_params).(xp_timeout_ms)) DEFAULT_REMOTE_EXEC_TIMEOUT_MS + REQUESTER_TIMEOUT_GRACE.
Definition cancel_event (f : Fresh) (sk : SigningKey) (invocation_id : string) : string * Value :=
  (EXEC_CANCEL, cancel_content f sk invocation_id CANCEL_REASON).
(** The end of the wait, and what may be sent then. *)
Definition ended (w : WaitEnd) (cancel : string * Value) (outcome : ExecOutcome) (out : list (string * Value)) : Prop :=
  match w with
  | WaitOutcome o => outcome = o ∧ out = []
  | WaitClosed => outcome = ExecError XRemote "remote exec subscriber closed" ∧ out = []
  | WaitTimedOut => outcome = ExecError XTimeout "timed out waiting for remote exec result; sent cancel" ∧ (out = [cancel] ∨ out = [])
  end.
(** What a remote run sends and reports. *)
Inductive remote_run (f : Fresh) (x : ExecStart) (inv rid : string) (now : Z) (arrivals : Arrivals) :
    list (string * Value) → ExecOutcome → Prop :=
| NotSent message : remote_run f x inv rid now arrivals [] (ExecError XRemote message)
| InputLost agent sk content message :
    x.(xs_agent) = Some agent → f.(fr_signing) = Ok sk → sent_request f x agent inv rid sk content → is_some x.(xs_params).(xp_stdin) = true →
    remote_run f x inv rid now arrivals [(EXEC_REQUEST, content)] (ExecError XRemote message)
| Ran agent sk content outcome out :
    x.(xs_agent) = Some agent → f.(fr_signing) = Ok sk → sent_request f x agent inv rid sk content →
    ended (await_result (deadline_of x now) now arrivals []) (cancel_event f sk inv) outcome out →
    remote_run f x inv rid now arrivals ((EXEC_REQUEST, content) :: stdin_events f x sk inv ++ out) outcome.

Lemma await_ended f p inv fuel deadline now arrivals s :
  (windows deadline now + length arrivals < fuel)%nat →
  ∃ r s' out, await sdk_send show_sdk f p inv fuel deadline now arrivals s = Some (r, s') ∧ s'.(rq_sent) = s.(rq_sent) ++ out ∧
    ended (await_result deadline now arrivals []) (cancel_event f p.(pp_signing) inv)
          (match r with Ok outcome => outcome | Err message => ExecError XRemote message end) out.
Proof.
  intros Hf. unfold await. rewrite poll_loop_waits by done. destruct (await_result deadline now arrivals []) as [o| |]; cbn [ended].
  - eexists _, _, []. rewrite app_nil_r. done.
  - eexists _, _, []. rewrite app_nil_r. done.
  - eexists _, _, _. split; [done|]. split; [apply send_raw_log|]. split; [done|]. destruct (send_raw _ _ _ s).1; [by left|by right].
Qed.
Lemma inner_run f x inv rid fuel now arrivals s :
  (windows (deadline_of x now) now + length arrivals < fuel)%nat →
  ∃ r s' out, start_exec_matrix_inner parse_id sdk_agent_states sdk_agent_state sdk_send show_error show_sdk debug f x inv rid fuel now arrivals s
                = Some (r, s') ∧ s'.(rq_sent) = s.(rq_sent) ++ out ∧
    remote_run f x inv rid now arrivals out (match r with Ok outcome => outcome | Err message => ExecError XRemote message end).
Proof.
  intros Hf. unfold start_exec_matrix_inner.
  destruct (xs_room x) as [target|]; [|eexists _, s, []; rewrite app_nil_r; split_and!; [done|done|constructor]].
  destruct (xs_agent x) as [agent|] eqn:Ha; [|eexists _, s, []; rewrite app_nil_r; split_and!; [done|done|constructor]].
  unfold bind at 1. pose proof (quiet_prepare f target agent s) as Hq. destruct (prepare f target agent s) as [[p|e] s1] eqn:Hp; cbn in Hq.
  2:{ eexists _, s1, []. rewrite app_nil_r. split_and!; [done|done|constructor]. }
  apply prepare_key in Hp. unfold bind at 1. destruct (submit_log f x agent inv rid p s1) as (content & Hs & Hlog).
  destruct (submit f x agent inv rid p s1) as [[sub|e] s2].
  2:{ destruct Hlog as [[Hl _]|[(Hl & _ & Hin)|[_ [=]]]].
      - eexists _, s2, []. rewrite app_nil_r. split_and!; [done|congruence|constructor].
      - eexists _, s2, _. split_and!; [done|by rewrite Hl, Hq|]. eapply InputLost; [done..|].
        unfold stdin_events in Hin. by destruct (xp_stdin (xs_params x)). }
  destruct Hlog as [[_ [=]]|[(_ & [=] & _)|[Hl _]]].
  destruct (await_ended f p inv fuel (deadline_of x now) now arrivals s2 Hf) as (r & s3 & out & Hw & Hl3 & He).
  unfold deadline_of in Hw. cbn [ret]. rewrite Hw. eexists _, _, _. split; [done|]. cbn [rq_sent unsubscribe fst snd].
  split; [by rewrite Hl3, Hl, Hq, <- app_assoc|]. by eapply Ran.
Qed.

(** C12: a command sent to another agent is asked for once and reported as the room reported
    it.  The daemon always answers, after as many receives as there are five-second windows
    up to the deadline plus events; it sends either nothing, or one request signed by this
    host that carries the caller's command, directory, environment and timeout and names the
    caller's invocation, then its input, and then nothing unless the wait reached the
    deadline, when it may send a cancel and reports a timeout.  It reports success only when
    the finish event came by the deadline, before any other end, with exactly the output that
    came before it. *)
Theorem remote_exec_outcome f x fresh_invocation request_id fuel now arrivals s
    (Hfuel : (windows (deadline_of x now) now + length arrivals < fuel)%nat) :
  let inv := unwrap_or x.(xs_invocation_id) fresh_invocation in
  ∃ outcome s' out,
    start f x fresh_invocation request_id fuel now arrivals s =
      Some ({| xr_invocation_id := inv; xr_request_id := request_id; xr_outcome := outcome |}, s') ∧
    s'.(rq_sent) = s.(rq_sent) ++ out ∧
    remote_run f x inv request_id now arrivals out outcome ∧
    ∀ frames, outcome = ExecOk frames →
      ∃ pre t finished post,
        arrivals = pre ++ (t, Some (FwExecFinished finished)) :: post ∧ t ≤ deadline_of x now ∧
        Forall (λ a, ∃ e, a.2 = Some e ∧ terminal e = false) pre ∧
        frames = omap (λ a, e ← a.2; frame_of e) pre ++ [FFinished finished].
Proof.
  intros inv. destruct (inner_run f x inv request_id fuel now arrivals s Hfuel) as (r & s' & out & Hr & Hl & Hrun).
  unfold start_exec_matrix. fold inv. rewrite Hr. eexists _, s', out. split_and!; [done..|]. intros frames E.
  assert (∃ cancel out', ended (await_result (deadline_of x now) now arrivals []) cancel (ExecOk frames) out') as (cancel & out' & Hend).
  { destruct Hrun as [|agent sk content m|agent sk content o out' _ _ _ Hend]; [done..|]. subst o. eauto. }
  destruct (await_result _ _ _ _) as [o| |] eqn:Ew; cbn in Hend; [|destruct Hend; done..]. destruct Hend as [<- _]. by apply await_ok in Ew.
Qed.

(** A remote call is reported as run only if its one signed request went out and the answer,
    to that request, is signed with the key the target's agent publishes and this host
    trusts. *)
Lemma remote_call_outcome call_response_from_value loopback f params fresh_invocation request_id syncs s room agent r s' :
  params.(cs_room) = Some room → params.(cs_agent) = Some agent →
  start_call_matrix parse_id sdk_agent_states sdk_agent_state sdk_send show_error show_sdk debug call_response_from_value loopback f params
    fresh_invocation request_id syncs s = Some (r, s') →
  (s'.(rq_sent) = s.(rq_sent) ∧ ∃ message, r.(cr_outcome) = CallError CkRemote message) ∨
  (∃ sk content requester, f.(fr_signing) = Ok sk ∧ s'.(rq_sent) = s.(rq_sent) ++ [(CALL_REQUEST, content)] ∧
     call_content f sk (unwrap_or params.(cs_invocation_id) fresh_invocation) request_id params requester agent = Ok content ∧
     verify (verifying_key sk) content = Ok tt ∧
     ∀ code summary, r.(cr_outcome) = CallOk code summary →
       ∃ env events event response user, Ok (env, events) ∈ syncs ∧ event ∈ events ∧ event.(ie_sender) = user ∧
         response.(cresp_request_id) = request_id ∧ response_to_outcome response = CallOk code summary ∧
         authentic env event.(ie_room_id) user (CallResponse_value response)).
Proof.
  intros Hr Ha. unfold start_call_matrix. rewrite Hr, Ha. unfold start_call_matrix_inner, bind at 1.
  pose proof (quiet_prepare f room agent s) as Hq. destruct (prepare f room agent s) as [[p|e] s1] eqn:Hp; cbn in Hq.
  2:{ intros [= <- <-]. left. eauto. }
  apply prepare_key in Hp. unfold bind at 1. destruct (call_content f _ _ _ _ _ _) as [content|] eqn:Hc.
  2:{ intros [= <- <-]. left. eauto. }
  unfold bind. pose proof (send_raw_log p.(pp_room_id) CALL_REQUEST content s1) as Hl. destruct (send_raw _ _ content s1) as [[[]|e] s2]; cbn in Hl.
  2:{ intros [= <- <-]. left. rewrite Hl, app_nil_r. eauto. }
  intros [= <- <-]. right. exists p.(pp_signing), content, p.(pp_requester).(as_agent_id). split_and!; [done|congruence|done| |].
  { by apply sign_into_verify in Hc as [Hv _]. }
  intros code summary. cbn [cr_outcome]. destruct (wait_for_call_response _ _ _ _) as [response|] eqn:Hw; [|done]. intros Ho.
  apply wait_call_authentic in Hw as (pre & env & events & post & event & -> & He & _ & Hs & _ & Hid & Hau).
  exists env, events, event, response, p.(pp_expected_sender). split_and!; try done. apply elem_of_app. right. by left.
Qed.
End remote_correct.

(** A target that answers in time. *)
Module Remote.
#[local] Existing Instance Signing.Toy.toy_crypto.
#[local] Existing Instance Signing.Toy.toy_laws.
#[local] Existing Instance Workspace.Toy.server.
Definition room : Workspace.Toy.Server := {| Workspace.Toy.sv_rooms := {["!r" := Workspace.Toy.base "@me:s"]}; Workspace.Toy.sv_next := 0 |}.
Definition agents (r : string) : st Workspace.Toy.Server SdkError (list (StateEvent AgentState)) :=
  ret [Content (LiveAuth.Sample.agent "me" "@me:s") (Some "$1"); Content (LiveAuth.Sample.agent "worker" "@worker:s") (Some "$2")].
Definition agent (r id : string) : st Workspace.Toy.Server SdkError (option (StateEvent AgentState)) :=
  ret (if id =s "worker" then Some (Content (LiveAuth.Sample.agent "worker" "@worker:s") (Some "$2")) else None).
Definition deliver (r ty : string) (v : Value) : st Workspace.Toy.Server SdkError unit := ret tt.
Definition fresh : Fresh :=
  {| fr_session := Ok (Some "@me:s"); fr_client := Ok tt; fr_signing := Ok tt; fr_nonce := "n"; fr_created_at := "2026-01-01T00:00:00Z";
     fr_expires_at := "2026-01-01T00:05:00Z"; fr_stdin_nonce := "ns"; fr_stdin_at := "2026-01-01T00:00:00Z"; fr_cancel_nonce := "nc";
     fr_cancel_at := "2026-01-01T00:00:31Z" |}.
Definition ask : ExecStart :=
  {| xs_params := {| xp_command := ["ls"]; xp_cwd := None; xp_stdin := None; xp_env := ∅; xp_timeout_ms := Some 1000%N |};
     xs_room := Some "!r"; xs_agent := Some "worker"; xs_stream := true; xs_pty := false; xs_task := None; xs_strict_stream := false; xs_invocation_id := Some "inv" |}.
Definition arrivals : Arrivals := [(700, Some (FwExecFinished (ResultPlane.ResultExample.finished 0 None))); (800, None)].
Lemma remote_exec_outcome_witness :
  ∃ outcome s' out,
    start_exec_matrix (λ r, Some (RoomId r)) agents agent deliver (λ _, "workspace") se_text id fresh ask "new" "req" 20 0 arrivals
      {| rq_world := room; rq_registry := registry_new; rq_sent := [] |} =
      Some ({| xr_invocation_id := "inv"; xr_request_id := "req"; xr_outcome := outcome |}, s') ∧
    s'.(rq_sent) = out ∧ map fst out = [EXEC_REQUEST] ∧ outcome = ExecOk [FFinished (ResultPlane.ResultExample.finished 0 None)].
Proof.
  destruct (remote_exec_outcome (λ r, Some (RoomId r)) agents agent deliver (λ _, "workspace") se_text id fresh ask "new" "req" 20 0 arrivals
    {| rq_world := room; rq_registry := registry_new; rq_sent := [] |}) as (outcome & s' & out & Hr & Hs & _ & _).
  { vm_compute. lia. }
  exists outcome, s', out. split; [exact Hr|]. split; [exact Hs|].
  assert (match start_exec_matrix (λ r, Some (RoomId r)) agents agent deliver (λ _, "workspace") se_text id fresh ask "new" "req" 20 0 arrivals
            {| rq_world := room; rq_registry := registry_new; rq_sent := [] |}
          with Some (r, s) => Some (r.(xr_outcome), map fst s.(rq_sent)) | None => None end =
          Some (ExecOk [FFinished (ResultPlane.ResultExample.finished 0 None)], [EXEC_REQUEST])) as Hv by (vm_compute; reflexivity).
  rewrite Hr in Hv. cbn [xr_outcome] in Hv. injection Hv as -> Hl. rewrite Hs in Hl. split; [exact Hl|reflexivity].
Defined.
End Remote.

(** ** A run on this host is rendered byte for byte *)

Lemma slice_reads_bytes_fuel n : ∀ data, (length data ≤ n)%nat → stream_bytes (slice_reads_fuel n data) = data.
Proof.
  induction n as [|n IH]; intros [|c data] Hn; cbn in Hn; [done|lia|done|]. cbn [slice_reads_fuel].
  unfold READ_BUF. destruct (Z.to_nat 8192) as [|m] eqn:Em; [lia|]. cbn [take drop stream_bytes]. rewrite IH; [|rewrite length_drop; lia].
  by rewrite <- app_comm_cons, take_drop.
Qed.
Lemma slice_reads_bytes data : stream_bytes (slice_reads data) = data.
Proof. by apply slice_reads_bytes_fuel. Qed.

Section loopback_correct.
Context `{Crypto} `{!CryptoLaws} (clock : nat → Z * Z) (compress_zstd : bytes → option bytes) (show_run_error : RunError → string).
Context (io : WriteLog → Writer → bool) (debug b64_error : string → string) (order : gmap StreamKind StreamReorder → list StreamKind).
Context (io_ok : ∀ log w, io log w = true) (order_ok : ∀ m, order m ≡ₚ (map_to_list m).*1).

Definition loopback_cap (a : Allowance) : Z := unwrap_or (Z.of_N <$> a.(al_max_output_bytes)) DEFAULT_PTY_OUTPUT_CAP_BYTES.
Lemma loopback_cap_pos a m : (loopback_capture_config a).(scc_caps).(cap_max_output_bytes) = Some m → 0 ≤ m.
Proof. cbn. intros [= <-]. unfold unwrap_or, DEFAULT_PTY_OUTPUT_CAP_BYTES. destruct (al_max_output_bytes a); cbn; lia. Qed.
(** Both readers get the turns they need. *)
Definition fair (schedule : list bool) (stdout stderr : bytes) : Prop :=
  (enough_turns (slice_reads stdout) ≤ turns true schedule)%nat ∧ (enough_turns (slice_reads stderr) ≤ turns false schedule)%nat.
Lemma loopback_capture id a schedule stdout stderr :
  fair schedule stdout stderr →
  ∃ summary chunks,
    capture_child_output clock id (loopback_capture_config a) schedule (slice_reads stdout) (slice_reads stderr) None = Some (summary, chunks) ∧
    summary.(cs_truncated) = (loopback_cap a <? Z.of_nat (length stdout + length stderr)).
Proof.
  intros [Ho He]. destruct (both_return clock id (loopback_capture_config a) _ _ None schedule ltac:(done) Ho He) as [Ro Re].
  destruct (capture_child_output _ _ _ schedule _ _ None) as [[summary chunks]|] eqn:E.
  - exists summary, chunks. split; [done|]. destruct (capture_result clock id _ _ _ _ _ _ (loopback_cap_pos a) E) as (_ & _ & _ & _ & Hn).
    rewrite !slice_reads_bytes in Hn. cbn [loopback_capture_config with_caps scc_caps cap_max_output_bytes] in Hn. apply Hn.
  - unfold capture_child_output in E. rewrite Ro, Re in E. done.
Qed.
Lemma captured_window id config schedule out err summary chunks k w :
  (∀ m, config.(scc_caps).(cap_max_output_bytes) = Some m → 0 ≤ m) → 0 ≤ w →
  capture_child_output clock id config schedule out err None = Some (summary, chunks) → in_window w (of_stream k chunks).
Proof.
  intros Hcap Hw E. destruct (capture_result clock id _ _ _ _ _ _ Hcap E) as (Ho & He & Hk & _).
  eapply numbered_in_window; [by eapply captured_numbered|done].
Qed.

(** A command run on this host whose output fits a timeline and the byte cap comes out
    of the local terminal byte for byte: the daemon answers with chunks and one finish frame,
    and rendering them, with any reorder window and in strict mode too, writes what the
    command wrote to each stream, reports nothing missing or cut, and exits with the
    command's own code, or 128 plus the signal that ended it. *)
Theorem loopback_output_exact env spawn id params a duration schedule output config :
  is_err (check_sandbox_floor a) = false →
  run env spawn (loopback_run_spec env params a) = Some (Ok output) →
  let total := Z.of_nat (length output.(ro_stdout) + length output.(ro_stderr)) in
  should_switch default_artifact_config total = false → total ≤ loopback_cap a →
  fair schedule (of_bytes output.(ro_stdout)) (of_bytes output.(ro_stderr)) →
  ∃ chunks finished o log,
    run_loopback_with clock compress_zstd show_run_error env spawn id params a duration schedule =
      Some (ExecOk (map FChunk chunks ++ [FFinished finished])) ∧
    render_stream_with io debug b64_error order (map FChunk chunks ++ [FFinished finished]) config [] = (Ok o, log) ∧
    Reassembly.written Out log = to_text (of_bytes output.(ro_stdout)) ∧ Reassembly.written ErrOut log = to_text (of_bytes output.(ro_stderr)) ∧
    o.(so_missing) = [] ∧ o.(so_integrity_failure) = false ∧ finished.(ef_truncated) = false ∧
    finished.(ef_exit_code) = output.(ro_exit_code) ∧ o.(so_exit_code) = Some (resolve_exit_code finished).
Proof.
  intros Hfloor Hrun total Hsw Hcap Hfair. unfold run_loopback_with. rewrite Hfloor, Hrun. unfold pack_output.
  unfold of_bytes at 1 2. rewrite !length_map, <- Nat2Z.inj_add. fold total. rewrite Hsw.
  destruct (loopback_capture id a schedule _ _ Hfair) as (summary & chunks & E & Ht). rewrite E.
  unfold of_bytes in Ht. rewrite !length_map in Ht. fold total in Ht. rewrite (proj2 (Z.ltb_ge _ _) Hcap) in Ht.
  set (finished := finished_frame _ _ _ _ _).
  destruct (complete_delivery io debug b64_error order io_ok order_ok clock id (loopback_capture_config a) (loopback_cap_pos a) schedule
    (slice_reads (of_bytes output.(ro_stdout))) (slice_reads (of_bytes output.(ro_stderr))) summary chunks chunks config finished [])
    as (o & log & Hr & Wo & We & Hm & Hi & Hx); [done|done|done|intros; eapply captured_window; [apply loopback_cap_pos|lia|done]|].
  rewrite !slice_reads_bytes in Wo, We. exists chunks, finished, o, log. split_and!; done.
Qed.

(** Beyond a timeline's 256 KiB nothing but a four-kilobyte tail of each stream is kept: the
    artifact frames name no file and the finish frame says that nothing was cut. *)
Lemma loopback_large_output_lost env spawn id params a duration schedule output :
  is_err (check_sandbox_floor a) = false →
  run env spawn (loopback_run_spec env params a) = Some (Ok output) →
  should_switch default_artifact_config (Z.of_nat (length output.(ro_stdout)) + Z.of_nat (length output.(ro_stderr))) = true →
  ∃ frames finished,
    run_loopback_with clock compress_zstd show_run_error env spawn id params a duration schedule = Some (ExecOk (frames ++ [FFinished finished])) ∧
    Forall (λ f, ∃ art data, f = FArtifact art ∧ art.(sa_mxc_uri) = "" ∧ art.(sa_tail_preview) = tail_preview data 4096 ∧
                  (data = of_bytes output.(ro_stdout) ∨ data = of_bytes output.(ro_stderr))) frames ∧
    (length frames ≤ 2)%nat ∧ finished.(ef_truncated) = false.
Proof.
  intros Hfloor Hrun Hsw. unfold run_loopback_with. rewrite Hfloor, Hrun. unfold pack_output.
  unfold of_bytes at 1 2. rewrite !length_map, Hsw. eexists _, _. split; [done|].
  assert (∀ k data f, artifact_frame compress_zstd id (k, data) = Some f →
    ∃ art, f = FArtifact art ∧ art.(sa_mxc_uri) = "" ∧ art.(sa_tail_preview) = tail_preview data 4096) as Hf.
  { intros k data f. unfold artifact_frame. destruct data as [|c data]; [done|]. intros [= <-]. eexists. split_and!; [done|done|].
    unfold prepare_artifact. cbn [default_artifact_config ac_compress]. by destruct (compress_zstd _). }
  split_and!; [| |done].
  2:{ unfold omap, list_omap. repeat destruct (artifact_frame _ _ _); cbn; lia. }
  apply Forall_forall. intros f Hin. apply list_elem_of_omap in Hin as ([k data] & Hin & Hfr).
  apply Hf in Hfr as (art & -> & Hu & Ht). exists art, data. split_and!; [done..|].
  apply elem_of_cons in Hin as [[= _ ->]|Hin]; [by left|]. apply list_elem_of_singleton in Hin as [= _ ->]. by right.
Qed.
End loopback_correct.

(** A command that prints two bytes and fails with code 3. *)
Module Local.
#[local] Existing Instance Signing.Toy.toy_crypto.
#[local] Existing Instance Signing.Toy.toy_laws.
Definition child : Child :=
  mkChild (StdinTaken 0) (Some (5%N, mkStatus (Some 3) None)) None (10%N, mkStatus None (Some 9)) (Some 0%N) [Byte.x61; Byte.xff] [].
Definition spawn (c : Command) : result Child (IoKind * string) := Ok child.
Definition params : ExecStartParams := {| xp_command := ["ls"]; xp_cwd := Some "/work"; xp_stdin := None; xp_env := ∅; xp_timeout_ms := None |}.
Definition printed : RunOutput := mkOutput (Some 3) None [Byte.x61; Byte.xff] [] false.
Lemma loopback_output_exact_witness :
  ∃ frames o log,
    run_loopback_with StreamExample.clock (λ _, None) (λ _, "failed") Runner.Sample.env spawn "inv" params Allowance_default 5 StreamExample.schedule =
      Some (ExecOk frames) ∧
    render_stream_with RenderExample.io RenderExample.plain RenderExample.plain RenderExample.order frames RenderExample.config [] = (Ok o, log) ∧
    Reassembly.written Out log = to_text ["a"; chr 255]%char ∧ o.(so_missing) = [].
Proof.
  destruct (loopback_output_exact StreamExample.clock (λ _, None) (λ _, "failed") RenderExample.io RenderExample.plain RenderExample.plain
    RenderExample.order (λ _ _, eq_refl) (λ _, Permutation_refl _) Runner.Sample.env spawn "inv" params Allowance_default 5
    StreamExample.schedule printed RenderExample.config) as (chunks & finished & o & log & Hrun & Hr & Wo & _ & Hm & _).
  - vm_compute. reflexivity.
  - vm_compute. reflexivity.
  - vm_compute. reflexivity.
  - vm_compute. discriminate.
  - split; vm_compute; lia.
  - exists (map FChunk chunks ++ [FFinished finished]), o, log. split; [exact Hrun|]. split; [exact Hr|]. split; [exact Wo|exact Hm].
Defined.
End Local.
