(* ===== verification/IpcServer.v ===== *)
(** * The local socket

    Models [crates/mx-agent-ipc/src/rpc.rs], [server.rs], [client.rs], [peercred.rs] and
    [socket.rs], and the request dispatch of [mx-agent-daemon/src/lifecycle.rs]: which
    connections are served, how a request is routed and answered, and how the socket is
    bound.  JSON text, the parsing of parameters and the methods' own work are arguments;
    a connection's reads come in any sizes, and other connections may change the daemon's
    state between two requests. *)
From Stdlib Require Import ZArith Lia Ascii.
From stdpp Require Import functions gmap strings list.
From S2P Require Import Prelude RustStr CanonicalJson Schema TaskLifecycle SyncLoop Watch PolicyLoad ExecIpc Frame.
Local Open Scope Z_scope.

(** ** JSON-RPC messages *)

Definition JSONRPC_VERSION : string := "2.0".
Definition PARSE_ERROR : Z := -32700.
Definition INVALID_REQUEST : Z := -32600.
Definition METHOD_NOT_FOUND : Z := -32601.
Definition INVALID_PARAMS : Z := -32602.
Definition INTERNAL_ERROR : Z := -32603.
Record Request := { req_jsonrpc : string; req_id : Value; req_method : string; req_params : Value }.
Definition request_new (id : Value) (method : string) (params : Value) : Request :=
  {| req_jsonrpc := JSONRPC_VERSION; req_id := id; req_method := method; req_params := params |}.
Record RpcError := { rpc_code : Z; rpc_message : string; rpc_data : option Value }.
Record Response := { rsp_jsonrpc : string; rsp_id : Value; rsp_result : option Value; rsp_error : option RpcError }.
Definition response_result (id result : Value) : Response :=
  {| rsp_jsonrpc := JSONRPC_VERSION; rsp_id := id; rsp_result := Some result; rsp_error := None |}.
Definition response_error (id : Value) (code : Z) (message : string) : Response :=
  {| rsp_jsonrpc := JSONRPC_VERSION; rsp_id := id; rsp_result := None;
     rsp_error := Some {| rpc_code := code; rpc_message := message; rpc_data := None |} |}.
Definition is_error (r : Response) : bool := bool_decide (is_Some r.(rsp_error)).

(** ** Who is served *)

Inductive PeerCredCheck := PeerAllowed (uid : Z) | PeerDenied (peer_uid daemon_uid : Z) | PeerUnsupported.
Definition peer_is_allowed (c : PeerCredCheck) : bool := match c with PeerDenied _ _ => false | _ => true end.
Definition decide_peer (peer_uid daemon_uid : Z) : PeerCredCheck :=
  if peer_uid =? daemon_uid then PeerAllowed peer_uid else PeerDenied peer_uid daemon_uid.
(** [cred]: what [SO_PEERCRED] reports, or that it fails. *)
Definition verify_peer (cred : option Z) (daemon_uid : Z) : PeerCredCheck :=
  match cred with Some uid => decide_peer uid daemon_uid | None => PeerUnsupported end.
(** Whether to proceed, and the latched warning. *)
Definition gate_peer_check (check : PeerCredCheck) (warned_unsupported : bool) : bool * bool :=
  match check with
  | PeerAllowed _ => (true, warned_unsupported)
  | PeerDenied _ _ => (false, warned_unsupported)
  | PeerUnsupported => (true, true)
  end.
Record Conn := { cn_in : Reader; cn_out : Writer }.
Inductive Accept := Accepted (cred : option Z) (conn : Conn) | AcceptFailed.
(** The connections that get a worker thread, in the order of their arrival. *)
Fixpoint serve_streaming (daemon_uid : Z) (warned : bool) (incoming : list Accept) : list Conn :=
  match incoming with
  | [] => []
  | AcceptFailed :: incoming => serve_streaming daemon_uid warned incoming
  | Accepted cred conn :: incoming =>
    let '(go, warned) := gate_peer_check (verify_peer cred daemon_uid) warned in
    if go then conn :: serve_streaming daemon_uid warned incoming else serve_streaming daemon_uid warned incoming
  end.

(** ** Answering on a connection *)

Definition string_bytes (s : string) : list Z := map (λ c, Z.of_N (N_of_ascii c)) (String.list_ascii_of_string s).
(** [{"jsonrpc":"2.0","id":null,"error":{"code":-32603,"message":"encode failure"}}] *)
Definition quoted (s : string) : string := String (ascii_of_nat 34) s +:+ String (ascii_of_nat 34) "".
Definition ENCODE_FAILURE : list Z :=
  string_bytes ("{" +:+ quoted "jsonrpc" +:+ ":" +:+ quoted "2.0" +:+ "," +:+ quoted "id" +:+ ":null," +:+ quoted "error" +:+ ":{" +:+
                quoted "code" +:+ ":-32603," +:+ quoted "message" +:+ ":" +:+ quoted "encode failure" +:+ "}}").

Section server.
Context (from_slice : list Z → result Request string) (to_vec : Response → option (list Z)).
Context {D : Type}.

Definition encode_response (r : Response) : list Z := unwrap_or (to_vec r) ENCODE_FAILURE.
Definition write_response (r : Response) (w : Writer) : result unit ErrorKind * Writer := write_frame (encode_response r) w.
Definition invalid_request (e : string) : Response := response_error Null PARSE_ERROR ("invalid request: " +:+ e).
Definition handle_message (bytes : list Z) (handler : Request → Response) : Response :=
  match from_slice bytes with Ok request => handler request | Err e => invalid_request e end.

(** A handler works on the daemon's state and on the connection. *)
Definition Handler : Type := Request → D → Conn → result unit ErrorKind * D * Conn.
Definition answer (r : Response) (c : Conn) : result unit ErrorKind * Conn :=
  let '(res, w) := write_response r c.(cn_out) in (res, {| cn_in := c.(cn_in); cn_out := w |}).
(** The loop; [others] is what the rest of the daemon does before the [n]-th request, and
    [None] is running out of fuel. *)
Fixpoint serve_streaming_connection (fuel : nat) (handler : Handler) (others : nat → D → D) (n : nat) (d : D) (c : Conn) :
    option (result unit ErrorKind * D * Conn) :=
  match fuel with
  | O => None
  | S fuel =>
    res ← read_frame c.(cn_in);
    match res with
    | (Err kind, r) => Some (Err kind, d, {| cn_in := r; cn_out := c.(cn_out) |})
    | (Ok None, r) => Some (Ok tt, d, {| cn_in := r; cn_out := c.(cn_out) |})
    | (Ok (Some bytes), r) =>
      let c := {| cn_in := r; cn_out := c.(cn_out) |} in
      let '(res, d, c) :=
        match from_slice bytes with
        | Ok request => handler request (others n d) c
        | Err e => let '(res, c) := answer (invalid_request e) c in (res, d, c)
        end in
      match res with Ok _ => serve_streaming_connection fuel handler others (S n) d c | Err kind => Some (Err kind, d, c) end
    end
  end.
(** [serve]: one response for each request. *)
Definition responding (handler : Request → D → Response * D) : Handler := λ req d c,
  let '(r, d) := handler req d in let '(res, c) := answer r c in (res, d, c).
End server.

(** ** The client *)

Record Client := { cl_in : Reader; cl_out : Writer; cl_next_id : Z }.
Section client.
Context (encode_request : Request → option (list Z)) (decode_response : list Z → option Response).
Definition client_send (request : Request) (c : Client) : result unit ErrorKind * Client :=
  match encode_request request with
  | None => (Err InvalidData, c)
  | Some bytes =>
    let '(res, w) := write_frame bytes c.(cl_out) in (res, {| cl_in := c.(cl_in); cl_out := w; cl_next_id := c.(cl_next_id) |})
  end.
Definition client_recv (c : Client) : option (result Response ErrorKind * Client) :=
  res ← read_frame c.(cl_in);
  let '(res, r) := res in
  let c := {| cl_in := r; cl_out := c.(cl_out); cl_next_id := c.(cl_next_id) |} in
  Some (match res with
        | Err kind => Err kind
        | Ok None => Err UnexpectedEof
        | Ok (Some bytes) => match decode_response bytes with Some response => Ok response | None => Err InvalidData end
        end, c).
(** [call] up to its wait: the request takes the next id. *)
Definition client_request (method : string) (params : Value) (c : Client) : Request * Client :=
  (request_new (Num (NumInt c.(cl_next_id))) method params,
   {| cl_in := c.(cl_in); cl_out := c.(cl_out); cl_next_id := c.(cl_next_id) + 1 |}).
End client.

(** ** Dispatch *)

Definition METHOD_EXEC_PTY : string := "exec.pty".
Definition METHOD_DEVICE_VERIFY_START : string := "device.verify.start".
Definition IPC_REQUEST_BUDGET : Z := 60.
Definition IPC_RECOVERY_BUDGET : Z := 180.
Definition request_budget (method : string) : Z :=
  if one_of method ["recovery.enable"; "recovery.recover"] then IPC_RECOVERY_BUDGET else IPC_REQUEST_BUDGET.
Definition NOT_LOGGED_IN : string := "not logged in; run `mx-agent auth login` first".
Definition NEEDS_STREAMING : string := "this method requires a streaming IPC connection".
(** The methods that parse parameters and then work with the stored session. *)
Definition session_methods : list string :=
  ["task.create"; "task.update"; "task.list"; "task.graph"; "task.cancel"; "workspace.create"; "workspace.join"; "workspace.attach";
   "workspace.grant"; "workspace.status"; "agent.register"; "agent.list"; "agent.show"; "agent.tools"; "trust.publish"; "trust.state";
   "approval.decide"; "share.file"; "share.diff"; "share.env"; "share.list"; "share.get"; "invocation.list"; "invocation.get";
   "invocation.cancel"; "invocation.artifact"; "device.list"; "device.show"; "device.verify.manual"; "recovery.recover"].
(** The ones that take no parameters. *)
Definition plain_methods : list string := ["cross_signing.bootstrap"; "cross_signing.status"; "recovery.enable"; "recovery.status"].
Definition streaming_methods : list string := ["task.watch"; "workspace.watch"; METHOD_DEVICE_VERIFY_START].

Record RunningStatus := {
  rs_running : bool; rs_pid : Z; rs_uptime_seconds : Z; rs_socket_path : string; rs_version : string;
  rs_sync : option SyncHealth; rs_policy : option PolicyLoad.PolicyStatus;
}.

Section dispatch.
Context {D Session : Type}.
(** The work of a method as a future: when it ends, in seconds, with what, and the state
    it leaves then, or when it is dropped at some time. *)
Record Timed := { tm_ends : option Z; tm_result : result Value string; tm_after : D; tm_dropped : Z → D }.
Inductive BoundedOutcome := Completed (r : result Value string) | TimedOut.
Definition run_bounded (budget : Z) (t : Timed) : BoundedOutcome * D :=
  match t.(tm_ends) with
  | Some end_ => if end_ <=? budget then (Completed t.(tm_result), t.(tm_after)) else (TimedOut, t.(tm_dropped) budget)
  | None => (TimedOut, t.(tm_dropped) budget)
  end.
Context (show_secs : Z → string).
Definition bounded_response (req : Request) (budget : Z) (outcome : BoundedOutcome) : Response :=
  match outcome with
  | Completed (Ok value) => response_result req.(req_id) value
  | Completed (Err e) => response_error req.(req_id) INTERNAL_ERROR e
  | TimedOut => response_error req.(req_id) INTERNAL_ERROR
      ("daemon timed out after " +:+ show_secs budget +:+ "s waiting on the homeserver while handling " +:+ req.(req_method) +:+ " (issue #371)")
  end.

(** What the daemon's other parts do for the dispatch. *)
Record Ops := {
  op_session : D → result (option Session) string;
  op_runtime : D → result unit string;
  op_reload : D → (bool * bool) * D;
  op_sync : D → option SyncHealth;
  op_policy : D → option PolicyLoad.PolicyStatus;
  op_now : D → Z;
  op_status_value : RunningStatus → result Value string;
  op_method : string → Value → result (Session → D → Timed) string;
  op_plain : string → Session → D → Timed;
  op_call_params : Value → result CallStartParams string;
  op_call_matrix : CallStartParams → D → result Value string * D;
  op_call_loopback : CallStartParams → D → result Value string * D;
  op_exec_params : Value → result ExecStart string;
  op_exec_matrix : ExecStart → D → result Value string * D;
  op_exec_loopback : ExecStart → D → result Value string * D;
  op_exec_value : ExecStartResult → result Value string;
  op_stdin_params : Value → result ExecStdinParams string;
  op_stdin : ExecStdinParams → D → result Value string * D;
  op_cancel_params : Value → result ExecCancelParams string;
  op_cancel : ExecCancelParams → D → result Value string * D;
}.
Context (ops : Ops) (pid started_at : Z) (socket_path version : string).

Definition value_response (req : Request) (r : result Value string) : Response :=
  match r with Ok value => response_result req.(req_id) value | Err e => response_error req.(req_id) INTERNAL_ERROR e end.
(** A method whose parameters do not parse is not run. *)
Definition parse_params {T} (req : Request) (parsed : result T string) : result T Response :=
  match parsed with
  | Ok x => Ok x
  | Err e => Err (response_error req.(req_id) INVALID_PARAMS ("invalid params for " +:+ req.(req_method) +:+ ": " +:+ e))
  end.
Definition load_daemon_session_response (req : Request) (d : D) : result Session Response :=
  match ops.(op_session) d with
  | Ok (Some session) => Ok session
  | Ok None => Err (response_error req.(req_id) INTERNAL_ERROR NOT_LOGGED_IN)
  | Err e => Err (response_error req.(req_id) INTERNAL_ERROR ("could not read daemon session: " +:+ e))
  end.
Definition runtime_error (req : Request) (e : string) : Response :=
  response_error req.(req_id) INTERNAL_ERROR ("could not start async runtime: " +:+ e).
Definition block_on_task_response (req : Request) (f : Session → D → Timed) (d : D) : Response * D :=
  match load_daemon_session_response req d with
  | Err response => (response, d)
  | Ok session =>
    match ops.(op_runtime) d with
    | Err e => (runtime_error req e, d)
    | Ok _ =>
      let budget := request_budget req.(req_method) in
      let '(outcome, d) := run_bounded budget (f session d) in (bounded_response req budget outcome, d)
    end
  end.
Definition dispatch_call_start (req : Request) (params : CallStartParams) (d : D) : Response * D :=
  if is_some params.(cs_room) && is_some params.(cs_agent) then
    match ops.(op_runtime) d with
    | Err e => (runtime_error req e, d)
    | Ok _ => let '(r, d) := ops.(op_call_matrix) params d in (value_response req r, d)
    end
  else let '(r, d) := ops.(op_call_loopback) params d in (value_response req r, d).
Definition NO_REGISTRY : ExecStartResult :=
  {| xr_invocation_id := ""; xr_request_id := ""; xr_outcome := ExecError XRemote "remote exec requires daemon subscriber registry" |}.
Definition dispatch_exec_start (req : Request) (params : ExecStart) (exec_subscribers : bool) (d : D) : Response * D :=
  match ops.(op_runtime) d with
  | Err e => (runtime_error req e, d)
  | Ok _ =>
    let '(r, d) :=
      if is_some params.(xs_room) && is_some params.(xs_agent) then
        if exec_subscribers then ops.(op_exec_matrix) params d else (ops.(op_exec_value) NO_REGISTRY, d)
      else ops.(op_exec_loopback) params d in
    (value_response req r, d)
  end.
(** [dispatch_exec_stdin] and [dispatch_exec_cancel]. *)
Definition dispatch_exec_control (req : Request) (room : option string) (send : D → result Value string * D) (d : D) : Response * D :=
  match room with
  | None => (response_error req.(req_id) INVALID_PARAMS LOOPBACK_CONTROL_UNSUPPORTED, d)
  | Some _ =>
    match ops.(op_runtime) d with
    | Err e => (runtime_error req e, d)
    | Ok _ => let '(r, d) := send d in (value_response req r, d)
    end
  end.
Definition with_params {T} (req : Request) (parsed : result T string) (f : T → D → Response * D) (d : D) : Response * D :=
  match parse_params req parsed with Ok params => f params d | Err response => (response, d) end.
Definition running_status (d : D) : RunningStatus :=
  {| rs_running := true; rs_pid := pid; rs_uptime_seconds := Z.max 0 (ops.(op_now) d - started_at); rs_socket_path := socket_path;
     rs_version := version; rs_sync := ops.(op_sync) d; rs_policy := ops.(op_policy) d |}.

Definition dispatch (exec_subscribers : bool) (req : Request) (d : D) : Response * D :=
  let m := req.(req_method) in
  if m =s "daemon.ping" then (response_result req.(req_id) (Object [("pong", Bool true)]), d)
  else if m =s "session.reload" then
    let '((started, logged_in), d) := ops.(op_reload) d in
    (response_result req.(req_id) (Object [("started", Bool started); ("logged_in", Bool logged_in)]), d)
  else if m =s "daemon.status" then (value_response req (ops.(op_status_value) (running_status d)), d)
  else if m =s "call.start" then with_params req (ops.(op_call_params) req.(req_params)) (dispatch_call_start req) d
  else if m =s "exec.start" then
    with_params req (ops.(op_exec_params) req.(req_params)) (λ p, dispatch_exec_start req p exec_subscribers) d
  else if m =s "exec.stdin" then
    with_params req (ops.(op_stdin_params) req.(req_params)) (λ p, dispatch_exec_control req p.(sp_room) (ops.(op_stdin) p)) d
  else if m =s "exec.cancel" then
    with_params req (ops.(op_cancel_params) req.(req_params)) (λ p, dispatch_exec_control req p.(cp_room) (ops.(op_cancel) p)) d
  else if one_of m session_methods then
    with_params req (ops.(op_method) m req.(req_params)) (block_on_task_response req) d
  else if one_of m plain_methods then block_on_task_response req (ops.(op_plain) m) d
  else if one_of m streaming_methods then (response_error req.(req_id) METHOD_NOT_FOUND NEEDS_STREAMING, d)
  else (response_error req.(req_id) METHOD_NOT_FOUND ("unknown method: " +:+ m), d).

(** ** Streaming methods *)

Context (to_vec : Response → option (list Z)).
(** Each update is a response with the request's id, until one cannot be written; a socket
    that refused bytes takes no more. *)
Fixpoint write_updates (req : Request) (payloads : list Value) (c : Conn) : bool * Conn :=
  match payloads with
  | [] => (false, c)
  | payload :: payloads =>
    match answer to_vec (response_result req.(req_id) payload) c with
    | (Ok _, c) => write_updates req payloads c
    | (Err _, c) => (true, c)
    end
  end.
(** [dispatch_task_watch], [dispatch_workspace_watch]: [watch] is the watch with the payloads
    of its updates. *)
Definition dispatch_watch {T} (req : Request) (parsed : result T string) (watch : T → Session → D → result unit string * list Value * D) :
    D → Conn → result unit ErrorKind * D * Conn := λ d c,
  match parse_params req parsed with
  | Err response => let '(res, c) := answer to_vec response c in (res, d, c)
  | Ok params =>
    match load_daemon_session_response req d with
    | Err response => let '(res, c) := answer to_vec response c in (res, d, c)
    | Ok session =>
      match ops.(op_runtime) d with
      | Err e => let '(res, c) := answer to_vec (runtime_error req e) c in (res, d, c)
      | Ok _ =>
        let '(result, payloads, d) := watch params session d in
        let '(write_failed, c) := write_updates req payloads c in
        if write_failed then (Ok tt, d, c)
        else match result with
             | Ok _ => (Ok tt, d, c)
             | Err e => let '(res, c) := answer to_vec (response_error req.(req_id) INTERNAL_ERROR e) c in (res, d, c)
             end
      end
    end
  end.
Definition task_watch_payload (tasks : list TaskState → Value) (changes : list TaskChange → Value) (update : WatchUpdate (list TaskState)) : Value :=
  match update with
  | Initial snapshot => Object [("event", Str "initial"); ("tasks", tasks snapshot)]
  | Changed previous current =>
    Object [("event", Str "changed"); ("previous", tasks previous); ("current", tasks current); ("changes", changes (diff_tasks previous current))]
  | Reconnecting attempt error => Object [("event", Str "reconnecting"); ("attempt", Num (NumInt attempt)); ("error", Str error)]
  | Reconnected => Object [("event", Str "reconnected")]
  end.
Definition workspace_watch_payload {T} (status : T → Value) (update : WatchUpdate T) : Value :=
  match update with
  | Initial snapshot => Object [("event", Str "initial"); ("status", status snapshot)]
  | Changed previous current => Object [("event", Str "changed"); ("previous", status previous); ("current", status current)]
  | Reconnecting attempt error => Object [("event", Str "reconnecting"); ("attempt", Num (NumInt attempt)); ("error", Str error)]
  | Reconnected => Object [("event", Str "reconnected")]
  end.

Context {TaskWatch RoomWatch Pty : Type}.
(** The watches, the terminal and the device verification, which read on from the
    connection. *)
Record StreamOps := {
  so_task_params : Value → result TaskWatch string;
  so_task_watch : TaskWatch → Session → D → result unit string * list Value * D;
  so_room_params : Value → result RoomWatch string;
  so_room_watch : RoomWatch → Session → D → result unit string * list Value * D;
  so_pty_params : Value → result Pty string;
  so_pty_targets : Pty → option string * option string;
  so_pty_remote : Pty → Handler (D := D);
  so_pty_loopback : Pty → Handler (D := D);
  so_verify : Handler (D := D);
}.
Context (sops : StreamOps).
Definition dispatch_exec_pty : Handler (D := D) := λ req d c,
  match parse_params req (sops.(so_pty_params) req.(req_params)) with
  | Err response => let '(res, c) := answer to_vec response c in (res, d, c)
  | Ok params =>
    let '(room, agent) := sops.(so_pty_targets) params in
    if is_some room && is_some agent then sops.(so_pty_remote) params req d c else sops.(so_pty_loopback) params req d c
  end.
Definition dispatch_streaming : Handler (D := D) := λ req d c,
  let m := req.(req_method) in
  if m =s "task.watch" then dispatch_watch req (sops.(so_task_params) req.(req_params)) sops.(so_task_watch) d c
  else if m =s "workspace.watch" then dispatch_watch req (sops.(so_room_params) req.(req_params)) sops.(so_room_watch) d c
  else if m =s METHOD_EXEC_PTY then dispatch_exec_pty req d c
  else if m =s METHOD_DEVICE_VERIFY_START then sops.(so_verify) req d c
  else responding to_vec (dispatch true) req d c.
End dispatch.

(** ** Binding the socket *)

Definition UNSAFE_DIR_BITS : Z := 63.
Definition SOCKET_MODE : Z := 384.
Inductive BindError := ParentMissing | UnsafeParentDir (mode : Z) | ParentNotOwned (owner euid : Z) | PathExistsNotSocket | AlreadyInUse | BindIo.
Record DirMeta := { dm_is_dir : bool; dm_mode : Z; dm_uid : Z }.
(** [meta]: what [fs::metadata] returns; [None] when nothing is there. *)
Definition ensure_safe_parent_dir (euid : Z) (meta : result (option DirMeta) unit) : result unit BindError :=
  match meta with
  | Ok None => Err ParentMissing
  | Err _ => Err BindIo
  | Ok (Some meta) =>
    if negb meta.(dm_is_dir) then Err ParentMissing
    else
      let mode := Z.land meta.(dm_mode) 511 in
      if negb (Z.land mode UNSAFE_DIR_BITS =? 0) then Err (UnsafeParentDir mode)
      else if negb (meta.(dm_uid) =? euid) then Err (ParentNotOwned meta.(dm_uid) euid)
      else Ok tt
  end.
(** What is at the path: a socket with the daemon that listens on it, if it still runs. *)
Inductive SocketPath := NoFile | OtherFile | SocketFile (mode : Z) (listener : option Z).
(** [bind] in its system calls, so that several daemons can be in it at once. *)
Inductive BindPc := BindStart | BindConnect | BindRemove | BindListen | BindChmod | BindDone (r : result unit BindError).
(** [created]: the mode of a new socket, [0777] less the umask. *)
Definition bind_step (created euid : Z) (meta : result (option DirMeta) unit) (daemon : Z) (s : SocketPath * BindPc) : SocketPath * BindPc :=
  let '(path, pc) := s in
  match pc with
  | BindStart =>
    match ensure_safe_parent_dir euid meta with
    | Err e => (path, BindDone (Err e))
    | Ok _ =>
      match path with
      | NoFile => (path, BindListen)
      | OtherFile => (path, BindDone (Err PathExistsNotSocket))
      | SocketFile _ _ => (path, BindConnect)
      end
    end
  | BindConnect =>
    match path with
    | SocketFile _ (Some _) => (path, BindDone (Err AlreadyInUse))
    | _ => (path, BindRemove)
    end
  | BindRemove =>
    match path with
    | NoFile => (path, BindDone (Err BindIo))
    | _ => (NoFile, BindListen)
    end
  | BindListen =>
    match path with
    | NoFile => (SocketFile created (Some daemon), BindChmod)
    | _ => (path, BindDone (Err BindIo))
    end
  | BindChmod =>
    match path with
    | NoFile => (path, BindDone (Err BindIo))
    | SocketFile _ l => (SocketFile SOCKET_MODE l, BindDone (Ok tt))
    | OtherFile => (OtherFile, BindDone (Ok tt))
    end
  | BindDone r => (path, BindDone r)
  end.
(** Undisturbed: at most five calls. *)
Definition bind (created euid : Z) (meta : result (option DirMeta) unit) (daemon : Z) (path : SocketPath) : SocketPath * BindPc :=
  Nat.iter 5 (bind_step created euid meta daemon) (path, BindStart).
(** [Drop for SocketGuard]. *)
Definition drop_guard (path : SocketPath) : SocketPath := NoFile.

(** ** Correctness *)

Lemma serve_streaming_peers uid : ∀ warned incoming c,
  c ∈ serve_streaming uid warned incoming ↔ ∃ cred, Accepted cred c ∈ incoming ∧ (cred = Some uid ∨ cred = None).
Proof.
  intros warned incoming. revert warned. induction incoming as [|[cred conn|] incoming IH]; intros warned c; cbn [serve_streaming].
  - split; [by intros ?%not_elem_of_nil|by intros (? & ?%not_elem_of_nil & _)].
  - unfold verify_peer, decide_peer. destruct cred as [u|]; [destruct (Z.eqb_spec u uid) as [->|Hne]|]; cbn [gate_peer_check].
    all: rewrite ?elem_of_cons, IH; setoid_rewrite elem_of_cons; naive_solver.
  - rewrite IH. setoid_rewrite elem_of_cons. naive_solver.
Qed.

Definition well_formed (r : Response) : Prop := is_Some r.(rsp_result) ↔ r.(rsp_error) = None.
(** A response to [req]: its id, and a result or an error. *)
Definition responds (req : Request) (r : Response) : Prop := r.(rsp_id) = req.(req_id) ∧ well_formed r.
Lemma responds_result req v : responds req (response_result req.(req_id) v).
Proof. split; [done|]. split; intros; [done|by eexists]. Qed.
Lemma responds_error req code m : responds req (response_error req.(req_id) code m).
Proof. split; [done|]. split; [by intros []|done]. Qed.
Create HintDb ipc.
#[export] Hint Resolve responds_result responds_error : ipc.

Section answered.
Context {D Session : Type} (show_secs : Z → string) (ops : Ops (D := D) (Session := Session)) (pid started_at : Z) (socket_path version : string).
Abbreviation dispatch := (dispatch show_secs ops pid started_at socket_path version).
Lemma value_responds req r : responds req (value_response req r).
Proof. destruct r; cbn; auto with ipc. Qed.
Lemma bounded_responds req budget o : responds req (bounded_response show_secs req budget o).
Proof. destruct o as [[]|]; cbn; auto with ipc. Qed.
Hint Resolve value_responds bounded_responds : ipc.
Lemma block_on_responds req f d : responds req (block_on_task_response show_secs ops req f d).1.
Proof.
  unfold block_on_task_response, load_daemon_session_response. destruct (op_session ops d) as [[s|]|]; cbn; auto with ipc.
  destruct (op_runtime ops d); cbn; [|apply responds_error]. destruct (run_bounded _ _); cbn; auto with ipc.
Qed.
Lemma with_params_responds {T} req (parsed : result T string) (f : T → D → Response * D) d :
  (∀ p, responds req (f p d).1) → responds req (with_params req parsed f d).1.
Proof. intros Hf. unfold with_params. destruct parsed; cbn; auto with ipc. Qed.
Lemma control_responds req room send d : responds req (dispatch_exec_control ops req room send d).1.
Proof.
  unfold dispatch_exec_control. destruct room; cbn; [|auto with ipc]. destruct (op_runtime ops d); cbn; [|apply responds_error].
  destruct (send d); cbn; auto with ipc.
Qed.
Lemma call_responds req p d : responds req (dispatch_call_start ops req p d).1.
Proof.
  unfold dispatch_call_start. destruct (_ && _); [destruct (op_runtime ops d); [|apply responds_error]|].
  - destruct (op_call_matrix ops p d); cbn; auto with ipc.
  - destruct (op_call_loopback ops p d); cbn; auto with ipc.
Qed.
Lemma exec_responds req p registry d : responds req (dispatch_exec_start ops req p registry d).1.
Proof.
  unfold dispatch_exec_start. destruct (op_runtime ops d); [|apply responds_error].
  destruct (if _ && _ then _ else _); cbn; auto with ipc.
Qed.
Hint Resolve block_on_responds with_params_responds control_responds call_responds exec_responds : ipc.
Lemma dispatch_responds registry req d : responds req (dispatch registry req d).1.
Proof.
  unfold IpcServer.dispatch. cbv zeta. destruct (_ =s _); [cbn; auto with ipc|].
  destruct (_ =s _); [destruct (op_reload ops d) as [[] ?]; cbn; auto with ipc|].
  repeat (destruct (_ =s _); [cbn; auto with ipc|]). repeat (destruct (one_of _ _); [cbn; auto with ipc|]). cbn. auto with ipc.
Qed.
End answered.

(** What a connection is sent: one response for each frame, as long as it fits one. *)
Section connection.
Context (from_slice : list Z → result Request string) (to_vec : Response → option (list Z)).
Context {D : Type} (handler : Request → D → Response * D) (others : nat → D → D).
Fixpoint responses (n : nat) (d : D) (payloads : list (list Z)) : list Response :=
  match payloads with
  | [] => []
  | p :: payloads =>
    match from_slice p with
    | Ok req => let '(r, d) := handler req (others n d) in r :: responses (S n) d payloads
    | Err e => invalid_request e :: responses (S n) d payloads
    end
  end.
Definition fits_frame (r : Response) : bool := Z.of_nat (length (encode_response to_vec r)) <=? MAX_FRAME_LEN.
Fixpoint fitting (rs : list Response) : list Response :=
  match rs with [] => [] | r :: rs => if fits_frame r then r :: fitting rs else [] end.
Definition output_of (rs : list Response) : list Z := concat (map (λ r, frame (encode_response to_vec r)) rs).

Lemma answer_fits r c out :
  c.(cn_out) = {| wr_out := out; wr_fail := None |} → fits_frame r = true →
  answer to_vec r c = (Ok tt, {| cn_in := c.(cn_in); cn_out := {| wr_out := out ++ frame (encode_response to_vec r); wr_fail := None |} |}).
Proof.
  intros Hc Hf. unfold answer, write_response. rewrite Hc, write_frame_ok; [done|]. by apply Z.leb_le in Hf.
Qed.
Lemma answer_too_large r c out :
  c.(cn_out) = {| wr_out := out; wr_fail := None |} → fits_frame r = false → answer to_vec r c = (Err InvalidData, c).
Proof.
  intros Hc Hf. unfold answer, write_response, write_frame. apply Z.leb_gt in Hf. rewrite (proj2 (Z.ltb_lt _ _) Hf). by destruct c.
Qed.
Lemma connection_answers payloads : ∀ fuel n d r out (h : Handler (D := D)),
  (∀ p req, p ∈ payloads → from_slice p = Ok req → h req = responding to_vec handler req) →
  Forall fits payloads → no_errors r → r.(rd_data) = concat (map frame payloads) → (length payloads < fuel)%nat →
  let rs := responses n d payloads in
  ∃ d' r',
    serve_streaming_connection from_slice to_vec fuel h others n d {| cn_in := r; cn_out := {| wr_out := out; wr_fail := None |} |} =
      Some (if forallb fits_frame rs then Ok tt else Err InvalidData, d',
            {| cn_in := r'; cn_out := {| wr_out := out ++ output_of (fitting rs); wr_fail := None |} |}).
Proof.
  induction payloads as [|p payloads IH]; intros fuel n d r out h Hh Hfits Hr Hd Hfuel; (destruct fuel as [|fuel]; [cbn in Hfuel; lia|]); cbn [serve_streaming_connection].
  - cbn [cn_in]. destruct (read_frame_partial [] [] r) as (r' & ->); [done|done|exact Hd|apply prefix_nil|done|]. cbn. exists d, r'. by rewrite app_nil_r.
  - apply Forall_cons in Hfits as [Hp Hfits]. destruct (read_frame_whole p (concat (map frame payloads)) r Hp Hr Hd) as (r' & Hread & Hd' & Hr').
    cbn [cn_in cn_out]. rewrite Hread. cbn [mbind option_bind responses].
    assert (∀ resp d1, ∃ d' r'',
      (let '(res, d2, c) := (let '(res, c) := answer to_vec resp {| cn_in := r'; cn_out := {| wr_out := out; wr_fail := None |} |} in (res, d1, c)) in
       match res with
       | Ok _ => serve_streaming_connection from_slice to_vec fuel h others (S n) d2 c
       | Err kind => Some (Err kind, d2, c)
       end) =
      Some (if forallb fits_frame (resp :: responses (S n) d1 payloads) then Ok tt else Err InvalidData, d',
            {| cn_in := r''; cn_out := {| wr_out := out ++ output_of (fitting (resp :: responses (S n) d1 payloads)); wr_fail := None |} |})) as Hstep.
    { intros resp d1. cbn [forallb fitting]. destruct (fits_frame resp) eqn:Hf.
      - erewrite answer_fits by done. cbn [cn_in andb].
        destruct (IH fuel (S n) d1 r' (out ++ frame (encode_response to_vec resp)) h) as (d' & r'' & ->);
          [intros; eapply Hh; [by right|done]|done|done|done|cbn in Hfuel; lia|].
        exists d', r''. unfold output_of. cbn [map concat]. by rewrite app_assoc.
      - erewrite answer_too_large by done. exists d1, r'. cbn. by rewrite app_nil_r. }
    destruct (from_slice p) as [req|e] eqn:Hp'; [|apply Hstep].
    rewrite (Hh p req) by (by left || done). unfold responding. destruct (handler req (others n d)) as [resp d1]. apply Hstep.
Qed.
End connection.

(** Reading [n] responses. *)
Fixpoint client_recvs (decode_response : list Z → option Response) (n : nat) (c : Client) : option (list (result Response ErrorKind)) :=
  match n with
  | O => Some []
  | S n => res ← client_recv decode_response c; rs ← client_recvs decode_response n res.2; Some (res.1 :: rs)
  end.
Lemma client_reads to_vec decode_response rs : ∀ c,
  Forall (λ r, fits (encode_response to_vec r) ∧ decode_response (encode_response to_vec r) = Some r) rs →
  no_errors c.(cl_in) → c.(cl_in).(rd_data) = output_of to_vec rs →
  client_recvs decode_response (S (length rs)) c = Some (map Ok rs ++ [Err UnexpectedEof]).
Proof.
  induction rs as [|r rs IH]; intros c Hrs Hc Hd.
  - cbn [length client_recvs]. unfold client_recv. destruct (read_frame_partial [] [] c.(cl_in)) as (r' & ->); [done|done|exact Hd|apply prefix_nil|done|]. done.
  - apply Forall_cons in Hrs as [[Hf Hdec] Hrs]. unfold output_of in Hd. cbn [map concat] in Hd.
    destruct (read_frame_whole _ _ _ Hf Hc Hd) as (r' & Hread & Hd' & Hr').
    cbn [length]. change (client_recvs decode_response (S (S (length rs))) c) with
      (res ← client_recv decode_response c; l ← client_recvs decode_response (S (length rs)) res.2; Some (res.1 :: l)).
    unfold client_recv at 1. rewrite Hread. cbn [mbind option_bind fst snd]. rewrite Hdec, IH by done. done.
Qed.

Definition STREAMING : list string := ["task.watch"; "workspace.watch"; METHOD_EXEC_PTY; METHOD_DEVICE_VERIFY_START].
(** The response a frame calls for. *)
Definition answers (from_slice : list Z → result Request string) (payload : list Z) (r : Response) : Prop :=
  match from_slice payload with
  | Ok req => responds req r
  | Err e => r = invalid_request e
  end.

Section requests.
Context (from_slice : list Z → result Request string) (to_vec : Response → option (list Z)) (decode_response : list Z → option Response).
Context {D Session TaskWatch RoomWatch Pty : Type} (show_secs : Z → string) (ops : Ops (D := D) (Session := Session)).
Context (pid started_at : Z) (socket_path version : string).
Context (sops : StreamOps (D := D) (Session := Session) (TaskWatch := TaskWatch) (RoomWatch := RoomWatch) (Pty := Pty)).
Abbreviation dispatch := (dispatch show_secs ops pid started_at socket_path version).
Abbreviation dispatch_streaming := (dispatch_streaming show_secs ops pid started_at socket_path version to_vec sops).

Lemma dispatch_single req : one_of req.(req_method) STREAMING = false → dispatch_streaming req = responding to_vec (dispatch true) req.
Proof.
  unfold one_of, STREAMING. cbn [existsb]. rewrite !orb_false_iff. intros (H1 & H2 & H3 & H4 & _).
  unfold IpcServer.dispatch_streaming. by rewrite H1, H2, H3, H4.
Qed.
Lemma responses_answer others payloads : ∀ n d, Forall2 (answers from_slice) payloads (responses from_slice (dispatch true) others n d payloads).
Proof.
  induction payloads as [|p payloads IH]; intros n d; cbn [responses]; [constructor|].
  assert (∀ resp d1, answers from_slice p resp →
    Forall2 (answers from_slice) (p :: payloads) (resp :: responses from_slice (dispatch true) others (S n) d1 payloads)) as Hc by (by constructor).
  destruct (from_slice p) as [req|e] eqn:Hp.
  - pose proof (dispatch_responds show_secs ops pid started_at socket_path version true req (others n d)) as Hresp.
    destruct (dispatch true req (others n d)) as [r d1]. apply Hc. unfold answers. by rewrite Hp.
  - apply Hc. unfold answers. by rewrite Hp.
Qed.
Lemma fitting_fits rs : Forall (λ r, fits (encode_response to_vec r)) (fitting to_vec rs).
Proof.
  induction rs as [|r rs IH]; cbn [fitting]; [constructor|]. destruct (fits_frame to_vec r) eqn:Hf; constructor; [by apply Z.leb_le in Hf|done].
Qed.
Lemma fitting_incl rs r : r ∈ fitting to_vec rs → r ∈ rs.
Proof.
  induction rs as [|r' rs IH]; cbn [fitting]; [done|]. destruct (fits_frame to_vec r'); [|by intros ?%not_elem_of_nil].
  rewrite !elem_of_cons. naive_solver.
Qed.

(** C19: on a connection whose reads and writes do not fail, and which asks for none of the four
    methods that answer with a stream ([task.watch], [workspace.watch], [exec.pty],
    [device.verify.start]), the daemon answers every request, in order, whatever the sizes in
    which it is read and whatever other connections do meanwhile: each frame gets one
    response, with the id of its request and with either a result or an error, and a frame
    that is no request gets a parse error and does not end the connection.  The client
    receives exactly these responses, if each reads back from its own encoding.  The one
    exception is a response beyond 16 MiB: it ends the connection without an answer, and the
    client sees that it was closed. *)
Theorem requests_answered payloads fuel others d r :
  let rs := responses from_slice (dispatch true) others 0 d payloads in
  Forall fits payloads → no_errors r → r.(rd_data) = concat (map frame payloads) → (length payloads < fuel)%nat →
  (∀ p req, p ∈ payloads → from_slice p = Ok req → one_of req.(req_method) STREAMING = false) →
  (∀ resp, resp ∈ rs → decode_response (encode_response to_vec resp) = Some resp) →
  Forall2 (answers from_slice) payloads rs ∧
  ∃ d' r' out,
    serve_streaming_connection from_slice to_vec fuel dispatch_streaming others 0 d
      {| cn_in := r; cn_out := {| wr_out := []; wr_fail := None |} |} =
      Some (if forallb (fits_frame to_vec) rs then Ok tt else Err InvalidData, d',
            {| cn_in := r'; cn_out := {| wr_out := out; wr_fail := None |} |}) ∧
    ∀ c, no_errors c.(cl_in) → c.(cl_in).(rd_data) = out →
      client_recvs decode_response (S (length (fitting to_vec rs))) c = Some (map Ok (fitting to_vec rs) ++ [Err UnexpectedEof]).
Proof.
  intros rs Hfits Hr Hd Hfuel Hsingle Hdec. split; [apply responses_answer|].
  destruct (connection_answers from_slice to_vec (dispatch true) others payloads fuel 0 d r [] dispatch_streaming) as (d' & r' & Hs); [|done..|].
  { intros p req Hp Hq. eapply dispatch_single, Hsingle; done. }
  exists d', r', (output_of to_vec (fitting to_vec rs)). split; [exact Hs|]. intros c Hc Hin. eapply client_reads; [|done..].
  pose proof (fitting_fits rs) as Hf. rewrite Forall_forall in Hf |- *. intros resp Hresp. split; [by apply Hf|]. by apply Hdec, fitting_incl.
Qed.
End requests.

(** ** One daemon listens *)

Section binding.
Context (created euid : Z) (meta : result (option DirMeta) unit).
(** Daemons, by their process ids, take their steps in the order of a schedule. *)
Definition bind_poll (s : SocketPath * (Z → BindPc)) (d : Z) : SocketPath * (Z → BindPc) :=
  let '(path, pc) := bind_step created euid meta d (s.1, s.2 d) in (path, <[d := pc]> s.2).
Definition bind_polls (schedule : list Z) (path : SocketPath) : SocketPath * (Z → BindPc) := foldl bind_poll (path, λ _, BindStart) schedule.
Definition stale (path : SocketPath) : bool := match path with SocketFile _ None => true | _ => false end.
Definition holds_socket (pc : BindPc) : bool := match pc with BindChmod | BindDone (Ok _) => true | _ => false end.
Definition passed (pc : BindPc) : bool := match pc with BindStart | BindDone (Err _) => false | _ => true end.
Record bind_inv (s : SocketPath * (Z → BindPc)) : Prop := {
  bi_fresh : stale s.1 = false;
  bi_remove : ∀ d, s.2 d ≠ BindRemove;
  bi_holds : ∀ d, holds_socket (s.2 d) = true → ∃ mode, s.1 = SocketFile mode (Some d) ∧ (s.2 d ≠ BindChmod → mode = SOCKET_MODE);
  bi_connect : ∀ d, s.2 d = BindConnect → ∃ mode l, s.1 = SocketFile mode (Some l);
  bi_safe : ∀ d, passed (s.2 d) = true → ensure_safe_parent_dir euid meta = Ok tt;
}.
(** A step that leaves the file as it is. *)
Lemma bind_inv_same path pcs d pc :
  bind_inv (path, pcs) → pc ≠ BindRemove → holds_socket pc = false → (pc = BindConnect → ∃ mode l, path = SocketFile mode (Some l)) →
  (passed pc = true → ensure_safe_parent_dir euid meta = Ok tt) → bind_inv (path, <[d := pc]> pcs).
Proof.
  intros [I1 I2 I3 I4 I5] Hrm Hh Hc Hp. cbn [fst snd] in *.
  split; cbn [fst snd]; [done| | | |]; intros d'; (destruct (decide (d = d')) as [<-|Hne]; [rewrite fn_lookup_insert|rewrite (fn_lookup_insert_ne pcs) by done]); auto; try (intros; congruence); [apply I4|apply I5].
Qed.
Lemma bind_inv_id path pcs d : bind_inv (path, pcs) → bind_inv (path, <[d := pcs d]> pcs).
Proof.
  intros [I1 I2 I3 I4 I5]. cbn [fst snd] in *.
  assert (∀ d', <[d := pcs d]> pcs d' = pcs d') as Heq.
  { intros d'. destruct (decide (d = d')) as [<-|Hne]; [by rewrite fn_lookup_insert|by rewrite (fn_lookup_insert_ne pcs)]. }
  split; cbn [fst snd]; [done| | | |]; intros d'; rewrite Heq; [apply I2|apply I3|apply I4|apply I5].
Qed.
(** A step that creates the socket or sets its mode. *)
Lemma bind_inv_own path pcs d mode pc :
  bind_inv (path, pcs) → (∀ d', d' ≠ d → holds_socket (pcs d') = false) → passed (pcs d) = true →
  pc = BindChmod ∨ pc = BindDone (Ok tt) ∧ mode = SOCKET_MODE →
  bind_inv (SocketFile mode (Some d), <[d := pc]> pcs).
Proof.
  intros [I1 I2 I3 I4 I5] Hown Hd Hpc. cbn [fst snd] in *.
  split; cbn [fst snd]; [done| | | |]; intros d'; (destruct (decide (d = d')) as [<-|Hne]; [rewrite fn_lookup_insert|rewrite (fn_lookup_insert_ne pcs) by done]); eauto.
  - by destruct Hpc as [->|[-> _]].
  - intros _. exists mode. split; [done|]. intros Hn. destruct Hpc as [->|[-> ->]]; done.
  - intros Hh. by rewrite Hown in Hh.
Qed.
Lemma bind_poll_inv s d : bind_inv s → bind_inv (bind_poll s d).
Proof.
  destruct s as [path pcs]. intros I. unfold bind_poll. cbn [fst snd]. pose proof I as [I1 I2 I3 I4 I5]. cbn [fst snd] in I1, I2, I3, I4, I5.
  specialize (I2 d). specialize (I4 d). specialize (I5 d). destruct (pcs d) as [| | | | |r] eqn:Hd; cbn [bind_step]; [| |done| | |].
  - destruct (ensure_safe_parent_dir euid meta) as [[]|e] eqn:He; [|by apply bind_inv_same].
    destruct path as [| |mode [l|]]; [by apply bind_inv_same..| |done]. apply bind_inv_same; eauto.
  - destruct (I4 eq_refl) as (mode & l & ->). by apply bind_inv_same.
  - destruct path as [| |mode l]; [|by apply bind_inv_same..]. apply (bind_inv_own NoFile); [done| |by rewrite Hd|by left].
    intros d' _. destruct (holds_socket (pcs d')) eqn:Hh; [|done]. by destruct (I3 d' Hh) as (? & ? & _).
  - destruct (I3 d) as (mode & -> & _); [by rewrite Hd|]. apply (bind_inv_own (SocketFile mode (Some d))); [done| |by rewrite Hd|by right].
    intros d' Hne. destruct (holds_socket (pcs d')) eqn:Hh; [|done]. destruct (I3 d' Hh) as (? & [= _ ->] & _). done.
  - rewrite <- Hd. by apply bind_inv_id.
Qed.
Lemma bind_polls_inv schedule path : stale path = false → bind_inv (bind_polls schedule path).
Proof.
  intros Hp. unfold bind_polls. assert (bind_inv (path, λ _, BindStart)) as I by (by split).
  revert I. generalize (path, λ _ : Z, BindStart). induction schedule as [|d schedule IH]; intros s I; [done|]. cbn [foldl]. by apply IH, bind_poll_inv.
Qed.

(** At most one daemon gets the socket.  However many daemons start at once and however
    their system calls interleave, unless the path holds a socket that nobody listens on: a
    daemon whose bind succeeded is the one that listens at the path, in a directory that
    belongs to the user and that nobody else may enter, with mode [0600]; and so no two
    succeed.  Undisturbed, a daemon gets the socket exactly if the directory is safe and the
    path is free or holds a stale socket. *)
Theorem bind_exclusive schedule path :
  stale path = false →
  (let '(path', pcs) := bind_polls schedule path in
   (∀ d, pcs d = BindDone (Ok tt) → path' = SocketFile SOCKET_MODE (Some d) ∧ ensure_safe_parent_dir euid meta = Ok tt) ∧
   (∀ d d', pcs d = BindDone (Ok tt) → pcs d' = BindDone (Ok tt) → d = d')) ∧
  (∀ d p, (bind created euid meta d p).2 = BindDone (Ok tt) ↔
     ensure_safe_parent_dir euid meta = Ok tt ∧ (p = NoFile ∨ stale p = true)).
Proof.
  intros Hp. pose proof (bind_polls_inv schedule path Hp) as [I1 I2 I3 I4 I5]. destruct (bind_polls schedule path) as [path' pcs]. cbn [fst snd] in *.
  assert (∀ d, pcs d = BindDone (Ok tt) → path' = SocketFile SOCKET_MODE (Some d) ∧ ensure_safe_parent_dir euid meta = Ok tt) as Hown.
  { intros d Hd. split; [|apply (I5 d); by rewrite Hd]. destruct (I3 d) as (mode & -> & Hm); [by rewrite Hd|]. by rewrite Hm by (by rewrite Hd). }
  split; [split; [done|]|].
  - intros d d' Hd Hd'. destruct (Hown d Hd) as [-> _], (Hown d' Hd') as [E _]. congruence.
  - intros d p. unfold bind. cbn. destruct (ensure_safe_parent_dir euid meta) as [[]|e]; cbn.
    + destruct p as [| |mode [l|]]; cbn; naive_solver.
    + naive_solver.
Qed.
End binding.

(** ** Witnesses *)

(** A daemon that answers pings, a ping, and a frame that is no request. *)
Module IpcExample.
Definition ops : Ops (D := unit) (Session := unit) :=
  {| op_session _ := Ok None; op_runtime _ := Ok tt; op_reload d := ((false, false), d); op_sync _ := None; op_policy _ := None; op_now _ := 7;
     op_status_value _ := Ok Null; op_method _ _ := Err "missing field"; op_plain _ _ d := {| tm_ends := None; tm_result := Ok Null; tm_after := d; tm_dropped _ := d |};
     op_call_params _ := Err ""; op_call_matrix _ d := (Ok Null, d); op_call_loopback _ d := (Ok Null, d); op_exec_params _ := Err "";
     op_exec_matrix _ d := (Ok Null, d); op_exec_loopback _ d := (Ok Null, d); op_exec_value _ := Ok Null; op_stdin_params _ := Err "";
     op_stdin _ d := (Ok Null, d); op_cancel_params _ := Err ""; op_cancel _ d := (Ok Null, d) |}.
Definition sops : StreamOps (D := unit) (Session := unit) (TaskWatch := unit) (RoomWatch := unit) (Pty := unit) :=
  {| so_task_params _ := Err ""; so_task_watch _ _ d := (Ok tt, [], d); so_room_params _ := Err ""; so_room_watch _ _ d := (Ok tt, [], d);
     so_pty_params _ := Err ""; so_pty_targets _ := (None, None); so_pty_remote _ _ d c := (Ok tt, d, c); so_pty_loopback _ _ d c := (Ok tt, d, c);
     so_verify _ d c := (Ok tt, d, c) |}.
Definition ping : Request := request_new (Num (NumInt 1)) "daemon.ping" Null.
Definition pong : Response := response_result (Num (NumInt 1)) (Object [("pong", Bool true)]).
Definition from_slice (bytes : list Z) : result Request string := match bytes with [1] => Ok ping | _ => Err "expected value" end.
Definition to_vec (r : Response) : option (list Z) := Some (if is_error r then [0] else [1]).
Definition decode_response (bytes : list Z) : option Response :=
  match bytes with [1] => Some pong | [0] => Some (invalid_request "expected value") | _ => None end.
Definition input : Reader := {| rd_data := concat (map frame [[9]; [1]]); rd_events := [Chunk 0; Chunk 2; Chunk 0] |}.
Definition the_dir : result (option DirMeta) unit := Ok (Some {| dm_is_dir := true; dm_mode := 448; dm_uid := 1000 |}).
End IpcExample.

Lemma requests_answered_witness :
  ∃ d' r' out,
    serve_streaming_connection IpcExample.from_slice IpcExample.to_vec 5
      (dispatch_streaming (λ _, "") IpcExample.ops 1 0 "" "" IpcExample.to_vec IpcExample.sops) (λ _ d, d) 0 tt
      {| cn_in := IpcExample.input; cn_out := {| wr_out := []; wr_fail := None |} |} =
      Some (Ok tt, d', {| cn_in := r'; cn_out := {| wr_out := out; wr_fail := None |} |}) ∧
    client_recvs IpcExample.decode_response 3 {| cl_in := {| rd_data := out; rd_events := [Chunk 1] |}; cl_out := {| wr_out := []; wr_fail := None |}; cl_next_id := 2 |} =
      Some [Ok (invalid_request "expected value"); Ok IpcExample.pong; Err UnexpectedEof].
Proof.
  destruct (requests_answered IpcExample.from_slice IpcExample.to_vec IpcExample.decode_response (λ _, "") IpcExample.ops 1 0 "" "" IpcExample.sops
    [[9]; [1]] 5 (λ _ d, d) tt IpcExample.input) as (_ & d' & r' & out & Hs & Hc).
  - repeat constructor; vm_compute; discriminate.
  - repeat constructor; by eexists.
  - reflexivity.
  - cbn. lia.
  - intros p req Hp Hq. apply elem_of_cons in Hp as [->|Hp]; [discriminate Hq|]. apply list_elem_of_singleton in Hp as ->.
    injection Hq as <-. vm_compute. reflexivity.
  - intros resp Hresp. vm_compute in Hresp. apply elem_of_cons in Hresp as [->|Hresp]; [vm_compute; reflexivity|].
    apply list_elem_of_singleton in Hresp as ->. vm_compute. reflexivity.
  - exists d', r', out. split; [exact Hs|].
    apply (Hc {| cl_in := {| rd_data := out; rd_events := [Chunk 1] |}; cl_out := {| wr_out := []; wr_fail := None |}; cl_next_id := 2 |});
      [repeat constructor; by eexists|reflexivity].
Defined.
Lemma bind_exclusive_witness :
  (bind_polls 493 1000 IpcExample.the_dir [3; 4; 3; 4; 3; 4] NoFile).2 3 = BindDone (Ok tt) ∧
  (bind_polls 493 1000 IpcExample.the_dir [3; 4; 3; 4; 3; 4] NoFile).2 4 = BindDone (Err BindIo) ∧
  (bind_polls 493 1000 IpcExample.the_dir [3; 4; 3; 4; 3; 4] NoFile).1 = SocketFile SOCKET_MODE (Some 3).
Proof.
  destruct (bind_exclusive 493 1000 IpcExample.the_dir [3; 4; 3; 4; 3; 4] NoFile eq_refl) as [Ho _].
  split; [vm_compute; reflexivity|]. split; [vm_compute; reflexivity|].
  destruct (bind_polls 493 1000 IpcExample.the_dir [3; 4; 3; 4; 3; 4] NoFile) as [path pcs] eqn:E. destruct Ho as [Ho _]. cbn [fst].
  apply Ho. replace pcs with (bind_polls 493 1000 IpcExample.the_dir [3; 4; 3; 4; 3; 4] NoFile).2 by (by rewrite E). vm_compute. reflexivity.
Defined.

(** After a crash left its socket behind, two daemons that start at once can both succeed;
    the first then listens on a socket that has no name any more. *)
Lemma stale_socket_race :
  let '(path, pcs) := bind_polls 493 1000 IpcExample.the_dir [3; 3; 4; 4; 3; 3; 3; 4; 4; 4] (SocketFile SOCKET_MODE None) in
  pcs 3 = BindDone (Ok tt) ∧ pcs 4 = BindDone (Ok tt) ∧ path = SocketFile SOCKET_MODE (Some 4).
Proof. vm_compute. split_and!; reflexivity. Qed.
