(* ===== verification/Supervisor.v ===== *)
(** * The daemon's background workers

    Models [WorkerSupervisor] and [spawn_matrix_workers] of
    [crates/mx-agent-daemon/src/lifecycle.rs]: generations of sync, scheduler and heartbeat
    threads, how a reload winds one down and starts the next, and the client that a
    generation publishes for the whole process.  Threads take their steps in any order; the
    supervisor's lock makes the steps that hold it atomic. *)
From stdpp Require Import functions gmap strings list.
From S2P Require Import Prelude.

(** ** Workers *)

Inductive Worker := SyncWorker | SchedulerWorker | HeartbeatWorker.
#[export] Instance Worker_eq_dec : EqDecision Worker.
Proof. solve_decision. Defined.
(** A sync worker restores the client before its loop, the others wait for it. *)
Inductive WorkerPc := Waiting | Looping | Exited.
(** An account: the user and the device. *)
Abbreviation Account := (string * string)%type.
Record Generation := {
  gn_account : Account;
  gn_running : bool;
  gn_client : bool;
  gn_pc : Worker → WorkerPc;
}.
(** How a worker's turn goes: it gets as far as its next look at the flag; it is still inside what
    it was doing (a restore, a sync, a pass, a task that the pass runs and which may not end);
    a sync worker may fail to build its runtime or to restore the client, or its loop may end
    with an error. *)
Inductive Turn := TurnGoes | TurnBusy | TurnNoRuntime | TurnRestoreFails | TurnLoopFails.
Definition set_pc (w : Worker) (pc : WorkerPc) (g : Generation) : Generation :=
  {| gn_account := g.(gn_account); gn_running := g.(gn_running); gn_client := g.(gn_client); gn_pc := <[w := pc]> g.(gn_pc) |}.
Definition stop_generation (g : Generation) : Generation :=
  {| gn_account := g.(gn_account); gn_running := false; gn_client := g.(gn_client); gn_pc := g.(gn_pc) |}.
Definition publish_shared (g : Generation) : Generation :=
  {| gn_account := g.(gn_account); gn_running := g.(gn_running); gn_client := true; gn_pc := g.(gn_pc) |}.
(** The generation after a turn, and whether its client is published to the process. *)
Definition sync_turn (t : Turn) (g : Generation) : Generation * bool :=
  match g.(gn_pc) SyncWorker, t with
  | _, TurnBusy => (g, false)
  | Waiting, TurnNoRuntime => (set_pc SyncWorker Exited g, false)
  | Waiting, TurnRestoreFails => (set_pc SyncWorker Exited (stop_generation g), false)
  | Waiting, _ => (set_pc SyncWorker Looping (publish_shared g), true)
  | Looping, TurnLoopFails => (set_pc SyncWorker Exited (stop_generation g), false)
  | Looping, _ => if g.(gn_running) then (g, false) else (set_pc SyncWorker Exited (stop_generation g), false)
  | Exited, _ => (g, false)
  end.
(** The scheduler's and the heartbeat's turn. *)
Definition follower_turn (w : Worker) (t : Turn) (g : Generation) : Generation :=
  match g.(gn_pc) w, t with
  | _, TurnBusy => g
  | Waiting, _ => if negb g.(gn_running) then set_pc w Exited g else if g.(gn_client) then set_pc w Looping g else g
  | Looping, _ => if negb g.(gn_running) then set_pc w Exited g else g
  | Exited, _ => g
  end.
Definition worker_turn (w : Worker) (t : Turn) (g : Generation) : Generation * bool :=
  match w with SyncWorker => sync_turn t g | _ => (follower_turn w t g, false) end.
Definition fresh_generation (account : Account) : Generation := {| gn_account := account; gn_running := true; gn_client := false; gn_pc := λ _, Waiting |}.

(** ** The supervisor *)

(** Where a thread is in [reload]: it takes the generation out of the slot, clears its flag,
    joins its threads, drops the published client and starts the next generation. *)
Inductive ReloadPc :=
| ReloadIdle
| ReloadSignal (taken : option nat)
| ReloadJoin (taken : nat) (rest : list Worker)
| ReloadClear
| ReloadStart
| ReloadDone (started : bool).
(** [w_session]: the account of the stored session; [w_slot]: the generation of the supervisor;
    [w_active]: the clients that the process uses, by account, as the generation that restored
    each; generations are numbered as they are spawned. *)
Record World := {
  w_session : option Account;
  w_gens : list Generation;
  w_slot : option nat;
  w_active : gmap Account nat;
  w_reload : nat → ReloadPc;
}.
Definition set_reload (c : nat) (pc : ReloadPc) (w : World) : World :=
  {| w_session := w.(w_session); w_gens := w.(w_gens); w_slot := w.(w_slot); w_active := w.(w_active); w_reload := <[c := pc]> w.(w_reload) |}.
Definition exited (w : World) (g : nat) (k : Worker) : bool :=
  match w.(w_gens) !! g with Some gn => match gn.(gn_pc) k with Exited => true | _ => false end | None => true end.
Definition ensure_started (w : World) : bool * World :=
  match w.(w_slot) with
  | Some _ => (true, w)
  | None =>
    match w.(w_session) with
    | Some account =>
      (true, {| w_session := w.(w_session); w_gens := w.(w_gens) ++ [fresh_generation account]; w_slot := Some (length w.(w_gens));
                w_active := w.(w_active); w_reload := w.(w_reload) |})
    | None => (false, w)
    end
  end.
(** A thread's next step in [wind_down] and [ensure_started]; a join waits. *)
Definition reload_step (c : nat) (w : World) : World :=
  match w.(w_reload) c with
  | ReloadIdle =>
    set_reload c (ReloadSignal w.(w_slot))
      {| w_session := w.(w_session); w_gens := w.(w_gens); w_slot := None; w_active := w.(w_active); w_reload := w.(w_reload) |}
  | ReloadSignal None => set_reload c ReloadClear w
  | ReloadSignal (Some g) =>
    set_reload c (ReloadJoin g [SyncWorker; SchedulerWorker; HeartbeatWorker])
      {| w_session := w.(w_session); w_gens := alter stop_generation g w.(w_gens); w_slot := w.(w_slot); w_active := w.(w_active); w_reload := w.(w_reload) |}
  | ReloadJoin g [] => set_reload c ReloadClear w
  | ReloadJoin g (k :: rest) => if exited w g k then set_reload c (ReloadJoin g rest) w else w
  | ReloadClear =>
    set_reload c ReloadStart
      {| w_session := w.(w_session); w_gens := w.(w_gens); w_slot := w.(w_slot); w_active := ∅; w_reload := w.(w_reload) |}
  | ReloadStart => let '(started, w) := ensure_started w in set_reload c (ReloadDone started) w
  | ReloadDone _ => set_reload c ReloadIdle w
  end.
(** [restore_client] returns the client that is published for the account, if there is one;
    [publish_active_client]. *)
Definition publish_active (g : nat) (account : Account) (active : gmap Account nat) : gmap Account nat :=
  <[account := default g (active !! account)]> active.
Definition work_step (g : nat) (k : Worker) (t : Turn) (w : World) : World :=
  match w.(w_gens) !! g with
  | None => w
  | Some gn =>
    let '(gn, published) := worker_turn k t gn in
    {| w_session := w.(w_session); w_gens := <[g := gn]> w.(w_gens); w_slot := w.(w_slot);
       w_active := if published then publish_active g gn.(gn_account) w.(w_active) else w.(w_active); w_reload := w.(w_reload) |}
  end.
(** A login or logout by another process. *)
Definition set_session (b : option Account) (w : World) : World :=
  {| w_session := b; w_gens := w.(w_gens); w_slot := w.(w_slot); w_active := w.(w_active); w_reload := w.(w_reload) |}.
Inductive Act := ActReload (c : nat) | ActWork (g : nat) (k : Worker) (t : Turn) | ActSession (b : option Account).
Definition act (w : World) (a : Act) : World :=
  match a with ActReload c => reload_step c w | ActWork g k t => work_step g k t w | ActSession b => set_session b w end.
(** [run_foreground]: the first start. *)
Definition start (session : option Account) : World :=
  (ensure_started {| w_session := session; w_gens := []; w_slot := None; w_active := ∅; w_reload := λ _, ReloadIdle |}).2.
Definition run (acts : list Act) (w : World) : World := foldl act w acts.

(** ** One generation at a time *)

Definition idle (pc : ReloadPc) : bool := match pc with ReloadIdle => true | _ => false end.
(** No thread begins a reload while another is in one. *)
Fixpoint serial (acts : list Act) (w : World) : Prop :=
  match acts with
  | [] => True
  | a :: acts =>
    match a with ActReload c => ∀ c', c' ≠ c → idle (w.(w_reload) c') = true | _ => True end ∧ serial acts (act w a)
  end.

Definition alive (gens : list Generation) (g : nat) : Prop := ∃ gn k, gens !! g = Some gn ∧ gn.(gn_pc) k ≠ Exited.
(** What holds while one thread is at [pc] and the others are idle. *)
Definition owned (active : gmap Account nat) (slot : option nat) : Prop := ∀ a g, active !! a = Some g → slot = Some g.
Definition phase (pc : ReloadPc) (gens : list Generation) (slot : option nat) (active : gmap Account nat) : Prop :=
  match pc with
  | ReloadIdle | ReloadDone _ => (∀ g, alive gens g → slot = Some g) ∧ owned active slot
  | ReloadSignal taken => slot = None ∧ (∀ g, alive gens g → taken = Some g) ∧ owned active taken
  | ReloadJoin taken rest =>
    slot = None ∧ (∀ g, alive gens g → g = taken) ∧
    (∀ gn, gens !! taken = Some gn → gn.(gn_running) = false ∧ ∀ k, k ∉ rest → gn.(gn_pc) k = Exited)
  | ReloadClear => slot = None ∧ (∀ g, ¬ alive gens g)
  | ReloadStart => slot = None ∧ (∀ g, ¬ alive gens g) ∧ active = ∅
  end.
Definition supervised (w : World) : Prop :=
  ∃ c, (∀ c', c' ≠ c → idle (w.(w_reload) c') = true) ∧ phase (w.(w_reload) c) w.(w_gens) w.(w_slot) w.(w_active).

Lemma worker_turn_pc k t gn k' :
  ((worker_turn k t gn).1.(gn_pc) k' ≠ Exited → gn.(gn_pc) k' ≠ Exited) ∧
  (gn.(gn_running) = false → (worker_turn k t gn).1.(gn_running) = false) ∧
  ((worker_turn k t gn).2 = true → gn.(gn_pc) SyncWorker ≠ Exited).
Proof.
  assert (∀ pc f, f k ≠ Exited → <[k := pc]> f k' ≠ Exited → f k' ≠ Exited) as Hins.
  { intros pc f Hf. destruct (decide (k = k')) as [<-|Hne]; [done|]. by rewrite (fn_lookup_insert_ne f). }
  unfold worker_turn. destruct k; [unfold sync_turn|unfold follower_turn..];
    (destruct (gn_pc gn _) eqn:E; [destruct t|destruct t|destruct t]; try destruct (gn_running gn) eqn:Hr; try destruct (gn_client gn); cbn; split_and!; try done; try congruence;
     apply Hins; congruence).
Qed.
Lemma publish_owned g account active slot : slot = Some g → owned active slot → owned (publish_active g account active) slot.
Proof.
  intros -> Ho a g'. unfold publish_active. destruct (decide (account = a)) as [<-|Hne].
  - rewrite lookup_insert_eq. intros [= <-]. destruct (active !! account) as [g0|] eqn:E; [by apply (Ho account)|done].
  - rewrite lookup_insert_ne by done. apply Ho.
Qed.
Lemma alive_work gens gen gn k t g :
  gens !! gen = Some gn → alive (<[gen := (worker_turn k t gn).1]> gens) g → alive gens g.
Proof.
  intros Hgn (gn' & k' & Hg & Hk). destruct (decide (gen = g)) as [<-|Hne].
  - rewrite list_lookup_insert_eq in Hg by (by apply lookup_lt_Some in Hgn). injection Hg as <-. exists gn, k'. split; [done|]. by apply worker_turn_pc in Hk.
  - rewrite list_lookup_insert_ne in Hg by done. by exists gn', k'.
Qed.
Lemma work_supervised g k t w : supervised w → supervised (work_step g k t w).
Proof.
  intros (c & Hc & Hp). unfold work_step. destruct (w_gens w !! g) as [gn|] eqn:Hg; [|by exists c].
  pose proof (λ g', alive_work (w_gens w) g gn k t g' Hg) as Ha. pose proof (worker_turn_pc k t gn) as Ht.
  destruct (worker_turn k t gn) as [gn' published]. cbn [fst snd] in *. exists c. cbn. split; [done|].
  assert (published = true → alive (w_gens w) g) as Hpub by (intros Hb; exists gn, SyncWorker; split; [done|]; by apply Ht).
  destruct (w_reload w c) as [|taken|taken rest| | |started]; cbn [phase] in *.
  all: try (destruct Hp as [Hl Hact]; split; [by intros g' ?%Ha; auto|]; destruct published; [apply publish_owned; auto|done]).
  - destruct Hp as (Hs & Hl & Hact). split_and!; [done|by intros g' ?%Ha; auto|]. destruct published; [apply publish_owned; auto|done].
  - destruct Hp as (Hs & Hl & Hgn). split_and!; [done|by intros g' ?%Ha; auto|]. intros gn1 Hgn1. destruct (decide (g = taken)) as [->|Hne].
    + rewrite list_lookup_insert_eq in Hgn1 by (by apply lookup_lt_Some in Hg). injection Hgn1 as <-.
      destruct (Hgn gn Hg) as [Hr Hk]. split; [by apply Ht|]. intros k' Hk'. specialize (Hk k' Hk'). destruct (Ht k') as [Hx _].
      destruct (gn_pc gn' k') eqn:E; [exfalso; by apply Hx|exfalso; by apply Hx|done].
    + rewrite list_lookup_insert_ne in Hgn1 by done. by apply Hgn.
  - destruct Hp as [Hs Hl]. split; [done|]. intros g' Hg'. by apply (Hl g'), Ha.
  - destruct Hp as (Hs & Hl & Hact). split_and!; [done|intros g' Hg'; by apply (Hl g'), Ha|]. destruct published; [|done]. exfalso. by eapply Hl, Hpub.
Qed.

Lemma alive_stop (gens : list Generation) (g0 g : nat) : alive (alter stop_generation g0 gens) g → alive gens g.
Proof.
  intros (gn & k & Hg & Hk). rewrite list_lookup_alter in Hg. destruct (decide (g0 = g)) as [<-|Hne].
  - apply fmap_Some in Hg as (gn0 & Hgn & ->). by exists gn0, k.
  - by exists gn, k.
Qed.
Lemma stopped_join (gens : list Generation) (g0 : nat) gn :
  alter stop_generation g0 gens !! g0 = Some gn → gn.(gn_running) = false ∧ ∀ k, k ∉ [SyncWorker; SchedulerWorker; HeartbeatWorker] → gn.(gn_pc) k = Exited.
Proof.
  rewrite list_lookup_alter, decide_True by done. intros (gn0 & _ & ->)%fmap_Some. split; [done|].
  intros k Hk. destruct Hk. destruct k; repeat (apply elem_of_cons; (by left) || right).
Qed.
Lemma alive_fresh gens account g : (∀ g', ¬ alive gens g') → alive (gens ++ [fresh_generation account]) g → g = length gens.
Proof.
  intros Hn (gn & k & Hg & Hk). apply lookup_app_Some in Hg as [Hg|[Hle Hg]]; [exfalso; eapply Hn; by exists gn, k|].
  destruct (g - length gens) eqn:E; [lia|done].
Qed.
Lemma reload_supervised c w : (∀ c', c' ≠ c → idle (w.(w_reload) c') = true) → supervised w → supervised (reload_step c w).
Proof.
  intros Hothers (c0 & Hc0 & Hp).
  assert (phase (w_reload w c) (w_gens w) (w_slot w) (w_active w)) as Hc.
  { destruct (decide (c0 = c)) as [->|Hne]; [done|]. specialize (Hothers c0 Hne). specialize (Hc0 c ltac:(congruence)).
    destruct (w_reload w c0), (w_reload w c); done. }
  clear c0 Hc0 Hp. assert (∀ pc w', w'.(w_reload) = w.(w_reload) → phase pc w'.(w_gens) w'.(w_slot) w'.(w_active) → supervised (set_reload c pc w')) as Hset.
  { intros pc w' Hw Hph. exists c. cbn. rewrite Hw, fn_lookup_insert. split; [|done]. intros c' Hne. rewrite (fn_lookup_insert_ne (w_reload w)) by done. by apply Hothers. }
  unfold reload_step. destruct (w_reload w c) as [|[g|]|g [|k rest]| | |started] eqn:Hpc; cbn [phase] in Hc.
  - apply Hset; [done|]. cbn. destruct Hc as [Hl Ha]. done.
  - apply Hset; [done|]. cbn. destruct Hc as (Hs & Hl & Ha). split_and!; [done|intros g' Hg'%alive_stop; specialize (Hl g' Hg'); congruence|].
    intros gn Hgn. by apply stopped_join in Hgn.
  - apply Hset; [done|]. destruct Hc as (Hs & Hl & _). cbn. split; [done|]. intros g Hg. by specialize (Hl g Hg).
  - apply Hset; [done|]. destruct Hc as (Hs & Hl & Hgn). cbn. split; [done|]. intros g' Hg'. pose proof (Hl g' Hg') as ->.
    destruct Hg' as (gn & k & Hg & Hk). destruct (Hgn gn Hg) as [_ He]. by apply Hk, He, not_elem_of_nil.
  - destruct (exited w g k) eqn:He; [|exists c; rewrite Hpc; done]. apply Hset; [done|]. destruct Hc as (Hs & Hl & Hgn). cbn. split_and!; [done..|].
    intros gn Hg. destruct (Hgn gn Hg) as [Hr Hk]. split; [done|]. intros k' Hk'. destruct (decide (k' = k)) as [->|Hne].
    + unfold exited in He. rewrite Hg in He. by destruct (gn_pc gn k).
    + apply Hk. by rewrite elem_of_cons; intros [?|?].
  - apply Hset; [done|]. destruct Hc as [Hs Hl]. done.
  - destruct Hc as (Hs & Hl & Ha). unfold ensure_started. rewrite Hs. destruct (w_session w) as [account|]; apply Hset; cbn; [done| |done|].
    + split; [|by rewrite Ha]. intros g Hg. f_equal. symmetry. by eapply alive_fresh.
    + split; [|by rewrite Ha]. intros g Hg. by destruct (Hl g).
  - apply Hset; [done|]. done.
Qed.
Lemma run_supervised acts : ∀ w, serial acts w → supervised w → supervised (run acts w).
Proof.
  induction acts as [|a acts IH]; intros w Hser Hw; [done|]. cbn [serial] in Hser. destruct Hser as [Ha Hser]. cbn. apply IH; [done|].
  destruct a as [c|g k t|b]; cbn; [by apply reload_supervised|by apply work_supervised|]. destruct Hw as (c & ? & ?). by exists c.
Qed.
Lemma start_supervised session : supervised (start session).
Proof.
  exists 0. split; [by destruct session|]. destruct session; cbn.
  - split; [|done]. intros [|g] (gn & k & Hg & _); [done|by destruct g].
  - split; [|done]. by intros g (gn & k & Hg & _).
Qed.
(** A worker whose generation was told to stop is gone after two turns in which it gets on. *)
Lemma stopped_worker_exits k t1 t2 gn : t1 ≠ TurnBusy → t2 ≠ TurnBusy → gn.(gn_running) = false → (worker_turn k t2 (worker_turn k t1 gn).1).1.(gn_pc) k = Exited.
Proof.
  intros Hb1 Hb2 Hr. destruct k; unfold worker_turn; cbn [fst].
  - unfold sync_turn. destruct (gn_pc gn SyncWorker) eqn:E; destruct t1; try done; rewrite ?Hr; cbn; rewrite ?E, ?fn_lookup_insert; cbn; rewrite ?E, ?fn_lookup_insert;
      destruct t2; try done; rewrite ?Hr; cbn; rewrite ?fn_lookup_insert; done.
  - unfold follower_turn. destruct (gn_pc gn SchedulerWorker) eqn:E; destruct t1; try done; rewrite ?Hr; cbn; rewrite ?E, ?fn_lookup_insert; cbn; rewrite ?E, ?fn_lookup_insert; by destruct t2.
  - unfold follower_turn. destruct (gn_pc gn HeartbeatWorker) eqn:E; destruct t1; try done; rewrite ?Hr; cbn; rewrite ?E, ?fn_lookup_insert; cbn; rewrite ?E, ?fn_lookup_insert; by destruct t2.
Qed.

(** C23: reloads that do not overlap keep one generation of workers.  Whatever the workers
    do and however long they stay inside it, whenever sessions come and go and however the
    threads interleave: at no time do the workers of two generations run; when no reload is
    under way, the running workers and every client that the process uses, of whatever
    account, belong to the supervisor's own generation; and a worker that a reload waits for
    is gone once it has got on twice, be it never so long busy in between (a worker that
    never gets on keeps the reload waiting). *)
Theorem serial_reloads_keep_one_generation session acts :
  serial acts (start session) →
  let w := run acts (start session) in
  (∀ g g', alive w.(w_gens) g → alive w.(w_gens) g' → g = g') ∧
  ((∀ c, idle (w.(w_reload) c) = true) →
     (∀ g, alive w.(w_gens) g → w.(w_slot) = Some g) ∧ (∀ a g, w.(w_active) !! a = Some g → w.(w_slot) = Some g)) ∧
  (∀ c g rest k t1 t2, w.(w_reload) c = ReloadJoin g rest → t1 ≠ TurnBusy → t2 ≠ TurnBusy → exited (work_step g k t2 (work_step g k t1 w)) g k = true).
Proof.
  intros Hser w. destruct (run_supervised acts _ Hser (start_supervised session)) as (c & Hc & Hp). fold w in Hc, Hp. split_and!.
  - intros g g' Hg Hg'. destruct (w_reload w c) as [|taken|taken rest| | |started]; cbn [phase] in Hp.
    1,6: destruct Hp as [Hl _]; pose proof (Hl g Hg); pose proof (Hl g' Hg'); congruence.
    1,2: destruct Hp as (_ & Hl & _); pose proof (Hl g Hg); pose proof (Hl g' Hg'); congruence.
    + destruct Hp as [_ Hl]. by destruct (Hl g).
    + destruct Hp as (_ & Hl & _). by destruct (Hl g).
  - intros Hidle. specialize (Hidle c). destruct (w_reload w c); done.
  - intros c' g rest k t1 t2 Hj Hb1 Hb2. assert (c' = c) as ->.
    { destruct (decide (c' = c)) as [|Hne]; [done|]. specialize (Hc c' Hne). by rewrite Hj in Hc. }
    rewrite Hj in Hp. destruct Hp as (_ & _ & Hgn). unfold work_step at 2. destruct (w_gens w !! g) as [gn|] eqn:Hg.
    + destruct (Hgn gn eq_refl) as [Hr _]. pose proof (stopped_worker_exits k t1 t2 gn Hb1 Hb2 Hr) as He. destruct (worker_turn k t1 gn) as [gn1 p1]. cbn [fst] in He.
      unfold work_step. cbn [w_gens]. rewrite list_lookup_insert_eq by (by apply lookup_lt_Some in Hg).
      destruct (worker_turn k t2 gn1) as [gn2 p2]. cbn [fst] in He. unfold exited. cbn [w_gens].
      rewrite list_lookup_insert_eq by (rewrite length_insert; by apply lookup_lt_Some in Hg). by rewrite He.
    + unfold work_step. rewrite Hg. unfold exited. by rewrite Hg.
Qed.

(** ** Witness, and overlapping reloads *)

Definition me : Account := ("@me:s", "D").
(** Thread [1] reloads while the first generation runs, and its workers end. *)
Definition reload_acts : list Act :=
  [ActWork 0 SyncWorker TurnGoes; ActWork 0 SchedulerWorker TurnGoes; ActReload 1; ActReload 1; ActReload 1; ActWork 0 SyncWorker TurnBusy;
   ActReload 1; ActWork 0 SyncWorker TurnGoes;
   ActReload 1; ActWork 0 SchedulerWorker TurnGoes; ActWork 0 HeartbeatWorker TurnGoes; ActReload 1; ActReload 1; ActReload 1; ActReload 1; ActReload 1; ActReload 1].
Lemma serial_reloads_witness :
  let w := run reload_acts (start (Some me)) in
  (∀ g, alive w.(w_gens) g → w.(w_slot) = Some g) ∧ w.(w_slot) = Some 1 ∧ alive w.(w_gens) 1.
Proof.
  destruct (serial_reloads_keep_one_generation (Some me) reload_acts) as (_ & Hidle & _).
  - cbn [serial reload_acts]. repeat split; intros c' Hne; destruct c' as [|[|c']]; try reflexivity; exfalso; apply Hne; reflexivity.
  - split; [|split].
    + apply Hidle. intros [|[|c]]; reflexivity.
    + reflexivity.
    + exists (fresh_generation me), SyncWorker. split; [reflexivity|discriminate].
Defined.
(** Two reloads at once: the second finds no generation to wait for and starts the next while
    the first still waits for the old one; the first then drops the client that the new
    generation has published. *)
Definition overlap_acts : list Act :=
  [ActWork 0 SyncWorker TurnGoes; ActReload 1; ActReload 1; ActReload 2; ActReload 2; ActReload 2; ActReload 2; ActWork 1 SyncWorker TurnGoes].
Definition overlap_rest : list Act :=
  [ActWork 0 SyncWorker TurnGoes; ActWork 0 SchedulerWorker TurnGoes; ActWork 0 HeartbeatWorker TurnGoes;
   ActReload 1; ActReload 1; ActReload 1; ActReload 1; ActReload 1; ActReload 1].
Lemma overlapping_reloads :
  (let w := run overlap_acts (start (Some me)) in alive w.(w_gens) 0 ∧ alive w.(w_gens) 1 ∧ w.(w_active) !! me = Some 1) ∧
  (let w := run (overlap_acts ++ overlap_rest) (start (Some me)) in
   w.(w_slot) = Some 1 ∧ alive w.(w_gens) 1 ∧ w.(w_active) !! me = None ∧ w.(w_reload) 1 = ReloadDone true).
Proof.
  split.
  - split_and!; [|exists (publish_shared (set_pc SyncWorker Looping (fresh_generation me))), SyncWorker; split; [reflexivity|discriminate]|reflexivity].
    exists (stop_generation (publish_shared (set_pc SyncWorker Looping (fresh_generation me)))), SyncWorker. split; [reflexivity|discriminate].
  - split_and!; [reflexivity| |reflexivity..]. exists (publish_shared (set_pc SyncWorker Looping (fresh_generation me))), SyncWorker. split; [reflexivity|discriminate].
Qed.
