(* ===== verification/Orphans.v ===== *)
(** * Children that outlive their daemon

    Models the registry of live process groups of [crates/mx-agent-daemon/src/exec.rs]: the
    sidecar that mirrors it, the teardown of a graceful stop, the one of a forced stop, and
    the janitor that runs when the next daemon starts.  The operating system is the map of
    its processes; what [ps] prints is an argument with its documented form. *)
From Stdlib Require Import ZArith Lia Ascii.
From stdpp Require Import gmap strings list pretty.
From S2P Require Import Prelude RustStr Time ToolDispatch.
Local Open Scope Z_scope.

(** ** The registry and its sidecar *)

Record LivePgid := { lp_pgid : Z; lp_started_unix : Z }.
(** [LIVE_PGIDS], and what the sidecar holds, if it is there. *)
Record PgidState := { ps_registry : gmap string LivePgid; ps_sidecar : option (gmap string LivePgid) }.
(** A write is best effort, and so is the removal of the file: when it fails the sidecar stays as
    it was. *)
Definition persist_live_pgids (written : bool) (map : gmap string LivePgid) (s : PgidState) : PgidState :=
  {| ps_registry := s.(ps_registry); ps_sidecar := if written then Some map else s.(ps_sidecar) |}.
Definition load_live_pgids (s : PgidState) : list LivePgid := map snd (btree_iter (unwrap_or s.(ps_sidecar) ∅)).
Definition clear_live_pgids_file (s : PgidState) : PgidState := {| ps_registry := s.(ps_registry); ps_sidecar := None |}.
Definition register_guard (invocation_id : string) (pgid now : Z) (written : bool) (s : PgidState) : PgidState :=
  let map := <[invocation_id := {| lp_pgid := pgid; lp_started_unix := now |}]> s.(ps_registry) in
  persist_live_pgids written map {| ps_registry := map; ps_sidecar := s.(ps_sidecar) |}.
Definition drop_guard (invocation_id : string) (written : bool) (s : PgidState) : PgidState :=
  let map := delete invocation_id s.(ps_registry) in
  let s := {| ps_registry := map; ps_sidecar := s.(ps_sidecar) |} in
  if bool_decide (map = ∅) then if written then clear_live_pgids_file s else s else persist_live_pgids written map s.

(** ** Process age *)

Definition wrap_u64 (z : Z) : Z := z mod 2 ^ 64.
Definition parse_etime_seconds (raw : string) : option Z :=
  let raw := trim raw in
  '(days, hms) ← match split_once "-"%char raw with
                 | Some (d, rest) => days ← parse_u64 d; Some (days, rest)
                 | None => Some (0, raw)
                 end;
  let fields := rev (split_on ":"%char hms) in
  match fields with
  | secs :: mins :: more =>
    secs ← parse_u64 secs;
    mins ← parse_u64 mins;
    hours ← match more with h :: _ => parse_u64 h | [] => Some 0 end;
    match more with
    | _ :: _ :: _ => None
    | _ => if (60 <=? secs) || (60 <=? mins) then None else Some (wrap_u64 (days * 86400 + hours * 3600 + mins * 60 + secs))
    end
  | [secs] => secs ← parse_u64 secs; None
  | [] => None
  end.

(** ** Processes *)

Record Proc := { pr_group : Z; pr_start : Z }.
Abbreviation Os := (gmap Z Proc).
(** [killpg] with [SIGKILL]. *)
Definition kill_process_group (g : Z) (os : Os) : Os := filter (λ kv, kv.2.(pr_group) ≠ g) os.
(** [kill(pgid, None)]: whether the leader is there. *)
Definition process_group_alive (os : Os) (pgid : Z) : bool := bool_decide (is_Some (os !! pgid)).
Definition PGID_START_TOLERANCE_SECS : Z := 5.

Section janitor.
(** [ps os pid]: the output of [ps -o etime= -p pid], if it succeeds. *)
Context (ps : Os → Z → option string) (now : Z).
Definition process_start_unix (os : Os) (pid : Z) : option Z :=
  out ← ps os pid; elapsed ← parse_etime_seconds out; Some (Z.max 0 (now - elapsed)).
Definition pgid_leader_matches_record (os : Os) (rec : LivePgid) : bool :=
  match process_start_unix os rec.(lp_pgid) with
  | Some started => Z.abs (started - rec.(lp_started_unix)) <=? PGID_START_TOLERANCE_SECS
  | None => false
  end.
Definition reap_record (os : Os) (rec : LivePgid) : Os :=
  if negb (process_group_alive os rec.(lp_pgid)) then os
  else if pgid_leader_matches_record os rec then kill_process_group rec.(lp_pgid) os else os.
Definition reap_orphaned_live_exec_children (s : PgidState) (os : Os) : PgidState * Os :=
  let records := load_live_pgids s in
  match records with
  | [] => (s, os)
  | _ => (clear_live_pgids_file s, foldl reap_record os records)
  end.
End janitor.

(** The forced stop, from another process: every persisted group. *)
Definition kill_persisted_live_exec_children (s : PgidState) (os : Os) : PgidState * Os :=
  (clear_live_pgids_file s, foldl (λ os rec, kill_process_group rec.(lp_pgid) os) os (load_live_pgids s)).
(** The graceful stop; [during] is what happens while it waits, the signal's effect
    included. *)
Definition terminate_live_exec_children (during : PgidState * Os → PgidState * Os) (s : PgidState) (os : Os) : PgidState * Os :=
  let pgids := map (λ kv, kv.2.(lp_pgid)) (btree_iter s.(ps_registry)) in
  match pgids with
  | [] => (s, os)
  | _ => let '(s, os) := during (s, os) in (clear_live_pgids_file s, foldl (λ os g, kill_process_group g os) os pgids)
  end.

(** ** What [ps] prints is read back *)

Fixpoint blanks (n : nat) : string := match n with O => "" | S n => String " " (blanks n) end.
(** [[[DD-]HH:]MM:SS]. *)
Definition etime (n : Z) : string :=
  let days := n / 86400 in let hours := n / 3600 mod 24 in let mins := n / 60 mod 60 in let secs := n mod 60 in
  (if days =? 0 then "" else pretty days +:+ "-") +:+
  (if (days =? 0) && (hours =? 0) then "" else format_pad 2 hours +:+ ":") +:+ format_pad 2 mins +:+ ":" +:+ format_pad 2 secs.
Definition line (blank : nat) (s : string) : string := blanks blank +:+ s +:+ String (ascii_of_nat 10) "".

(** The characters of an age. *)
Definition plain_char (c : ascii) : bool := is_ascii_digit c || bool_decide (c = ":"%char) || bool_decide (c = "-"%char).
Fixpoint plain (s : string) : bool := match s with "" => true | String c s => plain_char c && plain s end.
Lemma plain_app a b : plain (a +:+ b) = plain a && plain b.
Proof. induction a as [|c a IH]; [done|]. rewrite append_cons. cbn. by rewrite IH, andb_assoc. Qed.
Lemma plain_strip c s : plain_char c = true → strip_ws (String c s) = None.
Proof. intros Hc. destruct c as [[] [] [] [] [] [] [] []]; try discriminate Hc; by destruct s as [|? [|]]. Qed.
Lemma trim_start_fuel_blanks n s : ∀ m,
  (∀ c r, s = String c r → strip_ws s = None) → (String.length (blanks n +:+ s) ≤ m)%nat → trim_start_fuel m (blanks n +:+ s) = s.
Proof.
  induction n as [|n IH]; intros m Hs Hm.
  - change (blanks 0 +:+ s) with s in *. destruct m as [|m], s as [|c s]; try done. cbn [trim_start_fuel]. by rewrite (Hs c s).
  - change (blanks (S n) +:+ s) with (String " " (blanks n +:+ s)) in *. destruct m as [|m]; cbn [String.length] in Hm; [lia|].
    change (trim_start_fuel m (blanks n +:+ s) = s). apply IH; [done|lia].
Qed.
Lemma trim_start_blanks n s : (∀ c r, s = String c r → strip_ws s = None) → trim_start (blanks n +:+ s) = s.
Proof. intros Hs. by apply trim_start_fuel_blanks. Qed.
Lemma trim_end_plain s : plain s = true → trim_end (s +:+ String (ascii_of_nat 10) "") = s.
Proof.
  induction s as [|c s IH]; cbn [plain]; [done|]. intros [Hc Hs]%andb_prop. rewrite append_cons. cbn [trim_end].
  unfold trim_is_empty. rewrite <- (append_nil_r (String c _)) at 1. pose proof (trim_start_blanks 0 (String c (s +:+ String (ascii_of_nat 10) ""))) as Ht.
  cbn [blanks] in Ht. change ("" +:+ ?x) with x in Ht. rewrite append_nil_r, Ht by (intros; by apply plain_strip). cbn. by rewrite IH.
Qed.
Lemma trim_line n s : plain s = true → s ≠ "" → trim (line n s) = s.
Proof.
  intros Hp Hn. unfold trim, line. rewrite trim_start_blanks; [by apply trim_end_plain|].
  destruct s as [|c s]; [done|]. cbn in Hp. apply andb_prop in Hp as [Hc _]. rewrite append_cons. intros c' r [= <- <-]. by apply plain_strip.
Qed.


Lemma split_once_app c a b : str_contains_char c a = false → split_once c (a +:+ String c b) = Some (a, b).
Proof.
  induction a as [|d a IH]; cbn [str_contains_char]; intros Ha.
  - change ("" +:+ String c b) with (String c b). cbn [split_once]. by rewrite decide_True.
  - rewrite append_cons. cbn [split_once]. destruct (decide (c = d)); [done|]. rewrite decide_False by congruence. by rewrite IH.
Qed.
Lemma split_once_none c s : str_contains_char c s = false → split_once c s = None.
Proof.
  induction s as [|d s IH]; cbn [str_contains_char split_once]; intros Hs; [done|]. destruct (decide (c = d)); [done|].
  rewrite decide_False by congruence. by rewrite IH.
Qed.
Lemma split_on_none sep a : str_contains_char sep a = false → split_on sep a = [a].
Proof.
  induction a as [|d a IH]; cbn [str_contains_char split_on]; intros Ha; [done|]. destruct (decide (sep = d)); [done|].
  rewrite decide_False by congruence. by rewrite IH.
Qed.
Lemma split_on_app sep a b : str_contains_char sep a = false → split_on sep (a +:+ String sep b) = a :: split_on sep b.
Proof.
  induction a as [|d a IH]; cbn [str_contains_char]; intros Ha.
  - change ("" +:+ String sep b) with (String sep b). cbn [split_on]. by rewrite decide_True.
  - rewrite append_cons. cbn [split_on]. destruct (decide (sep = d)); [done|]. rewrite decide_False by congruence. by rewrite IH.
Qed.

Lemma contains_app c a b : str_contains_char c (a +:+ b) = str_contains_char c a || str_contains_char c b.
Proof. induction a as [|d a IH]; [done|]. rewrite append_cons. cbn [str_contains_char]. destruct (decide (c = d)); [done|apply IH]. Qed.

Fixpoint digits (s : string) : bool := match s with "" => true | String c s => is_ascii_digit c && digits s end.
Lemma digits_no c s : is_ascii_digit c = false → digits s = true → str_contains_char c s = false.
Proof.
  intros Hc. induction s as [|d s IH]; cbn; [done|]. intros [Hd Hs]%andb_prop. rewrite decide_False; [by apply IH|]. intros ->. congruence.
Qed.
Lemma digits_plain s : digits s = true → plain s = true.
Proof. induction s as [|d s IH]; cbn; [done|]. intros [Hd Hs]%andb_prop. unfold plain_char. rewrite Hd. by apply IH. Qed.
Lemma parse_digits_digits s : ∀ acc z, parse_digits acc s = Some z → digits s = true.
Proof. induction s as [|c s IH]; intros acc z; cbn; [done|]. destruct (is_ascii_digit c); [|done]. apply IH. Qed.
(** A number as it is written. *)
Record numeral (s : string) (z : Z) : Prop := { nu_digits : digits s = true; nu_parses : parse_u64 s = Some z }.
Lemma numeral_pad z : 0 ≤ z ≤ 99 → numeral (format_pad 2 z) z.
Proof.
  intros Hz. destruct (format_pad_2 z Hz) as (a & b & -> & Ha & Hb & Hp). split; [cbn; by rewrite Ha, Hb|].
  unfold parse_u32, parse_u64, parse_unsigned in *. destruct (decide (a = "+"%char)) as [->|]; [done|].
  destruct (parse_digits 0 _) as [v|]; [|done]. cbn in *. destruct (v <=? u32_max) eqn:Hv; [|done]. injection Hp as ->. unfold u64_max.
  by rewrite (proj2 (Z.leb_le _ _)) by lia.
Qed.
Lemma numeral_pretty z : 0 < z ≤ u64_max → numeral (pretty z) z.
Proof.
  intros Hz. destruct z as [|p|p]; [lia| |lia]. change (pretty (Zpos p)) with (pretty (Npos p)).
  pose proof (parse_u64_pretty (Npos p) ltac:(lia)) as Hp. split; [|exact Hp].
  destruct (pretty_N_digits (Npos p)) as (c & r & E & Hc). rewrite E in *. unfold parse_u64, parse_unsigned in Hp.
  rewrite decide_False in Hp by (by apply digit_not_sign). destruct (parse_digits 0 (String c r)) eqn:Hd; [|done]. by apply parse_digits_digits in Hd.
Qed.
Lemma etime_fields n (days := n / 86400) (hours := n / 3600 mod 24) (mins := n / 60 mod 60) (secs := n mod 60) :
  n = days * 86400 + hours * 3600 + mins * 60 + secs.
Proof.
  subst days hours mins secs. pose proof (Z.div_mod n 60 ltac:(lia)) as E1. pose proof (Z.div_mod (n / 60) 60 ltac:(lia)) as E2.
  pose proof (Z.div_mod (n / 3600) 24 ltac:(lia)) as E3. rewrite Z.div_div in E2, E3 by lia. change (60 * 60) with 3600 in E2. change (3600 * 24) with 86400 in E3. lia.
Qed.
(** Reading the part after the days. *)
Definition parse_hms (days : Z) (hms : string) : option Z :=
  match rev (split_on ":"%char hms) with
  | secs :: mins :: more =>
    secs ← parse_u64 secs;
    mins ← parse_u64 mins;
    hours ← match more with h :: _ => parse_u64 h | [] => Some 0 end;
    match more with
    | _ :: _ :: _ => None
    | _ => if (60 <=? secs) || (60 <=? mins) then None else Some (wrap_u64 (days * 86400 + hours * 3600 + mins * 60 + secs))
    end
  | [secs] => secs ← parse_u64 secs; None
  | [] => None
  end.
Lemma parse_ms days m s mins secs :
  numeral m mins → numeral s secs → mins < 60 → secs < 60 → parse_hms days (m +:+ String ":" s) = Some (wrap_u64 (days * 86400 + mins * 60 + secs)).
Proof.
  intros [Dm Pm] [Ds Ps] Hm Hs. unfold parse_hms. rewrite split_on_app, split_on_none by (by apply digits_no). cbn [rev app].
  rewrite Ps, Pm. cbn [mbind option_bind]. rewrite !(proj2 (Z.leb_gt _ _)) by lia. cbn [orb]. do 2 f_equal. lia.
Qed.
Lemma parse_hms_three days h m s hours mins secs :
  numeral h hours → numeral m mins → numeral s secs → mins < 60 → secs < 60 →
  parse_hms days (h +:+ String ":" (m +:+ String ":" s)) = Some (wrap_u64 (days * 86400 + hours * 3600 + mins * 60 + secs)).
Proof.
  intros [Dh Ph] [Dm Pm] [Ds Ps] Hm Hs. unfold parse_hms. rewrite !split_on_app, split_on_none by (by apply digits_no). cbn [rev app].
  rewrite Ps, Pm, Ph. cbn [mbind option_bind]. by rewrite !(proj2 (Z.leb_gt _ _)) by lia.
Qed.
Lemma parse_no_days blank s :
  plain s = true → s ≠ "" → str_contains_char "-" s = false → parse_etime_seconds (line blank s) = parse_hms 0 s.
Proof. intros Hp Hn Hc. unfold parse_etime_seconds. by rewrite trim_line, split_once_none by done. Qed.
Lemma parse_days blank d days s :
  numeral d days → plain s = true → parse_etime_seconds (line blank (d +:+ String "-" s)) = parse_hms days s.
Proof.
  intros [Dd Pd] Hp. unfold parse_etime_seconds. rewrite trim_line; [|by rewrite plain_app; cbn; rewrite digits_plain|by destruct d].
  rewrite split_once_app by (by apply digits_no). cbn [mbind option_bind]. by rewrite Pd.
Qed.
(** What [ps] prints is read back: every age from zero seconds up, in any of the forms
    [MM:SS], [HH:MM:SS] and [DD-HH:MM:SS], with the blanks and the newline around it. *)
Theorem etime_roundtrip n blank : 0 ≤ n < 2 ^ 64 → parse_etime_seconds (line blank (etime n)) = Some n.
Proof.
  intros Hn. pose proof (etime_fields n) as Hsum. cbv zeta in Hsum. unfold etime. cbv zeta.
  assert (0 ≤ n / 86400 ≤ u64_max) as Hd by (unfold u64_max; split; [apply Z.div_pos; lia|apply Z.div_le_upper_bound; lia]).
  set (days := n / 86400) in *. pose proof (Z.mod_pos_bound (n / 3600) 24 ltac:(lia)) as Hh. set (hours := n / 3600 mod 24) in *.
  pose proof (Z.mod_pos_bound (n / 60) 60 ltac:(lia)) as Hm. set (mins := n / 60 mod 60) in *.
  pose proof (Z.mod_pos_bound n 60 ltac:(lia)) as Hs. set (secs := n mod 60) in *.
  pose proof (numeral_pad hours ltac:(lia)) as Nh. pose proof (numeral_pad mins ltac:(lia)) as Nm. pose proof (numeral_pad secs ltac:(lia)) as Ns.
  pose proof (nu_digits _ _ Nh) as Dh. pose proof (nu_digits _ _ Nm) as Dm. pose proof (nu_digits _ _ Ns) as Ds.
  assert (∀ z, z = n → wrap_u64 z = n) as Hw by (intros z ->; unfold wrap_u64; by apply Z.mod_small).
  set (ms := format_pad 2 mins +:+ ":" +:+ format_pad 2 secs).
  assert (ms = format_pad 2 mins +:+ String ":" (format_pad 2 secs)) as Ems by done.
  assert (plain ms = true ∧ str_contains_char "-" ms = false) as [Pms Cms].
  { rewrite Ems, plain_app, contains_app. cbn. by rewrite !digits_plain, !digits_no by done. }
  destruct (Z.eqb_spec days 0) as [E|Hdays]; [destruct (Z.eqb_spec hours 0) as [E'|Hhours]|]; cbn [andb].
  - change ("" +:+ "" +:+ ms) with ms. rewrite parse_no_days by (done || by rewrite Ems; destruct (format_pad 2 mins)).
    rewrite Ems, (parse_ms 0 _ _ mins secs) by (done || lia). f_equal. apply Hw. lia.
  - change ("" +:+ (format_pad 2 hours +:+ ":") +:+ ms) with ((format_pad 2 hours +:+ ":") +:+ ms). rewrite append_assoc. change (":" +:+ ms) with (String ":" ms).
    rewrite parse_no_days by (rewrite ?plain_app, ?contains_app; cbn; rewrite ?digits_plain, ?digits_no, ?Pms, ?Cms by done; done || by destruct (format_pad 2 hours)).
    rewrite Ems, (parse_hms_three 0 _ _ _ hours mins secs) by (done || lia). f_equal. apply Hw. lia.
  - rewrite !append_assoc. change ("-" +:+ ?x) with (String "-" x). change (":" +:+ ms) with (String ":" ms).
    rewrite (parse_days _ _ days); [|apply numeral_pretty; lia|by rewrite plain_app; cbn; rewrite digits_plain by done].
    rewrite Ems, (parse_hms_three days _ _ _ hours mins secs) by (done || lia). f_equal. apply Hw. lia.
Qed.

(** ** The sidecar mirrors the registry *)

(** [written]: whether the sidecar could be written, or removed. *)
Inductive GuardOp := OpRegister (invocation_id : string) (pgid now : Z) (written : bool) | OpDrop (invocation_id : string) (written : bool).
Definition op_written (op : GuardOp) : bool := match op with OpRegister _ _ _ w | OpDrop _ w => w end.
Definition guard_op (s : PgidState) (op : GuardOp) : PgidState :=
  match op with OpRegister id pgid now w => register_guard id pgid now w s | OpDrop id w => drop_guard id w s end.
Definition guard_ops (ops : list GuardOp) : PgidState := foldl guard_op {| ps_registry := ∅; ps_sidecar := None |} ops.
(** The operations up to the last one whose change reached the sidecar. *)
Fixpoint to_last_written (ops : list GuardOp) : list GuardOp :=
  match ops with
  | [] => []
  | op :: ops => match to_last_written ops with [] => if op_written op then [op] else [] | rest => op :: rest end
  end.
Lemma to_last_written_snoc ops op : to_last_written (ops ++ [op]) = if op_written op then ops ++ [op] else to_last_written ops.
Proof.
  induction ops as [|x ops IH]; cbn; [done|]. rewrite IH. destruct (op_written op); [|done]. by destruct (ops ++ [op]) eqn:E; [destruct ops|].
Qed.
Lemma to_last_written_all ops : forallb op_written ops = true → to_last_written ops = ops.
Proof.
  induction ops as [|op ops IH] using rev_ind; [done|]. rewrite forallb_app. cbn. rewrite andb_true_r. intros [_ Ho]%andb_true_iff.
  by rewrite to_last_written_snoc, Ho.
Qed.
Lemma guard_op_sidecar s op :
  unwrap_or (guard_op s op).(ps_sidecar) ∅ = if op_written op then (guard_op s op).(ps_registry) else unwrap_or s.(ps_sidecar) ∅.
Proof.
  destruct op as [id pgid now w|id w]; cbn; [by destruct w|]. unfold drop_guard. destruct (decide (delete id (ps_registry s) = ∅)) as [E|E].
  - rewrite bool_decide_true by done. destruct w; [|done]. cbn. by rewrite E.
  - rewrite bool_decide_false by done. by destruct w.
Qed.
Lemma guard_ops_sidecar ops : unwrap_or (guard_ops ops).(ps_sidecar) ∅ = (guard_ops (to_last_written ops)).(ps_registry).
Proof.
  induction ops as [|op ops IH] using rev_ind; [done|]. rewrite to_last_written_snoc. unfold guard_ops at 1. rewrite foldl_snoc.
  fold (guard_ops ops). rewrite guard_op_sidecar, IH. destruct (op_written op); [|done]. unfold guard_ops. by rewrite foldl_snoc.
Qed.
Lemma elem_of_load s rec : rec ∈ load_live_pgids s ↔ ∃ id, unwrap_or s.(ps_sidecar) ∅ !! id = Some rec.
Proof.
  unfold load_live_pgids. rewrite list_elem_of_fmap. split.
  - intros ([id r] & -> & Hin%elem_of_btree_iter). by exists id.
  - intros [id Hid]. exists (id, rec). split; [done|]. by apply elem_of_btree_iter.
Qed.

(** ** The janitor kills the recorded groups and no others *)

Section reap.
Context (ps : Os → Z → option string) (now : Z).
(** The documented output of [ps], when it answers. *)
Definition ps_documented : Prop :=
  ∀ os pid out, ps os pid = Some out → ∃ p blank, os !! pid = Some p ∧ out = line blank (etime (now - p.(pr_start))).
Definition ps_answers : Prop := ∀ os pid, is_Some (os !! pid) → is_Some (ps os pid).
(** The leader began within the tolerance of the recorded time. *)
Definition same_child (rec : LivePgid) (p : Proc) : Prop := Z.abs (p.(pr_start) - rec.(lp_started_unix)) ≤ PGID_START_TOLERANCE_SECS.
Definition sane (os : Os) : Prop := ∀ pid p, os !! pid = Some p → 0 ≤ p.(pr_start) ≤ now.
Context (Hdoc : ps_documented) (Hnow : now < 2 ^ 64).

Lemma process_start os pid started :
  sane os → process_start_unix ps now os pid = Some started → ∃ p, os !! pid = Some p ∧ started = p.(pr_start).
Proof.
  intros Hs. unfold process_start_unix. destruct (ps os pid) as [out|] eqn:E; [|done]. cbn [mbind option_bind].
  destruct (Hdoc _ _ _ E) as (p & blank & Hp & ->). specialize (Hs pid p Hp). rewrite etime_roundtrip by lia. cbn [mbind option_bind]. intros [= <-].
  exists p. split; [done|lia].
Qed.
Lemma matches_record os rec p :
  sane os → os !! rec.(lp_pgid) = Some p →
  (pgid_leader_matches_record ps now os rec = true → same_child rec p) ∧
  (ps_answers → same_child rec p → pgid_leader_matches_record ps now os rec = true).
Proof.
  intros Hs Hp. unfold pgid_leader_matches_record, same_child. destruct (process_start_unix ps now os (lp_pgid rec)) as [started|] eqn:E.
  - destruct (process_start _ _ _ Hs E) as (p' & Hp' & ->). rewrite Hp in Hp'. injection Hp' as <-. rewrite Z.leb_le. done.
  - split; [done|]. intros Ha _. destruct (Ha os (lp_pgid rec)) as [out Hout]; [by eexists|]. unfold process_start_unix in E. rewrite Hout in E.
    destruct (Hdoc _ _ _ Hout) as (p' & blank & Hp' & ->). specialize (Hs _ p' Hp'). cbn [mbind option_bind] in E.
    by rewrite etime_roundtrip in E by lia.
Qed.
Lemma reap_record_sub os rec pid p : reap_record ps now os rec !! pid = Some p → os !! pid = Some p.
Proof.
  unfold reap_record. destruct (negb _); [done|]. destruct (pgid_leader_matches_record _ _ _ _); [|done]. by intros [? _]%map_lookup_filter_Some.
Qed.
Lemma reap_record_sane os rec : sane os → sane (reap_record ps now os rec).
Proof. intros Hs pid p Hp%reap_record_sub. by apply Hs in Hp. Qed.
Lemma reap_records_sub recs : ∀ os pid p, foldl (reap_record ps now) os recs !! pid = Some p → os !! pid = Some p.
Proof. induction recs as [|rec recs IH]; intros os pid p; cbn; [done|]. by intros ?%IH%reap_record_sub. Qed.

(** A process that is gone was in a recorded group whose leader began at the recorded time. *)
Lemma reap_only_children recs : ∀ os pid p,
  sane os → os !! pid = Some p → foldl (reap_record ps now) os recs !! pid = None →
  ∃ rec leader, rec ∈ recs ∧ rec.(lp_pgid) = p.(pr_group) ∧ os !! rec.(lp_pgid) = Some leader ∧ same_child rec leader.
Proof.
  induction recs as [|rec recs IH]; intros os pid p Hs Hp; cbn [foldl]; [congruence|]. intros Hgone.
  destruct (reap_record ps now os rec !! pid) as [p'|] eqn:E.
  - pose proof (reap_record_sub _ _ _ _ E) as Hp'. rewrite Hp in Hp'. injection Hp' as <-.
    destruct (IH _ pid p (reap_record_sane _ rec Hs) E Hgone) as (r & leader & Hr & Hg & Hl%reap_record_sub & Hsame). exists r, leader. split; [by right|done].
  - unfold reap_record in E. destruct (process_group_alive os (lp_pgid rec)) eqn:Ha; cbn [negb] in E; [|congruence].
    destruct (pgid_leader_matches_record ps now os rec) eqn:Hm; [|congruence]. apply bool_decide_eq_true in Ha as [leader Hl].
    exists rec, leader. split; [by left|]. split_and!; [|done|by eapply matches_record].
    apply map_lookup_filter_None in E as [E|E]; [congruence|]. specialize (E p Hp). cbn in E. destruct (decide (lp_pgid rec = pr_group p)) as [|Hne]; [done|]. destruct E. congruence.
Qed.
(** A recorded group whose leader is there and began at the recorded time is gone. *)
Lemma reap_all_children recs : ∀ os rec leader,
  ps_answers → sane os → rec ∈ recs → os !! rec.(lp_pgid) = Some leader → leader.(pr_group) = rec.(lp_pgid) → same_child rec leader →
  ∀ pid p, foldl (reap_record ps now) os recs !! pid = Some p → p.(pr_group) ≠ rec.(lp_pgid).
Proof.
  induction recs as [|r recs IH]; intros os rec leader Ha Hs Hin Hl Hg Hsame pid p; [by apply not_elem_of_nil in Hin|]. cbn [foldl].
  destruct (reap_record ps now os r !! lp_pgid rec) as [leader'|] eqn:E.
  - pose proof (reap_record_sub _ _ _ _ E) as Hl'. rewrite Hl in Hl'. injection Hl' as <-. apply elem_of_cons in Hin as [->|Hin]; [exfalso|by apply (IH _ rec leader Ha (reap_record_sane os r Hs) Hin E)].
    unfold reap_record in E. assert (process_group_alive os (lp_pgid r) = true) as Hal by (apply bool_decide_eq_true; by eexists). rewrite Hal in E.
    rewrite (proj2 (matches_record os r leader Hs Hl) Ha Hsame) in E. cbn [negb] in E. by apply map_lookup_filter_Some in E as [_ E].
  - intros Hp%reap_records_sub Heq. unfold reap_record in E, Hp. destruct (negb _); [congruence|]. destruct (pgid_leader_matches_record _ _ _ _); [|congruence].
    apply map_lookup_filter_None in E as [E|E]; [congruence|]. specialize (E leader Hl). cbn in E. apply map_lookup_filter_Some in Hp as [_ Hp]. cbn in Hp. destruct E. congruence.
Qed.

(** C24: what the next daemon's janitor kills is what the dead one last recorded.  Whatever
    children a daemon registered and dropped before it died, and whatever processes there are
    when the next one starts, with [ps] answering as documented: take the children that were
    registered when the sidecar was last written (or removed) with success, which are those
    registered at its death if that never failed.  Every process of the group of such a
    child is gone, if the group's leader is there and began within five seconds of the
    recorded time; a process that is killed was in the group of such a child, led by a
    process that began within five seconds of the recorded time; nothing else changes, and
    the next start kills nothing more. *)
Theorem janitor_exact ops os :
  ps_answers → sane os →
  let dead := {| ps_registry := ∅; ps_sidecar := (guard_ops ops).(ps_sidecar) |} in
  let recorded := (guard_ops (to_last_written ops)).(ps_registry) in
  let '(s, os') := reap_orphaned_live_exec_children ps now dead os in
  (forallb op_written ops = true → recorded = (guard_ops ops).(ps_registry)) ∧
  (∀ id rec leader pid p, recorded !! id = Some rec → os !! rec.(lp_pgid) = Some leader →
     leader.(pr_group) = rec.(lp_pgid) → same_child rec leader → os' !! pid = Some p → p.(pr_group) ≠ rec.(lp_pgid)) ∧
  (∀ pid p, os !! pid = Some p → os' !! pid = None →
     ∃ id rec leader, recorded !! id = Some rec ∧ rec.(lp_pgid) = p.(pr_group) ∧
       os !! rec.(lp_pgid) = Some leader ∧ same_child rec leader) ∧
  (∀ pid p, os' !! pid = Some p → os !! pid = Some p) ∧
  reap_orphaned_live_exec_children ps now s os' = (s, os').
Proof.
  intros Ha Hs dead recorded. pose proof (guard_ops_sidecar ops) as Hm.
  assert (∀ rec, rec ∈ load_live_pgids dead ↔ ∃ id, recorded !! id = Some rec) as Hload.
  { intros rec. rewrite elem_of_load. subst dead. cbn [ps_sidecar]. by rewrite Hm. }
  assert (reap_orphaned_live_exec_children ps now dead os =
    (match load_live_pgids dead with [] => dead | _ => clear_live_pgids_file dead end, foldl (reap_record ps now) os (load_live_pgids dead))) as ->
    by (unfold reap_orphaned_live_exec_children; by destruct (load_live_pgids dead)).
  split_and!.
  - intros Hw. subst recorded. by rewrite to_last_written_all.
  - intros id rec leader pid p Hid Hl Hg Hsame. eapply reap_all_children; [done|done| |done|done|done]. apply Hload. by exists id.
  - intros pid p Hp Hgone. destruct (reap_only_children _ os pid p Hs Hp Hgone) as (rec & leader & [id Hid]%Hload & Hg & Hl & Hsame).
    by exists id, rec, leader.
  - intros pid p. apply reap_records_sub.
  - unfold reap_orphaned_live_exec_children. by destruct (load_live_pgids dead) eqn:E; [rewrite E|].
Qed.
End reap.

(** ** Witness, and what the janitor misses *)

Module OrphanExample.
Definition now : Z := 100000.
Definition ps (os : Os) (pid : Z) : option string := (λ p, line 3 (etime (now - p.(pr_start)))) <$> os !! pid.
(** A child with a grandchild, a child whose process id was given to another process, and one
    whose registration did not reach the sidecar. *)
Definition ops : list GuardOp := [OpRegister "a" 10 5000 true; OpRegister "b" 20 6000 true; OpRegister "c" 30 6500 false; OpDrop "c" true; OpRegister "d" 40 7000 false].
Definition os : Os :=
  {[10 := {| pr_group := 10; pr_start := 5001 |}; 11 := {| pr_group := 10; pr_start := 5100 |}; 20 := {| pr_group := 20; pr_start := 90000 |}]}.
Lemma documented : ps_documented ps now.
Proof. intros os' pid out. unfold ps. intros (p & Hp & ->)%fmap_Some. by exists p, 3%nat. Qed.
Lemma answers : ps_answers ps.
Proof. intros os' pid [p Hp]. unfold ps. rewrite Hp. by eexists. Qed.
End OrphanExample.
Lemma janitor_exact_witness :
  let dead := {| ps_registry := ∅; ps_sidecar := (guard_ops OrphanExample.ops).(ps_sidecar) |} in
  let os' := (reap_orphaned_live_exec_children OrphanExample.ps OrphanExample.now dead OrphanExample.os).2 in
  os' !! 11 = None ∧ os' !! 20 = Some {| pr_group := 20; pr_start := 90000 |} ∧
  ∀ pid p, os' !! pid = Some p → p.(pr_group) ≠ 10.
Proof.
  pose proof (janitor_exact OrphanExample.ps OrphanExample.now OrphanExample.documented ltac:(reflexivity) OrphanExample.ops OrphanExample.os
    OrphanExample.answers) as Hj.
  cbv zeta in Hj |- *. split; [vm_compute; reflexivity|]. split; [vm_compute; reflexivity|].
  assert (sane OrphanExample.now OrphanExample.os) as Hs.
  { intros pid p. unfold OrphanExample.os. rewrite <- elem_of_map_to_list.
    replace (map_to_list _) with [(11, {| pr_group := 10; pr_start := 5100 |}); (10, {| pr_group := 10; pr_start := 5001 |}); (20, {| pr_group := 20; pr_start := 90000 |})]
      by (vm_compute; reflexivity).
    rewrite !elem_of_cons. intros [[= _ ->]|[[= _ ->]|[[= _ ->]|[]%not_elem_of_nil]]]; vm_compute; split; discriminate. }
  specialize (Hj Hs).
  destruct (reap_orphaned_live_exec_children OrphanExample.ps OrphanExample.now _ OrphanExample.os) as [s os']. destruct Hj as (_ & Hj & _). cbn [snd].
  intros pid p Hp. apply (Hj "a" {| lp_pgid := 10; lp_started_unix := 5000 |} {| pr_group := 10; pr_start := 5001 |} pid p);
    [vm_compute; reflexivity|vm_compute; reflexivity|reflexivity|vm_compute; discriminate|exact Hp].
Defined.

(** When the leader of a recorded group is gone, the rest of the group stays: only the leader
    is looked for. *)
Lemma leaderless_group_survives ps now os rec : os !! rec.(lp_pgid) = None → reap_record ps now os rec = os.
Proof. intros Hl. unfold reap_record, process_group_alive. rewrite Hl. by rewrite bool_decide_false by (by intros []). Qed.
(** Two commands under one invocation id: the end of one forgets the other. *)
Lemma shared_id_forgets_child id g1 t1 g2 t2 :
  guard_ops [OpRegister id g1 t1 true; OpRegister id g2 t2 true; OpDrop id true] = {| ps_registry := ∅; ps_sidecar := None |}.
Proof.
  unfold guard_ops. cbn. unfold drop_guard. cbn. rewrite insert_insert_eq, delete_insert_id by done. by rewrite bool_decide_true.
Qed.
(** A child registered while a graceful stop waits for the others loses its record and is
    not killed. *)
Lemma late_child_unrecorded s os id g t rest late :
  btree_iter s.(ps_registry) = rest → rest ≠ [] → (∀ kv, kv ∈ rest → kv.2.(lp_pgid) ≠ g) → late.(pr_group) = g →
  let '(s', os') := terminate_live_exec_children (λ so, (register_guard id g t true so.1, <[g := late]> so.2)) s os in
  s'.(ps_sidecar) = None ∧ os' !! g = Some late.
Proof.
  intros Hr Hne Hg Hlate. unfold terminate_live_exec_children. rewrite Hr. destruct rest as [|kv rest]; [done|]. cbn [map fst snd].
  split; [done|]. revert Hg. change (kv.2.(lp_pgid) :: map (λ kv, lp_pgid kv.2) rest) with (map (λ kv, lp_pgid kv.2) (kv :: rest)).
  generalize (kv :: rest) as l. assert (<[g := late]> os !! g = Some late) as Hs by apply lookup_insert_eq. revert Hs. generalize (<[g := late]> os) as os0.
  intros os0 Hs l. revert os0 Hs. induction l as [|kv' l IH]; intros os0 Hs Hg; [done|]. cbn. apply IH; [|intros; apply Hg; by right].
  apply map_lookup_filter_Some. split; [done|]. cbn. rewrite Hlate. specialize (Hg kv' ltac:(by left)). congruence.
Qed.
