(* ===== verification/Ids.v ===== *)
(** * Identifiers

    Models [crates/mx-agent-protocol/src/id.rs]: the kinds of identifiers, their prefixes,
    minting, validation and classification.  The ULID after the prefix is that of the [ulid]
    crate, whose parser is an argument. *)
From Stdlib Require Import Ascii.
From stdpp Require Import strings list.
From S2P Require Import Prelude RustStr.

Inductive IdKind := Agent | Task | Request | Invocation | Context.
#[export] Instance IdKind_eq_dec : EqDecision IdKind.
Proof. solve_decision. Defined.
Definition prefix (k : IdKind) : string :=
  match k with Agent => "agt_" | Task => "task_" | Request => "req_" | Invocation => "inv_" | Context => "ctx_" end.
Definition ALL : list IdKind := [Agent; Task; Request; Invocation; Context].
Inductive IdError := WrongPrefix (expected : string) | InvalidUlid.
#[export] Instance IdError_eq_dec : EqDecision IdError.
Proof. solve_decision. Defined.

Section ids.
Context (ulid_from_string : string → bool).
(** [ulid] is the text of [Ulid::new()]. *)
Definition generate (kind : IdKind) (ulid : string) : string := prefix kind +:+ ulid.
Definition validate (kind : IdKind) (id : string) : result unit IdError :=
  match strip_prefix (prefix kind) id with
  | None => Err (WrongPrefix (prefix kind))
  | Some body => if ulid_from_string body then Ok tt else Err InvalidUlid
  end.
Definition classify (id : string) : option IdKind := List.find (λ kind, is_ok (validate kind id)) ALL.

Lemma validate_is_ok kind id : is_ok (validate kind id) = true ↔ ∃ u, id = generate kind u ∧ ulid_from_string u = true.
Proof.
  unfold validate, generate. split.
  - destruct (strip_prefix _ id) as [body|] eqn:E; [|done]. apply strip_prefix_Some in E as ->. destruct (ulid_from_string body) eqn:Eu; [|done].
    intros _. by exists body.
  - intros (u & -> & Hu). by rewrite strip_prefix_app, Hu.
Qed.
(** No prefix starts another, so an identifier has one kind. *)
Lemma one_kind k k' u u' : generate k u = generate k' u' → k = k' ∧ u = u'.
Proof. unfold generate. destruct k, k'; cbn; intros E; try discriminate E; split; try done; by injection E. Qed.
(** Classification is exact: an identifier is of a kind exactly when it is the kind's prefix
    followed by a ULID; so what is minted is classified as it was minted, validates for that
    kind alone, and kinds and ULIDs are read back uniquely. *)
Theorem classify_exact id kind : classify id = Some kind ↔ ∃ u, id = generate kind u ∧ ulid_from_string u = true.
Proof.
  rewrite <- validate_is_ok. unfold classify. split.
  - intros [_ Hv]%List.find_some. done.
  - intros Hv. destruct (List.find _ ALL) as [k|] eqn:E.
    + apply List.find_some in E as [_ Hk]. apply validate_is_ok in Hv as (u & -> & _). apply validate_is_ok in Hk as (u' & Hg & _).
      by apply one_kind in Hg as [-> _].
    + pose proof (List.find_none _ _ E kind) as Hn. cbn in Hn. rewrite Hv in Hn. specialize (Hn ltac:(destruct kind; cbn; tauto)). done.
Qed.
Theorem validate_alone kind kind' u : ulid_from_string u = true →
  validate kind' (generate kind u) = if decide (kind' = kind) then Ok tt else Err (WrongPrefix (prefix kind')).
Proof.
  intros Hu. unfold validate, generate. case_decide as Hk; [subst; by rewrite strip_prefix_app, Hu|].
  destruct (strip_prefix _ _) as [body|] eqn:E; [|done]. apply strip_prefix_Some in E. by apply one_kind in E as [-> _].
Qed.
End ids.
