(* ===== verification/Telemetry.v ===== *)
(** * Log lines

    Models [crates/mx-agent-telemetry/src/lib.rs]: the choice of the format, the redaction of
    structured fields behind both formatters, and the JSON line that the daemon writes itself.
    The rendering of fields is that of the logging library and is an argument. *)
From Stdlib Require Import ZArith Lia Ascii.
From stdpp Require Import gmap strings list.
From S2P Require Import Prelude RustStr ChildEnv CanonicalJson.

Definition ENV_FORMAT : string := "MX_AGENT_LOG_FORMAT".
Definition REDACTED : string := "***redacted***".

(** ** The format *)

Inductive LogFormat := Human | Json.
Definition LogFormat_parse (value : string) : option LogFormat :=
  let v := to_ascii_lowercase (trim value) in
  if (v =s "human") || (v =s "text") || (v =s "pretty") then Some Human else if v =s "json" then Some Json else None.
(** [var]: the variable, or that it is not set or not text. *)
Definition LogFormat_from_env (var : option string) : LogFormat := default Human (var ≫= LogFormat_parse).

(** ** Redaction *)

(** The value of a field, by the method of [Visit] that records it. *)
Inductive FieldValue :=
| VF64 (text : string) | VInt (n : Z) | VBool (b : bool) | VStr (s : string) | VBytes (b : string) | VError (text : string) | VDebug (text : string).
Definition redact (key value : string) : string := if is_sensitive_key key then REDACTED else value.
(** [redact_or_forward]. *)
Definition redact_or_forward (field : string * FieldValue) : string * FieldValue :=
  if is_sensitive_key field.1 then (field.1, VStr REDACTED) else field.

(** ** The JSON line *)

Definition hex_digit (n : nat) : ascii := ascii_of_nat (if n <? 10 then 48 + n else 87 + n)%nat.
(** One character, here one byte: the bytes of a longer character are not below 128. *)
Definition escape_char (c : ascii) : string :=
  let n := nat_of_ascii c in
  if (n =? 34)%nat then String "\" (String quote "")
  else if (n =? 92)%nat then "\\"
  else if (n =? 10)%nat then "\n"
  else if (n =? 13)%nat then "\r"
  else if (n =? 9)%nat then "\t"
  else if (n <? 32)%nat then "\u00" +:+ String (hex_digit (n / 16)) (String (hex_digit (n mod 16)) "")
  else String c "".
Fixpoint escape_all (s : string) : string := match s with "" => "" | String c s => escape_char c +:+ escape_all s end.
Definition write_json_string (value : string) : string := String quote (escape_all value +:+ String quote "").

Inductive Level := ERROR | WARN | INFO | DEBUG | TRACE.
Definition level_name (l : Level) : string :=
  match l with ERROR => "ERROR" | WARN => "WARN" | INFO => "INFO" | DEBUG => "DEBUG" | TRACE => "TRACE" end.
Definition newline : string := String (ascii_of_nat 10) "".
Definition member (name : string) : string := String quote name +:+ String quote ":".
Section lines.
(** What the library's visitors write for a list of fields. *)
Context (json_visitor default_visitor : list (string * FieldValue) → string).
(** [RedactingJson::format_event]; [timestamp] is empty when the clock cannot be formatted. *)
Definition format_event (timestamp : string) (level : Level) (target : string) (fields : list (string * FieldValue)) : string :=
  "{" +:+ member "timestamp" +:+ write_json_string timestamp +:+ "," +:+ member "level" +:+ write_json_string (level_name level) +:+ "," +:+
  member "target" +:+ write_json_string target +:+ "," +:+ member "fields" +:+ json_visitor (map redact_or_forward fields) +:+ "}" +:+ newline.
(** The fields of the human format: [Redacting(DefaultFields)]. *)
Definition human_fields (fields : list (string * FieldValue)) : string := default_visitor (map redact_or_forward fields).

(** ** What a log line can say *)

(** Fields that differ only in the values of sensitive keys. *)
Definition same_but_secrets (fs fs' : list (string * FieldValue)) : Prop :=
  Forall2 (λ f f', f.1 = f'.1 ∧ (is_sensitive_key f.1 = false → f.2 = f'.2)) fs fs'.
Lemma redact_same fs fs' : same_but_secrets fs fs' → map redact_or_forward fs = map redact_or_forward fs'.
Proof.
  induction 1 as [|[k v] [k' v'] fs fs' [Hk Hv] _ IH]; [done|]. cbn in *. subst k'. rewrite IH. f_equal. unfold redact_or_forward. cbn.
  destruct (is_sensitive_key k); [done|]. by rewrite Hv.
Qed.
(** The lines of both formats are a function of what is not secret: the value of a field
    with a sensitive key, of whatever type, changes nothing in them. *)
Theorem log_lines_hide_secrets timestamp level target fs fs' : same_but_secrets fs fs' →
  format_event timestamp level target fs = format_event timestamp level target fs' ∧ human_fields fs = human_fields fs'.
Proof. intros Hs. unfold format_event, human_fields. by rewrite (redact_same fs fs' Hs). Qed.
End lines.

(** A literal holds no control character, whatever the text: an event is one line. *)
Definition printable (c : ascii) : bool := (32 <=? nat_of_ascii c)%nat.
Lemma all_ascii (P : ascii → bool) : forallb (λ n, P (ascii_of_nat n)) (seq 0 256) = true → ∀ c, P c = true.
Proof.
  intros Hall c. rewrite <- (ascii_nat_embedding c). rewrite forallb_forall in Hall. apply Hall. apply in_seq.
  pose proof (nat_ascii_bounded c). lia.
Qed.
Lemma escape_printable c : str_all printable (escape_char c) = true.
Proof. revert c. apply all_ascii. vm_compute. reflexivity. Qed.
Lemma str_all_app p a b : str_all p (a +:+ b) = str_all p a && str_all p b.
Proof. induction a as [|c a IH]; [done|]. simpl. by rewrite IH, andb_assoc. Qed.
Lemma literal_printable s : str_all printable (write_json_string s) = true.
Proof.
  unfold write_json_string. cbn. rewrite str_all_app, andb_true_r. induction s as [|c s IH]; [done|]. cbn. by rewrite str_all_app, escape_printable.
Qed.

(** No escape is the start of another, or of the closing quote. *)
Lemma app_prefix a : ∀ b r r', a +:+ r = b +:+ r' → starts_with a b = true ∨ starts_with b a = true.
Proof.
  unfold starts_with. induction a as [|c a IH]; intros [|c' b] r r' E; [by left|by left|by right|].
  cbn in E. injection E as -> E. cbn. rewrite !decide_True by done. by apply (IH _ r r').
Qed.
Definition clash (a b : string) : bool := starts_with a b || starts_with b a.
Lemma escapes_distinct c c' : clash (escape_char c) (escape_char c') = true → c = c'.
Proof.
  enough (∀ c, forallb (λ n, negb (clash (escape_char c) (escape_char (ascii_of_nat n))) || bool_decide (c = ascii_of_nat n)) (seq 0 256) = true) as Hall.
  { intros Hc. pose proof (all_ascii (λ c', negb (clash (escape_char c) (escape_char c')) || bool_decide (c = c')) (Hall c) c') as Hp. cbn in Hp.
    rewrite Hc in Hp. by apply bool_decide_eq_true in Hp. }
  apply all_ascii. vm_compute. reflexivity.
Qed.
Lemma escape_open c : clash (escape_char c) (String quote "") = false.
Proof. apply negb_true_iff. revert c. apply all_ascii. vm_compute. reflexivity. Qed.
Lemma app_cancel a : ∀ r r', a +:+ r = a +:+ r' → r = r'.
Proof. induction a as [|c a IH]; intros r r' E; [done|]. injection E as E. by apply IH. Qed.
Lemma escape_all_delimited s : ∀ s' r r',
  escape_all s +:+ String quote "" +:+ r = escape_all s' +:+ String quote "" +:+ r' → s = s' ∧ r = r'.
Proof.
  assert (∀ c x y, escape_char c +:+ x ≠ String quote "" +:+ y) as Hq.
  { intros c x y E. apply app_prefix in E. pose proof (escape_open c) as Ho. unfold clash in Ho. apply orb_false_iff in Ho. destruct E; intuition congruence. }
  induction s as [|c s IH]; intros [|c' s'] r r' E; cbn [escape_all] in E; rewrite ?append_assoc in E.
  - split; [done|]. exact (app_cancel (String quote "") r r' E).
  - by destruct (Hq c' _ r (eq_sym E)).
  - by destruct (Hq c _ r' E).
  - assert (c = c') as <-. { apply escapes_distinct. unfold clash. apply orb_true_iff. by apply app_prefix in E. }
    apply app_cancel in E. by apply IH in E as [-> ->].
Qed.
(** What the daemon writes is a JSON string literal: it is delimited, whatever follows, and
    different texts give different literals. *)
#[export] Instance write_json_string_literal : JsonString write_json_string.
Proof.
  split; [intros s; unfold write_json_string; by eexists|]. intros s s' r r' E. unfold write_json_string in E. cbn in E. injection E as E.
  apply (escape_all_delimited s s' r r'). by rewrite <- !append_assoc.
Qed.
