(* ===== verification/Terminal.v ===== *)
(** * Interactive terminals

    Models [exec --pty]: [crates/mx-agent-daemon/src/pty_ipc.rs] (a session on this host and
    one bridged to another agent), the run on the target in [exec.rs]
    ([run_controlled_pty_exec], [emit_pty_chunk]) and the client of
    [crates/mx-agent-cli/src/cli.rs].  The threads of a session are interleaved in any order;
    JSON decoding, base64, the clock and what the operating system returns are arguments. *)
From Stdlib Require Import ZArith Lia Ascii.
From stdpp Require Import gmap strings list.
From S2P Require Import Prelude RustStr Sandboxing PolicyFile PolicyEngine CanonicalJson Schema Signing NonceGuard Trust Room LiveAuth ResultPlane Runner LiveHandlers LiveCorrect Streams Reassembly DataDir SyncLoop Workspace ExecIpc IpcServer.
Local Open Scope Z_scope.

(** ** Messages *)

Definition METHOD_PTY_STDIN : string := "pty.stdin".
Definition METHOD_PTY_RESIZE : string := "pty.resize".
Definition PTY_RESIZE : string := "com.mxagent.pty.resize.v1".
Definition DEFAULT_ROWS : Z := 24.
Definition DEFAULT_COLS : Z := 80.
Definition winsize_new (rows cols : Z) : PtyWinsize :=
  {| pw_rows := rows; pw_cols := cols; pw_pixel_width := 0; pw_pixel_height := 0 |}.

Record ExecPtyParams := {
  pt_room : option string;
  pt_agent : option string;
  pt_command : list string;
  pt_cwd : option string;
  pt_rows : Z;
  pt_cols : Z;
  pt_task : option string;
  pt_max_output_bytes : option Z;
  pt_env : gmap string string;
  pt_timeout_ms : option Z;
}.
Inductive PtyServerFrame :=
| PfOutput (data : string)
| PfFinished (exit_code signal : option Z) (truncated : bool)
| PfError (message : string).
(** What the user does at the terminal: keys typed, and the window's size changed. *)
Inductive Input := Typed (data : bytes) | Resized (size : PtyWinsize).

(** The JSON of the frames. *)
Class PtySerde := {
  server_frame_value : PtyServerFrame → Value;
  server_frame_from_value : Value → option PtyServerFrame;
  stdin_value : string → Value;
  stdin_from_value : Value → option string;
  resize_value : PtyWinsize → Value;
  resize_from_value : Value → option PtyWinsize;
}.
Class PtySerdeLaws `{PtySerde} : Prop := {
  server_frame_roundtrip f : server_frame_from_value (server_frame_value f) = Some f;
  stdin_roundtrip s : stdin_from_value (stdin_value s) = Some s;
  resize_roundtrip w : resize_from_value (resize_value w) = Some w;
}.
(** A frame read from the socket: a message, or bytes that are none. *)
Inductive Incoming (A : Type) := Message (m : A) | Garbled.
Arguments Message {A} m.
Arguments Garbled {A}.

(** What a terminal's master returns, until its end: [Some []] is the end of the file and
    [None] an error, which the master gives once the program is gone. *)
Fixpoint until_end (reads : list (option bytes)) : list bytes :=
  match reads with
  | [] | None :: _ | Some [] :: _ => []
  | Some data :: reads => data :: until_end reads
  end.

Section terminal.
Context `{Crypto} `{PtySerde}.

(** ** The client *)

Definition pty_exit_code (exit_code signal : option Z) : Z :=
  match exit_code, signal with
  | Some code, _ => unwrap_or (u8_try_from code) 1
  | None, Some sig => unwrap_or (u8_try_from (128 + sig)) EXIT_PROTOCOL_FAILURE
  | None, None => EXIT_PROTOCOL_FAILURE
  end.

(** What the client has done: printed, warned of truncation, failed with a message, and the
    exit code once it is known. *)
Record Screen := { sc_stdout : bytes; sc_warned : bool; sc_message : option string; sc_code : option Z }.
Definition blank : Screen := {| sc_stdout := []; sc_warned := false; sc_message := None; sc_code := None |}.
Definition fail_with (message : option string) (s : Screen) : Screen :=
  {| sc_stdout := s.(sc_stdout); sc_warned := s.(sc_warned); sc_message := message; sc_code := Some EXIT_PROTOCOL_FAILURE |}.
Definition print (data : bytes) (s : Screen) : Screen :=
  {| sc_stdout := s.(sc_stdout) ++ data; sc_warned := s.(sc_warned); sc_message := s.(sc_message); sc_code := s.(sc_code) |}.
Definition finish (code : Z) (truncated : bool) (s : Screen) : Screen :=
  {| sc_stdout := s.(sc_stdout); sc_warned := s.(sc_warned) || truncated; sc_message := s.(sc_message); sc_code := Some code |}.
(** [pty_render_loop]; standard output takes what it is given.  [None] in [reads] is a
    connection that is closed or broken. *)
Fixpoint pty_render_loop (reads : list (option (Incoming Response))) (s : Screen) : Screen :=
  match reads with
  | [] => s
  | None :: _ => fail_with None s
  | Some Garbled :: reads => pty_render_loop reads s
  | Some (Message response) :: reads =>
    match response.(rsp_error) with
    | Some error => fail_with (Some error.(rpc_message)) s
    | None =>
      match response.(rsp_result) ≫= server_frame_from_value with
      | None => pty_render_loop reads s
      | Some (PfOutput data) =>
        pty_render_loop reads (match b64_decode data with Some raw => print (to_bytes raw) s | None => s end)
      | Some (PfFinished exit_code signal truncated) => finish (pty_exit_code exit_code signal) truncated s
      | Some (PfError message) => fail_with (Some message) s
      end
    end
  end.
(** The frames of [pty_forward_stdin] and [pty_forward_resizes], which share the socket. *)
Definition client_request (i : Input) : Request :=
  match i with
  | Typed data => request_new Null METHOD_PTY_STDIN (stdin_value (b64_encode (to_text data)))
  | Resized size => request_new Null METHOD_PTY_RESIZE (resize_value size)
  end.

(** ** A session on this host *)

Definition server_response (request_id : Value) (frame : PtyServerFrame) : Response :=
  response_result request_id (server_frame_value frame).
(** What a frame of the client asks for. *)
Definition client_frame (request : Request) : option Input :=
  if request.(req_method) =s METHOD_PTY_STDIN then
    data ← stdin_from_value request.(req_params); raw ← b64_decode data; Some (Typed (to_bytes raw))
  else if request.(req_method) =s METHOD_PTY_RESIZE then Resized <$> resize_from_value request.(req_params)
  else None.

(** [lb_left]: how many more frames the client takes ([None]: all); [lb_master]: what was
    done to the terminal; the pump reads its output, the listener the client's frames. *)
Record Loopback := {
  lb_limiter : LimiterInner;
  lb_pumping : bool;
  lb_listening : bool;
  lb_status : option (option ExitStatus);
  lb_closed : bool;
  lb_left : option nat;
  lb_sent : list Response;
  lb_master : list Input;
}.
Inductive SessionEvent :=
| MasterRead (data : option bytes)
| ClientRead (frame : option (Incoming Request)) (written : bool)
| ChildExited (status : option ExitStatus).

Definition write_server_frame (request_id : Value) (frame : PtyServerFrame) (s : Loopback) : bool * Loopback :=
  match s.(lb_left) with
  | Some O => (false, s)
  | more =>
    (true, {| lb_limiter := s.(lb_limiter); lb_pumping := s.(lb_pumping); lb_listening := s.(lb_listening); lb_status := s.(lb_status);
              lb_closed := s.(lb_closed); lb_left := pred <$> more; lb_sent := s.(lb_sent) ++ [server_response request_id frame];
              lb_master := s.(lb_master) |})
  end.
Definition with_limiter (l : LimiterInner) (s : Loopback) : Loopback :=
  {| lb_limiter := l; lb_pumping := s.(lb_pumping); lb_listening := s.(lb_listening); lb_status := s.(lb_status);
     lb_closed := s.(lb_closed); lb_left := s.(lb_left); lb_sent := s.(lb_sent); lb_master := s.(lb_master) |}.
Definition stop_pump (s : Loopback) : Loopback :=
  {| lb_limiter := s.(lb_limiter); lb_pumping := false; lb_listening := s.(lb_listening); lb_status := s.(lb_status);
     lb_closed := s.(lb_closed); lb_left := s.(lb_left); lb_sent := s.(lb_sent); lb_master := s.(lb_master) |}.
Definition stop_listener (s : Loopback) : Loopback :=
  {| lb_limiter := s.(lb_limiter); lb_pumping := s.(lb_pumping); lb_listening := false; lb_status := s.(lb_status);
     lb_closed := s.(lb_closed); lb_left := s.(lb_left); lb_sent := s.(lb_sent); lb_master := s.(lb_master) |}.
Definition with_status (st : option ExitStatus) (s : Loopback) : Loopback :=
  {| lb_limiter := s.(lb_limiter); lb_pumping := s.(lb_pumping); lb_listening := s.(lb_listening); lb_status := Some st;
     lb_closed := s.(lb_closed); lb_left := s.(lb_left); lb_sent := s.(lb_sent); lb_master := s.(lb_master) |}.
Definition on_master (i : Input) (s : Loopback) : Loopback :=
  {| lb_limiter := s.(lb_limiter); lb_pumping := s.(lb_pumping); lb_listening := s.(lb_listening); lb_status := s.(lb_status);
     lb_closed := s.(lb_closed); lb_left := s.(lb_left); lb_sent := s.(lb_sent); lb_master := s.(lb_master) ++ [i] |}.
Definition close (s : Loopback) : Loopback :=
  {| lb_limiter := s.(lb_limiter); lb_pumping := s.(lb_pumping); lb_listening := s.(lb_listening); lb_status := s.(lb_status);
     lb_closed := true; lb_left := s.(lb_left); lb_sent := s.(lb_sent); lb_master := s.(lb_master) |}.

(** A turn of [pump_master_to_client]. *)
Definition pump_step (request_id : Value) (data : option bytes) (s : Loopback) : Loopback :=
  if s.(lb_pumping) then
    match data with
    | None | Some [] => stop_pump s
    | Some data =>
      let '(allowed, l) := reserve s.(lb_limiter) (Z.of_nat (length data)) in
      let s := with_limiter l s in
      if 0 <? allowed then
        let '(ok, s) := write_server_frame request_id (PfOutput (b64_encode (to_text (take (Z.to_nat allowed) data)))) s in
        if ok then s else stop_pump s
      else s
    end
  else s.
(** [apply_client_frame]: [written] is whether the terminal takes the keys. *)
Definition apply_client_frame (request : Request) (written : bool) (s : Loopback) : bool * Loopback :=
  match client_frame request with
  | Some (Typed data) => if written then (true, on_master (Typed data) s) else (false, s)
  | Some (Resized size) => (true, on_master (Resized size) s)
  | None => (true, s)
  end.
(** A turn of [pump_client_to_master]. *)
Definition listen_step (frame : option (Incoming Request)) (written : bool) (s : Loopback) : Loopback :=
  if s.(lb_listening) then
    match frame with
    | None => stop_listener s
    | Some Garbled => s
    | Some (Message request) => let '(on, s) := apply_client_frame request written s in if on then s else stop_listener s
    end
  else s.
(** The main thread, once the wait has returned and the pump has ended. *)
Definition settle (request_id : Value) (s : Loopback) : Loopback :=
  match s.(lb_status) with
  | Some status =>
    if s.(lb_pumping) || s.(lb_closed) then s
    else
      let '(exit_code, signal) := match status with Some st => (st.(es_code), st.(es_signal)) | None => (None, None) end in
      close (write_server_frame request_id (PfFinished exit_code signal s.(lb_limiter).(lm_truncated)) s).2
  | None => s
  end.
Definition session_step (request_id : Value) (e : SessionEvent) (s : Loopback) : Loopback :=
  settle request_id
    match e with
    | MasterRead data => pump_step request_id data s
    | ClientRead frame written => listen_step frame written s
    | ChildExited status => match s.(lb_status) with None => with_status status s | Some _ => s end
    end.
Definition session_run (request_id : Value) (es : list SessionEvent) (s : Loopback) : Loopback :=
  foldl (λ s e, session_step request_id e s) s es.
Definition session_start (cap : option Z) (left : option nat) : Loopback :=
  {| lb_limiter := limiter_new {| cap_max_output_bytes := cap; cap_max_events_per_second := None |}; lb_pumping := true;
     lb_listening := true; lb_status := None; lb_closed := false; lb_left := left; lb_sent := []; lb_master := [] |}.

(** The cap of a session: the request's, the policy's, or the default. *)
Definition pty_cap (params : ExecPtyParams) (a : Allowance) : option Z :=
  opt_or (opt_or params.(pt_max_output_bytes) (Z.of_N <$> a.(al_max_output_bytes))) (Some DEFAULT_PTY_OUTPUT_CAP_BYTES).
(** What a session does to the outside: the command it starts and what the client gets.
    [show] prints an error of the spawn. *)
Inductive PtyStart := PtyRefused (frame : PtyServerFrame) | PtyStarted (command : Command) (size : PtyWinsize) (session : Loopback).
Definition run_pty_loopback (env : RunEnv) (open_pty : result unit (IoKind * string)) (spawn : Command → result unit (IoKind * string))
    (show : RunError → string) (params : ExecPtyParams) (a : Allowance) (left : option nat) : PtyStart :=
  if is_err (check_sandbox_floor a) then PtyRefused (PfError REFUSED_UNSANDBOXED)
  else
    match (let? (command, _) := pty_spawn_command env open_pty
             (pty_loopback_run_spec env params.(pt_command) params.(pt_cwd) params.(pt_env) a) in
           let? _ := spawn_err (spawn command) in Ok command) with
    | Err e => PtyRefused (PfError ("exec --pty failed: " +:+ show e))
    | Ok command => PtyStarted command (winsize_new params.(pt_rows) params.(pt_cols)) (session_start (pty_cap params a) left)
    end.

(** ** A session on another agent: the target *)

(** [emit_pty_chunk]: the chunk sent as number [seq]. *)
Definition pty_chunk (invocation_id timestamp : string) (data : bytes) (eof : bool) (seq : Z) : StreamChunk :=
  {| sc_invocation_id := invocation_id; sc_stream := Pty; sc_seq := seq; sc_encoding := "base64"; sc_data := b64_encode (to_text data);
     sc_eof := eof; sc_compressed := false; sc_sha256 := chunk_sha256 data; sc_timestamp := timestamp; sc_signature := None; sc_extra := ∅ |}.
(** The chunker task: the chunks it sends, the bytes it got and whether it dropped any.
    [clock] is the time of each chunk. *)
Fixpoint chunker (invocation_id : string) (clock : Z → string) (l : LimiterInner) (seq total : Z) (reads : list bytes) :
    list StreamChunk * Z * bool :=
  match reads with
  | [] => ([pty_chunk invocation_id (clock seq) [] true seq], total, l.(lm_truncated))
  | data :: reads =>
    let total := total + Z.of_nat (length data) in
    let '(allowed, l) := reserve l (Z.of_nat (length data)) in
    if 0 <? allowed then
      let '(chunks, total, truncated) := chunker invocation_id clock l (seq + 1) total reads in
      (pty_chunk invocation_id (clock seq) (take (Z.to_nat allowed) data) false seq :: chunks, total, truncated)
    else chunker invocation_id clock l seq total reads
  end.
(** The stdin thread: keys are written until the end of the input, which leaves the
    terminal open. *)
Fixpoint stdin_thread (frames : list (option string)) : bytes :=
  match frames with
  | [] | None :: _ => []
  | Some data :: frames => to_bytes data ++ stdin_thread frames
  end.
(** The resize thread: the last size set. *)
Definition resize_thread (sizes : list PtyWinsize) : PtyWinsize := default (winsize_new DEFAULT_ROWS DEFAULT_COLS) (last sizes).

Record PtyExecOutcome := {
  po_exit_code : option Z;
  po_signal : option Z;
  po_cancelled : bool;
  po_killed_process_group : bool;
  po_output_bytes : Z;
  po_truncated : bool;
}.
(** [run_controlled_pty_exec] once the command is started: [b] is the branch of the
    [select!] that is taken; it returns when the terminal's output has ended, which it does
    not while a process holds the terminal open ([ch_pipes_close]). *)
Definition run_controlled_pty_exec (env : RunEnv) (clock : Z → string) (request : ExecRequest) (a : Allowance) (child : Child)
    (cancel : option N) (reads : list (option bytes)) (b : Branch) : option (list StreamChunk * PtyExecOutcome) :=
  match controlled_wait (live_pty_run_spec env request a) child cancel b, child.(ch_pipes_close) with
  | Some (_, status, signals), Some _ =>
    let caps := {| cap_max_output_bytes := Z.of_N <$> a.(al_max_output_bytes); cap_max_events_per_second := None |} in
    let '(chunks, total, truncated) := chunker request.(er_invocation_id) clock (limiter_new caps) 0 0 (until_end reads) in
    Some (chunks, {| po_exit_code := status.(es_code); po_signal := status.(es_signal); po_cancelled := bool_decide (b = BrCancelled);
                     po_killed_process_group := bool_decide (SigKill ∈ signals); po_output_bytes := total; po_truncated := truncated |})
  | _, _ => None
  end.
(** The end of [run_pty_exec_task], as the run's end that [finish_exec] reports. *)
Definition pty_run_end (outcome : result PtyExecOutcome string) (duration_ms : Z) : RunEnd :=
  match outcome with
  | Err e => RunFailed e
  | Ok o =>
    if o.(po_cancelled) then RunCancelled o.(po_exit_code) o.(po_killed_process_group)
    else RunFinished o.(po_exit_code) o.(po_signal) duration_ms o.(po_output_bytes) 0 o.(po_truncated)
  end.
Definition pty_finished (invocation_id : string) (o : PtyExecOutcome) (duration_ms : Z) : ExecFinished :=
  {| ef_invocation_id := invocation_id; ef_exit_code := o.(po_exit_code); ef_signal := o.(po_signal) ≫= signal_name;
     ef_duration_ms := duration_ms; ef_stdout_bytes := o.(po_output_bytes); ef_stderr_bytes := 0; ef_truncated := o.(po_truncated);
     ef_artifact_mxc := None; ef_signature := None; ef_extra := ∅ |}.

(** ** A session on another agent: the requester *)

Definition pty_signal_number (name : string) : option Z :=
  if name =s "SIGHUP" then Some 1 else if name =s "SIGINT" then Some 2 else if name =s "SIGQUIT" then Some 3
  else if name =s "SIGABRT" then Some 6 else if name =s "SIGFPE" then Some 8 else if name =s "SIGKILL" then Some 9
  else if name =s "SIGSEGV" then Some 11 else if name =s "SIGPIPE" then Some 13 else if name =s "SIGALRM" then Some 14
  else if name =s "SIGTERM" then Some 15 else None.
(** What an event becomes: a frame to write, and whether the session ends with it. *)
Definition drain_event (e : option ForwardedExecEvent) : option PtyServerFrame * bool :=
  match e with
  | None => (Some (PfError "remote PTY subscriber closed"), true)
  | Some (FwStreamChunk chunk) =>
    if bool_decide (chunk.(sc_stream) = Pty) then
      let raw := if chunk.(sc_encoding) =s "base64" then default "" (b64_decode chunk.(sc_data)) else chunk.(sc_data) in
      (Some (PfOutput (b64_encode raw)), false)
    else (None, false)
  | Some (FwExecFinished f) => (Some (PfFinished f.(ef_exit_code) (f.(ef_signal) ≫= pty_signal_number) f.(ef_truncated)), true)
  | Some (FwExecRejected r) => (Some (PfError r.(erj_reason)), true)
  | Some (FwExecCancelled c) => (Some (PfFinished None (pty_signal_number c.(ecd_signal_sent)) false), true)
  | Some (FwStreamArtifact _) | Some (FwCallResponse _) => (None, false)
  end.
(** [drain_remote_pty]: what is written while the client takes [left] frames, and whether it
    has returned; [None] is the end of the subscription. *)
Fixpoint drain_remote_pty (request_id : Value) (left : option nat) (events : list (option ForwardedExecEvent)) : list Response * bool :=
  match events with
  | [] => ([], false)
  | e :: events =>
    match drain_event e with
    | (None, _) => drain_remote_pty request_id left events
    | (Some frame, last) =>
      match left with
      | Some O => ([], true)
      | _ =>
        if last then ([server_response request_id frame], true)
        else let '(out, ended) := drain_remote_pty request_id (pred <$> left) events in (server_response request_id frame :: out, ended)
      end
    end
  end.

(** [send_exec_stdin] and [send_pty_resize]: the signed event. *)
Definition control_event (sk : SigningKey) (invocation_id : string) (fresh : string * string) (i : Input) : string * Value :=
  let '(at_, nonce) := fresh in
  match i with
  | Typed data => (EXEC_STDIN, signed_content (build_signed_exec_stdin sk (key_id_of sk) invocation_id (to_text data) false at_ nonce))
  | Resized size => (PTY_RESIZE, signed_content (build_signed_pty_resize sk (key_id_of sk) invocation_id size at_ nonce))
  end.

Section bridge.
Context {W : Type} `{MatrixServer W} (parse_id : string → option RoomOrAliasId).
Context (sdk_agent_states : string → st W SdkError (list (StateEvent AgentState)))
        (sdk_agent_state : string → string → st W SdkError (option (StateEvent AgentState)))
        (sdk_send : string → string → Value → st W SdkError unit).
Context (show_error : WorkspaceError → string) (show_sdk : SdkError → string) (debug : string → string).
Abbreviation RM := (st (Requester (W := W)) string).

(** [forward_client_frames_to_matrix]: until the connection closes; a frame that cannot be
    sent is dropped.  [fresh n] is the time and the nonce of the [n]-th frame. *)
Fixpoint forward_client_frames_to_matrix (room_id : string) (sk : SigningKey) (invocation_id : string) (fresh : nat → string * string)
    (n : nat) (frames : list (option (Incoming Request))) (s : Requester (W := W)) : Requester :=
  match frames with
  | [] | None :: _ => s
  | Some Garbled :: frames => forward_client_frames_to_matrix room_id sk invocation_id fresh (S n) frames s
  | Some (Message request) :: frames =>
    let s :=
      match client_frame request with
      | Some i => let '(ty, content) := control_event sk invocation_id (fresh n) i in (send_raw sdk_send show_sdk room_id ty content s).2
      | None => s
      end in
    forward_client_frames_to_matrix room_id sk invocation_id fresh (S n) frames s
  end.

Definition pty_request_options (params : ExecPtyParams) (target_agent requesting_agent : string) : ExecRequestOptions :=
  {| eo_target_agent := target_agent; eo_requesting_agent := requesting_agent; eo_command := params.(pt_command);
     eo_cwd := default "" params.(pt_cwd); eo_env := params.(pt_env); eo_stdin := true; eo_stream := true; eo_pty := true;
     eo_timeout_ms := unwrap_or params.(pt_timeout_ms) DEFAULT_REMOTE_EXEC_TIMEOUT_MS; eo_task_id := params.(pt_task) |}.
Record RemotePtyContext := { rp_room_id : string; rp_signing_key : SigningKey; rp_invocation_id : string; rp_subscription : ExecSubscription }.
(** [resize]: the time and the nonce of the first resize, whose loss is ignored. *)
Definition setup_remote_pty (f : Fresh) (resize : string * string) (params : ExecPtyParams) (invocation_id request_id : string) : RM RemotePtyContext :=
  let! room_target := or_fail params.(pt_room) "remote PTY requires --room" in
  let! target_agent := or_fail params.(pt_agent) "remote PTY requires --agent" in
  let! p := prepare parse_id sdk_agent_states sdk_agent_state show_error show_sdk debug f room_target target_agent in
  let! content := (λ s, (match build_request f p.(pp_signing) invocation_id request_id
                               (pty_request_options params target_agent p.(pp_requester).(as_agent_id))
                         with Ok v => Ok v | Err _ => Err "signing failed" end, s)) in
  let! sub := subscribe_to (KInvocation invocation_id) p.(pp_expected_sender) in
  let! _ := or_drop sub (send_raw sdk_send show_sdk p.(pp_room_id) EXEC_REQUEST content) in
  let '(ty, size) := control_event p.(pp_signing) invocation_id resize (Resized (winsize_new params.(pt_rows) params.(pt_cols))) in
  let! _ := (λ s, (Ok tt, (send_raw sdk_send show_sdk p.(pp_room_id) ty size s).2)) in
  ret {| rp_room_id := p.(pp_room_id); rp_signing_key := p.(pp_signing); rp_invocation_id := invocation_id; rp_subscription := sub |}.
(** [run_pty_remote]: the threads of a session in the order their work is given: the
    client's frames, then the events; the subscription ends with the session. *)
Definition run_pty_remote (f : Fresh) (resize : string * string) (fresh : nat → string * string) (params : ExecPtyParams)
    (invocation_id fresh_request : string) (request_id : Value) (left : option nat)
    (frames : list (option (Incoming Request))) (events : list (option ForwardedExecEvent)) (s : Requester (W := W)) :
    list Response * bool * Requester :=
  match setup_remote_pty f resize params invocation_id fresh_request s with
  | (Err message, s) => (match left with Some O => [] | _ => [server_response request_id (PfError message)] end, true, s)
  | (Ok ctx, s) =>
    let s := forward_client_frames_to_matrix ctx.(rp_room_id) ctx.(rp_signing_key) ctx.(rp_invocation_id) fresh 0 frames s in
    let '(out, ended) := drain_remote_pty request_id left events in
    (out, ended, if ended then unsubscribe ctx.(rp_subscription) s else s)
  end.
End bridge.

(** ** What the user sees *)

Definition cap_take (cap : option Z) (data : bytes) : bytes := match cap with Some m => take (Z.to_nat m) data | None => data end.
Definition over (cap : option Z) (data : bytes) : bool := match cap with Some m => m <? Z.of_nat (length data) | None => false end.
Definition spend (cap : option Z) (data : bytes) : option Z := (λ m, Z.max 0 (m - Z.of_nat (length data))) <$> cap.
Definition budget (l : LimiterInner) : option Z := (λ m, m - l.(lm_emitted)) <$> l.(lm_max_output_bytes).

Lemma cap_take_app cap d r : (∀ m, cap = Some m → 0 ≤ m) → cap_take cap (d ++ r) = cap_take cap d ++ cap_take (spend cap d) r.
Proof.
  destruct cap as [m|]; intros Hm; [|done]. specialize (Hm m eq_refl). cbn. rewrite take_app. do 2 f_equal. lia.
Qed.
Lemma over_app cap d r : (∀ m, cap = Some m → 0 ≤ m) → over cap (d ++ r) = over cap d || over (spend cap d) r.
Proof.
  destruct cap as [m|]; intros Hm; [|done]. specialize (Hm m eq_refl). cbn. rewrite length_app.
  destruct (Z.ltb_spec m (Z.of_nat (length d))), (Z.ltb_spec (Z.max 0 (m - Z.of_nat (length d))) (Z.of_nat (length r))); cbn;
    (apply Z.ltb_lt || apply Z.ltb_ge); lia.
Qed.
(** One read against the budget: the bytes let through, what is left, and the flag. *)
Lemma reserve_budget l d g l' : limiter_ok l → reserve l (Z.of_nat (length d)) = (g, l') →
  limiter_ok l' ∧ take (Z.to_nat g) d = cap_take (budget l) d ∧ (g ≤ 0 → cap_take (budget l) d = []) ∧ budget l' = spend (budget l) d ∧
  l'.(lm_truncated) = l.(lm_truncated) || over (budget l) d.
Proof.
  intros Hok E. destruct (reserve_spec _ _ _ _ E Hok (Zle_0_nat _)) as (Hok' & Hg & _ & _ & Ht).
  split; [exact Hok'|]. rewrite Ht, (orb_comm (_ <? _)). clear Hok' Ht. revert E Hok.
  unfold reserve, limiter_ok, budget, saturating_sub. destruct l as [[m|] e tr]; cbn; intros [= <- <-] Hok; cbn in *.
  - split_and!.
    + destruct (Z.le_ge_cases (m - e) (Z.of_nat (length d))); [f_equal; lia|]. rewrite !take_ge by lia. done.
    + destruct d; [by rewrite take_nil|]. intros Hn. by replace (Z.to_nat (m - e)) with O by (cbn in *; lia).
    + f_equal. lia.
    + f_equal. apply eq_true_iff_eq. rewrite !Z.ltb_lt. lia.
  - split_and!; [rewrite Nat2Z.id; apply take_ge; lia|intros Hn; destruct d; [done|cbn in *; lia]|done|by rewrite Z.ltb_irrefl].
Qed.
Lemma budget_nonneg l m : limiter_ok l → budget l = Some m → 0 ≤ m.
Proof. unfold limiter_ok, budget. destruct (lm_max_output_bytes l); cbn; [|done]. intros [? _] [= <-]. lia. Qed.

Section correct.
Context `{!CryptoLaws, !PtySerdeLaws}.

(** The screen after a session. *)
Definition screen (cap : option Z) (printed : bytes) (ended : option (option Z * option Z)) : Screen :=
  {| sc_stdout := cap_take cap printed; sc_warned := match ended with Some _ => over cap printed | None => false end;
     sc_message := None; sc_code := (λ '(code, signal), pty_exit_code code signal) <$> ended |}.
Definition output_frame (request_id : Value) (data : bytes) : Response := server_response request_id (PfOutput (b64_encode (to_text data))).
Definition end_frame (request_id : Value) (ended : option (option Z * option Z)) (truncated : bool) : list Response :=
  match ended with Some (code, signal) => [server_response request_id (PfFinished code signal truncated)] | None => [] end.
Definition arrive (rs : list Response) : list (option (Incoming Response)) := map (Some ∘ Message) rs.

Lemma render_frames request_id datas ended truncated : ∀ s,
  pty_render_loop (arrive (map (output_frame request_id) datas ++ end_frame request_id ended truncated)) s =
  match ended with
  | Some (code, signal) => finish (pty_exit_code code signal) truncated (print (concat datas) s)
  | None => print (concat datas) s
  end.
Proof.
  induction datas as [|d datas IH]; intros s; cbn.
  - destruct ended as [[code signal]|]; cbn; rewrite ?server_frame_roundtrip; destruct s; unfold print, finish; cbn; by rewrite app_nil_r.
  - rewrite server_frame_roundtrip, b64_roundtrip, String.list_ascii_of_string_of_list_ascii. unfold arrive in IH. rewrite IH.
    unfold print; cbn. rewrite <- app_assoc. by destruct ended as [[]|].
Qed.

(** *** The target's chunks *)

Lemma chunker_spec inv clock reads : ∀ l seq total, limiter_ok l →
  ∃ datas, chunker inv clock l seq total reads =
    (imap (λ i d, pty_chunk inv (clock (seq + Z.of_nat i)) d false (seq + Z.of_nat i)) datas ++
       [pty_chunk inv (clock (seq + Z.of_nat (length datas))) [] true (seq + Z.of_nat (length datas))],
     total + Z.of_nat (length (concat reads)), l.(lm_truncated) || over (budget l) (concat reads)) ∧
    concat datas = cap_take (budget l) (concat reads).
Proof.
  induction reads as [|d reads IH]; intros l seq total Hok; cbn.
  - exists []. cbn. rewrite !Z.add_0_r. split; [|by destruct (budget l); cbn; rewrite ?take_nil].
    f_equal. destruct (over (budget l) []) eqn:Ho; [|by rewrite orb_false_r]. destruct (budget l) as [m|] eqn:Hb; cbn in Ho; [|done].
    apply (budget_nonneg _ _ Hok) in Hb. apply Z.ltb_lt in Ho. lia.
  - destruct (reserve l (Z.of_nat (length d))) as [g l'] eqn:E. destruct (reserve_budget _ _ _ _ Hok E) as (Hok' & Ht & Hz & Hb & Htr).
    rewrite cap_take_app, over_app by eauto using budget_nonneg. rewrite length_app, <- Ht, <- Hb, orb_assoc, <- Htr.
    destruct (Z.ltb_spec 0 g).
    + destruct (IH l' (seq + 1) (total + Z.of_nat (length d)) Hok') as (datas & -> & Hc). exists (take (Z.to_nat g) d :: datas).
      rewrite imap_cons, concat_cons, Hc. split; [|done]. assert (∀ i, seq + 1 + Z.of_nat i = seq + Z.of_nat (S i)) as Hs by (intros; lia).
      rewrite Hs, Z.add_0_r, <- app_comm_cons. f_equal. f_equal; [|lia]. do 2 f_equal. apply imap_ext. intros i x _. by rewrite Hs.
    + destruct (IH l' seq (total + Z.of_nat (length d)) Hok') as (datas & -> & Hc). exists datas. rewrite Hc, Ht, Hz by lia.
      split; [|done]. f_equal. f_equal. lia.
Qed.

(** *** The requester's frames *)

Lemma drain_chunk inv ts d eof seq : drain_event (Some (FwStreamChunk (pty_chunk inv ts d eof seq))) = (Some (PfOutput (b64_encode (to_text d))), false).
Proof. cbn. by rewrite b64_roundtrip. Qed.
Lemma drain_chunks request_id inv clock datas events : ∀ seq : nat → Z,
  drain_remote_pty request_id None
    (map (Some ∘ FwStreamChunk) (imap (λ i d, pty_chunk inv (clock (seq i)) d false (seq i)) datas) ++ events) =
  (map (output_frame request_id) datas ++ (drain_remote_pty request_id None events).1, (drain_remote_pty request_id None events).2).
Proof.
  induction datas as [|d datas IH]; intros seq; cbn -[drain_event].
  - by destruct (drain_remote_pty _ _ events).
  - rewrite drain_chunk. cbn. specialize (IH (seq ∘ S)). unfold compose in *. cbn in IH. rewrite IH. done.
Qed.
(** The name of a signal is read back; a signal without a name is lost on the way. *)
Lemma signal_name_number n name : signal_name n = Some name → pty_signal_number name = Some n.
Proof.
  unfold signal_name. intros E. repeat (match type of E with match ?p with _ => _ end = _ => destruct p; try discriminate E end);
    injection E as <-; reflexivity.
Qed.

Definition named (signal : option Z) : Prop := ∀ n, signal = Some n → is_Some (signal_name n).
Lemma named_back signal : named signal → (signal ≫= signal_name) ≫= pty_signal_number = signal.
Proof. destruct signal as [n|]; [|done]. intros Hn. destruct (Hn n eq_refl) as [name E]. cbn. rewrite E. by apply signal_name_number. Qed.
Lemma new_limiter cap : (∀ m, cap = Some m → 0 ≤ m) →
  let l := limiter_new {| cap_max_output_bytes := cap; cap_max_events_per_second := None |} in
  limiter_ok l ∧ budget l = cap ∧ l.(lm_truncated) = false.
Proof. intros Hc. destruct cap as [m|]; cbn; [specialize (Hc m eq_refl)|by split_and!]. unfold limiter_ok, budget. cbn. rewrite Z.sub_0_r. split_and!; [lia..|done|done|done]. Qed.

(** What the requester's screen shows of a run on another agent that was not cancelled. *)
Lemma remote_screen env clock request a child cancel reads b chunks o request_id duration :
  run_controlled_pty_exec env clock request a child cancel reads b = Some (chunks, o) → named o.(po_signal) →
  let events := map (Some ∘ FwStreamChunk) chunks ++ [Some (FwExecFinished (pty_finished request.(er_invocation_id) o duration))] in
  let '(out, ended) := drain_remote_pty request_id None events in
  ended = true ∧
  pty_render_loop (arrive out) blank =
    screen (Z.of_N <$> a.(al_max_output_bytes)) (concat (until_end reads)) (Some (o.(po_exit_code), o.(po_signal))).
Proof.
  unfold run_controlled_pty_exec. destruct (controlled_wait _ _ _ _) as [[[t st] signals]|]; [|done]. destruct (ch_pipes_close child); [|done].
  set (cap := Z.of_N <$> al_max_output_bytes a). assert (∀ m, cap = Some m → 0 ≤ m) as Hc.
  { unfold cap. destruct (al_max_output_bytes a); cbn; [|done]. intros ? [= <-]. lia. }
  destruct (new_limiter cap Hc) as (Hok & Hb & Ht).
  destruct (chunker_spec (er_invocation_id request) clock (until_end reads) _ 0 0 Hok) as (datas & -> & Hd).
  intros [= <- <-] Hn. cbn zeta. rewrite Hb in Hd. rewrite map_app, <- app_assoc.
  rewrite (drain_chunks request_id (er_invocation_id request) clock datas _ (λ i, 0 + Z.of_nat i)).
  cbn -[drain_event signal_name]. rewrite drain_chunk. cbn -[signal_name]. split; [done|].
  pose proof (render_frames request_id (datas ++ [[]]) (Some (es_code st, es_signal st)) (over cap (concat (until_end reads))) blank) as Hr.
  rewrite map_app, <- app_assoc in Hr. cbn in Hr. unfold output_frame in Hr at 2. cbn in Hr.
  cbn in Hn. rewrite named_back by done. change ((λ m, m - 0) <$> cap) with (budget (limiter_new {| cap_max_output_bytes := cap; cap_max_events_per_second := None |})). rewrite Hb, Hr, concat_app, app_nil_r, Hd. done.
Qed.

(** *** A session on this host *)

Definition master_read (e : SessionEvent) : option (option bytes) := match e with MasterRead data => Some data | _ => None end.
Definition child_exit (e : SessionEvent) : option (option ExitStatus) := match e with ChildExited status => Some status | _ => None end.
Definition is_end (r : option bytes) : bool := match r with None | Some [] => true | _ => false end.
Definition printed (es : list SessionEvent) : bytes := concat (until_end (omap master_read es)).
Definition output_ended (es : list SessionEvent) : bool := existsb is_end (omap master_read es).
Definition exited (es : list SessionEvent) : option (option ExitStatus) := head (omap child_exit es).
Definition status_pair (st : option ExitStatus) : option Z * option Z :=
  match st with Some st => (st.(es_code), st.(es_signal)) | None => (None, None) end.

Lemma until_end_snoc reads x : until_end (reads ++ [x]) = until_end reads ++ (if existsb is_end reads then [] else until_end [x]).
Proof. induction reads as [|[[|c d]|] reads IH]; cbn; [done..| |done]. by rewrite IH. Qed.
Lemma spend_app cap d r : spend (spend cap d) r = spend cap (d ++ r).
Proof. destruct cap; cbn; [|done]. rewrite length_app. f_equal. lia. Qed.

Record session_inv (request_id : Value) (cap : option Z) (es : list SessionEvent) (closed : bool) (s : Loopback) : Prop := {
  si_left : s.(lb_left) = None;
  si_limiter : limiter_ok s.(lb_limiter);
  si_budget : budget s.(lb_limiter) = spend cap (printed es);
  si_truncated : s.(lb_limiter).(lm_truncated) = over cap (printed es);
  si_pump : s.(lb_pumping) = negb (output_ended es);
  si_status : s.(lb_status) = exited es;
  si_closed : s.(lb_closed) = closed;
  si_end : closed = true → s.(lb_pumping) = false ∧ is_Some s.(lb_status);
  si_sent : ∃ datas, concat datas = cap_take cap (printed es) ∧
    s.(lb_sent) = map (output_frame request_id) datas ++
      end_frame request_id (if closed then status_pair <$> exited es else None) (over cap (printed es));
}.
Lemma inv_start request_id cap : (∀ m, cap = Some m → 0 ≤ m) → session_inv request_id cap [] false (session_start cap None).
Proof.
  intros Hc. destruct (new_limiter cap Hc) as (Hok & Hb & Ht). split; try done; cbn [session_start lb_limiter].
  - rewrite Hb. destruct cap as [m|]; cbn; [|done]. specialize (Hc m eq_refl). f_equal. lia.
  - rewrite Ht. destruct cap as [m|]; cbn; [|done]. specialize (Hc m eq_refl). symmetry. apply Z.ltb_ge. lia.
  - exists []. split; [|done]. by destruct cap; cbn; rewrite ?take_nil.
Qed.

Lemma printed_snoc es e : printed (es ++ [e]) =
  printed es ++ match e with MasterRead data => if output_ended es then [] else default [] data | _ => [] end.
Proof.
  unfold printed, output_ended. rewrite omap_app. destruct e as [data| |]; cbn; rewrite ?app_nil_r; try done.
  rewrite until_end_snoc, concat_app. f_equal. destruct (existsb _ _); [done|]. by destruct data as [[|c d]|]; cbn; rewrite ?app_nil_r.
Qed.
Lemma output_ended_snoc es e : output_ended (es ++ [e]) = output_ended es || match e with MasterRead data => is_end data | _ => false end.
Proof. unfold output_ended. rewrite omap_app, existsb_app. by destruct e; cbn; rewrite ?orb_false_r. Qed.
Lemma exited_snoc es e : exited (es ++ [e]) = opt_or (exited es) (child_exit e).
Proof. unfold exited. rewrite omap_app, head_app. destruct (head (omap child_exit es)); [done|]. by destruct e. Qed.

(** What is unchanged by an event that prints nothing and ends nothing. *)
Lemma inv_same request_id cap es e closed s s' :
  session_inv request_id cap es closed s → printed (es ++ [e]) = printed es → output_ended (es ++ [e]) = output_ended es →
  exited (es ++ [e]) = exited es → s'.(lb_left) = s.(lb_left) → s'.(lb_limiter) = s.(lb_limiter) → s'.(lb_pumping) = s.(lb_pumping) →
  s'.(lb_status) = s.(lb_status) → s'.(lb_closed) = s.(lb_closed) → s'.(lb_sent) = s.(lb_sent) → session_inv request_id cap (es ++ [e]) closed s'.
Proof. intros [] Hp Ho Hx El Em Ep Es Ec Et. by split; rewrite ?Hp, ?Ho, ?Hx, ?El, ?Em, ?Ep, ?Es, ?Ec, ?Et. Qed.
Lemma inv_pump request_id cap es data closed s : (∀ m, cap = Some m → 0 ≤ m) →
  session_inv request_id cap es closed s → session_inv request_id cap (es ++ [MasterRead data]) closed (pump_step request_id data s).
Proof.
  intros Hc Hi. pose proof Hi as [Hl Hm Hb Ht Hp Hst Hcl He (datas & Hd & Hs)]. unfold pump_step. destruct (lb_pumping s) eqn:Ep.
  2:{ apply (inv_same _ _ _ _ _ s); rewrite ?printed_snoc, ?output_ended_snoc, ?exited_snoc; try done.
      - symmetry in Hp. apply negb_false_iff in Hp. by rewrite Hp, app_nil_r.
      - symmetry in Hp. apply negb_false_iff in Hp. by rewrite Hp.
      - by destruct (exited es). }
  assert (output_ended es = false) as Ho by (by destruct (output_ended es)).
  assert (closed = false) as -> by (destruct closed; [by destruct (He eq_refl)|done]).
  assert (∀ d, exited (es ++ [MasterRead d]) = exited es) as Hx by (intros d; rewrite exited_snoc; by destruct (exited es)).
  destruct data as [[|c d]|]; try (split; cbn; rewrite ?printed_snoc, ?output_ended_snoc, ?Hx, ?Ho, ?app_nil_r; cbn; rewrite ?app_nil_r; done || by exists datas).
  set (data := c :: d) in *. destruct (reserve _ _) as [g l'] eqn:E. destruct (reserve_budget _ _ _ _ Hm E) as (Hok & Htk & Hz & Hb' & Htr).
  assert (printed (es ++ [MasterRead (Some data)]) = printed es ++ data) as Hpr by (by rewrite printed_snoc, Ho).
  assert (cap_take cap (printed es ++ data) = cap_take cap (printed es) ++ take (Z.to_nat g) data) as Hct by (by rewrite cap_take_app, Htk, Hb).
  assert (lm_truncated l' = over cap (printed es ++ data)) as Htr' by (by rewrite Htr, Ht, over_app, Hb).
  assert (budget l' = spend cap (printed es ++ data)) as Hbu by (by rewrite Hb', Hb, spend_app).
  unfold write_server_frame. cbn [with_limiter lb_left]. rewrite Hl.
  destruct (Z.ltb_spec 0 g); cbn; split; cbn; rewrite ?Hpr, ?Hx, ?output_ended_snoc, ?Ho; try done.
  - exists (datas ++ [take (Z.to_nat g) data]). rewrite concat_app, Hd, Hct, Hs, map_app. cbn. by rewrite !app_nil_r.
  - exists datas. rewrite Hd, Hct, Htk, Hz, app_nil_r, Hs by lia. done.
Qed.
Lemma inv_settle request_id cap es closed s :
  session_inv request_id cap es closed s → session_inv request_id cap es (bool_decide (is_Some (exited es)) && output_ended es) (settle request_id s).
Proof.
  intros [Hl Hm Hb Ht Hp Hst Hcl He (datas & Hd & Hs)]. unfold settle. rewrite Hst, Hp, Hcl. destruct (exited es) as [st|] eqn:Ex; cbn.
  2:{ destruct closed; [destruct (He eq_refl) as [_ [? ?]]; congruence|]. split; rewrite ?Ex; try done. by exists datas. }
  destruct (output_ended es) eqn:Eo; cbn.
  - destruct closed; cbn.
    { split; rewrite ?Ex, ?Eo; try done. by exists datas. }
    unfold write_server_frame. rewrite Hl. destruct st as [st|]; cbn; (split; cbn; rewrite ?Ex, ?Eo, ?Hp, ?Hst; try done; try (by split));
      exists datas; rewrite Hs, app_nil_r, Ht; done.
  - destruct closed; [destruct (He eq_refl) as [Hq _]; by rewrite Hp in Hq|]. split; rewrite ?Ex, ?Eo; try done. by exists datas.
Qed.
Lemma inv_step request_id cap es e s : (∀ m, cap = Some m → 0 ≤ m) →
  session_inv request_id cap es (bool_decide (is_Some (exited es)) && output_ended es) s →
  session_inv request_id cap (es ++ [e]) (bool_decide (is_Some (exited (es ++ [e]))) && output_ended (es ++ [e])) (session_step request_id e s).
Proof.
  intros Hc Hi. apply (inv_settle _ _ _ (bool_decide (is_Some (exited es)) && output_ended es)). destruct e as [data|frame written|st].
  - by apply inv_pump.
  - apply (inv_same _ _ _ _ _ s); rewrite ?printed_snoc, ?output_ended_snoc, ?exited_snoc, ?app_nil_r, ?orb_false_r; try done; try by destruct (exited es).
    all: unfold listen_step, apply_client_frame; destruct (lb_listening s); [|done]; destruct frame as [[r|]|]; try done;
      destruct (client_frame r) as [[]|]; try done; by destruct written.
  - pose proof Hi as [Hl Hm Hb Ht Hp Hst Hcl He (datas & Hd & Hs)]. rewrite Hst. destruct (exited es) as [st'|] eqn:Ex.
    + apply (inv_same _ _ _ _ _ s); rewrite ?printed_snoc, ?output_ended_snoc, ?exited_snoc, ?Ex, ?app_nil_r, ?orb_false_r; done.
    + cbn in *. split; cbn; rewrite ?printed_snoc, ?output_ended_snoc, ?exited_snoc, ?Ex, ?app_nil_r, ?orb_false_r; try done. by exists datas.
Qed.
Lemma session_inv_run request_id cap es : (∀ m, cap = Some m → 0 ≤ m) →
  session_inv request_id cap es (bool_decide (is_Some (exited es)) && output_ended es) (session_run request_id es (session_start cap None)).
Proof.
  intros Hc. induction es as [|e es IH] using rev_ind; [by apply inv_start|]. unfold session_run. rewrite foldl_snoc. by apply inv_step.
Qed.

(** C14: a terminal session on a connection whose writes do not fail is exact.  However its
    threads interleave, a session on this host ends exactly when the program has exited and
    its output has been read to the end; the client has then printed the program's output up
    to the byte cap, in order, has warned exactly when more was printed, and exits with the
    code that the program's status gives (its own, or 128 plus the signal).  A run on another
    agent with the same cap, the same output and the same status, whose chunks all arrive,
    in order and before the end frame, and whose signal, if one ended it, has a name on
    the wire, leaves the requester with the very same screen. *)
Theorem terminal_paths_agree request_id cap es : (∀ m, cap = Some m → 0 ≤ m) →
  let s := session_run request_id es (session_start cap None) in
  let local := pty_render_loop (arrive s.(lb_sent)) blank in
  s.(lb_closed) = bool_decide (is_Some (exited es)) && output_ended es ∧
  local = screen cap (printed es) (if s.(lb_closed) then status_pair <$> exited es else None) ∧
  ∀ env clock request a child cancel reads b chunks o request_id' duration,
    run_controlled_pty_exec env clock request a child cancel reads b = Some (chunks, o) →
    cap = Z.of_N <$> a.(al_max_output_bytes) → concat (until_end reads) = printed es → output_ended es = true →
    status_pair <$> exited es = Some (o.(po_exit_code), o.(po_signal)) → named o.(po_signal) →
    let '(out, ended) := drain_remote_pty request_id' None
      (map (Some ∘ FwStreamChunk) chunks ++ [Some (FwExecFinished (pty_finished request.(er_invocation_id) o duration))]) in
    ended = true ∧ pty_render_loop (arrive out) blank = local.
Proof.
  intros Hc. cbn zeta. destruct (session_inv_run request_id cap es Hc) as [_ _ _ _ _ _ Hcl _ (datas & Hd & Hs)].
  assert (pty_render_loop (arrive (lb_sent (session_run request_id es (session_start cap None)))) blank =
    screen cap (printed es) (if lb_closed (session_run request_id es (session_start cap None)) then status_pair <$> exited es else None)) as Hloc.
  { rewrite Hs, render_frames, Hcl, Hd. destruct (_ && _); [|done]. destruct (exited es) as [st|]; [|done]. cbn. by destruct (status_pair st). }
  split_and!; [done|done|]. intros env clock request a child cancel reads b chunks o rid' dur Hr -> Hp Ho Hst Hn.
  pose proof (remote_screen _ _ _ _ _ _ _ _ _ _ rid' dur Hr Hn) as Hrs. cbn zeta in Hrs. destruct (drain_remote_pty _ _ _) as [out ended].
  destruct Hrs as [-> ->]. split; [done|]. rewrite Hloc, Hp, Hcl, Ho, Hst. destruct (exited es); [done|]. done.
Qed.

(** ** What the program gets *)

Definition client_read (e : SessionEvent) : option (option (Incoming Request) * bool) :=
  match e with ClientRead frame written => Some (frame, written) | _ => None end.
(** The inputs that reach the terminal. *)
Fixpoint heard (reads : list (option (Incoming Request) * bool)) : list Input :=
  match reads with
  | [] | (None, _) :: _ => []
  | (Some Garbled, _) :: reads => heard reads
  | (Some (Message request), written) :: reads =>
    match client_frame request with
    | Some (Typed data) => if written then Typed data :: heard reads else []
    | Some i => i :: heard reads
    | None => heard reads
    end
  end.
Lemma settle_input request_id s : (settle request_id s).(lb_master) = s.(lb_master) ∧ (settle request_id s).(lb_listening) = s.(lb_listening).
Proof.
  unfold settle, write_server_frame. destruct (lb_status s) as [st|]; [|done]. destruct (_ || _); [done|].
  destruct st as [st|]; destruct (lb_left s) as [[]|]; done.
Qed.
Lemma pump_input request_id data s : (pump_step request_id data s).(lb_master) = s.(lb_master) ∧ (pump_step request_id data s).(lb_listening) = s.(lb_listening).
Proof.
  unfold pump_step, write_server_frame. destruct (lb_pumping s); [|done]. destruct data as [[|c d]|]; [done| |done].
  destruct (reserve _ _) as [g l]. destruct (0 <? g); [|done]. cbn. by destruct (lb_left s) as [[]|].
Qed.
Lemma session_master request_id es : ∀ s,
  (session_run request_id es s).(lb_master) = s.(lb_master) ++ if s.(lb_listening) then heard (omap client_read es) else [].
Proof.
  induction es as [|e es IH]; intros s; [by destruct (lb_listening s); rewrite app_nil_r|]. unfold session_run. cbn [foldl].
  fold (session_run request_id es (session_step request_id e s)). rewrite IH. unfold session_step.
  match goal with |- context [settle request_id ?x] => destruct (settle_input request_id x) as [-> ->] end. destruct e as [data|frame written|st]; cbn.
  - destruct (pump_input request_id data s) as [-> ->]. done.
  - unfold listen_step, apply_client_frame. destruct (lb_listening s) eqn:El; [|by rewrite El].
    destruct frame as [[r|]|]; cbn; [|by rewrite El|by rewrite app_nil_r].
    destruct (client_frame r) as [[d|w]|]; [destruct written| |]; cbn; rewrite ?El, <- ?app_assoc, ?app_nil_r; done.
  - destruct (lb_status s); done.
Qed.
Lemma client_frame_request i : client_frame (client_request i) = Some i.
Proof.
  destruct i; unfold client_frame; cbn.
  - by rewrite stdin_roundtrip; cbn; rewrite b64_roundtrip; cbn; rewrite String.list_ascii_of_string_of_list_ascii.
  - by rewrite resize_roundtrip.
Qed.
Definition wire (i : Input) : option (Incoming Request) := Some (Message (client_request i)).
Lemma heard_all inputs : heard (map (λ i, (wire i, true)) inputs) = inputs.
Proof. induction inputs as [|i inputs IH]; [done|]. cbn -[client_frame]. rewrite client_frame_request, IH. by destruct i. Qed.

(** The frame a signed event decodes to. *)
Definition control_frame (sk : SigningKey) (invocation_id : string) (fresh : string * string) (i : Input) (s : Signature) : ControlFrame :=
  match i with
  | Typed data =>
    FStdin {| es_invocation_id := invocation_id; es_data := b64_encode (to_text data); es_eof := false; es_created_at := fresh.1;
              es_nonce := fresh.2; es_signature := s; es_extra := ∅ |}
  | Resized size =>
    FResize {| pr_invocation_id := invocation_id; pr_rows := size.(pw_rows); pr_cols := size.(pw_cols);
               pr_pixel_width := size.(pw_pixel_width); pr_pixel_height := size.(pw_pixel_height); pr_created_at := fresh.1;
               pr_nonce := fresh.2; pr_signature := s; pr_extra := ∅ |}
  end.
Definition event_type (i : Input) : string := match i with Typed _ => EXEC_STDIN | Resized _ => PTY_RESIZE end.
Lemma control_event_signed sk inv fresh i :
  ∃ s, s.(sig_key_id) = key_id_of sk ∧ control_event sk inv fresh i = (event_type i, frame_content (control_frame sk inv fresh i s)) ∧
    verify (verifying_key sk) (frame_content (control_frame sk inv fresh i s)) = Ok tt.
Proof.
  set (v := frame_content (control_frame sk inv fresh i (placeholder_signature (key_id_of sk)))).
  assert (is_ok (sign_into sk (key_id_of sk) v) = true) as Hok.
  { apply sign_into_is_ok. unfold v. destruct i; (eexists; split; [reflexivity|]; intros f x Hx _; simpl in Hx;
      repeat (apply elem_of_cons in Hx as [[= -> ->]|Hx]); try done; by apply not_elem_of_nil in Hx). }
  unfold sign_into, sign in Hok. destruct (signing_bytes v) as [b|] eqn:Hb; [|done].
  exists {| sig_alg := ALG_ED25519; sig_key_id := key_id_of sk; sig_sig := b64_encode (sig_to_bytes (ed_sign sk b)) |}. split; [done|].
  assert (sign_into sk (key_id_of sk) v = Ok (frame_content (control_frame sk inv fresh i
    {| sig_alg := ALG_ED25519; sig_key_id := key_id_of sk; sig_sig := b64_encode (sig_to_bytes (ed_sign sk b)) |}))) as Hs.
  { unfold sign_into, sign. rewrite Hb. by destruct i. }
  split; [|by apply sign_into_verify in Hs as [? _]]. destruct fresh as [at_ nonce], i; cbn -[sign_into];
    unfold build_signed_exec_stdin, build_signed_pty_resize; cbn -[sign_into] in Hs; unfold v in Hs; cbn -[sign_into] in Hs; by rewrite Hs.
Qed.

(** A target that has the requester's published key and trusts it. *)
Record admits (env : LiveEnv) (who : string) (sk : SigningKey) : Prop := {
  ad_room : env.(en_room_available) = true;
  ad_agent : ∃ agents requester, env.(en_all_agents) = Some agents ∧ List.find (λ a, a.(as_agent_id) =s who) agents = Some requester ∧
    requester.(as_signing_key_id) = key_id_of sk ∧ requester.(as_signing_public_key) = Some (encode_verifying_key (verifying_key sk));
  ad_trust : is_key_trusted (default [] env.(en_auth).(au_trust)) (key_id_of sk) = true;
}.
Lemma admitted env who sk inv fresh i s :
  admits env who sk → s.(sig_key_id) = key_id_of sk → verify (verifying_key sk) (frame_content (control_frame sk inv fresh i s)) = Ok tt →
  frame_authorized who (env, control_frame sk inv fresh i s).
Proof.
  intros [Hr (agents & requester & Ha & Hf & Hk & Hpk) Ht] Hs Hv. split; [done|]. cbn [fst snd]. unfold authorize_live_control.
  rewrite Ha. unfold authorize_control_from_states. rewrite Hf.
  assert (frame_key_id (control_frame sk inv fresh i s) = key_id_of sk) as -> by (by destruct i).
  rewrite Hk, str_eqb_refl. cbn [negb]. rewrite (proj2 (agent_verifying_key_Ok requester (verifying_key sk))).
  - by rewrite Hv, Ht.
  - eexists. split_and!; [done|apply decode_encode_verifying_key|done].
Qed.

Section target.
Context `{RequestSerde, !RequestSerdeLaws} (regex_new : RegexNew) {C : Type} `{!NonceGuard C}.
Implicit Types st : @LiveState C.

(** Frames with new nonces that pass the gates all reach the session, in order. *)
Lemma all_received inv who fs : ∀ st c, st.(ls_controls) !! inv = Some c → c.(lc_requester_agent) = who →
  Forall (λ ef, frame_session ef.2 = inv ∧ frame_authorized who ef) fs → NoDup (map (frame_nonce ∘ snd) fs) →
  (∀ ef, ef ∈ fs → frame_nonce ef.2 ∉ c.(lc_seen_control_nonces)) →
  ∃ c', (live_run regex_new (map (λ ef, (ef.1, frame_event ef.2)) fs) st).(ls_controls) !! inv = Some c' ∧ received c c' (map snd fs).
Proof.
  induction fs as [|[env f] fs IH]; intros st c Hc Hw Hall Hnd Hnew.
  { exists c. split; [done|exact (received_refl regex_new c)]. }
  apply Forall_cons in Hall as [[Hses Hau] Hall]. cbn in Hnd. apply NoDup_cons in Hnd as [Hn Hnd]. cbn in Hses, Hn.
  destruct (frame_step regex_new env f st inv c Hc) as (c1 & acc & Hc1 & Hr1 & _ & Hl). rewrite Hw in Hl.
  destruct (Hl Hses Hau) as [Hbad| ->]; [by destruct (Hnew (env, f) (list_elem_of_here _ _))|].
  destruct (IH _ c1 Hc1) as (c' & Hc' & Hr'); try done.
  - by rewrite (rc_owner _ _ _ Hr1).
  - intros ef Hin. rewrite (rc_seen _ _ _ Hr1). intros [Hs|Hs].
    + by destruct (Hnew ef (list_elem_of_further _ _ _ Hin)).
    + cbn in Hs. apply list_elem_of_singleton in Hs. apply Hn. rewrite <- Hs. by apply (list_elem_of_fmap_2 (frame_nonce ∘ snd)).
  - exists c'. split; [done|]. exact (received_trans regex_new _ _ _ [f] _ Hr1 Hr').
Qed.

Definition keys_of (inputs : list Input) : bytes := concat (omap (λ i, match i with Typed d => Some d | _ => None end) inputs).
Definition sizes_of (inputs : list Input) : list PtyWinsize := omap (λ i, match i with Resized w => Some w | _ => None end) inputs.
Definition frame_for (sk : SigningKey) (inv : string) (i : Input) (f : ControlFrame) : Prop := ∃ fresh s, f = control_frame sk inv fresh i s.
Lemma stdin_frames_of sk inv inputs frames : Forall2 (frame_for sk inv) inputs frames → stdin_thread (concat (map stdin_of frames)) = keys_of inputs.
Proof.
  induction 1 as [|[d|w] f inputs frames [fr [s ->]] _ IH]; cbn; [done| |exact IH]. unfold stdin_frames. cbn. rewrite b64_roundtrip.
  destruct (to_text d =s "") eqn:E; cbn; rewrite ?app_nil_r.
  - apply str_eqb_eq in E. destruct d; [|done]. cbn. exact IH.
  - rewrite String.list_ascii_of_string_of_list_ascii. unfold keys_of in *. cbn. by f_equal.
Qed.
Lemma resize_frames_of sk inv inputs frames : Forall2 (frame_for sk inv) inputs frames → concat (map resize_of frames) = sizes_of inputs.
Proof.
  induction 1 as [|[d|w] f inputs frames [fr [s ->]] _ IH]; cbn; [done|exact IH|]. unfold sizes_of in *. cbn. f_equal; [by destruct w|exact IH].
Qed.
(** The events of the requester and the frames the target decodes from them. *)
Lemma events_frames sk inv fresh inputs : ∀ n,
  ∃ frames, Forall2 (frame_for sk inv) inputs frames ∧
    imap (λ k i, control_event sk inv (fresh (n + k)%nat) i) inputs = zip_with (λ i f, (event_type i, frame_content f)) inputs frames ∧
    map frame_nonce frames = map (λ k, (fresh (n + k)%nat).2) (seq 0 (length inputs)) ∧
    ∀ who env f, admits env who sk → f ∈ frames → frame_session f = inv ∧ frame_authorized who (env, f).
Proof.
  induction inputs as [|i inputs IH]; intros n; [exists []; split_and!; [constructor|done|done|by intros ? ? ? _ ?%not_elem_of_nil]|].
  destruct (IH (S n)) as (frames & Hf & He & Hn & Ha). destruct (control_event_signed sk inv (fresh n) i) as (s & Hk & Hs & Hv).
  exists (control_frame sk inv (fresh n) i s :: frames). split_and!.
  - constructor; [by exists (fresh n), s|done].
  - rewrite imap_cons. cbn [zip_with]. rewrite Nat.add_0_r, Hs, <- He. f_equal. apply imap_ext. intros k x _. cbn. by rewrite Nat.add_succ_r.
  - cbn [map length seq]. rewrite Nat.add_0_r, Hn, <- seq_shift, map_map. f_equal; [by destruct i|]. apply map_ext. intros k. by rewrite Nat.add_succ_r.
  - intros who env f Had [->|Hin]%elem_of_cons; [|by apply Ha]. split; [by destruct i|]. by apply admitted.
Qed.
End target.

Section requester.
Context {W : Type} `{MatrixServer W} (parse_id : string → option RoomOrAliasId).
Context (sdk_agent_states : string → st W SdkError (list (StateEvent AgentState)))
        (sdk_agent_state : string → string → st W SdkError (option (StateEvent AgentState)))
        (sdk_send : string → string → Value → st W SdkError unit).
Context (show_error : WorkspaceError → string) (show_sdk : SdkError → string) (debug : string → string).

(** Every key and every resize is sent, in the order typed. *)
Lemma forward_log room_id sk inv fresh inputs : (∀ room ty v w, is_ok (sdk_send room ty v w).1 = true) → ∀ n s,
  (forward_client_frames_to_matrix sdk_send show_sdk room_id sk inv fresh n (map wire inputs) s).(rq_sent) =
  s.(rq_sent) ++ imap (λ k i, control_event sk inv (fresh (n + k)%nat) i) inputs.
Proof.
  intros Hsend. induction inputs as [|i inputs IH]; intros n s; [by rewrite app_nil_r|].
  cbn [map wire forward_client_frames_to_matrix]. rewrite client_frame_request.
  destruct (control_event sk inv (fresh n) i) as [ty v] eqn:E. rewrite IH. unfold send_raw. specialize (Hsend room_id ty v s.(rq_world)).
  destruct (sdk_send _ _ _ _) as [[[]|e] w]; [|done]. cbn [snd rq_sent]. rewrite imap_cons, Nat.add_0_r, E, <- app_assoc. do 2 f_equal.
  apply imap_ext. intros k x _. cbn. by rewrite Nat.add_succ_r.
Qed.

(** A session that could not be set up has sent nothing; one that could has sent the signed
    request for this command with a terminal, then the window's size unless that send
    failed. *)
Lemma setup_log f resize params inv rid s :
  let '(r, s') := setup_remote_pty parse_id sdk_agent_states sdk_agent_state sdk_send show_error show_sdk debug f resize params inv rid s in
  match r with
  | Err _ => s'.(rq_sent) = s.(rq_sent)
  | Ok ctx =>
    ∃ agent requester content sig size, params.(pt_agent) = Some agent ∧ f.(fr_signing) = Ok ctx.(rp_signing_key) ∧
      verify (verifying_key ctx.(rp_signing_key)) content = Ok tt ∧
      content = ExecRequest_value (exec_request_of (key_id_of ctx.(rp_signing_key)) inv rid f.(fr_nonce) f.(fr_created_at) f.(fr_expires_at)
                                    (pty_request_options params agent requester) sig) ∧
      size = control_event ctx.(rp_signing_key) inv resize (Resized (winsize_new params.(pt_rows) params.(pt_cols))) ∧
      s'.(rq_sent) `prefix_of` s.(rq_sent) ++ [(EXEC_REQUEST, content); size] ∧
      s.(rq_sent) ++ [(EXEC_REQUEST, content)] `prefix_of` s'.(rq_sent)
  end.
Proof.
  unfold setup_remote_pty. unfold Prelude.bind at 1. destruct (pt_room params) as [target|]; [|done]. cbn [or_fail ret].
  unfold Prelude.bind at 1. destruct (pt_agent params) as [agent|]; [|done]. cbn [or_fail ret]. unfold Prelude.bind at 1.
  pose proof (quiet_prepare parse_id sdk_agent_states sdk_agent_state show_error show_sdk debug f target agent s) as Hq.
  pose proof (prepare_key parse_id sdk_agent_states sdk_agent_state show_error show_sdk debug f target agent s) as Hkey.
  destruct (prepare _ _ _ _ _ _ f target agent s) as [[p|e] s1]; cbn [fst snd] in Hq; [|exact Hq]. specialize (Hkey p s1 eq_refl).
  unfold Prelude.bind at 1, build_request.
  destruct (build_signed_exec_request_Ok p.(pp_signing) (key_id_of p.(pp_signing)) inv rid f.(fr_nonce) f.(fr_created_at)
    f.(fr_expires_at) (pty_request_options params agent p.(pp_requester).(as_agent_id))) as (sig & Hk & -> & Hv).
  set (content := ExecRequest_value _) in *. unfold Prelude.bind at 1, subscribe_to. destruct (subscribe _ _ _) as [sub reg]. set (s2 := {| rq_world := _ |}).
  unfold Prelude.bind at 1, or_drop. pose proof (send_raw_log sdk_send show_sdk p.(pp_room_id) EXEC_REQUEST content s2) as Hl.
  destruct (send_raw sdk_send show_sdk _ EXEC_REQUEST content s2) as [[[]|e] s3]; cbn [fst snd] in Hl.
  2:{ cbn [unsubscribe rq_sent]. by rewrite Hl, app_nil_r. }
  destruct (control_event _ inv resize _) as [ty size] eqn:Ec. unfold Prelude.bind, ret. cbn [rp_signing_key].
  exists agent, p.(pp_requester).(as_agent_id), content, sig, (ty, size). split_and!; try done.
  all: rewrite (send_raw_log sdk_send show_sdk), Hl; cbn [s2 rq_sent]; rewrite Hq.
  - rewrite <- app_assoc. apply prefix_app. cbn. destruct (fst _); [done|]. by exists [(ty, size)].
  - apply prefix_app_r. done.
Qed.

(** What is typed is what the program gets, on both paths.  A session on this host does
    to the terminal exactly what the client sent, in order, however its threads interleave.
    On another agent, every key and every resize leaves as one signed event, in order; and a
    target that has and trusts the requester's key, and sees the events in order with new
    nonces, writes exactly these keys to the terminal and sets exactly these sizes. *)
Theorem keystrokes_exact `{RequestSerde, !RequestSerdeLaws} (regex_new : RegexNew) {C : Type} `{!NonceGuard C} request_id cap left inputs
    room_id sk inv (fresh : nat → string * string) :
  (∀ es, omap client_read es = map (λ i, (wire i, true)) inputs →
     (session_run request_id es (session_start cap left)).(lb_master) = inputs) ∧
  ∃ frames, Forall2 (frame_for sk inv) inputs frames ∧
    ((∀ room ty v w, is_ok (sdk_send room ty v w).1 = true) → ∀ s,
       (forward_client_frames_to_matrix sdk_send show_sdk room_id sk inv fresh 0 (map wire inputs) s).(rq_sent) =
       s.(rq_sent) ++ zip_with (λ i f, (event_type i, frame_content f)) inputs frames) ∧
    ∀ env (st : @LiveState C) c, admits env c.(lc_requester_agent) sk → st.(ls_controls) !! inv = Some c →
      c.(lc_stdin) = [] → c.(lc_resize) = Some [] → NoDup (map (λ k, (fresh k).2) (seq 0 (length inputs))) →
      (∀ k, (k < length inputs)%nat → (fresh k).2 ∉ c.(lc_seen_control_nonces)) →
      ∃ c', (live_run regex_new (map (λ f, (env, frame_event f)) frames) st).(ls_controls) !! inv = Some c' ∧
        stdin_thread c'.(lc_stdin) = keys_of inputs ∧ c'.(lc_resize) = Some (sizes_of inputs).
Proof.
  split; [intros es He; by rewrite session_master, He, heard_all|].
  destruct (events_frames sk inv fresh inputs 0) as (frames & Hf & He & Hn & Ha). exists frames. split_and!; [done| |].
  { intros Hs s. rewrite forward_log by done. by rewrite <- He. }
  intros env st c Had Hc Hi Hr Hnd Hnew.
  destruct (all_received regex_new inv (lc_requester_agent c) (map (pair env) frames) st c Hc eq_refl) as (c' & Hc' & Hrec).
  - apply Forall_forall. intros ef (f & -> & Hin)%list_elem_of_fmap. by apply Ha.
  - rewrite map_map. cbn. rewrite (map_ext _ frame_nonce) by done. by rewrite Hn.
  - intros ef (f & -> & Hin)%list_elem_of_fmap. cbn. assert (frame_nonce f ∈ map frame_nonce frames) as Hm by (by apply (list_elem_of_fmap_2 frame_nonce)).
    rewrite Hn in Hm. apply list_elem_of_fmap in Hm as (k & -> & Hk%elem_of_seq). apply Hnew. lia.
  - exists c'. rewrite map_map in Hc'. split; [exact Hc'|]. rewrite map_map, map_id in Hrec. destruct Hrec as [_ Hs _ Hz _].
    rewrite Hs, Hz, Hi, Hr. cbn. split; [by eapply stdin_frames_of|]. f_equal. by eapply resize_frames_of.
Qed.
End requester.
End correct.

(** ** Where a session falls short *)

(** A program killed by a signal that has no name on the wire: 128 plus the signal on this
    host, the code of a failed protocol from another agent. *)
Lemma unnamed_signal_lost :
  pty_exit_code None (Some 10) = 138 ∧ pty_exit_code None ((Some 10 ≫= signal_name) ≫= pty_signal_number) = EXIT_PROTOCOL_FAILURE.
Proof. by split. Qed.
(** The requester looks at neither the numbers nor the digests of the chunks: whichever of
    them arrive, in whatever order, the session ends with the program's code and no warning
    but the target's own. *)
Lemma lost_chunks_unnoticed `{!CryptoLaws, !PtySerdeLaws} request_id inv clock (seq : nat → Z) arrived f :
  pty_render_loop (arrive (drain_remote_pty request_id None
    (map (Some ∘ FwStreamChunk) (imap (λ i d, pty_chunk inv (clock (seq i)) d false (seq i)) arrived) ++ [Some (FwExecFinished f)])).1) blank =
  finish (pty_exit_code f.(ef_exit_code) (f.(ef_signal) ≫= pty_signal_number)) f.(ef_truncated) (print (concat arrived) blank).
Proof.
  rewrite drain_chunks. exact (render_frames request_id arrived (Some (ef_exit_code f, ef_signal f ≫= pty_signal_number)) f.(ef_truncated) blank).
Qed.
(** A client that is gone: the first output it does not take ends the pump, so nobody reads
    the terminal any more, and the session stays until the program exits by itself. *)
Lemma abandoned_terminal request_id cap c data es : cap ≠ Some 0 → (∀ m, cap = Some m → 0 ≤ m) → exited es = None →
  let s := session_run request_id (MasterRead (Some (c :: data)) :: es) (session_start cap (Some O)) in
  s.(lb_pumping) = false ∧ s.(lb_closed) = false.
Proof.
  intros Hn Hc. cbn zeta. unfold session_run. cbn [foldl]. set (s0 := session_step _ _ _).
  assert (s0.(lb_pumping) = false ∧ s0.(lb_closed) = false ∧ s0.(lb_status) = None) as Hst0.
  { unfold s0, session_step, pump_step, session_start. cbn -[reserve]. destruct (reserve _ _) as [g l] eqn:E.
    assert (0 < g) as Hg.
    { destruct cap as [m|]; cbn in E; injection E as <- _; [|lia]. specialize (Hc m eq_refl). unfold saturating_sub. destruct (decide (m = 0)); [by subst|lia]. }
    apply Z.ltb_lt in Hg. by rewrite Hg. }
  clearbody s0. revert s0 Hst0. induction es as [|e es IH]; intros s0 (Hp & Hcl & Hs) Hx; [done|]. cbn [foldl]. apply IH.
  - destruct e as [d|frame written|st]; [| |done]; unfold session_step.
    + unfold pump_step. rewrite Hp. unfold settle. by rewrite Hs.
    + assert ((listen_step frame written s0).(lb_pumping) = false ∧ (listen_step frame written s0).(lb_closed) = false ∧
        (listen_step frame written s0).(lb_status) = None) as (Ha & Hb & Hd).
      { unfold listen_step, apply_client_frame. destruct (lb_listening s0); [|done]. destruct frame as [[r|]|]; try done.
        destruct (client_frame r) as [[]|]; try done. by destruct written. }
      unfold settle. by rewrite Hd.
  - by destruct e.
Qed.
End terminal.

(** ** A small session *)

Module TerminalExample.
#[local] Existing Instance Signing.Toy.toy_crypto.
#[local] Existing Instance Signing.Toy.toy_laws.
#[local] Existing Instance Workspace.Toy.server.
#[local] Existing Instance derived_serde.
#[local] Existing Instance derived_serde_laws.
#[local] Existing Instance Approval.sample_guard.
Definition int_opt (o : option Z) : Value := match o with Some n => Num (NumInt n) | None => Null end.
Definition opt_int (v : Value) : option (option Z) := match v with Num (NumInt n) => Some (Some n) | Null => Some None | _ => None end.
#[local] Instance derived : PtySerde := {|
  server_frame_value f :=
    match f with
    | PfOutput data => Object [("event", Str "output"); ("data", Str data)]
    | PfFinished code signal truncated =>
      Object [("event", Str "finished"); ("exit_code", int_opt code); ("signal", int_opt signal); ("truncated", Bool truncated)]
    | PfError message => Object [("event", Str "error"); ("message", Str message)]
    end;
  server_frame_from_value v :=
    match v with
    | Object [(_, Str "output"); (_, Str data)] => Some (PfOutput data)
    | Object [(_, Str "finished"); (_, code); (_, signal); (_, Bool truncated)] =>
      code ← opt_int code; signal ← opt_int signal; Some (PfFinished code signal truncated)
    | Object [(_, Str "error"); (_, Str message)] => Some (PfError message)
    | _ => None
    end;
  stdin_value s := Object [("data", Str s)];
  stdin_from_value v := match v with Object [(_, Str s)] => Some s | _ => None end;
  resize_value w := Array (map (Num ∘ NumInt) [w.(pw_rows); w.(pw_cols); w.(pw_pixel_width); w.(pw_pixel_height)]);
  resize_from_value v :=
    match v with
    | Array [Num (NumInt r); Num (NumInt c); Num (NumInt x); Num (NumInt y)] =>
      Some {| pw_rows := r; pw_cols := c; pw_pixel_width := x; pw_pixel_height := y |}
    | _ => None
    end |}.
#[local] Instance derived_laws : PtySerdeLaws.
Proof. split; [intros [|[] []|]; reflexivity|done|by intros []]. Qed.
Definition es : list SessionEvent :=
  [MasterRead (Some ["h"; "i"; "!"]%char); ClientRead (wire (Typed ["q"]%char)) true; ChildExited (Some (mkStatus None (Some 2)));
   ClientRead (wire (Resized (winsize_new 40 100))) true; MasterRead None].
Definition inputs : list Input := [Typed ["q"]%char; Resized (winsize_new 40 100)].
Definition child : Child := mkChild (StdinTaken 0) (Some (5%N, mkStatus None (Some 2))) None (10%N, mkStatus None (Some 9)) (Some 0%N) [] [].
Definition remote : option (list StreamChunk * PtyExecOutcome) :=
  run_controlled_pty_exec Runner.Sample.env (λ _, "t") LiveCorrect.Sample.request Allowance_default child None
    [Some ["h"]%char; Some ["i"; "!"]%char; None] BrExited.
Lemma terminal_paths_agree_witness :
  pty_render_loop (arrive (session_run Null es (session_start (Some 2) None)).(lb_sent)) blank =
    {| sc_stdout := ["h"; "i"]%char; sc_warned := true; sc_message := None; sc_code := Some 130 |} ∧
  ∃ chunks o, remote = Some (chunks, o) ∧
    pty_render_loop (arrive (drain_remote_pty Null None
      (map (Some ∘ FwStreamChunk) chunks ++ [Some (FwExecFinished (pty_finished "inv" o 7))])).1) blank =
    pty_render_loop (arrive (session_run Null es (session_start None None)).(lb_sent)) blank.
Proof.
  split.
  - destruct (terminal_paths_agree Null (Some 2) es) as (Hc & Hs & _); [by intros m [= <-]|]. rewrite Hs, Hc. vm_compute. reflexivity.
  - destruct remote as [[chunks o]|] eqn:E; [|vm_compute in E; discriminate E]. exists chunks, o. split; [reflexivity|].
    destruct (terminal_paths_agree Null None es) as (_ & _ & Hr); [done|]. specialize (Hr _ _ _ _ _ _ _ _ _ _ Null 7 E).
    assert (o.(po_exit_code) = None ∧ o.(po_signal) = Some 2) as [Hcode Hsig] by (vm_compute in E; injection E as _ <-; done).
    rewrite Hcode, Hsig in Hr. destruct (drain_remote_pty _ _ _) as [out ended] eqn:Ed.
    destruct Hr as [_ Hr]; [reflexivity|reflexivity|reflexivity|reflexivity|by intros n [= <-]; eexists|]. exact Hr.
Defined.
Definition session : LiveExecControl :=
  {| lc_requester_agent := LiveAuth.Sample.requester.(as_agent_id); lc_stdin := []; lc_cancel := None; lc_resize := Some []; lc_seen_control_nonces := ∅ |}.
Definition live : @LiveState Guard := {| ls_controls := {["inv" := session]}; ls_queue := Some []; ls_router := None; ls_effects := [] |}.
Definition fresh (n : nat) : string * string := ("2026-01-01T00:00:00Z", match n with O => "a" | _ => "b" end).
Lemma keystrokes_exact_witness :
  (session_run Null es (session_start None None)).(lb_master) = inputs ∧
  map fst (forward_client_frames_to_matrix Remote.deliver se_text "!r" tt "inv" fresh 0 (map wire inputs)
             {| rq_world := Remote.room; rq_registry := registry_new; rq_sent := [] |}).(rq_sent) = [EXEC_STDIN; PTY_RESIZE] ∧
  ∃ frames c', (live_run PolicyEngine.Sample.literal_regex (map (λ f, (LiveCorrect.Sample.env0, frame_event f)) frames) live).(ls_controls) !! "inv" = Some c' ∧
    stdin_thread c'.(lc_stdin) = ["q"]%char ∧ c'.(lc_resize) = Some [winsize_new 40 100].
Proof.
  destruct (keystrokes_exact Remote.deliver se_text PolicyEngine.Sample.literal_regex (C := Guard) Null None None inputs "!r" (tt : @SigningKey Signing.Toy.toy_crypto) "inv" fresh)
    as (Hm & frames & Hf & Hs & Ht).
  split; [apply Hm; reflexivity|]. split.
  - rewrite Hs; [|done]. inversion Hf as [|? ? ? ? ? Hf1]; subst. inversion Hf1 as [|? ? ? ? ? Hf2]; subst. inversion Hf2; subst. reflexivity.
  - destruct (Ht LiveCorrect.Sample.env0 live session) as (c' & Hc & Hk & Hz).
    + split; [reflexivity| |vm_compute; reflexivity]. eexists _, LiveAuth.Sample.requester. split_and!; vm_compute; reflexivity.
    + vm_compute. reflexivity.
    + reflexivity.
    + reflexivity.
    + apply nodupb_NoDup. vm_compute. reflexivity.
    + intros k _. apply not_elem_of_empty.
    + exists frames, c'. split_and!; [exact Hc|exact Hk|exact Hz].
Defined.
End TerminalExample.
