(* ===== verification/MatrixDispatch.v ===== *)
(** * Tasks run over the signed transport

    Models [crates/mx-agent-daemon/src/task_dispatch_matrix.rs]: the two implementations of
    the orchestrator's dispatcher that send a task's action to its assignee as a signed call or
    exec request, and how the outcome becomes the task's result.  The runners are arguments, as
    in the code; the theorem takes the live one of [exec_ipc.rs]. *)
From Stdlib Require Import ZArith Lia Ascii.
From stdpp Require Import gmap strings list pretty.
From S2P Require Import Prelude RustStr PolicyFile PolicyEngine CanonicalJson Schema Signing Room LiveAuth ResultPlane Runner LiveHandlers Orchestrator ToolDispatch SchedulerLoop Streams Reassembly DataDir SyncLoop Workspace ExecIpc.
Local Open Scope Z_scope.

(** ** Outcomes *)

Definition map_call_outcome (r : CallStartResult) : result TaskExecutionResult TaskDispatchError :=
  match r.(cr_outcome) with
  | CallOk exit_code summary =>
    Ok {| Orchestrator.xr_exit_code := Some exit_code;
          Orchestrator.xr_summary := summary +:+ " (remote call " +:+ r.(cr_result_invocation_id) +:+ ")"; Orchestrator.xr_artifact_mxc := None |}
  | CallError _ message => Err (DispatchFailed ("remote call failed: " +:+ message))
  end.
(** The loop over the frames: the first artifact that names a file, the last end. *)
Definition scan_frame (acc : option string * option ExecFinished) (f : StreamFrame) : option string * option ExecFinished :=
  match f with
  | FArtifact a => if a.(sa_mxc_uri) =s "" then acc else (opt_or acc.1 (Some a.(sa_mxc_uri)), acc.2)
  | FFinished finished => (acc.1, Some finished)
  | FChunk _ => acc
  end.
Definition exec_summary (invocation_id : string) (finished : ExecFinished) : string :=
  match finished.(ef_exit_code), finished.(ef_signal) with
  | Some code, _ => "remote exec " +:+ invocation_id +:+ " exited with code " +:+ pretty code
  | None, Some signal => "remote exec " +:+ invocation_id +:+ " terminated by signal " +:+ signal
  | None, None => "remote exec " +:+ invocation_id +:+ " finished"
  end.
Definition map_exec_outcome (r : ExecStartResult) : result TaskExecutionResult TaskDispatchError :=
  match r.(xr_outcome) with
  | ExecError _ message => Err (DispatchFailed ("remote exec failed: " +:+ message))
  | ExecOk frames =>
    let '(artifact_mxc, finished) := foldl scan_frame (None, None) frames in
    match finished with
    | Some finished =>
      Ok {| Orchestrator.xr_exit_code := finished.(ef_exit_code); Orchestrator.xr_summary := exec_summary r.(xr_invocation_id) finished;
            Orchestrator.xr_artifact_mxc := artifact_mxc |}
    | None => Err (DispatchFailed ("remote exec " +:+ r.(xr_invocation_id) +:+ " produced no terminal frame"))
    end
  end.

(** ** The dispatchers *)

Section dispatchers.
Context {D : Type} (room : string).
Definition matrix_call_dispatch (run_call : CallStartParams → D → CallStartResult * D) (task : TaskState) (action : TaskAction)
    (invocation_id : string) (a : Allowance) (d : D) : result TaskExecutionResult TaskDispatchError * D :=
  match action with
  | Tool tool args _ =>
    let '(r, d) := run_call {| cs_room := Some room; cs_agent := Some task.(ts_assigned_to); cs_tool := tool; cs_input := args;
                               cs_invocation_id := Some invocation_id |} d in
    (map_call_outcome r, d)
  | Exec _ _ _ _ _ _ => (Err (DispatchFailed "exec action cannot run through the Matrix call dispatcher"), d)
  end.
Definition exec_start_of (task : TaskState) (command : list string) (cwd : string) (vars : gmap string string) (timeout_ms : option Z)
    (stream : bool) (invocation_id : string) : ExecStart :=
  {| xs_params := {| xp_command := command; xp_cwd := Some cwd; xp_stdin := None; xp_env := vars; xp_timeout_ms := Z.to_N <$> timeout_ms |};
     xs_room := Some room; xs_agent := Some task.(ts_assigned_to); xs_stream := stream; xs_pty := false; xs_task := Some task.(ts_task_id);
     xs_strict_stream := false; xs_invocation_id := Some invocation_id |}.
Definition matrix_exec_dispatch (run_exec : ExecStart → D → ExecStartResult * D) (task : TaskState) (action : TaskAction)
    (invocation_id : string) (a : Allowance) (d : D) : result TaskExecutionResult TaskDispatchError * D :=
  match action with
  | Exec command cwd vars timeout_ms stream _ =>
    let '(r, d) := run_exec (exec_start_of task command cwd vars timeout_ms stream invocation_id) d in (map_exec_outcome r, d)
  | Tool _ _ _ => (Err (DispatchFailed "tool action cannot run through the Matrix exec dispatcher"), d)
  end.
Definition matrix_call_task_dispatcher run_call : TaskDispatcher D := {| dispatch := matrix_call_dispatch run_call |}.
Definition matrix_exec_task_dispatcher run_exec : TaskDispatcher D := {| dispatch := matrix_exec_dispatch run_exec |}.
End dispatchers.

(** ** What a task's result says *)

Definition mxc_of (f : StreamFrame) : option string :=
  match f with FArtifact a => if a.(sa_mxc_uri) =s "" then None else Some a.(sa_mxc_uri) | _ => None end.
Definition is_finished (f : StreamFrame) : bool := match f with FFinished _ => true | _ => false end.
Lemma scan_frames frames : ∀ mxc fin, Forall (λ f, is_finished f = false) frames →
  foldl scan_frame (mxc, fin) frames = (opt_or mxc (head (omap mxc_of frames)), fin).
Proof.
  induction frames as [|f frames IH]; intros mxc fin Hf; cbn; [by destruct mxc|]. apply Forall_cons in Hf as [Hff Hf].
  destruct f as [c|a|e]; cbn; [by apply IH| |done]. destruct (sa_mxc_uri a =s ""); rewrite IH by done; [done|]. by destruct mxc.
Qed.
Lemma frames_not_finished (pre : Arrivals) : Forall (λ f, is_finished f = false) (omap (λ a, e ← a.2; frame_of e) pre).
Proof.
  apply Forall_forall. intros f ([t e] & Hin & He)%list_elem_of_omap. destruct e as [e|]; [|done]. cbn in He. destruct e; cbn in He; try done; by injection He as <-.
Qed.

Lemma omap_frames (pre : Arrivals) : omap mxc_of (omap (λ a, e ← a.2; frame_of e) pre) = omap (λ a, e ← a.2; fr ← frame_of e; mxc_of fr) pre.
Proof. induction pre as [|[t [e|]] pre IH]; [done| |exact IH]. cbn. destruct (frame_of e); cbn; [|exact IH]. destruct (mxc_of _); by rewrite IH. Qed.

Section live.
Context `{Crypto} {W : Type} `{MatrixServer W} (parse_id : string → option RoomOrAliasId).
Context (sdk_agent_states : string → st W SdkError (list (StateEvent AgentState)))
        (sdk_agent_state : string → string → st W SdkError (option (StateEvent AgentState)))
        (sdk_send : string → string → Value → st W SdkError unit).
Context (show_error : WorkspaceError → string) (show_sdk : SdkError → string) (debug : string → string).

(** What the runner of [scheduler_loop.rs] blocks on; [None] when [fuel] receives are not enough. *)
Definition live_exec (f : Fresh) (fresh_invocation request_id : string) (fuel : nat) (now : Z) (arrivals : Arrivals) (x : ExecStart)
    (s : Requester (W := W)) : option (ExecStartResult * Requester) :=
  start_exec_matrix parse_id sdk_agent_states sdk_agent_state sdk_send show_error show_sdk debug f x fresh_invocation request_id
    fuel now arrivals s.

Context `{!CryptoLaws}.

(** C22: an exec task sent to its assignee over the signed transport is reported as it went.
    The runner that the dispatcher waits for returns, after as many receives as there are
    five-second windows up to the deadline plus events.  The dispatcher sends at most one
    request, which is signed by this host, names the orchestrator's invocation, the task and
    its assignee, and carries the action's command, directory, environment and timeout, and
    after it at most a cancel.  A result that is not a dispatch error is reported only when
    the finish event came by the deadline and before any other end: its code is the event's,
    and the linked artifact is the first that arrived before it. *)
Theorem matrix_task_faithful room f fresh_invocation request_id fuel now arrivals task command cwd vars timeout_ms stream auth inv a s :
  let x := exec_start_of room task command cwd vars timeout_ms stream inv in
  (windows (deadline_of x now) now + length arrivals < fuel)%nat →
  ∃ returned, live_exec f fresh_invocation request_id fuel now arrivals x s = Some returned ∧
  ∀ run_exec, run_exec x s = returned →
  let '(r, s') := matrix_exec_dispatch room run_exec task (Exec command cwd vars timeout_ms stream auth) inv a s in
  ∃ out, s'.(rq_sent) = s.(rq_sent) ++ out ∧
    (out = [] ∨ ∃ sk content cancel, f.(fr_signing) = Ok sk ∧ sent_request f x task.(ts_assigned_to) inv request_id sk content ∧
       out = (EXEC_REQUEST, content) :: cancel ∧ (cancel = [] ∨ cancel = [cancel_event f sk inv])) ∧
    ∀ v, r = Ok v →
      out ≠ [] ∧
      ∃ pre t finished post, arrivals = pre ++ (t, Some (FwExecFinished finished)) :: post ∧ t ≤ deadline_of x now ∧
        Forall (λ a, ∃ e, a.2 = Some e ∧ terminal e = false) pre ∧
        Orchestrator.xr_exit_code v = finished.(ef_exit_code) ∧
        Orchestrator.xr_artifact_mxc v = head (omap (λ a, e ← a.2; fr ← frame_of e; mxc_of fr) pre) ∧
        (Orchestrator.is_success v = true ↔ finished.(ef_exit_code) = Some 0).
Proof.
  intros x Hfuel. unfold live_exec, start_exec_matrix.
  destruct (inner_run parse_id sdk_agent_states sdk_agent_state sdk_send show_error show_sdk debug f x inv request_id
    fuel now arrivals s Hfuel) as (r & s' & out & Hr & Hl & Hrun).
  cbn [x exec_start_of xs_invocation_id unwrap_or]. fold x. rewrite Hr. eexists. split; [done|]. intros run_exec Hx.
  unfold matrix_exec_dispatch. fold x. rewrite Hx. exists out. split; [done|]. split.
  { destruct Hrun as [m|agent sk content m [= <-] Hk Hs Hin|agent sk content o out' [= <-] Hk Hs Hend]; [by left|done|]. right.
    exists sk, content, out'. split_and!; [done..|]. unfold ended in Hend. destruct (await_result _ _ _ _); destruct Hend as [_ Hend]; [by left|by left|].
    by destruct Hend as [->| ->]; [right|left]. }
  intros v Hv. unfold map_exec_outcome in Hv. cbn [xr_outcome xr_invocation_id] in Hv.
  destruct Hrun as [m|agent sk content m Ha Hk Hs Hin|agent sk content o out' Ha Hk Hs Hend]; [done..|]. split; [done|].
  destruct o as [frames|kind message]; [|done].
  destruct (await_result _ _ _ _) as [o| |] eqn:Ew; cbn in Hend; [|destruct Hend; done..]. destruct Hend as [<- _].
  apply await_ok in Ew as (pre & t & finished & post & -> & Ht & Hpre & ->). exists pre, t, finished, post. split_and!; try done.
  all: rewrite app_nil_l, foldl_app, scan_frames in Hv by apply frames_not_finished; cbn in Hv; injection Hv as <-; cbn [Orchestrator.xr_exit_code]; try done.
  - cbn. f_equal. apply omap_frames.
  - unfold Orchestrator.is_success. cbn. by rewrite bool_decide_eq_true.
Qed.
End live.

(** A command killed by a signal: the same task fails with 128 plus the signal when it is run
    in this process, and with no exit code when it is sent. *)
Lemma signal_codes_differ inv rid out finished n : out.(ro_exit_code) = None → out.(ro_signal) = Some n →
  finished.(ef_exit_code) = None →
  Orchestrator.xr_exit_code (exec_result_from_output out None) = Some (128 + n) ∧
  ∃ v, map_exec_outcome {| xr_invocation_id := inv; xr_request_id := rid; xr_outcome := ExecOk [FFinished finished] |} = Ok v ∧
    Orchestrator.xr_exit_code v = None.
Proof. intros Hc Hs Hf. unfold exec_result_from_output. rewrite Hc, Hs. split; [done|]. eexists. split; [done|]. exact Hf. Qed.

Module MatrixExample.
#[local] Existing Instance Signing.Toy.toy_crypto.
#[local] Existing Instance Signing.Toy.toy_laws.
#[local] Existing Instance Workspace.Toy.server.
Definition task : TaskState :=
  {| ts_task_id := "t"; ts_title := ""; ts_description := ""; ts_state := "running"; ts_assigned_to := "worker"; ts_created_by := "";
     ts_depends_on := []; ts_blocks := []; ts_invocation_id := Some "inv"; ts_created_at := ""; ts_updated_at := ""; ts_state_rev := 2;
     ts_previous_event_id := None; ts_result := None; ts_action := None; ts_extra := ∅ |}.
Definition start : Requester := {| rq_world := Remote.room; rq_registry := registry_new; rq_sent := [] |}.
Definition fuel : nat := 100.
Definition x : ExecStart := exec_start_of "!r" task ["ls"] "/work" ∅ (Some 1000) true "inv".
Definition returned : option (ExecStartResult * Requester) :=
  live_exec (λ r, Some (RoomId r)) Remote.agents Remote.agent Remote.deliver (λ _, "workspace") se_text id
    Remote.fresh "new" "req" fuel 0 Remote.arrivals x start.
Lemma matrix_task_faithful_witness :
  ∃ res s1 v s' content, returned = Some (res, s1) ∧
    matrix_exec_dispatch "!r" (λ _ _, (res, s1)) task (Exec ["ls"] "/work" ∅ (Some 1000) true None) "inv" Allowance_default start = (Ok v, s') ∧
    Orchestrator.is_success v = true ∧ s'.(rq_sent) = [(EXEC_REQUEST, content)] ∧
    verify (H := Signing.Toy.toy_crypto) tt content = Ok tt.
Proof.
  destruct (matrix_task_faithful (λ r, Some (RoomId r)) Remote.agents Remote.agent Remote.deliver (λ _, "workspace") se_text id "!r"
    Remote.fresh "new" "req" fuel 0 Remote.arrivals task ["ls"] "/work" ∅ (Some 1000) true None "inv" Allowance_default start)
    as ([res s1] & Hret & Ht); [vm_compute; lia|]. specialize (Ht (λ _ _, (res, s1)) eq_refl).
  assert (∃ v, map_exec_outcome res = Ok v ∧ Orchestrator.is_success v = true ∧ length s1.(rq_sent) = 1%nat) as (v & Hv & Hs & Hn)
    by (vm_compute in Hret; injection Hret as <- <-; eexists; split_and!; vm_compute; reflexivity).
  unfold matrix_exec_dispatch in *. rewrite Hv in Ht. destruct Ht as (out & Hl & Hone & Hok).
  destruct (Hok v eq_refl) as [Hne _]. destruct Hone as [->|([] & content & cancel & _ & Hsent & -> & _)]; [done|].
  exists res, s1, v, s1, content. rewrite Hv.
  cbn in Hl. rewrite Hl in Hn |- *. destruct cancel; [|done]. split_and!; [exact Hret|done|done|done|]. exact (sr_signed _ _ _ _ _ _ _ Hsent).
Defined.
End MatrixExample.
