(* ===== verification/Devices.v ===== *)
(** * Device verification

    Models [crates/mx-agent-daemon/src/verification.rs] (the devices of a user, out-of-band
    and interactive verification, cross-signing, key backup), [device_ipc.rs] and
    [recovery_ipc.rs] (the handlers and the run of an interactive verification), [dispatch_device_verify] of [lifecycle.rs]
    and the client of [crates/mx-agent-cli/src/cli.rs].  The crypto machine of the Matrix SDK
    is a class; JSON text, the clock and the flow id are arguments. *)
From Stdlib Require Import ZArith Lia Ascii.
From stdpp Require Import gmap strings list.
From S2P Require Import Prelude RustStr ChildEnv CanonicalJson Schema PolicyEngine TaskGraph TaskLifecycle LiveAuth Room SyncLoop Workspace IpcServer Frame.
Local Open Scope Z_scope.

(** ** Data *)

Record DeviceInfo := {
  di_user_id : string;
  di_device_id : string;
  di_display_name : option string;
  di_ed25519_fingerprint : option string;
  di_verified : bool;
  di_cross_signed : bool;
  di_blacklisted : bool;
  di_locally_trusted : bool;
}.
Record CrossSigningStatusInfo := { xsi_has_master : bool; xsi_has_self_signing : bool; xsi_has_user_signing : bool; xsi_complete : bool }.
Definition default_cross_signing : CrossSigningStatusInfo :=
  {| xsi_has_master := false; xsi_has_self_signing := false; xsi_has_user_signing := false; xsi_complete := false |}.
Record RecoveryStatusInfo := { rsi_state : string; rsi_backup_enabled : bool; rsi_backup_exists_on_server : bool }.
Record RecoveryEnableResult := { rer_recovery_key : string; rer_status : RecoveryStatusInfo }.
Record EmojiPair := { ep_symbol : string; ep_description : string }.
#[export] Instance EmojiPair_eq_dec : EqDecision EmojiPair.
Proof. solve_decision. Defined.
Abbreviation Decimals := (Z * Z * Z)%type.
Inductive VerificationError :=
| Sdk (message : string)
| NotFound (user_id : string) (device_id : option string)
| FingerprintMismatch (expected actual : string)
| UnknownFlow (flow_id : string).
Inductive SasAdvance :=
| Pending
| Negotiating
| Ready (emoji : option (list EmojiPair)) (decimals : option Decimals)
| Done
| Cancelled.
#[export] Instance SasAdvance_eq_dec : EqDecision SasAdvance.
Proof. solve_decision. Defined.
Inductive VerifyDecision := Confirm | Cancel.
#[export] Instance VerifyDecision_eq_dec : EqDecision VerifyDecision.
Proof. solve_decision. Defined.
Inductive DeviceVerifyFrame :=
| FStarted (flow_id : string)
| FEmojiReady (flow_id : string) (emoji : option (list EmojiPair)) (decimals : option Decimals)
| FConfirmed (flow_id : string)
| FCancelled (flow_id : string)
| FError (message : string).
Inductive DriveOutcome := Reached (advance : SasAdvance) | DriveCancelled | DriveTimedOut | Errored (message : string).

Record DeviceListParams := { dl_room : option string; dl_user : option string }.
Record DeviceShowParams := { dsp_user : string; dsp_device : string }.
Record DeviceVerifyManualParams := { dvm_user : string; dvm_device : string; dvm_fingerprint : option string }.
Record DeviceVerifyStartParams := { dvs_user : string; dvs_device : string }.

(** [VERIFY_DEADLINE], the timeout of a [/sync], in milliseconds. *)
Definition VERIFY_DEADLINE : Z := 300000.
Definition VERIFY_SYNC_TIMEOUT : Z := 3000.

(** ** The frames as JSON

    An internally tagged enum; a map of [serde_json] keeps its keys sorted. *)
Definition emoji_value (e : EmojiPair) : Value := Object [("description", Str e.(ep_description)); ("symbol", Str e.(ep_symbol))].
Definition decimals_value (d : Decimals) : Value :=
  let '(a, b, c) := d in Array [Num (NumInt a); Num (NumInt b); Num (NumInt c)].
Definition skip_none {A} (key : string) (value : A → Value) (o : option A) : list (string * Value) :=
  match o with Some x => [(key, value x)] | None => [] end.
Definition verify_frame_value (f : DeviceVerifyFrame) : Value :=
  match f with
  | FStarted flow_id => Object [("event", Str "started"); ("flow_id", Str flow_id)]
  | FEmojiReady flow_id emoji decimals =>
    Object (skip_none "decimals" decimals_value decimals ++ skip_none "emoji" (λ l, Array (map emoji_value l)) emoji ++
            [("event", Str "emoji-ready"); ("flow_id", Str flow_id)])
  | FConfirmed flow_id => Object [("event", Str "confirmed"); ("flow_id", Str flow_id)]
  | FCancelled flow_id => Object [("event", Str "cancelled"); ("flow_id", Str flow_id)]
  | FError message => Object [("event", Str "error"); ("message", Str message)]
  end.
Definition get_field (key : string) (es : list (string * Value)) : option Value := snd <$> List.find (λ kv, kv.1 =s key) es.
Definition get_str (key : string) (es : list (string * Value)) : option string :=
  match get_field key es with Some (Str s) => Some s | _ => None end.
(** An [Option] field: absent and [null] are [None]. *)
Definition get_opt {A} (key : string) (decode : Value → option A) (es : list (string * Value)) : option (option A) :=
  match get_field key es with None | Some Null => Some None | Some v => Some <$> decode v end.
Definition u16_of (v : Value) : option Z :=
  match v with Num (NumInt n) => if (0 <=? n) && (n <? 65536) then Some n else None | _ => None end.
Definition decimals_of (v : Value) : option Decimals :=
  match v with Array [a; b; c] => a ← u16_of a; b ← u16_of b; c ← u16_of c; Some (a, b, c) | _ => None end.
Definition emoji_of (v : Value) : option EmojiPair :=
  match v with
  | Object es => symbol ← get_str "symbol" es; description ← get_str "description" es; Some {| ep_symbol := symbol; ep_description := description |}
  | _ => None
  end.
Definition emojis_of (v : Value) : option (list EmojiPair) := match v with Array l => mapM emoji_of l | _ => None end.
Definition verify_frame_of (v : Value) : option DeviceVerifyFrame :=
  match v with
  | Object es =>
    event ← get_str "event" es;
    if event =s "started" then FStarted <$> get_str "flow_id" es
    else if event =s "emoji-ready" then
      flow_id ← get_str "flow_id" es; emoji ← get_opt "emoji" emojis_of es; decimals ← get_opt "decimals" decimals_of es;
      Some (FEmojiReady flow_id emoji decimals)
    else if event =s "confirmed" then FConfirmed <$> get_str "flow_id" es
    else if event =s "cancelled" then FCancelled <$> get_str "flow_id" es
    else if event =s "error" then FError <$> get_str "message" es
    else None
  | _ => None
  end.

(** ** The crypto machine *)

Record CrossSigningKeys := { has_master : bool; has_self_signing : bool; has_user_signing : bool }.
Inductive RecoveryState := RecoveryUnknown | RecoveryEnabled | RecoveryDisabled | RecoveryIncomplete.
(** What the source uses of the SDK, on a world [W] that holds the crypto store, the
    homeserver and the peers.  Devices, verification requests and SAS exchanges are handles:
    what they report is read off the world at the time. *)
Class CryptoSdk (W Dev Req Sas : Type) := {
  user_id_parse : string → result string string;
  sdk_user_devices : string → st W string (list Dev);
  sdk_device : string → string → st W string (option Dev);
  sdk_joined_members : string → string → st W SdkError (list string);
  dev_user_id : Dev → string;
  dev_device_id : Dev → string;
  dev_display_name : Dev → option string;
  dev_ed25519_key : Dev → option string;
  dev_is_verified : W → Dev → bool;
  dev_is_cross_signed : W → Dev → bool;
  dev_is_blacklisted : W → Dev → bool;
  dev_is_locally_trusted : W → Dev → bool;
  sdk_set_verified : Dev → st W string unit;
  sdk_cross_signing_status : W → option CrossSigningKeys;
  sdk_bootstrap : st W string unit;
  sdk_recovery_state : W → RecoveryState;
  sdk_backups_enabled : W → bool;
  sdk_backup_exists : st W string bool;
  sdk_enable_recovery : st W string string;
  sdk_recover : string → st W string unit;
  sdk_request_verification : Dev → st W string Req;
  req_is_cancelled : W → Req → bool;
  req_is_ready : W → Req → bool;
  sdk_start_sas : Req → st W string (option Sas);
  sdk_req_cancel : Req → st W string unit;
  sas_is_cancelled : W → Sas → bool;
  sas_is_done : W → Sas → bool;
  sas_can_be_presented : W → Sas → bool;
  sas_emoji_symbols : W → Sas → option (list (string * string));
  sas_decimals : W → Sas → option Decimals;
  sdk_sas_confirm : Sas → st W string unit;
  sdk_sas_cancel : Sas → st W string unit;
  sdk_sync_for : Z → st W SdkError unit;
}.

(** ** The manager *)

Section manager.
Context {W Dev Req Sas : Type} `{CryptoSdk W Dev Req Sas} (debug : string → string).
Abbreviation VM := (st W VerificationError).

Definition verification_error_text (e : VerificationError) : string :=
  match e with
  | Sdk msg => msg
  | NotFound user_id (Some device_id) => "device " +:+ debug device_id +:+ " for user " +:+ debug user_id +:+ " not found"
  | NotFound user_id None => "user " +:+ debug user_id +:+ " not found"
  | FingerprintMismatch expected actual => "fingerprint mismatch: supplied " +:+ debug expected +:+ " but device key is " +:+ debug actual
  | UnknownFlow flow_id => "no in-flight verification for flow " +:+ debug flow_id
  end.
Definition sdk {S A} (m : st S string A) : st S VerificationError A := λ s,
  match m s with (Ok x, s) => (Ok x, s) | (Err e, s) => (Err (Sdk e), s) end.
Definition parse_user (user_id : string) : result string VerificationError :=
  match user_id_parse user_id with Ok user => Ok user | Err e => Err (Sdk ("invalid user id " +:+ debug user_id +:+ ": " +:+ e)) end.
Definition device_info (w : W) (d : Dev) : DeviceInfo :=
  {| di_user_id := dev_user_id d; di_device_id := dev_device_id d; di_display_name := dev_display_name d;
     di_ed25519_fingerprint := String.append "ed25519:" <$> dev_ed25519_key d; di_verified := dev_is_verified w d;
     di_cross_signed := dev_is_cross_signed w d; di_blacklisted := dev_is_blacklisted w d; di_locally_trusted := dev_is_locally_trusted w d |}.
Definition normalize_fingerprint (fingerprint : string) : string := default (trim fingerprint) (strip_prefix "ed25519:" (trim fingerprint)).
Definition device_le (a b : DeviceInfo) : Prop := String.le a.(di_device_id) b.(di_device_id).
#[export] Instance device_le_dec : RelDecision device_le.
Proof. intros a b. unfold device_le. apply _. Defined.

Definition list_devices (user_id : string) : VM (list DeviceInfo) :=
  let! user := Prelude.lift (parse_user user_id) in
  let! devices := sdk (sdk_user_devices user) in
  λ w, (Ok (sort_by device_le (map (device_info w) devices)), w).
Definition show_device (user_id device_id : string) : VM (option DeviceInfo) :=
  let! user := Prelude.lift (parse_user user_id) in
  let! device := sdk (sdk_device user device_id) in
  λ w, (Ok (device_info w <$> device), w).
(** The device that a verification is about. *)
Definition find_device (user_id device_id : string) : VM Dev :=
  let! user := Prelude.lift (parse_user user_id) in
  let! device := sdk (sdk_device user device_id) in
  Prelude.lift (ok_or device (NotFound user_id (Some device_id))).
Definition check_fingerprint (d : Dev) (expected_fingerprint : option string) : result unit VerificationError :=
  match expected_fingerprint with
  | None => Ok tt
  | Some expected =>
    let actual := default "" (dev_ed25519_key d) in
    if negb (normalize_fingerprint expected =s normalize_fingerprint actual) then Err (FingerprintMismatch expected ("ed25519:" +:+ actual))
    else Ok tt
  end.
Definition manual_verify (user_id device_id : string) (expected_fingerprint : option string) : VM DeviceInfo :=
  let! d := find_device user_id device_id in
  let! _ := Prelude.lift (check_fingerprint d expected_fingerprint) in
  let! _ := sdk (sdk_set_verified d) in
  λ w, (Ok (device_info w d), w).

Definition cross_signing_status (w : W) : CrossSigningStatusInfo :=
  match sdk_cross_signing_status w with
  | Some k =>
    {| xsi_has_master := k.(has_master); xsi_has_self_signing := k.(has_self_signing); xsi_has_user_signing := k.(has_user_signing);
       xsi_complete := k.(has_master) && k.(has_self_signing) && k.(has_user_signing) |}
  | None => default_cross_signing
  end.
Definition bootstrap_cross_signing : VM CrossSigningStatusInfo :=
  let! _ := sdk sdk_bootstrap in λ w, (Ok (cross_signing_status w), w).
Definition recovery_state_str (s : RecoveryState) : string :=
  match s with RecoveryUnknown => "unknown" | RecoveryEnabled => "enabled" | RecoveryDisabled => "disabled" | RecoveryIncomplete => "incomplete" end.
Definition recovery_status : VM RecoveryStatusInfo := λ w,
  let state := recovery_state_str (sdk_recovery_state w) in
  let enabled := sdk_backups_enabled w in
  let '(exists_, w) := sdk_backup_exists w in
  (Ok {| rsi_state := state; rsi_backup_enabled := enabled; rsi_backup_exists_on_server := match exists_ with Ok b => b | Err _ => false end |}, w).
Definition enable_recovery : VM RecoveryEnableResult :=
  let! key := sdk sdk_enable_recovery in
  let! status := recovery_status in
  ret {| rer_recovery_key := key; rer_status := status |}.
Definition recover (recovery_key : string) : VM RecoveryStatusInfo :=
  let! _ := sdk (sdk_recover recovery_key) in recovery_status.

(** The scan over the devices: whether there is any, and whether all are verified. *)
Definition scan_device (w : W) (seen : bool * bool) (d : Dev) : bool * bool :=
  (true, if dev_is_verified w d then seen.2 else false).
Definition sender_verified (user_id : string) (w : W) : option bool * W :=
  match user_id_parse user_id with
  | Err _ => (None, w)
  | Ok user =>
    match sdk_user_devices user w with
    | (Err _, w) => (None, w)
    | (Ok devices, w) =>
      let '(any, all_verified) := foldl (scan_device w) (false, true) devices in
      (if any then Some all_verified else None, w)
    end
  end.

(** ** Interactive verification *)

Inductive SasFlow := Requested (request : Req) | Active (sas : Sas).
(** What a run did, in order: a request sent to a device, the SAS exchange started from a
    request, what an exchange reported, a frame handed to the client and whether it was
    written, the operator's decision, and a confirmation or a cancellation of an exchange. *)
Inductive Event :=
| LRequest (user device : string) (request : Req)
| LSas (request : Req) (sas : Sas)
| LSeen (sas : Sas) (advance : SasAdvance)
| LFrame (f : DeviceVerifyFrame) (written : bool)
| LDecision (d : VerifyDecision)
| LConfirm (sas : Sas) (ok : bool)
| LCancelSas (sas : Sas)
| LCancelRequest (request : Req).
(** The world, the registry of flows, and of this connection: the socket with its read
    timeout, the flags of the dispatcher, the clock readings so far and the log. *)
Record Daemon := {
  dm_world : W;
  dm_flows : gmap string SasFlow;
  dm_conn : Conn;
  dm_read_timeout : option Z;
  dm_running : bool;
  dm_write_failed : bool;
  dm_ticks : nat;
  dm_log : list Event;
}.
Definition set_world (w : W) (s : Daemon) : Daemon :=
  {| dm_world := w; dm_flows := s.(dm_flows); dm_conn := s.(dm_conn); dm_read_timeout := s.(dm_read_timeout); dm_running := s.(dm_running);
     dm_write_failed := s.(dm_write_failed); dm_ticks := s.(dm_ticks); dm_log := s.(dm_log) |}.
Definition set_flows (flows : gmap string SasFlow) (s : Daemon) : Daemon :=
  {| dm_world := s.(dm_world); dm_flows := flows; dm_conn := s.(dm_conn); dm_read_timeout := s.(dm_read_timeout); dm_running := s.(dm_running);
     dm_write_failed := s.(dm_write_failed); dm_ticks := s.(dm_ticks); dm_log := s.(dm_log) |}.
Definition set_socket (c : Conn) (timeout : option Z) (s : Daemon) : Daemon :=
  {| dm_world := s.(dm_world); dm_flows := s.(dm_flows); dm_conn := c; dm_read_timeout := timeout; dm_running := s.(dm_running);
     dm_write_failed := s.(dm_write_failed); dm_ticks := s.(dm_ticks); dm_log := s.(dm_log) |}.
Definition set_flags (running write_failed : bool) (s : Daemon) : Daemon :=
  {| dm_world := s.(dm_world); dm_flows := s.(dm_flows); dm_conn := s.(dm_conn); dm_read_timeout := s.(dm_read_timeout); dm_running := running;
     dm_write_failed := write_failed; dm_ticks := s.(dm_ticks); dm_log := s.(dm_log) |}.
Definition note (e : Event) (s : Daemon) : Daemon :=
  {| dm_world := s.(dm_world); dm_flows := s.(dm_flows); dm_conn := s.(dm_conn); dm_read_timeout := s.(dm_read_timeout); dm_running := s.(dm_running);
     dm_write_failed := s.(dm_write_failed); dm_ticks := s.(dm_ticks); dm_log := s.(dm_log) ++ [e] |}.
Definition tick (s : Daemon) : Daemon :=
  {| dm_world := s.(dm_world); dm_flows := s.(dm_flows); dm_conn := s.(dm_conn); dm_read_timeout := s.(dm_read_timeout); dm_running := s.(dm_running);
     dm_write_failed := s.(dm_write_failed); dm_ticks := S s.(dm_ticks); dm_log := s.(dm_log) |}.
(** A call of the SDK, and an event of the log after it. *)
Definition on_world {E A} (m : st W E A) : st Daemon E A := λ s,
  let '(r, w) := m s.(dm_world) in (r, set_world w s).
Definition noted {E} (e : Event) : st Daemon E unit := λ s, (Ok tt, note e s).

Definition get_flow (flow_id : string) (s : Daemon) : option SasFlow := s.(dm_flows) !! flow_id.
Definition set_flow (flow_id : string) (flow : SasFlow) (s : Daemon) : Daemon := set_flows (<[flow_id := flow]> s.(dm_flows)) s.
Definition forget_sas (flow_id : string) (s : Daemon) : Daemon := set_flows (delete flow_id s.(dm_flows)) s.

(** [flow_id] is the identifier that [generate_request_id] mints. *)
Definition start_sas (flow_id user_id device_id : string) : st Daemon VerificationError string :=
  let! d := on_world (find_device user_id device_id) in
  let! request := on_world (sdk (sdk_request_verification d)) in
  let! _ := noted (LRequest user_id device_id request) in
  λ s, (Ok flow_id, set_flow flow_id (Requested request) s).
Definition sas_emoji (w : W) (s : Sas) : option (list EmojiPair) :=
  map (λ e, {| ep_symbol := e.1; ep_description := e.2 |}) <$> sas_emoji_symbols w s.
Definition advance_for_sas (w : W) (s : Sas) : SasAdvance :=
  if sas_is_cancelled w s then Cancelled
  else if sas_is_done w s then Done
  else if sas_can_be_presented w s then Ready (sas_emoji w s) (sas_decimals w s)
  else Negotiating.
(** The state of an exchange, which the log notes. *)
Definition observe_sas (sas : Sas) : st Daemon VerificationError SasAdvance := λ s,
  let a := advance_for_sas s.(dm_world) sas in (Ok a, note (LSeen sas a) s).
Definition advance_sas (flow_id : string) : st Daemon VerificationError SasAdvance := λ s,
  match get_flow flow_id s with
  | None => (Err (UnknownFlow flow_id), s)
  | Some (Requested request) =>
    if req_is_cancelled s.(dm_world) request then (Ok Cancelled, s)
    else if req_is_ready s.(dm_world) request then
      match on_world (sdk (sdk_start_sas request)) s with
      | (Err e, s) => (Err e, s)
      | (Ok (Some sas), s) => observe_sas sas (note (LSas request sas) (set_flow flow_id (Active sas) s))
      | (Ok None, s) => (Ok Pending, s)
      end
    else (Ok Pending, s)
  | Some (Active sas) => observe_sas sas s
  end.
Definition confirm_sas (flow_id : string) : st Daemon VerificationError unit := λ s,
  match get_flow flow_id s with
  | Some (Active sas) => let '(r, s) := on_world (sdk (sdk_sas_confirm sas)) s in (r, note (LConfirm sas (is_ok r)) s)
  | Some (Requested _) => (Err (Sdk "verification is not ready to confirm yet"), s)
  | None => (Err (UnknownFlow flow_id), s)
  end.
Definition cancel_sas (flow_id : string) : st Daemon VerificationError unit := λ s,
  match get_flow flow_id s with
  | None => (Err (UnknownFlow flow_id), s)
  | Some flow =>
    let '(r, s) :=
      match flow with
      | Active sas => let '(r, s) := on_world (sdk (sdk_sas_cancel sas)) s in (r, note (LCancelSas sas) s)
      | Requested request => let '(r, s) := on_world (sdk (sdk_req_cancel request)) s in (r, note (LCancelRequest request) s)
      end in
    (r, forget_sas flow_id s)
  end.

(** ** The handlers *)

Context `{MatrixServer W} (parse_id : string → option RoomOrAliasId) {Session : Type} (restore_client : Session → st W WorkspaceError string).
Abbreviation WM := (st W WorkspaceError).
Definition verr {A} (m : VM A) : WM A := λ w, match m w with (Ok x, w) => (Ok x, w) | (Err _, w) => (Err Io, w) end.
(** [me] is the user of the restored client. *)
Definition resolve_target_users (me : string) (params : DeviceListParams) : WM (list string) :=
  match params.(dl_user), params.(dl_room) with
  | Some user, _ => ret [user]
  | None, Some room =>
    let! id := Prelude.lift (parse_room_or_alias parse_id room) in
    let! room_id := resolve_room_id me id in
    let! view := observe (sdk_get_room me room_id) in
    let! _ := Prelude.lift (ok_or view (RoomNotFound room)) in
    let! users := matrix (sdk_joined_members me room_id) in
    ret (TaskGraph.dedup (sort_by String.le users))
  | None, None => ret [me]
  end.
Fixpoint list_all (users : list string) : WM (list DeviceInfo) :=
  match users with
  | [] => ret []
  | user :: users => let! ds := verr (list_devices user) in let! rest := list_all users in ret (ds ++ rest)
  end.
(** The beginning of every handler. *)
Definition restore_and_sync (session : Session) : WM string :=
  let! me := restore_client session in let! _ := matrix (sdk_sync_once me) in ret me.
Definition list_devices_for_session (session : Session) (params : DeviceListParams) : WM (list DeviceInfo) :=
  let! me := restore_and_sync session in
  let! users := resolve_target_users me params in
  list_all users.
Definition show_device_for_session (session : Session) (params : DeviceShowParams) : WM (option DeviceInfo) :=
  let! _ := restore_and_sync session in verr (show_device params.(dsp_user) params.(dsp_device)).
Definition manual_verify_for_session (session : Session) (params : DeviceVerifyManualParams) : WM DeviceInfo :=
  let! _ := restore_and_sync session in verr (manual_verify params.(dvm_user) params.(dvm_device) params.(dvm_fingerprint)).
Definition bootstrap_cross_signing_for_session (session : Session) : WM CrossSigningStatusInfo :=
  let! _ := restore_and_sync session in verr bootstrap_cross_signing.
Definition cross_signing_status_for_session (session : Session) : WM CrossSigningStatusInfo :=
  let! _ := restore_and_sync session in observe cross_signing_status.
(** [recovery_ipc.rs] *)
Definition enable_recovery_for_session (session : Session) : WM RecoveryEnableResult :=
  let! _ := restore_and_sync session in verr enable_recovery.
Definition recovery_status_for_session (session : Session) : WM RecoveryStatusInfo :=
  let! _ := restore_and_sync session in verr recovery_status.
Definition recover_for_session (session : Session) (recovery_key : string) : WM RecoveryStatusInfo :=
  let! _ := restore_and_sync session in verr (recover recovery_key).

(** ** A run of [device.verify.start] *)

Context (from_slice : list Z → result Request string) (to_vec : Response → option (list Z)) (clock : nat → Z).
Definition decision_of (r : result (option (list Z)) ErrorKind) : VerifyDecision :=
  match r with
  | Ok (Some bytes) =>
    match from_slice bytes with
    | Ok control => if control.(req_method) =s "confirm" then Confirm else Cancel
    | Err _ => Cancel
    end
  | _ => Cancel
  end.
(** The read timeout is set for the read and then restored; a read that gets nothing in time
    is one of the reader's failures. *)
Definition read_verify_decision (timeout : Z) (s : Daemon) : option (VerifyDecision * Daemon) :=
  let prior := s.(dm_read_timeout) in
  let s := set_socket s.(dm_conn) (Some timeout) s in
  res ← read_frame s.(dm_conn).(cn_in);
  let '(res, r) := res in
  let decision := decision_of res in
  Some (decision, note (LDecision decision) (set_socket {| cn_in := r; cn_out := s.(dm_conn).(cn_out) |} prior s)).

Definition into_frame (o : DriveOutcome) (flow_id : string) : DeviceVerifyFrame :=
  match o with
  | Reached Done => FConfirmed flow_id
  | Reached Cancelled | DriveCancelled => FCancelled flow_id
  | Reached _ => FError "unexpected verification state"
  | DriveTimedOut => FError "verification timed out"
  | Errored message => FError message
  end.
Definition now (s : Daemon) : Z * Daemon := (clock s.(dm_ticks), tick s).
Fixpoint drive_loop (fuel : nat) (flow_id : string) (deadline : Z) (done : SasAdvance → bool) (s : Daemon) : option (DriveOutcome * Daemon) :=
  match fuel with
  | O => None
  | S fuel =>
    if negb s.(dm_running) then Some (DriveTimedOut, s)
    else
      let '(t, s) := now s in
      if deadline <=? t then Some (DriveTimedOut, s)
      else
        let '(_, s) := on_world (sdk_sync_for VERIFY_SYNC_TIMEOUT) s in
        match advance_sas flow_id s with
        | (Ok Cancelled, s) => Some (DriveCancelled, s)
        | (Ok advance, s) => if done advance then Some (Reached advance, s) else drive_loop fuel flow_id deadline done s
        | (Err e, s) => Some (Errored (verification_error_text e), s)
        end
  end.
Definition drive_until (fuel : nat) (flow_id : string) (done : SasAdvance → bool) (s : Daemon) : option (DriveOutcome * Daemon) :=
  let '(t, s) := now s in drive_loop fuel flow_id (t + VERIFY_DEADLINE) done s.
Definition is_ready (a : SasAdvance) : bool := match a with Ready _ _ => true | _ => false end.
Definition is_settled (a : SasAdvance) : bool := match a with Done | Cancelled => true | _ => false end.

(** [frame] and [wait_decision] are the callbacks of the dispatcher; from the operator's
    decision on: *)
Definition run_decision (fuel : nat) (flow_id : string) (frame : DeviceVerifyFrame → Daemon → Daemon)
    (wait_decision : Daemon → option (VerifyDecision * Daemon)) (s : Daemon) : option (result unit WorkspaceError * Daemon) :=
  '(decision, s) ← wait_decision s;
  match decision with
  | Confirm =>
    match confirm_sas flow_id s with
    | (Err e, s) => Some (Ok tt, forget_sas flow_id (frame (FError (verification_error_text e)) s))
    | (Ok _, s) =>
      '(outcome, s) ← drive_until fuel flow_id is_settled s;
      Some (Ok tt, forget_sas flow_id (frame (into_frame outcome flow_id) s))
    end
  | Cancel => let '(_, s) := cancel_sas flow_id s in Some (Ok tt, frame (FCancelled flow_id) s)
  end.
Definition run_device_verify (fuel : nat) (flow_id : string) (session : Session) (params : DeviceVerifyStartParams)
    (frame : DeviceVerifyFrame → Daemon → Daemon) (wait_decision : Daemon → option (VerifyDecision * Daemon)) (s : Daemon) :
    option (result unit WorkspaceError * Daemon) :=
  match on_world (restore_and_sync session) s with
  | (Err e, s) => Some (Err e, s)
  | (Ok _, s) =>
    match start_sas flow_id params.(dvs_user) params.(dvs_device) s with
    | (Err e, s) => Some (Ok tt, frame (FError (verification_error_text e)) s)
    | (Ok flow_id, s) =>
      '(outcome, s) ← drive_until fuel flow_id is_ready (frame (FStarted flow_id) s);
      match outcome with
      | Reached (Ready emoji decimals) => run_decision fuel flow_id frame wait_decision (frame (FEmojiReady flow_id emoji decimals) s)
      | terminal => Some (Ok tt, forget_sas flow_id (frame (into_frame terminal flow_id) s))
      end
    end
  end.

Definition verify_response (id : Value) (f : DeviceVerifyFrame) : Response := response_result id (verify_frame_value f).
(** The callbacks. *)
Definition send_frame (id : Value) (f : DeviceVerifyFrame) (s : Daemon) : Daemon :=
  match answer to_vec (verify_response id f) s.(dm_conn) with
  | (Ok _, c) => note (LFrame f true) (set_socket c s.(dm_read_timeout) s)
  | (Err _, c) => note (LFrame f false) (set_flags false true (set_socket c s.(dm_read_timeout) s))
  end.
Definition wait_decision : Daemon → option (VerifyDecision * Daemon) := read_verify_decision VERIFY_DEADLINE.
Definition reply (r : Response) (s : Daemon) : result unit ErrorKind * Daemon :=
  let '(res, c) := answer to_vec r s.(dm_conn) in (res, set_socket c s.(dm_read_timeout) s).
Context (start_params_of : Value → result DeviceVerifyStartParams string) (ops : Ops (D := W) (Session := Session)).
Context (workspace_error_text : WorkspaceError → string).
Definition dispatch_device_verify (fuel : nat) (flow_id : string) (req : Request) (s : Daemon) : option (result unit ErrorKind * Daemon) :=
  match parse_params req (start_params_of req.(req_params)) with
  | Err response => Some (reply response s)
  | Ok params =>
    match load_daemon_session_response ops req s.(dm_world) with
    | Err response => Some (reply response s)
    | Ok session =>
      match ops.(op_runtime) s.(dm_world) with
      | Err e => Some (reply (runtime_error req e) s)
      | Ok _ =>
        '(result, s) ← run_device_verify fuel flow_id session params (send_frame req.(req_id)) wait_decision (set_flags true false s);
        if s.(dm_write_failed) then Some (Ok tt, s)
        else match result with
             | Ok _ => Some (Ok tt, s)
             | Err e => Some (reply (response_error req.(req_id) INTERNAL_ERROR (workspace_error_text e)) s)
             end
      end
    end
  end.
End manager.
Arguments LRequest {Req Sas}.
Arguments LFrame {Req Sas}.
Arguments LDecision {Req Sas}.
Arguments LSas {Req Sas}.
Arguments LSeen {Req Sas}.
Arguments LConfirm {Req Sas}.
Arguments LCancelSas {Req Sas}.
Arguments LCancelRequest {Req Sas}.
Arguments Requested {Req Sas}.
Arguments Active {Req Sas}.

(** ** The client *)

Inductive CliLine :=
| CJson (f : DeviceVerifyFrame)
| CRequested (flow_id : string)
| CSas (emoji : option (list EmojiPair)) (decimals : option Decimals)
| CAsked (yes : bool)
| CVerified
| CCancelled
| CFailed.
(** The connection, the lines the operator types, and what was printed and asked. *)
Record Cli := { cv_client : Client; cv_stdin : list (result string unit); cv_lines : list CliLine }.
Section cli.
Context (encode_request : Request → option (list Z)) (decode_response : list Z → option Response) (json : bool).
(** [read_line] at the end of the input gives the empty line. *)
Definition read_line (stdin : list (result string unit)) : result string unit * list (result string unit) :=
  match stdin with [] => (Ok "", []) | line :: stdin => (line, stdin) end.
Definition prompt_yes_no (stdin : list (result string unit)) : bool * list (result string unit) :=
  match read_line stdin with
  | (Err _, stdin) => (false, stdin)
  | (Ok line, stdin) => (one_of (to_ascii_lowercase (trim line)) ["y"; "yes"], stdin)
  end.
Definition say (line : CliLine) (c : Cli) : Cli :=
  {| cv_client := c.(cv_client); cv_stdin := c.(cv_stdin); cv_lines := c.(cv_lines) ++ [line] |}.
Definition with_client (client : Client) (c : Cli) : Cli := {| cv_client := client; cv_stdin := c.(cv_stdin); cv_lines := c.(cv_lines) |}.
Definition say_if (b : bool) (line : CliLine) (c : Cli) : Cli := if b then say line c else c.
Definition SUCCESS : Z := 0.
Definition FAILURE : Z := 1.
Definition ask (c : Cli) : bool * Cli :=
  let '(yes, stdin) := prompt_yes_no c.(cv_stdin) in
  (yes, {| cv_client := c.(cv_client); cv_stdin := stdin; cv_lines := c.(cv_lines) ++ [CAsked yes] |}).
Fixpoint verify_frames (fuel : nat) (c : Cli) : option (Z * Cli) :=
  match fuel with
  | O => None
  | S fuel =>
    '(res, client) ← client_recv decode_response c.(cv_client);
    let c := with_client client c in
    match res with
    | Err _ => Some (FAILURE, say CFailed c)
    | Ok response =>
      match response.(rsp_error) with
      | Some _ => Some (FAILURE, say CFailed c)
      | None =>
        match verify_frame_of (unwrap_or response.(rsp_result) Null) with
        | None => Some (FAILURE, say CFailed c)
        | Some f =>
          let c := say_if json (CJson f) c in
          match f with
          | FStarted flow_id => verify_frames fuel (say_if (negb json) (CRequested flow_id) c)
          | FEmojiReady _ emoji decimals =>
            let c := say_if (negb json) (CSas emoji decimals) c in
            let '(confirm, c) := ask c in
            let method := if confirm then "confirm" else "cancel" in
            match client_send encode_request (request_new (Num (NumInt 2)) method Null) c.(cv_client) with
            | (Err _, client) => Some (FAILURE, say CFailed (with_client client c))
            | (Ok _, client) => verify_frames fuel (with_client client c)
            end
          | FConfirmed _ => Some (SUCCESS, say_if (negb json) CVerified c)
          | FCancelled _ => Some (FAILURE, say_if (negb json) CCancelled c)
          | FError _ => Some (FAILURE, say CFailed c)
          end
        end
      end
    end
  end.
Context (start_params_value : DeviceVerifyStartParams → Value).
(** [connected]: the daemon's socket takes the connection. *)
Definition device_verify_interactive (fuel : nat) (connected : bool) (params : DeviceVerifyStartParams) (c : Cli) : option (Z * Cli) :=
  if negb connected then Some (3, say CFailed c)
  else
    match client_send encode_request (request_new (Num (NumInt 1)) METHOD_DEVICE_VERIFY_START (start_params_value params)) c.(cv_client) with
    | (Err _, client) => Some (FAILURE, say CFailed (with_client client c))
    | (Ok _, client) => verify_frames fuel (with_client client c)
    end.
End cli.

(** ** What a run does *)

Section protocol.
Context {W Dev Req Sas : Type} `{CryptoSdk W Dev Req Sas} (debug : string → string).
Context (from_slice : list Z → result Request string) (to_vec : Response → option (list Z)) (clock : nat → Z) (id : Value).
Abbreviation Daemon := (Daemon (W := W) (Req := Req) (Sas := Sas)).
Abbreviation Event := (Event (Req := Req) (Sas := Sas)).
Abbreviation SasFlow := (SasFlow (Req := Req) (Sas := Sas)).
Abbreviation send_frame := (send_frame to_vec id).
Implicit Types (s : Daemon) (l : list Event) (c : Conn).

(** The log tells what the connection went through: the frames with what became of them, and
    the decisions read. *)
Definition replay (oc : option Conn) (e : Event) : option Conn :=
  c ← oc;
  match e with
  | LFrame f written =>
    let '(res, c) := answer to_vec (verify_response id f) c in if bool_decide (is_ok res = written) then Some c else None
  | LDecision d =>
    '(res, r) ← read_frame c.(cn_in);
    if bool_decide (decision_of from_slice res = d) then Some {| cn_in := r; cn_out := c.(cn_out) |} else None
  | _ => Some c
  end.
Record talk l s s' : Prop := {
  tk_log : s'.(dm_log) = s.(dm_log) ++ l;
  tk_conn : foldl replay (Some s.(dm_conn)) l = Some s'.(dm_conn);
  tk_timeout : s'.(dm_read_timeout) = s.(dm_read_timeout);
}.
Lemma talk_same s s' : s'.(dm_log) = s.(dm_log) → s'.(dm_conn) = s.(dm_conn) → s'.(dm_read_timeout) = s.(dm_read_timeout) → talk [] s s'.
Proof. intros Hl Hc Ht. split; [by rewrite app_nil_r|by rewrite Hc|done]. Qed.
Lemma talk_trans l1 l2 s1 s2 s3 : talk l1 s1 s2 → talk l2 s2 s3 → talk (l1 ++ l2) s1 s3.
Proof. intros [L1 C1 T1] [L2 C2 T2]. split; [by rewrite L2, L1, app_assoc|by rewrite foldl_app, C1|by rewrite T2, T1]. Qed.
Lemma talk_event e s s' : (match e with LFrame _ _ | LDecision _ => false | _ => true end) = true →
  s'.(dm_log) = s.(dm_log) ++ [e] → s'.(dm_conn) = s.(dm_conn) → s'.(dm_read_timeout) = s.(dm_read_timeout) → talk [e] s s'.
Proof. intros He Hl Hc Ht. split; [done| |done]. rewrite Hc. by destruct e. Qed.
Lemma send_frame_talk f s : ∃ ok, talk [LFrame f ok] s (send_frame f s) ∧ (send_frame f s).(dm_flows) = s.(dm_flows).
Proof.
  unfold Devices.send_frame. destruct (answer to_vec (verify_response id f) (dm_conn s)) as [[[]|k] c] eqn:E; [exists true|exists false].
  all: split; [|done]; split; [done| |done]; cbn; by rewrite E.
Qed.
Lemma decision_talk timeout s d s' : read_verify_decision from_slice timeout s = Some (d, s') →
  talk [LDecision d] s s' ∧ s'.(dm_flows) = s.(dm_flows).
Proof.
  unfold read_verify_decision. cbn [dm_conn set_socket]. destruct (read_frame (cn_in (dm_conn s))) as [[res r]|] eqn:E; cbn [mbind option_bind]; [|done]. intros [= <- <-].
  split; [|done]. split; [done| |done]. cbn [foldl replay mbind option_bind]. rewrite E. cbn [mbind option_bind]. by rewrite bool_decide_eq_true_2.
Qed.
Lemma decision_total timeout s : is_Some (read_verify_decision from_slice timeout s).
Proof. unfold read_verify_decision. cbn [dm_conn set_socket]. destruct (read_frame_total (cn_in (dm_conn s))) as [[res r] ->]. by eexists. Qed.

(** What the polls of a flow log: a request may become an exchange, and the exchange is
    observed. *)
Inductive polled : SasFlow → list Event → SasFlow → Prop :=
| polled_none flow : polled flow [] flow
| polled_start request sas l flow : polled (Active sas) l flow → polled (Requested request) (LSas request sas :: l) flow
| polled_seen sas a l flow : polled (Active sas) l flow → polled (Active sas) (LSeen sas a :: l) flow.
Lemma polled_trans f1 l1 f2 l2 f3 : polled f1 l1 f2 → polled f2 l2 f3 → polled f1 (l1 ++ l2) f3.
Proof. induction 1; intros; cbn; [done|constructor; auto..]. Qed.
Lemma polled_active sas l flow : polled (Active sas) l flow → flow = Active sas.
Proof. intros Hp. remember (Active sas) as f0 eqn:E. induction Hp; simplify_eq; auto. Qed.

(** The exchange and its state after a poll. *)
Definition shows (r : SasAdvance) (flow : SasFlow) l : Prop :=
  match r with Pending | Cancelled => True | a => ∃ sas l', flow = Active sas ∧ l = l' ++ [LSeen sas a] end.
Lemma observe_talk sas s a s' : observe_sas sas s = (Ok a, s') → talk [LSeen sas a] s s' ∧ s'.(dm_flows) = s.(dm_flows).
Proof. intros [= <- <-]. split; [by apply talk_event|done]. Qed.
Lemma advance_poll flow_id flow s r s' : s.(dm_flows) !! flow_id = Some flow → advance_sas flow_id s = (r, s') →
  ∃ l flow', polled flow l flow' ∧ talk l s s' ∧ s'.(dm_flows) = <[flow_id := flow']> s.(dm_flows) ∧
    match r with Ok a => shows a flow' l | Err _ => True end ∧ (∀ sas a, last l = Some (LSeen sas a) → r = Ok a).
Proof.
  intros Hf. unfold advance_sas, get_flow. rewrite Hf. destruct flow as [request|sas].
  - assert (∀ a : SasAdvance, a = Pending ∨ a = Cancelled → ∀ s1, s1.(dm_log) = s.(dm_log) → s1.(dm_conn) = s.(dm_conn) → s1.(dm_read_timeout) = s.(dm_read_timeout) →
      s1.(dm_flows) = s.(dm_flows) →
      ∃ l flow', polled (Requested request) l flow' ∧ talk l s s1 ∧ s1.(dm_flows) = <[flow_id := flow']> s.(dm_flows) ∧ shows a flow' l ∧ (∀ sas a', last l = Some (LSeen sas a') → Ok a = Ok (E := VerificationError) a')) as Hstay.
    { intros a Ha s1 Hl Hc Ht Hfl. exists [], (Requested request). rewrite insert_id, Hfl by done. split_and!; [constructor|by apply talk_same|done| |done].
      by destruct Ha as [-> | ->]. }
    destruct (req_is_cancelled _ _); [intros [= <- <-]; apply Hstay; auto|].
    destruct (req_is_ready _ _); [|intros [= <- <-]; apply Hstay; auto].
    unfold on_world, sdk. destruct (sdk_start_sas request (dm_world s)) as [[[sas|]|e] w]; intros E.
    + set (a := advance_for_sas w sas). exists [LSas request sas; LSeen sas a], (Active sas).
      assert (s' = (observe_sas sas (note (LSas request sas) (set_flow flow_id (Active sas) (set_world w s)))).2) as -> by (by rewrite E).
      injection E as <-. split_and!; [by repeat constructor| |done| |by intros ? ? [= <- <-]].
      * apply (talk_trans [_] [_] _ (note (LSas request sas) (set_flow flow_id (Active sas) (set_world w s)))); by apply talk_event.
      * subst a. unfold advance_for_sas. repeat case_match; cbn; eauto; eexists _, [_]; done.
    + injection E as <- <-. apply Hstay; auto.
    + injection E as <- <-. exists [], (Requested request). rewrite insert_id by done. split_and!; [constructor|by apply talk_same|done..].
  - intros [= <- <-]. exists [LSeen sas (advance_for_sas (dm_world s) sas)], (Active sas). rewrite insert_id by done.
    split_and!; [by repeat constructor|by apply talk_event|done| |by intros ? ? [= <- <-]]. unfold shows. case_match; eauto; eexists _, []; done.
Qed.
Lemma advance_keeps flow_id s : (advance_sas flow_id s).2.(dm_ticks) = s.(dm_ticks) ∧ (advance_sas flow_id s).2.(dm_running) = s.(dm_running).
Proof.
  unfold advance_sas. destruct (get_flow flow_id s) as [[request|sas]|]; [|done..].
  repeat case_match; simplify_eq; try done; unfold on_world, sdk in *; repeat case_match; simplify_eq; done.
Qed.

(** An exchange that is seen done ends a loop that waits for it. *)
Definition ends_done (reached : SasAdvance → bool) l (o : DriveOutcome) : Prop :=
  ∀ sas, last l = Some (LSeen sas Done) → reached Done = true → o = Reached Done.
(** The polls of a loop that ends in [o], of which [reached] lets it end. *)
Definition driven (flow_id : string) (reached : SasAdvance → bool) (flow : SasFlow) s (o : DriveOutcome) s' : Prop :=
  ∃ l flow', polled flow l flow' ∧ talk l s s' ∧ s'.(dm_flows) = <[flow_id := flow']> s.(dm_flows) ∧
    match o with Reached a => reached a = true ∧ a ≠ Cancelled ∧ shows a flow' l | _ => True end ∧ ends_done reached l o.
Lemma shows_app a flow l1 l2 : shows a flow l2 → shows a flow (l1 ++ l2).
Proof. destruct a; cbn; try done; intros (sas & l' & -> & ->); exists sas, (l1 ++ l'); by rewrite app_assoc. Qed.
Lemma driven_trans flow_id reached flow l flow1 s s1 o s' :
  polled flow l flow1 → talk l s s1 → s1.(dm_flows) = <[flow_id := flow1]> s.(dm_flows) → ends_done reached l o →
  driven flow_id reached flow1 s1 o s' → driven flow_id reached flow s o s'.
Proof.
  intros Hp Hk Hfl He (l2 & f2 & Hp2 & Hk2 & Hfl2 & Ho & He2). exists (l ++ l2), f2. split_and!; [by eapply polled_trans|by eapply talk_trans| | |].
  - rewrite Hfl2, Hfl. apply insert_insert_eq.
  - destruct o; try done. destruct Ho as (? & ? & ?). split_and!; [done..|by apply shows_app].
  - intros sas. rewrite last_app. destruct (last l2) eqn:El; [|apply He]. intros [= ->]. by apply (He2 sas).
Qed.
Lemma driven_here flow_id reached flow s o : s.(dm_flows) !! flow_id = Some flow → (match o with Reached _ => False | _ => True end) →
  driven flow_id reached flow s o s.
Proof. intros Hf Ho. exists [], flow. rewrite insert_id by done. split_and!; [constructor|by apply talk_same|done|by destruct o|done]. Qed.
Lemma drive_poll fuel flow_id deadline reached : ∀ s flow o s',
  s.(dm_flows) !! flow_id = Some flow → drive_loop debug clock fuel flow_id deadline reached s = Some (o, s') → driven flow_id reached flow s o s'.
Proof.
  induction fuel as [|fuel IH]; intros s flow o s' Hf; cbn [drive_loop]; [done|].
  destruct (negb (dm_running s)); [intros [= <- <-]; by apply driven_here|].
  cbn [now fst snd]. destruct (deadline <=? _).
  { intros [= <- <-]. apply (driven_trans flow_id reached flow [] flow s (tick s)); [constructor|by apply talk_same|by rewrite insert_id|done|by apply driven_here]. }
  unfold on_world at 1. destruct (sdk_sync_for _ _) as [r w] eqn:Hsync. cbn [fst snd].
  destruct (advance_sas flow_id (set_world w (tick s))) as [a s1] eqn:Ha.
  destruct (advance_poll flow_id flow (set_world w (tick s)) _ _ Hf Ha) as (l & f1 & Hp & Hk & Hfl & Hsh & Hlast).
  assert (talk l s s1) as Hk1 by (apply (talk_trans [] l _ (set_world w (tick s))); [by apply talk_same|done]).
  assert (s1.(dm_flows) !! flow_id = Some f1) as Hf1 by (by rewrite Hfl, lookup_insert_eq).
  assert (∀ o', a ≠ Ok Done ∨ o' = Reached Done ∨ reached Done = false → ends_done reached l o') as Hends.
  { intros o' Ho sas Hl Hr. pose proof (Hlast sas Done Hl) as ->. destruct Ho as [Ho|[Ho|Ho]]; [done|done|congruence]. }
  intros E. destruct a as [a|e]; [|injection E as <- <-; eapply driven_trans; [done..|apply Hends; by left|by apply driven_here]].
  destruct (decide (a = Cancelled)) as [->|Hne]; [injection E as <- <-; eapply driven_trans; [done..|apply Hends; by left|by apply driven_here]|].
  assert ((if reached a then Some (Reached a, s1) else drive_loop debug clock fuel flow_id deadline reached s1) = Some (o, s')) as E' by (by destruct a).
  destruct (reached a) eqn:Hr.
  - injection E' as <- <-. exists l, f1. split_and!; [done..|]. apply Hends. destruct (decide (a = Done)) as [->|]; [auto|left; congruence].
  - eapply driven_trans; [done..|apply Hends|by apply IH]. destruct (decide (a = Done)) as [->|]; [auto|left; congruence].
Qed.
Lemma drive_until_poll fuel flow_id reached s flow o s' :
  s.(dm_flows) !! flow_id = Some flow → drive_until debug clock fuel flow_id reached s = Some (o, s') → driven flow_id reached flow s o s'.
Proof.
  intros Hf E. apply (driven_trans flow_id reached flow [] flow s (tick s)); [constructor|by apply talk_same|by rewrite insert_id|done|]. eapply drive_poll; [exact Hf|exact E].
Qed.

(** The loop ends when the clock passes the deadline, at the latest. *)
Lemma drive_loop_total flow_id deadline reached k : ∀ s, (∃ m, (s.(dm_ticks) ≤ m < s.(dm_ticks) + k)%nat ∧ deadline ≤ clock m) →
  ∃ r, ∀ fuel, (k ≤ fuel)%nat → drive_loop debug clock fuel flow_id deadline reached s = Some r.
Proof.
  induction k as [|k IH]; intros s (m & Hm & Hc); [lia|].
  assert (∃ r, ∀ fuel, (k ≤ fuel)%nat → drive_loop debug clock (S fuel) flow_id deadline reached s = Some r) as (r & Hr).
  2: { exists r. intros [|fuel] Hfuel; [lia|]. apply Hr. lia. }
  cbn [drive_loop]. destruct (negb (dm_running s)); [by eexists|]. cbn [now fst snd].
  destruct (Z.leb_spec deadline (clock (dm_ticks s))); [by eexists|].
  unfold on_world at 1. destruct (sdk_sync_for _ _) as [r w]. cbn [fst snd].
  pose proof (advance_keeps flow_id (set_world w (tick s))) as [Ht _]. destruct (advance_sas flow_id (set_world w (tick s))) as [a s1]. cbn [snd dm_ticks tick set_world] in Ht.
  destruct (IH s1) as (r1 & Hr1).
  { exists m. rewrite Ht. split; [|done]. assert (m ≠ dm_ticks s) by (intros ->; lia). lia. }
  destruct a as [[]|e]; try (destruct (reached _); [by eexists|by exists r1]); by eexists.
Qed.
Definition clock_runs : Prop := ∀ n t, ∃ m, (n ≤ m)%nat ∧ t ≤ clock m.
Lemma drive_until_total flow_id reached s : clock_runs → ∃ n r, ∀ fuel, (n ≤ fuel)%nat → drive_until debug clock fuel flow_id reached s = Some r.
Proof.
  intros Hc. unfold drive_until. cbn [now]. destruct (Hc (S s.(dm_ticks)) (clock s.(dm_ticks) + VERIFY_DEADLINE)) as (m & Hm & Ht).
  exists (S m). apply drive_loop_total. exists m. cbn [dm_ticks tick]. lia.
Qed.

(** The log of a run up to the short authentication string: the request to the device, the
    exchange that the SDK started from it, and the string that this exchange reported, shown. *)
Definition presented (user device flow_id : string) (sas : Sas) (emoji : option (list EmojiPair)) (decimals : option Decimals) l : Prop :=
  ∃ request l1 w1 w2, let polls := l1 ++ [LSeen sas (Ready emoji decimals)] in
    polled (Requested request) polls (Active sas) ∧
    l = [LRequest user device request; LFrame (FStarted flow_id) w1] ++ polls ++ [LFrame (FEmojiReady flow_id emoji decimals) w2].
Definition unsuccessful (flow_id : string) (f : DeviceVerifyFrame) : Prop := f = FCancelled flow_id ∨ ∃ m, f = FError m.
Inductive flow_log (user device flow_id : string) : list Event → Prop :=
| fl_refused m w : flow_log user device flow_id [LFrame (FError m) w]
| fl_unpresented request l flow w f w' : polled (Requested request) l flow → unsuccessful flow_id f →
    flow_log user device flow_id ([LRequest user device request; LFrame (FStarted flow_id) w] ++ l ++ [LFrame f w'])
| fl_declined sas emoji decimals l w : presented user device flow_id sas emoji decimals l →
    flow_log user device flow_id (l ++ [LDecision Cancel; LCancelSas sas; LFrame (FCancelled flow_id) w])
| fl_not_confirmed sas emoji decimals l m w : presented user device flow_id sas emoji decimals l →
    flow_log user device flow_id (l ++ [LDecision Confirm; LConfirm sas false; LFrame (FError m) w])
| fl_confirmed sas emoji decimals l l2 f w : presented user device flow_id sas emoji decimals l →
    polled (Active sas) l2 (Active sas) → f = FConfirmed flow_id ∨ unsuccessful flow_id f →
    (f = FConfirmed flow_id ↔ last l2 = Some (LSeen sas Done)) →
    flow_log user device flow_id (l ++ [LDecision Confirm; LConfirm sas true] ++ l2 ++ [LFrame f w]).

Context `{MatrixServer W} {Session : Type} (restore_client : Session → st W WorkspaceError string).
Abbreviation run := (λ fuel flow_id session params s,
  run_device_verify debug restore_client clock fuel flow_id session params send_frame (wait_decision from_slice) s).

Lemma world_talk {E A} (m : st W E A) s r s' : on_world m s = (r, s') → talk [] s s' ∧ s'.(dm_flows) = s.(dm_flows).
Proof. unfold on_world. destruct (m (dm_world s)) as [r0 w]. intros [= <- <-]. split; [by apply talk_same|done]. Qed.
Lemma world_failed {E A} (m : st W E A) s r s' : on_world m s = (r, s') → s'.(dm_write_failed) = s.(dm_write_failed).
Proof. unfold on_world. destruct (m (dm_world s)) as [r0 w]. by intros [= <- <-]. Qed.
Lemma start_talk flow_id user device s r s' : start_sas debug flow_id user device s = (r, s') →
  match r with
  | Ok fid => fid = flow_id ∧ ∃ request, talk [LRequest user device request] s s' ∧ s'.(dm_flows) = <[flow_id := Requested request]> s.(dm_flows)
  | Err _ => talk [] s s' ∧ s'.(dm_flows) = s.(dm_flows)
  end.
Proof.
  unfold start_sas, Prelude.bind. destruct (on_world (find_device debug user device) s) as [[d|e] s1] eqn:E1; apply world_talk in E1 as [K1 F1]; [|by intros [= <- <-]].
  destruct (on_world (sdk (sdk_request_verification d)) s1) as [[request|e] s2] eqn:E2; apply world_talk in E2 as [K2 F2];
    pose proof (talk_trans _ _ _ _ _ K1 K2) as K; rewrite F1 in F2; [|by intros [= <- <-]].
  intros [= <- <-]. split; [done|]. exists request. split; [|cbn; by rewrite F2].
  apply (talk_trans [] [_] _ s2); [done|by apply talk_event].
Qed.
Lemma confirm_talk flow_id sas s r s' : s.(dm_flows) !! flow_id = Some (Active sas) → confirm_sas flow_id s = (r, s') →
  talk [LConfirm sas (is_ok r)] s s' ∧ s'.(dm_flows) = s.(dm_flows).
Proof.
  intros Hf. unfold confirm_sas, get_flow. rewrite Hf. destruct (on_world _ s) as [r1 s1] eqn:E. apply world_talk in E as [K F]. intros [= <- <-].
  split; [|done]. apply (talk_trans [] [_] _ s1); [done|by apply talk_event].
Qed.
Lemma cancel_talk flow_id sas s r s' : s.(dm_flows) !! flow_id = Some (Active sas) → cancel_sas flow_id s = (r, s') →
  talk [LCancelSas sas] s s' ∧ s'.(dm_flows) = delete flow_id s.(dm_flows).
Proof.
  intros Hf. unfold cancel_sas, get_flow. rewrite Hf. destruct (on_world _ s) as [r1 s1] eqn:E. apply world_talk in E as [K F]. intros [= <- <-].
  split; [|cbn; by rewrite F]. apply (talk_trans [] [_] _ s1); [done|by apply talk_event].
Qed.
(** A last frame, after which the flow is forgotten. *)
Lemma final_talk flow_id f l s s1 flows flow : flows !! flow_id = None → talk l s s1 → s1.(dm_flows) = <[flow_id := flow]> flows →
  ∃ w, talk (l ++ [LFrame f w]) s (forget_sas flow_id (send_frame f s1)) ∧ (forget_sas flow_id (send_frame f s1)).(dm_flows) = flows.
Proof.
  intros Hn K F. destruct (send_frame_talk f s1) as (w & K2 & F2). exists w. split.
  - pose proof (talk_trans _ _ _ _ _ K K2) as [L C T]. by split.
  - cbn. rewrite F2, F. by apply delete_insert_id.
Qed.
Lemma into_frame_unready flow_id o : (∀ emoji decimals, o ≠ Reached (Ready emoji decimals)) →
  (match o with Reached a => is_ready a = true | _ => True end) → unsuccessful flow_id (into_frame o flow_id).
Proof.
  intros Hn Ho. unfold unsuccessful. destruct o as [[]| | |]; cbn in *; eauto; try done.
Qed.
(** From the presentation on. *)
Lemma decision_log fuel user device flow_id sas emoji decimals l s0 s flows res s' :
  flows !! flow_id = None → s.(dm_flows) = <[flow_id := Active sas]> flows → talk l s0 s → presented user device flow_id sas emoji decimals l →
  run_decision debug clock fuel flow_id send_frame (wait_decision from_slice) s = Some (res, s') →
  s'.(dm_flows) = flows ∧ ∃ l', talk l' s0 s' ∧ res = Ok tt ∧ flow_log user device flow_id l'.
Proof.
  intros Hn F K Hpr. unfold run_decision, wait_decision.
  destruct (read_verify_decision from_slice VERIFY_DEADLINE s) as [[d s1]|] eqn:E1; [|done]. cbn [mbind option_bind].
  apply decision_talk in E1 as [K1 F1]. rewrite F in F1. assert (s1.(dm_flows) !! flow_id = Some (Active sas)) as Hf by (by rewrite F1, lookup_insert_eq).
  pose proof (talk_trans _ _ _ _ _ K K1) as K2. destruct d.
  - destruct (confirm_sas flow_id s1) as [r s2] eqn:E2. destruct (confirm_talk _ _ _ _ _ Hf E2) as [K3 F3]. rewrite F1 in F3.
    pose proof (talk_trans _ _ _ _ _ K2 K3) as K4. rewrite <- app_assoc in K4. cbn [app] in K4. destruct r as [[]|e]; cbn [is_ok] in K4.
    + destruct (drive_until debug clock fuel flow_id is_settled s2) as [[o s3]|] eqn:E3; [|done]. cbn [mbind option_bind].
      apply (drive_until_poll _ _ _ _ (Active sas)) in E3 as (l2 & flow & Hp & K5 & F5 & Ho & He); [|by rewrite F3, lookup_insert_eq].
      pose proof (polled_active _ _ _ Hp) as ->. rewrite F3, insert_insert_eq in F5.
      destruct (final_talk flow_id (into_frame o flow_id) _ _ _ _ _ Hn (talk_trans _ _ _ _ _ K4 K5) F5) as (w & K6 & F6).
      intros [= <- <-]. split; [done|]. eexists. split; [exact K6|]. split; [done|]. rewrite <- !app_assoc. econstructor; [exact Hpr|exact Hp|..].
      * unfold unsuccessful. destruct o as [[]| | |]; cbn; eauto.
      * split.
        -- destruct o as [[]| | |]; cbn; try done. destruct Ho as (_ & _ & sas' & l' & [= ->] & ->). by rewrite last_snoc.
        -- intros Hl. by rewrite (He sas Hl).
    + destruct (final_talk flow_id (FError (verification_error_text debug e)) _ _ _ _ _ Hn K4 F3) as (w & K6 & F6).
      intros [= <- <-]. split; [done|]. eexists. split; [exact K6|]. split; [done|]. rewrite <- app_assoc. by econstructor.
  - destruct (cancel_sas flow_id s1) as [r s2] eqn:E2. destruct (cancel_talk _ _ _ _ _ Hf E2) as [K3 F3]. rewrite F1, delete_insert_id in F3 by done.
    destruct (send_frame_talk (FCancelled flow_id) s2) as (w & K4 & F4). intros [= <- <-]. split; [by rewrite F4|].
    pose proof (talk_trans _ _ _ _ _ (talk_trans _ _ _ _ _ K2 K3) K4) as K5. eexists. split; [exact K5|]. split; [done|].
    rewrite <- !app_assoc. by econstructor.
Qed.
Lemma run_log fuel flow_id session params s res s' :
  s.(dm_flows) !! flow_id = None → run fuel flow_id session params s = Some (res, s') →
  s'.(dm_flows) = s.(dm_flows) ∧
  ∃ l, talk l s s' ∧ match res with Err _ => l = [] ∧ s'.(dm_write_failed) = s.(dm_write_failed) | Ok _ => flow_log params.(dvs_user) params.(dvs_device) flow_id l end.
Proof.
  intros Hn. cbn beta. unfold run_device_verify.
  destruct (on_world (restore_and_sync restore_client session) s) as [[me|e] s1] eqn:E1; pose proof (world_failed _ _ _ _ E1) as Hw;
    apply world_talk in E1 as [K1 F1]; [|intros [= <- <-]; split; [done|]; by exists []].
  destruct (start_sas debug flow_id _ _ s1) as [[fid|e] s2] eqn:E2; apply start_talk in E2.
  2: { destruct E2 as [K2 F2]. destruct (send_frame_talk (FError (verification_error_text debug e)) s2) as (w & K3 & F3).
       pose proof (talk_trans _ _ _ _ _ K1 (talk_trans _ _ _ _ _ K2 K3)) as K. intros [= <- <-]. split; [by rewrite F3, F2, F1|].
       eexists. split; [exact K|constructor]. }
  destruct E2 as (-> & request & K2 & F2). destruct (send_frame_talk (FStarted flow_id) s2) as (w1 & K3 & F3).
  pose proof (talk_trans _ _ _ _ _ K1 (talk_trans _ _ _ _ _ K2 K3)) as K. cbn [app] in K. rewrite F2, F1 in F3.
  destruct (drive_until debug clock fuel flow_id is_ready (send_frame (FStarted flow_id) s2)) as [[o s4]|] eqn:E4; [|done]. cbn [mbind option_bind].
  apply (drive_until_poll _ _ _ _ (Requested request)) in E4 as (l & flow & Hp & K4 & F4 & Ho & _); [|by rewrite F3, lookup_insert_eq].
  rewrite F3, insert_insert_eq in F4. pose proof (talk_trans _ _ _ _ _ K K4) as K5. clear K1 K2 K3 K K4.
  assert ((∃ emoji decimals, o = Reached (Ready emoji decimals)) ∨ ∀ emoji decimals, o ≠ Reached (Ready emoji decimals)) as [(emoji & decimals & ->)|Hnr]
    by (destruct o as [[]| | |]; (by right) || (left; by do 2 eexists)).
  - destruct Ho as (_ & _ & sas & l' & -> & ->). destruct (send_frame_talk (FEmojiReady flow_id emoji decimals) s4) as (w2 & K6 & F6).
    intros E. eapply decision_log in E as (? & l2 & ? & -> & ?); [|exact Hn|by rewrite F6|exact (talk_trans _ _ _ _ _ K5 K6)|].
    + split; [done|]. by exists l2.
    + exists request, l', w1, w2. split; [done|]. by rewrite <- app_assoc.
  - destruct (final_talk flow_id (into_frame o flow_id) _ _ _ _ _ Hn K5 F4) as (w & K6 & F6).
    assert (Some (Ok tt, forget_sas flow_id (send_frame (into_frame o flow_id) s4)) = Some (res, s') →
      dm_flows s' = dm_flows s ∧ ∃ l0, talk l0 s s' ∧ match res with Err _ => l0 = [] ∧ s'.(dm_write_failed) = s.(dm_write_failed) | Ok _ => flow_log params.(dvs_user) params.(dvs_device) flow_id l0 end) as Hend.
    { intros [= <- <-]. split; [done|]. eexists. split; [exact K6|]. rewrite <- app_assoc. econstructor; [exact Hp|].
      apply into_frame_unready; [done|]. by destruct o; [destruct Ho|..]. }
    destruct o as [[]| | |]; try exact Hend. by destruct (Hnr emoji decimals).
Qed.
Lemma decision_run_total flow_id s : clock_runs →
  ∃ n r, ∀ fuel, (n ≤ fuel)%nat → run_decision debug clock fuel flow_id send_frame (wait_decision from_slice) s = Some r.
Proof.
  intros Hc. unfold run_decision, wait_decision. destruct (decision_total VERIFY_DEADLINE s) as [[d s1] ->]. cbn [mbind option_bind]. destruct d.
  - destruct (confirm_sas flow_id s1) as [[[]|e] s2]; [|by exists 0%nat; eexists].
    destruct (drive_until_total flow_id is_settled s2 Hc) as (n & [o s3] & Hd). exists n. eexists. intros fuel Hfuel. rewrite Hd by done. done.
  - destruct (cancel_sas flow_id s1) as [r s2]. by exists 0%nat; eexists.
Qed.
Lemma run_total flow_id session params s : clock_runs → ∃ n r, ∀ fuel, (n ≤ fuel)%nat → run fuel flow_id session params s = Some r.
Proof.
  intros Hc. cbn beta. unfold run_device_verify. destruct (on_world _ s) as [[me|e] s1]; [|by exists 0%nat; eexists].
  destruct (start_sas debug flow_id _ _ s1) as [[fid|e] s2]; [|by exists 0%nat; eexists].
  destruct (drive_until_total fid is_ready (send_frame (FStarted fid) s2) Hc) as (n & [o s3] & Hd).
  assert (∃ m r, ∀ fuel, (m ≤ fuel)%nat →
    match o with
    | Reached (Ready emoji decimals) => run_decision debug clock fuel fid send_frame (wait_decision from_slice) (send_frame (FEmojiReady fid emoji decimals) s3)
    | terminal => Some (Ok tt, forget_sas fid (send_frame (into_frame terminal fid) s3))
    end = Some r) as (m & r & Hr).
  { destruct o as [[]| | |]; try (by exists 0%nat; eexists). by apply decision_run_total. }
  exists (max n m), r. intros fuel Hfuel. rewrite Hd by lia. cbn [mbind option_bind]. apply Hr. lia.
Qed.
End protocol.

Section verification.
Context {W Dev Req Sas : Type} `{CryptoSdk W Dev Req Sas} (debug : string → string).
Context (from_slice : list Z → result Request string) (to_vec : Response → option (list Z)) (clock : nat → Z).
Context `{MatrixServer W} {Session : Type} (restore_client : Session → st W WorkspaceError string).
Context (start_params_of : Value → result DeviceVerifyStartParams string) (ops : Ops (D := W) (Session := Session)).
Context (workspace_error_text : WorkspaceError → string).
Abbreviation verify := (dispatch_device_verify debug restore_client from_slice to_vec clock start_params_of ops workspace_error_text).
Abbreviation talk := (λ req, talk (W := W) (Req := Req) (Sas := Sas) from_slice to_vec req.(req_id)).

Implicit Types s : Daemon (W := W) (Req := Req) (Sas := Sas).
(** The request is refused with one error response. *)
Definition refused (req : Request) s (res : result unit ErrorKind) s' : Prop :=
  ∃ r, responds req r ∧ is_error r = true ∧ s'.(dm_log) = s.(dm_log) ∧ answer to_vec r s.(dm_conn) = (res, s'.(dm_conn)).
Definition dispatched (flow_id : string) (req : Request) s (res : result unit ErrorKind) s' : Prop :=
  s'.(dm_flows) = s.(dm_flows) ∧ s'.(dm_read_timeout) = s.(dm_read_timeout) ∧
  (refused req s res s' ∨
   ∃ params l, start_params_of req.(req_params) = Ok params ∧ flow_log params.(dvs_user) params.(dvs_device) flow_id l ∧ talk req l s s' ∧ res = Ok tt).
Lemma reply_dispatched flow_id req r s s1 res s' :
  responds req r → is_error r = true → s1.(dm_flows) = s.(dm_flows) → s1.(dm_read_timeout) = s.(dm_read_timeout) → s1.(dm_log) = s.(dm_log) →
  s1.(dm_conn) = s.(dm_conn) → Some (reply to_vec r s1) = Some (res, s') → dispatched flow_id req s res s'.
Proof.
  intros Hr He F T L C. unfold reply. rewrite C, T. destruct (answer to_vec r (dm_conn s)) as [res' c] eqn:Ea. intros [= <- <-].
  split_and!; [done..|]. left. by exists r.
Qed.
Lemma dispatch_log fuel flow_id req s res s' :
  s.(dm_flows) !! flow_id = None → verify fuel flow_id req s = Some (res, s') → dispatched flow_id req s res s'.
Proof.
  intros Hn. unfold dispatch_device_verify.
  assert (∀ code m, Some (reply to_vec (response_error req.(req_id) code m) s) = Some (res, s') → dispatched flow_id req s res s') as Hreply.
  { intros code m. apply reply_dispatched; [apply responds_error|done..]. }
  destruct (start_params_of (req_params req)) as [params|e] eqn:Hpar; cbn [parse_params]; [|apply Hreply].
  unfold load_daemon_session_response. destruct (op_session ops (dm_world s)) as [[session|]|e]; [|apply Hreply..].
  destruct (op_runtime ops (dm_world s)) as [[]|e]; [|apply Hreply].
  destruct (run_device_verify _ _ _ _ _ _ _ _ _ _) as [[r s1]|] eqn:E; [|done]. cbn [mbind option_bind].
  apply run_log in E as (F & l & [L C T] & Hr); [|done]. destruct r as [[]|e].
  - assert (dispatched flow_id req s (Ok tt) s1) as Hd.
    { split_and!; [done..|]. right. exists params, l. split_and!; [done..| |done]. by split. }
    destruct (dm_write_failed s1); by intros [= <- <-].
  - destruct Hr as [-> ->]. cbn [foldl dm_conn dm_log set_flags dm_read_timeout dm_flows dm_write_failed] in *. injection C as C. rewrite app_nil_r in L.
    apply reply_dispatched; [apply responds_error|done..].
Qed.
Lemma dispatch_total flow_id req s : clock_runs clock → ∃ n r, ∀ fuel, (n ≤ fuel)%nat → verify fuel flow_id req s = Some r.
Proof.
  intros Hc. unfold dispatch_device_verify. destruct (parse_params req _) as [params|r]; [|by exists 0%nat; eexists].
  destruct (load_daemon_session_response _ _ _) as [session|r]; [|by exists 0%nat; eexists].
  destruct (op_runtime ops (dm_world s)) as [[]|e]; [|by exists 0%nat; eexists].
  destruct (run_total debug from_slice to_vec clock req.(req_id) restore_client flow_id session params (set_flags true false s) Hc) as (n & [r s1] & Hr).
  destruct (dm_write_failed s1) eqn:Hw, r; exists n; eexists; intros fuel Hfuel; rewrite Hr by done; cbn [mbind option_bind]; by rewrite Hw.
Qed.

(** An interactive verification follows its protocol.  Whatever the SDK, the peer and the
    client do, if time passes: [device.verify.start] ends; the registry of flows and the read
    timeout of the socket are as before; and either the request is refused with an error
    response, or the log is that of one flow.  The SDK is asked to confirm at most one
    exchange, the one it started itself from the request sent to the device named, after that
    exchange reported its short authentication string, the string was handed to the client and a
    [confirm] frame was read from the connection; anything else read is a decision to
    cancel, which is passed on; and the client is told that the device is verified exactly
    when the exchange reported that it is done, after the confirmation. *)
Theorem device_verify_protocol flow_id req s :
  clock_runs clock → s.(dm_flows) !! flow_id = None →
  ∃ n res s', (∀ fuel, (n ≤ fuel)%nat → verify fuel flow_id req s = Some (res, s')) ∧ dispatched flow_id req s res s'.
Proof.
  intros Hc Hn. destruct (dispatch_total flow_id req s Hc) as (n & [res s'] & Hr). exists n, res, s'. split; [done|].
  apply (dispatch_log n); [done|]. by apply Hr.
Qed.
End verification.

(** ** The frames read back *)

Definition u16 (n : Z) : Prop := 0 ≤ n < 65536.
Definition frame_u16 (f : DeviceVerifyFrame) : Prop :=
  match f with FEmojiReady _ _ (Some (a, b, c)) => u16 a ∧ u16 b ∧ u16 c | _ => True end.
Lemma u16_roundtrip n : u16 n → u16_of (Num (NumInt n)) = Some n.
Proof. intros [H1 H2]. cbn. by rewrite (proj2 (Z.leb_le _ _) H1), (proj2 (Z.ltb_lt _ _) H2). Qed.
Lemma emojis_roundtrip l : emojis_of (Array (map emoji_value l)) = Some l.
Proof. cbn. induction l as [|[symbol description] l IH]; [done|]. cbn [map mapM]. rewrite IH. done. Qed.
Lemma decimals_roundtrip a b c : u16 a → u16 b → u16 c → decimals_of (decimals_value (a, b, c)) = Some (a, b, c).
Proof. intros Ha Hb Hc. cbn [decimals_of decimals_value]. by rewrite !u16_roundtrip. Qed.
Lemma get_opt_skip {A} key (value : A → Value) decode o es es' :
  (∀ x, o = Some x → value x ≠ Null ∧ decode (value x) = Some x) → get_field key es' = None → get_field key es = None →
  get_opt key decode (es ++ skip_none key value o ++ es') = Some o.
Proof.
  intros Hv Hn' Hn. unfold get_opt. assert (get_field key (es ++ skip_none key value o ++ es') = value <$> o) as ->.
  { clear Hv. induction es as [|[k v] es IH]; cbn -[String.eqb] in *; [destruct o; [cbn; by rewrite str_eqb_refl|done]|].
    destruct (k =s key); [done|]. by apply IH. }
  destruct o as [x|]; [|done]. destruct (Hv x eq_refl) as [Hx Hd]. cbn. rewrite Hd. by destruct (value x).
Qed.
Lemma verify_frame_roundtrip f : frame_u16 f → verify_frame_of (verify_frame_value f) = Some f.
Proof.
  destruct f as [|flow_id emoji decimals| | |]; try done; intros Hf. cbn [verify_frame_of verify_frame_value].
  set (es := skip_none "decimals" _ _ ++ _). assert (get_str "event" es = Some "emoji-ready" ∧ get_str "flow_id" es = Some flow_id) as [-> ->]
    by (subst es; by destruct emoji, decimals).
  cbn [mbind option_bind]. cbn [str_eqb]. subst es.
  rewrite (get_opt_skip "emoji"); [|intros l _; split; [done|apply emojis_roundtrip]|reflexivity|by destruct decimals]. cbn [mbind option_bind].
  pose proof (get_opt_skip "decimals" decimals_value decimals_of decimals []) as Hd. cbn [app] in Hd.
  rewrite Hd; [done| |by destruct emoji|done]. intros [[a b] c] ->. split; [done|]. by apply decimals_roundtrip; apply Hf.
Qed.

(** ** The client and the daemon together *)

Section client.
Context (encode_request : Request → option (list Z)) (to_vec : Response → option (list Z)) (decode_response : list Z → option Response) (id : Value).
Implicit Types (c : Cli) (fs : list DeviceVerifyFrame).
Definition decision_request (yes : bool) : Request := request_new (Num (NumInt 2)) (if yes then "confirm" else "cancel") Null.
(** What the client prints, answers and returns for the frames it gets. *)
Definition shown (json : bool) (f : DeviceVerifyFrame) : CliLine :=
  if json then CJson f else match f with FStarted i => CRequested i | FEmojiReady _ e d => CSas e d | FConfirmed _ => CVerified | FCancelled _ => CCancelled | FError _ => CFailed end.
Definition closing (json : bool) (f : DeviceVerifyFrame) : list CliLine :=
  match f with FError _ => if json then [CJson f; CFailed] else [CFailed] | _ => [shown json f] end.
Fixpoint client_spec (json : bool) fs (stdin : list (result string unit)) : Z * list CliLine * list bool :=
  match fs with
  | [] => (FAILURE, [CFailed], [])
  | f :: fs =>
    match f with
    | FStarted _ => let '(code, lines, sent) := client_spec json fs stdin in (code, shown json f :: lines, sent)
    | FEmojiReady _ _ _ =>
      let '(yes, stdin) := prompt_yes_no stdin in
      let '(code, lines, sent) := client_spec json fs stdin in (code, shown json f :: CAsked yes :: lines, yes :: sent)
    | FConfirmed _ => (SUCCESS, closing json f, [])
    | _ => (FAILURE, closing json f, [])
    end
  end.
Definition sends (r : Request) (bytes : list Z) : Prop := encode_request r = Some bytes ∧ fits bytes.
Definition readable (f : DeviceVerifyFrame) : Prop :=
  frame_u16 f ∧ fits (encode_response to_vec (verify_response id f)) ∧
  decode_response (encode_response to_vec (verify_response id f)) = Some (verify_response id f).
Definition cli_in c : Reader := c.(cv_client).(cl_in).
Definition cli_out c : Writer := c.(cv_client).(cl_out).

Lemma recv_frame f rest client : readable f → no_errors client.(cl_in) →
  client.(cl_in).(rd_data) = frame (encode_response to_vec (verify_response id f)) ++ rest →
  ∃ r, client_recv decode_response client = Some (Ok (verify_response id f), {| cl_in := r; cl_out := client.(cl_out); cl_next_id := client.(cl_next_id) |}) ∧
    no_errors r ∧ r.(rd_data) = rest.
Proof.
  intros (_ & Hf & Hd) Hne Hdata. destruct (read_frame_whole _ _ _ Hf Hne Hdata) as (r & Hr & Hrest & Hne').
  exists r. unfold client_recv. rewrite Hr. cbn [mbind option_bind]. rewrite Hd. by split_and!.
Qed.
Lemma send_ok r bytes client out : sends r bytes → client.(cl_out) = {| wr_out := out; wr_fail := None |} →
  client_send encode_request r client =
    (Ok tt, {| cl_in := client.(cl_in); cl_out := {| wr_out := out ++ frame bytes; wr_fail := None |}; cl_next_id := client.(cl_next_id) |}).
Proof. intros [He Hf] Ho. unfold client_send. by rewrite He, Ho, write_frame_ok. Qed.

Lemma client_follows json bytes fs : (∀ yes, sends (decision_request yes) (bytes yes)) → ∀ fuel c code c' out,
  Forall readable fs → no_errors (cli_in c) → (cli_in c).(rd_data) = output_of to_vec (map (verify_response id) fs) →
  cli_out c = {| wr_out := out; wr_fail := None |} → verify_frames encode_request decode_response json fuel c = Some (code, c') →
  let '(code', lines, sent) := client_spec json fs c.(cv_stdin) in
  code = code' ∧ c'.(cv_lines) = c.(cv_lines) ++ lines ∧ cli_out c' = {| wr_out := out ++ concat (map (λ yes, frame (bytes yes)) sent); wr_fail := None |}.
Proof.
  intros Hb. induction fs as [|f fs IH]; intros fuel c code c' out Hfs Hne Hd Ho; (destruct fuel as [|fuel]; [done|]); cbn [verify_frames].
  - unfold client_recv. destruct (read_frame_partial [] [] (cli_in c)) as (r' & Hr); [done|done|exact Hd|apply prefix_nil|done|].
    unfold cli_in in Hr. rewrite Hr. cbn. intros [= <- <-]. cbn. by rewrite app_nil_r, <- Ho.
  - apply Forall_cons in Hfs as [Hf Hfs]. destruct (recv_frame f _ _ Hf Hne Hd) as (r & -> & Hner & Hdr). cbn [mbind option_bind].
    cbn [verify_response response_result rsp_error rsp_result unwrap_or]. rewrite verify_frame_roundtrip by apply Hf.
    set (cl := {| cl_in := r; cl_out := cl_out (cv_client c); cl_next_id := cl_next_id (cv_client c) |}).
    destruct f as [i|i e d|i|i|m]; cbn [client_spec].
    + intros E. assert (∃ c1, verify_frames encode_request decode_response json fuel c1 = Some (code, c') ∧ cv_stdin c1 = cv_stdin c ∧ cli_in c1 = r ∧
        cli_out c1 = cli_out c ∧ cv_lines c1 = cv_lines c ++ [shown json (FStarted i)]) as (c1 & E1 & Hs & Hi & Hout & Hl) by (eexists; split; [exact E|]; by destruct json).
      specialize (IH fuel c1 code c' out Hfs). rewrite Hi, Hout, Hs in IH. specialize (IH Hner Hdr Ho E1).
      destruct (client_spec json fs (cv_stdin c)) as [[code' lines] sent]. destruct IH as (-> & Hl' & Ho'). by rewrite Hl', Hl, <- app_assoc.
    + unfold ask. assert (∀ c1, cv_stdin (say_if (negb json) (CSas e d) (say_if json (CJson (FEmojiReady i e d)) c1)) = cv_stdin c1) as -> by (by destruct json).
      cbn [with_client cv_stdin]. destruct (prompt_yes_no (cv_stdin c)) as [yes stdin] eqn:Hp. cbn [cv_client].
      assert (∀ c1, cv_client (say_if (negb json) (CSas e d) (say_if json (CJson (FEmojiReady i e d)) c1)) = cv_client c1) as -> by (by destruct json).
      assert (∀ c1, cv_lines (say_if (negb json) (CSas e d) (say_if json (CJson (FEmojiReady i e d)) c1)) = cv_lines c1 ++ [shown json (FEmojiReady i e d)]) as -> by (by destruct json).
      cbn [with_client cv_client cv_lines]. pose proof (send_ok (decision_request yes) (bytes yes) cl out (Hb yes) Ho) as Hsend.
      unfold decision_request in Hsend. rewrite Hsend. intros E.
      match type of E with verify_frames _ _ _ _ ?c2 = _ => specialize (IH fuel c2 code c' (out ++ frame (bytes yes)) Hfs Hner Hdr eq_refl E) end. cbn [with_client cv_stdin cv_lines] in IH.
      destruct (client_spec json fs stdin) as [[code' lines] sent]. destruct IH as (-> & Hl' & Ho'). by rewrite Hl', Ho', <- !app_assoc.
    + intros [= <- <-]. rewrite app_nil_r. by destruct json; cbn; rewrite <- Ho.
    + intros [= <- <-]. rewrite app_nil_r. by destruct json; cbn; rewrite <- Ho.
    + intros [= <- <-]. rewrite app_nil_r. by destruct json; cbn; rewrite <- Ho, <- ?app_assoc.
Qed.
(** A response that is an error, or none. *)
Lemma client_refused json fuel c code c' :
  (client_recv decode_response c.(cv_client) = None ∨
   (∃ client k, client_recv decode_response c.(cv_client) = Some (Err k, client)) ∨
   ∃ client r, client_recv decode_response c.(cv_client) = Some (Ok r, client) ∧ is_error r = true) →
  verify_frames encode_request decode_response json fuel c = Some (code, c') → code = FAILURE ∧ c'.(cv_lines) = c.(cv_lines) ++ [CFailed].
Proof.
  intros Hc. destruct fuel as [|fuel]; [done|]. cbn [verify_frames]. destruct Hc as [-> |[(client & k & ->)|(client & r & -> & He)]]; cbn [mbind option_bind]; [done|by intros [= <- <-]|].
  unfold is_error in He. apply bool_decide_eq_true in He as [e ->]. by intros [= <- <-].
Qed.
End client.

Section log_parts.
Context {Req Sas : Type}.
Implicit Types l : list (Event (Req := Req) (Sas := Sas)).
Definition frames l : list DeviceVerifyFrame := omap (λ e, match e with LFrame f _ => Some f | _ => None end) l.
Definition decisions l : list VerifyDecision := omap (λ e, match e with LDecision d => Some d | _ => None end) l.
Definition confirms l : list (Sas * bool) := omap (λ e, match e with LConfirm sas ok => Some (sas, ok) | _ => None end) l.
Lemma frames_app l1 l2 : frames (l1 ++ l2) = frames l1 ++ frames l2.
Proof. apply omap_app. Qed.
Lemma decisions_app l1 l2 : decisions (l1 ++ l2) = decisions l1 ++ decisions l2.
Proof. apply omap_app. Qed.
Lemma confirms_app l1 l2 : confirms (l1 ++ l2) = confirms l1 ++ confirms l2.
Proof. apply omap_app. Qed.
Lemma elem_of_frames f l : f ∈ frames l ↔ ∃ w, LFrame f w ∈ l.
Proof. unfold frames. rewrite list_elem_of_omap. split; [intros ([] & ? & [= <-]); eauto|intros [w Hw]; eauto]. Qed.
Lemma elem_of_confirms sas ok l : (sas, ok) ∈ confirms l ↔ LConfirm sas ok ∈ l.
Proof. unfold confirms. rewrite list_elem_of_omap. split; [by intros ([] & ? & [= <- <-])|intros Hl; eauto]. Qed.
Lemma polled_parts flow l flow' : polled flow l flow' → frames l = [] ∧ decisions l = [] ∧ confirms l = [].
Proof. induction 1; cbn; tauto. Qed.

(** The frames of a run, the decision in it, and the exchange confirmed. *)
Definition summary (flow_id : string) l : Prop :=
  (∃ fs f, frames l = fs ++ [f] ∧ unsuccessful flow_id f ∧ (fs = [] ∨ fs = [FStarted flow_id]) ∧ confirms l = []) ∨
  ∃ emoji decimals f d l1 l2,
    frames l = [FStarted flow_id; FEmojiReady flow_id emoji decimals; f] ∧ l = l1 ++ LDecision d :: l2 ∧ decisions l1 = [] ∧
    match d with
    | Cancel => f = FCancelled flow_id ∧ confirms l = []
    | Confirm => ∃ sas ok, confirms l = [(sas, ok)] ∧ LSeen sas (Ready emoji decimals) ∈ l ∧ (f = FConfirmed flow_id ∨ unsuccessful flow_id f)
    end.
Lemma presented_parts user device flow_id sas emoji decimals l : presented user device flow_id sas emoji decimals l →
  frames l = [FStarted flow_id; FEmojiReady flow_id emoji decimals] ∧ decisions l = [] ∧ confirms l = [] ∧ LSeen sas (Ready emoji decimals) ∈ l.
Proof.
  intros (request & l1 & w1 & w2 & Hp & ->). apply polled_parts in Hp as (Hf & Hd & Hc).
  rewrite !frames_app, !decisions_app, !confirms_app in *. rewrite Hf, Hd, Hc. split_and!; try done. set_solver.
Qed.
Lemma flow_summary user device flow_id l : flow_log user device flow_id l → summary flow_id l.
Proof.
  intros Hl. destruct Hl as [m w|request l flow w f w' Hp Hu|sas emoji decimals l w Hp|sas emoji decimals l m w Hp|sas emoji decimals l l2 f w Hp Hp2 Hf _].
  - left. exists [], (FError m). split_and!; [done|right; eauto|by left|done].
  - apply polled_parts in Hp as (Hf & _ & Hc). left. exists [FStarted flow_id], f. rewrite !frames_app, !confirms_app, Hf, Hc. split_and!; try done. by right.
  - apply presented_parts in Hp as (Hf & Hd & Hc & _). right. exists emoji, decimals, (FCancelled flow_id), Cancel, l. eexists.
    rewrite frames_app, confirms_app, Hf, Hc. by split_and!.
  - apply presented_parts in Hp as (Hf & Hd & Hc & Hs). right. exists emoji, decimals, (FError m), Confirm, l. eexists.
    rewrite frames_app, confirms_app, Hf, Hc. split_and!; [done..|]. exists sas, false. split_and!; [done|set_solver|]. right. right. by eexists.
  - apply presented_parts in Hp as (Hf1 & Hd & Hc & Hs). apply polled_parts in Hp2 as (Hf2 & _ & Hc2). right. exists emoji, decimals, f, Confirm, l. eexists.
    rewrite !frames_app, !confirms_app, Hf1, Hf2, Hc, Hc2. split_and!; [done..|]. exists sas, true. split_and!; [done|set_solver|done].
Qed.
End log_parts.

Section replayed.
Context {Req Sas : Type} (from_slice : list Z → result Request string) (to_vec : Response → option (list Z)) (id : Value).
Abbreviation replays := (replay (Req := Req) (Sas := Sas) from_slice to_vec id).
Implicit Types l : list (Event (Req := Req) (Sas := Sas)).
Lemma replay_nothing l : foldl replays None l = None.
Proof. by induction l. Qed.
Lemma replay_step e l c c' : foldl replays (Some c) (e :: l) = Some c' → ∃ c1, replays (Some c) e = Some c1 ∧ foldl replays (Some c1) l = Some c'.
Proof. cbn [foldl]. destruct (replays (Some c) e) as [c1|]; [by eexists|]. by rewrite replay_nothing. Qed.
Lemma replay_out l : ∀ c c' out, c.(cn_out) = {| wr_out := out; wr_fail := None |} → Forall (λ f, fits (encode_response to_vec (verify_response id f))) (frames l) →
  foldl replays (Some c) l = Some c' → c'.(cn_out) = {| wr_out := out ++ output_of to_vec (map (verify_response id) (frames l)); wr_fail := None |}.
Proof.
  induction l as [|e l IH]; intros c c' out Ho Hf; [intros [= <-]; by rewrite app_nil_r|]. intros (c1 & E & Hl)%replay_step.
  destruct e as [| | |f w|d| | |]; cbn [replay mbind option_bind] in E; try (injection E as <-; by apply (IH c)).
  - cbn [frames omap list_omap] in Hf. apply Forall_cons in Hf as [Hf1 Hf].
    rewrite (answer_fits to_vec _ _ out Ho) in E by (by apply Z.leb_le). case_bool_decide; [|done]. injection E as <-.
    eapply IH in Hl; [|reflexivity|exact Hf]. rewrite Hl. unfold output_of. cbn. by rewrite <- app_assoc.
  - destruct (read_frame (cn_in c)) as [[res r]|]; [|done]. cbn [mbind option_bind] in E. case_bool_decide; [|done]. injection E as <-. by apply (IH {| cn_in := r; cn_out := cn_out c |}).
Qed.
Lemma replay_decision l1 d l2 : ∀ c c', decisions l1 = [] → foldl replays (Some c) (l1 ++ LDecision d :: l2) = Some c' →
  ∃ res r, read_frame c.(cn_in) = Some (res, r) ∧ decision_of from_slice res = d.
Proof.
  induction l1 as [|e l1 IH]; intros c c' Hd; cbn [app]; intros (c1 & E & Hl)%replay_step.
  - cbn [replay mbind option_bind] in E. destruct (read_frame (cn_in c)) as [[res r]|]; [|done]. cbn [mbind option_bind] in E. case_bool_decide; [|done]. eauto.
  - destruct e as [| | |f w|d'| | |]; try discriminate Hd; try (injection E as <-; by apply (IH c c' Hd Hl)).
    cbn [replay mbind option_bind] in E. destruct (answer to_vec (verify_response id f) c) as [res c2] eqn:Ea. case_bool_decide; [|done]. injection E as <-.
    destruct (IH c2 c' Hd Hl) as (res' & r & Hr & ?). exists res', r. split; [|done]. rewrite <- Hr. f_equal.
    unfold answer in Ea. destruct (write_response _ _ _). by injection Ea as _ <-.
Qed.
End replayed.

Section together.
Context {W Dev Req Sas : Type} `{CryptoSdk W Dev Req Sas} (debug : string → string).
Context (from_slice : list Z → result Request string) (to_vec : Response → option (list Z)) (clock : nat → Z).
Context `{MatrixServer W} {Session : Type} (restore_client : Session → st W WorkspaceError string).
Context (start_params_of : Value → result DeviceVerifyStartParams string) (ops : Ops (D := W) (Session := Session)).
Context (workspace_error_text : WorkspaceError → string).
Context (encode_request : Request → option (list Z)) (decode_response : list Z → option Response) (start_params_value : DeviceVerifyStartParams → Value).
Implicit Types (s : Daemon (W := W) (Req := Req) (Sas := Sas)) (c : Cli).
Definition start_request (params : DeviceVerifyStartParams) : Request := request_new (Num (NumInt 1)) METHOD_DEVICE_VERIFY_START (start_params_value params).
(** The messages the two sides exchange are read as they were written. *)
Record wire (params : DeviceVerifyStartParams) (start : list Z) (bytes : bool → list Z) : Prop := {
  wi_start : sends encode_request (start_request params) start;
  wi_decision yes : sends encode_request (decision_request yes) (bytes yes);
  wi_from_slice yes : from_slice (bytes yes) = Ok (decision_request yes);
  wi_error r : is_error r = true → ∃ r', decode_response (encode_response to_vec r) = Some r' ∧ is_error r' = true;
}.
(** A verification between a client and the daemon: the daemon's connection after the request
    was read, and the client's from its start; each reads what the other writes. *)
Record session_of (json : bool) (params : DeviceVerifyStartParams) (flow_id : string) (req : Request) (start : list Z) s s' c (code : Z) c' : Prop := {
  so_fresh : s.(dm_flows) !! flow_id = None;
  so_log : s.(dm_log) = [];
  so_in : no_errors s.(dm_conn).(cn_in);
  so_out : s.(dm_conn).(cn_out) = {| wr_out := []; wr_fail := None |};
  so_daemon : ∃ fuel res, dispatch_device_verify debug restore_client from_slice to_vec clock start_params_of ops workspace_error_text fuel flow_id req s = Some (res, s');
  so_frames : Forall (readable to_vec decode_response req.(req_id)) (frames s'.(dm_log));
  so_lines : c.(cv_lines) = [];
  so_cli_in : no_errors (cli_in c);
  so_cli_out : cli_out c = {| wr_out := []; wr_fail := None |};
  so_client : ∃ fuel, device_verify_interactive encode_request decode_response json start_params_value fuel true params c = Some (code, c');
  so_to_client : (cli_in c).(rd_data) = s'.(dm_conn).(cn_out).(wr_out);
  so_to_daemon : (cli_out c').(wr_out) = frame start ++ s.(dm_conn).(cn_in).(rd_data);
}.
(** What the operator did, what the SDK was asked and what the client reports agree. *)
Definition faithful (json : bool) (flow_id : string) (log : list (Event (Req := Req) (Sas := Sas))) (code : Z) (lines : list CliLine) : Prop :=
  ((∃ sas ok, LConfirm sas ok ∈ log) ↔ CAsked true ∈ lines) ∧
  (∀ sas ok, LConfirm sas ok ∈ log → ∃ emoji decimals before after,
     LSeen sas (Ready emoji decimals) ∈ log ∧ lines = before ++ [shown json (FEmojiReady flow_id emoji decimals); CAsked true] ++ after) ∧
  (code = SUCCESS ↔ ∃ w, LFrame (FConfirmed flow_id) w ∈ log).

Lemma closing_quiet json f : CAsked true ∉ closing json f.
Proof. destruct f, json; cbn; rewrite ?not_elem_of_cons; split_and?; try done; apply not_elem_of_nil. Qed.
Lemma faithful_quiet json flow_id log lines : confirms log = [] → FConfirmed flow_id ∉ frames log → CAsked true ∉ lines → faithful json flow_id log FAILURE lines.
Proof.
  intros Hc Hf Hl. assert (∀ sas ok, LConfirm sas ok ∉ log) as Hn by (intros sas ok; rewrite <- elem_of_confirms, Hc; apply not_elem_of_nil).
  split_and!; [|by intros sas ok ?%Hn|]; split.
  - by intros (sas & ok & ?%Hn).
  - done.
  - done.
  - intros Hw. by destruct Hf; apply elem_of_frames.
Qed.
(** The client's code and lines for the frames of a run. *)
Lemma spec_short json flow_id fs f stdin : fs = [] ∨ fs = [FStarted flow_id] → unsuccessful flow_id f →
  ∃ lines, client_spec json (fs ++ [f]) stdin = (FAILURE, lines, []) ∧ CAsked true ∉ lines.
Proof.
  intros Hfs Hf. pose proof (closing_quiet json f) as Hq.
  assert (client_spec json [f] stdin = (FAILURE, closing json f, [])) as Hs by (by destruct Hf as [-> |[m ->]]).
  destruct Hfs as [-> | ->]; [by exists (closing json f)|]. exists (shown json (FStarted flow_id) :: closing json f). cbn [app client_spec] in *.
  rewrite Hs. split; [done|]. rewrite not_elem_of_cons. split; [by destruct json|done].
Qed.
Definition code_of (f : DeviceVerifyFrame) : Z := match f with FConfirmed _ => SUCCESS | _ => FAILURE end.
Lemma spec_full json flow_id emoji decimals f stdin : f = FConfirmed flow_id ∨ unsuccessful flow_id f →
  client_spec json [FStarted flow_id; FEmojiReady flow_id emoji decimals; f] stdin =
    (code_of f, [shown json (FStarted flow_id); shown json (FEmojiReady flow_id emoji decimals); CAsked (prompt_yes_no stdin).1] ++ closing json f,
     [(prompt_yes_no stdin).1]).
Proof. intros Hf. cbn [client_spec]. destruct (prompt_yes_no stdin) as [yes stdin']. by destruct Hf as [-> |[-> |[m ->]]]. Qed.
(** The client's answer is the daemon's decision. *)
Lemma answer_decision (bytes : bool → list Z) yes r res r' :
  from_slice (bytes yes) = Ok (decision_request yes) → fits (bytes yes) → no_errors r → r.(rd_data) = frame (bytes yes) →
  read_frame r = Some (res, r') → decision_of from_slice res = if yes then Confirm else Cancel.
Proof.
  intros Hb Hf Hne Hd. destruct (read_frame_whole (bytes yes) [] r Hf Hne) as (r1 & -> & _ & _); [by rewrite app_nil_r|].
  intros [= <- <-]. cbn. rewrite Hb. by destruct yes.
Qed.
Lemma flow_faithful json flow_id log code lines sent stdin :
  summary flow_id log → client_spec json (frames log) stdin = (code, lines, sent) →
  (∀ yes d l1 l2, sent = [yes] → log = l1 ++ LDecision d :: l2 → decisions l1 = [] → d = if yes then Confirm else Cancel) →
  faithful json flow_id log code lines.
Proof.
  intros [(fs & f & Hfr & Hu & Hfs & Hc)|(emoji & decimals & f & d & l1 & l2 & Hfr & Hl & Hd & Hres)] Hs Hdec.
  - destruct (spec_short json flow_id fs f stdin Hfs Hu) as (ls & E & Hq). rewrite Hfr, E in Hs. injection Hs as <- <- <-.
    apply faithful_quiet; [done| |done]. rewrite Hfr. destruct Hfs as [-> | ->], Hu as [-> |[m ->]]; cbn; rewrite ?not_elem_of_cons; split_and?; try done; apply not_elem_of_nil.
  - pose proof (closing_quiet json f) as Hq. rewrite Hfr, spec_full in Hs by (destruct d; [by destruct Hres as (? & ? & _ & _ & ?)|right; by left; destruct Hres as [-> _]]).
    injection Hs as <- <- <-. specialize (Hdec _ _ _ _ eq_refl Hl Hd). destruct (prompt_yes_no stdin).1; subst d.
    + destruct Hres as (sas & ok & Hc & Hseen & Hf). assert (∀ sas' ok', LConfirm sas' ok' ∈ log ↔ sas' = sas ∧ ok' = ok) as Hin.
      { intros sas' ok'. rewrite <- elem_of_confirms, Hc, list_elem_of_singleton. naive_solver. }
      split_and!.
      * split; [intros _; set_solver|intros _; exists sas, ok; by apply Hin].
      * intros sas' ok' [-> ->]%Hin. exists emoji, decimals, [shown json (FStarted flow_id)], (closing json f). done.
      * setoid_rewrite <- elem_of_frames. rewrite Hfr. destruct Hf as [-> |[-> |[m ->]]]; cbn [code_of]; split; try done; try set_solver.
    + destruct Hres as [-> Hc]. apply faithful_quiet; [done|rewrite Hfr; set_solver|]. cbn [app]. rewrite !not_elem_of_cons. split_and!; try done; by destruct json.
Qed.
Lemma start_sent json params start c fuel code c' : sends encode_request (start_request params) start → cli_out c = {| wr_out := []; wr_fail := None |} →
  device_verify_interactive encode_request decode_response json start_params_value fuel true params c = Some (code, c') →
  ∃ c1, verify_frames encode_request decode_response json fuel c1 = Some (code, c') ∧ cli_in c1 = cli_in c ∧
    cli_out c1 = {| wr_out := frame start; wr_fail := None |} ∧ c1.(cv_stdin) = c.(cv_stdin) ∧ c1.(cv_lines) = c.(cv_lines).
Proof.
  intros Hs Ho. unfold device_verify_interactive. cbn [negb]. pose proof (send_ok _ _ _ _ _ Hs Ho) as Hsend. unfold start_request in Hsend. rewrite Hsend.
  intros Hc. eexists. split; [exact Hc|]. done.
Qed.
Lemma refused_faithful json params flow_id req start bytes s s' c code c' res :
  wire params start bytes → session_of json params flow_id req start s s' c code c' → refused to_vec req s res s' →
  faithful json flow_id s'.(dm_log) code c'.(cv_lines).
Proof.
  intros [Wstart _ _ Werr] [_ Hlog0 _ Hout _ _ Hlines Hci Hco (fuel & Hc) Htc _] (r & _ & He & Hlog & Ha). rewrite Hlog, Hlog0.
  destruct (start_sent _ _ _ _ _ _ _ Wstart Hco Hc) as (c1 & Hc1 & Hi1 & _ & _ & Hl1).
  assert (code = FAILURE ∧ c'.(cv_lines) = c1.(cv_lines) ++ [CFailed]) as [-> ->].
  2: { rewrite Hl1, Hlines. cbn [app]. apply faithful_quiet; [done|apply not_elem_of_nil|]. rewrite not_elem_of_cons. split; [done|apply not_elem_of_nil]. }
  eapply client_refused; [|exact Hc1]. right. rewrite <- Hi1 in Htc, Hci. unfold cli_in in Htc, Hci. destruct (fits_frame to_vec r) eqn:Hf.
  - rewrite (answer_fits to_vec _ _ [] Hout Hf) in Ha. injection Ha as _ Hconn. rewrite <- Hconn in Htc. cbn [cn_out wr_out app] in Htc.
    rewrite <- (app_nil_r (frame _)) in Htc. destruct (read_frame_whole _ _ _ (proj1 (Z.leb_le _ _) Hf) Hci Htc) as (r' & Hr & _).
    destruct (Werr r He) as (r0 & Hdec & He0). right. do 2 eexists. split; [|exact He0]. unfold client_recv. rewrite Hr. cbn [mbind option_bind]. by rewrite Hdec.
  - rewrite (answer_too_large to_vec _ _ [] Hout Hf) in Ha. injection Ha as _ Hconn. rewrite <- Hconn, Hout in Htc.
    destruct (read_frame_partial [] [] (cl_in (cv_client c1))) as (r' & Hr); [done|done|exact Htc|apply prefix_nil|done|].
    left. do 2 eexists. unfold client_recv. by rewrite Hr.
Qed.

(** C21: a device is verified only if its operator says so, and the operator is told the
    truth.  When the command line client and the daemon talk over a connection that delivers
    what is written: the SDK is asked to confirm an exchange exactly if the operator answered
    the prompt with yes; the short authentication string printed before that answer is the
    one which that very exchange reported; and the client ends with success exactly if the daemon
    reported the exchange as done. *)
Theorem operator_decides json params flow_id req start bytes s s' c code c' :
  wire params start bytes → session_of json params flow_id req start s s' c code c' → faithful json flow_id s'.(dm_log) code c'.(cv_lines).
Proof.
  intros Hw Hs. pose proof Hw as [Wstart Wdec Wfrom _]. pose proof Hs as [Hfresh Hlog0 Hin Hout (fuel & res & Hrun) Hfr Hlines Hci Hco (cfuel & Hc) Htc Htd].
  apply dispatch_log in Hrun as (_ & _ & [Href|(p & l & _ & Hfl & [L C _] & _)]); [by eapply refused_faithful| |done].
  rewrite Hlog0 in L. cbn [app] in L. rewrite <- L in C, Hfl. clear L.
  destruct (start_sent _ _ _ _ _ _ _ Wstart Hco Hc) as (c1 & Hc1 & Hi1 & Ho1 & Hs1 & Hl1).
  assert (Forall (λ f, fits (encode_response to_vec (verify_response req.(req_id) f))) (frames s'.(dm_log))) as Hfits by (eapply Forall_impl; [exact Hfr|by intros f (_ & ? & _)]).
  rewrite (replay_out _ _ _ _ _ _ _ Hout Hfits C), <- Hi1 in Htc. rewrite <- Hi1 in Hci.
  eapply (client_follows _ _ _ _ _ _ _ Wdec) in Hc1; [|exact Hfr|exact Hci|exact Htc|exact Ho1].
  rewrite Hs1, Hl1, Hlines in Hc1. destruct (client_spec json (frames (dm_log s')) (cv_stdin c)) as [[code' lines] sent] eqn:Hspec.
  destruct Hc1 as (-> & -> & Ho). eapply flow_faithful; [by eapply flow_summary|exact Hspec|].
  intros yes d l1 l2 -> Hlog Hd1. rewrite Hlog in C. destruct (replay_decision _ _ _ _ _ _ _ _ Hd1 C) as (rr & r' & Hr & <-).
  rewrite Ho in Htd. cbn [wr_out map concat] in Htd. rewrite app_nil_r in Htd. apply app_inv_head in Htd.
  eapply answer_decision; [apply Wfrom|apply Wdec|exact Hin|by symmetry|exact Hr].
Qed.
End together.

(** ** Out-of-band verification and the verified-device gate *)

Section devices.
Context {W Dev Req Sas : Type} `{CryptoSdk W Dev Req Sas} (debug : string → string).
(** A key as the SDK prints it: base64, without spaces and colons. *)
Definition printed_key (k : string) : Prop := trim k = k ∧ strip_prefix "ed25519:" k = None.
Lemma normalize_key k fp : printed_key k → normalize_fingerprint fp = normalize_fingerprint k ↔ trim fp = k ∨ trim fp = "ed25519:" +:+ k.
Proof.
  intros [Ht Hp]. unfold normalize_fingerprint. rewrite Ht, Hp. cbn [default from_option id]. split.
  - destruct (strip_prefix "ed25519:" (trim fp)) as [body|] eqn:E; cbn; [|auto]. apply strip_prefix_Some in E. intros ->. by right.
  - intros [-> | ->]; [by rewrite Hp|]. by rewrite strip_prefix_app.
Qed.
Lemma check_fingerprint_ok d fp k : dev_ed25519_key d = Some k → printed_key k →
  check_fingerprint d (Some fp) = Ok tt ↔ trim fp = k ∨ trim fp = "ed25519:" +:+ k.
Proof.
  intros Hk Hp. rewrite <- (normalize_key k fp Hp). unfold check_fingerprint. rewrite Hk. cbn [default from_option id].
  destruct (normalize_fingerprint fp =s normalize_fingerprint k) eqn:E; cbn [negb]; [apply str_eqb_eq in E; split; intros _; [exact E|reflexivity]|apply str_eqb_neq in E; split; [discriminate|intros Hn; by destruct E]].
Qed.
Lemma scan_devices w ds : ∀ seen, foldl (scan_device w) seen ds = (seen.1 || negb (bool_decide (ds = [])), seen.2 && forallb (dev_is_verified w) ds).
Proof.
  induction ds as [|d ds IH]; intros [any all_]; cbn [foldl forallb fst snd]; [by rewrite orb_false_r, andb_true_r|].
  rewrite IH. cbn [scan_device fst snd]. rewrite orb_true_r. destruct (dev_is_verified w d), all_; done.
Qed.
Lemma sender_verified_true user w :
  (sender_verified user w).1 = Some true ↔
  ∃ u ds w', user_id_parse user = Ok u ∧ sdk_user_devices u w = (Ok ds, w') ∧ ds ≠ [] ∧ Forall (λ d, dev_is_verified w' d = true) ds.
Proof.
  unfold sender_verified. destruct (user_id_parse user) as [u|e]; [|by split; [|intros (? & ? & ? & ? & _)]].
  destruct (sdk_user_devices u w) as [[ds|e] w'] eqn:E; [|split; [done|intros (? & ? & ? & [= <-] & E2 & _); congruence]].
  rewrite scan_devices. cbn [fst snd orb andb]. split.
  - case_bool_decide as Hn; cbn; [done|]. intros [= Hall]. exists u, ds, w'. split_and!; try done. apply Forall_forall. intros d Hd. rewrite List.forallb_forall in Hall. by apply Hall, list_elem_of_In.
  - intros (u' & ds' & w'' & [= <-] & E' & Hn & Hall). rewrite E in E'. injection E' as <- <-. rewrite bool_decide_eq_false_2 by done. cbn. f_equal.
    apply List.forallb_forall. intros d Hd. rewrite Forall_forall in Hall. apply Hall. by apply list_elem_of_In.
Qed.
(** The transport gate fails safe: where the policy requires verified devices, a request
    passes exactly if the sender has devices and every one of them is verified; an unknown user,
    a failing crypto store and a user without devices do not pass. *)
Theorem verified_gate_exact user w (a : Allowance) :
  enforce_verified_device a (sender_verified user w).1 = Ok tt ↔
  (a.(al_require_verified_device) = true →
   ∃ u ds w', user_id_parse user = Ok u ∧ sdk_user_devices u w = (Ok ds, w') ∧ ds ≠ [] ∧ Forall (λ d, dev_is_verified w' d = true) ds).
Proof. by rewrite enforce_verified_device_Ok, sender_verified_true. Qed.
(** Out of band, a device is marked verified for a fingerprint exactly if that is its key, with
    or without its prefix and spaces around it; otherwise nothing changes. *)
Theorem manual_verify_exact user device fp w d w1 k :
  find_device debug user device w = (Ok d, w1) → dev_ed25519_key d = Some k → printed_key k →
  manual_verify debug user device (Some fp) w =
    if decide (trim fp = k ∨ trim fp = "ed25519:" +:+ k) then
      match sdk_set_verified d w1 with (Ok _, w2) => (Ok (device_info w2 d), w2) | (Err e, w2) => (Err (Sdk e), w2) end
    else (Err (FingerprintMismatch fp ("ed25519:" +:+ k)), w1).
Proof.
  intros Hd Hk Hp. unfold manual_verify, Prelude.bind, Prelude.lift. rewrite Hd. pose proof (check_fingerprint_ok d fp k Hk Hp) as Hc. case_decide as Hfp.
  - rewrite (proj2 Hc Hfp). unfold sdk. by destruct (sdk_set_verified d w1) as [[]?].
  - unfold check_fingerprint in *. rewrite Hk in *. cbn [default from_option id] in *. destruct (negb _); [done|]. by destruct Hfp; apply Hc.
Qed.
(** A device without a key is marked verified for an empty fingerprint. *)
Theorem keyless_device_accepts_empty user device w d w1 :
  find_device debug user device w = (Ok d, w1) → dev_ed25519_key d = None →
  manual_verify debug user device (Some "") w = manual_verify debug user device None w.
Proof. intros Hd Hk. unfold manual_verify, Prelude.bind, Prelude.lift. rewrite Hd. unfold check_fingerprint. by rewrite Hk. Qed.
End devices.

(** ** Witnesses *)

(** An SDK whose peer accepts after the first [/sync], shows its string after the second and
    is done with the first one after the confirmation. *)
Module DeviceExample.
Record World := { wd_syncs : nat; wd_confirmed : bool }.
#[export] Instance sdk_example : CryptoSdk World unit unit unit := {|
  user_id_parse u := Ok u;
  sdk_user_devices _ w := (Ok [tt], w);
  sdk_device _ _ w := (Ok (Some tt), w);
  sdk_joined_members _ _ w := (Ok [], w);
  dev_user_id _ := "@peer:hs";
  dev_device_id _ := "PEERDEV";
  dev_display_name _ := None;
  dev_ed25519_key _ := Some "AbCd";
  dev_is_verified w _ := w.(wd_confirmed);
  dev_is_cross_signed _ _ := false;
  dev_is_blacklisted _ _ := false;
  dev_is_locally_trusted w _ := w.(wd_confirmed);
  sdk_set_verified _ w := (Ok tt, {| wd_syncs := w.(wd_syncs); wd_confirmed := true |});
  sdk_cross_signing_status _ := None;
  sdk_bootstrap w := (Ok tt, w);
  sdk_recovery_state _ := RecoveryUnknown;
  sdk_backups_enabled _ := false;
  sdk_backup_exists w := (Ok false, w);
  sdk_enable_recovery w := (Err "", w);
  sdk_recover _ w := (Err "", w);
  sdk_request_verification _ w := (Ok tt, w);
  req_is_cancelled _ _ := false;
  req_is_ready w _ := (1 <=? w.(wd_syncs))%nat;
  sdk_start_sas _ w := (Ok (Some tt), w);
  sdk_req_cancel _ w := (Ok tt, w);
  sas_is_cancelled _ _ := false;
  sas_is_done w _ := w.(wd_confirmed);
  sas_can_be_presented w _ := (2 <=? w.(wd_syncs))%nat;
  sas_emoji_symbols _ _ := Some [("D", "Dog"); ("C", "Cat")];
  sas_decimals _ _ := Some (1234, 5678, 9012);
  sdk_sas_confirm _ w := (Ok tt, {| wd_syncs := w.(wd_syncs); wd_confirmed := true |});
  sdk_sas_cancel _ w := (Ok tt, w);
  sdk_sync_for _ w := (Ok tt, {| wd_syncs := S w.(wd_syncs); wd_confirmed := w.(wd_confirmed) |});
|}.
Definition no {A} : st World SdkError A := λ w, (Err {| se_kind := None; se_text := "" |}, w).
#[export] Instance server_example : MatrixServer World := {|
  sdk_create_room _ _ := no; sdk_join _ _ := no; sdk_sync_once _ w := (Ok "batch", w); sdk_resolve_alias _ _ := no; sdk_get_room _ _ _ := None;
  sdk_active_members _ _ := no; sdk_get_workspace_state _ _ := no; sdk_send_state _ _ _ _ _ := no; sdk_update_power_levels _ _ _ := no;
  power_levels _ _ := None; joined _ _ _ := False;
|}.
Definition restore_client (_ : unit) : st World WorkspaceError string := ret "@me:hs".
Definition ops : Ops (D := World) (Session := unit) :=
  {| op_session _ := Ok (Some tt); op_runtime _ := Ok tt; op_reload d := ((false, false), d); op_sync _ := None; op_policy _ := None; op_now _ := 7;
     op_status_value _ := Ok Null; op_method _ _ := Err ""; op_plain _ _ d := {| tm_ends := None; tm_result := Ok Null; tm_after := d; tm_dropped _ := d |};
     op_call_params _ := Err ""; op_call_matrix _ d := (Ok Null, d); op_call_loopback _ d := (Ok Null, d); op_exec_params _ := Err "";
     op_exec_matrix _ d := (Ok Null, d); op_exec_loopback _ d := (Ok Null, d); op_exec_value _ := Ok Null; op_stdin_params _ := Err "";
     op_stdin _ d := (Ok Null, d); op_cancel_params _ := Err ""; op_cancel _ d := (Ok Null, d) |}.
Definition params : DeviceVerifyStartParams := {| dvs_user := "@peer:hs"; dvs_device := "PEERDEV" |}.
Definition params_value (_ : DeviceVerifyStartParams) : Value := Null.
Definition params_of (_ : Value) : result DeviceVerifyStartParams string := Ok params.
Definition clock (n : nat) : Z := 1000 * Z.of_nat n.
Definition req : Request := start_request params_value params.
Definition emoji_ready : DeviceVerifyFrame := FEmojiReady "req_1" (Some [{| ep_symbol := "D"; ep_description := "Dog" |}; {| ep_symbol := "C"; ep_description := "Cat" |}]) (Some (1234, 5678, 9012)).
Definition messages : list DeviceVerifyFrame := [FStarted "req_1"; emoji_ready; FConfirmed "req_1"].
(** A message by its number. *)
Definition to_vec (r : Response) : option (list Z) :=
  Some (if is_error r then [0] else match verify_frame_of (unwrap_or r.(rsp_result) Null) with
       | Some (FStarted _) => [1] | Some (FEmojiReady _ _ _) => [2] | Some (FConfirmed _) => [3] | _ => [0]
       end).
Definition decode_response (bytes : list Z) : option Response :=
  match bytes with
  | [1] => Some (verify_response req.(req_id) (FStarted "req_1"))
  | [2] => Some (verify_response req.(req_id) emoji_ready)
  | [3] => Some (verify_response req.(req_id) (FConfirmed "req_1"))
  | _ => Some (response_error Null INTERNAL_ERROR "")
  end.
Definition encode_request (r : Request) : option (list Z) :=
  Some (if r.(req_method) =s "confirm" then [1] else if r.(req_method) =s "cancel" then [2] else [0]).
Definition bytes (yes : bool) : list Z := if yes then [1] else [2].
Definition from_slice (b : list Z) : result Request string :=
  match b with [1] => Ok (decision_request true) | [2] => Ok (decision_request false) | _ => Ok req end.
Definition reader (data : list Z) : Reader := {| rd_data := data; rd_events := [Chunk 0; Chunk 1] |}.
Definition empty : Writer := {| wr_out := []; wr_fail := None |}.
Definition daemon (data : list Z) : Daemon (W := World) (Req := unit) (Sas := unit) :=
  {| dm_world := {| wd_syncs := 0; wd_confirmed := false |}; dm_flows := ∅; dm_conn := {| cn_in := reader data; cn_out := empty |};
     dm_read_timeout := None; dm_running := true; dm_write_failed := false; dm_ticks := 0; dm_log := [] |}.
Abbreviation verify := (dispatch_device_verify (H := sdk_example) (H0 := server_example) (λ s, s) restore_client from_slice to_vec clock params_of ops (λ _, "")).
Definition cli (data : list Z) (line : string) : Cli :=
  {| cv_client := {| cl_in := reader data; cl_out := empty; cl_next_id := 1 |}; cv_stdin := [Ok line]; cv_lines := [] |}.
Definition log : list (Event (Req := unit) (Sas := unit)) :=
  [LRequest "@peer:hs" "PEERDEV" tt; LFrame (FStarted "req_1") true; LSas tt tt; LSeen tt Negotiating;
   LSeen tt (Ready (Some [{| ep_symbol := "D"; ep_description := "Dog" |}; {| ep_symbol := "C"; ep_description := "Cat" |}]) (Some (1234, 5678, 9012)));
   LFrame emoji_ready true; LDecision Confirm; LConfirm tt true; LSeen tt Done; LFrame (FConfirmed "req_1") true].
Definition output : list Z := output_of to_vec (map (verify_response req.(req_id)) messages).
Lemma clock_example : clock_runs clock.
Proof. intros n t. exists (max n (Z.to_nat t)). unfold clock. lia. Qed.
Lemma confirm_run : ∃ s', verify 9 "req_1" req (daemon (frame (bytes true))) = Some (Ok tt, s') ∧ s'.(dm_log) = log ∧ s'.(dm_conn).(cn_out).(wr_out) = output.
Proof. eexists. vm_compute. done. Qed.
Lemma client_run : ∃ c', device_verify_interactive encode_request decode_response false params_value 9 true params (cli output " Yes") = Some (SUCCESS, c') ∧
  c'.(cv_lines) = [CRequested "req_1"; shown false emoji_ready; CAsked true; CVerified] ∧ (cli_out c').(wr_out) = frame [0] ++ frame (bytes true).
Proof. eexists. vm_compute. done. Qed.
Lemma readable_log : Forall (readable to_vec decode_response req.(req_id)) (frames log).
Proof. repeat constructor; vm_compute; discriminate. Qed.
End DeviceExample.

Lemma device_verify_protocol_witness :
  ∃ n res s', (∀ fuel, (n ≤ fuel)%nat → dispatch_device_verify (H := DeviceExample.sdk_example) (H0 := DeviceExample.server_example) (λ s, s) DeviceExample.restore_client DeviceExample.from_slice DeviceExample.to_vec
      DeviceExample.clock DeviceExample.params_of DeviceExample.ops (λ _, "") fuel "req_1" DeviceExample.req (DeviceExample.daemon (frame [2])) = Some (res, s')) ∧
    dispatched DeviceExample.from_slice DeviceExample.to_vec DeviceExample.params_of "req_1" DeviceExample.req (DeviceExample.daemon (frame [2])) res s'.
Proof.
  apply (device_verify_protocol (λ s, s) DeviceExample.from_slice DeviceExample.to_vec DeviceExample.clock DeviceExample.restore_client
    DeviceExample.params_of DeviceExample.ops (λ _, "") "req_1" DeviceExample.req (DeviceExample.daemon (frame [2]))); [exact DeviceExample.clock_example|reflexivity].
Defined.
Lemma operator_decides_witness :
  ∃ s' c', faithful (Req := unit) (Sas := unit) false "req_1" s'.(dm_log (W := DeviceExample.World)) SUCCESS c'.(cv_lines) ∧ s'.(dm_log) = DeviceExample.log ∧ CAsked true ∈ c'.(cv_lines).
Proof.
  destruct DeviceExample.confirm_run as (s' & Hrun & Hlog & Hout).
  destruct DeviceExample.client_run as (c' & Hc & Hl & Hsent). exists s', c'. split; [|split; [exact Hlog|rewrite Hl, !elem_of_cons; tauto]].
  apply (operator_decides (H := DeviceExample.sdk_example) (H0 := DeviceExample.server_example) (λ s, s) DeviceExample.from_slice DeviceExample.to_vec DeviceExample.clock DeviceExample.restore_client
    DeviceExample.params_of DeviceExample.ops (λ _, "") DeviceExample.encode_request DeviceExample.decode_response DeviceExample.params_value
    false DeviceExample.params "req_1" DeviceExample.req [0] DeviceExample.bytes (DeviceExample.daemon (frame (DeviceExample.bytes true))) s'
    (DeviceExample.cli DeviceExample.output " Yes")).
  - split; [by split|by intros []; split|by intros []|]. intros r He. exists (response_error Null INTERNAL_ERROR ""). split; [|done].
    unfold encode_response, DeviceExample.to_vec. by rewrite He.
  - split.
    + reflexivity.
    + reflexivity.
    + repeat constructor; by eexists.
    + reflexivity.
    + exists 9%nat, (Ok tt). exact Hrun.
    + rewrite Hlog. exact DeviceExample.readable_log.
    + reflexivity.
    + repeat constructor; by eexists.
    + reflexivity.
    + exists 9%nat. exact Hc.
    + by rewrite Hout.
    + exact Hsent.
Defined.

(** A [confirm] that is already in the socket counts, even when the short authentication string
    could not be written to the client. *)
Theorem early_confirm_counts :
  ∃ s', dispatch_device_verify (H := DeviceExample.sdk_example) (H0 := DeviceExample.server_example) (λ s, s) DeviceExample.restore_client DeviceExample.from_slice
      DeviceExample.to_vec DeviceExample.clock DeviceExample.params_of DeviceExample.ops (λ _, "") 9 "req_1" DeviceExample.req
      (set_socket {| cn_in := DeviceExample.reader (frame (DeviceExample.bytes true)); cn_out := {| wr_out := []; wr_fail := Some (5%nat, OtherIo) |} |} None
        (DeviceExample.daemon [])) = Some (Ok tt, s') ∧
    LFrame DeviceExample.emoji_ready false ∈ s'.(dm_log) ∧ LConfirm tt true ∈ s'.(dm_log).
Proof. eexists. split; [vm_compute; reflexivity|]. cbn [dm_log]. rewrite !elem_of_cons. tauto. Qed.
