(* ===== verification/Lifecycle.v ===== *)
(** * The daemon process

    Models the start, the status and the stop of the daemon in
    [crates/mx-agent-daemon/src/lifecycle.rs]: its paths, the status file, the log file, the
    signals of [stop], [start_background], and the life of [run_foreground] from the policy
    gate to the removal of its files.  Files are those of [DataDir], processes those of
    [Orphans]; between any two calls other processes may change both. *)
From Stdlib Require Import ZArith Lia.
From stdpp Require Import functions gmap strings list.
From S2P Require Import Prelude RustStr PolicyLoad SyncLoop Orphans IpcServer DataDir.
Local Open Scope Z_scope.

(** ** Paths and the status file *)

Definition ENV_RUNTIME_DIR : string := "MX_AGENT_RUNTIME_DIR".
Record Paths := { pa_runtime_dir : Path; pa_status_file : Path; pa_socket_path : Path; pa_log_file : Path }.
(** [env] is [std::env::var(..).ok()], [path_from] is [PathBuf::from]. *)
Definition resolve (env : string → option string) (path_from : string → Path) (temp_dir : Path) : Paths :=
  let runtime_dir :=
    match env ENV_RUNTIME_DIR, env "XDG_RUNTIME_DIR" with
    | Some dir, _ => path_from dir
    | None, Some xdg => child (path_from xdg) "mx-agent"
    | None, None => child temp_dir "mx-agent"
    end in
  {| pa_runtime_dir := runtime_dir; pa_status_file := child runtime_dir "daemon.json"; pa_socket_path := child runtime_dir "daemon.sock";
     pa_log_file := child runtime_dir "daemon.log" |}.
Record StatusFile := { sf_pid : Z; sf_started_at_unix : Z; sf_socket_path : string; sf_version : string }.
Class StatusSerde := {
  status_to_vec_pretty : StatusFile → string;
  status_from_slice : string → option StatusFile;
}.
Class StatusSerdeLaws `{StatusSerde} : Prop := {
  status_roundtrip s : status_from_slice (status_to_vec_pretty s) = Some s;
}.

Section files.
Context `{StatusSerde} (paths : Paths).
Definition ensure_runtime_dir : FM unit :=
  let! there := fs_exists paths.(pa_runtime_dir) in
  if there then ret tt
  else
    let! _ := create_dir_all paths.(pa_runtime_dir) in
    set_permissions paths.(pa_runtime_dir) MODE_0700.
Definition read_status_file : FM (option StatusFile) :=
  on_not_found (let! bytes := fs_read paths.(pa_status_file) in ret (status_from_slice bytes)) (ret None).
Definition status_tmp : Path := child paths.(pa_runtime_dir) "daemon.json.tmp".
Definition write_status_file (status : StatusFile) : FM unit :=
  let! _ := ensure_runtime_dir in
  write_private status_tmp paths.(pa_status_file) (status_to_vec_pretty status).
(** The result is ignored. *)
Definition remove_status_file : FM unit := λ d, let '(_, d) := remove_file paths.(pa_status_file) d in (Ok tt, d).
(** [OpenOptions::new().create(true).append(true).mode(0o600).open(..)]. *)
Definition open_append (p : Path) (mode : Z) : FM unit :=
  syscall (λ fs,
    match fs !! p with
    | Some (Dir _) => (Err OtherIo, fs)
    | Some (File _ _) => (Ok tt, fs)
    | None => (Ok tt, <[p := File mode ""]> fs)
    end) nothing.
Definition open_log_file (path : Path) : FM unit :=
  let! _ := open_append path MODE_0600 in
  set_permissions path MODE_0600.
End files.

(** ** Processes *)

Inductive Sig := SIGTERM | SIGKILL.
#[export] Instance Sig_eq_dec : EqDecision Sig.
Proof. solve_decision. Defined.
Inductive StopOutcome := NotRunning | Stopped (pid : Z) | Killed (pid : Z).
(** [pid as i32] *)
Definition as_i32 (pid : Z) : Z := if pid <? 2 ^ 31 then pid else pid - 2 ^ 32.
Record World := { wo_fs : gmap Path Node; wo_procs : Os; wo_pgids : PgidState }.
(** The process that works: the outcomes of its file calls, how many calls it has made, and
    the signals it has sent. *)
Record Host := { ho_world : World; ho_oracle : list Call; ho_calls : nat; ho_signals : list (Z * Sig) }.

Section process.
Context `{StatusSerde} (paths : Paths) (others : nat → World → World) (clock : nat → Z).
Context (self_group : Z) (permitted : Z → bool).

(** Other processes run before each call. *)
Definition interfere (h : Host) : Host :=
  {| ho_world := others h.(ho_calls) h.(ho_world); ho_oracle := h.(ho_oracle); ho_calls := S h.(ho_calls); ho_signals := h.(ho_signals) |}.
Definition on_disk {A} (m : FM A) (h : Host) : result A IoError * Host :=
  let h := interfere h in
  let '(r, d) := m {| dk_fs := h.(ho_world).(wo_fs); dk_calls := h.(ho_oracle) |} in
  (r, {| ho_world := {| wo_fs := d.(dk_fs); wo_procs := h.(ho_world).(wo_procs); wo_pgids := h.(ho_world).(wo_pgids) |};
         ho_oracle := d.(dk_calls); ho_calls := h.(ho_calls); ho_signals := h.(ho_signals) |}).
Definition now (h : Host) : Z * Host := (clock h.(ho_calls), interfere h).
Definition sleep : Host → Host := interfere.
(** Whom [kill(p, ..)] addresses. *)
Definition addressed (p pid : Z) (proc : Orphans.Proc) : bool :=
  if 0 <? p then pid =? p
  else if p =? 0 then proc.(Orphans.pr_group) =? self_group
  else if p =? -1 then negb (pid =? 1)
  else proc.(Orphans.pr_group) =? - p.
Definition targets (p : Z) (os : Os) : Os := filter (λ kv, addressed p kv.1 kv.2 = true) os.
(** [kill(p, 0)] succeeds or is refused if there is a process, and reports [ESRCH] if there is
    none. *)
Definition is_alive (pid : Z) (h : Host) : bool * Host :=
  let h := interfere h in (negb (bool_decide (targets (as_i32 pid) h.(ho_world).(wo_procs) = ∅)), h).
(** [SIGKILL] ends the processes that may be signalled; what a process makes of [SIGTERM] is
    up to it. *)
Definition delivered (p : Z) (sig : Sig) (os : Os) : Os :=
  match sig with
  | SIGTERM => os
  | SIGKILL => filter (λ kv, addressed p kv.1 kv.2 && permitted kv.1 = false) os
  end.
Definition kill (p : Z) (sig : Sig) (h : Host) : Host :=
  let h := interfere h in
  {| ho_world := {| wo_fs := h.(ho_world).(wo_fs); wo_procs := delivered p sig h.(ho_world).(wo_procs); wo_pgids := h.(ho_world).(wo_pgids) |};
     ho_oracle := h.(ho_oracle); ho_calls := h.(ho_calls); ho_signals := h.(ho_signals) ++ [(p, sig)] |}.
Definition kill_children (h : Host) : Host :=
  let h := interfere h in
  let '(pgids, os) := kill_persisted_live_exec_children h.(ho_world).(wo_pgids) h.(ho_world).(wo_procs) in
  {| ho_world := {| wo_fs := h.(ho_world).(wo_fs); wo_procs := os; wo_pgids := pgids |}; ho_oracle := h.(ho_oracle); ho_calls := h.(ho_calls);
     ho_signals := h.(ho_signals) |}.

Definition status (h : Host) : result (option RunningStatus) IoError * Host :=
  match on_disk (read_status_file paths) h with
  | (Err e, h) => (Err e, h)
  | (Ok None, h) => (Ok None, h)
  | (Ok (Some sf), h) =>
    let '(alive, h) := is_alive sf.(sf_pid) h in
    if negb alive then let '(_, h) := on_disk (remove_status_file paths) h in (Ok None, h)
    else
      let '(t, h) := now h in
      (Ok (Some {| rs_running := true; rs_pid := sf.(sf_pid); rs_uptime_seconds := Z.max 0 (t - sf.(sf_started_at_unix));
                   rs_socket_path := sf.(sf_socket_path); rs_version := sf.(sf_version); rs_sync := None; rs_policy := None |}), h)
  end.

(** Whether the process is gone before the deadline; [None] is running out of fuel. *)
Fixpoint wait_gone (fuel : nat) (pid deadline : Z) (h : Host) : option (bool * Host) :=
  match fuel with
  | O => None
  | S fuel =>
    let '(t, h) := now h in
    if negb (t <? deadline) then Some (false, h)
    else
      let '(alive, h) := is_alive pid h in
      if negb alive then Some (true, h) else wait_gone fuel pid deadline (sleep h)
  end.
Definition stop (fuel : nat) (grace : Z) (h : Host) : option (result StopOutcome IoError * Host) :=
  match on_disk (read_status_file paths) h with
  | (Err e, h) => Some (Err e, h)
  | (Ok None, h) => Some (Ok NotRunning, h)
  | (Ok (Some sf), h) =>
    let pid := sf.(sf_pid) in
    let '(alive, h) := is_alive pid h in
    if negb alive then let '(_, h) := on_disk (remove_status_file paths) h in Some (Ok NotRunning, h)
    else
      let target := as_i32 pid in
      let h := kill target SIGTERM h in
      let '(t, h) := now h in
      '(gone, h) ← wait_gone fuel pid (t + grace) h;
      if gone : bool then let '(_, h) := on_disk (remove_status_file paths) h in Some (Ok (Stopped pid), h)
      else
        let h := kill_children (sleep (kill target SIGKILL h)) in
        let '(_, h) := on_disk (remove_status_file paths) h in
        Some (Ok (Killed pid), h)
  end.

(** [start_background]: the checks before the spawn, then the wait for a status. *)
Inductive StartError := StartIo (e : IoError) | StartUnsafe (e : BindError) | StartPolicy (message : string) | NotReady.
Definition READY_TIMEOUT : Z := 5000.
Fixpoint wait_ready (fuel : nat) (deadline : Z) (h : Host) : option (result RunningStatus StartError * Host) :=
  match fuel with
  | O => None
  | S fuel =>
    match status h with
    | (Err e, h) => Some (Err (StartIo e), h)
    | (Ok (Some running), h) => Some (Ok running, h)
    | (Ok None, h) =>
      let '(t, h) := now h in
      if deadline <=? t then Some (Err NotReady, h) else wait_ready fuel deadline (sleep h)
    end
  end.
(** [parent]: the check of the runtime directory; [policy]: the policy gate; [spawned]: whether
    the executable is found and started. *)
Definition start_background (fuel : nat) (parent : result unit BindError) (policy : result unit string) (spawned : bool) (h : Host) :
    option (result RunningStatus StartError * Host) :=
  match on_disk (ensure_runtime_dir paths) h with
  | (Err e, h) => Some (Err (StartIo e), h)
  | (Ok _, h) =>
    match parent with
    | Err e => Some (Err (StartUnsafe e), h)
    | Ok _ =>
      match policy with
      | Err m => Some (Err (StartPolicy m), h)
      | Ok _ =>
        match on_disk (open_log_file paths.(pa_log_file)) h with
        | (Err e, h) => Some (Err (StartIo e), h)
        | (Ok _, h) =>
          if negb spawned then Some (Err (StartIo OtherIo), h)
          else let '(t, h) := now h in wait_ready fuel (t + READY_TIMEOUT) h
        end
      end
    end
  end.
End process.

(** ** The life of a daemon *)

(** [run_foreground] in the calls that others can see: the gates, the calls of [bind], the status
    file, the service until a signal comes, and the way out, on which the children are
    terminated and the workers joined before the files go.  These are orderly lives: a daemon
    that crashes or is killed, which leaves its socket and status file behind, and the removal
    of a stale status file by [daemon status] and [daemon stop] are not steps. *)
Inductive Pc := PGate | PBind (b : BindPc) | PAnnounce | PServe | PWithdraw | PUnlink | PGone.
(** What the system answers: the gates (directory, policy, signals) pass, the status file is
    written, a signal has come. *)
Record Answers := { an_gates : bool; an_written : bool; an_signal : bool }.
(** The socket, the daemon that the status file names, and where each daemon is. *)
Record Daemons := { da_path : SocketPath; da_status : option Z; da_pcs : Z → Pc }.
Section life.
Context (created euid : Z) (meta : result (option DirMeta) unit).
Definition life_step (a : Answers) (d : Z) (s : Daemons) : Daemons :=
  let at_ pc := <[d := pc]> s.(da_pcs) in
  match s.(da_pcs) d with
  | PGate => {| da_path := s.(da_path); da_status := s.(da_status); da_pcs := at_ (if a.(an_gates) then PBind BindStart else PGone) |}
  | PBind b =>
    let '(path, b) := bind_step created euid meta d (s.(da_path), b) in
    {| da_path := path; da_status := s.(da_status);
       da_pcs := at_ (match b with BindDone (Ok _) => PAnnounce | BindDone (Err _) => PGone | b => PBind b end) |}
  | PAnnounce =>
    if a.(an_written) then {| da_path := s.(da_path); da_status := Some d; da_pcs := at_ PServe |}
    else {| da_path := s.(da_path); da_status := s.(da_status); da_pcs := at_ PUnlink |}
  | PServe => if a.(an_signal) then {| da_path := s.(da_path); da_status := s.(da_status); da_pcs := at_ PWithdraw |} else s
  | PWithdraw => {| da_path := s.(da_path); da_status := None; da_pcs := at_ PUnlink |}
  | PUnlink => {| da_path := drop_guard s.(da_path); da_status := s.(da_status); da_pcs := at_ PGone |}
  | PGone => s
  end.
(** No daemon unlinks its socket while another one, having seen it, is about to connect to it. *)
Definition undisturbed (d : Z) (s : Daemons) : Prop := s.(da_pcs) d = PUnlink → ∀ d', s.(da_pcs) d' ≠ PBind BindConnect.
Inductive reachable : Daemons → Prop :=
| reach_start path : stale path = false → reachable {| da_path := path; da_status := None; da_pcs := λ _, PGate |}
| reach_step a d s : reachable s → undisturbed d s → reachable (life_step a d s).

(** ** Correctness *)

Definition holds (pc : Pc) : bool :=
  match pc with PBind BindChmod | PAnnounce | PServe | PWithdraw | PUnlink => true | _ => false end.
Definition named (pc : Pc) : bool := match pc with PServe | PWithdraw => true | _ => false end.
Record life_inv (s : Daemons) : Prop := {
  li_fresh : stale s.(da_path) = false;
  li_remove d : s.(da_pcs) d ≠ PBind BindRemove;
  li_holds d : holds (s.(da_pcs) d) = true → ∃ mode, s.(da_path) = SocketFile mode (Some d) ∧ (s.(da_pcs) d ≠ PBind BindChmod → mode = SOCKET_MODE);
  li_connect d : s.(da_pcs) d = PBind BindConnect → ∃ mode l, s.(da_path) = SocketFile mode (Some l);
  li_status d : s.(da_status) = Some d → named (s.(da_pcs) d) = true;
  li_named d : named (s.(da_pcs) d) = true → s.(da_status) = Some d;
  li_bound d r : s.(da_pcs) d ≠ PBind (BindDone r);
}.
Lemma at_lookup (pcs : Z → Pc) d pc d' : (<[d := pc]> pcs : Z → Pc) d' = if decide (d = d') then pc else pcs d'.
Proof. case_decide as E; [subst; apply fn_lookup_insert|by apply fn_lookup_insert_ne]. Qed.
Lemma one_holder s d d' : life_inv s → holds (s.(da_pcs) d) = true → holds (s.(da_pcs) d') = true → d = d'.
Proof. intros I Hd Hd'. destruct (li_holds s I d Hd) as (? & E & _), (li_holds s I d' Hd') as (? & E' & _). congruence. Qed.
Lemma named_holds pc : named pc = true → holds pc = true.
Proof. by destruct pc. Qed.

(** A daemon moves on: the path is as it was for the others. *)
Lemma life_move s d path status pc :
  life_inv s → stale path = false → pc ≠ PBind BindRemove → (∀ r, pc ≠ PBind (BindDone r)) →
  (path = s.(da_path) ∨ ∀ d', d' ≠ d → holds (s.(da_pcs) d') = false ∧ (s.(da_pcs) d' = PBind BindConnect → ∃ mode l, path = SocketFile mode (Some l))) →
  (holds pc = true → ∃ mode, path = SocketFile mode (Some d) ∧ (pc ≠ PBind BindChmod → mode = SOCKET_MODE)) →
  (pc = PBind BindConnect → ∃ mode l, path = SocketFile mode (Some l)) →
  (status = s.(da_status) ∧ named pc = named (s.(da_pcs) d) ∨ holds (s.(da_pcs) d) = true ∧ status = if named pc then Some d else None) →
  life_inv {| da_path := path; da_status := status; da_pcs := <[d := pc]> s.(da_pcs) |}.
Proof.
  intros I Hs Hr Hb Hp Hh Hc Hst. pose proof I as [_ I2 I3 I4 I5 I6 I7].
  assert (∀ d', d ≠ d' → holds (s.(da_pcs) d) = true → named (s.(da_pcs) d') = false) as Hne.
  { intros d' Hd Hown. apply not_true_iff_false. intros Hn. apply Hd, (one_holder s); [done..|by apply named_holds]. }
  split; cbn [da_path da_status da_pcs]; try done; intros d'; rewrite at_lookup; case_decide as E; subst; auto.
  - intros Hd'. destruct Hp as [-> |Hp]; [by apply I3|]. destruct (Hp d') as [Hf _]; [by intros ->|congruence].
  - intros Hd'. destruct Hp as [-> |Hp]; [by eapply I4|]. by apply (Hp d').
  - destruct Hst as [[-> ->]|[_ ->]]; [apply I5|]. by destruct (named pc).
  - destruct Hst as [[-> _]|[Hown ->]]; [apply I5|]. destruct (named pc); [intros [= ->]; congruence|done].
  - destruct Hst as [[-> ->]|[_ ->]]; [apply I6|]. by destruct (named pc).
  - intros Hd'. destruct Hst as [[-> _]|[Hown _]]; [by apply I6|]. by rewrite (Hne d') in Hd'.
Qed.
Ltac settle_life := split_and?; try done; try (by left); try (intros; by eauto); try (by intros; simplify_eq).
Lemma bind_life s d b : life_inv s → s.(da_pcs) d = PBind b →
  life_inv (let '(path, b) := bind_step created euid meta d (s.(da_path), b) in
    {| da_path := path; da_status := s.(da_status);
       da_pcs := <[d := match b with BindDone (Ok _) => PAnnounce | BindDone (Err _) => PGone | b => PBind b end]> s.(da_pcs) |}).
Proof.
  intros I Hd. pose proof I as [I1 I2 I3 I4 _ _ I7]. specialize (I2 d). specialize (I3 d). specialize (I4 d). specialize (I7 d).
  rewrite Hd in I2, I3, I4, I7. destruct b as [| | | | |r]; cbn [bind_step]; [| |done| | |by destruct (I7 r)].
  - destruct (ensure_safe_parent_dir euid meta) as [[]|e]; [destruct s.(da_path) as [| |mode [l|]] eqn:Ep; [..|done]|]; rewrite <- ?Ep; apply life_move; rewrite ?Hd, ?Ep; settle_life.
  - destruct (I4 eq_refl) as (mode & l & Ep). rewrite Ep. cbv beta iota. rewrite <- Ep. apply life_move; rewrite ?Hd; settle_life.
  - destruct s.(da_path) as [| |mode l] eqn:Ep; [|rewrite <- Ep; apply life_move; rewrite ?Hd, ?Ep; settle_life..].
    apply life_move; rewrite ?Hd; settle_life; [|intros _; exists created; by split].
    right. intros d' Hne. split; [|intros _; by eauto]. apply not_true_iff_false. intros Hh. destruct (li_holds s I d' Hh) as (? & E & _). congruence.
  - destruct (I3 eq_refl) as (mode & Ep & _). rewrite Ep. cbv beta iota. apply life_move; rewrite ?Hd; settle_life. right. intros d' Hne. split; [|intros _; by eauto].
    apply not_true_iff_false. intros Hh. apply Hne. eapply one_holder; [done..|by rewrite Hd].
Qed.
Lemma life_step_inv a d s : life_inv s → undisturbed d s → life_inv (life_step a d s).
Proof.
  intros I Hu. unfold life_step. pose proof (li_holds s I d) as Hh. destruct (s.(da_pcs) d) as [|b| | | | |] eqn:Hd; [|by apply bind_life| | | | |done].
  - destruct (an_gates a); apply life_move; rewrite ?Hd; settle_life; apply I.
  - destruct (Hh eq_refl) as (mode & Ep & Hm). rewrite Hm in Ep by done. destruct (an_written a); apply life_move; rewrite ?Hd; settle_life; try apply I.
  - destruct (Hh eq_refl) as (mode & Ep & Hm). rewrite Hm in Ep by done. destruct (an_signal a); [|done]. apply life_move; rewrite ?Hd; settle_life; try apply I.
  - destruct (Hh eq_refl) as (mode & Ep & Hm). rewrite Hm in Ep by done. apply life_move; rewrite ?Hd; settle_life; try apply I.
  - destruct (Hh eq_refl) as (mode & Ep & _). apply life_move; rewrite ?Hd; settle_life. right. intros d' Hne. split.
    + apply not_true_iff_false. intros Hh'. apply Hne. eapply one_holder; [done..|by rewrite Hd].
    + intros Hc. by destruct (Hu Hd d').
Qed.
Lemma reachable_inv s : reachable s → life_inv s.
Proof. induction 1; [by split|by apply life_step_inv]. Qed.

(** The status file names the daemon that listens.  Starting without a stale socket, however
    many daemons start, serve and stop in order (none crashes, and none is asked for its status
    meanwhile), and however their system calls interleave, as long as no socket is unlinked between
    another daemon's look at it and its connection attempt: the daemon named in the
    status file is up and is the one that listens at the socket, with mode [0600]; a daemon that
    serves is named; and there is at most one.  So what [daemon status] reports and
    [daemon stop] signals is the daemon that answers. *)
Theorem status_names_listener s : reachable s →
  (∀ d, s.(da_status) = Some d → named (s.(da_pcs) d) = true ∧ s.(da_path) = SocketFile SOCKET_MODE (Some d)) ∧
  (∀ d, s.(da_pcs) d = PServe → s.(da_status) = Some d) ∧
  (∀ d d', s.(da_pcs) d = PServe → s.(da_pcs) d' = PServe → d = d').
Proof.
  intros I%reachable_inv. split_and!.
  - intros d Hd. pose proof (li_status s I d Hd) as Hn. split; [done|]. destruct (li_holds s I d (named_holds _ Hn)) as (mode & -> & Hm).
    rewrite Hm; [done|]. intros E. by rewrite E in Hn.
  - intros d Hd. apply (li_named s I). by rewrite Hd.
  - intros d d' Hd Hd'. apply (one_holder s); [done|by rewrite Hd|by rewrite Hd'].
Qed.
End life.

(** Two daemons serve at once when one that stops unlinks its socket just before another one
    connects to it, and a third binds before that one removes what it takes for stale. *)
Definition life_run (schedule : list Z) (s : Daemons) : Daemons :=
  foldl (λ s d, life_step 493 1000 (Ok (Some {| dm_is_dir := true; dm_mode := 448; dm_uid := 1000 |})) {| an_gates := true; an_written := true; an_signal := true |} d s) s schedule.
Theorem stopping_daemon_lets_two_serve :
  let s := life_run [1; 1; 1; 1; 1; 2; 2; 1; 1; 1; 2; 3; 3; 3; 3; 3; 2; 2; 2; 2] {| da_path := NoFile; da_status := None; da_pcs := λ _, PGate |} in
  s.(da_pcs) 2 = PServe ∧ s.(da_pcs) 3 = PServe ∧ s.(da_path) = SocketFile SOCKET_MODE (Some 2).
Proof. vm_compute. done. Qed.

(** ** The status file *)

Section status_file.
Context `{StatusSerdeLaws} (dir : Path).
Definition paths_in : Paths :=
  {| pa_runtime_dir := dir; pa_status_file := child dir "daemon.json"; pa_socket_path := child dir "daemon.sock"; pa_log_file := child dir "daemon.log" |}.
Definition same_at (p : Path) (node : option Node) (fs : gmap Path Node) : Prop := fs !! p = node.
Lemma same_chmod p q node mode : p ≠ q → keeps (same_at p node) (set_permissions q mode).
Proof.
  intros Hne. apply keeps_syscall; [|done]. unfold same_at. intros fs Hfs. destruct (fs !! q); [|done]. cbn. by rewrite lookup_insert_ne.
Qed.
Lemma same_mkdirs p node rest : ∀ prefix, (length (prefix ++ rest) < length p)%nat → keeps (same_at p node) (create_dirs prefix rest).
Proof.
  induction rest as [|c rest IH]; intros prefix Hl; [apply keeps_ret|]. cbn [create_dirs]. apply keeps_bind; [|intros _; apply IH; by rewrite <- app_assoc].
  apply keeps_syscall; [|done]. unfold same_at. intros fs Hfs. destruct (fs !! (prefix ++ [c])) as [[]|]; [done..|]. cbn. rewrite lookup_insert_ne; [done|].
  intros <-. rewrite !length_app in Hl. cbn in Hl. lia.
Qed.
Lemma runtime_dir_keeps node : keeps (same_at (child dir "daemon.json") node) (ensure_runtime_dir paths_in).
Proof.
  assert (child dir "daemon.json" ≠ dir) as Hne by (intros E; apply (f_equal length) in E; unfold child in E; rewrite length_app in E; cbn in E; lia).
  unfold ensure_runtime_dir. apply keeps_bind; [apply keeps_exists|]. intros []; [apply keeps_ret|]. apply keeps_bind; [|intros _; by apply same_chmod].
  apply same_mkdirs. unfold child, paths_in. cbn [app pa_runtime_dir]. rewrite length_app. cbn. lia.
Qed.
Lemma read_seen fs reader : (read_status_file paths_in {| dk_fs := fs; dk_calls := Proceed :: reader |}).1 =
  match fs !! child dir "daemon.json" with Some (File _ content) => Ok (status_from_slice content) | Some (Dir _) => Err OtherIo | None => Ok None end.
Proof.
  unfold read_status_file, on_not_found, Prelude.bind, fs_read, syscall. cbn [pa_status_file paths_in dk_fs dk_calls]. by destruct (fs !! child dir "daemon.json") as [[]|].
Qed.
(** A daemon that announces itself replaces the status file whole: wherever the write is cut off
    or fails, a reader gets the status from before, and after a success the new one. *)
Theorem status_write_atomic status d reader :
  let '(r, d') := write_status_file paths_in status d in
  let seen fs := (read_status_file paths_in {| dk_fs := fs; dk_calls := Proceed :: reader |}).1 in
  match r with Ok _ => seen d'.(dk_fs) = Ok (Some status) | Err _ => seen d'.(dk_fs) = seen d.(dk_fs) end.
Proof.
  pose proof (runtime_dir_keeps (d.(dk_fs) !! child dir "daemon.json") d eq_refl) as Hdir. unfold write_status_file, Prelude.bind.
  destruct (ensure_runtime_dir paths_in d) as [[[]|e] d1]; cbn [snd] in Hdir; unfold same_at in Hdir.
  - assert (status_tmp paths_in ≠ pa_status_file paths_in) as Hne by (intros E; by apply app_inj_tail in E as [_ E]).
    destruct (write_private_spec _ _ (status_to_vec_pretty status) _ Hne d1 eq_refl) as [_ Hw].
    destruct (write_private _ _ _ d1) as [[[]|e] d2]; cbn [fst snd] in Hw; destruct Hw as [Hw _].
    + rewrite read_seen. cbn [pa_status_file paths_in] in Hw. by rewrite Hw, status_roundtrip.
    + rewrite !read_seen. cbn [pa_status_file paths_in] in Hw. by rewrite Hw, Hdir.
  - by rewrite !read_seen, Hdir.
Qed.
End status_file.

(** ** Stopping *)

Section stopping.
Context `{StatusSerde} (paths : Paths) (others : nat → World → World) (clock : nat → Z) (self_group : Z) (permitted : Z → bool).
Implicit Types h : Host.
Abbreviation stop := (stop paths others clock self_group permitted).
Lemma disk_signals {A} (m : FM A) h : (on_disk others m h).2.(ho_signals) = h.(ho_signals).
Proof. unfold on_disk. by destruct (m _). Qed.
Lemma children_signals h : (kill_children others h).(ho_signals) = h.(ho_signals).
Proof. unfold kill_children. by destruct (kill_persisted_live_exec_children _ _). Qed.
(** The wait ends, without a signal. *)
Lemma wait_gone_total pid deadline k : ∀ h, (∃ m, (h.(ho_calls) ≤ m < h.(ho_calls) + 3 * k)%nat ∧ ∀ m', (m ≤ m')%nat → deadline ≤ clock m') →
  ∃ gone h', (∀ fuel, (S k ≤ fuel)%nat → wait_gone others clock self_group fuel pid deadline h = Some (gone, h')) ∧ h'.(ho_signals) = h.(ho_signals).
Proof.
  induction k as [|k IH]; intros h (m & Hm & Hc); [lia|].
  assert (∃ gone h', (∀ fuel, (S k ≤ fuel)%nat → wait_gone others clock self_group (S fuel) pid deadline h = Some (gone, h')) ∧ h'.(ho_signals) = h.(ho_signals)) as (g & h' & Hr & Hs).
  2: { exists g, h'. split; [|done]. intros [|fuel] Hf; [lia|]. apply Hr. lia. }
  cbn [wait_gone now is_alive]. destruct (clock (ho_calls h) <? deadline) eqn:E; cbn [negb]; [|by do 2 eexists].
  destruct (negb (negb _)); [by do 2 eexists|]. apply Z.ltb_lt in E.
  assert (h.(ho_calls) < m)%nat as Hlt.
  { destruct (Nat.le_gt_cases m h.(ho_calls)) as [Hle|]; [|done]. specialize (Hc _ Hle). lia. }
  set (h3 := sleep others (interfere others (interfere others h))). destruct (Nat.le_gt_cases m (S (S h.(ho_calls)))) as [Hle|Hgt].
  - exists false, (interfere others h3). split; [|done]. intros [|fuel] Hf; [lia|]. cbn [wait_gone now]. subst h3. cbn [ho_calls sleep interfere].
    specialize (Hc (S (S (S (ho_calls h)))) ltac:(lia)). by rewrite (proj2 (Z.ltb_ge _ _) Hc).
  - destruct (IH h3) as (g & h' & Hr & Hs); [|by exists g, h'].
    exists m. split; [|done]. subst h3. cbn [ho_calls sleep interfere]. lia.
Qed.
(** [daemon stop] ends and signals at most the process that the status file named: if none is
    named, or it is gone, nobody is signalled; otherwise it gets [SIGTERM] and, only if the stop
    reports a kill, [SIGKILL] after it.  This holds whatever other processes do
    between its calls, for a clock that passes every time for good. *)
Theorem stop_signals_named grace h :
  (∀ t, ∃ m, ∀ m', (m ≤ m')%nat → t ≤ clock m') →
  ∃ n r h' sent, (∀ fuel, (n ≤ fuel)%nat → stop fuel grace h = Some (r, h')) ∧ h'.(ho_signals) = h.(ho_signals) ++ sent ∧
    match (on_disk others (read_status_file paths) h).1 with
    | Err e => r = Err e ∧ sent = []
    | Ok None => r = Ok NotRunning ∧ sent = []
    | Ok (Some sf) =>
      let pid := sf.(sf_pid) in
      r = Ok NotRunning ∧ sent = [] ∨ r = Ok (Stopped pid) ∧ sent = [(as_i32 pid, SIGTERM)] ∨
      r = Ok (Killed pid) ∧ sent = [(as_i32 pid, SIGTERM); (as_i32 pid, SIGKILL)]
    end.
Proof.
  intros Hclock. pose proof (disk_signals (read_status_file paths) h) as Hs0. unfold Lifecycle.stop.
  destruct (on_disk others (read_status_file paths) h) as [[[sf|]|e] h1]; cbn [fst snd] in *.
  2,3: exists 0%nat; do 2 eexists; exists []; rewrite app_nil_r; by split_and!.
  destruct (is_alive others self_group (sf_pid sf) h1) as [alive h2] eqn:Ea. assert (ho_signals h2 = ho_signals h) as Hs2 by (injection Ea as _ <-; exact Hs0).
  pose proof (λ h, disk_signals (remove_status_file paths) h) as Hrm. destruct alive; cbn [negb].
  2: { specialize (Hrm h2). destruct (on_disk others (remove_status_file paths) h2) as [r h3]. exists 0%nat. do 2 eexists. exists []. rewrite app_nil_r.
       split_and!; [done|by rewrite <- Hs2|by left]. }
  cbn [now]. set (h3 := interfere others (kill others self_group permitted (as_i32 (sf_pid sf)) SIGTERM h2)).
  set (deadline := clock _ + grace). destruct (Hclock deadline) as (m & Hm).
  destruct (wait_gone_total (sf_pid sf) deadline (S (max m (ho_calls h3))) h3) as (gone & h4 & Hw & Hs4).
  { exists (max m (ho_calls h3)). split; [lia|]. intros m' Hm'. apply Hm. lia. }
  assert (ho_signals h4 = ho_signals h ++ [(as_i32 (sf_pid sf), SIGTERM)]) as Hs by (rewrite Hs4; cbn; by rewrite Hs2).
  destruct gone.
  - specialize (Hrm h4). destruct (on_disk others (remove_status_file paths) h4) as [r h5] eqn:Ed. eexists _, _, h5, [_]. split_and!.
    + intros fuel Hf. rewrite Hw by exact Hf. cbn [mbind option_bind]. by rewrite Ed.
    + by rewrite <- Hs.
    + by right; left.
  - set (h5 := kill_children others (sleep others (kill others self_group permitted (as_i32 (sf_pid sf)) SIGKILL h4))). specialize (Hrm h5).
    destruct (on_disk others (remove_status_file paths) h5) as [r h6] eqn:Ed. eexists _, _, h6, [_; _]. split_and!.
    + intros fuel Hf. rewrite Hw by exact Hf. cbn [mbind option_bind]. subst h5. by rewrite Ed.
    + cbn [snd] in Hrm. rewrite Hrm. subst h5. rewrite children_signals. cbn. rewrite Hs. by rewrite <- app_assoc.
    + by right; right.
Qed.
End stopping.

(** ** Witnesses *)

Module LifecycleExample.
Definition record_of (pid : Z) : StatusFile := {| sf_pid := pid; sf_started_at_unix := 0; sf_socket_path := "daemon.sock"; sf_version := "1" |}.
#[export] Instance serde_example : StatusSerde :=
  {| status_to_vec_pretty s := if s.(sf_pid) =? 10 then "old" else if s.(sf_pid) =? 20 then "new" else "large";
     status_from_slice s := Some (record_of (if s =s "old" then 10 else if s =s "new" then 20 else 4294967295)) |}.
Definition paths : Paths := paths_in ["run"].
Definition file (content : string) : gmap Path Node := <[["run"; "daemon.json"] := File MODE_0600 content]> ∅.
Definition process (pid : Z) : Os := {[pid := {| Orphans.pr_group := pid; Orphans.pr_start := 0 |}]}.
Definition host (fs : gmap Path Node) (os : Os) : Host :=
  {| ho_world := {| wo_fs := fs; wo_procs := os; wo_pgids := {| ps_registry := ∅; ps_sidecar := None |} |};
     ho_oracle := replicate 9 Proceed; ho_calls := 0; ho_signals := [] |}.
Definition clock (n : nat) : Z := 1000 * Z.of_nat n.
(** A new daemon announces itself between the check of the old one and the removal. *)
Definition restarted (n : nat) (w : World) : World :=
  if (n =? 2)%nat then {| wo_fs := file "new"; wo_procs := process 20; wo_pgids := w.(wo_pgids) |} else w.
End LifecycleExample.

(** A status request that found the old daemon gone removes the file of the new one, which is up
    and from then on neither reported nor stopped. *)
Theorem late_status_hides_new_daemon :
  let '(r, h) := status (H := LifecycleExample.serde_example) LifecycleExample.paths LifecycleExample.restarted LifecycleExample.clock 1
    (LifecycleExample.host (LifecycleExample.file "old") ∅) in
  r = Ok None ∧ h.(ho_world).(wo_fs) !! ["run"; "daemon.json"] = None ∧ h.(ho_world).(wo_procs) = LifecycleExample.process 20 ∧
  fst <$> stop (H := LifecycleExample.serde_example) LifecycleExample.paths (λ _ w, w) LifecycleExample.clock 1 (λ _, true) 9 5000 h = Some (Ok NotRunning).
Proof. vm_compute. done. Qed.
(** A process identifier beyond [i32::MAX] in the file is taken for a negative one: [stop] signals
    every process it may. *)
Theorem large_pid_signals_everything :
  ∃ h, stop (H := LifecycleExample.serde_example) LifecycleExample.paths (λ _ w, w) LifecycleExample.clock 1 (λ _, true) 9 5000
    (LifecycleExample.host (LifecycleExample.file "large") (LifecycleExample.process 77)) = Some (Ok (Killed 4294967295), h) ∧
    h.(ho_signals) = [(-1, SIGTERM); (-1, SIGKILL)] ∧ h.(ho_world).(wo_procs) = ∅.
Proof. eexists. vm_compute. done. Qed.
(** The process named in the file is not checked to be the daemon: whoever has its identifier
    now is terminated. *)
Theorem recycled_pid_is_killed :
  ∃ h, stop (H := LifecycleExample.serde_example) LifecycleExample.paths (λ _ w, w) LifecycleExample.clock 1 (λ _, true) 9 5000
    (LifecycleExample.host (LifecycleExample.file "old") (LifecycleExample.process 10)) = Some (Ok (Killed 10), h) ∧
    h.(ho_world).(wo_procs) = ∅.
Proof. eexists. vm_compute. done. Qed.

Lemma status_names_listener_witness :
  ∃ s, reachable 493 1000 IpcExample.the_dir s ∧ s.(da_status) = Some 1 ∧ s.(da_path) = SocketFile SOCKET_MODE (Some 1).
Proof.
  assert (∃ s, reachable 493 1000 IpcExample.the_dir s ∧ s.(da_status) = Some 1) as (s & Hr & Hs).
  { set (f := life_step 493 1000 IpcExample.the_dir {| an_gates := true; an_written := true; an_signal := false |} 1).
    exists (f (f (f (f (f {| da_path := NoFile; da_status := None; da_pcs := λ _, PGate |}))))). split; [|vm_compute; reflexivity].
    do 5 (apply reach_step; [|intros E; vm_compute in E; discriminate E]). by apply reach_start. }
  exists s. split; [exact Hr|]. split; [exact Hs|]. apply (status_names_listener 493 1000 IpcExample.the_dir s Hr). exact Hs.
Defined.
