(* ===== verification/Console.v ===== *)
(** * The command line's process

    Models what every command of [crates/mx-agent-cli/src/cli.rs] is made of: printing, the
    call to the daemon over the local socket ([daemon_ipc_call], [daemon_socket_path]), and
    the parameters ([mx-agent-daemon/src/ipc.rs] and the option structs) and results of each
    method.  A command is a computation on the console that ends in an exit code; an early
    [return] is the monad's error, and a [println!] to a closed stream panics.  The operating
    system is an interface; serialization and [Debug] are arguments. *)
From Stdlib Require Import ZArith Lia Ascii.
From stdpp Require Import gmap strings list pretty.
From S2P Require Import Prelude RustStr CanonicalJson Schema Trust Approval Presence TaskGraph Diagnostics Invocation TaskLifecycle ToolDispatch Sharing Workspace Streams Reassembly DataDir ExecIpc IpcServer Devices.
Local Open Scope Z_scope.

(** ** The operating system *)

(** [RecvEof]: the connection is closed between two frames. *)
Inductive RecvError := RecvEof (message : string) | RecvFailed (message : string).
Definition recv_message (e : RecvError) : string := match e with RecvEof m | RecvFailed m => m end.
(** One connection to the daemon, the standard input, files and the environment. *)
Class System (W : Type) := {
  sys_connect : string → W → result unit string * W;
  sys_send : Request → W → result unit string * W;
  sys_recv : W → result Response RecvError * W;
  sys_current_dir : W → result string string;
  sys_stdin_is_terminal : W → bool;
  sys_read_stdin : W → result bytes string * W;
  sys_read_stdin_text : W → result string string * W;
  sys_read_file : string → W → result string string;
  sys_write_file : string → bytes → W → result unit string * W;
  sys_env : string → W → option string;
}.

(** ** Methods, their parameters and their results *)

Record RegisterAgentOptions := {
  rgo_room : string; rgo_agent_id : option string; rgo_kind : string; rgo_capabilities : list string;
  rgo_tools : list string; rgo_cwd : string; rgo_project_id : string; rgo_max_invocations : Z;
}.
Record ListAgentsOptions := { lao_room : string; lao_capabilities : list string }.
Record AgentTools := {
  at_agent_id : string; at_kind : string; at_status : string; at_capabilities : list string;
  at_tools : list string; at_schemas : list ToolSchema;
}.
Record ApprovalDecisionRecord := { adr_decision : ApprovalDecision; adr_room_id : string }.
Definition approved (r : ApprovalDecisionRecord) : bool := decision_permits_spawn r.(adr_decision).
Record TaskMutation := { tmu_task : TaskState; tmu_event_id : string }.
Record ShareDiffOptions := { sdo_room : string; sdo_base : option string; sdo_stat : bool }.
Record ShareEnvOptions := { seo_room : string; seo_include : list string }.
Record ListSharesOptions := { lso_room : string; lso_limit : Z }.
Record FetchContextOptions := { fco_room : string; fco_context_id : string; fco_limit : Z; fco_expected_sender : option string }.
Record RoomParams := { rp_room : string }.
Record RoomAgentParams := { rap_room : string; rap_agent_id : string }.
Record RoomInvocationParams := { rip_room : string; rip_invocation_id : string }.
Record TrustPublishParams := { tpp_room : string; tpp_entry : TrustEntry }.
Record ApprovalDecideParams := { adp_request_id : string; adp_decision : string; adp_by : option string }.
Record InvocationCancelParams := { icp_room : string; icp_invocation_id : string; icp_reason : option string }.
Record TaskCancelParams := { tcp_room : string; tcp_task_id : string; tcp_reason : option string }.
Record RecoverParams := { rcp_recovery_key : string }.
Record ReloadResult := { rl_started : bool; rl_logged_in : bool }.

(** Options that name a room, and the limit of a scan. *)
Abbreviation InRoom A := (string * A)%type (only parsing).
Abbreviation Scan A := (string * Z * A)%type (only parsing).
(** The single-response methods, by the types of what goes in and what comes back; the
    parameters of [unit] are the empty object or null. *)
Inductive Method : Type → Type → Type :=
| MExecStart : Method ExecStart ExecStartResult
| MCallStart : Method CallStartParams CallStartResult
| MSessionReload : Method unit ReloadResult
| MCrossSigningBootstrap : Method unit CrossSigningStatusInfo
| MCrossSigningStatus : Method unit CrossSigningStatusInfo
| MRecoveryEnable : Method unit RecoveryEnableResult
| MRecoveryStatus : Method unit RecoveryStatusInfo
| MRecoveryRecover : Method RecoverParams RecoveryStatusInfo
| MDeviceList : Method DeviceListParams (list DeviceInfo)
| MDeviceShow : Method DeviceShowParams (option DeviceInfo)
| MDeviceVerifyManual : Method DeviceVerifyManualParams DeviceInfo
| MTrustPublish : Method TrustPublishParams TrustState
| MTrustState : Method RoomParams (list TrustState)
| MWorkspaceCreate : Method CreateWorkspaceOptions WorkspaceInfo
| MWorkspaceJoin : Method RoomParams WorkspaceInfo
| MWorkspaceAttach : Method AttachWorkspaceOptions WorkspaceState
| MWorkspaceGrant : Method GrantWorkspaceOptions WorkspaceGrant
| MWorkspaceStatus : Method RoomParams WorkspaceStatus
| MAgentList : Method ListAgentsOptions (list AgentListing)
| MAgentShow : Method RoomAgentParams (option AgentListing)
| MAgentTools : Method RoomAgentParams (option AgentTools)
| MAgentRegister : Method RegisterAgentOptions AgentState
| MTaskCreate : Method (InRoom CreateTaskOptions) TaskMutation
| MTaskUpdate : Method (InRoom UpdateTaskOptions) TaskMutation
| MTaskCancel : Method TaskCancelParams TaskState
| MTaskList : Method (InRoom ListTasksOptions) (list TaskState)
| MTaskGraph : Method (InRoom ListTasksOptions) (TaskGraph * list TaskDiagnostic)
| MShareFile : Method (InRoom ShareContextOptions) ContextShare
| MShareDiff : Method ShareDiffOptions ContextShare
| MShareEnv : Method ShareEnvOptions ContextShare
| MShareList : Method ListSharesOptions (list ContextShare)
| MShareGet : Method FetchContextOptions FetchedContext
| MInvocationList : Method (InRoom ListInvocationsOptions) (list InvocationState)
| MInvocationGet : Method RoomInvocationParams (option InvocationState)
| MInvocationCancel : Method InvocationCancelParams InvocationState
| MInvocationArtifact : Method (Scan RetrieveArtifactOptions) RetrievedArtifact
| MApprovalDecide : Method ApprovalDecideParams ApprovalDecisionRecord.
Definition method_name {P R} (m : Method P R) : string :=
  match m with
  | MExecStart => "exec.start" | MCallStart => "call.start" | MSessionReload => "session.reload"
  | MCrossSigningBootstrap => "cross_signing.bootstrap" | MCrossSigningStatus => "cross_signing.status"
  | MRecoveryEnable => "recovery.enable" | MRecoveryStatus => "recovery.status" | MRecoveryRecover => "recovery.recover"
  | MDeviceList => "device.list" | MDeviceShow => "device.show" | MDeviceVerifyManual => "device.verify.manual"
  | MTrustPublish => "trust.publish" | MTrustState => "trust.state"
  | MWorkspaceCreate => "workspace.create" | MWorkspaceJoin => "workspace.join" | MWorkspaceAttach => "workspace.attach"
  | MWorkspaceGrant => "workspace.grant" | MWorkspaceStatus => "workspace.status"
  | MAgentList => "agent.list" | MAgentShow => "agent.show" | MAgentTools => "agent.tools" | MAgentRegister => "agent.register"
  | MTaskCreate => "task.create" | MTaskUpdate => "task.update" | MTaskCancel => "task.cancel" | MTaskList => "task.list" | MTaskGraph => "task.graph"
  | MShareFile => "share.file" | MShareDiff => "share.diff" | MShareEnv => "share.env" | MShareList => "share.list" | MShareGet => "share.get"
  | MInvocationList => "invocation.list" | MInvocationGet => "invocation.get" | MInvocationCancel => "invocation.cancel"
  | MInvocationArtifact => "invocation.artifact" | MApprovalDecide => "approval.decide"
  end.

(** What [serde] does with them, at both ends of the socket. *)
Class Wire := {
  encode {P R} : Method P R → P → result Value string;
  decode {P R} : Method P R → Value → result R string;
  decode_params {P R} : Method P R → Value → result P string;
  encode_result {P R} : Method P R → R → result Value string;
}.
(** Reading back gives what was written; a path that is not UTF-8 is not written at all. *)
Class WireLaws `{Wire} : Prop := {
  wire_params {P R} (m : Method P R) p v : encode m p = Ok v → decode_params m v = Ok p;
  wire_result {P R} (m : Method P R) r v : encode_result m r = Ok v → decode m v = Ok r;
}.

(** ** Printing *)

Definition NL : string := to_text [chr 10].
(** A panic unwinds out of [main]. *)
Definition EXIT_PANIC : Z := 101.
(** What was written, the requests that were sent, and the rest of the world. *)
Record Console (W : Type) := { co_log : WriteLog; co_sent : list (string * Value); co_world : W }.
#[global] Arguments co_log {W} _.
#[global] Arguments co_sent {W} _.
#[global] Arguments co_world {W} _.
Abbreviation CM W := (st (Console W) Z).
Definition with_world {W} (w : W) (s : Console W) : Console W := {| co_log := s.(co_log); co_sent := s.(co_sent); co_world := w |}.
Definition with_log {W} (log : WriteLog) (s : Console W) : Console W := {| co_log := log; co_sent := s.(co_sent); co_world := s.(co_world) |}.
Definition add_sent {W} (r : Request) (s : Console W) : Console W :=
  {| co_log := s.(co_log); co_sent := s.(co_sent) ++ [(r.(req_method), r.(req_params))]; co_world := s.(co_world) |}.
(** Reading the world, and acting on it. *)
Definition look {W A} (f : W → A) : CM W A := λ s, (Ok (f s.(co_world)), s).
Definition act {W A} (f : W → A * W) : CM W A := λ s, let '(x, w) := f s.(co_world) in (Ok x, with_world w s).

(** [{:<n}]: padded on the right to [n] characters. *)
Fixpoint char_count (s : string) : nat :=
  match s with "" => 0%nat | String c s => ((if is_continuation c then 0 else 1) + char_count s)%nat end.
Fixpoint spaces (n : nat) : string := match n with O => "" | S n => String " " (spaces n) end.
Definition left_pad (n : nat) (s : string) : string := s +:+ spaces (n - char_count s).
Definition show_bool (b : bool) : string := if b then "true" else "false".
(** A line for an optional field. *)
Definition opt_line (label : string) (o : option string) : list string := match o with Some s => [label +:+ s] | None => [] end.
Definition unless_empty (label s : string) : list string := if s =s "" then [] else [label +:+ s].
Definition unless_nil (label sep : string) (l : list string) : list string := match l with [] => [] | _ => [label +:+ str_join sep l] end.

(** The values the commands print as JSON text. *)
Inductive Printable :=
| PCrossSigning (x : CrossSigningStatusInfo) | PDevices (x : list DeviceInfo) | PDevice (x : DeviceInfo)
| PRecoveryStatus (x : RecoveryStatusInfo) | PRecoveryEnable (x : RecoveryEnableResult)
| PTrustEntries (x : list TrustEntry) | PTrustEntry (x : TrustEntry) | PTrustState (x : TrustState)
| PWorkspaceInfo (x : WorkspaceInfo) | PWorkspaceState (x : WorkspaceState) | PWorkspaceGrant (x : WorkspaceGrant) | PWorkspaceStatus (x : WorkspaceStatus)
| PAgentListings (x : list AgentListing) | PAgentListing (x : AgentListing) | PAgentTools (x : AgentTools) | PAgentState (x : AgentState)
| PTaskMutation (x : TaskMutation) | PTask (x : TaskState) | PTasks (x : list TaskState) | PTaskGraph (x : TaskGraph * list TaskDiagnostic)
| PShare (x : ContextShare) | PShares (x : list ContextShare) | PArtifact (x : StreamArtifact)
| PInvocations (x : list InvocationState) | PInvocation (x : InvocationState)
| PApprovals (x : list PendingApproval) | PApproval (x : PendingApproval) | PDecision (x : ApprovalDecision)
| PAuthStatus (x : AuthStatus) | PRunning (x : RunningStatus).

Section console.
Context {W : Type} `{System W} `{Wire}.
(** Whether the next write to a stream succeeds. *)
Context (io : WriteLog → Writer → bool).

Definition emit (w : Writer) (text : string) : CM W unit := λ s,
  if io s.(co_log) w then (Ok tt, with_log (s.(co_log) ++ [(w, text)]) s) else (Err EXIT_PANIC, s).
Definition println (text : string) : CM W unit := emit Out (text +:+ NL).
Definition eprintln (text : string) : CM W unit := emit ErrOut (text +:+ NL).
Fixpoint println_all (lines : list string) : CM W unit :=
  match lines with [] => ret tt | line :: lines => let! _ := println line in println_all lines end.
(** [{ eprintln!(..); return ExitCode::from(code) }] *)
Definition complain {A} (code : Z) (message : string) : CM W A := let! _ := eprintln message in fail code.
(** [unwrap_or_else] on a result, with a message and a code. *)
Definition or_complain {A} (code : Z) (message : string → string) (r : result A string) : CM W A :=
  match r with Ok x => ret x | Err e => complain code (message e) end.

(** ** Calling the daemon *)

Record GlobalArgs := { g_json : bool; g_config : option string; g_socket : option string; g_verbose : Z }.
Context (default_socket : string).
Definition daemon_socket_path (global : GlobalArgs) : string := unwrap_or global.(g_socket) default_socket.
Definition UNREACHABLE : Z := 3.
Definition connect (global : GlobalArgs) : CM W unit :=
  let socket := daemon_socket_path global in
  let! r := act (sys_connect socket) in
  or_complain UNREACHABLE (λ e, "mx-agent: could not contact daemon at " +:+ socket +:+ ": " +:+ e +:+ "; run `mx-agent daemon start`") r.
Definition send (request : Request) : CM W (result unit string) := λ s,
  let '(r, w) := sys_send request s.(co_world) in (Ok r, with_world w (add_sent request s)).
(** [Client::call] of a new client. *)
Definition client_call (method : string) (params : Value) : CM W (result Response string) :=
  let! sent := send (request_new (Num (NumInt 1)) method params) in
  match sent with
  | Err e => ret (Err e)
  | Ok _ => let! r := act sys_recv in ret (match r with Ok response => Ok response | Err e => Err (recv_message e) end)
  end.
Definition daemon_ipc_call {P R} (global : GlobalArgs) (m : Method P R) (params : P) : CM W R :=
  let method := method_name m in
  let! value := or_complain FAILURE (λ e, "mx-agent: could not encode " +:+ method +:+ " request: " +:+ e) (encode m params) in
  let! _ := connect global in
  let! response := client_call method value in
  let! response := or_complain FAILURE (λ e, "mx-agent: daemon IPC request " +:+ method +:+ " failed: " +:+ e) response in
  match response.(rsp_error) with
  | Some error => complain FAILURE ("mx-agent: daemon rejected " +:+ method +:+ ": " +:+ error.(rpc_message))
  | None =>
    or_complain FAILURE (λ e, "mx-agent: daemon returned invalid " +:+ method +:+ " response: " +:+ e)
      (decode m (unwrap_or response.(rsp_result) Null))
  end.
(** The process exits with the code the command returned, early or not. *)
Definition exit_code_of (r : result Z Z) : Z := match r with Ok code | Err code => code end.
Definition run_to_exit (m : CM W Z) (s : Console W) : Z * Console W := let '(r, s) := m s in (exit_code_of r, s).
End console.

(** ** What a command leaves behind *)

Section footprint.
Context {W : Type} `{System W} `{Wire} (io : WriteLog → Writer → bool) (default_socket : string).

(** No request is sent, and an early exit is not a success. *)
Definition offline {A} (m : CM W A) : Prop := ∀ s r s', m s = (r, s') → s'.(co_sent) = s.(co_sent) ∧ r ≠ Err SUCCESS.
Lemma offline_ret {A} (x : A) : offline (ret x).
Proof. intros s r s' [= <- <-]. done. Qed.
Lemma offline_fail {A} code : code ≠ SUCCESS → offline (fail (A := A) code).
Proof. intros Hc s r s' [= <- <-]. split; [done|congruence]. Qed.
Lemma offline_look {A} (f : W → A) : offline (look f).
Proof. intros s r s' [= <- <-]. done. Qed.
Lemma offline_act {A} (f : W → A * W) : offline (act f).
Proof. intros s r s'. unfold act. destruct (f _) as [x w]. intros [= <- <-]. done. Qed.
Lemma offline_emit w text : offline (emit (W := W) io w text).
Proof. intros s r s'. unfold emit. destruct (io _ _); intros [= <- <-]; done. Qed.
Lemma offline_bind {A B} (m : CM W A) (f : A → CM W B) : offline m → (∀ x, offline (f x)) → offline (Prelude.bind m f).
Proof.
  intros Hm Hf s r s'. unfold Prelude.bind. destruct (m s) as [[x|e] s1] eqn:E; apply Hm in E as [E Hr].
  - intros [Hs ?]%Hf. by rewrite Hs, E.
  - intros [= <- <-]. by split; [|congruence].
Qed.
Lemma offline_println_all lines : offline (println_all (W := W) io lines).
Proof. induction lines as [|line lines IH]; cbn [println_all]; [apply offline_ret|]. apply offline_bind; [apply offline_emit|done]. Qed.
Lemma offline_complain {A} code message : code ≠ SUCCESS → offline (complain (W := W) (A := A) io code message).
Proof. intros Hc. apply offline_bind; [apply offline_emit|intros _; by apply offline_fail]. Qed.
Lemma complain_err {A} code message s : code ≠ SUCCESS → ∃ e s', complain (W := W) (A := A) io code message s = (Err e, s') ∧ s'.(co_sent) = s.(co_sent) ∧ e ≠ SUCCESS.
Proof. intros Hc. unfold complain, eprintln, emit, Prelude.bind, fail. by destruct (io _ _); eexists _, _. Qed.
Lemma offline_or_complain {A} code message (r : result A string) : code ≠ SUCCESS → offline (or_complain (W := W) io code message r).
Proof. intros Hc. destruct r; [apply offline_ret|by apply offline_complain]. Qed.

(** The daemon dispatches a method, alone or on a streaming connection. *)
Definition dispatched (method : string) : Prop :=
  ∀ (D Session : Type) (ops : Ops (D := D) (Session := Session)) show_secs pid started_at socket_path version subscribers req (d : D) e,
    req.(req_method) = method →
    (dispatch show_secs ops pid started_at socket_path version subscribers req d).1.(rsp_error) = Some e → e.(rpc_code) ≠ METHOD_NOT_FOUND.
Definition streamed (method : string) : Prop := method ∈ ["task.watch"; "workspace.watch"; METHOD_EXEC_PTY; METHOD_DEVICE_VERIFY_START].
(** On a new connection the daemon answered the request, and without an error. *)
Definition accepted (global : GlobalArgs) (method : string) (params : Value) : Prop := ∃ w0 w w1 w2 response,
  sys_connect (daemon_socket_path default_socket global) w0 = (Ok tt, w) ∧
  sys_send (request_new (Num (NumInt 1)) method params) w = (Ok tt, w1) ∧ sys_recv w1 = (Ok response, w2) ∧ response.(rsp_error) = None.
Record requested (global : GlobalArgs) (s s' : Console W) (code : Z) : Prop := {
  rq_one : ∃ method params, s'.(co_sent) = s.(co_sent) ++ [(method, params)] ∧
           ((dispatched method ∧ (code = SUCCESS → accepted global method params)) ∨ streamed method);
  rq_connected : ∃ w, (sys_connect (daemon_socket_path default_socket global) w).1 = Ok tt;
}.
(** The command fails before it sends anything, or sends one request, and succeeds only when
    the daemon accepts it. *)
Definition mediated (global : GlobalArgs) (c : CM W Z) : Prop := ∀ s r s', c s = (r, s') →
  (s'.(co_sent) = s.(co_sent) ∧ exit_code_of r ≠ SUCCESS) ∨ requested global s s' (exit_code_of r).

Lemma mediated_bind {A} global (m : CM W A) f : offline m → (∀ x, mediated global (f x)) → mediated global (Prelude.bind m f).
Proof.
  intros Hm Hf s r s'. unfold Prelude.bind. destruct (m s) as [[x|e] s1] eqn:E; apply Hm in E as [E Hr].
  - intros Hx. apply Hf in Hx as [[Hs Hc]|[(method & params & Hs & Hd) Hw]]; [left; by rewrite Hs, E|right].
    constructor; [|done]. exists method, params. by rewrite Hs, E.
  - intros [= <- <-]. left. split; [done|]. cbn. congruence.
Qed.
Lemma mediated_complain global code message : code ≠ SUCCESS → mediated global (complain io code message).
Proof. intros Hc s r s' E. destruct (complain_err (A := Z) code message s Hc) as (e & s1 & E1 & Hs & He). rewrite E1 in E. injection E as <- <-. by left. Qed.

Lemma connect_spec global s r s' :
  connect io default_socket global s = (r, s') →
  s'.(co_sent) = s.(co_sent) ∧ r ≠ Err SUCCESS ∧ (r = Ok tt → ∃ w, sys_connect (daemon_socket_path default_socket global) w = (Ok tt, s'.(co_world))).
Proof.
  intros E. assert (offline (connect (W := W) io default_socket global)) as Ho.
  { apply offline_bind; [apply offline_act|]. intros x. by apply offline_or_complain. }
  apply Ho in E as H1. destruct H1 as [Hs Hr]. split_and!; [done|done|]. intros ->.
  unfold connect, act, Prelude.bind in E. destruct (sys_connect _ _) as [[[]|e] w] eqn:Ec; [injection E as <-; by exists s.(co_world)|].
  cbn [or_complain] in E. unfold complain, Prelude.bind, fail in E. by destruct (eprintln _ _ _) as [[]].
Qed.
Lemma client_call_spec method params s : ∃ r s',
  client_call method params s = (Ok r, s') ∧ s'.(co_sent) = s.(co_sent) ++ [(method, params)] ∧
  ∀ response, r = Ok response → ∃ w1 w2,
    sys_send (request_new (Num (NumInt 1)) method params) s.(co_world) = (Ok tt, w1) ∧ sys_recv w1 = (Ok response, w2).
Proof.
  unfold client_call, send, Prelude.bind. set (req := request_new _ _ _).
  destruct (sys_send req s.(co_world)) as [[[]|e] w] eqn:Es; [|by eexists _, _].
  unfold act. cbn [co_world with_world]. destruct (sys_recv w) as [[response|e] w'] eqn:Er; eexists _, _; (split; [done|]); (split; [done|]);
    intros x; [intros [= <-]|done]. by exists w, w'.
Qed.

(** A command that calls one method and then only prints. *)
Lemma mediated_call {P R} global (m : Method P R) p f :
  dispatched (method_name m) → (∀ x, offline (f x)) → mediated global (Prelude.bind (daemon_ipc_call io default_socket global m p) f).
Proof.
  intros Hd Hf s r s'. unfold daemon_ipc_call. set (method := method_name m). unfold Prelude.bind at 1 2 3 4 5.
  destruct (or_complain io FAILURE _ (encode m p) s) as [[value|e] s1] eqn:Ev; apply offline_or_complain in Ev as [Hs1 Hr1]; try done.
  2:{ intros [= <- <-]. left. split; [done|]. cbn. congruence. }
  destruct (connect io default_socket global s1) as [[[]|e] s2] eqn:Ec; apply connect_spec in Ec as (Hs2 & Hr2 & Hw).
  2:{ intros [= <- <-]. left. rewrite Hs2. split; [done|]. cbn. congruence. }
  destruct Hw as [w0 Hw]; [done|]. destruct (client_call_spec method value s2) as (res & s3 & -> & Hs3 & Ha). intros E. right. constructor; [|exists w0; by rewrite Hw].
  exists method, value.
  assert (s'.(co_sent) = s3.(co_sent) ∧ (exit_code_of r = SUCCESS → accepted global method value)) as [Hs' Hx].
  2:{ rewrite Hs', Hs3, Hs2, Hs1. split; [done|]. left. auto. }
  destruct res as [response|err]; cbn [or_complain] in E.
  2:{ destruct (complain_err (A := Response) FAILURE ("mx-agent: daemon IPC request " +:+ method +:+ " failed: " +:+ err) s3) as (e & s4 & E4 & Hs4 & He); [done|].
      rewrite E4 in E. injection E as <- <-. done. }
  unfold ret in E. destruct (response.(rsp_error)) as [error|] eqn:Ee.
  - destruct (complain_err (A := R) FAILURE ("mx-agent: daemon rejected " +:+ method +:+ ": " +:+ error.(rpc_message)) s3) as (e & s4 & E4 & Hs4 & He); [done|].
    rewrite E4 in E. injection E as <- <-. done.
  - split; [|intros _; destruct (Ha response eq_refl) as (w1 & w2 & ? & ?); by exists w0, s2.(co_world), w1, w2, response].
    destruct (or_complain io FAILURE _ _ s3) as [[x|e] s4] eqn:E4; apply offline_or_complain in E4 as [Hs4 Hr4]; try done.
    + apply Hf in E as [-> ?]. done.
    + injection E as <- <-. done.
Qed.
End footprint.

Create HintDb console.
#[export] Hint Resolve offline_ret offline_fail offline_look offline_act offline_emit offline_bind offline_println_all offline_complain
  offline_or_complain : console.

(** ** The daemon knows every method *)

Lemma dispatched_known method :
  one_of method (["session.reload"; "call.start"; "exec.start"] ++ session_methods ++ plain_methods) = true → dispatched method.
Proof.
  intros Hm D Session ops show_secs pid started_at socket_path version subscribers req d e <-.
  unfold dispatch, with_params, parse_params, dispatch_call_start, dispatch_exec_start, dispatch_exec_control, value_response, runtime_error.
  unfold block_on_task_response, load_daemon_session_response, runtime_error, bounded_response, response_error, response_result.
  unfold one_of in Hm. rewrite !existsb_app, !orb_true_iff in Hm. fold (one_of req.(req_method) session_methods) in Hm. fold (one_of req.(req_method) plain_methods) in Hm.
  cbn [existsb] in Hm. unfold str_eqb in Hm. rewrite !orb_true_iff, !bool_decide_eq_true in Hm.
  repeat (case_match; simplify_eq/=); intros; simplify_eq/=; try done; exfalso; destruct_or?; simplify_eq; try congruence;
    rewrite ?str_eqb_neq in *; unfold str_eqb in *; congruence.
Qed.
Lemma method_dispatched {P R} (m : Method P R) : dispatched (method_name m).
Proof. apply dispatched_known. by destruct m. Qed.
#[export] Hint Resolve method_dispatched : console.

(** The tactics that follow a command through its steps. *)
Ltac head_of t := lazymatch t with ?f _ => head_of f | _ => t end.
Ltac off :=
  lazymatch goal with
  | |- offline (Prelude.bind _ _) => apply offline_bind; [off|intros ?; off]
  | |- offline (ret _) => apply offline_ret
  | |- offline (look _) => apply offline_look
  | |- offline (act _) => apply offline_act
  | |- offline (emit _ _ _) => apply offline_emit
  | |- offline (println_all _ _) => apply offline_println_all
  | |- offline (complain _ _ _) => apply offline_complain; done
  | |- offline (or_complain _ _ _ _) => apply offline_or_complain; done
  | |- offline (match ?x with _ => _ end) => destruct x; off
  | |- offline (λ s, _) => intros ? ? ?; repeat (case_match; simplify_eq/=); intros; by simplify_eq/=
  | |- offline ?m => let h := head_of m in unfold h; off
  end.
Ltac med :=
  lazymatch goal with
  | |- mediated _ _ (Prelude.bind (match ?x with _ => _ end) _) => destruct x; med
  | |- mediated _ _ (Prelude.bind (daemon_ipc_call _ _ _ _ _) _) => apply mediated_call; [apply method_dispatched|intros ?; off]
  | |- mediated _ _ (Prelude.bind _ _) => apply mediated_bind; [off|intros ?; med]
  | |- mediated _ _ (complain _ _ _) => apply mediated_complain; done
  | |- mediated _ _ (match ?x with _ => _ end) => destruct x; med
  | |- mediated _ _ ?m => let h := head_of m in unfold h; med
  end.
