(* ===== verification/CommandLine.v ===== *)
(** * Running commands and tools from the shell

    Models [cmd_exec], [cmd_call], [task_create] and [task_update] of
    [crates/mx-agent-cli/src/cli.rs] with what they parse: durations, environment pairs, tool
    arguments and task actions.  The theorems say what the shell sees: the exit codes, the
    bytes of a command run through the daemon, and that a bad argument ends in code 64 before
    the daemon hears of it. *)
From Stdlib Require Import ZArith Lia Ascii Strings.Byte.
From stdpp Require Import gmap strings list pretty.
From S2P Require Import Prelude RustStr Orphans Sandboxing PolicyFile PolicyEngine CanonicalJson Schema Signing Room TaskLifecycle LiveAuth ResultPlane Runner LiveHandlers ToolDispatch Streams Reassembly Sharing Workspace Watch ExecIpc IpcServer Devices Console.
Local Open Scope Z_scope.

(** ** Arguments *)

Record CallArgs := { ca_room : option string; ca_agent : option string; ca_tool : option string; ca_args : list string; ca_input_json : option string }.
Record ExecArgs := {
  xa_room : option string; xa_agent : option string; xa_cwd : option string; xa_task : option string; xa_env : list string;
  xa_timeout : option N; xa_strict_stream : bool; xa_pty : bool; xa_command : list string;
}.
Record TaskActionInput := {
  ti_tool : option string; ti_args : list string; ti_input_json : option string; ti_exec : bool; ti_cwd : option string;
  ti_timeout_ms : option Z; ti_stream : bool; ti_command : list string;
}.
Record TaskCreateArgs := {
  tca_room : string; tca_id : option string; tca_title : string; tca_description : string; tca_state : option string; tca_assign : string;
  tca_depends_on : list string; tca_blocks : list string; tca_action : TaskActionInput;
}.
Record TaskUpdateArgs := {
  tua_room : string; tua_task_id : string; tua_state : option string; tua_assign : option string; tua_title : option string;
  tua_description : option string; tua_invocation : option string; tua_expected_state_rev : option Z; tua_action : TaskActionInput;
}.
Definition USAGE : Z := 64.
Definition EXIT_TIMEOUT : Z := 129.

(** [str::strip_suffix] for an ASCII suffix. *)
Definition strip_suffix (suffix s : string) : option string :=
  let n := (String.length s - String.length suffix)%nat in
  if (String.length suffix <=? String.length s)%nat && (str_drop n s =s suffix) then Some (String.substring 0 n s) else None.
(** The number and the milliseconds of its unit. *)
Definition timeout_unit (raw : string) : string * Z :=
  match strip_suffix "ms" raw with
  | Some n => (n, 1)
  | None =>
    match strip_suffix "s" raw with
    | Some n => (n, 1000)
    | None =>
      match strip_suffix "m" raw with
      | Some n => (n, 60000)
      | None => match strip_suffix "h" raw with Some n => (n, 3600000) | None => (raw, 1000) end
      end
    end
  end.
(** [checked_mul]. *)
Definition checked_mul_u64 (a b : Z) : option Z := if a * b <=? u64_max then Some (a * b) else None.

Section parse.
Context (debug : string → string).
Definition parse_timeout_ms (raw : string) : result Z string :=
  let raw := trim raw in
  let '(digits, mult_ms) := timeout_unit raw in
  let? value := ok_or (parse_u64 (trim digits)) ("invalid duration " +:+ debug raw +:+ ": expected e.g. 300, 5m, 500ms, 2h") in
  let? ms := ok_or (checked_mul_u64 value mult_ms) ("duration " +:+ debug raw +:+ " is too large") in
  if ms =? 0 then Err ("duration " +:+ debug raw +:+ " must be greater than zero") else Ok ms.

(** A [key=value] pair with its key. *)
Definition split_pair (missing empty p : string) : result (string * string) string :=
  let? kv := ok_or (split_once "=" p) missing in
  if kv.1 =s "" then Err empty else Ok kv.
Fixpoint parse_env_pairs_into (map : gmap string string) (pairs : list string) : result (gmap string string) string :=
  match pairs with
  | [] => Ok map
  | p :: pairs =>
    let? kv := split_pair ("invalid --env " +:+ debug p +:+ ": expected KEY=VALUE")
                                    ("invalid --env " +:+ debug p +:+ ": empty variable name") p in
    parse_env_pairs_into (<[kv.1 := kv.2]> map) pairs
  end.
Definition parse_env_pairs (pairs : list string) : result (gmap string string) string := parse_env_pairs_into ∅ pairs.

(** [true], [false] and what parses as an [i64] are not strings. *)
Definition coerce_value (value : string) : Value :=
  if value =s "true" then Bool true
  else if value =s "false" then Bool false
  else match parse_i64 value with Some n => Num (NumInt n) | None => Str value end.
Fixpoint parse_tool_args_into (map : gmap string Value) (pairs : list string) : result (gmap string Value) string :=
  match pairs with
  | [] => Ok map
  | p :: pairs =>
    let? kv := split_pair ("argument " +:+ debug p +:+ " is not in key=value form") ("argument " +:+ debug p +:+ " has an empty key") p in
    parse_tool_args_into (<[kv.1 := coerce_value kv.2]> map) pairs
  end.
Definition parse_tool_args (pairs : list string) : result Value string :=
  let? map := parse_tool_args_into ∅ pairs in Ok (Object (btree_iter map)).
Definition validate_task_state_arg (state : string) : result unit string :=
  if is_known_state state then Ok tt else Err ("task state " +:+ debug state +:+ " is not recognized").
End parse.

(** ** The commands *)

Section commands.
Context {W : Type} `{System W} `{Wire} (io : WriteLog → Writer → bool) (default_socket : string).
Context (debug : string → string) (from_str : string → result Value string) (to_string : Printable → option string) (show_value : Value → string).

Definition is_object (v : Value) : bool := match v with Object _ => true | _ => false end.
Definition read_json_object (path : string) : CM W (result Value string) :=
  let! raw :=
    if path =s "-" then
      let! r := act sys_read_stdin_text in ret (match r with Ok raw => Ok raw | Err e => Err ("could not read stdin: " +:+ e) end)
    else
      let! r := look (sys_read_file path) in ret (match r with Ok raw => Ok raw | Err e => Err ("could not read " +:+ path +:+ ": " +:+ e) end) in
  ret (let? raw := raw in
       match from_str raw with
       | Ok v => if is_object v then Ok v else Err "--input-json must contain a JSON object"
       | Err e => Err ("invalid --input-json: " +:+ e)
       end).
(** The first of the conflicts between the flags of an action. *)
Definition action_conflict (i : TaskActionInput) : option string :=
  if is_some i.(ti_tool) && i.(ti_exec) then Some "--tool and --exec are mutually exclusive"
  else if is_some i.(ti_input_json) && nonempty i.(ti_args) then Some "--input-json and --arg are mutually exclusive"
  else if negb (is_some i.(ti_tool)) && nonempty i.(ti_args) then Some "--arg requires --tool"
  else if negb (is_some i.(ti_tool)) && is_some i.(ti_input_json) then Some "--input-json requires --tool"
  else if negb i.(ti_exec) && (nonempty i.(ti_command) || is_some i.(ti_cwd) || is_some i.(ti_timeout_ms) || i.(ti_stream))
  then Some "exec action flags require --exec"
  else None.
(** [to_string_lossy] is the identity on UTF-8. *)
Definition build_task_action (i : TaskActionInput) : CM W (result (option TaskAction) string) :=
  match action_conflict i with
  | Some e => ret (Err e)
  | None =>
    match i.(ti_tool) with
    | Some tool =>
      let! args := match i.(ti_input_json) with Some path => read_json_object path | None => ret (parse_tool_args debug i.(ti_args)) end in
      ret (let? args := args in Ok (Some (Tool tool args None)))
    | None =>
      ret (if i.(ti_exec) then
             if negb (nonempty i.(ti_command)) then Err "--exec requires a command after --"
             else Ok (Some (Exec i.(ti_command) (unwrap_or i.(ti_cwd) ".") ∅ i.(ti_timeout_ms) i.(ti_stream) None))
           else Ok None)
    end
  end.
(** [{ eprintln!("mx-agent: {e}"); return ExitCode::from(64) }] *)
Definition or_usage {A} (r : result A string) : CM W A := or_complain io USAGE (λ e, "mx-agent: " +:+ e) r.
Definition check_state_arg (state : option string) : CM W unit :=
  match state with Some state => or_usage (validate_task_state_arg debug state) | None => ret tt end.
Definition print_json (p : Printable) (fallback : string) : CM W unit := println io (unwrap_or (to_string p) fallback).

Definition task_result_summary (result : Value) : string :=
  let status := unwrap_or (v ← field "status" result; as_str v) "unknown" in
  let reason := match v ← field "reason" result; as_str v with Some reason => ["reason=" +:+ reason] | None => [] end in
  let exit_code := match field "exit_code" result with
                   | Some (Num (NumInt n)) => if (i64_min <=? n) && (n <=? i64_max) then ["exit_code=" +:+ pretty n] else []
                   | _ => []
                   end in
  let summary := match v ← field "summary" result; as_str v with Some summary => if summary =s "" then [] else [summary] | None => [] end in
  str_join "; " ([status] ++ reason ++ exit_code ++ summary).
Definition task_lines (task : TaskState) : list string :=
  ["  " +:+ left_pad 28 task.(ts_task_id) +:+ " " +:+ left_pad 10 task.(ts_state) +:+ " " +:+ task.(ts_title)]
  ++ unless_empty "    assigned_to:  " task.(ts_assigned_to)
  ++ unless_nil "    depends_on:   " ", " task.(ts_depends_on)
  ++ unless_nil "    blocks:       " ", " task.(ts_blocks)
  ++ opt_line "    invocation:   " task.(ts_invocation_id)
  ++ [match task.(ts_action) with
      | Some (Tool tool _ _) => "    action:       tool " +:+ tool
      | Some (Exec command cwd _ _ _ _) => "    action:       exec " +:+ str_join " " command +:+ " (cwd " +:+ cwd +:+ ")"
      | None => "    action:       manual/planning"
      end]
  ++ match task.(ts_result) with Some result => ["    result:       " +:+ task_result_summary result] | None => [] end
  ++ ["    state_rev:    " +:+ pretty task.(ts_state_rev)].
Definition print_task (task : TaskState) : CM W unit := println_all io (task_lines task).
Definition print_mutation (global : GlobalArgs) (verb : string) (mutation : TaskMutation) : CM W Z :=
  let! _ := if global.(g_json) then print_json (PTaskMutation mutation) "{}"
            else let! _ := println io ("mx-agent: " +:+ verb +:+ " task " +:+ mutation.(tmu_task).(ts_task_id)) in print_task mutation.(tmu_task) in
  ret SUCCESS.
Definition task_create (global : GlobalArgs) (args : TaskCreateArgs) : CM W Z :=
  let! _ := check_state_arg args.(tca_state) in
  let! action := build_task_action args.(tca_action) in
  let! action := or_usage action in
  let options := {| co_task_id := args.(tca_id); co_title := args.(tca_title); co_description := args.(tca_description); co_state := args.(tca_state);
    co_assigned_to := args.(tca_assign); co_created_by := None; co_depends_on := args.(tca_depends_on); co_blocks := args.(tca_blocks); co_action := action |} in
  let! mutation := daemon_ipc_call io default_socket global MTaskCreate (args.(tca_room), options) in
  print_mutation global "created" mutation.
Definition task_update (global : GlobalArgs) (args : TaskUpdateArgs) : CM W Z :=
  let! _ := check_state_arg args.(tua_state) in
  let! action := build_task_action args.(tua_action) in
  let! action := or_usage action in
  let options := {| uo_task_id := args.(tua_task_id); uo_state := args.(tua_state); uo_assigned_to := args.(tua_assign); uo_title := args.(tua_title);
    uo_description := args.(tua_description); uo_invocation_id := args.(tua_invocation); uo_result := None; uo_action := action;
    uo_expected_state_rev := args.(tua_expected_state_rev) |} in
  let! mutation := daemon_ipc_call io default_socket global MTaskUpdate (args.(tua_room), options) in
  print_mutation global "updated" mutation.

(** ** Calling a tool *)

Definition call_exit (kind : CallErrorKind) : Z :=
  match kind with CkUnknownTool | CkNotFound => 127 | CkInvalidArgs => USAGE | CkSpawn | CkRemote => 128 end.
Definition print_call_outcome (global : GlobalArgs) (outcome : CallOutcome) : CM W Z :=
  match outcome with
  | CallOk exit_code summary =>
    let! _ := if global.(g_json) then println io (show_value (Object [("exit_code", Num (NumInt exit_code)); ("summary", Str summary)]))
              else println io ("mx-agent: " +:+ summary) in
    ret (unwrap_or (u8_try_from exit_code) 1)
  | CallError kind message =>
    let! _ := if global.(g_json) then println io (show_value (Object [("error", Str message); ("ok", Bool false)]))
              else eprintln io ("mx-agent: " +:+ message) in
    ret (call_exit kind)
  end.
Definition cmd_call (global : GlobalArgs) (args : CallArgs) : CM W Z :=
  let! tool := or_usage (ok_or args.(ca_tool) "--tool is required") in
  let! _ := or_usage (if is_some args.(ca_input_json) && nonempty args.(ca_args) then Err "--input-json and --arg are mutually exclusive" else Ok tt) in
  let! input := match args.(ca_input_json) with Some path => read_json_object path | None => ret (parse_tool_args debug args.(ca_args)) end in
  let! input := or_usage input in
  let params := {| cs_room := args.(ca_room); cs_agent := args.(ca_agent); cs_tool := tool; cs_input := input; cs_invocation_id := None |} in
  let! result := daemon_ipc_call io default_socket global MCallStart params in
  print_call_outcome global result.(cr_outcome).

(** ** Running a command *)

Definition read_piped_stdin : CM W (result (option bytes) string) :=
  let! terminal := look sys_stdin_is_terminal in
  if terminal then ret (Ok None)
  else let! r := act sys_read_stdin in ret (match r with Ok buf => Ok (Some buf) | Err e => Err e end).
Definition exec_exit (kind : ExecErrorKind) : Z :=
  match kind with XNotFound => 127 | XEmptyCommand => USAGE | XTimeout => EXIT_TIMEOUT | XSpawn | XRemote => EXIT_PROTOCOL_FAILURE end.
Context `{Crypto} (b64_error : string → string) (show_io : Reassembly.IoError → string) (order : gmap StreamKind StreamReorder → list StreamKind).
(** The renderer writes to the same two streams. *)
Definition render (frames : list StreamFrame) (strict : bool) : CM W (result StreamOutcome Reassembly.IoError) := λ s,
  let config := if strict then {| rc_reorder_window := DEFAULT_REORDER_WINDOW; rc_strict := true |} else default_render_config in
  let '(r, log) := render_stream_with io debug b64_error order frames config s.(co_log) in (Ok r, with_log log s).
Definition report_outcome (outcome : StreamOutcome) : CM W Z :=
  if outcome.(so_integrity_failure) then complain io EXIT_STREAM_INTEGRITY "mx-agent: error: stream integrity check failed (strict mode)"
  else
    let! _ := if outcome.(so_truncated) then eprintln io "mx-agent: warning: output was truncated to the per-invocation byte cap" else ret tt in
    match outcome.(so_exit_code) with
    | Some code =>
      let! _ := if degraded outcome
                then eprintln io ("mx-agent: warning: output was degraded (" +:+ pretty (N.of_nat (length outcome.(so_missing))) +:+ " chunk(s) missing)")
                else ret tt in
      ret code
    | None => complain io EXIT_PROTOCOL_FAILURE "mx-agent: stream ended without exec.finished"
    end.
(** The interactive session, which the terminal's own model follows byte by byte. *)
Context (cmd_exec_pty : GlobalArgs → ExecArgs → string → CM W Z).
Definition cmd_exec (global : GlobalArgs) (args : ExecArgs) : CM W Z :=
  let! _ := or_usage (if negb (nonempty args.(xa_command)) then Err "exec requires a command after `--`" else Ok tt) in
  let! cwd := match args.(xa_cwd) with
              | Some p => ret p
              | None => let! r := look sys_current_dir in or_complain io USAGE (λ e, "mx-agent: cannot determine working directory: " +:+ e) r
              end in
  if args.(xa_pty) then cmd_exec_pty global args cwd
  else
    let! stdin := read_piped_stdin in
    let! stdin := or_complain io USAGE (λ e, "mx-agent: failed reading stdin: " +:+ e) stdin in
    let! env := or_usage (parse_env_pairs debug args.(xa_env)) in
    let params := {|
      xs_params := {| xp_command := args.(xa_command); xp_cwd := Some cwd; xp_stdin := map byte_of_ascii <$> stdin; xp_env := env; xp_timeout_ms := args.(xa_timeout) |};
      xs_room := args.(xa_room); xs_agent := args.(xa_agent); xs_stream := true; xs_pty := false; xs_task := args.(xa_task); xs_strict_stream := args.(xa_strict_stream); xs_invocation_id := None |} in
    let! result := daemon_ipc_call io default_socket global MExecStart params in
    match result.(xr_outcome) with
    | ExecError kind message => complain io (exec_exit kind) ("mx-agent: exec failed: " +:+ message)
    | ExecOk frames =>
      let! r := render frames args.(xa_strict_stream) in
      match r with
      | Ok outcome => report_outcome outcome
      | Err e => complain io FAILURE ("mx-agent: failed writing output: " +:+ show_io e)
      end
    end.
End commands.

(** ** Durations and pairs *)

Section parse_correct.
Context (debug : string → string).

Lemma parse_digits_nonneg s : ∀ acc z, 0 ≤ acc → parse_digits acc s = Some z → 0 ≤ z.
Proof.
  induction s as [|c s IH]; intros acc z Ha; cbn [parse_digits]; [by intros [= <-]|].
  destruct (is_ascii_digit c) eqn:Hc; [|done]. apply IH. unfold is_ascii_digit in Hc. apply andb_true_iff in Hc as [?%N.leb_le _]. lia.
Qed.
Lemma parse_u64_nonneg s v : parse_u64 s = Some v → 0 ≤ v.
Proof.
  unfold parse_u64, parse_unsigned. destruct s as [|c r]; [done|]. intros E.
  destruct (decide (c = "+"%char)); [destruct r as [|d r]; [done|]|];
    destruct (parse_digits _ _) as [z|] eqn:Ez; cbn in E; try done; destruct (z <=? u64_max); try done;
    injection E as <-; by eapply parse_digits_nonneg; [|exact Ez].
Qed.
Lemma timeout_unit_pos raw : 0 < (timeout_unit raw).2.
Proof. unfold timeout_unit. repeat case_match; cbn; lia. Qed.

Lemma drop_app_string a b : str_drop (String.length a) (a +:+ b) = b.
Proof. induction a as [|c a IH]; [done|]. rewrite append_cons. apply IH. Qed.
Lemma substring_app_string a b : String.substring 0 (String.length a) (a +:+ b) = a.
Proof. induction a as [|c a IH]; [by destruct b|]. rewrite append_cons. cbn. by rewrite IH. Qed.
Lemma length_app_string a b : String.length (a +:+ b) = (String.length a + String.length b)%nat.
Proof. induction a as [|c a IH]; [done|]. rewrite append_cons. cbn. by rewrite IH. Qed.
Lemma strip_suffix_app a p : strip_suffix p (a +:+ p) = Some a.
Proof.
  unfold strip_suffix. rewrite length_app_string, Nat.add_sub, drop_app_string, substring_app_string, str_eqb_refl.
  by rewrite (proj2 (Nat.leb_le _ _)) by lia.
Qed.
Lemma split_string n s : s = String.substring 0 n s +:+ str_drop n s.
Proof. revert s. induction n as [|n IH]; intros [|c s]; try done. cbn. rewrite append_cons. by rewrite <- IH. Qed.
Lemma strip_suffix_Some p s r : strip_suffix p s = Some r → s = r +:+ p.
Proof.
  unfold strip_suffix. destruct (_ && _) eqn:E; [|done]. apply andb_true_iff in E as [_ E%str_eqb_eq]. intros [= <-].
  rewrite (split_string (String.length s - String.length p) s) at 1. by rewrite E.
Qed.
Lemma strip_suffix_other p s c : str_contains_char c p = true → str_contains_char c s = false → strip_suffix p s = None.
Proof.
  intros Hp Hs. destruct (strip_suffix p s) as [r|] eqn:E; [|done]. apply strip_suffix_Some in E as ->.
  assert (str_contains_char c (r +:+ p) = true) as Hc; [|congruence]. clear Hs.
  induction r as [|d r IH]; [done|]. rewrite append_cons. cbn. by destruct (decide _).
Qed.

(** Printing characters are not trimmed. *)
Definition visible_char (c : ascii) : bool := ((33 <=? byte_of c) && (byte_of c <=? 126))%N.
Fixpoint visible (s : string) : bool := match s with "" => true | String c s => visible_char c && visible s end.
Lemma visible_app a b : visible (a +:+ b) = visible a && visible b.
Proof. induction a as [|c a IH]; [done|]. rewrite append_cons. cbn [visible]. by rewrite IH, andb_assoc. Qed.
Lemma visible_strip c s : visible_char c = true → strip_ws (String c s) = None.
Proof. intros Hc. destruct c as [[] [] [] [] [] [] [] []]; try discriminate Hc; by destruct s as [|? [|]]. Qed.
Lemma visible_trim_start s : visible s = true → trim_start s = s.
Proof.
  destruct s as [|c s]; [done|]. cbn [visible]. intros [Hc _]%andb_prop. unfold trim_start. cbn [String.length trim_start_fuel].
  by rewrite visible_strip.
Qed.
Lemma visible_trim s : visible s = true → trim s = s.
Proof.
  intros Hs. unfold trim. rewrite visible_trim_start by done. induction s as [|c s IH]; [done|]. cbn [trim_end].
  unfold trim_is_empty. rewrite visible_trim_start by done. cbn [visible] in Hs. apply andb_prop in Hs as [_ Hs]. cbn. by rewrite IH.
Qed.
Lemma digits_visible s : digits s = true → visible s = true.
Proof.
  induction s as [|c s IH]; [done|]. cbn [digits visible]. intros [Hc Hs]%andb_prop. rewrite IH by done. rewrite andb_true_r.
  unfold is_ascii_digit in Hc. unfold visible_char. apply andb_prop in Hc as [?%N.leb_le ?%N.leb_le]. apply andb_true_intro. split; apply N.leb_le; lia.
Qed.

(** The units a duration may have; without one it is in seconds. *)
Definition UNITS : list (string * Z) := [("ms", 1); ("s", 1000); ("m", 60000); ("h", 3600000); ("", 1000)].
Lemma timeout_unit_digits digits_ unit mult : digits digits_ = true → (unit, mult) ∈ UNITS → timeout_unit (digits_ +:+ unit) = (digits_, mult).
Proof.
  intros Hd Hu. assert (∀ c, is_ascii_digit c = false → str_contains_char c digits_ = false) as Hno by (intros; by apply digits_no).
  assert (∀ c u, is_ascii_digit c = false → str_contains_char c u = false → str_contains_char c (digits_ +:+ u) = false) as Happ.
  { intros c u Hc Hu'. specialize (Hno c Hc). clear -Hno Hu'. induction digits_ as [|d r IH]; [done|]. rewrite append_cons. cbn in *.
    destruct (decide (c = d)); [done|]. by apply IH. }
  assert (strip_suffix "ms" (digits_ +:+ "s") = None) as Hms.
  { destruct (strip_suffix "ms" _) as [r|] eqn:E; [|done]. apply strip_suffix_Some in E.
    change (r +:+ "ms") with (r +:+ ("m" +:+ "s")) in E. rewrite <- append_assoc in E. apply (f_equal (strip_suffix "s")) in E.
    rewrite !strip_suffix_app in E. injection E as ->. specialize (Hno "m"%char eq_refl). exfalso. clear -Hno.
    induction r as [|d r IH]; [done|]. rewrite append_cons in Hno. cbn in Hno. destruct (decide _); [done|]. by apply IH. }
  unfold timeout_unit. unfold UNITS in Hu. repeat (apply elem_of_cons in Hu as [[= -> ->]|Hu]); [| | | | |by apply not_elem_of_nil in Hu].
  - by rewrite strip_suffix_app.
  - by rewrite Hms, strip_suffix_app.
  - rewrite (strip_suffix_other "ms" _ "s"), (strip_suffix_other "s" _ "s"), strip_suffix_app by (done || by apply Happ). done.
  - rewrite (strip_suffix_other "ms" _ "s"), (strip_suffix_other "s" _ "s"), (strip_suffix_other "m" _ "m"), strip_suffix_app by (done || by apply Happ). done.
  - rewrite append_nil_r, (strip_suffix_other "ms" _ "s"), (strip_suffix_other "s" _ "s"), (strip_suffix_other "m" _ "m"), (strip_suffix_other "h" _ "h")
      by (done || by apply Hno). done.
Qed.

(** A duration is read exactly, in any of its units, or refused: it is never zero and never
    beyond 64 bits. *)
Theorem timeout_durations :
  (∀ n unit mult, (unit, mult) ∈ UNITS → 0 < n → n * mult ≤ u64_max → parse_timeout_ms debug (pretty n +:+ unit) = Ok (n * mult)) ∧
  (∀ n unit mult, (unit, mult) ∈ UNITS → 0 < n ≤ u64_max → u64_max < n * mult → is_err (parse_timeout_ms debug (pretty n +:+ unit)) = true) ∧
  (∀ raw ms, parse_timeout_ms debug raw = Ok ms → 0 < ms ≤ u64_max).
Proof.
  assert (∀ n unit mult, (unit, mult) ∈ UNITS → 0 < n ≤ u64_max →
    parse_timeout_ms debug (pretty n +:+ unit) =
      let? ms := ok_or (checked_mul_u64 n mult) ("duration " +:+ debug (pretty n +:+ unit) +:+ " is too large") in
      if ms =? 0 then Err ("duration " +:+ debug (pretty n +:+ unit) +:+ " must be greater than zero") else Ok ms) as Hp.
  { intros n unit mult Hu Hn. destruct (numeral_pretty n Hn) as [Hd Hv]. unfold parse_timeout_ms.
    assert (visible unit = true) as Hvu. { unfold UNITS in Hu. by repeat (apply elem_of_cons in Hu as [[= -> ->]|Hu]); [..|apply not_elem_of_nil in Hu]. }
    rewrite visible_trim by (by rewrite visible_app, digits_visible). rewrite (timeout_unit_digits _ _ mult) by done.
    rewrite visible_trim by (by apply digits_visible). by rewrite Hv. }
  assert (∀ unit mult, (unit, mult) ∈ UNITS → 1 ≤ mult) as Hm.
  { intros unit mult Hu. unfold UNITS in Hu. repeat (apply elem_of_cons in Hu as [[= -> ->]|Hu]); [..|by apply not_elem_of_nil in Hu]; lia. }
  split_and!.
  - intros n unit mult Hu Hn Hb. specialize (Hm _ _ Hu). rewrite (Hp _ _ mult) by (done || nia). unfold checked_mul_u64. rewrite (proj2 (Z.leb_le _ _)) by done. cbn.
    by rewrite (proj2 (Z.eqb_neq _ _)) by nia.
  - intros n unit mult Hu Hn Hb. rewrite (Hp _ _ mult) by done. unfold checked_mul_u64. by rewrite (proj2 (Z.leb_gt _ _)) by lia.
  - intros raw ms. unfold parse_timeout_ms. pose proof (timeout_unit_pos (trim raw)) as Hpos. destruct (timeout_unit _) as [d mult]. cbn in Hpos.
    destruct (parse_u64 _) as [v|] eqn:Ev; cbn; [|done]. unfold checked_mul_u64. destruct (v * mult <=? u64_max) eqn:E; cbn; [|done].
    destruct (v * mult =? 0) eqn:E0; [done|]. intros [= <-]. apply parse_u64_nonneg in Ev. lia.
Qed.
End parse_correct.

(** A list of [key=value] arguments: every one has an [=] after a name. *)
Definition pair_of_arg (p : string) : option (string * string) := kv ← split_once "=" p; if kv.1 =s "" then None else Some kv.
Definition pairs_of (pairs : list string) : option (list (string * string)) := mapM pair_of_arg pairs.
Section pairs.
Context (debug : string → string).
Lemma split_pair_ok missing empty p kv : split_pair missing empty p = Ok kv ↔ pair_of_arg p = Some kv.
Proof. unfold split_pair, pair_of_arg. destruct (split_once "=" p) as [[k v]|]; cbn; [destruct (k =s "")|]; split; intros; by simplify_eq. Qed.
Lemma pairs_of_cons p pairs kvs : pairs_of (p :: pairs) = Some kvs ↔ ∃ kv rest, pair_of_arg p = Some kv ∧ pairs_of pairs = Some rest ∧ kvs = kv :: rest.
Proof.
  unfold pairs_of. cbn [mapM]. destruct (pair_of_arg p) as [kv|]; cbn; [destruct (mapM pair_of_arg pairs) as [rest|]; cbn|].
  - split; [intros [= <-]; by exists kv, rest|]. by intros (? & ? & [= <-] & [= <-] & ->).
  - split; [done|]. by intros (? & ? & _ & ? & _).
  - split; [done|]. by intros (? & ? & ? & _).
Qed.
Lemma last_wins {V} (kv : string * V) (kvs : list (string * V)) (m : gmap string V) :
  list_to_map (reverse (kv :: kvs)) ∪ m = list_to_map (reverse kvs) ∪ <[kv.1 := kv.2]> m.
Proof. rewrite reverse_cons, list_to_map_app. destruct kv as [k v]. cbn. by rewrite <- (assoc_L (∪)), insert_empty, <- insert_union_singleton_l. Qed.
Lemma parse_env_pairs_into_spec pairs : ∀ m m', parse_env_pairs_into debug m pairs = Ok m' ↔
  ∃ kvs, pairs_of pairs = Some kvs ∧ m' = list_to_map (reverse kvs) ∪ m.
Proof.
  induction pairs as [|p pairs IH]; intros m m'; cbn [parse_env_pairs_into].
  - split; [intros [= <-]; exists []; split; [done|]; cbn; by rewrite (left_id_L ∅ (∪))|]. intros (kvs & [= <-] & ->). cbn. by rewrite (left_id_L ∅ (∪)).
  - destruct (split_pair _ _ p) as [kv|e] eqn:E; cbn.
    + apply split_pair_ok in E. rewrite IH. setoid_rewrite pairs_of_cons. setoid_rewrite E. split.
      * intros (kvs & Hk & ->). exists (kv :: kvs). split; [by exists kv, kvs|]. by rewrite last_wins.
      * intros (kvs & (kv' & rest & [= <-] & Hr & ->) & ->). exists rest. by rewrite last_wins.
    + split; [done|]. intros (kvs & (kv & rest & Hkv & _)%pairs_of_cons & _). eapply split_pair_ok in Hkv. by rewrite E in Hkv.
Qed.
Lemma parse_tool_args_into_spec pairs : ∀ m m', parse_tool_args_into debug m pairs = Ok m' ↔
  ∃ kvs, pairs_of pairs = Some kvs ∧ m' = (coerce_value <$> (list_to_map (reverse kvs) : gmap string string)) ∪ m.
Proof.
  induction pairs as [|p pairs IH]; intros m m'; cbn [parse_tool_args_into].
  - split; [intros [= <-]; exists []; split; [done|]; cbn; by rewrite fmap_empty, (left_id_L ∅ (∪))|]. intros (kvs & [= <-] & ->). cbn. by rewrite fmap_empty, (left_id_L ∅ (∪)).
  - destruct (split_pair _ _ p) as [kv|e] eqn:E; cbn.
    + apply split_pair_ok in E. rewrite IH. setoid_rewrite pairs_of_cons. setoid_rewrite E.
      assert (∀ kvs, (coerce_value <$> (list_to_map (reverse (kv :: kvs)) : gmap string string)) ∪ m =
                     (coerce_value <$> (list_to_map (reverse kvs) : gmap string string)) ∪ <[kv.1 := coerce_value kv.2]> m) as Hl.
      { intros kvs. rewrite reverse_cons, list_to_map_app. destruct kv as [k v]. cbn.
        by rewrite map_fmap_union, insert_empty, map_fmap_singleton, <- (assoc_L (∪)), <- insert_union_singleton_l. }
      split.
      * intros (kvs & Hk & ->). exists (kv :: kvs). split; [by exists kv, kvs|]. by rewrite Hl.
      * intros (kvs & (kv' & rest & [= <-] & Hr & ->) & ->). exists rest. by rewrite Hl.
    + split; [done|]. intros (kvs & (kv & rest & Hkv & _)%pairs_of_cons & _). eapply split_pair_ok in Hkv. by rewrite E in Hkv.
Qed.

(** Environment and tool arguments are accepted exactly when each has a name before its
    first [=]; the value is everything after it, and the last of a name counts. *)
Theorem pairs_exact pairs :
  (∀ m, parse_env_pairs debug pairs = Ok m ↔ ∃ kvs, pairs_of pairs = Some kvs ∧ m = list_to_map (reverse kvs)) ∧
  (∀ v, parse_tool_args debug pairs = Ok v ↔
        ∃ kvs, pairs_of pairs = Some kvs ∧ v = Object (btree_iter (coerce_value <$> (list_to_map (reverse kvs) : gmap string string)))).
Proof.
  split.
  - intros m. unfold parse_env_pairs. rewrite parse_env_pairs_into_spec. by setoid_rewrite (right_id_L ∅ (∪)).
  - intros v. unfold parse_tool_args. destruct (parse_tool_args_into debug ∅ pairs) as [m|e] eqn:E; cbn.
    + apply parse_tool_args_into_spec in E as (kvs & Hk & ->). rewrite (right_id_L ∅ (∪)). rewrite Hk. naive_solver.
    + split; [done|]. intros (kvs & Hk & ->).
      assert (parse_tool_args_into debug ∅ pairs = Ok (coerce_value <$> (list_to_map (reverse kvs) : gmap string string))) as E'; [|congruence].
      apply parse_tool_args_into_spec. exists kvs. by rewrite (right_id_L ∅ (∪)).
Qed.
End pairs.

(** ** Arguments the shell got wrong *)

(** What makes the arguments of a command unusable before anything is read. *)
Definition bad_call (args : CallArgs) : bool :=
  negb (is_some args.(ca_tool)) || (is_some args.(ca_input_json) && nonempty args.(ca_args))
  || (negb (is_some args.(ca_input_json)) && negb (is_some (pairs_of args.(ca_args)))).
Definition bad_state (state : option string) : bool := match state with Some state => negb (is_known_state state) | None => false end.
Definition bad_action (i : TaskActionInput) : bool :=
  is_some (action_conflict i) || (is_some i.(ti_tool) && negb (is_some i.(ti_input_json)) && negb (is_some (pairs_of i.(ti_args))))
  || (i.(ti_exec) && negb (nonempty i.(ti_command))).
Section usage.
Context {W : Type} `{System W} `{Wire} (io : WriteLog → Writer → bool) (default_socket : string).
Context (debug : string → string) (from_str : string → result Value string) (to_string : Printable → option string) (show_value : Value → string).
Context `{Crypto} (b64_error : string → string) (show_io : Reassembly.IoError → string) (order : gmap StreamKind StreamReorder → list StreamKind).
Context (cmd_exec_pty : GlobalArgs → ExecArgs → string → CM W Z) (io_ok : ∀ log w, io log w = true).
(** The command prints one line and ends with code 64. *)
Definition refused {A} (m : CM W A) : Prop := ∀ s, ∃ line, m s = (Err USAGE, with_log (s.(co_log) ++ [(ErrOut, line)]) s).
Lemma refused_usage {A} e : refused (or_usage (A := A) io (Err e)).
Proof. intros s. unfold or_usage, or_complain, complain, Prelude.bind, eprintln, emit, fail. rewrite io_ok. by eexists. Qed.
Lemma refused_bind {A B} (m : CM W A) (f : A → CM W B) : refused m → refused (Prelude.bind m f).
Proof. intros Hm s. destruct (Hm s) as [line E]. exists line. unfold Prelude.bind. by rewrite E. Qed.
Lemma refused_after {A B} (x : A) (f : A → CM W B) : refused (f x) → refused (Prelude.bind (ret x) f).
Proof. done. Qed.
Lemma pairs_refused pairs : pairs_of pairs = None → ∃ e, parse_tool_args debug pairs = Err e.
Proof.
  intros Hn. destruct (parse_tool_args debug pairs) as [v|e] eqn:E; [|by eexists]. unfold parse_tool_args in E.
  destruct (parse_tool_args_into debug ∅ pairs) as [m|e'] eqn:E'; [|done]. apply parse_tool_args_into_spec in E' as (kvs & Hk & _). congruence.
Qed.
Lemma refused_action {B} i (f : option TaskAction → CM W B) : bad_action i = true →
  refused (let! a := build_task_action debug from_str i in let! a := or_usage io a in f a).
Proof.
  unfold bad_action, build_task_action. destruct (action_conflict i) as [e|] eqn:Ec; cbn [is_some orb].
  { intros _. apply refused_after, refused_bind, refused_usage. }
  unfold action_conflict in Ec. destruct i.(ti_tool) as [tool|]; cbn [is_some negb andb orb] in *.
  - destruct i.(ti_exec); [done|]. destruct i.(ti_input_json) as [path|]; cbn [is_some negb andb orb]; [done|].
    destruct (pairs_of i.(ti_args)) as [kvs|] eqn:Ep; cbn [is_some negb andb orb]; [done|]. intros _. destruct (pairs_refused _ Ep) as [e ->].
    intros s. destruct (refused_bind _ f (refused_usage e) s) as [line E]. exists line. exact E.
  - intros Hb. destruct i.(ti_exec); [|done]. cbn [andb] in Hb. rewrite Hb. apply refused_after, refused_bind, refused_usage.
Qed.

(** Arguments that cannot be used end in code 64 with one line on standard error: no request
    is made and the world is as it was. *)
Theorem bad_arguments_stay_here global :
  (∀ args, bad_call args = true → refused (cmd_call io default_socket debug from_str show_value global args)) ∧
  (∀ args, args.(xa_command) = [] → refused (cmd_exec io default_socket debug b64_error show_io order cmd_exec_pty global args)) ∧
  (∀ args, bad_state args.(tca_state) || bad_action args.(tca_action) = true → refused (task_create io default_socket debug from_str to_string global args)) ∧
  (∀ args, bad_state args.(tua_state) || bad_action args.(tua_action) = true → refused (task_update io default_socket debug from_str to_string global args)).
Proof.
  assert (∀ (B : Type) state i (f : option TaskAction → CM W B), bad_state state || bad_action i = true →
    refused (let! _ := check_state_arg io debug state in let! a := build_task_action debug from_str i in let! a := or_usage io a in f a)) as Ht.
  { intros B state i f Hb. unfold check_state_arg, validate_task_state_arg. destruct state as [state|]; cbn [bad_state] in Hb.
    - destruct (is_known_state state); cbn [negb orb] in Hb; [apply refused_after; by apply refused_action|apply refused_bind, refused_usage].
    - apply refused_after. by apply refused_action. }
  split_and!.
  - intros args Hb. unfold cmd_call. unfold bad_call in Hb. destruct args.(ca_tool) as [tool|]; cbn [is_some negb orb ok_or] in *; [|apply refused_bind, refused_usage].
    apply refused_after. destruct (is_some args.(ca_input_json) && nonempty args.(ca_args)) eqn:Eb; [apply refused_bind, refused_usage|]. apply refused_after.
    cbn [orb] in Hb. destruct args.(ca_input_json) as [path|]; cbn [is_some negb andb] in Hb; [done|]. apply refused_after.
    destruct (pairs_of args.(ca_args)) as [kvs|] eqn:Ep; [done|]. destruct (pairs_refused _ Ep) as [e ->]. apply refused_bind, refused_usage.
  - intros args Hc. unfold cmd_exec. rewrite Hc. apply refused_bind, refused_usage.
  - intros args. apply Ht.
  - intros args. apply Ht.
Qed.
End usage.

(** ** A shell, the command line and a daemon on this host *)

(** The daemon's state, its answers not yet read, and what the process starts with. *)
Record Desktop (D : Type) := {
  dk_daemon : D; dk_inbox : list Response; dk_current_dir : result string string; dk_stdin : option (result bytes string);
}.
#[global] Arguments dk_daemon {D} _.
#[global] Arguments dk_inbox {D} _.
#[global] Arguments dk_current_dir {D} _.
#[global] Arguments dk_stdin {D} _.
Section desktop.
Context {D : Type} (serve : Request → D → Response * D).
Definition dk_with (d : D) (inbox : list Response) (w : Desktop D) : Desktop D :=
  {| dk_daemon := d; dk_inbox := inbox; dk_current_dir := w.(dk_current_dir); dk_stdin := w.(dk_stdin) |}.
(** A daemon that listens; no files and no variables. *)
Definition desktop_system : System (Desktop D) := {|
  sys_connect _ w := (Ok tt, w);
  sys_send r w := let '(response, d) := serve r w.(dk_daemon) in (Ok tt, dk_with d (w.(dk_inbox) ++ [response]) w);
  sys_recv w := match w.(dk_inbox) with
                | [] => (Err (RecvEof "connection closed"), w)
                | response :: inbox => (Ok response, dk_with w.(dk_daemon) inbox w)
                end;
  sys_current_dir := dk_current_dir;
  sys_stdin_is_terminal w := negb (is_some w.(dk_stdin));
  sys_read_stdin w := (unwrap_or w.(dk_stdin) (Ok []), w);
  sys_read_stdin_text w := (Err "stdin", w);
  sys_read_file _ _ := Err "no such file";
  sys_write_file _ _ w := (Err "read-only", w);
  sys_env _ _ := None;
|}.
End desktop.

(** The exit code the shell sees for a run that ended. *)
Definition shell_code (output : RunOutput) : Z :=
  match output.(ro_exit_code) with
  | Some code => if (0 <=? code) && (code <=? 255) then code else 1
  | None => match n ← output.(ro_signal); signal_name n with Some _ => 128 + unwrap_or output.(ro_signal) 0 | None => 128 end
  end.
(** The code by which a shell knows how a process ended: its own, or 128 plus the signal that
    killed it; the signals that have a name on the wire. *)
Definition ended_with (output : RunOutput) (code : Z) : Prop :=
  (output.(ro_exit_code) = Some code ∧ 0 ≤ code ≤ 255) ∨
  (output.(ro_exit_code) = None ∧ ∃ n, output.(ro_signal) = Some n ∧ is_Some (signal_name n) ∧ code = 128 + n).
Lemma shell_code_ended output code : ended_with output code → shell_code output = code.
Proof.
  intros [[He Hb]|(He & n & Hs & [name Hn] & ->)]; unfold shell_code; rewrite He; [|by rewrite Hs; cbn; rewrite Hn].
  by rewrite !(proj2 (Z.leb_le _ _)) by lia.
Qed.
(** The run that the arguments of [exec] ask for. *)
Definition exec_params (args : ExecArgs) (cwd : string) (stdin : option bytes) (env : gmap string string) : ExecStart :=
  {| xs_params := {| xp_command := args.(xa_command); xp_cwd := Some cwd; xp_stdin := map byte_of_ascii <$> stdin; xp_env := env; xp_timeout_ms := args.(xa_timeout) |};
     xs_room := args.(xa_room); xs_agent := args.(xa_agent); xs_stream := true; xs_pty := false; xs_task := args.(xa_task); xs_strict_stream := args.(xa_strict_stream); xs_invocation_id := None |}.
Lemma resolve_finished id output duration truncated artifact :
  resolve_exit_code (finished_frame id output duration truncated artifact) = shell_code output.
Proof.
  unfold resolve_exit_code, shell_code, finished_frame. cbn [ef_exit_code ef_signal]. destruct output.(ro_exit_code) as [c|].
  - unfold u8_try_from. by destruct (_ && _).
  - destruct output.(ro_signal) as [n|]; [|done]. cbn [mbind option_bind unwrap_or]. destruct (signal_name n) as [name|] eqn:E; [|done].
    unfold signal_name in E. repeat (match type of E with match ?p with _ => _ end = _ => destruct p; try discriminate E end); injection E as <-; reflexivity.
Qed.
Section end_to_end.
Context `{Crypto} (io : WriteLog → Writer → bool) (debug b64_error : string → string) (order : gmap StreamKind StreamReorder → list StreamKind).
Lemma render_truncated chunks finished config : ∀ b o log o' log',
  render_frames io debug b64_error order (map FChunk chunks ++ [FFinished finished]) config b o log = (Ok o', log') → o'.(so_truncated) = finished.(ef_truncated).
Proof.
  induction chunks as [|c chunks IH]; intros b o log o' log'; cbn [map app render_frames].
  - unfold Prelude.bind, ret. destruct (render_flush _ _ _ _ _ _ _) as [[x|e] log1]; [|done]. by intros [= <- _].
  - destruct (accept b c) as [[b1 ready] detected]. unfold Prelude.bind. destruct (render_ready _ _ _ _ _ _) as [[x|e] log1]; [|done].
    destruct (surface_missing _ _ _ _ _) as [[y|e] log2]; [|done]. apply IH.
Qed.
Lemma stream_truncated chunks finished config log o log' :
  render_stream_with io debug b64_error order (map FChunk chunks ++ [FFinished finished]) config log = (Ok o, log') → o.(so_truncated) = finished.(ef_truncated).
Proof.
  unfold render_stream_with, Prelude.bind, ret. destruct (render_frames _ _ _ _ _ _ _ _ _) as [[x|e] log1] eqn:E; [|done].
  destruct (flush_writer io Out _) as [[]]; [|done]. destruct (flush_writer io ErrOut _) as [[]]; [|done]. intros [= <- _]. by eapply render_truncated.
Qed.
End end_to_end.

Section shell.
Context `{Crypto} `{!CryptoLaws} `{Wire} `{!WireLaws} (clock : nat → Z * Z) (compress_zstd : bytes → option bytes) (show_run_error : RunError → string).
Context (io : WriteLog → Writer → bool) (debug b64_error : string → string) (show_io : Reassembly.IoError → string).
Context (order : gmap StreamKind StreamReorder → list StreamKind) (default_socket : string).
Context (io_ok : ∀ log w, io log w = true) (order_ok : ∀ m, order m ≡ₚ (map_to_list m).*1).
Context {D Session : Type} (base : Ops (D := D) (Session := Session)) (show_secs : Z → string) (pid started_at : Z) (socket_path version : string) (subscribers : bool).
Context (env : RunEnv) (spawn : Command → result Child (IoKind * string)) (a : Allowance) (fresh_invocation fresh_request : string) (duration : Z) (schedule : list bool).

(** A daemon that reads the parameters of [exec.start] and runs the command here. *)
Definition run_here (x : ExecStart) (d : D) : result Value string * D :=
  (match start_exec_loopback clock compress_zstd show_run_error env spawn fresh_invocation fresh_request x a duration schedule with
   | Some r => encode_result MExecStart r
   | None => Err "the command does not end"
   end, d).
Definition exec_ops : Ops (D := D) (Session := Session) := {|
  op_session := base.(op_session); op_runtime := base.(op_runtime); op_reload := base.(op_reload); op_sync := base.(op_sync);
  op_policy := base.(op_policy); op_now := base.(op_now); op_status_value := base.(op_status_value); op_method := base.(op_method);
  op_plain := base.(op_plain); op_call_params := base.(op_call_params); op_call_matrix := base.(op_call_matrix); op_call_loopback := base.(op_call_loopback);
  op_exec_params := decode_params MExecStart; op_exec_matrix := base.(op_exec_matrix); op_exec_loopback := run_here;
  op_exec_value := base.(op_exec_value); op_stdin_params := base.(op_stdin_params); op_stdin := base.(op_stdin);
  op_cancel_params := base.(op_cancel_params); op_cancel := base.(op_cancel) |}.
Definition serve : Request → D → Response * D := dispatch show_secs exec_ops pid started_at socket_path version subscribers.
#[local] Instance shell_system : System (Desktop D) := desktop_system serve.
Definition shell_exec (pty : GlobalArgs → ExecArgs → string → CM (Desktop D) Z) : GlobalArgs → ExecArgs → CM (Desktop D) Z :=
  cmd_exec io default_socket debug b64_error show_io order pty.

Lemma desktop_ipc {P R} global (m : Method P R) p v id vr r s d' :
  encode m p = Ok v → s.(co_world).(dk_inbox) = [] →
  serve (request_new (Num (NumInt 1)) (method_name m) v) s.(co_world).(dk_daemon) = (response_result id vr, d') → decode m vr = Ok r →
  daemon_ipc_call io default_socket global m p s =
    (Ok r, {| co_log := s.(co_log); co_sent := s.(co_sent) ++ [(method_name m, v)]; co_world := dk_with d' [] s.(co_world) |}).
Proof.
  intros Hv Hin Hs Hd. destruct s as [log sent [d inbox cur stdin]]. cbn in *. subst inbox.
  unfold daemon_ipc_call, Prelude.bind. rewrite Hv. cbn [or_complain ret]. unfold connect, Prelude.bind, act. cbn [sys_connect shell_system desktop_system co_world].
  cbn [or_complain ret with_world]. unfold client_call, send, Prelude.bind. cbn [sys_send shell_system desktop_system co_world with_world dk_daemon]. rewrite Hs.
  unfold act. cbn. by rewrite Hd.
Qed.

(** C13: what the shell sees of a command run through a daemon that serves this host.  [exec],
    without [--pty] and without both a room and an agent, given a command, a directory that
    can be resolved and well-formed environment pairs, whose request and result can be
    encoded, where the policy's sandbox floor is met, the command runs to its end and its
    output fits a timeline and the byte cap, and where nothing that [exec] writes fails: it
    sends one request, with the command line, the directory, the environment and the piped
    input, writes exactly what the command wrote to each stream, in strict mode too, and exits
    with the command's own code, or with 128 plus the signal that ended it if that signal is
    one of those that have a name on the wire. *)
Theorem exec_shell_view pty global args d current cwd stdin vars output code v :
  args.(xa_command) ≠ [] → args.(xa_pty) = false → is_some args.(xa_room) && is_some args.(xa_agent) = false →
  (match args.(xa_cwd) with Some p => Ok p | None => current end) = Ok cwd → parse_env_pairs debug args.(xa_env) = Ok vars →
  let params := exec_params args cwd stdin vars in
  encode MExecStart params = Ok v → base.(op_runtime) d = Ok tt →
  is_err (check_sandbox_floor a) = false → run env spawn (loopback_run_spec env params.(xs_params) a) = Some (Ok output) → ended_with output code →
  let total := Z.of_nat (length output.(ro_stdout) + length output.(ro_stderr)) in
  should_switch default_artifact_config total = false → total ≤ loopback_cap a →
  fair schedule (of_bytes output.(ro_stdout)) (of_bytes output.(ro_stderr)) →
  (∀ r, start_exec_loopback clock compress_zstd show_run_error env spawn fresh_invocation fresh_request params a duration schedule = Some r →
        is_err (encode_result MExecStart r) = false) →
  ∃ s', run_to_exit (shell_exec pty global args)
          {| co_log := []; co_sent := []; co_world := {| dk_daemon := d; dk_inbox := []; dk_current_dir := current; dk_stdin := Ok <$> stdin |} |}
        = (code, s') ∧
    s'.(co_sent) = [("exec.start", v)] ∧
    Reassembly.written Out s'.(co_log) = to_text (of_bytes output.(ro_stdout)) ∧
    Reassembly.written ErrOut s'.(co_log) = to_text (of_bytes output.(ro_stderr)).
Proof.
  intros Hc Hp Ht Hcwd Hvars params Hv Hrt Hfloor Hrun Hcode total Hsw Hcap Hfair Henc.
  set (config := if args.(xa_strict_stream) then {| rc_reorder_window := DEFAULT_REORDER_WINDOW; rc_strict := true |} else default_render_config).
  destruct (loopback_output_exact clock compress_zstd show_run_error io debug b64_error order io_ok order_ok env spawn fresh_invocation params.(xs_params) a
    duration schedule output config Hfloor Hrun Hsw Hcap Hfair) as (chunks & finished & o & log & Hr & Hw & Wo & We & Hm & Hi & Htr & _ & Hx).
  assert (finished = finished_frame fresh_invocation output duration finished.(ef_truncated) finished.(ef_artifact_mxc)) as Hf.
  { pose proof Hr as Hr'. unfold run_loopback_with in Hr'. rewrite Hfloor, Hrun in Hr'. destruct (pack_output _ _ _ _ _ _ _) as [[[fr tr] am]|]; [|done].
    injection Hr' as Hr'. apply app_inj_tail in Hr' as [_ [= <-]]. done. }
  apply stream_truncated in Hw as Hot. rewrite Htr in Hot. rewrite Hf, resolve_finished, (shell_code_ended _ _ Hcode) in Hx.
  set (r := {| xr_invocation_id := fresh_invocation; xr_request_id := fresh_request; xr_outcome := ExecOk (map FChunk chunks ++ [FFinished finished]) |}).
  assert (start_exec_loopback clock compress_zstd show_run_error env spawn fresh_invocation fresh_request params a duration schedule = Some r) as Es.
  { unfold start_exec_loopback. change (unwrap_or params.(xs_invocation_id) fresh_invocation) with fresh_invocation. by rewrite Hr. }
  specialize (Henc r Es). destruct (encode_result MExecStart r) as [vr|] eqn:Er; [|done].
  assert (serve (request_new (Num (NumInt 1)) "exec.start" v) d = (response_result (Num (NumInt 1)) vr, d)) as Hserve.
  { unfold serve, dispatch. cbn [request_new req_method req_params req_id]. change ("exec.start" =s ?x) with (bool_decide ("exec.start" = x)). cbn.
    unfold with_params, parse_params. rewrite (wire_params MExecStart _ _ Hv). unfold dispatch_exec_start. cbn [exec_ops op_runtime].
    rewrite Hrt. cbn [params exec_params xs_room xs_agent]. rewrite Ht. cbn [op_exec_loopback exec_ops]. unfold run_here. fold params. by rewrite Es, Er. }
  unfold run_to_exit. set (s0 := {| co_log := []; co_sent := []; co_world := _ |}).
  assert (shell_exec pty global args s0 =
    (let! result := daemon_ipc_call io default_socket global MExecStart params in
     match result.(xr_outcome) with
     | ExecError kind message => complain io (exec_exit kind) ("mx-agent: exec failed: " +:+ message)
     | ExecOk frames =>
       let! r := render io debug b64_error order frames args.(xa_strict_stream) in
       match r with Ok outcome => report_outcome io outcome | Err e => complain io FAILURE ("mx-agent: failed writing output: " +:+ show_io e) end
     end) s0) as ->.
  { unfold shell_exec, cmd_exec. destruct args.(xa_command) as [|c0 cs] eqn:Ec; [done|]. cbn [nonempty negb or_usage or_complain].
    rewrite Hp, Hvars. unfold Prelude.bind at 1. cbn [ret]. destruct args.(xa_cwd) as [p|] eqn:Ew.
    - injection Hcwd as ->. unfold Prelude.bind at 1. cbn [ret].
      subst s0 params. unfold exec_params. rewrite Ec. by destruct stdin.
    - subst s0 params. unfold exec_params. rewrite Hcwd, Ec. by destruct stdin. }
  unfold Prelude.bind at 1. rewrite (desktop_ipc global MExecStart params v (Num (NumInt 1)) vr r s0 d Hv eq_refl Hserve (wire_result MExecStart _ _ Er)).
  cbn [xr_outcome r]. unfold Prelude.bind, render. fold config. cbn [co_log s0]. rewrite Hw. unfold report_outcome, degraded. rewrite Hi, Hot, Hx, Hm.
  eexists. split; [reflexivity|]. done.
Qed.
End shell.

(** [mx-agent exec -- ls] where the command prints two bytes and fails with code 3. *)
Module ShellExample.
#[local] Existing Instance Signing.Toy.toy_crypto.
#[local] Existing Instance Signing.Toy.toy_laws.
#[local] Instance byte_dec : EqDecision Byte.byte := Byte.byte_eq_dec.
#[local] Instance chunk_dec : EqDecision StreamChunk.
Proof. solve_decision. Defined.
#[local] Instance artifact_dec : EqDecision StreamArtifact.
Proof. solve_decision. Defined.
#[local] Instance finished_dec : EqDecision ExecFinished.
Proof. solve_decision. Defined.
#[local] Instance frame_dec : EqDecision StreamFrame.
Proof. solve_decision. Defined.
#[local] Instance kind_dec : EqDecision ExecErrorKind.
Proof. solve_decision. Defined.
#[local] Instance outcome_dec : EqDecision ExecOutcome.
Proof. solve_decision. Defined.
#[local] Instance result_dec : EqDecision ExecStartResult.
Proof. solve_decision. Defined.
#[local] Instance params_dec : EqDecision ExecStartParams.
Proof. solve_decision. Defined.
#[local] Instance start_dec : EqDecision ExecStart.
Proof. solve_decision. Defined.
Definition args : ExecArgs :=
  {| xa_room := None; xa_agent := None; xa_cwd := None; xa_task := None; xa_env := ["LANG=C"; "LANG=de"]; xa_timeout := None; xa_strict_stream := true;
     xa_pty := false; xa_command := ["ls"] |}.
Definition vars : gmap string string := {["LANG" := "de"]}.
Definition asked : ExecStart := exec_params args "/work" (Some ["x"%char]) vars.
Definition start : option ExecStartResult :=
  start_exec_loopback StreamExample.clock (λ _, None) (λ _, "failed") Runner.Sample.env ExecIpc.Local.spawn "inv" "req" asked Allowance_default 5 StreamExample.schedule.
Definition reply : ExecStartResult := unwrap_or start NO_REGISTRY.
(** A wire for this one exchange: it refuses every other value. *)
#[local] Instance wire : Wire := {|
  encode P R m := match m with MExecStart => λ p, if decide (p = asked) then Ok (Str "params") else Err "no" | _ => λ _, Err "no" end;
  decode P R m := match m with MExecStart => λ v, if decide (v = Str "reply") then Ok reply else Err "no" | _ => λ _, Err "no" end;
  decode_params P R m := match m with MExecStart => λ v, if decide (v = Str "params") then Ok asked else Err "no" | _ => λ _, Err "no" end;
  encode_result P R m := match m with MExecStart => λ r, if decide (r = reply) then Ok (Str "reply") else Err "no" | _ => λ _, Err "no" end;
|}.
#[local] Instance wire_laws : WireLaws.
Proof.
  split; intros P R m x v; destruct m; try done; cbn; (destruct (decide (x = _)) as [->|]; [|done]); intros [= <-]; by rewrite decide_True.
Qed.
Definition never : Ops (D := unit) (Session := unit) := {|
  op_session _ := Ok None; op_runtime _ := Ok tt; op_reload _ := ((false, false), tt); op_sync _ := None; op_policy _ := None; op_now _ := 0;
  op_status_value _ := Err "no"; op_method _ _ := Err "no"; op_plain _ _ d := {| tm_ends := None; tm_result := Err "no"; tm_after := d; tm_dropped _ := d |};
  op_call_params _ := Err "no"; op_call_matrix _ d := (Err "no", d); op_call_loopback _ d := (Err "no", d); op_exec_params _ := Err "no";
  op_exec_matrix _ d := (Err "no", d); op_exec_loopback _ d := (Err "no", d); op_exec_value _ := Err "no"; op_stdin_params _ := Err "no";
  op_stdin _ d := (Err "no", d); op_cancel_params _ := Err "no"; op_cancel _ d := (Err "no", d) |}.
Definition pty (_ : GlobalArgs) (_ : ExecArgs) (_ : string) : CM (Desktop unit) Z := ret 0.
Definition global : GlobalArgs := {| g_json := false; g_config := None; g_socket := None; g_verbose := 0 |}.
Lemma sample_run :
  run Runner.Sample.env ExecIpc.Local.spawn (loopback_run_spec Runner.Sample.env asked.(xs_params) Allowance_default) = Some (Ok ExecIpc.Local.printed).
Proof. vm_compute. reflexivity. Qed.
Lemma exec_shell_view_witness :
  ∃ s', run_to_exit (shell_exec StreamExample.clock (λ _, None) (λ _, "failed") RenderExample.io RenderExample.plain RenderExample.plain (λ _, "broken pipe")
          RenderExample.order "daemon.sock" never (λ _, "") 1 0 "daemon.sock" "1" true Runner.Sample.env ExecIpc.Local.spawn Allowance_default "inv" "req" 5
          StreamExample.schedule pty global args)
        {| co_log := []; co_sent := []; co_world := {| dk_daemon := tt; dk_inbox := []; dk_current_dir := Ok "/work"; dk_stdin := Ok <$> Some ["x"%char] |} |} = (3, s') ∧
    s'.(co_sent) = [("exec.start", Str "params")] ∧ Reassembly.written Out s'.(co_log) = to_text ["a"; chr 255]%char.
Proof.
  destruct (exec_shell_view StreamExample.clock (λ _, None) (λ _, "failed") RenderExample.io RenderExample.plain RenderExample.plain (λ _, "broken pipe")
    RenderExample.order "daemon.sock" (λ _ _, eq_refl) (λ _, Permutation_refl _) never (λ _, "") 1 0 "daemon.sock" "1" true Runner.Sample.env ExecIpc.Local.spawn
    Allowance_default "inv" "req" 5 StreamExample.schedule pty global args tt (Ok "/work") "/work" (Some ["x"%char]) vars ExecIpc.Local.printed 3 (Str "params"))
    as (s' & Hs & Hsent & Ho & _).
  - discriminate.
  - reflexivity.
  - reflexivity.
  - reflexivity.
  - vm_compute. reflexivity.
  - cbn. by rewrite decide_True.
  - reflexivity.
  - vm_compute. reflexivity.
  - exact sample_run.
  - left. split; [reflexivity|lia].
  - vm_compute. reflexivity.
  - vm_compute. discriminate.
  - split; vm_compute; lia.
  - intros r Hr. cbn. rewrite decide_True; [done|]. unfold reply, start. change asked with (exec_params args "/work" (Some ["x"%char]) vars). by rewrite Hr.
  - exists s'. split; [exact Hs|]. split; [exact Hsent|exact Ho].
Defined.
End ShellExample.
