(* ===== verification/Commands.v ===== *)
(** * The command tree

    Models the command groups of [crates/mx-agent-cli/src/cli.rs] and [run], which dispatches
    them: the arguments, the request each command makes, what it prints and its exit code.
    What reads and writes the data directory, the daemon's process and the interactive
    sessions are modelled elsewhere and are arguments here. *)
From Stdlib Require Import ZArith Lia Ascii.
From stdpp Require Import gmap strings list pretty.
From S2P Require Import Prelude RustStr Sandboxing CanonicalJson Schema Signing Trust Approval Presence TaskGraph Diagnostics Invocation TaskLifecycle ResultPlane ToolDispatch Streams Reassembly Sharing Workspace SyncLoop PolicyLoad Watch DataDir ExecIpc IpcServer Devices Lifecycle Console CommandLine.
Local Open Scope Z_scope.

(** ** Arguments *)

Inductive DaemonCommand := DaemonStart (foreground : bool) | DaemonStatus | DaemonStop | DaemonReload.
Inductive CrossSigningCommand := Bootstrap | CrossSigningStatus.
Inductive AuthCommand := Login (homeserver user : string) | AuthStatusCmd | Logout | CrossSigning (cmd : CrossSigningCommand).
Record DeviceVerifyArgs := { dva_user : string; dva_device : string; dva_manual : bool; dva_fingerprint : option string }.
Inductive DeviceCommand := DeviceList (room user : option string) | DeviceShow (user device : string) | DeviceVerify (args : DeviceVerifyArgs).
Inductive RecoveryCommand := RecoveryEnable | RecoveryStatus | RecoveryRecover (recovery_key : option string).
Record WorkspaceCreateArgs := { wca_alias : option string; wca_name : option string; wca_topic : option string; wca_visibility : WorkspaceVisibility; wca_e2ee : bool }.
Record WorkspaceStatusArgs := { wsa_room : string; wsa_watch : bool }.
Inductive WorkspaceCommand :=
| WorkspaceCreate (args : WorkspaceCreateArgs) | WorkspaceJoin (room : string) | WorkspaceAttach (room : string) (path : option string) (project_id : string)
| WorkspaceGrantCmd (room user : string) (level : option Z) | WorkspaceStatusCmd (args : WorkspaceStatusArgs).
Record AgentRegisterArgs := {
  ara_room : string; ara_agent_id : option string; ara_kind : string; ara_capabilities : list string; ara_tools : list string;
  ara_cwd : option string; ara_project_id : string; ara_max_invocations : Z;
}.
Inductive AgentCommand :=
| AgentRegister (args : AgentRegisterArgs) | AgentList (room : string) (capabilities : list string) | AgentShow (room agent_id : string) | AgentToolsCmd (room agent_id : string).
Inductive DiffFormat := Unified | Stat.
Inductive ShareCommand :=
| ShareFile (room mime_type name : string) | ShareDiff (room : string) (base : option string) (format : DiffFormat)
| ShareEnv (room : string) (include : list string) | ShareList (room : string) (limit : Z)
| ShareGet (room context_id : string) (output : option string) (limit : Z).
Inductive TaskCommand :=
| TaskCreate (args : TaskCreateArgs) | TaskUpdate (args : TaskUpdateArgs) | TaskListCmd (room : string) (state assigned : option string)
| TaskGraphCmd (room : string) | TaskWatch (room : string) (state assigned : option string) | TaskCancel (room task_id reason : string).
Inductive StreamChannel := ChStdout | ChStderr | ChPty.
Definition to_stream_kind (c : StreamChannel) : StreamKind := match c with ChStdout => Stdout | ChStderr => Stderr | ChPty => Pty end.
Inductive InvocationCommand :=
| InvocationListCmd (room : string) (state task : option string) | InvocationShow (room invocation_id : string)
| InvocationCancel (room invocation_id reason : string)
| InvocationArtifact (room invocation_id : string) (stream : StreamChannel) (output : option string) (limit : Z).
Inductive ApprovalCommand :=
| ApprovalList (room : option string) | ApprovalShow (request_id : string) | Approve (request_id : string) (by_ : option string) | Deny (request_id : string) (by_ : option string).
Inductive TrustCommand :=
| TrustList (room agent : option string) | Fingerprint | TrustApprove (agent key : string) (room fingerprint : option string)
| TrustRevoke (agent key : string) | TrustPublish (room agent key : string) | TrustStateCmd (room : string) (agent : option string).
(** [Generate], which prints completions and man pages, apart. *)
Inductive Command :=
| CDaemon (cmd : DaemonCommand) | CAuth (cmd : AuthCommand) | CWorkspace (cmd : WorkspaceCommand) | CAgent (cmd : AgentCommand)
| CCall (args : CallArgs) | CExec (args : ExecArgs) | CShare (cmd : ShareCommand) | CTask (cmd : TaskCommand)
| CInvocation (cmd : InvocationCommand) | CApproval (cmd : ApprovalCommand) | CTrust (cmd : TrustCommand) | CDevice (cmd : DeviceCommand)
| CRecovery (cmd : RecoveryCommand) | CSandboxExec (args : list string).
Definition verbosity_directive (verbose : Z) : string :=
  if verbose =? 0 then "warn" else if verbose =? 1 then "info" else if verbose =? 2 then "debug" else "trace".
(** [command_path]: the words that name a command. *)
Definition command_path (c : Command) : string :=
  match c with
  | CDaemon (DaemonStart _) => "daemon start" | CDaemon DaemonStatus => "daemon status" | CDaemon DaemonStop => "daemon stop" | CDaemon DaemonReload => "daemon reload"
  | CAuth (Login _ _) => "auth login" | CAuth AuthStatusCmd => "auth status" | CAuth Logout => "auth logout"
  | CAuth (CrossSigning Bootstrap) => "auth cross-signing bootstrap" | CAuth (CrossSigning CrossSigningStatus) => "auth cross-signing status"
  | CWorkspace (WorkspaceCreate _) => "workspace create" | CWorkspace (WorkspaceJoin _) => "workspace join" | CWorkspace (WorkspaceAttach _ _ _) => "workspace attach"
  | CWorkspace (WorkspaceGrantCmd _ _ _) => "workspace grant" | CWorkspace (WorkspaceStatusCmd _) => "workspace status"
  | CAgent (AgentRegister _) => "agent register" | CAgent (AgentList _ _) => "agent list" | CAgent (AgentShow _ _) => "agent show" | CAgent (AgentToolsCmd _ _) => "agent tools"
  | CCall _ => "call" | CExec _ => "exec"
  | CShare (ShareFile _ _ _) => "share file" | CShare (ShareDiff _ _ _) => "share diff" | CShare (ShareEnv _ _) => "share env" | CShare (ShareList _ _) => "share list"
  | CShare (ShareGet _ _ _ _) => "share get"
  | CTask (TaskCreate _) => "task create" | CTask (TaskUpdate _) => "task update" | CTask (TaskListCmd _ _ _) => "task list" | CTask (TaskGraphCmd _) => "task graph"
  | CTask (TaskWatch _ _ _) => "task watch" | CTask (TaskCancel _ _ _) => "task cancel"
  | CInvocation (InvocationListCmd _ _ _) => "invocation list" | CInvocation (InvocationShow _ _) => "invocation show"
  | CInvocation (InvocationCancel _ _ _) => "invocation cancel" | CInvocation (InvocationArtifact _ _ _ _ _) => "invocation artifact"
  | CApproval (ApprovalList _) => "approval list" | CApproval (ApprovalShow _) => "approval show" | CApproval (Approve _ _) => "approval approve" | CApproval (Deny _ _) => "approval deny"
  | CTrust (TrustList _ _) => "trust list" | CTrust Fingerprint => "trust fingerprint" | CTrust (TrustApprove _ _ _ _) => "trust approve"
  | CTrust (TrustRevoke _ _) => "trust revoke" | CTrust (TrustPublish _ _ _) => "trust publish" | CTrust (TrustStateCmd _ _) => "trust state"
  | CDevice (DeviceList _ _) => "device list" | CDevice (DeviceShow _ _) => "device show" | CDevice (DeviceVerify _) => "device verify"
  | CRecovery RecoveryEnable => "recovery enable" | CRecovery RecoveryStatus => "recovery status" | CRecovery (RecoveryRecover _) => "recovery recover"
  | CSandboxExec _ => LAUNCHER_SUBCOMMAND
  end.
Definition DEFAULT_ENV_INCLUDE : list string := ["node"; "npm"; "os"; "git"].
Definition ENV_PASSWORD : string := "MX_AGENT_PASSWORD".
Definition ENV_RECOVERY_KEY : string := "MX_AGENT_RECOVERY_KEY".

(** What the commands that work on the data directory and the daemon's process call. *)
Class Services `{Crypto} (W : Type) := {
  sv_validate_homeserver : string → result unit string;
  sv_runtime : W → result unit string;
  sv_login_password : string → string → string → W → result StoredSession string * W;
  sv_persist_login : StoredSession → W → result unit string * W;
  sv_auth_status : W → result AuthStatus string;
  sv_logout : W → result bool string * W;
  sv_lock : W → result unit string;
  sv_trust_load : W → result TrustStore string;
  sv_trust_save : TrustStore → W → result unit string * W;
  sv_signing_key : W → result SigningKey string * W;
  sv_now : W → Z;
  sv_approvals : W → result ApprovalQueue string;
  sv_run_foreground : W → result unit string * W;
  sv_status : W → result (option RunningStatus) string;
  sv_start_background : W → result RunningStatus string * W;
  sv_stop : W → result StopOutcome string * W;
}.

Section groups.
Context {W : Type} `{System W} `{Wire} (io : WriteLog → Writer → bool) (default_socket : string).
Context (debug : string → string) (to_string : Printable → option string) (show_value : Value → string).
Abbreviation out := (println io).
Abbreviation lines := (println_all io).
Abbreviation ipc := (daemon_ipc_call io default_socket).
Abbreviation json := (print_json io to_string).

(** ** Devices and recovery *)

Definition handle_cross_signing (global : GlobalArgs) (cmd : CrossSigningCommand) : CM W Z :=
  let! status := match cmd with Bootstrap => ipc global MCrossSigningBootstrap tt | CrossSigningStatus => ipc global MCrossSigningStatus tt end in
  let label := match cmd with Bootstrap => "bootstrap" | CrossSigningStatus => "status" end in
  let! _ := if global.(g_json) then json (PCrossSigning status) "{}"
            else lines ["mx-agent: cross-signing " +:+ label; "  complete:     " +:+ show_bool status.(xsi_complete);
                        "  master:       " +:+ show_bool status.(xsi_has_master); "  self-signing: " +:+ show_bool status.(xsi_has_self_signing);
                        "  user-signing: " +:+ show_bool status.(xsi_has_user_signing)] in
  ret SUCCESS.
Definition device_lines (device : DeviceInfo) : list string :=
  let status := if device.(di_blacklisted) then "blacklisted" else if device.(di_cross_signed) then "verified (cross-signed)"
                else if device.(di_verified) then "verified" else "unverified" in
  [device.(di_user_id) +:+ " " +:+ device.(di_device_id) +:+ "  [" +:+ status +:+ "]"]
  ++ opt_line "  name:        " device.(di_display_name) ++ opt_line "  fingerprint: " device.(di_ed25519_fingerprint).
Definition print_device (device : DeviceInfo) : CM W unit := lines (device_lines device).
Definition device_list (global : GlobalArgs) (room user : option string) : CM W Z :=
  let! devices := ipc global MDeviceList {| dl_room := room; dl_user := user |} in
  let! _ := if global.(g_json) then json (PDevices devices) "[]"
            else match devices with [] => out "mx-agent: no devices found" | _ => lines (concat (map device_lines devices)) end in
  ret SUCCESS.
(** What is asked for is not there: [null], or a message, and code 3. *)
Definition not_found (global : GlobalArgs) (message : string) : CM W Z :=
  let! _ := if global.(g_json) then out "null" else eprintln io message in ret 3.
Definition device_show (global : GlobalArgs) (user device : string) : CM W Z :=
  let! found := ipc global MDeviceShow {| dsp_user := user; dsp_device := device |} in
  match found with
  | Some info => let! _ := if global.(g_json) then json (PDevice info) "{}" else print_device info in ret SUCCESS
  | None => not_found global ("mx-agent: device " +:+ device +:+ " for " +:+ user +:+ " not found")
  end.
(** The emoji session, which the device verification's own model follows. *)
Context (device_verify_interactive : GlobalArgs → DeviceVerifyArgs → CM W Z).
Definition device_verify (global : GlobalArgs) (args : DeviceVerifyArgs) : CM W Z :=
  if args.(dva_manual) then
    let! device := ipc global MDeviceVerifyManual {| dvm_user := args.(dva_user); dvm_device := args.(dva_device); dvm_fingerprint := args.(dva_fingerprint) |} in
    let! _ := if global.(g_json) then json (PDevice device) "{}" else let! _ := out "mx-agent: device verified" in print_device device in
    ret SUCCESS
  else device_verify_interactive global args.
Definition handle_device (global : GlobalArgs) (cmd : DeviceCommand) : CM W Z :=
  match cmd with
  | DeviceList room user => device_list global room user
  | DeviceShow user device => device_show global user device
  | DeviceVerify args => device_verify global args
  end.
Definition print_recovery_status (global : GlobalArgs) (status : RecoveryStatusInfo) : CM W unit :=
  if global.(g_json) then json (PRecoveryStatus status) "{}"
  else lines ["mx-agent: recovery status"; "  state:                  " +:+ status.(rsi_state);
              "  backup enabled:         " +:+ show_bool status.(rsi_backup_enabled);
              "  backup exists on server: " +:+ show_bool status.(rsi_backup_exists_on_server)].
Definition recovery_enable (global : GlobalArgs) : CM W Z :=
  let! result := ipc global MRecoveryEnable tt in
  let! _ := if global.(g_json) then json (PRecoveryEnable result) "{}"
            else lines ["mx-agent: server-side key backup enabled."; ""; "  RECOVERY KEY — store this now; it is shown only once:";
                        "    " +:+ result.(rer_recovery_key); ""; "  If you lose it, history backed up under it is unrecoverable.";
                        "  state: " +:+ result.(rer_status).(rsi_state)] in
  ret SUCCESS.
Definition recovery_status (global : GlobalArgs) : CM W Z :=
  let! status := ipc global MRecoveryStatus tt in
  let! _ := print_recovery_status global status in
  ret SUCCESS.
Definition RECOVERY_KEY_ARGV_WARNING : string :=
  "mx-agent: warning: --recovery-key is visible in shell history and `ps`; prefer MX_AGENT_RECOVERY_KEY or the interactive prompt".
(** A line read without echo: whether echo was turned off, and the line. *)
Context (sys_secret_line : W → (bool * result string string) * W).
(** [trim_end_matches(['\n', '\r'])] *)
Fixpoint trim_newlines (s : string) : string :=
  match s with
  | "" => ""
  | String c r => match trim_newlines r with
                  | "" => if bool_decide (c = chr 10) || bool_decide (c = chr 13) then "" else String c ""
                  | r => String c r
                  end
  end.
(** [flush] of standard error does nothing; the newline after the answer may fail unseen. *)
Definition prompt_secret_line (prompt : string) : CM W (result string string) :=
  let! _ := emit io ErrOut prompt in
  let! (quiet, line) := act sys_secret_line in
  let! _ := if quiet then (λ s, (Ok tt, if io s.(co_log) ErrOut then with_log (s.(co_log) ++ [(ErrOut, NL)]) s else s)) else ret tt in
  ret (match line with Ok line => Ok (trim_newlines line) | Err e => Err e end).
Definition given (o : option string) : option string := match o with Some s => if s =s "" then None else Some s | None => None end.
Definition resolve_recovery_key (recovery_key : option string) : CM W string :=
  match given recovery_key with
  | Some key => let! _ := eprintln io RECOVERY_KEY_ARGV_WARNING in ret key
  | None =>
    let! var := look (sys_env ENV_RECOVERY_KEY) in
    match given var with
    | Some key => ret key
    | None =>
      let! line := prompt_secret_line "Recovery key: " in
      let! line := or_complain io FAILURE (λ _, "mx-agent: could not read recovery key") line in
      let key := trim line in
      if key =s "" then complain io FAILURE ("mx-agent: no recovery key provided; set " +:+ ENV_RECOVERY_KEY +:+ " or enter it when prompted")
      else ret key
    end
  end.
Definition recovery_recover (global : GlobalArgs) (recovery_key : option string) : CM W Z :=
  let! recovery_key := resolve_recovery_key recovery_key in
  let! status := ipc global MRecoveryRecover {| rcp_recovery_key := recovery_key |} in
  let! _ := if negb global.(g_json) then out "mx-agent: keys re-imported from server-side backup" else ret tt in
  let! _ := print_recovery_status global status in
  ret SUCCESS.
Definition handle_recovery (global : GlobalArgs) (cmd : RecoveryCommand) : CM W Z :=
  match cmd with RecoveryEnable => recovery_enable global | RecoveryStatus => recovery_status global | RecoveryRecover key => recovery_recover global key end.

(** ** Signing in *)

Context `{Crypto} `{!Services W}.
Definition read_password : CM W (result string string) :=
  let! var := look (sys_env ENV_PASSWORD) in
  match given var with Some password => ret (Ok password) | None => prompt_secret_line "Matrix password: " end.
(** Asks a daemon that runs to start its workers, and does not mind if there is none. *)
Definition best_effort_session_reload (global : GlobalArgs) : CM W unit :=
  let! r := act (sys_connect (daemon_socket_path default_socket global)) in
  match r with Ok _ => let! _ := client_call "session.reload" Null in ret tt | Err _ => ret tt end.
Definition auth_login (global : GlobalArgs) (homeserver user : string) : CM W Z :=
  let! _ := or_complain io FAILURE (λ e, "mx-agent: " +:+ e) (sv_validate_homeserver homeserver) in
  let! password := read_password in
  let! password := or_complain io FAILURE (λ e, "mx-agent: could not read password: " +:+ e) password in
  let! _ := if password =s "" then complain io FAILURE ("mx-agent: no password provided; set " +:+ ENV_PASSWORD +:+ " or enter it when prompted") else ret tt in
  let! r := look sv_runtime in
  let! _ := or_complain io FAILURE (λ e, "mx-agent: could not start async runtime: " +:+ e) r in
  let! session := act (sv_login_password homeserver user password) in
  let! session := or_complain io FAILURE (λ e, "mx-agent: login failed: " +:+ e) session in
  let! saved := act (sv_persist_login session) in
  let! _ := or_complain io FAILURE (λ e, "mx-agent: login succeeded but saving the session failed: " +:+ e) saved in
  let! _ := best_effort_session_reload global in
  let! _ := if global.(g_json) then out (unwrap_or (to_string (PAuthStatus (from_session session))) (show_value (Object [("logged_in", Bool false)])))
            else lines ["mx-agent: logged in as " +:+ session.(ses_user_id); "  device: " +:+ session.(ses_device_id)] in
  ret SUCCESS.
Definition auth_status (global : GlobalArgs) : CM W Z :=
  let! status := look sv_auth_status in
  let! status := or_complain io FAILURE (λ e, "mx-agent: could not read auth status: " +:+ e) status in
  let! _ := if global.(g_json) then out (unwrap_or (to_string (PAuthStatus status)) (show_value (Object [("logged_in", Bool false)])))
            else if status.(au_logged_in)
            then lines (["mx-agent: logged in"] ++ opt_line "  user:       " status.(au_user_id) ++ opt_line "  device:     " status.(au_device_id)
                        ++ opt_line "  homeserver: " status.(au_homeserver))
            else out "mx-agent: not logged in" in
  ret (if status.(au_logged_in) then SUCCESS else 3).
Definition auth_logout (global : GlobalArgs) : CM W Z :=
  let! r := look sv_runtime in
  let! _ := or_complain io FAILURE (λ e, "mx-agent: could not start async runtime: " +:+ e) r in
  let! server_side := act sv_logout in
  let! server_side := or_complain io FAILURE (λ e, "mx-agent: could not clear session: " +:+ e) server_side in
  let! _ := if global.(g_json) then out ("{" +:+ quoted "logged_in" +:+ ":false," +:+ quoted "server_side" +:+ ":" +:+ show_bool server_side +:+ "}")
            else if server_side then out "mx-agent: logged out (access token invalidated server-side)"
            else out "mx-agent: logged out (local only; server-side logout could not be reached)" in
  ret SUCCESS.
Definition handle_auth (global : GlobalArgs) (cmd : AuthCommand) : CM W Z :=
  match cmd with
  | Login homeserver user => auth_login global homeserver user
  | AuthStatusCmd => auth_status global
  | Logout => auth_logout global
  | CrossSigning cmd => handle_cross_signing global cmd
  end.

(** ** Trust *)

Definition trust_entry_lines (e : TrustEntry) : list string :=
  ["  " +:+ status_to_string e.(te_status) +:+ " " +:+ e.(te_key_id); "    agent:       " +:+ e.(te_agent_id); "    fingerprint: " +:+ e.(te_fingerprint)]
  ++ opt_line "    room:        " e.(te_room) ++ opt_line "    trusted_by:  " e.(te_trusted_by).
Definition print_trust_entry (e : TrustEntry) : CM W unit := lines (trust_entry_lines e).
Definition load_trust : CM W TrustStore :=
  let! store := look sv_trust_load in or_complain io FAILURE (λ e, "mx-agent: could not read trust store: " +:+ e) store.
(** [update_trust_store]: load, change and save under the lock. *)
Definition update_trust_store {A} (f : TrustStore → TrustStore * A) : CM W A :=
  let! locked := look sv_lock in
  let! _ := or_complain io FAILURE (λ e, "mx-agent: could not update trust store: " +:+ e) locked in
  let! store := look sv_trust_load in
  let! store := or_complain io FAILURE (λ e, "mx-agent: could not update trust store: " +:+ e) store in
  let '(store, x) := f store in
  let! saved := act (sv_trust_save store) in
  let! _ := or_complain io FAILURE (λ e, "mx-agent: could not update trust store: " +:+ e) saved in
  ret x.
Definition wanted (filter : option string) (s : string) : bool := match filter with Some f => s =s f | None => true end.
Definition trust_list (global : GlobalArgs) (room agent : option string) : CM W Z :=
  let! store := load_trust in
  let entries := List.filter (λ e, match room with Some r => bool_decide (e.(te_room) = Some r) | None => true end)
                   (List.filter (λ e, wanted agent e.(te_agent_id)) store) in
  let! _ := if global.(g_json) then json (PTrustEntries entries) "[]"
            else match entries with
                 | [] => out "mx-agent: no trusted keys"
                 | _ => lines (("mx-agent: " +:+ pretty (N.of_nat (length entries)) +:+ " trust record(s)") :: concat (map trust_entry_lines entries))
                 end in
  ret SUCCESS.
Definition trust_approve (global : GlobalArgs) (agent key : string) (room fingerprint : option string) : CM W Z :=
  let! now := look sv_now in
  let! entry := update_trust_store (λ store, Trust.approve store now agent key fingerprint room None) in
  let! _ := if global.(g_json) then json (PTrustEntry entry) "{}"
            else let! _ := out ("mx-agent: approved key for agent " +:+ entry.(te_agent_id)) in print_trust_entry entry in
  ret SUCCESS.
Definition trust_revoke (global : GlobalArgs) (agent key : string) : CM W Z :=
  let! now := look sv_now in
  let! revoked := update_trust_store (λ store, Trust.revoke store now agent key) in
  match revoked with
  | Some entry =>
    let! _ := if global.(g_json) then json (PTrustEntry entry) "{}"
              else let! _ := out ("mx-agent: revoked key for agent " +:+ entry.(te_agent_id)) in print_trust_entry entry in
    ret SUCCESS
  | None => not_found global ("mx-agent: no trust record for agent " +:+ agent +:+ " key " +:+ key)
  end.
Definition trust_publish (global : GlobalArgs) (room agent key : string) : CM W Z :=
  let! store := load_trust in
  let! entry := match trust_entry store agent key with
                | Some entry => ret entry
                | None => complain io 3 ("mx-agent: no local trust record for agent " +:+ agent +:+ " key " +:+ key
                                         +:+ "; approve it first with `mx-agent trust approve`")
                end in
  let! state := ipc global MTrustPublish {| tpp_room := room; tpp_entry := entry |} in
  let! _ := if global.(g_json) then json (PTrustState state) "{}"
            else lines ["mx-agent: published " +:+ state.(trs_status) +:+ " trust for agent " +:+ state.(trs_agent_id) +:+ " to " +:+ room;
                        "  key:         " +:+ state.(trs_key_id); "  fingerprint: " +:+ state.(trs_fingerprint); "  trusted_by:  " +:+ state.(trs_trusted_by)] in
  ret SUCCESS.
(** [format!("{:?}", source).to_lowercase()] *)
Definition source_label (s : TrustSource) : string := match s with SourceLocal => "local" | SourceRoom => "room" | SourceNone => "none" end.
Definition effective_value (t : EffectiveTrust) : Value :=
  Object [("agent_id", Str t.(et_agent_id)); ("key_id", Str t.(et_key_id)); ("source", Str (source_label t.(et_source))); ("trusted", Bool t.(et_trusted))].
Context (published_value : TrustState → Value).
Definition trust_state (global : GlobalArgs) (room : string) (agent : option string) : CM W Z :=
  let! local := load_trust in
  let! states := ipc global MTrustState {| rp_room := room |} in
  let states := List.filter (λ s, wanted agent s.(trs_agent_id)) states in
  let effective := List.filter (λ t, wanted agent t.(et_agent_id)) (effective_trust_table local states) in
  let! _ :=
    if global.(g_json) then out (show_value (Object [("effective", Array (map effective_value effective)); ("published", Array (map published_value states))]))
    else match states with
    | [] => out ("mx-agent: no trust state published in " +:+ room)
    | _ =>
      lines (["mx-agent: " +:+ pretty (N.of_nat (length states)) +:+ " published trust record(s) in " +:+ room]
             ++ concat (map (λ s, ["  " +:+ s.(trs_status) +:+ " " +:+ s.(trs_key_id); "    agent:       " +:+ s.(trs_agent_id);
                                   "    fingerprint: " +:+ s.(trs_fingerprint); "    trusted_by:  " +:+ s.(trs_trusted_by)]) states)
             ++ ["mx-agent: effective trust (local store wins):"]
             ++ map (λ t, "  " +:+ (if t.(et_trusted) then "trusted" else "untrusted") +:+ " " +:+ t.(et_agent_id) +:+ " " +:+ t.(et_key_id)
                          +:+ " (via " +:+ source_label t.(et_source) +:+ ")") effective)
    end in
  ret SUCCESS.
Definition KEY_ALG : string := "ed25519".
Definition trust_fingerprint (global : GlobalArgs) : CM W Z :=
  let! key := act sv_signing_key in
  let! key := or_complain io FAILURE (λ e, "mx-agent: could not load signing key: " +:+ e) key in
  let fingerprint := fingerprint_of (verifying_key key) in
  let! _ := if global.(g_json) then out (show_value (Object [("alg", Str KEY_ALG); ("fingerprint", Str fingerprint); ("key_id", Str (key_id_of key))]))
            else out fingerprint in
  ret SUCCESS.
Definition handle_trust (global : GlobalArgs) (cmd : TrustCommand) : CM W Z :=
  match cmd with
  | Fingerprint => trust_fingerprint global
  | TrustList room agent => trust_list global room agent
  | TrustApprove agent key room fingerprint => trust_approve global agent key room fingerprint
  | TrustRevoke agent key => trust_revoke global agent key
  | TrustPublish room agent key => trust_publish global room agent key
  | TrustStateCmd room agent => trust_state global room agent
  end.

(** ** Workspaces *)

Definition report_workspace_info (global : GlobalArgs) (info : WorkspaceInfo) (verb : string) : CM W unit :=
  if global.(g_json) then json (PWorkspaceInfo info) "{}"
  else lines (["mx-agent: " +:+ verb +:+ " workspace " +:+ info.(wi_room_id)] ++ opt_line "  alias:     " info.(wi_canonical_alias)
              ++ opt_line "  name:      " info.(wi_name)
              ++ ["  encrypted: " +:+ show_bool info.(wi_encrypted); "  members:   " +:+ pretty info.(wi_joined_members)]).
Definition workspace_create (global : GlobalArgs) (args : WorkspaceCreateArgs) : CM W Z :=
  let options := {| cwo_alias := args.(wca_alias); cwo_name := args.(wca_name); cwo_topic := args.(wca_topic); cwo_visibility := args.(wca_visibility); cwo_e2ee := args.(wca_e2ee) |} in
  let! info := ipc global MWorkspaceCreate options in
  let! _ := report_workspace_info global info "created" in
  ret SUCCESS.
Definition workspace_join (global : GlobalArgs) (room : string) : CM W Z :=
  let! info := ipc global MWorkspaceJoin {| rp_room := room |} in
  let! _ := report_workspace_info global info "joined" in
  ret SUCCESS.
(** A path argument, or the current directory. *)
Definition path_or_cwd (path : option string) : CM W string :=
  match path with
  | Some p => ret p
  | None => let! r := look sys_current_dir in or_complain io FAILURE (λ e, "mx-agent: could not resolve current directory: " +:+ e) r
  end.
Definition repo_lines (repo : option RepoInfo) : list string :=
  match repo with
  | Some repo => opt_line "  remote:    " repo.(ri_remote_url) ++ opt_line "  branch:    " repo.(ri_branch) ++ opt_line "  commit:    " repo.(ri_commit)
  | None => []
  end.
Definition project_lines (state : WorkspaceState) : list string :=
  ["  project:   " +:+ state.(wst_project_id); "  path:      " +:+ state.(wst_path)] ++ repo_lines state.(wst_repo).
Definition workspace_attach (global : GlobalArgs) (room : string) (path : option string) (project_id : string) : CM W Z :=
  let! path := path_or_cwd path in
  let! state := ipc global MWorkspaceAttach {| awo_room := room; awo_path := path; awo_project_id := project_id |} in
  let! _ := if global.(g_json) then json (PWorkspaceState state) "{}" else lines (("mx-agent: attached workspace to " +:+ room) :: project_lines state) in
  ret SUCCESS.
Definition workspace_grant (global : GlobalArgs) (room user : string) (level : option Z) : CM W Z :=
  let! grant := ipc global MWorkspaceGrant {| gwo_room := room; gwo_user := user; gwo_level := level |} in
  let! _ := if global.(g_json) then json (PWorkspaceGrant grant) "{}"
            else out ("mx-agent: granted power level " +:+ pretty grant.(wg_level) +:+ " to " +:+ grant.(wg_user) +:+ " in " +:+ grant.(wg_room_id)) in
  ret SUCCESS.
Definition member_line (m : MemberSummary) : string :=
  "    " +:+ left_pad 20 (unwrap_or m.(ms_display_name) m.(ms_user_id)) +:+ " " +:+ left_pad 8 m.(ms_membership) +:+ " " +:+ m.(ms_user_id).
Definition workspace_status_lines (status : WorkspaceStatus) : list string :=
  ["Workspace: " +:+ status.(wss_room_id)] ++ opt_line "  alias:     " status.(wss_canonical_alias) ++ opt_line "  name:      " status.(wss_name)
  ++ match status.(wss_workspace) with Some ws => project_lines ws | None => [] end
  ++ ["  encrypted: " +:+ show_bool status.(wss_encrypted);
      "  members:   " +:+ pretty status.(wss_joined_members) +:+ " joined, " +:+ pretty status.(wss_invited_members) +:+ " invited"]
  ++ map member_line status.(wss_members).
Definition print_workspace_status (status : WorkspaceStatus) : CM W unit := lines (workspace_status_lines status).
Definition show_status (as_json : bool) (status : WorkspaceStatus) : CM W unit :=
  if as_json then json (PWorkspaceStatus status) "{}" else print_workspace_status status.

(** ** Watching *)

(** [Value::as_u64]. *)
Definition as_u64 (v : Value) : option Z := match v with Num (NumInt n) => if (0 <=? n) && (n <=? u64_max) then Some n else None | _ => None end.
Definition reconnecting_line (payload : Value) : string :=
  "mx-agent: reconnecting (attempt " +:+ pretty (unwrap_or (v ← field "attempt" payload; as_u64 v) 0) +:+ "): "
  +:+ unwrap_or (v ← field "error" payload; as_str v) "unknown error".
(** [from_value] of the snapshots in an update. *)
Context (status_from_value : Value → result WorkspaceStatus string) (tasks_from_value : Value → result (list TaskState) string).
Context (tasks_value : list TaskState → Value) (changes_value : list TaskChange → Value).
(** A payload that is not understood ends the watch. *)
Definition render_workspace_watch_ipc_payload (as_json : bool) (payload : Value) : CM W (result unit string) :=
  match v ← field "event" payload; as_str v with
  | None => ret (Err "watch payload missing event")
  | Some event =>
    if (event =s "initial") || (event =s "changed") then
      let key := if event =s "initial" then "status" else "current" in
      match status_from_value (unwrap_or (field key payload) Null) with
      | Err e => ret (Err ("invalid workspace status payload: " +:+ e))
      | Ok status => let! _ := show_status as_json status in ret (Ok tt)
      end
    else if event =s "reconnecting" then let! _ := eprintln io (reconnecting_line payload) in ret (Ok tt)
    else if event =s "reconnected" then let! _ := eprintln io "mx-agent: reconnected" in ret (Ok tt)
    else ret (Err ("unknown watch event kind " +:+ debug event))
  end.
Definition none_if_empty (s : string) : string := if s =s "" then "(none)" else s.
Definition task_change_lines (change : TaskChange) : list string :=
  let row (mark : string) (t : TaskState) := "  " +:+ mark +:+ " " +:+ left_pad 26 t.(ts_task_id) +:+ " " +:+ left_pad 10 t.(ts_state) +:+ " " +:+ t.(ts_title) in
  match change with
  | Added task => [row "+" task]
  | Removed task => [row "-" task]
  | Updated previous current =>
    [if negb (previous.(ts_state) =s current.(ts_state))
     then "  ~ " +:+ left_pad 26 current.(ts_task_id) +:+ " " +:+ previous.(ts_state) +:+ " -> " +:+ current.(ts_state)
     else row "~" current]
    ++ (if negb (previous.(ts_assigned_to) =s current.(ts_assigned_to))
        then ["      assigned_to: " +:+ none_if_empty previous.(ts_assigned_to) +:+ " -> " +:+ none_if_empty current.(ts_assigned_to)] else [])
  end.
Definition print_task_change (change : TaskChange) : CM W unit := lines (task_change_lines change).
Definition print_tasks (tasks : list TaskState) : CM W unit := lines (concat (map task_lines tasks)).
Definition render_task_update (as_json : bool) (room : string) (update : WatchUpdate (list TaskState)) : CM W unit :=
  match update with
  | Initial tasks =>
    if as_json then out (show_value (Object [("event", Str "initial"); ("tasks", tasks_value tasks)]))
    else let! _ := out ("mx-agent: watching " +:+ pretty (N.of_nat (length tasks)) +:+ " task(s) in " +:+ room +:+ " (Ctrl-C to stop)") in print_tasks tasks
  | Changed previous current =>
    let changes := diff_tasks previous current in
    if as_json then out (show_value (Object [("changes", changes_value changes); ("event", Str "changed")]))
    else lines (concat (map task_change_lines changes))
  | Reconnecting attempt error => eprintln io ("mx-agent: reconnecting (attempt " +:+ pretty attempt +:+ "): " +:+ error)
  | Reconnected => eprintln io "mx-agent: reconnected"
  end.
Definition render_task_watch_ipc_payload (as_json : bool) (room : string) (payload : Value) : CM W (result unit string) :=
  match v ← field "event" payload; as_str v with
  | None => ret (Err "missing watch event kind")
  | Some event =>
    if event =s "initial" then
      match tasks_from_value (unwrap_or (field "tasks" payload) Null) with
      | Err e => ret (Err ("invalid initial task payload: " +:+ e))
      | Ok tasks => let! _ := render_task_update as_json room (Initial tasks) in ret (Ok tt)
      end
    else if event =s "changed" then
      if as_json then
        let! _ := out (show_value (Object [("changes", unwrap_or (field "changes" payload) Null); ("event", Str "changed")])) in ret (Ok tt)
      else
        match tasks_from_value (unwrap_or (field "previous" payload) Null) with
        | Err e => ret (Err ("invalid previous task payload: " +:+ e))
        | Ok previous =>
          match tasks_from_value (unwrap_or (field "current" payload) Null) with
          | Err e => ret (Err ("invalid current task payload: " +:+ e))
          | Ok current => let! _ := render_task_update as_json room (Changed previous current) in ret (Ok tt)
          end
        end
    else if event =s "reconnecting" then let! _ := eprintln io (reconnecting_line payload) in ret (Ok tt)
    else if event =s "reconnected" then let! _ := eprintln io "mx-agent: reconnected" in ret (Ok tt)
    else ret (Err ("unknown watch event kind " +:+ debug event))
  end.
(** The loop over the answers; [None] when the fuel ends. *)
Fixpoint watch_answers (fuel : nat) (method : string) (render : Value → CM W (result unit string)) (s : Console W) : option (Z * Console W) :=
  match fuel with
  | O => None
  | S fuel =>
    match (let! r := act sys_recv in
           match r with
           | Err (RecvEof _) => ret (Some SUCCESS)
           | Err (RecvFailed e) => complain io FAILURE ("mx-agent: daemon IPC request " +:+ method +:+ " failed: " +:+ e)
           | Ok response =>
             match response.(rsp_error) with
             | Some error => complain io FAILURE ("mx-agent: daemon rejected " +:+ method +:+ ": " +:+ error.(rpc_message))
             | None =>
               let! rendered := render (unwrap_or response.(rsp_result) Null) in
               let! _ := or_complain io FAILURE (λ e, "mx-agent: daemon returned invalid " +:+ method +:+ " response: " +:+ e) rendered in
               ret None
             end
           end) s with
    | (Ok None, s) => watch_answers fuel method render s
    | (Ok (Some code), s) | (Err code, s) => Some (code, s)
    end
  end.
(** [task_watch], [workspace_status_watch]: [params] is the request's parameters. *)
Definition watch (fuel : nat) (global : GlobalArgs) (method : string) (params : result Value string) (render : Value → CM W (result unit string)) (s : Console W) :
    option (Z * Console W) :=
  match (let! params := or_complain io FAILURE (λ e, "mx-agent: could not encode " +:+ method +:+ " request: " +:+ e) params in
         let! _ := connect io default_socket global in
         let! sent := send (request_new (Num (NumInt 1)) method params) in
         or_complain io FAILURE (λ e, "mx-agent: daemon IPC request " +:+ method +:+ " failed: " +:+ e) sent) s with
  | (Err code, s) => Some (code, s)
  | (Ok _, s) => watch_answers fuel method render s
  end.

(** ** Agents *)

(** [format_last_seen] at a time in milliseconds. *)
Definition format_last_seen (now last_seen_ts : Z) : string :=
  if last_seen_ts =? 0 then "never"
  else
    let secs := Z.max 0 (now - last_seen_ts) / 1000 in
    if secs <? 60 then pretty secs +:+ "s ago" else if secs <? 3600 then pretty (secs / 60) +:+ "m ago" else pretty (secs / 3600) +:+ "h ago".
Context (now_ms : W → Z).
(** The width of a field has no effect on [Liveness], whose [Display] does not pad. *)
Definition agent_row (now : Z) (listing : AgentListing) : string :=
  let agent := listing.(li_agent) in
  "  " +:+ left_pad 24 agent.(as_agent_id) +:+ " " +:+ left_pad 8 agent.(as_kind) +:+ " " +:+ left_pad 8 agent.(as_status) +:+ " "
  +:+ liveness_as_str listing.(li_liveness) +:+ " " +:+ left_pad 10 (format_last_seen now agent.(as_last_seen_ts)) +:+ " "
  +:+ match agent.(as_capabilities) with [] => "-" | caps => str_join "," caps end.
Definition agent_list (global : GlobalArgs) (room : string) (capabilities : list string) : CM W Z :=
  let! listings := ipc global MAgentList {| lao_room := room; lao_capabilities := capabilities |} in
  let! now := look now_ms in
  let! _ := if global.(g_json) then json (PAgentListings listings) "[]"
            else match listings with
                 | [] => out ("mx-agent: no agents registered in " +:+ room)
                 | _ => lines (("mx-agent: " +:+ pretty (N.of_nat (length listings)) +:+ " agent(s) in " +:+ room) :: map (agent_row now) listings)
                 end in
  ret SUCCESS.
(** The lines that [agent show] and [agent register] share, before and after the user. *)
Definition agent_detail_lines (state : AgentState) : list string :=
  ["  user:         " +:+ state.(as_matrix_user_id); "  device:       " +:+ state.(as_device_id); "  cwd:          " +:+ state.(as_workspace).(aw_cwd)]
  ++ unless_empty "  project:      " state.(as_workspace).(aw_project_id) ++ unless_empty "  git commit:   " state.(as_workspace).(aw_git_commit)
  ++ unless_nil "  capabilities: " ", " state.(as_capabilities) ++ unless_nil "  tools:        " ", " state.(as_tools)
  ++ ["  load:         " +:+ pretty state.(as_load).(al_running_invocations) +:+ "/" +:+ pretty state.(as_load).(al_max_invocations) +:+ " invocations";
      "  state_rev:    " +:+ pretty state.(as_state_rev)].
Definition agent_missing (agent_id room : string) : string := "mx-agent: agent " +:+ agent_id +:+ " not found in " +:+ room.
Definition agent_show (global : GlobalArgs) (room agent_id : string) : CM W Z :=
  let! found := ipc global MAgentShow {| rap_room := room; rap_agent_id := agent_id |} in
  match found with
  | Some listing =>
    let state := listing.(li_agent) in
    let! now := look now_ms in
    let! _ := if global.(g_json) then json (PAgentListing listing) "{}"
              else lines (["mx-agent: agent " +:+ state.(as_agent_id); "  kind:         " +:+ state.(as_kind); "  status:       " +:+ state.(as_status);
                           "  liveness:     " +:+ liveness_as_str listing.(li_liveness);
                           "  last_seen:    " +:+ format_last_seen now state.(as_last_seen_ts) +:+ " (" +:+ pretty state.(as_last_seen_ts) +:+ " ms)"]
                          ++ agent_detail_lines state) in
    ret SUCCESS
  | None => not_found global (agent_missing agent_id room)
  end.
(** A reference with its schema, if there is one. *)
Definition tool_lines (schemas : list ToolSchema) (reference : string) : list string :=
  let name := default reference (head (split_on (chr 64) reference)) in
  match List.find (λ s, s.(tc_name) =s name) schemas with
  | Some schema => ["  " +:+ qualified_ref schema +:+ " (" +:+ schema.(tc_description) +:+ ")"; "    input:  " +:+ show_value schema.(tc_input_schema);
                    "    output: " +:+ show_value schema.(tc_output_schema)]
  | None => ["  " +:+ reference]
  end.
Definition agent_tools (global : GlobalArgs) (room agent_id : string) : CM W Z :=
  let! found := ipc global MAgentTools {| rap_room := room; rap_agent_id := agent_id |} in
  match found with
  | Some tools =>
    let! _ := if global.(g_json) then json (PAgentTools tools) "{}"
              else lines (("mx-agent: tools for agent " +:+ tools.(at_agent_id))
                          :: match tools.(at_tools) with [] => ["  (no tools advertised)"] | refs => concat (map (tool_lines tools.(at_schemas)) refs) end) in
    ret SUCCESS
  | None => not_found global (agent_missing agent_id room)
  end.
Definition agent_register (global : GlobalArgs) (args : AgentRegisterArgs) : CM W Z :=
  let! cwd := path_or_cwd args.(ara_cwd) in
  let options := {| rgo_room := args.(ara_room); rgo_agent_id := args.(ara_agent_id); rgo_kind := args.(ara_kind); rgo_capabilities := args.(ara_capabilities);
    rgo_tools := args.(ara_tools); rgo_cwd := cwd; rgo_project_id := args.(ara_project_id); rgo_max_invocations := args.(ara_max_invocations) |} in
  let! state := ipc global MAgentRegister options in
  let! _ := if global.(g_json) then json (PAgentState state) "{}"
            else lines (["mx-agent: registered agent " +:+ state.(as_agent_id); "  kind:         " +:+ state.(as_kind)] ++ agent_detail_lines state) in
  ret SUCCESS.
Definition handle_agent (global : GlobalArgs) (cmd : AgentCommand) : CM W Z :=
  match cmd with
  | AgentRegister args => agent_register global args
  | AgentList room capabilities => agent_list global room capabilities
  | AgentShow room agent_id => agent_show global room agent_id
  | AgentToolsCmd room agent_id => agent_tools global room agent_id
  end.

(** ** Tasks *)

Definition task_cancel (global : GlobalArgs) (room task_id reason : string) : CM W Z :=
  let! task := ipc global MTaskCancel {| tcp_room := room; tcp_task_id := task_id; tcp_reason := Some reason |} in
  let! _ := if global.(g_json) then json (PTask task) "{}"
            else
              let! _ := if task.(ts_state) =s "cancelled" then out ("mx-agent: cancelled task " +:+ task.(ts_task_id))
                        else out ("mx-agent: task " +:+ task.(ts_task_id) +:+ " already " +:+ task.(ts_state) +:+ "; nothing to cancel") in
              lines (task_lines task) in
  ret SUCCESS.
Definition task_list (global : GlobalArgs) (room : string) (state assigned : option string) : CM W Z :=
  let! tasks := ipc global MTaskList (room, {| lo_state := state; lo_assigned_to := assigned |}) in
  let! _ := if global.(g_json) then json (PTasks tasks) "[]"
            else match tasks with
                 | [] => out ("mx-agent: no tasks in " +:+ room)
                 | _ => let! _ := out ("mx-agent: " +:+ pretty (N.of_nat (length tasks)) +:+ " task(s) in " +:+ room) in print_tasks tasks
                 end in
  ret SUCCESS.
Definition warning_line (w : TaskDiagnostic) : string :=
  match w.(td_task_id) with
  | Some task_id => "  ! [" +:+ w.(td_kind) +:+ "] " +:+ task_id +:+ ": " +:+ w.(td_message)
  | None => "  ! [" +:+ w.(td_kind) +:+ "] " +:+ w.(td_message)
  end.
(** [render_text] returns on every graph the daemon builds; on another it may not, and the
    command then says nothing. *)
Definition task_graph (global : GlobalArgs) (room : string) : CM W Z :=
  let! (graph, warnings) := ipc global MTaskGraph (room, {| lo_state := None; lo_assigned_to := None |}) in
  let! _ :=
    if global.(g_json) then json (PTaskGraph (graph, warnings)) "{}"
    else match graph.(tg_nodes) with
    | [] => out ("mx-agent: no tasks in " +:+ room)
    | _ =>
      let! _ := match TaskGraph.render_text graph with Some text => emit io Out text | None => ret tt end in
      match warnings with
      | [] => ret tt
      | _ => lines ((NL +:+ "warnings (" +:+ pretty (N.of_nat (length warnings)) +:+ "):") :: map warning_line warnings)
      end
    end in
  ret SUCCESS.

(** ** Shared context and artifacts *)

Definition context_share_lines (share : ContextShare) : list string :=
  ["  " +:+ left_pad 28 share.(cx_context_id) +:+ " " +:+ left_pad 24 share.(cx_name) +:+ " " +:+ pretty share.(cx_size_bytes) +:+ " bytes";
   "    mime_type:    " +:+ share.(cx_mime_type)]
  ++ opt_line "    encoding:     " share.(cx_encoding) ++ opt_line "    mxc_uri:      " share.(cx_mxc_uri) ++ ["    sha256:       " +:+ share.(cx_sha256)].
Definition report_share (global : GlobalArgs) (share : ContextShare) : CM W unit :=
  if global.(g_json) then json (PShare share) "{}"
  else lines (("mx-agent: shared " +:+ share.(cx_name) +:+ " (" +:+ share.(cx_context_id) +:+ ")") :: context_share_lines share).
Definition share_file (global : GlobalArgs) (room mime_type name : string) : CM W Z :=
  let! data := read_piped_stdin in
  let! data := or_complain io FAILURE (λ e, "mx-agent: could not read stdin: " +:+ e) data in
  let! data := match data with
               | Some data => ret data
               | None => complain io USAGE "mx-agent: share file reads the payload from stdin; pipe or redirect input"
               end in
  let! share := ipc global MShareFile (room, {| sco_name := name; sco_mime_type := mime_type; sco_data := data |}) in
  let! _ := report_share global share in
  ret SUCCESS.
Definition share_diff (global : GlobalArgs) (room : string) (base : option string) (format : DiffFormat) : CM W Z :=
  let! share := ipc global MShareDiff {| sdo_room := room; sdo_base := base; sdo_stat := match format with Stat => true | Unified => false end |} in
  let! _ := report_share global share in
  ret SUCCESS.
Definition share_env (global : GlobalArgs) (room : string) (include : list string) : CM W Z :=
  let include := match include with [] => DEFAULT_ENV_INCLUDE | _ => include end in
  let! share := ipc global MShareEnv {| seo_room := room; seo_include := include |} in
  let! _ := report_share global share in
  ret SUCCESS.
Definition share_list (global : GlobalArgs) (room : string) (limit : Z) : CM W Z :=
  let! shares := ipc global MShareList {| lso_room := room; lso_limit := limit |} in
  let! _ := if global.(g_json) then json (PShares shares) "[]"
            else match shares with
                 | [] => out ("mx-agent: no shared context in " +:+ room)
                 | _ => lines (("mx-agent: " +:+ pretty (N.of_nat (length shares)) +:+ " share(s) in " +:+ room) :: concat (map context_share_lines shares))
                 end in
  ret SUCCESS.
(** [Stdout] is line-buffered with room for a kilobyte: what follows the last newline waits,
    unless it does not fit. *)
Definition LINE_BUFFER : nat := 1024.
Fixpoint last_line_start (s : string) : nat * nat :=
  match s with
  | "" => (0%nat, 0%nat)
  | String c s => let '(total, start) := last_line_start s in
                  (S total, if (0 <? start)%nat || bool_decide (c = chr 10) then S start else 0%nat)
  end.
Definition through_last_newline (s : string) : string * string := let n := (last_line_start s).2 in (String.substring 0 n s, str_drop n s).
(** [write_all]: whether it fails, and what is left in the buffer. *)
Context (show_io : Reassembly.IoError → string).
Definition write_stdout (text : string) : CM W (result string string) := λ s,
  let '(whole, tail) := through_last_newline text in
  if negb (whole =s "") && negb (io s.(co_log) Out) then (Ok (Err (show_io IoFailed)), s)
  else
    let s := if whole =s "" then s else with_log (s.(co_log) ++ [(Out, whole)]) s in
    if (String.length tail <? LINE_BUFFER)%nat then (Ok (Ok tail), s)
    else if io s.(co_log) Out then (Ok (Ok ""), with_log (s.(co_log) ++ [(Out, tail)]) s) else (Ok (Err (show_io IoFailed)), s).
(** What is still buffered is written when the process ends; an error then is not seen. *)
Definition at_exit (buffered : string) : CM W unit := λ s,
  (Ok tt, if (buffered =s "") || negb (io s.(co_log) Out) then s else with_log (s.(co_log) ++ [(Out, buffered)]) s).
(** [emit_fetched_context], [emit_retrieved_artifact]: the payload goes to a file or to
    standard output, the record to the other stream. *)
Definition emit_payload (global : GlobalArgs) (record : Printable) (name : string) (data : bytes) (output : option string) : CM W Z :=
  let size := pretty (N.of_nat (length data)) in
  match output with
  | Some path =>
    let! written := act (sys_write_file path data) in
    let! _ := or_complain io FAILURE (λ e, "mx-agent: could not write " +:+ path +:+ ": " +:+ e) written in
    let! _ := if global.(g_json) then json record "{}"
              else eprintln io ("mx-agent: verified " +:+ name +:+ " (" +:+ size +:+ " bytes) -> " +:+ path) in
    ret SUCCESS
  | None =>
    let! written := write_stdout (to_text data) in
    let! buffered := or_complain io FAILURE (λ e, "mx-agent: could not write artifact to stdout: " +:+ e) written in
    let! _ := if global.(g_json) then eprintln io (unwrap_or (to_string record) "{}")
              else eprintln io ("mx-agent: verified " +:+ name +:+ " (" +:+ size +:+ " bytes)") in
    let! _ := at_exit buffered in
    ret SUCCESS
  end.
Definition emit_fetched_context (global : GlobalArgs) (fetched : FetchedContext) (output : option string) : CM W Z :=
  emit_payload global (PShare fetched.(fc_share)) fetched.(fc_share).(cx_context_id) fetched.(fc_data) output.
Definition share_get (global : GlobalArgs) (room context_id : string) (output : option string) (limit : Z) : CM W Z :=
  let! fetched := ipc global MShareGet {| fco_room := room; fco_context_id := context_id; fco_limit := limit; fco_expected_sender := None |} in
  emit_fetched_context global fetched output.
Definition handle_share (global : GlobalArgs) (cmd : ShareCommand) : CM W Z :=
  match cmd with
  | ShareFile room mime_type name => share_file global room mime_type name
  | ShareDiff room base format => share_diff global room base format
  | ShareEnv room include => share_env global room include
  | ShareList room limit => share_list global room limit
  | ShareGet room context_id output limit => share_get global room context_id output limit
  end.

(** ** Invocations *)

Definition emit_retrieved_artifact (global : GlobalArgs) (retrieved : RetrievedArtifact) (output : option string) : CM W Z :=
  emit_payload global (PArtifact retrieved.(ra_artifact)) retrieved.(ra_artifact).(sa_invocation_id) retrieved.(ra_data) output.
Definition invocation_artifact (global : GlobalArgs) (room invocation_id : string) (stream : StreamChannel) (output : option string) (limit : Z) : CM W Z :=
  let! retrieved := ipc global MInvocationArtifact
    (room, limit, {| rao_invocation_id := invocation_id; rao_stream := to_stream_kind stream; rao_expected_sender := None |}) in
  emit_retrieved_artifact global retrieved output.
Definition invocation_lines (i : InvocationState) : list string :=
  ["  " +:+ left_pad 28 i.(is_invocation_id) +:+ " " +:+ left_pad 10 i.(is_state) +:+ " " +:+ i.(is_requester) +:+ " -> " +:+ i.(is_target)]
  ++ opt_line "    task:         " i.(is_task_id) ++ opt_line "    exit_code:    " (pretty <$> i.(is_exit_code))
  ++ ["    state_rev:    " +:+ pretty i.(is_state_rev)].
Definition print_invocation (i : InvocationState) : CM W unit := lines (invocation_lines i).
Definition invocation_list (global : GlobalArgs) (room : string) (state task : option string) : CM W Z :=
  let! invocations := ipc global MInvocationList (room, {| li_state := state; li_task_id := task |}) in
  let! _ := if global.(g_json) then json (PInvocations invocations) "[]"
            else match invocations with
                 | [] => out ("mx-agent: no invocations in " +:+ room)
                 | _ => lines (("mx-agent: " +:+ pretty (N.of_nat (length invocations)) +:+ " invocation(s) in " +:+ room) :: concat (map invocation_lines invocations))
                 end in
  ret SUCCESS.
Definition invocation_show (global : GlobalArgs) (room invocation_id : string) : CM W Z :=
  let! found := ipc global MInvocationGet {| rip_room := room; rip_invocation_id := invocation_id |} in
  match found with
  | Some i => let! _ := if global.(g_json) then json (PInvocation i) "{}" else print_invocation i in ret SUCCESS
  | None => complain io FAILURE ("mx-agent: invocation " +:+ debug invocation_id +:+ " was not found in " +:+ room)
  end.
Definition invocation_cancel (global : GlobalArgs) (room invocation_id reason : string) : CM W Z :=
  let! i := ipc global MInvocationCancel {| icp_room := room; icp_invocation_id := invocation_id; icp_reason := Some reason |} in
  let! _ := if global.(g_json) then json (PInvocation i) "{}"
            else if i.(is_state) =s "cancelled" then let! _ := out ("mx-agent: cancelled invocation " +:+ i.(is_invocation_id)) in print_invocation i
            else out ("mx-agent: invocation " +:+ i.(is_invocation_id) +:+ " already " +:+ i.(is_state) +:+ "; nothing to cancel") in
  ret SUCCESS.
Definition handle_invocation (global : GlobalArgs) (cmd : InvocationCommand) : CM W Z :=
  match cmd with
  | InvocationListCmd room state task => invocation_list global room state task
  | InvocationShow room invocation_id => invocation_show global room invocation_id
  | InvocationCancel room invocation_id reason => invocation_cancel global room invocation_id reason
  | InvocationArtifact room invocation_id stream output limit => invocation_artifact global room invocation_id stream output limit
  end.

(** ** Approvals *)

Definition approval_lines (p : PendingApproval) : list string :=
  let req := p.(pa_request) in
  ["  " +:+ left_pad 28 req.(apr_request_id) +:+ " " +:+ left_pad 6 req.(apr_risk) +:+ " " +:+ req.(apr_requester) +:+ " -> " +:+ req.(apr_target);
   "    invocation:   " +:+ req.(apr_invocation_id); "    room:         " +:+ p.(pa_room_id); "    summary:      " +:+ req.(apr_summary);
   "    expires_at:   " +:+ req.(apr_expires_at)].
Definition print_approval (p : PendingApproval) : CM W unit := lines (approval_lines p).
Definition approval_list (global : GlobalArgs) (room : option string) : CM W Z :=
  let! queue := look sv_approvals in
  let! queue := or_complain io FAILURE (λ e, "mx-agent: could not read pending approvals: " +:+ e) queue in
  let pending := list_pending_approvals queue room in
  let! _ := if global.(g_json) then json (PApprovals pending) "[]"
            else match pending with
                 | [] => out (match room with Some room => "mx-agent: no pending approvals in " +:+ room | None => "mx-agent: no pending approvals" end)
                 | _ => lines (("mx-agent: " +:+ pretty (N.of_nat (length pending)) +:+ " pending approval(s)") :: concat (map approval_lines pending))
                 end in
  ret SUCCESS.
Definition approval_show (global : GlobalArgs) (request_id : string) : CM W Z :=
  let! queue := look sv_approvals in
  let! queue := or_complain io FAILURE (λ e, "mx-agent: could not read pending approval: " +:+ e) queue in
  match get_pending_approval queue request_id with
  | Some pending => let! _ := if global.(g_json) then json (PApproval pending) "{}" else print_approval pending in ret SUCCESS
  | None => complain io FAILURE ("mx-agent: approval request " +:+ debug request_id +:+ " was not found in the local queue")
  end.
Definition approval_decide (global : GlobalArgs) (request_id : string) (by_ : option string) (decision : string) : CM W Z :=
  let! record := ipc global MApprovalDecide {| adp_request_id := request_id; adp_decision := decision; adp_by := by_ |} in
  let! _ := if global.(g_json) then json (PDecision record.(adr_decision)) "{}"
            else out ("mx-agent: " +:+ (if approved record then "approved" else "denied") +:+ " approval request "
                      +:+ record.(adr_decision).(apd_request_id) +:+ " in " +:+ record.(adr_room_id)) in
  ret SUCCESS.
Definition handle_approval (global : GlobalArgs) (cmd : ApprovalCommand) : CM W Z :=
  match cmd with
  | ApprovalList room => approval_list global room
  | ApprovalShow request_id => approval_show global request_id
  | Approve request_id by_ => approval_decide global request_id by_ DECISION_APPROVED
  | Deny request_id by_ => approval_decide global request_id by_ DECISION_DENIED
  end.

(** ** The daemon *)

Definition json_flags (flags : list (string * string)) : string := "{" +:+ str_join "," (map (λ f, quoted f.1 +:+ ":" +:+ f.2) flags) +:+ "}".
Definition daemon_reload (global : GlobalArgs) : CM W Z :=
  let! result := ipc global MSessionReload tt in
  let! _ := if global.(g_json) then out (json_flags [("started", show_bool result.(rl_started)); ("logged_in", show_bool result.(rl_logged_in))])
            else if result.(rl_started) then out "mx-agent daemon: session reloaded; sync/scheduler/heartbeat running"
            else if result.(rl_logged_in) then out "mx-agent daemon: session reloaded but workers did not start"
            else out "mx-agent daemon: no session stored; nothing to start (run `auth login`)" in
  ret SUCCESS.
Definition running_json (running : RunningStatus) : CM W unit :=
  out (unwrap_or (to_string (PRunning running)) (json_flags [("running", "true")])).
Definition daemon_start (global : GlobalArgs) (foreground : bool) : CM W Z :=
  if foreground then
    let! r := act sv_run_foreground in
    let! _ := or_complain io FAILURE (λ e, "mx-agent: daemon failed: " +:+ e) r in
    ret SUCCESS
  else
    let! status := look sv_status in
    let! status := or_complain io FAILURE (λ e, "mx-agent: could not read daemon status: " +:+ e) status in
    match status with
    | Some running =>
      let! _ := if global.(g_json) then running_json running else out ("mx-agent daemon already running (pid " +:+ pretty running.(rs_pid) +:+ ")") in
      ret SUCCESS
    | None =>
      let! running := act sv_start_background in
      let! running := or_complain io FAILURE (λ e, "mx-agent: could not start daemon: " +:+ e) running in
      let! _ := if global.(g_json) then running_json running else out ("mx-agent daemon started (pid " +:+ pretty running.(rs_pid) +:+ ")") in
      ret SUCCESS
    end.
Context (status_of_value : Value → option RunningStatus).
Definition query_status_over_ipc (socket_path : string) : CM W (option RunningStatus) :=
  let! connected := act (sys_connect socket_path) in
  match connected with
  | Err _ => ret None
  | Ok _ =>
    let! response := client_call "daemon.status" Null in
    ret (match response with Ok response => v ← response.(rsp_result); status_of_value v | Err _ => None end)
  end.
Definition sync_state_line (sync : SyncHealth) : string :=
  match sync.(sh_state) with
  | SyncLoop.Stopped => "  sync:    STOPPED (unhealthy — re-login + `daemon reload` to resume)"
  | Degraded => if is_some sync.(sh_rate_limited_secs) then "  sync:    DEGRADED (rate limited by homeserver)" else "  sync:    DEGRADED (retrying)"
  | Initializing => "  sync:    Initializing"
  | Healthy => "  sync:    Healthy"
  end.
Definition running_lines (running : RunningStatus) : list string :=
  ["mx-agent daemon: running"; "  pid:     " +:+ pretty running.(rs_pid); "  uptime:  " +:+ pretty running.(rs_uptime_seconds) +:+ "s";
   "  socket:  " +:+ running.(rs_socket_path); "  version: " +:+ running.(rs_version)]
  ++ match running.(rs_policy) with
     | Some policy => ["  policy:  MALFORMED — authorizing nothing (deny-all) until fixed"; "    file:  " +:+ policy.(PolicyLoad.pst_path);
                       "    error: " +:+ policy.(PolicyLoad.pst_error)]
     | None => []
     end
  ++ match running.(rs_sync) with
     | Some sync =>
       [sync_state_line sync; "    syncs:    " +:+ pretty sync.(sh_total_syncs)]
       ++ (if 0 <? sync.(sh_consecutive_failures) then ["    failures: " +:+ pretty sync.(sh_consecutive_failures)] else [])
       ++ match sync.(sh_rate_limited_secs) with Some secs => ["    rate-limited: retrying in " +:+ pretty secs +:+ "s"] | None => [] end
       ++ opt_line "    last err: " sync.(sh_last_error)
     | None => []
     end.
Definition daemon_status (global : GlobalArgs) : CM W Z :=
  let! status := look sv_status in
  let! status := or_complain io FAILURE (λ e, "mx-agent: could not read daemon status: " +:+ e) status in
  match status with
  | Some file_status =>
    let! live := query_status_over_ipc file_status.(rs_socket_path) in
    let running := unwrap_or live file_status in
    let! _ := if global.(g_json) then running_json running else lines (running_lines running) in
    ret SUCCESS
  | None =>
    let! _ := if global.(g_json) then out (json_flags [("running", "false")]) else out "mx-agent daemon: not running" in
    ret 3
  end.
Definition stop_messages (outcome : StopOutcome) : string * string :=
  match outcome with
  | NotRunning => ("mx-agent daemon: not running", json_flags [("stopped", "false"); ("running", "false")])
  | Stopped pid => ("mx-agent daemon stopped (pid " +:+ pretty pid +:+ ")", json_flags [("stopped", "true"); ("pid", pretty pid)])
  | Killed pid => ("mx-agent daemon force-killed (pid " +:+ pretty pid +:+ ")", json_flags [("stopped", "true"); ("killed", "true"); ("pid", pretty pid)])
  end.
Definition daemon_stop (global : GlobalArgs) : CM W Z :=
  let! outcome := act sv_stop in
  let! outcome := or_complain io FAILURE (λ e, "mx-agent: could not stop daemon: " +:+ e) outcome in
  let '(msg, text) := stop_messages outcome in
  let! _ := if global.(g_json) then out text else out msg in
  ret SUCCESS.
Definition handle_daemon (global : GlobalArgs) (cmd : DaemonCommand) : CM W Z :=
  match cmd with
  | DaemonStart foreground => daemon_start global foreground
  | DaemonStatus => daemon_status global
  | DaemonStop => daemon_stop global
  | DaemonReload => daemon_reload global
  end.

(** ** Dispatch *)

Context (launcher_os : LauncherOs string) (show_launcher : LauncherError → string).
Definition cmd_sandbox_exec (args : list string) : CM W Z :=
  match launcher_parse args with
  | Err e => complain io 127 ("mx-agent " +:+ LAUNCHER_SUBCOMMAND +:+ ": " +:+ show_launcher e)
  | Ok parsed => complain io 127 ("mx-agent " +:+ LAUNCHER_SUBCOMMAND +:+ ": could not launch the sandboxed command: " +:+ (run_launcher launcher_os parsed).2)
  end.
Context (from_str : string → result Value string) (b64_error : string → string) (order : gmap StreamKind StreamReorder → list StreamKind).
Context (cmd_exec_pty : GlobalArgs → ExecArgs → string → CM W Z).
(** The run of a command that is not a watch: every system call it makes returns. *)
Definition run_once (m : CM W Z) (s : Console W) : option (Z * Console W) := Some (run_to_exit m s).
Definition workspace_status_watch (fuel : nat) (global : GlobalArgs) (args : WorkspaceStatusArgs) : Console W → option (Z * Console W) :=
  watch fuel global "workspace.watch" (encode MWorkspaceStatus {| rp_room := args.(wsa_room) |}) (render_workspace_watch_ipc_payload global.(g_json)).
Definition workspace_status (fuel : nat) (global : GlobalArgs) (args : WorkspaceStatusArgs) : Console W → option (Z * Console W) :=
  if args.(wsa_watch) then workspace_status_watch fuel global args
  else run_once (let! status := ipc global MWorkspaceStatus {| rp_room := args.(wsa_room) |} in
             let! _ := show_status global.(g_json) status in
             ret SUCCESS).
Definition handle_workspace (fuel : nat) (global : GlobalArgs) (cmd : WorkspaceCommand) : Console W → option (Z * Console W) :=
  match cmd with
  | WorkspaceCreate args => run_once (workspace_create global args)
  | WorkspaceJoin room => run_once (workspace_join global room)
  | WorkspaceStatusCmd args => workspace_status fuel global args
  | WorkspaceAttach room path project_id => run_once (workspace_attach global room path project_id)
  | WorkspaceGrantCmd room user level => run_once (workspace_grant global room user level)
  end.
Definition task_watch (fuel : nat) (global : GlobalArgs) (room : string) (state assigned : option string) : Console W → option (Z * Console W) :=
  watch fuel global "task.watch" (encode MTaskList (room, {| lo_state := state; lo_assigned_to := assigned |})) (render_task_watch_ipc_payload global.(g_json) room).
Definition handle_task (fuel : nat) (global : GlobalArgs) (cmd : TaskCommand) : Console W → option (Z * Console W) :=
  match cmd with
  | TaskCreate args => run_once (task_create io default_socket debug from_str to_string global args)
  | TaskUpdate args => run_once (task_update io default_socket debug from_str to_string global args)
  | TaskListCmd room state assigned => run_once (task_list global room state assigned)
  | TaskGraphCmd room => run_once (task_graph global room)
  | TaskWatch room state assigned => task_watch fuel global room state assigned
  | TaskCancel room task_id reason => run_once (task_cancel global room task_id reason)
  end.
(** [run] after parsing; [None] when a watch outlives the fuel. *)
Definition run_command (fuel : nat) (global : GlobalArgs) (c : Command) : Console W → option (Z * Console W) :=
  match c with
  | CDaemon cmd => run_once (handle_daemon global cmd)
  | CAuth cmd => run_once (handle_auth global cmd)
  | CWorkspace cmd => handle_workspace fuel global cmd
  | CAgent cmd => run_once (handle_agent global cmd)
  | CTrust cmd => run_once (handle_trust global cmd)
  | CTask cmd => handle_task fuel global cmd
  | CInvocation cmd => run_once (handle_invocation global cmd)
  | CApproval cmd => run_once (handle_approval global cmd)
  | CShare cmd => run_once (handle_share global cmd)
  | CCall args => run_once (cmd_call io default_socket debug from_str show_value global args)
  | CExec args => run_once (cmd_exec io default_socket debug b64_error show_io order cmd_exec_pty global args)
  | CDevice cmd => run_once (handle_device global cmd)
  | CRecovery cmd => run_once (handle_recovery global cmd)
  | CSandboxExec args => run_once (cmd_sandbox_exec args)
  end.

(** ** Which commands need the daemon *)

Definition mediated_command (c : Command) : bool :=
  match c with
  | CDaemon DaemonReload | CAuth (CrossSigning _) | CWorkspace _ | CAgent _ | CShare _ | CTask _ | CInvocation _ | CRecovery _ | CCall _ => true
  | CApproval (Approve _ _ | Deny _ _) | CTrust (TrustPublish _ _ _ | TrustStateCmd _ _) | CDevice (DeviceList _ _ | DeviceShow _ _) => true
  | CExec args => negb args.(xa_pty)
  | CDevice (DeviceVerify args) => args.(dva_manual)
  | _ => false
  end.
Definition watching (c : Command) : bool := match c with CTask (TaskWatch _ _ _) => true | CWorkspace (WorkspaceStatusCmd args) => args.(wsa_watch) | _ => false end.
(** The commands that work on this host's own data; the two approval queries, which read the
    data directory too, are left out. *)
Definition local_command (c : Command) : bool :=
  match c with
  | CDaemon (DaemonStart _ | DaemonStop) | CAuth (AuthStatusCmd | Logout) | CSandboxExec _ => true
  | CTrust (TrustList _ _ | Fingerprint | TrustApprove _ _ _ _ | TrustRevoke _ _) => true
  | _ => false
  end.
Abbreviation Mediated := (mediated default_socket).
Lemma handled_agent global cmd : Mediated global (handle_agent global cmd).
Proof. destruct cmd; cbn [handle_agent]; med. Qed.
Lemma handled_share global cmd : Mediated global (handle_share global cmd).
Proof. destruct cmd; cbn [handle_share]; med. Qed.
Lemma handled_invocation global cmd : Mediated global (handle_invocation global cmd).
Proof. destruct cmd; cbn [handle_invocation]; med. Qed.
Lemma handled_recovery global cmd : Mediated global (handle_recovery global cmd).
Proof. destruct cmd; cbn [handle_recovery]; med. Qed.
Lemma handled_exec global args : args.(xa_pty) = false → Mediated global (cmd_exec io default_socket debug b64_error show_io order cmd_exec_pty global args).
Proof.
  intros Hp. unfold cmd_exec. rewrite Hp. apply mediated_bind; [off|intros _]. apply mediated_bind; [off|intros cwd]. cbn [bool_decide].
  apply mediated_bind; [off|intros stdin]. apply mediated_bind; [off|intros stdin']. apply mediated_bind; [off|intros env].
  apply mediated_call; [apply method_dispatched|]. intros r. destruct r.(xr_outcome) as [frames|kind message].
  - apply offline_bind; [|intros ?; off]. intros s x s'. unfold render. by destruct (render_stream_with _ _ _ _ _ _ _) as [y log]; intros [= <- <-].
  - apply offline_complain. by destruct kind.
Qed.
Lemma watch_answers_offline method render : (∀ v, offline (render v)) → ∀ fuel s code s', watch_answers fuel method render s = Some (code, s') → s'.(co_sent) = s.(co_sent).
Proof.
  intros Hr. induction fuel as [|fuel IH]; intros s code s'; cbn [watch_answers]; [done|].
  match goal with |- match ?m s with _ => _ end = _ → _ => assert (offline m) as Ho by (apply offline_bind; [off|intros ?; repeat case_match; try off];
    apply offline_bind; [apply Hr|intros ?; off]); destruct (m s) as [[[code'|]|e] s1] eqn:E end;
    apply Ho in E as [<- _]; [by intros [= _ <-]|apply IH|by intros [= _ <-]].
Qed.
Lemma watch_mediated fuel global method params render s code s' :
  streamed method → (∀ v, offline (render v)) → watch fuel global method params render s = Some (code, s') →
  (s'.(co_sent) = s.(co_sent) ∧ code ≠ SUCCESS) ∨ requested default_socket global s s' code.
Proof.
  intros Hm Hr. unfold watch, Prelude.bind.
  destruct (or_complain io FAILURE _ params s) as [[v|e] s1] eqn:Ev; apply offline_or_complain in Ev as [Hs1 Hr1]; try done.
  2:{ intros [= <- <-]. left. split; [done|]. congruence. }
  destruct (connect io default_socket global s1) as [[[]|e] s2] eqn:Ec; apply connect_spec in Ec as (Hs2 & Hr2 & Hw).
  2:{ intros [= <- <-]. left. rewrite Hs2. split; [done|]. congruence. }
  unfold send. destruct (sys_send _ _) as [sent w]. set (s3 := with_world w _). assert (s3.(co_sent) = s.(co_sent) ++ [(method, v)]) as Hs3 by (cbn; by rewrite Hs2, Hs1).
  intros E. right. constructor; [|destruct Hw as [w0 Hw]; [done|]; exists w0; by rewrite Hw]. exists method, v. split; [|by right]. rewrite <- Hs3.
  destruct (or_complain io FAILURE _ sent s3) as [[[]|e] s4] eqn:E4; apply offline_or_complain in E4 as [<- _]; try done.
  - by eapply watch_answers_offline.
  - by injection E as _ <-.
Qed.
Lemma render_workspace_offline as_json v : offline (render_workspace_watch_ipc_payload as_json v).
Proof. off. Qed.
Lemma render_task_update_offline as_json room u : offline (render_task_update as_json room u).
Proof. off. Qed.
Lemma render_task_offline as_json room v : offline (render_task_watch_ipc_payload as_json room v).
Proof. off. Qed.
Lemma once_mediated global m s code s' : Mediated global m → run_once m s = Some (code, s') →
  (s'.(co_sent) = s.(co_sent) ∧ code ≠ SUCCESS) ∨ requested default_socket global s s' code.
Proof. intros Hm. unfold run_once, run_to_exit. destruct (m s) as [r s1] eqn:E. intros [= <- <-]. by apply Hm. Qed.
Lemma handled_workspace fuel global cmd s code s' : handle_workspace fuel global cmd s = Some (code, s') →
  (s'.(co_sent) = s.(co_sent) ∧ code ≠ SUCCESS) ∨ requested default_socket global s s' code.
Proof.
  destruct cmd; cbn [handle_workspace]; try (apply once_mediated; med). unfold workspace_status. destruct args.(wsa_watch); [|apply once_mediated; med].
  apply watch_mediated; [|apply render_workspace_offline]. unfold streamed. set_solver.
Qed.
Lemma handled_task fuel global cmd s code s' : handle_task fuel global cmd s = Some (code, s') →
  (s'.(co_sent) = s.(co_sent) ∧ code ≠ SUCCESS) ∨ requested default_socket global s s' code.
Proof.
  destruct cmd; cbn [handle_task]; try (apply once_mediated; med).
  apply watch_mediated; [|apply render_task_offline]. unfold streamed. set_solver.
Qed.

(** C17: a command that needs the daemon sends one request, for a method the daemon dispatches,
    over a connection that was made, and succeeds only when the daemon answers it on that
    connection without an error (the request of a watch, which is answered by a stream,
    apart); otherwise it sends nothing and does not succeed.  These are the reload of the
    daemon, cross-signing, the workspace, agent, share, task, invocation and recovery groups,
    approve and deny, the publication and state of trust, the device queries, the manual
    verification of a device, [call], and [exec] without a terminal.  A command on this
    host's own data (starting and stopping the daemon, the login status, logging out, the
    local trust store, the sandbox launcher) sends nothing.  A watch is covered where it
    comes to an end. *)
Theorem command_contract fuel global c s code s' : run_command fuel global c s = Some (code, s') →
  (mediated_command c = true → (s'.(co_sent) = s.(co_sent) ∧ code ≠ SUCCESS) ∨ requested default_socket global s s' code) ∧
  (local_command c = true → s'.(co_sent) = s.(co_sent)).
Proof.
  intros Hrun. split.
  - intros Hc. destruct c as [cmd|cmd|cmd|cmd|args|args|cmd|cmd|cmd|cmd|cmd|cmd|cmd|args]; cbn [run_command mediated_command] in Hrun, Hc; try done.
    + destruct cmd; try done. revert Hrun. apply once_mediated. med.
    + destruct cmd; try done. revert Hrun. apply once_mediated. cbn [handle_auth]. med.
    + by apply handled_workspace in Hrun.
    + revert Hrun. apply once_mediated, handled_agent.
    + revert Hrun. apply once_mediated. med.
    + revert Hrun. apply once_mediated, handled_exec. by destruct args.(xa_pty).
    + revert Hrun. apply once_mediated, handled_share.
    + by apply handled_task in Hrun.
    + revert Hrun. apply once_mediated, handled_invocation.
    + destruct cmd; try done; revert Hrun; apply once_mediated; cbn [handle_approval]; med.
    + destruct cmd; try done; revert Hrun; apply once_mediated; cbn [handle_trust]; med.
    + revert Hrun. apply once_mediated. destruct cmd; cbn [handle_device]; try med. unfold device_verify. cbn in Hc. rewrite Hc. med.
    + revert Hrun. apply once_mediated, handled_recovery.
  - intros Hc. assert (∃ m, offline m ∧ run_once m s = Some (code, s')) as (m & Ho & E).
    { destruct c as [cmd|cmd|cmd|cmd|args|args|cmd|cmd|cmd|cmd|cmd|cmd|cmd|args]; cbn [run_command local_command] in Hrun, Hc; try done;
        try (destruct cmd; try done); (eexists; split; [|exact Hrun]);
        cbn [handle_daemon handle_auth handle_approval handle_trust]; off. }
    unfold run_once, run_to_exit in E. destruct (m s) as [r s1] eqn:Em. injection E as _ <-. by apply Ho in Em as [? _].
Qed.

(** ** What a watch prints *)

Section printing.
Context (io_ok : ∀ log w, io log w = true).
Definition on (w : Writer) (text : string) : WriteLog := [(w, text +:+ NL)].
(** The text of an update. *)
Definition update_text (as_json : bool) (room : string) (update : WatchUpdate (list TaskState)) : WriteLog :=
  match update with
  | Initial tasks =>
    if as_json then on Out (show_value (Object [("event", Str "initial"); ("tasks", tasks_value tasks)]))
    else on Out ("mx-agent: watching " +:+ pretty (N.of_nat (length tasks)) +:+ " task(s) in " +:+ room +:+ " (Ctrl-C to stop)") ++ concat (map (on Out) (concat (map task_lines tasks)))
  | Changed previous current =>
    let changes := diff_tasks previous current in
    if as_json then on Out (show_value (Object [("changes", changes_value changes); ("event", Str "changed")]))
    else concat (map (on Out) (concat (map task_change_lines changes)))
  | Reconnecting attempt error => on ErrOut ("mx-agent: reconnecting (attempt " +:+ pretty attempt +:+ "): " +:+ error)
  | Reconnected => on ErrOut "mx-agent: reconnected"
  end.
Lemma emit_ok w text s : emit (W := W) io w text s = (Ok tt, with_log (s.(co_log) ++ [(w, text)]) s).
Proof. unfold emit. by rewrite io_ok. Qed.
Lemma println_all_ok ls : ∀ s, println_all (W := W) io ls s = (Ok tt, with_log (s.(co_log) ++ concat (map (on Out) ls)) s).
Proof.
  induction ls as [|l ls IH]; intros s; cbn [println_all].
  - unfold ret. cbn. rewrite app_nil_r. by destruct s.
  - unfold Prelude.bind, println. rewrite emit_ok, IH. cbn. by rewrite <- app_assoc.
Qed.
Lemma render_task_update_ok as_json room u s : render_task_update as_json room u s = (Ok tt, with_log (s.(co_log) ++ update_text as_json room u) s).
Proof.
  destruct u as [tasks|previous current|attempt error|]; cbn [render_task_update update_text]; try (destruct as_json);
    unfold println, eprintln, Prelude.bind, print_tasks; rewrite ?emit_ok, ?println_all_ok; try done. cbn. by rewrite <- app_assoc.
Qed.
Context (tasks_back : ∀ tasks, tasks_from_value (tasks_value tasks) = Ok tasks).
Definition counted (u : WatchUpdate (list TaskState)) : Prop := match u with Reconnecting attempt _ => 0 ≤ attempt ≤ u64_max | _ => True end.
Ltac literals := cbn match; repeat match goal with |- context [?a =s ?b] => let v := eval vm_compute in (a =s b) in change (a =s b) with v end; cbn match.
(** An update read back from the socket is shown as the update itself is. *)
Lemma render_payload_ok as_json room u s : counted u →
  render_task_watch_ipc_payload as_json room (task_watch_payload tasks_value changes_value u) s =
    (Ok (Ok tt), with_log (s.(co_log) ++ update_text as_json room u) s).
Proof.
  intros Hc. unfold render_task_watch_ipc_payload, reconnecting_line. destruct u as [tasks|previous current|attempt error|]; cbn [task_watch_payload].
  - change (v ← field "event" _; as_str v) with (Some "initial"). literals.
    change (field "tasks" _) with (Some (tasks_value tasks)). cbn [unwrap_or]. rewrite tasks_back. unfold Prelude.bind. by rewrite render_task_update_ok.
  - change (v ← field "event" _; as_str v) with (Some "changed"). literals.
    change (field "changes" _) with (Some (changes_value (diff_tasks previous current))).
    change (field "previous" _) with (Some (tasks_value previous)). change (field "current" _) with (Some (tasks_value current)). cbn [unwrap_or]. destruct as_json.
    + unfold Prelude.bind, println. by rewrite emit_ok.
    + rewrite !tasks_back. unfold Prelude.bind. by rewrite render_task_update_ok.
  - change (v ← field "event" _; as_str v) with (Some "reconnecting"). literals.
    change (field "attempt" _) with (Some (Num (NumInt attempt))). change (v ← field "error" _; as_str v) with (Some error).
    cbn in Hc. cbn [mbind option_bind as_u64]. rewrite (proj2 (Z.leb_le 0 attempt)), (proj2 (Z.leb_le attempt u64_max)) by lia. cbn [andb unwrap_or].
    unfold Prelude.bind, eprintln. by rewrite emit_ok.
  - change (v ← field "event" _; as_str v) with (Some "reconnected"). literals. unfold Prelude.bind, eprintln. by rewrite emit_ok.
Qed.
(** The connection gives these payloads and is then closed. *)
Fixpoint delivers (w : W) (payloads : list Value) : Prop :=
  match payloads with
  | [] => ∃ message w', sys_recv w = (Err (RecvEof message), w')
  | payload :: payloads => ∃ id w', sys_recv w = (Ok (response_result id payload), w') ∧ delivers w' payloads
  end.

(** Watching tasks over the socket shows each update the daemon's watch reports, in order and
    as the watch itself would show it, and ends in success when the daemon closes. *)
Theorem watch_shows_updates as_json room updates : ∀ s,
  Forall counted updates → delivers s.(co_world) (map (task_watch_payload tasks_value changes_value) updates) →
  ∃ s', watch_answers (S (length updates)) "task.watch" (render_task_watch_ipc_payload as_json room) s = Some (SUCCESS, s') ∧
        s'.(co_log) = s.(co_log) ++ concat (map (update_text as_json room) updates) ∧ s'.(co_sent) = s.(co_sent).
Proof.
  induction updates as [|u updates IH]; intros s Hc Hd; cbn [length map delivers] in *.
  - destruct Hd as (message & w' & E). cbn [watch_answers]. unfold Prelude.bind at 1, act. rewrite E. eexists. split; [reflexivity|]. cbn. by rewrite app_nil_r.
  - destruct Hd as (id & w' & E & Hd). apply Forall_cons in Hc as [Hu Hc].
    change (watch_answers (S (S (length updates))) ?m ?r s) with
      (match (let! r0 := act sys_recv in
           match r0 with
           | Err (RecvEof _) => ret (Some SUCCESS)
           | Err (RecvFailed e) => complain io FAILURE ("mx-agent: daemon IPC request " +:+ m +:+ " failed: " +:+ e)
           | Ok response =>
             match response.(rsp_error) with
             | Some error => complain io FAILURE ("mx-agent: daemon rejected " +:+ m +:+ ": " +:+ error.(rpc_message))
             | None =>
               let! rendered := r (unwrap_or response.(rsp_result) Null) in
               let! _ := or_complain io FAILURE (λ e, "mx-agent: daemon returned invalid " +:+ m +:+ " response: " +:+ e) rendered in
               ret None
             end
           end) s with
    | (Ok None, s) => watch_answers (S (length updates)) m r s
    | (Ok (Some code), s) | (Err code, s) => Some (code, s)
    end).
    unfold Prelude.bind at 1, act. rewrite E. cbn [response_result rsp_error rsp_result unwrap_or]. unfold Prelude.bind at 1. rewrite render_payload_ok by done.
    cbn [or_complain]. unfold Prelude.bind at 1, ret.
    destruct (IH (with_log (s.(co_log) ++ update_text as_json room u) (with_world w' s)) Hc Hd) as (s' & Hs & Hl & Hn).
    exists s'. split; [exact Hs|]. rewrite Hl, Hn. cbn. by rewrite <- app_assoc.
Qed.
End printing.

(** A payload of less than a kilobyte without a newline is only buffered: when standard output
    takes nothing, the command still reports the artifact as verified and succeeds, and the
    payload is lost. *)
Theorem short_payload_lost global record name data s :
  global.(g_json) = false → (∀ log, io log Out = false) → (∀ log, io log ErrOut = true) →
  (through_last_newline (to_text data)).1 = "" → (String.length (through_last_newline (to_text data)).2 < LINE_BUFFER)%nat →
  ∃ line, emit_payload global record name data None s = (Ok SUCCESS, with_log (s.(co_log) ++ [(ErrOut, line)]) s).
Proof.
  intros Hj Ho He Hw Ht. unfold emit_payload, write_stdout. destruct (through_last_newline (to_text data)) as [whole tail]. cbn in Hw, Ht. subst whole.
  unfold Prelude.bind at 1. change ("" =s "") with true. cbn [negb andb]. rewrite (proj2 (Nat.ltb_lt _ _)) by done. cbn [or_complain]. unfold Prelude.bind at 1, ret.
  rewrite Hj. unfold Prelude.bind at 1, eprintln, emit. rewrite He. unfold Prelude.bind at 1, at_exit. rewrite Ho. rewrite orb_true_r. by eexists.
Qed.
End groups.

(** [mx-agent daemon reload] with a daemon that starts its workers. *)
Module CommandsExample.
#[local] Existing Instance Signing.Toy.toy_crypto.
Definition started : Value := Object [("started", Bool true); ("logged_in", Bool true)].
(** A wire for this one method. *)
#[local] Instance wire : Wire := {|
  encode P R m := match m with MSessionReload => λ _, Ok Null | _ => λ _, Err "no" end;
  decode P R m := match m with MSessionReload => λ v, if decide (v = started) then Ok {| rl_started := true; rl_logged_in := true |} else Err "no" | _ => λ _, Err "no" end;
  decode_params P R m := match m with MSessionReload => λ _, Ok tt | _ => λ _, Err "no" end;
  encode_result P R m := match m with MSessionReload => λ _, Ok started | _ => λ _, Err "no" end;
|}.
#[local] Instance system : System (Desktop unit) := desktop_system (λ req d, (response_result req.(req_id) started, d)).
#[local] Instance services : Services (Desktop unit) := {|
  sv_validate_homeserver _ := Ok tt; sv_runtime _ := Ok tt; sv_login_password _ _ _ w := (Err "no", w); sv_persist_login _ w := (Err "no", w);
  sv_auth_status _ := Ok logged_out; sv_logout w := (Ok false, w); sv_lock _ := Ok tt; sv_trust_load _ := Ok []; sv_trust_save _ w := (Ok tt, w); sv_signing_key w := (Err "no", w);
  sv_now _ := 0; sv_approvals _ := Ok []; sv_run_foreground w := (Err "no", w); sv_status _ := Ok None; sv_start_background w := (Err "no", w);
  sv_stop w := (Ok NotRunning, w) |}.
Definition console : Console (Desktop unit) :=
  {| co_log := []; co_sent := []; co_world := {| dk_daemon := tt; dk_inbox := []; dk_current_dir := Ok "/"; dk_stdin := None |} |}.
Definition os : LauncherOs string := {| os_setrlimit _ _ := None; os_seccomp := None; os_exec _ _ := "no"; os_empty_argv := "no" |}.
Definition reload (fuel : nat) : Command → Console (Desktop unit) → option (Z * Console (Desktop unit)) :=
  run_command RenderExample.io "daemon.sock" RenderExample.plain (λ _, None) (λ _, "") (λ _ _, ret 0) (λ w, ((true, Err "no"), w)) (λ _, Null) (λ _, Err "no") (λ _, Err "no")
    (λ _, Null) (λ _, Null) (λ _, 0) (λ _, "broken pipe") (λ _, None) os (λ _, "") (λ _, Err "no") RenderExample.plain RenderExample.order (λ _ _ _, ret 0) fuel ShellExample.global.
Lemma command_contract_witness :
  ∃ s', reload 0 (CDaemon DaemonReload) console = Some (SUCCESS, s') ∧ s'.(co_sent) = [("session.reload", Null)] ∧
        (s'.(co_sent) = console.(co_sent) ∧ SUCCESS ≠ SUCCESS ∨ requested "daemon.sock" ShellExample.global console s' SUCCESS).
Proof.
  assert (∃ s', reload 0 (CDaemon DaemonReload) console = Some (SUCCESS, s') ∧ s'.(co_sent) = [("session.reload", Null)]) as (s' & E & Hs) by (eexists; split; reflexivity).
  exists s'. split; [exact E|]. split; [exact Hs|].
  refine (proj1 (command_contract RenderExample.io "daemon.sock" RenderExample.plain (λ _, None) (λ _, "") (λ _ _, ret 0) (λ w, ((true, Err "no"), w)) (λ _, Null)
    (λ _, Err "no") (λ _, Err "no") (λ _, Null) (λ _, Null) (λ _, 0) (λ _, "broken pipe") (λ _, None) os (λ _, "") (λ _, Err "no") RenderExample.plain RenderExample.order
    (λ _ _ _, ret 0) 0 ShellExample.global (CDaemon DaemonReload) console SUCCESS s' E) eq_refl).
Defined.
End CommandsExample.
