(* ===== verification/SchedulerPass.v ===== *)
(** * A pass of the scheduler

    Models the rest of [crates/mx-agent-daemon/src/scheduler_loop.rs]: what a pass reads (the
    policy, the trust store, the queue, the rooms), how it sets up the orchestrator and the
    approval gate of each agent the daemon owns, the ticks of those agents, the sweep of
    expired holds, and the loop over passes.  What the homeserver and the file system answer
    are arguments; the ticks are those of [SchedulerLoop], over the replay cache's file. *)
From Stdlib Require Import ZArith Lia.
From stdpp Require Import gmap strings list relations.
From S2P Require Import Prelude RustStr Sandboxing Replay CanonicalJson Schema Signing PolicyFile PolicyEngine NonceGuard Trust Room Invocation TaskLifecycle Approval LiveAuth ResultPlane Presence LiveHandlers Watch Orchestrator OrchestratorCorrect Scheduler SchedulerLoop PolicyLoad.

Definition APPROVAL_DECISIONS_SCAN_LIMIT : nat := 100.
Definition DEFAULT_SCHEDULER_INTERVAL : Z := 5000.

#[export] Instance ApprovalRequest_eq_dec : EqDecision ApprovalRequest.
Proof. solve_decision. Defined.
#[export] Instance ExecRequest_eq_dec : EqDecision ExecRequest.
Proof. solve_decision. Defined.
#[export] Instance CallRequest_eq_dec : EqDecision CallRequest.
Proof. solve_decision. Defined.
#[export] Instance HeldRequest_eq_dec : EqDecision HeldRequest.
Proof. solve_decision. Defined.
#[export] Instance PendingApproval_eq_dec : EqDecision PendingApproval.
Proof. solve_decision. Defined.

(** What the turn of one agent finds: the daemon's copy of the room and the room itself, the
    invocation events, the state of the replay file's disk, and the clock. *)
Record Turn := {
  tu_local : Room;
  tu_server : Room;
  tu_invocations : list (StateEvent InvocationState);
  tu_rename_ok : bool;
  tu_io : list (option string);
  tu_loaded_at : Z;
  tu_now : string;
  tu_now_unix : Z;
}.
(** A joined room: its id, its agent and task state events, its timeline, newest first
    ([None]: it cannot be read), and the turns of the owned agents. *)
Record PassRoom := {
  rr_id : string;
  rr_agents : list (StateEvent AgentState);
  rr_tasks : list (StateEvent TaskState);
  rr_timeline : option (list TimelineEvent);
  rr_turn : nat → Turn;
}.

Section pass.
Context `{Crypto} `{RequestSerde}.
Context (regex_new : RegexNew) (toml : string → result Policy string) (show_policy : PolicyError → string).
Context (afv : Value → option TaskAction) (debug_str : string → string) (text : WorkspaceError → string).
Context (hash_iter : gmap string Z → list (string * Z)) (to_vec : StoredCache → string) (from_slice : string → option StoredCache).
Context (generate : nat → string).
Context {T E MT ME : Type} `{!TaskDispatcher T, !TaskDispatcher E, !TaskDispatcher MT, !TaskDispatcher ME}.
#[local] Instance pass_guard : NonceGuard Guard := cache_guard hash_iter to_vec.

(** The two pairs of dispatchers: in-process, and over the signed transport. *)
Abbreviation Disp := ((T * E) * (MT * ME))%type.
Definition dispatcher_for (mode : TaskDispatchMode) : TaskDispatcher Disp :=
  {| dispatch task action invocation_id a d :=
       match mode with
       | DispatchLocal => let '(r, x) := routing_dispatch task action invocation_id a d.1 in (r, (x, d.2))
       | DispatchMatrix => let '(r, x) := routing_dispatch task action invocation_id a d.2 in (r, (d.1, x))
       end |}.
Context (mode : TaskDispatchMode).
#[local] Instance mode_dispatcher : TaskDispatcher Disp := dispatcher_for mode.

(** What a pass reads: the account, the environment and files, the clock, the rooms, and what
    the other threads did to the queue file before it is saved, if it can be. *)
Record PassEnv := {
  pe_user : option string;
  pe_env : string → option string;
  pe_read : string → FsRead;
  pe_trust : option TrustStore;
  pe_now : Z;
  pe_rooms : list PassRoom;
  pe_live : LiveEnv;
  pe_meanwhile : LiveState (C := Guard) → LiveState (C := Guard);
  pe_save_ok : bool;
}.
(** What a pass changes: the memory of the loop, the replay file, its copy of the queue, the
    dispatchers and, through the sweep, what the live handlers share. *)
Record PassState := {
  ps_memory : LoopMemory;
  ps_fs : CacheFs;
  ps_queue : ApprovalQueue;
  ps_dispatcher : Disp;
  ps_live : LiveState (C := Guard);
}.

(** ** One agent *)

(** [None]: the pass of the agent is skipped. *)
Definition load_pass_replay_cache (turn : Turn) (fs : CacheFs) : CacheFs * option Guard :=
  let '(fs, r) := Replay.load from_slice turn.(tu_rename_ok) fs turn.(tu_loaded_at) in
  (fs, match r with Ok cache => Some {| g_fs := fs; g_cache := cache; g_io := turn.(tu_io) |} | Err _ => None end).
(** The cache, the gate and the audit log apart. *)
Definition build_scheduler_orchestrator (agent_id room_id : string) (policy : Policy) (trust : TrustStore)
    (verifying_keys : gmap string VerifyingKey) : TaskOrchestrator :=
  {| to_agent_id := agent_id; to_room_id := Some room_id; to_policy := Some policy; to_trust_store := Some trust;
     to_verifying_keys := verifying_keys |}.
(** What is read once for a room, and shared by its agents. *)
Record RoomReading := {
  rd_room_id : string;
  rd_policy : Policy;
  rd_trust : TrustStore;
  rd_keys : gmap string VerifyingKey;
  rd_snapshot : list TaskState;
  rd_decisions : gmap string ApprovalDecision;
  rd_expires_at : string;
  rd_now : Z;
}.
Definition pass_gate (rd : RoomReading) (agent_id : string) (queue : ApprovalQueue) : QueueApprovalGate :=
  {| qg_room_id := rd.(rd_room_id); qg_target_agent := agent_id; qg_expires_at := rd.(rd_expires_at); qg_now_unix := rd.(rd_now);
     qg_queue := queue; qg_attached := true; qg_last_admitted := None; qg_resolve_decision rid := rd.(rd_decisions) !! rid |}.
Definition invocation_map (raws : list (StateEvent InvocationState)) : gmap string InvocationState :=
  match read_all_invocation_states raws with
  | Ok states => foldl (λ m inv, <[inv.(is_invocation_id) := inv]> m) ∅ states
  | Err _ => ∅
  end.
Abbreviation AgentWorld := (@World MatrixStore Disp QueueApprovalGate Guard).
Definition agent_world (rd : RoomReading) (agent : AgentState) (turn : Turn) (cache : Guard) (s : PassState) : AgentWorld :=
  {| w_store := mkStore turn.(tu_local) turn.(tu_server) ∅; w_dispatcher := s.(ps_dispatcher);
     w_gate := Some (pass_gate rd agent.(as_agent_id) s.(ps_queue)); w_cache := Some cache |}.
Definition agent_tick (rd : RoomReading) (agent : AgentState) (turn : Turn) (m : LoopMemory) (w : AgentWorld) :
    list OrchestrationOutcome * list (TaskState * OrchestrationOutcome) * LoopMemory * AgentWorld :=
  run_scheduler_tick (TaskStore0 := matrix_task_store text turn.(tu_now)) afv regex_new debug_str generate
    {| sc_agent_id := agent.(as_agent_id); sc_max_invocations := Z.to_N agent.(as_load).(al_max_invocations); sc_auto_claim := false |}
    (build_scheduler_orchestrator agent.(as_agent_id) rd.(rd_room_id) rd.(rd_policy) rd.(rd_trust) rd.(rd_keys))
    turn.(tu_now) turn.(tu_now_unix) rd.(rd_snapshot) (invocation_map turn.(tu_invocations)) m w.
Definition scheduler_pass_for_agent (rd : RoomReading) (agent : AgentState) (turn : Turn) (s : PassState) : PassState :=
  let '(fs, cache) := load_pass_replay_cache turn s.(ps_fs) in
  match cache with
  | None => {| ps_memory := s.(ps_memory); ps_fs := fs; ps_queue := s.(ps_queue); ps_dispatcher := s.(ps_dispatcher); ps_live := s.(ps_live) |}
  | Some cache =>
    let '(_, _, m, w) := agent_tick rd agent turn s.(ps_memory) (agent_world rd agent turn cache s) in
    {| ps_memory := m; ps_fs := match w.(w_cache) with Some g => g.(g_fs) | None => fs end;
       ps_queue := match w.(w_gate) with Some g => g.(qg_queue) | None => s.(ps_queue) end;
       ps_dispatcher := w.(w_dispatcher); ps_live := s.(ps_live) |}
  end.
Fixpoint pass_agents (rd : RoomReading) (turns : nat → Turn) (n : nat) (owned : list AgentState) (s : PassState) : PassState :=
  match owned with
  | [] => s
  | agent :: owned => pass_agents rd turns (S n) owned (scheduler_pass_for_agent rd agent (turns n) s)
  end.

(** ** One room, and the pass *)

Definition runnable_candidate (owned : list AgentState) (task : TaskState) : bool :=
  ((task.(ts_state) =s STATE_PENDING) || (task.(ts_state) =s STATE_ASSIGNED))
  && existsb (λ a, a.(as_agent_id) =s task.(ts_assigned_to)) owned.
Definition room_verification (env : PassEnv) (local_user : string) (policy : Policy) (trust : TrustStore) (room_id : string)
    (keys : gmap string VerifyingKey) : DecisionVerification :=
  {| dv_local_user := local_user;
     dv_approvers := match (rooms policy) !! room_id with Some r => list_to_set r.(rm_approvers) | None => ∅ end;
     dv_verifying_keys := keys; dv_trust := trust; dv_now_unix := env.(pe_now) |}.
(** What the room and the daemon's files say, with the agents the daemon owns there; [None]
    when the room is passed over. *)
Definition read_room (env : PassEnv) (local_user : string) (policy : Policy) (room : PassRoom) : option (RoomReading * list AgentState) :=
  match read_all_agent_states room.(rr_agents) with
  | Err _ => None
  | Ok agents =>
    match owned_agents agents local_user with
    | [] => None
    | owned =>
      let keys := resolve_verifying_keys agents in
      match read_tasks room.(rr_tasks) {| lo_state := None; lo_assigned_to := None |} with
      | Err _ => None
      | Ok snapshot =>
        let trust := default [] env.(pe_trust) in
        let decisions :=
          if existsb (runnable_candidate owned) snapshot then
            match room.(rr_timeline) with
            | Some events => read_verified_approval_decisions (take APPROVAL_DECISIONS_SCAN_LIMIT events)
                               (room_verification env local_user policy trust room.(rr_id) keys)
            | None => ∅
            end
          else ∅ in
        Some ({| rd_room_id := room.(rr_id); rd_policy := policy; rd_trust := trust; rd_keys := keys; rd_snapshot := snapshot;
                 rd_decisions := decisions; rd_expires_at := approval_request_expiry env.(pe_now) APPROVAL_REQUEST_TTL;
                 rd_now := env.(pe_now) |}, owned)
      end
    end
  end.
Definition pass_room (env : PassEnv) (local_user : string) (policy : Policy) (s : PassState) (room : PassRoom) : PassState :=
  match read_room env local_user policy room with
  | None => s
  | Some (rd, owned) =>
    let s := pass_agents rd room.(rr_turn) 0 owned s in
    let '(q, live) := sweep_expired_live_holds env.(pe_live) room.(rr_id) s.(ps_queue) env.(pe_now) s.(ps_live) in
    {| ps_memory := s.(ps_memory); ps_fs := s.(ps_fs); ps_queue := q; ps_dispatcher := s.(ps_dispatcher); ps_live := live |}
  end.
Definition pass_policy (env : PassEnv) : Policy := (PolicyLoad.resolve_policy_for_enforcement regex_new toml show_policy env.(pe_env) env.(pe_read)).1.
(** The queue is loaded at the start and saved at the end if the pass changed it. *)
Definition scheduler_pass (env : PassEnv) (s : PassState) : PassState :=
  let local_user := default "" env.(pe_user) in
  if local_user =s "" then s
  else
    let before := default [] s.(ps_live).(ls_queue) in
    let s := {| ps_memory := s.(ps_memory); ps_fs := s.(ps_fs); ps_queue := before; ps_dispatcher := s.(ps_dispatcher); ps_live := s.(ps_live) |} in
    let s := foldl (pass_room env local_user (pass_policy env)) s env.(pe_rooms) in
    let live := env.(pe_meanwhile) s.(ps_live) in
    let live := if negb (bool_decide (s.(ps_queue) = before)) && env.(pe_save_ok) then LiveHandlers.set_queue (Some s.(ps_queue)) live else live in
    {| ps_memory := s.(ps_memory); ps_fs := s.(ps_fs); ps_queue := s.(ps_queue); ps_dispatcher := s.(ps_dispatcher); ps_live := live |}.
(** The iterations of [run_scheduler_loop], as many as [running] lasts. *)
Definition loop_iteration (s : PassState) (env : PassEnv) : PassState :=
  scheduler_pass env {| ps_memory := trim_memory s.(ps_memory); ps_fs := s.(ps_fs); ps_queue := s.(ps_queue); ps_dispatcher := s.(ps_dispatcher); ps_live := s.(ps_live) |}.
Definition run_scheduler_loop (passes : list PassEnv) (s : PassState) : PassState := foldl loop_iteration s passes.
End pass.

(** [sleep_interruptible], in milliseconds: how long it sleeps when the [k]th check of
    [running] finds [running k].  A step is at most 100 milliseconds. *)
Definition SLEEP_STEP : Z := 100.
Fixpoint sleep_loop (fuel : nat) (running : nat → bool) (k : nat) (remaining : Z) : Z :=
  match fuel with
  | O => 0
  | S fuel =>
    if (0 <? remaining) && running k then
      let chunk := Z.min remaining SLEEP_STEP in chunk + sleep_loop fuel running (S k) (Z.max 0 (remaining - chunk))
    else 0
  end%Z.
Definition sleep_interruptible (delay : Z) (running : nat → bool) : Z := sleep_loop (S (Z.to_nat (delay / SLEEP_STEP))) running 0 delay.
Lemma sleep_loop_spec running fuel : ∀ k remaining, (0 ≤ remaining ≤ SLEEP_STEP * Z.of_nat fuel)%Z →
  (∀ m, (k ≤ m) → running m = false → (∀ j, k ≤ j < m → running j = true) →
     sleep_loop fuel running k remaining = Z.min remaining (SLEEP_STEP * Z.of_nat (m - k))) ∧
  ((∀ j, k ≤ j → running j = true) → sleep_loop fuel running k remaining = remaining).
Proof.
  induction fuel as [|fuel IH]; intros k r Hr; cbn [sleep_loop]; [unfold SLEEP_STEP in *; split; intros; lia|].
  destruct (0 <? r)%Z eqn:Hp; cbn [andb]; [apply Z.ltb_lt in Hp|apply Z.ltb_ge in Hp; unfold SLEEP_STEP in *; split; intros; lia].
  destruct (IH (S k) (Z.max 0 (r - Z.min r SLEEP_STEP))) as [IH1 IH2]; [unfold SLEEP_STEP in *; lia|]. split.
  - intros m Hm Hf Hj. destruct (running k) eqn:Ek.
    + assert (m ≠ k) by congruence. rewrite (IH1 m); [unfold SLEEP_STEP in *; lia|lia|done|]. intros j ?. apply Hj. lia.
    + assert (m = k) as ->; [|unfold SLEEP_STEP in *; lia].
      destruct (base.decide (m = k)); [done|]. rewrite Hj in Ek by lia. done.
  - intros Hj. rewrite Hj by lia. rewrite IH2; [unfold SLEEP_STEP in *; lia|]. intros j ?. apply Hj. lia.
Qed.
(** The loop sleeps the whole interval, or stops at the first check that finds it told to end,
    at most a step after that happened. *)
Theorem sleep_wakes_early delay running :
  (0 ≤ delay)%Z →
  (∀ m, running m = false → (∀ j, j < m → running j = true) → sleep_interruptible delay running = Z.min delay (SLEEP_STEP * Z.of_nat m)) ∧
  ((∀ j, running j = true) → sleep_interruptible delay running = delay).
Proof.
  intros Hd. unfold sleep_interruptible. destruct (sleep_loop_spec running (S (Z.to_nat (delay / SLEEP_STEP))) 0 delay) as [H1 H2].
  { unfold SLEEP_STEP. pose proof (Z.mod_pos_bound delay 100 ltac:(lia)). pose proof (Z.div_mod delay 100 ltac:(lia)). pose proof (Z.div_pos delay 100 Hd ltac:(lia)). lia. }
  split; [intros m Hm Hj; rewrite (H1 m); [by rewrite Nat.sub_0_r|lia|done|]; intros j ?; apply Hj; lia|intros Hj; by apply H2].
Qed.

(** ** The gate answers from the verified decisions *)

Definition answers (res : string → option ApprovalDecision) {S D C : Type} (w : @World S D QueueApprovalGate C) : Prop :=
  ∀ g, w.(w_gate) = Some g → g.(qg_resolve_decision) = res.
Section gate_kept.
Context `{Crypto} {Store D Cache : Type} `{!TaskStore Store, !TaskDispatcher D, !NonceGuard Cache, !NonceGuardLaws Cache}.
Context (afv : Value → option TaskAction) (regex_new : RegexNew) (debug_str : string → string) (res : string → option ApprovalDecision).
Abbreviation GateWorld := (@World Store D QueueApprovalGate Cache).
Lemma evaluate_answers now task action g (c : option Cache) d g' c' :
  queue_evaluate now task action (g, c) = (d, (g', c')) → g'.(qg_resolve_decision) = g.(qg_resolve_decision).
Proof. unfold queue_evaluate, admit_decision_nonce. intros He. by crush_match. Qed.
Lemma compensate_answers g (c : option Cache) g' c' : queue_compensate (g, c) = (g', c') → g'.(qg_resolve_decision) = g.(qg_resolve_decision).
Proof. unfold queue_compensate. intros He. by crush_match. Qed.
(** An approval comes from a decision that permits the run. *)
Lemma evaluate_approved now task action g (c : option Cache) gc :
  queue_evaluate now task action (g, c) = (Approved, gc) →
  ∃ d, g.(qg_resolve_decision) ("approval:" +:+ task.(ts_task_id)) = Some d ∧ decision_permits_spawn d = true.
Proof.
  unfold queue_evaluate. cbn [task_approval_request apr_request_id]. destruct (qg_resolve_decision g _) as [d|]; [|intros He; by crush_match].
  destruct (decision_permits_spawn d) eqn:Hd; [|done]. eauto.
Qed.
Lemma same_gate (w w' : GateWorld) : w'.(w_gate) = w.(w_gate) → answers res w → answers res w'.
Proof. unfold answers. by intros ->. Qed.
Lemma resolve_answers self now now_unix task action inv (w w' : GateWorld) r :
  resolve_approval debug_str self now now_unix task action inv w = (r, w') → answers res w → answers res w'.
Proof.
  unfold resolve_approval. intros Hv Ha. destruct (w_gate w) as [g|] eqn:Hg; [|by simplify_eq].
  destruct (gate_evaluate now_unix task action (g, w_cache w)) as [d [g' c1]] eqn:He. apply evaluate_answers in He.
  assert (answers res (set_gate w (Some g') c1)) as Ha'. { intros x [= <-]. rewrite He. by apply Ha. }
  destruct d; try (injection Hv as _ <-; exact Ha');
    unfold block_approval_denied, block_approval_expired in Hv; apply finalize_blocked_err in Hv as (_ & _ & Hg' & _); by eapply same_gate.
Qed.
Lemma compensated_answers action allowance (w : GateWorld) : answers res w → answers res (compensate action allowance w).
Proof.
  intros Ha. unfold compensate. set (w0 := match w_cache w with Some _ => _ | None => w end).
  assert (w0.(w_gate) = w.(w_gate)) as Hg by (subst w0; by repeat case_match). apply (same_gate _ w0 Hg) in Ha.
  destruct (al_requires_approval allowance); [|done]. destruct (w_gate w0) as [g|] eqn:Hg0; [|done].
  destruct (compensate_lost_claim (g, w_cache w0)) as [g' c'] eqn:Hc. intros x [= <-].
  rewrite (compensate_answers _ _ _ _ Hc). by apply Ha.
Qed.
Lemma prepare_answers self now now_unix task all inv (w w' : GateWorld) r :
  prepare afv regex_new debug_str self now now_unix task all inv w = (r, w') → answers res w → answers res w'.
Proof.
  unfold prepare, fail. intros Hp Ha. destruct (negb (is_assigned self task)); [by simplify_eq|]. destruct (negb (is_runnable _)); [by simplify_eq|].
  destruct (unmet_dependencies _ _); [|by simplify_eq]. destruct (action_from_task afv task) as [action|]; [|by simplify_eq].
  apply bind_inv in Hp as [(e & Hv & ->)|([] & w0 & Hv & Hp)]; apply verify_spec in Hv as (_ & Hg & _); apply (same_gate _ _ Hg) in Ha; [done|].
  apply bind_inv in Hp as [(e & Hv & ->)|(allowance & w1 & Hv & Hp)]; apply authorize_spec in Hv as (_ & Hg1 & _); apply (same_gate _ _ Hg1) in Ha; [done|].
  apply bind_inv in Hp as [(e & Hv & ->)|([] & w2 & Hv & Hp)].
  - destruct (al_requires_approval allowance); [by eapply resolve_answers|by injection Hv as _ <-].
  - assert (answers res w2) as Ha2 by (destruct (al_requires_approval allowance); [by eapply resolve_answers|by injection Hv as <-]).
    apply bind_inv in Hp as [(e & Hr & ->)|([] & w3 & Hr & Hp)]; apply replay_spec in Hr as (_ & Hg3 & _); apply (same_gate _ _ Hg3) in Ha2; [exact Ha2|].
    unfold run_claim in Hp. destruct (claim _ _) as [[t|err] st]; [injection Hp as _ <-; exact Ha2|].
    destruct err; injection Hp as _ <-; [apply compensated_answers|..]; exact Ha2.
Qed.
Lemma process_answers self now now_unix task all inv (w w' : GateWorld) o :
  process_one afv regex_new debug_str self now now_unix task all inv w = (o, w') → answers res w → answers res w'.
Proof.
  unfold process_one. intros Hp Ha. destruct (prepare _ _ _ _ _ _ _ _ _ w) as [[[[action allowance] claimed]|e] w1] eqn:E;
    apply prepare_answers in E; try done; [|by injection Hp as _ <-].
  destruct (dispatch _ _ _ _ _) as [dr d]. destruct (dispatch_terminal _ _ _ _ _) as [term v]. unfold run_finalize in Hp.
  destruct (finalize _ _) as [[t|err] st]; [|by injection Hp as _ <-]. destruct (_ && _); by injection Hp as _ <-.
Qed.
End gate_kept.

(** ** What a pass runs *)

Section ran.
Context `{Crypto} `{RequestSerde}.
Context (regex_new : RegexNew) (toml : string → result Policy string) (show_policy : PolicyError → string).
Context (afv : Value → option TaskAction) (debug_str : string → string) (text : WorkspaceError → string).
Context (hash_iter : gmap string Z → list (string * Z)) (to_vec : StoredCache → string) (from_slice : string → option StoredCache).
Context (hash_iter_perm : ∀ m, hash_iter m ≡ₚ map_to_list m) (generate : nat → string).
Context {T E MT ME : Type} `{!TaskDispatcher T, !TaskDispatcher E, !TaskDispatcher MT, !TaskDispatcher ME}.
Context (mode : TaskDispatchMode).
Abbreviation Disp := ((T * E) * (MT * ME))%type.
#[local] Hint Extern 0 (NonceGuard Guard) => exact (pass_guard hash_iter to_vec) : typeclass_instances.
#[local] Hint Extern 0 (TaskDispatcher Disp) => exact (mode_dispatcher mode) : typeclass_instances.
#[local] Instance pass_guard_laws : NonceGuardLaws Guard := cache_guard_laws hash_iter hash_iter_perm to_vec.
Abbreviation orchestrator_of rd agent :=
  (build_scheduler_orchestrator agent.(as_agent_id) rd.(rd_room_id) rd.(rd_policy) rd.(rd_trust) rd.(rd_keys)).

(** The grounds on which an agent's tick runs an action: the task is in the snapshot and
    passes the orchestrator's gates, and a required approval is a verified decision. *)
Record scheduled (rd : RoomReading) (agent : AgentState) (task : TaskState) (action : TaskAction) (allowance : Allowance) : Prop := {
  sr_task : task ∈ rd.(rd_snapshot);
  sr_gates : gates_passed afv regex_new (orchestrator_of rd agent) task rd.(rd_snapshot) action allowance;
  sr_approved : allowance.(al_requires_approval) = true →
    ∃ d, rd.(rd_decisions) !! ("approval:" +:+ task.(ts_task_id)) = Some d ∧ decision_permits_spawn d = true;
}.
(** One action handed to the dispatcher, after its claim. *)
Definition runs (rd : RoomReading) (agent : AgentState) (d d' : Disp) : Prop := ∃ task action allowance inv claimed now store,
  scheduled rd agent task action allowance ∧
  (store_apply text now (claim_options agent.(as_agent_id) task inv) store).1 = Ok claimed ∧
  d' = (dispatch claimed action inv allowance d).2.

Lemma reconcile_one_kept {S D C : Type} `{!TaskStore S} self now live invs task (w : @World S D QueueApprovalGate C) :
  let w' := (reconcile_one debug_str self now live invs task w).2 in w'.(w_dispatcher) = w.(w_dispatcher) ∧ w'.(w_gate) = w.(w_gate).
Proof.
  unfold reconcile_one, reconcile_terminal_invocation, recover_stale_executing, run_finalize. repeat (case_match; simplify_eq/=); done.
Qed.
Lemma reconcile_kept {S D C : Type} `{!TaskStore S} self now live invs tasks : ∀ (w : @World S D QueueApprovalGate C) os w',
  reconcile_loop debug_str self now live invs tasks w = (os, w') → w'.(w_dispatcher) = w.(w_dispatcher) ∧ w'.(w_gate) = w.(w_gate).
Proof.
  induction tasks as [|task tasks IH]; intros w os w'; cbn [reconcile_loop]; [by intros [= <- <-]|].
  pose proof (reconcile_one_kept self now live invs task w) as Hk. destruct (reconcile_one _ _ _ _ _ _ w) as [o w1]. cbn in Hk.
  destruct (reconcile_loop _ _ _ _ _ _ w1) as [os1 w2] eqn:El. intros [= <- <-]. apply IH in El as [-> ->]. done.
Qed.

Section turn.
Context (rd : RoomReading) (agent : AgentState) (turn : Turn).
#[local] Hint Extern 0 (TaskStore MatrixStore) => exact (matrix_task_store text turn.(tu_now)) : typeclass_instances.
Abbreviation AgentWorld := (@World MatrixStore Disp QueueApprovalGate Guard).
Abbreviation resolver := (λ rid, rd.(rd_decisions) !! rid).
Lemma process_runs task inv (w w' : AgentWorld) o :
  process_one afv regex_new debug_str (orchestrator_of rd agent) turn.(tu_now) turn.(tu_now_unix) task rd.(rd_snapshot) inv w = (o, w') →
  task ∈ rd.(rd_snapshot) → answers resolver w → rtc (runs rd agent) w.(w_dispatcher) w'.(w_dispatcher) ∧ answers resolver w'.
Proof using hash_iter_perm.
  intros Hp Ht Ha. split; [|by eapply process_answers].
  apply process_spec in Hp as [[-> _]|(action & allowance & claimed & w2 & Hadm & Hcl & Hd & _)]; [done|]. rewrite Hd. apply rtc_once.
  exists task, action, allowance, inv, claimed, turn.(tu_now), w.(w_store). split_and!; [|exact Hcl|done].
  split; [done|apply Hadm|]. intros Hq. destruct (ad_approved _ _ _ _ _ _ _ _ _ _ Hadm Hq) as (g & g' & c1 & Hg & _ & He).
  apply evaluate_approved in He as (d & Hd' & Hs). rewrite (Ha g Hg) in Hd'. eauto.
Qed.
Lemma tick_loop_runs ids : ∀ m (w : AgentWorld) log m' w',
  tick_loop afv regex_new debug_str generate (orchestrator_of rd agent) turn.(tu_now) turn.(tu_now_unix) rd.(rd_snapshot) ids m w = (log, m', w') →
  answers resolver w → rtc (runs rd agent) w.(w_dispatcher) w'.(w_dispatcher).
Proof using hash_iter_perm.
  induction ids as [|id ids IH]; intros m w log m' w'; cbn [tick_loop]; [by intros [= _ _ <-]|].
  destruct (List.find _ _) as [task|] eqn:Ef; [|apply IH]. apply List.find_some in Ef as [Hin _]. apply list_elem_of_In in Hin.
  case_bool_decide; [apply IH|]. destruct (process_one _ _ _ _ _ _ _ _ _ w) as [o w1] eqn:Ep.
  destruct (tick_loop _ _ _ _ _ _ _ _ _ _ w1) as [[rest m1] w2] eqn:El. intros [= _ _ <-] Ha.
  destruct (process_runs _ _ _ _ _ Ep Hin Ha) as [Hr Ha1]. etrans; [exact Hr|]. by eapply IH.
Qed.
End turn.

Lemma agent_pass_runs rd agent turn s :
  rtc (runs rd agent) s.(ps_dispatcher)
    (scheduler_pass_for_agent regex_new afv debug_str text hash_iter to_vec from_slice generate mode rd agent turn s).(ps_dispatcher).
Proof using hash_iter_perm.
  unfold scheduler_pass_for_agent. destruct (load_pass_replay_cache _ _ _) as [fs [cache|]]; [|done].
  unfold agent_tick, run_scheduler_tick. set (w := agent_world _ _ _ _ _).
  destruct (reconcile_executing_tasks _ _ _ _ _ _ w) as [rec w1] eqn:Er. apply reconcile_kept in Er as [Hd Hg].
  destruct (tick_loop _ _ _ _ _ _ _ _ _ _ w1) as [[log m] w2] eqn:El. cbn [ps_dispatcher].
  change (ps_dispatcher s) with (w_dispatcher w). rewrite <- Hd. eapply tick_loop_runs; [exact El|].
  intros g Hg'. rewrite Hg in Hg'. by injection Hg' as <-.
Qed.

(** ** What it reads *)

Lemma read_contents_elem {A} (raws : list (StateEvent A)) l x : read_contents raws = Ok l → x ∈ l → ∃ id, Content x id ∈ raws.
Proof.
  revert l. induction raws as [|[y id| |] raws IH]; intros l; cbn [read_contents]; [by intros [= <-] ?%not_elem_of_nil|..].
  - destruct (read_contents raws) as [ys|]; [|done]. intros [= <-] [->|Hx]%elem_of_cons; [exists id; left|].
    destruct (IH ys eq_refl Hx) as [id' ?]. exists id'. by right.
  - intros Hl Hx. destruct (IH l Hl Hx) as [id' ?]. exists id'. by right.
  - done.
Qed.
Lemma read_tasks_elem raws o tasks x : read_tasks raws o = Ok tasks → x ∈ tasks → ∃ id, Content x id ∈ raws.
Proof.
  unfold read_tasks, read_all_task_states. destruct (read_contents raws) as [ts|] eqn:Er; [|done]. intros [= <-].
  rewrite sort_by_perm. intros Hx. apply list_elem_of_In, List.filter_In in Hx as [Hx _]. apply list_elem_of_In in Hx. by eapply read_contents_elem.
Qed.
(** A key comes from an agent state of the room that publishes it under its id. *)
Lemma resolved_key agents k key : resolve_verifying_keys agents !! k = Some key →
  ∃ signer, signer ∈ agents ∧ signer.(as_signing_key_id) = k ∧ verifying_key_from_agent_state signer = Some key.
Proof.
  unfold resolve_verifying_keys. induction agents as [|a agents IH] using rev_ind; [cbn [foldl]; by rewrite lookup_empty|].
  rewrite foldl_app. cbn [foldl]. assert (∀ P : AgentState → Prop, (∃ s, s ∈ agents ∧ P s) → ∃ s, s ∈ agents ++ [a] ∧ P s) as Hmono.
  { intros P (s & Hs & HP). exists s. split; [|done]. apply elem_of_app. by left. }
  destruct (as_signing_key_id a =s ""); [intros Hl; by apply Hmono, IH|].
  destruct (verifying_key_from_agent_state a) as [ka|] eqn:Ea; [|intros Hl; by apply Hmono, IH].
  destruct (base.decide (as_signing_key_id a = k)) as [<-|Hne]; [|rewrite lookup_insert_ne by done; intros Hl; by apply Hmono, IH].
  rewrite lookup_insert_eq. intros [= <-]. exists a. split_and!; [|done|done]. apply elem_of_app. right. by apply list_elem_of_singleton.
Qed.
Abbreviation in_force env := (PolicyLoad.policy_in_force regex_new toml env.(pe_env) env.(pe_read)).
Lemma allowed_in_force env room_id task action allowance :
  evaluate_task_action regex_new (pass_policy regex_new toml show_policy env) room_id task action = Allow allowance → in_force env (pass_policy regex_new toml show_policy env).
Proof.
  unfold evaluate_task_action. destruct action.
  - unfold evaluate_call. destruct (lookup_rules _ _ _) as [rules|] eqn:El; [|done]. intros _. by eapply PolicyLoad.enforced_rules.
  - unfold evaluate_exec. destruct (lookup_rules _ _ _) as [rules|] eqn:El; [|done]. intros _. by eapply PolicyLoad.enforced_rules.
Qed.
Lemma untrusting k : is_key_trusted [] k = false.
Proof. done. Qed.

(** The grounds of a run, in terms of what the pass was given: an agent of this account,
    published in a joined room; a task of the room assigned to it, runnable, its dependencies
    done; an action signed for it under a key that an agent of the room publishes and the
    trust store trusts; a valid policy file that allows it; and where it asks for an approval,
    a verified one on the room's recent timeline. *)
Record run_grounds (env : PassEnv) (room : PassRoom) (agents : list AgentState) (agent : AgentState) (task : TaskState) (action : TaskAction)
    (allowance : Allowance) : Prop := {
  rg_room : room ∈ env.(pe_rooms) ∧ read_all_agent_states room.(rr_agents) = Ok agents;
  rg_owner : agent ∈ agents ∧ env.(pe_user) = Some agent.(as_matrix_user_id) ∧ agent.(as_matrix_user_id) ≠ "";
  rg_task : (∃ id, Content task id ∈ room.(rr_tasks)) ∧ task.(ts_assigned_to) = agent.(as_agent_id) ∧ is_runnable task.(ts_state) = true;
  rg_deps : ∀ dep, dep ∈ task.(ts_depends_on) → ∃ t id, Content t id ∈ room.(rr_tasks) ∧ t.(ts_task_id) = dep ∧ t.(ts_state) = TaskLifecycle.STATE_SUCCEEDED;
  rg_action : action_from_task afv task = Ok action;
  rg_signed : ∃ trust auth signer key, env.(pe_trust) = Some trust ∧ authorization action = Some auth ∧
    auth.(taa_target_agent) = agent.(as_agent_id) ∧ is_key_trusted trust auth.(taa_signature).(sig_key_id) = true ∧
    signer ∈ agents ∧ signer.(as_signing_key_id) = auth.(taa_signature).(sig_key_id) ∧ verifying_key_from_agent_state signer = Some key ∧
    verify_task_action_signature key task.(ts_task_id) action auth = Ok tt;
  rg_policy : in_force env (pass_policy regex_new toml show_policy env) ∧
    evaluate_task_action regex_new (pass_policy regex_new toml show_policy env) room.(rr_id) task action = Allow allowance;
  rg_approved : allowance.(al_requires_approval) = true → ∃ events ev d,
    room.(rr_timeline) = Some events ∧ ev ∈ take APPROVAL_DECISIONS_SCAN_LIMIT events ∧
    ev.(tl_type) = Some APPROVAL_DECISION ∧ ev.(tl_decision) = Some d ∧ d.(apd_request_id) = "approval:" +:+ task.(ts_task_id) ∧
    decision_permits_spawn d = true ∧
    decision_verified d (default "" ev.(tl_sender)) (room_verification env (default "" env.(pe_user)) (pass_policy regex_new toml show_policy env)
      (default [] env.(pe_trust)) room.(rr_id) (resolve_verifying_keys agents));
}.
Definition authorized_run (env : PassEnv) (d d' : Disp) : Prop := ∃ room agents agent task action allowance inv claimed now store,
  run_grounds env room agents agent task action allowance ∧
  (store_apply text now (claim_options agent.(as_agent_id) task inv) store).1 = Ok claimed ∧
  d' = (dispatch claimed action inv allowance d).2.

Abbreviation policy_of env := (pass_policy regex_new toml show_policy env).
Lemma collected events ctx rid d : read_verified_approval_decisions events ctx !! rid = Some d →
  ∃ ev, ev ∈ events ∧ ev.(tl_type) = Some APPROVAL_DECISION ∧ ev.(tl_decision) = Some d ∧ d.(apd_request_id) = rid ∧ decision_verified d (default "" ev.(tl_sender)) ctx.
Proof.
  unfold read_verified_approval_decisions. rewrite collect_decisions_lookup, lookup_empty. cbn [opt_or].
  induction events as [|ev events IH]; csimpl; [done|]. destruct (event_decision rid ctx ev) as [d0|] eqn:Ed.
  - intros [= ->]. apply event_decision_Some in Ed as (? & ? & ? & ?). exists ev. split_and!; try done. left.
  - intros (ev' & ? & ?)%IH. exists ev'. split; [by right|done].
Qed.
Lemma room_grounds env local_user room rd owned agent d d' :
  room ∈ env.(pe_rooms) → local_user = default "" env.(pe_user) → local_user ≠ "" →
  read_room env local_user (policy_of env) room = Some (rd, owned) → agent ∈ owned → runs rd agent d d' → authorized_run env d d'.
Proof.
  intros Hroom Hu Hne. unfold read_room. destruct (read_all_agent_states _) as [agents|] eqn:Ea; [|done].
  destruct (owned_agents agents local_user) as [|o os] eqn:Eo; [done|]. destruct (read_tasks _ _) as [snapshot|] eqn:Et; [|done].
  intros [= <- <-]. rewrite <- Eo. intros Hin (task & action & allowance & inv & claimed & now & store & [Hs Hg Hq] & Hcl & Hd).
  unfold owned_agents in Hin. apply list_elem_of_In, List.filter_In in Hin as [Hin Hown%str_eqb_eq]. apply list_elem_of_In in Hin.
  exists room, agents, agent, task, action, allowance, inv, claimed, now, store. split_and!; [|done|done].
  cbn [rd_snapshot rd_decisions rd_trust rd_keys rd_policy rd_room_id] in *. destruct Hg as [Has Hrun Hdeps Hact Hsig Hpol].
  cbn [build_scheduler_orchestrator to_agent_id to_trust_store to_verifying_keys to_policy to_room_id] in *. split; try done.
  - split_and!; [done| |by rewrite Hown]. rewrite Hown, Hu. subst local_user. by destruct (pe_user env).
  - split_and!; [by eapply read_tasks_elem|done|done].
  - intros dep (t & Ht & Hdep & Hst)%Hdeps. destruct (read_tasks_elem _ _ _ _ Et Ht) as [id ?]. by exists t, id.
  - destruct (Hsig _ eq_refl) as (auth & key & Hauth & Htarget & Htr & Hkey & Hv). destruct (resolved_key _ _ _ Hkey) as (signer & ? & ? & ?).
    destruct (pe_trust env) as [trust|]; [|done]. by exists trust, auth, signer, key.
  - destruct Hpol as (? & [= <-] & Hp). split; [by eapply allowed_in_force|done].
  - intros (dc & Hdc & Hperm)%Hq. destruct (existsb _ _); [|done]. destruct (rr_timeline room) as [events|]; [|done].
    apply collected in Hdc as (ev & ? & ? & ? & ? & ?). subst local_user. by exists events, ev, dc.
Qed.

(** ** The whole pass *)

Abbreviation for_agent := (scheduler_pass_for_agent regex_new afv debug_str text hash_iter to_vec from_slice generate mode).
Lemma agents_run rd turns owned : ∀ n s, 
  rtc (λ d d', ∃ agent, agent ∈ owned ∧ runs rd agent d d') s.(ps_dispatcher)
    (pass_agents regex_new afv debug_str text hash_iter to_vec from_slice generate mode rd turns n owned s).(ps_dispatcher).
Proof using hash_iter_perm.
  induction owned as [|agent owned IH]; intros n s; cbn [pass_agents]; [done|]. etrans.
  - eapply (rtc_subrel (runs rd agent)), agent_pass_runs. intros d d' Hr. exists agent. split; [left|done].
  - eapply rtc_subrel, IH. intros d d' (a & Ha & Hr). exists a. split; [by right|done].
Qed.
Abbreviation one_room := (pass_room regex_new afv debug_str text hash_iter to_vec from_slice generate mode).
Lemma room_runs env s room :
  room ∈ env.(pe_rooms) → default "" env.(pe_user) ≠ "" →
  rtc (authorized_run env) s.(ps_dispatcher) (one_room env (default "" env.(pe_user)) (policy_of env) s room).(ps_dispatcher).
Proof using hash_iter_perm.
  intros Hroom Hne. unfold pass_room. destruct (read_room _ _ _ _) as [[rd owned]|] eqn:Er; [|done].
  destruct (sweep_expired_live_holds _ _ _ _ _) as [q live]. cbn [ps_dispatcher].
  eapply rtc_subrel, agents_run. intros d d' (agent & Ha & Hr). by eapply room_grounds.
Qed.
Abbreviation pass := (scheduler_pass regex_new toml show_policy afv debug_str text hash_iter to_vec from_slice generate mode).
Lemma pass_runs env s : rtc (authorized_run env) s.(ps_dispatcher) (pass env s).(ps_dispatcher).
Proof using hash_iter_perm.
  unfold scheduler_pass. destruct (default "" (pe_user env) =s "") eqn:Hu; [done|]. apply str_eqb_neq in Hu. cbn [ps_dispatcher].
  set (s0 := Build_PassState _ _ _ _ _). change (ps_dispatcher s) with (ps_dispatcher s0). generalize s0. clear s0.
  assert (∀ rooms s0, (∀ r, r ∈ rooms → r ∈ env.(pe_rooms)) →
    rtc (authorized_run env) (ps_dispatcher s0) (ps_dispatcher (foldl (one_room env (default "" env.(pe_user)) (policy_of env)) s0 rooms))) as Hf.
  { induction rooms as [|room rooms IH]; intros s0 Hr; cbn [foldl]; [done|]. etrans; [apply (room_runs env s0 room); [apply Hr; left|done]|].
    apply IH. intros r Hin. apply Hr. by right. }
  intros s0. by apply Hf.
Qed.

(** C3: Whatever the rooms, the files and the other threads do, over any number of iterations of the
    scheduler loop everything that is handed to a dispatcher, in-process or remote, is
    handed to it on these grounds: the daemon's own account runs the agent, in a joined room; the
    task is the room's, assigned to that agent, runnable, and its dependencies succeeded; the
    action is signed for the agent under a key that an agent of the room publishes and the
    local trust store trusts; the policy file is valid and allows it; a required approval is
    an approving decision on the room's recent timeline that passes every check; and the
    claim was won. *)
Theorem scheduler_runs_authorized passes s :
  rtc (λ d d', ∃ env, env ∈ passes ∧ authorized_run env d d') s.(ps_dispatcher)
    (run_scheduler_loop regex_new toml show_policy afv debug_str text hash_iter to_vec from_slice generate mode passes s).(ps_dispatcher).
Proof using hash_iter_perm.
  unfold run_scheduler_loop. revert s. induction passes as [|env passes IH]; intros s; cbn [foldl]; [done|]. etrans.
  - eapply (rtc_subrel (authorized_run env)); [|apply (pass_runs env {| ps_memory := trim_memory s.(ps_memory); ps_fs := s.(ps_fs); ps_queue := s.(ps_queue);
      ps_dispatcher := s.(ps_dispatcher); ps_live := s.(ps_live) |})]. intros d d' Hr. exists env. split; [left|done].
  - eapply rtc_subrel, IH. intros d d' (e & He & Hr). exists e. split; [by right|done].
Qed.
End ran.

(** A room where the account's agent has one task, signed under a trusted key and approved by
    the operator; the policy asks for that approval. *)
Module PassExample.
#[local] Existing Instance Signing.Toy.toy_crypto.
#[local] Instance serde : RequestSerde :=
  {| exec_request_from_value _ := None; call_request_from_value _ := None; exec_cancel_from_value _ := None |}.
Definition key_id : string := Approval.Sample.key_id.
Definition agent : AgentState :=
  {| as_agent_id := "agent-b"; as_kind := "pi"; as_matrix_user_id := "@op:s"; as_device_id := "D"; as_signing_key_id := key_id;
     as_signing_public_key := Some Signing.Toy.key_bytes; as_status := "active"; as_capabilities := []; as_tools := [];
     as_workspace := {| aw_cwd := "/"; aw_project_id := ""; aw_git_commit := "" |};
     as_load := {| al_running_invocations := 0; al_max_invocations := 1 |}; as_last_seen_ts := 0; as_state_rev := 1; as_extra := ∅ |}.
Definition action : TaskAction :=
  match sign_task_action (H := Signing.Toy.toy_crypto) tt key_id "t1" Signing.Toy.action "@a:s" "agent-b"
          "2026-01-01T00:00:00Z" "2026-01-02T00:00:00Z" "n1" with
  | Ok auth => with_authorization Signing.Toy.action auth
  | Err _ => Signing.Toy.action
  end.
Definition task : TaskState := build_new_task (TaskLifecycle.Sample.create (Some action)) "t1" "@a:s" "2026-01-01T00:00:00Z".
Definition decision : ApprovalDecision :=
  let unsigned := {| apd_request_id := "approval:t1"; apd_decision := DECISION_APPROVED; apd_approved_by := "@op:s";
    apd_created_at := "2026-01-01T00:00:00Z"; apd_nonce := Some "dn"; apd_expires_at := Some "2026-06-02T12:05:00Z"; apd_signature := None; apd_extra := ∅ |} in
  match sign_approval_decision (H := Signing.Toy.toy_crypto) tt key_id unsigned with Ok d => d | Err _ => unsigned end.
Definition room (answers : list (option string)) : Room :=
  {| room_tasks := {["t1" := Content task (Some "$1")]}; room_invocations := ∅; room_cancels := []; room_answers := answers |}.
Definition turn : Turn :=
  {| tu_local := room []; tu_server := room [Some "$2"; Some "$3"]; tu_invocations := []; tu_rename_ok := true; tu_io := []; tu_loaded_at := 1000;
     tu_now := "2026-01-01T00:00:00Z"; tu_now_unix := 1000 |}.
Definition joined_room : PassRoom :=
  {| rr_id := "!r"; rr_agents := [Content agent None]; rr_tasks := [Content task (Some "$1")];
     rr_timeline := Some [{| tl_type := Some APPROVAL_DECISION; tl_sender := Some "@op:s"; tl_decision := Some decision |}]; rr_turn := λ _, turn |}.
Definition live_env : LiveEnv :=
  {| en_auth := {| au_read_agent := λ _, Ok None; au_trust := None; au_policy := Policy_default; au_sender_verified := λ _, None |};
     en_room_available := true; en_local_user := Some "@op:s"; en_signing_key := Some tt; en_all_agents := None; en_save_ok := true; en_reload_ok := true;
     en_now_unix := 1000; en_now := "t0"; en_now_running := "t1"; en_tool_result := λ _, Err "no tool" |}.
Definition env : PassEnv :=
  {| pe_user := Some "@op:s"; pe_env k := if k =s "HOME" then Some "/home/op" else None; pe_read _ := ReadOk "policy";
     pe_trust := Some (approve [] 0%Z "@a:s" key_id None None None).1; pe_now := 1000; pe_rooms := [joined_room]; pe_live := live_env;
     pe_meanwhile st := st; pe_save_ok := true |}.
Definition toml (s : string) : result Policy string := if s =s "policy" then Ok OrchestratorCorrect.Sample.policy else Err "expected =".
#[local] Instance log : TaskDispatcher (list TaskAction) := log_dispatcher OrchestratorCorrect.Sample.outcome_of.
Definition start : PassState (T := list TaskAction) (E := list TaskAction) (MT := list TaskAction) (ME := list TaskAction) :=
  {| ps_memory := mkMemory ∅ ∅ 0; ps_fs := mkFs Replay.Absent None; ps_queue := []; ps_dispatcher := (([], []), ([], []));
     ps_live := {| ls_controls := ∅; ls_queue := Some []; ls_router := None; ls_effects := [] |} |}.
Definition loop (passes : list PassEnv) : PassState :=
  run_scheduler_loop PolicyEngine.Sample.literal_regex toml (λ _, "") (λ _, None) id (λ _, "") sample_iter SampleCodec.to_vec SampleCodec.from_slice
    (λ n, if (n =? 0)%nat then "inv" else "inv2") DispatchLocal passes start.
(** Two passes over the same rooms: the action runs once. *)
Lemma runs_once : (loop [env; env]).(ps_dispatcher) = (([], [action]), ([], [])).
Proof. vm_compute. reflexivity. Qed.
Lemma scheduler_runs_authorized_witness :
  (loop [env; env]).(ps_dispatcher) = (([], [action]), ([], [])) ∧
  rtc (λ d d', ∃ e, e ∈ [env; env] ∧ authorized_run PolicyEngine.Sample.literal_regex toml (λ _, "") (λ _, None) (λ _, "") DispatchLocal e d d')
    start.(ps_dispatcher) (([], [action]), ([], [])).
Proof.
  split; [exact runs_once|]. rewrite <- runs_once.
  exact (scheduler_runs_authorized PolicyEngine.Sample.literal_regex toml (λ _, "") (λ _, None) id (λ _, "") sample_iter SampleCodec.to_vec SampleCodec.from_slice
    (λ m, reflexivity _) (λ n, if (n =? 0)%nat then "inv" else "inv2") DispatchLocal [env; env] start).
Defined.
End PassExample.
