(* ===== verification/Agents.v ===== *)
(** * Agents of a workspace

    Models [crates/mx-agent-daemon/src/agent.rs]: registering an agent in a room, which also
    trusts the daemon's own key, and the queries about the agents of a room; and the file of
    [trust.rs], over the disk of [DataDir].  The homeserver's answers about agents are the
    class [AgentServer], beside [MatrixServer]; the JSON of the trust file is [TrustSerde];
    clocks, randomness and runs of git are arguments. *)
From Stdlib Require Import ZArith Lia Ascii.
From stdpp Require Import gmap strings list.
From S2P Require Import Prelude RustStr CanonicalJson Schema Signing Trust Room TaskLifecycle Approval ResultPlane Presence ToolDispatch SyncLoop Workspace DataDir Console.
Local Open Scope Z_scope.

(** ** The trust file *)

Class TrustSerde := {
  trust_to_vec_pretty : TrustStore → string;
  trust_from_slice : string → option TrustStore;
}.
Class TrustSerdeLaws `{TrustSerde} : Prop := {
  trust_roundtrip s : trust_from_slice (trust_to_vec_pretty s) = Some s;
}.
Section trust_file.
Context `{TrustSerde} (paths : SessionPaths).
Definition trust_store_file : Path := child paths.(sp_data_dir) "trust.json".
Definition TrustStore_load : FM TrustStore :=
  on_not_found
    (let! bytes := fs_read trust_store_file in
     match trust_from_slice bytes with Some s => ret s | None => fail OtherIo end)
    (ret []).
Definition TrustStore_save (store : TrustStore) : FM unit :=
  let! _ := ensure_data_dir paths in
  write_private (child paths.(sp_data_dir) "trust.json.tmp") trust_store_file (trust_to_vec_pretty store).
(** The store that a file system holds, if it can be decoded. *)
Definition trust_at (fs : gmap Path Node) : option TrustStore :=
  match fs !! trust_store_file with Some (File _ content) => trust_from_slice content | Some (Dir _) => None | None => Some [] end.
End trust_file.

(** ** Registration *)

Definition DEFAULT_AGENT_KIND : string := "generic".
Definition DEFAULT_MAX_INVOCATIONS : Z := 1.
Definition default_register_options : RegisterAgentOptions :=
  {| rgo_room := ""; rgo_agent_id := None; rgo_kind := DEFAULT_AGENT_KIND; rgo_capabilities := []; rgo_tools := []; rgo_cwd := "";
     rgo_project_id := ""; rgo_max_invocations := DEFAULT_MAX_INVOCATIONS |}.
Definition derive_agent_id (matrix_user_id device_id : string) : string :=
  let localpart :=
    match strip_prefix "@" matrix_user_id with
    | Some rest => match split_on ":"%char rest with s :: _ => if s =s "" then matrix_user_id else s | [] => matrix_user_id end
    | None => matrix_user_id
    end in
  localpart +:+ "-" +:+ device_id.
(** Whether the store was changed, and the store. *)
Definition seed_local_key_trust (trust : TrustStore) (now : Z) (agent_id key_id fingerprint room trusted_by : string) : bool * TrustStore :=
  if match trust_entry trust agent_id key_id with Some e => bool_decide (e.(te_status) = Revoked) | None => false end then (false, trust)
  else if is_trusted trust agent_id key_id then (false, trust)
  else (true, (approve trust now agent_id key_id (Some fingerprint) (Some room) (Some trusted_by)).1).

Definition AgentWorkspace_value (w : AgentWorkspace) : Value :=
  Object [("cwd", Str w.(aw_cwd)); ("project_id", Str w.(aw_project_id)); ("git_commit", Str w.(aw_git_commit))].
Definition AgentLoad_value (l : AgentLoad) : Value :=
  Object [("running_invocations", Num (NumInt l.(al_running_invocations))); ("max_invocations", Num (NumInt l.(al_max_invocations)))].
Definition AgentState_value (a : AgentState) : Value :=
  Object ([("agent_id", Str a.(as_agent_id)); ("kind", Str a.(as_kind)); ("matrix_user_id", Str a.(as_matrix_user_id));
           ("device_id", Str a.(as_device_id)); ("signing_key_id", Str a.(as_signing_key_id))]
          ++ opt_field "signing_public_key" (λ x, Str x) a.(as_signing_public_key)
          ++ [("status", Str a.(as_status)); ("capabilities", strings_value a.(as_capabilities)); ("tools", strings_value a.(as_tools));
              ("workspace", AgentWorkspace_value a.(as_workspace)); ("load", AgentLoad_value a.(as_load));
              ("last_seen_ts", Num (NumInt a.(as_last_seen_ts))); ("state_rev", Num (NumInt a.(as_state_rev)))]
          ++ btree_iter a.(as_extra)).

(** The state events of agents, and a scan of the timeline: its pages, or [None] when it
    takes longer than [LIVENESS_ENRICHMENT_TIMEOUT]. *)
Class AgentServer (W : Type) := {
  sdk_get_agent_state : ∀ (me room_id agent_id : string), st W SdkError (option (StateEvent AgentState));
  sdk_get_agent_states : ∀ (me room_id : string), st W SdkError (list (StateEvent AgentState));
  sdk_scan : ∀ (me room_id : string), W → option (list (result (list PageEvent * bool) WorkspaceError)) * W;
}.
(** The account and device of the client. *)
Record Client := { cl_user_id : option string; cl_device_id : option string }.
Definition client_user (c : Client) : string := unwrap_or c.(cl_user_id) "".
(** The homeserver and the daemon's disk. *)
Record Host (W : Type) := mkHost { ho_server : W; ho_disk : Disk }.
Arguments mkHost {_} _ _.
Arguments ho_server {_} _.
Arguments ho_disk {_} _.
Definition on_server {W E A} (m : st W E A) : st (Host W) E A := λ h, let '(r, w) := m h.(ho_server) in (r, mkHost w h.(ho_disk)).
Definition on_disk {W E A} (m : st Disk E A) : st (Host W) E A := λ h, let '(r, d) := m h.(ho_disk) in (r, mkHost h.(ho_server) d).

Section agents.
Context `{Crypto} `{TrustSerde} {W : Type} `{MatrixServer W} `{AgentServer W}.
Context (parse_id : string → option RoomOrAliasId) (paths : SessionPaths) (git : string → list string → option (bool * option string)).
Context (from_secret : string → SigningKey) (show_key_error : SigningKeyError → string).
Abbreviation WM := (st W WorkspaceError).

Definition read_agent_state (me room_id agent_id : string) : WM (option AgentState) :=
  let! raw := matrix (sdk_get_agent_state me room_id agent_id) in
  match raw with
  | Some (Content a _) => ret (Some a)
  | Some Malformed => fail Matrix
  | Some Cleared | None => ret None
  end.
(** The end of [register_agent]: an unreadable store counts as empty, and a failure to save
    is only logged. *)
Definition anchor_own_key (now : Z) (agent_id : string) (key : VerifyingKey) (room trusted_by : string) (d : Disk) : Disk :=
  let '(r, d) := TrustStore_load paths d in
  let trust := match r with Ok store => store | Err _ => [] end in
  let '(changed, trust) := seed_local_key_trust trust now agent_id (key_id_for_verifying_key key) (fingerprint_of key) room trusted_by in
  if changed then (TrustStore_save paths trust d).2 else d.
Definition load_signing_key (random : option string) : st Disk WorkspaceError SigningKey := λ d,
  match load_or_create_signing_key paths random d with
  | (Ok secret, d) => (Ok (from_secret secret), d)
  | (Err e, d) => (Err (InvalidTarget ("could not load signing key: " +:+ show_key_error e)), d)
  end.
Definition registered_id (client : Client) (o : RegisterAgentOptions) : string :=
  let derived := derive_agent_id (client_user client) (unwrap_or client.(cl_device_id) "") in
  match o.(rgo_agent_id) with Some s => if s =s "" then derived else s | None => derived end.
(** What is published. *)
Definition registered_state (client : Client) (o : RegisterAgentOptions) (key : VerifyingKey) (now_ms state_rev : Z) : AgentState :=
  {| as_agent_id := registered_id client o; as_kind := o.(rgo_kind); as_matrix_user_id := client_user client;
     as_device_id := unwrap_or client.(cl_device_id) ""; as_signing_key_id := key_id_for_verifying_key key;
     as_signing_public_key := Some (encode_verifying_key key); as_status := "active"; as_capabilities := o.(rgo_capabilities);
     as_tools := o.(rgo_tools);
     as_workspace := {| aw_cwd := o.(rgo_cwd); aw_project_id := o.(rgo_project_id);
                        aw_git_commit := unwrap_or (git_output (git o.(rgo_cwd)) ["rev-parse"; "HEAD"]) "" |};
     as_load := {| al_running_invocations := 0; al_max_invocations := o.(rgo_max_invocations) |};
     as_last_seen_ts := now_ms; as_state_rev := state_rev; as_extra := ∅ |}.
Definition next_rev (previous : option AgentState) : Z := match previous with Some a => wrap_u64 (a.(as_state_rev) + 1) | None => 1 end.
Definition register_agent (client : Client) (o : RegisterAgentOptions) (now_ms now : Z) (random : option string) :
    st (Host W) WorkspaceError AgentState :=
  let me := client_user client in
  let! (room_id, _) := on_server (open_room parse_id me o.(rgo_room)) in
  let agent_id := registered_id client o in
  let! previous := on_server (read_agent_state me room_id agent_id) in
  let! signing := on_disk (load_signing_key random) in
  let key := verifying_key signing in
  let state := registered_state client o key now_ms (next_rev previous) in
  let! _ := on_server (send_workspace_state me room_id AGENT agent_id (AgentState_value state)) in
  let! _ := on_disk (λ d, (Ok tt, anchor_own_key now agent_id key room_id me d)) in
  ret state.

(** ** Queries *)

Definition sync_and_get_room (me target : string) : WM (string * RoomView) := open_room parse_id me target.
Definition from_state_with_registry (state : AgentState) (registry : ToolRegistry) : AgentTools :=
  {| at_agent_id := state.(as_agent_id); at_kind := state.(as_kind); at_status := state.(as_status);
     at_capabilities := state.(as_capabilities); at_tools := state.(as_tools);
     at_schemas := omap (ToolRegistry_resolve registry) state.(as_tools) |}.
Definition from_state (state : AgentState) : AgentTools := from_state_with_registry state ToolRegistry_builtin.
Definition room_agents (me room_id : string) : WM (list AgentState) :=
  let! raws := matrix (sdk_get_agent_states me room_id) in Prelude.lift (read_all_agent_states raws).
Definition sorted_matching (capabilities : list string) (agents : list AgentState) : list AgentState :=
  sort_by agent_le (List.filter (λ a, matches_capabilities a capabilities) agents).
Definition list_agents (client : Client) (o : ListAgentsOptions) : WM (list AgentState) :=
  let me := client_user client in
  let! (room_id, _) := sync_and_get_room me o.(lao_room) in
  let! agents := room_agents me room_id in
  ret (sorted_matching o.(lao_capabilities) agents).
Definition show_agent (client : Client) (room agent_id : string) : WM (option AgentState) :=
  let me := client_user client in
  let! (room_id, _) := sync_and_get_room me room in
  read_agent_state me room_id agent_id.
Definition agent_tools (client : Client) (room agent_id : string) : WM (option AgentTools) :=
  let! agent := show_agent client room agent_id in ret (from_state <$> agent).
Definition enrich (me room_id : string) (agents : list AgentState) (now : Z) : WM (list AgentListing) := λ w,
  let '(pages, w) := sdk_scan me room_id w in
  (Ok (enrich_with_liveness agents (read_latest_heartbeats agents MAX_HEARTBEAT_SCAN_EVENTS <$> pages) now), w).

Context {Session : Type} (restore_client : Session → WM Client).
Definition register_agent_for_session (session : Session) (o : RegisterAgentOptions) (now_ms now : Z) (random : option string) :
    st (Host W) WorkspaceError AgentState :=
  let! client := on_server (restore_client session) in register_agent client o now_ms now random.
Definition list_agents_for_session (session : Session) (o : ListAgentsOptions) : WM (list AgentState) :=
  let! client := restore_client session in list_agents client o.
Definition show_agent_for_session (session : Session) (room agent_id : string) : WM (option AgentState) :=
  let! client := restore_client session in show_agent client room agent_id.
Definition agent_tools_for_session (session : Session) (room agent_id : string) : WM (option AgentTools) :=
  let! client := restore_client session in agent_tools client room agent_id.
Definition list_agents_with_liveness_for_session (session : Session) (o : ListAgentsOptions) (now : Z) : WM (list AgentListing) :=
  let! client := restore_client session in
  let me := client_user client in
  let! (room_id, _) := sync_and_get_room me o.(lao_room) in
  let! agents := room_agents me room_id in
  enrich me room_id (sorted_matching o.(lao_capabilities) agents) now.
Definition show_agent_with_liveness_for_session (session : Session) (room agent_id : string) (now : Z) : WM (option AgentListing) :=
  let! client := restore_client session in
  let me := client_user client in
  let! (room_id, _) := sync_and_get_room me room in
  let! agent := read_agent_state me room_id agent_id in
  match agent with
  | None => ret None
  | Some agent => let! listings := enrich me room_id [agent] now in ret (last listings)
  end.
End agents.

(** ** The file under failures *)

Section file_laws.
Context `{TrustSerde} `{!TrustSerdeLaws} (dir : Path).
Let paths := for_data_dir dir.
Abbreviation file := (trust_store_file paths).
Definition same (fs0 fs : gmap Path Node) : Prop := fs !! file = fs0 !! file.

Lemma file_not name : name ≠ "trust.json" → file ≠ child dir name.
Proof. intros Hn Hj. unfold trust_store_file, child in Hj. cbn in Hj. apply app_inj_tail in Hj as []. congruence. Qed.
Lemma file_long p : (length p ≤ length dir)%nat → file ≠ p.
Proof. intros Hl <-. unfold trust_store_file, child in Hl. cbn in Hl. rewrite length_app in Hl. simpl in Hl. lia. Qed.
Lemma keeps_mkdirs I rest : ∀ prefix, (∀ p, (length p ≤ length prefix + length rest)%nat → keeps I (mkdir p)) → keeps I (create_dirs prefix rest).
Proof.
  induction rest as [|c rest IH]; intros prefix Hm; cbn [create_dirs]; [apply keeps_ret|]. apply keeps_bind; [apply Hm; rewrite length_app; simpl; lia|].
  intros _. apply IH. intros p Hp. apply Hm. rewrite length_app in Hp. simpl in *. lia.
Qed.
Lemma mkdir_same fs0 p : (length p ≤ length dir)%nat → keeps (same fs0) (mkdir p).
Proof.
  intros Hp. apply keeps_syscall; [|done]. intros fs Hfs. destruct (fs !! p) as [[]|]; try done. unfold same in *. cbn.
  rewrite lookup_insert_ne; [done|]. intros Hj. by apply (file_long p Hp).
Qed.
Lemma chmod_same fs0 : keeps (same fs0) (set_permissions dir MODE_0700).
Proof.
  apply keeps_syscall; [|done]. intros fs Hfs. destruct (fs !! dir) as [n|]; [|done]. unfold same in *. cbn.
  rewrite lookup_insert_ne; [done|]. intros Hj. by apply (file_long dir ltac:(lia)).
Qed.
Lemma ensure_same fs0 : keeps (same fs0) (ensure_data_dir paths).
Proof.
  unfold ensure_data_dir. apply keeps_bind; [auto with disk|]. intros there. destruct (negb there); [|auto with disk].
  apply keeps_bind; [|intros _; apply chmod_same]. apply keeps_mkdirs. intros p Hp. by apply mkdir_same.
Qed.
Lemma write_same fs0 name content :
  name ≠ "trust.json" → name +:+ ".tmp" ≠ "trust.json" → name +:+ ".tmp" ≠ name → keeps (same fs0) (write_private (child dir (name +:+ ".tmp")) (child dir name) content).
Proof.
  intros Hn Ht Hne d Hd. pose proof (write_private_spec (child dir (name +:+ ".tmp")) (child dir name) content d.(dk_fs)) as Hw.
  destruct (Hw ltac:(intros [_ Hj]%app_inj_tail; congruence) d eq_refl) as [Ho _].
  unfold same in *. rewrite Ho; [done|by apply file_not|by apply file_not].
Qed.
Lemma signing_key_same random d : (load_or_create_signing_key paths random d).2.(dk_fs) !! file = d.(dk_fs) !! file.
Proof.
  unfold load_or_create_signing_key. pose proof (keeps_read (same d.(dk_fs)) (signing_key_file paths) d eq_refl) as Hr.
  destruct (fs_read _ d) as [[c|[]] d1]; cbn [snd] in *; [done| |done]. unfold generate_and_store, bind, key_io.
  assert (keeps (same d.(dk_fs)) (with_data_dir_write_lock paths (ret tt))) as Hk.
  { apply keeps_bind; [apply ensure_same|intros _]. apply keeps_bind; [|intros _; apply keeps_bind; [by apply keeps_syscall|intros _; apply keeps_ret]].
    apply keeps_syscall; [|done]. intros fs Hfs. destruct (fs !! _) as [[]|]; try done. unfold same in *. cbn [snd]. by rewrite lookup_insert_ne by (symmetry; by apply file_not). }
  specialize (Hk d1 Hr). destruct (with_data_dir_write_lock paths (ret tt) d1) as [[[]|e] d2]; cbn [snd] in *; [|done].
  pose proof (keeps_read (same d.(dk_fs)) (signing_key_file paths) d2 Hk) as Hr2.
  destruct (fs_read _ d2) as [[c|[]] d3]; cbn [snd] in *; [done| |done]. destruct random as [secret|]; [|done].
  pose proof (write_same d.(dk_fs) "signing_key.ed25519" secret ltac:(done) ltac:(done) ltac:(done) d3 Hr2) as Hw.
  change (child (sp_data_dir paths) "signing_key.ed25519.tmp") with (child dir ("signing_key.ed25519" +:+ ".tmp")).
  change (signing_key_file paths) with (child dir "signing_key.ed25519"). destruct (write_private _ _ secret d3) as [[[]|e] d4]; done.
Qed.
(** A load changes nothing, and finds what the file holds if it succeeds. *)
Lemma load_spec d r d' : TrustStore_load paths d = (r, d') → d'.(dk_fs) = d.(dk_fs) ∧ ∀ s, r = Ok s → trust_at paths d.(dk_fs) = Some s.
Proof.
  unfold TrustStore_load, trust_at, on_not_found, bind, fs_read, syscall, nothing. generalize file as f. intros f. destruct d as [fs [|[|n x] calls]]; cbn; [by intros [= <- <-]| |by intros [= <- <-]].
  destruct (fs !! f) as [[mode c|mode]|]; cbn.
  - destruct (trust_from_slice c) eqn:E; cbn; intros Heq; simplify_eq/=; (split; [done|]); intros ? Hs; by simplify_eq.
  - intros [= <- <-]. done.
  - intros [= <- <-]. split; [done|]. intros ? Hs; by simplify_eq.
Qed.
(** A save leaves the file as it was, or with the store. *)
Lemma save_spec s d : let d' := (TrustStore_save paths s d).2 in
  d'.(dk_fs) !! file = d.(dk_fs) !! file ∨ trust_at paths d'.(dk_fs) = Some s.
Proof.
  unfold TrustStore_save, bind. pose proof (ensure_same d.(dk_fs) d eq_refl) as He.
  destruct (ensure_data_dir paths d) as [[[]|e] d1]; cbn [snd] in *; [|by left].
  pose proof (write_private_spec (child dir "trust.json.tmp") file (trust_to_vec_pretty s) d1.(dk_fs)) as Hw.
  destruct (Hw ltac:(intros [_ Hj]%app_inj_tail; congruence) d1 eq_refl) as [_ Hf].
  change (sp_data_dir paths) with dir. destruct (write_private _ _ _ d1) as [[[]|e] d2]; cbn [fst snd] in *.
  - right. unfold trust_at. destruct Hf as [-> _]. apply trust_roundtrip.
  - left. rewrite (proj1 Hf). done.
Qed.
End file_laws.

(** ** Seeding *)

Lemma seed_spec trust now a k fp room tb changed trust' :
  trust_wf trust → seed_local_key_trust trust now a k fp room tb = (changed, trust') →
  if changed then trust_wf trust' ∧ view trust !! (a, k) = None ∧ view trust' = <[(a, k) := Trusted]> (view trust)
  else trust' = trust ∧ view trust !! (a, k) ≠ None.
Proof.
  intros Hwf. unfold seed_local_key_trust. pose proof (is_trusted_view trust a k Hwf) as Ht. unfold is_trusted in *.
  destruct (trust_entry trust a k) as [e|] eqn:Ee.
  - unfold trust_entry in Ee. destruct (trust_position trust a k) as [i|] eqn:Ep; [|done]. cbn in Ee.
    apply trust_position_Some in Ep as (e' & He' & Hp). rewrite Ee in He'. injection He' as <-.
    assert (view trust !! (a, k) = Some e.(te_status)) as Hv by (rewrite <- Hp; apply view_lookup; [done|by eapply list_elem_of_lookup_2]).
    case_bool_decide; [intros [= <- <-]; split; [done|congruence]|]. unfold entry_is_trusted. destruct (te_status e) eqn:Es; [|done].
    rewrite bool_decide_eq_true_2 by done. intros [= <- <-]. split; [done|congruence].
  - assert (view trust !! (a, k) = None) as Hn.
    { apply view_lookup_None. unfold trust_entry in Ee. destruct (trust_position trust a k) as [i|] eqn:Ep; [|by apply trust_position_None].
      apply trust_position_Some in Ep as (e & He & _). cbn in Ee. congruence. }
    intros [= <- <-]. destruct (approve trust now a k (Some fp) (Some room) (Some tb)) as [s' e] eqn:Ea.
    destruct (approve_view _ _ _ _ _ _ _ _ _ Hwf Ea) as (? & ? & _). done.
Qed.

(** ** What a registration does *)

Section registration.
Context `{Crypto} `{!CryptoLaws} `{TrustSerde} `{!TrustSerdeLaws} {W : Type} `{MatrixServer W} `{AgentServer W}.
Context (parse_id : string → option RoomOrAliasId) (dir : Path) (git : string → list string → option (bool * option string)).
Context (from_secret : string → SigningKey) (show_key_error : SigningKeyError → string).
Abbreviation paths := (for_data_dir dir).
Abbreviation trusted_file := (trust_store_file paths).
Abbreviation register := (register_agent parse_id paths git from_secret show_key_error).

(** How the trust file of a store [s] changed: not at all, or the pair was in no record and is
    trusted now, every other record being kept. *)
Definition anchored (agent_id key_id : string) (s : TrustStore) (fs fs' : gmap Path Node) : Prop :=
  fs' !! trusted_file = fs !! trusted_file ∨
  view s !! (agent_id, key_id) = None ∧
  ∃ s', trust_at paths fs' = Some s' ∧ view s' = <[(agent_id, key_id) := Trusted]> (view s).

Lemma trust_at_same fs fs' : fs' !! trusted_file = fs !! trusted_file → trust_at paths fs' = trust_at paths fs.
Proof. unfold trust_at. by intros ->. Qed.
Lemma anchor_spec now a key room tb d s d1 :
  TrustStore_load paths d = (Ok s, d1) → trust_wf s →
  anchored a (key_id_for_verifying_key key) s d.(dk_fs) (anchor_own_key paths now a key room tb d).(dk_fs).
Proof.
  intros El Hwf. unfold anchor_own_key. rewrite El. pose proof (load_spec dir d (Ok s) d1 El) as [Hfs Hs].
  destruct (seed_local_key_trust _ _ _ _ _ _ _) as [changed s'] eqn:Es. pose proof (seed_spec _ _ _ _ _ _ _ _ _ Hwf Es) as Hseed.
  destruct changed; [|left; by rewrite Hfs]. destruct Hseed as (_ & Hn & Hv).
  destruct (save_spec dir s' d1) as [Hsame|Hsaved]; [left; by rewrite Hsame, Hfs|]. right. split; [done|]. by exists s'.
Qed.
Lemma signing_kept random d r d' : load_signing_key paths from_secret show_key_error random d = (r, d') → d'.(dk_fs) !! trusted_file = d.(dk_fs) !! trusted_file.
Proof.
  unfold load_signing_key. pose proof (signing_key_same dir random d) as Hs.
  destruct (load_or_create_signing_key _ random d) as [[secret|e] d1]; by intros [= _ <-].
Qed.
Lemma published_key (client : Client) o key now_ms rev :
  verifying_key_from_agent_state (registered_state git client o key now_ms rev) = Some key.
Proof.
  unfold verifying_key_from_agent_state. cbn. unfold decode_verifying_key, encode_verifying_key. rewrite b64_nopad_roundtrip. cbn.
  rewrite vk_bytes_length, vk_bytes_roundtrip. cbn. by rewrite str_eqb_refl.
Qed.

(** C18: a registration that succeeds has sent the state it returns, under the agent's id, to
    the room that was named; the state's revision is one more than that of the state it
    replaces; whoever reads it resolves the key the daemon signs with.  If the trust store can
    be read when the own key is anchored, then the trust file is left as it was or, whatever
    system call fails while it is saved, is the old one with the own key trusted for the
    agent, and the latter only if there was no record of that key for that agent: that
    record is never changed, a revocation included, and no other record is lost.  A
    registration that fails leaves the trust file alone. *)
Theorem registration_effects client o now_ms now random h r h' :
  (∀ s, trust_at paths h.(ho_disk).(dk_fs) = Some s → trust_wf s) →
  register client o now_ms now random h = (r, h') →
  match r with
  | Err _ => h'.(ho_disk).(dk_fs) !! trusted_file = h.(ho_disk).(dk_fs) !! trusted_file
  | Ok state =>
    (∃ room_id view previous w1 w2 event_id,
       open_room parse_id (client_user client) o.(rgo_room) h.(ho_server) = (Ok (room_id, view), w1) ∧
       read_agent_state (client_user client) room_id state.(as_agent_id) w1 = (Ok previous, w2) ∧
       sdk_send_state (client_user client) room_id AGENT state.(as_agent_id) (AgentState_value state) w2 = (Ok event_id, h'.(ho_server)) ∧
       state.(as_agent_id) = registered_id client o ∧ state.(as_matrix_user_id) = client_user client ∧ state.(as_state_rev) = next_rev previous) ∧
    (∃ key, (load_signing_key paths from_secret show_key_error random h.(ho_disk)).1 = Ok key ∧
       verifying_key_from_agent_state state = Some (verifying_key key)) ∧
    (∀ s d, TrustStore_load paths (load_signing_key paths from_secret show_key_error random h.(ho_disk)).2 = (Ok s, d) →
       trust_at paths h.(ho_disk).(dk_fs) = Some s ∧
       anchored state.(as_agent_id) state.(as_signing_key_id) s h.(ho_disk).(dk_fs) h'.(ho_disk).(dk_fs))
  end.
Proof.
  intros Hwf. unfold register_agent. unfold bind at 1, on_server at 1.
  destruct (open_room _ _ _ _) as [[[room_id view]|e] w1] eqn:E1; [|by intros [= <- <-]].
  unfold bind at 1, on_server at 1. cbn [ho_server ho_disk].
  destruct (read_agent_state _ _ _ w1) as [[previous|e] w2] eqn:E2; [|by intros [= <- <-]].
  unfold bind at 1, on_disk at 1. cbn [ho_server ho_disk].
  destruct (load_signing_key _ _ _ _ _) as [[key|e] d1] eqn:E3; pose proof (signing_kept _ _ _ _ E3) as Hk; [|by intros [= <- <-]].
  unfold bind at 1, on_server at 1, send_workspace_state, state_write. cbn [ho_server ho_disk].
  destruct (sdk_send_state _ _ _ _ _ w2) as [[ev|e] w3] eqn:E4; [|by intros [= <- <-]].
  unfold bind, on_disk, ret. intros [= <- <-]. cbn [ho_server ho_disk]. split_and!.
  - by exists room_id, view, previous, w1, w2, ev.
  - exists key. split; [done|apply published_key].
  - intros s d El. cbn [snd] in El. pose proof (load_spec dir d1 (Ok s) d El) as [_ Hs].
    specialize (Hs s eq_refl). rewrite (trust_at_same _ _ Hk) in Hs. split; [exact Hs|].
    destruct (anchor_spec now (registered_id client o) (verifying_key key) room_id (client_user client) d1 s d El (Hwf s Hs)) as [Hsame|Hnew];
      [left; etrans; [exact Hsame|exact Hk]|by right].
Qed.

Definition not_dir (n : option Node) : Prop := ∀ mode, n ≠ Some (Dir mode).
Lemma write_private_proceeds tmp file content fs calls :
  tmp ≠ file → not_dir (fs !! tmp) → not_dir (fs !! file) →
  (write_private tmp file content {| dk_fs := fs; dk_calls := Proceed :: Proceed :: Proceed :: Proceed :: calls |}).1 = Ok tt.
Proof.
  intros Hne Ht Hf. unfold write_private, bind, file_create, set_permissions, write_all, rename, append_to, syscall. cbn.
  destruct (fs !! tmp) as [[mode c|mode]|]; [|by destruct (Ht mode)|]; cbn; rewrite lookup_insert_eq; cbn; rewrite lookup_insert_eq; cbn;
    rewrite lookup_insert_eq, !lookup_insert_ne by done; (destruct (fs !! file) as [[mode' c'|mode']|]; [done|by destruct (Hf mode')|done]).
Qed.
Lemma readable_not_dir fs s : trust_at paths fs = Some s → not_dir (fs !! trusted_file).
Proof. unfold trust_at. intros Hs mode E. by rewrite E in Hs. Qed.
(** With a readable store, a data directory and five calls that go through, the own key is
    trusted afterwards unless it was revoked. *)
Theorem anchoring_completes now a key room tb d s calls :
  trust_at paths d.(dk_fs) = Some s → trust_wf s → is_Some (d.(dk_fs) !! dir) →
  not_dir (d.(dk_fs) !! child dir "trust.json.tmp") →
  d.(dk_calls) = Proceed :: Proceed :: Proceed :: Proceed :: Proceed :: calls →
  let fs' := (anchor_own_key paths now a key room tb d).(dk_fs) in
  view s !! (a, key_id_for_verifying_key key) = Some Revoked ∧ fs' !! trusted_file = d.(dk_fs) !! trusted_file ∨
  ∃ s', trust_at paths fs' = Some s' ∧ is_trusted s' a (key_id_for_verifying_key key) = true.
Proof.
  intros Hs Hwf [n Hdir] Htmp Hc. unfold anchor_own_key. destruct (TrustStore_load paths d) as [r d1] eqn:El.
  assert (r = Ok s ∧ d1 = {| dk_fs := d.(dk_fs); dk_calls := Proceed :: Proceed :: Proceed :: Proceed :: calls |}) as [-> ->].
  { revert El Hs. unfold TrustStore_load, trust_at, on_not_found, bind, fs_read, syscall. generalize trusted_file as f. intros f. rewrite Hc. cbn.
    destruct (dk_fs d !! f) as [[mode c|mode]|]; cbn; [|done|by intros [= <- <-] [= <-]].
    intros El Hs. rewrite Hs in El. cbn in El. by injection El as <- <-. }
  destruct (seed_local_key_trust _ _ _ _ _ _ _) as [changed s'] eqn:Es. pose proof (seed_spec _ _ _ _ _ _ _ _ _ Hwf Es) as Hseed. destruct changed.
  - destruct Hseed as (Hwf' & _ & Hv). right. exists s'. split; [|apply is_trusted_view; [done|by rewrite Hv, lookup_insert_eq]].
    set (d1 := {| dk_fs := d.(dk_fs); dk_calls := Proceed :: Proceed :: Proceed :: Proceed :: calls |}).
    assert (ensure_data_dir paths d1 = (Ok tt, d1)) as He.
    { unfold ensure_data_dir, bind, fs_exists. change (dk_fs d1 !! sp_data_dir paths) with (dk_fs d !! dir). by rewrite Hdir. }
    assert (child dir "trust.json.tmp" ≠ trusted_file) as Hne by (intros [_ Hj]%app_inj_tail; congruence).
    destruct (write_private_spec _ _ (trust_to_vec_pretty s') d.(dk_fs) Hne d1 eq_refl) as [_ Hw].
    unfold d1 in Hw at 1. rewrite (write_private_proceeds _ _ (trust_to_vec_pretty s') d.(dk_fs) calls Hne Htmp (readable_not_dir _ _ Hs)) in Hw.
    unfold TrustStore_save, bind. rewrite He. unfold trust_at. change (sp_data_dir paths) with dir. rewrite (proj1 Hw). apply trust_roundtrip.
  - destruct Hseed as [-> Hne]. cbn [dk_fs]. destruct (view s !! _) as [[]|] eqn:Ev; [|by left|done]. right. exists s. split; [done|]. by apply is_trusted_view.
Qed.
End registration.

(** ** Defects of the anchoring *)

Section defects.
Context `{Crypto} `{TrustSerde} `{!TrustSerdeLaws} (dir : Path).
Abbreviation paths := (for_data_dir dir).

(** The record that is looked up is that of the agent being registered, while a signature is
    accepted for a key that any record trusts: registering under another id trusts again a
    key that was revoked. *)
Theorem revocation_sidestepped s now a b key fp room tb :
  trust_wf s → view s !! (a, key) = Some Revoked → view s !! (b, key) = None →
  is_key_trusted (seed_local_key_trust s now b key fp room tb).2 key = true.
Proof.
  intros Hwf _ Hb. destruct (seed_local_key_trust _ _ _ _ _ _ _) as [changed s'] eqn:Es.
  pose proof (seed_spec _ _ _ _ _ _ _ _ _ Hwf Es) as Hseed. destruct changed; [|by destruct Hseed].
  destruct Hseed as (Hwf' & _ & Hv). apply is_key_trusted_view; [done|]. exists b. cbn [snd]. by rewrite Hv, lookup_insert_eq.
Qed.
(** A store that cannot be read is replaced by one with the own key alone: every other record
    is gone, revocations too. *)
Theorem unreadable_store_replaced now a key room tb d e d1 :
  TrustStore_load paths d = (Err e, d1) →
  let fs' := (anchor_own_key paths now a key room tb d).(dk_fs) in
  fs' !! trust_store_file paths = d.(dk_fs) !! trust_store_file paths ∨
  ∃ s', trust_at paths fs' = Some s' ∧ view s' = {[(a, key_id_for_verifying_key key) := Trusted]}.
Proof.
  intros El. unfold anchor_own_key. rewrite El. destruct (load_spec dir d _ _ El) as [Hfs _].
  destruct (seed_local_key_trust _ _ _ _ _ _ _) as [changed s'] eqn:Es. pose proof (seed_spec [] _ _ _ _ _ _ _ _ ltac:(constructor) Es) as Hseed.
  destruct changed; [|by destruct Hseed]. destruct Hseed as (_ & _ & Hv).
  destruct (save_spec dir s' d1) as [Hs|Hs]; [left; by rewrite Hs, Hfs|right; by exists s'].
Qed.
End defects.

(** ** The queries *)

Section queries.
Context {W : Type} `{MatrixServer W} `{AgentServer W} (parse_id : string → option RoomOrAliasId).
Context {Session : Type} (restore_client : Session → st W WorkspaceError Client).

(** The agents a listing has: those of the room that declare every capability asked for, by
    id. *)
Lemma sorted_matching_spec caps agents :
  Sorted.StronglySorted agent_le (sorted_matching caps agents) ∧
  ∀ a, a ∈ sorted_matching caps agents ↔ a ∈ agents ∧ ∀ c, c ∈ caps → c ∈ a.(as_capabilities).
Proof.
  split; [apply sort_by_sorted; [intros x y; apply (total String.le)|intros x y z; unfold agent_le; apply transitivity]|].
  intros a. unfold sorted_matching. rewrite sort_by_perm, list_elem_of_In, List.filter_In, <- list_elem_of_In. apply and_iff_compat_l.
  unfold matches_capabilities. rewrite forallb_forall. setoid_rewrite <- list_elem_of_In. apply forall_proper. intros c.
  rewrite existsb_elem. setoid_rewrite str_eqb_eq. naive_solver.
Qed.
(** With a verdict on liveness or without, a query finds the same agents or the same error. *)
Theorem liveness_queries_agree session o room agent_id now w :
  match (list_agents_for_session parse_id restore_client session o w).1, (list_agents_with_liveness_for_session parse_id restore_client session o now w).1 with
  | Ok agents, Ok listings => map li_agent listings = agents
  | Err e, Err e' => e = e'
  | _, _ => False
  end ∧
  match (show_agent_for_session parse_id restore_client session room agent_id w).1, (show_agent_with_liveness_for_session parse_id restore_client session room agent_id now w).1 with
  | Ok agent, Ok listing => li_agent <$> listing = agent
  | Err e, Err e' => e = e'
  | _, _ => False
  end.
Proof.
  split.
  - unfold list_agents_for_session, list_agents_with_liveness_for_session, list_agents, bind, ret, enrich.
    repeat (case_match; simplify_eq/=; try done). unfold enrich_with_liveness. rewrite map_map. apply map_id.
  - unfold show_agent_for_session, show_agent_with_liveness_for_session, show_agent, bind, ret, enrich.
    repeat (case_match; simplify_eq/=; try done).
Qed.
End queries.

(** ** An example *)

Module AgentsExample.
#[local] Existing Instance Signing.Toy.toy_crypto.
#[local] Existing Instance Signing.Toy.toy_laws.
#[local] Existing Instance Workspace.Toy.server.
(** A codec of stores: the binary digits of their code. *)
#[local] Instance TrustStatus_countable : Countable TrustStatus.
Proof.
  refine (inj_countable' (λ s, match s with Trusted => true | Revoked => false end) (λ b : bool, if b then Trusted else Revoked) _). by intros [].
Defined.
#[local] Instance TrustEntry_eq_dec : EqDecision TrustEntry.
Proof. solve_decision. Defined.
#[local] Instance TrustEntry_countable : Countable TrustEntry.
Proof.
  refine (inj_countable' (λ e, (e.(te_agent_id), (e.(te_key_id), (e.(te_fingerprint), (e.(te_status), (e.(te_room), (e.(te_trusted_by), (e.(te_created_at), e.(te_revoked_at)))))))))
    (λ '(a, (k, (f, (s, (r, (t, (c, v))))))), Build_TrustEntry a k f s r t c v) _). by intros [].
Defined.
Fixpoint digits (p : positive) : string := match p with xH => "" | xO p => String "0" (digits p) | xI p => String "1" (digits p) end.
Fixpoint number (s : string) : positive := match s with "" => xH | String c s => if Ascii.eqb c "0" then xO (number s) else xI (number s) end.
Lemma number_digits p : number (digits p) = p.
Proof. induction p; cbn; congruence. Qed.
#[local] Instance trust_serde : TrustSerde := {| trust_to_vec_pretty s := digits (countable.encode s); trust_from_slice c := countable.decode (number c) |}.
#[local] Instance trust_serde_laws : TrustSerdeLaws.
Proof. split. intros s. cbn. by rewrite number_digits, decode_encode. Qed.
#[local] Instance agent_server : AgentServer Workspace.Toy.Server :=
  {| sdk_get_agent_state me room id := ret None; sdk_get_agent_states me room := ret []; sdk_scan me room w := (Some [], w) |}.

Definition client : Client := {| cl_user_id := Some "@me:s"; cl_device_id := Some "D1" |}.
Definition options : RegisterAgentOptions :=
  {| rgo_room := "!r"; rgo_agent_id := None; rgo_kind := DEFAULT_AGENT_KIND; rgo_capabilities := ["shell"]; rgo_tools := []; rgo_cwd := "/w";
     rgo_project_id := "p"; rgo_max_invocations := DEFAULT_MAX_INVOCATIONS |}.
(** The operator trusts one key of another agent and has revoked a second one. *)
Definition store : TrustStore := (revoke (approve (approve [] 1 "bob" "k1" None None None).1 1 "bob" "k2" None None None).1 2 "bob" "k2").1.
Definition dir : Path := ["data"].
Definition fs : gmap Path Node := {[dir := Dir MODE_0700; trust_store_file (for_data_dir dir) := File MODE_0600 (trust_to_vec_pretty store)]}.
Definition host : Host Workspace.Toy.Server :=
  mkHost Workspace.Toy.created.2 {| dk_fs := fs; dk_calls := repeat Proceed 20 |}.
Definition out : result AgentState WorkspaceError * Host Workspace.Toy.Server :=
  register_agent (λ s, Some (RoomId s)) (for_data_dir dir) (λ _ _, None) (λ _, tt) (λ _, "") client options 5000 5 (Some Signing.Toy.key_bytes) host.
Lemma store_held s : trust_at (for_data_dir dir) fs = Some s → trust_wf s.
Proof.
  unfold trust_at. replace (fs !! trust_store_file (for_data_dir dir)) with (Some (File MODE_0600 (trust_to_vec_pretty store)))
    by (unfold fs; by rewrite lookup_insert_ne, lookup_singleton_eq). rewrite trust_roundtrip. intros [= <-]. by apply (bool_decide_unpack _).
Qed.
Definition published : AgentState := registered_state (λ _ _, None) client options (tt : VerifyingKey) 5000 1.
Lemma registers :
  out = (Ok published, out.2) ∧
  (map (λ e, (pair_of e, e.(te_status))) <$> trust_at (for_data_dir dir) out.2.(ho_disk).(dk_fs)) =
    Some [(("bob", "k1"), Trusted); (("bob", "k2"), Revoked); (("me-D1", published.(as_signing_key_id)), Trusted)].
Proof. vm_compute. done. Qed.
Lemma registration_effects_witness :
  out.1 = Ok published ∧ ∃ s, trust_at (for_data_dir dir) fs = Some s ∧ anchored dir "me-D1" published.(as_signing_key_id) s fs out.2.(ho_disk).(dk_fs).
Proof.
  split; [by rewrite (proj1 registers)|].
  destruct (registration_effects (H := Signing.Toy.toy_crypto) (λ s, Some (RoomId s)) dir (λ _ _, None) (λ _, tt) (λ _, "") client options 5000 5 (Some Signing.Toy.key_bytes) host
    (Ok published) out.2 store_held (proj1 registers)) as (_ & _ & Ha).
  destruct (TrustStore_load (for_data_dir dir) (load_signing_key (H := Signing.Toy.toy_crypto) (for_data_dir dir) (λ _, tt) (λ _, "") (Some Signing.Toy.key_bytes) host.(ho_disk)).2) as [[s|e] d] eqn:El;
    [|apply (f_equal (λ x, is_ok x.1)) in El; vm_compute in El; discriminate El].
  exists s. exact (Ha s d eq_refl).
Defined.
End AgentsExample.
